(* ===== verification/_CoqProject ===== *)
-Q . S2P
Prelude.v
Word.v
MulDiv.v
SwapMath.v
LogExp.v
Types.v
UniswapV2.v
TickMath.v
V4Storage.v
UniswapV3.v
Balancer.v
Curve.v
CurveCrypto.v
Dodo.v
Woofi.v
Gas.v
Profit.v
GasOracle.v
Arena.v
Routes.v
Realign.v
LocalSim.v
RouteSimCache.v
Golden.v
SimSanity.v
TokenRates.v
Ternary.v
Fidelity.v
Nonce.v
Risk.v
Pnl.v
Submit.v
Settle.v
FlashLiquidity.v
Assess.v
Prepare.v
Abi.v
Calldata.v
Candidate.v
Revert.v
DryRun.v
Dispatch.v
CycleRank.v
SpotPrice.v
Graph.v
Coverage.v
GraphEdges.v
GraphOps.v
GraphInv.v
GraphSteps.v
GraphClaims.v
Bridges.v
CoverageClaims.v
Deadline.v
BellmanFord.v
BellmanFordInv.v
BellmanFordClaims.v
ActiveGraph.v
CycleDfs.v
CycleDfsInv.v
CycleDfsClaims.v
CycleFilter.v
CycleFilterClaims.v
CycleSearch.v
CycleSearchClaims.v
StateCache.v
GraphCache.v
LowFreq.v
LowFreqClaims.v
Snapshot.v
