(* ===== verification/Prelude.v ===== *)
(** * rpbot: a verification development

    rpbot is a Rust arbitrage bot for the Polygon chain.  It keeps the states of
    liquidity pools in memory, searches cycles of swaps that return to their start
    token, simulates each cycle with the exact integer mathematics of the pools,
    searches the best size, prices the result against gas and flash-loan fees, and
    submits the cycles that survive.  This library models that core: from the pool
    mathematics through the sizing and the gate that says whether a route is executed
    to the submission of the transaction, its receipt and the books.

    ** The program's parts and how they interact

    - [src/src/core/math/*.rs]: pure quote functions, one file per venue.
    - [src/src/core/types.rs], [constants.rs], [v4_storage.rs]: the pool states the
      quotes read, the routes, and the decoding of packed storage words.
    - [src/src/pipeline/arena.rs]: the store of pool states.  Tokens and pools get
      dense indices; the fast path overlays fresher states by index.
    - [src/src/pipeline/local_sim.rs], [route_calls.rs], [curve_sim.rs]: repair of a
      cached cycle against the arena, simulation hop by hop, classification of
      failures, and the gates that compare a simulation with a fresher one.
    - [src/src/pipeline/{ternary,sim_sanity,route_sim_cache}.rs]: the size of a
      cycle, searched over memoized simulations inside a window the pools, the loan cap
      and the sanity gate allow.  [src/src/services/oracle/*.rs]: rates and decimals.
    - [src/src/services/execution/{support,gas_oracle,profit}.rs]: gas limits and
      prices, the history of observed gas, and the profit gate.
    - [src/src/services/execution/flash_liquidity.rs]: what can be borrowed, the plan of
      the flash loan, and the preparation of a dispatch, which calls the size search,
      the simulation and the profit gate once more.
    - [src/src/services/execution/calldata/**.rs], [candidate.rs], [quote.rs]: the calls
      the executor contract makes for a route, and their packing into one payload.
    - [src/src/services/execution/{dryrun,revert_decoder,service}.rs]: what happens to a
      candidate: the gates, the dry run on a node, what a revert says about the route, the
      second assessment, and the hand-over to the submission.
    - [src/src/services/execution/{nonce,submit,recovery,mempool,receipt,
      profit_sweep,service}.rs] and [service/*.rs]: the nonces of the operator, the cool-downs and what is
      learned of routes, the books, the sending of a transaction with its retries, and
      the settlement of its receipt, which teaches the gas oracle and the risk tables.
    - [src/src/pipeline/{graph,graph_base_view,spot_price,types}.rs], [cycle_finder.rs],
      [cycle_filter.rs]: the graph of tokens and pools, where a pool of many tokens gets a
      node of its own (a hub); the price of its edges; the ranking of the cycles found.
      The graph is kept between passes: pools are attached and removed in place, and the
      index from pools to edges follows.
    - [src/src/pipeline/{weighted_graph,negative_cycle,bellman_ford,deadline}.rs]: the
      search of profitable cycles by bounded relaxation, and its clock;
      [cycle_finder.rs]: the search by depth first, hubs included; [cycle_search.rs]: the
      choice between them, and the path of what they find through [cycle_filter.rs].
    - [src/src/services/state_cache.rs], [pipeline/graph_cache.rs], [orchestrator/lf.rs]: the
      states the streams write, what a pass leaves to the next, and the low-frequency pass that
      joins the parts above: it overlays the changed states, builds or reprices the graph,
      attaches what is missing, searches when it must, and publishes graph and cycles.

    ** The files

    - [Prelude]: panics, notations, tactics, hint databases, generic lemmas.
    - [Word], [MulDiv]: 256 and 512-bit words ([util.rs]), [x * y / d] at full
      precision ([core/math/mod.rs]), 18-decimal products ([fixed_point.rs]).
    - [SwapMath]: [sqrt_price_math.rs], [swap_math.rs].  [TickMath]: [tick_math.rs].
      [UniswapV3]: [uniswap_v3.rs].  [V4Storage]: [v4_storage.rs].
    - [UniswapV2], [LogExp], [Balancer], [Curve], [CurveCrypto], [Dodo], [Woofi]:
      the files of [core/math] of those names.
    - [Types]: [core/types.rs] and [core/constants.rs].
    - [Gas]: the gas half of [support.rs].  [GasOracle]: [gas_oracle.rs].
      [Profit]: [profit.rs].
    - [Arena]: [arena.rs].  [Routes]: [route_calls.rs] and the gas budget of
      [local_sim.rs].  [Realign], [LocalSim], [Fidelity]: the rest of
      [local_sim.rs], in the order of that file.
    - [RouteSimCache], [SimSanity]: the files of those names.  [Golden]: the
      golden-section search of [ternary.rs], [Ternary] the rest of it.  [TokenRates]:
      [oracle/rates.rs] and the decimals, hub and merge functions of [oracle/mod.rs].
    - [Nonce]: [nonce.rs].  [Risk]: [service/risk.rs] and [service/route_stats.rs].
      [Pnl]: [service/pnl.rs].  [Submit]: [submit.rs], [recovery.rs],
      [mempool.rs] and the error classification of [support.rs].  [Settle]:
      [receipt.rs], [profit_sweep.rs], [finalize_receipt] and, of [process_candidate] in
      [service.rs], the part from the nonce reservation on.
    - [FlashLiquidity]: [flash_liquidity.rs] up to the preparation, the reserve flags of
      [aave.rs].  [Assess]: the assessment entry points of [profit.rs] and what
      [candidate.rs] does with them.  [Prepare]: [prepare_evaluated_route].
    - [Abi]: the types of [abis.rs], [calldata/approvals.rs], [calldata/hash.rs] and the packed
      payload.  [Calldata]: the rest of [calldata/mod.rs], its [encoders], [quote.rs] and the
      labels of [protocol.rs] they test.  [Candidate]: [build_execution_candidate].
    - [Revert]: [revert_decoder.rs] and the functions at the end of [service.rs] that
      read a decoded revert.  [DryRun]: [dryrun.rs].  [Dispatch]: [process_candidate] of
      [service.rs] as a whole; its part from the nonce reservation on is in [Settle].
    - [CycleRank]: the orders of [pipeline/types.rs], [cycle_filter.rs]'s deduplication and
      the protocol-diverse selection of [cycle_finder.rs].  [SpotPrice]: [spot_price.rs].
    - [Graph]: the graph of [pipeline/types.rs] and the counts of [graph_base_view.rs].
      [Coverage]: [cycle_capable_coverage] of [cycle_finder.rs].  [GraphEdges]: the first half
      of [graph.rs], which pools and edges are admitted.  [GraphOps]: the rest, the operations
      on the graph.  [GraphInv] and [GraphSteps] prove its invariant, [GraphClaims] draws the
      conclusions for the reachable graphs.
    - [Deadline]: [deadline.rs].  [BellmanFord]: [weighted_graph.rs], [negative_cycle.rs] and
      [bellman_ford.rs].  [BellmanFordInv]: its invariants, [BellmanFordClaims]: what a found
      cycle is on a reachable graph.  [Bridges] proves the search for bridges of [Coverage]
      right, [CoverageClaims] that the coverage drops no cycle.
    - [ActiveGraph]: the view of the graph the depth-first search walks and its pruning, from
      [cycle_finder.rs].  [CycleDfs]: the search, its shards and passes.  [CycleDfsInv]: its invariants, [CycleDfsClaims]: what it finds on a
      reachable graph, what the pruning keeps and what it loses.
    - [CycleFilter]: the rest of [cycle_filter.rs], the priced start and the prefilter;
      [CycleFilterClaims]: what they do.  [CycleSearch]: [cycle_search.rs];
      [CycleSearchClaims]: what a search returns in every mode.
    - [StateCache]: [state_cache.rs].  [GraphCache]: [graph_cache.rs].  [LowFreq]:
      [run_lf_cpu_work] of [lf.rs] and its helpers; [LowFreqClaims]: what a pass publishes.
      [Snapshot]: the selection of [run_lf_tick] after it.
    A definition has the name of the Rust item it translates.  The helpers that
    stand for a loop or a block of a function ([v3_walk_body], [walk_loop],
    [assess_gate], ...) are defined just before the function they belong to.

    ** Conventions

    - Integers are [Z].  [U256] arithmetic wraps modulo [2^256] exactly where the
      Rust operator does ([wadd], [wsub], [wmul]), and so does primitive
      arithmetic: the release profile has no overflow checks.
    - Division by zero aborts the process.  Where the code guards the divisor the
      model divides; elsewhere it uses [pdiv] and returns an [outcome].  Then
      [outcome (option A)] is a Rust [Option<A>] whose evaluation may panic.
    - [Option] and [Result] are [option], or a sum when the error is used.
    - [&mut] arguments are passed and returned.  A type behind a lock or made of
      atomics is a record, each of its methods one atomic step; a write of the state cache
      is several, since it marks what it changed after it has released the lock, and
      [StateCache] interleaves them.
    - [f64] is the Standard Library's executable [spec_float].
    - Code outside the repository is a parameter: [keccak256] in [V4Storage] and [Abi], the
      ABI encoder in [Abi], the text of an address, its parser, the lossy UTF-8 conversion and
      the hex decoder in [Revert] and [DryRun], the
      FxHash digest of the arena's layout in [Arena], the iteration order of a hash map
      where the code iterates over one (each entry once), the network provider with
      its multicalls and the ABI decoders in [FlashLiquidity], [DryRun], [Submit], [Settle]
      and [Dispatch]; the route digest of [cycle_filter.rs] in [CycleRank]; [ln] and [ln_1p]
      of [f64] in [SpotPrice] and the files that price edges; the clock in [Deadline] and the
      searches, as the answer to each of its readings; the digest of the pool families in
      [GraphCache]; what other threads do to the state cache between two of its readings by
      a pass in [LowFreq].
      A hash set that is iterated is a [gset] read in the order of its [elements], and a
      rayon loop runs its items in order.
      A provider is a state that each request may change, so it can answer anything at
      any time.  Clock readings are arguments.

    ** What the theorems show

    - Money: an executable assessment really clears the fee, slippage, gas, profit
      and return thresholds, and each rejection has its exact condition
      ([Profit]); a hop never pays more than the pool holds ([LocalSim]).
    - Size: the search reports simulations, scores no seed above its result, stays in
      its window and stops; the borrow cap bounds the dollars; the sanity gate accepts
      exactly what it says ([Ternary], [Golden], [SimSanity]).
    - Loans: the cached liquidity is what the chain answered, for the right token; a plan
      is funded by its own source, and a prepared dispatch is a gated simulation within
      the caps with an approving assessment ([FlashLiquidity], [Assess], [Prepare]).
    - Calls: the hops encoded are the route that was simulated; each hop spends what the
      previous one paid to the address it paid, and no more than it insists on; the payload
      reads back; a candidate carries the assessed trade and pays the executor
      ([Calldata], [Abi], [Candidate]).
    - Dispatch: what is sent has passed every gate, dry run included; a failed dry run
      touches no money and cools its route; dry-run mode depends on nothing the submission
      uses; every candidate gets an outcome, unless a refusal carries revert data that
      aborts the decoder; the executor's errors are understood, and what a hostile revert does ([Dispatch], [DryRun], [Revert]).
    - Execution: no two claims of a route overlap; a nonce is given once, kept while its
      transaction may be mined and freed only when it cannot; the retries keep the
      reservation; a settled receipt moves the totals by exactly what it carries, and the
      books agree with the ledger of what was recorded ([Risk], [Nonce], [Submit],
      [Settle], [Pnl]).
    - Venues: the constant-product check holds after every V2 quote; a V3 step
      conserves the input, and the walk stays between the current price and the
      limit and charges the whole input when it says so; Curve and Balancer
      Newton results lie on or within one unit of their curve; a WOOFi round trip
      gains nothing; the Curve crypto cache does not change a quote.
    - Conversions: ticks and prices, storage words, linear-pool balances and
      exponentials round trip or equal a reference computation.
    - Routes: the detailed simulation refines the hop-by-hop semantics; the minimal
      simulation is its projection; the failure classifier names a failure exactly
      when the simulation fails; realigned and healed cycles are continuous and
      agree with the pool metadata and states; resimulation gates accept exactly
      the routes within the drift limits.
    - State: registrations and overlays preserve the arena's invariant, recording
      and refreshing preserve the gas oracle's; the simulation cache, the nonce manager
      and the liquidity cache keep theirs; what was written is read back.

    - Graph: whatever sequence of attachments, removals, thinnings and rescorings built it,
      every edge is in its place, the index names exactly the places of a pool, the cached
      counts are those of a full scan, and a removal by index equals one by full scan; a
      rescored edge carries the price of the pool state ([GraphClaims]).
    - Search: what Bellman-Ford returns is a simple closed walk of live edges that fits the
      executor, and its ratio is the product of the prices; the ranking keeps the best of
      each route and serves every protocol; a search ends soon after its deadline
      ([BellmanFordClaims], [CycleRank], [SpotPrice], [Deadline]).  The coverage keeps every
      edge of a cycle ([CoverageClaims]).  What the depth-first search returns is a simple
      closed walk along live edges and priced hub legs that fits the executor and clears its
      bar, and it gives its arrays back; its bound cuts off no profit along direct edges, but
      a token that only hubs leave is cut unless the walk gains already ([CycleDfsClaims]).
      The retained start of a cycle is its best priced token, the prefilter gives no place of
      a paying cycle to a rescued one ([CycleFilterClaims]), and whatever the mode a search
      returns sound, distinct cycles within its quota ([CycleSearchClaims]).
    - Passes: no write to the state cache goes unmarked as far as price levels go, though the
      mark can come after a drain that could have had it ([StateCache]); a pass leaves a reachable graph and cycles that are sound or were
      cached, none with a dust pool; when it searches, exactly, and what it does when it does
      not ([LowFreqClaims]); the selection after it loses no live route below its floor
      ([Snapshot]).

    ** Bounds and fuel

    Every loop of the code has a bound, which is the fuel of the model, so no
    fuel is invented: 255 Newton iterations for Balancer, 128 for Curve and Curve crypto
    and 500 tick steps for V3 (beyond them the code, and so the model, returns the
    failure the theorems mention), the configured iterations of the size search and
    12 or 48 bisections of its clamps, three attempts of a submission; the loops over a
    slice are structural on the list; the diverse
    selection makes at most as many rounds as it keeps cycles, and relaxation and extraction
    at most [HOP_CAP] of them.  Eight loops have no such bound, and each comes
    with the proof that its fuel is enough: the binary search over ticks, which halves
    an interval below [2^21] ([TickMath]), the expansion of the spoke tokens, which
    visits each pool once ([TokenRates]), the search for the next free nonce, which
    passes the held ones ([Nonce]), the decoder of nested reverts, each shorter than the one
    around it ([Revert]), the receipt poller, whose every round takes at
    least a nanosecond of its timeout ([Settle]), the depth-first search of the cycle
    coverage, each step of which reads an incidence or leaves a node ([Coverage], proved in [Bridges]),
    the walk back over the predecessors, which marks a node per step ([BellmanFord]), and the
    recursion of the cycle search, which passes at most one hub per hop ([CycleDfs], proved
    in [CycleDfsInv]).  The theorems on
    functional behaviour state when the loops converge or under which guard the
    result is right; those on totality ([minimal_sim_failure_iff],
    [assess_profit_reason_iff], ...) hold without hypothesis.

    ** What is not modelled

    Network, database, configuration, logging, the terminal interface and the
    asynchronous orchestration (of [lf.rs] the ticks around the pass, [hf*.rs]); signing and the relay requests
    behind a submission; the discovery synchronisation of the arena; the slippage
    estimator of [support.rs].  The counters and diagnostics of modelled functions are
    left out as they do not feed back. *)
From Stdlib Require Export ZArith Lia Bool.
From stdpp Require Export base list numbers sets.

(** ** Panics

    The code base is built with [panic = "abort"], and a [U256] division by
    zero panics.  Code whose divisors are not guarded by the code itself returns
    an [outcome]: [Panic] is the abort. *)
Inductive outcome (A : Type) : Type :=
| Done (a : A)
| Panic.
Arguments Done {A} a.
Arguments Panic {A}.

Definition obind {A B} (m : outcome A) (k : A → outcome B) : outcome B :=
  match m with Done a => k a | Panic => Panic end.

Lemma Done_inj {A} (a b : A) : Done a = Done b → a = b.
Proof. congruence. Qed.

(** A postcondition passes through a bind: what came first returned, and the rest did. *)
Lemma obind_Done {A B} (m : outcome A) (k : A → outcome B) b : obind m k = Done b → ∃ a, m = Done a ∧ k a = Done b.
Proof. destruct m as [a|]; [|done]. by exists a. Qed.

(** A loop whose body may panic. *)
Fixpoint ofold {A B} (f : A → B → outcome A) (l : list B) (a : A) : outcome A :=
  match l with
  | [] => Done a
  | b :: l => obind (f a b) (ofold f l)
  end.

(** A loop that returns at the first element that satisfies the test. *)
Fixpoint oany {A} (p : A → outcome bool) (l : list A) : outcome bool :=
  match l with
  | [] => Done false
  | x :: l => obind (p x) (λ b, if b then Done true else oany p l)
  end.

Fixpoint omapM {A B} (f : A → outcome B) (l : list A) : outcome (list B) :=
  match l with
  | [] => Done []
  | x :: l => obind (f x) (λ y, obind (omapM f l) (λ ys, Done (y :: ys)))
  end.

(** An invariant of the body is an invariant of the loop. *)
Lemma ofold_inv {A B} (P : A → Prop) (f : A → B → outcome A) l : ∀ a a',
  (∀ a b a', b ∈ l → P a → f a b = Done a' → P a') → P a → ofold f l a = Done a' → P a'.
Proof.
  induction l as [|b l IH]; intros a a' Hf Ha; cbn; [by intros [= <-]|].
  destruct (f a b) as [a1|] eqn:E; [|done]. cbn. apply IH.
  - intros x y x' Hy. apply Hf. by right.
  - eapply Hf; [by left|exact Ha|exact E].
Qed.

Lemma fold_left_inv {A B} (P : A → Prop) (f : A → B → A) (l : list B) : ∀ a,
  P a → (∀ a b, b ∈ l → P a → P (f a b)) → P (fold_left f l a).
Proof.
  induction l as [|b l IH]; intros a Ha Hf; cbn [fold_left]; [done|].
  apply IH; [apply Hf; [left|done]|]. intros x y Hy. apply Hf. by right.
Qed.

Lemma omapM_Forall2 {A B} (f : A → outcome B) l : ∀ l',
  omapM f l = Done l' → Forall2 (λ x y, f x = Done y) l l'.
Proof.
  induction l as [|x l IH]; intros l'; cbn; [intros [= <-]; constructor|].
  destruct (f x) as [y|] eqn:E; [|done]. cbn. destruct (omapM f l) as [ys|]; [|done].
  intros [= <-]. constructor; auto.
Qed.

Declare Scope rust_scope.
Delimit Scope rust_scope with rust.

(** [let x = m;] where evaluating [m] may panic. *)
Notation "'let!' x ':=' m 'in' k" := (obind m (λ x, k))
  (at level 10, x name, m at level 100, k at level 200) : rust_scope.
(** [let x = e?;] in a function that returns [Option]. *)
Notation "'let?' x ':=' e 'in' k" :=
  (match e with Some x => k | None => None end)
  (at level 10, x name, e at level 100, k at level 200) : rust_scope.
(** [let Some(x) = e else { return r };] *)
Notation "'let_some' x ':=' e 'or' r 'in' k" :=
  (match e with Some x => k | None => r end)
  (at level 10, x name, e at level 100, r at level 100, k at level 200) : rust_scope.
Open Scope rust_scope.
Open Scope Z_scope.

(** ** Integer lemmas shared by the components *)

(** Ceiling division, the reference meaning of the round-up helpers. *)
Definition cdiv (a b : Z) : Z := a / b + (if a mod b =? 0 then 0 else 1).

Section division.
Context (a b : Z) (Hb : 0 < b).

Lemma div_lower q : q * b ≤ a → q ≤ a / b.
Proof using Hb. intros. apply Z.div_le_lower_bound; lia. Qed.

Lemma div_upper q : a < q * b → a / b < q.
Proof using Hb. intros. apply Z.div_lt_upper_bound; lia. Qed.

Lemma div_mul_le : a / b * b ≤ a.
Proof using Hb. pose proof (Z.mul_div_le a b Hb). lia. Qed.

Lemma div_mul_gt : a < (a / b + 1) * b.
Proof using Hb. pose proof (Z.mul_succ_div_gt a b Hb). lia. Qed.

Lemma cdiv_mul_ge : a ≤ cdiv a b * b.
Proof using Hb.
  unfold cdiv. pose proof (Z.div_mod a b ltac:(lia)).
  pose proof (Z.mod_pos_bound a b Hb). destruct (Z.eqb_spec (a mod b) 0); nia.
Qed.

Lemma cdiv_mul_lt : (cdiv a b - 1) * b < a.
Proof using Hb.
  unfold cdiv. pose proof (Z.div_mod a b ltac:(lia)).
  pose proof (Z.mod_pos_bound a b Hb). destruct (Z.eqb_spec (a mod b) 0); nia.
Qed.

(** The universal property of the ceiling: [cdiv a b] is the least [q] with
    [a ≤ q * b]. *)
Lemma cdiv_le_iff q : cdiv a b ≤ q ↔ a ≤ q * b.
Proof using Hb.
  pose proof cdiv_mul_ge. pose proof cdiv_mul_lt. split; intros; nia.
Qed.

Lemma lt_cdiv_iff q : q < cdiv a b ↔ q * b < a.
Proof using Hb. pose proof (cdiv_le_iff q). lia. Qed.

Lemma div_le_cdiv : a / b ≤ cdiv a b ≤ a / b + 1.
Proof using Hb. unfold cdiv. destruct (_ =? _); lia. Qed.

Lemma cdiv_nonneg : 0 ≤ a → 0 ≤ cdiv a b.
Proof using Hb. intros. pose proof div_le_cdiv. pose proof (Z.div_pos a b). lia. Qed.

End division.

Lemma div_div_floor a b c : 0 < b → 0 < c → a / b / c = a / (b * c).
Proof. intros. apply Z.div_div; lia. Qed.

(** Rounding up twice is rounding up once. *)
Lemma cdiv_cdiv a b c : 0 < b → 0 < c → cdiv (cdiv a b) c = cdiv a (b * c).
Proof.
  intros Hb Hc. assert (0 < b * c) by nia.
  apply Z.le_antisymm.
  - apply cdiv_le_iff; [done|]. apply cdiv_le_iff; [done|].
    pose proof (cdiv_mul_ge a (b * c) ltac:(done)). nia.
  - apply cdiv_le_iff; [done|].
    pose proof (cdiv_mul_ge a b Hb). pose proof (cdiv_mul_ge (cdiv a b) c Hc). nia.
Qed.

Lemma div_le_mono_num a a' b : 0 < b → a ≤ a' → a / b ≤ a' / b.
Proof. intros. by apply Z.div_le_mono. Qed.

Lemma mul_ratio_le n f d : 0 ≤ n → 0 ≤ f ≤ d → 0 < d → 0 ≤ n * f / d ≤ n.
Proof.
  intros. split; [apply Z.div_pos; nia|]. apply Z.div_le_upper_bound; nia.
Qed.

(** One Newton step for [y^2 + e*y = c], from any point with a positive
    derivative, lands on or above the curve: the pool solvers rely on it. *)
Lemma newton_above e c y q :
  y * y + c ≤ q * (2 * y + e) → c ≤ q * q + e * q.
Proof. pose proof (Z.square_nonneg (q - y)). nia. Qed.

(** Above the curve the step does not move up, and the derivative is positive. *)
Lemma newton_descends e c y :
  0 < y → 0 < c → c ≤ y * y + e * y → 0 < y + e ∧ y * y + c ≤ y * (2 * y + e).
Proof.
  intros. split; [|nia]. destruct (Z.lt_ge_cases 0 (y + e)); [done|].
  assert (y * (y + e) ≤ 0) by (apply Z.mul_nonneg_nonpos; lia). nia.
Qed.

(** ** Case analysis on the code's boolean tests *)

Ltac zbool :=
  repeat match goal with
  | H : (_ && _)%bool = true |- _ => apply andb_true_iff in H; destruct H
  | H : (_ || _)%bool = false |- _ => apply orb_false_iff in H; destruct H
  | H : negb _ = true |- _ => apply negb_true_iff in H
  | H : negb _ = false |- _ => apply negb_false_iff in H
  | H : (_ <? _) = true |- _ => apply Z.ltb_lt in H
  | H : (_ <? _) = false |- _ => apply Z.ltb_ge in H
  | H : (_ <=? _) = true |- _ => apply Z.leb_le in H
  | H : (_ <=? _) = false |- _ => apply Z.leb_gt in H
  | H : (_ =? _) = true |- _ => apply Z.eqb_eq in H
  | H : (_ =? _) = false |- _ => apply Z.eqb_neq in H
  end.

(** Destruct the scrutinee of the first [if]/[match] of a hypothesis. *)
Ltac case_in H :=
  match type of H with
  | context [if ?b then _ else _] => destruct b eqn:?
  | context [match ?x with _ => _ end] => destruct x eqn:?
  end.
Ltac cases_in H := repeat (case_in H; simplify_eq/=); zbool.
Ltac case_goal :=
  match goal with
  | |- context [if ?b then _ else _] => destruct b eqn:?
  | |- context [match ?x with _ => _ end] => destruct x eqn:?
  end.

(** Pass an early return: the goal is [(if b then early else rest) = r → P]
    and the early return contradicts the hypothesis. *)
Tactic Notation "pass_guard" ident(H) :=
  match goal with |- (if ?b then _ else _) = _ → _ => destruct b eqn:H; [done|] end.

(** Natural-number comparisons as propositions. *)
Ltac nbool :=
  repeat match goal with
  | H : (_ <=? _)%nat = true |- _ => apply Nat.leb_le in H
  | H : (_ <=? _)%nat = false |- _ => apply Nat.leb_gt in H
  | H : (_ <? _)%nat = true |- _ => apply Nat.ltb_lt in H
  | H : (_ <? _)%nat = false |- _ => apply Nat.ltb_ge in H
  | H : (_ =? _)%nat = true |- _ => apply Nat.eqb_eq in H
  | H : (_ =? _)%nat = false |- _ => apply Nat.eqb_neq in H
  end.

Create HintDb u256.
