(* ===== verification/Word.v ===== *)
(** * Fixed-width integers

    [alloy::primitives::U256] and [U512] (the [ruint] crate) are unsigned
    integers of 256 and 512 bits.  They are modelled as [Z] in [0, 2^w), each
    operator with its documented behaviour: [+], [-], [*] and unary [-] wrap
    modulo 2^w, [/] and [%] truncate and panic on zero, [checked_*] return
    [None] when the exact result does not fit, [saturating_*] clamp, shifts drop
    the bits that leave the word ([checked_shl] returns [None] instead).
    Rust's primitive integers wrap as in the release profile.

    The file also models the conversions of [src/src/util.rs] ([u512_to_u256],
    [u512_to_u256_checked], [ten_pow_u256]). *)
From S2P Require Import Prelude.

(** ** Ranges *)

Definition M64 : Z := 2 ^ 64.
Definition M128 : Z := 2 ^ 128.
Definition M256 : Z := 2 ^ 256.
Definition M512 : Z := 2 ^ 512.
Definition U256_MAX : Z := M256 - 1.

Definition u256 (x : Z) : Prop := 0 ≤ x < M256.
Definition u512 (x : Z) : Prop := 0 ≤ x < M512.

Lemma M256_pos : 0 < M256. Proof. done. Qed.
Lemma M512_eq : M512 = M256 * M256. Proof. done. Qed.
Lemma M256_lt_M512 : M256 < M512. Proof. done. Qed.

(** [U256::from_limbs]: four little-endian 64-bit limbs. *)
Definition from_limbs (l0 l1 l2 l3 : Z) : Z :=
  l0 + M64 * l1 + M128 * l2 + M64 * M128 * l3.

(** ** Operators of [U256] *)

Definition wadd (a b : Z) : Z := (a + b) mod M256.
Definition wsub (a b : Z) : Z := (a - b) mod M256.
Definition wmul (a b : Z) : Z := (a * b) mod M256.
Definition wneg (a : Z) : Z := (- a) mod M256.

Declare Scope u256_scope.
Delimit Scope u256_scope with u256.
Notation "a +% b" := (wadd a b) (at level 50, left associativity) : u256_scope.
Notation "a -% b" := (wsub a b) (at level 50, left associativity) : u256_scope.
Notation "a *% b" := (wmul a b) (at level 40, left associativity) : u256_scope.
Open Scope u256_scope.

(** [a / b] and [a % b] where the code does not guard the divisor. *)
Definition pdiv (a b : Z) : outcome Z := if b =? 0 then Panic else Done (a / b).

Definition checked_add (a b : Z) : option Z := if a + b <? M256 then Some (a + b) else None.
Definition checked_sub (a b : Z) : option Z := if b <=? a then Some (a - b) else None.
Definition checked_mul (a b : Z) : option Z := if a * b <? M256 then Some (a * b) else None.
Definition checked_div (a b : Z) : option Z := if b =? 0 then None else Some (a / b).
(** [checked_shl]: [None] when a set bit leaves the word. *)
Definition checked_shl (a n : Z) : option Z :=
  let r := Z.shiftl a n in if r <? M256 then Some r else None.

Definition saturating_add (a b : Z) : Z := Z.min (a + b) U256_MAX.
Definition saturating_sub (a b : Z) : Z := Z.max 0 (a - b).
Definition saturating_mul (a b : Z) : Z := Z.min (a * b) U256_MAX.
Definition abs_diff (a b : Z) : Z := Z.abs (a - b).

Definition is_zero (a : Z) : bool := a =? 0.

(** ** Operators of [U512] *)

Definition wadd512 (a b : Z) : Z := (a + b) mod M512.
Definition wsub512 (a b : Z) : Z := (a - b) mod M512.
Definition wmul512 (a b : Z) : Z := (a * b) mod M512.
Notation "a +%% b" := (wadd512 a b) (at level 50, left associativity) : u256_scope.
Notation "a -%% b" := (wsub512 a b) (at level 50, left associativity) : u256_scope.
Notation "a *%% b" := (wmul512 a b) (at level 40, left associativity) : u256_scope.

(** [util::u512_to_u256]: the low 32 bytes (the [debug_assert] is compiled out
    of the release profile). *)
Definition u512_to_u256 (v : Z) : Z := v mod M256.

(** [util::u512_to_u256_checked]. *)
Definition u512_to_u256_checked (v : Z) : option Z :=
  if M256 <=? v then None else Some (v mod M256).

(** ** Primitive integers *)

Definition wrap_u (w x : Z) : Z := x mod 2 ^ w.
Definition wrap_i (w x : Z) : Z := (x + 2 ^ (w - 1)) mod 2 ^ w - 2 ^ (w - 1).
Definition i32_min : Z := - 2 ^ 31.
Definition i32_max : Z := 2 ^ 31 - 1.
Definition i128_max : Z := 2 ^ 127 - 1.
Definition u64_max : Z := 2 ^ 64 - 1.
Definition i32_saturating_sub (a b : Z) : Z := Z.max i32_min (Z.min i32_max (a - b)).
Definition clamp (lo hi x : Z) : Z := Z.max lo (Z.min hi x).

(** ** Decimal scales *)

Definition ONE : Z := 1000000000000000000.

(** [util::ten_pow_u256]: fast paths, then [BASE.pow], which wraps. *)
Definition ten_pow_u256 (decimals : Z) : Z :=
  match decimals with
  | 0 => 1
  | 2 => 100
  | 6 => 1000000
  | 8 => 100000000
  | 9 => 1000000000
  | 12 => 1000000000000
  | 18 => ONE
  | other => (10 ^ other) mod M256
  end.

(** ** Range and no-overflow lemmas *)

Ltac unfold_word :=
  unfold wadd, wsub, wmul, wneg, wadd512, wsub512, wmul512, u512_to_u256,
    saturating_add, saturating_sub, saturating_mul, u256, u512, U256_MAX in *.

(** Closed range facts by evaluation. *)
Lemma u256_eval x : ((0 <=? x) && (x <? M256))%bool = true → u256 x.
Proof. intros H. zbool. done. Qed.
Ltac eval_range :=
  lazymatch goal with
  | |- u256 _ => apply u256_eval; vm_compute; reflexivity
  | |- _ ≤ _ => vm_compute; discriminate
  | |- _ ≠ _ => vm_compute; discriminate
  | |- _ => vm_compute; reflexivity
  end.

Lemma wadd_range a b : u256 (a +% b).
Proof. apply Z.mod_pos_bound, M256_pos. Qed.
Lemma wsub_range a b : u256 (a -% b).
Proof. apply Z.mod_pos_bound, M256_pos. Qed.
Lemma wmul_range a b : u256 (a *% b).
Proof. apply Z.mod_pos_bound, M256_pos. Qed.
Lemma wneg_range a : u256 (wneg a).
Proof. apply Z.mod_pos_bound, M256_pos. Qed.
Lemma u512_to_u256_range a : u256 (u512_to_u256 a).
Proof. apply Z.mod_pos_bound, M256_pos. Qed.
Lemma saturating_sub_range a b : u256 a → 0 ≤ b → u256 (saturating_sub a b).
Proof. unfold_word. lia. Qed.
Lemma saturating_add_range a b : u256 a → u256 b → u256 (saturating_add a b).
Proof. unfold_word. lia. Qed.
Lemma saturating_mul_range a b : u256 a → u256 b → u256 (saturating_mul a b).
Proof. unfold_word. pose proof M256_pos. nia. Qed.
Lemma div_range a b : u256 a → 0 ≤ b → u256 (a / b).
Proof.
  unfold u256. intros [] ?. destruct (decide (b = 0)) as [->|].
  - rewrite Z.div_0_r. pose proof M256_pos. lia.
  - split; [apply Z.div_pos; lia|]. apply Z.div_lt_upper_bound; nia.
Qed.

Lemma wadd_small a b : 0 ≤ a + b < M256 → a +% b = a + b.
Proof. apply Z.mod_small. Qed.
Lemma wsub_small a b : 0 ≤ a - b < M256 → a -% b = a - b.
Proof. apply Z.mod_small. Qed.
Lemma wmul_small a b : 0 ≤ a * b < M256 → a *% b = a * b.
Proof. apply Z.mod_small. Qed.
Lemma wadd512_small a b : 0 ≤ a + b < M512 → a +%% b = a + b.
Proof. apply Z.mod_small. Qed.
Lemma wmul512_small a b : 0 ≤ a * b < M512 → a *%% b = a * b.
Proof. apply Z.mod_small. Qed.
Lemma u512_to_u256_small a : 0 ≤ a < M256 → u512_to_u256 a = a.
Proof. apply Z.mod_small. Qed.

Lemma wmul512_u256 a b : u256 a → u256 b → a *%% b = a * b.
Proof. intros [] []. apply wmul512_small. rewrite M512_eq. nia. Qed.

Lemma wmul_le a b : 0 ≤ a → 0 ≤ b → a *% b ≤ a * b.
Proof. intros. apply Z.mod_le; [nia|apply M256_pos]. Qed.
Lemma wmul512_le a b : 0 ≤ a → 0 ≤ b → a *%% b ≤ a * b.
Proof. intros. apply Z.mod_le; [nia|done]. Qed.

Lemma u512_to_u256_checked_spec v :
  0 ≤ v → u512_to_u256_checked v = if v <? M256 then Some v else None.
Proof.
  intros. unfold u512_to_u256_checked.
  destruct (Z.leb_spec M256 v), (Z.ltb_spec v M256); try lia; [done|].
  by rewrite Z.mod_small by lia.
Qed.

#[export] Hint Resolve wadd_range wsub_range wmul_range wneg_range
  u512_to_u256_range saturating_sub_range saturating_add_range
  saturating_mul_range div_range : u256.

(** A boolean sweep of a finite range, for facts about [u8]-indexed tables. *)
Fixpoint all_below (n : nat) (p : Z → bool) : bool :=
  match n with
  | O => true
  | S m => (p (Z.of_nat m) && all_below m p)%bool
  end.

Lemma all_below_spec n p d :
  all_below n p = true → 0 ≤ d < Z.of_nat n → p d = true.
Proof.
  induction n as [|n IH]; simpl; intros H Hd; [lia|].
  apply andb_true_iff in H as [H1 H2].
  destruct (decide (d = Z.of_nat n)) as [->|]; [done|]. apply IH; [done|lia].
Qed.

Lemma checked_mul_Some a b r : checked_mul a b = Some r → r = a * b ∧ a * b < M256.
Proof. unfold checked_mul. destruct (Z.ltb_spec (a * b) M256); [|done]. by intros [= <-]. Qed.

(** The wrapping power never collapses to zero for a [u8] exponent, so scales
    are safe divisors. *)
Lemma ten_pow_u256_pos d : 0 ≤ d ≤ 255 → 0 < ten_pow_u256 d < M256.
Proof.
  intros Hd.
  assert (((0 <? ten_pow_u256 d) && (ten_pow_u256 d <? M256))%bool = true) as H.
  { apply (all_below_spec 256 (λ d, (0 <? ten_pow_u256 d) && (ten_pow_u256 d <? M256))%bool);
      [vm_compute; reflexivity | lia]. }
  zbool. lia.
Qed.

Lemma ten_pow_u256_exact d : 0 ≤ d ≤ 77 → ten_pow_u256 d = 10 ^ d.
Proof.
  intros Hd. apply Z.eqb_eq.
  apply (all_below_spec 78 (λ d, ten_pow_u256 d =? 10 ^ d));
    [vm_compute; reflexivity | lia].
Qed.
