(* ===== verification/MulDiv.v ===== *)
(** * Full-precision multiply-divide and 18-decimal fixed point

    [src/src/core/math/mod.rs] and the non-logarithmic part of
    [src/src/core/math/fixed_point.rs].  Every helper has a 256-bit fast path
    and a 512-bit fallback; the lemmas show that both compute the same rounded
    quotient and characterise exactly when the helper fails. *)
From S2P Require Import Prelude Word.

(** ** [core/math/mod.rs] *)

Definition mul_div_floor (a b denominator : Z) : option Z :=
  if is_zero denominator then None
  else match checked_mul a b with
  | Some product => Some (product / denominator)
  | None =>
      let product := a *%% b in
      u512_to_u256_checked (product / denominator)
  end.

Definition mul_div (a b denominator : Z) : option Z :=
  let? result := mul_div_floor a b denominator in
  if (is_zero result && negb (is_zero a) && negb (is_zero b))%bool then None
  else Some result.

Definition mul_div_ceil (a b denominator : Z) : option Z :=
  if is_zero denominator then None
  else match checked_mul a b with
  | Some product =>
      let q := product / denominator in
      if negb (is_zero (product mod denominator)) then checked_add q 1 else Some q
  | None =>
      let product := a *%% b in
      let den := denominator in
      let? result := u512_to_u256_checked (product / den) in
      if 0 <? product mod den then checked_add result 1 else Some result
  end.

Definition mul_div_rounding_up (a b denominator : Z) : option Z :=
  let? result := mul_div_ceil a b denominator in
  if (is_zero result && negb (is_zero a) && negb (is_zero b))%bool then None
  else Some result.

Definition div_rounding_up (a b : Z) : option Z :=
  let? result := checked_div a b in
  if negb (is_zero (a mod b)) then checked_add result 1 else Some result.

Definition div_rounding_up_or_zero (a b : Z) : Z :=
  default 0 (div_rounding_up a b).

(** ** [core/math/fixed_point.rs] *)

Definition MAX_POW_RELATIVE_ERROR : Z := from_limbs 10000 0 0 0.

Definition mul_down (a b : Z) : Z :=
  match checked_mul a b with
  | Some product => product / ONE
  | None => u512_to_u256 ((a *%% b) / ONE)
  end.

Definition mul_up (a b : Z) : Z :=
  match checked_mul a b with
  | Some product =>
      let q := product / ONE in
      if negb (is_zero (product mod ONE)) then saturating_add q 1 else q
  | None =>
      let product := a *%% b in
      let quotient := u512_to_u256 (product / ONE) in
      if 0 <? product mod ONE then saturating_add quotient 1 else quotient
  end.

Definition complement (x : Z) : Z := if x <? ONE then ONE - x else 0.

(** ** Reference meaning *)

(** [fits q] is what a checked 256-bit result is: the value, or nothing. *)
Definition fits (q : Z) : option Z := if q <? M256 then Some q else None.

Lemma fits_Some q r : fits q = Some r ↔ r = q ∧ q < M256.
Proof. unfold fits. destruct (Z.ltb_spec q M256); split; [intros [= <-]|intros [-> ?]|intros [=]|intros [_ ?]]; (done || lia). Qed.

Section specs.
Context (a b d : Z) (Ha : u256 a) (Hb : u256 b) (Hd : u256 d).

Lemma mul_div_floor_spec :
  mul_div_floor a b d = if d =? 0 then None else fits (a * b / d).
Proof using All.
  unfold mul_div_floor, is_zero, checked_mul, fits.
  destruct (Z.eqb_spec d 0); [done|].
  rewrite wmul512_u256 by done. unfold u256 in *.
  destruct (Z.ltb_spec (a * b) M256).
  - assert (a * b / d < M256) as H'.
    { apply Z.div_lt_upper_bound; nia. }
    by apply Z.ltb_lt in H' as ->.
  - apply u512_to_u256_checked_spec, Z.div_pos; nia.
Qed.

Lemma mul_div_ceil_spec :
  mul_div_ceil a b d = if d =? 0 then None else fits (cdiv (a * b) d).
Proof using All.
  unfold mul_div_ceil, is_zero, checked_mul.
  destruct (Z.eqb_spec d 0); [done|].
  rewrite wmul512_u256 by done. unfold u256, cdiv in *.
  assert (0 ≤ a * b / d) by (apply Z.div_pos; nia).
  pose proof (Z.mod_pos_bound (a * b) d ltac:(lia)).
  destruct (Z.ltb_spec (a * b) M256).
  - assert (a * b / d < M256) by (apply Z.div_lt_upper_bound; nia).
    destruct (Z.eqb_spec ((a * b) mod d) 0); simpl; [|done].
    unfold fits. rewrite Z.add_0_r. by destruct (Z.ltb_spec (a * b / d) M256); [|lia].
  - rewrite u512_to_u256_checked_spec by done.
    destruct (Z.eqb_spec ((a * b) mod d) 0) as [->|];
      destruct (Z.ltb_spec (a * b / d) M256); simpl; unfold fits, checked_add.
    + rewrite Z.add_0_r. by destruct (Z.ltb_spec (a * b / d) M256); [|lia].
    + rewrite Z.add_0_r. by destruct (Z.ltb_spec (a * b / d) M256); [lia|].
    + destruct (Z.ltb_spec 0 ((a * b) mod d)); [done|lia].
    + by destruct (Z.ltb_spec (a * b / d + 1) M256); [lia|].
Qed.

Lemma div_rounding_up_spec :
  div_rounding_up a d = if d =? 0 then None else Some (cdiv a d).
Proof using Ha Hd.
  unfold div_rounding_up, checked_div, is_zero, cdiv, checked_add, u256 in *.
  destruct (Z.eqb_spec d 0); [done|].
  destruct (Z.eqb_spec (a mod d) 0); simpl; [by rewrite Z.add_0_r|].
  assert (d ≠ 1) by (intros ->; rewrite Z.mod_1_r in *; done).
  assert (a / d ≤ a / 2) by (apply Z.div_le_compat_l; lia).
  assert (a / 2 + 1 < M256).
  { assert (a / 2 < 2 ^ 255) by (apply Z.div_lt_upper_bound; [lia|]; change (2 * 2 ^ 255) with M256; lia).
    change M256 with (2 * 2 ^ 255). lia. }
  destruct (Z.ltb_spec (a / d + 1) M256); [done|lia].
Qed.

Lemma mul_down_exact : a * b / ONE < M256 → mul_down a b = a * b / ONE.
Proof using Ha Hb.
  intros. unfold mul_down, checked_mul. rewrite wmul512_u256 by done.
  destruct (_ <? _); [done|]. apply u512_to_u256_small.
  unfold u256 in *. split; [apply Z.div_pos; [nia|done]|done].
Qed.

Lemma mul_up_exact : cdiv (a * b) ONE < M256 → mul_up a b = cdiv (a * b) ONE.
Proof using Ha Hb.
  intros Hfit. unfold mul_up, checked_mul, is_zero, u256 in *.
  rewrite wmul512_u256 by done.
  assert (0 ≤ a * b / ONE) by (apply Z.div_pos; [nia|done]).
  pose proof (Z.mod_pos_bound (a * b) ONE ltac:(done)).
  unfold cdiv in *. destruct (Z.eqb_spec ((a * b) mod ONE) 0) as [E|E].
  - destruct (a * b <? M256); rewrite ?E; simpl; [lia|]. rewrite u512_to_u256_small; lia.
  - assert (saturating_add (a * b / ONE) 1 = a * b / ONE + 1) by (unfold_word; lia).
    destruct (a * b <? M256).
    + destruct (Z.eqb_spec ((a * b) mod ONE) 0); [lia|done].
    + rewrite u512_to_u256_small by lia.
      destruct (Z.ltb_spec 0 ((a * b) mod ONE)); [done|lia].
Qed.

End specs.

(** A fixed-point factor of at most one never overflows and never grows the
    amount. *)
Lemma mul_down_le a f : u256 a → 0 ≤ f ≤ ONE → mul_down a f = a * f / ONE ∧ 0 ≤ mul_down a f ≤ a.
Proof.
  intros Ha Hf. pose proof (mul_ratio_le a f ONE ltac:(by destruct Ha) Hf ltac:(done)).
  assert (u256 f) by (unfold u256, ONE, M256 in *; lia).
  rewrite mul_down_exact; unfold u256 in *; try lia.
Qed.

Lemma mul_div_Some a b d r :
  u256 a → u256 b → u256 d → mul_div a b d = Some r →
  0 < d ∧ r = a * b / d ∧ r < M256 ∧ (a = 0 ∨ b = 0 ∨ r ≠ 0).
Proof.
  intros Ha Hb Hd. unfold mul_div. rewrite mul_div_floor_spec by done.
  unfold is_zero, u256 in *. intros H. cases_in H.
  all: apply fits_Some in Heqo as [-> ?]; split_and!; try done; try lia.
Qed.

Lemma mul_div_rounding_up_Some a b d r :
  u256 a → u256 b → u256 d → mul_div_rounding_up a b d = Some r →
  0 < d ∧ r = cdiv (a * b) d ∧ r < M256.
Proof.
  intros Ha Hb Hd. unfold mul_div_rounding_up. rewrite mul_div_ceil_spec by done.
  unfold u256 in *. intros H. cases_in H.
  all: apply fits_Some in Heqo as [-> ?]; split_and!; try done; lia.
Qed.

(** ** Properties *)

(** The floor helper. *)
Theorem mul_div_floor_exact (a b d : Z) :
  u256 a → u256 b → u256 d →
  mul_div_floor a b d = (if d =? 0 then None else fits (a * b / d)).
Proof. apply mul_div_floor_spec. Qed.

Lemma mul_div_floor_exact_witness :
  mul_div_floor (2 ^ 200) (2 ^ 200) (2 ^ 180) = Some (2 ^ 220).
Proof.
  rewrite mul_div_floor_exact; [reflexivity | | | ]; split; (discriminate || reflexivity).
Defined.
