(* ===== verification/SwapMath.v ===== *)
(** * Concentrated-liquidity price steps

    [src/src/core/math/sqrt_price_math.rs] and [src/src/core/math/swap_math.rs]:
    token amounts between two square-root prices, the price reached by an exact
    input, and one step of a swap inside a tick range.  The central results are
    that a step never charges more than the remaining input, that it spends all
    of it when it stops short of the target, and that the price stays between
    the current price and the target. *)
From S2P Require Import Prelude Word MulDiv.

Definition Q96 : Z := from_limbs 0 (2 ^ 32) 0 0.
Definition FEE_PIPS_SCALE : Z := from_limbs 1000000 0 0 0.

(** ** [sqrt_price_math.rs] *)

Definition get_next_sqrt_price_from_amount0_rounding_up
    (sqrt_px96 liquidity amount : Z) (add : bool) : option Z :=
  if is_zero amount then Some sqrt_px96
  else
    let? numerator1 := checked_shl liquidity 96 in
    if add then
      (* [numerator1 / sqrt_px96] is only reached with [sqrt_px96 ≠ 0]: with a
         zero price the product is zero and the sum fits. *)
      let overflow_path :=
        let? next := div_rounding_up numerator1 (numerator1 / sqrt_px96 +% amount) in
        if negb (is_zero next) then Some next else None in
      match checked_mul amount sqrt_px96 with
      | Some product =>
          match checked_add numerator1 product with
          | Some denominator =>
              let? next := mul_div_ceil numerator1 sqrt_px96 denominator in
              if negb (is_zero next) then Some next else None
          | None => overflow_path
          end
      | None => overflow_path
      end
    else
      let? product := checked_mul amount sqrt_px96 in
      let? denominator := checked_sub numerator1 product in
      let? next := mul_div_ceil numerator1 sqrt_px96 denominator in
      if negb (is_zero next) then Some next else None.

Definition get_next_sqrt_price_from_amount1_rounding_down
    (sqrt_px96 liquidity amount : Z) (add : bool) : option Z :=
  if is_zero liquidity then None
  else if add then
    let? quotient := mul_div_floor amount Q96 liquidity in
    checked_add sqrt_px96 quotient
  else
    let? quotient := mul_div_ceil amount Q96 liquidity in
    checked_sub sqrt_px96 quotient.

Definition get_next_sqrt_price_from_input
    (sqrt_px96 liquidity amount_in : Z) (zero_for_one : bool) : option Z :=
  if (is_zero sqrt_px96 || is_zero liquidity)%bool then None
  else if zero_for_one then
    get_next_sqrt_price_from_amount0_rounding_up sqrt_px96 liquidity amount_in true
  else
    get_next_sqrt_price_from_amount1_rounding_down sqrt_px96 liquidity amount_in true.

Definition get_amount0_delta
    (sqrt_ratio_a_x96 sqrt_ratio_b_x96 liquidity : Z) (round_up : bool) : option Z :=
  let '(a, b) := if sqrt_ratio_b_x96 <? sqrt_ratio_a_x96
                 then (sqrt_ratio_b_x96, sqrt_ratio_a_x96)
                 else (sqrt_ratio_a_x96, sqrt_ratio_b_x96) in
  if is_zero a then None
  else
    let? numerator1 := checked_shl liquidity 96 in
    let numerator2 := b -% a in
    if round_up then
      let? inner := mul_div_ceil numerator1 numerator2 b in
      div_rounding_up inner a
    else
      let? inner := mul_div_floor numerator1 numerator2 b in
      Some (inner / a).

Definition get_amount1_delta
    (sqrt_ratio_a_x96 sqrt_ratio_b_x96 liquidity : Z) (round_up : bool) : option Z :=
  let '(a, b) := if sqrt_ratio_b_x96 <? sqrt_ratio_a_x96
                 then (sqrt_ratio_b_x96, sqrt_ratio_a_x96)
                 else (sqrt_ratio_a_x96, sqrt_ratio_b_x96) in
  let delta := b -% a in
  if round_up then mul_div_ceil liquidity delta Q96
  else mul_div_floor liquidity delta Q96.

(** ** [swap_math.rs] *)

Record SwapStepResult := {
  sqrt_ratio_next_x96 : Z;
  amount_in : Z;
  amount_out : Z;
  fee_amount : Z;
}.

Definition compute_swap_step
    (sqrt_ratio_current_x96 sqrt_ratio_target_x96 liquidity amount_remaining fee_pips : Z)
    : option SwapStepResult :=
  let zero_for_one := sqrt_ratio_target_x96 <=? sqrt_ratio_current_x96 in
  let? amount_remaining_less_fee :=
    mul_div amount_remaining (FEE_PIPS_SCALE -% fee_pips) FEE_PIPS_SCALE in
  let? amount_in :=
    if zero_for_one
    then get_amount0_delta sqrt_ratio_target_x96 sqrt_ratio_current_x96 liquidity true
    else get_amount1_delta sqrt_ratio_current_x96 sqrt_ratio_target_x96 liquidity true in
  let? sqrt_ratio_next_x96 :=
    if amount_in <=? amount_remaining_less_fee then Some sqrt_ratio_target_x96
    else get_next_sqrt_price_from_input
           sqrt_ratio_current_x96 liquidity amount_remaining_less_fee zero_for_one in
  let target_reached := sqrt_ratio_target_x96 =? sqrt_ratio_next_x96 in
  let? actuals :=
    if zero_for_one then
      let? actual_in :=
        if target_reached then Some amount_in
        else get_amount0_delta sqrt_ratio_next_x96 sqrt_ratio_current_x96 liquidity true in
      let? actual_out :=
        get_amount1_delta sqrt_ratio_next_x96 sqrt_ratio_current_x96 liquidity false in
      Some (actual_in, actual_out)
    else
      let? actual_in :=
        if target_reached then Some amount_in
        else get_amount1_delta sqrt_ratio_current_x96 sqrt_ratio_next_x96 liquidity true in
      let? actual_out :=
        get_amount0_delta sqrt_ratio_current_x96 sqrt_ratio_next_x96 liquidity false in
      Some (actual_in, actual_out) in
  let '(actual_in, actual_out) := actuals in
  let? fee_amount :=
    if target_reached
    then mul_div_rounding_up actual_in fee_pips (FEE_PIPS_SCALE -% fee_pips)
    else Some (saturating_sub amount_remaining actual_in) in
  Some {| sqrt_ratio_next_x96 := sqrt_ratio_next_x96;
          amount_in := actual_in;
          amount_out := actual_out;
          fee_amount := fee_amount |}.

(** ** Amount deltas as exact rounded quotients *)

Lemma Q96_eq : Q96 = 2 ^ 96. Proof. reflexivity. Qed.
Lemma Q96_u256 : u256 Q96. Proof. split; [done|reflexivity]. Qed.
#[export] Hint Resolve Q96_u256 : u256.

Lemma checked_shl_Some l n :
  0 ≤ l → checked_shl l 96 = Some n → n = l * 2 ^ 96 ∧ u256 n.
Proof.
  intros Hl. unfold checked_shl. rewrite Z.shiftl_mul_pow2 by lia.
  destruct (Z.ltb_spec (l * 2 ^ 96) M256); intros [= <-]. unfold u256. lia.
Qed.

(** The rounded amounts, for prices in order. *)
Definition amount0_exact (a b l : Z) (up : bool) : Z :=
  (if up then cdiv else Z.div) (l * 2 ^ 96 * (b - a)) (b * a).
Definition amount1_exact (a b l : Z) (up : bool) : Z :=
  (if up then cdiv else Z.div) (l * (b - a)) (2 ^ 96).

Arguments amount0_exact : simpl never.
Arguments amount1_exact : simpl never.

Section amounts.
Context (a b l : Z) (Ha : u256 a) (Hb : u256 b) (Hl : u256 l).

Lemma get_amount0_delta_Some (up : bool) r :
  get_amount0_delta a b l up = Some r →
  0 < Z.min a b ∧ r = amount0_exact (Z.min a b) (Z.max a b) l up.
Proof using All.
  unfold get_amount0_delta. intros H.
  assert (∃ lo hi, (if b <? a then (b, a) else (a, b)) = (lo, hi) ∧
    lo = Z.min a b ∧ hi = Z.max a b ∧ u256 lo ∧ u256 hi ∧ lo ≤ hi) as
    (lo & hi & E & <- & <- & Hlo & Hhi & Hle).
  { destruct (Z.ltb_spec b a); do 2 eexists; (split; [done|]); split_and!; try done; lia. }
  rewrite E in H. unfold is_zero in H. cases_in H.
  all: apply checked_shl_Some in Heqo as [-> Hn]; [|by destruct Hl].
  all: rewrite wsub_small in * by (unfold u256 in *; lia).
  all: assert (u256 (hi - lo)) by (unfold u256 in *; lia).
  - rewrite mul_div_ceil_spec in Heqo0 by done. cases_in Heqo0.
    apply fits_Some in Heqo0 as [-> ?].
    rewrite div_rounding_up_spec in H; [|split; [apply cdiv_nonneg|]|done];
      [|unfold u256 in *; nia..].
    cases_in H. unfold amount0_exact. rewrite cdiv_cdiv by (unfold u256 in *; lia).
    unfold u256 in *. split; [lia|done].
  - rewrite mul_div_floor_spec in Heqo0 by done. cases_in Heqo0.
    apply fits_Some in Heqo0 as [-> ?]. unfold amount0_exact, u256 in *.
    rewrite Z.div_div by lia. split; [lia|done].
Qed.

Lemma get_amount1_delta_Some (up : bool) r :
  get_amount1_delta a b l up = Some r →
  r = amount1_exact (Z.min a b) (Z.max a b) l up.
Proof using All.
  unfold get_amount1_delta. intros H.
  assert (∃ lo hi, (if b <? a then (b, a) else (a, b)) = (lo, hi) ∧
    lo = Z.min a b ∧ hi = Z.max a b ∧ u256 lo ∧ u256 hi ∧ lo ≤ hi) as
    (lo & hi & E & <- & <- & Hlo & Hhi & Hle).
  { destruct (Z.ltb_spec b a); do 2 eexists; (split; [done|]); split_and!; try done; lia. }
  rewrite E in H. rewrite wsub_small in H by (unfold u256 in *; lia).
  assert (u256 (hi - lo)) by (unfold u256 in *; lia).
  destruct up; [rewrite mul_div_ceil_spec in H by auto with u256
               |rewrite mul_div_floor_spec in H by auto with u256].
  all: cases_in H; apply fits_Some in H as [-> ?]; done.
Qed.

End amounts.

(** ** The price reached by an exact input *)

(** What the swap step needs of the next price: it moves in the direction of the
    trade, the input that the move costs is covered by the amount spent, and
    it stops before any target the amount does not pay for. *)
Section next_price.
Context (p l a : Z) (Hp : u256 p) (Hp0 : 0 < p) (Hl : u256 l) (Ha : u256 a).

(** Token0 in: the price falls, and [next] solves
    [L·2^96·p ≤ next·(L·2^96 + a·p)]. *)
Lemma next_price0_Some next :
  l * 2 ^ 96 / p + a < M256 →
  get_next_sqrt_price_from_amount0_rounding_up p l a true = Some next →
  0 < next ≤ p ∧
  l * 2 ^ 96 * p ≤ next * (l * 2 ^ 96 + a * p) ∧
  (∀ t, 0 < t ≤ p → a * (p * t) < l * 2 ^ 96 * (p - t) → t < next).
Proof using All.
  intros Hwrap. unfold get_next_sqrt_price_from_amount0_rounding_up, is_zero.
  destruct (Z.eqb_spec a 0) as [->|Ha0].
  { intros [= <-]. split_and!; try lia. intros t Ht Hlt.
    assert (t ≠ p); [|lia]. intros ->. rewrite Z.sub_diag in Hlt. lia. }
  destruct (checked_shl l 96) as [n|] eqn:En; [|done].
  apply checked_shl_Some in En as [En Hn]; [|by destruct Hl].
  rewrite <- En in *. clear En. unfold u256 in *.
  assert (0 ≤ n / p) by (apply Z.div_pos; lia).
  pose proof (div_mul_le n p Hp0). pose proof (div_mul_gt n p Hp0).
  set (ovf := match div_rounding_up n (n / p +% a) with Some _ => _ | None => _ end).
  assert (ovf = Some next → 0 < next ≤ p ∧ n * p ≤ next * (n + a * p) ∧
    (∀ t, 0 < t ≤ p → a * (p * t) < n * (p - t) → t < next)) as Hovf.
  { subst ovf. rewrite wadd_small by lia.
    rewrite div_rounding_up_spec by (unfold u256; lia).
    assert (0 < n / p + a) as Hd by lia. intros Hs. cases_in Hs.
    pose proof (cdiv_nonneg n _ Hd ltac:(lia)).
    pose proof (cdiv_mul_ge n _ Hd) as Hge.
    split_and!; [lia| apply cdiv_le_iff; [done|nia] | nia |].
    intros t Ht Hlt. apply lt_cdiv_iff; [done|]. nia. }
  unfold checked_mul, checked_add.
  destruct (Z.ltb_spec (a * p) M256); [|done].
  destruct (Z.ltb_spec (n + a * p) M256); [|done].
  rewrite mul_div_ceil_spec by (unfold u256; nia).
  assert (0 < n + a * p) as Hd by nia. intros H'. cases_in H'.
  apply fits_Some in Heqo as [-> ?].
  pose proof (cdiv_nonneg (n * p) _ Hd ltac:(nia)).
  pose proof (cdiv_mul_ge (n * p) _ Hd) as Hge.
  split_and!; [lia | apply cdiv_le_iff; [done|nia] | nia |].
  intros t Ht Hlt. apply lt_cdiv_iff; [done|]. nia.
Qed.

(** Token1 in: the price rises by [⌊a·2^96/L⌋]. *)
Lemma next_price1_Some next :
  get_next_sqrt_price_from_amount1_rounding_down p l a true = Some next →
  0 < l ∧ p ≤ next < M256 ∧ l * (next - p) ≤ a * 2 ^ 96 ∧
  (∀ t, a * 2 ^ 96 < l * (t - p) → next < t).
Proof using All.
  unfold get_next_sqrt_price_from_amount1_rounding_down, is_zero.
  rewrite mul_div_floor_spec by auto with u256. rewrite Q96_eq.
  unfold u256 in *. intros H. cases_in H. apply fits_Some in Heqo as [-> ?].
  unfold checked_add in H. cases_in H.
  assert (0 < l) by lia.
  pose proof (div_mul_le (a * 2 ^ 96) l ltac:(done)).
  pose proof (div_mul_gt (a * 2 ^ 96) l ltac:(done)).
  assert (0 ≤ a * 2 ^ 96 / l) by (apply Z.div_pos; lia).
  split_and!; try lia. intros t Ht. nia.
Qed.

End next_price.

(** ** One swap step *)

Section step.
Context (cur tgt l rem fee : Z).
Context (Hcur : u256 cur) (Hcur0 : 0 < cur) (Htgt : u256 tgt) (Hl : u256 l)
  (Hrem : u256 rem) (Hfee : 0 ≤ fee < FEE_PIPS_SCALE)
  (Hwrap : l * 2 ^ 96 / cur + rem < M256).

(** The gross input for a net amount of [x] at fee [fee]. *)
Lemma fee_gross_up x :
  0 ≤ x → x ≤ rem * (FEE_PIPS_SCALE - fee) / FEE_PIPS_SCALE →
  x + cdiv (x * fee) (FEE_PIPS_SCALE - fee) ≤ rem.
Proof using Hfee.
  intros Hx Hle.
  assert (cdiv (x * fee) (FEE_PIPS_SCALE - fee) ≤ rem - x); [|lia].
  apply cdiv_le_iff; [lia|].
  pose proof (div_mul_le (rem * (FEE_PIPS_SCALE - fee)) FEE_PIPS_SCALE ltac:(done)).
  unfold FEE_PIPS_SCALE, from_limbs in *. nia.
Qed.

(** A partial step of token0 input: it stops strictly above the target and
    charges at most the amount given. *)
Lemma partial_step0 m next :
  0 ≤ m ≤ rem → 0 < tgt ≤ cur → m < amount0_exact tgt cur l true →
  get_next_sqrt_price_from_input cur l m true = Some next →
  tgt < next ≤ cur ∧ 0 ≤ amount0_exact next cur l true ≤ m.
Proof using All.
  intros Hm Ht Hlt. unfold get_next_sqrt_price_from_input. intros H. cases_in H.
  assert (u256 m) by (unfold u256 in *; lia).
  apply next_price0_Some in H as (Hn & Hcov & Hstop); [|done..|lia].
  unfold amount0_exact in *. apply lt_cdiv_iff in Hlt; [|nia].
  assert (tgt < next) by (apply Hstop; nia).
  split; [lia|]. split; [apply cdiv_nonneg; unfold u256 in *; nia|].
  apply cdiv_le_iff; [nia|]. nia.
Qed.

(** A partial step of token1 input. *)
Lemma partial_step1 m next :
  0 ≤ m ≤ rem → cur < tgt → m < amount1_exact cur tgt l true →
  get_next_sqrt_price_from_input cur l m false = Some next →
  cur ≤ next < tgt ∧ 0 ≤ amount1_exact cur next l true ≤ m.
Proof using All.
  intros Hm Ht Hlt. unfold get_next_sqrt_price_from_input. intros H. cases_in H.
  assert (u256 m) by (unfold u256 in *; lia).
  apply next_price1_Some in H as (Hl0 & Hn & Hcov & Hstop); [|done..].
  unfold amount1_exact in *. apply lt_cdiv_iff in Hlt; [|lia].
  assert (next < tgt) by (apply Hstop; lia).
  split; [lia|]. split; [apply cdiv_nonneg; unfold u256 in *; nia|].
  apply cdiv_le_iff; lia.
Qed.

Lemma less_fee_Some m :
  mul_div rem (FEE_PIPS_SCALE -% fee) FEE_PIPS_SCALE = Some m →
  m = rem * (FEE_PIPS_SCALE - fee) / FEE_PIPS_SCALE ∧ 0 ≤ m ≤ rem.
Proof using Hrem Hfee.
  assert (u256 FEE_PIPS_SCALE) by done.
  rewrite wsub_small by (unfold u256 in *; lia). intros H'.
  apply mul_div_Some in H' as (_ & -> & _); [|done|unfold u256 in *; lia|done].
  split; [done|]. apply mul_ratio_le; [by destruct Hrem|lia|done].
Qed.

Lemma full_step_fee x f :
  0 ≤ x → x ≤ rem * (FEE_PIPS_SCALE - fee) / FEE_PIPS_SCALE →
  mul_div_rounding_up x fee (FEE_PIPS_SCALE -% fee) = Some f →
  0 ≤ f ∧ x + f ≤ rem.
Proof using Hrem Hfee.
  intros Hx Hle. assert (u256 FEE_PIPS_SCALE) by done.
  pose proof (mul_ratio_le rem (FEE_PIPS_SCALE - fee) FEE_PIPS_SCALE
    ltac:(by destruct Hrem) ltac:(lia) ltac:(done)).
  rewrite wsub_small by (unfold u256 in *; lia). intros H'.
  apply mul_div_rounding_up_Some in H' as (? & -> & _); [|unfold u256 in *; lia..].
  split; [apply cdiv_nonneg; nia|]. by apply fee_gross_up.
Qed.

(** What a successful step guarantees. *)
Definition step_ok (s : SwapStepResult) : Prop :=
  let next := sqrt_ratio_next_x96 s in
  0 ≤ amount_in s ∧ 0 ≤ fee_amount s ∧
  amount_in s + fee_amount s ≤ rem ∧
  (next ≠ tgt → amount_in s + fee_amount s = rem) ∧
  if tgt <=? cur then
    0 < tgt ∧ tgt ≤ next ≤ cur ∧
    amount_in s = amount0_exact next cur l true ∧
    amount_out s = amount1_exact next cur l false
  else
    cur ≤ next ≤ tgt ∧
    amount_in s = amount1_exact cur next l true ∧
    amount_out s = amount0_exact cur next l false.

Lemma compute_swap_step_inv s :
  compute_swap_step cur tgt l rem fee = Some s → step_ok s.
Proof using All.
  unfold compute_swap_step. intros H.
  destruct (mul_div _ _ _) as [m|] eqn:Em; [|done]. apply less_fee_Some in Em as [Em Hm].
  unfold step_ok. destruct (Z.leb_spec tgt cur) as [Hz|Hz].
  - destruct (get_amount0_delta _ _ _ _) as [x|] eqn:Ex; [|done].
    apply get_amount0_delta_Some in Ex as [Ht0 Ex]; [|done..].
    rewrite Z.min_l, Z.max_r in * by lia.
    assert (0 ≤ x) by (subst x; apply cdiv_nonneg; unfold u256 in *; nia).
    destruct (Z.leb_spec x m) as [Hxm|Hxm].
    + rewrite Z.eqb_refl in H.
      destruct (get_amount1_delta _ _ _ _) as [o|] eqn:Eo; [|done].
      destruct (mul_div_rounding_up _ _ _) as [f|] eqn:Ef; [|done]. simplify_eq/=.
      apply get_amount1_delta_Some in Eo; [|done..].
      rewrite Z.min_l, Z.max_r in Eo by lia.
      apply full_step_fee in Ef as [? ?]; [|lia..]. split_and!; (done || lia).
    + destruct (get_next_sqrt_price_from_input _ _ _ _) as [next|] eqn:En; [|done].
      apply partial_step0 in En as [Hn Hin]; [|lia|lia|congruence].
      destruct (Z.eqb_spec tgt next); [lia|].
      assert (u256 next) by (unfold u256 in *; lia).
      destruct (get_amount0_delta _ _ _ _) as [i|] eqn:Ei; [|done].
      destruct (get_amount1_delta _ _ _ _) as [o|] eqn:Eo; [|done]. simplify_eq/=.
      apply get_amount0_delta_Some in Ei as [_ Ei]; [|done..].
      apply get_amount1_delta_Some in Eo; [|done..].
      rewrite Z.min_l, Z.max_r in Ei, Eo by lia.
      unfold saturating_sub. split_and!; (done || lia).
  - destruct (get_amount1_delta _ _ _ _) as [x|] eqn:Ex; [|done].
    apply get_amount1_delta_Some in Ex; [|done..].
    rewrite Z.min_l, Z.max_r in * by lia.
    assert (0 ≤ x) by (subst x; apply cdiv_nonneg; unfold u256 in *; nia).
    destruct (Z.leb_spec x m) as [Hxm|Hxm].
    + rewrite Z.eqb_refl in H.
      destruct (get_amount0_delta _ _ _ _) as [o|] eqn:Eo; [|done].
      destruct (mul_div_rounding_up _ _ _) as [f|] eqn:Ef; [|done]. simplify_eq/=.
      apply get_amount0_delta_Some in Eo as [_ Eo]; [|done..].
      rewrite Z.min_l, Z.max_r in Eo by lia.
      apply full_step_fee in Ef as [? ?]; [|lia..]. split_and!; (done || lia).
    + destruct (get_next_sqrt_price_from_input _ _ _ _) as [next|] eqn:En; [|done].
      apply partial_step1 in En as [Hn Hin]; [|lia|lia|congruence].
      destruct (Z.eqb_spec tgt next); [lia|].
      assert (u256 next) by (unfold u256 in *; lia).
      destruct (get_amount1_delta _ _ _ _) as [i|] eqn:Ei; [|done].
      destruct (get_amount0_delta _ _ _ _) as [o|] eqn:Eo; [|done]. simplify_eq/=.
      apply get_amount1_delta_Some in Ei; [|done..].
      apply get_amount0_delta_Some in Eo as [_ Eo]; [|done..].
      rewrite Z.min_l, Z.max_r in Ei, Eo by lia.
      unfold saturating_sub. split_and!; (done || lia).
Qed.

End step.

(** ** Properties *)

(** A swap step never overcharges. *)
Theorem compute_swap_step_conserves_input (cur tgt l rem fee : Z) (s : SwapStepResult) :
  u256 cur → 0 < cur → u256 tgt → u256 l → u256 rem → 0 ≤ fee < FEE_PIPS_SCALE →
  l * 2 ^ 96 / cur + rem < M256 →
  compute_swap_step cur tgt l rem fee = Some s →
  amount_in s + fee_amount s ≤ rem ∧
  (sqrt_ratio_next_x96 s ≠ tgt → amount_in s + fee_amount s = rem).
Proof.
  intros. by destruct (compute_swap_step_inv cur tgt l rem fee) with s as (_ & _ & ? & ? & _).
Qed.

Lemma compute_swap_step_conserves_input_witness :
  ∃ s, compute_swap_step Q96 (Q96 / 2) (10 ^ 24) (10 ^ 18) 3000 = Some s ∧
    amount_in s + fee_amount s = 10 ^ 18.
Proof.
  eexists. split; [vm_compute; reflexivity|].
  refine (proj2 (compute_swap_step_conserves_input Q96 (Q96 / 2) (10 ^ 24) (10 ^ 18) 3000 _
    _ _ _ _ _ _ _ _) _);
    try (vm_compute; reflexivity); try (split; vm_compute; (discriminate || reflexivity)).
  vm_compute. discriminate.
Defined.
