(* ===== verification/LogExp.v ===== *)
(** * Natural exponentials and logarithms in 18-decimal fixed point

    [src/src/core/math/log_exp_math.rs] and the functions of
    [src/src/core/math/fixed_point.rs] built on it ([pow_down]).  All
    operators wrap.  The lemmas give the range where nothing wraps, where the
    functions are therefore the intended integer series; two theorems show what
    happens outside it. *)
From S2P Require Import Prelude Word MulDiv.

Definition ONE_18 : Z := ONE.
Definition ONE_20 : Z := from_limbs 7766279631452241920 5 0 0.
Definition ONE_36 : Z := from_limbs 12919594847110692864 54210108624275221 0 0.
Definition MAX_NATURAL_EXPONENT : Z := from_limbs 15145670503932362752 7047314121155778 0 0.
Definition LN_36_LOWER_BOUND : Z := from_limbs 900000000000000000 0 0 0.
Definition LN_36_UPPER_BOUND : Z := from_limbs 1100000000000000000 0 0 0.
Definition LN_X0 : Z := from_limbs 0 0 0 128.
Definition LN_X1 : Z := from_limbs 0 0 0 64.
Definition LN_A0 : Z := from_limbs 171843153341448192 17670479068478958691 114249481722274167 0.
Definition LN_A1 : Z := from_limbs 17696838799657497472 338008108 0 0.
Definition EXP_X0 : Z := LN_X0.
Definition EXP_X1 : Z := LN_X1.
Definition EXP_A0 : Z := LN_A0.
Definition EXP_A1 : Z := LN_A1.

Definition COMMON_EXP_STEPS : list (Z * Z) :=
  [(from_limbs 8713275248247570432 173 0 0, from_limbs 17871857890508685312 428059064879743 0 0);
   (from_limbs 13580009660978561024 86 0 0, from_limbs 12108528782385981184 48171701 0 0);
   (from_limbs 6790004830489280512 43 0 0, from_limbs 14861217100182911056 16159 0 0);
   (from_limbs 12618374452099416064 21 0 0, from_limbs 18025501570106181090 295 0 0);
   (from_limbs 15532559262904483840 10 0 0, from_limbs 1035846944682958083 40 0 0);
   (from_limbs 7766279631452241920 5 0 0, from_limbs 13573765813970800912 14 0 0);
   (from_limbs 13106511852580896768 2 0 0, from_limbs 17298174480336401757 8 0 0);
   (from_limbs 6553255926290448384 1 0 0, from_limbs 17722077226516838711 6 0 0)].

Definition LN_STEPS : list (Z * Z) :=
  COMMON_EXP_STEPS ++
  [(from_limbs 12500000000000000000 0 0 0, from_limbs 2634380864425321987 6 0 0);
   (from_limbs 6250000000000000000 0 0 0, from_limbs 14215725523238184876 5 0 0)].

Definition EXP_STEPS : list (Z * Z) := COMMON_EXP_STEPS.

(** [for div in divs { num = (num * z2) / unit; series_sum += num / div }]. *)
Fixpoint odd_series (unit z2 : Z) (divs : list Z) (num series_sum : Z) : Z :=
  match divs with
  | [] => series_sum
  | div :: divs =>
      let num := (num *% z2) / unit in
      odd_series unit z2 divs num (series_sum +% num / div)
  end.

Definition ln_36 (x : Z) : Z :=
  let o36 := ONE_36 in
  let x := x *% ONE_18 in
  let z := ((x -% o36) *% o36) / (x +% o36) in
  let z_squared := (z *% z) / o36 in
  odd_series o36 z_squared [3; 5; 7; 9; 11; 13; 15] z z *% 2.

(** [for (threshold, factor) in LN_STEPS { ... }] on [(av, sum)]. *)
Fixpoint ln_steps (steps : list (Z * Z)) (av sum : Z) : Z * Z :=
  match steps with
  | [] => (av, sum)
  | (threshold, factor) :: steps =>
      if factor <=? av then ln_steps steps ((av *% ONE_20) / factor) (sum +% threshold)
      else ln_steps steps av sum
  end.

(** The body of [ln] for an argument of at least [ONE_18]. *)
Definition ln_above_one (a : Z) : Z :=
  let '(av, sum) := if LN_A0 <=? a then (a / LN_A0, 0 +% LN_X0) else (a, 0) in
  let '(av, sum) := if LN_A1 <=? av then (av / LN_A1, sum +% LN_X1) else (av, sum) in
  let sum := sum *% 100 in
  let av := av *% 100 in
  let o20 := ONE_20 in
  let '(av, sum) := ln_steps LN_STEPS av sum in
  let z := ((av -% o20) *% o20) / (av +% o20) in
  let z_squared := (z *% z) / o20 in
  let series_sum := odd_series o20 z_squared [3; 5; 7; 9; 11] z z in
  (sum +% series_sum *% 2) / 100.

(** [ln]: the recursive call of an argument below one is on its reciprocal, which
    is at least one, so the recursion is one level deep. *)
Definition ln (a : Z) : Z :=
  if a <? ONE_18 then wneg (ln_above_one (ONE_36 / a)) else ln_above_one a.

Definition log_exp_ln (a : Z) : Z :=
  if (is_zero a || (a <? ONE_18))%bool then 0
  else if ((LN_36_LOWER_BOUND <? a) && (a <? LN_36_UPPER_BOUND))%bool
  then ln_36 a / ONE_18
  else ln a.

(** [for (threshold, factor) in EXP_STEPS { ... }] on [(xv, product)]. *)
Fixpoint exp_steps (steps : list (Z * Z)) (xv product : Z) : Z * Z :=
  match steps with
  | [] => (xv, product)
  | (threshold, factor) :: steps =>
      if threshold <=? xv
      then exp_steps steps (xv -% threshold) ((product *% factor) / ONE_20)
      else exp_steps steps xv product
  end.

(** [for div in 2..=12 { term = ((term * xv) / o20) / div; series_sum += term }]. *)
Fixpoint taylor (xv : Z) (divs : list Z) (term series_sum : Z) : Z :=
  match divs with
  | [] => series_sum
  | div :: divs =>
      let term := ((term *% xv) / ONE_20) / div in
      taylor xv divs term (series_sum +% term)
  end.

Definition log_exp_exp (x : Z) : Z :=
  if MAX_NATURAL_EXPONENT <? x then U256_MAX
  else
    let '(xv, first_an) :=
      if EXP_X0 <=? x then (x -% EXP_X0, EXP_A0)
      else if EXP_X1 <=? x then (x -% EXP_X1, EXP_A1)
      else (x, 1) in
    let xv := xv *% 100 in
    let o20 := ONE_20 in
    let '(xv, product) := exp_steps EXP_STEPS xv o20 in
    let series_sum := o20 +% xv in
    let series_sum := taylor xv [2; 3; 4; 5; 6; 7; 8; 9; 10; 11; 12] xv series_sum in
    (((product *% series_sum) / o20) *% first_an) / 100.

Definition log_exp_pow (x y : Z) : Z :=
  if is_zero y then ONE_18
  else if is_zero x then 0
  else if x <? ONE_18 then
    let ln_recip := log_exp_ln (ONE_36 / x) in
    if is_zero ln_recip then 0
    else
      let exponent := (ln_recip *% y) / ONE_18 in
      if MAX_NATURAL_EXPONENT <? exponent then 0
      else
        let e := log_exp_exp exponent in
        if is_zero e then 0 else ONE_36 / e
  else
    let logx_times_y := (log_exp_ln x *% y) / ONE_18 in
    if MAX_NATURAL_EXPONENT <? logx_times_y then U256_MAX
    else log_exp_exp logx_times_y.

(** [fixed_point::pow_down]. *)
Definition pow_down (x y : Z) : Z :=
  if y =? ONE then x
  else
    let raw := log_exp_pow x y in
    let max_error := mul_up raw MAX_POW_RELATIVE_ERROR +% 1 in
    saturating_sub raw max_error.

(** ** The range without wrap-around

    The exponential of an argument below 64.0 is the intended series: the
    reference below is the same computation on unbounded integers. *)
Definition EXP_SAFE : Z := 64 * ONE_18.

Fixpoint exp_steps_ref (steps : list (Z * Z)) (xv product : Z) : Z * Z :=
  match steps with
  | [] => (xv, product)
  | (threshold, factor) :: steps =>
      if threshold <=? xv
      then exp_steps_ref steps (xv - threshold) (product * factor / ONE_20)
      else exp_steps_ref steps xv product
  end.

Fixpoint taylor_ref (xv : Z) (divs : list Z) (term series_sum : Z) : Z :=
  match divs with
  | [] => series_sum
  | div :: divs =>
      let term := term * xv / ONE_20 / div in
      taylor_ref xv divs term (series_sum + term)
  end.

Definition exp_ref (x : Z) : Z :=
  let '(xv, product) := exp_steps_ref EXP_STEPS (x * 100) ONE_20 in
  product * taylor_ref xv [2; 3; 4; 5; 6; 7; 8; 9; 10; 11; 12] xv (ONE_20 + xv) / ONE_20 / 100.

Lemma ONE_20_eq : ONE_20 = 10 ^ 20. Proof. vm_compute. reflexivity. Qed.

(** Each step halves the remaining exponent and multiplies the product by a
    factor of at least one; [room] checks that no intermediate product leaves
    the word and returns the largest final product. *)
Fixpoint room (steps : list (Z * Z)) (t p : Z) : option Z :=
  match steps with
  | [] => Some p
  | (threshold, factor) :: steps =>
      if ((t =? 2 * threshold) && (0 <? threshold) && (ONE_20 <=? factor)
          && (p * factor <? M256))%bool
      then room steps threshold (p * factor / ONE_20) else None
  end.

Lemma exp_steps_spec steps : ∀ t pmax pfin xv product,
  room steps t pmax = Some pfin → 0 ≤ xv < t → t < M256 → ONE_20 ≤ product ≤ pmax →
  let r := exp_steps steps xv product in
  r = exp_steps_ref steps xv product ∧ 0 ≤ r.1 ∧ r.1 * 2 ^ Z.of_nat (length steps) < t ∧
  ONE_20 ≤ r.2 ≤ pfin.
Proof.
  induction steps as [|[threshold factor] steps IH]; intros t pmax pfin xv product;
    cbn [room exp_steps exp_steps_ref length]; intros Hroom Hxv Ht Hp.
  { simplify_eq. cbn [fst snd]. change (2 ^ Z.of_nat 0) with 1. rewrite Z.mul_1_r.
    split_and!; [reflexivity|lia..]. }
  destruct ((t =? 2 * threshold) && (0 <? threshold) && (ONE_20 <=? factor)
            && (pmax * factor <? M256))%bool eqn:E; [|done]. zbool.
  assert (0 < ONE_20) by done.
  rewrite Nat2Z.inj_succ, Z.pow_succ_r by lia.
  assert (ONE_20 ≤ product * factor / ONE_20 ≤ pmax * factor / ONE_20) as Hstep.
  { assert (ONE_20 * ONE_20 ≤ product * factor) by (apply Z.mul_le_mono_nonneg; lia).
    assert (product * factor ≤ pmax * factor) by (apply Z.mul_le_mono_nonneg_r; lia).
    split; [by apply div_lower|by apply div_le_mono_num]. }
  assert (product * factor ≤ pmax * factor) by (apply Z.mul_le_mono_nonneg_r; lia).
  assert (0 ≤ product * factor) by (apply Z.mul_nonneg_nonneg; lia).
  assert (pmax ≤ pmax * factor / ONE_20)
    by (apply div_lower; [done|apply Z.mul_le_mono_nonneg_l; lia]).
  destruct (Z.leb_spec threshold xv).
  - rewrite wsub_small by lia. rewrite wmul_small by lia.
    destruct (IH threshold _ pfin (xv - threshold) (product * factor / ONE_20) Hroom)
      as (-> & ? & ? & ?); try lia. split_and!; (done || lia).
  - destruct (IH threshold _ pfin xv product Hroom) as (-> & ? & ? & ?); try lia.
    split_and!; (done || lia).
Qed.

Lemma taylor_spec xv divs : ∀ term series_sum,
  0 ≤ xv ≤ ONE_20 → Forall (λ d, 2 ≤ d) divs → 0 ≤ term ≤ ONE_20 →
  0 ≤ series_sum → series_sum + ONE_20 * Z.of_nat (length divs) < M256 →
  let r := taylor xv divs term series_sum in
  r = taylor_ref xv divs term series_sum ∧
  series_sum ≤ r ≤ series_sum + ONE_20 * Z.of_nat (length divs).
Proof.
  induction divs as [|div divs IH]; intros term series_sum Hxv Hdivs Hterm Hs Hroom;
    cbn [taylor taylor_ref length] in *; [split; [done|lia]|].
  apply Forall_cons in Hdivs as [Hd Hdivs]. assert (0 < ONE_20) by done.
  assert (ONE_20 * ONE_20 < M256) by done.
  rewrite wmul_small by nia.
  assert (0 ≤ term * xv / ONE_20 ≤ ONE_20) as Hq.
  { split; [apply Z.div_pos; nia|]. apply Z.div_le_upper_bound; nia. }
  assert (0 ≤ term * xv / ONE_20 / div ≤ ONE_20) as Hq2.
  { split; [apply Z.div_pos; lia|]. apply Z.div_le_upper_bound; nia. }
  set (t' := term * xv / ONE_20 / div) in *.
  rewrite wadd_small by lia.
  destruct (IH t' (series_sum + t')) as [-> ?]; try done; lia.
Qed.

Lemma room_EXP_STEPS_check :
  match room EXP_STEPS (6400 * 10 ^ 18) ONE_20 with
  | Some p => p * (13 * ONE_20) <? M256 | None => false end = true.
Proof. vm_compute. reflexivity. Qed.

Lemma room_EXP_STEPS : ∃ p, room EXP_STEPS (6400 * 10 ^ 18) ONE_20 = Some p ∧
  p * (13 * ONE_20) < M256.
Proof.
  pose proof room_EXP_STEPS_check as E. destruct (room _ _ _) as [p|]; [|done].
  exists p. split; [done|by apply Z.ltb_lt].
Qed.

Lemma log_exp_exp_spec x :
  0 ≤ x < EXP_SAFE → log_exp_exp x = exp_ref x ∧ ONE ≤ log_exp_exp x < M256.
Proof.
  intros Hx. unfold log_exp_exp, exp_ref. unfold EXP_SAFE, ONE_18, ONE in Hx.
  assert (64 * 1000000000000000000 < MAX_NATURAL_EXPONENT) by (vm_compute; reflexivity).
  assert (64 * 1000000000000000000 < EXP_X1 ∧ EXP_X1 < EXP_X0) as [? ?] by (vm_compute; done).
  destruct (Z.ltb_spec MAX_NATURAL_EXPONENT x); [lia|].
  destruct (Z.leb_spec EXP_X0 x); [lia|]. destruct (Z.leb_spec EXP_X1 x); [lia|].
  rewrite (wmul_small x 100) by (unfold M256; lia).
  destruct room_EXP_STEPS as (pfin & Hroom & Hpfin).
  destruct (exp_steps_spec _ _ _ _ (x * 100) ONE_20 Hroom) as (Heq & Hxv & Hxv2 & Hp);
    [lia|vm_compute; reflexivity|split; [lia|vm_compute; discriminate]|].
  rewrite <- Heq. destruct (exp_steps EXP_STEPS (x * 100) ONE_20) as [xv product].
  cbn [fst snd] in *. change (Z.of_nat (length EXP_STEPS)) with 8 in Hxv2.
  rewrite ONE_20_eq in *.
  rewrite (wadd_small (10 ^ 20) xv) by (unfold M256; lia).
  destruct (taylor_spec xv [2; 3; 4; 5; 6; 7; 8; 9; 10; 11; 12] xv (10 ^ 20 + xv)) as [Ht Hb];
    rewrite ?ONE_20_eq; try lia; [repeat constructor; lia|cbn [length]; unfold M256; lia|].
  rewrite Ht in *. rewrite ONE_20_eq in Hb. cbn [length] in Hb.
  set (series := taylor_ref _ _ _ _) in *.
  assert (product * series < M256) by nia.
  rewrite (wmul_small product series) by nia.
  assert (10 ^ 20 ≤ product * series / 10 ^ 20 < M256) as Hps.
  { split; [apply div_lower; [done|nia]|]. apply Z.div_lt_upper_bound; [done|nia]. }
  rewrite wmul_small, Z.mul_1_r by lia. split; [done|]. unfold ONE. split.
  - apply div_lower; lia.
  - apply Z.div_lt_upper_bound; lia.
Qed.

(** ** Properties *)

(** Below an exponent of 64.0 the fixed-point exponential is exactly the
    intended table-and-series computation on unbounded integers, and it is at
    least 1.0: no operator wraps. *)
Theorem log_exp_exp_exact (x : Z) :
  0 ≤ x < EXP_SAFE → log_exp_exp x = exp_ref x ∧ ONE ≤ log_exp_exp x < M256.
Proof. apply log_exp_exp_spec. Qed.

Lemma log_exp_exp_exact_witness :
  log_exp_exp ONE = exp_ref ONE ∧ ONE ≤ log_exp_exp ONE < M256.
Proof. apply log_exp_exp_exact. split; vm_compute; (discriminate || reflexivity). Defined.

(** A power of a base at most one is at most one (so a weighted-pool quote
    never exceeds the pool's balance) as long as the exponent computed by the
    code stays below 64.0. *)
Theorem pow_down_at_most_one (x y : Z) :
  0 ≤ x ≤ ONE → u256 y → (log_exp_ln (ONE_36 / x) *% y) / ONE_18 < EXP_SAFE →
  (x = ONE → y = ONE ∨ y = 0) →
  0 ≤ pow_down x y ≤ ONE.
Proof.
  intros Hx Hy Hexp Hone. unfold pow_down. destruct (Z.eqb_spec y ONE); [lia|].
  assert (log_exp_pow x y ≤ ONE) as Hle.
  { unfold log_exp_pow, is_zero. destruct (Z.eqb_spec y 0); [done|].
    destruct (Z.eqb_spec x 0); [done|].
    destruct (Z.ltb_spec x ONE_18) as [Hlt|Hge]; [|unfold ONE_18 in *; lia].
    destruct (_ =? 0); [done|]. destruct (_ <? _); [done|].
    assert (0 ≤ (log_exp_ln (ONE_36 / x) *% y) / ONE_18).
    { apply Z.div_pos; [|done]. by destruct (wmul_range (log_exp_ln (ONE_36 / x)) y). }
    destruct (log_exp_exp_spec ((log_exp_ln (ONE_36 / x) *% y) / ONE_18)) as [_ He]; [lia|].
    destruct (Z.eqb_spec (log_exp_exp ((log_exp_ln (ONE_36 / x) *% y) / ONE_18)) 0); [done|].
    revert He. generalize (log_exp_exp ((log_exp_ln (ONE_36 / x) *% y) / ONE_18)). intros e He.
    assert (ONE_36 = ONE * ONE) as -> by (vm_compute; reflexivity).
    assert (0 < ONE) by (vm_compute; reflexivity).
    apply Z.div_le_upper_bound; [lia|]. apply Z.mul_le_mono_nonneg_r; lia. }
  unfold saturating_sub. pose proof (wadd_range (mul_up (log_exp_pow x y) MAX_POW_RELATIVE_ERROR) 1) as [? ?].
  assert (0 < ONE) by (vm_compute; reflexivity). lia.
Qed.

Lemma pow_down_at_most_one_witness : 0 ≤ pow_down 845837069060167155 1000300030003000300 ≤ ONE.
Proof.
  apply pow_down_at_most_one; [split; vm_compute; discriminate | split; vm_compute; (discriminate || reflexivity)
    | vm_compute; reflexivity | intros H; vm_compute in H; discriminate H].
Defined.

(** The tables for large arguments are wrong.  [LN_X0], [LN_X1] hold 128 and 64
    in the top limb instead of the 18-decimal values, so the logarithm of 10^10
    exceeds 10^40 (the true value is about 23.03), and above 64.0 the exponential
    runs out of table: at 100.0 it is below a millionth of e^100. *)
Theorem log_exp_large_arguments_wrong :
  LN_X1 = 64 * 2 ^ 192 ∧ LN_X1 ≠ 64 * ONE_18 ∧
  10 ^ 40 * ONE < log_exp_ln (10 ^ 10 * ONE) ∧
  log_exp_exp (100 * ONE) * 10 ^ 6 < 2 ^ 100 * 2 ^ 44 * ONE.
Proof. vm_compute. split_and!; (reflexivity || discriminate). Qed.
