(* ===== verification/Types.v ===== *)
(** * Core data: constants, pool states and routes

    [src/src/core/types.rs] and [src/src/core/constants.rs].  Struct fields keep
    their source names behind a prefix for the struct.  [Address] and
    [FixedBytes<32>] are their integer values, [Vec], [SmallVec] and [Arc<[_]>]
    are lists, [f64] is the Standard Library's executable binary64
    ([spec_float]). *)
From stdpp Require Import countable.
From S2P Require Import Prelude Word.
From Corelib Require Import SpecFloat.

(** ** Constants *)

Definition HOP_CAP : Z := 8.
Definition MAX_POOL_TOKENS : Z := 8.
Definition MIN_HOP_TOKEN_BALANCE : Z := 1.
Definition V2_MIN_RESERVE_WEI : Z := 100000000.
Definition V2_MIN_RESERVE : Z := from_limbs V2_MIN_RESERVE_WEI 0 0 0.
Definition FEE_DENOMINATOR : Z := from_limbs 1000 0 0 0.
Definition BPS_SCALE : Z := from_limbs 10000 0 0 0.
Definition DEFAULT_FEE_NUMERATOR : Z := from_limbs 997 0 0 0.
Definition RATE_PRECISION : Z := from_limbs 1000000000000000000 0 0 0.
Definition MIN_TOKEN_TO_MATIC_RATE : Z := from_limbs 1000000 0 0 0.
Definition MAX_SANE_PROFIT_RATIO_BPS : Z := 50000.
Definition MAX_SANE_PROFIT_MATIC_WEI : Z := 10 ^ 18.
Definition MIN_ECONOMIC_VALUE_MATIC_WEI : Z := 10 ^ 17.
Definition EXECUTION_MIN_SLIPPAGE_BPS : Z := 100.
Definition EXECUTION_CHAIN_IN_BUFFER_BPS : Z := 300.
Definition GAS_V2_HOP : Z := 85000.
Definition GAS_V3_BASE : Z := 155000.
Definition GAS_V4_BASE : Z := 170000.
Definition GAS_CURVE_HOP : Z := 250000.
Definition GAS_BALANCER_HOP : Z := 300000.
Definition GAS_DODO_HOP : Z := 180000.
Definition GAS_WOOFI_HOP : Z := 150000.
Definition GAS_PER_TICK_CROSSED : Z := 20000.

Definition balancer_direct_batch_gas (hop_count : Z) : Z :=
  match hop_count with 0 | 1 => 180000 | 2 => 220000 | 3 => 250000 | _ => 280000 end.

Definition dodo_flash_batch_gas (hop_count : Z) : Z :=
  match hop_count with 0 | 1 => 220000 | 2 => 293000 | 3 => 350000 | _ => 410000 end.

Abbreviation f64 := spec_float (only parsing).
Abbreviation Address := Z (only parsing).
Abbreviation TokenIndex := Z (only parsing).
Abbreviation PoolIndex := Z (only parsing).

Definition USDC_E : Address := 0x2791bca1f2de4661ed88a30c99a7a9449aa84174.
Definition USDC_NATIVE : Address := 0x3c499c542cef5e3811e1192ce70d8cc03d5c3359.

Definition is_polygon_usd_stable (addr : Address) : bool :=
  ((addr =? USDC_E) || (addr =? USDC_NATIVE))%bool.

Definition polygon_usd_stable_equivalent (a b : Address) : bool :=
  ((a =? b) || (is_polygon_usd_stable a && is_polygon_usd_stable b))%bool.

(** ** Protocols, edges and routes *)

Inductive ProtocolType :=
| UniswapV2 | UniswapV3 | UniswapV4 | BalancerV2 | CurveStable | CurveCrypto | Dodo | Woofi.

#[export] Instance ProtocolType_eq_dec : EqDecision ProtocolType.
Proof. solve_decision. Defined.

(** [self as u8 as usize]: the [repr(u8)] discriminant. *)
Definition fetch_slot (p : ProtocolType) : option Z :=
  Some match p with
       | UniswapV2 => 0 | UniswapV3 => 1 | UniswapV4 => 2 | BalancerV2 => 3
       | CurveStable => 4 | CurveCrypto => 5 | Dodo => 6 | Woofi => 7
       end.

Record Edge := {
  pool_index : PoolIndex;
  token_in : TokenIndex;
  token_out : TokenIndex;
  token_in_idx : Z;
  token_out_idx : Z;
  protocol : ProtocolType;
  fee_bps : Z;
  zero_for_one : bool;
}.

#[export] Instance Edge_eq_dec : EqDecision Edge.
Proof. solve_decision. Defined.

Definition protocol_of_slot (n : Z) : ProtocolType :=
  match n with
  | 0 => UniswapV2 | 1 => UniswapV3 | 2 => UniswapV4 | 3 => BalancerV2
  | 4 => CurveStable | 5 => CurveCrypto | 6 => Dodo | _ => Woofi
  end.

Definition edge_code (e : Edge) : Z * Z * Z * Z * Z * Z * Z * bool :=
  (pool_index e, token_in e, token_out e, token_in_idx e, token_out_idx e,
   default 0 (fetch_slot (protocol e)), fee_bps e, zero_for_one e).

Definition edge_of_code (c : Z * Z * Z * Z * Z * Z * Z * bool) : Edge :=
  let '(p, ti, to, ii, oi, pr, f, z) := c in
  {| pool_index := p; token_in := ti; token_out := to; token_in_idx := ii; token_out_idx := oi;
     protocol := protocol_of_slot pr; fee_bps := f; zero_for_one := z |}.

(** Routes are hash-map keys. *)
#[export] Instance Edge_countable : Countable Edge.
Proof. apply (inj_countable' edge_code edge_of_code). by intros [? ? ? ? ? [] ? ?]. Defined.

(** [SmallVec<[Edge; HOP_CAP]>] *)
Abbreviation CycleEdges := (list Edge) (only parsing).

Definition hop_amounts_zeroed (hop_count : nat) : list Z := replicate (hop_count + 1) 0.

(** ** Pool states *)

Record V3Tick := { t_tick : Z; t_liquidity_gross : Z; t_liquidity_net : Z }.

Record V2PoolState := {
  v2_reserve0 : Z;
  v2_reserve1 : Z;
  v2_fee : Z;
  v2_fee_denominator : Z;
  v2_block_timestamp_last : Z;
}.

Record ConcentratedLiquidityPoolState := {
  cl_sqrt_price_x96 : Z;
  cl_tick : Z;
  cl_liquidity : Z;
  cl_fee : Z;
  cl_tick_spacing : Z;
  cl_ticks : list V3Tick;
  cl_unlocked : bool;
  cl_fee_protocol : Z;
  cl_observation_cardinality : Z;
}.
Abbreviation V3PoolState := ConcentratedLiquidityPoolState.
Abbreviation V4PoolState := ConcentratedLiquidityPoolState.

Record CurvePoolState := {
  cv_balances : list Z;
  cv_a : Z;
  cv_fee : Z;
  cv_rates : list Z;
  cv_n_coins : Z;
  cv_gamma : option Z;
  cv_d : option Z;
  cv_offpeg_fee_multiplier : option Z;
}.

Inductive BalancerPoolKind := Weighted | Stable | Linear.
#[export] Instance BalancerPoolKind_eq_dec : EqDecision BalancerPoolKind.
Proof. solve_decision. Defined.

Record BalancerLinearState := {
  ln_main_index : nat;
  ln_wrapped_index : nat;
  ln_lower_target : Z;
  ln_upper_target : Z;
  ln_wrapped_rate : Z;
}.

Record BalancerPoolState := {
  bl_pool_id : option Z;
  bl_tokens : list Address;
  bl_balances : list Z;
  bl_weights : list Z;
  bl_scaling_factors : list Z;
  bl_amp : Z;
  bl_amp_precision : Z;
  bl_fee : Z;
  bl_pool_type : BalancerPoolKind;
  bl_linear : option BalancerLinearState;
  bl_bpt_index : option nat;
  bl_is_updating : bool;
  bl_last_change_block : Z;
}.

Inductive DodoRState := One | AboveOne | BelowOne.
#[export] Instance DodoRState_eq_dec : EqDecision DodoRState.
Proof. solve_decision. Defined.

Record DodoPoolState := {
  dd_base_reserve : Z;
  dd_quote_reserve : Z;
  dd_base_token : Address;
  dd_quote_token : Address;
  dd_base_target : Z;
  dd_quote_target : Z;
  dd_r_state : DodoRState;
  dd_i : Z;
  dd_k : Z;
  dd_lp_fee_rate : Z;
  dd_mt_fee_rate : Z;
}.

Record WoofiBaseTokenState := {
  wb_price : Z;
  wb_spread : Z;
  wb_coeff : Z;
  wb_reserve : Z;
  wb_base_dec : Z;
  wb_quote_dec : Z;
  wb_price_dec : Z;
  wb_fee_rate : Z;
  wb_max_gamma : Z;
  wb_max_notional_swap : Z;
}.

Record WoofiPoolState := {
  wf_tokens : list Address;
  wf_quote_reserve : Z;
  wf_base_states : list WoofiBaseTokenState;
  wf_fee : Z;
}.

Inductive PoolState :=
| PInvalid
| PV2 (s : V2PoolState)
| PV3 (s : V3PoolState)
| PV4 (s : V4PoolState)
| PCurve (s : CurvePoolState)
| PBalancer (s : BalancerPoolState)
| PDodo (s : DodoPoolState)
| PWoofi (s : WoofiPoolState).

(** ** Routability ([impl PoolState]) *)

Definition hop_token_funded (self : PoolState) (token_idx : nat) : bool :=
  match self with
  | PInvalid => false
  | PV2 s =>
      match token_idx with
      | 0%nat => V2_MIN_RESERVE <=? v2_reserve0 s
      | 1%nat => V2_MIN_RESERVE <=? v2_reserve1 s
      | _ => false
      end
  | PV3 s | PV4 s =>
      ((token_idx <=? 1)%nat && cl_unlocked s && (0 <? cl_liquidity s)
       && negb (is_zero (cl_sqrt_price_x96 s)))%bool
  | PCurve s =>
      match cv_balances s !! token_idx with
      | Some balance => MIN_HOP_TOKEN_BALANCE <=? balance
      | None => false
      end
  | PBalancer s =>
      if bool_decide (bl_bpt_index s = Some token_idx) then false
      else match bl_balances s !! token_idx with
           | Some balance => MIN_HOP_TOKEN_BALANCE <=? balance
           | None => false
           end
  | PDodo s =>
      match token_idx with
      | 0%nat => V2_MIN_RESERVE <=? dd_base_reserve s
      | 1%nat => V2_MIN_RESERVE <=? dd_quote_reserve s
      | _ => false
      end
  | PWoofi s =>
      let quote_idx := length (wf_base_states s) in
      if (token_idx <? quote_idx)%nat then
        match wf_base_states s !! token_idx with
        | Some base => Z.max (wb_base_dec base / 1000) 1 <=? wb_reserve base
        | None => false
        end
      else if (token_idx =? quote_idx)%nat then
        match head (wf_base_states s) with
        | Some base => Z.max (wb_quote_dec base / 1000) 1 <=? wf_quote_reserve s
        | None => false
        end
      else false
  end.

Definition hop_pair_routable (self : PoolState) (token_in_idx token_out_idx : nat) : bool :=
  if (token_in_idx =? token_out_idx)%nat then false
  else match self with
  | PInvalid => false
  | PWoofi s =>
      let quote_idx := length (wf_base_states s) in
      if ((quote_idx <? token_in_idx) || (quote_idx <? token_out_idx))%nat%bool then false
      else (hop_token_funded self token_in_idx && hop_token_funded self token_out_idx)%bool
  | _ => (hop_token_funded self token_in_idx && hop_token_funded self token_out_idx)%bool
  end.

(** [for i in 0..n { if funded(i) { funded += 1; if funded >= 2 { return true } } }]. *)
Fixpoint at_least_two_funded_loop (self : PoolState) (idxs : list nat) (funded : nat) : bool :=
  match idxs with
  | [] => false
  | i :: idxs =>
      if hop_token_funded self i then
        if (2 <=? funded + 1)%nat then true
        else at_least_two_funded_loop self idxs (funded + 1)
      else at_least_two_funded_loop self idxs funded
  end.

Definition at_least_two_funded (self : PoolState) (n : nat) : bool :=
  at_least_two_funded_loop self (seq 0 n) 0.

Definition is_tradable (self : PoolState) : bool :=
  match self with
  | PInvalid => false
  | PV2 _ | PDodo _ => (hop_token_funded self 0 && hop_token_funded self 1)%bool
  | PV3 s | PV4 s =>
      (cl_unlocked s && (0 <? cl_liquidity s) && negb (is_zero (cl_sqrt_price_x96 s)))%bool
  | PCurve s =>
      let n := Z.to_nat (cv_n_coins s) in
      if ((n <? 2) || negb (length (cv_balances s) =? n) || negb (length (cv_rates s) =? n))%nat%bool
         || is_zero (cv_a s) then false
      else if existsb is_zero (cv_rates s) then false
      else at_least_two_funded self n
  | PBalancer s =>
      let n := length (bl_balances s) in
      let family_valid :=
        match bl_pool_type s with
        | Weighted =>
            ((length (bl_weights s) =? n)%nat && forallb (λ w, negb (is_zero w)) (bl_weights s))%bool
        | Stable =>
            (negb (is_zero (bl_amp s)) && negb (is_zero (bl_amp_precision s))
             && negb (bl_is_updating s))%bool
        | Linear =>
            match bl_linear s with
            | Some linear =>
                ((ln_main_index linear <? n)%nat && (ln_wrapped_index linear <? n)%nat
                 && negb (ln_main_index linear =? ln_wrapped_index linear)%nat
                 && negb (is_zero (ln_wrapped_rate linear)))%bool
            | None => false
            end
        end in
      if ((n <? 2)%nat || negb (length (bl_tokens s) =? n)%nat
          || negb (length (bl_scaling_factors s) =? n)%nat || negb family_valid
          || match bl_bpt_index s with Some index => (n <=? index)%nat | None => false end)%bool
      then false
      else if existsb is_zero (bl_scaling_factors s) then false
      else at_least_two_funded self n
  | PWoofi s =>
      if negb (length (wf_tokens s) =? length (wf_base_states s) + 1)%nat then false
      else
        let quote_idx := length (wf_base_states s) in
        (hop_token_funded self quote_idx && existsb (hop_token_funded self) (seq 0 quote_idx))%bool
  end.

(** ** Routes *)

Record FoundCycle := {
  fc_start_token : TokenIndex;
  fc_edges : list Edge;
  fc_hop_count : Z;
  fc_log_weight : f64;
  fc_cumulative_fee_bps : Z;
  fc_score : f64;
  fc_cycle_ratio : Z;
}.

(** [u32::try_from(self.edges.len()).unwrap_or(self.hop_count)]. *)
Definition edge_hops (self : FoundCycle) : Z :=
  let n := Z.of_nat (length (fc_edges self)) in
  if n <? 2 ^ 32 then n else fc_hop_count self.

Inductive FlashLoanSource := FBalancer | FAaveV3 | FDodo | FDirect.
#[export] Instance FlashLoanSource_eq_dec : EqDecision FlashLoanSource.
Proof. solve_decision. Defined.

(** ** Properties of routability *)

Lemma at_least_two_funded_loop_spec self idxs k :
  (k ≤ 1)%nat →
  at_least_two_funded_loop self idxs k = (2 <=? k + length (filter (hop_token_funded self) idxs))%nat.
Proof.
  revert k. induction idxs as [|i idxs IH]; intros k Hk.
  { symmetry. apply Nat.leb_gt. simpl. lia. }
  rewrite filter_cons. cbn [at_least_two_funded_loop].
  destruct (hop_token_funded self i) eqn:E.
  - rewrite decide_True by done. cbn [length].
    destruct (Nat.leb_spec 2 (k + 1)); [symmetry; apply Nat.leb_le; lia|].
    rewrite IH by lia. f_equal. lia.
  - rewrite decide_False by (intros []). by apply IH.
Qed.

Lemma at_least_two_funded_pair self n :
  at_least_two_funded self n = true →
  ∃ i j, (i < j < n)%nat ∧ hop_token_funded self i = true ∧ hop_token_funded self j = true.
Proof.
  unfold at_least_two_funded. rewrite at_least_two_funded_loop_spec by lia.
  intros Hlen%Nat.leb_le. cbn [Nat.add] in Hlen.
  destruct (filter (hop_token_funded self) (seq 0 n)) as [|i [|j r]] eqn:E; simpl in Hlen; try lia.
  assert (∀ x, x ∈ [i; j] → (x < n)%nat ∧ hop_token_funded self x = true) as Hin.
  { intros x Hx. assert (x ∈ filter (hop_token_funded self) (seq 0 n)) as Hf.
    { rewrite E. set_solver. }
    apply list_elem_of_filter in Hf as [Hf Hs%elem_of_seq]. split; [lia|by apply Is_true_true]. }
  assert (i ≠ j) as Hne.
  { pose proof (NoDup_filter (hop_token_funded self) _ (NoDup_seq 0 n)) as Hnd.
    rewrite E in Hnd. intros ->. inversion Hnd. set_solver. }
  destruct (Hin i) as [? ?]; [set_solver|]. destruct (Hin j) as [? ?]; [set_solver|].
  destruct (decide (i < j)%nat); [exists i, j|exists j, i]; split_and!; (done || lia).
Qed.

Lemma hop_pair_routable_funded self i j :
  i ≠ j → hop_token_funded self i = true → hop_token_funded self j = true →
  hop_pair_routable self i j = true.
Proof.
  intros Hne Hi Hj. unfold hop_pair_routable. destruct (Nat.eqb_spec i j); [done|].
  destruct self; rewrite ?Hi, ?Hj; try done.
  simpl in Hi, Hj.
  destruct (Nat.ltb_spec i (length (wf_base_states s))), (Nat.ltb_spec j (length (wf_base_states s)));
    destruct (Nat.eqb_spec i (length (wf_base_states s))), (Nat.eqb_spec j (length (wf_base_states s)));
    try done; destruct (Nat.ltb_spec (length (wf_base_states s)) i),
      (Nat.ltb_spec (length (wf_base_states s)) j); (done || lia).
Qed.

(** A pool admitted as tradable has a pair of tokens that can be swapped in
    both directions: admission to the graph never leaves an edge-less pool. *)
Theorem is_tradable_has_routable_pair (s : PoolState) :
  is_tradable s = true →
  ∃ i j, i ≠ j ∧ hop_pair_routable s i j = true ∧ hop_pair_routable s j i = true.
Proof.
  intros H.
  assert (∃ i j, i ≠ j ∧ hop_token_funded s i = true ∧ hop_token_funded s j = true)
    as (i & j & Hne & Hi & Hj).
  { destruct s as [|v|v|v|c|b|d|w]; cbn [is_tradable] in H; [done|..].
    - exists 0%nat, 1%nat. by apply andb_true_iff in H as [? ?].
    - exists 0%nat, 1%nat. simpl. by rewrite H.
    - exists 0%nat, 1%nat. simpl. by rewrite H.
    - cases_in H. apply at_least_two_funded_pair in H as (i & j & ? & ? & ?).
      exists i, j. split_and!; (done || lia).
    - destruct (_ || _)%bool; [done|]. destruct (existsb _ _); [done|].
      apply at_least_two_funded_pair in H as (i & j & ? & ? & ?).
      exists i, j. split_and!; (done || lia).
    - exists 0%nat, 1%nat. by apply andb_true_iff in H as [? ?].
    - destruct (negb _); [done|]. apply andb_true_iff in H as [Hq He].
      apply existsb_exists in He as (i & Hi%in_seq & Hf).
      exists i, (length (wf_base_states w)). split_and!; (done || lia). }
  exists i, j. split; [done|]. split; by apply hop_pair_routable_funded.
Qed.

Lemma is_tradable_has_routable_pair_witness :
  let s := PV2 {| v2_reserve0 := 10 ^ 9; v2_reserve1 := 10 ^ 12; v2_fee := 997;
                  v2_fee_denominator := 1000; v2_block_timestamp_last := 0 |} in
  ∃ i j, i ≠ j ∧ hop_pair_routable s i j = true ∧ hop_pair_routable s j i = true.
Proof. apply is_tradable_has_routable_pair. reflexivity. Defined.
