(* ===== verification/UniswapV2.v ===== *)
(** * Constant-product swaps

    [src/src/core/math/uniswap_v2.rs].  The quote has a 256-bit fast path for
    amounts below 2^128 and a 512-bit path; both wrap on overflow.  Whatever the
    path, the quote passes the pair's constant-product check; it equals the
    exact formula as long as the numerator fits the path's width. *)
From S2P Require Import Prelude Word Types.

Definition get_amount_out
    (amount_in reserve_in reserve_out fee_numerator fee_denominator : Z) : outcome Z :=
  if (is_zero amount_in || is_zero reserve_in || is_zero reserve_out
      || is_zero fee_numerator || is_zero fee_denominator
      || (fee_denominator <=? fee_numerator))%bool
  then Done 0
  else if Z.shiftr (Z.lor (Z.lor amount_in reserve_in) reserve_out) 128 =? 0 then
    let amount_in_with_fee := amount_in *% fee_numerator in
    let numerator := amount_in_with_fee *% reserve_out in
    let denominator := (reserve_in *% fee_denominator) +% amount_in_with_fee in
    pdiv numerator denominator
  else
    let amount_in_with_fee := amount_in *%% fee_numerator in
    let numerator := amount_in_with_fee *%% reserve_out in
    let den_part := reserve_in *%% fee_denominator in
    let denominator := den_part +%% amount_in_with_fee in
    if is_zero denominator then Done 0
    else
      let result := numerator / denominator in
      if is_zero result then Done 0 else Done (u512_to_u256 result).

Definition v2_fee_bps_from_pool (state : V2PoolState) : option Z :=
  if (is_zero (v2_fee state) || is_zero (v2_fee_denominator state)
      || (v2_fee_denominator state <=? v2_fee state))%bool then None
  else
    let fee_part := v2_fee_denominator state -% v2_fee state in
    let bps := (fee_part *% 10000) / v2_fee_denominator state in
    let bps := Z.min bps 9999 in
    if 0 <? bps then Some bps else None.

Definition resolve_v2_fee_with_edge (state : V2PoolState) (edge_fee_bps : option Z) : Z * Z :=
  if (negb (is_zero (v2_fee state)) && negb (is_zero (v2_fee_denominator state))
      && (v2_fee state <? v2_fee_denominator state))%bool
  then (v2_fee state, v2_fee_denominator state)
  else match edge_fee_bps with
  | Some bps =>
      if ((0 <? bps) && (bps <? 10000))%bool then (10000 - bps, 10000)
      else (DEFAULT_FEE_NUMERATOR, FEE_DENOMINATOR)
  | None => (DEFAULT_FEE_NUMERATOR, FEE_DENOMINATOR)
  end.

Definition simulate_v2_swap (state : V2PoolState) (amount_in : Z) (zero_for_one : bool)
    (edge_fee_bps : option Z) : outcome Z :=
  let '(numerator, denominator) := resolve_v2_fee_with_edge state edge_fee_bps in
  let '(reserve_in, reserve_out) :=
    if zero_for_one then (v2_reserve0 state, v2_reserve1 state)
    else (v2_reserve1 state, v2_reserve0 state) in
  get_amount_out amount_in reserve_in reserve_out numerator denominator.

(** ** The exact formula *)

Definition amount_out_exact (a ri ro n d : Z) : Z := a * n * ro / (ri * d + a * n).

(** The width of the numerator on the path the code takes. *)
Definition numerator_bound (a ri ro : Z) : Z :=
  if Z.max (Z.max a ri) ro <? M128 then M256 else M512.

Lemma lor_shiftr_128 a b c :
  0 ≤ a → 0 ≤ b → 0 ≤ c →
  (Z.shiftr (Z.lor (Z.lor a b) c) 128 =? 0) = (Z.max (Z.max a b) c <? M128).
Proof.
  intros Ha Hb Hc. rewrite !Z.shiftr_lor, !Z.shiftr_div_pow2 by lia.
  assert (∀ x, 0 ≤ x → x / 2 ^ 128 = 0 ↔ x < M128) as Hdiv.
  { intros x Hx. rewrite Z.div_small_iff by done. unfold M128. lia. }
  apply Bool.eq_iff_eq_true. rewrite Z.eqb_eq, Z.ltb_lt, !Z.lor_eq_0_iff, !Hdiv by done. lia.
Qed.

Section quote.
Context (a ri ro n d : Z).
Context (Ha : u256 a) (Hri : u256 ri) (Hro : u256 ro) (Hn : 0 < n) (Hnd : n < d) (Hd : d < 2 ^ 64).
Context (Ha0 : 0 < a) (Hri0 : 0 < ri) (Hro0 : 0 < ro).

(** On either path the code divides the numerator, reduced modulo the width of
    the path, by the exact denominator. *)
Lemma get_amount_out_eq :
  get_amount_out a ri ro n d =
  Done (a * n * ro mod numerator_bound a ri ro / (ri * d + a * n)).
Proof using All.
  unfold get_amount_out, is_zero, pdiv, numerator_bound, u256 in *.
  rewrite lor_shiftr_128 by lia.
  destruct (Z.eqb_spec a 0), (Z.eqb_spec ri 0), (Z.eqb_spec ro 0), (Z.eqb_spec n 0),
    (Z.eqb_spec d 0), (Z.leb_spec d n); try lia. cbn [orb].
  assert (0 < ri * d + a * n) by nia.
  destruct (Z.ltb_spec (Z.max (Z.max a ri) ro) M128).
  - assert (a * n < 2 ^ 192 ∧ ri * d < 2 ^ 192) as [? ?] by (unfold M128 in *; nia).
    rewrite (wmul_small a n), (wmul_small ri d), wadd_small by (unfold M256; nia).
    destruct (Z.eqb_spec (ri * d + a * n) 0); [lia|]. reflexivity.
  - assert (a * n < 2 ^ 320 ∧ ri * d < 2 ^ 320) as [? ?] by (unfold M256 in *; nia).
    rewrite (wmul512_small a n), (wmul512_small ri d), wadd512_small by (unfold M512; nia).
    destruct (Z.eqb_spec (ri * d + a * n) 0); [lia|].
    assert (0 ≤ (a * n *%% ro) / (ri * d + a * n) < M256) as Hq.
    { pose proof (Z.mod_pos_bound (a * n * ro) M512 ltac:(done)).
      pose proof (wmul512_le (a * n) ro ltac:(nia) ltac:(lia)).
      unfold wmul512 in *. split; [apply Z.div_pos; lia|].
      apply Z.div_lt_upper_bound; [lia|]. nia. }
    destruct (Z.eqb_spec ((a * n *%% ro) / (ri * d + a * n)) 0) as [E|E].
    + rewrite <- E. reflexivity.
    + rewrite u512_to_u256_small by done. reflexivity.
Qed.

Lemma numerator_bound_pos : 0 < numerator_bound a ri ro.
Proof using. unfold numerator_bound. destruct (_ <? _); done. Qed.

Lemma quote_le_exact :
  0 ≤ a * n * ro mod numerator_bound a ri ro / (ri * d + a * n) ≤ amount_out_exact a ri ro n d.
Proof using Hn Hnd Ha0 Hri0 Hro0.
  pose proof numerator_bound_pos. assert (0 < ri * d + a * n) by nia.
  pose proof (Z.mod_pos_bound (a * n * ro) _ numerator_bound_pos).
  assert (0 ≤ a * n * ro) by (apply Z.mul_nonneg_nonneg; nia).
  assert (a * n * ro mod numerator_bound a ri ro ≤ a * n * ro) by (by apply Z.mod_le).
  split; [apply Z.div_pos; lia|]. by apply div_le_mono_num.
Qed.

(** The constant-product check of the pair, fee included. *)
Lemma quote_keeps_k out :
  0 ≤ out ≤ amount_out_exact a ri ro n d →
  out < ro ∧ ri * ro * d ≤ (ri * d + a * n) * (ro - out).
Proof using Hn Hnd Ha0 Hri0 Hro0.
  intros Hout. unfold amount_out_exact in Hout.
  assert (0 < ri * d) by (apply Z.mul_pos_pos; lia).
  assert (0 < a * n) by (apply Z.mul_pos_pos; lia).
  pose proof (div_mul_le (a * n * ro) (ri * d + a * n) ltac:(lia)) as Hm.
  assert (out * (ri * d + a * n) ≤ a * n * ro).
  { etrans; [|exact Hm]. apply Z.mul_le_mono_nonneg_r; lia. }
  split; [|lia]. apply (Z.mul_lt_mono_pos_r (ri * d + a * n)); [lia|].
  assert (0 < ri * d * ro) by (apply Z.mul_pos_pos; lia). lia.
Qed.

End quote.

(** ** Properties *)

(** For a positive amount, non-empty reserves and a valid fee below 2^64, the
    quote never panics, is strictly below the output reserve and satisfies the
    pair's constant-product check with the fee, on both arithmetic paths and even
    where the numerator wraps. *)
Theorem get_amount_out_keeps_k (a ri ro n d : Z) :
  u256 a → u256 ri → u256 ro → 0 < n → n < d → d < 2 ^ 64 → 0 < a → 0 < ri → 0 < ro →
  ∃ out, get_amount_out a ri ro n d = Done out ∧ 0 ≤ out < ro ∧
    ri * ro * d ≤ (ri * d + a * n) * (ro - out).
Proof.
  intros. eexists. split; [by apply get_amount_out_eq|].
  pose proof (quote_le_exact a ri ro n d) as Hq.
  edestruct (quote_keeps_k a ri ro n d) as [Hlt Hk]; [done..|by apply Hq|].
  split; [|exact Hk]. split; [by apply Hq|done].
Qed.

Lemma get_amount_out_keeps_k_witness :
  ∃ out, get_amount_out (10 ^ 18) (10 ^ 19) (2 * 10 ^ 8) 997 1000 = Done out ∧ 0 ≤ out < 2 * 10 ^ 8 ∧
    10 ^ 19 * (2 * 10 ^ 8) * 1000 ≤ (10 ^ 19 * 1000 + 10 ^ 18 * 997) * (2 * 10 ^ 8 - out).
Proof.
  apply get_amount_out_keeps_k; (reflexivity || (split; vm_compute; (discriminate || reflexivity))).
Defined.

(** Where the numerator [amount_in·fee·reserve_out] fits the width of the
    path taken, the quote is the exact floor of the constant-product formula. *)
Theorem get_amount_out_exact (a ri ro n d : Z) :
  u256 a → u256 ri → u256 ro → 0 < n → n < d → d < 2 ^ 64 → 0 < a → 0 < ri → 0 < ro →
  a * n * ro < numerator_bound a ri ro →
  get_amount_out a ri ro n d = Done (a * n * ro / (ri * d + a * n)).
Proof.
  intros. rewrite get_amount_out_eq by done. rewrite Z.mod_small by nia. done.
Qed.

Lemma get_amount_out_exact_witness :
  get_amount_out (10 ^ 18) (10 ^ 19) (2 * 10 ^ 8) 997 1000 =
  Done (10 ^ 18 * 997 * (2 * 10 ^ 8) / (10 ^ 19 * 1000 + 10 ^ 18 * 997)).
Proof.
  apply get_amount_out_exact; (reflexivity || (split; vm_compute; (discriminate || reflexivity))).
Defined.

(** The fast path is not overflow-free: its comment counts 128 + 128 + 14
    bits as at most 256, and with all amounts below 2^128 and the usual 997/1000
    fee the numerator wraps and the quote is about a thousandth of the exact
    one. *)
Theorem get_amount_out_fast_path_wraps :
  Z.max (Z.max (2 ^ 127) (2 ^ 127)) (2 ^ 127) < M128 ∧
  get_amount_out (2 ^ 127) (2 ^ 127) (2 ^ 127) 997 1000 = Done (2 ^ 127 / 1997) ∧
  amount_out_exact (2 ^ 127) (2 ^ 127) (2 ^ 127) 997 1000 = 997 * 2 ^ 127 / 1997.
Proof. vm_compute. done. Qed.

(** The resolved fee is always a proper fraction with a positive numerator,
    so a quote is never lost to a missing or malformed pool fee. *)
Theorem resolve_v2_fee_valid (s : V2PoolState) (edge_fee_bps : option Z) :
  0 ≤ v2_fee s → 0 ≤ v2_fee_denominator s →
  let '(n, d) := resolve_v2_fee_with_edge s edge_fee_bps in 0 < n ∧ n < d.
Proof.
  intros Hf Hd. unfold resolve_v2_fee_with_edge, is_zero.
  destruct (_ && _)%bool eqn:E; [zbool; lia|].
  destruct edge_fee_bps as [b|]; [|done].
  destruct ((0 <? b) && (b <? 10000))%bool eqn:Eb; [zbool; lia|done].
Qed.

Lemma resolve_v2_fee_valid_witness :
  let s := {| v2_reserve0 := 1; v2_reserve1 := 1; v2_fee := 0; v2_fee_denominator := 0;
              v2_block_timestamp_last := 0 |} in
  let '(n, d) := resolve_v2_fee_with_edge s (Some 30) in 0 < n ∧ n < d.
Proof. apply resolve_v2_fee_valid; vm_compute; discriminate. Defined.
