(* ===== verification/TickMath.v ===== *)
(** * Ticks and square-root prices

    [src/src/core/math/tick_math.rs]: the price of a tick as a product of
    tabulated factors, and its inverse by binary search.  The table is proved
    strictly monotone over the whole tick range by an argument on carries (not by
    enumeration), which gives the binary search its exact meaning and the round
    trip between ticks and prices. *)
From S2P Require Import Prelude Word.

Definition MIN_TICK : Z := -887272.
Definition MAX_TICK : Z := 887272.
Definition MIN_SQRT_RATIO : Z := from_limbs 4295128739 0 0 0.
Definition MAX_SQRT_RATIO : Z :=
  from_limbs 6743328256752651558 17280870778742802505 4294805859 0.
Definition MAX_SQRT_RATIO_EXCLUSIVE : Z :=
  from_limbs 6743328256752651557 17280870778742802505 4294805859 0.
Definition LOW_32_MASK : Z := from_limbs (2 ^ 32 - 1) 0 0 0.

Definition TICK_FFFCB933BD : Z := from_limbs 12262481743371124737 18445821805675392311 0 0.
Definition TICK_1000000000 : Z := from_limbs 0 0 1 0.
Definition TICK_FFF9727237 : Z := from_limbs 6459403834229662010 18444899583751176498 0 0.
Definition TICK_FFF2E50F5F : Z := from_limbs 17226890335427755468 18443055278223354162 0 0.
Definition TICK_FFE5CACA7E : Z := from_limbs 2032852871939366096 18439367220385604838 0 0.
Definition TICK_FFCB9843D6 : Z := from_limbs 14545316742740207172 18431993317065449817 0 0.
Definition TICK_FF973B41FA : Z := from_limbs 5129152022828963008 18417254355718160513 0 0.
Definition TICK_FF2EA16466 : Z := from_limbs 4894419605888772193 18387811781193591352 0 0.
Definition TICK_FE5DEE046A : Z := from_limbs 1280255884321894483 18329067761203520168 0 0.
Definition TICK_FCBE86C790 : Z := from_limbs 15924666964335305636 18212142134806087854 0 0.
Definition TICK_F987A7253A : Z := from_limbs 8010504389359918676 17980523815641551639 0 0.
Definition TICK_F3392B0822 : Z := from_limbs 10668036004952895731 17526086738831147013 0 0.
Definition TICK_E7159475A2 : Z := from_limbs 4878133418470705625 16651378430235024244 0 0.
Definition TICK_D097F3BDFD : Z := from_limbs 9537173718739605541 15030750278693429944 0 0.
Definition TICK_A9F746462D : Z := from_limbs 9972618978014552549 12247334978882834399 0 0.
Definition TICK_70D869A156 : Z := from_limbs 10428997489610666743 8131365268884726200 0 0.
Definition TICK_31BE135F97 : Z := from_limbs 9305304367709015974 3584323654723342297 0 0.
Definition TICK_9AA508B5B7 : Z := from_limbs 14301143598189091785 696457651847595233 0 0.
Definition TICK_5D6AF8DEDB : Z := from_limbs 7393154844743099908 26294789957452057 0 0.
Definition TICK_2216E584F5 : Z := from_limbs 2209338891292245656 37481735321082 0 0.
Definition TICK_48A170391F : Z := from_limbs 10518117631919034274 76158723 0 0.

Definition normalize_tick_search_bounds (min_tick max_tick : Z) : Z * Z :=
  let lo := Z.max MIN_TICK (Z.min min_tick max_tick) in
  let hi := Z.min MAX_TICK (Z.max max_tick min_tick) in
  (lo, hi).

Definition mul_shift (r m : Z) : Z := Z.shiftr (r *% m) 128.

(** [if abs_tick & mask != 0 { ratio = mul_shift(ratio, factor) }]. *)
Definition tick_bit (abs_tick mask factor ratio : Z) : Z :=
  if negb (Z.land abs_tick mask =? 0) then mul_shift ratio factor else ratio.

Definition get_sqrt_ratio_at_tick (tick : Z) : option Z :=
  if negb ((MIN_TICK <=? tick) && (tick <=? MAX_TICK))%bool then None
  else
    let abs_tick := Z.abs tick in
    let ratio := if negb (Z.land abs_tick 1 =? 0) then TICK_FFFCB933BD else TICK_1000000000 in
    let ratio := tick_bit abs_tick 2 TICK_FFF9727237 ratio in
    let ratio := tick_bit abs_tick 4 TICK_FFF2E50F5F ratio in
    let ratio := tick_bit abs_tick 8 TICK_FFE5CACA7E ratio in
    let ratio := tick_bit abs_tick 16 TICK_FFCB9843D6 ratio in
    let ratio := tick_bit abs_tick 32 TICK_FF973B41FA ratio in
    let ratio := tick_bit abs_tick 64 TICK_FF2EA16466 ratio in
    let ratio := tick_bit abs_tick 128 TICK_FE5DEE046A ratio in
    let ratio := tick_bit abs_tick 256 TICK_FCBE86C790 ratio in
    let ratio := tick_bit abs_tick 512 TICK_F987A7253A ratio in
    let ratio := tick_bit abs_tick 1024 TICK_F3392B0822 ratio in
    let ratio := tick_bit abs_tick 2048 TICK_E7159475A2 ratio in
    let ratio := tick_bit abs_tick 4096 TICK_D097F3BDFD ratio in
    let ratio := tick_bit abs_tick 8192 TICK_A9F746462D ratio in
    let ratio := tick_bit abs_tick 16384 TICK_70D869A156 ratio in
    let ratio := tick_bit abs_tick 32768 TICK_31BE135F97 ratio in
    let ratio := tick_bit abs_tick 65536 TICK_9AA508B5B7 ratio in
    let ratio := tick_bit abs_tick 131072 TICK_5D6AF8DEDB ratio in
    let ratio := tick_bit abs_tick 262144 TICK_2216E584F5 ratio in
    let ratio := tick_bit abs_tick 524288 TICK_48A170391F ratio in
    let ratio := if 0 <? tick then U256_MAX / ratio else ratio in
    let shifted := Z.shiftr ratio 32 in
    Some (if Z.land ratio LOW_32_MASK =? 0 then shifted else shifted +% 1).

(** [while low <= high { ... }].  The bounds lie in the tick range, so 32 halvings empty
    any interval: in [get_tick_search_correct] the fuel is never the reason
    the loop stops. *)
Fixpoint get_tick_search (fuel : nat) (sqrt_price_x96 low high answer : Z) : option Z :=
  match fuel with
  | O => Some answer
  | S fuel =>
      if low <=? high then
        let mid := Z.quot (low + high) 2 in
        let? ratio := get_sqrt_ratio_at_tick mid in
        if ratio <=? sqrt_price_x96
        then get_tick_search fuel sqrt_price_x96 (mid + 1) high mid
        else get_tick_search fuel sqrt_price_x96 low (mid - 1) answer
      else Some answer
  end.

Definition get_tick_at_sqrt_ratio_in_range
    (sqrt_price_x96 min_tick max_tick : Z) : option Z :=
  if ((sqrt_price_x96 <? MIN_SQRT_RATIO) || (MAX_SQRT_RATIO <=? sqrt_price_x96))%bool
  then None
  else
    let '(lo, hi) := normalize_tick_search_bounds min_tick max_tick in
    get_tick_search 32 sqrt_price_x96 lo hi lo.

(** ** The factor table as a chain over the bits of the tick *)

Definition tick_factors : list Z :=
  [TICK_FFFCB933BD;
   TICK_FFF9727237;
   TICK_FFF2E50F5F;
   TICK_FFE5CACA7E;
   TICK_FFCB9843D6;
   TICK_FF973B41FA;
   TICK_FF2EA16466;
   TICK_FE5DEE046A;
   TICK_FCBE86C790;
   TICK_F987A7253A;
   TICK_F3392B0822;
   TICK_E7159475A2;
   TICK_D097F3BDFD;
   TICK_A9F746462D;
   TICK_70D869A156;
   TICK_31BE135F97;
   TICK_9AA508B5B7;
   TICK_5D6AF8DEDB;
   TICK_2216E584F5;
   TICK_48A170391F].

Fixpoint chain (cs : list Z) (n r : Z) : Z :=
  match cs with
  | [] => r
  | c :: cs => chain cs (n / 2) (if Z.odd n then r * c / M128 else r)
  end.

(** The Q128.128 ratio of a non-negative tick distance. *)
Definition ratio_down (n : Z) : Z := chain tick_factors n M128.

Lemma ratio_down_eq n : ratio_down n = chain tick_factors n M128.
Proof. reflexivity. Qed.

Definition factor_ok (c : Z) : Prop := 0 < c < M128.

Lemma tick_factors_ok : Forall factor_ok tick_factors.
Proof. repeat constructor. Qed.

Lemma M128_pos : 0 < M128. Proof. done. Qed.

Lemma mul_shift_eq r c : 0 ≤ r ≤ M128 → factor_ok c → mul_shift r c = r * c / M128.
Proof.
  intros Hr Hc. unfold mul_shift, factor_ok in *. rewrite wmul_small.
  - by rewrite Z.shiftr_div_pow2.
  - change M256 with (M128 * M128). nia.
Qed.

Lemma chain_step_le r c : 0 ≤ r → factor_ok c → 0 ≤ r * c / M128 ≤ r.
Proof.
  intros Hr [? ?]. pose proof M128_pos. split; [apply Z.div_pos; nia|].
  apply Z.div_le_upper_bound; nia.
Qed.

Lemma chain_le cs n r : Forall factor_ok cs → 0 ≤ r → 0 ≤ chain cs n r ≤ r.
Proof.
  intros Hcs. revert n r. induction Hcs as [|c cs Hc _ IH]; intros n r Hr; simpl; [lia|].
  destruct (Z.odd n); [|by apply IH].
  pose proof (chain_step_le r c Hr Hc). specialize (IH (n / 2) (r * c / M128)). lia.
Qed.

(** ** Relative gaps survive the chain *)

(** [x] exceeds [y] by at least [s] parts in 2^63. *)
Definition gap (s x y : Z) : Prop := y * s ≤ (x - y) * 2 ^ 63.

Lemma gap_step s x y c :
  factor_ok c → 0 ≤ y → 0 ≤ s → gap s x y → 2 ^ 63 ≤ y * c / M128 →
  gap (s - 1) (x * c / M128) (y * c / M128).
Proof.
  unfold gap, factor_ok. intros Hc Hy Hs Hg Hbig.
  pose proof (div_mul_le (y * c) M128 M128_pos). pose proof (div_mul_gt (x * c) M128 M128_pos).
  set (x' := x * c / M128) in *. set (y' := y * c / M128) in *.
  pose proof M128_pos.
  assert (M128 * (y' * (s - 1)) ≤ M128 * ((x' - y') * 2 ^ 63)); [|nia].
  assert (y * s * c ≤ (x - y) * 2 ^ 63 * c) by nia.
  assert (M128 * y' * s ≤ y * c * s) by nia.
  assert (M128 * 2 ^ 63 ≤ M128 * y') by nia.
  nia.
Qed.

Lemma chain_gap cs n s x y :
  Forall factor_ok cs → Z.of_nat (length cs) ≤ s → 0 ≤ y → gap s x y →
  2 ^ 63 ≤ chain cs n y →
  gap (s - Z.of_nat (length cs)) (chain cs n x) (chain cs n y).
Proof.
  intros Hcs. revert n s x y.
  induction Hcs as [|c cs Hc Hcs IH]; intros n s x y Hs Hy Hg Hbig; simpl in *.
  { by rewrite Z.sub_0_r. }
  replace (s - Z.of_nat (S (length cs))) with (s - 1 - Z.of_nat (length cs)) by lia.
  destruct (Z.odd n).
  - pose proof (chain_step_le y c Hy Hc).
    pose proof (chain_le cs (n / 2) (y * c / M128) Hcs ltac:(lia)).
    apply IH; try lia. apply gap_step; (done || lia).
  - apply IH; try lia. unfold gap in *. nia.
Qed.

(** ** Adding one to the tick: the carry *)

(** The gap at the bit where the carry stops: all lower factors applied on one
    side, the bit's own factor on the other. *)
Definition tick_gap : Z := 400000000000000.

Fixpoint carry_ok (cs : list Z) (a : Z) : bool :=
  match cs with
  | [] => true
  | c :: cs => ((c * tick_gap <=? (a - c) * 2 ^ 63) && carry_ok cs (a * c / M128))%bool
  end.

Lemma carry_ok_tick_factors : carry_ok tick_factors M128 = true.
Proof. vm_compute. reflexivity. Qed.

Lemma chain_succ cs a n :
  Forall factor_ok cs → carry_ok cs a = true →
  Z.of_nat (length cs) ≤ tick_gap →
  0 ≤ n → n + 1 < 2 ^ Z.of_nat (length cs) → 2 ^ 63 ≤ chain cs (n + 1) M128 →
  gap (tick_gap - Z.of_nat (length cs)) (chain cs n a) (chain cs (n + 1) M128).
Proof.
  intros Hcs. revert a n.
  induction Hcs as [|c cs Hc Hcs IH]; intros a n Hok Hlen Hn Hlt Hbig; simpl in *; [lia|].
  apply andb_true_iff in Hok as [Hgap Hok]. apply Z.leb_le in Hgap.
  rewrite Nat2Z.inj_succ, Z.pow_succ_r in * by lia.
  rewrite Z.add_1_r, Z.odd_succ in *. rewrite <- Z.negb_odd in *.
  pose proof (Zmod_odd n) as Hodd.
  replace (tick_gap - Z.succ (Z.of_nat (length cs)))
    with (tick_gap - 1 - Z.of_nat (length cs)) by lia.
  destruct (Z.odd n) eqn:E; simpl in *.
  - replace (Z.succ n / 2) with (n / 2 + 1) in *
      by (clear -Hodd; Z.to_euclidean_division_equations; lia).
    specialize (IH (a * c / M128) (n / 2) Hok ltac:(lia) ltac:(apply Z.div_pos; lia)
      ltac:(clear -Hodd Hlt; Z.to_euclidean_division_equations; lia) Hbig).
    unfold gap in *. pose proof (chain_le cs (n / 2 + 1) M128 Hcs ltac:(done)). nia.
  - replace (Z.succ n / 2) with (n / 2) in *
      by (clear -Hodd; Z.to_euclidean_division_equations; lia).
    replace (M128 * c / M128) with c in * by (by rewrite Z.mul_comm, Z.div_mul).
    assert (gap (tick_gap - Z.of_nat (length cs)) (chain cs (n / 2) a) (chain cs (n / 2) c)).
    { apply chain_gap; unfold factor_ok in *; (done || lia). }
    unfold gap in *. pose proof (chain_le cs (n / 2) c Hcs ltac:(unfold factor_ok in *; lia)). nia.
Qed.

(** ** Monotonicity over the whole range *)

Lemma ratio_down_top : 2 ^ 64 ≤ ratio_down MAX_TICK.
Proof. vm_compute. discriminate. Qed.

Lemma ratio_down_succ_gap n :
  0 ≤ n < MAX_TICK → 2 ^ 63 ≤ ratio_down (n + 1) →
  gap (tick_gap - 20) (ratio_down n) (ratio_down (n + 1)).
Proof.
  unfold ratio_down. intros Hn Hbig.
  change 20 with (Z.of_nat (length tick_factors)).
  apply (chain_succ tick_factors M128 n).
  - apply tick_factors_ok.
  - apply carry_ok_tick_factors.
  - done.
  - lia.
  - unfold MAX_TICK in *. change (Z.of_nat (length tick_factors)) with 20. lia.
  - exact Hbig.
Qed.

Lemma ratio_down_range n : 0 ≤ n ≤ MAX_TICK → 2 ^ 64 ≤ ratio_down n ≤ M128.
Proof.
  intros Hn. split; [|unfold ratio_down; apply chain_le; [apply tick_factors_ok|done]].
  replace n with (MAX_TICK - (MAX_TICK - n)) by lia.
  assert (0 ≤ MAX_TICK - n ≤ MAX_TICK) as Hk by lia. revert Hk. generalize (MAX_TICK - n).
  intros k [Hk0 Hk]. revert k Hk0 Hk. apply (natlike_ind (λ k, k ≤ MAX_TICK → _)).
  - intros _. rewrite Z.sub_0_r. apply ratio_down_top.
  - intros k Hk IH Hle. specialize (IH ltac:(lia)).
    pose proof (ratio_down_succ_gap (MAX_TICK - Z.succ k)) as Hg.
    replace (MAX_TICK - Z.succ k + 1) with (MAX_TICK - k) in Hg by lia.
    specialize (Hg ltac:(lia) ltac:(lia)). unfold gap, tick_gap in Hg. nia.
Qed.

Lemma ratio_down_gap n :
  0 ≤ n < MAX_TICK → gap (tick_gap - 20) (ratio_down n) (ratio_down (n + 1)).
Proof.
  intros. apply ratio_down_succ_gap; [done|]. pose proof (ratio_down_range (n + 1)). lia.
Qed.

(** The Q128.128 ratio of a tick, before the final rounding. *)
Definition ratio_at (t : Z) : Z :=
  if 0 <? t then U256_MAX / ratio_down t else ratio_down (- t).

Lemma ratio_at_range t :
  MIN_TICK ≤ t ≤ MAX_TICK → 0 < ratio_at t < M256.
Proof.
  intros Ht. unfold ratio_at, MIN_TICK in *. destruct (Z.ltb_spec 0 t).
  - pose proof (ratio_down_range t ltac:(lia)). split.
    + apply (Z.lt_le_trans _ (2 ^ 64)); [done|]. apply div_lower; [lia|].
      unfold M128, U256_MAX, M256 in *. lia.
    + apply Z.div_lt_upper_bound; unfold U256_MAX, M256 in *; lia.
  - pose proof (ratio_down_range (- t) ltac:(unfold MAX_TICK in *; lia)).
    unfold M128, M256 in *. lia.
Qed.

(** Neighbouring ticks are at least 2^32 apart before the final shift by 32. *)
Lemma ratio_at_succ t :
  MIN_TICK ≤ t < MAX_TICK → ratio_at t + 2 ^ 32 ≤ ratio_at (t + 1).
Proof.
  intros Ht. unfold ratio_at, MIN_TICK in *.
  destruct (Z.ltb_spec 0 t), (Z.ltb_spec 0 (t + 1)); try lia.
  - pose proof (ratio_down_range t ltac:(lia)). pose proof (ratio_down_range (t + 1) ltac:(lia)).
    pose proof (ratio_down_gap t ltac:(lia)) as Hg. unfold gap, tick_gap in Hg.
    set (f := ratio_down t) in *. set (f' := ratio_down (t + 1)) in *.
    pose proof (div_mul_le U256_MAX f ltac:(lia)).
    assert (2 ^ 127 ≤ U256_MAX / f).
    { apply div_lower; [lia|]. unfold U256_MAX, M256, M128 in *. lia. }
    set (q := U256_MAX / f) in *. apply div_lower; [lia|]. nia.
  - replace t with 0 by lia. vm_compute. discriminate.
  - pose proof (ratio_down_gap (- (t + 1)) ltac:(unfold MAX_TICK; lia)) as Hg.
    replace (- (t + 1) + 1) with (- t) in Hg by lia.
    pose proof (ratio_down_range (- t) ltac:(unfold MAX_TICK; lia)).
    unfold gap, tick_gap in Hg. nia.
Qed.

(** ** The code computes the chain *)

Fixpoint mask_chain (l : list (Z * Z)) (n r : Z) : Z :=
  match l with
  | [] => r
  | (m, c) :: l => mask_chain l n (tick_bit n m c r)
  end.

Fixpoint masks_from (k : nat) (cs : list Z) : list (Z * Z) :=
  match cs with
  | [] => []
  | c :: cs => (2 ^ Z.of_nat k, c) :: masks_from (S k) cs
  end.

Lemma land_pow2_odd n k :
  0 ≤ n → 0 ≤ k → negb (Z.land n (2 ^ k) =? 0) = Z.odd (n / 2 ^ k).
Proof.
  intros Hn Hk. rewrite <- Z.shiftr_div_pow2, <- Z.testbit_odd by done.
  destruct (Z.testbit n k) eqn:Hb.
  - apply negb_true_iff, Z.eqb_neq. intros Hz.
    assert (Z.testbit (Z.land n (2 ^ k)) k = false) as Hf by (rewrite Hz; apply Z.testbit_0_l).
    rewrite Z.land_spec, Hb, Z.pow2_bits_true in Hf by done. done.
  - apply negb_false_iff, Z.eqb_eq, Z.bits_inj. intros i.
    rewrite Z.land_spec, Z.testbit_0_l. destruct (decide (i = k)) as [->|Hne].
    + by rewrite Hb.
    + by rewrite (Z.pow2_bits_false k i), andb_false_r by lia.
Qed.

Lemma mask_chain_eq cs k n r :
  Forall factor_ok cs → 0 ≤ n → 0 ≤ r ≤ M128 →
  mask_chain (masks_from k cs) n r = chain cs (n / 2 ^ Z.of_nat k) r.
Proof.
  intros Hcs Hn. revert k r. induction Hcs as [|c cs Hc _ IH]; intros k r Hr; simpl; [done|].
  unfold tick_bit. rewrite land_pow2_odd by lia. rewrite IH.
  - rewrite Nat2Z.inj_succ, Z.pow_succ_r, (Z.mul_comm 2), Z.div_div by lia.
    destruct (Z.odd _); [|done]. by rewrite mul_shift_eq.
  - destruct (Z.odd _); [|done]. rewrite mul_shift_eq by done.
    pose proof (chain_step_le r c ltac:(lia) Hc). lia.
Qed.

Lemma round_up_32 r :
  0 ≤ r < M256 →
  (if Z.land r LOW_32_MASK =? 0 then Z.shiftr r 32 else Z.shiftr r 32 +% 1) = cdiv r (2 ^ 32).
Proof.
  intros Hr. change LOW_32_MASK with (Z.ones 32).
  rewrite Z.land_ones, Z.shiftr_div_pow2 by lia. unfold cdiv.
  destruct (Z.eqb_spec (r mod 2 ^ 32) 0); [lia|].
  apply wadd_small. assert (0 ≤ r / 2 ^ 32) by (apply Z.div_pos; lia).
  assert (r / 2 ^ 32 < 2 ^ 224) by (apply Z.div_lt_upper_bound; [done|]; unfold M256 in *; lia).
  unfold M256. lia.
Qed.

Lemma get_sqrt_ratio_at_tick_eq t :
  MIN_TICK ≤ t ≤ MAX_TICK →
  get_sqrt_ratio_at_tick t = Some (cdiv (ratio_at t) (2 ^ 32)).
Proof.
  intros Ht.
  assert (get_sqrt_ratio_at_tick t =
    let ratio := mask_chain (masks_from 0 tick_factors) (Z.abs t) M128 in
    let ratio := if 0 <? t then U256_MAX / ratio else ratio in
    Some (if Z.land ratio LOW_32_MASK =? 0 then Z.shiftr ratio 32 else Z.shiftr ratio 32 +% 1))
    as ->.
  { unfold get_sqrt_ratio_at_tick.
    destruct (Z.leb_spec MIN_TICK t); [|lia]. destruct (Z.leb_spec t MAX_TICK); [|lia].
    replace (if negb (Z.land (Z.abs t) 1 =? 0) then TICK_FFFCB933BD else TICK_1000000000)
      with (tick_bit (Z.abs t) 1 TICK_FFFCB933BD M128)
      by (unfold tick_bit; destruct (negb _); vm_compute; reflexivity).
    reflexivity. }
  cbv zeta. rewrite mask_chain_eq by (apply tick_factors_ok || lia || done).
  rewrite Z.pow_0_r, Z.div_1_r, <- ratio_down_eq.
  replace (if 0 <? t then U256_MAX / ratio_down (Z.abs t) else ratio_down (Z.abs t))
    with (ratio_at t).
  - rewrite round_up_32; [done|]. pose proof (ratio_at_range t Ht). lia.
  - unfold ratio_at. destruct (Z.ltb_spec 0 t); do 2 f_equal; lia.
Qed.

(** Strictly increasing on consecutive ticks, hence everywhere. *)
Definition sqrt_ratio (t : Z) : Z := cdiv (ratio_at t) (2 ^ 32).

Lemma get_sqrt_ratio_at_tick_in t :
  MIN_TICK ≤ t ≤ MAX_TICK → get_sqrt_ratio_at_tick t = Some (sqrt_ratio t).
Proof. apply get_sqrt_ratio_at_tick_eq. Qed.

Lemma sqrt_ratio_succ t : MIN_TICK ≤ t < MAX_TICK → sqrt_ratio t < sqrt_ratio (t + 1).
Proof.
  intros Ht. pose proof (ratio_at_succ t Ht). unfold sqrt_ratio.
  apply lt_cdiv_iff; [done|]. pose proof (cdiv_mul_lt (ratio_at t) (2 ^ 32) ltac:(done)). lia.
Qed.

Lemma sqrt_ratio_mono t u : MIN_TICK ≤ t → t < u → u ≤ MAX_TICK → sqrt_ratio t < sqrt_ratio u.
Proof.
  intros Ht Htu Hu. replace u with (t + 1 + (u - t - 1)) by lia.
  assert (t + 1 + (u - t - 1) ≤ MAX_TICK) as Hb by lia.
  assert (0 ≤ u - t - 1) as Hk by lia. revert Hk Hb. generalize (u - t - 1).
  apply (natlike_ind (λ k, t + 1 + k ≤ MAX_TICK → sqrt_ratio t < sqrt_ratio (t + 1 + k))).
  - intros. rewrite Z.add_0_r. apply sqrt_ratio_succ. lia.
  - intros k Hk IH Hle. etrans; [apply IH; lia|].
    replace (t + 1 + Z.succ k) with (t + 1 + k + 1) by lia. apply sqrt_ratio_succ. lia.
Qed.

Lemma sqrt_ratio_MIN : sqrt_ratio MIN_TICK = MIN_SQRT_RATIO.
Proof. vm_compute. reflexivity. Qed.
Lemma sqrt_ratio_MAX : sqrt_ratio MAX_TICK = MAX_SQRT_RATIO.
Proof. vm_compute. reflexivity. Qed.

Lemma sqrt_ratio_range t :
  MIN_TICK ≤ t ≤ MAX_TICK → MIN_SQRT_RATIO ≤ sqrt_ratio t ≤ MAX_SQRT_RATIO.
Proof.
  intros Ht. rewrite <- sqrt_ratio_MIN, <- sqrt_ratio_MAX.
  split.
  - destruct (decide (t = MIN_TICK)) as [->|]; [lia|].
    apply Z.lt_le_incl, sqrt_ratio_mono; lia.
  - destruct (decide (t = MAX_TICK)) as [->|]; [lia|].
    apply Z.lt_le_incl, sqrt_ratio_mono; lia.
Qed.

Lemma get_sqrt_ratio_at_tick_Some t r :
  get_sqrt_ratio_at_tick t = Some r → MIN_TICK ≤ t ≤ MAX_TICK ∧ r = sqrt_ratio t.
Proof.
  intros H. assert (MIN_TICK ≤ t ≤ MAX_TICK) as Ht.
  { unfold get_sqrt_ratio_at_tick in H.
    destruct (Z.leb_spec MIN_TICK t), (Z.leb_spec t MAX_TICK); simpl in H; (done || lia). }
  rewrite get_sqrt_ratio_at_tick_in in H by done. by simplify_eq.
Qed.

(** ** The binary search *)

Lemma midpoint_bounds low high :
  low ≤ high → low ≤ Z.quot (low + high) 2 ≤ high ∧
  2 * (Z.quot (low + high) 2 - low) ≤ high - low + 1 ∧
  2 * (high - Z.quot (low + high) 2) ≤ high - low + 1.
Proof. intros. Z.to_euclidean_division_equations; lia. Qed.

(** Loop invariant: everything below [low] is at most the price (or [answer] is
    still the lower bound), everything above [high] exceeds it. *)
Lemma get_tick_search_correct fuel price lo hi low high answer :
  MIN_TICK ≤ lo → hi ≤ MAX_TICK → lo ≤ low → high ≤ hi → high - low + 1 < 2 ^ Z.of_nat fuel →
  answer = Z.max lo (low - 1) → lo ≤ answer ≤ hi → low ≤ high + 1 →
  (lo < low → sqrt_ratio (low - 1) ≤ price) →
  (∀ u, high < u ≤ hi → price < sqrt_ratio u) →
  ∃ t, get_tick_search fuel price low high answer = Some t ∧ lo ≤ t ≤ hi ∧
    (t = lo ∨ sqrt_ratio t ≤ price) ∧ (∀ u, t < u ≤ hi → price < sqrt_ratio u).
Proof.
  intros Hlo Hhi. revert low high answer.
  induction fuel as [|fuel IH]; intros low high answer Hlow Hhigh Hlen Hans Hrange Hcross Hle Hgt.
  { change (2 ^ Z.of_nat 0) with 1 in Hlen. exists answer.
    split; [done|]. split; [lia|]. split.
    - destruct (decide (lo < low)); [right|left; lia].
      replace answer with (low - 1) by lia. auto.
    - intros u Hu. apply Hgt. lia. }
  simpl. destruct (Z.leb_spec low high) as [Hlh|Hlh].
  - destruct (midpoint_bounds low high Hlh) as (Hmid & Hl & Hr).
    set (mid := Z.quot (low + high) 2) in *.
    rewrite Nat2Z.inj_succ, Z.pow_succ_r in Hlen by lia.
    rewrite get_sqrt_ratio_at_tick_in by lia.
    destruct (Z.leb_spec (sqrt_ratio mid) price).
    + apply IH; try lia. all: intros; try (replace (mid + 1 - 1) with mid by lia); auto.
    + apply IH; try lia; auto. intros u Hu.
      destruct (decide (high < u)); [apply Hgt; lia|].
      destruct (decide (u = mid)) as [->|]; [done|].
      etrans; [done|]. apply sqrt_ratio_mono; lia.
  - exists answer. split; [done|]. split; [lia|]. split.
    + destruct (decide (lo < low)); [right|left; lia].
      replace answer with (low - 1) by lia. auto.
    + intros u Hu. apply Hgt. lia.
Qed.

Lemma get_tick_in_range_correct price min_tick max_tick :
  MIN_SQRT_RATIO ≤ price < MAX_SQRT_RATIO →
  let lo := (normalize_tick_search_bounds min_tick max_tick).1 in
  let hi := (normalize_tick_search_bounds min_tick max_tick).2 in
  lo ≤ hi →
  ∃ t, get_tick_at_sqrt_ratio_in_range price min_tick max_tick = Some t ∧ lo ≤ t ≤ hi ∧
    (t = lo ∨ sqrt_ratio t ≤ price) ∧ (∀ u, t < u ≤ hi → price < sqrt_ratio u).
Proof.
  intros Hp lo hi Hle. unfold get_tick_at_sqrt_ratio_in_range.
  destruct (Z.ltb_spec price MIN_SQRT_RATIO); [lia|].
  destruct (Z.leb_spec MAX_SQRT_RATIO price); [lia|]. cbn [orb].
  destruct (normalize_tick_search_bounds min_tick max_tick) as [lo' hi'] eqn:E.
  subst lo hi. cbn [fst snd] in *.
  assert (MIN_TICK ≤ lo' ∧ hi' ≤ MAX_TICK) as [? ?]
    by (unfold normalize_tick_search_bounds in E; simplify_eq; lia).
  apply get_tick_search_correct; try lia.
  unfold MIN_TICK, MAX_TICK in *. change (Z.of_nat 32) with 32. lia.
Qed.

(** ** Properties *)

(** The price of a tick is strictly increasing in the tick over the whole
    range, and spans exactly [MIN_SQRT_RATIO .. MAX_SQRT_RATIO]. *)
Theorem get_sqrt_ratio_at_tick_strictly_monotone (t u : Z) :
  MIN_TICK ≤ t → t < u → u ≤ MAX_TICK →
  ∃ rt ru, get_sqrt_ratio_at_tick t = Some rt ∧ get_sqrt_ratio_at_tick u = Some ru ∧
    MIN_SQRT_RATIO ≤ rt ∧ rt < ru ∧ ru ≤ MAX_SQRT_RATIO.
Proof.
  intros. exists (sqrt_ratio t), (sqrt_ratio u).
  pose proof (sqrt_ratio_range t). pose proof (sqrt_ratio_range u).
  pose proof (sqrt_ratio_mono t u).
  rewrite !get_sqrt_ratio_at_tick_in by lia. split_and!; (done || lia).
Qed.

Lemma get_sqrt_ratio_at_tick_strictly_monotone_witness :
  ∃ rt ru, get_sqrt_ratio_at_tick (-3) = Some rt ∧ get_sqrt_ratio_at_tick 5 = Some ru ∧
    MIN_SQRT_RATIO ≤ rt ∧ rt < ru ∧ ru ≤ MAX_SQRT_RATIO.
Proof.
  apply get_sqrt_ratio_at_tick_strictly_monotone; vm_compute; (discriminate || reflexivity).
Defined.

(** For a price in range and a non-empty search window, the binary search
    returns the greatest tick of the window whose price does not exceed the given
    one, or the lower end of the window when there is none. *)
Theorem get_tick_at_sqrt_ratio_greatest (price min_tick max_tick lo hi : Z) :
  MIN_SQRT_RATIO ≤ price < MAX_SQRT_RATIO →
  normalize_tick_search_bounds min_tick max_tick = (lo, hi) → lo ≤ hi →
  ∃ t, get_tick_at_sqrt_ratio_in_range price min_tick max_tick = Some t ∧ lo ≤ t ≤ hi ∧
    (t = lo ∨ ∃ r, get_sqrt_ratio_at_tick t = Some r ∧ r ≤ price) ∧
    (∀ u, t < u ≤ hi → ∃ r, get_sqrt_ratio_at_tick u = Some r ∧ price < r).
Proof.
  intros Hp Hn Hle. destruct (get_tick_in_range_correct price min_tick max_tick Hp)
    as (t & Ht & Hr & Hlow & Hgt); rewrite Hn in *; cbn [fst snd] in *; [done|].
  assert (MIN_TICK ≤ lo ∧ hi ≤ MAX_TICK) as [? ?]
    by (unfold normalize_tick_search_bounds in Hn; simplify_eq; lia).
  exists t. split_and!; try done; try lia.
  - destruct Hlow; [by left|right]. exists (sqrt_ratio t).
    by rewrite get_sqrt_ratio_at_tick_in by lia.
  - intros u Hu. exists (sqrt_ratio u). rewrite get_sqrt_ratio_at_tick_in by lia. auto.
Qed.

Lemma get_tick_at_sqrt_ratio_greatest_witness :
  ∃ t, get_tick_at_sqrt_ratio_in_range (2 ^ 96) (-100) 100 = Some t ∧ -100 ≤ t ≤ 100 ∧
    (t = -100 ∨ ∃ r, get_sqrt_ratio_at_tick t = Some r ∧ r ≤ 2 ^ 96) ∧
    (∀ u, t < u ≤ 100 → ∃ r, get_sqrt_ratio_at_tick u = Some r ∧ 2 ^ 96 < r).
Proof.
  apply (get_tick_at_sqrt_ratio_greatest (2 ^ 96) (-100) 100 (-100) 100);
    [split; vm_compute; (discriminate || reflexivity) | vm_compute; reflexivity | vm_compute; discriminate].
Defined.

(** Every tick below [MAX_TICK] is recovered exactly from its price; the
    price of [MAX_TICK] itself is the exclusive bound and is rejected. *)
Theorem tick_price_roundtrip (t : Z) :
  MIN_TICK ≤ t ≤ MAX_TICK →
  ∃ p, get_sqrt_ratio_at_tick t = Some p ∧
    get_tick_at_sqrt_ratio_in_range p MIN_TICK MAX_TICK =
      (if t =? MAX_TICK then None else Some t).
Proof.
  intros Ht. exists (sqrt_ratio t). split; [by rewrite get_sqrt_ratio_at_tick_in|].
  destruct (Z.eqb_spec t MAX_TICK) as [->|Hne].
  { rewrite sqrt_ratio_MAX. vm_compute. reflexivity. }
  pose proof (sqrt_ratio_range t Ht). pose proof (sqrt_ratio_mono t MAX_TICK) as Hm.
  rewrite sqrt_ratio_MAX in Hm.
  destruct (get_tick_in_range_correct (sqrt_ratio t) MIN_TICK MAX_TICK)
    as (u & Hu & Hr & Hlow & Hgt); [lia|by vm_compute|]. cbn [fst snd] in *.
  change (normalize_tick_search_bounds MIN_TICK MAX_TICK) with (MIN_TICK, MAX_TICK) in *.
  cbn [fst snd] in *. rewrite Hu. f_equal.
  destruct (Z.lt_trichotomy u t) as [Hlt|[->|Hlt]]; [|done|].
  - specialize (Hgt t ltac:(lia)). lia.
  - destruct Hlow as [->|Hle]; [lia|]. pose proof (sqrt_ratio_mono t u). lia.
Qed.

Lemma tick_price_roundtrip_witness :
  ∃ p, get_sqrt_ratio_at_tick (-887272) = Some p ∧
    get_tick_at_sqrt_ratio_in_range p MIN_TICK MAX_TICK =
      (if -887272 =? MAX_TICK then None else Some (-887272)).
Proof. apply tick_price_roundtrip. split; vm_compute; discriminate. Defined.
