(* ===== verification/V4Storage.v ===== *)
(** * Uniswap V4 packed storage words

    [src/src/core/v4_storage.rs] (decoding of [slot0] and tick words, the
    directional protocol fee and the combined swap fee, mapping keys) and
    [util::sign_extend_tick24].  [keccak256] is a library function: the slot
    computations take it as a parameter. *)
From S2P Require Import Prelude Word.

Definition V4_LIQUIDITY_OFFSET : Z := 3.
Definition V4_TICKS_OFFSET : Z := 4.
Definition V4_TICK_BITMAP_OFFSET : Z := 5.

Record DecodedV4Slot0 := {
  s0_sqrt_price_x96 : Z;
  s0_tick : Z;
  s0_protocol_fee : Z;
  s0_lp_fee : Z;
}.

Definition decode_v4_slot0 (raw : Z) : DecodedV4Slot0 :=
  let m := from_limbs 0xffffff 0 0 0 in
  let sqrt_price_x96 := Z.land raw (from_limbs u64_max u64_max 0xffffffff 0) in
  let tick_u := Z.land (Z.shiftr raw 160) m in
  let tick := tick_u - (if 0x800000 <=? tick_u then 0x1000000 else 0) in
  let protocol_fee := Z.land (Z.shiftr raw 184) m in
  let lp_fee := Z.land (Z.shiftr raw 208) m in
  {| s0_sqrt_price_x96 := sqrt_price_x96; s0_tick := tick;
     s0_protocol_fee := protocol_fee; s0_lp_fee := lp_fee |}.

Definition v4_direction_protocol_fee_pips (protocol_fee : Z) (zero_for_one : bool) : Z :=
  if zero_for_one then Z.land protocol_fee 0xfff
  else Z.land (Z.shiftr protocol_fee 12) 0xfff.

(** The arithmetic is on [u64], the result is cast to [u32]. *)
Definition v4_combined_swap_fee_pips (protocol_fee_pips lp_fee_pips : Z) : Z :=
  if protocol_fee_pips =? 0 then lp_fee_pips
  else
    let proto := protocol_fee_pips in
    let lp := lp_fee_pips in
    wrap_u 32 (wrap_u 64 (wrap_u 64 (proto + lp) - wrap_u 64 (proto * lp) / 1000000)).

Definition decode_v4_liquidity (raw : Z) : Z := Z.land raw (2 ^ 128 - 1).

(** Big-endian bytes of a non-negative integer, and back. *)
Fixpoint to_be_bytes (n : nat) (x : Z) : list Z :=
  match n with
  | O => []
  | S n => to_be_bytes n (x / 256) ++ [x mod 256]
  end.
Definition from_be_bytes (bs : list Z) : Z := foldl (λ acc b, acc * 256 + b) 0 bs.

Definition decode_v4_tick_liquidity (raw : Z) : Z * Z :=
  let liquidity_gross := Z.land raw (2 ^ 128 - 1) in
  let net_bytes := to_be_bytes 32 raw in
  let net := take 16 net_bytes in
  let liquidity_net := wrap_i 128 (from_be_bytes net) in
  (liquidity_gross, liquidity_net).

(** [util::sign_extend_tick24]. *)
Definition sign_extend_tick24 (tick_word : Z) : Z :=
  let tick_raw := Z.land tick_word 0xffffff in
  if negb (Z.land tick_raw 0x800000 =? 0)
  then wrap_i 32 (Z.lor tick_raw (Z.land (Z.lnot 0xffffff) (2 ^ 32 - 1)))
  else wrap_i 32 tick_raw.

(** [value.to_be_bytes()] of a signed [w]-byte integer: its two's complement. *)
Definition to_be_bytes_signed (n : nat) (x : Z) : list Z :=
  to_be_bytes n (x mod 256 ^ Z.of_nat n).

Definition sign_extend_i16 (value : Z) : list Z :=
  let fill := if value <? 0 then 0xff else 0 in
  replicate 30 fill ++ to_be_bytes_signed 2 value.

Definition sign_extend_i24 (value : Z) : list Z :=
  let fill := if value <? 0 then 0xff else 0 in
  replicate 29 fill ++ drop 1 (to_be_bytes_signed 4 value).

Section slots.
Context (keccak256 : list Z → Z).

Definition mapping_slot (key : list Z) (mapping_base : Z) : Z :=
  keccak256 (key ++ to_be_bytes 32 mapping_base).

Definition compute_v4_pool_field_slot (pool_id offset : Z) : Z :=
  let buf := to_be_bytes 32 pool_id ++ replicate 28 0 ++ to_be_bytes 4 6 in
  let base := keccak256 buf in
  Z.land (base +% offset) U256_MAX.

Definition compute_v4_tick_bitmap_slot (pool_id word : Z) : Z :=
  let mapping_base := compute_v4_pool_field_slot pool_id V4_TICK_BITMAP_OFFSET in
  mapping_slot (sign_extend_i16 word) mapping_base.

Definition compute_v4_tick_info_slot (pool_id tick : Z) : Z :=
  let mapping_base := compute_v4_pool_field_slot pool_id V4_TICKS_OFFSET in
  mapping_slot (sign_extend_i24 tick) mapping_base.

End slots.

(** ** Properties *)

Lemma land_mask x n : 0 ≤ n → Z.land x (2 ^ n - 1) = x mod 2 ^ n.
Proof. intros. rewrite <- Z.land_ones by done. by rewrite Z.ones_equiv, Z.sub_1_r. Qed.

(** The packing of [slot0]: uint160 price, int24 tick, uint24 protocol fee,
    uint24 LP fee, from the low bits up. *)
Definition encode_v4_slot0 (s : DecodedV4Slot0) : Z :=
  s0_sqrt_price_x96 s + 2 ^ 160 * (s0_tick s mod 2 ^ 24)
  + 2 ^ 184 * s0_protocol_fee s + 2 ^ 208 * s0_lp_fee s.

Lemma field_extract lo f w hi n :
  0 ≤ n → 0 ≤ w → 0 ≤ lo < 2 ^ n → 0 ≤ f < 2 ^ w →
  (lo + 2 ^ n * (f + 2 ^ w * hi)) / 2 ^ n mod 2 ^ w = f.
Proof.
  intros Hn Hw Hlo Hf. rewrite (Z.mul_comm (2 ^ n)), Z.div_add by lia.
  rewrite Z.div_small by lia. rewrite Z.add_0_l, (Z.mul_comm (2 ^ w)), Z.mod_add by lia.
  by apply Z.mod_small.
Qed.

(** Decoding a packed [slot0] word returns the packed fields, whatever the
    bits above them, the negative ticks included. *)
Theorem decode_v4_slot0_roundtrip (s : DecodedV4Slot0) (hi : Z) :
  0 ≤ s0_sqrt_price_x96 s < 2 ^ 160 → - 2 ^ 23 ≤ s0_tick s < 2 ^ 23 →
  0 ≤ s0_protocol_fee s < 2 ^ 24 → 0 ≤ s0_lp_fee s < 2 ^ 24 →
  decode_v4_slot0 (encode_v4_slot0 s + 2 ^ 232 * hi) = s.
Proof.
  destruct s as [p t pf lf]; simpl. intros Hp Ht Hpf Hlf.
  pose proof (Z.mod_pos_bound t (2 ^ 24) ltac:(done)) as Htm.
  set (tm := t mod 2 ^ 24) in *.
  set (raw := encode_v4_slot0 _ + _).
  assert (raw = p + 2 ^ 160 * (tm + 2 ^ 24 * (pf + 2 ^ 24 * (lf + 2 ^ 24 * hi)))) as E0.
  { unfold raw, encode_v4_slot0. simpl. fold tm. lia. }
  assert (raw mod 2 ^ 160 = p) as E1.
  { rewrite E0, (Z.mul_comm (2 ^ 160)), Z.mod_add by done. by apply Z.mod_small. }
  assert (raw / 2 ^ 160 mod 2 ^ 24 = tm) as E2 by (rewrite E0; by apply field_extract).
  assert (raw / 2 ^ 184 mod 2 ^ 24 = pf) as E3.
  { rewrite E0. replace (p + _) with ((p + 2 ^ 160 * tm) + 2 ^ 184 * (pf + 2 ^ 24 * (lf + 2 ^ 24 * hi))) by lia.
    apply field_extract; lia. }
  assert (raw / 2 ^ 208 mod 2 ^ 24 = lf) as E4.
  { rewrite E0. replace (p + _) with ((p + 2 ^ 160 * tm + 2 ^ 184 * pf) + 2 ^ 208 * (lf + 2 ^ 24 * hi)) by lia.
    apply field_extract; lia. }
  unfold decode_v4_slot0.
  change (from_limbs 0xffffff 0 0 0) with (2 ^ 24 - 1).
  change (from_limbs u64_max u64_max 0xffffffff 0) with (2 ^ 160 - 1).
  rewrite !land_mask, !Z.shiftr_div_pow2, E1, E2, E3, E4 by lia.
  f_equal. subst tm. clear - Ht.
  destruct (Z.leb_spec 0x800000 (t mod 2 ^ 24)); Z.to_euclidean_division_equations; lia.
Qed.

Lemma decode_v4_slot0_roundtrip_witness :
  let s := {| s0_sqrt_price_x96 := 2 ^ 96; s0_tick := -60;
              s0_protocol_fee := 0x3e83e8; s0_lp_fee := 3000 |} in
  decode_v4_slot0 (encode_v4_slot0 s + 2 ^ 232 * 5) = s.
Proof.
  apply decode_v4_slot0_roundtrip; split; vm_compute; (discriminate || reflexivity).
Defined.

(** The combined V4 fee is the protocol's [proto + lp - proto·lp/10^6]
    (nothing wraps for a directional protocol fee), at least each of its parts
    and at most 100% for a valid LP fee. *)
Theorem v4_combined_swap_fee_exact (packed lp : Z) (zero_for_one : bool) :
  0 ≤ lp < 1000000 →
  let proto := v4_direction_protocol_fee_pips packed zero_for_one in
  let fee := v4_combined_swap_fee_pips proto lp in
  fee = proto + lp - proto * lp / 1000000 ∧ proto ≤ fee ∧ lp ≤ fee ∧ fee ≤ 1000000.
Proof.
  intros Hlp proto fee.
  assert (0 ≤ proto < 4096) as Hproto.
  { subst proto. unfold v4_direction_protocol_fee_pips. change 0xfff with (2 ^ 12 - 1).
    destruct zero_for_one; rewrite land_mask by lia; by apply Z.mod_pos_bound. }
  clearbody proto. subst fee. unfold v4_combined_swap_fee_pips, wrap_u.
  assert (0 ≤ proto * lp / 1000000 ≤ proto) as Hq.
  { split; [apply Z.div_pos; nia|]. apply Z.div_le_upper_bound; nia. }
  assert (proto * lp / 1000000 ≤ lp) by (apply Z.div_le_upper_bound; nia).
  assert (proto + lp - proto * lp / 1000000 ≤ 1000000).
  { pose proof (div_mul_gt (proto * lp) 1000000 ltac:(done)).
    assert (995904 ≤ (1000000 - proto) * (1000000 - lp)) by nia. nia. }
  destruct (Z.eqb_spec proto 0) as [->|].
  - rewrite Z.mul_0_l, Z.div_0_l by done. lia.
  - rewrite (Z.mod_small (proto + lp)), (Z.mod_small (proto * lp)) by nia.
    rewrite !(Z.mod_small (proto + lp - _)) by (rewrite ?Z.mod_small by lia; lia). lia.
Qed.

Lemma v4_combined_swap_fee_exact_witness :
  let proto := v4_direction_protocol_fee_pips 0x3e83e8 true in
  let fee := v4_combined_swap_fee_pips proto 3000 in
  fee = proto + 3000 - proto * 3000 / 1000000 ∧ proto ≤ fee ∧ 3000 ≤ fee ∧ fee ≤ 1000000.
Proof. apply v4_combined_swap_fee_exact. split; (discriminate || reflexivity). Defined.
