(* ===== verification/UniswapV3.v ===== *)
(** * Concentrated-liquidity swap simulation

    [src/src/core/math/uniswap_v3.rs]: the walk over initialized ticks that
    quotes an exact input on a V3/V4 pool.  [simulate_v3_swap] is the whole
    function; its loop body is [v3_walk_body] on the loop's mutable variables
    ([V3Walk]), its [for _ in 0..MAX_ITERATIONS] is [v3_walk]. *)
From S2P Require Import Prelude Word MulDiv SwapMath Types TickMath V4Storage.

Definition DEFAULT_V3_FEE_PIPS : Z := 3000.
Definition SQRT_PRICE_LIMIT_ZERO_FOR_ONE : Z := from_limbs 4295128740 0 0 0.
Definition MAX_CUMULATIVE_TICK_MOVE : Z := 500.
Definition MAX_ITERATIONS : nat := 500.

Record V3SwapResult := {
  vr_amount_out : Z;
  vr_sqrt_price_x96_after : Z;
  vr_tick_after : Z;
  vr_gas_estimate : Z;
  vr_shallow : bool;
  vr_synthetic : bool;
}.

(** [slice::partition_point] on a slice partitioned by the predicate (the ticks
    are sorted): the length of the prefix where it holds. *)
Fixpoint partition_point {A} (p : A → bool) (l : list A) : nat :=
  match l with
  | [] => 0%nat
  | x :: l => if p x then S (partition_point p l) else 0%nat
  end.

Definition next_initialized_tick_with_net
    (ticks : list V3Tick) (current_tick : Z) (zero_for_one : bool) : option (Z * Z) :=
  if (length ticks =? 0)%nat then None
  else
    let i := partition_point (λ t, t_tick t <=? current_tick) ticks in
    if zero_for_one then
      if (0 <? i)%nat then
        let? t := ticks !! (i - 1)%nat in Some (t_tick t, t_liquidity_net t)
      else None
    else
      if (i <? length ticks)%nat then
        let? t := ticks !! i in Some (t_tick t, t_liquidity_net t)
      else None.

Definition default_no_tick_step (tick_spacing : Z) : Z := Z.max (wrap_i 32 (tick_spacing * 2)) 1.

Definition resolve_v3_fee_pips
    (pool_fee : Z) (edge_fee_bps : option Z) (allow_zero_pool_fee : bool) : Z :=
  if (allow_zero_pool_fee || negb (is_zero pool_fee))%bool then pool_fee
  else match edge_fee_bps with
  | Some bps => if bps <? 10000 then bps *% 100 else DEFAULT_V3_FEE_PIPS
  | None => DEFAULT_V3_FEE_PIPS
  end.

(** The mutable variables of the walk. *)
Record V3Walk := {
  w_sqrt_price_x96 : Z;
  w_tick : Z;
  w_liquidity : Z;
  w_amount_remaining : Z;
  w_amount_calculated : Z;
  w_ticks_crossed : Z;
  w_tick_data_exhausted : bool;
  w_used_synthetic : bool;
}.

Section walk.
Context (ticks : list V3Tick) (has_ticks zero_for_one : bool)
  (no_tick_step initial_tick sqrt_price_limit_x96 fee_pips : Z).

(** The next bound of the walk: the next initialized tick, else a synthetic one
    (MIN/MAX tick when ticks are known, a bounded step when none are). *)
Definition v3_next_bound (tick : Z) : (Z * Z) * bool :=
  let tick_search := if zero_for_one then i32_saturating_sub tick 1 else tick in
  match next_initialized_tick_with_net ticks tick_search zero_for_one with
  | Some nt => (nt, false)
  | None =>
      if has_ticks then ((if zero_for_one then MIN_TICK else MAX_TICK, 0), true)
      else
        let raw_next := if zero_for_one then wrap_i 32 (tick - no_tick_step)
                        else wrap_i 32 (tick + no_tick_step) in
        let cumulative := if zero_for_one then wrap_i 32 (initial_tick - raw_next)
                          else wrap_i 32 (raw_next - initial_tick) in
        let bounded :=
          if MAX_CUMULATIVE_TICK_MOVE <? cumulative then
            if zero_for_one then wrap_i 32 (initial_tick - MAX_CUMULATIVE_TICK_MOVE)
            else wrap_i 32 (initial_tick + MAX_CUMULATIVE_TICK_MOVE)
          else raw_next in
        ((clamp MIN_TICK MAX_TICK bounded, 0), true)
  end.

(** One iteration of the [for] loop; the boolean says whether it continues. *)
Definition v3_walk_body (w : V3Walk) : V3Walk * bool :=
  if is_zero (w_amount_remaining w) then (w, false)
  else
    let '((nt, liquidity_net), synthetic_bound) := v3_next_bound (w_tick w) in
    let used_synthetic := (w_used_synthetic w || synthetic_bound)%bool in
    let sqrt_price_next_tick_x96 := default sqrt_price_limit_x96 (get_sqrt_ratio_at_tick nt) in
    let sqrt_ratio_target_x96 :=
      if zero_for_one then Z.max sqrt_price_next_tick_x96 sqrt_price_limit_x96
      else Z.min sqrt_price_next_tick_x96 sqrt_price_limit_x96 in
    match compute_swap_step (w_sqrt_price_x96 w) sqrt_ratio_target_x96
            (Z.max (w_liquidity w) 0) (w_amount_remaining w) fee_pips with
    | None =>
        ({| w_sqrt_price_x96 := w_sqrt_price_x96 w; w_tick := w_tick w;
            w_liquidity := w_liquidity w; w_amount_remaining := w_amount_remaining w;
            w_amount_calculated := w_amount_calculated w; w_ticks_crossed := w_ticks_crossed w;
            w_tick_data_exhausted := w_tick_data_exhausted w;
            w_used_synthetic := used_synthetic |}, false)
    | Some step =>
        let sqrt_price_x96 := sqrt_ratio_next_x96 step in
        let amount_remaining :=
          saturating_sub (w_amount_remaining w)
            (saturating_add (amount_in step) (fee_amount step)) in
        let amount_calculated := saturating_add (w_amount_calculated w) (amount_out step) in
        let unfilled := negb (is_zero amount_remaining) in
        let mk tick liquidity crossed exhausted :=
          {| w_sqrt_price_x96 := sqrt_price_x96; w_tick := tick; w_liquidity := liquidity;
             w_amount_remaining := amount_remaining; w_amount_calculated := amount_calculated;
             w_ticks_crossed := crossed; w_tick_data_exhausted := exhausted;
             w_used_synthetic := used_synthetic |} in
        if sqrt_price_x96 =? sqrt_price_next_tick_x96 then
          if synthetic_bound then
            (mk (if zero_for_one then i32_saturating_sub nt 1 else nt) (w_liquidity w)
                (w_ticks_crossed w) (w_tick_data_exhausted w || unfilled)%bool, false)
          else
            let liquidity :=
              if has_ticks then
                if zero_for_one then wrap_i 128 (w_liquidity w - liquidity_net)
                else wrap_i 128 (w_liquidity w + liquidity_net)
              else 0 in
            let crossed := if has_ticks then w_ticks_crossed w + 1 else w_ticks_crossed w in
            let tick := if zero_for_one then wrap_i 32 (nt - 1) else nt in
            if liquidity <=? 0 then
              (mk tick liquidity crossed
                  (w_tick_data_exhausted w || (has_ticks && unfilled))%bool, false)
            else (mk tick liquidity crossed (w_tick_data_exhausted w), true)
        else
          let min_tick := if zero_for_one then nt else w_tick w in
          let max_tick := if zero_for_one then w_tick w else wrap_i 32 (nt - 1) in
          let tick := default (w_tick w)
            (get_tick_at_sqrt_ratio_in_range sqrt_price_x96 min_tick max_tick) in
          (mk tick (w_liquidity w) (w_ticks_crossed w)
              (w_tick_data_exhausted w || ((synthetic_bound || has_ticks) && unfilled))%bool, false)
    end.

Fixpoint v3_walk (iterations : nat) (w : V3Walk) : V3Walk :=
  match iterations with
  | O => w
  | S n => let '(w', continue) := v3_walk_body w in
           if continue then v3_walk n w' else w'
  end.

End walk.

(** [fee_pips.to::<u32>()] panics when the fee does not fit. *)
Definition v3_effective_fee_pips (state : V3PoolState) (zero_for_one : bool)
    (edge_fee_bps : option Z) (allow_zero_pool_fee : bool) : outcome Z :=
  let fee_pips := resolve_v3_fee_pips (cl_fee state) edge_fee_bps allow_zero_pool_fee in
  if (allow_zero_pool_fee && negb (cl_fee_protocol state =? 0))%bool then
    let proto := v4_direction_protocol_fee_pips (cl_fee_protocol state) zero_for_one in
    if fee_pips <? 2 ^ 32 then Done (v4_combined_swap_fee_pips proto fee_pips) else Panic
  else Done fee_pips.

(** The guard of the early return. *)
Definition v3_swap_rejected (state : V3PoolState) (amount_in fee_pips : Z) : bool :=
  (is_zero amount_in || negb (cl_unlocked state)
   || (cl_sqrt_price_x96 state <? MIN_SQRT_RATIO) || (MAX_SQRT_RATIO <=? cl_sqrt_price_x96 state)
   || (cl_liquidity state =? 0) || (i128_max <? cl_liquidity state)
   || (FEE_PIPS_SCALE <=? fee_pips))%bool.

(** The variables before the loop. *)
Definition v3_walk_init (state : V3PoolState) (amount_in : Z) : V3Walk :=
  {| w_sqrt_price_x96 := cl_sqrt_price_x96 state; w_tick := cl_tick state;
     w_liquidity := cl_liquidity state; w_amount_remaining := amount_in;
     w_amount_calculated := 0; w_ticks_crossed := 0;
     w_tick_data_exhausted := false; w_used_synthetic := false |}.

Definition v3_walk_final (state : V3PoolState) (amount_in fee_pips : Z) (zero_for_one : bool)
    : V3Walk :=
  let sqrt_price_limit_x96 :=
    if zero_for_one then SQRT_PRICE_LIMIT_ZERO_FOR_ONE else MAX_SQRT_RATIO_EXCLUSIVE in
  let ticks := cl_ticks state in
  let has_ticks := negb (length ticks =? 0)%nat in
  let no_tick_step := if has_ticks then 0 else default_no_tick_step (cl_tick_spacing state) in
  v3_walk ticks has_ticks zero_for_one no_tick_step (cl_tick state) sqrt_price_limit_x96 fee_pips
    MAX_ITERATIONS (v3_walk_init state amount_in).

Definition simulate_v3_swap (state : V3PoolState) (amount_in : Z) (zero_for_one : bool)
    (edge_fee_bps : option Z) (allow_zero_pool_fee : bool) : outcome V3SwapResult :=
  let! fee_pips := v3_effective_fee_pips state zero_for_one edge_fee_bps allow_zero_pool_fee in
  Done
    (if v3_swap_rejected state amount_in fee_pips then
      {| vr_amount_out := 0; vr_sqrt_price_x96_after := cl_sqrt_price_x96 state;
         vr_tick_after := cl_tick state; vr_gas_estimate := 0;
         vr_shallow := false; vr_synthetic := false |}
    else
      let w := v3_walk_final state amount_in fee_pips zero_for_one in
      let has_ticks := negb (length (cl_ticks state) =? 0)%nat in
      {| vr_amount_out := w_amount_calculated w;
         vr_sqrt_price_x96_after := w_sqrt_price_x96 w;
         vr_tick_after := w_tick w;
         vr_gas_estimate := GAS_V3_BASE + w_ticks_crossed w * GAS_PER_TICK_CROSSED;
         vr_shallow := (negb has_ticks || w_tick_data_exhausted w
                        || negb (is_zero (w_amount_remaining w)))%bool;
         vr_synthetic := w_used_synthetic w |}).

(** ** The bounds of the walk *)

Lemma partition_point_spec {A} (p : A → bool) l :
  (∀ i x, (i < partition_point p l)%nat → l !! i = Some x → p x = true) ∧
  (∀ x, l !! partition_point p l = Some x → p x = false) ∧
  (partition_point p l ≤ length l)%nat.
Proof.
  induction l as [|y l (IH1 & IH2 & IH3)]; simpl; [split_and!; [by intros|done|lia]|].
  destruct (p y) eqn:E; simpl; (split_and!; [| |lia]).
  - intros [|i] x Hi Hx; simpl in Hx; [congruence|]. eapply IH1; [|done]. lia.
  - intros x Hx. by apply IH2.
  - intros i x Hi. lia.
  - intros x Hx. congruence.
Qed.

Definition ticks_in_range (ticks : list V3Tick) : Prop :=
  Forall (λ t, MIN_TICK ≤ t_tick t ≤ MAX_TICK) ticks.

(** An initialized tick found by the walk lies strictly ahead of the current
    one. *)
Lemma next_initialized_tick_bounds ticks cur (zfo : bool) nt net :
  ticks_in_range ticks →
  next_initialized_tick_with_net ticks cur zfo = Some (nt, net) →
  MIN_TICK ≤ nt ≤ MAX_TICK ∧ if zfo then nt ≤ cur else cur < nt.
Proof.
  intros Hr. unfold next_initialized_tick_with_net.
  set (p := λ t, t_tick t <=? cur).
  destruct (partition_point_spec p ticks) as (Hlt & Heq & _).
  intros H. cases_in H.
  - apply Nat.ltb_lt in Heqb0.
    pose proof Heqo as Hp. apply Hlt in Hp; [|lia]. subst p. simpl in Hp. zbool.
    split; [|done]. exact (Forall_lookup_1 _ _ _ _ Hr Heqo).
  - pose proof (Heq _ eq_refl) as Hp. subst p. simpl in Hp. zbool.
    split; [|done]. exact (Forall_lookup_1 _ _ _ _ Hr Heqo).
Qed.

(** ** Loop invariant *)

Section invariant.
Context (ticks : list V3Tick) (Hticks : ticks_in_range ticks) (Hne : ticks ≠ []).
Context (no_tick_step initial_tick fee_pips : Z) (Hfee : 0 ≤ fee_pips < FEE_PIPS_SCALE).

Definition price_limit (zfo : bool) : Z :=
  if zfo then SQRT_PRICE_LIMIT_ZERO_FOR_ONE else MAX_SQRT_RATIO_EXCLUSIVE.

(** The price lies on the near side of the limit and agrees with the tick. *)
Definition walk_inv (zfo : bool) (w : V3Walk) : Prop :=
  0 ≤ w_amount_remaining w < 2 ^ 255 ∧
  w_liquidity w < 2 ^ 127 ∧
  MIN_TICK ≤ w_tick w ≤ MAX_TICK ∧
  if zfo then
    price_limit zfo ≤ w_sqrt_price_x96 w < MAX_SQRT_RATIO ∧
    sqrt_ratio (w_tick w) ≤ w_sqrt_price_x96 w
  else
    MIN_SQRT_RATIO ≤ w_sqrt_price_x96 w ≤ price_limit zfo ∧
    w_tick w < MAX_TICK ∧ w_sqrt_price_x96 w < sqrt_ratio (w_tick w + 1).

(** What the swap step of one iteration charges (input plus fee). *)
Definition iteration_charge (zfo : bool) (w : V3Walk) : Z :=
  if is_zero (w_amount_remaining w) then 0
  else
    let nt := (v3_next_bound ticks true zfo no_tick_step initial_tick (w_tick w)).1.1 in
    let next := default (price_limit zfo) (get_sqrt_ratio_at_tick nt) in
    let tgt := if zfo then Z.max next (price_limit zfo) else Z.min next (price_limit zfo) in
    match compute_swap_step (w_sqrt_price_x96 w) tgt (Z.max (w_liquidity w) 0)
            (w_amount_remaining w) fee_pips with
    | Some s => amount_in s + fee_amount s
    | None => 0
    end.

(** The sum of the charges of all iterations of a walk. *)
Fixpoint walk_charges (zfo : bool) (n : nat) (w : V3Walk) : Z :=
  match n with
  | O => 0
  | S n => let '(w', continue) :=
             v3_walk_body ticks true zfo no_tick_step initial_tick (price_limit zfo) fee_pips w in
           iteration_charge zfo w + if continue then walk_charges zfo n w' else 0
  end.

(** The post-condition of an iteration, whether it continues or breaks. *)
Definition body_post (zfo : bool) (w w' : V3Walk) : Prop :=
  w_amount_remaining w' = w_amount_remaining w - iteration_charge zfo w ∧
  0 ≤ w_amount_remaining w' ≤ w_amount_remaining w ∧
  (if zfo then price_limit zfo ≤ w_sqrt_price_x96 w' ≤ w_sqrt_price_x96 w
   else w_sqrt_price_x96 w ≤ w_sqrt_price_x96 w' ≤ price_limit zfo) ∧
  w_ticks_crossed w ≤ w_ticks_crossed w' ≤ w_ticks_crossed w + 1.

Lemma v3_next_bound_spec zfo tick nt net syn :
  MIN_TICK ≤ tick ≤ MAX_TICK →
  v3_next_bound ticks true zfo no_tick_step initial_tick tick = ((nt, net), syn) →
  MIN_TICK ≤ nt ≤ MAX_TICK ∧
  (if zfo then nt < tick ∨ nt = MIN_TICK else tick < nt ∨ nt = MAX_TICK).
Proof using Hticks.
  intros Ht. unfold v3_next_bound.
  destruct (next_initialized_tick_with_net _ _ _) as [[nt' net']|] eqn:E; intros [= <- <- <-].
  - apply next_initialized_tick_bounds in E as [? ?]; [|done]. split; [done|].
    destruct zfo; left; [|done].
    unfold i32_saturating_sub, i32_min, i32_max, MIN_TICK, MAX_TICK in *. lia.
  - unfold MIN_TICK, MAX_TICK. destruct zfo; (split; [lia|by right]).
Qed.

(** The target of the step lies between the current price and the limit. *)
Lemma step_target zfo w nt :
  walk_inv zfo w → MIN_TICK ≤ nt ≤ MAX_TICK →
  (if zfo then nt < w_tick w ∨ nt = MIN_TICK else w_tick w < nt ∨ nt = MAX_TICK) →
  if zfo then price_limit zfo ≤ Z.max (sqrt_ratio nt) (price_limit zfo) ≤ w_sqrt_price_x96 w
  else w_sqrt_price_x96 w ≤ Z.min (sqrt_ratio nt) (price_limit zfo) ≤ price_limit zfo.
Proof using.
  intros (_ & _ & Ht & Hp) Hnt Hdir. destruct zfo.
  - destruct Hp as [Hp Hc]. split; [lia|]. apply Z.max_lub; [|lia].
    destruct Hdir as [Hd| ->].
    + pose proof (sqrt_ratio_mono nt (w_tick w)). lia.
    + rewrite sqrt_ratio_MIN. assert (MIN_SQRT_RATIO ≤ price_limit true) by done. lia.
  - destruct Hp as (Hp & Hmax & Hc). split; [|lia]. apply Z.min_glb; [|lia].
    destruct Hdir as [Hd| ->].
    + destruct (decide (w_tick w + 1 = nt)) as [<-|]; [lia|].
      pose proof (sqrt_ratio_mono (w_tick w + 1) nt). lia.
    + rewrite sqrt_ratio_MAX. assert (price_limit false ≤ MAX_SQRT_RATIO) by done. lia.
Qed.

Lemma no_wrap_bound l p r :
  0 ≤ l < 2 ^ 127 → MIN_SQRT_RATIO ≤ p → 0 ≤ r < 2 ^ 255 → l * 2 ^ 96 / p + r < M256.
Proof using.
  intros Hl Hp Hr. assert (0 < p) by (unfold MIN_SQRT_RATIO, from_limbs in *; lia).
  assert (l * 2 ^ 96 / p < 2 ^ 224).
  { apply Z.div_lt_upper_bound; [done|]. nia. }
  unfold M256. lia.
Qed.

(** The swap step of an iteration satisfies the step contract. *)
Lemma body_step_ok zfo w nt s :
  walk_inv zfo w → MIN_TICK ≤ nt ≤ MAX_TICK →
  (if zfo then nt < w_tick w ∨ nt = MIN_TICK else w_tick w < nt ∨ nt = MAX_TICK) →
  let tgt := if zfo then Z.max (sqrt_ratio nt) (price_limit zfo)
             else Z.min (sqrt_ratio nt) (price_limit zfo) in
  compute_swap_step (w_sqrt_price_x96 w) tgt (Z.max (w_liquidity w) 0)
    (w_amount_remaining w) fee_pips = Some s →
  0 ≤ amount_in s ∧ 0 ≤ fee_amount s ∧ amount_in s + fee_amount s ≤ w_amount_remaining w ∧
  if zfo then tgt ≤ sqrt_ratio_next_x96 s ≤ w_sqrt_price_x96 w
  else w_sqrt_price_x96 w ≤ sqrt_ratio_next_x96 s ≤ tgt.
Proof using Hfee.
  intros Hinv Hnt Hdir tgt Hs. pose proof (step_target zfo w nt Hinv Hnt Hdir) as Htgt.
  destruct Hinv as (Hrem & Hliq & Ht & Hp).
  assert (MIN_SQRT_RATIO ≤ w_sqrt_price_x96 w < MAX_SQRT_RATIO) as Hcur.
  { destruct zfo; [assert (MIN_SQRT_RATIO ≤ price_limit true) by done; lia|].
    assert (price_limit false < MAX_SQRT_RATIO) by done. lia. }
  assert (MIN_SQRT_RATIO ≤ tgt ≤ MAX_SQRT_RATIO) as Htg.
  { subst tgt. destruct zfo; [assert (MIN_SQRT_RATIO ≤ price_limit true) by done; lia|].
    assert (price_limit false < MAX_SQRT_RATIO) by done. lia. }
  assert (0 < MIN_SQRT_RATIO) by done. assert (MAX_SQRT_RATIO < M256) by done.
  assert (2 ^ 255 < M256) by done. assert (2 ^ 127 < M256) by done.
  apply compute_swap_step_inv in Hs as (Hs1 & Hs2 & Hs3 & _ & Hs5);
    [|unfold u256; lia..|apply no_wrap_bound; lia].
  split_and!; try lia. fold tgt in Htgt. destruct zfo.
  - destruct (Z.leb_spec tgt (w_sqrt_price_x96 w)); [|lia]. lia.
  - destruct (Z.leb_spec tgt (w_sqrt_price_x96 w)); [|lia]. lia.
Qed.

Lemma wrap_i128_lt x : wrap_i 128 x < 2 ^ 127.
Proof using.
  unfold wrap_i. change (128 - 1) with 127.
  pose proof (Z.mod_pos_bound (x + 2 ^ 127) (2 ^ 128) ltac:(done)). lia.
Qed.

(** Crossing an initialized tick re-establishes the invariant. *)
Lemma cross_inv (zfo : bool) price nt :
  MIN_TICK ≤ nt ≤ MAX_TICK → price = sqrt_ratio nt →
  (if zfo then price_limit zfo ≤ price < MAX_SQRT_RATIO else MIN_SQRT_RATIO ≤ price ≤ price_limit zfo) →
  let tick := if zfo then wrap_i 32 (nt - 1) else nt in
  MIN_TICK ≤ tick ≤ MAX_TICK ∧
  if zfo then sqrt_ratio tick ≤ price else tick < MAX_TICK ∧ price < sqrt_ratio (tick + 1).
Proof using.
  intros Hnt -> Hp. destruct zfo.
  - assert (nt ≠ MIN_TICK).
    { intros ->. rewrite sqrt_ratio_MIN in Hp.
      assert (MIN_SQRT_RATIO < price_limit true) by done. lia. }
    assert (wrap_i 32 (nt - 1) = nt - 1) as ->.
    { unfold wrap_i, MIN_TICK, MAX_TICK in *. rewrite Z.mod_small; lia. }
    pose proof (sqrt_ratio_mono (nt - 1) nt). split; lia.
  - assert (nt ≠ MAX_TICK).
    { intros ->. rewrite sqrt_ratio_MAX in Hp.
      assert (price_limit false < MAX_SQRT_RATIO) by done. lia. }
    pose proof (sqrt_ratio_mono nt (nt + 1)). split; lia.
Qed.

Lemma v3_walk_body_ok zfo w w' c :
  walk_inv zfo w →
  v3_walk_body ticks true zfo no_tick_step initial_tick (price_limit zfo) fee_pips w = (w', c) →
  body_post zfo w w' ∧ (c = true → walk_inv zfo w').
Proof using Hticks Hfee.
  intros Hinv. unfold v3_walk_body, body_post, iteration_charge, is_zero.
  assert (0 ≤ w_amount_remaining w ∧ if zfo then price_limit zfo ≤ w_sqrt_price_x96 w
    else w_sqrt_price_x96 w ≤ price_limit zfo) as [Hrefl1 Hrefl2].
  { destruct Hinv as (? & _ & _ & Hp). destruct zfo; lia. }
  destruct (Z.eqb_spec (w_amount_remaining w) 0).
  { intros [= <- <-]. split; [|done]. destruct zfo; split_and!; lia. }
  destruct (v3_next_bound _ _ _ _ _ _) as [[nt net] syn] eqn:Eb. cbn [fst snd].
  apply v3_next_bound_spec in Eb as [Hnt Hdir]; [|by destruct Hinv as (_ & _ & ? & _)].
  rewrite (get_sqrt_ratio_at_tick_in nt) by done. cbn [default from_option id].
  destruct (compute_swap_step _ _ _ _ _) as [s|] eqn:Es.
  2: { intros [= <- <-]. split; [|done]. simpl. destruct zfo; split_and!; lia. }
  pose proof (body_step_ok zfo w nt s Hinv Hnt Hdir Es) as (Hin & Hf & Hle & Hpr).
  pose proof (step_target zfo w nt Hinv Hnt Hdir) as Htgt.
  assert (saturating_sub (w_amount_remaining w) (saturating_add (amount_in s) (fee_amount s))
    = w_amount_remaining w - (amount_in s + fee_amount s)) as ->.
  { destruct Hinv as (? & _). unfold saturating_sub, saturating_add.
    assert (2 ^ 255 < U256_MAX) by done. lia. }
  destruct (Z.eqb_spec (sqrt_ratio_next_x96 s) (sqrt_ratio nt)) as [Heq|Hneq].
  - destruct syn.
    { intros [= <- <-]. split; [|done]. simpl. destruct zfo; split_and!; lia. }
    destruct (cross_inv zfo (sqrt_ratio_next_x96 s) nt Hnt Heq) as [Ht' Hc].
    { destruct Hinv as (_ & _ & _ & Hp). destruct zfo; lia. }
    destruct Hinv as (Hrem & Hliq & Ht & Hp).
    match goal with |- context [?l <=? 0] => destruct (l <=? 0) end; intros [= <- <-]; (split; [simpl; destruct zfo; split_and!; lia|]).
    { done. }
    intros _. unfold walk_inv. simpl.
    split_and!; try lia; try (by destruct zfo; apply wrap_i128_lt).
    destruct zfo; split_and!; lia.
  - intros [= <- <-]. split; [|done]. simpl. destruct zfo; split_and!; lia.
Qed.

Lemma v3_walk_ok zfo n w :
  walk_inv zfo w →
  let w' := v3_walk ticks true zfo no_tick_step initial_tick (price_limit zfo) fee_pips n w in
  w_amount_remaining w' = w_amount_remaining w - walk_charges zfo n w ∧
  0 ≤ w_amount_remaining w' ∧
  (if zfo then price_limit zfo ≤ w_sqrt_price_x96 w' ≤ w_sqrt_price_x96 w
   else w_sqrt_price_x96 w ≤ w_sqrt_price_x96 w' ≤ price_limit zfo) ∧
  w_ticks_crossed w ≤ w_ticks_crossed w' ≤ w_ticks_crossed w + Z.of_nat n.
Proof using Hticks Hfee.
  revert w. induction n as [|n IH]; intros w Hinv; simpl.
  { destruct Hinv as (? & _ & _ & Hp). destruct zfo; split_and!; lia. }
  pose proof (v3_walk_body_ok zfo w) as Hb. simpl in *.
  destruct (v3_walk_body _ _ _ _ _ _ _ w) as [w' c].
  destruct (Hb w' c Hinv eq_refl) as [(Hch & Hr & Hp & Hc) Hcont]. destruct c.
  - destruct (IH w' (Hcont eq_refl)) as (? & ? & ? & ?). destruct zfo; split_and!; lia.
  - destruct zfo; split_and!; lia.
Qed.

End invariant.

(** ** Properties *)

(** A hydrated pool whose price and tick agree. *)
Definition cl_consistent (s : V3PoolState) : Prop :=
  cl_ticks s ≠ [] ∧ ticks_in_range (cl_ticks s) ∧
  MIN_TICK ≤ cl_tick s < MAX_TICK ∧
  sqrt_ratio (cl_tick s) ≤ cl_sqrt_price_x96 s < sqrt_ratio (cl_tick s + 1).

Lemma effective_fee_nonneg s zfo bps az fee :
  0 ≤ cl_fee s → v3_effective_fee_pips s zfo bps az = Done fee → 0 ≤ fee.
Proof.
  intros Hf. unfold v3_effective_fee_pips.
  assert (0 ≤ resolve_v3_fee_pips (cl_fee s) bps az) as Hr.
  { unfold resolve_v3_fee_pips. destruct (_ || _)%bool; [done|].
    destruct bps as [b|]; [|done]. destruct (b <? 10000); [|done]. by destruct (wmul_range b 100). }
  destruct (_ && _)%bool; [|by intros [= <-]].
  destruct (_ <? _); [|done]. intros [= <-]. unfold v4_combined_swap_fee_pips, wrap_u.
  destruct (_ =? 0); [done|]. by apply Z.mod_pos_bound.
Qed.

Lemma price_limit_true : price_limit true = MIN_SQRT_RATIO + 1.
Proof. vm_compute. reflexivity. Qed.
Lemma price_limit_false : price_limit false = MAX_SQRT_RATIO - 1.
Proof. vm_compute. reflexivity. Qed.

Lemma walk_init_inv s amt fee (zfo : bool) :
  cl_consistent s → 0 ≤ amt < 2 ^ 255 →
  (zfo = true → MIN_SQRT_RATIO < cl_sqrt_price_x96 s) →
  v3_swap_rejected s amt fee = false →
  fee < FEE_PIPS_SCALE ∧ walk_inv zfo (v3_walk_init s amt).
Proof.
  intros (Hne & Hr & Ht & Hp) Ha Hmin Hrej. unfold v3_swap_rejected in Hrej.
  unfold is_zero in Hrej. zbool.
  split; [done|]. unfold walk_inv. simpl. unfold i128_max in *. split_and!; try lia.
  pose proof price_limit_true. pose proof price_limit_false.
  destruct zfo; split_and!; lia.
Qed.

(** On a hydrated, consistent pool the quoted price moves only in the
    direction of the trade and stays strictly inside the protocol's price range
    (at most [MAX_SQRT_RATIO - 1], at least [MIN_SQRT_RATIO + 1]); the gas
    estimate is at most that of 500 crossed ticks, so it fits a [u32]. *)
Theorem simulate_v3_swap_price_direction (s : V3PoolState) (amt : Z) (zfo : bool)
    (bps : option Z) (az : bool) (r : V3SwapResult) :
  cl_consistent s → 0 ≤ amt < 2 ^ 255 → 0 ≤ cl_fee s →
  MIN_SQRT_RATIO < cl_sqrt_price_x96 s →
  simulate_v3_swap s amt zfo bps az = Done r →
  (if zfo then MIN_SQRT_RATIO + 1 ≤ vr_sqrt_price_x96_after r ≤ cl_sqrt_price_x96 s
   else cl_sqrt_price_x96 s ≤ vr_sqrt_price_x96_after r ≤ MAX_SQRT_RATIO - 1) ∧
  vr_gas_estimate r ≤ GAS_V3_BASE + 500 * GAS_PER_TICK_CROSSED.
Proof.
  intros Hcons Hamt Hfee Hmin. unfold simulate_v3_swap.
  destruct (v3_effective_fee_pips s zfo bps az) as [fee|] eqn:Ef; [|done].
  apply effective_fee_nonneg in Ef; [|done]. cbn [obind]. intros [= <-].
  destruct (v3_swap_rejected s amt fee) eqn:Erej.
  - simpl. split; [|done]. destruct Hcons as (_ & _ & Ht & Hp).
    pose proof (sqrt_ratio_range (cl_tick s + 1)). destruct zfo; lia.
  - pose proof (walk_init_inv s amt fee zfo Hcons Hamt (λ _, Hmin) Erej) as [Hf Hinv].
    destruct Hcons as (Hne & Hr & _). cbn [vr_sqrt_price_x96_after vr_gas_estimate].
    unfold v3_walk_final. destruct (Nat.eqb_spec (length (cl_ticks s)) 0) as [E|_].
    { by apply length_zero_iff_nil in E. }
    change (if zfo then SQRT_PRICE_LIMIT_ZERO_FOR_ONE else MAX_SQRT_RATIO_EXCLUSIVE)
      with (price_limit zfo).
    cbn [negb].
    destruct (v3_walk_ok (cl_ticks s) Hr 0 (cl_tick s) fee ltac:(lia) zfo MAX_ITERATIONS _ Hinv)
      as (_ & _ & Hp & Hc).
    cbn [w_sqrt_price_x96 w_ticks_crossed v3_walk_init] in Hp, Hc.
    change (Z.of_nat MAX_ITERATIONS) with 500 in Hc. pose proof price_limit_true. pose proof price_limit_false.
    split; [destruct zfo; lia|]. unfold GAS_PER_TICK_CROSSED. lia.
Qed.

(** A pool at price 1 with ticks at -600 and 600. *)
Definition demo_pool : V3PoolState :=
  {| cl_sqrt_price_x96 := 2 ^ 96; cl_tick := 0; cl_liquidity := 10 ^ 21; cl_fee := 3000;
     cl_tick_spacing := 60;
     cl_ticks := [ {| t_tick := -600; t_liquidity_gross := 10 ^ 20; t_liquidity_net := 10 ^ 20 |};
                   {| t_tick := 600; t_liquidity_gross := 10 ^ 20; t_liquidity_net := - 10 ^ 20 |} ];
     cl_unlocked := true; cl_fee_protocol := 0; cl_observation_cardinality := 1 |}.

Lemma demo_pool_consistent : cl_consistent demo_pool.
Proof.
  split; [done|]. split; [repeat constructor; vm_compute; discriminate|].
  split; [split; vm_compute; (discriminate || reflexivity)|].
  split; vm_compute; (discriminate || reflexivity).
Defined.

Lemma simulate_v3_swap_price_direction_witness :
  ∃ r, simulate_v3_swap demo_pool (10 ^ 20) true (Some 30) false = Done r ∧
    (MIN_SQRT_RATIO + 1 ≤ vr_sqrt_price_x96_after r ≤ 2 ^ 96) ∧
    vr_gas_estimate r ≤ GAS_V3_BASE + 500 * GAS_PER_TICK_CROSSED.
Proof.
  eexists. split; [vm_compute; reflexivity|].
  apply (simulate_v3_swap_price_direction demo_pool (10 ^ 20) true (Some 30) false);
    [exact demo_pool_consistent | split; vm_compute; (discriminate || reflexivity)
    | vm_compute; discriminate | vm_compute; reflexivity | vm_compute; reflexivity].
Defined.

(** On a hydrated, consistent pool a quote that is not flagged shallow has
    charged, over all its swap steps, exactly the input given: nothing is left
    over and no saturating operation lost any of it. *)
Theorem simulate_v3_swap_full_fill (s : V3PoolState) (amt : Z) (zfo : bool)
    (bps : option Z) (az : bool) (fee : Z) (r : V3SwapResult) :
  cl_consistent s → 0 ≤ amt < 2 ^ 255 → 0 ≤ cl_fee s →
  MIN_SQRT_RATIO < cl_sqrt_price_x96 s →
  v3_effective_fee_pips s zfo bps az = Done fee →
  v3_swap_rejected s amt fee = false →
  simulate_v3_swap s amt zfo bps az = Done r → vr_shallow r = false →
  walk_charges (cl_ticks s) 0 (cl_tick s) fee zfo MAX_ITERATIONS (v3_walk_init s amt) = amt.
Proof.
  intros Hcons Hamt Hfee Hmin Ef Erej. unfold simulate_v3_swap. rewrite Ef. cbn [obind].
  rewrite Erej. intros [= <-]. cbn [vr_shallow]. intros Hsh.
  apply effective_fee_nonneg in Ef; [|done].
  pose proof (walk_init_inv s amt fee zfo Hcons Hamt (λ _, Hmin) Erej) as [Hf Hinv].
  destruct Hcons as (Hne & Hr & _).
  unfold v3_walk_final in Hsh. destruct (Nat.eqb_spec (length (cl_ticks s)) 0) as [E|_].
  { by apply length_zero_iff_nil in E. }
  cbn [negb orb] in Hsh. apply orb_false_iff in Hsh as [_ Hrem]. apply negb_false_iff in Hrem.
  unfold is_zero in Hrem. apply Z.eqb_eq in Hrem.
  destruct (v3_walk_ok (cl_ticks s) Hr 0 (cl_tick s) fee ltac:(lia) zfo MAX_ITERATIONS _ Hinv)
    as (Hw & _). unfold price_limit in Hw. rewrite Hrem in Hw.
  cbn [w_amount_remaining v3_walk_init] in Hw. lia.
Qed.

Lemma simulate_v3_swap_full_fill_witness :
  walk_charges (cl_ticks demo_pool) 0 0 3000 true MAX_ITERATIONS (v3_walk_init demo_pool (10 ^ 20))
    = 10 ^ 20.
Proof.
  eapply (simulate_v3_swap_full_fill demo_pool (10 ^ 20) true (Some 30) false 3000);
    [exact demo_pool_consistent | split; vm_compute; (discriminate || reflexivity)
    | vm_compute; discriminate | vm_compute; reflexivity | vm_compute; reflexivity
    | vm_compute; reflexivity | vm_compute; reflexivity | vm_compute; reflexivity].
Defined.

(** ** The initialized tick at the current price

    The down-walk searches from [tick - 1], so a tick initialized exactly at the
    pool's current tick is never crossed: removing its liquidity from the pool
    does not change the quote. *)
Definition pool_at_tick (net : Z) : V3PoolState :=
  {| cl_sqrt_price_x96 := 2 ^ 96 + 2 ^ 80; cl_tick := 0; cl_liquidity := 10 ^ 21; cl_fee := 3000;
     cl_tick_spacing := 60;
     cl_ticks := [ {| t_tick := -6000; t_liquidity_gross := 1; t_liquidity_net := 1 |};
                   {| t_tick := 0; t_liquidity_gross := Z.abs net; t_liquidity_net := net |} ];
     cl_unlocked := true; cl_fee_protocol := 0; cl_observation_cardinality := 1 |}.

Theorem current_tick_never_crossed_down :
  simulate_v3_swap (pool_at_tick (9 * 10 ^ 20)) (10 ^ 20) true (Some 30) false =
  simulate_v3_swap (pool_at_tick 0) (10 ^ 20) true (Some 30) false.
Proof. vm_compute. reflexivity. Qed.
