(* ===== verification/Balancer.v ===== *)
(** * Balancer V2 pools

    [src/src/core/math/balancer.rs]: weighted, composable-stable and linear
    pools.  A division whose divisor is not guarded by the function itself is a
    [pdiv], so a panic is visible in the model; list indexing [xs[i]] is [at_]
    and is always behind the bounds check of the code. *)
From S2P Require Import Prelude Word MulDiv LogExp Types.

Definition at_ (xs : list Z) (i : nat) : Z := nth i xs 0.

Definition MAX_IN_RATIO : Z := from_limbs 300000000000000000 0 0 0.

Definition exceeds_balancer_max_in_ratio (amount_in balance_in : Z) : bool :=
  (is_zero balance_in
   || match checked_mul balance_in MAX_IN_RATIO with
      | None => true
      | Some limit => limit / ONE <? amount_in
      end)%bool.

(** [iter().position(|&t| t == addr)]. *)
Fixpoint position (xs : list Address) (addr : Address) : option nat :=
  match xs with
  | [] => None
  | x :: xs => if bool_decide (x = addr) then Some 0%nat else S <$> position xs addr
  end.

Definition balancer_balance_in
    (state : BalancerPoolState) (token_in_idx : nat) (token_in : option Address) : Z :=
  let idx := default token_in_idx (token_in ≫= position (bl_tokens state)) in
  default 0 (bl_balances state !! idx).

Definition balancer_fee_bps_from_pool (fee : Z) : option Z :=
  if (is_zero fee || (ONE <=? fee))%bool then None
  else
    let bps := (fee *% 10000) / ONE in
    Some (Z.min bps 9999).

Definition DEFAULT_AMP_PRECISION : Z := from_limbs 1000 0 0 0.
Definition BAL_MAX_ITERATIONS : nat := 255.

Definition resolve_swap_fee (fee : Z) : Z :=
  if (negb (is_zero fee) && (fee <? ONE))%bool then fee else 0.

(** ** Weighted pools *)

Definition get_balancer_weighted_amount_out
    (state : BalancerPoolState) (amount_in : Z) (in_idx out_idx : nat) : Z :=
  let balances := bl_balances state in
  let weights := bl_weights state in
  if ((length balances <=? in_idx) || (length balances <=? out_idx)
      || (length weights <=? in_idx) || (length weights <=? out_idx))%nat%bool then 0
  else
  let scaling := bl_scaling_factors state in
  if (negb (length scaling =? length balances)%nat
      || is_zero (at_ scaling in_idx) || is_zero (at_ scaling out_idx))%bool then 0
  else
  let bal_in := at_ balances in_idx in
  let bal_out := at_ balances out_idx in
  let w_in := at_ weights in_idx in
  let w_out := at_ weights out_idx in
  let fee := resolve_swap_fee (bl_fee state) in
  if (is_zero bal_in || is_zero bal_out || is_zero w_in || is_zero w_out)%bool then 0
  else if ((ONE <=? fee) || exceeds_balancer_max_in_ratio amount_in bal_in)%bool then 0
  else
  let fee_complement := complement fee in
  if is_zero fee_complement then 0
  else
  let_some v := checked_mul amount_in fee_complement or 0 in
  let amount_in_after_fee := v / ONE in
  let_some v := checked_mul amount_in_after_fee (at_ scaling in_idx) or 0 in
  let scaled_amount_in := v / ONE in
  if is_zero scaled_amount_in then 0
  else
  let_some v := checked_mul bal_in (at_ scaling in_idx) or 0 in
  let scaled_bal_in := v / ONE in
  let_some v := checked_mul bal_out (at_ scaling out_idx) or 0 in
  let scaled_bal_out := v / ONE in
  let denominator := scaled_bal_in +% scaled_amount_in in
  if is_zero denominator then 0
  else
  let base := (scaled_bal_in *% ONE) / denominator in
  if (is_zero base || (ONE <? base))%bool then 0
  else
  let exponent := (w_in *% ONE) / w_out in
  if is_zero exponent then 0
  else
  let power := pow_down base exponent in
  if ONE <? power then 0
  else
  let_some v := checked_mul scaled_bal_out (ONE -% power) or 0 in
  let scaled_amount_out := v / ONE in
  if is_zero scaled_amount_out then 0
  else
  let amount_out := (scaled_amount_out *% ONE) / at_ scaling out_idx in
  if (is_zero amount_out || (bal_out <? amount_out))%bool then 0 else amount_out.

(** ** Stable pools *)

(** [for b in balances { if b.is_zero() { return ZERO } sum += b }]: [None] is
    the early return. *)
Fixpoint sum_balances (balances : list Z) (sum : Z) : option Z :=
  match balances with
  | [] => Some sum
  | b :: balances => if is_zero b then None else sum_balances balances (sum +% b)
  end.

(** [for b in balances { d_p = (d_p * invariant) / (b * num_tokens) }]. *)
Fixpoint bal_d_p (balances : list Z) (num_tokens invariant d_p : Z) : outcome Z :=
  match balances with
  | [] => Done d_p
  | b :: balances =>
      let! d_p := pdiv (d_p *% invariant) (b *% num_tokens) in
      bal_d_p balances num_tokens invariant d_p
  end.

Fixpoint bal_invariant_loop (fuel : nat)
    (balances : list Z) (num_tokens amp_times_total amp_precision sum invariant : Z) : outcome Z :=
  match fuel with
  | O => Done 0
  | S fuel =>
      let! d_p := bal_d_p balances num_tokens invariant invariant in
      let prev := invariant in
      let numerator :=
        ((amp_times_total *% sum) / amp_precision +% d_p *% num_tokens) *% invariant in
      let denominator :=
        ((amp_times_total -% amp_precision) *% invariant) / amp_precision
        +% (num_tokens +% 1) *% d_p in
      if is_zero denominator then Done 0
      else
        let invariant := numerator / denominator in
        if abs_diff invariant prev <=? 1 then Done invariant
        else bal_invariant_loop fuel balances num_tokens amp_times_total amp_precision sum invariant
  end.

Definition calculate_balancer_stable_invariant
    (amp : Z) (balances : list Z) (amp_precision : Z) : outcome Z :=
  if ((length balances <? 2)%nat || is_zero amp || is_zero amp_precision)%bool then Done 0
  else
    let num_tokens := Z.of_nat (length balances) in
    let_some sum := sum_balances balances 0 or Done 0 in
    if is_zero sum then Done 0
    else
      let amp_times_total := amp *% num_tokens in
      if amp_times_total <=? amp_precision then Done 0
      else bal_invariant_loop BAL_MAX_ITERATIONS balances num_tokens amp_times_total
             amp_precision sum sum.

(** [for &balance in &balances[1..]]: the running [p_d] and [sum]. *)
Fixpoint bal_p_d (balances : list Z) (num_tokens invariant p_d sum : Z) : option (Z * Z) :=
  match balances with
  | [] => Some (p_d, sum)
  | balance :: balances =>
      if is_zero balance then None
      else bal_p_d balances num_tokens invariant
             ((p_d *% balance *% num_tokens) / invariant) (sum +% balance)
  end.

Fixpoint bal_newton (fuel : nat) (b c invariant token_balance : Z) : Z :=
  match fuel with
  | O => token_balance
  | S fuel =>
      let prev := token_balance in
      let denominator := 2 *% token_balance +% b -% invariant in
      if is_zero denominator then 0
      else
        let token_balance := div_rounding_up_or_zero (token_balance *% token_balance +% c) denominator in
        if abs_diff token_balance prev <=? 1 then token_balance
        else bal_newton fuel b c invariant token_balance
  end.

(** The coefficients [c] and [b] of the quadratic the Newton loop solves. *)
Definition bal_quadratic (amp : Z) (balances : list Z) (invariant : Z) (token_index : nat)
    (amp_precision : Z) : option (Z * Z) :=
  let num_tokens := Z.of_nat (length balances) in
  let amp_times_total := amp *% num_tokens in
  if (is_zero amp_times_total || is_zero invariant)%bool then None
  else
    let first := at_ balances 0 in
    match bal_p_d (tail balances) num_tokens invariant (first *% num_tokens) first with
    | None => None
    | Some (p_d, sum) =>
        let indexed := at_ balances token_index in
        if (is_zero indexed || is_zero p_d)%bool then None
        else
          let sum := sum -% indexed in
          let inv2 := invariant *% invariant in
          let c := div_rounding_up_or_zero (inv2 *% amp_precision *% indexed)
                     (amp_times_total *% p_d) in
          let b := sum +% (invariant *% amp_precision) / amp_times_total in
          Some (c, b)
    end.

Definition token_balance_given_invariant (amp : Z) (balances : list Z) (invariant : Z)
    (token_index : nat) (amp_precision : Z) : Z :=
  match bal_quadratic amp balances invariant token_index amp_precision with
  | None => 0
  | Some (c, b) =>
      let inv2 := invariant *% invariant in
      bal_newton BAL_MAX_ITERATIONS b c invariant
        (div_rounding_up_or_zero (inv2 +% c) (invariant +% b))
  end.

(** The loop that drops the pool's own token and scales the other balances;
    [i] is the vault index, the length of the list built so far the stable one. *)
Fixpoint bal_stable_scan (bpt_index : option nat) (in_idx out_idx : nat) (scaling : list Z)
    (balances : list Z) (i : nat) (scaled : list Z) (stable_in stable_out : option nat)
  : list Z * option nat * option nat :=
  match balances with
  | [] => (scaled, stable_in, stable_out)
  | balance :: balances =>
      if bool_decide (bpt_index = Some i) then
        bal_stable_scan bpt_index in_idx out_idx scaling balances (S i) scaled stable_in stable_out
      else
        let stable_idx := length scaled in
        let stable_in := if (i =? in_idx)%nat then Some stable_idx else stable_in in
        let stable_out := if (i =? out_idx)%nat then Some stable_idx else stable_out in
        bal_stable_scan bpt_index in_idx out_idx scaling balances (S i)
          (scaled ++ [(balance *% at_ scaling i) / ONE]) stable_in stable_out
  end.

Definition get_balancer_stable_amount_out
    (state : BalancerPoolState) (amount_in : Z) (in_idx out_idx : nat) : outcome Z :=
  let scaling := bl_scaling_factors state in
  let balances := bl_balances state in
  if negb (length scaling =? length balances)%nat then Done 0
  else if (bool_decide (bl_bpt_index state = Some in_idx)
           || bool_decide (bl_bpt_index state = Some out_idx))%bool then Done 0
  else if ((length balances <=? in_idx) || (length balances <=? out_idx))%nat%bool then Done 0
  else
  let '(scaled_balances, stable_in_idx, stable_out_idx) :=
    bal_stable_scan (bl_bpt_index state) in_idx out_idx scaling balances 0 [] None None in
  let_some stable_in_idx := stable_in_idx or Done 0 in
  let_some stable_out_idx := stable_out_idx or Done 0 in
  if existsb is_zero scaled_balances then Done 0
  else
  let fee := resolve_swap_fee (bl_fee state) in
  if ((ONE <=? fee) || is_zero (at_ scaling in_idx) || is_zero (at_ scaling out_idx))%bool
  then Done 0
  else if exceeds_balancer_max_in_ratio amount_in (at_ balances in_idx) then Done 0
  else
  let amount_in_after_fee := (amount_in *% complement fee) / ONE in
  let scaled_amount_in := (amount_in_after_fee *% at_ scaling in_idx) / ONE in
  if is_zero scaled_amount_in then Done 0
  else
  let amp_precision :=
    if is_zero (bl_amp_precision state) then DEFAULT_AMP_PRECISION else bl_amp_precision state in
  let! invariant := calculate_balancer_stable_invariant (bl_amp state) scaled_balances amp_precision in
  if is_zero invariant then Done 0
  else
  let original_out := at_ scaled_balances stable_out_idx in
  let scaled_balances :=
    <[stable_in_idx := at_ scaled_balances stable_in_idx +% scaled_amount_in]> scaled_balances in
  let final_balance_out :=
    token_balance_given_invariant (bl_amp state) scaled_balances invariant stable_out_idx
      amp_precision in
  if (is_zero final_balance_out || (original_out <=? final_balance_out))%bool then Done 0
  else
  let scaled_amount_out := original_out -% final_balance_out -% 1 in
  if is_zero scaled_amount_out then Done 0
  else
  let amount_out := (scaled_amount_out *% ONE) / at_ scaling out_idx in
  let bal_out := at_ balances out_idx in
  if (is_zero amount_out || (bal_out <? amount_out))%bool then Done 0 else Done amount_out.

(** ** Linear pools *)

Definition linear_to_nominal (real fee lower upper : Z) : option Z :=
  if real <? lower then checked_sub real (mul_down (lower -% real) fee)
  else if real <=? upper then Some real
  else checked_sub real (mul_down (real -% upper) fee).

Definition linear_from_nominal (nominal fee lower upper : Z) : option Z :=
  if nominal <? lower then
    let? denominator := checked_add ONE fee in
    let? shifted := checked_add nominal (mul_down fee lower) in
    checked_div (shifted *% ONE) denominator
  else if nominal <=? upper then Some nominal
  else
    let? denominator := checked_sub ONE fee in
    let? shifted := checked_sub nominal (mul_down fee upper) in
    checked_div (shifted *% ONE) denominator.

(** The main-token leg of a linear pool: the wrapped tokens paid for
    [scaled_in] main tokens, and the main tokens paid for [scaled_in] wrapped
    ones.  [None] is the function's [return U256::ZERO]. *)
Definition linear_main_in (linear : BalancerLinearState) (fee main_balance scaled_in : Z) : option Z :=
  let lower := ln_lower_target linear in
  let upper := ln_upper_target linear in
  let? before := linear_to_nominal main_balance fee lower upper in
  let? after_balance := checked_add main_balance scaled_in in
  let? after := linear_to_nominal after_balance fee lower upper in
  Some (((after -% before) *% ONE) / ln_wrapped_rate linear).

Definition linear_wrapped_in (linear : BalancerLinearState) (fee main_balance scaled_in : Z) : option Z :=
  let lower := ln_lower_target linear in
  let upper := ln_upper_target linear in
  let? before := linear_to_nominal main_balance fee lower upper in
  let delta := mul_down scaled_in (ln_wrapped_rate linear) in
  let? after_nominal := checked_sub before delta in
  let? after_balance := linear_from_nominal after_nominal fee lower upper in
  checked_sub main_balance after_balance.

Definition get_balancer_linear_amount_out
    (state : BalancerPoolState) (amount_in : Z) (in_idx out_idx : nat) : Z :=
  let_some linear := bl_linear state or 0 in
  let balances := bl_balances state in
  let scaling := bl_scaling_factors state in
  let n := length balances in
  if ((n <=? in_idx)%nat || (n <=? out_idx)%nat || (n <=? ln_main_index linear)%nat
      || (n <=? ln_wrapped_index linear)%nat || negb (length scaling =? n)%nat
      || is_zero (at_ scaling in_idx) || is_zero (at_ scaling out_idx)
      || is_zero (ln_wrapped_rate linear))%bool then 0
  else if exceeds_balancer_max_in_ratio amount_in (at_ balances in_idx) then 0
  else
  let scaled_in := (amount_in *% at_ scaling in_idx) / ONE in
  let main_balance :=
    (at_ balances (ln_main_index linear) *% at_ scaling (ln_main_index linear)) / ONE in
  let fee := resolve_swap_fee (bl_fee state) in
  let scaled_out :=
    if ((in_idx =? ln_main_index linear) && (out_idx =? ln_wrapped_index linear))%nat%bool
    then linear_main_in linear fee main_balance scaled_in
    else if ((in_idx =? ln_wrapped_index linear) && (out_idx =? ln_main_index linear))%nat%bool
    then linear_wrapped_in linear fee main_balance scaled_in
    else None in
  let_some scaled_out := scaled_out or 0 in
  let amount_out := (scaled_out *% ONE) / at_ scaling out_idx in
  if at_ balances out_idx <? amount_out then 0 else amount_out.

(** ** Dispatch *)

Definition simulate_balancer_swap
    (state : BalancerPoolState) (amount_in : Z) (in_idx out_idx : nat) : outcome Z :=
  if (is_zero amount_in || (in_idx =? out_idx)%nat)%bool then Done 0
  else if ((length (bl_balances state) <=? in_idx)
           || (length (bl_balances state) <=? out_idx))%nat%bool then Done 0
  else match bl_pool_type state with
  | Weighted => Done (get_balancer_weighted_amount_out state amount_in in_idx out_idx)
  | Stable => get_balancer_stable_amount_out state amount_in in_idx out_idx
  | Linear => Done (get_balancer_linear_amount_out state amount_in in_idx out_idx)
  end.

(** ** No division by zero *)

(** The divisors [b * num_tokens] of the invariant loop are non-zero when no
    product wraps. *)
Definition divisors_ok (n : Z) (balances : list Z) : Prop :=
  Forall (λ b, 0 < b ∧ b * n < M256) balances.

Lemma bal_d_p_total n balances : ∀ invariant d_p,
  0 < n → divisors_ok n balances → ∃ r, bal_d_p balances n invariant d_p = Done r.
Proof.
  induction balances as [|b balances IH]; intros invariant d_p Hn Hok; cbn [bal_d_p]; [by eexists|].
  apply Forall_cons in Hok as [[Hb Hbn] Hok]. unfold pdiv.
  rewrite (wmul_small b n) by nia. destruct (Z.eqb_spec (b * n) 0); [nia|]. by apply IH.
Qed.

Lemma bal_invariant_loop_total fuel balances n : ∀ ann P sum invariant,
  0 < n → divisors_ok n balances →
  ∃ r, bal_invariant_loop fuel balances n ann P sum invariant = Done r.
Proof.
  induction fuel as [|fuel IH]; intros ann P sum invariant Hn Hok; cbn [bal_invariant_loop]; [by eexists|].
  destruct (bal_d_p_total n balances invariant invariant Hn Hok) as [d_p ->]. cbn [obind].
  destruct (is_zero _); [by eexists|]. destruct (_ <=? _); [by eexists|]. by apply IH.
Qed.

Lemma sum_balances_Some balances : ∀ sum r,
  sum_balances balances sum = Some r → Forall (λ b, b ≠ 0) balances.
Proof.
  induction balances as [|b balances IH]; intros sum r; cbn [sum_balances]; [constructor|].
  unfold is_zero. destruct (Z.eqb_spec b 0); [done|]. intros H. constructor; [done|by eapply IH].
Qed.

Lemma calculate_balancer_stable_invariant_total amp balances P :
  Forall (λ b, 0 ≤ b ∧ b * Z.of_nat (length balances) < M256) balances →
  ∃ r, calculate_balancer_stable_invariant amp balances P = Done r.
Proof.
  intros Hok. unfold calculate_balancer_stable_invariant.
  destruct (_ || is_zero P)%bool eqn:E; [by eexists|].
  destruct (sum_balances balances 0) as [sum|] eqn:Hs; [|by eexists].
  destruct (is_zero sum); [by eexists|]. destruct (_ <=? P); [by eexists|].
  zbool. apply bal_invariant_loop_total.
  - match goal with H : (_ <? 2)%nat = false |- _ => apply Nat.ltb_ge in H; lia end.
  - apply sum_balances_Some in Hs. unfold divisors_ok. rewrite Forall_forall in *.
    intros b Hb. specialize (Hs b Hb). specialize (Hok b Hb). simpl in *. lia.
Qed.

Lemma bal_stable_scan_forall (Q : Z → Prop) bpt i_in i_out scaling balances :
  (∀ b s, Q ((b *% s) / ONE)) →
  ∀ i scaled si so, Forall Q scaled →
  Forall Q (bal_stable_scan bpt i_in i_out scaling balances i scaled si so).1.1 ∧
  (length (bal_stable_scan bpt i_in i_out scaling balances i scaled si so).1.1
   ≤ length scaled + length balances)%nat.
Proof.
  intros HQ. induction balances as [|b balances IH]; intros i scaled si so Hs;
    cbn [bal_stable_scan fst length]; [split; [done|lia]|].
  destruct (bool_decide _).
  - destruct (IH (S i) scaled si so Hs) as [? ?]. split; [done|lia].
  - destruct (IH (S i) (scaled ++ [(b *% at_ scaling i) / ONE])
      (if (i =? i_in)%nat then Some (length scaled) else si)
      (if (i =? i_out)%nat then Some (length scaled) else so)) as [? Hl].
    { apply Forall_app; split; [done|by constructor]. }
    split; [done|]. rewrite length_app in Hl. simpl in Hl. lia.
Qed.

(** Scaled balances are quotients by 10^18: with at most [2^32] tokens no
    product [b * num_tokens] wraps. *)
Lemma scaled_balance_small b s n : 0 ≤ n < 2 ^ 32 →
  0 ≤ (b *% s) / ONE ∧ (b *% s) / ONE * n < M256.
Proof.
  intros Hn. destruct (wmul_range b s) as [? Hlt].
  assert (0 ≤ (b *% s) / ONE) by (apply Z.div_pos; done).
  assert ((b *% s) / ONE < 2 ^ 200).
  { apply Z.div_lt_upper_bound; [done|]. assert (M256 ≤ ONE * 2 ^ 200) by (vm_compute; discriminate). lia. }
  split; [done|]. assert (2 ^ 200 * 2 ^ 32 < M256) by (vm_compute; reflexivity). nia.
Qed.

Lemma bal_stable_scan_ok bpt i j scaling balances scaled si so :
  bal_stable_scan bpt i j scaling balances 0 [] None None = (scaled, si, so) →
  Z.of_nat (length balances) < 2 ^ 32 →
  Forall (λ b, 0 ≤ b ∧ b * Z.of_nat (length scaled) < M256) scaled.
Proof.
  intros Hscan Hlen.
  assert (length scaled ≤ length balances)%nat as Hl.
  { pose proof (bal_stable_scan_forall (λ _, True) bpt i j scaling balances (λ _ _, I)
      0%nat [] None None (Forall_nil_2 _)) as [_ Hl]. by rewrite Hscan in Hl. }
  pose proof (bal_stable_scan_forall (λ b, 0 ≤ b ∧ b * Z.of_nat (length scaled) < M256)
    bpt i j scaling balances (λ b s, scaled_balance_small b s (Z.of_nat (length scaled)) ltac:(lia))
    0%nat [] None None (Forall_nil_2 _)) as [Hok _]. by rewrite Hscan in Hok.
Qed.

Lemma get_balancer_stable_amount_out_total state amount_in i j :
  Z.of_nat (length (bl_balances state)) < 2 ^ 32 →
  ∃ r, get_balancer_stable_amount_out state amount_in i j = Done r ∧
       (r = 0 ∨ r ≤ at_ (bl_balances state) j).
Proof.
  intros Hlen. unfold get_balancer_stable_amount_out.
  generalize (if is_zero (bl_amp_precision state) then DEFAULT_AMP_PRECISION
              else bl_amp_precision state). intros P.
  destruct (negb _); [eauto|]. destruct (_ || _)%bool; [eauto|]. destruct (_ || _)%bool; [eauto|].
  destruct (bal_stable_scan _ _ _ _ _ _ _ _ _) as [[scaled si] so] eqn:Hscan.
  apply bal_stable_scan_ok in Hscan as Hok; [|done].
  destruct si as [si|]; [|eauto]. destruct so as [so|]; [|eauto].
  destruct (existsb _ _); [eauto|]. destruct (_ || _)%bool; [eauto|].
  destruct (exceeds_balancer_max_in_ratio _ _); [eauto|]. destruct (is_zero _); [eauto|].
  edestruct (calculate_balancer_stable_invariant_total (bl_amp state) scaled P) as [D HD]; [exact Hok|].
  rewrite HD. cbn [obind]. destruct (is_zero D); [eauto|].
  destruct (_ || _)%bool; [eauto|]. destruct (is_zero _); [eauto|].
  destruct (_ || _)%bool eqn:E; [eauto|]. zbool. eauto.
Qed.

Lemma get_balancer_weighted_amount_out_le state amount_in i j :
  let r := get_balancer_weighted_amount_out state amount_in i j in
  r = 0 ∨ r ≤ at_ (bl_balances state) j.
Proof.
  cbn zeta. unfold get_balancer_weighted_amount_out.
  repeat (case_goal; [by left|]). repeat (case_goal; try by left).
  all: zbool; by right.
Qed.

Lemma get_balancer_linear_amount_out_le state amount_in i j :
  let r := get_balancer_linear_amount_out state amount_in i j in
  r = 0 ∨ r ≤ at_ (bl_balances state) j.
Proof.
  cbn zeta. unfold get_balancer_linear_amount_out.
  destruct (bl_linear state); [|by left]. destruct (_ || _)%bool; [by left|].
  destruct (exceeds_balancer_max_in_ratio _ _); [by left|].
  repeat (case_goal; try by left). all: zbool; by right.
Qed.

(** ** The stable solver stays above the curve *)

Section stable_newton.
(** The coefficients of [y^2 + (b - D) y = c] and a starting point [y0] from
    which no operator of the loop wraps. *)
Context (b c D y0 : Z).
Context (Hb : 0 ≤ b) (Hc : 0 < c) (HD : 0 < D).
Context (Hroom : y0 * y0 + c < M256) (Hroom2 : 2 * y0 + b < M256).

Definition on_or_above (y : Z) : Prop := 0 < y ≤ y0 ∧ c ≤ y * y + (b - D) * y.

Lemma div_rounding_up_or_zero_eq x d :
  u256 x → u256 d → d ≠ 0 → div_rounding_up_or_zero x d = cdiv x d.
Proof using.
  intros Hx Hd ?. unfold div_rounding_up_or_zero. rewrite div_rounding_up_spec by done.
  by destruct (Z.eqb_spec d 0).
Qed.

Lemma bal_newton_above fuel : ∀ y, on_or_above y →
  on_or_above (bal_newton fuel b c D y).
Proof using All.
  induction fuel as [|fuel IH]; intros y Hy; cbn [bal_newton]; [done|].
  destruct Hy as [[Hy0 Hy1] Hcurve].
  destruct (newton_descends (b - D) c y Hy0 Hc Hcurve) as [Hder Hstep].
  rewrite (wmul_small 2 y), (wadd_small (2 * y) b), wsub_small by lia.
  unfold is_zero. destruct (Z.eqb_spec (2 * y + b - D) 0); [lia|].
  assert (y * y ≤ y0 * y0) by nia.
  rewrite (wmul_small y y), (wadd_small (y * y) c) by lia.
  rewrite div_rounding_up_or_zero_eq by (unfold u256; lia).
  set (q := cdiv (y * y + c) (2 * y + b - D)).
  assert (y * y + c ≤ q * (2 * y + b - D)) as Hq by (apply cdiv_mul_ge; lia).
  assert (q ≤ y) by (apply cdiv_le_iff; [lia|]; lia).
  assert (0 < q) by (apply lt_cdiv_iff; nia).
  assert (on_or_above q) as Habove.
  { split; [lia|]. apply (newton_above _ _ y). by replace (2 * y + (b - D)) with (2 * y + b - D) by lia. }
  destruct (_ <=? 1); [done|]. by apply IH.
Qed.

End stable_newton.

(** No operator wraps while the solver runs on these coefficients. *)
Definition stable_room (c b D : Z) : Prop :=
  let y0 := cdiv (D * D + c) (D + b) in
  D * D + c < M256 ∧ D + b < M256 ∧ y0 * y0 + c < M256 ∧ 2 * y0 + b < M256.

Lemma bal_quadratic_range amp balances D j P c b :
  bal_quadratic amp balances D j P = Some (c, b) → u256 D → 0 < D ∧ u256 c ∧ u256 b.
Proof.
  intros H HD. unfold bal_quadratic, is_zero in H.
  destruct (_ || _)%bool eqn:E in H; [done|]. zbool.
  destruct (bal_p_d _ _ _ _ _) as [[p_d sum]|]; [|done].
  destruct (_ || _)%bool in H; [done|]. simplify_eq. split_and!.
  - unfold u256 in HD. lia.
  - unfold div_rounding_up_or_zero. rewrite div_rounding_up_spec by eauto with u256.
    destruct (Z.eqb_spec (amp *% Z.of_nat (length balances) *% p_d) 0); [done|].
    simpl. set (x := _ *% at_ _ _). set (d := _ *% p_d) in *.
    destruct (wmul_range (D *% D *% P) (at_ balances j)) as [Hx0 Hx1]. fold x in Hx0, Hx1.
    destruct (wmul_range (amp *% Z.of_nat (length balances)) p_d) as [Hd0 Hd1]. fold d in Hd0, Hd1.
    split; [apply cdiv_nonneg; lia|]. apply (Z.le_lt_trans _ x); [|done].
    apply cdiv_le_iff; [lia|]. nia.
  - apply wadd_range.
Qed.

(** ** Linear pools: monotonicity and the nominal round trip *)

Section linear.
Context (fee lower upper : Z) (Hfee : 0 ≤ fee < ONE).
Context (Hlower : u256 lower) (Hupper : u256 upper) (Hlu : lower ≤ upper).

Lemma mul_down_fee x : u256 x → mul_down x fee = x * fee / ONE ∧ 0 ≤ x * fee / ONE ≤ x.
Proof using Hfee.
  intros Hx. destruct (mul_down_le x fee Hx ltac:(lia)) as [-> ?]. done.
Qed.

(** The nominal value: a penalty below the band, a fee above it. *)
Lemma linear_to_nominal_spec r n :
  u256 r → linear_to_nominal r fee lower upper = Some n →
  n = r - Z.max 0 (lower - r) * fee / ONE - Z.max 0 (r - upper) * fee / ONE ∧ 0 ≤ n ≤ r.
Proof using All.
  intros Hr. unfold linear_to_nominal, u256 in *.
  destruct (Z.ltb_spec r lower); [|destruct (Z.leb_spec r upper)].
  - rewrite wsub_small by lia. destruct (mul_down_fee (lower - r)) as [-> ?]; [unfold u256; lia|].
    unfold checked_sub. destruct (Z.leb_spec ((lower - r) * fee / ONE) r); intros [= <-].
    rewrite Z.max_r, (Z.max_l 0 (r - upper)) by lia. rewrite Z.mul_0_l, Z.div_0_l by done. lia.
  - intros [= <-]. rewrite (Z.max_l 0 (lower - r)), (Z.max_l 0 (r - upper)) by lia.
    rewrite Z.mul_0_l, Z.div_0_l by done. lia.
  - rewrite wsub_small by lia. destruct (mul_down_fee (r - upper)) as [-> ?]; [unfold u256; lia|].
    unfold checked_sub. destruct (Z.leb_spec ((r - upper) * fee / ONE) r); intros [= <-].
    rewrite (Z.max_l 0 (lower - r)), Z.max_r by lia. rewrite Z.mul_0_l, Z.div_0_l by done. lia.
Qed.

Lemma linear_to_nominal_mono r1 r2 n1 n2 :
  u256 r1 → u256 r2 → r1 ≤ r2 →
  linear_to_nominal r1 fee lower upper = Some n1 →
  linear_to_nominal r2 fee lower upper = Some n2 → n1 ≤ n2.
Proof using All.
  intros Hr1 Hr2 Hle H1 H2.
  apply linear_to_nominal_spec in H1 as [-> _], H2 as [-> _]; [|done..].
  assert (Z.max 0 (lower - r2) * fee / ONE ≤ Z.max 0 (lower - r1) * fee / ONE).
  { apply Z.div_le_mono; [done|]. apply Z.mul_le_mono_nonneg_r; lia. }
  assert (Z.max 0 (r2 - upper) * fee / ONE ≤ Z.max 0 (r1 - upper) * fee / ONE + (r2 - r1)).
  { rewrite <- Z.div_add by done. apply Z.div_le_mono; [done|]. nia. }
  lia.
Qed.

End linear.

Lemma mul_down_comm a b : mul_down a b = mul_down b a.
Proof. unfold mul_down, checked_mul, wmul512. by rewrite (Z.mul_comm a b). Qed.

Lemma scaled_room a r u :
  0 ≤ a ≤ r + u → r * (2 * ONE) < M256 → u * (2 * ONE) < M256 → 0 ≤ a * ONE < M256.
Proof. unfold ONE. lia. Qed.

(** The rounding of the two fee terms, below and above the target band. *)
Lemma nominal_below_bounds r lower fee :
  0 ≤ fee →
  let shifted := r - (lower - r) * fee / ONE + lower * fee / ONE in
  r - 1 ≤ shifted * ONE / (ONE + fee) ≤ r.
Proof.
  intros Hf. cbn zeta. assert (0 < ONE) by done.
  pose proof (div_mul_le ((lower - r) * fee) ONE ltac:(done)).
  pose proof (div_mul_gt ((lower - r) * fee) ONE ltac:(done)).
  pose proof (div_mul_le (lower * fee) ONE ltac:(done)).
  pose proof (div_mul_gt (lower * fee) ONE ltac:(done)).
  split; [apply div_lower; lia|]. apply Z.lt_succ_r, div_upper; lia.
Qed.

Lemma nominal_above_bounds r upper fee :
  0 ≤ fee < ONE →
  let shifted := r - (r - upper) * fee / ONE - upper * fee / ONE in
  let r' := shifted * ONE / (ONE - fee) in
  r ≤ r' ∧ (r' - r) * (ONE - fee) ≤ 2 * ONE.
Proof.
  intros Hf. cbn zeta. assert (0 < ONE) by done.
  pose proof (div_mul_le ((r - upper) * fee) ONE ltac:(done)).
  pose proof (div_mul_gt ((r - upper) * fee) ONE ltac:(done)).
  pose proof (div_mul_le (upper * fee) ONE ltac:(done)).
  pose proof (div_mul_gt (upper * fee) ONE ltac:(done)).
  split; [apply div_lower; lia|].
  pose proof (div_mul_le ((r - (r - upper) * fee / ONE - upper * fee / ONE) * ONE) (ONE - fee) ltac:(lia)).
  lia.
Qed.

(** ** Properties *)

(** No balancer quote panics (every division of the three pool families has
    a non-zero divisor) and no quote exceeds the vault balance of the output
    token. *)
Lemma simulate_balancer_swap_safe (state : BalancerPoolState) (amount_in : Z) (i j : nat) :
  Z.of_nat (length (bl_balances state)) < 2 ^ 32 →
  ∃ r, simulate_balancer_swap state amount_in i j = Done r ∧
       (r = 0 ∨ r ≤ at_ (bl_balances state) j).
Proof.
  intros Hlen. unfold simulate_balancer_swap.
  destruct (_ || _)%bool; [eauto|]. destruct (_ || _)%bool; [eauto|].
  destruct (bl_pool_type state).
  - eexists. split; [done|]. apply get_balancer_weighted_amount_out_le.
  - by apply get_balancer_stable_amount_out_total.
  - eexists. split; [done|]. apply get_balancer_linear_amount_out_le.
Qed.

Definition demo_stable : BalancerPoolState :=
  {| bl_pool_id := None; bl_tokens := []; bl_balances := [5 * ONE; 3 * ONE; 7 * ONE];
     bl_weights := []; bl_scaling_factors := [ONE; ONE; ONE]; bl_amp := 5000;
     bl_amp_precision := 1000; bl_fee := 0; bl_pool_type := Stable; bl_linear := None;
     bl_bpt_index := Some 2%nat; bl_is_updating := false; bl_last_change_block := 0 |}.

Lemma simulate_balancer_swap_safe_witness :
  ∃ r, simulate_balancer_swap demo_stable (ONE / 10) 0 1 = Done r ∧
       (r = 0 ∨ r ≤ at_ (bl_balances demo_stable) 1).
Proof. apply simulate_balancer_swap_safe. vm_compute. reflexivity. Defined.

(** The balance the stable solver returns is never below the StableSwap
    curve for the coefficients it computed, whatever number of iterations ran:
    the quote cannot take more out of the pool than the invariant allows.  Every
    iterate stays below the starting point, so nothing wraps. *)
Theorem token_balance_on_or_above_curve (amp : Z) (balances : list Z) (D : Z) (j : nat) (P c b : Z) :
  u256 D → bal_quadratic amp balances D j P = Some (c, b) → 0 < c → stable_room c b D →
  let y := token_balance_given_invariant amp balances D j P in
  0 < y ≤ cdiv (D * D + c) (D + b) ∧ c ≤ y * y + (b - D) * y.
Proof.
  intros HD Hq Hc (Hr1 & Hr2 & Hr3 & Hr4). cbn zeta.
  destruct (bal_quadratic_range _ _ _ _ _ _ _ Hq HD) as (HD0 & Hcr & Hbr).
  unfold token_balance_given_invariant. rewrite Hq. unfold u256 in *.
  rewrite (wmul_small D D), (wadd_small (D * D) c), (wadd_small D b) by nia.
  rewrite div_rounding_up_or_zero_eq by (unfold u256; nia).
  set (y0 := cdiv (D * D + c) (D + b)) in *.
  apply bal_newton_above; try lia. split.
  - split; [|lia]. apply lt_cdiv_iff; nia.
  - apply (newton_above _ _ D). replace (2 * D + (b - D)) with (D + b) by lia.
    apply cdiv_mul_ge. lia.
Qed.

Lemma token_balance_on_or_above_curve_witness :
  let y := token_balance_given_invariant 5000 [51 * ONE / 10; 3 * ONE] 7956221429490078342 1 1000 in
  let c := 2468825627820380857197788088005998727 in
  let b := 5895622142949007834 in
  let D := 7956221429490078342 in
  0 < y ≤ cdiv (D * D + c) (D + b) ∧ c ≤ y * y + (b - D) * y.
Proof.
  apply token_balance_on_or_above_curve.
  - split; vm_compute; (discriminate || reflexivity).
  - vm_compute. reflexivity.
  - vm_compute. reflexivity.
  - unfold stable_room. split_and!; vm_compute; reflexivity.
Defined.

(** In a linear pool the main balance recovered from its own nominal value
    is exact in the target band, at most one unit low below it, and never low
    above it, where the excess is bounded by the fee's rounding. *)
Theorem linear_nominal_roundtrip (fee lower upper r n r' : Z) :
  0 ≤ fee < ONE → 0 ≤ lower ≤ upper → u256 upper → u256 r → r * (2 * ONE) < M256 →
  upper * (2 * ONE) < M256 →
  linear_to_nominal r fee lower upper = Some n →
  linear_from_nominal n fee lower upper = Some r' →
  (lower ≤ r ≤ upper → r' = r) ∧ (r < lower → r - 1 ≤ r' ≤ r) ∧
  (upper < r → r ≤ r' ∧ (r' - r) * (ONE - fee) ≤ 2 * ONE).
Proof.
  intros Hfee Hlu Hu Hr Hroom Hroomu Hto Hfrom. assert (0 < ONE) by done.
  assert (u256 lower) by (unfold u256 in *; lia).
  apply linear_to_nominal_spec in Hto as [Hn Hnr]; [|done || lia..].
  destruct (mul_down_fee fee Hfee lower) as [El Hl]; [done|].
  destruct (mul_down_fee fee Hfee upper) as [Eu Hux]; [done|].
  revert Hfrom. unfold linear_from_nominal, checked_add, checked_sub, checked_div.
  rewrite !(mul_down_comm fee), El, Eu. unfold u256 in *.
  destruct (Z.lt_ge_cases r lower) as [Hrl|Hrl]; [|destruct (Z.le_gt_cases r upper) as [Hru|Hru]].
  - pose proof (nominal_below_bounds r lower fee ltac:(lia)) as Hb.
    rewrite Z.max_r, (Z.max_l 0 (r - upper)), Z.mul_0_l, Z.div_0_l, Z.sub_0_r in Hn by lia.
    destruct (Z.ltb_spec n lower); [|lia].
    destruct (Z.ltb_spec (ONE + fee) M256); [|done].
    destruct (Z.ltb_spec (n + lower * fee / ONE) M256); [|done].
    destruct (Z.eqb_spec (ONE + fee) 0); [done|]. intros [= <-].
    rewrite wmul_small by (apply (scaled_room _ r upper); lia). rewrite Hn. cbn zeta in Hb. lia.
  - rewrite (Z.max_l 0 (lower - r)), (Z.max_l 0 (r - upper)), Z.mul_0_l, Z.div_0_l in Hn by lia.
    destruct (Z.ltb_spec n lower); [lia|]. destruct (Z.leb_spec n upper); [|lia].
    intros [= <-]. lia.
  - pose proof (nominal_above_bounds r upper fee ltac:(lia)) as Hb.
    rewrite (Z.max_l 0 (lower - r)), Z.max_r, Z.mul_0_l, Z.div_0_l, Z.sub_0_r in Hn by lia.
    destruct (mul_down_fee fee Hfee (r - upper)) as [_ Hd]; [unfold u256; lia|].
    assert ((r - upper) * fee / ONE < r - upper) by (apply div_upper; nia).
    destruct (Z.ltb_spec n lower); [lia|]. destruct (Z.leb_spec n upper); [lia|].
    destruct (Z.leb_spec fee ONE); [|lia].
    destruct (Z.leb_spec (upper * fee / ONE) n); [|done].
    destruct (Z.eqb_spec (ONE - fee) 0); [done|]. intros [= <-].
    rewrite wmul_small by (apply (scaled_room _ r upper); lia). rewrite Hn. cbn zeta in Hb. lia.
Qed.

Lemma linear_nominal_roundtrip_witness :
  let r := 40 * ONE in let r' := 40 * ONE in
  (50 * ONE ≤ r ≤ 150 * ONE → r' = r) ∧ (r < 50 * ONE → r - 1 ≤ r' ≤ r) ∧
  (150 * ONE < r → r ≤ r' ∧ (r' - r) * (ONE - 300000000000000007) ≤ 2 * ONE).
Proof.
  apply (linear_nominal_roundtrip 300000000000000007 (50 * ONE) (150 * ONE) (40 * ONE)
    36999999999999999930); vm_compute; try (split; (discriminate || reflexivity)); reflexivity.
Defined.

(** For main tokens in, a linear pool pays exactly the wrapped value of the
    increase of its nominal balance; the increase is never negative, so the
    unchecked subtraction of the code does not wrap. *)
Theorem linear_main_in_exact (linear : BalancerLinearState) (fee main_balance scaled_in out : Z) :
  0 ≤ fee < ONE → 0 ≤ ln_lower_target linear ≤ ln_upper_target linear →
  u256 (ln_upper_target linear) → 0 ≤ main_balance → 0 ≤ scaled_in →
  (main_balance + scaled_in) * ONE < M256 →
  linear_main_in linear fee main_balance scaled_in = Some out →
  ∃ before after,
    linear_to_nominal main_balance fee (ln_lower_target linear) (ln_upper_target linear) = Some before ∧
    linear_to_nominal (main_balance + scaled_in) fee (ln_lower_target linear)
      (ln_upper_target linear) = Some after ∧
    0 ≤ before ≤ after ∧ out = (after - before) * ONE / ln_wrapped_rate linear.
Proof.
  intros Hfee Hlu Hu Hm Hs Hroom. unfold linear_main_in, checked_add.
  set (lo := ln_lower_target linear) in *. set (hi := ln_upper_target linear) in *.
  assert (u256 lo) as Hl by (unfold u256 in *; lia). assert (lo ≤ hi) as Hlh by lia.
  assert (main_balance + scaled_in < M256) by (unfold ONE in *; lia).
  destruct (linear_to_nominal main_balance _ _ _) as [before|] eqn:E1; [|done].
  destruct (Z.ltb_spec (main_balance + scaled_in) M256); [|lia].
  destruct (linear_to_nominal (main_balance + scaled_in) _ _ _) as [after|] eqn:E2; [|done].
  intros [= <-]. exists before, after.
  assert (u256 main_balance ∧ u256 (main_balance + scaled_in)) as [Hu1 Hu2] by (unfold u256; lia).
  pose proof (linear_to_nominal_mono fee lo hi Hfee Hl Hu Hlh _ _ _ _ Hu1 Hu2
    ltac:(lia) E1 E2).
  pose proof (linear_to_nominal_spec fee lo hi Hfee Hl Hu Hlh _ _ Hu1 E1) as [_ ?].
  pose proof (linear_to_nominal_spec fee lo hi Hfee Hl Hu Hlh _ _ Hu2 E2) as [_ ?].
  split_and!; try done; try lia.
  rewrite wsub_small by lia. rewrite wmul_small; [done|]. unfold ONE in *. lia.
Qed.

Lemma linear_main_in_exact_witness :
  let linear := {| ln_main_index := 0; ln_wrapped_index := 1; ln_lower_target := 50 * ONE;
                   ln_upper_target := 150 * ONE; ln_wrapped_rate := 2 * ONE |} in
  ∃ before after,
    linear_to_nominal (200 * ONE) (ONE / 10) (50 * ONE) (150 * ONE) = Some before ∧
    linear_to_nominal (200 * ONE + 10 * ONE) (ONE / 10) (50 * ONE) (150 * ONE) = Some after ∧
    0 ≤ before ≤ after ∧ 45 * ONE / 10 = (after - before) * ONE / (2 * ONE).
Proof.
  cbn zeta.
  apply (linear_main_in_exact {| ln_main_index := 0; ln_wrapped_index := 1;
    ln_lower_target := 50 * ONE; ln_upper_target := 150 * ONE; ln_wrapped_rate := 2 * ONE |});
    vm_compute; try (split; (discriminate || reflexivity)); (discriminate || reflexivity).
Defined.
