(* ===== verification/Curve.v ===== *)
(** * Curve StableSwap pools

    [src/src/core/math/curve.rs]: the invariant and [get_y] Newton solvers, the
    static and dynamic fees and the buffered quote.  [get_y] divides by
    [ann * n], which its guard ([ann ≠ 0]) does not cover when the product wraps,
    so it returns an [outcome]. *)
From S2P Require Import Prelude Word MulDiv Types.

Definition CURVE_FEE_DENOMINATOR : Z := from_limbs 10000000000 0 0 0.
Definition A_PRECISION : Z := from_limbs 100 0 0 0.
Definition CURVE_MAX_ITERATIONS : nat := 128.
Definition CURVE_OUTPUT_BUFFER : Z := from_limbs 5000000 0 0 0.
Definition DEFAULT_OFFPEG_FEE_MULTIPLIER : Z := from_limbs 20000000000 0 0 0.

Definition curve_fee_bps_from_pool (fee : Z) : option Z :=
  if (is_zero fee || (CURVE_FEE_DENOMINATOR <=? fee))%bool then None
  else
    let bps := (fee *% 10000) / CURVE_FEE_DENOMINATOR in
    Some (Z.min bps 9999).

Definition dynamic_fee (xpi xpj fee offpeg_mult : Z) : Z :=
  if ((offpeg_mult <=? CURVE_FEE_DENOMINATOR) || is_zero xpi || is_zero xpj)%bool then fee
  else
    let sum := xpi +% xpj in
    let xps2 := saturating_mul sum sum in
    if is_zero xps2 then fee
    else
      let numerator := saturating_mul offpeg_mult fee in
      let prod := saturating_mul (saturating_mul xpi xpj) 4 in
      let imbalance := saturating_mul (offpeg_mult -% CURVE_FEE_DENOMINATOR) prod / xps2 in
      let denom := saturating_add imbalance CURVE_FEE_DENOMINATOR in
      if is_zero denom then fee else numerator / denom.

(** ** The invariant *)

(** [for x in xp { let xn = x * n; if xn.is_zero() { return None } .. }]. *)
Fixpoint d_p_loop (xp : list Z) (n d d_p : Z) : option Z :=
  match xp with
  | [] => Some d_p
  | x :: xp =>
      let xn := x *% n in
      if is_zero xn then None else d_p_loop xp n d ((d_p *% d) / xn)
  end.

Fixpoint get_d_loop (fuel : nat) (xp : list Z) (n ann_s ann_minus_p n_plus_1 d : Z) : option Z :=
  match fuel with
  | O => Some d
  | S fuel =>
      let? d_p := d_p_loop xp n d d in
      let d_prev := d in
      let? t := checked_mul ann_minus_p d in
      let ann_term := t / A_PRECISION in
      let? hop_term := checked_mul n_plus_1 d_p in
      let? denominator := checked_add ann_term hop_term in
      if is_zero denominator then None
      else
        let d := ((ann_s +% d_p *% n) *% d) / denominator in
        let diff := if d_prev <? d then d -% d_prev else d_prev -% d in
        if diff <=? 1 then Some d
        else get_d_loop fuel xp n ann_s ann_minus_p n_plus_1 d
  end.

(** [xp.iter().copied().sum()]: wrapping. *)
Definition wsum (xp : list Z) : Z := fold_left wadd xp 0.

Definition get_d (xp : list Z) (a : Z) : option Z :=
  if (is_zero a || (length xp <? 2)%nat || existsb is_zero xp)%bool then None
  else
    let n := Z.of_nat (length xp) in
    let s := wsum xp in
    if is_zero s then Some 0
    else
      let ann := a *% n in
      if ann <=? A_PRECISION then None
      else
        let ann_s := (ann *% s) / A_PRECISION in
        let ann_minus_p := ann -% A_PRECISION in
        let n_plus_1 := n +% 1 in
        get_d_loop CURVE_MAX_ITERATIONS xp n ann_s ann_minus_p n_plus_1 s.

(** ** The output balance *)

(** The loop over the other balances: the running [s_] and [c]. *)
Fixpoint y_terms (xp : list Z) (k i j : nat) (x n d s_ c : Z) : option (Z * Z) :=
  match xp with
  | [] => Some (s_, c)
  | xk :: xp =>
      if (k =? j)%nat then y_terms xp (S k) i j x n d s_ c
      else
        let val := if (k =? i)%nat then x else xk in
        let s_ := s_ +% val in
        let vn := val *% n in
        if is_zero vn then None
        else y_terms xp (S k) i j x n d s_ ((c *% d) / vn)
  end.

Fixpoint y_newton (fuel : nat) (b c d y : Z) : option Z :=
  match fuel with
  | O => Some y
  | S fuel =>
      let y_prev := y in
      let denominator := saturating_sub (2 *% y +% b) d in
      if is_zero denominator then None
      else
        let y := (y *% y +% c) / denominator in
        let diff := if y_prev <? y then y -% y_prev else y_prev -% y in
        if diff <=? 1 then Some y else y_newton fuel b c d y
  end.

(** The coefficients [c] and [b] of the quadratic for the output balance. *)
Definition y_quadratic (x : Z) (i j : nat) (xp : list Z) (a d : Z) : outcome (option (Z * Z)) :=
  let n := Z.of_nat (length xp) in
  let ann := a *% n in
  if (is_zero ann || is_zero d)%bool then Done None
  else match y_terms xp 0 i j x n d 0 d with
  | None => Done None
  | Some (s_, c) =>
      let! c := pdiv (c *% d *% A_PRECISION) (ann *% n) in
      let b := s_ +% (d *% A_PRECISION) / ann in
      Done (Some (c, b))
  end.

Definition get_y (x : Z) (i j : nat) (xp : list Z) (a d : Z) : outcome (option Z) :=
  let! q := y_quadratic x i j xp a d in
  match q with
  | None => Done None
  | Some (c, b) => Done (y_newton CURVE_MAX_ITERATIONS b c d d)
  end.

Definition to_xp (balances rates : list Z) : option (list Z) :=
  if (negb (length rates =? 0)%nat && negb (length rates =? length balances)%nat)%bool then None
  else if (length rates =? 0)%nat then Some balances
  else Some (zip_with (λ balance rate, (balance *% rate) / ONE) balances rates).

Definition curve_stable_cache_d (balances rates : list Z) (a : Z) : option Z :=
  let? xp := to_xp balances rates in get_d xp a.

(** ** The quote *)

Inductive CurveStableReject :=
| ZeroAmount | InvalidIndices | FeeTooHigh | Xp | DInvariant | Y | ZeroOut.

Definition nonzero (d : option Z) : option Z :=
  match d with Some d => if is_zero d then None else Some d | None => None end.

Definition curve_swap_fee (state : CurvePoolState) (xp_in xp_out x y : Z) : outcome Z :=
  let n_coins := Z.of_nat (length (cv_balances state)) in
  match cv_offpeg_fee_multiplier state with
  | Some offpeg =>
      let xpi_avg := (xp_in +% x) / 2 in
      let xpj_avg := (xp_out +% y) / 2 in
      Done (dynamic_fee xpi_avg xpj_avg (cv_fee state) offpeg)
  | None =>
      let static_fee := cv_fee state *% n_coins in
      pdiv static_fee (4 *% (n_coins -% 1))
  end.

Definition try_curve_stable_amount_out
    (state : CurvePoolState) (amount_in : Z) (token_in_idx token_out_idx : nat)
  : outcome (CurveStableReject + Z) :=
  let balances := cv_balances state in
  let rates := cv_rates state in
  if is_zero amount_in then Done (inl ZeroAmount)
  else if (is_zero (cv_a state) || (token_in_idx =? token_out_idx)%nat
           || (length balances <=? token_in_idx)%nat
           || (length balances <=? token_out_idx)%nat)%bool then Done (inl InvalidIndices)
  else if CURVE_FEE_DENOMINATOR <=? cv_fee state then Done (inl FeeTooHigh)
  else
  let_some xp := to_xp balances rates or Done (inl Xp) in
  let_some d := nonzero (match nonzero (cv_d state) with Some d => Some d | None => get_d xp (cv_a state) end)
    or Done (inl DInvariant) in
  let xp_in := nth token_in_idx xp 0 in
  let xp_out := nth token_out_idx xp 0 in
  let in_rate := default ONE (rates !! token_in_idx) in
  let x := xp_in +% (amount_in *% in_rate) / ONE in
  let! oy := get_y x token_in_idx token_out_idx xp (cv_a state) d in
  let_some y := oy or Done (inl Y) in
  let dy := saturating_sub (saturating_sub xp_out y) 1 in
  if is_zero dy then Done (inl ZeroOut)
  else
  let! fee := curve_swap_fee state xp_in xp_out x y in
  let fee_amount := (dy *% fee) / CURVE_FEE_DENOMINATOR in
  let dy_after_fee := saturating_sub dy fee_amount in
  let dy_buffered :=
    saturating_sub dy_after_fee ((dy_after_fee *% CURVE_OUTPUT_BUFFER) / CURVE_FEE_DENOMINATOR) in
  if is_zero dy_buffered then Done (inl ZeroOut)
  else
  let out_rate := default ONE (rates !! token_out_idx) in
  if is_zero out_rate then Done (inl ZeroOut)
  else Done (inr ((dy_buffered *% ONE) / out_rate)).

Definition get_curve_stable_amount_out
    (state : CurvePoolState) (amount_in : Z) (token_in_idx token_out_idx : nat) : outcome Z :=
  let! r := try_curve_stable_amount_out state amount_in token_in_idx token_out_idx in
  Done match r with inr out => out | inl _ => 0 end.

(** ** The solver stays within one unit of the curve *)

Section y_newton.
(** The coefficients of [y^2 + (b - d) y = c] and a bound on every iterate. *)
Context (b c d bound : Z).
Context (Hb : 0 ≤ b) (Hc : 0 ≤ c) (Hd : 0 < d).
Context (Hroom : bound * bound + c < M256) (Hroom2 : 2 * bound + b < M256).

(** [y] is less than one unit below the positive root. *)
Definition near_curve (y : Z) : Prop := c < (y + 1) * (y + 1) + (b - d) * (y + 1).

Lemma y_newton_unfold fuel y :
  0 ≤ y ≤ bound →
  y_newton (S fuel) b c d y =
  (if 2 * y + b - d <=? 0 then None
   else let q := (y * y + c) / (2 * y + b - d) in
        if abs_diff q y <=? 1 then Some q else y_newton fuel b c d q).
Proof using All.
  intros Hy. cbn [y_newton]. assert (y * y ≤ bound * bound) by nia.
  rewrite (wmul_small 2 y), wadd_small, (wmul_small y y), wadd_small by lia.
  unfold saturating_sub, is_zero.
  destruct (Z.leb_spec (2 * y + b - d) 0).
  { rewrite Z.max_l by lia. done. }
  rewrite Z.max_r by lia. destruct (Z.eqb_spec (2 * y + b - d) 0); [lia|]. cbn zeta.
  set (q := (y * y + c) / (2 * y + b - d)).
  assert (0 ≤ q < M256) as Hq.
  { split; [apply Z.div_pos; nia|]. apply div_upper; [lia|]. nia. }
  assert (0 ≤ y < M256) by nia. unfold abs_diff.
  destruct (Z.ltb_spec y q); rewrite wsub_small by lia.
  - by rewrite Z.abs_eq by lia.
  - rewrite Z.abs_neq by lia. by replace (- (q - y)) with (y - q) by lia.
Qed.

Lemma y_step_near y q : 0 < 2 * y + b - d → q = (y * y + c) / (2 * y + b - d) → near_curve q.
Proof using.
  intros Hpos ->. unfold near_curve.
  pose proof (div_mul_gt (y * y + c) (2 * y + b - d) Hpos).
  enough (c + 1 ≤ ((y * y + c) / (2 * y + b - d) + 1) * ((y * y + c) / (2 * y + b - d) + 1)
          + (b - d) * ((y * y + c) / (2 * y + b - d) + 1)) by lia.
  apply (newton_above _ _ y). replace (2 * y + (b - d)) with (2 * y + b - d) by lia. lia.
Qed.

Lemma y_newton_near fuel : ∀ y r,
  0 ≤ y ≤ bound → near_curve y → y_newton fuel b c d y = Some r →
  0 ≤ r ≤ bound + 1 ∧ near_curve r.
Proof using All.
  induction fuel as [|fuel IH]; intros y r Hy Hnear; [intros [= <-]; split; [lia|done]|].
  rewrite y_newton_unfold by done.
  destruct (Z.leb_spec (2 * y + b - d) 0) as [|Hpos]; [done|]. cbn zeta.
  set (q := (y * y + c) / (2 * y + b - d)) in *.
  assert (near_curve q) by (by apply (y_step_near y)).
  assert (0 ≤ q) by (apply Z.div_pos; nia).
  assert (q ≤ y + 1).
  { unfold near_curve in Hnear. apply Z.lt_succ_r, div_upper; [lia|]. nia. }
  destruct (Z.leb_spec (abs_diff q y) 1) as [|Hfar]; [intros [= <-]; split; [lia|done]|].
  unfold abs_diff in Hfar. apply IH; [lia|done].
Qed.

End y_newton.

(** No operator wraps while the solver runs on these coefficients. *)
Definition curve_room (c b d : Z) : Prop :=
  let bound := Z.max d ((d * d + c) / (d + b)) in
  bound * bound + c < M256 ∧ 2 * bound + b < M256.

Lemma y_terms_range xp : ∀ k i j x n d s_ c r,
  u256 s_ → u256 c → 0 ≤ n → y_terms xp k i j x n d s_ c = Some r → u256 r.1 ∧ u256 r.2.
Proof.
  induction xp as [|xk xp IH]; intros k i j x n d s_ c r Hs Hc Hn; cbn [y_terms].
  { intros [= <-]. done. }
  destruct (k =? j)%nat; [by apply IH|]. unfold is_zero.
  destruct (_ =? 0) eqn:E; [done|]. apply IH; [apply wadd_range| |done].
  apply div_range; [apply wmul_range|]. by destruct (wmul_range (if (k =? i)%nat then x else xk) n).
Qed.

Lemma y_quadratic_range x i j xp a d c b :
  y_quadratic x i j xp a d = Done (Some (c, b)) → u256 d → 0 < d ∧ u256 c ∧ u256 b.
Proof.
  intros H Hd. unfold y_quadratic, is_zero in H.
  destruct (_ || _)%bool eqn:E in H; [done|]. zbool.
  destruct (y_terms _ _ _ _ _ _ _ _ _) as [[s_ c0]|] eqn:Ht; [|done].
  unfold pdiv in H. destruct (_ =? 0) eqn:E2 in H; [done|]. cbn [obind] in H. simplify_eq.
  split_and!; [unfold u256 in *; lia| |apply wadd_range].
  apply div_range; [apply wmul_range|]. by destruct (wmul_range (a *% Z.of_nat (length xp)) (Z.of_nat (length xp))).
Qed.

(** ** The dynamic fee *)

Lemma four_xy_le x y : 4 * (x * y) ≤ (x + y) * (x + y).
Proof. pose proof (Z.square_nonneg (x - y)). lia. Qed.

(** Every saturating product of the formula is exact. *)
Definition dynamic_fee_room (xpi xpj fee offpeg : Z) : Prop :=
  xpi + xpj < M256 ∧ (xpi + xpj) * (xpi + xpj) < M256 ∧ offpeg * fee < M256 ∧
  offpeg * (4 * (xpi * xpj)) < M256 ∧ offpeg < M256.

Lemma saturating_mul_small a b : 0 ≤ a * b < M256 → saturating_mul a b = a * b.
Proof. unfold saturating_mul, U256_MAX. lia. Qed.

(** ** Bounds on the quote *)

Lemma y_newton_nonneg fuel b c d : ∀ y r, 0 ≤ y → y_newton fuel b c d y = Some r → 0 ≤ r.
Proof.
  induction fuel as [|fuel IH]; intros y r Hy; cbn [y_newton]; [by intros [= <-]|].
  destruct (is_zero _); [done|]. set (q := _ / _).
  assert (0 ≤ q).
  { destruct (wadd_range (y *% y) c). unfold q, saturating_sub.
    destruct (Z.eq_dec (Z.max 0 (2 *% y +% b - d)) 0) as [->|]; [by rewrite Z.div_0_r|].
    apply Z.div_pos; lia. }
  destruct (_ <=? 1); [by intros [= <-]|]. by apply IH.
Qed.

Lemma get_y_total x i j xp a d :
  0 ≤ a * Z.of_nat (length xp) * Z.of_nat (length xp) < M256 → 0 ≤ a → 0 ≤ d →
  ∃ r, get_y x i j xp a d = Done r ∧ ∀ y, r = Some y → 0 ≤ y.
Proof.
  intros Hroom Ha Hd. unfold get_y, y_quadratic, is_zero. set (n := Z.of_nat (length xp)) in *.
  assert (0 ≤ n) by (unfold n; lia).
  destruct (_ || _)%bool eqn:E; [by exists None|]. zbool.
  assert (n ≠ 0) by (intros E0; rewrite E0 in *; unfold wmul in *; rewrite Z.mul_0_r in *; done).
  destruct (y_terms xp 0 i j x n d 0 d) as [[s_ c]|]; [|by exists None].
  unfold pdiv. rewrite (wmul_small a n) in * by nia. rewrite (wmul_small (a * n) n) by done.
  destruct (Z.eqb_spec (a * n * n) 0); [nia|]. cbn [obind].
  eexists. split; [done|]. intros y. by apply y_newton_nonneg.
Qed.

(** What the solver gives is not negative, also where the amplification wraps. *)
Lemma get_y_nonneg x i j xp a d y : 0 ≤ d → get_y x i j xp a d = Done (Some y) → 0 ≤ y.
Proof.
  intros Hd. unfold get_y, y_quadratic. destruct (_ || _)%bool; [done|].
  destruct (y_terms _ _ _ _ _ _ _ _ _) as [[s_ c]|]; [|done]. unfold pdiv.
  destruct (_ =? 0); [done|]. cbn [obind]. intros Hy%Done_inj. revert Hy. by apply y_newton_nonneg.
Qed.

Lemma wsum_nonneg xp : 0 ≤ wsum xp.
Proof.
  unfold wsum. assert (∀ acc, 0 ≤ acc → 0 ≤ fold_left wadd xp acc) as H; [|by apply H].
  induction xp as [|x xp IH]; intros acc Hacc; [done|]. apply IH. by destruct (wadd_range acc x).
Qed.

Lemma d_p_loop_nonneg xp n d : ∀ d_p r, 0 ≤ d_p → d_p_loop xp n d d_p = Some r → 0 ≤ r.
Proof.
  induction xp as [|x xp IH]; intros d_p r Hp; cbn [d_p_loop]; [by intros [= <-]|].
  destruct (is_zero _); [done|]. apply IH. destruct (wmul_range d_p d) as [? _].
  destruct (wmul_range x n) as [? _].
  destruct (Z.eq_dec (x *% n) 0) as [->|]; [by rewrite Z.div_0_r|]. apply Z.div_pos; lia.
Qed.

Lemma get_d_loop_nonneg fuel xp n ann_s ann_minus_p n_plus_1 : ∀ d r,
  0 ≤ ann_minus_p → 0 ≤ n_plus_1 → 0 ≤ d →
  get_d_loop fuel xp n ann_s ann_minus_p n_plus_1 d = Some r → 0 ≤ r.
Proof.
  induction fuel as [|fuel IH]; intros d r Ha Hn Hd; cbn [get_d_loop]; [by intros [= <-]|].
  destruct (d_p_loop xp n d d) as [d_p|] eqn:Hp; [|done]. apply d_p_loop_nonneg in Hp; [|done].
  unfold checked_mul, checked_add. destruct (_ <? _); [|done]. destruct (_ <? _); [|done].
  destruct (_ <? _); [|done]. destruct (is_zero _) eqn:E; [done|]. unfold is_zero in E. zbool.
  assert (0 ≤ ann_minus_p * d / A_PRECISION) by (apply Z.div_pos; [nia|done]).
  set (q := _ / (_ + _)).
  assert (0 ≤ q) by (apply Z.div_pos; [by destruct (wmul_range (ann_s +% d_p *% n) d)|nia]).
  destruct (_ <=? 1); [by intros [= <-]|]. by apply IH.
Qed.

Lemma get_d_nonneg xp a d : get_d xp a = Some d → 0 ≤ d.
Proof.
  unfold get_d. destruct (_ || _)%bool; [done|]. destruct (is_zero _); [by intros [= <-]|].
  destruct (_ <=? _); [done|]. apply get_d_loop_nonneg; [|..|apply wsum_nonneg].
  - by destruct (wsub_range (a *% Z.of_nat (length xp)) A_PRECISION).
  - by destruct (wadd_range (Z.of_nat (length xp)) 1).
Qed.

Lemma to_xp_nth balances rates xp j bal :
  to_xp balances rates = Some xp → balances !! j = Some bal →
  Forall (λ r, 0 ≤ r) rates → 0 ≤ bal →
  length xp = length balances ∧ 0 ≤ default ONE (rates !! j) ∧
  nth j xp 0 * ONE ≤ bal * default ONE (rates !! j).
Proof.
  intros Hxp Hj Hr Hb. unfold to_xp in Hxp.
  destruct (_ && _)%bool eqn:E in Hxp; [done|].
  destruct (Nat.eqb_spec (length rates) 0) as [E0|E0]; simplify_eq.
  - apply nil_length_inv in E0 as ->. rewrite nth_lookup, Hj. simpl. unfold ONE. split_and!; lia.
  - simpl in E. apply negb_false_iff, Nat.eqb_eq in E.
    assert (is_Some (rates !! j)) as [r Hrj].
    { apply lookup_lt_is_Some. rewrite E. by eapply lookup_lt_Some. }
    assert (0 ≤ r) by (by eapply Forall_lookup_1 in Hr).
    rewrite length_zip_with, nth_lookup, lookup_zip_with, Hj, Hrj. simpl. split_and!; [lia|done|].
    pose proof (div_mul_le (bal *% r) ONE ltac:(done)). pose proof (wmul_le bal r Hb ltac:(done)). lia.
Qed.

Lemma saturating_sub_le a b : 0 ≤ b → 0 ≤ a → 0 ≤ saturating_sub a b ≤ a.
Proof. unfold saturating_sub. lia. Qed.

(** The buffered amount, after the fee, converts back to less than the balance. *)
Lemma buffered_out_lt_balance dyb xp_out bal rate :
  0 < dyb → dyb ≤ xp_out - 1 → 0 < rate → xp_out * ONE ≤ bal * rate →
  (dyb *% ONE) / rate < bal.
Proof.
  intros. apply div_upper; [done|]. pose proof (wmul_le dyb ONE ltac:(lia) ltac:(done)).
  assert (0 < ONE) by done. nia.
Qed.

Lemma curve_swap_fee_total state xp_in xp_out x y :
  2 ≤ Z.of_nat (length (cv_balances state)) < 2 ^ 128 →
  ∃ fee, curve_swap_fee state xp_in xp_out x y = Done fee.
Proof.
  intros Hn. unfold curve_swap_fee, pdiv. destruct (cv_offpeg_fee_multiplier state); [by eexists|].
  set (n := Z.of_nat _) in *. rewrite (wsub_small n 1), (wmul_small 4 (n - 1)) by (unfold M256; lia).
  destruct (Z.eqb_spec (4 * (n - 1)) 0); [lia|by eexists].
Qed.

Lemma coins_bound a n : 1 ≤ a → 0 ≤ n → a * n * n < M256 → n < 2 ^ 128.
Proof.
  intros Ha Hn Hlt. destruct (Z.lt_ge_cases n (2 ^ 128)); [done|].
  assert (2 ^ 128 * 2 ^ 128 ≤ n * n) by (apply Z.mul_le_mono_nonneg; lia).
  assert (n * n ≤ a * n * n) by nia. assert (2 ^ 128 * 2 ^ 128 = M256) by done. lia.
Qed.

(** ** Properties *)

(** C38: The output balance found by [get_y] is less than one unit below the
    StableSwap curve for the coefficients it computed: [y + 1] is strictly above
    it, so the quote [xp_j - y - 1] never takes out more than the invariant
    allows.  This holds on every exit of the loop, converged or not, for coefficients in
    the range where no operator of the loop wraps ([curve_room]). *)
Theorem get_y_within_one_of_curve (x : Z) (i j : nat) (xp : list Z) (a d c b y : Z) :
  u256 d → y_quadratic x i j xp a d = Done (Some (c, b)) → curve_room c b d →
  get_y x i j xp a d = Done (Some y) →
  0 ≤ y ∧ c < (y + 1) * (y + 1) + (b - d) * (y + 1).
Proof.
  intros Hd Hq [Hr1 Hr2]. unfold get_y. rewrite Hq. cbn [obind]. intros Hy%Done_inj.
  destruct (y_quadratic_range _ _ _ _ _ _ _ _ Hq Hd) as (Hd0 & [Hc _] & [Hb _]).
  set (bound := Z.max d ((d * d + c) / (d + b))) in *.
  change CURVE_MAX_ITERATIONS with (S 127) in Hy.
  rewrite (y_newton_unfold b c d bound) in Hy by lia.
  replace (2 * d + b - d) with (d + b) in Hy by lia.
  destruct (Z.leb_spec (d + b) 0); [done|]. cbn zeta in Hy.
  assert (near_curve b c d ((d * d + c) / (d + b))).
  { apply (y_step_near b c d d); replace (2 * d + b - d) with (d + b) by lia; [lia|reflexivity]. }
  assert (0 ≤ (d * d + c) / (d + b)) by (apply Z.div_pos; nia).
  destruct (_ <=? 1); [simplify_eq; done|].
  eapply (y_newton_near b c d bound) in Hy; try lia; [|done]. destruct Hy as [? Hn].
  split; [lia|done].
Qed.

Lemma get_y_within_one_of_curve_witness :
  let y := 990009083401459475070638 in
  let b := 1110000000000000000000000 in let d := 2000000000000000000000000 in
  0 ≤ y ∧ 99009900990099009900990050000000000000000000000 < (y + 1) * (y + 1) + (b - d) * (y + 1).
Proof.
  apply (get_y_within_one_of_curve (1010000 * ONE) 0 1 [1000000 * ONE; 1000000 * ONE] 1000).
  - split; vm_compute; (discriminate || reflexivity).
  - vm_compute. reflexivity.
  - split; vm_compute; reflexivity.
  - vm_compute. reflexivity.
Defined.

(** The dynamic fee lies between the base fee and the base fee scaled by the
    off-peg multiplier. *)
Theorem dynamic_fee_bounds (xpi xpj fee offpeg : Z) :
  0 < xpi → 0 < xpj → 0 ≤ fee → CURVE_FEE_DENOMINATOR < offpeg →
  dynamic_fee_room xpi xpj fee offpeg →
  fee ≤ dynamic_fee xpi xpj fee offpeg ≤ offpeg * fee / CURVE_FEE_DENOMINATOR.
Proof.
  intros Hi Hj Hf Ho (Hr1 & Hr2 & Hr3 & Hr4 & Hr5).
  pose proof (four_xy_le xpi xpj) as H4. unfold dynamic_fee, is_zero.
  assert (0 < CURVE_FEE_DENOMINATOR) by (vm_compute; reflexivity).
  set (F := CURVE_FEE_DENOMINATOR) in *. clearbody F.
  assert (0 < xpi * xpj) by nia. assert (xpi * xpj < M256 ∧ (offpeg - F) * (4 * (xpi * xpj)) < M256) as [? ?] by nia.
  destruct (Z.leb_spec offpeg F), (Z.eqb_spec xpi 0), (Z.eqb_spec xpj 0); try lia. cbn [orb].
  rewrite wadd_small by lia. rewrite (saturating_mul_small (xpi + xpj)) by nia.
  destruct (Z.eqb_spec ((xpi + xpj) * (xpi + xpj)) 0); [nia|].
  rewrite (saturating_mul_small offpeg fee) by nia.
  rewrite (saturating_mul_small xpi xpj), (saturating_mul_small (xpi * xpj)) by nia.
  rewrite wsub_small, (saturating_mul_small (offpeg - F)) by nia.
  set (s := (xpi + xpj) * (xpi + xpj)) in *. assert (0 < s) by nia.
  assert (0 ≤ (offpeg - F) * (xpi * xpj * 4) / s ≤ offpeg - F) as Himb.
  { split; [apply Z.div_pos; nia|]. apply Z.div_le_upper_bound; nia. }
  set (imb := _ / s) in *. unfold saturating_add, U256_MAX. rewrite Z.min_l by lia.
  destruct (Z.eqb_spec (imb + F) 0); [lia|]. split.
  - apply div_lower; [lia|]. nia.
  - apply Z.div_le_compat_l; nia.
Qed.

Lemma dynamic_fee_bounds_witness :
  5000000 ≤ dynamic_fee ONE (1000000 * ONE) 5000000 20000000000 ≤ 20000000000 * 5000000 / CURVE_FEE_DENOMINATOR.
Proof.
  apply dynamic_fee_bounds; [vm_compute; (reflexivity || discriminate)..|].
  unfold dynamic_fee_room. split_and!; vm_compute; reflexivity.
Defined.

(** A StableSwap quote never panics while [A * n * n] fits the word, and a
    successful quote is strictly below the pool's balance of the output token,
    for any fee, multiplier and rates. *)
Lemma try_curve_stable_amount_out_safe (state : CurvePoolState) (amount_in : Z) (i j : nat) :
  0 ≤ cv_a state →
  cv_a state * Z.of_nat (length (cv_balances state)) * Z.of_nat (length (cv_balances state)) < M256 →
  Forall (λ b, 0 ≤ b) (cv_balances state) → Forall (λ r, 0 ≤ r) (cv_rates state) →
  (∀ d, cv_d state = Some d → 0 ≤ d) →
  ∃ r, try_curve_stable_amount_out state amount_in i j = Done r ∧
       ∀ out, r = inr out → out < nth j (cv_balances state) 0.
Proof.
  intros Ha Hroom Hbals Hrates Hcd. unfold try_curve_stable_amount_out.
  destruct (is_zero amount_in); [by eexists|].
  destruct (_ || _)%bool eqn:E; [by eexists|]. destruct (_ <=? _); [by eexists|].
  zbool. repeat match goal with H : (_ <=? _)%nat = false |- _ => apply Nat.leb_gt in H end.
  destruct (to_xp _ _) as [xp|] eqn:Hxp; [|by eexists].
  destruct (nonzero _) as [d|] eqn:Hd; [|by eexists].
  destruct (lookup_lt_is_Some_2 (cv_balances state) j) as [bal Hj]; [done|].
  assert (0 ≤ bal) by (by eapply Forall_lookup_1 in Hbals).
  destruct (to_xp_nth _ _ _ _ _ Hxp Hj Hrates) as (Hlen & Hrate & Hxpj); [done|].
  rewrite (nth_lookup (cv_balances state)), Hj. cbn [default].
  edestruct (get_y_total (nth i xp 0 +% (amount_in *% default ONE (cv_rates state !! i)) / ONE)
    i j xp (cv_a state) d) as (oy & -> & Hy); [rewrite Hlen; nia|done| |].
  { unfold nonzero in Hd. destruct (cv_d state) as [d0|] eqn:Ed; [destruct (is_zero d0) eqn:E0|];
      cbn iota in Hd; try (destruct (get_d xp _) as [d1|] eqn:Eg; [|done]; apply get_d_nonneg in Eg);
      cases_in Hd; (done || by apply Hcd). }
  cbn [obind]. destruct oy as [y|]; [|by eexists]. specialize (Hy y eq_refl).
  set (dy := saturating_sub (saturating_sub (nth j xp 0) y) 1).
  destruct (is_zero dy) eqn:Edy; [by eexists|].
  edestruct (curve_swap_fee_total state) as [fee ->].
  { unfold is_zero in *. zbool. split; [|eapply (coins_bound (cv_a state)); lia].
    match goal with H : (i =? j)%nat = false |- _ => apply Nat.eqb_neq in H end. lia. }
  cbn [obind]. set (after := saturating_sub dy _). set (dyb := saturating_sub after _).
  destruct (is_zero dyb) eqn:Eb; [by eexists|]. destruct (is_zero (default _ _)) eqn:Er; [by eexists|].
  eexists. split; [done|]. intros out [= <-]. unfold is_zero in *. zbool.
  assert (0 ≤ (dy *% fee) / CURVE_FEE_DENOMINATOR) by (apply Z.div_pos; [by destruct (wmul_range dy fee)|done]).
  assert (0 ≤ (after *% CURVE_OUTPUT_BUFFER) / CURVE_FEE_DENOMINATOR)
    by (apply Z.div_pos; [by destruct (wmul_range after CURVE_OUTPUT_BUFFER)|done]).
  eapply (buffered_out_lt_balance _ (nth j xp 0)); try done; unfold dyb, after, dy, saturating_sub in *; lia.
Qed.

(** A quote is less than the balance that pays it, whatever the amplification. *)
Lemma try_curve_stable_amount_out_lt (state : CurvePoolState) (amount_in : Z) (i j : nat) (out : Z) :
  Forall (λ b, 0 ≤ b) (cv_balances state) → Forall (λ r, 0 ≤ r) (cv_rates state) →
  (∀ d, cv_d state = Some d → 0 ≤ d) →
  try_curve_stable_amount_out state amount_in i j = Done (inr out) → out < nth j (cv_balances state) 0.
Proof.
  intros Hbals Hrates Hcd. unfold try_curve_stable_amount_out.
  destruct (is_zero amount_in); [done|].
  destruct (_ || _)%bool eqn:E; [done|]. destruct (_ <=? _); [done|].
  zbool. repeat match goal with H : (_ <=? _)%nat = false |- _ => apply Nat.leb_gt in H end.
  destruct (to_xp _ _) as [xp|] eqn:Hxp; [|done].
  destruct (nonzero _) as [d|] eqn:Hd; [|done].
  destruct (lookup_lt_is_Some_2 (cv_balances state) j) as [bal Hj]; [done|].
  assert (0 ≤ bal) by (by eapply Forall_lookup_1 in Hbals).
  destruct (to_xp_nth _ _ _ _ _ Hxp Hj Hrates) as (Hlen & Hrate & Hxpj); [done|].
  rewrite (nth_lookup (cv_balances state)), Hj. cbn [default].
  destruct (get_y _ _ _ _ _ _) as [[y|]|] eqn:Ey; [|done..]. cbn [obind].
  apply get_y_nonneg in Ey.
  2: { unfold nonzero in Hd. destruct (cv_d state) as [d0|] eqn:Ed; [destruct (is_zero d0) eqn:E0|];
         cbn iota in Hd; try (destruct (get_d xp _) as [d1|] eqn:Eg; [|done]; apply get_d_nonneg in Eg);
         cases_in Hd; (done || by apply Hcd). }
  set (dy := saturating_sub (saturating_sub (nth j xp 0) y) 1).
  destruct (is_zero dy) eqn:Edy; [done|]. destruct (curve_swap_fee _ _ _ _ _) as [fee|]; [|done].
  cbn [obind]. set (after := saturating_sub dy _). set (dyb := saturating_sub after _).
  destruct (is_zero dyb) eqn:Eb; [done|]. destruct (is_zero (default _ _)) eqn:Er; [done|].
  intros [= <-]. unfold is_zero in *. zbool.
  assert (0 ≤ (dy *% fee) / CURVE_FEE_DENOMINATOR) by (apply Z.div_pos; [by destruct (wmul_range dy fee)|done]).
  assert (0 ≤ (after *% CURVE_OUTPUT_BUFFER) / CURVE_FEE_DENOMINATOR)
    by (apply Z.div_pos; [by destruct (wmul_range after CURVE_OUTPUT_BUFFER)|done]).
  eapply (buffered_out_lt_balance _ (nth j xp 0)); try done; unfold dyb, after, dy, saturating_sub in *; lia.
Qed.

Lemma try_curve_stable_amount_out_safe_witness :
  let state := {| cv_balances := [44342439882218174841778; 76448922753221051110075]; cv_a := 500;
    cv_fee := 1000000; cv_rates := [1340225880628655045; ONE]; cv_n_coins := 2; cv_gamma := None;
    cv_d := None; cv_offpeg_fee_multiplier := Some DEFAULT_OFFPEG_FEE_MULTIPLIER |} in
  ∃ r, try_curve_stable_amount_out state 152587890625000 1 0 = Done r ∧
       ∀ out, r = inr out → out < nth 0 (cv_balances state) 0.
Proof.
  cbn zeta. apply try_curve_stable_amount_out_safe.
  - vm_compute. discriminate.
  - vm_compute. reflexivity.
  - repeat constructor; vm_compute; discriminate.
  - repeat constructor; vm_compute; discriminate.
  - intros d H. vm_compute in H. discriminate H.
Defined.
