(* ===== verification/CurveCrypto.v ===== *)
(** * Curve crypto pools

    [src/src/core/math/curve_crypto.rs]: the crypto invariant's Newton solvers
    for [D] and [y], and the buffered quote with its plausibility bound.
    Divisions by the current estimate inside the geometric mean, and by
    [xj * n], are not guarded by the code and are [pdiv]s. *)
From S2P Require Import Prelude Word Types Curve.

Definition CURVE_CRYPTO_OUTPUT_BUFFER : Z := from_limbs 5000000 0 0 0.
Definition A_MULTIPLIER : Z := from_limbs 10000 0 0 0.
Definition CRYPTO_MAX_ITERATIONS : nat := 128.
Definition POW_10_10 : Z := from_limbs 10000000000 0 0 0.
Definition POW_10_14 : Z := from_limbs 100000000000000 0 0 0.
Definition POW_10_16 : Z := from_limbs 10000000000000000 0 0 0.
Definition POW_10_20 : Z := from_limbs 0x6BC75E2D63100000 5 0 0.

Record NewtonResult := { nr_value : Z; nr_converged : bool }.
Definition newton_failed : NewtonResult := {| nr_value := 0; nr_converged := false |}.

Fixpoint insert_desc (v : Z) (values : list Z) : list Z :=
  match values with
  | [] => [v]
  | w :: values => if w <=? v then v :: w :: values else w :: insert_desc v values
  end.

Definition sort_desc (values : list Z) : list Z := foldr insert_desc [] values.

Definition abs_diff_add_one (a b : Z) : Z := (if b <? a then a -% b else b -% a) +% 1.

(** ** The invariant *)

Fixpoint mean_product (x : list Z) (d tmp : Z) : outcome Z :=
  match x with
  | [] => Done tmp
  | xi :: x => let! tmp := pdiv (tmp *% xi) d in mean_product x d tmp
  end.

Fixpoint geometric_mean_loop (fuel : nat) (x : list Z) (n d : Z) : outcome Z :=
  match fuel with
  | O => Done 0
  | S fuel =>
      let! tmp := mean_product x d ONE in
      let d_prev := d in
      let! d := pdiv (d *% ((n -% 1) *% ONE +% tmp)) (n *% ONE) in
      let diff := if d_prev <? d then d -% d_prev else d_prev -% d in
      if ((diff <=? 1) || (diff *% ONE <? d))%bool then Done d
      else geometric_mean_loop fuel x n d
  end.

Definition geometric_mean (x : list Z) : outcome Z :=
  let n := Z.of_nat (length x) in
  if existsb is_zero x then Done 0
  else geometric_mean_loop CRYPTO_MAX_ITERATIONS x n (nth 0 x 0).

Definition compute_k0 (xp : list Z) (d n : Z) : Z :=
  if is_zero d then 0
  else fold_left (λ k0 x, (k0 *% x *% n) / d) xp ONE.

(** The shared factor of both solvers, on 512 bits. *)
Definition crypto_mul1 (ann gamma d g1k0 : Z) : Z :=
  u512_to_u256
    ((ONE *%% d) / gamma *%% g1k0 / gamma *%% g1k0 *%% A_MULTIPLIER / ann).

(** The end of an iteration of [newton_d]: the convergence test. *)
Definition newton_d_finish (d_prev d : Z) : NewtonResult + Z :=
  let diff := if d_prev <? d then d -% d_prev else d_prev -% d in
  let threshold := Z.max POW_10_16 d in
  if diff *% POW_10_14 <? threshold
  then inl {| nr_value := d; nr_converged := true |}
  else inr d.

(** One iteration of [newton_d]: [inl] leaves the loop with a result. *)
Definition newton_d_step (ann gamma : Z) (xp : list Z) (n s d : Z) : NewtonResult + Z :=
  let d_prev := d in
  if is_zero d then inl newton_failed
  else
  let k0 := compute_k0 xp d n in
  if is_zero k0 then inl newton_failed
  else
  let g1k0 := abs_diff_add_one (gamma +% ONE) k0 in
  if is_zero g1k0 then inl newton_failed
  else
  let mul1 := crypto_mul1 ann gamma d g1k0 in
  let mul2 := (2 *% ONE *% n *% k0) / g1k0 in
  let neg_fprime :=
    saturating_sub (s +% (s *% mul2) / ONE +% (mul1 *% n) / k0) ((mul2 *% d) / ONE) in
  if is_zero neg_fprime then inl newton_failed
  else
  let dplus := (d *% (neg_fprime +% s)) / neg_fprime in
  let dminus := (d *% d) / neg_fprime in
  let dminus :=
    if k0 <? ONE
    then dminus +% (((d *% mul1) / neg_fprime) / ONE *% (ONE -% k0)) / k0
    else
      let subtrahend := (((d *% mul1) / neg_fprime) / ONE *% (k0 -% ONE)) / k0 in
      saturating_sub dminus subtrahend in
  newton_d_finish d_prev
    (if dminus <? dplus then dplus -% dminus else (dminus -% dplus) / 2).

Fixpoint newton_d_loop (fuel : nat) (ann gamma : Z) (xp : list Z) (n s d : Z) : NewtonResult :=
  match fuel with
  | O => newton_failed
  | S fuel =>
      match newton_d_step ann gamma xp n s d with
      | inl r => r
      | inr d => newton_d_loop fuel ann gamma xp n s d
      end
  end.

Definition curve_crypto_newton_d (ann gamma : Z) (xp : list Z) : outcome NewtonResult :=
  let n := Z.of_nat (length xp) in
  if ((length xp <? 2)%nat || is_zero ann || is_zero gamma || existsb is_zero xp)%bool
  then Done newton_failed
  else
    let s := wsum xp in
    let! mean := geometric_mean xp in
    let d := n *% mean in
    if is_zero d then Done newton_failed
    else Done (newton_d_loop CRYPTO_MAX_ITERATIONS ann gamma xp n s d).

Definition curve_crypto_cache_d (balances rates : list Z) (a gamma : Z) : outcome (option Z) :=
  if (is_zero a || is_zero gamma || negb (length balances =? length rates)%nat)%bool then Done None
  else
    let n := Z.of_nat (length balances) in
    if n <? 2 then Done None
    else
      let xp := zip_with (λ b r, (b *% r) / ONE) balances rates in
      let! result := curve_crypto_newton_d (a *% n *% A_MULTIPLIER) gamma xp in
      Done (if (nr_converged result && negb (is_zero (nr_value result)))%bool
            then Some (nr_value result) else None).

(** ** The output balance *)

(** [for j in 2..=n]: the other balances from the smallest; [None] is the
    early failure on a zero balance. *)
Fixpoint newton_y_start (rest : list Z) (n_u256 d y si : Z) : outcome (option (Z * Z)) :=
  match rest with
  | [] => Done (Some (y, si))
  | xj :: rest =>
      if is_zero xj then Done None
      else
        let! y := pdiv (y *% d) (xj *% n_u256) in
        newton_y_start rest n_u256 d y (si +% xj)
  end.

Definition newton_y_limit (x0 d : Z) : Z :=
  let a := x0 / POW_10_14 in
  let b := d / POW_10_14 in
  if b <? a then (if 100 <? a then a else 100)
  else if 100 <? b then b else 100.

(** The end of an iteration of [newton_y]: the convergence and range tests. *)
Definition newton_y_finish (d convergence_limit y_prev y : Z) : NewtonResult + Z :=
  let diff := if y_prev <? y then y -% y_prev else y_prev -% y in
  let y_scaled := y / POW_10_14 in
  let limit := if y_scaled <? convergence_limit then convergence_limit else y_scaled in
  if diff <? limit then
    let frac := (y *% ONE) / d in
    let low := POW_10_16 -% 1 in
    let high := POW_10_20 +% 1 in
    if ((low <? frac) && (frac <? high))%bool
    then inl {| nr_value := y; nr_converged := true |}
    else inl newton_failed
  else inr y.

(** One iteration of [newton_y]: [inl] leaves the loop with a result. *)
Definition newton_y_step (ann gamma n_u256 d k0i si convergence_limit y : Z) : NewtonResult + Z :=
  let y_prev := y in
  if (is_zero y || is_zero d)%bool then inl newton_failed
  else
  let k0 := (k0i *% y *% n_u256) / d in
  if is_zero k0 then inl newton_failed
  else
  let s := si +% y in
  let g1k0 := abs_diff_add_one (gamma +% ONE) k0 in
  if is_zero g1k0 then inl newton_failed
  else
  let mul1 := crypto_mul1 ann gamma d g1k0 in
  let mul2 := ONE +% (2 *% ONE *% k0) / g1k0 in
  let yfprime := ONE *% y +% s *% mul2 +% mul1 in
  let dyfprime := d *% mul2 in
  if yfprime <? dyfprime then inr (y_prev / 2)
  else
  let yfprime := yfprime -% dyfprime in
  let fprime := yfprime / y in
  if is_zero fprime then inl newton_failed
  else
  let y_minus := mul1 / fprime in
  let y_plus := (yfprime +% ONE *% d) / fprime +% (y_minus *% ONE) / k0 in
  let y_minus := y_minus +% (ONE *% s) / fprime in
  let y := if y_plus <? y_minus then y_prev / 2 else y_plus -% y_minus in
  newton_y_finish d convergence_limit y_prev y.

Fixpoint newton_y_loop (fuel : nat) (ann gamma n_u256 d k0i si limit y : Z) : NewtonResult :=
  match fuel with
  | O => newton_failed
  | S fuel =>
      match newton_y_step ann gamma n_u256 d k0i si limit y with
      | inl r => r
      | inr y => newton_y_loop fuel ann gamma n_u256 d k0i si limit y
      end
  end.

Definition curve_crypto_newton_y
    (ann gamma : Z) (xp : list Z) (d : Z) (out_idx : nat) : outcome NewtonResult :=
  let n := length xp in
  if ((n <=? out_idx)%nat || is_zero ann || is_zero gamma || is_zero d)%bool
  then Done newton_failed
  else
    let n_u256 := Z.of_nat n in
    let sorted := sort_desc (<[out_idx := 0]> xp) in
    let limit := newton_y_limit (nth 0 sorted 0) d in
    let! start := newton_y_start (reverse (take (n - 1) sorted)) n_u256 d (d / n_u256) 0 in
    match start with
    | None => Done newton_failed
    | Some (y, si) =>
        let k0i := fold_left (λ k0i item, (k0i *% item *% n_u256) / d) (take (n - 1) sorted) ONE in
        Done (newton_y_loop CRYPTO_MAX_ITERATIONS ann gamma n_u256 d k0i si limit y)
    end.

(** ** The quote *)

Inductive CurveCryptoReject :=
| CZeroAmount | CInvalidIndices | MissingGamma | NewtonD | NewtonY | ImplausibleOutput | CZeroOut.

(** The invariant: the decode-time snapshot, or the solver's. *)
Definition crypto_invariant (state : CurvePoolState) (ann gamma : Z) (xp : list Z)
  : outcome (option Z) :=
  match nonzero (cv_d state) with
  | Some d => Done (Some d)
  | None =>
      let! d_result := curve_crypto_newton_d ann gamma xp in
      Done (if nr_converged d_result then Some (nr_value d_result) else None)
  end.

Definition try_curve_crypto_amount_out
    (state : CurvePoolState) (amount_in : Z) (token_in_idx token_out_idx : nat)
  : outcome (CurveCryptoReject + Z) :=
  let n_coins := Z.to_nat (cv_n_coins state) in
  if is_zero amount_in then Done (inl CZeroAmount)
  else if ((n_coins <=? token_in_idx) || (n_coins <=? token_out_idx)
           || (token_in_idx =? token_out_idx))%nat%bool then Done (inl CInvalidIndices)
  else
  let gamma := default 0 (cv_gamma state) in
  let a := cv_a state in
  if (is_zero gamma || is_zero a)%bool then Done (inl MissingGamma)
  else
  let ann := a *% cv_n_coins state *% A_MULTIPLIER in
  let rates :=
    if (length (cv_rates state) =? 0)%nat then replicate n_coins ONE else cv_rates state in
  let xp := zip_with (λ b r, (b *% r) / ONE) (cv_balances state) rates in
  if ((length xp <=? token_in_idx) || (length xp <=? token_out_idx))%nat%bool
  then Done (inl CInvalidIndices)
  else
  let! od := crypto_invariant state ann gamma xp in
  let_some d := od or Done (inl NewtonD) in
  let input_xp := (amount_in *% nth token_in_idx rates 0) / ONE in
  let xp := <[token_in_idx := nth token_in_idx xp 0 +% input_xp]> xp in
  let! y_result := curve_crypto_newton_y ann gamma xp d token_out_idx in
  if negb (nr_converged y_result) then Done (inl NewtonY)
  else
  let dy := saturating_sub (nth token_out_idx xp 0) (nr_value y_result) in
  if match checked_mul input_xp 2 with Some max_output => max_output <? dy | None => false end
  then Done (inl ImplausibleOutput)
  else
  let out_rate := nth token_out_idx rates 0 in
  if is_zero out_rate then Done (inl CZeroOut)
  else
  let out := (dy *% ONE) / out_rate in
  let fee_amount := (out *% cv_fee state) / POW_10_10 in
  let out_after_fee := saturating_sub out fee_amount in
  let buffered :=
    saturating_sub out_after_fee
      ((out_after_fee *% CURVE_CRYPTO_OUTPUT_BUFFER) / CURVE_FEE_DENOMINATOR) in
  if is_zero buffered then Done (inl CZeroOut) else Done (inr buffered).

Definition get_curve_crypto_amount_out
    (state : CurvePoolState) (amount_in : Z) (token_in_idx token_out_idx : nat) : outcome Z :=
  let! r := try_curve_crypto_amount_out state amount_in token_in_idx token_out_idx in
  Done match r with inr out => out | inl _ => 0 end.

(** ** Bounds on the quote *)

(** The scaled balance never exceeds the exact product by 10^-18. *)
Lemma scaled_xp_nth balances rates j bal rate :
  balances !! j = Some bal → rates !! j = Some rate → 0 ≤ bal → 0 ≤ rate →
  nth j (zip_with (λ b r, (b *% r) / ONE) balances rates) 0 * ONE ≤ bal * rate.
Proof.
  intros Hb Hr Hb0 Hr0. rewrite nth_lookup, lookup_zip_with, Hb, Hr. cbn [mbind option_bind default].
  pose proof (div_mul_le (bal *% rate) ONE ltac:(done)). pose proof (wmul_le bal rate Hb0 Hr0).
  simpl. lia.
Qed.

Lemma unscaled_le_balance dy xp_out bal rate :
  0 ≤ dy ≤ xp_out → 0 < rate → xp_out * ONE ≤ bal * rate → 0 ≤ (dy *% ONE) / rate ≤ bal.
Proof.
  intros Hdy Hr Hx. pose proof (wmul_le dy ONE ltac:(lia) ltac:(done)).
  destruct (wmul_range dy ONE). assert (0 < ONE) by done.
  split; [apply Z.div_pos; lia|]. apply Z.div_le_upper_bound; [done|]. nia.
Qed.

Lemma after_fees_le out fee buffer d1 d2 :
  0 ≤ out → 0 < d1 → 0 < d2 →
  let after := saturating_sub out ((out *% fee) / d1) in
  saturating_sub after ((after *% buffer) / d2) ≤ out.
Proof.
  intros Ho H1 H2. cbn zeta. unfold saturating_sub.
  assert (0 ≤ (out *% fee) / d1) by (apply Z.div_pos; [by destruct (wmul_range out fee)|done]).
  assert (0 ≤ (Z.max 0 (out - (out *% fee) / d1) *% buffer) / d2).
  { apply Z.div_pos; [by destruct (wmul_range (Z.max 0 (out - (out *% fee) / d1)) buffer)|done]. }
  lia.
Qed.

(** A solver state or result with a non-negative value. *)
Definition value_nonneg (r : NewtonResult + Z) : Prop :=
  match r with inl r => 0 ≤ nr_value r | inr y => 0 ≤ y end.

Lemma value_nonneg_failed : value_nonneg (inl newton_failed).
Proof. apply Z.le_refl. Qed.

Lemma newton_y_finish_nonneg d limit y_prev y :
  0 ≤ y → value_nonneg (newton_y_finish d limit y_prev y).
Proof.
  intros Hy. unfold newton_y_finish. cbv zeta. destruct (_ <? _); [|done].
  destruct (_ && _)%bool; [done|apply value_nonneg_failed].
Qed.

Lemma newton_y_step_nonneg ann gamma n d k0i si limit y :
  0 ≤ y → value_nonneg (newton_y_step ann gamma n d k0i si limit y).
Proof.
  intros Hy. unfold newton_y_step. cbv zeta.
  assert (0 ≤ y / 2) by (apply Z.div_pos; [done|lia]).
  destruct (_ || _)%bool; [apply value_nonneg_failed|].
  destruct (is_zero _); [apply value_nonneg_failed|].
  destruct (is_zero _); [apply value_nonneg_failed|].
  destruct (_ <? _); [done|]. destruct (is_zero _); [apply value_nonneg_failed|].
  apply newton_y_finish_nonneg. destruct (_ <? _); [done|].
  match goal with |- _ ≤ ?a -% ?b => by destruct (wsub_range a b) end.
Qed.

Lemma newton_y_loop_nonneg fuel ann gamma n d k0i si limit : ∀ y,
  0 ≤ y → 0 ≤ nr_value (newton_y_loop fuel ann gamma n d k0i si limit y).
Proof.
  induction fuel as [|fuel IH]; intros y Hy; cbn [newton_y_loop]; [done|].
  pose proof (newton_y_step_nonneg ann gamma n d k0i si limit y Hy) as Hs.
  destruct (newton_y_step _ _ _ _ _ _ _ _); [done|by apply IH].
Qed.

Lemma newton_y_start_nonneg n d rest : ∀ y si r,
  0 ≤ y → newton_y_start rest n d y si = Done (Some r) → 0 ≤ r.1.
Proof.
  induction rest as [|xj rest IH]; intros y si r Hy; cbn [newton_y_start]; [by intros [= <-]|].
  destruct (is_zero xj); [done|]. unfold pdiv. destruct (Z.eqb_spec (xj *% n) 0); [done|].
  cbn [obind]. apply IH. destruct (wmul_range y d), (wmul_range xj n). apply Z.div_pos; lia.
Qed.

Lemma curve_crypto_newton_y_nonneg ann gamma xp d j r :
  0 ≤ d → curve_crypto_newton_y ann gamma xp d j = Done r → 0 ≤ nr_value r.
Proof.
  intros Hd. unfold curve_crypto_newton_y.
  destruct (_ || _)%bool eqn:E; [by intros [= <-]|].
  destruct (newton_y_start _ _ _ _ _) as [[[y si]|]|] eqn:Hs; cbn [obind]; [|by intros [= <-]|done].
  intros <-%Done_inj. apply newton_y_loop_nonneg.
  apply newton_y_start_nonneg in Hs; [done|].
  destruct (Z.eq_dec (Z.of_nat (length xp)) 0) as [->|]; [by rewrite Z.div_0_r|]. apply Z.div_pos; lia.
Qed.

Lemma newton_d_finish_nonneg d_prev d : 0 ≤ d → value_nonneg (newton_d_finish d_prev d).
Proof. intros. unfold newton_d_finish. cbv zeta. by destruct (_ *% _ <? _). Qed.

Lemma newton_d_next_nonneg dplus dminus :
  0 ≤ if dminus <? dplus then dplus -% dminus else (dminus -% dplus) / 2.
Proof.
  destruct (_ <? _); [by destruct (wsub_range dplus dminus)|].
  apply Z.div_pos; [by destruct (wsub_range dminus dplus)|lia].
Qed.

Lemma newton_d_step_nonneg ann gamma xp n s d :
  value_nonneg (newton_d_step ann gamma xp n s d).
Proof.
  unfold newton_d_step. cbv zeta.
  repeat (destruct (is_zero _); [apply value_nonneg_failed|]).
  apply newton_d_finish_nonneg, newton_d_next_nonneg.
Qed.

Lemma newton_d_loop_nonneg fuel ann gamma xp n s : ∀ d,
  0 ≤ nr_value (newton_d_loop fuel ann gamma xp n s d).
Proof.
  induction fuel as [|fuel IH]; intros d; cbn [newton_d_loop]; [done|].
  pose proof (newton_d_step_nonneg ann gamma xp n s d) as Hs.
  destruct (newton_d_step _ _ _ _ _ _); [done|apply IH].
Qed.

Lemma curve_crypto_newton_d_nonneg ann gamma xp r :
  curve_crypto_newton_d ann gamma xp = Done r → 0 ≤ nr_value r.
Proof.
  unfold curve_crypto_newton_d. destruct (_ || _)%bool; [by intros <-%Done_inj|].
  destruct (geometric_mean xp); cbn [obind]; [|done].
  destruct (is_zero _); intros <-%Done_inj; [done|apply newton_d_loop_nonneg].
Qed.

Lemma nonzero_Some d r : nonzero d = Some r → d = Some r.
Proof. destruct d as [d|]; simpl; [|done]. by destruct (is_zero d). Qed.

Lemma crypto_invariant_nonneg state ann gamma xp d :
  (∀ d, cv_d state = Some d → 0 ≤ d) →
  crypto_invariant state ann gamma xp = Done (Some d) → 0 ≤ d.
Proof.
  intros Hcd. unfold crypto_invariant. destruct (nonzero (cv_d state)) as [d0|] eqn:E.
  { intros H%Done_inj. simplify_eq. apply nonzero_Some in E. by apply Hcd. }
  destruct (curve_crypto_newton_d _ _ _) as [r|] eqn:Hr; cbn [obind]; [|done].
  apply curve_crypto_newton_d_nonneg in Hr. intros H%Done_inj. by destruct (nr_converged r); simplify_eq.
Qed.

(** ** Properties *)

(** A successful crypto quote never exceeds the pool's balance of the output
    token, whatever the solvers returned. *)
Lemma try_curve_crypto_amount_out_le_balance
    (state : CurvePoolState) (amount_in : Z) (i j : nat) (out : Z) :
  Forall (λ b, 0 ≤ b) (cv_balances state) → Forall (λ r, 0 ≤ r) (cv_rates state) →
  (∀ d, cv_d state = Some d → 0 ≤ d) →
  try_curve_crypto_amount_out state amount_in i j = Done (inr out) →
  out ≤ nth j (cv_balances state) 0.
Proof.
  intros Hbals Hrates Hcd. unfold try_curve_crypto_amount_out. cbv zeta.
  set (rates := if (length (cv_rates state) =? 0)%nat then _ else _).
  assert (Forall (λ r, 0 ≤ r) rates) as Hr.
  { unfold rates. destruct (_ =? _)%nat; [|done]. apply Forall_replicate. done. }
  clearbody rates. set (xp := zip_with _ _ rates).
  pass_guard E1. pass_guard E2. pass_guard E3. pass_guard E4.
  destruct (crypto_invariant _ _ _ _) as [[d|]|] eqn:Hd; cbn [obind]; [|done..].
  apply crypto_invariant_nonneg in Hd; [|done].
  destruct (curve_crypto_newton_y _ _ _ _ _) as [y|] eqn:Hy; cbn [obind]; [|done].
  apply curve_crypto_newton_y_nonneg in Hy; [|done].
  pass_guard E5. pass_guard E6. pass_guard Er. pass_guard E7.
  intros H%Done_inj. injection H as <-. unfold is_zero in Er. zbool.
  nbool.
  assert (length xp = Nat.min (length (cv_balances state)) (length rates)) as Hlen
    by apply length_zip_with.
  destruct (lookup_lt_is_Some_2 (cv_balances state) j) as [bal Hbal]; [lia|].
  destruct (lookup_lt_is_Some_2 rates j) as [rate Hrate]; [lia|].
  assert (0 ≤ bal) by (by eapply Forall_lookup_1 in Hbals).
  assert (0 ≤ rate) as Hrate0 by (by eapply Forall_lookup_1 in Hr).
  pose proof (scaled_xp_nth _ _ _ _ _ Hbal Hrate ltac:(done) ltac:(done)) as Hx. fold xp in Hx.
  assert (nth j (<[i:=nth i xp 0 +% (amount_in *% nth i rates 0) / ONE]> xp) 0 = nth j xp 0) as Hj.
  { rewrite !nth_lookup, list_lookup_insert_ne by done. done. }
  rewrite Hj in *. rewrite (nth_lookup (cv_balances state)), Hbal. cbn [default].
  rewrite (nth_lookup rates j), Hrate in Er |- *. change (default 0 (Some rate)) with rate in *.
  set (dy := saturating_sub (nth j xp 0) (nr_value y)).
  assert (0 ≤ nth j xp 0).
  { rewrite nth_lookup. unfold xp. rewrite lookup_zip_with, Hbal, Hrate. simpl.
    apply Z.div_pos; [by destruct (wmul_range bal rate)|done]. }
  assert (0 ≤ dy ≤ nth j xp 0) by (unfold dy, saturating_sub; lia).
  destruct (unscaled_le_balance dy (nth j xp 0) bal rate) as [? ?];
    [done|clear -Er Hrate0; lia|done|].
  etrans; [|done]. by apply after_fees_le.
Qed.

Lemma try_curve_crypto_amount_out_le_balance_witness :
  3925407 ≤ nth 1 [2040747; 969801590] 0.
Proof.
  eapply (try_curve_crypto_amount_out_le_balance
    {| cv_balances := [2040747; 969801590]; cv_a := 2700000; cv_fee := 10000000;
       cv_rates := [1000000000000 * ONE; 1000000000 * 2112531811800907072]; cv_n_coins := 2;
       cv_gamma := Some 1300000000000; cv_d := None; cv_offpeg_fee_multiplier := None |} 8305 0 1).
  - repeat constructor; vm_compute; discriminate.
  - repeat constructor; vm_compute; discriminate.
  - intros d H. vm_compute in H. discriminate H.
  - vm_compute. reflexivity.
Defined.

(** The pool with its decode-time invariant snapshot. *)
Definition with_d (state : CurvePoolState) (d : Z) : CurvePoolState :=
  {| cv_balances := cv_balances state; cv_a := cv_a state; cv_fee := cv_fee state;
     cv_rates := cv_rates state; cv_n_coins := cv_n_coins state; cv_gamma := cv_gamma state;
     cv_d := Some d; cv_offpeg_fee_multiplier := cv_offpeg_fee_multiplier state |}.

(** The invariant snapshot taken at decode time does not change a crypto
    quote: quoting with the cached [D] is quoting with a freshly computed one. *)
Theorem cached_d_preserves_quote (state : CurvePoolState) (gamma d amount_in : Z) (i j : nat) :
  cv_d state = None → cv_gamma state = Some gamma →
  Z.of_nat (length (cv_balances state)) = cv_n_coins state →
  curve_crypto_cache_d (cv_balances state) (cv_rates state) (cv_a state) gamma = Done (Some d) →
  try_curve_crypto_amount_out (with_d state d) amount_in i j =
  try_curve_crypto_amount_out state amount_in i j.
Proof.
  intros Hd Hg Hn Hc. unfold curve_crypto_cache_d in Hc.
  destruct (_ || negb _)%bool eqn:E1 in Hc; [done|]. destruct (_ <? 2) eqn:E2 in Hc; [done|].
  zbool. nbool. rewrite Hn in Hc.
  assert (crypto_invariant (with_d state d) (cv_a state *% cv_n_coins state *% A_MULTIPLIER) gamma
            (zip_with (λ b r, (b *% r) / ONE) (cv_balances state) (cv_rates state)) =
          crypto_invariant state (cv_a state *% cv_n_coins state *% A_MULTIPLIER) gamma
            (zip_with (λ b r, (b *% r) / ONE) (cv_balances state) (cv_rates state))) as Hinv.
  { unfold crypto_invariant. rewrite Hd. cbn [with_d cv_d nonzero].
    destruct (curve_crypto_newton_d _ _ _) as [r|]; cbn [obind] in *; [|done].
    apply Done_inj in Hc. destruct (nr_converged r); [|done].
    destruct (is_zero (nr_value r)) eqn:E; [done|]. cbn in Hc. simplify_eq. by rewrite E. }
  unfold try_curve_crypto_amount_out.
  change (cv_balances (with_d state d)) with (cv_balances state).
  change (cv_rates (with_d state d)) with (cv_rates state).
  change (cv_a (with_d state d)) with (cv_a state).
  change (cv_n_coins (with_d state d)) with (cv_n_coins state).
  change (cv_gamma (with_d state d)) with (cv_gamma state).
  change (cv_fee (with_d state d)) with (cv_fee state). rewrite Hg.
  destruct (Nat.eqb_spec (length (cv_rates state)) 0); [lia|].
  change (default 0 (Some gamma)) with gamma. cbv zeta. by rewrite Hinv.
Qed.

Definition demo_crypto : CurvePoolState :=
  {| cv_balances := [1000000 * ONE; 1000000 * ONE]; cv_a := 5000; cv_fee := 1000;
     cv_rates := [ONE; ONE]; cv_n_coins := 2; cv_gamma := Some 10000; cv_d := None;
     cv_offpeg_fee_multiplier := None |}.

Definition demo_d : Z :=
  match curve_crypto_cache_d (cv_balances demo_crypto) (cv_rates demo_crypto) (cv_a demo_crypto) 10000 with
  | Done (Some d) => d | _ => 0 end.

Lemma cached_d_preserves_quote_witness :
  try_curve_crypto_amount_out (with_d demo_crypto demo_d) (10000 * ONE) 0 1 =
  try_curve_crypto_amount_out demo_crypto (10000 * ONE) 0 1.
Proof. apply (cached_d_preserves_quote demo_crypto 10000); [reflexivity..|vm_compute; reflexivity]. Defined.
