(* ===== verification/Dodo.v ===== *)
(** * DODO proactive market maker pools

    [src/src/core/math/dodo.rs]: the quadratic trade solver, the integral used
    on the way back to the target, the six R-state cases of the gross quote and
    the fees.  Products are widened to 512 bits; [root(2)] of the integer
    library is the integer square root. *)
From S2P Require Import Prelude Word MulDiv Types.

Definition ONE2 : Z :=
  let bytes := 1000000000000000000000000000000000000 in
  from_limbs (wrap_u 64 bytes) (wrap_u 64 (Z.shiftr bytes 64)) 0 0.

Definition div_ceil (a b : Z) : Z :=
  if is_zero b then 0
  else
    let product := a *%% ONE in
    let result := (product +%% b -%% 1) / b in
    u512_to_u256 result.

Definition reciprocal_floor (target : Z) : Z :=
  if is_zero target then 0 else u512_to_u256 (ONE2 / target).

(** The [k == ONE] branch. *)
Definition solve_k_one (v0 v1 delta i : Z) : Z :=
  let idelta := i *%% delta in
  let v0_sq := v0 *%% v0 in
  if is_zero v0_sq then 0
  else
  let_some temp := u512_to_u256_checked (idelta *%% v1 / v0_sq) or 0 in
  if is_zero temp then 0
  else
    let denom := temp +%% ONE in
    default 0 (u512_to_u256_checked (v1 *%% temp / denom)).

(** [part2 = k·V0/V1·V0 + i·delta], [None] when a term leaves the word. *)
Definition quadratic_part2 (v0 v1 delta i k : Z) : option Z :=
  let k_v0 := k *%% v0 in
  let k_div := k_v0 / v1 in
  let? k_term := u512_to_u256_checked (k_div *%% v0) in
  let? i_delta := u512_to_u256_checked (i *%% delta) in
  checked_add k_term i_delta.

(** The remaining reserve [v2] of the quadratic branch; [None] is a [return 0]. *)
Definition quadratic_v2 (v0 v1 delta i k : Z) : option Z :=
  let? part2 := quadratic_part2 v0 v1 delta i k in
  let one_minus_k := ONE -% k in
  let? part1 := u512_to_u256_checked (one_minus_k *%% v1) in
  let '(b_abs, b_sig) :=
    if part2 <=? part1 then (part1 -% part2, false) else (part2 -% part1, true) in
  let b_abs := b_abs / ONE in
  let mfl_k_v0 := mul_down k v0 in
  let? mfl_times_v0 := u512_to_u256_checked (mfl_k_v0 *%% v0) in
  let square_root_input := mul_down (one_minus_k *% 4) mfl_times_v0 in
  let? square_root :=
    if is_zero square_root_input then Some b_abs
    else
      let radicand := b_abs *%% b_abs +%% square_root_input in
      let? rad_u256 := u512_to_u256_checked radicand in
      Some (Z.sqrt rad_u256) in
  let denominator := one_minus_k *% 2 in
  if is_zero denominator then None
  else
  let? numerator :=
    if b_sig then (if square_root <=? b_abs then None else Some (square_root -% b_abs))
    else checked_add b_abs square_root in
  Some (div_ceil numerator denominator).

Definition solve_quadratic_function_for_trade (v0 v1 delta i k : Z) : Z :=
  if (is_zero v0 || is_zero v1 || is_zero delta || is_zero i || (ONE <? k))%bool then 0
  else if is_zero k then
    let linear := mul_down i delta in
    if v1 <? linear then v1 else linear
  else if k =? ONE then solve_k_one v0 v1 delta i
  else
    let_some v2 := quadratic_v2 v0 v1 delta i k or 0 in
    if v1 <? v2 then 0 else v1 -% v2.

Definition general_integrate (v0 v1 v2 i k : Z) : Z :=
  if (is_zero v0 || (v1 <? v2) || is_zero v2 || is_zero i || (ONE <? k))%bool then 0
  else
    let delta := v1 -% v2 in
    let fair_amount := i *%% delta in
    if is_zero k then u512_to_u256 (fair_amount / ONE)
    else
      let denom := v1 *%% v2 in
      let ratio := if is_zero denom then 0 else ONE *%% v0 *%% v0 / denom in
      let penalty := k *%% ratio / ONE in
      let factor := (ONE -% k) +%% penalty in
      u512_to_u256 (factor *%% fair_amount / ONE2).

(** The two cases that first move the pool back to its target: the caller's
    [back_in] and [back_out], the integral up to the target and the quadratic
    beyond it. *)
Definition get_dodo_gross_amount_out
    (state : DodoPoolState) (amount_in : Z) (base_to_quote : bool) : Z :=
  if is_zero amount_in then 0
  else
  let b := dd_base_reserve state in
  let q := dd_quote_reserve state in
  let i := dd_i state in
  let k := dd_k state in
  if (is_zero i || (ONE <? k) || is_zero b || is_zero q)%bool then 0
  else
  match dd_r_state state, base_to_quote with
  | One, true =>
      solve_quadratic_function_for_trade (dd_quote_target state) (dd_quote_target state) amount_in i k
  | One, false =>
      solve_quadratic_function_for_trade (dd_base_target state) (dd_base_target state) amount_in
        (reciprocal_floor i) k
  | AboveOne, true =>
      let back_in := saturating_sub (dd_base_target state) b in
      let back_out := saturating_sub q (dd_quote_target state) in
      if amount_in <? back_in then
        Z.min (general_integrate (dd_base_target state) (b +% amount_in) b i k) back_out
      else if amount_in =? back_in then back_out
      else back_out +%
        solve_quadratic_function_for_trade (dd_quote_target state) (dd_quote_target state)
          (amount_in -% back_in) i k
  | AboveOne, false =>
      solve_quadratic_function_for_trade (dd_base_target state) b amount_in (reciprocal_floor i) k
  | BelowOne, true =>
      solve_quadratic_function_for_trade (dd_quote_target state) q amount_in i k
  | BelowOne, false =>
      let back_in := saturating_sub (dd_quote_target state) q in
      let back_out := saturating_sub b (dd_base_target state) in
      let inv_i := reciprocal_floor i in
      if amount_in <? back_in then
        Z.min (general_integrate (dd_quote_target state) (q +% amount_in) q inv_i k) back_out
      else if amount_in =? back_in then back_out
      else back_out +%
        solve_quadratic_function_for_trade (dd_base_target state) (dd_base_target state)
          (amount_in -% back_in) inv_i k
  end.

Definition get_dodo_amount_out
    (state : DodoPoolState) (amount_in : Z) (base_to_quote : bool) : Z :=
  let gross := get_dodo_gross_amount_out state amount_in base_to_quote in
  if is_zero gross then 0
  else
    let lp := dd_lp_fee_rate state in
    let mt := dd_mt_fee_rate state in
    if ((ONE <=? lp) || (ONE <=? mt) || (ONE <=? saturating_add lp mt))%bool then 0
    else gross -% mul_down gross lp -% mul_down gross mt.

Definition dodo_fee_bps_from_pool (lp_fee_rate mt_fee_rate : Z) : option Z :=
  let total := saturating_add lp_fee_rate mt_fee_rate in
  if (is_zero total || (ONE <=? total))%bool then None
  else
    let bps := (total *% 10000) / ONE in
    Some (Z.min bps 9999).

Definition estimate_dodo_hop_capacity (state : DodoPoolState) (base_to_quote : bool) : Z :=
  let b := dd_base_reserve state in
  let q := dd_quote_reserve state in
  if (is_zero b || is_zero q)%bool then 0
  else
    let reserve_fraction reserve :=
      let tenth := reserve / 10 in if 0 <? tenth then tenth else reserve in
    reserve_fraction (if base_to_quote then b else q).

(** ** The solver never pays out more than the reserve *)

Lemma u512_to_u256_checked_range v r : u512_to_u256_checked v = Some r → u256 r.
Proof.
  unfold u512_to_u256_checked. destruct (_ <=? _); [done|]. intros [= <-].
  apply Z.mod_pos_bound. done.
Qed.

Lemma solve_k_one_le v0 v1 delta i : u256 v1 → 0 ≤ solve_k_one v0 v1 delta i ≤ v1.
Proof.
  intros Hv1. unfold solve_k_one. assert (0 ≤ v1) by (by destruct Hv1).
  destruct (is_zero (v0 *%% v0)); [lia|].
  destruct (u512_to_u256_checked (i *%% delta *%% v1 / (v0 *%% v0))) as [temp|] eqn:E; [|lia].
  apply u512_to_u256_checked_range in E as Ht.
  destruct (is_zero temp); [lia|].
  rewrite wmul512_u256 by done. unfold u256 in *.
  assert (0 < ONE < M256) by (split; vm_compute; reflexivity).
  assert (M256 + M256 < M512) by (vm_compute; reflexivity).
  rewrite wadd512_small by lia.
  assert (0 ≤ v1 * temp / (temp + ONE) ≤ v1) as Hq.
  { assert (0 ≤ v1 * temp ∧ 0 ≤ v1 * ONE) as [? ?] by (split; apply Z.mul_nonneg_nonneg; lia).
    split; [apply Z.div_pos; lia|]. apply Z.div_le_upper_bound; lia. }
  rewrite u512_to_u256_checked_spec by lia. destruct (_ <? _); simpl; lia.
Qed.

Lemma solve_quadratic_le v0 v1 delta i k :
  u256 v1 → 0 ≤ i → 0 ≤ delta →
  0 ≤ solve_quadratic_function_for_trade v0 v1 delta i k ≤ v1.
Proof.
  intros Hv1 Hi Hdelta. unfold solve_quadratic_function_for_trade.
  assert (0 ≤ v1) by (by destruct Hv1).
  destruct (_ || _)%bool; [lia|]. destruct (is_zero k).
  { assert (0 ≤ mul_down i delta).
    { unfold mul_down, checked_mul. destruct (_ <? _).
      - apply Z.div_pos; [nia|done].
      - by destruct (u512_to_u256_range ((i *%% delta) / ONE)). }
    destruct (Z.ltb_spec v1 (mul_down i delta)); lia. }
  destruct (k =? ONE); [by apply solve_k_one_le|].
  destruct (quadratic_v2 v0 v1 delta i k) as [v2|] eqn:E; [|lia].
  destruct (Z.ltb_spec v1 v2); [lia|].
  assert (0 ≤ v2).
  { unfold quadratic_v2 in E. cases_in E. all: unfold div_ceil; destruct (is_zero _); [done|].
    all: match goal with |- 0 ≤ u512_to_u256 ?x => by destruct (u512_to_u256_range x) end. }
  unfold u256 in Hv1. rewrite wsub_small by lia. lia.
Qed.

(** ** Properties *)

(** The targets of each R state, as the contract keeps them: on the side that
    is not depleted the reserve is at least its target. *)
Definition dodo_consistent (s : DodoPoolState) : Prop :=
  match dd_r_state s with
  | One => dd_base_target s ≤ dd_base_reserve s ∧ dd_quote_target s ≤ dd_quote_reserve s
  | AboveOne => dd_quote_target s ≤ dd_quote_reserve s
  | BelowOne => dd_base_target s ≤ dd_base_reserve s
  end.

Definition dodo_wf (s : DodoPoolState) : Prop :=
  u256 (dd_base_reserve s) ∧ u256 (dd_quote_reserve s) ∧ u256 (dd_base_target s) ∧
  u256 (dd_quote_target s) ∧ u256 (dd_i s) ∧ 0 ≤ dd_lp_fee_rate s ∧ 0 ≤ dd_mt_fee_rate s.

Lemma reciprocal_floor_nonneg i : 0 ≤ reciprocal_floor i.
Proof.
  unfold reciprocal_floor. destruct (is_zero i); [done|].
  by destruct (u512_to_u256_range (ONE2 / i)).
Qed.

Lemma general_integrate_nonneg v0 v1 v2 i k : 0 ≤ general_integrate v0 v1 v2 i k.
Proof.
  unfold general_integrate. destruct (_ || _)%bool; [done|].
  destruct (is_zero k); match goal with |- 0 ≤ u512_to_u256 ?x => by destruct (u512_to_u256_range x) end.
Qed.

(** The way back to the target, then beyond it: never more than the reserve. *)
Lemma back_leg_le reserve target integral solved amount back_in :
  0 ≤ target ≤ reserve → reserve < M256 → 0 ≤ integral → 0 ≤ solved ≤ target →
  let back_out := saturating_sub reserve target in
  0 ≤ (if amount <? back_in then Z.min integral back_out
       else if amount =? back_in then back_out else back_out +% solved) ≤ reserve.
Proof.
  intros Ht Hr Hi Hs. cbn zeta. unfold saturating_sub. rewrite Z.max_r by lia.
  destruct (_ <? _); [lia|]. destruct (_ =? _); [lia|]. rewrite wadd_small by lia. lia.
Qed.

Lemma get_dodo_gross_amount_out_le (s : DodoPoolState) (amount_in : Z) (base_to_quote : bool) :
  dodo_wf s → dodo_consistent s → 0 ≤ amount_in →
  0 ≤ get_dodo_gross_amount_out s amount_in base_to_quote
    ≤ if base_to_quote then dd_quote_reserve s else dd_base_reserve s.
Proof.
  intros (Hb & Hq & Hbt & Hqt & Hi & _) Hc Ha. unfold get_dodo_gross_amount_out.
  set (i := dd_i s) in *. set (k := dd_k s) in *. pose proof (reciprocal_floor_nonneg i) as Hri.
  assert (0 ≤ if base_to_quote then dd_quote_reserve s else dd_base_reserve s)
    by (destruct base_to_quote; unfold u256 in *; lia).
  destruct (is_zero amount_in); [lia|]. destruct (_ || _)%bool; [lia|].
  assert (∀ v0 v1 d i, u256 v1 → 0 ≤ i → 0 ≤ d →
    0 ≤ solve_quadratic_function_for_trade v0 v1 d i k ≤ v1) as Hsolve
    by (intros; by apply solve_quadratic_le).
  assert (0 ≤ i) as Hi0 by (by destruct Hi).
  unfold dodo_consistent in Hc.
  destruct (dd_r_state s), base_to_quote; cbn iota zeta.
  - specialize (Hsolve (dd_quote_target s) (dd_quote_target s) amount_in i Hqt Hi0 Ha). lia.
  - specialize (Hsolve (dd_base_target s) (dd_base_target s) amount_in _ Hbt Hri Ha). lia.
  - apply back_leg_le; [unfold u256 in *; lia|by destruct Hq|apply general_integrate_nonneg|].
    apply Hsolve; [done..|]. by destruct (wsub_range amount_in (saturating_sub (dd_base_target s) (dd_base_reserve s))).
  - by apply Hsolve.
  - by apply Hsolve.
  - apply back_leg_le; [unfold u256 in *; lia|by destruct Hb|apply general_integrate_nonneg|].
    apply Hsolve; [done..|]. by destruct (wsub_range amount_in (saturating_sub (dd_quote_target s) (dd_quote_reserve s))).
Qed.

(** In every R state and both directions a DODO quote, fees included, is
    non-negative, at most the gross quote and at most the pool's reserve of the
    output token: neither fee subtraction wraps. *)
Lemma get_dodo_amount_out_le_reserve (s : DodoPoolState) (amount_in : Z) (base_to_quote : bool) :
  dodo_wf s → dodo_consistent s → 0 ≤ amount_in →
  let gross := get_dodo_gross_amount_out s amount_in base_to_quote in
  let net := get_dodo_amount_out s amount_in base_to_quote in
  0 ≤ net ≤ gross ∧ gross ≤ if base_to_quote then dd_quote_reserve s else dd_base_reserve s.
Proof.
  intros Hwf Hc Ha. cbn zeta.
  destruct (get_dodo_gross_amount_out_le s amount_in base_to_quote) as [Hg0 Hg]; [done..|].
  split; [|done]. unfold get_dodo_amount_out. set (gross := get_dodo_gross_amount_out _ _ _) in *.
  destruct Hwf as (Hb & Hq & _ & _ & _ & Hlp & Hmt).
  assert (u256 gross) as Hgr by (unfold u256 in *; destruct base_to_quote; lia). clearbody gross.
  destruct (is_zero gross); [lia|].
  destruct (_ || _)%bool eqn:E; [lia|]. unfold saturating_add, U256_MAX in E. zbool.
  assert (dd_lp_fee_rate s + dd_mt_fee_rate s < ONE).
  { assert (ONE < M256 - 1) by (vm_compute; reflexivity). lia. }
  destruct (mul_down_le gross (dd_lp_fee_rate s) Hgr ltac:(lia)) as [-> ?].
  destruct (mul_down_le gross (dd_mt_fee_rate s) Hgr ltac:(lia)) as [-> ?].
  assert (gross * dd_lp_fee_rate s / ONE + gross * dd_mt_fee_rate s / ONE ≤ gross).
  { pose proof (div_mul_le (gross * dd_lp_fee_rate s) ONE ltac:(done)).
    pose proof (div_mul_le (gross * dd_mt_fee_rate s) ONE ltac:(done)).
    assert (0 < ONE) by done. nia. }
  assert (0 ≤ gross * dd_lp_fee_rate s / ONE) by (apply Z.div_pos; [nia|done]).
  assert (0 ≤ gross * dd_mt_fee_rate s / ONE) by (apply Z.div_pos; [nia|done]).
  unfold u256 in Hgr. rewrite (wsub_small gross), wsub_small by lia. lia.
Qed.

Definition demo_dodo : DodoPoolState :=
  {| dd_base_reserve := 1100 * ONE; dd_quote_reserve := 900 * 10 ^ 6; dd_base_token := 1;
     dd_quote_token := 2; dd_base_target := 1000 * ONE; dd_quote_target := 1000 * 10 ^ 6;
     dd_r_state := BelowOne; dd_i := 10 ^ 6; dd_k := 10 ^ 17; dd_lp_fee_rate := 10 ^ 15;
     dd_mt_fee_rate := 10 ^ 14 |}.

Lemma get_dodo_amount_out_le_reserve_witness :
  let gross := get_dodo_gross_amount_out demo_dodo (5 * 10 ^ 6) false in
  let net := get_dodo_amount_out demo_dodo (5 * 10 ^ 6) false in
  0 ≤ net ≤ gross ∧ gross ≤ dd_base_reserve demo_dodo.
Proof.
  apply (get_dodo_amount_out_le_reserve demo_dodo (5 * 10 ^ 6) false).
  - unfold dodo_wf. split_and!; vm_compute; (discriminate || reflexivity || (split; (discriminate || reflexivity))).
  - vm_compute. discriminate.
  - vm_compute. discriminate.
Defined.
