(* ===== verification/Woofi.v ===== *)
(** * WOOFi pools

    [src/src/core/math/woofi.rs]: the oracle-priced quote of each leg, the fees
    and the three routes (base to quote, quote to base, base to base).  The last
    division of each leg, by [ONE * dec], is not guarded against a wrap to zero,
    so the legs return an [outcome]. *)
From S2P Require Import Prelude Word Types.

Definition WOOFI_FEE_DENOMINATOR : Z := from_limbs 100000 0 0 0.

Definition mul_div_triple (a b c d e : Z) : outcome Z :=
  let fast :=
    let? ab := checked_mul a b in
    let? abc := checked_mul ab c in
    let? de := checked_mul d e in
    if is_zero de then None else Some (abc / de) in
  match fast with
  | Some r => Done r
  | None =>
      let! result := pdiv (a *%% b *%% c) (d *%% e) in
      Done (if U256_MAX <? result then 0 else u512_to_u256 result)
  end.

Definition has_positive_swap_factor (gamma spread : Z) : bool :=
  ((gamma <=? ONE) && (spread <=? ONE) && (gamma +% spread <? ONE))%bool.

Definition woofi_unusable (base : WoofiBaseTokenState) (amount : Z) : bool :=
  (is_zero amount || is_zero (wb_price base) || is_zero (wb_base_dec base)
   || is_zero (wb_quote_dec base) || is_zero (wb_price_dec base))%bool.

Definition calc_quote_amount_sell_base
    (base : WoofiBaseTokenState) (base_amount : Z) (spread_override : option Z) : outcome Z :=
  let spread := default (wb_spread base) spread_override in
  if woofi_unusable base base_amount then Done 0
  else
  let! notional_swap :=
    mul_div_triple base_amount (wb_price base) (wb_quote_dec base) (wb_base_dec base) (wb_price_dec base) in
  if wb_max_notional_swap base <? notional_swap then Done 0
  else
  let! gamma :=
    mul_div_triple base_amount (wb_price base) (wb_coeff base) (wb_price_dec base) (wb_base_dec base) in
  if wb_max_gamma base <? gamma then Done 0
  else if negb (has_positive_swap_factor gamma spread) then Done 0
  else
  let! quote_no_spread :=
    mul_div_triple base_amount (wb_price base) (wb_quote_dec base) (wb_price_dec base) 1 in
  pdiv (quote_no_spread *% (ONE -% gamma -% spread)) (ONE *% wb_base_dec base).

Definition calc_base_amount_sell_quote
    (base : WoofiBaseTokenState) (quote_amount : Z) (spread_override : option Z) : outcome Z :=
  let spread := default (wb_spread base) spread_override in
  if woofi_unusable base quote_amount then Done 0
  else if wb_max_notional_swap base <? quote_amount then Done 0
  else
  let gamma := (quote_amount *% wb_coeff base) / wb_quote_dec base in
  if wb_max_gamma base <? gamma then Done 0
  else if negb (has_positive_swap_factor gamma spread) then Done 0
  else
  let! base_no_spread :=
    mul_div_triple quote_amount (wb_base_dec base) (wb_price_dec base) (wb_price base) 1 in
  pdiv (base_no_spread *% (ONE -% gamma -% spread)) (ONE *% wb_quote_dec base).

Definition apply_woofi_fee (amount fee_rate : Z) : Z :=
  if (is_zero amount || (WOOFI_FEE_DENOMINATOR <=? fee_rate))%bool then 0
  else amount -% (amount *% fee_rate) / WOOFI_FEE_DENOMINATOR.

Definition woofi_fee_rate_to_bps (fee_rate : Z) : Z :=
  if WOOFI_FEE_DENOMINATOR <=? fee_rate then 9999
  else Z.min ((fee_rate *% 10000) / WOOFI_FEE_DENOMINATOR) 9999.

Definition woofi_fee_bps_from_edge
    (state : WoofiPoolState) (token_in_idx token_out_idx : nat) : option Z :=
  let bases := wf_base_states state in
  let quote_idx := length bases in
  let tin := token_in_idx in
  let tout := token_out_idx in
  if ((tin =? tout) || (quote_idx <? tin) || (quote_idx <? tout))%nat%bool then None
  else
    let? total :=
      if (tout =? quote_idx)%nat then
        let? base := bases !! tin in Some (woofi_fee_rate_to_bps (wb_fee_rate base))
      else if (tin =? quote_idx)%nat then
        let? base := bases !! tout in Some (woofi_fee_rate_to_bps (wb_fee_rate base))
      else
        let? base_in := bases !! tin in
        let? base_out := bases !! tout in
        let sell := woofi_fee_rate_to_bps (wb_fee_rate base_in) in
        let buy := woofi_fee_rate_to_bps (wb_fee_rate base_out) in
        Some (Z.max sell buy) in
    Some (Z.min total 9999).

(** [Option::and_then(|i| xs.get(i))]. *)
Definition get_base (state : WoofiPoolState) (idx : option nat) : option WoofiBaseTokenState :=
  let? idx := idx in wf_base_states state !! idx.

Definition get_woofi_amount_out
    (state : WoofiPoolState) (amount_in : Z) (token_in_is_quote token_out_is_quote : bool)
    (base_in_idx base_out_idx : option nat) : outcome Z :=
  if is_zero amount_in then Done 0
  else if token_out_is_quote then
    let_some base := get_base state base_in_idx or Done 0 in
    let! gross_quote_out := calc_quote_amount_sell_base base amount_in None in
    let quote_out := apply_woofi_fee gross_quote_out (wb_fee_rate base) in
    if (is_zero (wf_quote_reserve state) || (wf_quote_reserve state <? quote_out))%bool
    then Done 0 else Done quote_out
  else if token_in_is_quote then
    let_some base := get_base state base_out_idx or Done 0 in
    let fee_adjusted := apply_woofi_fee amount_in (wb_fee_rate base) in
    let! base_out := calc_base_amount_sell_quote base fee_adjusted None in
    if (is_zero (wb_reserve base) || (wb_reserve base <? base_out))%bool
    then Done 0 else Done base_out
  else
    let_some sell_idx := base_in_idx or Done 0 in
    let_some buy_idx := base_out_idx or Done 0 in
    let_some sell := wf_base_states state !! sell_idx or Done 0 in
    let_some buy := wf_base_states state !! buy_idx or Done 0 in
    if ((wb_reserve sell <? amount_in) || is_zero (wb_reserve sell))%bool then Done 0
    else
    let spread := Z.max (wb_spread sell) (wb_spread buy) / 2 in
    let fee_rate := Z.max (wb_fee_rate sell) (wb_fee_rate buy) in
    let! quote_gross := calc_quote_amount_sell_base sell amount_in (Some spread) in
    if (is_zero quote_gross || (wf_quote_reserve state <? quote_gross))%bool then Done 0
    else
    let quote_amount := apply_woofi_fee quote_gross fee_rate in
    let! base_out := calc_base_amount_sell_quote buy quote_amount (Some spread) in
    if (is_zero (wb_reserve buy) || (wb_reserve buy <? base_out))%bool
    then Done 0 else Done base_out.

(** ** The multiply-divide *)

Lemma mul_div_triple_total a b c d e :
  u256 a → u256 b → u256 c → 0 < d < M256 → 0 < e < M256 →
  ∃ r, mul_div_triple a b c d e = Done r ∧ 0 ≤ r < M256 ∧ r ≤ a * b * c / (d * e).
Proof.
  intros Ha Hb Hc Hd He. unfold mul_div_triple, checked_mul, is_zero, pdiv, u256 in *.
  assert (0 < d * e) by nia. assert (0 ≤ a * b * c) by nia.
  assert (d * e < M512) by (rewrite M512_eq; nia).
  rewrite (wmul512_small d e) by lia.
  assert (0 ≤ (a *%% b *%% c) / (d * e) ≤ a * b * c / (d * e)) as Hslow.
  { pose proof (wmul512_le a b ltac:(lia) ltac:(lia)).
    assert (0 ≤ a *%% b) by (by apply Z.mod_pos_bound).
    pose proof (wmul512_le (a *%% b) c ltac:(lia) ltac:(lia)).
    assert (0 ≤ a *%% b *%% c) by (by apply Z.mod_pos_bound).
    split; [apply Z.div_pos; lia|]. apply div_le_mono_num; [done|]. nia. }
  destruct (Z.eqb_spec (d * e) 0); [lia|]. cbn [obind].
  assert (∀ q, 0 ≤ q ≤ a * b * c / (d * e) →
    0 ≤ (if U256_MAX <? q then 0 else u512_to_u256 q) < M256 ∧
    (if U256_MAX <? q then 0 else u512_to_u256 q) ≤ a * b * c / (d * e)) as Hfit.
  { intros q Hq. unfold U256_MAX. destruct (Z.ltb_spec (M256 - 1) q); [pose proof M256_pos; lia|].
    rewrite u512_to_u256_small by lia. lia. }
  destruct (Z.ltb_spec (a * b) M256); [|eexists; split; [done|by apply Hfit]].
  destruct (Z.ltb_spec (a * b * c) M256); [|eexists; split; [done|by apply Hfit]].
  destruct (Z.ltb_spec (d * e) M256); [|eexists; split; [done|by apply Hfit]].
  destruct (Z.eqb_spec (d * e) 0); [lia|].
  eexists. split; [done|]. assert (0 ≤ a * b * c / (d * e)) by (apply Z.div_pos; lia).
  split; [|lia]. split; [done|]. apply Z.div_lt_upper_bound; nia.
Qed.

(** A base token whose fields are words and whose scales keep [ONE * dec]
    inside the word. *)
Definition woofi_base_wf (s : WoofiBaseTokenState) : Prop :=
  u256 (wb_price s) ∧ u256 (wb_coeff s) ∧ u256 (wb_base_dec s) ∧ u256 (wb_quote_dec s) ∧
  u256 (wb_price_dec s) ∧ ONE * wb_base_dec s < M256 ∧ ONE * wb_quote_dec s < M256 ∧
  0 ≤ wb_spread s ∧ 0 ≤ wb_fee_rate s.

Lemma swap_factor gamma spread :
  0 ≤ gamma → 0 ≤ spread → has_positive_swap_factor gamma spread = true →
  0 < ONE -% gamma -% spread ≤ ONE.
Proof.
  intros Hg Hs. unfold has_positive_swap_factor. intros H. zbool.
  assert (ONE + ONE < M256) by (vm_compute; reflexivity). rewrite wadd_small in * by lia.
  rewrite (wsub_small ONE), wsub_small by lia. lia.
Qed.

(** The last step of a leg: scaling by the swap factor and the decimals. *)
Lemma factor_div_le x f dec : 0 ≤ x → 0 ≤ f ≤ ONE → dec ≠ 0 → 0 ≤ dec → ONE * dec < M256 →
  ∃ r, pdiv (x *% f) (ONE *% dec) = Done r ∧ 0 ≤ r < M256 ∧ r * dec ≤ x.
Proof.
  intros Hx Hf Hd0 Hd Hroom. assert (0 < ONE) by done. assert (0 < ONE * dec) by nia.
  rewrite (wmul_small ONE dec) by lia. unfold pdiv. destruct (Z.eqb_spec (ONE * dec) 0); [lia|].
  eexists. split; [done|]. pose proof (wmul_le x f Hx ltac:(lia)).
  destruct (wmul_range x f) as [? ?]. split.
  - split; [by apply Z.div_pos|]. apply Z.div_lt_upper_bound; nia.
  - pose proof (div_mul_le (x *% f) (ONE * dec) ltac:(done)).
    apply (Z.mul_le_mono_pos_r _ _ ONE); [done|].
    assert (x * f ≤ x * ONE) by nia. lia.
Qed.

Lemma woofi_usable base amount : woofi_unusable base amount = false →
  amount ≠ 0 ∧ wb_price base ≠ 0 ∧ wb_base_dec base ≠ 0 ∧ wb_quote_dec base ≠ 0 ∧ wb_price_dec base ≠ 0.
Proof. unfold woofi_unusable, is_zero. intros H. zbool. done. Qed.

(** Selling base: the quote is at most the oracle value, in cross-multiplied
    form; and buying it. *)
Section legs.
Context (base : WoofiBaseTokenState) (Hwf : woofi_base_wf base).
Context (amount : Z) (Hamount : u256 amount).
Context (so : option Z) (Hso : ∀ s, so = Some s → 0 ≤ s).

Lemma spread_nonneg : 0 ≤ default (wb_spread base) so.
Proof using All. destruct so; [by apply Hso|]. by destruct Hwf as (_ & _ & _ & _ & _ & _ & _ & ? & _). Qed.

Lemma sell_base_bound :
  ∃ q, calc_quote_amount_sell_base base amount so = Done q ∧ 0 ≤ q < M256 ∧
    q * (wb_price_dec base * wb_base_dec base) ≤ amount * wb_price base * wb_quote_dec base.
Proof using All.
  pose proof spread_nonneg as Hs. destruct Hwf as (Hp & Hc & Hb & Hq & Hpd & Hbr & _).
  unfold calc_quote_amount_sell_base. cbv zeta. set (spread := default _ so) in *. clearbody spread.
  assert (0 ≤ amount * wb_price base * wb_quote_dec base) as Hval by (unfold u256 in *; nia).
  assert (∃ q, Done 0 = Done q ∧ 0 ≤ q < M256 ∧
    q * (wb_price_dec base * wb_base_dec base) ≤ amount * wb_price base * wb_quote_dec base) as Hzero
    by (exists 0; pose proof M256_pos; split_and!; [done|lia..]).
  destruct (woofi_unusable base amount) eqn:Hu; [done|].
  apply woofi_usable in Hu as (? & ? & ? & ? & ?).
  assert (0 < wb_base_dec base < M256 ∧ 0 < wb_price_dec base < M256) as [Hb' Hpd'] by (unfold u256 in *; lia).
  destruct (mul_div_triple_total amount (wb_price base) (wb_quote_dec base) (wb_base_dec base)
    (wb_price_dec base)) as (notional & -> & _); [done..|]. cbn [obind].
  destruct (_ <? notional); [done|].
  destruct (mul_div_triple_total amount (wb_price base) (wb_coeff base) (wb_price_dec base)
    (wb_base_dec base)) as (gamma & -> & Hg & _); [done..|]. cbn [obind].
  destruct (_ <? gamma); [done|].
  destruct (has_positive_swap_factor gamma spread) eqn:Hf; cbn [negb]; [|done].
  apply swap_factor in Hf; [|lia..].
  destruct (mul_div_triple_total amount (wb_price base) (wb_quote_dec base) (wb_price_dec base) 1)
    as (gross & -> & Hgr & Hle); [done..|]. cbn [obind]. rewrite Z.mul_1_r in Hle.
  destruct (factor_div_le gross (ONE -% gamma -% spread) (wb_base_dec base)) as (q & -> & Hq0 & Hqb);
    [lia|lia|done|lia|done|].
  exists q. split; [done|]. split; [done|].
  pose proof (div_mul_le (amount * wb_price base * wb_quote_dec base) (wb_price_dec base) ltac:(lia)).
  assert (q * wb_base_dec base * wb_price_dec base ≤ gross * wb_price_dec base) by nia. nia.
Qed.

Lemma sell_quote_bound :
  ∃ r, calc_base_amount_sell_quote base amount so = Done r ∧ 0 ≤ r < M256 ∧
    r * (wb_price base * wb_quote_dec base) ≤ amount * wb_base_dec base * wb_price_dec base.
Proof using All.
  pose proof spread_nonneg as Hs. destruct Hwf as (Hp & Hc & Hb & Hq & Hpd & _ & Hqr & _).
  unfold calc_base_amount_sell_quote. cbv zeta. set (spread := default _ so) in *. clearbody spread.
  assert (0 ≤ amount * wb_base_dec base * wb_price_dec base) as Hval by (unfold u256 in *; nia).
  assert (∃ r, Done 0 = Done r ∧ 0 ≤ r < M256 ∧
    r * (wb_price base * wb_quote_dec base) ≤ amount * wb_base_dec base * wb_price_dec base) as Hzero
    by (exists 0; pose proof M256_pos; split_and!; [done|lia..]).
  destruct (woofi_unusable base amount) eqn:Hu; [done|].
  apply woofi_usable in Hu as (? & ? & ? & ? & ?).
  assert (0 < wb_quote_dec base < M256 ∧ 0 < wb_price base < M256) as [Hq' Hp'] by (unfold u256 in *; lia).
  destruct (_ <? amount); [done|]. destruct (wb_max_gamma base <? _); [done|].
  destruct (has_positive_swap_factor _ spread) eqn:Hf; cbn [negb]; [|done].
  apply swap_factor in Hf; [|apply Z.div_pos; [by destruct (wmul_range amount (wb_coeff base))|lia]|done].
  destruct (mul_div_triple_total amount (wb_base_dec base) (wb_price_dec base) (wb_price base) 1)
    as (gross & -> & Hgr & Hle); [done..|]. cbn [obind]. rewrite Z.mul_1_r in Hle.
  edestruct (factor_div_le gross) as (r & -> & Hr0 & Hrb); [..|exists r]; [lia|lia|done|lia|done|].
  split; [done|]. split; [done|].
  pose proof (div_mul_le (amount * wb_base_dec base * wb_price_dec base) (wb_price base) ltac:(lia)).
  assert (r * wb_quote_dec base * wb_price base ≤ gross * wb_price base) by nia. nia.
Qed.

End legs.

Lemma apply_woofi_fee_le amount fee_rate :
  u256 amount → 0 ≤ fee_rate → 0 ≤ apply_woofi_fee amount fee_rate ≤ amount.
Proof.
  intros Ha Hf. unfold apply_woofi_fee. destruct (_ || _)%bool eqn:E; [unfold u256 in Ha; lia|]. zbool.
  pose proof (wmul_le amount fee_rate ltac:(by destruct Ha) Hf).
  assert (0 ≤ (amount *% fee_rate) / WOOFI_FEE_DENOMINATOR ≤ amount).
  { split; [apply Z.div_pos; [by destruct (wmul_range amount fee_rate)|done]|].
    apply Z.div_le_upper_bound; [done|]. unfold u256 in Ha. nia. }
  unfold u256 in Ha. rewrite wsub_small by lia. lia.
Qed.

(** ** Properties *)

Definition woofi_wf (s : WoofiPoolState) : Prop := Forall woofi_base_wf (wf_base_states s).

(** A WOOFi quote never panics, on any of the three routes, and is at most
    the reserve that pays it out. *)
Lemma get_woofi_amount_out_safe (s : WoofiPoolState) (amount_in : Z) (in_quote out_quote : bool)
    (base_in base_out : option nat) :
  woofi_wf s → u256 amount_in → 0 ≤ wf_quote_reserve s →
  ∃ r, get_woofi_amount_out s amount_in in_quote out_quote base_in base_out = Done r ∧
    0 ≤ r ∧ (if out_quote then r ≤ wf_quote_reserve s
             else r = 0 ∨ ∃ b, get_base s base_out = Some b ∧ r ≤ wb_reserve b).
Proof.
  intros Hwf Ha Hq. unfold get_woofi_amount_out.
  assert (∃ r, Done 0 = Done r ∧ 0 ≤ r ∧ (if out_quote then r ≤ wf_quote_reserve s
    else r = 0 ∨ ∃ b, get_base s base_out = Some b ∧ r ≤ wb_reserve b)) as Hzero
    by (exists 0; destruct out_quote; split_and!; eauto; done).
  assert (∀ i b, wf_base_states s !! i = Some b → woofi_base_wf b) as Hb
    by (intros i b; by apply Forall_lookup_1).
  assert (∀ o b, get_base s o = Some b → woofi_base_wf b) as Hgb
    by (intros [i|] b; simpl; [apply Hb|done]).
  assert (∀ s : Z, None = Some s → 0 ≤ s) as HNone by done.
  destruct (is_zero amount_in); [done|]. destruct out_quote; [|destruct in_quote].
  - destruct (get_base s base_in) as [b|] eqn:Eb; [|done].
    destruct (sell_base_bound b (Hgb _ _ Eb) amount_in Ha None HNone) as (g & -> & Hg & _). cbn [obind].
    destruct (apply_woofi_fee_le g (wb_fee_rate b)) as [? ?]; [done|by apply (Hgb _ _ Eb)|].
    destruct (_ || _)%bool eqn:E; [done|]. zbool. eauto.
  - destruct (get_base s base_out) as [b|] eqn:Eb; [|done].
    destruct (apply_woofi_fee_le amount_in (wb_fee_rate b)) as [? ?]; [done|by apply (Hgb _ _ Eb)|].
    destruct (sell_quote_bound b (Hgb _ _ Eb) (apply_woofi_fee amount_in (wb_fee_rate b))
      ltac:(unfold u256 in *; lia) None HNone) as (g & -> & Hg & _). cbn [obind].
    destruct (_ || _)%bool eqn:E; [done|]. zbool. eexists. split; [done|]. split; [lia|]. eauto.
  - destruct base_in as [i|]; [|done]. destruct base_out as [j|]; [|done].
    destruct (wf_base_states s !! i) as [sell|] eqn:Es; [|done].
    cbn [get_base] in *. destruct (wf_base_states s !! j) as [buy|] eqn:Eb; [|done].
    destruct (_ || _)%bool; [done|].
    pose proof (Hb _ _ Es) as Hws. pose proof (Hb _ _ Eb) as Hwb.
    assert (∀ x, Some (Z.max (wb_spread sell) (wb_spread buy) / 2) = Some x → 0 ≤ x) as HSome.
    { intros x [= <-]. apply Z.div_pos; [|lia]. destruct Hws as (_ & _ & _ & _ & _ & _ & _ & ? & _). lia. }
    destruct (sell_base_bound sell Hws amount_in Ha _ HSome) as (g & -> & Hg & _). cbn [obind].
    destruct (_ || _)%bool; [done|].
    destruct (apply_woofi_fee_le g (Z.max (wb_fee_rate sell) (wb_fee_rate buy))) as [? ?];
      [done|destruct Hws as (_ & _ & _ & _ & _ & _ & _ & _ & ?); lia|].
    destruct (sell_quote_bound buy Hwb (apply_woofi_fee g (Z.max (wb_fee_rate sell) (wb_fee_rate buy)))
      ltac:(unfold u256 in *; lia) _ HSome) as (r & -> & Hr & _). cbn [obind].
    destruct (_ || _)%bool eqn:E; [done|]. zbool. eexists. split; [done|]. split; [lia|]. eauto.
Qed.

(** Whatever the ranges of the state: a quote that is not zero is covered by the reserve. *)
Lemma get_woofi_amount_out_covered (s : WoofiPoolState) (amount_in : Z) (in_quote out_quote : bool)
    (base_in base_out : option nat) (r : Z) :
  get_woofi_amount_out s amount_in in_quote out_quote base_in base_out = Done r → r ≠ 0 →
  if out_quote then r ≤ wf_quote_reserve s else ∃ b, get_base s base_out = Some b ∧ r ≤ wb_reserve b.
Proof.
  unfold get_woofi_amount_out. intros H Hr. revert H. destruct (is_zero amount_in); [by intros [= <-]|].
  destruct out_quote; [|destruct in_quote].
  - destruct (get_base s base_in) as [b|]; [|by intros [= <-]].
    destruct (calc_quote_amount_sell_base _ _ _) as [g|]; [|done]. cbn [obind].
    destruct (_ || _)%bool eqn:E; intros [= <-]; [done|]. zbool. lia.
  - destruct (get_base s base_out) as [b|]; [|by intros [= <-]].
    destruct (calc_base_amount_sell_quote _ _ _) as [g|]; [|done]. cbn [obind].
    destruct (_ || _)%bool eqn:E; intros [= <-]; [done|]. zbool. exists b. split; [done|lia].
  - destruct base_in as [i|]; [|by intros [= <-]]. destruct base_out as [j|]; [|by intros [= <-]].
    destruct (wf_base_states s !! i) as [sell|]; [|by intros [= <-]]. cbn [get_base].
    destruct (wf_base_states s !! j) as [buy|]; [|by intros [= <-]].
    destruct (_ || _)%bool; [by intros [= <-]|].
    destruct (calc_quote_amount_sell_base _ _ _) as [q|]; [|done]. cbn [obind].
    destruct (_ || _)%bool; [by intros [= <-]|].
    destruct (calc_base_amount_sell_quote _ _ _) as [g|]; [|done]. cbn [obind].
    destruct (_ || _)%bool eqn:E; intros [= <-]; [done|]. zbool. exists buy. split; [done|lia].
Qed.

(** A WOOFi token bought back with the proceeds of selling it, on the same
    oracle state, never returns more than was sold: the two legs are consistent
    and all their roundings favour the pool. *)
Theorem woofi_round_trip_no_gain (base : WoofiBaseTokenState) (x q r : Z) :
  woofi_base_wf base → u256 x → 0 < wb_price base → 0 < wb_base_dec base → 0 < wb_quote_dec base →
  0 < wb_price_dec base →
  calc_quote_amount_sell_base base x None = Done q →
  calc_base_amount_sell_quote base q None = Done r → 0 ≤ r ≤ x.
Proof.
  intros Hwf Hx Hp Hb Hq Hpd Hsell Hbuy.
  destruct (sell_base_bound base Hwf x Hx None ltac:(done)) as (q' & Eq & Hqr & Hle1).
  rewrite Hsell in Eq. apply Done_inj in Eq as <-.
  destruct (sell_quote_bound base Hwf q Hqr None ltac:(done)) as (r' & Er & Hrr & Hle2).
  rewrite Hbuy in Er. apply Done_inj in Er as <-. split; [lia|].
  assert (0 < wb_price base * wb_quote_dec base) by nia.
  apply (Z.mul_le_mono_pos_r _ _ (wb_price base * wb_quote_dec base)); [done|]. lia.
Qed.

Definition demo_woofi_base : WoofiBaseTokenState :=
  {| wb_price := 150 * 10 ^ 8; wb_spread := 3 * 10 ^ 14; wb_coeff := 10 ^ 9;
     wb_reserve := 1000 * 10 ^ 18; wb_base_dec := 10 ^ 18; wb_quote_dec := 10 ^ 6;
     wb_price_dec := 10 ^ 8; wb_fee_rate := 25; wb_max_gamma := ONE;
     wb_max_notional_swap := 10 ^ 30 |}.

Lemma woofi_round_trip_no_gain_witness :
  let x := 2 * 10 ^ 18 in let q := 299909910 in let r := 1998798980540305891 in 0 ≤ r ≤ x.
Proof.
  apply (woofi_round_trip_no_gain demo_woofi_base (2 * 10 ^ 18) 299909910);
    try (vm_compute; reflexivity).
  - unfold woofi_base_wf, u256. split_and!; vm_compute; (discriminate || reflexivity).
  - split; vm_compute; (discriminate || reflexivity).
Defined.

Lemma get_woofi_amount_out_safe_witness :
  let s := {| wf_tokens := [1; 2]; wf_quote_reserve := 10 ^ 12; wf_base_states := [demo_woofi_base];
              wf_fee := 0 |} in
  ∃ r, get_woofi_amount_out s (2 * 10 ^ 18) false true (Some 0%nat) None = Done r ∧
    0 ≤ r ∧ r ≤ wf_quote_reserve s.
Proof.
  cbn zeta.
  apply (get_woofi_amount_out_safe {| wf_tokens := [1; 2]; wf_quote_reserve := 10 ^ 12;
    wf_base_states := [demo_woofi_base]; wf_fee := 0 |} (2 * 10 ^ 18) false true (Some 0%nat) None).
  - unfold woofi_wf. repeat constructor; vm_compute; (discriminate || reflexivity).
  - split; vm_compute; (discriminate || reflexivity).
  - vm_compute. discriminate.
Defined.
