(* ===== verification/Gas.v ===== *)
(** * Gas estimates and fees

    The gas section of [src/src/services/execution/support.rs]: the gas limits,
    the simulated-gas scaling, the storage and executor overheads and the two gas
    prices.  [anyhow::Result] is an option.  [u32] and [u64] arithmetic wraps as
    in the release profile where the code does not use the saturating methods. *)
From S2P Require Import Prelude Word.

Definition u32_max : Z := 2 ^ 32 - 1.
Definition u32_sat (x : Z) : Z := Z.min x u32_max.
(** [u32::try_from(x).unwrap_or(r)]. *)
Definition u32_or (x r : Z) : Z := if x <=? u32_max then x else r.

Record FeeSnapshot := { base_fee : Z; priority_fee : Z }.

Definition ROUTE_EXECUTION_GAS_OVERHEAD : Z := 100000.
Definition PER_HOP_EXECUTOR_GAS_OVERHEAD : Z := 18000.
Definition MIN_PRIORITY_FEE_PER_GAS : Z := from_limbs 25000000000 0 0 0.
Definition GAS_LIMIT_BUFFER_BPS : Z := 2500.
Definition GAS_FALLBACK_BUFFER_BPS : Z := 5000.
Definition GAS_FALLBACK_MIN_SCALE_BPS : Z := 20000.
Definition GAS_COLD_SLOAD : Z := 2100.
Definition GAS_WARM_SLOAD : Z := 100.

Definition u256_to_u128 (v : Z) : option Z := if v <? M128 then Some v else None.

Definition buffer_gas_limit (simulated_gas : Z) : option Z :=
  if simulated_gas =? 0 then None
  else
    let units := simulated_gas in
    let buffer := (units *% GAS_LIMIT_BUFFER_BPS) / 10000 in
    Some (units +% buffer +% 1).

Definition pick_buffered_gas_limit (simulated_gas : Z) (dry_run_gas : option Z) : option Z :=
  let observed := match dry_run_gas with Some gas => u32_or gas u32_max | None => 0 end in
  let base := Z.max simulated_gas observed in
  buffer_gas_limit base.

Definition pick_live_gas_limit_with_buffer (simulated_gas dry_run_gas buffer_bps : Z) : option Z :=
  if ((simulated_gas =? 0) || (dry_run_gas =? 0))%bool then None
  else
    let base := Z.max simulated_gas (u32_or dry_run_gas simulated_gas) in
    let units := base in
    let buffer := (units *% buffer_bps) / 10000 in
    let limit := units +% buffer +% 1 in
    let? g := u256_to_u128 limit in Some (wrap_u 64 g).

Definition pick_live_gas_limit (simulated_gas dry_run_gas : Z) : option Z :=
  pick_live_gas_limit_with_buffer simulated_gas dry_run_gas GAS_LIMIT_BUFFER_BPS.

Definition scaled_simulated_gas (simulated_gas scale_bps : Z) : Z :=
  let scaled := Z.min (simulated_gas * Z.max scale_bps 10000) (M128 - 1) / 10000 in
  Z.max (u32_or scaled u32_max) simulated_gas.

Definition profit_reassess_gas (observed_route_gas : option Z) (simulated_gas : Z)
    (dry_run_gas : option Z) (gas_fallback : bool) (sim_scale_bps : Z) : Z :=
  match dry_run_gas with
  | Some g => g
  | None =>
      match observed_route_gas with
      | Some observed => observed
      | None =>
          if gas_fallback
          then scaled_simulated_gas simulated_gas (Z.max sim_scale_bps GAS_FALLBACK_MIN_SCALE_BPS)
          else simulated_gas
      end
  end.

Definition submit_gas_basis (observed_route_gas : option Z) (sim_scale_bps simulated_gas : Z)
    (dry_run_gas : option Z) : Z :=
  match dry_run_gas with
  | Some g => g
  | None =>
      match observed_route_gas with
      | Some observed => observed
      | None => scaled_simulated_gas simulated_gas (Z.max sim_scale_bps GAS_FALLBACK_MIN_SCALE_BPS)
      end
  end.

Definition estimate_route_storage_gas (hop_count cold_pool_slots : Z) : Z :=
  let hops := wrap_u 32 hop_count in
  if hops =? 0 then 0
  else
    let cold := Z.min cold_pool_slots hops in
    let warm_base := u32_sat (u32_sat (hops * 4) * GAS_WARM_SLOAD) in
    let cold_premium := u32_sat (cold * Z.max 0 (GAS_COLD_SLOAD - GAS_WARM_SLOAD)) in
    u32_sat (warm_base + cold_premium).

Definition estimate_route_gas_from_hops (hop_gas hop_count : Z) : Z :=
  wrap_u 32 (wrap_u 32 (hop_gas + ROUTE_EXECUTION_GAS_OVERHEAD)
             + wrap_u 32 (wrap_u 32 hop_count * PER_HOP_EXECUTOR_GAS_OVERHEAD)).

Definition estimate_route_gas_from_hops_evm (hop_gas hop_count cold_pool_slots : Z) : Z :=
  u32_sat (estimate_route_gas_from_hops hop_gas hop_count
           + estimate_route_storage_gas hop_count cold_pool_slots).

Definition compute_conservative_gas_price (snapshot : FeeSnapshot) : Z :=
  let priority := Z.max (priority_fee snapshot) MIN_PRIORITY_FEE_PER_GAS in
  (base_fee snapshot *% 11250) / 10000 +% priority.

Definition compute_assessment_gas_price (snapshot : FeeSnapshot) : Z :=
  saturating_add (base_fee snapshot) (Z.max (priority_fee snapshot) MIN_PRIORITY_FEE_PER_GAS).

(** ** Scaling *)

Lemma scaled_simulated_gas_range g s :
  0 ≤ g ≤ u32_max → g ≤ scaled_simulated_gas g s ≤ u32_max.
Proof.
  intros Hg. unfold scaled_simulated_gas, u32_or.
  destruct (Z.leb_spec (Z.min (g * Z.max s 10000) (M128 - 1) / 10000) u32_max); lia.
Qed.

Lemma scaled_simulated_gas_mono g s s' :
  0 ≤ g ≤ u32_max → s ≤ s' → scaled_simulated_gas g s ≤ scaled_simulated_gas g s'.
Proof.
  intros Hg Hs. unfold scaled_simulated_gas, u32_or.
  assert (Z.min (g * Z.max s 10000) (M128 - 1) / 10000
          ≤ Z.min (g * Z.max s' 10000) (M128 - 1) / 10000) as Hle.
  { apply Z.div_le_mono; [done|]. apply Z.min_le_compat_r, Z.mul_le_mono_nonneg_l; lia. }
  revert Hle. generalize (Z.min (g * Z.max s 10000) (M128 - 1) / 10000).
  generalize (Z.min (g * Z.max s' 10000) (M128 - 1) / 10000). intros b a Hle.
  destruct (Z.leb_spec a u32_max), (Z.leb_spec b u32_max); lia.
Qed.

Lemma scaled_simulated_gas_unit g : 0 ≤ g ≤ u32_max → scaled_simulated_gas g 10000 = g.
Proof.
  intros Hg. unfold scaled_simulated_gas, u32_or. rewrite Z.max_id.
  rewrite Z.min_l by (unfold u32_max, M128 in *; lia). rewrite Z.div_mul by done.
  destruct (Z.leb_spec g u32_max); lia.
Qed.

(** ** Properties *)

(** The live gas limit always covers the simulated gas, the dry-run gas and the
    buffer on top of the larger of the two, and is exact: it neither wraps nor
    truncates, for a dry run that fits [u32]. *)
Theorem pick_live_gas_limit_covers (simulated_gas dry_run_gas : Z) :
  0 < simulated_gas ≤ u32_max → 0 < dry_run_gas ≤ u32_max →
  ∃ limit, pick_live_gas_limit simulated_gas dry_run_gas = Some limit ∧
    simulated_gas < limit ∧ dry_run_gas < limit ∧
    limit = Z.max simulated_gas dry_run_gas * 12500 / 10000 + 1.
Proof.
  intros Hs Hd. unfold pick_live_gas_limit, pick_live_gas_limit_with_buffer, u32_or.
  destruct (Z.eqb_spec simulated_gas 0), (Z.eqb_spec dry_run_gas 0); try lia. cbn [orb].
  destruct (Z.leb_spec dry_run_gas u32_max); [|lia].
  set (b := Z.max simulated_gas dry_run_gas).
  assert (b ≤ u32_max) by lia. unfold GAS_LIMIT_BUFFER_BPS, u32_max in *.
  rewrite (wmul_small b) by (unfold M256; lia).
  assert (0 ≤ b * 2500 / 10000 ≤ b) by (apply mul_ratio_le; lia).
  rewrite (wadd_small b), wadd_small by (unfold M256; lia).
  unfold u256_to_u128. destruct (Z.ltb_spec (b + b * 2500 / 10000 + 1) M128); [|unfold M128 in *; lia].
  unfold wrap_u. rewrite Z.mod_small by lia. eexists. split; [done|].
  replace (b * 12500) with (b * 2500 + b * 10000) by lia. rewrite Z.div_add by done. lia.
Qed.

Lemma pick_live_gas_limit_covers_witness :
  ∃ limit, pick_live_gas_limit 720000 1870000 = Some limit ∧ 720000 < limit ∧ 1870000 < limit ∧
    limit = Z.max 720000 1870000 * 12500 / 10000 + 1.
Proof. apply pick_live_gas_limit_covers; split; vm_compute; (reflexivity || discriminate). Defined.
