(* ===== verification/Profit.v ===== *)
(** * Profit assessment

    [src/src/services/execution/profit.rs]: flash-loan fees, slippage, the
    on-chain minimum profit, the priority tip and [assess_profit], the gate every
    route passes before it is submitted.  The process-wide atomics are the record
    [FlashFees]; the clock is an argument.  A reject message is a constructor
    that carries the numbers the code formats. *)
From S2P Require Import Prelude Word Types Gas.
From Corelib Require Import SpecFloat.

Definition ON_CHAIN_MIN_PROFIT_RATIO_BPS : Z := 9500.
Definition FLASH_FEE_MAX_AGE_MS : Z := 90000.
Definition BALANCER_FP_ONE : Z := 1000000000000000000.
Definition DODO_FLASH_LOAN_FEE_BPS : Z := 10.
Definition DODO_EXTERNAL_FLASH_ENABLED : bool := false.
Definition MAX_PROFIT_PRIORITY_FEE_WEI : Z := 200000000000.

(** ** Flash-loan fees *)

(** [AAVE_FLASH_LOAN_FEE_BPS], [AAVE_FLASH_LOAN_FEE_FETCHED_AT_MS] and their
    Balancer counterparts. *)
Record FlashFees := {
  aave_fee_bps : Z;
  aave_fetched_at_ms : Z;
  balancer_fee_pct : Z;
  balancer_fetched_at_ms : Z;
}.

Definition flash_fees_init : FlashFees :=
  {| aave_fee_bps := 5; aave_fetched_at_ms := 0; balancer_fee_pct := 0; balancer_fetched_at_ms := 0 |}.

Definition set_aave_flash_loan_fee_bps (now_ms fee_bps : Z) (s : FlashFees) : FlashFees :=
  {| aave_fee_bps := fee_bps; aave_fetched_at_ms := now_ms;
     balancer_fee_pct := balancer_fee_pct s; balancer_fetched_at_ms := balancer_fetched_at_ms s |}.

Definition set_balancer_flash_loan_fee_pct (now_ms pct_1e18 : Z) (s : FlashFees) : FlashFees :=
  {| aave_fee_bps := aave_fee_bps s; aave_fetched_at_ms := aave_fetched_at_ms s;
     balancer_fee_pct := pct_1e18; balancer_fetched_at_ms := now_ms |}.

Definition flash_fee_snapshot_is_fresh (fetched_at_ms now_ms : Z) : bool :=
  (negb (fetched_at_ms =? 0) && (Z.max 0 (now_ms - fetched_at_ms) <=? FLASH_FEE_MAX_AGE_MS))%bool.

Definition flash_loan_fee_is_fresh (now_ms : Z) (s : FlashFees) (source : FlashLoanSource) : bool :=
  match source with
  | FAaveV3 => flash_fee_snapshot_is_fresh (aave_fetched_at_ms s) now_ms
  | FBalancer => flash_fee_snapshot_is_fresh (balancer_fetched_at_ms s) now_ms
  | FDodo | FDirect => true
  end.

(** [u128::div_ceil], then [as u64]. *)
Definition balancer_flash_fee_pct_to_bps (pct_1e18 : Z) : Z :=
  if pct_1e18 =? 0 then 0
  else
    let num := Z.min (pct_1e18 * 10000) (M128 - 1) in
    wrap_u 64 (cdiv num BALANCER_FP_ONE).

Definition flash_loan_fee_bps (s : FlashFees) (source : FlashLoanSource) : Z :=
  match source with
  | FDirect => 0
  | FBalancer => balancer_flash_fee_pct_to_bps (balancer_fee_pct s)
  | FAaveV3 => aave_fee_bps s
  | FDodo => if DODO_EXTERNAL_FLASH_ENABLED then DODO_FLASH_LOAN_FEE_BPS else 0
  end.

Definition balancer_mul_up (amount pct_1e18 : Z) : option Z :=
  if (is_zero amount || is_zero pct_1e18)%bool then Some 0
  else
    let? product := checked_mul amount pct_1e18 in
    let one := BALANCER_FP_ONE in
    Some ((product -% 1) / one +% 1).

Definition aave_percent_mul (value bps : Z) : option Z :=
  if bps =? 0 then Some 0
  else
    let? p := checked_mul value bps in
    let? v := checked_add p 5000 in
    Some (v / BPS_SCALE).

Definition flash_loan_fee_amount (s : FlashFees) (source : FlashLoanSource) (amount : Z) : option Z :=
  match source with
  | FDirect => Some 0
  | FBalancer => balancer_mul_up amount (balancer_fee_pct s)
  | FAaveV3 =>
      let bps := flash_loan_fee_bps s source in
      if bps =? 0 then Some 0 else aave_percent_mul amount bps
  | FDodo =>
      if negb DODO_EXTERNAL_FLASH_ENABLED then Some 0
      else
        let bps := DODO_FLASH_LOAN_FEE_BPS in
        let? v := checked_mul amount bps in Some (v / BPS_SCALE)
  end.

(** ** Slippage and the minimum profit *)

Definition on_chain_min_profit (token_profit : Z) : option Z :=
  if is_zero token_profit then Some 0
  else
    let? v := checked_mul token_profit ON_CHAIN_MIN_PROFIT_RATIO_BPS in
    let base := v / BPS_SCALE in
    if is_zero base then Some 1 else Some base.

Definition slippage_adjusted (amount_out slippage_bps : Z) : option Z :=
  if (is_zero amount_out || (10000 <=? slippage_bps))%bool then None
  else
    let? v := checked_mul amount_out (BPS_SCALE -% slippage_bps) in
    let min_out := v / BPS_SCALE in
    if is_zero min_out then None else Some min_out.

Definition modeled_net_profit_tokens (s : FlashFees)
    (gross_profit amount_in slippage_bps : Z) (flash_source : FlashLoanSource) : option Z :=
  let? amount_out := checked_add gross_profit amount_in in
  let? adjusted_out := slippage_adjusted amount_out slippage_bps in
  let adjusted_gross := saturating_sub adjusted_out amount_in in
  let? flash_fee := flash_loan_fee_amount s flash_source amount_in in
  Some (saturating_sub adjusted_gross flash_fee).

Definition on_chain_min_profit_for_route (s : FlashFees)
    (gross_profit amount_in slippage_bps : Z) (flash_source : FlashLoanSource) : option Z :=
  let? net := modeled_net_profit_tokens s gross_profit amount_in slippage_bps flash_source in
  on_chain_min_profit net.

(** [for _ in 0..hop_count { retained = ..; if retained == 0 { return 9_999 } }]:
    [None] is the early return. *)
Fixpoint retain_loop (hops : nat) (complement retained : Z) : option Z :=
  match hops with
  | O => Some retained
  | S hops =>
      let retained := retained * complement / 10000 in
      if retained =? 0 then None else retain_loop hops complement retained
  end.

Definition compound_slippage_bps (per_hop_bps hop_count : Z) : Z :=
  if 10000 <=? per_hop_bps then 10000
  else
    let per_hop := per_hop_bps in
    if ((hop_count <=? 1) || (per_hop =? 0))%bool then per_hop
    else
      let complement := 10000 - per_hop in
      match retain_loop (Z.to_nat hop_count) complement 10000 with
      | None => 9999
      | Some retained => Z.min (10000 - retained) 9999
      end.

(** ** Priority tip and floors *)

Definition profit_priority_tip_per_gas (expected_profit_matic_wei alpha_bps gas_units : Z) : Z :=
  if ((alpha_bps =? 0) || (gas_units =? 0) || is_zero expected_profit_matic_wei)%bool then 0
  else
    let total_boost := saturating_mul expected_profit_matic_wei alpha_bps / BPS_SCALE in
    let per_gas := total_boost / gas_units in
    Z.min per_gas MAX_PROFIT_PRIORITY_FEE_WEI.

Definition profit_priority_uplift_wei
    (expected_profit_matic_wei alpha_bps gas_units charged_priority_per_gas : Z) : Z :=
  let tip := profit_priority_tip_per_gas expected_profit_matic_wei alpha_bps gas_units in
  let floor := Z.max charged_priority_per_gas MIN_PRIORITY_FEE_PER_GAS in
  saturating_mul (saturating_sub tip floor) gas_units.

Definition safety_floor_matic_wei (revert_penalty_wei safety_bps : Z) : Z :=
  if safety_bps =? 0 then 0 else saturating_mul revert_penalty_wei safety_bps / BPS_SCALE.

Definition ceil_div (numer denom : Z) : option Z :=
  if is_zero denom then None
  else
    let q := numer / denom in
    let r := numer mod denom in
    Some (if is_zero r then q else saturating_add q 1).

(** ** Assessment *)

Record AssessProfitInput := {
  in_gross_profit : Z;
  in_amount_in : Z;
  in_gas_units : Z;
  in_gas_price_wei : Z;
  in_charged_priority_fee_per_gas : Z;
  in_token_to_matic_rate : Z;
  in_token_decimals : Z;
  in_hop_count : Z;
  in_min_profit_matic_wei : Z;
  in_min_profit_roi_bps : Z;
  in_slippage_bps : Z;
  in_flash_loan_source : FlashLoanSource;
  in_safety_multiplier_bps : Z;
  in_profit_priority_alpha_bps : Z;
}.

Inductive RejectReason :=
| FlashLoanFeeOverflow
| InvalidSlippage
| GasCostOverflow
| TokenGasCostOverflow
| NativeProfitOverflow
| FlashFeeMaticOverflow
| RateTooLow
| NonPositiveNet
| BelowSafetyFloor (net required uplift : Z)
| BelowMinProfit
| AboveSaneCap (net : Z)
| BelowMinRoi (roi_bps min_bps : Z).

Record ProfitAssessment := {
  should_execute : bool;
  gross_profit : Z;
  gas_cost_wei : Z;
  gas_cost_in_tokens : Z;
  flash_loan_fee : Z;
  slippage_deduction : Z;
  revert_penalty : Z;
  net_profit : Z;
  net_profit_after_gas : Z;
  priority_bid_basis_matic_wei : Z;
  net_profit_after_gas_matic_wei : Z;
  roi : f64;
  reject_reason : option RejectReason;
}.

Definition on_chain_min_profit_from_assessment (assessment : ProfitAssessment) : option Z :=
  on_chain_min_profit (net_profit assessment).

(** [x as f64 / 10_000.0]. *)
Definition f64_of_u64 (x : Z) : f64 := binary_normalize 53 1024 x 0 false.
Definition roi_of_bps (roi_bps : Z) : f64 := SFdiv 53 1024 (f64_of_u64 roi_bps) (f64_of_u64 10000).

Definition rejected_arithmetic (input : AssessProfitInput) (reason : RejectReason) : ProfitAssessment :=
  let gas_cost_wei := default 0 (checked_mul (in_gas_units input) (in_gas_price_wei input)) in
  {| should_execute := false; gross_profit := in_gross_profit input; gas_cost_wei := gas_cost_wei;
     gas_cost_in_tokens := 0; flash_loan_fee := 0; slippage_deduction := 0;
     revert_penalty := gas_cost_wei; net_profit := 0; net_profit_after_gas := 0;
     priority_bid_basis_matic_wei := 0; net_profit_after_gas_matic_wei := 0;
     roi := S754_zero false; reject_reason := Some reason |}.

(** The quantities [assess_profit] computes before its gates. *)
Record AssessTerms := {
  tm_flash_loan_fee : Z;
  tm_adjusted_gross : Z;
  tm_gas_cost_wei : Z;
  tm_rate_ok : bool;
  tm_gas_cost_in_tokens : Z;
  tm_gross_profit_matic_wei : Z;
  tm_flash_fee_matic_wei : Z;
}.

(** The arithmetic part of [assess_profit]; [inl] is an early rejection. *)
Definition assess_terms (s : FlashFees) (input : AssessProfitInput) : RejectReason + AssessTerms :=
  let_some flash_loan_fee := flash_loan_fee_amount s (in_flash_loan_source input) (in_amount_in input)
    or inl FlashLoanFeeOverflow in
  if 10000 <=? in_slippage_bps input then inl InvalidSlippage
  else
  let amount_out := saturating_add (in_gross_profit input) (in_amount_in input) in
  let_some adjusted_out := slippage_adjusted amount_out (in_slippage_bps input)
    or inl InvalidSlippage in
  let adjusted_gross := saturating_sub adjusted_out (in_amount_in input) in
  let_some gas_cost_wei := checked_mul (in_gas_units input) (in_gas_price_wei input)
    or inl GasCostOverflow in
  let scale := ten_pow_u256 (in_token_decimals input) in
  let rate := in_token_to_matic_rate input in
  let rate_ok := MIN_TOKEN_TO_MATIC_RATE <=? rate in
  let_some gas_cost_in_tokens :=
    (if rate_ok
     then let? scaled_gas := checked_mul gas_cost_wei scale in ceil_div scaled_gas rate
     else Some U256_MAX) or inl TokenGasCostOverflow in
  let_some gross_profit_matic_wei :=
    (if rate_ok
     then let? native_profit := checked_mul adjusted_gross rate in Some (native_profit / scale)
     else Some 0) or inl NativeProfitOverflow in
  let_some flash_fee_matic_wei :=
    (if rate_ok
     then let? scaled_fee := checked_mul flash_loan_fee rate in ceil_div scaled_fee scale
     else Some 0) or inl FlashFeeMaticOverflow in
  inr {| tm_flash_loan_fee := flash_loan_fee; tm_adjusted_gross := adjusted_gross;
         tm_gas_cost_wei := gas_cost_wei; tm_rate_ok := rate_ok;
         tm_gas_cost_in_tokens := gas_cost_in_tokens;
         tm_gross_profit_matic_wei := gross_profit_matic_wei;
         tm_flash_fee_matic_wei := flash_fee_matic_wei |}.

Definition roi_bps_of (gate_net_tokens amount_in : Z) : Z :=
  if (is_zero amount_in || is_zero gate_net_tokens)%bool then 0
  else match checked_mul gate_net_tokens BPS_SCALE with
  | Some v => if v / amount_in <? M64 then v / amount_in else 0
  | None => 0
  end.

(** The gates of [assess_profit], on the computed terms. *)
Definition assess_gate (input : AssessProfitInput) (t : AssessTerms) : ProfitAssessment :=
  let slippage_deduction := saturating_sub (in_gross_profit input) (tm_adjusted_gross t) in
  let net_before_gas := saturating_sub (tm_adjusted_gross t) (tm_flash_loan_fee t) in
  let gas_cost_wei := tm_gas_cost_wei t in
  let revert_penalty := gas_cost_wei in
  let net_profit_after_gas := saturating_sub net_before_gas (tm_gas_cost_in_tokens t) in
  let gross_matic := tm_gross_profit_matic_wei t in
  let flash_matic := tm_flash_fee_matic_wei t in
  let net_after_gas_matic := saturating_sub (saturating_sub gross_matic flash_matic) gas_cost_wei in
  let required_net_matic := safety_floor_matic_wei revert_penalty (in_safety_multiplier_bps input) in
  let priority_uplift :=
    profit_priority_uplift_wei net_after_gas_matic (in_profit_priority_alpha_bps input)
      (in_gas_units input) (in_charged_priority_fee_per_gas input) in
  let net_after_priority := saturating_sub net_after_gas_matic priority_uplift in
  let ignore_gas := in_safety_multiplier_bps input =? 0 in
  let gate_net_tokens := if ignore_gas then net_before_gas else net_profit_after_gas in
  let gate_net_matic :=
    if ignore_gas then saturating_sub (saturating_sub gross_matic flash_matic) priority_uplift
    else net_after_priority in
  let meets_absolute_min := in_min_profit_matic_wei input <=? gate_net_matic in
  let meets_safety_ratio :=
    if ignore_gas then required_net_matic <=? gate_net_matic
    else required_net_matic <=? net_after_gas_matic in
  let meets_sane_matic_cap := gate_net_matic <=? MAX_SANE_PROFIT_MATIC_WEI in
  let roi_bps := roi_bps_of gate_net_tokens (in_amount_in input) in
  let meets_roi :=
    ((in_min_profit_roi_bps input =? 0) || (in_min_profit_roi_bps input <=? roi_bps))%bool in
  let should_execute :=
    (tm_rate_ok t && (0 <? gate_net_tokens) && (0 <? gate_net_matic) && meets_absolute_min
     && meets_safety_ratio && meets_sane_matic_cap && meets_roi)%bool in
  let roi := if is_zero (in_amount_in input) then S754_zero false else roi_of_bps roi_bps in
  let reject_reason :=
    if should_execute then None
    else if negb (tm_rate_ok t) then Some RateTooLow
    else if (is_zero gate_net_matic || is_zero gate_net_tokens)%bool then Some NonPositiveNet
    else if negb meets_safety_ratio
    then Some (BelowSafetyFloor net_after_gas_matic required_net_matic priority_uplift)
    else if negb meets_absolute_min then Some BelowMinProfit
    else if negb meets_sane_matic_cap then Some (AboveSaneCap gate_net_matic)
    else if negb meets_roi then Some (BelowMinRoi roi_bps (in_min_profit_roi_bps input))
    else Some NonPositiveNet in
  {| should_execute := should_execute; gross_profit := in_gross_profit input;
     gas_cost_wei := gas_cost_wei; gas_cost_in_tokens := tm_gas_cost_in_tokens t;
     flash_loan_fee := tm_flash_loan_fee t; slippage_deduction := slippage_deduction;
     revert_penalty := revert_penalty; net_profit := net_before_gas;
     net_profit_after_gas := net_profit_after_gas;
     priority_bid_basis_matic_wei := net_after_gas_matic;
     net_profit_after_gas_matic_wei := net_after_priority; roi := roi;
     reject_reason := reject_reason |}.

Definition assess_profit (s : FlashFees) (input : AssessProfitInput) : ProfitAssessment :=
  match assess_terms s input with
  | inl reason => rejected_arithmetic input reason
  | inr t => assess_gate input t
  end.

(** ** Sizing score *)

Record MinimalSimResult := { sim_profit : Z; sim_amount_out : Z; sim_total_gas : Z }.

Record ProfitEvalContext := {
  cx_gas_price : Z;
  cx_charged_priority_fee_per_gas : Z;
  cx_flash_source : FlashLoanSource;
  cx_slippage_bps : Z;
  cx_token_to_matic_rate : Z;
  cx_token_decimals : Z;
  cx_safety_multiplier_bps : Z;
  cx_gas_scale_bps : Z;
  cx_profit_priority_alpha_bps : Z;
  cx_hop_count : Z;
}.

Definition probe_assess_input (sim : MinimalSimResult) (amount_in : Z) (ctx : ProfitEvalContext)
  : AssessProfitInput :=
  let gas_units :=
    if cx_gas_scale_bps ctx =? 10000 then sim_total_gas sim
    else scaled_simulated_gas (sim_total_gas sim) (cx_gas_scale_bps ctx) in
  {| in_gross_profit := sim_profit sim; in_amount_in := amount_in; in_gas_units := gas_units;
     in_gas_price_wei := cx_gas_price ctx;
     in_charged_priority_fee_per_gas := cx_charged_priority_fee_per_gas ctx;
     in_token_to_matic_rate := cx_token_to_matic_rate ctx;
     in_token_decimals := cx_token_decimals ctx; in_hop_count := cx_hop_count ctx;
     in_min_profit_matic_wei := 0; in_min_profit_roi_bps := 0;
     in_slippage_bps := cx_slippage_bps ctx; in_flash_loan_source := cx_flash_source ctx;
     in_safety_multiplier_bps := cx_safety_multiplier_bps ctx;
     in_profit_priority_alpha_bps := cx_profit_priority_alpha_bps ctx |}.

Definition net_profit_matic_from_sim
    (s : FlashFees) (sim : MinimalSimResult) (amount_in : Z) (ctx : ProfitEvalContext) : Z :=
  net_profit_after_gas_matic_wei (assess_profit s (probe_assess_input sim amount_in ctx)).

Definition BRENT_MATIC_SCORE_BIAS : Z := from_limbs 0 0 1 0.

Record ProbeMaticParts := {
  pb_gross_matic : Z;
  pb_flash_matic : Z;
  pb_gas_cost_wei : Z;
  pb_priority_uplift : Z;
}.

Definition probe_matic_parts
    (s : FlashFees) (sim : MinimalSimResult) (amount_in : Z) (ctx : ProfitEvalContext)
  : option ProbeMaticParts :=
  let input := probe_assess_input sim amount_in ctx in
  let? flash_loan_fee := flash_loan_fee_amount s (in_flash_loan_source input) (in_amount_in input) in
  if 10000 <=? in_slippage_bps input then None
  else
  let amount_out := saturating_add (in_gross_profit input) (in_amount_in input) in
  let? adjusted_out := slippage_adjusted amount_out (in_slippage_bps input) in
  let adjusted_gross := saturating_sub adjusted_out (in_amount_in input) in
  let? gas_cost_wei := checked_mul (in_gas_units input) (in_gas_price_wei input) in
  let scale := ten_pow_u256 (in_token_decimals input) in
  if ((in_token_to_matic_rate input <? MIN_TOKEN_TO_MATIC_RATE) || is_zero scale)%bool then None
  else
  let? native := checked_mul adjusted_gross (in_token_to_matic_rate input) in
  let gross_matic := native / scale in
  let? scaled_fee := checked_mul flash_loan_fee (in_token_to_matic_rate input) in
  let? flash_matic := ceil_div scaled_fee scale in
  let net_after_gas := saturating_sub (saturating_sub gross_matic flash_matic) gas_cost_wei in
  let priority_uplift :=
    profit_priority_uplift_wei net_after_gas (in_profit_priority_alpha_bps input)
      (in_gas_units input) (in_charged_priority_fee_per_gas input) in
  Some {| pb_gross_matic := gross_matic; pb_flash_matic := flash_matic;
          pb_gas_cost_wei := gas_cost_wei; pb_priority_uplift := priority_uplift |}.

Definition cover_matic_from_sim
    (s : FlashFees) (sim : MinimalSimResult) (amount_in : Z) (ctx : ProfitEvalContext) : Z :=
  match probe_matic_parts s sim amount_in ctx with
  | Some p => saturating_sub (pb_gross_matic p) (pb_flash_matic p)
  | None => 0
  end.

Definition brent_score_matic_from_sim
    (s : FlashFees) (sim : MinimalSimResult) (amount_in : Z) (ctx : ProfitEvalContext) : Z :=
  match probe_matic_parts s sim amount_in ctx with
  | None => 0
  | Some p =>
      saturating_sub
        (saturating_sub
           (saturating_sub (saturating_add BRENT_MATIC_SCORE_BIAS (pb_gross_matic p)) (pb_flash_matic p))
           (pb_gas_cost_wei p))
        (pb_priority_uplift p)
  end.

(** ** Arithmetic lemmas *)

Lemma ceil_div_spec n d : u256 n → 0 < d → ceil_div n d = Some (cdiv n d).
Proof.
  intros Hn Hd. unfold ceil_div, is_zero. destruct (Z.eqb_spec d 0); [lia|]. f_equal.
  assert (cdiv n d ≤ n) by (apply cdiv_le_iff; [done|]; unfold u256 in Hn; nia).
  unfold cdiv in *. destruct (Z.eqb_spec (n mod d) 0); [lia|].
  unfold saturating_add, U256_MAX, u256 in *. lia.
Qed.

Lemma slippage_adjusted_Some out slip r :
  0 ≤ out → 0 ≤ slip → slippage_adjusted out slip = Some r →
  slip < 10000 ∧ r = out * (10000 - slip) / 10000 ∧ 0 < r ≤ out.
Proof.
  intros Ho Hs. unfold slippage_adjusted, is_zero.
  destruct (_ || _)%bool eqn:E; [done|]. zbool.
  change BPS_SCALE with 10000. rewrite wsub_small by (unfold M256; lia).
  destruct (checked_mul _ _) as [v|] eqn:Hv; [|done]. apply checked_mul_Some in Hv as [-> _].
  destruct (Z.eqb_spec (out * (10000 - slip) / 10000) 0); [done|]. intros [= <-].
  pose proof (mul_ratio_le out (10000 - slip) 10000 ltac:(lia) ltac:(lia) ltac:(lia)). lia.
Qed.

Lemma saturating_sub_pos a b : 0 < saturating_sub a b → saturating_sub a b = a - b ∧ b < a.
Proof. unfold saturating_sub. lia. Qed.

(** The inputs are words, the counters and percentages are non-negative. *)
Definition assess_input_wf (input : AssessProfitInput) : Prop :=
  u256 (in_gross_profit input) ∧ u256 (in_amount_in input) ∧ 0 ≤ in_gas_units input ∧
  0 ≤ in_gas_price_wei input ∧ u256 (in_token_to_matic_rate input) ∧
  0 ≤ in_token_decimals input ≤ 255 ∧ 0 ≤ in_slippage_bps input ∧
  0 ≤ in_min_profit_matic_wei input ∧ 0 ≤ in_safety_multiplier_bps input ∧
  0 ≤ in_profit_priority_alpha_bps input.

Definition flash_fees_wf (s : FlashFees) : Prop := 0 ≤ aave_fee_bps s ∧ 0 ≤ balancer_fee_pct s.

Lemma balancer_mul_up_spec amount pct :
  0 ≤ amount → 0 ≤ pct →
  balancer_mul_up amount pct = if amount * pct <? M256 then Some (cdiv (amount * pct) BALANCER_FP_ONE) else None.
Proof.
  intros Ha Hp. unfold balancer_mul_up, is_zero, checked_mul.
  assert (0 < BALANCER_FP_ONE) as Hone by done.
  destruct (Z.eqb_spec amount 0) as [->|]; [done|].
  destruct (Z.eqb_spec pct 0) as [->|]; [by rewrite Z.mul_0_r|]. cbn [orb].
  destruct (Z.ltb_spec (amount * pct) M256); [|done]. f_equal.
  assert (0 < amount * pct) by nia. rewrite wsub_small by lia.
  assert (0 ≤ (amount * pct - 1) / BALANCER_FP_ONE) by (apply Z.div_pos; lia).
  assert ((amount * pct - 1) / BALANCER_FP_ONE + 1 = cdiv (amount * pct) BALANCER_FP_ONE) as Heq.
  { apply Z.le_antisymm.
    - apply Z.le_succ_l, lt_cdiv_iff; [done|].
      pose proof (div_mul_le (amount * pct - 1) BALANCER_FP_ONE Hone). lia.
    - apply cdiv_le_iff; [done|].
      pose proof (div_mul_gt (amount * pct - 1) BALANCER_FP_ONE Hone). lia. }
  rewrite <- Heq. apply wadd_small. split; [lia|]. rewrite Heq.
  apply (Z.le_lt_trans _ (amount * pct)); [|done].
  apply cdiv_le_iff; [done|]. unfold BALANCER_FP_ONE. lia.
Qed.

Lemma flash_loan_fee_amount_nonneg s source amount fee :
  flash_fees_wf s → 0 ≤ amount → flash_loan_fee_amount s source amount = Some fee → 0 ≤ fee.
Proof.
  intros [Hb Hp] Ha. unfold flash_loan_fee_amount. destruct source.
  - rewrite balancer_mul_up_spec by done. destruct (_ <? _); [|done]. intros [= <-].
    apply cdiv_nonneg; [done|nia].
  - unfold flash_loan_fee_bps, aave_percent_mul, checked_add.
    destruct (aave_fee_bps s =? 0); [by intros [= <-]|].
    destruct (checked_mul _ _) as [v|] eqn:E; [|done]. apply checked_mul_Some in E as [-> _].
    destruct (_ <? _); [|done]. intros [= <-]. apply Z.div_pos; [nia|done].
  - by intros [= <-].
  - by intros [= <-].
Qed.

(** What a lender charges for a loan: Balancer the ceiling of its percentage, Aave its
    premium rounded half up, the others nothing. *)
Definition lender_fee (s : FlashFees) (source : FlashLoanSource) (amount : Z) : Z :=
  match source with
  | FBalancer => cdiv (amount * balancer_fee_pct s) (10 ^ 18)
  | FAaveV3 => (amount * aave_fee_bps s + 5000) / 10000
  | FDodo | FDirect => 0
  end.

Lemma flash_loan_fee_amount_lender s source amount fee :
  flash_fees_wf s → 0 ≤ amount → flash_loan_fee_amount s source amount = Some fee →
  fee = lender_fee s source amount.
Proof.
  intros [Hb Hp] Ha. unfold flash_loan_fee_amount, lender_fee. destruct source.
  - rewrite balancer_mul_up_spec by done. destruct (_ <? _); [|done]. by intros [= <-].
  - unfold flash_loan_fee_bps, aave_percent_mul, checked_add.
    destruct (Z.eqb_spec (aave_fee_bps s) 0) as [->|]; [intros [= <-]; by rewrite Z.mul_0_r|].
    destruct (checked_mul _ _) as [v|] eqn:E; [|done]. apply checked_mul_Some in E as [-> _].
    destruct (_ <? _); [|done]. by intros [= <-].
  - by intros [= <-].
  - by intros [= <-].
Qed.

(** The tip and the uplift over the charged priority fee, as closed formulas. *)
Lemma profit_priority_uplift_eq profit alpha units charged :
  profit_priority_uplift_wei profit alpha units charged =
  Z.min (Z.max 0 (Z.min (Z.min (profit * alpha) U256_MAX / 10000 / units) MAX_PROFIT_PRIORITY_FEE_WEI
                  - Z.max charged MIN_PRIORITY_FEE_PER_GAS) * units) U256_MAX.
Proof.
  unfold profit_priority_uplift_wei, profit_priority_tip_per_gas, is_zero, saturating_mul, saturating_sub.
  change BPS_SCALE with 10000.
  destruct (Z.eqb_spec alpha 0) as [->|]; [by rewrite Z.mul_0_r|].
  destruct (Z.eqb_spec units 0) as [->|]; [by rewrite !Z.mul_0_r|].
  by destruct (Z.eqb_spec profit 0) as [->|].
Qed.

Lemma safety_floor_eq gas bps : safety_floor_matic_wei gas bps = Z.min (gas * bps) U256_MAX / 10000.
Proof.
  unfold safety_floor_matic_wei, saturating_mul. change BPS_SCALE with 10000.
  destruct (Z.eqb_spec bps 0) as [->|]; [by rewrite Z.mul_0_r|done].
Qed.

(** ** The terms of an assessment *)

Record terms_spec (s : FlashFees) (input : AssessProfitInput) (t : AssessTerms) : Prop := {
  ts_fee : flash_loan_fee_amount s (in_flash_loan_source input) (in_amount_in input)
           = Some (tm_flash_loan_fee t);
  ts_adjusted : tm_adjusted_gross t =
    Z.max 0 (Z.min (in_gross_profit input + in_amount_in input) U256_MAX
             * (10000 - in_slippage_bps input) / 10000 - in_amount_in input);
  ts_gas : tm_gas_cost_wei t = in_gas_units input * in_gas_price_wei input;
  ts_rate : tm_rate_ok t = (MIN_TOKEN_TO_MATIC_RATE <=? in_token_to_matic_rate input);
  ts_rate_ok : tm_rate_ok t = true →
    let scale := ten_pow_u256 (in_token_decimals input) in
    let rate := in_token_to_matic_rate input in
    tm_gas_cost_in_tokens t = cdiv (tm_gas_cost_wei t * scale) rate ∧
    tm_gross_profit_matic_wei t = tm_adjusted_gross t * rate / scale ∧
    tm_flash_fee_matic_wei t = cdiv (tm_flash_loan_fee t * rate) scale;
  ts_rate_bad : tm_rate_ok t = false →
    tm_gross_profit_matic_wei t = 0 ∧ tm_flash_fee_matic_wei t = 0;
}.

Lemma scaled_ceil_spec x y d r :
  0 ≤ x → 0 ≤ y → 0 < d →
  match checked_mul x y with Some v => ceil_div v d | None => None end = Some r → r = cdiv (x * y) d.
Proof.
  intros Hx Hy Hd. destruct (checked_mul x y) as [v|] eqn:E; [|done].
  apply checked_mul_Some in E as [-> Hlt]. rewrite ceil_div_spec by (unfold u256; nia). by intros [= <-].
Qed.

Lemma assess_terms_spec s input t :
  assess_input_wf input → flash_fees_wf s → assess_terms s input = inr t → terms_spec s input t.
Proof.
  intros (Hg & Ha & Hgu & Hgp & Hr & Hd & Hs & _) Hf. unfold assess_terms.
  pose proof (ten_pow_u256_pos _ Hd) as Hscale. unfold u256 in Ha, Hr.
  destruct (flash_loan_fee_amount _ _ _) as [fee|] eqn:Hfee; [|done].
  pose proof (flash_loan_fee_amount_nonneg _ _ _ _ Hf (proj1 Ha) Hfee) as Hfee0.
  destruct (10000 <=? _) eqn:E1; [done|]. zbool.
  destruct (slippage_adjusted _ _) as [adj|] eqn:Hadj; [|done].
  apply slippage_adjusted_Some in Hadj as (_ & -> & Hadj);
    [|unfold saturating_add, U256_MAX, u256 in *; lia|done].
  destruct (checked_mul (in_gas_units input) _) as [gas|] eqn:Hgas; [|done].
  apply checked_mul_Some in Hgas as [-> Hgas]. assert (0 ≤ in_gas_units input * in_gas_price_wei input) by nia.
  assert (0 < MIN_TOKEN_TO_MATIC_RATE) by done.
  destruct (MIN_TOKEN_TO_MATIC_RATE <=? in_token_to_matic_rate input) eqn:Hrate.
  - zbool. destruct (match checked_mul _ (ten_pow_u256 _) with Some _ => _ | None => _ end)
      as [tokens|] eqn:Et; [|done]. apply scaled_ceil_spec in Et; [|lia..].
    destruct (checked_mul (saturating_sub _ _) _) as [native|] eqn:En; [|done].
    apply checked_mul_Some in En as [-> _].
    destruct (match checked_mul fee _ with Some _ => _ | None => _ end) as [fm|] eqn:Ef; [|done].
    apply scaled_ceil_spec in Ef; [|lia..]. intros [= <-].
    constructor; cbn [tm_flash_loan_fee tm_adjusted_gross tm_gas_cost_wei tm_rate_ok
      tm_gas_cost_in_tokens tm_gross_profit_matic_wei tm_flash_fee_matic_wei]; try done.
    symmetry. by apply Z.leb_le.
  - intros [= <-]. constructor; done.
Qed.

(** ** The retention loop *)

Lemma retain_loop_bounds n c : ∀ r r',
  0 ≤ c ≤ 10000 → 0 ≤ r ≤ 10000 → retain_loop n c r = Some r' →
  r - Z.of_nat n * (10000 - c) ≤ r' ≤ r ∧ 0 ≤ r' ∧ r' * 10000 ^ Z.of_nat n ≤ r * c ^ Z.of_nat n.
Proof.
  induction n as [|n IH]; intros r r' Hc Hr; cbn [retain_loop].
  { intros [= <-]. rewrite !Z.pow_0_r. lia. }
  pose proof (mul_ratio_le r c 10000 ltac:(lia) ltac:(lia) ltac:(lia)) as Hstep.
  pose proof (div_mul_le (r * c) 10000 ltac:(done)) as Hdm.
  assert (r - (10000 - c) ≤ r * c / 10000) by (apply div_lower; [done|nia]).
  destruct (Z.eqb_spec (r * c / 10000) 0); [done|]. intros Hloop.
  apply IH in Hloop as (Hb & H0 & Hpow); [|lia|lia].
  rewrite Nat2Z.inj_succ, !Z.pow_succ_r by lia. split; [lia|]. split; [done|].
  assert (0 ≤ c ^ Z.of_nat n) by (apply Z.pow_nonneg; lia).
  assert (r' * (10000 * 10000 ^ Z.of_nat n) ≤ r * c / 10000 * c ^ Z.of_nat n * 10000) by lia.
  assert (r * c / 10000 * 10000 * c ^ Z.of_nat n ≤ r * c * c ^ Z.of_nat n) by (apply Z.mul_le_mono_nonneg_r; lia).
  lia.
Qed.

Lemma retain_loop_None n c : ∀ r,
  0 ≤ c ≤ 10000 → 0 ≤ r ≤ 10000 → retain_loop n c r = None → r ≤ Z.of_nat n * (10000 - c).
Proof.
  induction n as [|n IH]; intros r Hc Hr; cbn [retain_loop]; [done|].
  pose proof (mul_ratio_le r c 10000 ltac:(lia) ltac:(lia) ltac:(lia)) as Hstep.
  assert (r - (10000 - c) ≤ r * c / 10000) by (apply div_lower; [done|nia]).
  destruct (Z.eqb_spec (r * c / 10000) 0); [intros _; nia|]. intros Hloop.
  apply IH in Hloop; nia.
Qed.

(** A return on the input that meets the threshold in basis points. *)
Lemma roi_bps_met min_roi net amount :
  0 ≤ amount → 0 < net → ((min_roi =? 0) || (min_roi <=? roi_bps_of net amount))%bool = true →
  min_roi ≤ 0 ∨ min_roi * amount ≤ net * 10000.
Proof.
  intros Ha Hn. unfold roi_bps_of, is_zero. change BPS_SCALE with 10000.
  destruct (Z.eqb_spec min_roi 0); [lia|]. cbn [orb]. rewrite Z.leb_le.
  destruct (Z.eqb_spec amount 0) as [->|]; [cbn [orb]; lia|].
  destruct (Z.eqb_spec net 0); [lia|]. cbn [orb].
  destruct (checked_mul net 10000) as [v|] eqn:E; [|lia]. apply checked_mul_Some in E as [-> _].
  destruct (_ <? _); [|lia]. intros H. right. pose proof (div_mul_le (net * 10000) amount ltac:(lia)). nia.
Qed.

(** ** Properties *)

(** C2: Soundness of the execution gate.  When a route is approved (with the gas
    gate on), the rate is reliable and every number the assessment reports is
    exact, no subtraction having saturated: the slippage-adjusted output repays
    the input, the flash fee the lender charges for that loan ([lender_fee]) and the
    gas, in the token and in MATIC; the net left after the priority tip, the share of
    the net above the charged priority fee, reaches the configured minimum, below the
    sanity cap; the net before the tip reaches the safety floor, the configured share
    of the gas cost; and the net in the token reaches the return the configuration
    asks for on the input, whenever it asks for one. *)
Theorem assess_profit_sound (s : FlashFees) (input : AssessProfitInput) :
  assess_input_wf input → flash_fees_wf s → in_safety_multiplier_bps input ≠ 0 →
  should_execute (assess_profit s input) = true →
  let a := assess_profit s input in
  let rate := in_token_to_matic_rate input in
  let scale := ten_pow_u256 (in_token_decimals input) in
  let units := in_gas_units input in
  let gas := units * in_gas_price_wei input in
  let fee := lender_fee s (in_flash_loan_source input) (in_amount_in input) in
  let gross := Z.min (in_gross_profit input + in_amount_in input) U256_MAX
               * (10000 - in_slippage_bps input) / 10000 - in_amount_in input in
  let tip := Z.min (Z.min (priority_bid_basis_matic_wei a * in_profit_priority_alpha_bps input) U256_MAX
                    / 10000 / units) MAX_PROFIT_PRIORITY_FEE_WEI in
  let uplift := Z.min (Z.max 0 (tip - Z.max (in_charged_priority_fee_per_gas input) MIN_PRIORITY_FEE_PER_GAS)
                       * units) U256_MAX in
  MIN_TOKEN_TO_MATIC_RATE ≤ rate ∧
  flash_loan_fee a = fee ∧ gas_cost_wei a = gas ∧
  gross = net_profit_after_gas a + cdiv (gas * scale) rate + fee ∧
  0 < net_profit_after_gas a ∧
  gross * rate / scale = priority_bid_basis_matic_wei a + gas + cdiv (fee * rate) scale ∧
  priority_bid_basis_matic_wei a = net_profit_after_gas_matic_wei a + uplift ∧
  Z.max 1 (in_min_profit_matic_wei input) ≤ net_profit_after_gas_matic_wei a
    ≤ MAX_SANE_PROFIT_MATIC_WEI ∧
  Z.min (gas * in_safety_multiplier_bps input) U256_MAX / 10000 ≤ priority_bid_basis_matic_wei a ∧
  (in_min_profit_roi_bps input ≤ 0 ∨
   in_min_profit_roi_bps input * in_amount_in input ≤ net_profit_after_gas a * 10000).
Proof.
  intros Hwf Hf Hsafe Hex. cbn zeta. unfold assess_profit in *.
  destruct (assess_terms s input) as [|t] eqn:Ht; [done|].
  apply assess_terms_spec in Ht as [Hfee Hadj Hgas Hrate Hok _]; [|done..].
  pose proof (flash_loan_fee_amount_lender _ _ _ _ Hf (proj1 (proj1 (proj2 Hwf))) Hfee) as Hlend.
  rewrite <- profit_priority_uplift_eq, <- safety_floor_eq, <- Hlend.
  unfold assess_gate in *. cbn [should_execute net_profit_after_gas flash_loan_fee gas_cost_wei
    priority_bid_basis_matic_wei net_profit_after_gas_matic_wei] in *.
  destruct (Z.eqb_spec (in_safety_multiplier_bps input) 0) as [|_]; [done|].
  apply andb_true_iff in Hex as [Hex Hroi]. apply andb_true_iff in Hex as [Hex Hcap].
  apply andb_true_iff in Hex as [Hex Hsafety]. apply andb_true_iff in Hex as [Hex Hmin].
  apply andb_true_iff in Hex as [Hex Hmatic]. apply andb_true_iff in Hex as [Hrok Htok].
  specialize (Hok Hrok) as (Ht1 & Ht2 & Ht3). rewrite Hrok in Hrate. symmetry in Hrate.
  rewrite Hgas in *. rewrite <- Ht1, <- Ht3. zbool.
  set (uplift := profit_priority_uplift_wei _ _ _ _) in *.
  apply saturating_sub_pos in Htok as [Htok Hlt1]. rewrite Htok in *.
  assert (0 ≤ tm_gas_cost_in_tokens t).
  { rewrite Ht1. apply cdiv_nonneg; [change MIN_TOKEN_TO_MATIC_RATE with 1000000 in *; lia|].
    destruct Hwf as (_ & _ & ? & ? & _ & Hd & _). pose proof (ten_pow_u256_pos _ Hd).
    apply Z.mul_nonneg_nonneg; [apply Z.mul_nonneg_nonneg|]; lia. }
  assert (0 < saturating_sub (tm_adjusted_gross t) (tm_flash_loan_fee t)) as Hnb by lia.
  apply saturating_sub_pos in Hnb as [Hnb Hlt2]. rewrite Hnb in *.
  assert (0 ≤ tm_flash_loan_fee t).
  { eapply flash_loan_fee_amount_nonneg; [done| |done]. by destruct Hwf as (_ & [? _] & _). }
  assert (0 ≤ uplift).
  { unfold uplift, profit_priority_uplift_wei, saturating_mul, saturating_sub, U256_MAX.
    pose proof M256_pos. destruct Hwf as (_ & _ & ? & _).
    apply Z.min_glb; [apply Z.mul_nonneg_nonneg; lia|lia]. }
  apply saturating_sub_pos in Hmatic as [Hm1 Hlt3]. rewrite Hm1 in *.
  assert (0 < saturating_sub (saturating_sub (tm_gross_profit_matic_wei t) (tm_flash_fee_matic_wei t))
    (in_gas_units input * in_gas_price_wei input)) as Hm2 by lia.
  apply saturating_sub_pos in Hm2 as [Hm2 Hlt4]. rewrite Hm2 in *.
  assert (0 ≤ in_gas_units input * in_gas_price_wei input)
    by (destruct Hwf as (_ & _ & ? & ? & _); nia).
  assert (0 < saturating_sub (tm_gross_profit_matic_wei t) (tm_flash_fee_matic_wei t)) as Hm3 by lia.
  apply saturating_sub_pos in Hm3 as [Hm3 Hlt5]. rewrite Hm3 in *.
  assert (0 < tm_adjusted_gross t) as Hpos by lia.
  rewrite Hadj in Hpos. rewrite Z.max_r in Hadj by lia. rewrite <- Hadj, <- Ht2.
  split_and!; try lia. apply (roi_bps_met _ (tm_adjusted_gross t - tm_flash_loan_fee t - tm_gas_cost_in_tokens t)).
  - by destruct Hwf as (_ & [? _] & _).
  - lia.
  - exact Hroi.
Qed.

Definition demo_assess : AssessProfitInput :=
  {| in_gross_profit := 3 * 10 ^ 6; in_amount_in := 100 * 10 ^ 6; in_gas_units := 400000;
     in_gas_price_wei := 60 * 10 ^ 9; in_charged_priority_fee_per_gas := 25 * 10 ^ 9;
     in_token_to_matic_rate := 4 * 10 ^ 17; in_token_decimals := 6; in_hop_count := 2;
     in_min_profit_matic_wei := 10 ^ 16; in_min_profit_roi_bps := 10; in_slippage_bps := 199;
     in_flash_loan_source := FAaveV3; in_safety_multiplier_bps := 15000;
     in_profit_priority_alpha_bps := 1000 |}.

Lemma assess_profit_sound_witness :
  should_execute (assess_profit flash_fees_init demo_assess) = true ∧
  0 < net_profit_after_gas (assess_profit flash_fees_init demo_assess).
Proof.
  assert (should_execute (assess_profit flash_fees_init demo_assess) = true) as H
    by (vm_compute; reflexivity).
  split; [exact H|].
  apply (assess_profit_sound flash_fees_init demo_assess).
  - unfold assess_input_wf. split_and!; eval_range.
  - split; eval_range.
  - eval_range.
  - exact H.
Defined.

(** The reported reason and the decision never disagree: a rejected route
    always carries a reason and an approved one never does, on every path. *)
Theorem assess_profit_reason_iff (s : FlashFees) (input : AssessProfitInput) :
  reject_reason (assess_profit s input) = None ↔ should_execute (assess_profit s input) = true.
Proof.
  unfold assess_profit. destruct (assess_terms s input) as [r|t]; [done|].
  unfold assess_gate. cbn [should_execute reject_reason].
  set (b := (_ && _)%bool). clearbody b. destruct b; [done|].
  split; [|done]. repeat (case_goal; [done|]). done.
Qed.

(** The on-chain minimum profit passed to the executor is positive for a
    positive net profit, never above it, and at least 95% of it (rounded down). *)
Theorem on_chain_min_profit_bounds (net m : Z) :
  0 < net → on_chain_min_profit net = Some m → 0 < m ≤ net ∧ net * 9500 / 10000 ≤ m.
Proof.
  intros Hn. unfold on_chain_min_profit, is_zero. destruct (Z.eqb_spec net 0); [lia|].
  destruct (checked_mul _ _) as [v|] eqn:E; [|done]. apply checked_mul_Some in E as [-> _].
  change ON_CHAIN_MIN_PROFIT_RATIO_BPS with 9500. change BPS_SCALE with 10000.
  pose proof (mul_ratio_le net 9500 10000 ltac:(lia) ltac:(lia) ltac:(lia)).
  destruct (Z.eqb_spec (net * 9500 / 10000) 0) as [E0|]; intros [= <-]; lia.
Qed.

Lemma on_chain_min_profit_bounds_witness : 0 < 950 ≤ 1000 ∧ 1000 * 9500 / 10000 ≤ 950.
Proof. apply on_chain_min_profit_bounds; vm_compute; reflexivity. Defined.

(** Flash premiums are the lenders' formulas: the Balancer fee is the exact
    ceiling of [amount·pct/1e18] and the Aave fee the half-up rounding of
    [amount·bps/10000], each absent exactly when its product overflows. *)
Theorem flash_loan_fee_amount_exact (s : FlashFees) (amount : Z) :
  0 ≤ amount → flash_fees_wf s →
  flash_loan_fee_amount s FBalancer amount =
    (if amount * balancer_fee_pct s <? M256
     then Some (cdiv (amount * balancer_fee_pct s) BALANCER_FP_ONE) else None) ∧
  flash_loan_fee_amount s FAaveV3 amount =
    (if (aave_fee_bps s =? 0) || (amount * aave_fee_bps s + 5000 <? M256)
     then Some ((amount * aave_fee_bps s + 5000) / 10000) else None)%bool.
Proof.
  intros Ha [Hb Hp]. split; [by apply balancer_mul_up_spec|].
  cbn [flash_loan_fee_amount flash_loan_fee_bps]. unfold aave_percent_mul, checked_mul, checked_add.
  destruct (Z.eqb_spec (aave_fee_bps s) 0) as [->|]; [by rewrite Z.mul_0_r|]. cbn [orb].
  change BPS_SCALE with 10000.
  destruct (Z.ltb_spec (amount * aave_fee_bps s) M256),
    (Z.ltb_spec (amount * aave_fee_bps s + 5000) M256); (done || lia).
Qed.

Lemma flash_loan_fee_amount_exact_witness :
  flash_loan_fee_amount flash_fees_init FBalancer (10 ^ 21) = Some 0 ∧
  flash_loan_fee_amount flash_fees_init FAaveV3 (10 ^ 21) = Some (5 * 10 ^ 17).
Proof.
  destruct (flash_loan_fee_amount_exact flash_fees_init (10 ^ 21)) as [H1 H2];
    [eval_range|split; eval_range|].
  split; [rewrite H1|rewrite H2]; vm_compute; reflexivity.
Defined.

(** Compounding per-hop slippage: the route haircut is at least one hop's and
    at least the true compound loss, at most the sum of the hops', and below
    100%. *)
Theorem compound_slippage_bps_bounds (per_hop hops : Z) :
  0 < per_hop < 10000 → 1 ≤ hops →
  let c := compound_slippage_bps per_hop hops in
  per_hop ≤ c ≤ Z.min 9999 (per_hop * hops) ∧
  (c = 9999 ∨ (10000 - c) * 10000 ^ hops ≤ 10000 * (10000 - per_hop) ^ hops).
Proof.
  intros Hp Hh. cbn zeta. unfold compound_slippage_bps.
  destruct (Z.leb_spec 10000 per_hop); [lia|]. destruct (Z.eqb_spec per_hop 0); [lia|].
  destruct (Z.leb_spec hops 1); cbn [orb].
  { replace hops with 1 by lia. rewrite !Z.pow_1_r. lia. }
  destruct (retain_loop _ _ _) as [r|] eqn:E.
  - destruct (Z.to_nat hops) as [|k] eqn:Ek; [lia|].
    assert (hops = Z.of_nat (S k)) as -> by lia. cbn [retain_loop] in E.
    destruct (Z.eqb_spec (10000 * (10000 - per_hop) / 10000) 0) as [|_]; [done|].
    replace (10000 * (10000 - per_hop)) with ((10000 - per_hop) * 10000) in E by lia.
    rewrite Z.div_mul in E by done.
    apply retain_loop_bounds in E as (Hb & Hr0 & Hpow); [|lia|lia].
    rewrite Nat2Z.inj_succ, !Z.pow_succ_r by lia.
    split; [nia|]. destruct (Z.le_gt_cases 9999 (10000 - r)); [left; lia|right].
    rewrite Z.min_l by lia. replace (10000 - (10000 - r)) with r by lia. lia.
  - apply retain_loop_None in E; [|lia..]. rewrite Z2Nat.id in E by lia. split; [nia|by left].
Qed.

Lemma compound_slippage_bps_bounds_witness :
  100 ≤ compound_slippage_bps 100 3 ≤ Z.min 9999 (100 * 3) ∧
  (compound_slippage_bps 100 3 = 9999 ∨
   (10000 - compound_slippage_bps 100 3) * 10000 ^ 3 ≤ 10000 * (10000 - 100) ^ 3).
Proof. apply compound_slippage_bps_bounds; [split; eval_range|eval_range]. Defined.

(** The sizing score sees the same terms as the assessment. *)
Lemma probe_parts_of_terms s sim amount_in ctx t :
  assess_terms s (probe_assess_input sim amount_in ctx) = inr t → tm_rate_ok t = true →
  0 ≤ cx_token_decimals ctx ≤ 255 →
  probe_matic_parts s sim amount_in ctx =
    Some {| pb_gross_matic := tm_gross_profit_matic_wei t;
            pb_flash_matic := tm_flash_fee_matic_wei t;
            pb_gas_cost_wei := tm_gas_cost_wei t;
            pb_priority_uplift :=
              profit_priority_uplift_wei
                (saturating_sub (saturating_sub (tm_gross_profit_matic_wei t) (tm_flash_fee_matic_wei t))
                   (tm_gas_cost_wei t))
                (cx_profit_priority_alpha_bps ctx)
                (in_gas_units (probe_assess_input sim amount_in ctx))
                (cx_charged_priority_fee_per_gas ctx) |}.
Proof.
  intros Ht Hok Hd. pose proof (ten_pow_u256_pos _ Hd) as Hscale.
  unfold assess_terms in Ht. unfold probe_matic_parts. cbv zeta in *.
  destruct (flash_loan_fee_amount _ _ _) as [fee|]; [|done].
  destruct (10000 <=? _); [done|]. destruct (slippage_adjusted _ _) as [adj|]; [|done].
  destruct (checked_mul (in_gas_units _) _) as [gas|]; [|done].
  destruct (Z.leb_spec MIN_TOKEN_TO_MATIC_RATE (in_token_to_matic_rate (probe_assess_input sim amount_in ctx)))
    as [Hr|Hr]; [|by simplify_eq].
  destruct (Z.ltb_spec (in_token_to_matic_rate (probe_assess_input sim amount_in ctx)) MIN_TOKEN_TO_MATIC_RATE);
    [lia|]. cbn [orb]. unfold is_zero.
  destruct (Z.eqb_spec (ten_pow_u256 (in_token_decimals (probe_assess_input sim amount_in ctx))) 0) as [E|_].
  { change (in_token_decimals (probe_assess_input sim amount_in ctx)) with (cx_token_decimals ctx) in E. lia. }
  destruct (match checked_mul gas _ with Some _ => _ | None => _ end); [|done].
  destruct (checked_mul (saturating_sub _ _) _); [|done].
  destruct (checked_mul fee _); [|done]. destruct (ceil_div _ _); [|done]. by simplify_eq.
Qed.

Lemma profit_priority_uplift_wei_nonneg e alpha gas charged :
  0 ≤ gas → 0 ≤ profit_priority_uplift_wei e alpha gas charged.
Proof.
  intros Hg. unfold profit_priority_uplift_wei, saturating_mul, saturating_sub, U256_MAX.
  pose proof M256_pos. apply Z.min_glb; [apply Z.mul_nonneg_nonneg; lia|lia].
Qed.

(** The sizing objective and the assessment agree: wherever the assessed MATIC
    net of a size is positive, its Brent score is exactly that net above the
    bias, so the search ranks profitable sizes by the profit the gate will see. *)
Theorem brent_score_is_biased_net
    (s : FlashFees) (sim : MinimalSimResult) (amount_in : Z) (ctx : ProfitEvalContext) :
  assess_input_wf (probe_assess_input sim amount_in ctx) → flash_fees_wf s →
  0 < net_profit_matic_from_sim s sim amount_in ctx →
  sim_profit sim * cx_token_to_matic_rate ctx < 2 ^ 255 →
  brent_score_matic_from_sim s sim amount_in ctx =
    BRENT_MATIC_SCORE_BIAS + net_profit_matic_from_sim s sim amount_in ctx.
Proof.
  intros Hwf Hf Hnet Hsmall. unfold net_profit_matic_from_sim, assess_profit in *.
  destruct (assess_terms _ _) as [r|t] eqn:Ht; [done|].
  unfold assess_gate in *. cbn [net_profit_after_gas_matic_wei] in *.
  apply assess_terms_spec in Ht as Hspec; [|done..].
  destruct Hspec as [Hfee Hadj Hgas Hrate Hok Hbad].
  destruct Hwf as (Hg & Ha & Hgu & Hgp & Hrt & Hd & Hsl & _).
  assert (0 ≤ tm_gas_cost_wei t) by (rewrite Hgas; by apply Z.mul_nonneg_nonneg).
  set (uplift := profit_priority_uplift_wei _ _ _ _) in Hnet |- *.
  assert (0 ≤ uplift) by by apply profit_priority_uplift_wei_nonneg.
  assert (tm_rate_ok t = true) as Hr.
  { destruct (tm_rate_ok t) eqn:E; [done|]. exfalso. destruct (Hbad eq_refl) as [E1 E2].
    rewrite E1, E2 in Hnet. unfold saturating_sub in Hnet. lia. }
  unfold brent_score_matic_from_sim. erewrite probe_parts_of_terms by done.
  cbn [pb_gross_matic pb_flash_matic pb_gas_cost_wei pb_priority_uplift].
  change (profit_priority_uplift_wei _ _ _ _) with uplift.
  destruct (Hok Hr) as (_ & Ht2 & Ht3). pose proof (ten_pow_u256_pos _ Hd) as Hscale.
  assert (0 ≤ tm_flash_loan_fee t) by (eapply flash_loan_fee_amount_nonneg; [done|apply Ha|done]).
  assert (0 ≤ tm_flash_fee_matic_wei t).
  { rewrite Ht3. apply cdiv_nonneg; [lia|]. apply Z.mul_nonneg_nonneg; [done|by destruct Hrt]. }
  assert (tm_gross_profit_matic_wei t < 2 ^ 255) as Hgm.
  { rewrite Ht2. apply Z.div_lt_upper_bound; [lia|].
    assert (tm_adjusted_gross t * in_token_to_matic_rate (probe_assess_input sim amount_in ctx) < 2 ^ 255); [|nia].
    eapply Z.le_lt_trans; [|exact Hsmall]. apply Z.mul_le_mono_nonneg_r; [by destruct Hrt|].
    rewrite Hadj. cbn [probe_assess_input in_gross_profit in_amount_in in_slippage_bps] in *.
    unfold u256, U256_MAX in *. apply Z.max_lub; [lia|]. apply Z.le_sub_le_add_r.
    pose proof (mul_ratio_le (Z.min (sim_profit sim + amount_in) (M256 - 1)) (10000 - cx_slippage_bps ctx) 10000).
    destruct (Z.le_gt_cases (cx_slippage_bps ctx) 10000); [lia|].
    etrans; [apply (Z.div_le_mono _ 0); [done|nia]|]. rewrite Z.div_0_l by done. lia. }
  unfold saturating_sub, saturating_add, U256_MAX in *.
  assert (BRENT_MATIC_SCORE_BIAS = 2 ^ 128) as -> by (vm_compute; reflexivity).
  unfold M256. rewrite Z.min_l by lia. lia.
Qed.

Definition demo_ctx : ProfitEvalContext :=
  {| cx_gas_price := 60 * 10 ^ 9; cx_charged_priority_fee_per_gas := 25 * 10 ^ 9;
     cx_flash_source := FAaveV3; cx_slippage_bps := 199; cx_token_to_matic_rate := 4 * 10 ^ 17;
     cx_token_decimals := 6; cx_safety_multiplier_bps := 15000; cx_gas_scale_bps := 10000;
     cx_profit_priority_alpha_bps := 1000; cx_hop_count := 2 |}.

Lemma brent_score_is_biased_net_witness :
  let sim := {| sim_profit := 3 * 10 ^ 6; sim_amount_out := 103 * 10 ^ 6; sim_total_gas := 400000 |} in
  brent_score_matic_from_sim flash_fees_init sim (100 * 10 ^ 6) demo_ctx =
    BRENT_MATIC_SCORE_BIAS + net_profit_matic_from_sim flash_fees_init sim (100 * 10 ^ 6) demo_ctx.
Proof.
  apply brent_score_is_biased_net.
  - unfold assess_input_wf. split_and!; eval_range.
  - split; eval_range.
  - eval_range.
  - eval_range.
Defined.
