(* ===== verification/GasOracle.v ===== *)
(** * The gas oracle

    [src/src/services/execution/gas_oracle.rs]: the bounded history of observed
    route gas (a map and its recency queue), the global simulated-to-observed
    scale, the per-tick lookup and the fee snapshot with its age.  The oracle's
    atomics, mutex and arc-swap are one record; each method is one atomic step.
    The clock and the two RPC answers of a refresh are arguments. *)
From stdpp Require Import gmap.
From S2P Require Import Prelude Word Types Gas.

Definition ROUTE_GAS_HISTORY : nat := 256.
Definition MAX_SIM_SCALE_BPS : Z := 15000.
Definition MIN_SIM_SCALE_BPS : Z := 10000.
Definition MIN_OBS_RATIO_BPS : Z := 8000.
Definition GLOBAL_SCALE_OUTLIER_BPS : Z := 18000.
Definition SNAPSHOT_LOG_CHANGE_BPS : Z := 500.

Record RouteGasLookup := { lk_scale_bps : Z; lk_observed : gmap CycleEdges Z }.

Record RouteGasHistory := { rh_map : gmap CycleEdges Z; rh_order : list CycleEdges }.

Record GasOracle := {
  go_snapshot : option FeeSnapshot;
  go_snapshot_updated_at_ms : Z;
  go_poll_interval_ms : Z;
  go_route_gas : RouteGasHistory;
  go_sim_scale_bps : Z;
}.

Definition new (poll_interval_ms : Z) : GasOracle :=
  {| go_snapshot := None; go_snapshot_updated_at_ms := 0; go_poll_interval_ms := poll_interval_ms;
     go_route_gas := {| rh_map := ∅; rh_order := [] |}; go_sim_scale_bps := 10000 |}.

(** ** Reads *)

Definition observed_route_gas (o : GasOracle) (edges : CycleEdges) : option Z :=
  rh_map (go_route_gas o) !! edges.

Definition route_gas_or_heuristic (o : GasOracle) (edges : CycleEdges) (heuristic : Z) : Z :=
  match observed_route_gas o edges with
  | Some observed => observed
  | None =>
      let scale := Z.max (go_sim_scale_bps o) 10000 in
      scaled_simulated_gas heuristic scale
  end.

Definition route_gas_observed_or_seed (o : GasOracle) (edges : CycleEdges) (seed : Z) : Z :=
  default seed (observed_route_gas o edges).

Definition sim_scale_bps (o : GasOracle) : Z := Z.max (go_sim_scale_bps o) 10000.

(** ** Recording observed gas *)

(** [hist.order.iter().position(..)], [remove(pos)], [push_back(route)]. *)
Definition touch (route : CycleEdges) (order : list CycleEdges) : list CycleEdges :=
  match list_find (λ known, known = route) order with
  | Some (pos, _) => delete pos order ++ [route]
  | None => order
  end.

(** [while hist.order.len() >= ROUTE_GAS_HISTORY { pop_front; map.remove }]. *)
Fixpoint evict (map : gmap CycleEdges Z) (order : list CycleEdges) : gmap CycleEdges Z * list CycleEdges :=
  if (ROUTE_GAS_HISTORY <=? length order)%nat then
    match order with
    | [] => (map, order)
    | old :: order => evict (delete old map) order
    end
  else (map, order).

(** [75%] prior, [25%] observation. *)
Definition blend_gas (entry gas : Z) : Z :=
  let blended := (Z.min (entry * 3) u64_max + gas) / 4 in
  Z.max (u32_or blended u32_max) 1.

Definition record_history (edges : CycleEdges) (gas : Z) (hist : RouteGasHistory) : RouteGasHistory :=
  match rh_map hist !! edges with
  | Some entry =>
      {| rh_map := <[edges := blend_gas entry gas]> (rh_map hist);
         rh_order := touch edges (rh_order hist) |}
  | None =>
      let '(map, order) := evict (rh_map hist) (rh_order hist) in
      {| rh_map := <[edges := gas]> map; rh_order := order ++ [edges] |}
  end.

Definition record_route_gas (edges : CycleEdges) (gas : Z) (o : GasOracle) : GasOracle :=
  if gas =? 0 then o
  else
    {| go_snapshot := go_snapshot o; go_snapshot_updated_at_ms := go_snapshot_updated_at_ms o;
       go_poll_interval_ms := go_poll_interval_ms o;
       go_route_gas := record_history edges gas (go_route_gas o);
       go_sim_scale_bps := go_sim_scale_bps o |}.

(** ** The global scale *)

(** The update the CAS loop applies to the previous scale. *)
Definition blend_scale (prev ratio_bps : Z) : Z :=
  let prev := Z.max prev MIN_SIM_SCALE_BPS in
  let blended := (prev * 3 + ratio_bps) / 4 in
  clamp MIN_SIM_SCALE_BPS MAX_SIM_SCALE_BPS blended.

Definition raw_ratio_bps (simulated observed : Z) : Z :=
  Z.min (Z.min (observed * 10000) u64_max / simulated) u32_max.

Definition record_sim_observed (simulated observed : Z) (o : GasOracle) : GasOracle :=
  if ((simulated =? 0) || (observed =? 0))%bool then o
  else
    let raw := raw_ratio_bps simulated observed in
    if GLOBAL_SCALE_OUTLIER_BPS <? raw then o
    else
      let ratio_bps := clamp MIN_OBS_RATIO_BPS MAX_SIM_SCALE_BPS raw in
      {| go_snapshot := go_snapshot o; go_snapshot_updated_at_ms := go_snapshot_updated_at_ms o;
         go_poll_interval_ms := go_poll_interval_ms o; go_route_gas := go_route_gas o;
         go_sim_scale_bps := blend_scale (go_sim_scale_bps o) ratio_bps |}.

(** ** The per-tick lookup *)

Definition for_routes (o : GasOracle) (routes : list CycleEdges) : RouteGasLookup :=
  let scale := Z.max (sim_scale_bps o) 10000 in
  {| lk_scale_bps := scale;
     lk_observed :=
       fold_left (λ map edges,
         match rh_map (go_route_gas o) !! edges with
         | Some gas => <[edges := gas]> map
         | None => map
         end) routes ∅ |}.

Definition lookup_gas_or_heuristic (l : RouteGasLookup) (edges : CycleEdges) (heuristic : Z) : Z :=
  match lk_observed l !! edges with
  | Some gas => gas
  | None => scaled_simulated_gas heuristic (lk_scale_bps l)
  end.

Definition lookup_gas_observed_or_seed (l : RouteGasLookup) (edges : CycleEdges) (seed : Z) : Z :=
  match lk_observed l !! edges with Some gas => gas | None => seed end.

(** ** The fee snapshot *)

Definition conservative_gas_price (o : GasOracle) : option Z :=
  compute_conservative_gas_price <$> go_snapshot o.

Definition snapshot_age_ms (now_ms : Z) (o : GasOracle) : option Z :=
  let updated := go_snapshot_updated_at_ms o in
  if updated =? 0 then None else Some (Z.max 0 (now_ms - updated)).

(** [as_millis()] is a [u128]; the [as u64] keeps its low bits. *)
Definition live_snapshot_max_age_ms (o : GasOracle) : Z :=
  wrap_u 64 (Z.max (Z.min (go_poll_interval_ms o * 5) (M128 - 1)) 15000).

Definition age_ok (now_ms : Z) (o : GasOracle) : bool :=
  match snapshot_age_ms now_ms o with
  | Some age => age <=? live_snapshot_max_age_ms o
  | None => false
  end.

Definition conservative_gas_price_for_live_submit (now_ms : Z) (o : GasOracle) : option Z :=
  let? fees := go_snapshot o in
  if age_ok now_ms o then Some (compute_conservative_gas_price fees) else None.

Definition fees_ready_for_live_submit (now_ms : Z) (o : GasOracle) : bool :=
  (bool_decide (is_Some (go_snapshot o)) && age_ok now_ms o)%bool.

Inductive TipSource := FromRpc | PreviousSnapshot | FallbackMinPriority.
#[export] Instance TipSource_eq_dec : EqDecision TipSource.
Proof. solve_decision. Defined.

(** The tip and its source from the RPC answer ([None] is an error). *)
Definition refreshed_tip (previous : option FeeSnapshot) (tip_res : option Z) : Z * TipSource :=
  let '(tip, source) :=
    match tip_res with
    | Some v => (v, FromRpc)
    | None => (match previous with Some snap => priority_fee snap | None => 0 end, PreviousSnapshot)
    end in
  let '(tip, source) :=
    if is_zero tip then (MIN_PRIORITY_FEE_PER_GAS, FallbackMinPriority) else (tip, source) in
  (Z.max tip MIN_PRIORITY_FEE_PER_GAS, source).

(** [refresh_once]: [None] for the base fee is any of its three errors, which
    leave the oracle unchanged. *)
Definition refresh_once (now_ms : Z) (block_base_fee tip_res : option Z) (o : GasOracle) : GasOracle :=
  match block_base_fee with
  | None => o
  | Some base =>
      let previous := go_snapshot o in
      let '(tip, source) := refreshed_tip previous tip_res in
      let is_initial_snapshot := bool_decide (previous = None) in
      {| go_snapshot := Some {| base_fee := base; priority_fee := tip |};
         go_snapshot_updated_at_ms :=
           if (negb (bool_decide (source = PreviousSnapshot)) || is_initial_snapshot)%bool
           then now_ms else go_snapshot_updated_at_ms o;
         go_poll_interval_ms := go_poll_interval_ms o; go_route_gas := go_route_gas o;
         go_sim_scale_bps := go_sim_scale_bps o |}
  end.

Definition fee_changed_by_at_least (previous current : Z) : bool :=
  if is_zero previous then negb (is_zero current)
  else
    let delta := if previous <=? current then current -% previous else previous -% current in
    saturating_mul previous SNAPSHOT_LOG_CHANGE_BPS / 10000 <=? delta.

Definition snapshot_changed_materially (previous current : FeeSnapshot) : bool :=
  (fee_changed_by_at_least (base_fee previous) (base_fee current)
   || fee_changed_by_at_least (priority_fee previous) (priority_fee current))%bool.

(** ** The oracle as a transition system *)

Inductive op :=
| RecordRouteGas (edges : CycleEdges) (gas : Z)
| RecordSimObserved (simulated observed : Z)
| Refresh (now_ms : Z) (block_base_fee tip_res : option Z).

Definition step (o : GasOracle) (x : op) : GasOracle :=
  match x with
  | RecordRouteGas edges gas => record_route_gas edges gas o
  | RecordSimObserved simulated observed => record_sim_observed simulated observed o
  | Refresh now_ms base tip => refresh_once now_ms base tip o
  end.

(** Arguments have their Rust types. *)
Definition op_wf (x : op) : Prop :=
  match x with
  | RecordRouteGas _ gas => 0 ≤ gas ≤ u32_max
  | RecordSimObserved simulated observed => 0 ≤ simulated ≤ u32_max ∧ 0 ≤ observed ≤ u64_max
  | Refresh now_ms base tip => 0 ≤ now_ms
  end.

Inductive reachable : GasOracle → Prop :=
| reach_new poll : reachable (new poll)
| reach_step o x : reachable o → op_wf x → reachable (step o x).

Record history_inv (h : RouteGasHistory) : Prop := {
  hi_nodup : NoDup (rh_order h);
  hi_dom : ∀ r, r ∈ rh_order h ↔ is_Some (rh_map h !! r);
  hi_len : (length (rh_order h) ≤ ROUTE_GAS_HISTORY)%nat;
  hi_gas : map_Forall (λ _ gas, 1 ≤ gas ≤ u32_max) (rh_map h);
}.

Record oracle_inv (o : GasOracle) : Prop := {
  oi_history : history_inv (go_route_gas o);
  oi_scale : MIN_SIM_SCALE_BPS ≤ go_sim_scale_bps o ≤ MAX_SIM_SCALE_BPS;
  oi_fees : ∀ f, go_snapshot o = Some f → MIN_PRIORITY_FEE_PER_GAS ≤ priority_fee f;
}.

(** ** The recency queue *)

Lemma touch_spec r order :
  r ∈ order → ∃ l1 l2, order = l1 ++ r :: l2 ∧ (r ∉ l1) ∧ touch r order = l1 ++ (l2 ++ [r]).
Proof.
  intros Hr. unfold touch. destruct (list_find (λ known, known = r) order) as [[pos x]|] eqn:E.
  - apply list_find_Some in E as (Hpos & -> & Hmin).
    exists (take pos order), (drop (S pos) order).
    split; [by rewrite take_drop_middle|]. split.
    + intros [i Hi]%list_elem_of_lookup_1. apply lookup_take_Some in Hi as [Hi Hlt].
      by apply (Hmin i r).
    + by rewrite delete_take_drop, <- app_assoc.
  - apply list_find_None in E. rewrite Forall_forall in E. by destruct (E r Hr).
Qed.

Lemma evict_full map old rest :
  length (old :: rest) = ROUTE_GAS_HISTORY → evict map (old :: rest) = (delete old map, rest).
Proof.
  intros Hl. cbn [evict]. rewrite Hl. cbn [Nat.leb]. simpl in Hl.
  assert ((ROUTE_GAS_HISTORY <=? length rest)%nat = false) as Hlt by (apply Nat.leb_gt; lia).
  destruct (Nat.leb_spec ROUTE_GAS_HISTORY ROUTE_GAS_HISTORY); [|lia].
  destruct rest; cbn [evict]; by rewrite Hlt.
Qed.

Lemma evict_room map order :
  (length order < ROUTE_GAS_HISTORY)%nat → evict map order = (map, order).
Proof.
  intros Hl. assert ((ROUTE_GAS_HISTORY <=? length order)%nat = false) as E by (apply Nat.leb_gt; lia).
  destruct order; cbn [evict]; by rewrite E.
Qed.

Lemma blend_gas_range e g : 1 ≤ e ≤ u32_max → 0 ≤ g ≤ u32_max → 1 ≤ blend_gas e g ≤ u32_max.
Proof.
  intros He Hg. unfold blend_gas, u32_or, u32_max, u64_max in *.
  destruct (Z.leb_spec ((Z.min (e * 3) (2 ^ 64 - 1) + g) / 4) (2 ^ 32 - 1)); lia.
Qed.

Lemma record_history_inv edges gas h :
  1 ≤ gas ≤ u32_max → history_inv h → history_inv (record_history edges gas h).
Proof.
  intros Hgas [Hnd Hdom Hlen Hg]. unfold record_history.
  destruct (rh_map h !! edges) as [entry|] eqn:E.
  - destruct (touch_spec edges (rh_order h)) as (l1 & l2 & Ho & Hl1 & Ht); [by apply Hdom|].
    assert (touch edges (rh_order h) ≡ₚ rh_order h) as Hp.
    { rewrite Ht, Ho. apply Permutation_app_head. by rewrite Permutation_app_comm. }
    constructor; cbn [rh_map rh_order].
    + by rewrite Hp.
    + intros r. rewrite Hp, Hdom, lookup_insert_is_Some'. destruct (decide (edges = r)) as [<-|]; [|tauto].
      rewrite E. split; [by left|by eexists].
    + by rewrite Hp.
    + apply map_Forall_insert_2; [|done]. apply blend_gas_range; [by apply (Hg edges)|lia].
  - destruct (decide (length (rh_order h) < ROUTE_GAS_HISTORY)%nat) as [Hlt|Hge].
    + rewrite evict_room by done. constructor; cbn [rh_map rh_order].
      * apply NoDup_app. split; [done|]. split; [|apply NoDup_singleton].
        intros r Hr ->%list_elem_of_singleton. apply Hdom in Hr. rewrite E in Hr. by destruct Hr.
      * intros r. rewrite elem_of_app, list_elem_of_singleton, Hdom, lookup_insert_is_Some'.
        naive_solver.
      * rewrite length_app. simpl. lia.
      * by apply map_Forall_insert_2.
    + destruct (rh_order h) as [|old rest] eqn:Ho; [simpl in Hge; unfold ROUTE_GAS_HISTORY in *; lia|].
      rewrite evict_full by (unfold ROUTE_GAS_HISTORY in *; lia).
      apply NoDup_cons in Hnd as [Hold Hnd]. constructor; cbn [rh_map rh_order].
      * apply NoDup_app. split; [done|]. split; [|apply NoDup_singleton].
        intros r Hr ->%list_elem_of_singleton. assert (edges ∈ old :: rest) as Hin by (by right).
        apply Hdom in Hin. rewrite E in Hin. by destruct Hin.
      * intros r. rewrite elem_of_app, list_elem_of_singleton, lookup_insert_is_Some'.
        destruct (decide (old = r)) as [<-|Hne].
        -- rewrite lookup_delete_eq. split; [intros [?|?]; [done|by left]|].
           intros [?|[? [=]]]. by right.
        -- rewrite lookup_delete_ne by done. rewrite <- Hdom, elem_of_cons. naive_solver.
      * rewrite length_app. simpl in *. lia.
      * apply map_Forall_insert_2; [done|]. by apply map_Forall_delete.
Qed.

(** [r] is held with at most [n] more recent routes. *)
Definition held (n : nat) (r : CycleEdges) (h : RouteGasHistory) : Prop :=
  ∃ l1 l2, rh_order h = l1 ++ r :: l2 ∧ (length l2 ≤ n)%nat.

Lemma record_history_held_self edges gas h :
  history_inv h → held 0 edges (record_history edges gas h).
Proof.
  intros [_ Hdom _ _]. unfold record_history, held.
  destruct (rh_map h !! edges) as [entry|] eqn:E; cbn [rh_order].
  - destruct (touch_spec edges (rh_order h)) as (l1 & l2 & _ & _ & ->); [by apply Hdom|].
    exists (l1 ++ l2), []. by rewrite app_assoc.
  - destruct (evict _ _) as [map order]. cbn [rh_order]. by exists order, [].
Qed.

Lemma split_unique {A} (e : A) a b c d :
  a ++ e :: b = c ++ e :: d → e ∉ a → e ∉ c → a = c ∧ b = d.
Proof.
  revert c. induction a as [|x a IH]; intros [|y c] Heq Ha Hc; simplify_eq/=.
  - done.
  - by destruct Hc; left.
  - by destruct Ha; left.
  - destruct (IH c) as [-> ->]; try done; intros ?; [apply Ha|apply Hc]; by right.
Qed.

Lemma NoDup_split_not_in {A} (e : A) a b : NoDup (a ++ e :: b) → e ∉ a.
Proof. intros (_ & Hnd & _)%NoDup_app Hx. apply (Hnd _ Hx). by left. Qed.

Lemma touch_held r e n l1 l2 :
  NoDup (l1 ++ r :: l2) → e ∈ l1 ++ r :: l2 → e ≠ r → (length l2 ≤ n)%nat →
  ∃ l1' l2', touch e (l1 ++ r :: l2) = l1' ++ r :: l2' ∧ (length l2' ≤ S n)%nat.
Proof.
  intros Hnd Hin Hne Hl2. destruct (touch_spec e (l1 ++ r :: l2) Hin) as (a & b & Hab & Ha & ->).
  apply elem_of_app in Hin as [Hin|[?|Hin]%elem_of_cons]; [|done|];
    apply list_elem_of_split in Hin as (c & d & ->).
  - rewrite <- app_assoc in Hab, Hnd. cbn in Hab, Hnd.
    destruct (split_unique e a b c (d ++ r :: l2)) as [-> ->]; [done..|by apply NoDup_split_not_in in Hnd|].
    exists (c ++ d), (l2 ++ [e]). rewrite length_app. simpl. split; [|lia]. by rewrite <- !app_assoc.
  - change (r :: c ++ e :: d) with ((r :: c) ++ e :: d) in Hab, Hnd. rewrite app_assoc in Hab, Hnd.
    destruct (split_unique e a b (l1 ++ r :: c) d) as [-> ->]; [done..|by apply NoDup_split_not_in in Hnd|].
    exists l1, (c ++ d ++ [e]). rewrite !length_app in *. simpl in *. split; [|lia].
    by rewrite <- !app_assoc.
Qed.

Lemma record_history_held n r edges gas h :
  history_inv h → (n < 255)%nat → held n r h → held (S n) r (record_history edges gas h).
Proof.
  intros Hinv Hn (l1 & l2 & Ho & Hl2). destruct (decide (edges = r)) as [->|Hne].
  { destruct (record_history_held_self r gas h Hinv) as (a & b & ? & ?). exists a, b. split; [done|lia]. }
  destruct Hinv as [Hnd Hdom Hlen _]. unfold record_history, held.
  destruct (rh_map h !! edges) as [entry|] eqn:E; cbn [rh_order].
  - rewrite Ho in *. apply touch_held; try done. by apply Hdom.
  - destruct (decide (length (rh_order h) < ROUTE_GAS_HISTORY)%nat).
    + rewrite evict_room by done. cbn [rh_order]. exists l1, (l2 ++ [edges]).
      rewrite Ho, length_app, <- app_assoc. simpl. split; [done|lia].
    + destruct l1 as [|old l1]; rewrite Ho in *; [simpl in *; unfold ROUTE_GAS_HISTORY in *; lia|].
      cbn [app]. rewrite evict_full by (cbn [app] in *; lia). cbn [rh_order].
      exists l1, (l2 ++ [edges]). rewrite length_app, <- app_assoc. simpl. split; [done|lia].
Qed.

(** ** Invariants of every reachable oracle *)

Lemma blend_scale_range p r : MIN_SIM_SCALE_BPS ≤ blend_scale p r ≤ MAX_SIM_SCALE_BPS.
Proof. unfold blend_scale, clamp, MIN_SIM_SCALE_BPS, MAX_SIM_SCALE_BPS. lia. Qed.

Lemma refreshed_tip_min previous tip : MIN_PRIORITY_FEE_PER_GAS ≤ (refreshed_tip previous tip).1.
Proof. unfold refreshed_tip. repeat case_goal; cbn [fst]; lia. Qed.

Lemma step_inv o x : oracle_inv o → op_wf x → oracle_inv (step o x).
Proof.
  intros [Hh Hs Hf] Hx. destruct x as [edges gas|simulated observed|now base tip]; cbn [step].
  - unfold record_route_gas. destruct (Z.eqb_spec gas 0); [done|]. constructor; try done.
    apply record_history_inv; [|done]. cbn in Hx. lia.
  - unfold record_sim_observed. destruct (_ || _)%bool; [done|]. destruct (_ <? _); [done|].
    constructor; try done. apply blend_scale_range.
  - unfold refresh_once. destruct base as [base|]; [|done].
    pose proof (refreshed_tip_min (go_snapshot o) tip) as Ht.
    destruct (refreshed_tip (go_snapshot o) tip) as [t src]. constructor; try done.
    by intros f [= <-].
Qed.

Lemma new_inv poll : oracle_inv (new poll).
Proof.
  constructor; [constructor|by vm_compute|done].
  - apply NoDup_nil_2.
  - intros r. cbn. rewrite lookup_empty. split; [by intros ?%elem_of_nil|by intros []].
  - cbn. unfold ROUTE_GAS_HISTORY. lia.
  - apply map_Forall_empty.
Qed.

(** ** Properties *)

(** In every reachable oracle state the recency queue has no duplicates, holds
    exactly the keys of the gas map, never exceeds its bound of 256 and every
    recorded gas is a positive [u32]; the global scale stays within 1.0x-1.5x and
    the stored tip is at least the network minimum. *)
Theorem gas_oracle_invariant (o : GasOracle) : reachable o → oracle_inv o.
Proof. induction 1; [apply new_inv|by apply step_inv]. Qed.

Definition demo_route (n : Z) : CycleEdges :=
  [{| pool_index := n; token_in := 0; token_out := 1; token_in_idx := 0; token_out_idx := 1;
      protocol := UniswapV2; fee_bps := 30; zero_for_one := true |}].

Lemma gas_oracle_invariant_witness :
  oracle_inv (step (step (new 1000) (RecordRouteGas (demo_route 7) 500000)) (RecordSimObserved 100000 170000)).
Proof.
  apply gas_oracle_invariant. apply reach_step; [apply reach_step; [apply reach_new|]|];
    cbn [op_wf]; split_and?; eval_range.
Defined.

(** The number of route recordings in a run. *)
Fixpoint recordings (xs : list op) : nat :=
  match xs with
  | [] => 0
  | RecordRouteGas _ _ :: xs => S (recordings xs)
  | _ :: xs => recordings xs
  end.

Lemma run_held xs : ∀ n r o,
  oracle_inv o → Forall op_wf xs → (n + recordings xs ≤ 255)%nat → held n r (go_route_gas o) →
  ∃ m, (m ≤ 255)%nat ∧ held m r (go_route_gas (fold_left step xs o)) ∧
       oracle_inv (fold_left step xs o).
Proof.
  induction xs as [|x xs IH]; intros n r o Hinv Hwf Hn Hheld; cbn [fold_left].
  { exists n. split; [simpl in Hn; lia|done]. }
  apply Forall_cons in Hwf as [Hx Hwf]. pose proof (step_inv o x Hinv Hx) as Hinv'.
  destruct x as [edges gas|simulated observed|now base tip]; cbn [recordings] in Hn.
  - apply (IH (S n)); try done; [lia|]. cbn [step]. unfold record_route_gas.
    destruct (gas =? 0).
    + destruct Hheld as (a & b & ? & ?). exists a, b. split; [done|lia].
    + cbn [go_route_gas]. apply record_history_held; [apply Hinv|lia|done].
  - apply (IH n); try done. cbn [step]. unfold record_sim_observed.
    destruct (_ || _)%bool; [done|]. by destruct (_ <? _).
  - apply (IH n); try done. cbn [step]. unfold refresh_once. destruct base; [|done].
    by destruct (refreshed_tip _ _).
Qed.

(** Recency: a route recorded now is still known after any run of at most 255
    further recordings, of whatever routes, interleaved with any refreshes and
    scale updates: only the least recently recorded routes are evicted. *)
Theorem recorded_route_survives (o : GasOracle) (r : CycleEdges) (gas : Z) (xs : list op) :
  oracle_inv o → 0 < gas ≤ u32_max → Forall op_wf xs → (recordings xs ≤ 255)%nat →
  is_Some (observed_route_gas (fold_left step xs (record_route_gas r gas o)) r).
Proof.
  intros Hinv Hgas Hwf Hn.
  assert (oracle_inv (record_route_gas r gas o)) as Hinv1
    by (apply (step_inv o (RecordRouteGas r gas)); [done|cbn; lia]).
  destruct (run_held xs 0 r (record_route_gas r gas o)) as (m & _ & Hheld & Hinv2); try done.
  { unfold record_route_gas. destruct (Z.eqb_spec gas 0); [lia|]. cbn [go_route_gas].
    apply record_history_held_self, Hinv. }
  destruct Hheld as (a & b & Ho & _). unfold observed_route_gas.
  apply (hi_dom _ (oi_history _ Hinv2)). rewrite Ho. set_solver.
Qed.

Lemma recorded_route_survives_witness :
  is_Some (observed_route_gas
    (fold_left step [RecordRouteGas (demo_route 2) 5; RecordSimObserved 10 11]
       (record_route_gas (demo_route 1) 250000 (new 1000))) (demo_route 1)).
Proof.
  apply recorded_route_survives.
  - apply new_inv.
  - split; eval_range.
  - repeat constructor; cbn; split_and?; eval_range.
  - cbn. lia.
Defined.

(** Recording a route makes the observation visible and touches no other
    route except, when the table is full, the single least recent one. *)
Theorem record_route_gas_spec (o : GasOracle) (r : CycleEdges) (gas : Z) :
  oracle_inv o → 0 < gas ≤ u32_max →
  let o' := record_route_gas r gas o in
  observed_route_gas o' r = Some (match observed_route_gas o r with
                                  | Some entry => blend_gas entry gas | None => gas end) ∧
  ∀ r', r' ≠ r →
    observed_route_gas o' r' = observed_route_gas o r' ∨
    (observed_route_gas o' r' = None ∧ observed_route_gas o r = None ∧
     head (rh_order (go_route_gas o)) = Some r' ∧
     length (rh_order (go_route_gas o)) = ROUTE_GAS_HISTORY).
Proof.
  intros [[Hnd Hdom Hlen _] _ _] Hgas. cbn zeta. unfold observed_route_gas, record_route_gas.
  destruct (Z.eqb_spec gas 0); [lia|]. cbn [go_route_gas]. unfold record_history.
  destruct (rh_map (go_route_gas o) !! r) as [entry|] eqn:E; cbn [rh_map].
  { split; [by rewrite lookup_insert_eq|]. intros r' Hne. left. by rewrite lookup_insert_ne. }
  destruct (decide (length (rh_order (go_route_gas o)) < ROUTE_GAS_HISTORY)%nat).
  - rewrite evict_room by done. cbn [rh_map].
    split; [by rewrite lookup_insert_eq|]. intros r' Hne. left. by rewrite lookup_insert_ne.
  - destruct (rh_order (go_route_gas o)) as [|old rest] eqn:Ho;
      [simpl in *; unfold ROUTE_GAS_HISTORY in *; lia|].
    rewrite evict_full by lia. cbn [rh_map].
    split; [by rewrite lookup_insert_eq|]. intros r' Hne. rewrite lookup_insert_ne by done.
    destruct (decide (old = r')) as [->|].
    + right. rewrite lookup_delete_eq. split_and!; (done || lia).
    + left. by rewrite lookup_delete_ne.
Qed.

Lemma record_route_gas_spec_witness :
  observed_route_gas (record_route_gas (demo_route 1) 400000 (record_route_gas (demo_route 1) 200000 (new 1000)))
    (demo_route 1) = Some 250000.
Proof.
  destruct (record_route_gas_spec (record_route_gas (demo_route 1) 200000 (new 1000)) (demo_route 1) 400000)
    as [H _].
  - apply (step_inv (new 1000) (RecordRouteGas (demo_route 1) 200000)); [apply new_inv|split; eval_range].
  - split; eval_range.
  - rewrite H. vm_compute. reflexivity.
Defined.

(** The lock-free per-tick lookup is a faithful snapshot: for every route it
    was built for, it answers exactly what the oracle answered when it was
    built. *)
Theorem for_routes_agrees (o : GasOracle) (routes : list CycleEdges) (r : CycleEdges) (h : Z) :
  r ∈ routes →
  lookup_gas_or_heuristic (for_routes o routes) r h = route_gas_or_heuristic o r h ∧
  lookup_gas_observed_or_seed (for_routes o routes) r h = route_gas_observed_or_seed o r h.
Proof.
  intros Hr. unfold lookup_gas_or_heuristic, lookup_gas_observed_or_seed, route_gas_or_heuristic,
    route_gas_observed_or_seed, observed_route_gas, for_routes. cbn [lk_observed lk_scale_bps].
  set (hist := rh_map (go_route_gas o)).
  assert (∀ m : gmap CycleEdges Z, (r ∈ routes ∨ m !! r = hist !! r) → (∀ x, m !! r = Some x → hist !! r = Some x) →
    fold_left (λ map edges, match hist !! edges with Some gas => <[edges:=gas]> map | None => map end)
      routes m !! r = hist !! r) as Hfold.
  { clear Hr. induction routes as [|e routes IH]; intros m Hm Hsub; cbn [fold_left].
    { destruct Hm as [?%elem_of_nil|]; done. }
    destruct (decide (e = r)) as [->|Hne].
    - destruct (hist !! r) as [g|] eqn:E.
      + apply IH; [right; by rewrite lookup_insert_eq|]. intros x. by rewrite lookup_insert_eq.
      + apply IH; [right|done]. destruct (m !! r) as [x|] eqn:Ex; [|done]. by specialize (Hsub x eq_refl).
    - apply IH.
      + destruct Hm as [[?|?]%elem_of_cons|Hm]; [congruence|by left|right].
        destruct (hist !! e); [by rewrite lookup_insert_ne|done].
      + intros x. destruct (hist !! e); [rewrite lookup_insert_ne by done|]; apply Hsub. }
  rewrite Hfold; [|by left|by intros x; rewrite lookup_empty].
  unfold sim_scale_bps. split; [|by destruct (hist !! r)].
  destruct (hist !! r); [done|]. f_equal. lia.
Qed.

Lemma for_routes_agrees_witness :
  lookup_gas_or_heuristic (for_routes (record_route_gas (demo_route 7) 500000 (new 1000)) [demo_route 7; demo_route 8])
    (demo_route 8) 100000 = 100000.
Proof.
  destruct (for_routes_agrees (record_route_gas (demo_route 7) 500000 (new 1000)) [demo_route 7; demo_route 8]
    (demo_route 8) 100000) as [H _]; [right; left|]. rewrite H. vm_compute. reflexivity.
Defined.

(** The global scale moves toward each accepted observation, by a quarter of
    the distance up to rounding, and outliers never move it: a poisoned scale decays
    back to 1.0x under accurate observations. *)
Theorem record_sim_observed_contracts (o : GasOracle) (simulated observed : Z) :
  oracle_inv o → 0 < simulated ≤ u32_max → 0 < observed ≤ u64_max →
  let prev := go_sim_scale_bps o in
  let next := go_sim_scale_bps (record_sim_observed simulated observed o) in
  let raw := raw_ratio_bps simulated observed in
  let target := clamp MIN_SIM_SCALE_BPS MAX_SIM_SCALE_BPS raw in
  (GLOBAL_SCALE_OUTLIER_BPS < raw → next = prev) ∧
  (raw ≤ GLOBAL_SCALE_OUTLIER_BPS →
    (prev ≤ target → prev ≤ next ≤ target) ∧ (target < prev → target ≤ next < prev)).
Proof.
  intros [_ Hs _] Hsim Hobs. cbn zeta. unfold record_sim_observed.
  destruct (Z.eqb_spec simulated 0), (Z.eqb_spec observed 0); try lia. cbn [orb].
  set (raw := raw_ratio_bps simulated observed).
  assert (0 ≤ raw).
  { unfold raw, raw_ratio_bps, u64_max, u32_max.
    assert (0 ≤ Z.min (observed * 10000) (2 ^ 64 - 1) / simulated) by (apply Z.div_pos; lia). lia. }
  clearbody raw.
  destruct (Z.ltb_spec GLOBAL_SCALE_OUTLIER_BPS raw); (split; [intros|intros Hraw]); try done; try lia.
  cbn [go_sim_scale_bps]. unfold blend_scale, clamp, MIN_OBS_RATIO_BPS, MIN_SIM_SCALE_BPS,
    MAX_SIM_SCALE_BPS in *.
  set (x := Z.max (go_sim_scale_bps o) 10000 * 3 + Z.max 8000 (Z.min 15000 raw)).
  pose proof (Z.mul_div_le x 4 ltac:(done)). pose proof (Z.mul_succ_div_gt x 4 ltac:(done)).
  generalize dependent (x / 4). intros q ? ?. unfold x in *. lia.
Qed.

Lemma record_sim_observed_contracts_witness :
  let o := record_sim_observed 100 140 (new 1000) in
  go_sim_scale_bps o = 11000 ∧ go_sim_scale_bps (record_sim_observed 100 90 o) < 11000.
Proof.
  cbn zeta. split; [vm_compute; reflexivity|].
  destruct (record_sim_observed_contracts (record_sim_observed 100 140 (new 1000)) 100 90) as [_ H].
  - apply (step_inv (new 1000) (RecordSimObserved 100 140)); [apply new_inv|cbn; split_and!; eval_range].
  - split; eval_range.
  - split; eval_range.
  - destruct H as [_ H]; [eval_range|]. apply H. vm_compute. reflexivity.
Defined.
