(* ===== verification/Arena.v ===== *)
(** * The state arena

    [src/src/pipeline/arena.rs]: interned tokens and pools, their decimals, and
    the per-pool hot overlay the high-frequency path reads first.  [ArenaInner]
    is behind an [Arc] that every writer makes unique, so a value models it;
    the two hash maps from addresses are [gmap]s.  The layout fingerprint is an
    [FxHasher] digest of the tokens, the pool addresses and the pool families:
    the hash function belongs to the [rustc_hash] crate and is a parameter. *)
From stdpp Require Import gmap sorting.
From S2P Require Import Prelude Word Types.

Record ArenaInner := {
  ai_tokens : list Address;
  ai_token_decimals : list Z;
  ai_pools : list PoolState;
  ai_pool_addresses : list Address;
  ai_address_to_pool : gmap Z PoolIndex;
  ai_address_to_token : gmap Z TokenIndex;
  ai_layout_fingerprint : Z;
}.

Record StateArena := {
  sa_inner : ArenaInner;
  sa_hot_overlay : list (option PoolState);
  sa_hot_revisions : list Z;
}.

(** ** Reads *)

Definition token_address (self : StateArena) (index : TokenIndex) : option Address :=
  ai_tokens (sa_inner self) !! Z.to_nat index.

Definition token_decimals (self : StateArena) (index : TokenIndex) : Z :=
  default 18 (ai_token_decimals (sa_inner self) !! Z.to_nat index).

Definition pool_address (self : StateArena) (index : PoolIndex) : option Address :=
  ai_pool_addresses (sa_inner self) !! Z.to_nat index.

Definition pool_state (self : StateArena) (index : PoolIndex) : option PoolState :=
  let idx := Z.to_nat index in
  match sa_hot_overlay self !! idx with
  | Some (Some state) => Some state
  | _ => ai_pools (sa_inner self) !! idx
  end.

(** ** Families *)

Definition pool_state_family_tag (state : PoolState) : Z :=
  match state with
  | PInvalid => 0 | PV2 _ => 1 | PV3 _ => 2 | PV4 _ => 3
  | PCurve _ => 4 | PBalancer _ => 5 | PDodo _ => 6 | PWoofi _ => 7
  end.

Definition pool_state_family_compatible (prior incoming : PoolState) : bool :=
  match prior, incoming with
  | PInvalid, _ | _, PInvalid => true
  | PV2 _, PV2 _ | PV3 _, PV3 _ | PV4 _, PV4 _ | PCurve _, PCurve _
  | PBalancer _, PBalancer _ | PDodo _, PDodo _ | PWoofi _, PWoofi _ => true
  | _, _ => false
  end.

(** [merged = new.clone(); merged.ticks = old.ticks]. *)
Definition with_ticks (new : V3PoolState) (ticks : list V3Tick) : V3PoolState :=
  {| cl_sqrt_price_x96 := cl_sqrt_price_x96 new; cl_tick := cl_tick new;
     cl_liquidity := cl_liquidity new; cl_fee := cl_fee new;
     cl_tick_spacing := cl_tick_spacing new; cl_ticks := ticks;
     cl_unlocked := cl_unlocked new; cl_fee_protocol := cl_fee_protocol new;
     cl_observation_cardinality := cl_observation_cardinality new |}.

Definition ticks_empty (s : V3PoolState) : bool :=
  match cl_ticks s with [] => true | _ => false end.

Definition preserve_cl_ticks_on_replace (prior : option PoolState) (incoming : PoolState)
  : PoolState :=
  let_some prior := prior or incoming in
  match prior, incoming with
  | PV3 old, PV3 new =>
      if (negb (ticks_empty old) && ticks_empty new)%bool
      then PV3 (with_ticks new (cl_ticks old)) else incoming
  | PV4 old, PV4 new =>
      if (negb (ticks_empty old) && ticks_empty new)%bool
      then PV4 (with_ticks new (cl_ticks old)) else incoming
  | _, _ => incoming
  end.

(** ** Writes *)

Section operations.
Context (layout_hash : list Address → list (Address * Z) → Z).

Definition compute_layout_fingerprint (inner : ArenaInner) : Z :=
  layout_hash (ai_tokens inner)
    (zip_with (λ addr state, (addr, pool_state_family_tag state))
       (ai_pool_addresses inner) (ai_pools inner)).

Definition set_fingerprint (inner : ArenaInner) (fp : Z) : ArenaInner :=
  {| ai_tokens := ai_tokens inner; ai_token_decimals := ai_token_decimals inner;
     ai_pools := ai_pools inner; ai_pool_addresses := ai_pool_addresses inner;
     ai_address_to_pool := ai_address_to_pool inner;
     ai_address_to_token := ai_address_to_token inner; ai_layout_fingerprint := fp |}.

(** [inner.layout_fingerprint = compute_layout_fingerprint(inner)]. *)
Definition refresh_fingerprint (inner : ArenaInner) : ArenaInner :=
  set_fingerprint inner (compute_layout_fingerprint inner).

Definition set_inner (self : StateArena) (inner : ArenaInner) : StateArena :=
  {| sa_inner := inner; sa_hot_overlay := sa_hot_overlay self;
     sa_hot_revisions := sa_hot_revisions self |}.

Definition recompute_layout_fingerprint (self : StateArena) : StateArena :=
  set_inner self (refresh_fingerprint (sa_inner self)).

Definition arena_default : StateArena :=
  {| sa_inner := refresh_fingerprint
       {| ai_tokens := []; ai_token_decimals := []; ai_pools := []; ai_pool_addresses := [];
          ai_address_to_pool := ∅; ai_address_to_token := ∅; ai_layout_fingerprint := 0 |};
     sa_hot_overlay := []; sa_hot_revisions := [] |}.

(** [impl Clone]: the overlay is not cloned. *)
Definition arena_clone (self : StateArena) : StateArena :=
  {| sa_inner := sa_inner self; sa_hot_overlay := []; sa_hot_revisions := [] |}.

Definition set_token_decimals (inner : ArenaInner) (decs : list Z) : ArenaInner :=
  {| ai_tokens := ai_tokens inner; ai_token_decimals := decs;
     ai_pools := ai_pools inner; ai_pool_addresses := ai_pool_addresses inner;
     ai_address_to_pool := ai_address_to_pool inner;
     ai_address_to_token := ai_address_to_token inner;
     ai_layout_fingerprint := ai_layout_fingerprint inner |}.

Definition set_pools (inner : ArenaInner) (pools : list PoolState) : ArenaInner :=
  {| ai_tokens := ai_tokens inner; ai_token_decimals := ai_token_decimals inner;
     ai_pools := pools; ai_pool_addresses := ai_pool_addresses inner;
     ai_address_to_pool := ai_address_to_pool inner;
     ai_address_to_token := ai_address_to_token inner;
     ai_layout_fingerprint := ai_layout_fingerprint inner |}.

Definition push_token (inner : ArenaInner) (address dec : Z) (idx : TokenIndex) : ArenaInner :=
  {| ai_tokens := ai_tokens inner ++ [address];
     ai_token_decimals := ai_token_decimals inner ++ [dec];
     ai_pools := ai_pools inner; ai_pool_addresses := ai_pool_addresses inner;
     ai_address_to_pool := ai_address_to_pool inner;
     ai_address_to_token := <[address := idx]> (ai_address_to_token inner);
     ai_layout_fingerprint := ai_layout_fingerprint inner |}.

Definition push_pool (inner : ArenaInner) (address : Z) (state : PoolState) (idx : PoolIndex)
  : ArenaInner :=
  {| ai_tokens := ai_tokens inner; ai_token_decimals := ai_token_decimals inner;
     ai_pools := ai_pools inner ++ [state];
     ai_pool_addresses := ai_pool_addresses inner ++ [address];
     ai_address_to_pool := <[address := idx]> (ai_address_to_pool inner);
     ai_address_to_token := ai_address_to_token inner;
     ai_layout_fingerprint := ai_layout_fingerprint inner |}.

Definition register_token_with_hints_inner (self : StateArena) (address : Address)
    (hints : option (gmap Z Z)) (touch_layout : bool) : StateArena * TokenIndex :=
  let inner := sa_inner self in
  match ai_address_to_token inner !! address with
  | Some idx =>
      match hints ≫= (.!! address) with
      | Some dec =>
          let slot := ai_token_decimals inner !! Z.to_nat idx in
          let needs_update := match slot with Some d => negb (d =? dec) | None => false end in
          if needs_update
          then (set_inner self
                  (set_token_decimals inner (<[Z.to_nat idx := dec]> (ai_token_decimals inner))), idx)
          else (self, idx)
      | None => (self, idx)
      end
  | None =>
      let idx := wrap_u 32 (Z.of_nat (length (ai_tokens inner))) in
      let dec := default 18 (hints ≫= (.!! address)) in
      let inner := push_token inner address dec idx in
      let inner := if touch_layout then refresh_fingerprint inner else inner in
      (set_inner self inner, idx)
  end.

Definition register_token (self : StateArena) (address : Address) : StateArena * TokenIndex :=
  register_token_with_hints_inner self address None true.

Definition clear_hot_slot (self : StateArena) (index : PoolIndex) : StateArena :=
  {| sa_inner := sa_inner self;
     sa_hot_overlay := <[Z.to_nat index := None]> (sa_hot_overlay self);
     sa_hot_revisions := <[Z.to_nat index := 0]> (sa_hot_revisions self) |}.

(** [same] is the pointer test [Arc::ptr_eq(slot, &state)]. *)
Definition register_pool_inner (self : StateArena) (address : Address) (state : PoolState)
    (same touch_layout : bool) : StateArena * PoolIndex :=
  let inner := sa_inner self in
  match ai_address_to_pool inner !! address with
  | Some idx =>
      let slot := Z.to_nat idx in
      let prior := ai_pools inner !! slot in
      let family_flip :=
        match prior with Some p => negb (pool_state_family_compatible p state) | None => false end in
      let self :=
        if same then self
        else
          let inner := set_pools inner (<[slot := state]> (ai_pools inner)) in
          let inner :=
            if (family_flip || touch_layout)%bool then refresh_fingerprint inner else inner in
          set_inner self inner in
      (clear_hot_slot self idx, idx)
  | None =>
      let idx := wrap_u 32 (Z.of_nat (length (ai_pools inner))) in
      let inner := push_pool inner address state idx in
      let inner := if touch_layout then refresh_fingerprint inner else inner in
      (set_inner self inner, idx)
  end.

Definition register_pool (self : StateArena) (address : Address) (state : PoolState) (same : bool)
  : StateArena * PoolIndex :=
  register_pool_inner self address state same true.

(** ** The hot overlay *)

Definition ensure_hot_storage (self : StateArena) : StateArena :=
  let pool_count := length (ai_pools (sa_inner self)) in
  if negb (length (sa_hot_overlay self) =? pool_count)%nat then
    {| sa_inner := sa_inner self;
       sa_hot_overlay := resize pool_count None (sa_hot_overlay self);
       sa_hot_revisions := resize pool_count 0 (sa_hot_revisions self) |}
  else self.

(** One address of the loop; [fresh] maps it to the cached state and revision. *)
Definition hot_cache_step (fresh : gmap Z (PoolState * Z)) (self : StateArena)
    (address : Address) : StateArena :=
  let_some idx := ai_address_to_pool (sa_inner self) !! address or self in
  match fresh !! address with
  | Some (state, revision) =>
      let slot := Z.to_nat idx in
      let prior := pool_state self idx in
      if match prior with
         | Some prior_state => negb (pool_state_family_compatible prior_state state)
         | None => false
         end
      then self
      else
        let merged := preserve_cl_ticks_on_replace prior state in
        {| sa_inner := sa_inner self;
           sa_hot_overlay := <[slot := Some merged]> (sa_hot_overlay self);
           sa_hot_revisions := <[slot := revision]> (sa_hot_revisions self) |}
  | None => clear_hot_slot self idx
  end.

Definition fresh_states (states : list (Address * PoolState * Z)) : gmap Z (PoolState * Z) :=
  foldl (λ m '(address, state, revision), <[address := (state, revision)]> m) ∅ states.

(** [states] is what [cache.get_arcs_with_generation(addresses)] returned. *)
Definition apply_hot_cache_unique (self : StateArena) (states : list (Address * PoolState * Z))
    (addresses : list Address) : StateArena :=
  match addresses with
  | [] => self
  | _ =>
      let self := ensure_hot_storage self in
      foldl (hot_cache_step (fresh_states states)) self addresses
  end.

(** [Vec::dedup]: drops consecutive repetitions. *)
Fixpoint dedup (l : list Z) : list Z :=
  match l with
  | a :: ((b :: _) as l') => if a =? b then dedup l' else a :: dedup l'
  | _ => l
  end.

(** [read] is the cache read for a list of addresses. *)
Definition apply_hot_cache (self : StateArena)
    (read : list Address → list (Address * PoolState * Z)) (addresses : list Address) : StateArena :=
  let unique :=
    if (1 <? length addresses)%nat then dedup (merge_sort Z.le addresses) else addresses in
  apply_hot_cache_unique self (read unique) unique.

End operations.

(** ** The invariant *)

(** [m] inverts [l]: interning is a bijection between addresses and indices. *)
Definition interned (l : list Address) (m : gmap Z Z) : Prop :=
  ∀ a i, m !! a = Some i ↔ 0 ≤ i ∧ l !! Z.to_nat i = Some a.

Lemma interned_push l m a :
  interned l m → m !! a = None →
  interned (l ++ [a]) (<[a := Z.of_nat (length l)]> m).
Proof.
  intros Hm Ha b i. destruct (decide (a = b)) as [<-|Hne].
  - rewrite lookup_insert_eq. split.
    + intros [= <-]. rewrite Nat2Z.id, lookup_app_r, Nat.sub_diag by lia. split; [lia|done].
    + intros [Hi Hl]. apply lookup_app_Some in Hl as [Hl|[Hl Hl']].
      * assert (m !! a = Some i) by (by apply Hm). congruence.
      * f_equal. apply list_lookup_singleton_Some in Hl' as [? _]. lia.
  - rewrite lookup_insert_ne by done. rewrite (Hm b i). split; intros [Hi Hl]; (split; [done|]).
    + by apply lookup_app_l_Some.
    + apply lookup_app_Some in Hl as [Hl|[Hl Hl']]; [done|].
      apply list_lookup_singleton_Some in Hl' as [_ ?]. congruence.
Qed.

Section invariant.
Context (layout_hash : list Address → list (Address * Z) → Z).

Record inner_wf (inner : ArenaInner) : Prop := {
  iw_decimals : length (ai_token_decimals inner) = length (ai_tokens inner);
  iw_addresses : length (ai_pool_addresses inner) = length (ai_pools inner);
  iw_tokens : interned (ai_tokens inner) (ai_address_to_token inner);
  iw_pools : interned (ai_pool_addresses inner) (ai_address_to_pool inner);
  iw_fingerprint : ai_layout_fingerprint inner = compute_layout_fingerprint layout_hash inner;
}.

Definition arena_wf (s : StateArena) : Prop :=
  inner_wf (sa_inner s) ∧ length (sa_hot_revisions s) = length (sa_hot_overlay s) ∧
  (length (sa_hot_overlay s) ≤ length (ai_pools (sa_inner s)))%nat.

(** The public writers, as steps.  An index is a [u32], so the arena is below
    that size; [same] is a pointer test, which implies equal contents. *)
Inductive arena_step (s : StateArena) : StateArena → Prop :=
| step_register_token a hints :
    Z.of_nat (length (ai_tokens (sa_inner s))) < 2 ^ 32 →
    arena_step s (register_token_with_hints_inner layout_hash s a hints true).1
| step_register_pool a state same :
    Z.of_nat (length (ai_pools (sa_inner s))) < 2 ^ 32 →
    (same = true → ∀ i, ai_address_to_pool (sa_inner s) !! a = Some i →
       ai_pools (sa_inner s) !! Z.to_nat i = Some state) →
    arena_step s (register_pool layout_hash s a state same).1
| step_hot_cache states addresses :
    arena_step s (apply_hot_cache_unique s states addresses)
| step_clone : arena_step s (arena_clone s).

Lemma refresh_wf inner :
  length (ai_token_decimals inner) = length (ai_tokens inner) →
  length (ai_pool_addresses inner) = length (ai_pools inner) →
  interned (ai_tokens inner) (ai_address_to_token inner) →
  interned (ai_pool_addresses inner) (ai_address_to_pool inner) →
  inner_wf (refresh_fingerprint layout_hash inner).
Proof. by intros; constructor. Qed.

Lemma hot_cache_step_inner fresh s a : sa_inner (hot_cache_step fresh s a) = sa_inner s.
Proof.
  unfold hot_cache_step. destruct (_ !! a); [|done]. destruct (fresh !! a) as [[? ?]|]; [|done].
  by case_goal.
Qed.

Lemma hot_cache_step_lengths fresh s a :
  length (sa_hot_overlay (hot_cache_step fresh s a)) = length (sa_hot_overlay s) ∧
  length (sa_hot_revisions (hot_cache_step fresh s a)) = length (sa_hot_revisions s).
Proof.
  unfold hot_cache_step, clear_hot_slot. destruct (_ !! a); [|done].
  destruct (fresh !! a) as [[? ?]|]; [|cbn; by rewrite !length_insert].
  case_goal; cbn; by rewrite ?length_insert.
Qed.

Lemma hot_cache_fold_frame fresh addresses s :
  sa_inner (foldl (hot_cache_step fresh) s addresses) = sa_inner s ∧
  length (sa_hot_overlay (foldl (hot_cache_step fresh) s addresses)) = length (sa_hot_overlay s) ∧
  length (sa_hot_revisions (foldl (hot_cache_step fresh) s addresses)) = length (sa_hot_revisions s).
Proof.
  revert s. induction addresses as [|a addresses IH]; intros s; [done|]. cbn [foldl].
  destruct (IH (hot_cache_step fresh s a)) as (-> & -> & ->).
  rewrite hot_cache_step_inner. by destruct (hot_cache_step_lengths fresh s a) as [-> ->].
Qed.

Lemma ensure_hot_storage_lengths s :
  arena_wf s → sa_inner (ensure_hot_storage s) = sa_inner s ∧
  length (sa_hot_overlay (ensure_hot_storage s)) = length (ai_pools (sa_inner s)) ∧
  length (sa_hot_revisions (ensure_hot_storage s)) = length (ai_pools (sa_inner s)).
Proof.
  intros (_ & Hr & Ho). unfold ensure_hot_storage. destruct (Nat.eqb_spec (length (sa_hot_overlay s))
    (length (ai_pools (sa_inner s)))); cbn.
  - split_and!; (done || congruence).
  - by rewrite !length_resize.
Qed.

Lemma register_token_wf s a hints :
  Z.of_nat (length (ai_tokens (sa_inner s))) < 2 ^ 32 → arena_wf s →
  arena_wf (register_token_with_hints_inner layout_hash s a hints true).1.
Proof.
  intros Hlen (Hin & Hr & Ho). unfold register_token_with_hints_inner.
  destruct (ai_address_to_token (sa_inner s) !! a) as [idx|] eqn:E.
  - destruct (hints ≫= _); [|done]. case_goal; [|done]. split_and!; [|done..].
    destruct Hin. constructor; cbn; rewrite ?length_insert; done.
  - split_and!; [|done..]. destruct Hin. apply refresh_wf; cbn; [|done| |done].
    + rewrite !length_app. cbn [length]. lia.
    + unfold wrap_u. rewrite Z.mod_small by lia. by apply interned_push.
Qed.

Lemma register_pool_wf s a state same :
  Z.of_nat (length (ai_pools (sa_inner s))) < 2 ^ 32 → arena_wf s →
  arena_wf (register_pool layout_hash s a state same).1.
Proof.
  intros Hlen (Hin & Hr & Ho). unfold register_pool, register_pool_inner.
  destruct (ai_address_to_pool (sa_inner s) !! a) as [idx|] eqn:E.
  - rewrite orb_true_r. destruct Hin.
    destruct same; split_and!; cbn; rewrite ?length_insert; try done.
    apply refresh_wf; cbn; rewrite ?length_insert; done.
  - split_and!; [|done|].
    + destruct Hin as [Hd Ha Ht Hp _]. apply refresh_wf; cbn; [done| |done|].
      * rewrite !length_app. cbn [length]. lia.
      * unfold wrap_u. rewrite Z.mod_small, <- Ha by lia. by apply interned_push.
    + cbn. rewrite length_app. lia.
Qed.

Lemma apply_hot_cache_wf s states addresses :
  arena_wf s → arena_wf (apply_hot_cache_unique s states addresses) ∧
  sa_inner (apply_hot_cache_unique s states addresses) = sa_inner s.
Proof.
  intros Hs. unfold apply_hot_cache_unique. destruct addresses as [|a l]; [done|].
  set (fresh := fresh_states states). destruct (ensure_hot_storage_lengths s Hs) as (Ei & Eo & Er).
  destruct (hot_cache_fold_frame fresh (a :: l) (ensure_hot_storage s)) as (Hi & Hoo & Hrr).
  unfold arena_wf. rewrite Hi, Hoo, Hrr, Ei, Eo, Er. destruct Hs. by split_and!.
Qed.

Lemma arena_step_wf s s' : arena_wf s → arena_step s s' → arena_wf s'.
Proof.
  intros Hs [a hints Hl|a state same Hl _|states addresses|].
  - by apply register_token_wf.
  - by apply register_pool_wf.
  - by apply apply_hot_cache_wf.
  - destruct Hs as (? & ? & ?). split_and!; [done|done|]. cbn. apply Nat.le_0_l.
Qed.

Lemma default_wf : arena_wf (arena_default layout_hash).
Proof.
  split_and!; [|done..]. apply refresh_wf; try done; intros a i; cbn;
    rewrite lookup_empty, lookup_nil; split; [done|by intros []|done|by intros []].
Qed.

(** Interned addresses keep their index. *)
Definition indices_kept (s s' : StateArena) : Prop :=
  (∀ i a, token_address s i = Some a → token_address s' i = Some a) ∧
  (∀ i a, pool_address s i = Some a → pool_address s' i = Some a).

Lemma arena_step_indices_kept s s' : arena_wf s → arena_step s s' → indices_kept s s'.
Proof.
  intros Hs [a hints Hl|a state same Hl _|states addresses|]; [..|done].
  - unfold register_token_with_hints_inner.
    destruct (_ !! a); [destruct (hints ≫= _); [|done]; by case_goal|].
    split; [|done]. intros i b Hi. by apply lookup_app_l_Some.
  - unfold register_pool, register_pool_inner. destruct (_ !! a).
    + rewrite orb_true_r. by destruct same.
    + split; [done|]. intros i b Hi. by apply lookup_app_l_Some.
  - unfold indices_kept, token_address, pool_address.
    by destruct (apply_hot_cache_wf s states addresses Hs) as [_ ->].
Qed.

(** C39: In every arena reached from the empty one by the writers (token and pool
    registration, hot-cache overlays, clones), interning is a bijection between
    addresses and indices, the parallel vectors have equal lengths, the overlay
    never outgrows the pools and the layout fingerprint is that of the current
    layout; and an index handed out once denotes the same token or pool address
    in every later arena. *)
Theorem arena_invariant (s s' : StateArena) :
  rtc arena_step (arena_default layout_hash) s → rtc arena_step s s' →
  arena_wf s ∧ arena_wf s' ∧ indices_kept s s'.
Proof.
  intros H0 H1. assert (arena_wf s) as Hs.
  { eapply (rtc_ind_r (λ x, arena_wf x)); [apply default_wf| |exact H0].
    intros ? ? _ ? ?. by eapply arena_step_wf. }
  split; [done|]. clear H0. induction H1 as [s|s s1 s2 H1 H2 IH]; [done|].
  destruct IH as [? [Ht Hp]]; [by eapply arena_step_wf|].
  destruct (arena_step_indices_kept s s1) as [? ?]; [done..|]. split; [done|]. split; auto.
Qed.

(** ** What a hot-cache refresh shows the readers *)

Lemma ensure_hot_storage_reads s i :
  arena_wf s → pool_state (ensure_hot_storage s) i = pool_state s i.
Proof.
  intros (_ & _ & Ho). unfold ensure_hot_storage. destruct (negb _); [|done].
  unfold pool_state. cbn [sa_hot_overlay sa_inner]. set (k := Z.to_nat i).
  set (l := sa_hot_overlay s) in *. set (n := length (ai_pools (sa_inner s))) in *.
  destruct (decide (k < length l)%nat).
  - by rewrite lookup_resize by lia.
  - rewrite (lookup_ge_None_2 l k) by lia. destruct (decide (k < n)%nat).
    + by rewrite lookup_resize_new by lia.
    + by rewrite lookup_resize_old by lia.
Qed.

(** What one loop iteration leaves for a pool other than its own. *)
Lemma hot_cache_step_other fresh s a b i :
  inner_wf (sa_inner s) → a ≠ b → ai_address_to_pool (sa_inner s) !! a = Some i →
  pool_state (hot_cache_step fresh s b) i = pool_state s i.
Proof.
  intros Hwf Hne Ha. unfold hot_cache_step.
  destruct (ai_address_to_pool (sa_inner s) !! b) as [j|] eqn:Hb; [|done].
  assert (Z.to_nat i ≠ Z.to_nat j) as Hij.
  { destruct (iw_pools _ Hwf a i) as [Hi _], (iw_pools _ Hwf b j) as [Hj _].
    destruct (Hi Ha) as [_ Hi'], (Hj Hb) as [_ Hj']. intros E. rewrite E in Hi'. congruence. }
  unfold clear_hot_slot. destruct (fresh !! b) as [[st rev]|]; [case_goal; [done|]|];
    unfold pool_state at 1; cbn [sa_hot_overlay sa_inner]; by rewrite list_lookup_insert_ne by done.
Qed.

(** The state shown for pool [i] of address [a] once the loop has handled [a]. *)
Definition refreshed_state (fresh : gmap Z (PoolState * Z)) (s : StateArena) (a : Address)
    (i : PoolIndex) : option PoolState :=
  match fresh !! a, pool_state s i with
  | None, _ => ai_pools (sa_inner s) !! Z.to_nat i
  | Some (state, _), Some prior =>
      if pool_state_family_compatible prior state
      then Some (preserve_cl_ticks_on_replace (Some prior) state) else Some prior
  | Some (state, _), None => Some state
  end.

Lemma hot_cache_step_own fresh s a i :
  inner_wf (sa_inner s) → length (sa_hot_overlay s) = length (ai_pools (sa_inner s)) →
  ai_address_to_pool (sa_inner s) !! a = Some i →
  pool_state (hot_cache_step fresh s a) i = refreshed_state fresh s a i.
Proof.
  intros Hwf Ho Ha. assert (Z.to_nat i < length (sa_hot_overlay s))%nat as Hlt.
  { rewrite Ho, <- (iw_addresses _ Hwf). apply lookup_lt_is_Some.
    destruct (iw_pools _ Hwf a i) as [Hi _]. destruct (Hi Ha). eauto. }
  unfold hot_cache_step, refreshed_state. rewrite Ha.
  destruct (fresh !! a) as [[st rev]|].
  - destruct (pool_state s i) as [p|] eqn:Ep.
    + destruct (pool_state_family_compatible p st); cbn [negb]; [|done].
      unfold pool_state. cbn [sa_hot_overlay]. by rewrite list_lookup_insert_eq by done.
    + unfold pool_state. cbn [sa_hot_overlay]. by rewrite list_lookup_insert_eq by done.
  - unfold clear_hot_slot, pool_state. cbn [sa_hot_overlay sa_inner].
    by rewrite list_lookup_insert_eq by done.
Qed.

Lemma hot_cache_fold_reads fresh addresses s a i :
  inner_wf (sa_inner s) → length (sa_hot_overlay s) = length (ai_pools (sa_inner s)) →
  NoDup addresses → ai_address_to_pool (sa_inner s) !! a = Some i →
  pool_state (foldl (hot_cache_step fresh) s addresses) i =
  if decide (a ∈ addresses) then refreshed_state fresh s a i else pool_state s i.
Proof.
  intros Hwf Ho Hnd Ha. revert s Hwf Ho Ha.
  induction Hnd as [|b l Hb Hnd IH]; intros s Hwf Ho Ha; [done|]. cbn [foldl].
  destruct (hot_cache_step_lengths fresh s b) as [Eo _]. pose proof (hot_cache_step_inner fresh s b) as Ei.
  rewrite IH by (rewrite ?Ei, ?Eo; done). destruct (decide (a = b)) as [->|Hne].
  - rewrite decide_False by done. rewrite decide_True by left. by apply hot_cache_step_own.
  - unfold refreshed_state at 1. rewrite Ei, (hot_cache_step_other fresh s a b i) by done.
    destruct (decide (a ∈ l)); [rewrite decide_True by by right|rewrite decide_False]; [done..|].
    by intros [->|?]%elem_of_cons.
Qed.

(** After a hot-cache refresh of distinct addresses a pool that is not listed
    reads as before; a listed pool the cache returned reads as the cached state,
    with the hydrated ticks it had when the cached state carries none, unless the
    cached state is of another family, when it reads as before; and a listed pool
    the cache did not return falls back to its base state. *)
Theorem apply_hot_cache_reads (s : StateArena) (states : list (Address * PoolState * Z))
    (addresses : list Address) (a : Address) (i : PoolIndex) :
  arena_wf s → NoDup addresses → ai_address_to_pool (sa_inner s) !! a = Some i →
  pool_state (apply_hot_cache_unique s states addresses) i =
  if decide (a ∈ addresses) then refreshed_state (fresh_states states) s a i else pool_state s i.
Proof.
  intros Hs Hnd Ha. unfold apply_hot_cache_unique. destruct addresses as [|b l]; [done|].
  destruct (ensure_hot_storage_lengths s Hs) as (Ei & Eo & _).
  rewrite (hot_cache_fold_reads _ (b :: l) (ensure_hot_storage s) a i) 
    by (rewrite ?Ei; first [done | by destruct Hs]).
  unfold refreshed_state. by rewrite Ei, ensure_hot_storage_reads by done.
Qed.

End invariant.

(** ** A concrete arena *)

Definition demo_v2 (r0 r1 : Z) : PoolState :=
  PV2 {| v2_reserve0 := r0; v2_reserve1 := r1; v2_fee := 997; v2_fee_denominator := 1000;
         v2_block_timestamp_last := 1 |}.

Definition demo_hash (tokens : list Address) (pools : list (Address * Z)) : Z :=
  foldl (λ h a, h * 31 + a) (foldl (λ h p, h * 31 + p.1 * 8 + p.2) 7 pools) tokens.

Definition demo_arena : StateArena :=
  (register_pool demo_hash
     (register_token demo_hash
        (register_token demo_hash (arena_default demo_hash) 100).1 101).1
     500 (demo_v2 (10 ^ 15) (10 ^ 15)) false).1.

Lemma demo_reached : rtc (arena_step demo_hash) (arena_default demo_hash) demo_arena.
Proof.
  unfold demo_arena, register_token.
  eapply rtc_l; [apply (step_register_token _ _ 100 None); done|].
  eapply rtc_l; [apply (step_register_token _ _ 101 None); done|].
  apply rtc_once, step_register_pool; done.
Qed.

Lemma arena_invariant_witness :
  arena_wf demo_hash demo_arena ∧
  arena_wf demo_hash (register_token demo_hash demo_arena 102).1 ∧
  indices_kept demo_arena (register_token demo_hash demo_arena 102).1.
Proof.
  apply arena_invariant; [apply demo_reached|].
  apply rtc_once, (step_register_token _ _ 102 None). reflexivity.
Defined.

Lemma apply_hot_cache_reads_witness :
  pool_state (apply_hot_cache_unique demo_arena [(500, demo_v2 7 8, 3)] [500]) 0 =
  Some (demo_v2 7 8).
Proof.
  rewrite (apply_hot_cache_reads demo_hash demo_arena [(500, demo_v2 7 8, 3)] [500] 500 0);
    [reflexivity| |apply NoDup_singleton|reflexivity].
  eapply (rtc_ind_r (λ x, arena_wf demo_hash x)); [apply default_wf| |exact demo_reached].
  intros ? ? _ ? ?. by eapply arena_step_wf.
Defined.

(** The family guard compares a refresh with the last state shown, and an
    [Invalid] state is compatible with every family: through one, a pool's family
    does change. *)
Lemma hot_cache_family_change :
  let v3 := PV3 {| cl_sqrt_price_x96 := 2 ^ 96; cl_tick := 0; cl_liquidity := 1; cl_fee := 3000;
                   cl_tick_spacing := 60; cl_ticks := []; cl_unlocked := true;
                   cl_fee_protocol := 0; cl_observation_cardinality := 1 |} in
  let s1 := apply_hot_cache_unique demo_arena [(500, v3, 1)] [500] in
  let s2 := apply_hot_cache_unique (apply_hot_cache_unique demo_arena [(500, PInvalid, 1)] [500])
              [(500, v3, 2)] [500] in
  pool_state s1 0 = Some (demo_v2 (10 ^ 15) (10 ^ 15)) ∧ pool_state s2 0 = Some v3.
Proof. split; reflexivity. Qed.
