(* ===== verification/Routes.v ===== *)
(** * Route budgets: executor calls and gas

    [src/src/pipeline/route_calls.rs] (how many packed calls the executor
    contract needs for a route) and the gas estimates at the top of
    [src/src/pipeline/local_sim.rs]. *)
From S2P Require Import Prelude Word Types Gas.

(** ** Executor calls *)

Definition MAX_EXECUTOR_CALLS : nat := 12.
Definition MAX_BALANCER_BATCH_HOPS : nat := 4.

Definition estimate_hop_calls (protocol : ProtocolType) : nat :=
  match protocol with UniswapV3 => 1 | _ => 2 end.

(** The loop of [estimate_route_calls], over [(calls, previous_v2)]. *)
Fixpoint route_calls_loop (edges : list Edge) (calls : nat) (previous_v2 : bool) : nat :=
  match edges with
  | [] => calls
  | edge :: edges =>
      if bool_decide (protocol edge = UniswapV2)
      then route_calls_loop edges (calls + (1 + (if previous_v2 then 0 else 1)))%nat true
      else route_calls_loop edges (calls + estimate_hop_calls (protocol edge))%nat false
  end.

Definition estimate_route_calls (edges : list Edge) : nat := route_calls_loop edges 0 false.

Definition is_empty {A} (l : list A) : bool := match l with [] => true | _ => false end.

Definition balancer_direct_batch_eligible (edges : list Edge) : bool :=
  (negb (is_empty edges)
   && forallb (λ e, bool_decide (protocol e = BalancerV2)) edges
   && (length edges <=? MAX_BALANCER_BATCH_HOPS)%nat)%bool.

Definition dodo_flash_batch_eligible (edges : list Edge) : bool :=
  (negb (is_empty edges)
   && forallb (λ e, bool_decide (protocol e = Dodo)) edges
   && (length edges <=? MAX_BALANCER_BATCH_HOPS)%nat)%bool.

Definition estimate_packed_route_calls (edges : list Edge) : nat :=
  if balancer_direct_batch_eligible edges then 1 else estimate_route_calls edges.

Record RouteExecutorBudget := {
  eb_hops : nat;
  eb_packed_calls : nat;
  eb_per_hop_calls : nat;
  eb_balancer_batch : bool;
}.

Definition route_executor_budget (edges : list Edge) : RouteExecutorBudget :=
  {| eb_hops := length edges;
     eb_packed_calls := estimate_packed_route_calls edges;
     eb_per_hop_calls := estimate_route_calls edges;
     eb_balancer_batch := balancer_direct_batch_eligible edges |}.

Definition packed_calls_fit_executor (packed_calls : nat) : bool :=
  (packed_calls <=? MAX_EXECUTOR_CALLS)%nat.

Definition route_fits_executor (edges : list Edge) : bool :=
  packed_calls_fit_executor (estimate_packed_route_calls edges).

(** ** Gas *)

Definition estimate_hop_gas (protocol : ProtocolType) : Z :=
  match protocol with
  | UniswapV2 => GAS_V2_HOP
  | UniswapV3 => GAS_V3_BASE
  | UniswapV4 => GAS_V4_BASE
  | CurveStable | CurveCrypto => GAS_CURVE_HOP
  | BalancerV2 => GAS_BALANCER_HOP
  | Dodo => GAS_DODO_HOP
  | Woofi => GAS_WOOFI_HOP
  end.

(** [edges.iter().map(|e| estimate_hop_gas(e.protocol)).sum::<u32>()]. *)
Definition hop_gas_sum (edges : list Edge) : Z :=
  foldl (λ acc e, wrap_u 32 (acc + estimate_hop_gas (protocol e))) 0 edges.

Definition hop_count_of (edges : list Edge) : Z := Z.of_nat (length edges).

Definition route_hop_gas_budget (edges : list Edge) : Z :=
  if balancer_direct_batch_eligible edges then balancer_direct_batch_gas (hop_count_of edges)
  else if dodo_flash_batch_eligible edges then dodo_flash_batch_gas (hop_count_of edges)
  else hop_gas_sum edges.

Definition finalize_route_total_gas (edges : list Edge) (walked_hop_gas : Z) : Z :=
  let hop_count := hop_count_of edges in
  if hop_count =? 0 then ROUTE_EXECUTION_GAS_OVERHEAD
  else if balancer_direct_batch_eligible edges then balancer_direct_batch_gas hop_count
  else if dodo_flash_batch_eligible edges then dodo_flash_batch_gas hop_count
  else
    let hop_budget := route_hop_gas_budget edges in
    let static_gas :=
      estimate_route_gas_from_hops_evm hop_budget hop_count (wrap_u 32 hop_count) in
    if walked_hop_gas =? 0 then static_gas
    else
      let dynamic :=
        u32_sat (estimate_route_gas_from_hops walked_hop_gas hop_count
                 + estimate_route_storage_gas hop_count (wrap_u 32 hop_count)) in
      Z.max static_gas dynamic.

Definition estimate_route_gas (edges : list Edge) : Z :=
  if is_empty edges then ROUTE_EXECUTION_GAS_OVERHEAD
  else if balancer_direct_batch_eligible edges then balancer_direct_batch_gas (hop_count_of edges)
  else if dodo_flash_batch_eligible edges then dodo_flash_batch_gas (hop_count_of edges)
  else
    let hop_gas := hop_gas_sum edges in
    let cold_slots := wrap_u 32 (hop_count_of edges) in
    estimate_route_gas_from_hops_evm hop_gas (hop_count_of edges) cold_slots.

(** ** Calls: the declarative count *)

(** Maximal runs of consecutive V2 hops; [prev] is the protocol before. *)
Fixpoint v2_segments (prev : option ProtocolType) (edges : list Edge) : nat :=
  match edges with
  | [] => 0
  | e :: edges =>
      (if bool_decide (protocol e = UniswapV2 ∧ prev ≠ Some UniswapV2) then 1 else 0)
      + v2_segments (Some (protocol e)) edges
  end.

(** Hops that need an approval or a transfer before the swap call. *)
Definition two_call_hops (edges : list Edge) : nat :=
  length (filter (λ e, protocol e ≠ UniswapV2 ∧ protocol e ≠ UniswapV3) edges).

Lemma two_call_hops_cons e edges :
  two_call_hops (e :: edges) =
  ((match protocol e with UniswapV2 | UniswapV3 => 0 | _ => 1 end) + two_call_hops edges)%nat.
Proof.
  unfold two_call_hops. rewrite filter_cons.
  destruct (decide _) as [[Ha Hb]|Hn], (protocol e); try done; destruct Hn; done.
Qed.

Lemma route_calls_loop_eq edges calls prev :
  route_calls_loop edges calls (bool_decide (prev = Some UniswapV2)) =
  (calls + length edges + v2_segments prev edges + two_call_hops edges)%nat.
Proof.
  revert calls prev. induction edges as [|e edges IH]; intros calls prev.
  { unfold two_call_hops. cbn. lia. }
  rewrite two_call_hops_cons. cbn [route_calls_loop length v2_segments].
  destruct (decide (protocol e = UniswapV2)) as [Ee|Ee].
  - rewrite (bool_decide_true (protocol e = _)) by done.
    specialize (IH (calls + (1 + (if bool_decide (prev = Some UniswapV2) then 0 else 1)))%nat
                  (Some UniswapV2)).
    rewrite (bool_decide_true (Some UniswapV2 = _)) in IH by done. rewrite IH, Ee.
    destruct (decide (prev = Some UniswapV2)) as [Ep|Ep].
    + rewrite (bool_decide_true (prev = _)), (bool_decide_false (_ ∧ _)) by naive_solver. lia.
    + rewrite (bool_decide_false (prev = _)), (bool_decide_true (_ ∧ _)) by naive_solver. lia.
  - rewrite (bool_decide_false (protocol e = _)), (bool_decide_false (_ ∧ _)) by naive_solver.
    specialize (IH (calls + estimate_hop_calls (protocol e))%nat (Some (protocol e))).
    rewrite (bool_decide_false (Some _ = _)) in IH by congruence. rewrite IH.
    destruct (protocol e); cbn [estimate_hop_calls]; (done || lia).
Qed.

(** A route needs one executor call per hop, one prefund per maximal run of V2
    hops and one approval or transfer for every hop that is neither V2 nor V3. *)
Theorem estimate_route_calls_count (edges : list Edge) :
  estimate_route_calls edges =
  (length edges + v2_segments None edges + two_call_hops edges)%nat.
Proof. apply (route_calls_loop_eq edges 0 None). Qed.

(** ** Gas: no overflow, and the walk only raises the estimate *)

Lemma estimate_hop_gas_range p : 85000 ≤ estimate_hop_gas p ≤ 300000.
Proof. destruct p; cbv; split; discriminate. Qed.

Lemma hop_gas_sum_eq edges :
  hop_count_of edges ≤ 10000 →
  hop_gas_sum edges = foldr (λ e acc, estimate_hop_gas (protocol e) + acc) 0 edges ∧
  0 ≤ hop_gas_sum edges ≤ 300000 * hop_count_of edges.
Proof.
  unfold hop_gas_sum, hop_count_of.
  assert (∀ acc, 0 ≤ acc → acc + 300000 * Z.of_nat (length edges) < 2 ^ 32 →
    foldl (λ acc e, wrap_u 32 (acc + estimate_hop_gas (protocol e))) acc edges =
    acc + foldr (λ e acc, estimate_hop_gas (protocol e) + acc) 0 edges ∧
    acc ≤ foldl (λ acc e, wrap_u 32 (acc + estimate_hop_gas (protocol e))) acc edges
    ≤ acc + 300000 * Z.of_nat (length edges)) as Hgen.
  { induction edges as [|e edges IH]; intros acc H0 Hb; cbn [foldl foldr length] in *; [lia|].
    pose proof (estimate_hop_gas_range (protocol e)).
    assert (wrap_u 32 (acc + estimate_hop_gas (protocol e)) = acc + estimate_hop_gas (protocol e)) as ->
      by (unfold wrap_u; apply Z.mod_small; lia).
    destruct (IH (acc + estimate_hop_gas (protocol e))) as [-> ?]; lia. }
  intros Hn. destruct (Hgen 0) as [-> ?]; lia.
Qed.

Lemma estimate_route_gas_from_hops_mono h h' n :
  0 ≤ h ≤ h' → 0 ≤ n ≤ 10000 → h' < 2 ^ 31 →
  0 ≤ estimate_route_gas_from_hops h n ≤ estimate_route_gas_from_hops h' n.
Proof.
  intros Hh Hn Hb. unfold estimate_route_gas_from_hops, ROUTE_EXECUTION_GAS_OVERHEAD,
    PER_HOP_EXECUTOR_GAS_OVERHEAD, wrap_u.
  rewrite (Z.mod_small n) by lia. rewrite (Z.mod_small (n * 18000)) by lia.
  rewrite (Z.mod_small (h + 100000)), (Z.mod_small (h' + 100000)) by lia.
  rewrite !Z.mod_small by lia. lia.
Qed.

Lemma finalize_zero edges : finalize_route_total_gas edges 0 = estimate_route_gas edges.
Proof.
  unfold finalize_route_total_gas, estimate_route_gas, route_hop_gas_budget, hop_count_of.
  destruct edges as [|e edges]; [done|]. cbn [is_empty].
  destruct (Z.eqb_spec (Z.of_nat (length (e :: edges))) 0); [done|].
  destruct (balancer_direct_batch_eligible _); [done|]. by destruct (dodo_flash_batch_eligible _).
Qed.

(** The gas of a simulated route is never below the static estimate of its
    edges, never below the walked hop gas on a route that is not batched, and equal
    to the static estimate when no hop was walked. *)
Theorem finalize_route_total_gas_covers (edges : list Edge) (walked : Z) :
  hop_count_of edges ≤ HOP_CAP → 0 ≤ walked < 2 ^ 31 →
  estimate_route_gas edges ≤ finalize_route_total_gas edges walked ∧
  (edges ≠ [] → balancer_direct_batch_eligible edges = false →
   dodo_flash_batch_eligible edges = false → walked < finalize_route_total_gas edges walked) ∧
  finalize_route_total_gas edges 0 = estimate_route_gas edges.
Proof.
  intros Hn Hw. split_and!; [rewrite <- finalize_zero| |apply finalize_zero].
  - unfold finalize_route_total_gas. destruct (_ =? 0); [done|]. destruct (balancer_direct_batch_eligible _); [done|].
    destruct (dodo_flash_batch_eligible _); [done|]. cbn [Z.eqb]. destruct (walked =? 0); lia.
  - intros Hne Hb Hd. unfold finalize_route_total_gas. rewrite Hb, Hd.
    destruct edges as [|e l]; [done|]. set (edges := e :: l) in *.
    assert (1 ≤ hop_count_of edges ≤ 8) by (unfold hop_count_of, HOP_CAP in *; cbn [length edges] in *; lia).
    destruct (Z.eqb_spec (hop_count_of edges) 0); [lia|]. unfold route_hop_gas_budget. rewrite Hb, Hd.
    destruct (hop_gas_sum_eq edges) as [_ Hs]; [lia|].
    set (st := estimate_route_storage_gas _ _).
    assert (0 ≤ st) by (unfold st, estimate_route_storage_gas; destruct (_ =? 0); [done|];
      unfold u32_sat, u32_max, GAS_WARM_SLOAD, GAS_COLD_SLOAD, wrap_u; rewrite !Z.mod_small by lia; lia).
    destruct (Z.eqb_spec walked 0) as [->|Hw0].
    + unfold estimate_route_gas_from_hops_evm. fold st. unfold u32_sat, u32_max.
      pose proof (estimate_route_gas_from_hops_mono 0 (hop_gas_sum edges) (hop_count_of edges)).
      assert (0 < estimate_route_gas_from_hops 0 (hop_count_of edges)).
      { unfold estimate_route_gas_from_hops, wrap_u, ROUTE_EXECUTION_GAS_OVERHEAD, PER_HOP_EXECUTOR_GAS_OVERHEAD.
        rewrite !Z.mod_small; repeat (rewrite ?Z.mod_small; try lia). }
      lia.
    + assert (walked < estimate_route_gas_from_hops walked (hop_count_of edges)).
      { unfold estimate_route_gas_from_hops, wrap_u, ROUTE_EXECUTION_GAS_OVERHEAD, PER_HOP_EXECUTOR_GAS_OVERHEAD.
        rewrite !Z.mod_small; repeat (rewrite ?Z.mod_small; try lia). }
      unfold u32_sat, u32_max. lia.
Qed.

Definition demo_edge (p : ProtocolType) (pool tin tout : Z) : Edge :=
  {| pool_index := pool; token_in := tin; token_out := tout; token_in_idx := 0; token_out_idx := 1;
     protocol := p; fee_bps := 30; zero_for_one := true |}.

Lemma finalize_route_total_gas_covers_witness :
  estimate_route_gas [demo_edge UniswapV2 0 0 1; demo_edge UniswapV3 1 1 0] ≤
  finalize_route_total_gas [demo_edge UniswapV2 0 0 1; demo_edge UniswapV3 1 1 0] 400000.
Proof. apply finalize_route_total_gas_covers; [|split]; vm_compute; congruence. Defined.
