(* ===== verification/Realign.v ===== *)
(** * Edge alignment and healing

    The part of [src/src/pipeline/local_sim.rs] that keeps cached routes in step
    with the arena: protocol and state families, vault indices of the
    multi-token pools, Uni edges against the pool metadata, and the repair of a
    cycle whose protocols, fees or directions went stale.  [&mut Edge] and
    [Arc::make_mut] become returned values; a loop that may [return None] is a
    recursion in [option]. *)
From Stdlib Require Import String.
From S2P Require Import Prelude Word Types UniswapV2 Balancer Curve Dodo Woofi Arena Routes.

(** [PoolMeta] of [src/src/pipeline/types.rs]. *)
Record PoolMeta := {
  pm_pool_index : PoolIndex;
  pm_protocol : ProtocolType;
  pm_tokens : list TokenIndex;
  pm_fee_bps : Z;
  pm_bpt_index : option nat;
  pm_pool_id : option Z;
  pm_protocol_label : option string;
  pm_pool_type : option string;
  pm_hooks : option Address;
  pm_tick_spacing : option Z;
}.

Definition pool_meta_at (pool_metas : list PoolMeta) (index : PoolIndex) : option PoolMeta :=
  let found := snd <$> list_find (λ meta, pm_pool_index meta = index) pool_metas in
  match pool_metas !! Z.to_nat index with
  | Some meta => if pm_pool_index meta =? index then Some meta else found
  | None => found
  end.

(** [iter().position(|&t| p(t))]. *)
Fixpoint position_by {A} (p : A → bool) (l : list A) : option nat :=
  match l with
  | [] => None
  | x :: l => if p x then Some 0%nat else S <$> position_by p l
  end.

Definition u8_try_from (n : nat) : option Z :=
  if (n <? 256)%nat then Some (Z.of_nat n) else None.

(** ** Families *)

Inductive UnsupportedStateKind :=
| KInvalid | KV2 | KV3 | KV4 | KCurve | KBalancer | KDodo | KWoofi.

Definition pool_state_kind (state : PoolState) : UnsupportedStateKind :=
  match state with
  | PInvalid => KInvalid | PV2 _ => KV2 | PV3 _ => KV3 | PV4 _ => KV4
  | PCurve _ => KCurve | PBalancer _ => KBalancer | PDodo _ => KDodo | PWoofi _ => KWoofi
  end.

Definition protocol_matches_pool_state (protocol : ProtocolType) (state : PoolState) : bool :=
  match state, protocol with
  | PV2 _, UniswapV2 | PV3 _, UniswapV3 | PV4 _, UniswapV4
  | PCurve _, (CurveStable | CurveCrypto) | PBalancer _, BalancerV2
  | PDodo _, Dodo | PWoofi _, Woofi => true
  | _, _ => false
  end.

(** The same table again, under the other name and argument order. *)
Definition pool_state_matches_protocol (state : PoolState) (protocol : ProtocolType) : bool :=
  match state, protocol with
  | PV2 _, UniswapV2 | PV3 _, UniswapV3 | PV4 _, UniswapV4
  | PCurve _, (CurveStable | CurveCrypto) | PBalancer _, BalancerV2
  | PDodo _, Dodo | PWoofi _, Woofi => true
  | _, _ => false
  end.

Definition protocol_from_pool_state (state : PoolState) (fallback : ProtocolType) : ProtocolType :=
  match state with
  | PV2 _ => UniswapV2
  | PV3 _ => UniswapV3
  | PV4 _ => UniswapV4
  | PCurve _ => match fallback with CurveStable | CurveCrypto => fallback | _ => CurveStable end
  | PBalancer _ => BalancerV2
  | PDodo _ => Dodo
  | PWoofi _ => Woofi
  | PInvalid => fallback
  end.

Definition protocol_is_pair (protocol : ProtocolType) : bool :=
  match protocol with UniswapV2 | UniswapV3 | UniswapV4 => true | _ => false end.

(** [matches!(protocol, BalancerV2 | Woofi | Dodo)]. *)
Definition protocol_is_multi (protocol : ProtocolType) : bool :=
  match protocol with BalancerV2 | Woofi | Dodo => true | _ => false end.

Definition cycle_edges_match_arena_state (arena : StateArena) (edges : list Edge) : bool :=
  forallb (λ edge,
    match pool_state arena (pool_index edge) with
    | Some state => protocol_matches_pool_state (protocol edge) state
    | None => false
    end) edges.

Fixpoint first_protocol_state_mismatch_from (hop : nat) (arena : StateArena) (edges : list Edge)
  : option (nat * ProtocolType * UnsupportedStateKind) :=
  match edges with
  | [] => None
  | edge :: edges =>
      match pool_state arena (pool_index edge) with
      | None => first_protocol_state_mismatch_from (S hop) arena edges
      | Some state =>
          if pool_state_matches_protocol state (protocol edge)
          then first_protocol_state_mismatch_from (S hop) arena edges
          else Some (hop, protocol edge, pool_state_kind state)
      end
  end.

Definition first_protocol_state_mismatch (arena : StateArena) (edges : list Edge)
  : option (nat * ProtocolType * UnsupportedStateKind) :=
  first_protocol_state_mismatch_from 0 arena edges.

(** ** Field updates of an edge *)

Definition set_legs (e : Edge) (tin tout : TokenIndex) : Edge :=
  {| pool_index := pool_index e; token_in := tin; token_out := tout;
     token_in_idx := token_in_idx e; token_out_idx := token_out_idx e; protocol := protocol e;
     fee_bps := fee_bps e; zero_for_one := zero_for_one e |}.

Definition set_idxs (e : Edge) (in_idx out_idx : Z) : Edge :=
  {| pool_index := pool_index e; token_in := token_in e; token_out := token_out e;
     token_in_idx := in_idx; token_out_idx := out_idx; protocol := protocol e;
     fee_bps := fee_bps e; zero_for_one := zero_for_one e |}.

Definition set_zfo (e : Edge) (zfo : bool) : Edge :=
  {| pool_index := pool_index e; token_in := token_in e; token_out := token_out e;
     token_in_idx := token_in_idx e; token_out_idx := token_out_idx e; protocol := protocol e;
     fee_bps := fee_bps e; zero_for_one := zfo |}.

Definition set_protocol (e : Edge) (p : ProtocolType) : Edge :=
  {| pool_index := pool_index e; token_in := token_in e; token_out := token_out e;
     token_in_idx := token_in_idx e; token_out_idx := token_out_idx e; protocol := p;
     fee_bps := fee_bps e; zero_for_one := zero_for_one e |}.

Definition set_fee_bps (e : Edge) (fee : Z) : Edge :=
  {| pool_index := pool_index e; token_in := token_in e; token_out := token_out e;
     token_in_idx := token_in_idx e; token_out_idx := token_out_idx e; protocol := protocol e;
     fee_bps := fee; zero_for_one := zero_for_one e |}.

Definition with_edges (c : FoundCycle) (edges : list Edge) : FoundCycle :=
  {| fc_start_token := fc_start_token c; fc_edges := edges; fc_hop_count := fc_hop_count c;
     fc_log_weight := fc_log_weight c; fc_cumulative_fee_bps := fc_cumulative_fee_bps c;
     fc_score := fc_score c; fc_cycle_ratio := fc_cycle_ratio c |}.

Definition with_start_token (c : FoundCycle) (t : TokenIndex) : FoundCycle :=
  {| fc_start_token := t; fc_edges := fc_edges c; fc_hop_count := fc_hop_count c;
     fc_log_weight := fc_log_weight c; fc_cumulative_fee_bps := fc_cumulative_fee_bps c;
     fc_score := fc_score c; fc_cycle_ratio := fc_cycle_ratio c |}.

Definition with_cumulative_fee (c : FoundCycle) (fee : Z) : FoundCycle :=
  {| fc_start_token := fc_start_token c; fc_edges := fc_edges c; fc_hop_count := fc_hop_count c;
     fc_log_weight := fc_log_weight c; fc_cumulative_fee_bps := fee;
     fc_score := fc_score c; fc_cycle_ratio := fc_cycle_ratio c |}.

(** ** Multi-token pools *)

(** The leg addresses of a Balancer, WOOFi or DODO state, when it carries them. *)
Definition vault_tokens (state : PoolState) : option (list Address) :=
  match state with
  | PBalancer s => if is_empty (bl_tokens s) then None else Some (bl_tokens s)
  | PWoofi s => if is_empty (wf_tokens s) then None else Some (wf_tokens s)
  | PDodo s =>
      if (negb (is_zero (dd_base_token s)) && negb (is_zero (dd_quote_token s)))%bool
      then Some [dd_base_token s; dd_quote_token s] else None
  | _ => None
  end.

Definition multi_token_edge_aligned (state : PoolState) (edge : Edge) (tin tout : Address) : bool :=
  match vault_tokens state with
  | Some tokens =>
      (bool_decide (tokens !! Z.to_nat (token_in_idx edge) = Some tin)
       && bool_decide (tokens !! Z.to_nat (token_out_idx edge) = Some tout))%bool
  | None => true
  end.

Definition resolve_multi_token_vault_indices (tokens : list Address) (tin tout : Address)
  : option (Z * Z) :=
  if tin =? tout then None
  else
    let? in_idx := position tokens tin in
    let? out_idx := position tokens tout in
    let? i := u8_try_from in_idx in
    let? o := u8_try_from out_idx in Some (i, o).

Definition realign_multi_token_edge (arena : StateArena) (state : PoolState) (edge : Edge)
  : bool * Edge :=
  if negb (protocol_is_multi (protocol edge)) then (true, edge)
  else
    let_some tokens := vault_tokens state or (true, edge) in
    let_some tin := token_address arena (token_in edge) or (false, edge) in
    let_some tout := token_address arena (token_out edge) or (false, edge) in
    if multi_token_edge_aligned state edge tin tout then (true, edge)
    else match resolve_multi_token_vault_indices tokens tin tout with
    | None => (false, edge)
    | Some (in_idx, out_idx) =>
        if negb (hop_pair_routable state (Z.to_nat in_idx) (Z.to_nat out_idx)) then (false, edge)
        else (true, set_zfo (set_idxs edge in_idx out_idx) (in_idx <? out_idx))
    end.

Fixpoint realign_multi_edges (arena : StateArena) (edges : list Edge) : option (list Edge) :=
  match edges with
  | [] => Some []
  | edge :: edges =>
      let? edge' :=
        (if negb (protocol_is_multi (protocol edge)) then Some edge
         else
           let? state := pool_state arena (pool_index edge) in
           if negb (protocol_matches_pool_state (protocol edge) state) then Some edge
           else
             let '(ok, e) := realign_multi_token_edge arena state edge in
             if ok then Some e else None) in
      let? edges' := realign_multi_edges arena edges in
      Some (edge' :: edges')
  end.

Definition realign_multi_token_found_cycle (arena : StateArena) (cycle : FoundCycle)
  : option FoundCycle :=
  if negb (existsb (λ e, protocol_is_multi (protocol e)) (fc_edges cycle)) then Some cycle
  else
    let? edges := realign_multi_edges arena (fc_edges cycle) in Some (with_edges cycle edges).

(** ** Healing *)

(** [cl.fee.as_limbs()[0] as u32]. *)
Definition cl_fee_u32 (cl : V3PoolState) : Z := wrap_u 32 (wrap_u 64 (cl_fee cl)).

Definition sync_edge_fee_bps_from_state (edge : Edge) (state : PoolState) : Edge :=
  match state with
  | PV2 v2 =>
      match v2_fee_bps_from_pool v2 with Some bps => set_fee_bps edge bps | None => edge end
  | PV3 cl =>
      let pips := cl_fee_u32 cl in
      if ((1 <=? pips) && (pips <? 0x800000))%bool
      then set_fee_bps edge (Z.min (pips / 100) 9999) else edge
  | PV4 cl =>
      let pips := cl_fee_u32 cl in
      if pips <? 0x800000 then set_fee_bps edge (Z.min (pips / 100) 9999) else edge
  | PCurve c =>
      match curve_fee_bps_from_pool (cv_fee c) with Some bps => set_fee_bps edge bps | None => edge end
  | PBalancer b =>
      match balancer_fee_bps_from_pool (bl_fee b) with Some bps => set_fee_bps edge bps | None => edge end
  | PDodo d =>
      match dodo_fee_bps_from_pool (dd_lp_fee_rate d) (dd_mt_fee_rate d) with
      | Some bps => set_fee_bps edge bps | None => edge end
  | PWoofi w =>
      match woofi_fee_bps_from_edge w (Z.to_nat (token_in_idx edge)) (Z.to_nat (token_out_idx edge)) with
      | Some bps => set_fee_bps edge bps | None => edge end
  | PInvalid => edge
  end.

(** [zero_for_one] of a Uni edge follows the order of its token addresses. *)
Definition sync_zfo (arena : StateArena) (edge : Edge) : Edge :=
  match token_address arena (token_in edge), token_address arena (token_out edge) with
  | Some a_in, Some a_out => set_zfo edge (a_in <? a_out)
  | _, _ => edge
  end.

Definition state_is_invalid (state : PoolState) : bool :=
  match state with PInvalid => true | _ => false end.

(** Rewrite the protocol to the state's family; the flag says whether it changed. *)
Definition heal_protocol (edge : Edge) (state : PoolState) : option (Edge * bool) :=
  if negb (protocol_matches_pool_state (protocol edge) state) then
    let corrected := protocol_from_pool_state state (protocol edge) in
    if bool_decide (corrected = protocol edge) then None
    else if negb (eqb (protocol_is_pair (protocol edge)) (protocol_is_pair corrected)) then None
    else Some (set_protocol edge corrected, true)
  else Some (edge, false).

(** The loop body; the flag says whether the edge changed. *)
Definition heal_edge (arena : StateArena) (edge : Edge) : option (Edge * bool) :=
  let? state := pool_state arena (pool_index edge) in
  if state_is_invalid state then None
  else
    let? fixed := heal_protocol edge state in
    let '(edge, changed) := fixed in
    let fee_before := fee_bps edge in
    let edge := sync_edge_fee_bps_from_state edge state in
    let changed := (changed || negb (fee_bps edge =? fee_before))%bool in
    if protocol_is_pair (protocol edge) then
      let healed := sync_zfo arena edge in
      Some (healed, (changed || negb (eqb (zero_for_one healed) (zero_for_one edge)))%bool)
    else Some (edge, changed).

Fixpoint heal_edges (arena : StateArena) (edges : list Edge) : option (list Edge * bool) :=
  match edges with
  | [] => Some ([], false)
  | edge :: edges =>
      match heal_edge arena edge, heal_edges arena edges with
      | Some (edge', c1), Some (edges', c2) => Some (edge' :: edges', (c1 || c2)%bool)
      | _, _ => None
      end
  end.

Definition fee_sum (edges : list Edge) : Z :=
  foldl (λ acc e, Z.min (acc + fee_bps e) (2 ^ 32 - 1)) 0 edges.

Definition heal_cycle_edge_protocols (arena : StateArena) (cycle : FoundCycle)
  : option FoundCycle :=
  match heal_edges arena (fc_edges cycle) with
  | None => None
  | Some (edges, changed) =>
      let owned := with_edges cycle edges in
      Some (if changed then with_cumulative_fee owned (fee_sum edges) else owned)
  end.

(** ** Uni edges against the pool metadata *)

Definition opt_address_eqb (a b : option Address) : bool := bool_decide (a = b).

(** The position of a token in the metadata: by index, else by address. *)
Definition meta_pos_exact (arena : StateArena) (m : PoolMeta) (tok : TokenIndex) : option nat :=
  match position_by (λ t, t =? tok) (pm_tokens m) with
  | Some i => Some i
  | None =>
      let? want := token_address arena tok in
      position_by (λ t, opt_address_eqb (token_address arena t) (Some want)) (pm_tokens m)
  end.

(** The address test of the Uni lookups: the two Polygon USDCs are one token. *)
Definition meta_addr_matches (arena : StateArena) (want : Address) (t : TokenIndex) : bool :=
  match token_address arena t with
  | Some maddr => polygon_usd_stable_equivalent maddr want
  | None => false
  end.

Definition meta_pos_stable (arena : StateArena) (m : PoolMeta) (tok : TokenIndex) : option nat :=
  match position_by (λ t, t =? tok) (pm_tokens m) with
  | Some i => Some i
  | None =>
      let? want := token_address arena tok in
      position_by (meta_addr_matches arena want) (pm_tokens m)
  end.

Definition cycle_v2_edges_match_pool_meta (arena : StateArena) (pool_metas : list PoolMeta)
    (edges : list Edge) : bool :=
  forallb (λ edge,
    if negb (protocol_is_pair (protocol edge)) then true
    else
    match token_address arena (token_in edge), token_address arena (token_out edge) with
    | Some tin, Some tout =>
        match pool_meta_at pool_metas (pool_index edge) with
        | Some m =>
            if (2 <=? length (pm_tokens m))%nat
            then (existsb (meta_addr_matches arena tin) (pm_tokens m)
                  && existsb (meta_addr_matches arena tout) (pm_tokens m))%bool
            else true
        | None => true
        end
    | _, _ => false
    end) edges.

Definition on_meta (arena : StateArena) (m : PoolMeta) (tok : TokenIndex) : bool :=
  (existsb (λ t, t =? tok) (pm_tokens m)
   || match token_address arena tok with
      | Some want => existsb (meta_addr_matches arena want) (pm_tokens m)
      | None => false
      end)%bool.

Definition edge_both_foreign (arena : StateArena) (pool_metas : list PoolMeta) (edge : Edge) : bool :=
  if negb (protocol_is_pair (protocol edge)) then false
  else
    let_some m := pool_meta_at pool_metas (pool_index edge) or false in
    if (length (pm_tokens m) <? 2)%nat then false
    else (negb (on_meta arena m (token_in edge)) && negb (on_meta arena m (token_out edge)))%bool.

Definition uni_cycle_has_both_foreign_edge (arena : StateArena) (pool_metas : list PoolMeta)
    (edges : list Edge) : bool :=
  existsb (edge_both_foreign arena pool_metas) edges.

(** [if in_idx/out_idx differ { assign; changed = true }]. *)
Definition update_idxs (edge : Edge) (in_idx out_idx : Z) : Edge * bool :=
  if (negb (token_in_idx edge =? in_idx) || negb (token_out_idx edge =? out_idx))%bool
  then (set_idxs edge in_idx out_idx, true) else (edge, false).

Definition update_legs (edge : Edge) (meta_in meta_out : TokenIndex) : Edge * bool :=
  if (negb (token_in edge =? meta_in) || negb (token_out edge =? meta_out))%bool
  then (set_legs edge meta_in meta_out, true) else (edge, false).

Definition update_zfo (arena : StateArena) (edge : Edge) : Edge * bool :=
  let healed := sync_zfo arena edge in
  (healed, negb (eqb (zero_for_one healed) (zero_for_one edge))).

(** Curve, DODO and WOOFi: refresh the leg indices; stale metadata is skipped. *)
Definition realign_indexed_edge (arena : StateArena) (m : PoolMeta) (edge : Edge) : Edge * bool :=
  let skip := (edge, false) in
  let_some in_pos := meta_pos_exact arena m (token_in edge) or skip in
  let_some out_pos := meta_pos_exact arena m (token_out edge) or skip in
  let bad (n : nat) := ((n <=? in_pos) || (n <=? out_pos) || (in_pos =? out_pos))%nat%bool in
  if match pool_state arena (pool_index edge) with
     | Some (PCurve s) => bad (length (cv_balances s)) | _ => false end then skip
  else if (bool_decide (protocol edge = Dodo) && bad 2%nat)%bool then skip
  else if match pool_state arena (pool_index edge) with
     | Some (PWoofi s) => bad (length (wf_tokens s)) | _ => false end then skip
  else
    let_some in_idx := u8_try_from in_pos or skip in
    let_some out_idx := u8_try_from out_pos or skip in
    if (negb (token_in_idx edge =? in_idx) || negb (token_out_idx edge =? out_idx))%bool
    then (set_zfo (set_idxs edge in_idx out_idx) (in_idx <? out_idx), true)
    else skip.

(** [m.tokens[i]] for an index the code has checked. *)
Definition meta_token (m : PoolMeta) (i : nat) : TokenIndex := nth i (pm_tokens m) 0.

(** Rewrite both legs and both indices to the metadata positions. *)
Definition place_edge (m : PoolMeta) (edge : Edge) (in_pos out_pos : nat) : option (Edge * bool) :=
  let? in_idx := u8_try_from in_pos in
  let? out_idx := u8_try_from out_pos in
  let '(edge, c1) := update_legs edge (meta_token m in_pos) (meta_token m out_pos) in
  let '(edge, c2) := update_idxs edge in_idx out_idx in
  Some (edge, (c1 || c2)%bool).

Definition realign_uni_legs (arena : StateArena) (m : PoolMeta) (edge : Edge)
  : option (Edge * bool) :=
  let in_pos := meta_pos_stable arena m (token_in edge) in
  let out_pos := meta_pos_stable arena m (token_out edge) in
  match in_pos, out_pos with
  | Some i, Some o => if (i =? o)%nat then None else place_edge m edge i o
  | _, _ =>
      if (length (pm_tokens m) =? 2)%nat then
        match in_pos, out_pos with
        | Some i, None => place_edge m edge i (1 - i)
        | None, Some o => place_edge m edge (1 - o) o
        | _, _ => None
        end
      else
        let in_i := Z.to_nat (token_in_idx edge) in
        let out_i := Z.to_nat (token_out_idx edge) in
        if ((length (pm_tokens m) <=? in_i)%nat || (length (pm_tokens m) <=? out_i)%nat
            || (in_i =? out_i)%nat
            || (bool_decide (in_pos = None) && bool_decide (out_pos = None)))%bool
        then None
        else
          let meta_in := meta_token m in_i in
          let meta_out := meta_token m out_i in
          let in_agrees :=
            (bool_decide (in_pos = Some in_i)
             || opt_address_eqb (token_address arena (token_in edge)) (token_address arena meta_in))%bool in
          let out_agrees :=
            (bool_decide (out_pos = Some out_i)
             || opt_address_eqb (token_address arena (token_out edge)) (token_address arena meta_out))%bool in
          if (negb in_agrees && negb out_agrees)%bool then None
          else Some (update_legs edge meta_in meta_out)
  end.

Definition realign_uni_edge (arena : StateArena) (pool_metas : list PoolMeta) (edge : Edge)
  : option (Edge * bool) :=
  let_some m := pool_meta_at pool_metas (pool_index edge) or Some (edge, false) in
  if (length (pm_tokens m) <? 2)%nat then Some (edge, false)
  else match protocol edge with
  | CurveStable | CurveCrypto | Dodo | Woofi => Some (realign_indexed_edge arena m edge)
  | UniswapV2 | UniswapV3 | UniswapV4 =>
      let? r := realign_uni_legs arena m edge in
      let '(edge, c1) := r in
      let '(edge, c2) := update_zfo arena edge in
      Some (edge, (c1 || c2)%bool)
  | BalancerV2 => Some (edge, false)
  end.

Fixpoint realign_uni_edges (arena : StateArena) (pool_metas : list PoolMeta) (edges : list Edge)
  : option (list Edge * bool) :=
  match edges with
  | [] => Some ([], false)
  | edge :: edges =>
      match realign_uni_edge arena pool_metas edge, realign_uni_edges arena pool_metas edges with
      | Some (edge', c1), Some (edges', c2) => Some (edge' :: edges', (c1 || c2)%bool)
      | _, _ => None
      end
  end.

Definition addr_eq (arena : StateArena) (a b : TokenIndex) : bool :=
  ((a =? b)
   || (negb (bool_decide (token_address arena a = None))
       && opt_address_eqb (token_address arena a) (token_address arena b)))%bool.

(** [edges.windows(2).all(|pair| p(pair[0], pair[1]))]. *)
Fixpoint windows_all {A} (p : A → A → bool) (l : list A) : bool :=
  match l with
  | a :: ((b :: _) as l') => (p a b && windows_all p l')%bool
  | _ => true
  end.

Definition hop_ok (arena : StateArena) (edges : list Edge) : bool :=
  windows_all (λ e0 e1, addr_eq arena (token_out e0) (token_in e1)) edges.

(** Re-anchor one hop to [need], the previous hop's output token. *)
Definition reanchor_edge (arena : StateArena) (pool_metas : list PoolMeta) (need : TokenIndex)
    (edge : Edge) : Edge * bool :=
  let skip := (edge, false) in
  if addr_eq arena (token_in edge) need then
    if negb (token_in edge =? need) then (set_legs edge need (token_out edge), true) else skip
  else
    let_some m := pool_meta_at pool_metas (pool_index edge) or skip in
    if (negb (protocol_is_pair (protocol edge)) || (length (pm_tokens m) <? 2)%nat)%bool then skip
    else
      let_some in_pos := position_by (λ t, t =? need) (pm_tokens m) or skip in
      let_some out_pos :=
        (if (length (pm_tokens m) =? 2)%nat then Some (1 - in_pos)%nat
         else match position_by (λ t, t =? token_out edge) (pm_tokens m) with
              | Some pos => if (pos =? in_pos)%nat then None else Some pos
              | None => None
              end) or skip in
      let_some in_idx := u8_try_from in_pos or skip in
      let_some out_idx := u8_try_from out_pos or skip in
      (sync_zfo arena (set_idxs (set_legs edge need (meta_token m out_pos)) in_idx out_idx), true).

Fixpoint reanchor (arena : StateArena) (pool_metas : list PoolMeta) (prev : Edge)
    (edges : list Edge) : list Edge * bool :=
  match edges with
  | [] => ([], false)
  | edge :: edges =>
      let '(edge, c1) := reanchor_edge arena pool_metas (token_out prev) edge in
      let '(edges, c2) := reanchor arena pool_metas edge edges in
      (edge :: edges, (c1 || c2)%bool)
  end.

Definition reanchor_all (arena : StateArena) (pool_metas : list PoolMeta) (edges : list Edge)
  : list Edge * bool :=
  match edges with
  | [] => ([], false)
  | e :: edges => let '(edges, c) := reanchor arena pool_metas e edges in (e :: edges, c)
  end.

(** The end of the function: repair the start token, return the clone if it changed. *)
Definition finish_realign (cycle owned : FoundCycle) (changed : bool) : FoundCycle :=
  match fc_edges owned with
  | e0 :: _ =>
      if negb (existsb (λ e, token_in e =? fc_start_token owned) (fc_edges owned))
      then with_start_token owned (token_in e0)
      else if changed then owned else cycle
  | [] => if changed then owned else cycle
  end.

Definition realign_uni_cycle_from_pool_meta (arena : StateArena) (pool_metas : list PoolMeta)
    (cycle : FoundCycle) : option FoundCycle :=
  match realign_uni_edges arena pool_metas (fc_edges cycle) with
  | None => None
  | Some (edges, changed) =>
      if hop_ok arena edges then Some (finish_realign cycle (with_edges cycle edges) changed)
      else
        let '(edges, c2) := reanchor_all arena pool_metas edges in
        if hop_ok arena edges
        then Some (finish_realign cycle (with_edges cycle edges) (changed || c2)%bool)
        else if (hop_ok arena (fc_edges cycle)
                 && cycle_v2_edges_match_pool_meta arena pool_metas (fc_edges cycle))%bool
        then Some cycle else None
  end.

(** ** Lemmas on the lookups *)

Lemma position_lookup xs a i : position xs a = Some i → xs !! i = Some a.
Proof.
  revert i. induction xs as [|x xs IH]; intros i; [done|]. cbn.
  case_bool_decide; [by intros [= <-]; subst|].
  intros (j & Hj & ->)%fmap_Some. by apply IH.
Qed.

Lemma position_by_is_Some {A} (p : A → bool) l : is_Some (position_by p l) ↔ existsb p l = true.
Proof.
  induction l as [|x l IH]; cbn; [split; [by intros []|done]|].
  destruct (p x); cbn; [by split; eauto|]. by rewrite fmap_is_Some.
Qed.

Lemma u8_try_from_to_nat n z : u8_try_from n = Some z → Z.to_nat z = n.
Proof. unfold u8_try_from. destruct (_ <? _)%nat; [|done]. intros [= <-]. lia. Qed.

Lemma u8_try_from_range n z : u8_try_from n = Some z → 0 ≤ z < 256.
Proof. unfold u8_try_from. destruct (_ <? _)%nat eqn:E; nbool; [|done]. intros [= <-]. lia. Qed.

Lemma resolve_lookup tokens tin tout i o :
  resolve_multi_token_vault_indices tokens tin tout = Some (i, o) →
  tokens !! Z.to_nat i = Some tin ∧ tokens !! Z.to_nat o = Some tout ∧
  0 ≤ i < 256 ∧ 0 ≤ o < 256.
Proof.
  unfold resolve_multi_token_vault_indices. destruct (tin =? tout); [done|].
  destruct (position tokens tin) as [ni|] eqn:Ei; [|done].
  destruct (position tokens tout) as [no|] eqn:Eo; [|done].
  destruct (u8_try_from ni) as [zi|] eqn:Zi; [|done].
  destruct (u8_try_from no) as [zo|] eqn:Zo; [|done]. intros [= <- <-].
  rewrite (u8_try_from_to_nat _ _ Zi), (u8_try_from_to_nat _ _ Zo).
  split_and!; eauto using position_lookup, u8_try_from_range;
    by eapply u8_try_from_range.
Qed.

(** ** Multi-token alignment *)

(** When realignment of a Balancer, WOOFi or DODO edge succeeds on a pool that
    carries its token list, the edge's indices point at the vault slots that hold
    exactly its two tokens; the edge is untouched, or it was re-indexed to a pair
    the pool can swap with the direction of the new indices; the tokens, the pool
    and the fee never change. *)
Theorem realign_multi_token_edge_aligned (arena : StateArena) (state : PoolState)
    (edge edge' : Edge) (tokens : list Address) :
  protocol_is_multi (protocol edge) = true → vault_tokens state = Some tokens →
  realign_multi_token_edge arena state edge = (true, edge') →
  (∃ tin tout, token_address arena (token_in edge') = Some tin ∧
     token_address arena (token_out edge') = Some tout ∧
     tokens !! Z.to_nat (token_in_idx edge') = Some tin ∧
     tokens !! Z.to_nat (token_out_idx edge') = Some tout) ∧
  (edge' = edge ∨
   hop_pair_routable state (Z.to_nat (token_in_idx edge')) (Z.to_nat (token_out_idx edge')) = true ∧
   edge' = set_zfo (set_idxs edge (token_in_idx edge') (token_out_idx edge'))
             (token_in_idx edge' <? token_out_idx edge')).
Proof.
  intros Hm Hv. unfold realign_multi_token_edge. rewrite Hm, Hv. cbn [negb].
  destruct (token_address arena (token_in edge)) as [tin|] eqn:Ei; [|done].
  destruct (token_address arena (token_out edge)) as [tout|] eqn:Eo; [|done].
  destruct (multi_token_edge_aligned state edge tin tout) eqn:Ea.
  - intros [= <-]. split; [|by left]. unfold multi_token_edge_aligned in Ea. rewrite Hv in Ea.
    apply andb_true_iff in Ea as [Ha1%bool_decide_eq_true Ha2%bool_decide_eq_true]. eauto 10.
  - destruct (resolve_multi_token_vault_indices tokens tin tout) as [[i o]|] eqn:Er; [|done].
    apply resolve_lookup in Er as (Hi & Ho & _).
    destruct (hop_pair_routable state (Z.to_nat i) (Z.to_nat o)) eqn:Eh; [|done].
    intros [= <-]. split; [|by right]. exists tin, tout. done.
Qed.

(** ** Healing *)

(** What healing an edge keeps. *)
Definition same_legs (e e' : Edge) : Prop :=
  pool_index e' = pool_index e ∧ token_in e' = token_in e ∧ token_out e' = token_out e ∧
  token_in_idx e' = token_in_idx e ∧ token_out_idx e' = token_out_idx e.

(** What a healed edge satisfies. *)
Definition edge_healed (arena : StateArena) (e : Edge) : Prop :=
  ∃ state, pool_state arena (pool_index e) = Some state ∧
    protocol_matches_pool_state (protocol e) state = true ∧
    sync_edge_fee_bps_from_state e state = e ∧
    (protocol_is_pair (protocol e) = true → sync_zfo arena e = e).

Lemma protocol_from_pool_state_matches state p :
  state ≠ PInvalid → protocol_matches_pool_state (protocol_from_pool_state state p) state = true.
Proof. by destruct state, p. Qed.

Lemma sync_fee_shape e state : ∃ fee, sync_edge_fee_bps_from_state e state = set_fee_bps e fee.
Proof.
  assert (∃ fee, e = set_fee_bps e fee) by (exists (fee_bps e); by destruct e).
  unfold sync_edge_fee_bps_from_state. destruct state; try done; repeat case_goal; eauto.
Qed.

Lemma sync_fee_idem e state :
  sync_edge_fee_bps_from_state (sync_edge_fee_bps_from_state e state) state =
  sync_edge_fee_bps_from_state e state.
Proof.
  destruct state; cbn [sync_edge_fee_bps_from_state]; try done.
  all: repeat (case_goal; cbn [token_in_idx token_out_idx set_fee_bps] in *); simplify_eq; try done.
Qed.

Lemma sync_zfo_shape arena e : ∃ z, sync_zfo arena e = set_zfo e z.
Proof.
  assert (∃ z, e = set_zfo e z) by (exists (zero_for_one e); by destruct e).
  unfold sync_zfo. repeat case_goal; eauto.
Qed.

Lemma sync_zfo_idem arena e : sync_zfo arena (sync_zfo arena e) = sync_zfo arena e.
Proof. unfold sync_zfo. by repeat (case_goal; cbn [token_in token_out set_zfo] in *; simplify_eq). Qed.

(** The two repairs commute: they touch different fields. *)
Lemma sync_fee_set_zfo e state z :
  sync_edge_fee_bps_from_state (set_zfo e z) state = set_zfo (sync_edge_fee_bps_from_state e state) z.
Proof. destruct state; cbn [sync_edge_fee_bps_from_state token_in_idx token_out_idx set_zfo]; by repeat case_goal. Qed.

Lemma sync_fee_fixed_zfo arena e state :
  sync_edge_fee_bps_from_state e state = e →
  sync_edge_fee_bps_from_state (sync_zfo arena e) state = sync_zfo arena e.
Proof. intros H. destruct (sync_zfo_shape arena e) as [z ->]. by rewrite sync_fee_set_zfo, H. Qed.

Lemma heal_protocol_sound e state e' c :
  state_is_invalid state = false → heal_protocol e state = Some (e', c) →
  protocol_matches_pool_state (protocol e') state = true ∧ same_legs e e' ∧ (c = false → e' = e).
Proof.
  intros Hv. unfold heal_protocol.
  destruct (protocol_matches_pool_state (protocol e) state) eqn:Em; cbn [negb]; [by intros [= <- <-]|].
  case_goal; [done|]. case_goal; [done|]. intros [= <- <-]. split_and!; try done.
  apply protocol_from_pool_state_matches. by intros ->.
Qed.

Lemma heal_edge_sound arena e e' c :
  heal_edge arena e = Some (e', c) → edge_healed arena e' ∧ same_legs e e' ∧ (c = false → e' = e).
Proof.
  unfold heal_edge. destruct (pool_state arena (pool_index e)) as [state|] eqn:Es; [|done].
  destruct (state_is_invalid state) eqn:Ev; [done|].
  destruct (heal_protocol e state) as [[e0 c0]|] eqn:Ep; [|done].
  apply heal_protocol_sound in Ep as (Hm & Hl & Hc); [|done].
  pose proof (sync_fee_idem e0 state) as Hfix. destruct (sync_fee_shape e0 state) as [fee Hfee].
  set (e1 := sync_edge_fee_bps_from_state e0 state) in *. clearbody e1.
  assert (same_legs e e1 ∧ protocol e1 = protocol e0 ∧ (fee_bps e1 = fee_bps e0 → e1 = e0)) as (Hl1 & Hp1 & Hc1).
  { subst e1. split_and!; [by destruct Hl|done|]. destruct e0; cbn. by intros ->. }
  rewrite <- Hp1 in Hm. assert (pool_state arena (pool_index e1) = Some state) as Es1
    by (by destruct Hl1 as [-> _]).
  destruct (protocol_is_pair (protocol e1)) eqn:Epair; intros [= <- <-].
  - destruct (sync_zfo_shape arena e1) as [z Ez]. split_and!.
    + exists state. rewrite sync_fee_fixed_zfo, sync_zfo_idem by done. by rewrite Ez.
    + by rewrite Ez.
    + intros [[Hc0 Hf]%orb_false_iff Hz]%orb_false_iff. zbool.
      rewrite <- Hc, <- Hc1 by done. revert Hz. rewrite Ez. cbn [zero_for_one set_zfo].
      intros ->%eqb_prop. by destruct e1.
  - split_and!; [|done|].
    + exists state. split_and!; try done. by rewrite Epair.
    + intros [Hc0 Hf]%orb_false_iff. zbool. rewrite <- Hc, <- Hc1 by done. done.
Qed.

Lemma heal_edge_fixed arena e : edge_healed arena e → heal_edge arena e = Some (e, false).
Proof.
  intros (state & Es & Hm & Hf & Hz). unfold heal_edge. rewrite Es.
  assert (state_is_invalid state = false) as -> by (by destruct state, (protocol e)).
  unfold heal_protocol. rewrite Hm. cbn [negb]. rewrite Hf, Z.eqb_refl.
  destruct (protocol_is_pair (protocol e)); [|done]. by rewrite Hz, eqb_reflx by done.
Qed.

Lemma heal_edges_sound arena edges edges' c :
  heal_edges arena edges = Some (edges', c) →
  Forall (edge_healed arena) edges' ∧ Forall2 same_legs edges edges' ∧ (c = false → edges' = edges).
Proof.
  revert edges' c. induction edges as [|e edges IH]; intros edges' c; cbn [heal_edges].
  { by intros [= <- <-]. }
  destruct (heal_edge arena e) as [[e1 c1]|] eqn:E1; [|done].
  destruct (heal_edges arena edges) as [[es2 c2]|] eqn:E2; [|done]. intros [= <- <-].
  apply heal_edge_sound in E1 as (? & ? & H1). destruct (IH es2 c2 eq_refl) as (? & ? & H2).
  split_and!; [by constructor..|]. intros ?. zbool. by rewrite H1, H2.
Qed.

Lemma heal_edges_fixed arena edges :
  Forall (edge_healed arena) edges → heal_edges arena edges = Some (edges, false).
Proof. induction 1 as [|e l He _ IH]; [done|]. cbn. by rewrite heal_edge_fixed, IH. Qed.

(** A cycle that can be healed comes back with every hop's protocol matching
    the pool state the arena serves, every fee synchronised, every V2/V3/V4
    direction following the order of the token addresses, and the same pools,
    tokens and leg indices; when anything changed, its cumulative fee is the
    (saturating) sum of the new fees, otherwise it is the cycle itself; and
    healing it again changes nothing. *)
Theorem heal_cycle_edge_protocols_sound (arena : StateArena) (c c' : FoundCycle) :
  heal_cycle_edge_protocols arena c = Some c' →
  cycle_edges_match_arena_state arena (fc_edges c') = true ∧
  Forall (λ e, protocol_is_pair (protocol e) = true → ∀ a b,
    token_address arena (token_in e) = Some a → token_address arena (token_out e) = Some b →
    zero_for_one e = (a <? b)) (fc_edges c') ∧
  Forall2 same_legs (fc_edges c) (fc_edges c') ∧
  (c' = c ∨ fc_cumulative_fee_bps c' = fee_sum (fc_edges c')) ∧
  heal_cycle_edge_protocols arena c' = Some c'.
Proof.
  unfold heal_cycle_edge_protocols. destruct (heal_edges arena (fc_edges c)) as [[edges ch]|] eqn:E; [|done].
  apply heal_edges_sound in E as (Hh & Hl & Hc). intros [= Ec'].
  assert (fc_edges c' = edges) as Ee by (rewrite <- Ec'; by destruct ch). rewrite Ee. split_and!.
  - apply forallb_forall. intros e Hin%list_elem_of_In. rewrite Forall_forall in Hh.
    destruct (Hh e Hin) as (state & -> & -> & _). done.
  - eapply Forall_impl; [exact Hh|]. intros e (state & _ & _ & _ & Hz) Hp a b Ha Hb.
    specialize (Hz Hp). unfold sync_zfo in Hz. rewrite Ha, Hb in Hz. by rewrite <- Hz.
  - done.
  - destruct ch; [right; by rewrite <- Ec'|left]. rewrite <- Ec', Hc by done. by destruct c.
  - rewrite heal_edges_fixed by done. f_equal. rewrite <- Ee. by destruct c'.
Qed.

(** ** Uni edges *)

(** A rewritten edge swaps in the same pool; [ch] is false only if nothing changed. *)
Definition rewritten (e : Edge) (r : Edge * bool) : Prop :=
  (pool_index r.1 = pool_index e ∧ protocol r.1 = protocol e ∧ fee_bps r.1 = fee_bps e) ∧
  (r.2 = false → r.1 = e).

Lemma rewritten_refl e : rewritten e (e, false).
Proof. done. Qed.

Lemma rewritten_true e e' :
  pool_index e' = pool_index e → protocol e' = protocol e → fee_bps e' = fee_bps e →
  rewritten e (e', true).
Proof. done. Qed.

Lemma rewritten_seq e e1 c1 e2 c2 :
  rewritten e (e1, c1) → rewritten e1 (e2, c2) → rewritten e (e2, (c1 || c2)%bool).
Proof.
  unfold rewritten. cbn. intros [(-> & -> & ->) H1] [(-> & -> & ->) H2].
  split; [done|]. intros [Hc1 Hc2]%orb_false_iff. rewrite H2, H1; done.
Qed.

Lemma rewritten_zfo arena e e' :
  pool_index e' = pool_index e → protocol e' = protocol e → fee_bps e' = fee_bps e →
  rewritten e (sync_zfo arena e', true).
Proof. intros. by destruct (sync_zfo_shape arena e') as [z ->]. Qed.

Create HintDb realign.
#[export] Hint Resolve rewritten_refl rewritten_true rewritten_seq : realign.

Lemma update_legs_rewritten e a b : rewritten e (update_legs e a b).
Proof. unfold update_legs. case_goal; auto with realign. Qed.

Lemma update_idxs_rewritten e i o : rewritten e (update_idxs e i o).
Proof. unfold update_idxs. case_goal; auto with realign. Qed.

Lemma update_zfo_rewritten arena e : rewritten e (update_zfo arena e).
Proof.
  unfold update_zfo. destruct (sync_zfo_shape arena e) as [z ->]. split; [done|]. cbn.
  intros Hz. zbool. apply eqb_prop in Hz as ->. by destruct e.
Qed.

Lemma place_edge_rewritten m e i o r : place_edge m e i o = Some r → rewritten e r.
Proof.
  unfold place_edge. destruct (u8_try_from i) as [zi|]; [|done]. destruct (u8_try_from o) as [zo|]; [|done].
  pose proof (update_legs_rewritten e (meta_token m i) (meta_token m o)) as H1.
  destruct (update_legs e _ _) as [e1 c1]. pose proof (update_idxs_rewritten e1 zi zo) as H2.
  destruct (update_idxs e1 zi zo) as [e2 c2]. intros [= <-]. eauto with realign.
Qed.

Lemma realign_uni_legs_rewritten arena m e r : realign_uni_legs arena m e = Some r → rewritten e r.
Proof.
  unfold realign_uni_legs. repeat case_goal; try done; intros H;
    first [by apply place_edge_rewritten in H | injection H as <-; apply update_legs_rewritten].
Qed.

Lemma realign_indexed_edge_rewritten arena m e : rewritten e (realign_indexed_edge arena m e).
Proof. unfold realign_indexed_edge. repeat case_goal; auto with realign. Qed.

Lemma realign_uni_edge_rewritten arena metas e r :
  realign_uni_edge arena metas e = Some r → rewritten e r.
Proof.
  unfold realign_uni_edge. destruct (pool_meta_at metas _) as [m|]; [|intros [= <-]; auto with realign].
  case_goal; [intros [= <-]; auto with realign|].
  assert (∀ x, (let? r := realign_uni_legs arena m e in
                let '(edge, c1) := r in let '(edge, c2) := update_zfo arena edge in
                Some (edge, (c1 || c2)%bool)) = Some x → rewritten e x) as Hu.
  { intros x. destruct (realign_uni_legs arena m e) as [[e1 c1]|] eqn:E1; [|done].
    apply realign_uni_legs_rewritten in E1. pose proof (update_zfo_rewritten arena e1) as E2.
    destruct (update_zfo arena e1) as [e2 c2]. intros [= <-]. eauto with realign. }
  destruct (protocol e); try exact (Hu r); intros [= <-]; auto using realign_indexed_edge_rewritten with realign.
Qed.

Lemma reanchor_edge_rewritten arena metas need e : rewritten e (reanchor_edge arena metas need e).
Proof.
  unfold reanchor_edge. repeat case_goal; auto with realign.
  all: by apply rewritten_zfo.
Qed.

Definition same_pools (edges edges' : list Edge) : Prop :=
  Forall2 (λ e e', pool_index e' = pool_index e ∧ protocol e' = protocol e ∧ fee_bps e' = fee_bps e)
    edges edges'.

Lemma same_pools_refl l : same_pools l l.
Proof. by induction l; constructor. Qed.

Lemma same_pools_trans l1 l2 l3 : same_pools l1 l2 → same_pools l2 l3 → same_pools l1 l3.
Proof.
  intros H12. revert l3. induction H12 as [|e e' l l' (Hp & Hq & Hf) _ IH]; intros l3 H23.
  - done.
  - apply Forall2_cons_inv_l in H23 as (e'' & l'' & (Hp' & Hq' & Hf') & Hl & ->). constructor; [|by apply IH].
    by rewrite Hp', Hq', Hf'.
Qed.

Lemma realign_uni_edges_frame arena metas edges edges' c :
  realign_uni_edges arena metas edges = Some (edges', c) →
  same_pools edges edges' ∧ (c = false → edges' = edges).
Proof.
  revert edges' c. induction edges as [|e edges IH]; intros edges' c; cbn [realign_uni_edges].
  { intros [= <- <-]. split; [constructor|done]. }
  destruct (realign_uni_edge arena metas e) as [[e1 c1]|] eqn:E1; [|done].
  destruct (realign_uni_edges arena metas edges) as [[es2 c2]|] eqn:E2; [|done]. intros [= <- <-].
  apply realign_uni_edge_rewritten in E1 as [Hf H1]. destruct (IH es2 c2 eq_refl) as [Hf2 H2].
  split; [by constructor|]. intros ?. zbool. cbn in H1. by rewrite H1, H2.
Qed.

Lemma reanchor_frame arena metas prev edges :
  same_pools edges (reanchor arena metas prev edges).1 ∧
  ((reanchor arena metas prev edges).2 = false → (reanchor arena metas prev edges).1 = edges).
Proof.
  revert prev. induction edges as [|e edges IH]; intros prev; cbn [reanchor]; [split; [constructor|done]|].
  destruct (reanchor_edge_rewritten arena metas (token_out prev) e) as [Hf H1].
  destruct (reanchor_edge arena metas (token_out prev) e) as [e1 c1]. destruct (IH e1) as [Hf2 H2].
  destruct (reanchor arena metas e1 edges) as [es2 c2]. cbn in *. split; [by constructor|].
  intros ?. zbool. by rewrite H1, H2.
Qed.

Lemma reanchor_all_frame arena metas edges :
  same_pools edges (reanchor_all arena metas edges).1 ∧
  ((reanchor_all arena metas edges).2 = false → (reanchor_all arena metas edges).1 = edges).
Proof.
  destruct edges as [|e edges]; [split; [constructor|done]|]. cbn.
  destruct (reanchor_frame arena metas e edges) as [Hf H].
  destruct (reanchor arena metas e edges) as [es c]. cbn in *. split; [by constructor|].
  intros Hc. by rewrite H.
Qed.

Lemma finish_realign_edges cycle edges c :
  (c = false → edges = fc_edges cycle) →
  fc_edges (finish_realign cycle (with_edges cycle edges) c) = edges.
Proof.
  intros H. unfold finish_realign. cbn [fc_edges with_edges]. destruct c.
  - destruct edges; [done|]. by case_goal.
  - rewrite H by done. destruct (fc_edges cycle) eqn:E; [done|]. by case_goal.
Qed.

(** Realigning a cycle with the pool metadata either fails or returns a cycle
    whose consecutive hops connect (the same token, or tokens of the same
    address), through the same pools, protocols and fees as before: a route is
    never handed on broken. *)
Theorem realign_uni_cycle_continuous (arena : StateArena) (metas : list PoolMeta) (c c' : FoundCycle) :
  realign_uni_cycle_from_pool_meta arena metas c = Some c' →
  hop_ok arena (fc_edges c') = true ∧ same_pools (fc_edges c) (fc_edges c').
Proof.
  unfold realign_uni_cycle_from_pool_meta.
  destruct (realign_uni_edges arena metas (fc_edges c)) as [[es1 c1]|] eqn:E1; [|done].
  apply realign_uni_edges_frame in E1 as [Hf1 H1].
  destruct (hop_ok arena es1) eqn:Eh1; [intros [= <-]; by rewrite finish_realign_edges|].
  destruct (reanchor_all_frame arena metas es1) as [Hf2 H2].
  destruct (reanchor_all arena metas es1) as [es2 c2]. cbn [fst snd] in *.
  destruct (hop_ok arena es2) eqn:Eh2.
  - intros [= <-]. rewrite finish_realign_edges; [|intros ?; zbool; by rewrite H2, H1].
    split; [done|]. by eapply same_pools_trans.
  - destruct (_ && _)%bool eqn:E; [|done]. zbool. intros [= <-]. split; [done|apply same_pools_refl].
Qed.

(** ** A hop on foreign tokens cannot be realigned *)

Lemma on_meta_pos arena m tok :
  on_meta arena m tok = true ↔ is_Some (meta_pos_stable arena m tok).
Proof.
  unfold on_meta, meta_pos_stable. rewrite orb_true_iff, <- position_by_is_Some.
  destruct (position_by _ _) as [i|]; [by split; eauto|].
  destruct (token_address arena tok) as [want|]; [|split; [intros [[? ?]|?]; done|intros [? ?]; done]].
  rewrite <- position_by_is_Some. split; [intros [[? ?]|?]; done|by right].
Qed.

Lemma edge_both_foreign_fails arena metas e :
  edge_both_foreign arena metas e = true → realign_uni_edge arena metas e = None.
Proof.
  unfold edge_both_foreign, realign_uni_edge. destruct (protocol_is_pair (protocol e)) eqn:Ep; [|done].
  cbn [negb]. destruct (pool_meta_at metas (pool_index e)) as [m|]; [|done].
  destruct (_ <? 2)%nat; [done|]. intros H. zbool.
  assert (∀ t, on_meta arena m t = false → meta_pos_stable arena m t = None) as Hn.
  { intros t Ht. apply eq_None_not_Some. rewrite <- on_meta_pos. congruence. }
  assert (realign_uni_legs arena m e = None) as ->; [|by destruct (protocol e)].
  unfold realign_uni_legs. rewrite !Hn by done. case_goal; [done|].
  rewrite !(bool_decide_true (None = None)) by done. cbn [andb]. by rewrite !orb_true_r.
Qed.

(** A cycle with a V2/V3/V4 hop neither of whose tokens is on its pool's
    metadata is never realigned, whatever its other hops: the cycles the
    pruning test drops are beyond repair. *)
Theorem both_foreign_never_realigned (arena : StateArena) (metas : list PoolMeta) (c : FoundCycle) :
  uni_cycle_has_both_foreign_edge arena metas (fc_edges c) = true →
  realign_uni_cycle_from_pool_meta arena metas c = None.
Proof.
  intros H. unfold realign_uni_cycle_from_pool_meta.
  assert (realign_uni_edges arena metas (fc_edges c) = None) as ->; [|done].
  revert H. generalize (fc_edges c). intros l. induction l as [|e l IH]; [done|].
  unfold uni_cycle_has_both_foreign_edge in *. cbn [existsb realign_uni_edges].
  intros [Hf|Hf]%orb_true_iff; [by rewrite edge_both_foreign_fails|].
  rewrite (IH Hf). by destruct (realign_uni_edge arena metas e) as [[? ?]|].
Qed.

(** ** Witnesses *)

Definition demo_cycle (edges : list Edge) : FoundCycle :=
  {| fc_start_token := 0; fc_edges := edges; fc_hop_count := Z.of_nat (length edges);
     fc_log_weight := SpecFloat.S754_zero false; fc_cumulative_fee_bps := 60;
     fc_score := SpecFloat.S754_zero false; fc_cycle_ratio := 0 |}.

Definition demo_meta (pool : Z) (tokens : list Z) : PoolMeta :=
  {| pm_pool_index := pool; pm_protocol := UniswapV2; pm_tokens := tokens; pm_fee_bps := 30;
     pm_bpt_index := None; pm_pool_id := None; pm_protocol_label := None; pm_pool_type := None;
     pm_hooks := None; pm_tick_spacing := None |}.

Definition demo_weighted : PoolState :=
  PBalancer {| bl_pool_id := None; bl_tokens := [101; 100]; bl_balances := [10 ^ 20; 10 ^ 20];
    bl_weights := [ONE / 2; ONE / 2]; bl_scaling_factors := [ONE; ONE]; bl_amp := 0;
    bl_amp_precision := 0; bl_fee := 10 ^ 15; bl_pool_type := Weighted; bl_linear := None;
    bl_bpt_index := None; bl_is_updating := false; bl_last_change_block := 0 |}.

Lemma realign_multi_token_edge_aligned_witness :
  let e := demo_edge BalancerV2 0 0 1 in
  let e' := set_zfo (set_idxs e 1 0) false in
  ∃ tin tout, token_address demo_arena (token_in e') = Some tin ∧
     token_address demo_arena (token_out e') = Some tout ∧
     [101; 100] !! Z.to_nat (token_in_idx e') = Some tin ∧
     [101; 100] !! Z.to_nat (token_out_idx e') = Some tout.
Proof.
  apply (realign_multi_token_edge_aligned demo_arena demo_weighted (demo_edge BalancerV2 0 0 1));
    vm_compute; reflexivity.
Defined.

Lemma heal_cycle_edge_protocols_sound_witness :
  let c := demo_cycle [demo_edge UniswapV3 0 0 1] in
  let c' := with_cumulative_fee (with_edges c
              [set_fee_bps (set_protocol (demo_edge UniswapV3 0 0 1) UniswapV2) 30]) 30 in
  cycle_edges_match_arena_state demo_arena (fc_edges c') = true ∧
  heal_cycle_edge_protocols demo_arena c' = Some c'.
Proof.
  cbn zeta.
  destruct (heal_cycle_edge_protocols_sound demo_arena (demo_cycle [demo_edge UniswapV3 0 0 1])
    (with_cumulative_fee (with_edges (demo_cycle [demo_edge UniswapV3 0 0 1])
              [set_fee_bps (set_protocol (demo_edge UniswapV3 0 0 1) UniswapV2) 30]) 30)
    ltac:(vm_compute; reflexivity)) as (H1 & _ & _ & _ & H2).
  split; [exact H1|exact H2].
Defined.

Lemma realign_uni_cycle_continuous_witness :
  let c := demo_cycle [demo_edge UniswapV2 0 0 1; demo_edge UniswapV2 1 0 1] in
  let c' := demo_cycle [demo_edge UniswapV2 0 0 1;
              set_zfo (set_idxs (set_legs (demo_edge UniswapV2 1 0 1) 1 0) 1 0) false] in
  hop_ok demo_arena (fc_edges c') = true ∧ same_pools (fc_edges c) (fc_edges c').
Proof.
  apply (realign_uni_cycle_continuous demo_arena [demo_meta 0 [0; 1]; demo_meta 1 [0; 1]]).
  vm_compute. reflexivity.
Defined.

Lemma both_foreign_never_realigned_witness :
  realign_uni_cycle_from_pool_meta demo_arena [demo_meta 0 [5; 6]]
    (demo_cycle [demo_edge UniswapV2 0 0 1]) = None.
Proof. apply both_foreign_never_realigned. vm_compute. reflexivity. Defined.
