(* ===== verification/LocalSim.v ===== *)
(** * Route simulation

    [src/src/pipeline/local_sim.rs] (hops, routes, failure classification) and
    [src/src/pipeline/curve_sim.rs]: a route is walked hop by hop over the arena,
    each hop quoted by its pool's mathematics, with the spot probe as an input
    cap for concentrated-liquidity hops without ticks.  The counters of
    [curve_sim.rs] are statistics and are left out.  [outcome (option A)] is a
    Rust [Option<A>] whose computation may panic. *)
From S2P Require Import Prelude Word MulDiv Types UniswapV2 UniswapV3 Balancer Curve CurveCrypto.
From S2P Require Import Dodo Woofi Gas Profit Arena Routes Realign.

(** [let x = e?;] where evaluating [e] may panic. *)
Notation "'let!?' x ':=' e 'or' r 'in' k" :=
  (match e with Panic => Panic | Done None => Done r | Done (Some x) => k end)
  (at level 10, x name, e at level 100, r at level 100, k at level 200) : rust_scope.

(** ** Spot probes and shallow caps *)

Definition spot_probe_for_decimals (decimals : Z) : Z :=
  let scale := ten_pow_u256 decimals in
  let exp_probe := if 6 <=? decimals then ten_pow_u256 (decimals - 6) else 1 in
  let dust_floor := scale / 1000 in
  let cap := scale / 100 in
  Z.min (Z.max (Z.max exp_probe dust_floor) 1000) cap.

Definition spot_probe_for_token (arena : StateArena) (token : TokenIndex) : Z :=
  spot_probe_for_decimals (token_decimals arena token).

(** [matches!(protocol, UniswapV3 | UniswapV4)]. *)
Definition is_cl (p : ProtocolType) : bool :=
  match p with UniswapV3 | UniswapV4 => true | _ => false end.

Definition HOP_CAP_USIZE : nat := 8.

(** The scan [for j in 0..i] for a probe already made for the same token. *)
Fixpoint reused_cap (edges : list Edge) (caps : list Z) (token : TokenIndex) (js : list nat)
  : option Z :=
  match js with
  | [] => None
  | j :: js =>
      match edges !! j, caps !! j with
      | Some e, Some cap =>
          if (is_cl (protocol e) && (token_in e =? token) && (cap <? U256_MAX))%bool then Some cap
          else reused_cap edges caps token js
      | _, _ => reused_cap edges caps token js
      end
  end.

(** The loop at edge [i]; writing [caps[i]] beyond the array panics. *)
Fixpoint shallow_caps_loop (probe : TokenIndex → Z) (tickless : nat → Edge → bool)
    (edges rest : list Edge) (i : nat) (caps : list Z) : outcome (list Z) :=
  match rest with
  | [] => Done caps
  | edge :: rest =>
      if (negb (is_cl (protocol edge)) || negb (tickless i edge))%bool
      then shallow_caps_loop probe tickless edges rest (S i) caps
      else if (length caps <=? i)%nat then Panic
      else
        let cap := default (probe (token_in edge)) (reused_cap edges caps (token_in edge) (seq 0 i)) in
        shallow_caps_loop probe tickless edges rest (S i) (<[i := cap]> caps)
  end.

Definition no_caps : list Z := replicate HOP_CAP_USIZE U256_MAX.

Definition route_shallow_caps_with (edges : list Edge) (probe : TokenIndex → Z)
    (tickless : nat → Edge → bool) : outcome (list Z) :=
  shallow_caps_loop probe tickless edges edges 0 no_caps.

Definition route_shallow_caps (arena : StateArena) (edges : list Edge) : outcome (list Z) :=
  route_shallow_caps_with edges (spot_probe_for_token arena)
    (λ _ edge, match pool_state arena (pool_index edge) with
               | Some (PV3 s | PV4 s) => ticks_empty s
               | _ => true
               end).

Definition route_has_cl_hop (edges : list Edge) : bool :=
  existsb (λ edge, is_cl (protocol edge)) edges.

Definition precompute_route_shallow_caps (arena : StateArena) (edges : list Edge)
  : outcome (option (list Z)) :=
  if route_has_cl_hop edges
  then let! caps := route_shallow_caps arena edges in Done (Some caps) else Done None.

(** [if let Some(caps) = precomputed { *caps } else if route_has_cl_hop(..) { .. } else { MAX }]. *)
Definition effective_caps (arena : StateArena) (edges : list Edge) (precomputed : option (list Z))
  : outcome (list Z) :=
  match precomputed with
  | Some caps => Done caps
  | None => if route_has_cl_hop edges then route_shallow_caps arena edges else Done no_caps
  end.

(** ** One hop *)

Record HopResult := { hr_amount_out : Z; hr_gas : Z }.

Inductive HopReject := ClCap | ClShallow | ClSynthetic | HopMath.

Definition cl_hop_tickless (state : PoolState) : bool :=
  match state with PV3 s | PV4 s => ticks_empty s | _ => false end.

Definition cl_hop_exceeds_shallow_cap (amount_in shallow_cap : Z) : bool :=
  ((shallow_cap <? U256_MAX) && (shallow_cap <? amount_in))%bool.

Definition v2_reserve_in (state : V2PoolState) (zero_for_one : bool) : Z :=
  if zero_for_one then v2_reserve0 state else v2_reserve1 state.

Definition curve_hop_amount_out (state : CurvePoolState) (protocol : ProtocolType) (amount_in : Z)
    (token_in_idx token_out_idx : nat) : outcome (option Z) :=
  match protocol with
  | CurveStable =>
      let! r := try_curve_stable_amount_out state amount_in token_in_idx token_out_idx in
      Done (match r with inr out => if is_zero out then None else Some out | inl _ => None end)
  | CurveCrypto =>
      let! r := try_curve_crypto_amount_out state amount_in token_in_idx token_out_idx in
      Done (match r with inr out => if is_zero out then None else Some out | inl _ => None end)
  | _ => Done None
  end.

(** [if out.is_zero() { return Err(Math) }; Ok(HopResult { .. })]. *)
Definition nonzero_hop (out gas : Z) : HopReject + HopResult :=
  if is_zero out then inl HopMath else inr {| hr_amount_out := out; hr_gas := gas |}.

(** The V3/V4 arm. *)
Definition simulate_cl_hop (s : V3PoolState) (edge : Edge) (amount_in shallow_cap : Z)
  : outcome (HopReject + HopResult) :=
  let allow_zero := bool_decide (protocol edge = UniswapV4) in
  let! r := simulate_v3_swap s amount_in (zero_for_one edge) (Some (fee_bps edge)) allow_zero in
  Done
    (if vr_shallow r then
       if (negb (ticks_empty s) || cl_hop_exceeds_shallow_cap amount_in shallow_cap
           || is_zero (vr_amount_out r))%bool
       then inl ClShallow
       else inr {| hr_amount_out := vr_amount_out r; hr_gas := vr_gas_estimate r |}
     else if vr_synthetic r then inl ClSynthetic
     else inr {| hr_amount_out := vr_amount_out r; hr_gas := vr_gas_estimate r |}).

(** The WOOFi arm. *)
Definition simulate_woofi_hop (s : WoofiPoolState) (edge : Edge) (amount_in : Z)
  : outcome (HopReject + HopResult) :=
  let n_bases := length (wf_base_states s) in
  let i := Z.to_nat (token_in_idx edge) in
  let o := Z.to_nat (token_out_idx edge) in
  let in_is_quote := (n_bases <=? i)%nat in
  let out_is_quote := (n_bases <=? o)%nat in
  let base_in := if in_is_quote then None else Some i in
  let base_out := if out_is_quote then None else Some o in
  let! out := get_woofi_amount_out s amount_in in_is_quote out_is_quote base_in base_out in
  Done (nonzero_hop out GAS_WOOFI_HOP).

Definition simulate_hop (state : PoolState) (edge : Edge) (amount_in shallow_cap : Z)
  : outcome (HopReject + HopResult) :=
  if is_zero amount_in then Done (inr {| hr_amount_out := 0; hr_gas := 0 |})
  else if (is_cl (protocol edge) && cl_hop_exceeds_shallow_cap amount_in shallow_cap)%bool
  then Done (inl ClCap)
  else match state, protocol edge with
  | PV2 s, UniswapV2 =>
      if v2_reserve_in s (zero_for_one edge) <=? amount_in then Done (inl HopMath)
      else
        let! out := simulate_v2_swap s amount_in (zero_for_one edge) (Some (fee_bps edge)) in
        Done (inr {| hr_amount_out := out; hr_gas := GAS_V2_HOP |})
  | PV3 s, UniswapV3 | PV4 s, UniswapV4 => simulate_cl_hop s edge amount_in shallow_cap
  | PCurve s, (CurveStable | CurveCrypto) =>
      let! q := curve_hop_amount_out s (protocol edge) amount_in
                  (Z.to_nat (token_in_idx edge)) (Z.to_nat (token_out_idx edge)) in
      Done (match q with
            | Some out => inr {| hr_amount_out := out; hr_gas := GAS_CURVE_HOP |}
            | None => inl HopMath
            end)
  | PBalancer s, BalancerV2 =>
      let! out := simulate_balancer_swap s amount_in
                    (Z.to_nat (token_in_idx edge)) (Z.to_nat (token_out_idx edge)) in
      Done (nonzero_hop out GAS_BALANCER_HOP)
  | PDodo s, Dodo =>
      let base_to_quote := token_in_idx edge =? 0 in
      Done (nonzero_hop (get_dodo_amount_out s amount_in base_to_quote) GAS_DODO_HOP)
  | PWoofi s, Woofi => simulate_woofi_hop s edge amount_in
  | _, _ => Done (inl HopMath)
  end.

Definition simulate_hop_amount_out_with_cap (state : PoolState) (edge : Edge)
    (amount_in shallow_cap : Z) : outcome (option Z) :=
  let! r := simulate_hop state edge amount_in shallow_cap in
  Done (match r with inr h => Some (hr_amount_out h) | inl _ => None end).

Definition simulate_hop_amount_out (state : PoolState) (edge : Edge) (amount_in : Z)
  : outcome (option Z) :=
  simulate_hop_amount_out_with_cap state edge amount_in U256_MAX.

Definition simulate_hop_amount_out_for_execution (state : PoolState) (edge : Edge) (amount_in : Z)
  : outcome (option Z) :=
  if is_zero amount_in then Done None
  else match state, protocol edge with
  | PV3 s, UniswapV3 | PV4 s, UniswapV4 =>
      let allow_zero := bool_decide (protocol edge = UniswapV4) in
      let! r := simulate_v3_swap s amount_in (zero_for_one edge) (Some (fee_bps edge)) allow_zero in
      Done (if (vr_shallow r || vr_synthetic r || is_zero (vr_amount_out r))%bool then None
            else Some (vr_amount_out r))
  | _, _ =>
      let! q := simulate_hop_amount_out state edge amount_in in
      Done (match q with Some out => if is_zero out then None else Some out | None => None end)
  end.

(** ** Walking a route *)

(** [*amounts.get_mut(k)? = v], when the caller passed a buffer. *)
Definition write_amount (amounts : option (list Z)) (k : nat) (v : Z) : option (option (list Z)) :=
  match amounts with
  | None => Some None
  | Some l => if (k <? length l)%nat then Some (Some (<[k := v]> l)) else None
  end.

(** [current > U256::ZERO && hop.amount_out.is_zero()]: a [U256] above zero is one
    that is not zero. *)
Definition dead_hop (current out : Z) : bool := (negb (is_zero current) && is_zero out)%bool.

(** The edge a multi-token hop is simulated with. *)
Definition realigned (arena : StateArena) (state : PoolState) (edge : Edge) : option Edge :=
  if protocol_is_multi (protocol edge) then
    let '(ok, e) := realign_multi_token_edge arena state edge in if ok then Some e else None
  else Some edge.

Fixpoint walk_loop (arena : StateArena) (caps : list Z) (i : nat) (edges : list Edge)
    (current total_gas : Z) (amounts : option (list Z))
  : outcome (option (Z * Z * option (list Z))) :=
  match edges with
  | [] => Done (Some (current, total_gas, amounts))
  | edge :: edges =>
      let_some state := pool_state arena (pool_index edge) or Done None in
      if negb (is_tradable state) then Done None
      else
      let_some edge := realigned arena state edge or Done None in
      let_some cap := caps !! i or Panic in
      let! r := simulate_hop state edge current cap in
      match r with
      | inl _ => Done None
      | inr hop =>
          if dead_hop current (hr_amount_out hop) then Done None
          else
            let_some amounts := write_amount amounts (S i) (hr_amount_out hop) or Done None in
            walk_loop arena caps (S i) edges (hr_amount_out hop)
              (wrap_u 32 (total_gas + hr_gas hop)) amounts
      end
  end.

Definition walk_route_hops (arena : StateArena) (edges : list Edge) (amount_in : Z)
    (hop_amounts : option (list Z)) (precomputed : option (list Z))
  : outcome (option (Z * Z * option (list Z))) :=
  if (HOP_CAP_USIZE <? length edges)%nat then Done None
  else
    let! caps := effective_caps arena edges precomputed in
    let_some amounts := write_amount hop_amounts 0 amount_in or Done None in
    walk_loop arena caps 0 edges amount_in 0 amounts.

(** The hops connect: the same address, or the same index where an address is unknown. *)
Definition hops_connect (arena : StateArena) (e0 e1 : Edge) : bool :=
  match token_address arena (token_out e0), token_address arena (token_in e1) with
  | Some a, Some b => a =? b
  | _, _ => token_out e0 =? token_in e1
  end.

(** [edges.windows(2).position(|pair| !connect(pair))]. *)
Fixpoint first_break (connect : Edge → Edge → bool) (edges : list Edge) : option nat :=
  match edges with
  | e0 :: ((e1 :: _) as rest) =>
      if negb (connect e0 e1) then Some 0%nat else S <$> first_break connect rest
  | _ => None
  end.

Definition first_hop_continuity_break_in_arena (arena : StateArena) (edges : list Edge) : option nat :=
  first_break (hops_connect arena) edges.

Definition route_edges_simulatable (arena : StateArena) (edges : list Edge) : bool :=
  (negb (is_empty edges) && (length edges <=? HOP_CAP_USIZE)%nat
   && bool_decide (first_hop_continuity_break_in_arena arena edges = None))%bool.

(** ** Routes *)

Definition simulate_route_minimal_with_caps (arena : StateArena) (edges : list Edge) (amount_in : Z)
    (precomputed : option (list Z)) : outcome (option MinimalSimResult) :=
  if negb (route_edges_simulatable arena edges) then Done None
  else if is_zero amount_in then
    Done (Some {| sim_profit := 0; sim_amount_out := 0;
                  sim_total_gas := finalize_route_total_gas edges 0 |})
  else
    let!? walked := walk_route_hops arena edges amount_in None precomputed or None in
    let '(amount_out, walked_gas, _) := walked in
    Done (Some {| sim_profit := saturating_sub amount_out amount_in; sim_amount_out := amount_out;
                  sim_total_gas := finalize_route_total_gas edges walked_gas |}).

Definition simulate_route_minimal (arena : StateArena) (edges : list Edge) (amount_in : Z)
  : outcome (option MinimalSimResult) :=
  simulate_route_minimal_with_caps arena edges amount_in None.

(** [RouteSimulationResult] of [src/src/core/types.rs]. *)
Record RouteSimulationResult := {
  rs_amount_in : Z;
  rs_amount_out : Z;
  rs_profit : Z;
  rs_profitable : bool;
  rs_hop_amounts : list Z;
  rs_total_gas : Z;
  rs_hop_count : Z;
}.

Definition simulate_route_detailed_with_caps (arena : StateArena) (edges : list Edge)
    (amount_in : Z) (precomputed : option (list Z)) : outcome (option RouteSimulationResult) :=
  let hop_count := length edges in
  if negb (route_edges_simulatable arena edges) then Done None
  else if is_zero amount_in then
    Done (Some {| rs_amount_in := 0; rs_amount_out := 0; rs_profit := 0; rs_profitable := false;
                  rs_hop_amounts := hop_amounts_zeroed hop_count;
                  rs_total_gas := finalize_route_total_gas edges 0;
                  rs_hop_count := wrap_u 32 (Z.of_nat hop_count) |})
  else
    let!? walked := walk_route_hops arena edges amount_in
                      (Some (hop_amounts_zeroed hop_count)) precomputed or None in
    let '(amount_out, walked_gas, amounts) := walked in
    let profit := saturating_sub amount_out amount_in in
    Done (Some {| rs_amount_in := amount_in; rs_amount_out := amount_out; rs_profit := profit;
                  rs_profitable := 0 <? profit;
                  rs_hop_amounts := default [] amounts;
                  rs_total_gas := finalize_route_total_gas edges walked_gas;
                  rs_hop_count := wrap_u 32 (Z.of_nat hop_count) |}).

Definition simulate_route_detailed (arena : StateArena) (edges : list Edge) (amount_in : Z)
  : outcome (option RouteSimulationResult) :=
  simulate_route_detailed_with_caps arena edges amount_in None.

(** ** Why a route cannot be simulated *)

Inductive MinimalSimFailure :=
| InvalidRoute
| MissingPool (hop : nat)
| NonTradable (hop : nat)
| ClTickless (hop : nat)
| ClCapExceeded (hop : nat)
| FClSynthetic (hop : nat)
| ShallowCl (hop : nat)
| V2ReserveExhausted (hop : nat)
| TokenMismatch (hop : nat)
| FMath (hop : nat)
| UnsupportedState (hop : nat) (expected : ProtocolType) (actual : UnsupportedStateKind)
| BalancerMaxInRatio (hop : nat)
| ZeroOutput (hop : nat) (protocol : ProtocolType).

Definition state_is_cl (state : PoolState) : bool :=
  match state with PV3 _ | PV4 _ => true | _ => false end.

(** The classification before the hop is quoted. *)
Definition classify_hop (state : PoolState) (edge : Edge) (hop : nat) (current cap : Z)
  : option MinimalSimFailure :=
  if match state, protocol edge with
     | PV2 s, UniswapV2 => v2_reserve_in s (zero_for_one edge) <=? current | _, _ => false end
  then Some (V2ReserveExhausted hop)
  else if (state_is_cl state && is_cl (protocol edge) && cl_hop_tickless state
           && cl_hop_exceeds_shallow_cap current cap)%bool then Some (ClTickless hop)
  else if (state_is_cl state && is_cl (protocol edge) && negb (cl_hop_tickless state)
           && cl_hop_exceeds_shallow_cap current cap)%bool then Some (ClCapExceeded hop)
  else if protocol_matches_pool_state (protocol edge) state then None
  else Some (UnsupportedState hop (protocol edge) (pool_state_kind state)).

(** The classification of a refused quote. *)
Definition classify_reject (arena : StateArena) (state : PoolState) (edge : Edge) (hop : nat)
    (current : Z) (r : HopReject) : MinimalSimFailure :=
  match r with
  | ClCap => if cl_hop_tickless state then ClTickless hop else ClCapExceeded hop
  | ClSynthetic => FClSynthetic hop
  | ClShallow => ShallowCl hop
  | HopMath =>
      match state, protocol edge with
      | PBalancer s, BalancerV2 =>
          let bal := balancer_balance_in s (Z.to_nat (token_in_idx edge))
                       (token_address arena (token_in edge)) in
          if exceeds_balancer_max_in_ratio current bal then BalancerMaxInRatio hop
          else ZeroOutput hop BalancerV2
      | _, (Dodo | Woofi) => ZeroOutput hop (protocol edge)
      | _, _ => FMath hop
      end
  end.

Fixpoint failure_loop (arena : StateArena) (caps : list Z) (hop : nat) (edges : list Edge)
    (current : Z) : outcome (option MinimalSimFailure) :=
  match edges with
  | [] => Done None
  | edge :: edges =>
      let_some state := pool_state arena (pool_index edge) or Done (Some (MissingPool hop)) in
      if negb (is_tradable state) then Done (Some (NonTradable hop))
      else
      let_some edge := realigned arena state edge or Done (Some (TokenMismatch hop)) in
      let_some cap := caps !! hop or Panic in
      match classify_hop state edge hop current cap with
      | Some fail => Done (Some fail)
      | None =>
          let! r := simulate_hop state edge current cap in
          match r with
          | inl reject => Done (Some (classify_reject arena state edge hop current reject))
          | inr result =>
              if is_zero (hr_amount_out result)
              then Done (Some (ZeroOutput hop (protocol edge)))
              else failure_loop arena caps (S hop) edges (hr_amount_out result)
          end
      end
  end.

Definition minimal_sim_failure (arena : StateArena) (edges : list Edge) (amount_in : Z)
  : outcome (option MinimalSimFailure) :=
  if negb (route_edges_simulatable arena edges) then Done (Some InvalidRoute)
  else if is_zero amount_in then Done None
  else
    let! caps := (if route_has_cl_hop edges then route_shallow_caps arena edges else Done no_caps) in
    failure_loop arena caps 0 edges amount_in.

Definition micro_probe_liquidity_dead (arena : StateArena) (edges : list Edge) (micro_probe : Z)
  : outcome (option MinimalSimFailure) :=
  let! f := minimal_sim_failure arena edges micro_probe in
  Done (match f with
        | Some (ZeroOutput _ _ | BalancerMaxInRatio _ | V2ReserveExhausted _ | TokenMismatch _) => f
        | _ => None
        end).

Definition economic_floor_liquidity_dead (arena : StateArena) (edges : list Edge)
    (economic_floor : Z) : outcome (option MinimalSimFailure) :=
  if is_zero economic_floor then Done None
  else
    let! f := minimal_sim_failure arena edges economic_floor in
    Done (match f with
          | Some (ZeroOutput _ _ | BalancerMaxInRatio _ | V2ReserveExhausted _) => f
          | _ => None
          end).

(** The first V2 hop with a dust reserve on either side. *)
Fixpoint v2_dust_from (arena : StateArena) (hop : nat) (edges : list Edge) : option nat :=
  match edges with
  | [] => None
  | edge :: edges =>
      match protocol edge, pool_state arena (pool_index edge) with
      | UniswapV2, Some (PV2 state) =>
          if ((v2_reserve0 state <? V2_MIN_RESERVE) || (v2_reserve1 state <? V2_MIN_RESERVE))%bool
          then Some hop else v2_dust_from arena (S hop) edges
      | _, _ => v2_dust_from arena (S hop) edges
      end
  end.

Definition v2_any_hop_dust_reserves (arena : StateArena) (edges : list Edge) : option nat :=
  v2_dust_from arena 0 edges.

Definition first_v2_hop_below_reserve (arena : StateArena) (edges : list Edge) (min_amount : Z)
  : option nat :=
  if is_zero min_amount then None
  else
    let? edge := head edges in
    match protocol edge, pool_state arena (pool_index edge) with
    | UniswapV2, Some (PV2 state) =>
        if v2_reserve_in state (zero_for_one edge) <=? min_amount then Some 0%nat else None
    | _, _ => None
    end.

Fixpoint cl_amount_cap (arena : StateArena) (edges : list Edge) : option Z :=
  match edges with
  | [] => None
  | edge :: edges =>
      if negb (is_cl (protocol edge)) then cl_amount_cap arena edges
      else
        let_some state := pool_state arena (pool_index edge) or Some 0 in
        if cl_hop_tickless state then Some 0 else cl_amount_cap arena edges
  end.

Definition tickless_cl_start_input_cap (arena : StateArena) (cycle_start : TokenIndex)
    (edges : list Edge) : option Z :=
  if bool_decide (cl_amount_cap arena edges = Some 0)
  then Some (spot_probe_for_token arena cycle_start) else None.

(** ** The caps: the scan computes what a per-hop formula says *)

Section caps.
Context (probe : TokenIndex → Z) (tickless : nat → Edge → bool) (edges : list Edge).

(** The cap of hop [i], by definition. *)
Definition hop_cap (i : nat) (e : Edge) : Z :=
  if (is_cl (protocol e) && tickless i e)%bool then probe (token_in e) else U256_MAX.

Definition caps_upto (i : nat) (caps : list Z) : Prop :=
  length caps = HOP_CAP_USIZE ∧
  (∀ j e, (j < i)%nat → edges !! j = Some e → caps !! j = Some (hop_cap j e)) ∧
  (∀ j, (i ≤ j < HOP_CAP_USIZE)%nat → caps !! j = Some U256_MAX).

Lemma reused_cap_sound i caps token js c :
  caps_upto i caps → Forall (λ j, (j < i)%nat) js →
  reused_cap edges caps token js = Some c → c = probe token.
Proof using Type.
  intros (_ & Hinv & _). induction 1 as [|j js Hj Hjs IH]; [done|]. cbn [reused_cap].
  destruct (edges !! j) as [e|] eqn:Ee; [|exact IH]. destruct (caps !! j) as [c'|] eqn:Ec; [|exact IH].
  destruct (_ && _)%bool eqn:Et; [|exact IH]. intros [= <-]. zbool. specialize (Hinv j e Hj Ee).
  rewrite Ec in Hinv. unfold hop_cap in Hinv. injection Hinv as Hc. subst token.
  destruct (_ && _)%bool; [done|lia].
Qed.

Lemma caps_upto_skip i caps e :
  caps_upto i caps → edges !! i = Some e → (i < HOP_CAP_USIZE)%nat → hop_cap i e = U256_MAX →
  caps_upto (S i) caps.
Proof using Type.
  intros (H1 & H2 & H3) He Hi Hc. split_and!; [done| |intros j Hj; apply H3; lia].
  intros j e' Hj Ej. destruct (decide (j = i)) as [->|]; [|apply H2; [lia|done]].
  rewrite He in Ej. injection Ej as <-. rewrite Hc. apply H3. lia.
Qed.

Lemma caps_upto_set i caps e :
  caps_upto i caps → edges !! i = Some e → (i < HOP_CAP_USIZE)%nat →
  caps_upto (S i) (<[i := hop_cap i e]> caps).
Proof using Type.
  intros (H1 & H2 & H3) He Hi. split_and!.
  - by rewrite length_insert.
  - intros j e' Hj Ej. destruct (decide (j = i)) as [->|].
    + rewrite He in Ej. injection Ej as <-. rewrite list_lookup_insert_eq by lia. done.
    + rewrite list_lookup_insert_ne by done. apply H2; [lia|done].
  - intros j Hj. rewrite list_lookup_insert_ne by lia. apply H3. lia.
Qed.

Lemma shallow_caps_loop_spec rest i caps :
  drop i edges = rest → (i ≤ length edges ≤ HOP_CAP_USIZE)%nat → caps_upto i caps →
  ∃ caps', shallow_caps_loop probe tickless edges rest i caps = Done caps' ∧
    caps_upto (length edges) caps'.
Proof using Type.
  revert i caps. induction rest as [|e rest IH]; intros i caps Hd Hlen Hinv.
  { exists caps. split; [done|]. apply (f_equal length) in Hd. rewrite length_drop in Hd. cbn in Hd.
    by replace (length edges) with i by lia. }
  assert (edges !! i = Some e) as He by (by rewrite <- (Nat.add_0_r i), <- lookup_drop, Hd).
  assert (i < length edges)%nat by (by apply lookup_lt_Some in He).
  assert (drop (S i) edges = rest) as Hd' by (rewrite <- Nat.add_1_r, <- drop_drop, Hd; done).
  cbn [shallow_caps_loop]. unfold hop_cap in *.
  destruct (negb (is_cl (protocol e)) || negb (tickless i e))%bool eqn:Et.
  - apply IH; [done|lia|]. apply caps_upto_skip with e; [done..|lia|]. unfold hop_cap.
    by destruct (is_cl (protocol e)), (tickless i e).
  - destruct Hinv as (Hl & Hinv'). destruct (Nat.leb_spec (length caps) i); [lia|].
    apply IH; [done|lia|].
    apply orb_false_iff in Et as [Ecl%negb_false_iff Etl%negb_false_iff].
    replace (default _ _) with (hop_cap i e); [apply caps_upto_set; (done || lia)|].
    unfold hop_cap. rewrite Ecl, Etl. cbn [andb].
    destruct (reused_cap edges caps (token_in e) (seq 0 i)) as [c|] eqn:Er; [|done]. cbn.
    symmetry. eapply (reused_cap_sound i caps); [by split| |exact Er].
    apply Forall_forall. intros j Hj%elem_of_seq. lia.
Qed.

Lemma route_shallow_caps_with_spec :
  (length edges ≤ HOP_CAP_USIZE)%nat →
  ∃ caps, route_shallow_caps_with edges probe tickless = Done caps ∧ length caps = HOP_CAP_USIZE ∧
    ∀ i e, edges !! i = Some e → caps !! i = Some (hop_cap i e).
Proof using Type.
  intros Hlen. destruct (shallow_caps_loop_spec edges 0 no_caps) as (caps & Hc & H1 & H2 & _).
  - done.
  - lia.
  - split_and!; [done|intros j ? Hj; lia|]. intros j Hj. apply lookup_replicate_2. lia.
  - exists caps. split_and!; [done|done|]. intros i e He. apply H2; [|done]. by apply lookup_lt_Some in He.
Qed.

End caps.

(** A concentrated-liquidity hop whose ticks are unknown. *)
Definition edge_tickless (arena : StateArena) (e : Edge) : bool :=
  match pool_state arena (pool_index e) with
  | Some (PV3 s | PV4 s) => ticks_empty s
  | _ => true
  end.

Definition edge_cap (arena : StateArena) (e : Edge) : Z :=
  if (is_cl (protocol e) && edge_tickless arena e)%bool
  then spot_probe_for_token arena (token_in e) else U256_MAX.

Lemma effective_caps_spec arena edges :
  (length edges ≤ HOP_CAP_USIZE)%nat →
  ∃ caps, effective_caps arena edges None = Done caps ∧ length caps = HOP_CAP_USIZE ∧
    ∀ i e, edges !! i = Some e → caps !! i = Some (edge_cap arena e).
Proof.
  intros Hlen. unfold effective_caps. destruct (route_has_cl_hop edges) eqn:Ecl.
  - exact (route_shallow_caps_with_spec _ _ edges Hlen).
  - exists no_caps. split_and!; [done..|]. intros i e He. unfold edge_cap.
    assert (is_cl (protocol e) = false) as ->.
    { apply not_true_is_false. intros Hcl. apply not_true_iff_false in Ecl. apply Ecl.
      apply existsb_exists. exists e. split; [|done]. apply list_elem_of_In. by eapply list_elem_of_lookup_2. }
    apply lookup_replicate_2. apply lookup_lt_Some in He. unfold HOP_CAP_USIZE in *. lia.
Qed.

(** Building the caps of a route that fits the hop cap never panics, and the
    scan that reuses earlier probes gives each hop what a fresh computation would:
    the spot probe of its input token for a concentrated-liquidity hop without
    ticks (or without a matching state), no cap for every other hop. *)
Theorem route_shallow_caps_exact (arena : StateArena) (edges : list Edge) :
  (length edges ≤ HOP_CAP_USIZE)%nat →
  ∃ caps, route_shallow_caps arena edges = Done caps ∧ length caps = HOP_CAP_USIZE ∧
    ∀ i e, edges !! i = Some e →
      caps !! i = Some (if (is_cl (protocol e) && edge_tickless arena e)%bool
                        then spot_probe_for_decimals (token_decimals arena (token_in e))
                        else U256_MAX).
Proof. apply route_shallow_caps_with_spec. Qed.

(** ** The walk as a run of hops *)

Lemma dead_hop_false a out : dead_hop a out = false ↔ (a ≠ 0 → out ≠ 0).
Proof.
  unfold dead_hop, is_zero. destruct (Z.eqb_spec a 0), (Z.eqb_spec out 0); cbn; split; try done; intros H; by destruct H.
Qed.

(** [hops_run caps i edges a hs]: from amount [a], the hops [edges] (numbered from
    [i]) can all be quoted, with results [hs]; every pool is known and tradable,
    every multi-token edge can be aligned, every quote feeds the next hop. *)
Section walk.
Context (arena : StateArena) (caps : list Z).

Inductive hops_run : nat → list Edge → Z → list HopResult → Prop :=
| run_nil i a : hops_run i [] a []
| run_cons i e es a state e' cap h hs :
    pool_state arena (pool_index e) = Some state → is_tradable state = true →
    realigned arena state e = Some e' → caps !! i = Some cap →
    simulate_hop state e' a cap = Done (inr h) → (a ≠ 0 → hr_amount_out h ≠ 0) →
    hops_run (S i) es (hr_amount_out h) hs →
    hops_run i (e :: es) a (h :: hs).

Definition run_out (a : Z) (hs : list HopResult) : Z := foldl (λ _ h, hr_amount_out h) a hs.
Definition run_gas (g : Z) (hs : list HopResult) : Z :=
  foldl (λ g h, wrap_u 32 (g + hr_gas h)) g hs.

Fixpoint write_amounts (amounts : option (list Z)) (k : nat) (hs : list HopResult)
  : option (option (list Z)) :=
  match hs with
  | [] => Some amounts
  | h :: hs => let? amounts := write_amount amounts k (hr_amount_out h) in write_amounts amounts (S k) hs
  end.

Lemma walk_loop_run i edges a g amounts r :
  walk_loop arena caps i edges a g amounts = Done (Some r) ↔
  ∃ hs am, hops_run i edges a hs ∧ write_amounts amounts (S i) hs = Some am ∧
    r = (run_out a hs, run_gas g hs, am).
Proof using Type.
  revert i a g amounts. induction edges as [|e edges IH]; intros i a g amounts; cbn [walk_loop].
  { split.
    - intros [= <-]. exists [], amounts. split_and!; [constructor|done|done].
    - intros (hs & am & Hr & Hw & ->). inversion Hr. subst. by injection Hw as <-. }
  split.
  - destruct (pool_state arena (pool_index e)) as [st|] eqn:Es; [|done].
    destruct (is_tradable st) eqn:Et; cbn [negb]; [|done].
    destruct (realigned arena st e) as [e'|] eqn:Er; [|done].
    destruct (caps !! i) as [cap|] eqn:Ec; [|done].
    destruct (simulate_hop st e' a cap) as [[rej|h]|] eqn:Eh; cbn [obind]; [done| |done].
    destruct (dead_hop a (hr_amount_out h)) eqn:Ez; [done|].
    destruct (write_amount amounts (S i) (hr_amount_out h)) as [am|] eqn:Ew; [|done].
    intros (hs & am' & Hr & Hw & ->)%IH. exists (h :: hs), am'. split_and!; [|cbn; by rewrite Ew|done].
    econstructor; [done..| |done]. by apply dead_hop_false.
  - intros (hs & am & Hr & Hw & ->). inversion Hr as [|? ? ? ? st e' cap h hs' Es Et Er Ec Eh Ez Hrun]. subst.
    rewrite Es, Et, Er, Ec, Eh. cbn [negb obind].
    rewrite (proj2 (dead_hop_false a (hr_amount_out h))) by done.
    cbn [write_amounts] in Hw. destruct (write_amount amounts (S i) (hr_amount_out h)) as [am'|]; [|done].
    apply IH. eauto.
Qed.

Lemma write_amounts_none k hs : write_amounts None k hs = Some None.
Proof using Type. revert k. induction hs as [|h hs IH]; intros k; [done|apply IH]. Qed.

(** Writing a run's outputs fills the zeroed buffer. *)
Lemma write_amounts_fill pre hs :
  write_amounts (Some (pre ++ replicate (length hs) 0)) (length pre) hs =
  Some (Some (pre ++ (hr_amount_out <$> hs))).
Proof using Type.
  revert pre. induction hs as [|h hs IH]; intros pre; cbn [length replicate write_amounts]; [done|].
  unfold write_amount at 1. rewrite length_app. cbn [length].
  destruct (Nat.ltb_spec (length pre) (length pre + S (length (replicate (length hs) 0)))); [|lia].
  rewrite <- (Nat.add_0_r (length pre)) at 1. rewrite insert_app_r. cbn [insert list_insert].
  replace (S (length pre)) with (length (pre ++ [hr_amount_out h])) by (rewrite length_app; cbn; lia).
  rewrite cons_middle, app_assoc, IH, fmap_cons. by rewrite <- app_assoc.
Qed.

Lemma hops_run_length i edges a hs : hops_run i edges a hs → length hs = length edges.
Proof using Type. induction 1; cbn; congruence. Qed.

Lemma hops_run_nonzero i edges a hs :
  hops_run i edges a hs → a ≠ 0 → Forall (λ h, hr_amount_out h ≠ 0) hs.
Proof using Type. induction 1; constructor; auto. Qed.

Lemma hops_run_tradable i edges a hs :
  hops_run i edges a hs →
  Forall (λ e, ∃ state, pool_state arena (pool_index e) = Some state ∧ is_tradable state = true) edges.
Proof using Type. induction 1; constructor; eauto. Qed.

(** Dropping the buffer does not change the walk. *)
Definition forget (r : outcome (option (Z * Z * option (list Z)))) : outcome (option (Z * Z)) :=
  match r with
  | Done (Some (c, g, _)) => Done (Some (c, g))
  | Done None => Done None
  | Panic => Panic
  end.

Lemma walk_loop_forget i edges a g l :
  (S i + length edges ≤ length l)%nat →
  forget (walk_loop arena caps i edges a g (Some l)) = forget (walk_loop arena caps i edges a g None).
Proof using Type.
  revert i a g l. induction edges as [|e edges IH]; intros i a g l Hl; [done|]. cbn [walk_loop length] in *.
  destruct (pool_state arena (pool_index e)) as [st|]; [|done]. destruct (negb _); [done|].
  destruct (realigned arena st e) as [e'|]; [|done]. destruct (caps !! i) as [cap|]; [|done].
  destruct (simulate_hop st e' a cap) as [[rej|h]|]; cbn [obind]; [done| |done].
  destruct (dead_hop _ _); [done|]. unfold write_amount at 1 2.
  destruct (Nat.ltb_spec (S i) (length l)); [|lia]. apply IH. rewrite length_insert. lia.
Qed.

End walk.

Lemma hop_amounts_zeroed_cons n : hop_amounts_zeroed n = 0 :: replicate n 0.
Proof. unfold hop_amounts_zeroed. by rewrite Nat.add_1_r. Qed.

Lemma walk_route_hops_forget arena edges a pre :
  forget (walk_route_hops arena edges a (Some (hop_amounts_zeroed (length edges))) pre) =
  forget (walk_route_hops arena edges a None pre).
Proof.
  unfold walk_route_hops. destruct (_ <? _)%nat; [done|].
  destruct (effective_caps arena edges pre) as [caps|]; [|done]. cbn [obind write_amount].
  rewrite hop_amounts_zeroed_cons. cbn [length]. apply walk_loop_forget.
  cbn. rewrite length_replicate. lia.
Qed.

(** The ranking view of a detailed result. *)
Definition minimal_of (r : RouteSimulationResult) : MinimalSimResult :=
  {| sim_profit := rs_profit r; sim_amount_out := rs_amount_out r; sim_total_gas := rs_total_gas r |}.

(** The minimal simulation used for ranking and the detailed one used for
    execution agree on every route, amount and set of caps: they fail together,
    panic together, and give the same profit, output and gas. *)
Theorem simulate_route_minimal_agrees (arena : StateArena) (edges : list Edge) (a : Z)
    (pre : option (list Z)) :
  simulate_route_minimal_with_caps arena edges a pre =
  match simulate_route_detailed_with_caps arena edges a pre with
  | Done (Some r) => Done (Some (minimal_of r))
  | Done None => Done None
  | Panic => Panic
  end.
Proof.
  unfold simulate_route_minimal_with_caps, simulate_route_detailed_with_caps.
  destruct (negb _); [done|]. destruct (is_zero a); [done|].
  pose proof (walk_route_hops_forget arena edges a pre) as H.
  destruct (walk_route_hops arena edges a (Some _) pre) as [[[[c g] am]|]|],
    (walk_route_hops arena edges a None pre) as [[[[c' g'] am']|]|]; try done.
  injection H as -> ->. done.
Qed.

(** The detailed result of a run. *)
Definition run_result (edges : list Edge) (a : Z) (hs : list HopResult) : RouteSimulationResult :=
  {| rs_amount_in := a; rs_amount_out := run_out a hs;
     rs_profit := Z.max 0 (run_out a hs - a); rs_profitable := 0 <? Z.max 0 (run_out a hs - a);
     rs_hop_amounts := a :: (hr_amount_out <$> hs);
     rs_total_gas := finalize_route_total_gas edges (run_gas 0 hs);
     rs_hop_count := wrap_u 32 (Z.of_nat (length edges)) |}.

Lemma simulate_route_detailed_run arena edges a pre caps r :
  route_edges_simulatable arena edges = true → a ≠ 0 → effective_caps arena edges pre = Done caps →
  simulate_route_detailed_with_caps arena edges a pre = Done (Some r) ↔
  ∃ hs, hops_run arena caps 0 edges a hs ∧ r = run_result edges a hs.
Proof.
  intros Hs Ha Hc. unfold simulate_route_detailed_with_caps. rewrite Hs. cbn [negb].
  assert (is_zero a = false) as -> by (by apply Z.eqb_neq).
  unfold route_edges_simulatable in Hs. apply andb_true_iff in Hs as [[_ Hl]%andb_true_iff _].
  unfold walk_route_hops. rewrite Hc, hop_amounts_zeroed_cons. cbn [obind write_amount length].
  nbool. destruct (Nat.ltb_spec HOP_CAP_USIZE (length edges)); [lia|].
  change (<[0%nat:=a]> (0 :: replicate (length edges) 0)) with ([a] ++ replicate (length edges) 0).
  cbn [Nat.ltb Nat.leb]. split.
  - destruct (walk_loop _ _ _ _ _ _ _) as [[[[c g] am]|]|] eqn:Ew; [|done..].
    apply walk_loop_run in Ew as (hs & am' & Hr & Hw & [= -> -> ->]).
    rewrite <- (hops_run_length _ _ _ _ _ _ Hr) in Hw. change 1%nat with (length [a]) in Hw at 1.
    rewrite write_amounts_fill in Hw. injection Hw as <-. intros [= <-]. by exists hs.
  - intros (hs & Hr & ->).
    assert (walk_loop arena caps 0 edges a 0 (Some ([a] ++ replicate (length edges) 0)) =
      Done (Some (run_out a hs, run_gas 0 hs, Some ([a] ++ (hr_amount_out <$> hs))))) as ->; [|done].
    apply walk_loop_run. exists hs, (Some ([a] ++ (hr_amount_out <$> hs))). split_and!; [done| |done].
    rewrite <- (hops_run_length _ _ _ _ _ _ Hr). apply (write_amounts_fill [a]).
Qed.

(** ** Route properties *)

(** C32: On a connected route within the hop cap, the detailed simulation of a
    positive amount succeeds exactly when the hops run one after the other (each
    pool present and tradable, each multi-token edge aligned, each quote accepted
    under its cap, non-zero, and fed to the next hop), and its result is the one
    the run determines: the chain of hop amounts, the saturated profit and the
    finalized gas. *)
Theorem simulate_route_detailed_refines (arena : StateArena) (edges : list Edge) (a : Z) :
  route_edges_simulatable arena edges = true → a ≠ 0 →
  ∃ caps, (∀ i e, edges !! i = Some e → caps !! i = Some (edge_cap arena e)) ∧
    ∀ r, simulate_route_detailed arena edges a = Done (Some r) ↔
         ∃ hs, hops_run arena caps 0 edges a hs ∧ r = run_result edges a hs.
Proof.
  intros Hs Ha. pose proof Hs as Hs'. unfold route_edges_simulatable in Hs'.
  apply andb_true_iff in Hs' as [[_ Hl]%andb_true_iff _]. nbool.
  destruct (effective_caps_spec arena edges Hl) as (caps & Hc & _ & Hcaps).
  exists caps. split; [done|]. intros r. by apply simulate_route_detailed_run.
Qed.

Lemma first_break_none connect edges :
  first_break connect edges = None →
  ∀ i e0 e1, edges !! i = Some e0 → edges !! S i = Some e1 → connect e0 e1 = true.
Proof.
  induction edges as [|e [|e' edges] IH]; [done..|]. cbn [first_break].
  destruct (connect e e') eqn:Ec; cbn [negb]; [|done]. intros Hr%fmap_None [|i] e0 e1 He0 He1.
  - by injection He0 as <-; injection He1 as <-.
  - by eapply (IH Hr i).
Qed.

Lemma run_out_last a hs : last (a :: (hr_amount_out <$> hs)) = Some (run_out a hs).
Proof.
  revert a. induction hs as [|h hs IH]; intros a; [done|]. rewrite fmap_cons, last_cons_cons. apply IH.
Qed.

(** A successful simulation of a positive amount is well formed: between one and
    eight connected hops through tradable pools; one amount more than hops, the
    first the input and the last the output, none of them zero; a profit that is
    the excess of the output over the input, and the profitable flag set exactly
    when there is one. *)
Theorem simulated_route_wellformed (arena : StateArena) (edges : list Edge) (a : Z)
    (r : RouteSimulationResult) :
  a ≠ 0 → simulate_route_detailed arena edges a = Done (Some r) →
  (1 ≤ length edges ≤ HOP_CAP_USIZE)%nat ∧
  length (rs_hop_amounts r) = S (length edges) ∧ head (rs_hop_amounts r) = Some a ∧
  last (rs_hop_amounts r) = Some (rs_amount_out r) ∧ Forall (λ x, x ≠ 0) (rs_hop_amounts r) ∧
  rs_profit r = Z.max 0 (rs_amount_out r - a) ∧ (rs_profitable r = true ↔ a < rs_amount_out r) ∧
  Forall (λ e, ∃ st, pool_state arena (pool_index e) = Some st ∧ is_tradable st = true) edges ∧
  (∀ i e0 e1, edges !! i = Some e0 → edges !! S i = Some e1 → hops_connect arena e0 e1 = true).
Proof.
  intros Ha Hr. destruct (route_edges_simulatable arena edges) eqn:Hs;
    [|unfold simulate_route_detailed, simulate_route_detailed_with_caps in Hr; by rewrite Hs in Hr].
  pose proof Hs as Hs'. unfold route_edges_simulatable in Hs'.
  apply andb_true_iff in Hs' as [[Hne Hl]%andb_true_iff Hb%bool_decide_eq_true]. nbool.
  destruct (effective_caps_spec arena edges Hl) as (caps & Hc & _ & _).
  apply (simulate_route_detailed_run _ _ _ _ _ _ Hs Ha Hc) in Hr as (hs & Hrun & ->). cbn.
  pose proof (hops_run_length _ _ _ _ _ _ Hrun). rewrite length_fmap, run_out_last.
  split_and!; [destruct edges; cbn; [done|lia]|done|congruence|done|done| |done|rewrite Z.ltb_lt; lia
              |by eapply hops_run_tradable|by apply first_break_none].
  constructor; [done|]. apply Forall_fmap. by eapply hops_run_nonzero.
Qed.

(** ** Failure classification *)

Lemma classify_refused state edge hop cur cap f :
  cur ≠ 0 → classify_hop state edge hop cur cap = Some f →
  ∃ rej, simulate_hop state edge cur cap = Done (inl rej).
Proof.
  intros Hc. unfold classify_hop, simulate_hop. rewrite (proj2 (Z.eqb_neq cur 0) Hc : is_zero cur = false).
  destruct state, (protocol edge); cbn; repeat case_goal; intros; simplify_eq; eauto;
    zbool; congruence.
Qed.

Lemma failure_loop_walk arena caps hop edges cur g :
  cur ≠ 0 →
  match walk_loop arena caps hop edges cur g None with
  | Panic => failure_loop arena caps hop edges cur = Panic
  | Done None => ∃ f, failure_loop arena caps hop edges cur = Done (Some f)
  | Done (Some _) => failure_loop arena caps hop edges cur = Done None
  end.
Proof.
  revert hop cur g. induction edges as [|e edges IH]; intros hop cur g Hc; cbn [walk_loop failure_loop]; [done|].
  destruct (pool_state arena (pool_index e)) as [st|]; [|eauto]. destruct (negb _); [eauto|].
  destruct (realigned arena st e) as [e'|]; [|eauto]. destruct (caps !! hop) as [cap|]; [|done].
  destruct (classify_hop st e' hop cur cap) as [f|] eqn:Ef.
  { apply classify_refused in Ef as [rej ->]; [|done]. cbn. eauto. }
  destruct (simulate_hop st e' cur cap) as [[rej|h]|]; cbn [obind]; [eauto| |done].
  unfold dead_hop, is_zero. destruct (Z.eqb_spec cur 0); [done|]. cbn [negb andb].
  destruct (Z.eqb_spec (hr_amount_out h) 0); [eauto|]. cbn [write_amount]. by apply IH.
Qed.

(** The failure classifier and the simulation agree on every route and amount:
    a reason is reported exactly when the route cannot be simulated, and one
    panics when the other does. *)
Theorem minimal_sim_failure_iff (arena : StateArena) (edges : list Edge) (a : Z) :
  match simulate_route_minimal arena edges a with
  | Panic => minimal_sim_failure arena edges a = Panic
  | Done None => ∃ f, minimal_sim_failure arena edges a = Done (Some f)
  | Done (Some _) => minimal_sim_failure arena edges a = Done None
  end.
Proof.
  unfold simulate_route_minimal, simulate_route_minimal_with_caps, minimal_sim_failure.
  destruct (route_edges_simulatable arena edges) eqn:Hs; cbn [negb]; [|eauto].
  unfold is_zero. destruct (Z.eqb_spec a 0) as [|Ha]; [done|].
  unfold route_edges_simulatable in Hs. apply andb_true_iff in Hs as [[_ Hl]%andb_true_iff _]. nbool.
  unfold walk_route_hops. destruct (Nat.ltb_spec HOP_CAP_USIZE (length edges)); [lia|].
  change (if route_has_cl_hop edges then route_shallow_caps arena edges else Done no_caps)
    with (effective_caps arena edges None).
  destruct (effective_caps arena edges None) as [caps|]; cbn [obind write_amount]; [|done].
  pose proof (failure_loop_walk arena caps 0 edges a 0 Ha).
  by destruct (walk_loop _ _ _ _ _ _ _) as [[[[c g] am]|]|].
Qed.

(** ** Execution quotes *)

Definition cl_execution_quote (s : V3PoolState) (edge : Edge) (a : Z) : outcome (option Z) :=
  let! r := simulate_v3_swap s a (zero_for_one edge) (Some (fee_bps edge))
              (bool_decide (protocol edge = UniswapV4)) in
  Done (if (vr_shallow r || vr_synthetic r || is_zero (vr_amount_out r))%bool then None
        else Some (vr_amount_out r)).

Definition ranking_quote (r : outcome (HopReject + HopResult)) : outcome (option Z) :=
  let! r := r in Done (match r with inr h => Some (hr_amount_out h) | inl _ => None end).

(** A quote without ticks is shallow, or rejected with nothing out. *)
Lemma tickless_quote s a zfo bps az r :
  ticks_empty s = true → simulate_v3_swap s a zfo bps az = Done r →
  vr_shallow r = true ∨ vr_amount_out r = 0.
Proof.
  intros Ht. unfold simulate_v3_swap. destruct (v3_effective_fee_pips _ _ _ _) as [fee|]; [|done].
  cbn [obind]. destruct (v3_swap_rejected _ _ _); intros [= <-]; cbn; [by right|left].
  unfold ticks_empty in Ht. by destruct (cl_ticks s).
Qed.

Lemma cl_execution_quote_iff s edge a q :
  cl_execution_quote s edge a = Done (Some q) ↔
  q ≠ 0 ∧ ranking_quote (simulate_cl_hop s edge a U256_MAX) = Done (Some q) ∧ ticks_empty s = false.
Proof.
  unfold cl_execution_quote, simulate_cl_hop, ranking_quote.
  assert (cl_hop_exceeds_shallow_cap a U256_MAX = false) as ->
    by (unfold cl_hop_exceeds_shallow_cap; by rewrite Z.ltb_irrefl).
  destruct (simulate_v3_swap _ _ _ _ _) as [r|] eqn:Er; cbn [obind]; [|split; [done|by intros (_ & ? & _)]].
  unfold is_zero. rewrite orb_false_r.
  destruct (ticks_empty s) eqn:Et.
  - split; [|naive_solver]. destruct (tickless_quote _ _ _ _ _ _ Et Er) as [E|E]; rewrite E; [done|].
    by destruct (vr_shallow r), (vr_synthetic r).
  - destruct (vr_shallow r), (vr_synthetic r); cbn; try naive_solver.
    destruct (Z.eqb_spec (vr_amount_out r) 0); naive_solver.
Qed.

(** An execution quote is a ranking quote that is not zero and, for a
    concentrated-liquidity hop, comes from known ticks: encoding never uses the
    tickless estimates that ranking accepts, and refuses nothing else. *)
Theorem execution_quote_iff (state : PoolState) (edge : Edge) (a q : Z) :
  simulate_hop_amount_out_for_execution state edge a = Done (Some q) ↔
  a ≠ 0 ∧ q ≠ 0 ∧ simulate_hop_amount_out state edge a = Done (Some q) ∧
  (is_cl (protocol edge) = true → cl_hop_tickless state = false).
Proof.
  destruct (Z.eqb_spec a 0) as [->|Ha]; [split; [done|naive_solver]|].
  assert (is_zero a = false) as Hz by (by apply Z.eqb_neq).
  assert (cl_hop_exceeds_shallow_cap a U256_MAX = false) as Hcap
    by (unfold cl_hop_exceeds_shallow_cap; by rewrite Z.ltb_irrefl).
  assert (∀ m : outcome (option Z),
    (let! q := m in Done (match q with Some out => if is_zero out then None else Some out | None => None end))
      = Done (Some q) ↔ q ≠ 0 ∧ m = Done (Some q)) as Hfilter.
  { intros [[out|]|]; cbn; [|naive_solver..]. unfold is_zero. destruct (Z.eqb_spec out 0); naive_solver. }
  assert (is_cl (protocol edge) = false ∨ is_cl (protocol edge) = true) as [Hcl|Hcl]
    by (destruct (is_cl (protocol edge)); auto).
  - unfold simulate_hop_amount_out_for_execution. rewrite Hz.
    transitivity (q ≠ 0 ∧ simulate_hop_amount_out state edge a = Done (Some q));
      [|split; [intros [? ?]; split_and!; (assumption || congruence)|by intros (_ & ? & ? & _)]].
    clear Hz Hcap. destruct state, (protocol edge); try discriminate Hcl; apply Hfilter.
  - assert (∀ s, cl_execution_quote s edge a = Done (Some q) ↔
      a ≠ 0 ∧ q ≠ 0 ∧ ranking_quote (simulate_cl_hop s edge a U256_MAX) = Done (Some q) ∧
      (is_cl (protocol edge) = true → ticks_empty s = false)) as Hs
      by (intros s; rewrite cl_execution_quote_iff; naive_solver).
    unfold simulate_hop_amount_out_for_execution, simulate_hop_amount_out,
      simulate_hop_amount_out_with_cap, simulate_hop.
    rewrite Hz, Hcap, andb_false_r.
    unfold cl_execution_quote, ranking_quote in Hs.
    destruct state, (protocol edge) eqn:Ep; try discriminate Hcl; cbn [cl_hop_tickless obind];
      first [rewrite <- Ep; rewrite <- Ep in Hs; exact (Hs _)
            |split; [discriminate|intros (_ & _ & [=] & _)]].
Qed.

(** ** What a hop can pay *)

(** The ranges of a decoded state.  The unsigned fields are unsigned words; beyond that, the
    fee denominator of a V2 pool is below [2^64] (the program only ever stores 1,000 and
    10,000), and the reserves of a DODO pool cover its targets on the sides that the R
    state says are not depleted, as the contract keeps them; neither is checked when a
    state is decoded.  A Balancer pool has fewer than [2^32] tokens. *)
Definition state_wf (state : PoolState) : Prop :=
  match state with
  | PV2 s =>
      u256 (v2_reserve0 s) ∧ u256 (v2_reserve1 s) ∧ 0 ≤ v2_fee s ∧
      0 ≤ v2_fee_denominator s < 2 ^ 64
  | PCurve s =>
      Forall (λ b, 0 ≤ b) (cv_balances s) ∧ Forall (λ r, 0 ≤ r) (cv_rates s) ∧
      (∀ d, cv_d s = Some d → 0 ≤ d)
  | PBalancer s => Z.of_nat (length (bl_balances s)) < 2 ^ 32
  | PDodo s => dodo_wf s ∧ dodo_consistent s
  | PWoofi _ | PInvalid | PV3 _ | PV4 _ => True
  end.

(** The balance that pays a hop's output; concentrated liquidity has no such field. *)
Definition paying_reserve (state : PoolState) (edge : Edge) : option Z :=
  let o := Z.to_nat (token_out_idx edge) in
  match state with
  | PV2 s => Some (if zero_for_one edge then v2_reserve1 s else v2_reserve0 s)
  | PCurve s => Some (nth o (cv_balances s) 0)
  | PBalancer s => Some (at_ (bl_balances s) o)
  | PDodo s => Some (if token_in_idx edge =? 0 then dd_quote_reserve s else dd_base_reserve s)
  | PWoofi s =>
      if (length (wf_base_states s) <=? o)%nat then Some (wf_quote_reserve s)
      else wb_reserve <$> (wf_base_states s !! o)
  | PInvalid | PV3 _ | PV4 _ => None
  end.

Lemma nonzero_hop_inr out gas h : nonzero_hop out gas = inr h → hr_amount_out h = out ∧ out ≠ 0.
Proof. unfold nonzero_hop, is_zero. destruct (Z.eqb_spec out 0); [done|]. by intros [= <-]. Qed.

Lemma resolve_fee_range s b :
  0 ≤ v2_fee s → 0 ≤ v2_fee_denominator s < 2 ^ 64 →
  ∃ n d, resolve_v2_fee_with_edge s (Some b) = (n, d) ∧ 0 < n < d ∧ d < 2 ^ 64.
Proof.
  intros Hf Hd. unfold resolve_v2_fee_with_edge, is_zero.
  case_goal; [zbool; do 2 eexists; split; [done|lia]|].
  case_goal; zbool; do 2 eexists; (split; [done|]); [lia|]. by vm_compute.
Qed.

Lemma v2_hop_bound s a zfo b out :
  state_wf (PV2 s) → u256 a → 0 < a < v2_reserve_in s zfo →
  simulate_v2_swap s a zfo (Some b) = Done out →
  out ≤ if zfo then v2_reserve1 s else v2_reserve0 s.
Proof.
  intros (H0 & H1 & Hf & Hd) Ha Hin. unfold simulate_v2_swap.
  destruct (resolve_fee_range s b Hf Hd) as (n & d & -> & Hn & Hd').
  assert (∀ ri ro, u256 ri → u256 ro → 0 < ri → get_amount_out a ri ro n d = Done out → out ≤ ro) as Hq.
  { intros ri ro Hri Hro Hri0. destruct (Z.eq_dec ro 0) as [->|Hro0].
    - unfold get_amount_out, is_zero. cbn [Z.eqb]. rewrite orb_true_r. cbn [orb].
      intros [= <-]. lia.
    - assert (0 < ro) by (unfold u256 in *; lia). rewrite get_amount_out_eq by (done || lia).
      intros [= <-]. destruct (quote_keeps_k a ri ro n d) with (out := a * n * ro mod numerator_bound a ri ro / (ri * d + a * n));
        [lia..|by apply quote_le_exact; lia|lia]. }
  unfold v2_reserve_in in Hin. destruct zfo; intros Hout; eapply Hq; try exact Hout; (assumption || lia).
Qed.

(** C33: A hop of a V2, Curve, Balancer, DODO or WOOFi pool is never quoted at more than the
    balance that pays for it, whatever the amount, the fee of the edge, the indices, the
    amplification and the solver iterations, as long as the state is in the ranges of
    [state_wf].  Three of these are more than the types give and are not checked by the
    decoders: a V2 fee denominator below [2^64], fewer than [2^32] Balancer tokens, and DODO
    reserves that cover the targets on the sides the R state says are not depleted (a pool that
    violates this is over-quoted, [uncovered_dodo_overquoted]). *)
Theorem simulate_hop_within_reserve (state : PoolState) (edge : Edge) (a cap : Z) (h : HopResult) (b : Z) :
  state_wf state → u256 a → a ≠ 0 → simulate_hop state edge a cap = Done (inr h) →
  paying_reserve state edge = Some b → hr_amount_out h ≤ b.
Proof.
  intros Hwf Ha Ha0. unfold simulate_hop. rewrite (proj2 (Z.eqb_neq a 0) Ha0 : is_zero a = false).
  destruct (_ && _)%bool; [done|].
  destruct state as [|s|s|s|s|s|s|s]; try done; destruct (protocol edge) eqn:Ep; try done; cbn [paying_reserve].
  - destruct (Z.leb_spec (v2_reserve_in s (zero_for_one edge)) a); [done|].
    destruct (simulate_v2_swap _ _ _ _) as [out|] eqn:Eo; [|done]. intros [= <-] [= <-]. cbn.
    eapply v2_hop_bound; try done. unfold u256 in *. lia.
  - destruct Hwf as (? & ? & ?). unfold curve_hop_amount_out.
    destruct (try_curve_stable_amount_out s a _ _) as [[|out]|] eqn:Eo; cbn [obind]; [done| |done].
    destruct (is_zero out); [done|]. intros [= <-] [= <-]. cbn.
    apply try_curve_stable_amount_out_lt in Eo; [lia|done..].
  - destruct Hwf as (? & ? & ?). unfold curve_hop_amount_out.
    destruct (try_curve_crypto_amount_out s a _ _) as [[|out]|] eqn:Eo; cbn [obind]; [done| |done].
    destruct (is_zero out); [done|]. intros [= <-] [= <-]. cbn.
    by eapply try_curve_crypto_amount_out_le_balance.
  - edestruct (simulate_balancer_swap_safe s a) as (r & -> & Hr); [done|]. cbn [obind].
    intros [= Hh] [= <-]. apply nonzero_hop_inr in Hh as [-> ?]. destruct Hr; [done|done].
  - destruct Hwf as [Hw Hc]. intros [= Hh] [= <-]. apply nonzero_hop_inr in Hh as [-> ?].
    edestruct (get_dodo_amount_out_le_reserve s a (token_in_idx edge =? 0)) as [[? ?] ?];
      [done..|by destruct Ha|]. lia.
  - unfold simulate_woofi_hop.
    destruct (get_woofi_amount_out s a _ _ _ _) as [r|] eqn:Er; [|done]. cbn [obind].
    intros [= Hh]. apply nonzero_hop_inr in Hh as [-> Hne]. apply get_woofi_amount_out_covered in Er; [|done].
    destruct (_ <=? _)%nat; [by intros [= <-]|].
    destruct Er as (bs & Hb & Hle). cbn [get_base] in Hb. rewrite Hb. by intros [= <-].
Qed.

(** A DODO pool with a tenth of its target left, said to be in balance. *)
Definition uncovered_dodo : DodoPoolState :=
  {| dd_base_reserve := 100 * ONE; dd_quote_reserve := 1000 * 10 ^ 6; dd_base_token := 1;
     dd_quote_token := 2; dd_base_target := 1000 * ONE; dd_quote_target := 1000 * 10 ^ 6;
     dd_r_state := One; dd_i := 10 ^ 6; dd_k := 10 ^ 17; dd_lp_fee_rate := 10 ^ 15;
     dd_mt_fee_rate := 10 ^ 14 |}.

Lemma uncovered_dodo_overquoted :
  dodo_wf uncovered_dodo ∧ 4 * dd_base_reserve uncovered_dodo < get_dodo_amount_out uncovered_dodo (500 * 10 ^ 6) false.
Proof.
  split; [|vm_compute; reflexivity].
  unfold dodo_wf. split_and!; vm_compute; (discriminate || reflexivity || (split; (discriminate || reflexivity))).
Qed.

(** ** Witnesses *)

(** Out through pool 0 and back: token 0 to token 1 to token 0. *)
Definition demo_route : list Edge :=
  [demo_edge UniswapV2 0 0 1; set_zfo (set_legs (demo_edge UniswapV2 0 0 1) 1 0) false].

Lemma route_shallow_caps_exact_witness :
  ∃ caps, route_shallow_caps demo_arena demo_route = Done caps ∧ length caps = HOP_CAP_USIZE ∧
    ∀ i e, demo_route !! i = Some e →
      caps !! i = Some (if (is_cl (protocol e) && edge_tickless demo_arena e)%bool
                        then spot_probe_for_decimals (token_decimals demo_arena (token_in e))
                        else U256_MAX).
Proof. apply route_shallow_caps_exact. cbn. repeat constructor. Defined.

Lemma simulate_route_detailed_refines_witness :
  ∃ caps, (∀ i e, demo_route !! i = Some e → caps !! i = Some (edge_cap demo_arena e)) ∧
    ∀ r, simulate_route_detailed demo_arena demo_route (10 ^ 12) = Done (Some r) ↔
         ∃ hs, hops_run demo_arena caps 0 demo_route (10 ^ 12) hs ∧ r = run_result demo_route (10 ^ 12) hs.
Proof. apply simulate_route_detailed_refines; [vm_compute; reflexivity|discriminate]. Defined.

Definition demo_result : RouteSimulationResult :=
  match simulate_route_detailed demo_arena demo_route (10 ^ 12) with
  | Done (Some r) => r
  | _ => run_result [] 0 []
  end.

Lemma simulated_route_wellformed_witness :
  length (rs_hop_amounts demo_result) = 3%nat ∧
  last (rs_hop_amounts demo_result) = Some (rs_amount_out demo_result).
Proof.
  destruct (simulated_route_wellformed demo_arena demo_route (10 ^ 12) demo_result) as (_ & H1 & _ & H2 & _).
  - discriminate.
  - vm_compute. reflexivity.
  - split; [exact H1|exact H2].
Defined.

Lemma simulate_hop_within_reserve_witness :
  rs_amount_out demo_result ≤ 10 ^ 15.
Proof.
  apply (simulate_hop_within_reserve (demo_v2 (10 ^ 15) (10 ^ 15))
    (set_zfo (set_legs (demo_edge UniswapV2 0 0 1) 1 0) false) (nth 1 (rs_hop_amounts demo_result) 0)
    U256_MAX {| hr_amount_out := rs_amount_out demo_result; hr_gas := GAS_V2_HOP |}).
  - cbn. split_and!; eval_range.
  - eval_range.
  - eval_range.
  - vm_compute. reflexivity.
  - vm_compute. reflexivity.
Defined.
