(* ===== verification/RouteSimCache.v ===== *)
(** * The route simulation cache

    [src/src/pipeline/route_sim_cache.rs]: minimal simulations memoized by state
    revision, route and amount, in sixteen shards behind a mutex each.  A shard
    is a [gmap]; the order in which the hash map of the [rustc_hash] crate
    enumerates its keys (it chooses the victims of an eviction) is a parameter,
    of which only the documented fact is assumed that it lists every key once.
    Each method is one atomic step. *)
From stdpp Require Import gmap.
From S2P Require Import Prelude Word Types Profit.

Definition ROUTE_SIM_CACHE_CAPACITY : Z := 16384.
Definition ROUTE_SIM_CACHE_SHARDS : nat := 16.
Definition ROUTE_SIM_CACHE_SHARD_CAPACITY : nat :=
  Z.to_nat (ROUTE_SIM_CACHE_CAPACITY / Z.of_nat ROUTE_SIM_CACHE_SHARDS).
Definition ROUTE_SIM_LOG_INTERVAL : Z := 10000.

(** [route_state_revision], [route_edges], [amount]. *)
Definition RouteSimKey : Type := Z * CycleEdges * Z.
Definition key_revision (k : RouteSimKey) : Z := k.1.1.

Record RouteSimCacheStats := { st_hits : Z; st_misses : Z; st_inserts : Z; st_evictions : Z }.

Definition hit_rate_bps (s : RouteSimCacheStats) : Z :=
  let total := Z.min (st_hits s + st_misses s) u64_max in
  if total =? 0 then 0 else Z.min (st_hits s * 10000) u64_max / total.

Abbreviation Shard := (gmap RouteSimKey MinimalSimResult) (only parsing).

Record RouteSimCache := {
  rc_entries : list Shard;
  rc_stats : RouteSimCacheStats;
  rc_last_logged_traffic : Z;
}.

Definition new : RouteSimCache :=
  {| rc_entries := replicate ROUTE_SIM_CACHE_SHARDS ∅;
     rc_stats := {| st_hits := 0; st_misses := 0; st_inserts := 0; st_evictions := 0 |};
     rc_last_logged_traffic := 0 |}.

Definition shard_index (route_fp : Z) : nat := Z.to_nat (Z.land route_fp 15).

(** [self.entries[i]]: the index is always in range. *)
Definition shard (c : RouteSimCache) (route_fp : Z) : Shard :=
  default ∅ (rc_entries c !! shard_index route_fp).

Definition get (route_state_revision route_fp : Z) (route_edges : CycleEdges) (amount : Z)
    (c : RouteSimCache) : option MinimalSimResult * RouteSimCache :=
  let st := rc_stats c in
  match shard c route_fp !! (route_state_revision, route_edges, amount) with
  | Some entry =>
      (Some entry,
       {| rc_entries := rc_entries c;
          rc_stats := {| st_hits := wrap_u 64 (st_hits st + 1); st_misses := st_misses st;
                         st_inserts := st_inserts st; st_evictions := st_evictions st |};
          rc_last_logged_traffic := rc_last_logged_traffic c |})
  | None =>
      (None,
       {| rc_entries := rc_entries c;
          rc_stats := {| st_hits := st_hits st; st_misses := wrap_u 64 (st_misses st + 1);
                         st_inserts := st_inserts st; st_evictions := st_evictions st |};
          rc_last_logged_traffic := rc_last_logged_traffic c |})
  end.

Section eviction.
Context (keys : Shard → list RouteSimKey).

Definition remove_all (victims : list RouteSimKey) (entries : Shard) : Shard :=
  fold_left (λ m k, delete k m) victims entries.

(** The block that makes room: other revisions first, then half of the shard. *)
Definition make_room (route_state_revision : Z) (entries : Shard) : Shard :=
  if (ROUTE_SIM_CACHE_SHARD_CAPACITY <=? size entries)%nat then
    let kept := filter (λ kv, key_revision kv.1 = route_state_revision) entries in
    if (ROUTE_SIM_CACHE_SHARD_CAPACITY <=? size kept)%nat then
      let target := (ROUTE_SIM_CACHE_SHARD_CAPACITY / 2)%nat in
      let drop_n := (size kept - target)%nat in
      remove_all (take drop_n (keys kept)) kept
    else kept
  else entries.

Definition insert (route_state_revision route_fp : Z) (route_edges : CycleEdges) (amount : Z)
    (sim : MinimalSimResult) (c : RouteSimCache) : RouteSimCache :=
  let entries := shard c route_fp in
  let before := size entries in
  let roomy := make_room route_state_revision entries in
  let removed := (before - size roomy)%nat in
  let st := rc_stats c in
  {| rc_entries :=
       <[shard_index route_fp := <[(route_state_revision, route_edges, amount) := sim]> roomy]>
         (rc_entries c);
     rc_stats :=
       {| st_hits := st_hits st; st_misses := st_misses st;
          st_inserts := wrap_u 64 (st_inserts st + 1);
          st_evictions := wrap_u 64 (st_evictions st + Z.of_nat removed) |};
     rc_last_logged_traffic := rc_last_logged_traffic c |}.
End eviction.

(** [should_log_traffic], with its compare-and-exchange succeeding. *)
Definition should_log_traffic (traffic : Z) (c : RouteSimCache) : bool * RouteSimCache :=
  let last := rc_last_logged_traffic c in
  if (negb (last =? 0) && (Z.max 0 (traffic - last) <? ROUTE_SIM_LOG_INTERVAL))%bool
  then (false, c)
  else (true, {| rc_entries := rc_entries c; rc_stats := rc_stats c;
                 rc_last_logged_traffic := traffic |}).

Definition entry_count (c : RouteSimCache) : nat := sum_list (size <$> rc_entries c).

(** ** Eviction *)

Section cache_spec.
Context (keys : Shard → list RouteSimKey).
Context (keys_spec : ∀ m, keys m ≡ₚ (map_to_list m).*1).

Lemma shard_capacity_pos : (0 < ROUTE_SIM_CACHE_SHARD_CAPACITY / 2 < ROUTE_SIM_CACHE_SHARD_CAPACITY)%nat.
Proof using Type. vm_compute. lia. Qed.

Lemma remove_all_lookup victims : ∀ m k v,
  remove_all victims m !! k = Some v → m !! k = Some v ∧ k ∉ victims.
Proof using Type.
  induction victims as [|x victims IH]; intros m k v; cbn [remove_all fold_left].
  { intros H. split; [done|]. by intros ?%elem_of_nil. }
  intros [H Hk]%IH. apply lookup_delete_Some in H as [Hne H]. split; [done|].
  intros [->|?]%elem_of_cons; done.
Qed.

Lemma remove_all_size victims : ∀ m,
  NoDup victims → (∀ k, k ∈ victims → is_Some (m !! k)) →
  (size (remove_all victims m) + length victims = size m)%nat.
Proof using Type.
  induction victims as [|x victims IH]; intros m Hnd Hin; cbn [remove_all fold_left length]; [lia|].
  apply NoDup_cons in Hnd as [Hx Hnd].
  destruct (Hin x) as [v Hv]; [by left|].
  specialize (IH (delete x m) Hnd). unfold remove_all in IH.
  assert (size m = S (size (delete x m))) as ->.
  { rewrite <- (insert_delete_id m x v Hv) at 1. apply map_size_insert_None, lookup_delete_eq. }
  rewrite <- IH; [lia|]. intros k Hk. rewrite lookup_delete_ne by congruence. apply Hin. by right.
Qed.

Lemma make_room_lookup rev m k v : make_room keys rev m !! k = Some v → m !! k = Some v.
Proof using Type.
  unfold make_room. destruct (_ <=? _)%nat; [|done].
  destruct (_ <=? _)%nat.
  - intros [H _]%remove_all_lookup. by apply map_lookup_filter_Some in H as [H _].
  - intros H. by apply map_lookup_filter_Some in H as [H _].
Qed.

Lemma make_room_size rev m : (size (make_room keys rev m) < ROUTE_SIM_CACHE_SHARD_CAPACITY)%nat.
Proof using keys_spec.
  pose proof shard_capacity_pos as Hcap. unfold make_room.
  destruct (Nat.leb_spec ROUTE_SIM_CACHE_SHARD_CAPACITY (size m)); [|done]. cbv zeta.
  set (kept := filter _ m).
  destruct (Nat.leb_spec ROUTE_SIM_CACHE_SHARD_CAPACITY (size kept)); [|done].
  set (victims := take _ (keys kept)).
  assert (NoDup (keys kept)) as Hnd by (rewrite keys_spec; apply NoDup_fst_map_to_list).
  assert (length (keys kept) = size kept) as Hlen
    by (rewrite keys_spec, length_fmap, length_map_to_list; done).
  pose proof (remove_all_size victims kept) as Hsize.
  assert (length victims = (size kept - ROUTE_SIM_CACHE_SHARD_CAPACITY / 2)%nat) as Hv
    by (subst victims; rewrite length_take; lia).
  rewrite Hv in Hsize. lapply Hsize; [clear Hsize; intros Hsize|].
  - lapply Hsize; [lia|]. intros k Hk. apply elem_of_take in Hk as (i & Hk & _).
    apply list_elem_of_lookup_2 in Hk. rewrite keys_spec in Hk.
    apply list_elem_of_fmap in Hk as ([k' v] & -> & Hk). apply elem_of_map_to_list in Hk. by exists v.
  - eapply sublist_NoDup; [|apply sublist_take]. done.
Qed.

(** ** The invariant: bounded, and only what was inserted *)

Context (P : Z → CycleEdges → Z → MinimalSimResult → Prop).

Definition shard_ok (m : Shard) : Prop :=
  (size m ≤ ROUTE_SIM_CACHE_SHARD_CAPACITY)%nat ∧
  ∀ k v, m !! k = Some v → P k.1.1 k.1.2 k.2 v.

Definition cache_ok (c : RouteSimCache) : Prop :=
  length (rc_entries c) = ROUTE_SIM_CACHE_SHARDS ∧ Forall shard_ok (rc_entries c).

(** The public operations; what is inserted satisfies [P]. *)
Inductive cache_step (c : RouteSimCache) : RouteSimCache → Prop :=
| step_get rev fp edges amount : cache_step c (get rev fp edges amount c).2
| step_insert rev fp edges amount sim :
    P rev edges amount sim → cache_step c (insert keys rev fp edges amount sim c)
| step_log traffic : cache_step c (should_log_traffic traffic c).2.

Lemma shard_index_bound fp : (shard_index fp < ROUTE_SIM_CACHE_SHARDS)%nat.
Proof using Type.
  unfold shard_index. change 15 with (Z.ones 4). rewrite Z.land_ones by lia.
  pose proof (Z.mod_pos_bound fp (2 ^ 4) ltac:(lia)). unfold ROUTE_SIM_CACHE_SHARDS. lia.
Qed.

Lemma shard_lookup_ok c fp : cache_ok c → shard_ok (shard c fp).
Proof using Type.
  intros [Hlen Hall]. unfold shard.
  destruct (lookup_lt_is_Some_2 (rc_entries c) (shard_index fp)) as [m Hm].
  { rewrite Hlen. apply shard_index_bound. }
  rewrite Hm. by apply (Forall_lookup_1 _ _ _ _ Hall Hm).
Qed.

Lemma insert_shard rev fp edges amount sim c :
  cache_ok c →
  shard (insert keys rev fp edges amount sim c) fp =
    <[(rev, edges, amount) := sim]> (make_room keys rev (shard c fp)).
Proof using Type.
  intros [Hlen _]. unfold shard at 1, insert. cbn [rc_entries].
  rewrite list_lookup_insert_eq; [done|]. rewrite Hlen. apply shard_index_bound.
Qed.

Lemma cache_step_ok c c' : cache_ok c → cache_step c c' → cache_ok c'.
Proof using keys_spec.
  intros Hc [rev fp edges amount|rev fp edges amount sim HP|traffic].
  - unfold get. by destruct (shard c fp !! _).
  - pose proof (shard_lookup_ok c fp Hc) as [_ Hs]. destruct Hc as [Hlen Hall].
    split; unfold insert; cbn [rc_entries]; [by rewrite length_insert|].
    apply Forall_insert; [done|]. split.
    + pose proof (make_room_size rev (shard c fp)).
      destruct (make_room keys rev (shard c fp) !! (rev, edges, amount)) as [v|] eqn:E.
      * rewrite map_size_insert_Some by eauto. lia.
      * rewrite map_size_insert_None by done. lia.
    + intros k v Hk. apply lookup_insert_Some in Hk as [[<- <-]|[_ Hk]]; [done|].
      apply Hs. by apply make_room_lookup in Hk.
  - unfold should_log_traffic. by destruct (_ && _)%bool.
Qed.

Lemma new_ok : cache_ok new.
Proof using Type.
  split; [done|]. apply Forall_replicate. split; [rewrite map_size_empty; lia|].
  intros k v H. by rewrite lookup_empty in H.
Qed.

Lemma entry_count_bound c : cache_ok c → Z.of_nat (entry_count c) ≤ ROUTE_SIM_CACHE_CAPACITY.
Proof using Type.
  intros [Hlen Hall]. unfold entry_count.
  assert (sum_list (size <$> rc_entries c) ≤ ROUTE_SIM_CACHE_SHARD_CAPACITY * length (rc_entries c))%nat as H.
  { clear Hlen. induction Hall as [|m l [Hm _] _ IH]; cbn; lia. }
  rewrite Hlen in H. assert (Z.of_nat (ROUTE_SIM_CACHE_SHARD_CAPACITY * ROUTE_SIM_CACHE_SHARDS) = ROUTE_SIM_CACHE_CAPACITY).
  { vm_compute. reflexivity. }
  lia.
Qed.

(** In every state reached by lookups and inserts, however the hash map orders the
    victims of an eviction, the cache holds at most 16384 results and a hit is a
    result that was inserted for the same revision, route and amount. *)
Theorem route_sim_cache_invariant (c : RouteSimCache) (rev fp : Z) (edges : CycleEdges) (amount : Z)
    (sim : MinimalSimResult) :
  rtc cache_step new c →
  Z.of_nat (entry_count c) ≤ ROUTE_SIM_CACHE_CAPACITY ∧
  ((get rev fp edges amount c).1 = Some sim → P rev edges amount sim).
Proof using keys_spec.
  intros H. assert (cache_ok c) as Hc.
  { generalize new_ok. induction H; [done|]. eauto using cache_step_ok. }
  split; [by apply entry_count_bound|]. unfold get.
  destruct (shard c fp !! (rev, edges, amount)) as [v|] eqn:E; cbn; [|done].
  intros [= <-]. by apply (proj2 (shard_lookup_ok c fp Hc)) in E.
Qed.

(** What was inserted is read back, and another key is either read as before or
    was evicted, never answered with a wrong result. *)
Theorem route_sim_cache_get_insert (c : RouteSimCache) (rev fp : Z) (edges : CycleEdges) (amount : Z)
    (sim : MinimalSimResult) :
  rtc cache_step new c →
  let c' := insert keys rev fp edges amount sim c in
  (get rev fp edges amount c').1 = Some sim ∧
  ∀ rev' fp' edges' amount', (rev', edges', amount') ≠ (rev, edges, amount) →
    (get rev' fp' edges' amount' c').1 = (get rev' fp' edges' amount' c).1 ∨
    (get rev' fp' edges' amount' c').1 = None.
Proof using keys_spec.
  intros H c'. assert (cache_ok c) as Hc.
  { generalize new_ok. induction H; [done|]. eauto using cache_step_ok. }
  assert (∀ rev fp edges amount c, (get rev fp edges amount c).1 = shard c fp !! (rev, edges, amount)) as Hget.
  { intros. unfold get. by destruct (shard _ _ !! _). }
  rewrite !Hget. subst c'. split; [rewrite insert_shard by done; apply lookup_insert_eq|].
  intros rev' fp' edges' amount' Hne. rewrite !Hget.
  destruct (decide (shard_index fp' = shard_index fp)) as [Hi|Hi].
  - assert (∀ c, shard c fp' = shard c fp) as Hs by (intros; unfold shard; by rewrite Hi).
    rewrite !Hs, insert_shard, lookup_insert_ne by done.
    destruct (make_room keys rev (shard c fp) !! _) as [v|] eqn:E; [|by right].
    left. symmetry. exact (make_room_lookup _ _ _ _ E).
  - left. unfold shard, insert. cbn [rc_entries]. by rewrite list_lookup_insert_ne.
Qed.
End cache_spec.

(** ** Witnesses: the hash map enumerates its keys in the order of [map_to_list] *)

Definition map_keys (m : Shard) : list RouteSimKey := (map_to_list m).*1.

Definition demo_sim : MinimalSimResult := {| sim_profit := 7; sim_amount_out := 107; sim_total_gas := 300000 |}.

Lemma route_sim_cache_invariant_witness :
  (get 3 255 [] 100 (insert map_keys 3 255 [] 100 demo_sim new)).1 = Some demo_sim ∧
  sim_profit demo_sim = 7.
Proof.
  assert ((get 3 255 [] 100 (insert map_keys 3 255 [] 100 demo_sim new)).1 = Some demo_sim) as Hg
    by (vm_compute; reflexivity).
  split; [exact Hg|].
  refine (proj2 (route_sim_cache_invariant map_keys (λ m, Permutation_refl _)
    (λ _ _ _ s, sim_profit s = 7) (insert map_keys 3 255 [] 100 demo_sim new) 3 255 [] 100 demo_sim _) Hg).
  apply rtc_once, step_insert. reflexivity.
Defined.

Lemma route_sim_cache_get_insert_witness :
  (get 3 255 [] 100 (insert map_keys 3 255 [] 100 demo_sim new)).1 = Some demo_sim.
Proof.
  exact (proj1 (route_sim_cache_get_insert map_keys (λ m, Permutation_refl _) (λ _ _ _ _, True)
    new 3 255 [] 100 demo_sim (rtc_refl _ _))).
Defined.
