(* ===== verification/Golden.v ===== *)
(** * Golden-section search

    The search at the heart of [src/src/pipeline/ternary.rs]: [solve_brent_optimal]
    and its warm-started form.  The evaluator is a closure with its own state ([E])
    whose computation may panic; the ring cache of the search is threaded beside
    it.  All bounds are [U256]s whose [-] and [+] wrap, as in the code. *)
From S2P Require Import Prelude Word.

Definition BRENT_CACHE_SLOTS : nat := 48.
Definition GOLDEN_RATIO : Z := 382.
Definition CONVERGENCE_DIVISOR : Z := 1000.
Definition DEFAULT_BRENT_ITERATIONS : Z := 16.

(** [width * GOLDEN_RATIO / 1_000] *)
Definition golden (width : Z) : Z := (width *% GOLDEN_RATIO) / 1000.

(** [.max_by_key(|(_, score)| *score)]: the last of the greatest. *)
Definition max_by_score (l : list (Z * Z)) : option (Z * Z) :=
  fold_left (λ best x,
    match best with Some b => if x.2 <? b.2 then best else Some x | None => Some x end) l None.

Definition in_window (low high : Z) (seed : Z * Z) : bool :=
  ((low <=? seed.1) && (seed.1 <=? high))%bool.

(** The loop's mutable variables. *)
Record Bracket := {
  g_a : Z; g_b : Z;
  g_left : Z; g_right : Z;
  g_left_value : Z; g_right_value : Z;
  g_zero_streak : Z;
}.

Definition brent_iterations (max_iterations : Z) : nat :=
  Z.to_nat (if max_iterations =? 0 then DEFAULT_BRENT_ITERATIONS else max_iterations).

Section search.
Context {E : Type} (evaluate : E → Z → outcome (Z * E)).

(** The two parallel arrays of the cache as one list of pairs, and the state of
    the evaluator. *)
Record Search := { s_cache : list (Z * Z); s_cache_size : nat; s_env : E }.

Definition cache_put (st : Search) (amount profit : Z) (env : E) : Search :=
  {| s_cache := <[(s_cache_size st mod BRENT_CACHE_SLOTS)%nat := (amount, profit)]> (s_cache st);
     s_cache_size := S (s_cache_size st); s_env := env |}.

Definition cached_evaluate (st : Search) (amount : Z) : outcome (Z * Search) :=
  let scan := Nat.min (s_cache_size st) BRENT_CACHE_SLOTS in
  match find (λ slot, slot.1 =? amount) (take scan (s_cache st)) with
  | Some slot => Done (slot.2, st)
  | None =>
      let! r := evaluate (s_env st) amount in
      Done (r.1, cache_put st amount r.1 r.2)
  end.

Definition seed_cache (low high : Z) (warm : list (Z * Z)) (env : E) : Search :=
  fold_left (λ st seed,
    if in_window low high seed then cache_put st seed.1 seed.2 (s_env st) else st)
    warm {| s_cache := replicate BRENT_CACHE_SLOTS (0, 0); s_cache_size := 0; s_env := env |}.

(** The window of [quarter]-width around a hint, clipped to the bracket. *)
Definition around (hint a b : Z) : Z * Z :=
  let quarter := golden (saturating_sub b a) in
  (Z.max (saturating_sub hint quarter) a, Z.min (saturating_add hint quarter) b).

Definition first_probes (low high : Z) (warm : list (Z * Z)) : Z * Z :=
  let best := max_by_score (filter (λ seed, in_window low high seed = true) warm) in
  match best with
  | Some hint =>
      if is_zero hint.2 then (low +% golden (high -% low), high -% golden (high -% low))
      else
        let '(l, r) := around hint.1 low high in
        if l <? r then (l, r)
        else
          let width := saturating_sub high low in
          (low +% golden width, high -% golden width)
  | None => (low +% golden (high -% low), high -% golden (high -% low))
  end.

Definition recenter_hint (a b : Z) (warm : list (Z * Z)) : option (Z * Z) :=
  max_by_score (filter (λ seed, (in_window a b seed && negb (is_zero seed.2))%bool = true) warm).

Definition set_probes (g : Bracket) (left right left_value right_value zero_streak : Z) : Bracket :=
  {| g_a := g_a g; g_b := g_b g; g_left := left; g_right := right;
     g_left_value := left_value; g_right_value := right_value; g_zero_streak := zero_streak |}.

(** The comparison at the end of an iteration: keep the better side. *)
Definition shrink (g : Bracket) (st : Search) : outcome (Bracket * Search) :=
  if g_left_value g <? g_right_value g then
    let a := g_left g in
    let b := g_b g in
    let right := b -% golden (b -% a) in
    let! r := cached_evaluate st right in
    Done ({| g_a := a; g_b := b; g_left := g_right g; g_right := right;
             g_left_value := g_right_value g; g_right_value := r.1;
             g_zero_streak := g_zero_streak g |}, r.2)
  else
    let a := g_a g in
    let b := g_right g in
    let left := a +% golden (b -% a) in
    let! r := cached_evaluate st left in
    Done ({| g_a := a; g_b := b; g_left := left; g_right := g_left g;
             g_left_value := r.1; g_right_value := g_left_value g;
             g_zero_streak := g_zero_streak g |}, r.2).

(** [for _ in 0..max_iter { ... }] *)
Fixpoint golden_loop (fuel : nat) (warm : list (Z * Z)) (g : Bracket) (st : Search)
  : outcome (Bracket * Search) :=
  match fuel with
  | O => Done (g, st)
  | S fuel =>
      let width := saturating_sub (g_b g) (g_a g) in
      let tol := Z.max (width / CONVERGENCE_DIVISOR) 1 in
      if width <=? tol then Done (g, st)
      else if (is_zero (g_left_value g) && is_zero (g_right_value g))%bool then
        let zero_streak := g_zero_streak g + 1 in
        let g := set_probes g (g_left g) (g_right g) (g_left_value g) (g_right_value g) zero_streak in
        if 2 <=? zero_streak then
          match recenter_hint (g_a g) (g_b g) warm with
          | Some hint =>
              let '(lp, rp) := around hint.1 (g_a g) (g_b g) in
              if lp <? rp then
                let! l := cached_evaluate st lp in
                let! r := cached_evaluate l.2 rp in
                golden_loop fuel warm (set_probes g lp rp l.1 r.1 0) r.2
              else
                Done (set_probes g lp rp (g_left_value g) (g_right_value g) zero_streak, st)
          | None => Done (g, st)
          end
        else
          let! r := shrink g st in
          golden_loop fuel warm r.1 r.2
      else
        let! r := shrink (set_probes g (g_left g) (g_right g) (g_left_value g) (g_right_value g) 0) st in
        golden_loop fuel warm r.1 r.2
  end.

(** [if candidate.1 > best.1 { best = candidate; }] *)
Definition challenge (best candidate : Z * Z) : Z * Z :=
  if best.2 <? candidate.2 then candidate else best.

Definition challenge_seed (low high : Z) (best seed : Z * Z) : Z * Z :=
  if (negb (in_window low high seed) || is_zero seed.2)%bool then best else challenge best seed.

Definition solve_brent_optimal_warm (low high : Z) (env : E) (max_iterations : Z)
    (warm : list (Z * Z)) : outcome (Z * E) :=
  if high <=? low then Done (low, env)
  else
    let st := seed_cache low high warm env in
    let '(lp, rp) := first_probes low high warm in
    let! l := cached_evaluate st lp in
    let! r := cached_evaluate l.2 rp in
    let g := {| g_a := low; g_b := high; g_left := lp; g_right := rp;
                g_left_value := l.1; g_right_value := r.1; g_zero_streak := 0 |} in
    let! w := golden_loop (brent_iterations max_iterations) warm g r.2 in
    let g := w.1 in
    let! lo := cached_evaluate w.2 low in
    let! hi := cached_evaluate lo.2 high in
    let best :=
      fold_left challenge
        [(g_left g, g_left_value g); (g_right g, g_right_value g); (high, hi.1)] (low, lo.1) in
    let best := fold_left (challenge_seed low high) warm best in
    Done (best.1, s_env hi.2).

Definition solve_brent_optimal (low high : Z) (env : E) (max_iterations : Z) : outcome (Z * E) :=
  solve_brent_optimal_warm low high env max_iterations [].
End search.
Arguments Search : clear implicits.

(** ** What the search guarantees

    [Inv] is an invariant of the evaluator's state, [V x s] says that [s] is a
    score the evaluator may give [x], and [B e m] that [m] bounds every score given
    so far.  [cost] counts the evaluations. *)
Section search_spec.
Context {E : Type} (evaluate : E → Z → outcome (Z * E)).
Context (Inv : E → Prop) (V : Z → Z → Prop) (B : E → Z → Prop) (cost : E → nat).
Context (evaluate_total : ∀ e x, Inv e → ∃ s e', evaluate e x = Done (s, e')).
Context (evaluate_spec : ∀ e x s e', Inv e → evaluate e x = Done (s, e') →
  Inv e' ∧ V x s ∧ 0 ≤ s ∧ (∀ m, B e m → s ≤ m → B e' m) ∧ (cost e' ≤ S (cost e))%nat).
Context (B_mono : ∀ e m m', B e m → m ≤ m' → B e m').

(** The invariant of the search's own state: the cached scores are valid. *)
Definition search_ok (st : Search E) : Prop :=
  Inv (s_env st) ∧ length (s_cache st) = BRENT_CACHE_SLOTS ∧
  ∀ i x, (i < Nat.min (s_cache_size st) BRENT_CACHE_SLOTS)%nat → s_cache st !! i = Some x →
         V x.1 x.2 ∧ 0 ≤ x.2.

Lemma cache_put_ok st x s e :
  search_ok st → V x s → 0 ≤ s → Inv e → search_ok (cache_put st x s e).
Proof.
  intros (_ & Hlen & Hc) HV Hs HI. unfold search_ok, cache_put. cbn [s_env s_cache s_cache_size].
  split; [done|]. rewrite length_insert. split; [done|].
  set (slot := (s_cache_size st mod BRENT_CACHE_SLOTS)%nat).
  assert (slot < BRENT_CACHE_SLOTS)%nat by (apply Nat.mod_upper_bound; discriminate).
  intros i y Hi. destruct (decide (i = slot)) as [->|Hne].
  - rewrite list_lookup_insert_eq by lia. intros [= <-]. done.
  - rewrite list_lookup_insert_ne by done. apply Hc.
    destruct (decide (s_cache_size st < BRENT_CACHE_SLOTS)%nat) as [Hlt|Hge]; [|lia].
    subst slot. rewrite Nat.mod_small in Hne by done. lia.
Qed.

Lemma seed_cache_ok low high warm env :
  Inv env → (∀ x, x ∈ warm → V x.1 x.2 ∧ 0 ≤ x.2) →
  search_ok (seed_cache low high warm env) ∧ s_env (seed_cache low high warm env) = env.
Proof using Type.
  intros HI. unfold seed_cache.
  set (st0 := {| s_cache := _ |}).
  assert (search_ok st0 ∧ s_env st0 = env) as H0.
  { split; [|done]. split; [done|]. split; [apply length_replicate|]. cbn. intros; lia. }
  revert H0. generalize st0. clear st0.
  induction warm as [|w warm IH]; intros st [H He] Hw; [done|]. cbn [fold_left].
  apply IH; [|by intros; apply Hw; right].
  destruct (in_window low high w); [|done].
  destruct (Hw w) as [? ?]; [by left|]. split; [by apply cache_put_ok; rewrite ?He|done].
Qed.

(** One (cached) evaluation. *)
Lemma cached_evaluate_spec st x :
  search_ok st →
  ∃ s st', cached_evaluate evaluate st x = Done (s, st') ∧ search_ok st' ∧ V x s ∧ 0 ≤ s ∧
    (∀ m, B (s_env st) m → s ≤ m → B (s_env st') m) ∧
    (cost (s_env st') ≤ S (cost (s_env st)))%nat.
Proof using evaluate_total evaluate_spec.
  intros Hst. unfold cached_evaluate.
  destruct (find _ _) as [slot|] eqn:Ef.
  - apply find_some in Ef as [Hin Heq]. zbool.
    apply list_elem_of_In, list_elem_of_lookup in Hin as [i Hi].
    apply lookup_take_Some in Hi as [Hi Hlt].
    destruct Hst as (HI & Hlen & Hc). destruct (Hc i slot Hlt Hi) as [HV Hs].
    exists slot.2, st. rewrite <- Heq. do 2 (split; [done|]). split; [done|]. split; [done|].
    split; [done|lia].
  - destruct (evaluate_total (s_env st) x) as (s & e' & He); [apply Hst|].
    rewrite He. cbn [obind fst snd].
    destruct (evaluate_spec _ _ _ _ (proj1 Hst) He) as (HI & HV & Hs & HB & Hcost).
    exists s, (cache_put st x s e'). split; [done|]. split; [by apply cache_put_ok|]. done.
Qed.

(** The bracket: the two values belong to the two probes, and bound every score
    seen so far. *)
Definition bracket_ok (g : Bracket) (st : Search E) : Prop :=
  V (g_left g) (g_left_value g) ∧ V (g_right g) (g_right_value g) ∧
  0 ≤ g_left_value g ∧ 0 ≤ g_right_value g ∧
  B (s_env st) (Z.max (g_left_value g) (g_right_value g)).

Lemma shrink_spec g st :
  search_ok st → bracket_ok g st →
  ∃ g' st', shrink evaluate g st = Done (g', st') ∧ search_ok st' ∧ bracket_ok g' st' ∧
    (cost (s_env st') ≤ S (cost (s_env st)))%nat.
Proof using evaluate_total evaluate_spec B_mono.
  intros Hst (HVl & HVr & Hl & Hr & HB). unfold shrink.
  destruct (Z.ltb_spec (g_left_value g) (g_right_value g)); cbv zeta.
  - destruct (cached_evaluate_spec st (g_b g -% golden (g_b g -% g_left g)) Hst)
      as (s & st' & -> & Hst' & HV & Hs & HB' & Hc).
    do 2 eexists. split; [done|]. split; [done|]. cbn [snd]. split; [|done].
    unfold bracket_ok. cbn. split_and!; try done.
    apply HB'; [|lia]. apply (B_mono _ _ _ HB). lia.
  - destruct (cached_evaluate_spec st (g_a g +% golden (g_right g -% g_a g)) Hst)
      as (s & st' & -> & Hst' & HV & Hs & HB' & Hc).
    do 2 eexists. split; [done|]. split; [done|]. cbn [snd]. split; [|done].
    unfold bracket_ok. cbn. split_and!; try done.
    apply HB'; [|lia]. apply (B_mono _ _ _ HB). lia.
Qed.

(** The loop: afterwards a positive value still belongs to its probe (an early exit
    may move the probes of two zero values). *)
Lemma golden_loop_spec fuel warm : ∀ g st,
  search_ok st → bracket_ok g st →
  ∃ g' st', golden_loop evaluate fuel warm g st = Done (g', st') ∧ search_ok st' ∧
    (0 < g_left_value g' → V (g_left g') (g_left_value g')) ∧
    (0 < g_right_value g' → V (g_right g') (g_right_value g')) ∧
    B (s_env st') (Z.max (g_left_value g') (g_right_value g')) ∧
    0 ≤ Z.max (g_left_value g') (g_right_value g') ∧
    (cost (s_env st') ≤ 2 * fuel + cost (s_env st))%nat.
Proof using evaluate_total evaluate_spec B_mono.
  induction fuel as [|fuel IH]; intros g st Hst Hg.
  { destruct Hg as (? & ? & ? & ? & ?). exists g, st. split_and!; try done; lia. }
  cbn [golden_loop]. cbv zeta.
  assert (∀ z, ∃ g' st', (let! r := shrink evaluate (set_probes g (g_left g) (g_right g)
      (g_left_value g) (g_right_value g) z) st in golden_loop evaluate fuel warm r.1 r.2)
      = Done (g', st') ∧ search_ok st' ∧
    (0 < g_left_value g' → V (g_left g') (g_left_value g')) ∧
    (0 < g_right_value g' → V (g_right g') (g_right_value g')) ∧
    B (s_env st') (Z.max (g_left_value g') (g_right_value g')) ∧
    0 ≤ Z.max (g_left_value g') (g_right_value g') ∧
    (cost (s_env st') ≤ 2 * S fuel + cost (s_env st))%nat) as Hshrink.
  { intros z.
    destruct (shrink_spec (set_probes g (g_left g) (g_right g) (g_left_value g) (g_right_value g) z) st)
      as (g' & st' & -> & Hst' & Hg' & Hc); [done..|]. cbn [obind fst snd].
    destruct (IH g' st') as (g2 & st2 & -> & H2); [done..|].
    exists g2, st2. split; [done|]. destruct H2 as (? & ? & ? & ? & ? & ?). split_and!; try done. lia. }
  destruct (_ <=? _); [destruct Hg as (? & ? & ? & ? & ?); exists g, st; split_and!; try done; lia|].
  destruct (is_zero _ && is_zero _)%bool eqn:Ez; [|apply Hshrink].
  destruct (2 <=? _); [|apply Hshrink].
  unfold is_zero in Ez. apply andb_true_iff in Ez as [Ezl%Z.eqb_eq Ezr%Z.eqb_eq].
  destruct Hg as (HVl & HVr & Hl & Hr & HB).
  destruct (recenter_hint _ _ _) as [hint|]; [|exists (set_probes g (g_left g) (g_right g) (g_left_value g) (g_right_value g)
    (g_zero_streak g + 1)), st; split_and!; try done; cbn; lia].
  destruct (around _ _ _) as [lp rp]. destruct (lp <? rp).
  - destruct (cached_evaluate_spec st lp Hst) as (s & st1 & -> & Hst1 & HV1 & Hs1 & HB1 & Hc1).
    cbn [obind fst snd].
    destruct (cached_evaluate_spec st1 rp Hst1) as (s2 & st2 & -> & Hst2 & HV2 & Hs2 & HB2 & Hc2).
    cbn [obind fst snd].
    match goal with |- context [golden_loop _ _ _ ?g' st2] =>
      destruct (IH g' st2) as (g3 & st3 & -> & H3); [done|..] end.
    { unfold bracket_ok. cbn. split_and!; try done.
      apply HB2; [|lia]. apply HB1; [|lia]. apply (B_mono _ _ _ HB). lia. }
    exists g3, st3. split; [done|]. destruct H3 as (? & ? & ? & ? & ? & ?). split_and!; try done. lia.
  - do 2 eexists. split; [done|]. cbn. rewrite Ezl, Ezr in *.
    split_and!; try done; lia.
Qed.

Lemma challenge_spec best c :
  challenge best c = best ∧ c.2 ≤ best.2 ∨ challenge best c = c ∧ best.2 < c.2.
Proof using Type. unfold challenge. destruct (Z.ltb_spec best.2 c.2); [by right|by left]. Qed.

Lemma challenge_seeds low high warm : ∀ best,
  0 ≤ best.2 →
  let r := fold_left (challenge_seed low high) warm best in
  best.2 ≤ r.2 ∧ (r = best ∨ r ∈ warm ∧ in_window low high r = true ∧ best.2 < r.2) ∧
  ∀ x, x ∈ warm → in_window low high x = true → x.2 ≤ r.2.
Proof using Type.
  induction warm as [|w warm IH]; intros best Hb; cbn [fold_left].
  { split_and!; [lia|by left|by intros x ?%elem_of_nil]. }
  assert (challenge_seed low high best w = best ∧ (in_window low high w = true → w.2 ≤ best.2) ∨
    challenge_seed low high best w = w ∧ best.2 < w.2 ∧ in_window low high w = true) as Hw.
  { unfold challenge_seed, is_zero. destruct (in_window low high w); cbn [negb orb]; [|by left].
    destruct (Z.eqb_spec w.2 0); [left; split; [done|lia]|].
    destruct (challenge_spec best w) as [[-> ?]|[-> ?]]; auto. }
  destruct (IH (challenge_seed low high best w)) as (H1 & H2 & H3); [destruct Hw as [[-> ?]|(-> & ? & ?)]; lia|].
  destruct Hw as [[Ew Hle]|(Ew & Hlt & Hin)]; rewrite Ew in *.
  - split_and!; [done| |].
    + destruct H2 as [->|(? & ? & ?)]; [by left|right]. split_and!; [by right|done..].
    + intros x [->|Hx]%elem_of_cons Hx'; [specialize (Hle Hx'); lia|by apply H3].
  - split_and!; [lia| |].
    + right. destruct H2 as [->|(? & ? & ?)]; [split_and!; [by left|done..]|].
      split_and!; [by right|done|lia].
    + intros x [->|Hx]%elem_of_cons Hx'; [lia|by apply H3].
Qed.

(** The whole search. *)
Lemma solve_brent_spec low high env n warm :
  Inv env → B env 0 → low < high → (∀ x, x ∈ warm → V x.1 x.2 ∧ 0 ≤ x.2) →
  ∃ r s slow shigh env', solve_brent_optimal_warm evaluate low high env n warm = Done (r, env') ∧
    Inv env' ∧ V r s ∧ 0 ≤ s ∧ (s = 0 → r = low) ∧ B env' s ∧
    V low slow ∧ slow ≤ s ∧ V high shigh ∧ shigh ≤ s ∧
    (∀ x, x ∈ warm → in_window low high x = true → x.2 ≤ s) ∧
    (cost env' ≤ cost env + 4 + 2 * brent_iterations n)%nat.
Proof using evaluate_total evaluate_spec B_mono.
  intros HI HB0 Hlt Hw. unfold solve_brent_optimal_warm.
  destruct (Z.leb_spec high low); [lia|]. cbv zeta.
  set (fuel := brent_iterations n).
  destruct (seed_cache_ok low high warm env HI Hw) as [Hst He].
  set (st := seed_cache low high warm env) in *.
  destruct (first_probes low high warm) as [lp rp].
  destruct (cached_evaluate_spec st lp Hst) as (s1 & st1 & -> & Hst1 & HV1 & Hs1 & HB1 & Hc1).
  cbn [obind fst snd].
  destruct (cached_evaluate_spec st1 rp Hst1) as (s2 & st2 & -> & Hst2 & HV2 & Hs2 & HB2 & Hc2).
  cbn [obind fst snd].
  edestruct (golden_loop_spec fuel warm {| g_a := low; g_b := high; g_left := lp; g_right := rp;
    g_left_value := s1; g_right_value := s2; g_zero_streak := 0 |} st2)
    as (g & st3 & -> & Hst3 & HVl & HVr & HB3 & Hmax & Hc3); [done|..].
  { unfold bracket_ok. cbn. split_and!; try done. apply HB2; [|lia]. apply HB1; [|lia].
    rewrite He. apply (B_mono _ _ _ HB0). lia. }
  cbn [obind fst snd].
  destruct (cached_evaluate_spec st3 low Hst3) as (s4 & st4 & -> & Hst4 & HV4 & Hs4 & HB4 & Hc4).
  cbn [obind fst snd].
  destruct (cached_evaluate_spec st4 high Hst4) as (s5 & st5 & -> & Hst5 & HV5 & Hs5 & HB5 & Hc5).
  cbn [obind fst snd fold_left].
  set (b1 := challenge (low, s4) (g_left g, g_left_value g)).
  set (b2 := challenge b1 (g_right g, g_right_value g)).
  set (b3 := challenge b2 (high, s5)).
  assert (V b3.1 b3.2 ∧ 0 ≤ b3.2 ∧ (b3.2 = 0 → b3.1 = low) ∧
    s4 ≤ b3.2 ∧ s5 ≤ b3.2 ∧ Z.max (g_left_value g) (g_right_value g) ≤ b3.2)
    as (HV6 & Hp6 & Hz6 & H46 & H56 & Hm6).
  { destruct (challenge_spec (low, s4) (g_left g, g_left_value g)) as [[E1 H1]|[E1 H1]],
      (challenge_spec b1 (g_right g, g_right_value g)) as [[E2 H2]|[E2 H2]],
      (challenge_spec b2 (high, s5)) as [[E3 H3]|[E3 H3]];
      fold b1 in E1; fold b2 in E2; fold b3 in E3; rewrite ?E3, ?E2, ?E1 in *; cbn [fst snd] in *;
      split_and!; try lia; auto; try (apply HVl; lia); try (apply HVr; lia). }
  destruct (challenge_seeds low high warm b3 Hp6) as (H7 & H8 & H9).
  set (r := fold_left _ _ _) in *.
  exists r.1, r.2, s4, s5, (s_env st5). split; [done|]. split; [apply Hst5|].
  assert (V r.1 r.2 ∧ (r.2 = 0 → r.1 = low)) as [HV Hz].
  { destruct H8 as [->|(Hin & _ & Hlt')]; [done|]. split; [apply (Hw r Hin)|lia]. }
  split_and!; try done; try lia.
  - apply HB5; [|lia]. apply HB4; [|lia]. apply (B_mono _ _ _ HB3). lia.
  - rewrite <- He. lia.
Qed.
End search_spec.

(** A more defined evaluator gives the same searches. *)
Section search_mono.
Context {E : Type} (ev ev' : E → Z → outcome (Z * E)).
Context (ev_le : ∀ e x r, ev e x = Done r → ev' e x = Done r).

Lemma obind_mono {A C} (m m' : outcome A) (k k' : A → outcome C) c :
  (∀ a, m = Done a → m' = Done a) → (∀ a c, k a = Done c → k' a = Done c) →
  obind m k = Done c → obind m' k' = Done c.
Proof using Type. intros Hm Hk. destruct m as [a|]; [|done]. rewrite (Hm a eq_refl). apply Hk. Qed.

Lemma cached_evaluate_mono st x r :
  cached_evaluate ev st x = Done r → cached_evaluate ev' st x = Done r.
Proof using ev_le.
  unfold cached_evaluate. destruct (find _ _); [done|].
  apply obind_mono; [intros; by apply ev_le|done].
Qed.

Lemma shrink_mono g st r : shrink ev g st = Done r → shrink ev' g st = Done r.
Proof using ev_le.
  unfold shrink. destruct (_ <? _); apply obind_mono; (intros; by apply cached_evaluate_mono) || done.
Qed.

Lemma golden_loop_mono fuel warm : ∀ g st r,
  golden_loop ev fuel warm g st = Done r → golden_loop ev' fuel warm g st = Done r.
Proof using ev_le.
  induction fuel as [|fuel IH]; intros g st r; cbn [golden_loop]; [done|]. cbv zeta.
  destruct (_ <=? _); [done|]. destruct (_ && _)%bool.
  - destruct (2 <=? _); [|apply obind_mono; [intros; by apply shrink_mono|intros; by apply IH]].
    destruct (recenter_hint _ _ _); [|done]. destruct (around _ _ _) as [lp rp].
    destruct (lp <? rp); [|done].
    apply obind_mono; [intros; by apply cached_evaluate_mono|]. intros a c.
    apply obind_mono; [intros; by apply cached_evaluate_mono|intros; by apply IH].
  - apply obind_mono; [intros; by apply shrink_mono|intros; by apply IH].
Qed.

Lemma solve_brent_mono low high env n warm r :
  solve_brent_optimal_warm ev low high env n warm = Done r →
  solve_brent_optimal_warm ev' low high env n warm = Done r.
Proof using ev_le.
  unfold solve_brent_optimal_warm. destruct (_ <=? _); [done|]. cbv zeta.
  destruct (first_probes _ _ _) as [lp rp].
  apply obind_mono; [intros; by apply cached_evaluate_mono|]. intros l c.
  apply obind_mono; [intros; by apply cached_evaluate_mono|]. intros l' c'.
  apply obind_mono; [intros; by apply golden_loop_mono|]. intros l2 c2.
  apply obind_mono; [intros; by apply cached_evaluate_mono|]. intros l3 c3.
  apply obind_mono; [intros; by apply cached_evaluate_mono|done].
Qed.
End search_mono.

(** A scoring function as an evaluator that records the amounts it is asked. *)
Definition logged (f : Z → Z) (log : list Z) (x : Z) : outcome (Z * list Z) := Done (f x, x :: log).

(** Whatever the evaluator does with its own state, as long as each evaluation
    returns, the search returns, after at most two evaluations per iteration and
    four more. *)
Theorem golden_search_terminates {E : Type} (evaluate : E → Z → outcome (Z * E)) (cost : E → nat)
    (low high : Z) (env : E) (n : Z) (warm : list (Z * Z)) :
  (∀ e x, ∃ s e', evaluate e x = Done (s, e') ∧ 0 ≤ s ∧ (cost e' ≤ S (cost e))%nat) →
  (∀ x, x ∈ warm → 0 ≤ x.2) →
  ∃ r env', solve_brent_optimal_warm evaluate low high env n warm = Done (r, env') ∧
    (cost env' ≤ cost env + 4 + 2 * brent_iterations n)%nat.
Proof.
  intros Heval Hwarm. destruct (decide (low < high)) as [Hlt|Hge].
  - destruct (solve_brent_spec evaluate (λ _, True) (λ _ _, True) (λ _ _, True) cost)
      with (low := low) (high := high) (env := env) (n := n) (warm := warm)
      as (r & s & sl & sh & env' & H & Hrest); try done.
    + intros e x _. destruct (Heval e x) as (s & e' & ? & _). eauto.
    + intros e x s e' _ He. destruct (Heval e x) as (s' & e'' & He' & ? & ?). rewrite He in He'. injection He' as <- <-. by split_and!.
    + intros x Hx. auto.
    + exists r, env'. split; [done|]. apply Hrest.
  - exists low, env. unfold solve_brent_optimal_warm.
    destruct (Z.leb_spec high low); [split; [done|lia]|lia].
Qed.

(** The amount found scores at least as high as every amount the search evaluated,
    as both ends of the window and as every warm seed inside it; and it lies in the
    window when amounts outside score nothing. *)
Theorem golden_search_optimal (f : Z → Z) (low high n : Z) (warm : list (Z * Z)) :
  low < high → (∀ x, 0 ≤ f x) → (∀ x, x ∈ warm → x.2 = f x.1) →
  ∃ r log, solve_brent_optimal_warm (logged f) low high [] n warm = Done (r, log) ∧
    (∀ x, x ∈ log → f x ≤ f r) ∧ f low ≤ f r ∧ f high ≤ f r ∧
    (∀ x, x ∈ warm → low ≤ x.1 ≤ high → f x.1 ≤ f r) ∧
    ((∀ x, x < low ∨ high < x → f x = 0) → low ≤ r ≤ high).
Proof.
  intros Hlt Hf Hwarm.
  destruct (solve_brent_spec (logged f) (λ _, True) (λ x s, s = f x)
      (λ log m, 0 ≤ m ∧ ∀ x, x ∈ log → f x ≤ m) (λ _, 0%nat))
    with (low := low) (high := high) (env := @nil Z) (n := n) (warm := warm)
    as (r & s & sl & sh & log & H & _ & -> & Hs & Hz & [_ HB] & -> & Hl & -> & Hh & Hw & _); try done.
  - unfold logged. eauto.
  - unfold logged. intros e x s e' _ [= <- <-]. split_and!; try done; [|lia].
    intros m [Hm Hx] Hle. split; [done|]. intros y [->|Hy]%elem_of_cons; auto.
  - intros e m m' [? Hx] Hle. split; [lia|]. intros x Hin. specialize (Hx x Hin). lia.
  - split; [lia|]. by intros x ?%elem_of_nil.
  - intros x Hx. rewrite (Hwarm x Hx). auto.
  - exists r, log. split_and!; try done.
    + intros x Hx Hin. rewrite <- (Hwarm x Hx). apply (Hw x Hx). unfold in_window.
      apply andb_true_iff. rewrite !Z.leb_le. lia.
    + intros Hout. destruct (decide (low ≤ r ≤ high)) as [|Hn]; [done|].
      assert (f r = 0) as H0 by (apply Hout; lia). rewrite (Hz H0). lia.
Qed.

(** The window is not respected when the score is not unimodal: once a probe
    leaves the bracket, the next one is inverted, [b - a] wraps and the next probe is
    above 2^240.  A score that is positive there makes it the result. *)
Theorem golden_search_can_leave_window :
  ∃ (f : Z → Z) (warm : list (Z * Z)) (r : Z) (log : list Z),
    (∀ x, x ∈ warm → x.2 = f x.1 ∧ 0 ≤ x.1 ≤ 20) ∧
    solve_brent_optimal_warm (logged f) 0 20 [] 40 warm = Done (r, log) ∧ 2 ^ 240 < r.
Proof.
  set (f := λ x, match x with
                 | 3 => 5 | 17 => 4 | 6 => 3 | 13 => 4 | 8 => 6 | 10 => 6
                 | _ => if 2 ^ 240 <? x then 7 else 0 end).
  exists f, [(10, 6)]. do 2 eexists. split; [|split; [vm_compute; reflexivity|reflexivity]].
  intros x [->|?%elem_of_nil]%elem_of_cons; [split; [reflexivity|cbn; lia]|done].
Qed.

Lemma golden_search_terminates_witness :
  ∃ r log, solve_brent_optimal_warm (logged (λ x, Z.max 0 (100 - x))) 0 50 [] 16 [] = Done (r, log) ∧
    (length log ≤ 36)%nat.
Proof.
  apply (golden_search_terminates (logged (λ x, Z.max 0 (100 - x))) length 0 50 [] 16 []).
  - intros e x. exists (Z.max 0 (100 - x)), (x :: e). split; [reflexivity|]. split; [lia|apply le_n].
  - intros x Hx. inversion Hx.
Defined.

Lemma golden_search_optimal_witness :
  ∃ r log, solve_brent_optimal_warm (logged (λ x, Z.max 0 (x * (100 - x)))) 0 100 [] 16 [(20, 1600)] = Done (r, log) ∧
    1600 ≤ Z.max 0 (r * (100 - r)) ∧ 0 ≤ r ≤ 100.
Proof.
  destruct (golden_search_optimal (λ x, Z.max 0 (x * (100 - x))) 0 100 16 [(20, 1600)])
    as (r & log & H & _ & _ & _ & Hw & Hr).
  - lia.
  - intros x. lia.
  - intros x Hx. inversion Hx as [|? ? ? Hx0]; subst; [reflexivity|inversion Hx0].
  - exists r, log. split; [exact H|]. split.
    + apply (Hw (20, 1600)); [left|cbn; lia].
    + apply Hr. intros x Hx. nia.
Defined.
