(* ===== verification/SimSanity.v ===== *)
(** * Sanity limits on a simulation

    [src/src/pipeline/sim_sanity.rs]: the economic floor of a borrow, the profit
    floor of one US cent, the borrow cap given in US dollars, and the gate that
    rejects a simulated profit as a phantom; [probe_insane_gross_phantom] of
    [local_sim.rs] applies it to a probe.  A price is a Chainlink answer (a signed
    256-bit integer with 8 decimals) or a binary64. *)
From Stdlib Require Import SpecFloat.
From S2P Require Import Prelude Word Types Profit Arena LocalSim.

Definition MAX_SUPPORTED_TOKEN_DECIMALS : Z := 30.
Definition MIN_FINAL_PROFIT_USD_CENTS : Z := 1.

Inductive SimSanityReject :=
| UnsupportedTokenDecimals
| AmountBelowEconomicFloor
| InsaneProfitRatio
| InsaneProfitMatic
| OptimizerPinnedAtFloor.

Record SimSanityInput := {
  ss_amount_in : Z;
  ss_gross_profit : Z;
  ss_search_low : Z;
  ss_token_decimals : Z;
  ss_token_to_matic_rate : Z;
}.

(** ** Binary64 *)

Definition f64_is_finite (x : f64) : bool :=
  match x with S754_zero _ | S754_finite _ _ _ => true | _ => false end.

(** [x > 0.0] *)
Definition f64_is_positive (x : f64) : bool :=
  match x with S754_finite false _ _ | S754_infinity false => true | _ => false end.

(** [x.floor()] and [x.round()] (half away from zero) of a positive finite
    number, as the integer they denote. *)
Definition f64_floor (m : positive) (e : Z) : Z :=
  if 0 <=? e then Z.pos m * 2 ^ e else Z.pos m / 2 ^ (- e).
Definition f64_round (m : positive) (e : Z) : Z :=
  if 0 <=? e then Z.pos m * 2 ^ e else (2 * Z.pos m + 2 ^ (- e)) / (2 * 2 ^ (- e)).

Definition million : f64 := S754_finite false 1000000 0.

(** [(x * 1_000_000.0).floor()] (or [.round()]), the test that it is finite and
    positive, and [u64::try_from(_ as u128)]. *)
Definition f64_micros (int : positive → Z → Z) (x : f64) : option Z :=
  match SFmul 53 1024 x million with
  | S754_finite false m e =>
      let micros := int m e in
      if micros <=? 0 then None else if micros <=? u64_max then Some micros else None
  | _ => None
  end.

Definition matic_usd_for_flash_cap (matic_usd : f64) : option f64 :=
  if (f64_is_finite matic_usd && f64_is_positive matic_usd)%bool then Some matic_usd else None.

(** [i128::try_from(raw)] *)
Definition i128_try_from (raw : Z) : option Z :=
  if ((- 2 ^ 127 <=? raw) && (raw <=? i128_max))%bool then Some raw else None.

(** ** Floors *)

Definition min_economic_amount_in (token_decimals token_to_matic_rate : Z) : Z :=
  if MAX_SUPPORTED_TOKEN_DECIMALS <? token_decimals then U256_MAX
  else
    let scale := ten_pow_u256 token_decimals in
    let dust_floor := scale / 1000 in
    let absolute_floor := 1000 in
    if is_zero token_to_matic_rate then Z.max dust_floor absolute_floor
    else
      let_some economic := checked_mul MIN_ECONOMIC_VALUE_MATIC_WEI scale or U256_MAX in
      Z.max (Z.max (economic / token_to_matic_rate) dust_floor) absolute_floor.

(** The MATIC/USD price and its scale. *)
Definition final_profit_price (matic_usd : f64) (matic_usd_chainlink : option Z)
    : option (Z * Z) :=
  match matic_usd_chainlink with
  | Some raw =>
      let? raw := i128_try_from raw in
      if raw <=? 0 then None else Some (raw, 100000000)
  | None =>
      let? usd := matic_usd_for_flash_cap matic_usd in
      let? micros := f64_micros f64_floor usd in
      Some (micros, 1000000)
  end.

Definition min_final_profit_matic_wei (matic_usd : f64) (matic_usd_chainlink : option Z)
    : option Z :=
  let? ps := final_profit_price matic_usd matic_usd_chainlink in
  let? cents := checked_mul MIN_FINAL_PROFIT_USD_CENTS ONE in
  let? numerator := checked_mul cents ps.2 in
  let? denominator := checked_mul ps.1 100 in
  let? less := checked_sub denominator 1 in
  let? sum := checked_add numerator less in
  Some (sum / denominator).

Definition required_profit_matic_wei
    (configured_min_profit : Z) (matic_usd : f64) (matic_usd_chainlink : option Z) : option Z :=
  let? final_floor := min_final_profit_matic_wei matic_usd matic_usd_chainlink in
  Some (Z.max final_floor configured_min_profit).

(** ** The borrow cap *)

Definition max_flash_loan_matic_wei_from_usd_chainlink_8 (usd_cap matic_usd_answer : Z)
    : option Z :=
  if usd_cap =? 0 then None
  else
    let? matic := i128_try_from matic_usd_answer in
    if matic <=? 0 then None
    else
      let? n := checked_mul usd_cap ONE in
      let? numer := checked_mul n 100000000 in
      Some (numer / matic).

Definition max_flash_loan_matic_wei_from_usd (usd_cap : Z) (matic_usd : f64) : option Z :=
  if usd_cap =? 0 then None
  else
    let? usd := matic_usd_for_flash_cap matic_usd in
    let? micros := f64_micros f64_round usd in
    let? n := checked_mul usd_cap ONE in
    let? numer := checked_mul n 1000000 in
    Some (numer / micros).

Definition max_flash_borrow_wei
    (max_flash_loan_usd token_decimals token_to_matic_rate : Z) (matic_usd : f64)
    (matic_usd_chainlink : option Z) : option Z :=
  if ((MAX_SUPPORTED_TOKEN_DECIMALS <? token_decimals) || is_zero token_to_matic_rate)%bool
  then None
  else
    let? max_matic_wei :=
      match matic_usd_chainlink with
      | Some raw => max_flash_loan_matic_wei_from_usd_chainlink_8 max_flash_loan_usd raw
      | None => max_flash_loan_matic_wei_from_usd max_flash_loan_usd matic_usd
      end in
    let scale := ten_pow_u256 token_decimals in
    let? wide := checked_mul max_matic_wei scale in
    checked_div wide token_to_matic_rate.

Record FlashBorrowCapParams := {
  fc_max_flash_loan_usd : Z;
  fc_token_decimals : Z;
  fc_token_to_matic_rate : Z;
  fc_matic_usd : f64;
  fc_matic_usd_chainlink : option Z;
}.

Definition cap_wei (self : FlashBorrowCapParams) : option Z :=
  max_flash_borrow_wei (fc_max_flash_loan_usd self) (fc_token_decimals self)
    (fc_token_to_matic_rate self) (fc_matic_usd self) (fc_matic_usd_chainlink self).

Definition cap_enforced_but_unresolved (self : FlashBorrowCapParams) : bool :=
  ((0 <? fc_max_flash_loan_usd self) && bool_decide (cap_wei self = None))%bool.

Definition amount_within_cap (self : FlashBorrowCapParams) (amount_in : Z) : bool :=
  if ((fc_max_flash_loan_usd self =? 0) || is_zero amount_in)%bool then true
  else match cap_wei self with Some cap => amount_in <=? cap | None => false end.

(** ** The gate: [None] is [Ok(())] *)

Definition check_sim_sanity_fast (input : SimSanityInput) : option SimSanityReject :=
  if MAX_SUPPORTED_TOKEN_DECIMALS <? ss_token_decimals input then Some UnsupportedTokenDecimals
  else if is_zero (ss_amount_in input) then Some AmountBelowEconomicFloor
  else
    let_some v := checked_mul (ss_amount_in input) MAX_SANE_PROFIT_RATIO_BPS
      or Some InsaneProfitRatio in
    if v / BPS_SCALE <? ss_gross_profit input then Some InsaneProfitRatio else None.

Definition optimizer_pin_ceiling (search_low : Z) : option Z :=
  if is_zero search_low then None
  else
    let tol := Z.max (search_low / 50) 1 in
    Some (saturating_add search_low tol).

Definition optimizer_pinned_at_floor (input : SimSanityInput) : bool :=
  let_some pin_ceiling := optimizer_pin_ceiling (ss_search_low input) or false in
  ((ss_amount_in input <=? pin_ceiling) && (ss_amount_in input / 20 <? ss_gross_profit input))%bool.

(** The profit in MATIC is above the cap; the test is skipped below the least
    reliable rate or when the product overflows. *)
Definition insane_matic (input : SimSanityInput) : bool :=
  if MIN_TOKEN_TO_MATIC_RATE <=? ss_token_to_matic_rate input then
    let scale := ten_pow_u256 (ss_token_decimals input) in
    match checked_mul (ss_gross_profit input) (ss_token_to_matic_rate input) with
    | Some v => MAX_SANE_PROFIT_MATIC_WEI <? v / scale
    | None => false
    end
  else false.

Definition check_sim_sanity (input : SimSanityInput) : option SimSanityReject :=
  match check_sim_sanity_fast input with
  | Some reject => Some reject
  | None =>
      let floor := min_economic_amount_in (ss_token_decimals input) (ss_token_to_matic_rate input) in
      let tickless_probe := spot_probe_for_decimals (ss_token_decimals input) in
      let tickless_cap_trade :=
        ((tickless_probe <=? ss_amount_in input) && (ss_amount_in input <? floor))%bool in
      if ((ss_amount_in input <? floor) && negb tickless_cap_trade)%bool
      then Some AmountBelowEconomicFloor
      else if insane_matic input then Some InsaneProfitMatic
      else if (negb tickless_cap_trade && optimizer_pinned_at_floor input)%bool
      then Some OptimizerPinnedAtFloor
      else None
  end.

Definition without_pin (input : SimSanityInput) : SimSanityInput :=
  {| ss_amount_in := ss_amount_in input; ss_gross_profit := ss_gross_profit input;
     ss_search_low := 0; ss_token_decimals := ss_token_decimals input;
     ss_token_to_matic_rate := ss_token_to_matic_rate input |}.

Definition check_sim_sanity_for_dispatch (input : SimSanityInput) : option SimSanityReject :=
  match check_sim_sanity input with
  | None => None
  | Some OptimizerPinnedAtFloor => check_sim_sanity (without_pin input)
  | Some reason => Some reason
  end.

Definition probe_insane_gross_phantom (arena : StateArena) (edges : list Edge)
    (amount token_decimals token_to_matic_rate : Z) : outcome bool :=
  if is_zero amount then Done false
  else
    let!? sim := simulate_route_minimal arena edges amount or false in
    if is_zero (sim_profit sim) then Done false
    else
      Done (match check_sim_sanity
                    {| ss_amount_in := amount; ss_gross_profit := sim_profit sim;
                       ss_search_low := 0; ss_token_decimals := token_decimals;
                       ss_token_to_matic_rate := token_to_matic_rate |} with
            | Some InsaneProfitRatio | Some InsaneProfitMatic => true
            | _ => false
            end).

(** ** The economics of the floors and caps *)

Lemma i128_try_from_Some raw r : i128_try_from raw = Some r → r = raw ∧ raw < 2 ^ 127.
Proof. unfold i128_try_from, i128_max. case_match; [zbool; intros [= <-]; lia|done]. Qed.

Lemma f64_micros_pos int x micros : f64_micros int x = Some micros → 0 < micros ≤ u64_max.
Proof.
  unfold f64_micros. repeat (case_match; try done). intros [= <-]. zbool. lia.
Qed.

(** The price that the borrow cap divides by: the Chainlink answer, or the
    binary64 price in millionths of a dollar. *)
Definition flash_price (matic_usd : f64) (matic_usd_chainlink : option Z) : option (Z * Z) :=
  match matic_usd_chainlink with
  | Some raw => if ((0 <? raw) && (raw <=? i128_max))%bool then Some (raw, 100000000) else None
  | None =>
      let? usd := matic_usd_for_flash_cap matic_usd in
      let? micros := f64_micros f64_round usd in
      Some (micros, 1000000)
  end.

Lemma max_flash_borrow_wei_price usd dec rate mu cl cap :
  max_flash_borrow_wei usd dec rate mu cl = Some cap →
  0 ≤ dec → 0 < usd → 0 ≤ rate →
  ∃ price scale, flash_price mu cl = Some (price, scale) ∧ 0 < price ∧ dec ≤ 30 ∧ 0 < rate ∧
    cap = usd * ONE * scale / price * 10 ^ dec / rate.
Proof.
  unfold max_flash_borrow_wei, flash_price, MAX_SUPPORTED_TOKEN_DECIMALS, is_zero.
  intros H Hdec Husd Hrate. destruct (Z.ltb_spec 30 dec); [done|].
  destruct (Z.eqb_spec rate 0); [done|]. cbn [orb] in H.
  assert (∃ price scale, flash_price mu cl = Some (price, scale) ∧ 0 < price ∧
    (match cl with
     | Some raw => max_flash_loan_matic_wei_from_usd_chainlink_8 usd raw
     | None => max_flash_loan_matic_wei_from_usd usd mu
     end) = (let? n := checked_mul usd ONE in let? m := checked_mul n scale in Some (m / price)))
    as (price & scale & Hp & Hpos & Heq).
  { destruct cl as [raw|]; unfold flash_price, max_flash_loan_matic_wei_from_usd_chainlink_8,
      max_flash_loan_matic_wei_from_usd in *; destruct (Z.eqb_spec usd 0); try lia.
    - destruct (i128_try_from raw) as [r|] eqn:Er; [|done].
      apply i128_try_from_Some in Er as [-> Hr]. destruct (Z.leb_spec raw 0); [done|].
      exists raw, 100000000. split; [|done].
      unfold i128_max. destruct (Z.ltb_spec 0 raw), (Z.leb_spec raw (2 ^ 127 - 1)); done || lia.
    - destruct (matic_usd_for_flash_cap mu); [|done].
      destruct (f64_micros f64_round _) as [micros|] eqn:Em; [|done].
      apply f64_micros_pos in Em. exists micros, 1000000. split; [done|]. split; [lia|done]. }
  exists price, scale. rewrite Heq in H. unfold flash_price in Hp.
  split; [done|]. do 3 (split; [lia|]).
  destruct (checked_mul usd ONE) as [n'|] eqn:E1; [|done]. apply checked_mul_Some in E1 as [-> _].
  destruct (checked_mul (usd * ONE) scale) as [m'|] eqn:E2; [|done]. apply checked_mul_Some in E2 as [-> _].
  rewrite ten_pow_u256_exact in H by lia.
  destruct (checked_mul _ (10 ^ dec)) as [w|] eqn:E3; [|done]. apply checked_mul_Some in E3 as [-> _].
  unfold checked_div in H. destruct (Z.eqb_spec rate 0); [done|]. congruence.
Qed.

(** With a cap configured, an amount accepted as within the cap is worth at
    most the configured number of US dollars, whatever the price source, the
    rate and the token's decimals; without a usable price nothing is accepted. *)
Theorem amount_within_cap_bounds_usd (p : FlashBorrowCapParams) (a : Z) :
  0 < fc_max_flash_loan_usd p → 0 ≤ fc_token_decimals p → 0 ≤ fc_token_to_matic_rate p → 0 < a →
  amount_within_cap p a = true →
  ∃ price scale, flash_price (fc_matic_usd p) (fc_matic_usd_chainlink p) = Some (price, scale) ∧
    0 < price ∧
    a * fc_token_to_matic_rate p * price
      ≤ fc_max_flash_loan_usd p * scale * ONE * 10 ^ fc_token_decimals p.
Proof.
  intros Husd Hdec Hrate Ha. unfold amount_within_cap, is_zero.
  destruct (Z.eqb_spec (fc_max_flash_loan_usd p) 0); [lia|].
  destruct (Z.eqb_spec a 0); [lia|]. cbn [orb].
  destruct (cap_wei p) as [cap|] eqn:Ec; [|done]. intros Hle. zbool. unfold cap_wei in Ec.
  apply max_flash_borrow_wei_price in Ec as (price & scale & Hp & Hpos & _ & Hr & ->); [|done..].
  exists price, scale. split; [done|]. split; [done|].
  set (w := fc_max_flash_loan_usd p * ONE * scale / price) in *.
  pose proof (div_mul_le (w * 10 ^ fc_token_decimals p) _ Hr).
  pose proof (div_mul_le (fc_max_flash_loan_usd p * ONE * scale) _ Hpos). fold w in H0.
  pose proof (Z.pow_pos_nonneg 10 (fc_token_decimals p) ltac:(lia) Hdec).
  assert (a * fc_token_to_matic_rate p ≤ w * 10 ^ fc_token_decimals p) by nia. nia.
Qed.

(** The profit floor is exactly the least number of MATIC wei worth one US cent
    at the price in use; it exists whenever the price is usable. *)
Theorem min_final_profit_is_least (mu : f64) (cl : option Z) (price scale : Z) :
  final_profit_price mu cl = Some (price, scale) →
  ∃ v, min_final_profit_matic_wei mu cl = Some v ∧
    ∀ w, v ≤ w ↔ ONE * scale ≤ w * price * 100.
Proof.
  intros Hp. unfold min_final_profit_matic_wei. rewrite Hp. cbn [fst snd].
  assert (0 < price < 2 ^ 127 ∧ 0 < scale ≤ 100000000) as [Hpr Hsc].
  { unfold final_profit_price in Hp. destruct cl as [raw|].
    - destruct (i128_try_from raw) as [r|] eqn:Er; [|done].
      apply i128_try_from_Some in Er as [-> Hr]. destruct (Z.leb_spec raw 0); [done|].
      injection Hp as <- <-. lia.
    - destruct (matic_usd_for_flash_cap mu); [|done].
      destruct (f64_micros f64_floor _) as [micros|] eqn:Em; [|done].
      apply f64_micros_pos in Em. injection Hp as <- <-. unfold u64_max in Em. lia. }
  unfold checked_mul, checked_sub, checked_add, MIN_FINAL_PROFIT_USD_CENTS.
  unfold ONE. change (1 * 1000000000000000000 <? M256) with true. cbv iota.
  assert (2 ^ 200 < M256) by done. unfold M256 in *.
  destruct (Z.ltb_spec (1 * 1000000000000000000 * scale) (2 ^ 256)); [|lia].
  destruct (Z.ltb_spec (price * 100) (2 ^ 256)); [|lia].
  destruct (Z.leb_spec 1 (price * 100)); [|lia].
  destruct (Z.ltb_spec (1 * 1000000000000000000 * scale + (price * 100 - 1)) (2 ^ 256)); [|lia].
  eexists. split; [done|]. intros w.
  set (n := 1000000000000000000 * scale).
  replace (1 * 1000000000000000000 * scale) with n by (unfold n; lia).
  split; intros Hw.
  - apply Z.lt_pred_le. assert (n + (price * 100 - 1) < (w + 1) * (price * 100)); [|nia].
    pose proof (div_mul_gt (n + (price * 100 - 1)) (price * 100) ltac:(lia)). nia.
  - apply Z.lt_succ_r, div_upper; [lia|]. nia.
Qed.

(** ** The gate *)

Lemma fast_none_iff (i : SimSanityInput) :
  check_sim_sanity_fast i = None ↔
  ss_token_decimals i ≤ 30 ∧ ss_amount_in i ≠ 0 ∧ ss_amount_in i * 50000 < 2 ^ 256 ∧
  ss_gross_profit i ≤ ss_amount_in i * 5.
Proof.
  unfold check_sim_sanity_fast, MAX_SUPPORTED_TOKEN_DECIMALS, is_zero, checked_mul,
    MAX_SANE_PROFIT_RATIO_BPS, BPS_SCALE.
  change M256 with (2 ^ 256). change (from_limbs 10000 0 0 0) with 10000.
  destruct (Z.ltb_spec 30 (ss_token_decimals i)); [split; [done|lia]|].
  destruct (Z.eqb_spec (ss_amount_in i) 0); [split; [done|lia]|].
  destruct (Z.ltb_spec (ss_amount_in i * 50000) (2 ^ 256)); [|split; [done|lia]].
  replace (ss_amount_in i * 50000 / 10000) with (ss_amount_in i * 5)
    by (rewrite (Z.mul_assoc _ 5 10000 : _ * 50000 = _), Z.div_mul; lia).
  destruct (Z.ltb_spec (ss_amount_in i * 5) (ss_gross_profit i)); split; try done; lia.
Qed.

Lemma insane_matic_iff (i : SimSanityInput) :
  insane_matic i = true ↔
  MIN_TOKEN_TO_MATIC_RATE ≤ ss_token_to_matic_rate i ∧
  ss_gross_profit i * ss_token_to_matic_rate i < 2 ^ 256 ∧
  MAX_SANE_PROFIT_MATIC_WEI <
    ss_gross_profit i * ss_token_to_matic_rate i / ten_pow_u256 (ss_token_decimals i).
Proof.
  unfold insane_matic, checked_mul. change M256 with (2 ^ 256).
  destruct (Z.leb_spec MIN_TOKEN_TO_MATIC_RATE (ss_token_to_matic_rate i)); [|split; [done|lia]].
  destruct (Z.ltb_spec (ss_gross_profit i * ss_token_to_matic_rate i) (2 ^ 256)); [|split; [done|lia]].
  destruct (Z.ltb_spec MAX_SANE_PROFIT_MATIC_WEI
    (ss_gross_profit i * ss_token_to_matic_rate i / ten_pow_u256 (ss_token_decimals i)));
    split; try done; lia.
Qed.

Lemma pinned_iff (i : SimSanityInput) :
  0 ≤ ss_search_low i →
  optimizer_pinned_at_floor i = true ↔
  0 < ss_search_low i ∧
  ss_amount_in i ≤ Z.min (ss_search_low i + Z.max (ss_search_low i / 50) 1) U256_MAX ∧
  ss_amount_in i / 20 < ss_gross_profit i.
Proof.
  intros Hl. unfold optimizer_pinned_at_floor, optimizer_pin_ceiling, is_zero, saturating_add.
  destruct (Z.eqb_spec (ss_search_low i) 0); [split; [done|lia]|]. cbv zeta.
  rewrite andb_true_iff, Z.leb_le, Z.ltb_lt. lia.
Qed.

(** Which simulations pass the full gate: a positive input of a supported token,
    a profit of at most five times the input, a size at or above the economic
    floor and not pinned at the search floor with a profit above a twentieth (or a
    tickless-probe size below that floor), and a profit worth at most one MATIC
    where the rate is reliable and the product fits. *)
Theorem check_sim_sanity_accepts_iff (i : SimSanityInput) :
  let floor := min_economic_amount_in (ss_token_decimals i) (ss_token_to_matic_rate i) in
  let value := ss_gross_profit i * ss_token_to_matic_rate i in
  0 ≤ ss_search_low i →
  check_sim_sanity i = None ↔
  ss_token_decimals i ≤ 30 ∧ ss_amount_in i ≠ 0 ∧ ss_amount_in i * 50000 < 2 ^ 256 ∧
  ss_gross_profit i ≤ ss_amount_in i * 5 ∧
  (floor ≤ ss_amount_in i ∧
     ¬ (0 < ss_search_low i ∧
        ss_amount_in i ≤ Z.min (ss_search_low i + Z.max (ss_search_low i / 50) 1) U256_MAX ∧
        ss_amount_in i / 20 < ss_gross_profit i)
   ∨ spot_probe_for_decimals (ss_token_decimals i) ≤ ss_amount_in i < floor) ∧
  ¬ (MIN_TOKEN_TO_MATIC_RATE ≤ ss_token_to_matic_rate i ∧ value < 2 ^ 256 ∧
     MAX_SANE_PROFIT_MATIC_WEI < value / ten_pow_u256 (ss_token_decimals i)).
Proof.
  intros floor value Hl. unfold value. rewrite <- insane_matic_iff, <- pinned_iff by done.
  unfold check_sim_sanity. fold floor.
  destruct (check_sim_sanity_fast i) as [r|] eqn:Ef.
  { split; [done|]. intros (H1 & H2 & H3 & H4 & _).
    rewrite (proj2 (fast_none_iff i)) in Ef; [done|]. auto. }
  apply fast_none_iff in Ef as (H1 & H2 & H3 & H4).
  destruct (Z.ltb_spec (ss_amount_in i) floor), (Z.leb_spec (spot_probe_for_decimals (ss_token_decimals i)) (ss_amount_in i)),
    (insane_matic i), (optimizer_pinned_at_floor i); cbn; split; intuition (try discriminate; try lia).
Qed.

(** The dispatch gate, which retries a pinned result without the pin test, is
    the gate with the pin test switched off: no other reject is ever lost. *)
Theorem dispatch_gate_is_gate_without_pin (i : SimSanityInput) :
  check_sim_sanity_for_dispatch i = check_sim_sanity (without_pin i).
Proof.
  assert (check_sim_sanity_fast (without_pin i) = check_sim_sanity_fast i) as Ef by done.
  assert (insane_matic (without_pin i) = insane_matic i) as Em by done.
  assert (optimizer_pinned_at_floor (without_pin i) = false) as Ep by done.
  unfold check_sim_sanity_for_dispatch, check_sim_sanity. rewrite Ef, Em, Ep.
  cbn [without_pin ss_amount_in ss_token_decimals ss_token_to_matic_rate].
  destruct (check_sim_sanity_fast i) as [r|] eqn:Er.
  { unfold check_sim_sanity_fast in Er. destruct r; [done..|].
    repeat (case_match; simplify_eq). }
  destruct (_ <? _), (_ <=? _), (insane_matic i), (optimizer_pinned_at_floor i); reflexivity.
Qed.

(** The MATIC cap fails open: past 2^256 the product is not tested. *)
Lemma insane_matic_overflow_passes :
  check_sim_sanity {| ss_amount_in := 2 ^ 235; ss_gross_profit := 2 ^ 235; ss_search_low := 0;
    ss_token_decimals := 18; ss_token_to_matic_rate := ONE |} = None.
Proof. reflexivity. Qed.

(** ** Witnesses *)

Definition demo_cap : FlashBorrowCapParams :=
  {| fc_max_flash_loan_usd := 50000; fc_token_decimals := 6; fc_token_to_matic_rate := 4 * ONE;
     fc_matic_usd := S754_zero false; fc_matic_usd_chainlink := Some 25000000 |}.

Lemma amount_within_cap_bounds_usd_witness :
  amount_within_cap demo_cap 49000000000 = true ∧
  ∃ price scale, flash_price (fc_matic_usd demo_cap) (fc_matic_usd_chainlink demo_cap) = Some (price, scale)
    ∧ 0 < price ∧ 49000000000 * (4 * ONE) * price ≤ 50000 * scale * ONE * 10 ^ 6.
Proof.
  split; [reflexivity|].
  exact (amount_within_cap_bounds_usd demo_cap 49000000000 eq_refl ltac:(discriminate) ltac:(discriminate)
    eq_refl eq_refl).
Defined.

Lemma min_final_profit_is_least_witness :
  ∃ v, min_final_profit_matic_wei (S754_finite false 4503599627370496 (-54)) None = Some v ∧
    ∀ w, v ≤ w ↔ ONE * 1000000 ≤ w * 250000 * 100.
Proof. apply (min_final_profit_is_least _ None 250000 1000000). reflexivity. Defined.

Lemma check_sim_sanity_accepts_iff_witness :
  check_sim_sanity {| ss_amount_in := ONE; ss_gross_profit := ONE / 10; ss_search_low := ONE / 2;
    ss_token_decimals := 18; ss_token_to_matic_rate := ONE |} = None.
Proof.
  apply (check_sim_sanity_accepts_iff {| ss_amount_in := ONE; ss_gross_profit := ONE / 10; ss_search_low := ONE / 2;
    ss_token_decimals := 18; ss_token_to_matic_rate := ONE |}); [done|].
  vm_compute. split_and!; try discriminate; try done.
  - left. split; [discriminate|]. intros (_ & H & _). exact (H eq_refl).
  - intros (_ & _ & H). discriminate.
Defined.
