(* ===== verification/TokenRates.v ===== *)
(** * Token rates and decimals

    The parts of [src/src/services/oracle] that the sizing of a trade reads:
    [rates.rs], and from [mod.rs] the decimals look-ups, the spoke expansion of
    the resolvable tokens and the merge of two rate snapshots.  Hash sets and maps
    are [gset]s and [gmap]s; where the code iterates over one, the iteration order
    is a parameter that lists each element once. *)
From stdpp Require Import gmap.
From S2P Require Import Prelude Word Types Arena Realign SimSanity.

(** ** [rates.rs] *)

Definition lookup_matic_rate (token : TokenIndex) (rates : gmap Z Z) : option Z :=
  let? r := rates !! token in
  if MIN_TOKEN_TO_MATIC_RATE <=? r then Some r else None.

Definition has_reliable_matic_rate (token : TokenIndex) (rates : gmap Z Z) : bool :=
  match lookup_matic_rate token rates with Some _ => true | None => false end.

Definition resolve_token_to_matic_rate_or_bootstrap (token : TokenIndex) (rates : gmap Z Z)
  : option Z := lookup_matic_rate token rates.

(** ** Decimals *)

Definition known_token_decimals (token : Address) (hints : gmap Z Z) : option Z :=
  let? d := hints !! token in
  if d <=? MAX_SUPPORTED_TOKEN_DECIMALS then Some d else None.

Definition explicit_decimals_for_index (token : TokenIndex) (arena : StateArena) (hints : gmap Z Z)
  : option Z :=
  let? addr := token_address arena token in known_token_decimals addr hints.

Definition resolve_token_decimals (token : Address) (hints : gmap Z Z) : Z :=
  default 18 (hints !! token).

Definition resolve_token_decimals_for_index (token : TokenIndex) (arena : StateArena)
    (hints : gmap Z Z) : Z :=
  match explicit_decimals_for_index token arena hints with
  | Some d => d
  | None => match token_address arena token with
            | Some addr => resolve_token_decimals addr hints
            | None => 18
            end
  end.

Definition cycle_tokens_have_known_decimals (cycle : FoundCycle) (arena : StateArena)
    (hints : gmap Z Z) : bool :=
  let known token := match explicit_decimals_for_index token arena hints with
                     | Some _ => true | None => false end in
  if (length (fc_edges cycle) =? 0)%nat then false
  else if negb (known (fc_start_token cycle)) then false
  else forallb (λ edge, known (token_in edge) && known (token_out edge))%bool (fc_edges cycle).

(** ** Hub tokens *)

Definition POLYGON_HUB_TOKENS : list Address :=
  [0x0d500B1d8E8eF31E21C99d1Db9A6444d3ADf1270; USDC_E; USDC_NATIVE;
   0xc2132d05d31c914a87c6611c10748aeb04b58e8f; 0x7ceb23fd6bc0add59e62ac25578270cff1b9f619;
   0x1bfd67037b42cf73acf2047067bd4f2c47d9bfd6; 0x8f3cf7ad23cd3cadbd9735aff958023239c6a063;
   0x53e0bca35ec356bd5dddfebbd1fc0fd03fabad39; 0xd6df932a45c0f255f85145f286ea0b292b21c90b;
   0x172370d5cd63279efa6d502dab29171933a610af; 0x0b3f868e0be5597d5db7feb59e1cadbb0fdda50a;
   0x9a71012b13ca4d3d0cdc72a177df3ef03b0e76a3; 0xbbba073c31bf03b8acf7c28ef0738decf3695683;
   0xa1c57f48f0deb89f569dfbe6e2b7f46d33606fd4; 0xb33eaad8d922b1083446dc23f610c2567fb5180f;
   0x5fe2b58c013d7601147dcdd68c143a77499f5531; 0x385eeac5cb85a38a9a07a70c73e0a3271cfb54a7;
   0x03b54a6e9a984069379fae1a4fc4dbae93b3bccd; 0x8505b9d2254a7ae468c0e9dd10ccea3a837aef5c;
   0x50b728d8d964fd00c2d0aad81718b71311fef68a].

Definition is_polygon_hub_token (addr : Address) : bool :=
  existsb (Z.eqb addr) POLYGON_HUB_TOKENS.

Definition resolvable_token_set (rates : gmap Z Z) (arena : StateArena) : gset Z :=
  list_to_set (omap (λ kv, if MIN_TOKEN_TO_MATIC_RATE <=? kv.2 then token_address arena kv.1 else None)
                    (map_to_list rates)).

Definition arena_tokens_without_decimal_hints (arena : StateArena) (hints : gmap Z Z) : nat :=
  length (filter (λ addr, hints !! addr = None) (ai_tokens (sa_inner arena))).

Definition arena_missing_decimal_addresses (arena : StateArena) (hints : gmap Z Z) (limit : nat)
  : list Address :=
  if (limit =? 0)%nat then []
  else
    let unknown := filter (λ addr, hints !! addr = None) (ai_tokens (sa_inner arena)) in
    let hubs := filter (λ addr, is_polygon_hub_token addr = true) unknown in
    let missing := filter (λ addr, is_polygon_hub_token addr = false) unknown in
    take limit (hubs ++ missing).

(** ** Spoke expansion: a breadth-first search over shared pools *)

Definition pool_token_addrs (arena : StateArena) (meta : PoolMeta) : list Address :=
  omap (token_address arena) (pm_tokens meta).

(** [token_to_pools.entry(addr).or_default().push(pool_idx)] *)
Definition index_token (pool_idx : nat) (index : gmap Z (list nat)) (addr : Address)
  : gmap Z (list nat) := <[addr := default [] (index !! addr) ++ [pool_idx]]> index.

Fixpoint index_pools (pool_idx : nat) (pools : list (list Address)) (index : gmap Z (list nat))
  : gmap Z (list nat) :=
  match pools with
  | [] => index
  | addrs :: pools =>
      index_pools (S pool_idx) pools (fold_left (index_token pool_idx) addrs index)
  end.

(** [if resolvable.insert(addr) { queue.push_back(addr); }] *)
Definition visit (rq : gset Z * list Address) (addr : Address) : gset Z * list Address :=
  if bool_decide (addr ∈ rq.1) then rq else ({[addr]} ∪ rq.1, rq.2 ++ [addr]).

Definition visit_pools (pools : list (list Address)) (rq : gset Z * list Address) (ids : list nat)
  : gset Z * list Address :=
  fold_left (λ rq pool_idx, fold_left visit (default [] (pools !! pool_idx)) rq) ids rq.

(** [while let Some(seed) = queue.pop_front()]; [None] is out of fuel. *)
Fixpoint spoke_loop (fuel : nat) (pools : list (list Address)) (index : gmap Z (list nat))
    (rq : gset Z * list Address) : option (gset Z) :=
  match rq.2 with
  | [] => Some rq.1
  | seed :: queue =>
      match fuel with
      | O => None
      | S fuel =>
          let_some ids := index !! seed or spoke_loop fuel pools index (rq.1, queue) in
          spoke_loop fuel pools index (visit_pools pools (rq.1, queue) ids)
      end
  end.

Section expansion.
Context (elems : gset Z → list Z).

Definition expand_hub_spoke_resolvable (fuel : nat) (resolvable : gset Z) (pool_metas : list PoolMeta)
    (arena : StateArena) : option (gset Z) :=
  let resolvable := list_to_set POLYGON_HUB_TOKENS ∪ resolvable in
  if (length pool_metas =? 0)%nat then Some resolvable
  else
    let pool_tokens := pool_token_addrs arena <$> pool_metas in
    spoke_loop fuel pool_tokens (index_pools 0 pool_tokens ∅) (resolvable, elems resolvable).
End expansion.

(** ** Merging rate snapshots *)

Definition MERGED_RATES_SOFT_CAP : nat := 2048.

Section merge.
Context (keys : gmap Z Z → list Z).

Definition needs_merge (prior fresh : gmap Z Z) (refreshed : gset Z) (retain_stale_prior : bool) : bool :=
  (negb retain_stale_prior
   || negb (bool_decide (map_Forall (λ token rate, prior !! token = Some rate) fresh))
   || negb (bool_decide (set_Forall (λ token, is_Some (prior !! token) ↔ is_Some (fresh !! token)) refreshed)))%bool.

Definition merge_token_rates (prior : gmap Z Z) (refreshed_tokens : gset Z) (fresh : gmap Z Z)
    (retain_stale_prior : bool) : gmap Z Z :=
  if bool_decide (prior = ∅) then fresh
  else if negb (needs_merge prior fresh refreshed_tokens retain_stale_prior) then prior
  else
    let merged := fresh ∪ filter (λ kv, kv.1 ∉ refreshed_tokens) prior in
    if (MERGED_RATES_SOFT_CAP <? size merged)%nat then
      let overflow := (size merged - MERGED_RATES_SOFT_CAP)%nat in
      let drop_keys := take overflow (filter (λ t, t ∉ refreshed_tokens) (keys merged)) in
      fold_left (λ m k, delete k m) drop_keys merged
    else merged.
End merge.

(** ** The expansion computes reachability *)

Lemma index_pools_spec pools : ∀ k index a i,
  i ∈ default [] (index_pools k pools index !! a) ↔
  i ∈ default [] (index !! a) ∨ ∃ j addrs, pools !! j = Some addrs ∧ a ∈ addrs ∧ i = (k + j)%nat.
Proof.
  assert (∀ k addrs index a i,
    i ∈ default [] (fold_left (index_token k) addrs index !! a) ↔
    i ∈ default [] (index !! a) ∨ a ∈ addrs ∧ i = k) as Hone.
  { intros k addrs. induction addrs as [|x addrs IH]; intros index a i; cbn [fold_left].
    { set_solver. }
    rewrite IH. unfold index_token. destruct (decide (a = x)) as [->|Hne].
    - rewrite lookup_insert_eq. cbn [default from_option id]. rewrite elem_of_app. set_solver.
    - rewrite lookup_insert_ne by done. set_solver. }
  induction pools as [|addrs pools IH]; intros k index a i; cbn [index_pools].
  { split; [by left|]. intros [?|(j & ? & H & _)]; [done|]. by rewrite lookup_nil in H. }
  rewrite IH, Hone. split.
  - intros [[?|[? ->]]|(j & addrs' & Hj & Ha & ->)]; [by left| |].
    + right. exists 0%nat, addrs. split; [done|]. split; [done|]. lia.
    + right. exists (S j), addrs'. split; [done|]. split; [done|]. lia.
  - intros [?|(j & addrs' & Hj & Ha & ->)]; [by left; left|].
    destruct j as [|j]; [cbn in Hj; simplify_eq; left; right; split; [done|lia]|].
    right. exists j, addrs'. split; [done|]. split; [done|]. lia.
Qed.

Section reach.
Context (pools : list (list Address)).

Definition share (x y : Address) : Prop :=
  ∃ i addrs, pools !! i = Some addrs ∧ x ∈ addrs ∧ y ∈ addrs.

(** All addresses of the pools. *)
Definition pool_universe : gset Z := list_to_set (concat pools).

Definition bfs_measure (rq : gset Z * list Address) : nat :=
  (length rq.2 + size (pool_universe ∖ rq.1))%nat.

(** Visiting keeps the measure: what enters the queue leaves the universe. *)
Lemma visit_all_spec addrs : ∀ rq,
  (∀ a, a ∈ addrs → a ∈ pool_universe) →
  let rq' := fold_left visit addrs rq in
  rq'.1 = rq.1 ∪ list_to_set addrs ∧ bfs_measure rq' = bfs_measure rq ∧
  (∀ a, a ∈ rq.2 → a ∈ rq'.2) ∧
  (∀ a, a ∈ rq'.1 → a ∈ rq.1 ∨ a ∈ rq'.2) ∧ (∀ a, a ∈ rq'.2 → a ∈ rq.2 ∨ a ∈ rq'.1).
Proof using Type.
  induction addrs as [|x addrs IH]; intros [R q] Hin; cbn [fold_left fst snd].
  { split_and!; try done; [set_solver|intros; by left..]. }
  destruct (IH (visit (R, q) x)) as (H1 & H2 & H3 & H4 & H5); [set_solver|].
  unfold visit in *. cbn [fst snd] in *.
  destruct (bool_decide (x ∈ R)) eqn:Ex; [apply bool_decide_eq_true in Ex|apply bool_decide_eq_false in Ex];
    cbn [fst snd] in *.
  { split_and!; try done. rewrite H1. set_solver. }
  split_and!.
  - rewrite H1. set_solver.
  - rewrite H2. unfold bfs_measure. cbn [fst snd]. rewrite length_app. cbn [length].
    assert (pool_universe ∖ R = {[x]} ∪ pool_universe ∖ ({[x]} ∪ R)) as ->.
    { apply set_eq. intros a. destruct (decide (a = x)) as [->|]; [|set_solver].
      assert (x ∈ pool_universe) by (apply Hin; by left). set_solver. }
    rewrite (size_union ({[x]} : gset Z)), size_singleton by set_solver. lia.
  - intros a Ha. apply H3. set_solver.
  - intros a Ha. apply H4 in Ha as [Ha|?]; [|by right].
    apply elem_of_union in Ha as [->%elem_of_singleton|?]; [|by left]. right. apply H3. set_solver.
  - intros a Ha. apply H5 in Ha as [Ha|?]; [|by right].
    apply elem_of_app in Ha as [?|Ha]; [by left|]. apply list_elem_of_singleton in Ha as ->.
    right. rewrite H1. set_solver.
Qed.

Lemma visit_pools_spec ids : ∀ rq,
  let rq' := visit_pools pools rq ids in
  bfs_measure rq' = bfs_measure rq ∧
  (∀ a, a ∈ rq'.1 ↔ a ∈ rq.1 ∨ ∃ i, i ∈ ids ∧ a ∈ default [] (pools !! i)) ∧
  (∀ a, a ∈ rq.2 → a ∈ rq'.2) ∧
  (∀ a, a ∈ rq'.1 → a ∈ rq.1 ∨ a ∈ rq'.2) ∧ (∀ a, a ∈ rq'.2 → a ∈ rq.2 ∨ a ∈ rq'.1).
Proof using Type.
  induction ids as [|i ids IH]; intros rq; cbn [visit_pools fold_left].
  { split_and!; try done; [set_solver|intros; by left..]. }
  destruct (visit_all_spec (default [] (pools !! i)) rq) as (H1 & H2 & H3 & H4 & H5).
  { intros a Ha. unfold pool_universe. apply elem_of_list_to_set.
    destruct (pools !! i) as [addrs|] eqn:Ei; [|by apply elem_of_nil in Ha].
    apply list_elem_of_In, in_concat. exists addrs. split; apply list_elem_of_In; [|done].
    by apply list_elem_of_lookup_2 in Ei. }
  destruct (IH (fold_left visit (default [] (pools !! i)) rq)) as (K1 & K2 & K3 & K4 & K5).
  unfold visit_pools in *. split_and!.
  - congruence.
  - intros a. rewrite K2, H1. set_solver.
  - auto.
  - intros a [Ha|?]%K4; [|by right]. apply H4 in Ha as [?|Ha]; [by left|]. right. auto.
  - intros a [Ha|?]%K5; [|by right]. apply H5 in Ha as [?|Ha]; [by left|]. right. apply K2. by left.
Qed.

Lemma spoke_loop_spec (R0 : gset Z) fuel : ∀ rq,
  (bfs_measure rq ≤ fuel)%nat →
  (∀ a, a ∈ rq.1 → ∃ s, s ∈ R0 ∧ rtc share s a) → (∀ a, a ∈ R0 → a ∈ rq.1) →
  (∀ a, a ∈ rq.2 → a ∈ rq.1) →
  (∀ a b, a ∈ rq.1 → a ∉ rq.2 → share a b → b ∈ rq.1) →
  ∃ R, spoke_loop fuel pools (index_pools 0 pools ∅) rq = Some R ∧
    ∀ a, a ∈ R ↔ ∃ s, s ∈ R0 ∧ rtc share s a.
Proof using Type.
  induction fuel as [|fuel IH]; intros [R q] Hm Hreach HR0 Hq Hclosed; cbn [fst snd] in *.
  { destruct q as [|x q]; [|unfold bfs_measure in Hm; cbn in Hm; lia].
    exists R. split; [done|]. intros a. split; [apply Hreach|]. intros (s & Hs & Hr).
    apply HR0 in Hs. clear Hreach HR0. induction Hr as [|a b c Hab _ IHr]; [done|].
    apply IHr. apply (Hclosed a b); [done|by apply not_elem_of_nil|done]. }
  destruct q as [|x q]; cbn [spoke_loop fst snd].
  { exists R. split; [done|]. intros a. split; [apply Hreach|]. intros (s & Hs & Hr).
    apply HR0 in Hs. clear Hreach HR0. induction Hr as [|a b c Hab _ IHr]; [done|].
    apply IHr. apply (Hclosed a b); [done|by apply not_elem_of_nil|done]. }
  assert (x ∈ R) as HxR by (apply Hq; by left).
  assert (∀ i, i ∈ default [] (index_pools 0 pools ∅ !! x) ↔ ∃ addrs, pools !! i = Some addrs ∧ x ∈ addrs) as Hidx.
  { intros i. rewrite index_pools_spec, lookup_empty. cbn [default from_option id].
    split; [intros [?%elem_of_nil|(j & addrs & ? & ? & ->)]; [done|by exists addrs]|].
    intros (addrs & ? & ?). right. by exists i, addrs. }
  set (ids := index_pools 0 pools ∅ !! x) in *.
  assert (spoke_loop fuel pools (index_pools 0 pools ∅) (visit_pools pools (R, q) (default [] ids)) =
    let_some i := ids or spoke_loop fuel pools (index_pools 0 pools ∅) (R, q) in
      spoke_loop fuel pools (index_pools 0 pools ∅) (visit_pools pools (R, q) i)) as <- by by destruct ids.
  destruct (visit_pools_spec (default [] ids) (R, q)) as (K1 & K2 & K3 & K4 & K5). cbn [fst snd] in *.
  assert (∀ b, share x b → b ∈ (visit_pools pools (R, q) (default [] ids)).1) as Hx.
  { intros b (i & addrs & Hi & Hxi & Hb). apply K2. right. exists i. split; [apply Hidx; by exists addrs|].
    by rewrite Hi. }
  apply IH.
  - rewrite K1. unfold bfs_measure in *. cbn in *. lia.
  - intros a [?|(i & Hi & Ha)]%K2; [auto|]. apply Hidx in Hi as (addrs & Hi & Hxi). rewrite Hi in Ha.
    destruct (Hreach x HxR) as (s & Hs & Hr). exists s. split; [done|].
    eapply rtc_r; [exact Hr|]. by exists i, addrs.
  - intros a Ha. apply K2. left. auto.
  - intros a [Ha|?]%K5; [|done]. apply K2. left. apply Hq. by right.
  - intros a b Ha Hna Hab. destruct (decide (a = x)) as [->|Hne]; [by apply Hx|].
    apply K4 in Ha as [Ha|Ha]; [|done]. apply K2. left. apply (Hclosed a b); [done| |done].
    intros [?|?]%elem_of_cons; [done|]. apply Hna. auto.
Qed.
End reach.

Section expansion_spec.
Context (elems : gset Z → list Z) (elems_spec : ∀ X, elems X ≡ₚ elements X).

(** The expansion returns: as many steps as there are resolvable tokens, hubs and
    pool addresses are enough, in whatever order the set is enumerated.  The result is
    exactly the tokens connected to a hub or a priced token through shared pools. *)
Theorem expand_hub_spoke_reachable (resolvable : gset Z) (metas : list PoolMeta) (arena : StateArena)
    (fuel : nat) :
  let seeds := list_to_set POLYGON_HUB_TOKENS ∪ resolvable in
  let pools := pool_token_addrs arena <$> metas in
  (size seeds + size (pool_universe pools) ≤ fuel)%nat →
  ∃ R, expand_hub_spoke_resolvable elems fuel resolvable metas arena = Some R ∧
    ∀ a, a ∈ R ↔ ∃ s, s ∈ seeds ∧ rtc (share pools) s a.
Proof using elems_spec.
  intros seeds pools Hfuel. unfold expand_hub_spoke_resolvable. fold seeds. fold pools.
  destruct (Nat.eqb_spec (length metas) 0) as [Hnil|_].
  { exists seeds. split; [done|]. intros a. split; [intros; exists a; split; [done|apply rtc_refl]|].
    apply nil_length_inv in Hnil as ->. intros (s & Hs & Hr).
    destruct Hr as [|s b a (i & addrs & Hi & _) _]; [done|]. by destruct i. }
  apply spoke_loop_spec; cbn [fst snd].
  - unfold bfs_measure. cbn [fst snd]. rewrite elems_spec. fold (size seeds).
    assert (size (pool_universe pools ∖ seeds) ≤ size (pool_universe pools))%nat by (apply subseteq_size; set_solver).
    change (length (elements seeds)) with (size seeds). lia.
  - intros a Ha. exists a. split; [done|apply rtc_refl].
  - done.
  - intros a. rewrite elems_spec. apply elem_of_elements.
  - intros a b Ha Hna. destruct Hna. rewrite elems_spec. by apply elem_of_elements.
Qed.
End expansion_spec.

(** ** The merge *)

(** The rate a token should have after a merge: the fresh one; none when its refresh
    failed; otherwise the prior one. *)
Definition merged_rate (prior : gmap Z Z) (refreshed : gset Z) (fresh : gmap Z Z) (t : Z) : option Z :=
  match fresh !! t with
  | Some r => Some r
  | None => if decide (t ∈ refreshed) then None else prior !! t
  end.

Lemma union_filter_rate prior refreshed fresh t :
  (fresh ∪ filter (λ kv, kv.1 ∉ refreshed) prior) !! t = merged_rate prior refreshed fresh t.
Proof.
  unfold merged_rate. destruct (fresh !! t) as [r|] eqn:Ef; [by apply lookup_union_Some_l|].
  rewrite lookup_union_r by done. destruct (decide (t ∈ refreshed)) as [Hin|Hin].
  - apply map_lookup_filter_None. right. intros x _ H. by apply H.
  - destruct (prior !! t) as [p|] eqn:Ep.
    + by apply map_lookup_filter_Some.
    + apply map_lookup_filter_None. by left.
Qed.

Lemma delete_all_lookup ks : ∀ (m : gmap Z Z) t,
  fold_left (λ m k, delete k m) ks m !! t = if decide (t ∈ ks) then None else m !! t.
Proof.
  induction ks as [|k ks IH]; intros m t; cbn [fold_left].
  { by rewrite decide_False by apply not_elem_of_nil. }
  rewrite IH. destruct (decide (t ∈ ks)) as [Hin|Hin].
  - by rewrite decide_True by (by right).
  - destruct (decide (t = k)) as [->|Hne].
    + by rewrite lookup_delete_eq, decide_True by (by left).
    + rewrite lookup_delete_ne, decide_False by (try done; set_solver). done.
Qed.

Section merge_spec.
Context (keys : gmap Z Z → list Z).

(** A merge of rate snapshots gives every token its fresh rate, drops the rate of
    a token whose refresh failed (it never looks current), and keeps the others;
    only unrefreshed tokens can be missing, and only past the cap of 2048 entries. *)
Theorem merge_token_rates_spec (prior : gmap Z Z) (refreshed : gset Z) (fresh : gmap Z Z)
    (retain : bool) (t : Z) :
  let m := merge_token_rates keys prior refreshed fresh retain in
  (m !! t = merged_rate prior refreshed fresh t) ∨
  (m !! t = None) ∧ (t ∉ refreshed) ∧
    (MERGED_RATES_SOFT_CAP < size (fresh ∪ filter (λ kv, kv.1 ∉ refreshed) prior))%nat.
Proof using Type.
  cbv zeta. unfold merge_token_rates.
  destruct (bool_decide (prior = ∅)) eqn:Ep.
  { apply bool_decide_eq_true in Ep as ->. left. unfold merged_rate. rewrite lookup_empty.
    destruct (fresh !! t); [done|]. by destruct (decide _). }
  destruct (needs_merge prior fresh refreshed retain) eqn:Em; cbn [negb].
  - destruct (Nat.ltb_spec MERGED_RATES_SOFT_CAP (size (fresh ∪ filter (λ kv, kv.1 ∉ refreshed) prior)));
      [|left; apply union_filter_rate].
    rewrite delete_all_lookup. destruct (decide (t ∈ take _ _)) as [Hin|_]; [right|left; apply union_filter_rate].
    split_and!; try done. apply elem_of_take in Hin as (i & Hin & _).
    apply list_elem_of_lookup_2, list_elem_of_filter in Hin. by destruct Hin.
  - left. unfold needs_merge in Em. apply orb_false_iff in Em as [[_ Hf]%orb_false_iff Hr].
    apply negb_false_iff, bool_decide_eq_true in Hf. apply negb_false_iff, bool_decide_eq_true in Hr.
    unfold merged_rate. destruct (fresh !! t) as [r|] eqn:Ef.
    + apply (Hf t r Ef).
    + destruct (decide (t ∈ refreshed)) as [Hin|]; [|done].
      destruct (Hr t Hin) as [Hr1 _]. apply eq_None_not_Some. intros [x Hx]%Hr1. congruence.
Qed.
End merge_spec.

(** ** Witness: the set is enumerated in the order of [elements] *)

Lemma expand_hub_spoke_reachable_witness :
  ∃ R, expand_hub_spoke_resolvable elements 40 {[42]} [] (arena_default (λ _ _, 0)) = Some R ∧ 42 ∈ R.
Proof.
  destruct (expand_hub_spoke_reachable elements (λ X, Permutation_refl _) {[42]} [] (arena_default (λ _ _, 0)) 40)
    as (R & HR & Hspec).
  - vm_compute. lia.
  - exists R. split; [exact HR|]. apply Hspec. exists 42. split; [|apply rtc_refl]. apply elem_of_union_r, elem_of_singleton. reflexivity.
Defined.
