(* ===== verification/Ternary.v ===== *)
(** * Sizing a cycle

    [src/src/pipeline/ternary.rs] around the search of [Golden]: the search window
    in start-token units, the clamps that keep it where the route simulates, the
    memoizing evaluator and [optimize_cycle].  The counters and samples recorded for
    diagnosis are left out, except the one that decides whether a failed simulation
    is classified ([SIM_NONE_SAMPLE]).  The iteration orders of the hash maps are
    parameters. *)
From stdpp Require Import gmap.
From Stdlib Require Import SpecFloat.
From S2P Require Import Prelude Word Types Dodo Gas Profit GasOracle Arena Realign LocalSim.
From S2P Require Import Routes RouteSimCache Golden SimSanity TokenRates.

Definition DEFAULT_MAX_FLASH_LOAN_USD : Z := 50000.

Record RouteGasCosting := {
  gc_lookup : RouteGasLookup;
  gc_edges : list Edge;
  gc_calibrated_seed : bool;
}.

Definition resolve (self : RouteGasCosting) (simulated_gas : Z) : Z :=
  if gc_calibrated_seed self
  then lookup_gas_observed_or_seed (gc_lookup self) (gc_edges self) simulated_gas
  else lookup_gas_or_heuristic (gc_lookup self) (gc_edges self) simulated_gas.

Definition sim_failure_is_size_monotonic (failure : option MinimalSimFailure) : bool :=
  match failure with
  | Some (V2ReserveExhausted _ | ClCapExceeded _ | ShallowCl _ | FClSynthetic _ | ClTickless _
          | BalancerMaxInRatio _ | ZeroOutput _ _) => true
  | _ => false
  end.

Record TernarySearchBounds := { tb_low : Z; tb_high : Z; tb_flash_cap : option Z }.

(** [OptimizationResult] of [src/src/pipeline/types.rs]. *)
Record OptimizationResult := {
  or_optimal_input : Z;
  or_expected_gross : Z;
  or_net_profit : Z;
  or_total_gas : Z;
  or_search_low : Z;
}.

Definition optimize_at_amount_cap (arena : StateArena) (edges : list Edge)
    (amount search_low start_decimals start_rate : Z) (shallow_caps : option (list Z))
  : outcome (option OptimizationResult) :=
  let!? sim := simulate_route_minimal_with_caps arena edges amount shallow_caps or None in
  if (is_zero (sim_profit sim)
      || negb (bool_decide (check_sim_sanity
                 {| ss_amount_in := amount; ss_gross_profit := sim_profit sim;
                    ss_search_low := search_low; ss_token_decimals := start_decimals;
                    ss_token_to_matic_rate := start_rate |} = None)))%bool
  then Done None
  else
    Done (Some {| or_optimal_input := amount; or_expected_gross := sim_amount_out sim;
                  or_net_profit := sim_profit sim; or_total_gas := sim_total_gas sim;
                  or_search_low := search_low |}).

(** ** The search window *)

Definition cap_or_default (cap default : Z) : Z := if is_zero cap then default else cap.

(** The capacity of the sold side of a hop, in its own token. *)
Definition hop_capacity (arena : StateArena) (edge : Edge) : option Z :=
  let? state := pool_state arena (pool_index edge) in
  let default_cap := ONE in
  match state, protocol edge with
  | PV2 s, UniswapV2 =>
      let cap := if zero_for_one edge then v2_reserve0 s else v2_reserve1 s in
      Some (cap_or_default cap default_cap)
  | PV3 s, UniswapV3 | PV4 s, UniswapV4 =>
      if (is_zero (cl_sqrt_price_x96 s) || (cl_liquidity s =? 0))%bool then None
      else
        let liq_u := cl_liquidity s in
        let cap :=
          if zero_for_one edge then Z.shiftl liq_u 96 mod M256 / cl_sqrt_price_x96 s
          else Z.shiftr (liq_u *% cl_sqrt_price_x96 s) 96 in
        Some (cap_or_default cap default_cap)
  | PCurve s, (CurveStable | CurveCrypto) =>
      let cap := default 0 (cv_balances s !! Z.to_nat (token_in_idx edge)) in
      Some (cap_or_default cap default_cap)
  | PBalancer s, BalancerV2 =>
      let bal := default 0 (bl_balances s !! Z.to_nat (token_in_idx edge)) in
      let cap := bal / 10 in
      Some (cap_or_default cap default_cap)
  | PDodo s, Dodo =>
      let cap := estimate_dodo_hop_capacity s (token_in_idx edge =? 0) in
      Some (cap_or_default cap default_cap)
  | PWoofi s, Woofi =>
      let idx := Z.to_nat (token_in_idx edge) in
      let cap :=
        if (length (wf_base_states s) <=? idx)%nat then wf_quote_reserve s
        else match wf_base_states s !! idx with Some b => wb_reserve b | None => 0 end in
      Some (cap_or_default cap default_cap)
  | _, _ => Some default_cap
  end.

(** The running minimum of the hop capacities, in start-token units. *)
Record CapacityScan := {
  cs_min_capacity : Z;
  cs_can_normalize_all : bool;
  cs_saw_start_unit_capacity : bool;
}.

Definition saw_capacity (scan : CapacityScan) (capacity : Z) : CapacityScan :=
  {| cs_min_capacity := Z.min capacity (cs_min_capacity scan);
     cs_can_normalize_all := cs_can_normalize_all scan; cs_saw_start_unit_capacity := true |}.

Definition cannot_normalize (scan : CapacityScan) : CapacityScan :=
  {| cs_min_capacity := cs_min_capacity scan; cs_can_normalize_all := false;
     cs_saw_start_unit_capacity := cs_saw_start_unit_capacity scan |}.

(** The capacity of a hop of another token at the oracle rates. *)
Definition fx_capacity (arena : StateArena) (rates decimals : gmap Z Z) (start_rate start_scale : Z)
    (edge : Edge) (capacity : Z) : option Z :=
  let? token_in_rate := resolve_token_to_matic_rate_or_bootstrap (token_in edge) rates in
  if (is_zero token_in_rate || is_zero start_rate)%bool then None
  else
    let? token_in_decimals := explicit_decimals_for_index (token_in edge) arena decimals in
    let token_in_scale := ten_pow_u256 token_in_decimals in
    let num := capacity *%% token_in_rate *%% start_scale in
    let den := start_rate *%% token_in_scale in
    let capacity := u512_to_u256 (num / den) in
    Some (if bool_decide (protocol edge = BalancerV2) then capacity / 2 else capacity).

(** [for edge in &cycle.edges]; [None] is [return None]. *)
Fixpoint scan_capacities (arena : StateArena) (rates decimals : gmap Z Z)
    (start_token start_rate start_scale : Z) (edges : list Edge) (scan : CapacityScan)
  : option CapacityScan :=
  match edges with
  | [] => Some scan
  | edge :: edges =>
      let? capacity := hop_capacity arena edge in
      let scan :=
        if token_in edge =? start_token then saw_capacity scan capacity
        else match fx_capacity arena rates decimals start_rate start_scale edge capacity with
             | Some capacity => saw_capacity scan capacity
             | None => cannot_normalize scan
             end in
      scan_capacities arena rates decimals start_token start_rate start_scale edges scan
  end.

(** From the bottleneck capacity to the window: the economic floor, the dollar cap and
    the one-percent floor. *)
Definition raw_window (min_capacity start_decimals start_rate : Z) (flash_cap_wei : option Z)
  : Z * Z :=
  let low := min_capacity / 5000 in
  let high := min_capacity / 10 in
  let low :=
    if is_zero start_rate then low
    else Z.max low (min_economic_amount_in start_decimals start_rate) in
  let high :=
    if is_zero start_rate then high
    else match flash_cap_wei with Some max_wei => Z.min high max_wei | None => high end in
  let effective_floor := Z.max (high / 100) 1 in
  let final_low := Z.max low effective_floor in
  let final_high := if final_low <? high then high else final_low +% 1 in
  (final_low, final_high).

Definition clamp_to_liquidity (window : Z * Z) (liquidity_cap : option Z) : Z * Z :=
  match liquidity_cap with
  | Some cap =>
      if is_zero cap then window
      else
        let out_high := Z.min window.2 cap in
        let out_low :=
          if out_high <=? window.1 then Z.max (saturating_sub out_high 1) 1 else window.1 in
        (out_low, out_high)
  | None => window
  end.

(** The last block: the economic floor wins over the caps. *)
Definition floor_window (window : Z * Z) (economic_floor : Z) (flash_cap_wei : option Z)
  : option (Z * Z) :=
  let '(out_low, out_high) := window in
  let out_low :=
    if ((out_low <? economic_floor) && (economic_floor <=? out_high))%bool
    then economic_floor else out_low in
  let out_high :=
    if out_high <? economic_floor then
      let raised := saturating_mul economic_floor 100 in
      match flash_cap_wei with Some max_wei => Z.min raised max_wei | None => raised end
    else out_high in
  let out_low := if out_low <? economic_floor then economic_floor else out_low in
  let out_high := if out_high <=? out_low then saturating_add out_low 1 else out_high in
  if ((out_high <=? out_low) || (out_high <? economic_floor))%bool then None
  else Some (out_low, out_high).

Definition compute_ternary_search_bounds (cycle : FoundCycle) (arena : StateArena)
    (rates decimals : gmap Z Z) (start_rate start_decimals max_flash_loan_usd : Z) (matic_usd : f64)
    (matic_usd_chainlink : option Z) (liquidity_cap : option Z) : option TernarySearchBounds :=
  let flash_cap_params :=
    {| fc_max_flash_loan_usd := max_flash_loan_usd; fc_token_decimals := start_decimals;
       fc_token_to_matic_rate := start_rate; fc_matic_usd := matic_usd;
       fc_matic_usd_chainlink := matic_usd_chainlink |} in
  if cap_enforced_but_unresolved flash_cap_params then None
  else
    let start_scale := ten_pow_u256 start_decimals in
    let? scan :=
      scan_capacities arena rates decimals (fc_start_token cycle) start_rate start_scale
        (fc_edges cycle)
        {| cs_min_capacity := U256_MAX; cs_can_normalize_all := true;
           cs_saw_start_unit_capacity := false |} in
    let min_capacity :=
      if (negb (cs_saw_start_unit_capacity scan) || is_zero (cs_min_capacity scan)
          || (cs_min_capacity scan =? U256_MAX))%bool
      then ONE *% 100 else cs_min_capacity scan in
    let flash_cap_wei := if is_zero start_rate then None else cap_wei flash_cap_params in
    let economic_floor := min_economic_amount_in start_decimals start_rate in
    let? window :=
      floor_window
        (clamp_to_liquidity (raw_window min_capacity start_decimals start_rate flash_cap_wei)
           liquidity_cap)
        economic_floor flash_cap_wei in
    Some {| tb_low := window.1; tb_high := window.2; tb_flash_cap := flash_cap_wei |}.

(** ** The clamps *)

(** The largest profitable seed: amount, profit, gas. *)
Definition largest_seed (seeds : list (Z * MinimalSimResult)) : Z * Z * Z :=
  fold_left (λ best seed,
    if (negb (is_zero (sim_profit seed.2)) && (best.1.1 <? seed.1))%bool
    then (seed.1, sim_profit seed.2, sim_total_gas seed.2) else best) seeds (0, 0, 0).

(** The size where the gross profit covers the gas at the seed's return, with a
    fifth of headroom. *)
Definition breakeven_high (best_amt best_profit best_gas : Z) (ctx : ProfitEvalContext) : option Z :=
  if (negb (is_zero best_profit) && negb (is_zero best_amt) && (0 <? best_gas)
      && negb (is_zero (cx_gas_price ctx)) && negb (is_zero (cx_token_to_matic_rate ctx)))%bool
  then
    let gas_units := scaled_simulated_gas best_gas (cx_gas_scale_bps ctx) in
    let gas_cost_matic := saturating_mul (cx_gas_price ctx) gas_units in
    let scale := ten_pow_u256 (cx_token_decimals ctx) in
    let gas_cost_start :=
      default 0 (checked_div (saturating_mul gas_cost_matic scale) (cx_token_to_matic_rate ctx)) in
    if is_zero gas_cost_start then None
    else
      let breakeven := default 0 (checked_div (saturating_mul best_amt gas_cost_start) best_profit) in
      Some (default breakeven (checked_div (saturating_mul breakeven 12) 10))
  else None.

Definition clamp_brent_high_to_probe_seeds (high low economic_floor : Z) (flash_cap : option Z)
    (seeds : list (Z * MinimalSimResult)) (profit_ctx : option ProfitEvalContext) : option Z :=
  let '(max_feasible_seed, best_profit, best_gas) := largest_seed seeds in
  if is_zero max_feasible_seed then None
  else
    let seed_high := saturating_mul max_feasible_seed 8 in
    let seed_high :=
      match profit_ctx ≫= breakeven_high max_feasible_seed best_profit best_gas with
      | Some with_headroom => Z.max seed_high with_headroom
      | None => seed_high
      end in
    if seed_high <? economic_floor then None
    else if high <? seed_high then
      let raised := Z.min seed_high (saturating_mul high 16) in
      if high <? raised
      then Some (match flash_cap with Some cap => Z.min raised cap | None => raised end)
      else None
    else if high <=? seed_high then None
    else if seed_high <=? low then Some (saturating_add low 1)
    else Some seed_high.

(** A bisection: [lo] passes the test, [hi] does not. *)
Fixpoint bisect (fuel : nat) (feasible : Z → outcome bool) (lo hi : Z) : outcome (Z * Z) :=
  match fuel with
  | O => Done (lo, hi)
  | S fuel =>
      if hi <=? saturating_add lo 1 then Done (lo, hi)
      else
        let mid := lo +% (hi -% lo) / 2 in
        let! ok := feasible mid in
        if ok then bisect fuel feasible mid hi else bisect fuel feasible lo mid
  end.

Inductive ClDepthHighClamp := Noop | ClClamped (high : Z) | ClWindowInfeasible.

Definition simulates (arena : StateArena) (edges : list Edge) (shallow_caps : option (list Z))
    (amount : Z) : outcome bool :=
  let! r := simulate_route_minimal_with_caps arena edges amount shallow_caps in
  Done (match r with Some _ => true | None => false end).

Definition clamp_brent_high_to_cl_feasible (arena : StateArena) (edges : list Edge)
    (low high economic_floor : Z) (shallow_caps : option (list Z)) : outcome ClDepthHighClamp :=
  if negb (existsb (λ edge, is_cl (protocol edge)) edges) then Done Noop
  else
    let! high_ok := simulates arena edges shallow_caps high in
    if high_ok then Done Noop
    else
      let floor := if low <? economic_floor then economic_floor else low in
      if high <=? floor then Done ClWindowInfeasible
      else
        let! floor_ok := simulates arena edges shallow_caps floor in
        if negb floor_ok then Done ClWindowInfeasible
        else
          let! r := bisect 12 (simulates arena edges shallow_caps) floor high in
          Done (if ((r.1 <? high) && (floor <=? r.1))%bool then ClClamped r.1
                else ClWindowInfeasible).

Inductive BalancerHighClamp := BalWindowInfeasible | BalClamped (low high : Z).

Definition under_max_in (arena : StateArena) (edges : list Edge) (amount : Z) : outcome bool :=
  let! f := minimal_sim_failure arena edges amount in
  Done (match f with Some (BalancerMaxInRatio _) => false | _ => true end).

(** [lo * 95 / 100] *)
Definition haircut (lo : Z) : Z := saturating_mul lo 95 / 100.

Definition balancer_max_in_high_clamp (arena : StateArena) (edges : list Edge)
    (low high economic_floor : Z) : outcome (option BalancerHighClamp) :=
  if ((high <=? low)
      || negb (existsb (λ e, bool_decide (protocol e = BalancerV2)) edges))%bool
  then Done None
  else
    let search_low := low in
    let! low_ok := under_max_in arena edges low in
    if negb low_ok then
      let floor := Z.min economic_floor low in
      if is_zero floor then Done (Some BalWindowInfeasible)
      else
        let! floor_ok := under_max_in arena edges floor in
        if negb floor_ok then Done (Some BalWindowInfeasible)
        else
          let! r := bisect 48 (under_max_in arena edges) floor low in
          let lo := r.1 in
          let clamped := if haircut lo <? floor then floor else haircut lo in
          Done (Some (if clamped <=? floor
                      then BalClamped floor (Z.min (saturating_add floor 1) (Z.max lo floor))
                      else BalClamped floor clamped))
    else
      let! high_ok := under_max_in arena edges high in
      if high_ok then Done None
      else
        let! r := bisect 48 (under_max_in arena edges) search_low high in
        let clamped :=
          if haircut r.1 <=? search_low then saturating_add search_low 1 else haircut r.1 in
        Done (if clamped <? high then Some (BalClamped search_low clamped) else None).

(** ** From the window to the plan of the search *)

Inductive Plan := NoPlan | PlanAtCap (tickless_high : Z) | PlanSearch (low high : Z).

(** Seeds below the window that are worth keeping in it: the largest one, if no
    profitable seed is inside. *)
Definition reinclude_seed (low high economic_floor : Z) (seeds : list (Z * MinimalSimResult)) : Z * Z :=
  let profitable := filter (λ s, is_zero (sim_profit s.2) = false) seeds in
  let any_in_window := existsb (λ s, in_window low high (s.1, 0)) profitable in
  let best_below_low :=
    fold_left (λ best s,
      if ((s.1 <? low) && (economic_floor <=? s.1) && (best <? s.1))%bool then s.1 else best)
      profitable 0 in
  if (negb any_in_window && negb (is_zero best_below_low))%bool
  then (best_below_low, if high <=? best_below_low then saturating_add best_below_low 1 else high)
  else (low, high).

(** The clamps after the tickless cap, in the code's order. *)
Definition clamp_window (arena : StateArena) (edges : list Edge) (low high economic_floor : Z)
    (flash_cap : option Z) (seed_sims : option (list (Z * MinimalSimResult)))
    (profit_ctx : ProfitEvalContext) (shallow_caps : option (list Z)) : outcome Plan :=
  let high :=
    match seed_sims with
    | Some seeds =>
        default high (clamp_brent_high_to_probe_seeds high low economic_floor flash_cap seeds
                        (Some profit_ctx))
    | None => high
    end in
  let! balancer := balancer_max_in_high_clamp arena edges low high economic_floor in
  let window :=
    match balancer with
    | Some BalWindowInfeasible => None
    | Some (BalClamped new_low new_high) =>
        if new_high <=? new_low then None else Some (new_low, new_high)
    | None => Some (low, high)
    end in
  match window with
  | None => Done NoPlan
  | Some (low, high) =>
      let! cl := clamp_brent_high_to_cl_feasible arena edges low high economic_floor shallow_caps in
      let window :=
        match cl with
        | Noop => Some (low, high)
        | ClWindowInfeasible => None
        | ClClamped clamped => if clamped <=? low then None else Some (low, clamped)
        end in
      Done (match window with
            | None => NoPlan
            | Some (low, high) =>
                let '(low, high) :=
                  match seed_sims with
                  | Some seeds => reinclude_seed low high economic_floor seeds
                  | None => (low, high)
                  end in
                PlanSearch low high
            end)
  end.

Definition plan_search (arena : StateArena) (cycle : FoundCycle) (bounds : TernarySearchBounds)
    (economic_floor : Z) (seed_sims : option (list (Z * MinimalSimResult)))
    (profit_ctx : ProfitEvalContext) (shallow_caps : option (list Z)) : outcome Plan :=
  let edges := fc_edges cycle in
  let low := tb_low bounds in
  let high := tb_high bounds in
  match tickless_cl_start_input_cap arena (fc_start_token cycle) edges with
  | Some tickless_high =>
      if is_zero tickless_high then Done NoPlan
      else if tickless_high <? economic_floor then Done (PlanAtCap tickless_high)
      else
        let high := Z.min high tickless_high in
        if high <=? low then Done NoPlan
        else clamp_window arena edges low high economic_floor (tb_flash_cap bounds) seed_sims
               profit_ctx shallow_caps
  | None =>
      clamp_window arena edges low high economic_floor (tb_flash_cap bounds) seed_sims profit_ctx
        shallow_caps
  end.

(** ** The evaluator *)

(** What the closure captures mutably, and the shared state it touches: the local memo,
    the route cache, the infeasible wall and the sampling counter. *)
Record EvalEnv := {
  ev_sim_cache : gmap Z MinimalSimResult;
  ev_route_cache : RouteSimCache;
  ev_first_infeasible : Z;
  ev_sample : Z;
}.

Definition set_route_cache (env : EvalEnv) (c : RouteSimCache) : EvalEnv :=
  {| ev_sim_cache := ev_sim_cache env; ev_route_cache := c;
     ev_first_infeasible := ev_first_infeasible env; ev_sample := ev_sample env |}.

Definition set_infeasible (env : EvalEnv) (amount : Z) : EvalEnv :=
  {| ev_sim_cache := ev_sim_cache env; ev_route_cache := ev_route_cache env;
     ev_first_infeasible := amount; ev_sample := ev_sample env |}.

(** [if sim_cache.len() < BRENT_CACHE_SLOTS { sim_cache.insert(amount, sim); }] *)
Definition memoize (env : EvalEnv) (amount : Z) (sim : MinimalSimResult) : EvalEnv :=
  if (size (ev_sim_cache env) <? BRENT_CACHE_SLOTS)%nat
  then {| ev_sim_cache := <[amount := sim]> (ev_sim_cache env);
          ev_route_cache := ev_route_cache env;
          ev_first_infeasible := ev_first_infeasible env; ev_sample := ev_sample env |}
  else env.

(** [should_sample_brent_sim_none] *)
Definition should_sample (env : EvalEnv) : bool * EvalEnv :=
  (ev_sample env mod 16 =? 0,
   {| ev_sim_cache := ev_sim_cache env; ev_route_cache := ev_route_cache env;
      ev_first_infeasible := ev_first_infeasible env; ev_sample := wrap_u 32 (ev_sample env + 1) |}).

Section optimize.
Context (fees : FlashFees).
Context (keys : gmap RouteSimKey MinimalSimResult → list RouteSimKey).
Context (iter_sims : gmap Z MinimalSimResult → list (Z * MinimalSimResult)).

Section evaluator.
Context (arena : StateArena) (edges : list Edge) (shallow_caps : option (list Z)).
Context (low high economic_floor start_decimals start_rate : Z) (profit_ctx : ProfitEvalContext).
Context (route_gas : option RouteGasCosting) (route_key : option (Z * Z)).

(** [if let Some(costing) = route_gas { sim.total_gas = costing.resolve(sim.total_gas); }] *)
Definition resolved (sim : MinimalSimResult) : MinimalSimResult :=
  match route_gas with
  | Some costing =>
      {| sim_profit := sim_profit sim; sim_amount_out := sim_amount_out sim;
         sim_total_gas := resolve costing (sim_total_gas sim) |}
  | None => sim
  end.

Definition route_get (env : EvalEnv) (amount : Z) : option MinimalSimResult * EvalEnv :=
  match route_key with
  | Some (revision, fp) =>
      let '(cached, c) := get revision fp edges amount (ev_route_cache env) in
      (cached, set_route_cache env c)
  | None => (None, env)
  end.

Definition route_insert (env : EvalEnv) (amount : Z) (sim : MinimalSimResult) : EvalEnv :=
  match route_key with
  | Some (revision, fp) =>
      set_route_cache env (insert keys revision fp edges amount sim (ev_route_cache env))
  | None => env
  end.

Definition memo_score (sim : MinimalSimResult) (amount : Z) : Z :=
  if is_zero (sim_profit sim) then 0 else brent_score_matic_from_sim fees sim amount profit_ctx.

(** The failure is classified: an amount-independent one takes the wall down. *)
Definition reclassify (env : EvalEnv) (amount : Z) : outcome (Z * EvalEnv) :=
  let! failure := minimal_sim_failure arena edges amount in
  Done (0, if sim_failure_is_size_monotonic failure then env
           else set_infeasible env (saturating_add high 1)).

Definition evaluate_fresh (env : EvalEnv) (amount : Z) : outcome (Z * EvalEnv) :=
  if ev_first_infeasible env <=? amount then Done (0, env)
  else
    let! r := simulate_route_minimal_with_caps arena edges amount shallow_caps in
    match r with
    | Some sim =>
        let env := route_insert env amount sim in
        let sim := resolved sim in
        let env := memoize env amount sim in
        if is_zero (sim_profit sim) then Done (0, env)
        else if negb (bool_decide (check_sim_sanity_fast
                  {| ss_amount_in := amount; ss_gross_profit := sim_profit sim;
                     ss_search_low := low; ss_token_decimals := start_decimals;
                     ss_token_to_matic_rate := start_rate |} = None))
        then Done (0, env)
        else Done (brent_score_matic_from_sim fees sim amount profit_ctx, env)
    | None =>
        let first_sim_none := high <? ev_first_infeasible env in
        let env := set_infeasible env amount in
        if first_sim_none then reclassify env amount
        else
          let '(sampled, env) := should_sample env in
          if sampled then reclassify env amount else Done (0, env)
    end.

Definition evaluate (env : EvalEnv) (amount : Z) : outcome (Z * EvalEnv) :=
  if amount <? economic_floor then Done (0, env)
  else match ev_sim_cache env !! amount with
  | Some sim => Done (memo_score sim amount, env)
  | None =>
      let '(cached, env) := route_get env amount in
      match cached with
      | Some cached =>
          let cached := resolved cached in
          Done (memo_score cached amount, memoize env amount cached)
      | None => evaluate_fresh env amount
      end
  end.

(** [for (amount, sim) in seeds] until the memo is full. *)
Definition seed_sim_cache (seeds : list (Z * MinimalSimResult)) : gmap Z MinimalSimResult :=
  fold_left (λ cache seed,
    if (BRENT_CACHE_SLOTS <=? size cache)%nat then cache
    else <[seed.1 := resolved seed.2]> cache) seeds ∅.

Definition warm_scores (cache : gmap Z MinimalSimResult) : list (Z * Z) :=
  omap (λ seed, if in_window low high (seed.1, 0)
                then Some (seed.1, brent_score_matic_from_sim fees seed.2 seed.1 profit_ctx)
                else None) (iter_sims cache).

Definition search_iterations (max_iterations : option Z)
    (seed_sims : option (list (Z * MinimalSimResult))) : Z :=
  let base_iters := default DEFAULT_BRENT_ITERATIONS max_iterations in
  let all_seed_zero_gross :=
    match seed_sims with
    | Some s => forallb (λ seed, is_zero (sim_profit seed.2)) s
    | None => false
    end in
  if all_seed_zero_gross then Z.min base_iters 6 else base_iters.

(** The simulation at the optimum: the memo, the route cache or a fresh walk. *)
Definition optimal_sim (env : EvalEnv) (optimal : Z)
  : outcome (option MinimalSimResult * EvalEnv) :=
  match ev_sim_cache env !! optimal with
  | Some cached => Done (Some cached, env)
  | None =>
      let '(cached, env) := route_get env optimal in
      match cached with
      | Some raw => Done (Some (resolved raw), env)
      | None =>
          let! r := simulate_route_minimal_with_caps arena edges optimal shallow_caps in
          Done (resolved <$> r, env)
      end
  end.

(** The gates on the simulated optimum. *)
Definition accept_optimal (optimal : Z) (sim : MinimalSimResult) : option OptimizationResult :=
  if is_zero (sim_profit sim) then None
  else
    let sanity_input :=
      {| ss_amount_in := optimal; ss_gross_profit := sim_profit sim; ss_search_low := low;
         ss_token_decimals := start_decimals; ss_token_to_matic_rate := start_rate |} in
    if negb (bool_decide (check_sim_sanity_for_dispatch sanity_input = None)) then None
    else
      Some {| or_optimal_input := optimal; or_expected_gross := sim_amount_out sim;
              or_net_profit := sim_profit sim; or_total_gas := sim_total_gas sim;
              or_search_low :=
                if bool_decide (check_sim_sanity sanity_input = None) then low else 0 |}.

Definition optimize_in_window (route_cache : RouteSimCache) (sample : Z)
    (max_iterations : option Z) (seed_sims : option (list (Z * MinimalSimResult)))
  : outcome (option OptimizationResult * EvalEnv) :=
  let cache := match seed_sims with Some seeds => seed_sim_cache seeds | None => ∅ end in
  let env := {| ev_sim_cache := cache; ev_route_cache := route_cache;
                ev_first_infeasible := saturating_add high 1; ev_sample := sample |} in
  let! r := solve_brent_optimal_warm evaluate low high env
              (search_iterations max_iterations seed_sims) (warm_scores cache) in
  let optimal := r.1 in
  let env := r.2 in
  if optimal <? economic_floor then Done (None, env)
  else
    let! o := optimal_sim env optimal in
    Done (o.1 ≫= accept_optimal optimal, o.2).
End evaluator.

(** [explicit_decimals_for_index(..).or_else(|| token_decimals.is_empty().then(..))] *)
Definition start_decimals_of (arena : StateArena) (start_token : TokenIndex) (decimals : gmap Z Z)
  : option Z :=
  match explicit_decimals_for_index start_token arena decimals with
  | Some d => Some d
  | None => if bool_decide (decimals = ∅)
            then Some (resolve_token_decimals_for_index start_token arena decimals) else None
  end.

Definition optimize_cycle (arena : StateArena) (cycle : FoundCycle) (rates decimals : gmap Z Z)
    (max_flash_loan_usd : option Z) (matic_usd : f64) (matic_usd_chainlink : option Z)
    (max_iterations liquidity_cap : option Z) (profit_ctx : ProfitEvalContext)
    (seed_sims : option (list (Z * MinimalSimResult))) (route_gas : option RouteGasCosting)
    (route_key : option (Z * Z)) (route_cache : RouteSimCache) (sample : Z)
  : outcome (option OptimizationResult * RouteSimCache * Z) :=
  let unchanged := Done (None, route_cache, sample) in
  let_some start_rate := resolve_token_to_matic_rate_or_bootstrap (fc_start_token cycle) rates
    or unchanged in
  if is_zero start_rate then unchanged
  else
  let_some start_decimals := start_decimals_of arena (fc_start_token cycle) decimals or unchanged in
  let economic_floor := min_economic_amount_in start_decimals start_rate in
  let edges := fc_edges cycle in
  let_some bounds :=
    compute_ternary_search_bounds cycle arena rates decimals start_rate start_decimals
      (default DEFAULT_MAX_FLASH_LOAN_USD max_flash_loan_usd) matic_usd matic_usd_chainlink
      liquidity_cap
    or unchanged in
  let! shallow_caps := precompute_route_shallow_caps arena edges in
  let! plan := plan_search arena cycle bounds economic_floor seed_sims profit_ctx shallow_caps in
  match plan with
  | NoPlan => unchanged
  | PlanAtCap tickless_high =>
      let! r := optimize_at_amount_cap arena edges tickless_high tickless_high start_decimals
                  start_rate shallow_caps in
      Done (r, route_cache, sample)
  | PlanSearch low high =>
      let! r := optimize_in_window arena edges shallow_caps low high economic_floor start_decimals
                  start_rate profit_ctx route_gas route_key route_cache sample max_iterations
                  seed_sims in
      Done (r.1, ev_route_cache r.2, ev_sample r.2)
  end.
End optimize.

(** ** The search reports simulations *)

Lemma brent_score_nonneg fees sim a ctx : 0 ≤ brent_score_matic_from_sim fees sim a ctx.
Proof. unfold brent_score_matic_from_sim, saturating_sub. destruct (probe_matic_parts _ _ _ _); lia. Qed.

Lemma dispatch_search_low i :
  check_sim_sanity_for_dispatch i = None →
  check_sim_sanity
    {| ss_amount_in := ss_amount_in i; ss_gross_profit := ss_gross_profit i;
       ss_search_low := if bool_decide (check_sim_sanity i = None) then ss_search_low i else 0;
       ss_token_decimals := ss_token_decimals i;
       ss_token_to_matic_rate := ss_token_to_matic_rate i |} = None.
Proof.
  unfold check_sim_sanity_for_dispatch.
  destruct (check_sim_sanity i) as [[]|] eqn:E; try done; case_bool_decide; try done.
Qed.

(** Only the tickless cap plans a single size. *)
Lemma clamp_window_not_at_cap arena edges low high floor cap seeds ctx caps t :
  clamp_window arena edges low high floor cap seeds ctx caps ≠ Done (PlanAtCap t).
Proof.
  unfold clamp_window.
  destruct (balancer_max_in_high_clamp _ _ _ _ _) as [[[|? ?]|]|]; cbn [obind]; try done;
    try destruct (_ <=? _); try done;
    (destruct (clamp_brent_high_to_cl_feasible _ _ _ _ _ _) as [[|?|]|]; cbn [obind]; try done;
     try destruct (_ <=? _); try done; destruct seeds; try done; by destruct (reinclude_seed _ _ _ _)).
Qed.

Lemma plan_at_cap arena cycle bounds floor seeds ctx caps t :
  plan_search arena cycle bounds floor seeds ctx caps = Done (PlanAtCap t) →
  tickless_cl_start_input_cap arena (fc_start_token cycle) (fc_edges cycle) = Some t.
Proof.
  unfold plan_search. destruct (tickless_cl_start_input_cap _ _ _) as [t'|];
    [|by intros H%clamp_window_not_at_cap].
  destruct (is_zero t'); [done|]. destruct (_ <? _); [by intros [= ->]|].
  destruct (_ <=? _); [done|by intros H%clamp_window_not_at_cap].
Qed.

Section optimize_spec.
Context (fees : FlashFees).
Context (keys : gmap RouteSimKey MinimalSimResult → list RouteSimKey).
Context (keys_spec : ∀ m, keys m ≡ₚ (map_to_list m).*1).
Context (iter_sims : gmap Z MinimalSimResult → list (Z * MinimalSimResult)).
Context (iter_spec : ∀ m, iter_sims m ≡ₚ map_to_list m).

Section evaluator_spec.
Context (arena : StateArena) (edges : list Edge) (shallow_caps : option (list Z)).
Context (low high economic_floor start_decimals start_rate : Z) (profit_ctx : ProfitEvalContext).
Context (route_gas : option RouteGasCosting) (route_key : option (Z * Z)).

Definition sim_at (a : Z) (raw : MinimalSimResult) : Prop :=
  simulate_route_minimal_with_caps arena edges a shallow_caps = Done (Some raw).

(** The shared cache answers this route at this revision with its simulations. *)
Definition honest_entry (revision : Z) (rev' : Z) (edges' : CycleEdges) (a : Z)
    (raw : MinimalSimResult) : Prop := rev' = revision → edges' = edges → sim_at a raw.

Definition route_honest (c : RouteSimCache) : Prop :=
  match route_key with
  | Some (revision, _) => cache_ok (honest_entry revision) c
  | None => True
  end.

Definition memo_honest (cache : gmap Z MinimalSimResult) : Prop :=
  ∀ a sim, cache !! a = Some sim → ∃ raw, sim_at a raw ∧ sim = resolved route_gas raw.

Definition env_honest (env : EvalEnv) : Prop :=
  memo_honest (ev_sim_cache env) ∧ route_honest (ev_route_cache env).

(** The scores the evaluator may give. *)
Definition true_score (a s : Z) : Prop :=
  s = 0 ∨ ∃ raw, sim_at a raw ∧
    s = brent_score_matic_from_sim fees (resolved route_gas raw) a profit_ctx.

Lemma true_score_zero a : true_score a 0.
Proof using Type. by left. Qed.

Lemma memoize_honest env a raw :
  env_honest env → sim_at a raw → env_honest (memoize env a (resolved route_gas raw)).
Proof using Type.
  intros [Hm Hr] Hs. unfold memoize. destruct (_ <? _)%nat; [|done]. split; [|done].
  intros b sim. cbn [ev_sim_cache]. intros [[<- <-]|[_ H]]%lookup_insert_Some; eauto.
Qed.

Lemma route_get_honest env a cached env' :
  env_honest env → route_get edges route_key env a = (cached, env') →
  env_honest env' ∧ ev_sim_cache env' = ev_sim_cache env ∧
  ∀ raw, cached = Some raw → sim_at a raw.
Proof using keys_spec.
  intros [Hm Hr]. unfold route_get, env_honest, route_honest in *.
  destruct route_key as [[revision fp]|]; [|by intros [= <- <-]].
  destruct (get revision fp edges a (ev_route_cache env)) as [r c] eqn:Eg. intros [= <- <-].
  split; [split; [done|]|split; [done|]].
  - cbn [set_route_cache ev_route_cache]. assert (c = (get revision fp edges a (ev_route_cache env)).2) as ->
      by (by rewrite Eg).
    eapply cache_step_ok; [exact keys_spec|exact Hr|apply step_get].
  - intros raw ->. pose proof (shard_lookup_ok _ _ fp Hr) as [_ Hs].
    unfold get in Eg. destruct (shard _ fp !! _) as [v|] eqn:E; simplify_eq.
    apply Hs in E. by apply E.
Qed.

Lemma route_insert_honest env a raw :
  env_honest env → sim_at a raw → env_honest (route_insert keys edges route_key env a raw).
Proof using keys_spec.
  intros [Hm Hr] Hs. unfold route_insert, env_honest, route_honest in *.
  destruct route_key as [[revision fp]|]; [|done]. split; [done|].
  cbn [set_route_cache ev_route_cache].
  eapply cache_step_ok; [exact keys_spec|exact Hr|]. apply step_insert. by intros _ _.
Qed.

Lemma memo_score_true a raw :
  sim_at a raw → true_score a (memo_score fees profit_ctx (resolved route_gas raw) a) ∧
  0 ≤ memo_score fees profit_ctx (resolved route_gas raw) a.
Proof using Type.
  intros Hs. unfold memo_score. destruct (is_zero _); [split; [by left|lia]|].
  split; [right; eauto|apply brent_score_nonneg].
Qed.

Lemma set_infeasible_honest env a : env_honest env → env_honest (set_infeasible env a).
Proof using Type. done. Qed.

Lemma reclassify_honest env a s env' :
  env_honest env → reclassify arena edges high env a = Done (s, env') → env_honest env' ∧ s = 0.
Proof using Type.
  intros He. unfold reclassify. destruct (minimal_sim_failure _ _ _); [|done]. cbn [obind].
  intros [= <- <-]. split; [|done]. by destruct (sim_failure_is_size_monotonic _).
Qed.

Lemma evaluate_fresh_honest env a s env' :
  env_honest env →
  evaluate_fresh fees keys arena edges shallow_caps low high start_decimals start_rate profit_ctx
    route_gas route_key env a = Done (s, env') →
  env_honest env' ∧ true_score a s ∧ 0 ≤ s.
Proof using keys_spec.
  intros He. unfold evaluate_fresh.
  destruct (_ <=? _); [intros [= <- <-]; split_and!; [done|by left|lia]|].
  destruct (simulate_route_minimal_with_caps _ _ _ _) as [[raw|]|] eqn:Es; [| |done]; cbn [obind]; cbv zeta.
  - pose proof (memoize_honest _ _ _ (route_insert_honest _ _ _ He Es) Es) as He'.
    destruct (is_zero _); [intros [= <- <-]; split_and!; [done|by left|lia]|].
    destruct (negb _); [intros [= <- <-]; split_and!; [done|by left|lia]|].
    intros [= <- <-]. split_and!; [done|right; eauto|apply brent_score_nonneg].
  - destruct (high <? _).
    + intros [He' ->]%reclassify_honest; [|by apply set_infeasible_honest].
      split_and!; [done|by left|lia].
    + unfold should_sample. destruct (_ =? _).
      * intros [He' ->]%reclassify_honest; [|done]. split_and!; [done|by left|lia].
      * intros [= <- <-]. split_and!; [done|by left|lia].
Qed.

Lemma evaluate_honest env a s env' :
  env_honest env →
  evaluate fees keys arena edges shallow_caps low high economic_floor start_decimals start_rate
    profit_ctx route_gas route_key env a = Done (s, env') →
  env_honest env' ∧ true_score a s ∧ 0 ≤ s.
Proof using keys_spec.
  intros He. unfold evaluate.
  destruct (_ <? _); [intros [= <- <-]; split_and!; [done|by left|lia]|].
  destruct (ev_sim_cache env !! a) as [sim|] eqn:Em.
  { intros [= <- <-]. apply He in Em as (raw & Hraw & ->).
    split; [done|]. by apply memo_score_true. }
  destruct (route_get _ _ _ _) as [cached env1] eqn:Eg.
  apply route_get_honest in Eg as (He1 & _ & Hc); [|done].
  destruct cached as [raw|]; [|by apply evaluate_fresh_honest].
  specialize (Hc raw eq_refl). intros [= <- <-]. split; [by apply memoize_honest|].
  by apply memo_score_true.
Qed.

Lemma optimal_sim_honest env a sim env' :
  env_honest env →
  optimal_sim arena edges shallow_caps route_gas route_key env a = Done (Some sim, env') →
  env_honest env' ∧ ∃ raw, sim_at a raw ∧ sim = resolved route_gas raw.
Proof using keys_spec.
  intros He. unfold optimal_sim. destruct (ev_sim_cache env !! a) as [memo|] eqn:Em.
  { intros [= <- <-]. split; [done|]. by apply He. }
  destruct (route_get _ _ _ _) as [cached env1] eqn:Eg.
  apply route_get_honest in Eg as (He1 & _ & Hc); [|done].
  destruct cached as [raw|].
  - intros [= <- <-]. eauto.
  - destruct (simulate_route_minimal_with_caps _ _ _ _) as [[raw|]|] eqn:Es; [|done|done].
    intros [= <- <-]. eauto.
Qed.

(** The memo of the probe seeds is honest when the seeds are simulations. *)
Lemma seed_sim_cache_honest seeds :
  (∀ seed, seed ∈ seeds → sim_at seed.1 seed.2) → memo_honest (seed_sim_cache route_gas seeds).
Proof using Type.
  unfold seed_sim_cache.
  assert (memo_honest ∅) as H0 by (intros a sim; by rewrite lookup_empty).
  revert H0. generalize (∅ : gmap Z MinimalSimResult).
  induction seeds as [|x seeds IH]; intros m Hm Hs; [done|]. cbn [fold_left].
  apply IH; [|intros; apply Hs; by right].
  destruct (_ <=? _)%nat; [done|]. intros a sim [[<- <-]|[_ H]]%lookup_insert_Some; [|by apply Hm].
  exists x.2. split; [apply Hs; by left|done].
Qed.

Lemma warm_scores_true cache x :
  memo_honest cache → x ∈ warm_scores fees iter_sims low high profit_ctx cache →
  true_score x.1 x.2 ∧ 0 ≤ x.2.
Proof using iter_spec.
  intros Hm Hx. unfold warm_scores in Hx. apply list_elem_of_omap in Hx as ([a sim] & Hin & Hsome).
  cbn [fst snd] in Hsome. destruct (in_window _ _ _); [|done]. injection Hsome as <-. cbn [fst snd].
  rewrite iter_spec in Hin. apply elem_of_map_to_list in Hin.
  apply Hm in Hin as (raw & Hraw & ->). split; [right; eauto|apply brent_score_nonneg].
Qed.

(** The search, whose evaluations may panic, seen through [solve_brent_spec]: wherever
    the evaluator returned, it kept [env_honest] and gave a true score. *)
Lemma search_honest env n warm optimal env' :
  env_honest env → (∀ x, x ∈ warm → true_score x.1 x.2 ∧ 0 ≤ x.2) →
  solve_brent_optimal_warm
    (evaluate fees keys arena edges shallow_caps low high economic_floor start_decimals start_rate
       profit_ctx route_gas route_key) low high env n warm = Done (optimal, env') →
  env_honest env' ∧
  (low < high → ∃ s, true_score optimal s ∧ 0 ≤ s ∧
     ∀ x, x ∈ warm → in_window low high x = true → x.2 ≤ s).
Proof using keys_spec.
  set (ev := evaluate _ _ _ _ _ _ _ _ _ _ _ _ _). intros He Hw H.
  destruct (decide (low < high)) as [Hlt|Hge].
  - set (ev' := λ e x, match ev e x with Done r => Done r | Panic => Done (0, e) end).
    apply (solve_brent_mono ev ev') in H; [|intros e x r Hr; unfold ev'; by rewrite Hr].
    destruct (solve_brent_spec ev' env_honest true_score (λ _ _, True) (λ _, 0%nat))
      with (low := low) (high := high) (env := env) (n := n) (warm := warm)
      as (r & s & sl & sh & env2 & H2 & He2 & HV & Hs & _ & _ & _ & _ & _ & _ & Hwarm & _); try done.
    + intros e x _. unfold ev'. destruct (ev e x) as [[s e']|]; eauto.
    + intros e x s e' He1. unfold ev'. destruct (ev e x) as [[s1 e1]|] eqn:Ev; intros [= <- <-].
      * apply evaluate_honest in Ev as (? & ? & ?); [|done]. split_and!; try done. lia.
      * split_and!; try done; [by left|lia].
    + rewrite H2 in H. injection H as <- <-. split; [done|]. intros _. exists s. done.
  - unfold solve_brent_optimal_warm in H. destruct (Z.leb_spec high low); [|lia].
    injection H as <- <-. split; [done|]. intros; lia.
Qed.

(** A result of the search stage. *)
Lemma optimize_in_window_honest route_cache sample max_iterations seed_sims r env' :
  route_honest route_cache →
  (∀ seeds, seed_sims = Some seeds → ∀ seed, seed ∈ seeds → sim_at seed.1 seed.2) →
  optimize_in_window fees keys iter_sims arena edges shallow_caps low high economic_floor
    start_decimals start_rate profit_ctx route_gas route_key route_cache sample max_iterations
    seed_sims = Done (Some r, env') →
  route_honest (ev_route_cache env') ∧ economic_floor ≤ or_optimal_input r ∧
  ∃ raw, sim_at (or_optimal_input r) raw ∧
    r = {| or_optimal_input := or_optimal_input r; or_expected_gross := sim_amount_out raw;
           or_net_profit := sim_profit raw;
           or_total_gas := sim_total_gas (resolved route_gas raw);
           or_search_low := or_search_low r |} ∧
    sim_profit raw ≠ 0 ∧
    check_sim_sanity
      {| ss_amount_in := or_optimal_input r; ss_gross_profit := sim_profit raw;
         ss_search_low := or_search_low r; ss_token_decimals := start_decimals;
         ss_token_to_matic_rate := start_rate |} = None ∧
    (low < high → ∀ seeds a sim, seed_sims = Some seeds → seed_sim_cache route_gas seeds !! a = Some sim →
       low ≤ a ≤ high →
       brent_score_matic_from_sim fees sim a profit_ctx
         ≤ brent_score_matic_from_sim fees (resolved route_gas raw) (or_optimal_input r) profit_ctx).
Proof using keys_spec iter_spec.
  intros Hr Hseeds. unfold optimize_in_window. set (cache := match seed_sims with Some _ => _ | None => _ end).
  assert (memo_honest cache) as Hm.
  { subst cache. destruct seed_sims as [seeds|]; [by apply seed_sim_cache_honest, Hseeds|].
    intros a sim. by rewrite lookup_empty. }
  destruct (solve_brent_optimal_warm _ _ _ _ _ _) as [[optimal env]|] eqn:Eb; [|done].
  cbn [obind fst snd]. apply search_honest in Eb as [He Hopt]; [|by split|by intros; eapply warm_scores_true].
  destruct (Z.ltb_spec optimal economic_floor); [done|].
  destruct (optimal_sim _ _ _ _ _ _ _) as [[osim env2]|] eqn:Eo; [|done]. cbn [obind fst snd].
  destruct osim as [sim|]; [|done]. intros [= Ha <-]. cbn [mbind option_bind] in Ha.
  apply optimal_sim_honest in Eo as (He2 & raw & Hraw & ->); [|done].
  assert (sim_profit (resolved route_gas raw) = sim_profit raw ∧
          sim_amount_out (resolved route_gas raw) = sim_amount_out raw) as [Ep Eg]
    by (unfold resolved; by destruct route_gas).
  unfold accept_optimal in Ha. rewrite Ep, Eg in Ha. unfold is_zero in Ha.
  destruct (Z.eqb_spec (sim_profit raw) 0); [done|].
  case_bool_decide as Hd; [|done]. injection Ha as <-. cbn [or_optimal_input or_search_low].
  split; [apply He2|]. split; [done|]. exists raw. split; [done|]. split; [done|]. split; [done|].
  split; [by apply dispatch_search_low in Hd|].
  intros Hlt seeds a sim -> Hc Hin. destruct (Hopt Hlt) as (s & Hs & Hs0 & Hw).
  assert (brent_score_matic_from_sim fees sim a profit_ctx ≤ s) as Hle.
  { apply (Hw (a, brent_score_matic_from_sim fees sim a profit_ctx)).
    - unfold warm_scores. apply list_elem_of_omap. exists (a, sim).
      split; [rewrite iter_spec; by apply elem_of_map_to_list|]. cbn [fst snd].
      unfold in_window. cbn [fst snd].
      by rewrite (proj2 (Z.leb_le low a)), (proj2 (Z.leb_le a high)) by lia.
    - unfold in_window. cbn [fst snd].
      by rewrite (proj2 (Z.leb_le low a)), (proj2 (Z.leb_le a high)) by lia. }
  destruct Hs as [->|(raw' & Hraw' & ->)].
  - pose proof (brent_score_nonneg fees (resolved route_gas raw) optimal profit_ctx). lia.
  - unfold sim_at in Hraw, Hraw'. assert (raw' = raw) as -> by congruence. exact Hle.
Qed.

End evaluator_spec.

(** C9: An optimized size is a simulated one.  When the seeds and the shared cache hold
    simulations of this route, whatever the search, the clamps and the memo did, the
    returned amounts are those of simulating the route at the returned size, the
    profit is positive and passes the full sanity gate with the returned search floor,
    the size is at least the economic floor (or is the tickless cap), and the shared
    cache still holds only simulations of the route. *)
Theorem optimize_cycle_sound (arena : StateArena) (cycle : FoundCycle) (rates decimals : gmap Z Z)
    (max_usd : option Z) (mu : f64) (cl iters liquidity_cap : option Z) (ctx : ProfitEvalContext)
    (seed_sims : option (list (Z * MinimalSimResult))) (route_gas : option RouteGasCosting)
    (route_key : option (Z * Z)) (route_cache cache' : RouteSimCache) (sample sample' : Z)
    (r : OptimizationResult) :
  (∀ caps, precompute_route_shallow_caps arena (fc_edges cycle) = Done caps →
     route_honest arena (fc_edges cycle) caps route_key route_cache ∧
     ∀ seeds seed, seed_sims = Some seeds → seed ∈ seeds →
       sim_at arena (fc_edges cycle) caps seed.1 seed.2) →
  optimize_cycle fees keys iter_sims arena cycle rates decimals max_usd mu cl iters liquidity_cap ctx
    seed_sims route_gas route_key route_cache sample = Done (Some r, cache', sample') →
  ∃ rate dec caps raw,
    lookup_matic_rate (fc_start_token cycle) rates = Some rate ∧
    start_decimals_of arena (fc_start_token cycle) decimals = Some dec ∧
    precompute_route_shallow_caps arena (fc_edges cycle) = Done caps ∧
    sim_at arena (fc_edges cycle) caps (or_optimal_input r) raw ∧
    or_expected_gross r = sim_amount_out raw ∧ or_net_profit r = sim_profit raw ∧
    sim_profit raw ≠ 0 ∧
    (or_total_gas r = sim_total_gas raw ∨ or_total_gas r = sim_total_gas (resolved route_gas raw)) ∧
    check_sim_sanity
      {| ss_amount_in := or_optimal_input r; ss_gross_profit := or_net_profit r;
         ss_search_low := or_search_low r; ss_token_decimals := dec;
         ss_token_to_matic_rate := rate |} = None ∧
    (min_economic_amount_in dec rate ≤ or_optimal_input r ∨
     tickless_cl_start_input_cap arena (fc_start_token cycle) (fc_edges cycle) = Some (or_optimal_input r)) ∧
    route_honest arena (fc_edges cycle) caps route_key cache'.
Proof using keys_spec iter_spec.
  intros Hhonest. unfold optimize_cycle, resolve_token_to_matic_rate_or_bootstrap.
  destruct (lookup_matic_rate _ _) as [rate|]; [|done]. destruct (is_zero rate); [done|].
  destruct (start_decimals_of _ _ _) as [dec|]; [|done]. cbv zeta.
  destruct (compute_ternary_search_bounds _ _ _ _ _ _ _ _ _ _) as [bounds|]; [|done].
  destruct (precompute_route_shallow_caps _ _) as [caps|]; [|done]. cbn [obind].
  destruct (Hhonest caps eq_refl) as [Hroute Hseeds].
  destruct (plan_search _ _ _ _ _ _ _) as [plan|] eqn:Ep; [|done]. cbn [obind].
  destruct plan as [|cap|low high]; [done| |].
  - destruct (optimize_at_amount_cap _ _ _ _ _ _ _) as [[r'|]|] eqn:Eo; [|done|done].
    cbn [obind]. intros [= <- <- <-]. unfold optimize_at_amount_cap in Eo.
    destruct (simulate_route_minimal_with_caps _ _ _ _) as [[raw|]|] eqn:Es; [|done|done].
    unfold is_zero in Eo. destruct (Z.eqb_spec (sim_profit raw) 0); [done|]. cbn [orb] in Eo.
    case_bool_decide as Hc; [|done]. injection Eo as <-. cbn.
    exists rate, dec, caps, raw. split_and!; try done; [by left|right].
    by apply plan_at_cap in Ep.
  - destruct (optimize_in_window _ _ _ _ _ _ _ _ _ _ _ _ _ _ _ _ _ _) as [[o env]|] eqn:Eo; [|done].
    cbn [obind fst snd]. intros [= -> <- <-].
    apply optimize_in_window_honest in Eo as (Hc & Hfloor & raw & Hraw & Hr & Hp & Hs & _); [|done|by eauto].
    exists rate, dec, caps, raw. rewrite Hr. cbn. split_and!; try done; [by right|by left].
Qed.
(** In the search stage the chosen size scores, by its true simulation, at least as
    high as every probe seed inside the window. *)
Theorem optimized_size_beats_seeds (arena : StateArena) (edges : list Edge) (caps : option (list Z))
    (low high floor dec rate : Z) (ctx : ProfitEvalContext) (route_gas : option RouteGasCosting)
    (route_key : option (Z * Z)) (cache : RouteSimCache) (sample : Z) (iters : option Z)
    (seeds : list (Z * MinimalSimResult)) (r : OptimizationResult) (env : EvalEnv)
    (a : Z) (sim : MinimalSimResult) :
  route_honest arena edges caps route_key cache →
  (∀ seed, seed ∈ seeds → sim_at arena edges caps seed.1 seed.2) → low < high →
  optimize_in_window fees keys iter_sims arena edges caps low high floor dec rate ctx route_gas route_key
    cache sample iters (Some seeds) = Done (Some r, env) →
  seed_sim_cache route_gas seeds !! a = Some sim → low ≤ a ≤ high →
  ∃ raw, sim_at arena edges caps (or_optimal_input r) raw ∧
    brent_score_matic_from_sim fees sim a ctx ≤
    brent_score_matic_from_sim fees (resolved route_gas raw) (or_optimal_input r) ctx.
Proof using keys_spec iter_spec.
  intros Hc Hs Hlt H Ha Hin.
  apply optimize_in_window_honest in H as (_ & _ & raw & Hraw & _ & _ & _ & Hbest); [|done|by intros ? [= <-]].
  exists raw. split; [done|]. by apply (Hbest Hlt seeds).
Qed.
End optimize_spec.

(** ** The window *)

Lemma raw_window_spec min_capacity dec rate flash low high :
  raw_window min_capacity dec rate flash = (low, high) →
  1 ≤ low ∧
  (rate ≠ 0 → min_economic_amount_in dec rate < U256_MAX → min_capacity ≤ U256_MAX →
     min_economic_amount_in dec rate ≤ low < high) ∧
  ∀ c, flash = Some c → rate ≠ 0 → high ≤ Z.max c (low + 1).
Proof.
  unfold raw_window, is_zero, wadd. intros [= <- <-]. split; [lia|]. split.
  { intros Hr Hf Hm. destruct (Z.eqb_spec rate 0); [done|].
    set (h := match flash with Some _ => _ | None => _ end).
    assert (h ≤ min_capacity / 10) by (unfold h; destruct flash; lia). clearbody h.
    assert (min_capacity / 10 < U256_MAX) by (apply Z.div_lt_upper_bound; unfold U256_MAX, M256 in *; lia).
    assert (min_capacity / 5000 < U256_MAX) by (apply Z.div_lt_upper_bound; unfold U256_MAX, M256 in *; lia).
    assert (h / 100 < U256_MAX) by (apply Z.div_lt_upper_bound; unfold U256_MAX, M256 in *; lia).
    assert (1 < U256_MAX) by done. set (f := min_economic_amount_in dec rate) in *. clearbody f.
    set (l := Z.max (Z.max (min_capacity / 5000) f) (Z.max (h / 100) 1)).
    assert (f ≤ l ∧ 1 ≤ l < U256_MAX) by (unfold l; lia). clearbody l.
    split; [lia|]. destruct (Z.ltb_spec l h); [done|].
    rewrite Z.mod_small by (unfold U256_MAX in *; lia). lia. }
  intros c -> Hr. destruct (Z.eqb_spec rate 0); [done|].
  set (h := Z.min (min_capacity / 10) c). set (l := Z.max _ (Z.max _ 1)).
  assert (1 ≤ l) by (unfold l; lia). clearbody l.
  destruct (Z.ltb_spec l h); [unfold h; lia|].
  pose proof (Z.mod_le (l + 1) M256 ltac:(lia) ltac:(done)). lia.
Qed.

Lemma clamp_to_liquidity_spec low high cap low' high' :
  clamp_to_liquidity (low, high) cap = (low', high') → 1 ≤ low →
  1 ≤ low' ∧ (∀ c, high ≤ Z.max c (low + 1) → high' ≤ Z.max c (low' + 1)) ∧
  (∀ c, cap = Some c → 0 < c → high' ≤ c) ∧
  (∀ f c, cap = Some c → f ≤ c → f ≤ high → f ≤ high').
Proof.
  unfold clamp_to_liquidity, is_zero, saturating_sub. intros H Hl. destruct cap as [k|].
  - destruct (Z.eqb_spec k 0); [|cbn [fst snd] in H; destruct (Z.leb_spec (Z.min high k) low)];
      injection H as <- <-; split_and!; try lia; intros; simplify_eq; lia.
  - injection H as <- <-. split_and!; try lia; done.
Qed.

Lemma scan_capacities_le arena rates decimals start rate scale edges : ∀ scan scan',
  scan_capacities arena rates decimals start rate scale edges scan = Some scan' →
  cs_min_capacity scan ≤ U256_MAX → cs_min_capacity scan' ≤ U256_MAX.
Proof.
  induction edges as [|e edges IH]; intros scan scan'; cbn [scan_capacities]; [by intros [= <-]|].
  destruct (hop_capacity arena e) as [c|]; [|done]. intros H Hs. apply (IH _ _ H).
  destruct (_ =? _); [cbn; lia|]. destruct (fx_capacity _ _ _ _ _ _ _); cbn; lia.
Qed.

Lemma min_economic_ge dec rate : 1000 ≤ min_economic_amount_in dec rate.
Proof.
  unfold min_economic_amount_in. destruct (_ <? _); [done|]. cbv zeta.
  destruct (is_zero rate); [lia|]. destruct (checked_mul _ _); [lia|done].
Qed.

Lemma floor_window_spec low high floor flash low' high' :
  floor_window (low, high) floor flash = Some (low', high') →
  (floor ≤ low' < high') ∧
  (∀ c, flash = Some c → high ≤ Z.max c (low + 1) → high' ≤ Z.max c (low' + 1)) ∧
  (∀ c, floor ≤ c → high ≤ c → floor ≤ high → high' ≤ Z.max c (low' + 1)).
Proof.
  unfold floor_window, saturating_add, saturating_mul.
  assert (∀ l h, (if ((h <=? l) || (h <? floor))%bool then None else Some (l, h)) = Some (low', high') →
    l = low' ∧ h = high' ∧ l < h ∧ floor ≤ h) as Hend.
  { intros l h. destruct (Z.leb_spec h l), (Z.ltb_spec h floor); try done. by intros [= <- <-]. }
  intros H. apply Hend in H as (Hl & Hh & Hlt & Hf). clear Hend. revert Hl Hh Hlt Hf.
  destruct (Z.ltb_spec low floor), (Z.leb_spec floor high), (Z.ltb_spec high floor); cbn [andb]; try lia;
    destruct flash as [c'|]; rewrite ?(proj2 (Z.ltb_ge floor floor)) by lia;
    repeat (match goal with |- context [if ?a <? ?b then _ else _] => destruct (Z.ltb_spec a b)
            | |- context [if ?a <=? ?b then _ else _] => destruct (Z.leb_spec a b) end);
    intros; split_and!; intros; simplify_eq; lia.
Qed.

(** The search window is never empty, starts at or above the economic floor, and
    ends within the dollar cap and (when that is above the floor) within the
    liquidity cap, except for the one unit that keeps it non-empty. *)
Theorem ternary_search_bounds_sound (cycle : FoundCycle) (arena : StateArena) (rates decimals : gmap Z Z)
    (rate dec usd : Z) (mu : f64) (cl liquidity_cap : option Z) (b : TernarySearchBounds) :
  compute_ternary_search_bounds cycle arena rates decimals rate dec usd mu cl liquidity_cap = Some b →
  min_economic_amount_in dec rate ≤ tb_low b < tb_high b ∧
  (∀ c, tb_flash_cap b = Some c → tb_high b ≤ Z.max c (tb_low b + 1)) ∧
  (∀ c, liquidity_cap = Some c → rate ≠ 0 → min_economic_amount_in dec rate ≤ c < U256_MAX →
     tb_high b ≤ Z.max c (tb_low b + 1)).
Proof.
  unfold compute_ternary_search_bounds. destruct (cap_enforced_but_unresolved _); [done|]. cbv zeta.
  destruct (scan_capacities _ _ _ _ _ _ _ _) as [scan|] eqn:Escan; [|done].
  set (min_capacity := if (negb _ || _ || _)%bool then _ else _).
  assert (min_capacity ≤ U256_MAX) as Hmc.
  { unfold min_capacity. case_match; [by vm_compute|]. eapply scan_capacities_le; eauto. done. }
  clearbody min_capacity.
  set (flash := if is_zero rate then None else _).
  assert (∀ c, flash = Some c → rate ≠ 0) as Hflash.
  { intros c. unfold flash, is_zero. by destruct (Z.eqb_spec rate 0). }
  clearbody flash. set (floor := min_economic_amount_in dec rate).
  assert (1000 ≤ floor) as Hfloor by apply min_economic_ge.
  destruct (raw_window min_capacity dec rate flash) as [l0 h0] eqn:E0.
  apply raw_window_spec in E0 as (Hl0 & Hf0 & Hh0).
  destruct (clamp_to_liquidity (l0, h0) liquidity_cap) as [l1 h1] eqn:E1.
  apply clamp_to_liquidity_spec in E1 as (Hl1 & Hh1 & Hk1 & Hf1); [|done].
  destruct (floor_window (l1, h1) floor flash) as [[l2 h2]|] eqn:E2; [|done].
  intros [= <-]. cbn [tb_low tb_high tb_flash_cap fst snd].
  apply floor_window_spec in E2 as (Hlow & Hfl & Hliq).
  split; [done|]. split.
  - intros c Hc. apply (Hfl c Hc). apply Hh1, Hh0; eauto.
  - intros c Hc Hr Hle. apply (Hliq c); [lia|apply Hk1; [done|lia]|].
    apply (Hf1 floor c Hc); [lia|]. destruct (Hf0 Hr) as [? ?]; [lia|done|lia].
Qed.

(** ** The clamps *)

(** A bisection ends on a feasible and an infeasible amount that enclose the frontier;
    each step halves their distance. *)
Lemma bisect_spec fuel feasible : ∀ lo hi l h,
  0 ≤ lo < hi → hi < M256 → feasible lo = Done true → feasible hi = Done false →
  bisect fuel feasible lo hi = Done (l, h) →
  lo ≤ l < h ∧ h ≤ hi ∧ feasible l = Done true ∧ feasible h = Done false ∧
  (h - l = 1 ∨ (h - l - 1) * 2 ^ Z.of_nat fuel < hi - lo).
Proof.
  induction fuel as [|fuel IH]; intros lo hi l h Hlo Hhi Hl Hh; cbn [bisect].
  { intros [= <- <-]. split_and!; try done; lia. }
  unfold saturating_add. destruct (Z.leb_spec hi (Z.min (lo + 1) U256_MAX)).
  { intros [= <- <-]. unfold U256_MAX in *. split_and!; try done; try lia. }
  assert (lo +% (hi -% lo) / 2 = lo + (hi - lo) / 2) as ->.
  { unfold wadd, wsub. rewrite (Z.mod_small (hi - lo)) by lia.
    assert (0 ≤ (hi - lo) / 2 ≤ hi - lo) by (Z.to_euclidean_division_equations; lia).
    rewrite Z.mod_small by lia. done. }
  unfold U256_MAX in *. set (mid := lo + (hi - lo) / 2).
  assert (lo < mid < hi ∧ 2 * (mid - lo) ≤ hi - lo + 1 ∧ 2 * (hi - mid) ≤ hi - lo + 1) as (Hm & H1 & H2)
    by (unfold mid; Z.to_euclidean_division_equations; lia).
  clearbody mid. rewrite Nat2Z.inj_succ, Z.pow_succ_r by lia.
  destruct (feasible mid) as [[|]|] eqn:Em; cbn [obind]; [| |done]; intros H0;
    apply IH in H0 as (? & ? & ? & ? & Hd); try done; try lia;
    (split_and!; try done; try lia; try (destruct Hd as [?|?]; [by left|right; nia])).
Qed.

(** The depth clamp of concentrated-liquidity routes: no clamp only when the upper end
    simulates (or there is no such hop); the window is given up only when its floor
    does not simulate; and a clamped upper end simulates, within a 4096th of the
    window of an amount that does not. *)
Theorem cl_depth_clamp_spec (arena : StateArena) (edges : list Edge) (low high economic_floor : Z)
    (caps : option (list Z)) (c : ClDepthHighClamp) :
  0 ≤ low → high < M256 →
  clamp_brent_high_to_cl_feasible arena edges low high economic_floor caps = Done c →
  match c with
  | Noop => existsb (λ e, is_cl (protocol e)) edges = false ∨
            simulates arena edges caps high = Done true
  | ClWindowInfeasible => simulates arena edges caps high = Done false ∧
      (high ≤ Z.max low economic_floor ∨
       simulates arena edges caps (Z.max low economic_floor) = Done false)
  | ClClamped x =>
      Z.max low economic_floor ≤ x < high ∧ simulates arena edges caps x = Done true ∧
      ∃ y, x < y ≤ high ∧ simulates arena edges caps y = Done false ∧
        (y - x = 1 ∨ (y - x - 1) * 4096 < high - Z.max low economic_floor)
  end.
Proof.
  intros Hlow Hhigh. unfold clamp_brent_high_to_cl_feasible.
  destruct (existsb _ edges) eqn:Ecl; cbn [negb]; [|intros [= <-]; by left].
  destruct (simulates arena edges caps high) as [[|]|] eqn:Eh; [intros [= <-]; by right| |done].
  cbn [obind]. assert ((if low <? economic_floor then economic_floor else low) = Z.max low economic_floor) as ->
    by (destruct (Z.ltb_spec low economic_floor); lia).
  destruct (Z.leb_spec high (Z.max low economic_floor)); [intros [= <-]; eauto|].
  destruct (simulates arena edges caps (Z.max low economic_floor)) as [[|]|] eqn:Ef; cbn [obind negb];
    [|intros [= <-]; eauto|done].
  destruct (bisect _ _ _ _) as [[l h]|] eqn:Eb; [|done]. cbn [obind fst snd].
  apply bisect_spec in Eb as (? & ? & ? & ? & Hd); [|lia|done..].
  destruct (Z.ltb_spec l high), (Z.leb_spec (Z.max low economic_floor) l); try lia. intros [= <-].
  split; [lia|]. split; [done|]. exists h. split; [lia|]. done.
Qed.

(** The Balancer clamp: the new lower end is the old one, or (when that already exceeds
    the vault's limit) a feasible economic floor; the new upper end is below a feasible
    amount, five percent under it or one unit above the lower end. *)
Lemma balancer_clamp_spec (arena : StateArena) (edges : list Edge) (low high economic_floor l h : Z) :
  0 ≤ low → 0 ≤ economic_floor → high < M256 →
  balancer_max_in_high_clamp arena edges low high economic_floor = Done (Some (BalClamped l h)) →
  under_max_in arena edges l = Done true ∧ h ≤ Z.max (high - 1) (l + 1) ∧
  (l = low ∨ under_max_in arena edges low = Done false ∧ l = Z.min economic_floor low) ∧
  ∃ y, l ≤ y ∧ under_max_in arena edges y = Done true ∧ (h ≤ y * 95 / 100 ∨ h ≤ l + 1).
Proof.
  intros Hlow Hfloor Hhigh. unfold balancer_max_in_high_clamp, is_zero.
  destruct (Z.leb_spec high low); [done|]. cbn [orb]. destruct (negb _); [done|].
  assert (∀ z, haircut z ≤ z * 95 / 100) as Hcut.
  { intros z. unfold haircut, saturating_mul. apply Z.div_le_mono; lia. }
  destruct (under_max_in arena edges low) as [[|]|] eqn:El; cbn [obind negb]; [| |done].
  - destruct (under_max_in arena edges high) as [[|]|] eqn:Eh; cbn [obind]; [done| |done].
    destruct (bisect _ _ _ _) as [[y z]|] eqn:Eb; [|done]. cbn [obind fst snd].
    apply bisect_spec in Eb as (? & ? & Hy & ? & _); [|lia|done..].
    set (clamped := if haircut y <=? low then _ else _).
    assert (clamped ≤ y * 95 / 100 ∨ clamped ≤ low + 1) as Hc.
    { unfold clamped, saturating_add. destruct (Z.leb_spec (haircut y) low); [right; lia|left; apply Hcut]. }
    destruct (Z.ltb_spec clamped high); [|done]. intros [= <- <-]. split_and!; [done|lia|by left|].
    exists y. split; [lia|done].
  - destruct (Z.eqb_spec (Z.min economic_floor low) 0); [done|].
    destruct (under_max_in arena edges (Z.min economic_floor low)) as [[|]|] eqn:Ef; cbn [obind negb]; [|done|done].
    destruct (decide (Z.min economic_floor low = low)) as [Heq|Hne]; [congruence|].
    destruct (bisect _ _ _ _) as [[y z]|] eqn:Eb; [|done]. cbn [obind fst snd].
    apply bisect_spec in Eb as (? & ? & Hy & ? & _); [|lia|lia|done..]. specialize (Hcut y).
    unfold saturating_add. set (f := Z.min economic_floor low) in *.
    assert (y * 95 / 100 ≤ y) by (apply Z.div_le_upper_bound; lia).
    destruct (Z.ltb_spec (haircut y) f); [rewrite (proj2 (Z.leb_le f f)) by lia|destruct (Z.leb_spec (haircut y) f)];
      intros [= <- <-]; (split_and!; [done|lia|by right|]); exists y; (split; [lia|]); (split; [done|]); lia.
Qed.

(** ** Witnesses: two V2 pools of the same pair at different prices *)

Definition demo_arena2 : StateArena :=
  (register_pool demo_hash
     (register_pool demo_hash
        (register_token demo_hash (register_token demo_hash (arena_default demo_hash) 100).1 101).1
        500 (demo_v2 (10 ^ 10) (10 ^ 10)) false).1
     501 (demo_v2 (10 ^ 10) (102 * 10 ^ 8)) false).1.

Definition demo_cycle2 : FoundCycle :=
  {| fc_start_token := 0;
     fc_edges := [Routes.demo_edge UniswapV2 1 0 1;
                  set_zfo (set_legs (Routes.demo_edge UniswapV2 0 0 1) 1 0) false];
     fc_hop_count := 2; fc_log_weight := S754_zero false; fc_cumulative_fee_bps := 60;
     fc_score := S754_zero false; fc_cycle_ratio := ONE |}.

Definition demo_rates : gmap Z Z := {[0 := 4 * 10 ^ 17; 1 := 4 * 10 ^ 17]}.
Definition demo_decimals : gmap Z Z := {[100 := 6; 101 := 6]}.

Definition demo_optimize : outcome (option OptimizationResult * RouteSimCache * Z) :=
  optimize_cycle flash_fees_init map_keys map_to_list demo_arena2 demo_cycle2 demo_rates demo_decimals
    None (S754_zero false) (Some 25000000) None None demo_ctx None None None RouteSimCache.new 0.

Definition demo_result2 : OptimizationResult :=
  match demo_optimize with
  | Done (Some r, _, _) => r
  | _ => {| or_optimal_input := 0; or_expected_gross := 0; or_net_profit := 0; or_total_gas := 0;
            or_search_low := 0 |}
  end.

Lemma optimize_cycle_sound_witness :
  or_net_profit demo_result2 = 118544 ∧
  ∃ caps raw, precompute_route_shallow_caps demo_arena2 (fc_edges demo_cycle2) = Done caps ∧
    sim_at demo_arena2 (fc_edges demo_cycle2) caps (or_optimal_input demo_result2) raw ∧
    or_net_profit demo_result2 = sim_profit raw.
Proof.
  split; [vm_compute; reflexivity|].
  destruct (optimize_cycle_sound flash_fees_init map_keys (λ m, Permutation_refl _) map_to_list
    (λ m, Permutation_refl _) demo_arena2 demo_cycle2 demo_rates demo_decimals None (S754_zero false)
    (Some 25000000) None None demo_ctx None None None RouteSimCache.new RouteSimCache.new 0 0 demo_result2)
    as (rate & dec & caps & raw & _ & _ & Hcaps & Hraw & _ & Hp & _).
  - intros caps _. split; [exact I|]. intros seeds seed H. discriminate H.
  - vm_compute. reflexivity.
  - exists caps, raw. split; [exact Hcaps|]. split; [exact Hraw|exact Hp].
Defined.

Definition demo_seed : Z * MinimalSimResult :=
  (20000000, match simulate_route_minimal_with_caps demo_arena2 (fc_edges demo_cycle2) 20000000 None with
             | Done (Some s) => s
             | _ => {| sim_profit := 0; sim_amount_out := 0; sim_total_gas := 0 |} end).

Definition demo_search : outcome (option OptimizationResult * EvalEnv) :=
  optimize_in_window flash_fees_init map_keys map_to_list demo_arena2 (fc_edges demo_cycle2) None
    1000000 100000000 250000 6 (4 * 10 ^ 17) demo_ctx None None RouteSimCache.new 0 None (Some [demo_seed]).

Lemma optimized_size_beats_seeds_witness :
  ∃ r env raw, demo_search = Done (Some r, env) ∧
    sim_at demo_arena2 (fc_edges demo_cycle2) None (or_optimal_input r) raw ∧
    brent_score_matic_from_sim flash_fees_init demo_seed.2 20000000 demo_ctx ≤
    brent_score_matic_from_sim flash_fees_init raw (or_optimal_input r) demo_ctx.
Proof.
  destruct demo_search as [[[r|] env]|] eqn:E; [|vm_compute in E; discriminate E|vm_compute in E; discriminate E].
  destruct (optimized_size_beats_seeds flash_fees_init map_keys (λ m, Permutation_refl _) map_to_list
    (λ m, Permutation_refl _) demo_arena2 (fc_edges demo_cycle2) None 1000000 100000000 250000 6 (4 * 10 ^ 17)
    demo_ctx None None RouteSimCache.new 0 None [demo_seed] r env 20000000 demo_seed.2)
    as (raw & Hraw & Hle).
  - exact I.
  - intros seed Hs. inversion Hs as [|? ? ? H0]; subst; [vm_compute; reflexivity|inversion H0].
  - lia.
  - exact E.
  - vm_compute. reflexivity.
  - lia.
  - exists r, env, raw. split; [reflexivity|]. split; [exact Hraw|exact Hle].
Defined.

Lemma ternary_search_bounds_sound_witness :
  ∃ b, compute_ternary_search_bounds demo_cycle2 demo_arena2 demo_rates demo_decimals (4 * 10 ^ 17) 6 50000
         (S754_zero false) (Some 25000000) (Some (10 ^ 8)) = Some b ∧ 250000 ≤ tb_low b < tb_high b.
Proof.
  destruct (compute_ternary_search_bounds demo_cycle2 demo_arena2 demo_rates demo_decimals (4 * 10 ^ 17) 6 50000
    (S754_zero false) (Some 25000000) (Some (10 ^ 8))) as [b|] eqn:E; [|vm_compute in E; discriminate E].
  exists b. split; [reflexivity|].
  exact (proj1 (ternary_search_bounds_sound _ _ _ _ _ _ _ _ _ _ b E)).
Defined.

(** A concentrated-liquidity edge over a V2 pool never simulates: no window is feasible. *)
Definition demo_cl_edges : list Edge := [Routes.demo_edge UniswapV3 1 0 1; Routes.demo_edge UniswapV3 0 1 0].

Lemma cl_depth_clamp_spec_witness :
  simulates demo_arena2 demo_cl_edges None 1000 = Done false.
Proof.
  destruct (cl_depth_clamp_spec demo_arena2 demo_cl_edges 10 1000 20 None ClWindowInfeasible) as [H _].
  - lia.
  - reflexivity.
  - vm_compute. reflexivity.
  - exact H.
Defined.
