(* ===== verification/Fidelity.v ===== *)
(** * Fidelity gates

    The end of [src/src/pipeline/local_sim.rs]: is a simulated route still true to
    the pools it goes through (depth, tradability, reserves), and has a fresh
    simulation drifted too far from the one that was evaluated.  The optional
    [&mut] profiles are threaded and returned. *)
From Stdlib Require Import String.
From S2P Require Import Prelude Word Types UniswapV3 Arena Routes Realign LocalSim.

Definition RESIM_PROFIT_DRIFT_BPS : Z := 1000.
Definition RESIM_HOP_DRIFT_BPS : Z := 200.

Inductive HopFidelityReject :=
| HMissingPool (hop : nat)
| HPoolLocked (hop : nat)
| HShallowCl (hop : nat)
| HV2ReserveExhausted (hop : nat).

Record HopFidelityProfile := { hops_checked : Z; cl_depth_sims : Z }.
Record ResimFidelityProfile := { profit_drift_bps : Z; max_hop_drift_bps : Z }.

(** ** Depth of the hops *)

Definition u32_saturating_succ (n : Z) : Z := Z.min (n + 1) (2 ^ 32 - 1).

Definition count_hop (p : option HopFidelityProfile) : option HopFidelityProfile :=
  p ← p; Some {| hops_checked := u32_saturating_succ (hops_checked p); cl_depth_sims := cl_depth_sims p |}.

Definition count_depth_sim (p : option HopFidelityProfile) : option HopFidelityProfile :=
  p ← p; Some {| hops_checked := hops_checked p; cl_depth_sims := u32_saturating_succ (cl_depth_sims p) |}.

Definition cl_hop_shallow_at_amount (state : PoolState) (edge : Edge) (hop_probe amount_in : Z)
    (profile : option HopFidelityProfile) : outcome (bool * option HopFidelityProfile) :=
  if cl_hop_tickless state then Done (false, profile)
  else if cl_hop_exceeds_shallow_cap amount_in hop_probe then Done (true, profile)
  else
    let profile := count_depth_sim profile in
    match state with
    | PV3 s | PV4 s =>
        let allow_zero := bool_decide (protocol edge = UniswapV4) in
        let! r := simulate_v3_swap s amount_in (zero_for_one edge) (Some (fee_bps edge)) allow_zero in
        Done ((vr_shallow r || vr_synthetic r)%bool, profile)
    | _ => Done (false, profile)
    end.

Definition verdict : Type := outcome (option HopFidelityReject * option HopFidelityProfile).

(** The last arm: quote the hop again. *)
Definition requote (state : PoolState) (edge : Edge) (i : nat) (amount_in : Z)
    (profile : option HopFidelityProfile) : verdict :=
  if is_zero amount_in then Done (None, profile)
  else
    let! q := simulate_hop_amount_out state edge amount_in in
    Done (match q with None => Some (HPoolLocked i) | Some _ => None end, profile).

(** The [match (state, edge.protocol)] of one hop. *)
Definition hop_depth_verdict (state : PoolState) (edge : Edge) (i : nat) (amount_in : Z)
    (profile : option HopFidelityProfile) (verified : bool) (hop_probes : list Z) : verdict :=
  let rest := if verified then Done (None, profile) else requote state edge i amount_in profile in
  match state, protocol edge with
  | PV2 s, UniswapV2 =>
      let reserve_in := if zero_for_one edge then v2_reserve0 s else v2_reserve1 s in
      if reserve_in <=? amount_in then Done (Some (HV2ReserveExhausted i), profile)
      else Done (None, profile)
  | (PV3 _ | PV4 _), (UniswapV3 | UniswapV4) =>
      let_some probe := hop_probes !! i or Panic in
      if cl_hop_tickless state then
        if cl_hop_exceeds_shallow_cap amount_in probe then Done (Some (HShallowCl i), profile)
        else Done (None, profile)
      else if verified then
        if cl_hop_exceeds_shallow_cap amount_in probe then Done (Some (HShallowCl i), profile) else rest
      else
        let! d := cl_hop_shallow_at_amount state edge probe amount_in profile in
        let '(shallow, profile) := d in
        if shallow then Done (Some (HShallowCl i), profile)
        else requote state edge i amount_in profile
  | _, _ => rest
  end.

Fixpoint fidelity_loop (arena : StateArena) (hop_amounts : list Z) (verified : bool)
    (hop_probes : list Z) (i : nat) (edges : list Edge) (profile : option HopFidelityProfile)
  : verdict :=
  match edges with
  | [] => Done (None, profile)
  | edge :: edges =>
      let profile := count_hop profile in
      let amount_in := default 0 (hop_amounts !! i) in
      let_some state := pool_state arena (pool_index edge) or Done (Some (HMissingPool i), profile) in
      if negb (is_tradable state) then Done (Some (HPoolLocked i), profile)
      else
        let! v := hop_depth_verdict state edge i amount_in profile verified hop_probes in
        match v with
        | (None, profile) => fidelity_loop arena hop_amounts verified hop_probes (S i) edges profile
        | (Some reject, profile) => Done (Some reject, profile)
        end
  end.

Definition route_hop_fidelity_reject_profiled (arena : StateArena) (edges : list Edge)
    (hop_amounts : list Z) (profile : option HopFidelityProfile) (cl_depth_already_verified : bool)
    (precomputed : option (list Z)) : verdict :=
  let! hop_probes := effective_caps arena edges precomputed in
  fidelity_loop arena hop_amounts cl_depth_already_verified hop_probes 0 edges profile.

Definition route_hop_fidelity_reject (arena : StateArena) (edges : list Edge) (hop_amounts : list Z)
  : outcome (option HopFidelityReject) :=
  let! v := route_hop_fidelity_reject_profiled arena edges hop_amounts None false None in Done v.1.

Definition opt_is_none {A} (o : option A) : bool := match o with None => true | Some _ => false end.

Definition route_hop_fidelity_ok (arena : StateArena) (edges : list Edge) (hop_amounts : list Z)
  : outcome bool :=
  let! v := route_hop_fidelity_reject arena edges hop_amounts in Done (opt_is_none v).

Definition route_hop_fidelity_ok_after_walk (arena : StateArena) (edges : list Edge)
    (hop_amounts : list Z) : outcome bool :=
  let! v := route_hop_fidelity_reject_profiled arena edges hop_amounts None true None in
  Done (opt_is_none v.1).

(** ** Drift between two simulations *)

Definition u256_to_bps_u64 (v : Z) : Z := if u64_max <? v then u64_max else v mod M64.

Definition hop_amount_within_drift (baseline refreshed max_drift_bps : Z) : bool :=
  if baseline <=? refreshed then true
  else if is_zero refreshed then false
  else
    let lost := baseline -% refreshed in
    let drift_bps := (lost *% 10000) / baseline in
    drift_bps <=? max_drift_bps.

Definition resim_unprofitable : string := "resim unprofitable".
Definition hop_count_mismatch : string := "hop count mismatch".
Definition profit_drift : string := "profit drift".
Definition hop_amount_drift : string := "hop amount drift".

(** The update of [max_hop_drift_bps] for one hop. *)
Definition note_hop_drift (b r : Z) (p : ResimFidelityProfile) : ResimFidelityProfile :=
  if ((r <? b) && negb (is_zero b))%bool then
    let drift := if is_zero r then 10000 else u256_to_bps_u64 (((b -% r) *% 10000) / b) in
    {| profit_drift_bps := profit_drift_bps p; max_hop_drift_bps := Z.max (max_hop_drift_bps p) drift |}
  else p.

(** [for i in 1..len]: the pairs of amounts after the input. *)
Fixpoint resim_hops (pairs : list (Z * Z)) (p : ResimFidelityProfile)
  : option string * ResimFidelityProfile :=
  match pairs with
  | [] => (None, p)
  | (b, r) :: pairs =>
      let p := note_hop_drift b r p in
      if negb (hop_amount_within_drift b r RESIM_HOP_DRIFT_BPS) then (Some hop_amount_drift, p)
      else resim_hops pairs p
  end.

Definition note_profit_drift (b r : Z) (p : ResimFidelityProfile) : ResimFidelityProfile :=
  {| profit_drift_bps := if b <=? r then 0 else u256_to_bps_u64 (((b -% r) *% 10000) / b);
     max_hop_drift_bps := max_hop_drift_bps p |}.

Definition min_resim_profit (baseline : Z) : Z :=
  (baseline *% (10000 - RESIM_PROFIT_DRIFT_BPS)) / 10000.

Definition route_resim_fidelity_reject_profiled (baseline refreshed : RouteSimulationResult)
    (profile : ResimFidelityProfile) : option string * ResimFidelityProfile :=
  if is_zero (rs_profit refreshed) then (Some resim_unprofitable, profile)
  else if negb (length (rs_hop_amounts baseline) =? length (rs_hop_amounts refreshed))%nat
  then (Some hop_count_mismatch, profile)
  else
    let has_baseline := negb (is_zero (rs_profit baseline)) in
    let profile :=
      if has_baseline then note_profit_drift (rs_profit baseline) (rs_profit refreshed) profile
      else profile in
    if (has_baseline && (rs_profit refreshed <? min_resim_profit (rs_profit baseline)))%bool
    then (Some profit_drift, profile)
    else resim_hops (tail (zip (rs_hop_amounts baseline) (rs_hop_amounts refreshed))) profile.

Definition route_resim_fidelity_reject (baseline refreshed : RouteSimulationResult)
  : option string :=
  (route_resim_fidelity_reject_profiled baseline refreshed
     {| profit_drift_bps := 0; max_hop_drift_bps := 0 |}).1.

(** ** Properties *)

(** What a quoted hop tells about its pool, for the edge it was simulated with. *)
Lemma simulate_hop_depth state e a cap h :
  a ≠ 0 → simulate_hop state e a cap = Done (inr h) →
  (is_cl (protocol e) = true → cl_hop_exceeds_shallow_cap a cap = false) ∧
  (∀ s, state = PV2 s → protocol e = UniswapV2 → a < v2_reserve_in s (zero_for_one e)).
Proof.
  intros Ha. unfold simulate_hop. rewrite (proj2 (Z.eqb_neq a 0) Ha : is_zero a = false).
  destruct (is_cl (protocol e) && cl_hop_exceeds_shallow_cap a cap)%bool eqn:Ec; [done|]. intros Hh. split.
  - intros Hcl. by rewrite Hcl in Ec.
  - intros s -> Ep. rewrite Ep in Hh. destruct (Z.leb_spec (v2_reserve_in s (zero_for_one e)) a); [done|lia].
Qed.

(** A hop quoted under some cap is quoted alike without one. *)
Lemma simulate_hop_uncapped state e a cap h :
  simulate_hop state e a cap = Done (inr h) → simulate_hop state e a U256_MAX = Done (inr h).
Proof.
  unfold simulate_hop. destruct (is_zero a); [done|].
  assert (cl_hop_exceeds_shallow_cap a U256_MAX = false) as Hmax
    by (unfold cl_hop_exceeds_shallow_cap; by rewrite Z.ltb_irrefl).
  rewrite Hmax, andb_false_r. destruct (_ && _)%bool; [done|].
  assert (∀ s, simulate_cl_hop s e a cap = Done (inr h) → simulate_cl_hop s e a U256_MAX = Done (inr h)) as Hcl.
  { intros s. unfold simulate_cl_hop. rewrite Hmax.
    destruct (simulate_v3_swap _ _ _ _ _) as [r|]; cbn [obind]; [|done].
    destruct (vr_shallow r); [|done]. destruct (ticks_empty s); cbn [negb orb]; [|done].
    destruct (cl_hop_exceeds_shallow_cap a cap); [done|]. done. }
  destruct state, (protocol e); first [exact (Hcl _) | exact id].
Qed.

Lemma requote_ok state e i a cap h profile :
  simulate_hop state e a cap = Done (inr h) → requote state e i a profile = Done (None, profile).
Proof.
  intros Hh%simulate_hop_uncapped. unfold requote. destruct (is_zero a); [done|].
  unfold simulate_hop_amount_out, simulate_hop_amount_out_with_cap. by rewrite Hh.
Qed.

(** A ticked hop that was quoted has depth at the amount. *)
Lemma quoted_hop_not_shallow state e a probe h profile :
  a ≠ 0 → cl_hop_tickless state = false → is_cl (protocol e) = true → state_is_cl state = true →
  simulate_hop state e a probe = Done (inr h) →
  ∃ p, cl_hop_shallow_at_amount state e probe a profile = Done (false, p).
Proof.
  intros Ha Ht Hcl Hs Hh. destruct (simulate_hop_depth _ _ _ _ _ Ha Hh) as [Hx _]. specialize (Hx Hcl).
  unfold cl_hop_shallow_at_amount. rewrite Ht, Hx. revert Hh. unfold simulate_hop.
  rewrite (proj2 (Z.eqb_neq a 0) Ha : is_zero a = false), Hx, andb_false_r.
  assert (∀ s, ticks_empty s = false → simulate_cl_hop s e a probe = Done (inr h) →
    ∃ p, (let! r := simulate_v3_swap s a (zero_for_one e) (Some (fee_bps e)) (bool_decide (protocol e = UniswapV4)) in
          Done ((vr_shallow r || vr_synthetic r)%bool, count_depth_sim profile)) = Done (false, p)) as Hgen.
  { intros s Hts. unfold simulate_cl_hop. rewrite Hts. cbn [negb orb].
    destruct (simulate_v3_swap _ _ _ _ _) as [r|]; cbn [obind]; [|done].
    destruct (vr_shallow r); [done|]. destruct (vr_synthetic r); [done|]. eauto. }
  destruct state; try discriminate Hs; cbn [cl_hop_tickless] in Ht; specialize (Hgen _ Ht); revert Hgen;
    destruct (protocol e); try discriminate Hcl; intros Hgen Hh; first [by apply Hgen|discriminate Hh].
Qed.

Lemma hop_depth_verdict_ok state e i a cap h profile verified caps :
  a ≠ 0 → caps !! i = Some cap → simulate_hop state e a cap = Done (inr h) →
  ∃ p, hop_depth_verdict state e i a profile verified caps = Done (None, p).
Proof.
  intros Ha Hc Hh. destruct (simulate_hop_depth _ _ _ _ _ Ha Hh) as [Hx Hv2].
  unfold hop_depth_verdict. rewrite Hc.
  assert (∀ p, ∃ p', (if verified then Done (None, p) else requote state e i a p) = Done (None, p')) as Hrest.
  { intros p. destruct verified; [eauto|]. rewrite (requote_ok _ _ _ _ _ _ _ Hh). eauto. }
  assert (is_cl (protocol e) = true → state_is_cl state = true →
    ∃ p, (if cl_hop_tickless state then
        if cl_hop_exceeds_shallow_cap a cap then Done (Some (HShallowCl i), profile)
        else Done (None, profile)
      else if verified then
        if cl_hop_exceeds_shallow_cap a cap then Done (Some (HShallowCl i), profile)
        else if verified then Done (None, profile) else requote state e i a profile
      else
        let! d := cl_hop_shallow_at_amount state e cap a profile in
        let '(shallow, profile) := d in
        if shallow then Done (Some (HShallowCl i), profile)
        else requote state e i a profile) = Done (None, p)) as Hcl.
  { intros Hcl Hs. rewrite (Hx Hcl). destruct (cl_hop_tickless state) eqn:Ht; [eauto|].
    destruct verified; [eauto|].
    destruct (quoted_hop_not_shallow _ _ _ _ _ profile Ha Ht Hcl Hs Hh) as [p ->]. cbn [obind].
    rewrite (requote_ok _ _ _ _ _ _ _ Hh). eauto. }
  destruct state, (protocol e) eqn:Ep; first [exact (Hrest profile) | exact (Hcl eq_refl eq_refl) | idtac].
  specialize (Hv2 _ eq_refl eq_refl). unfold v2_reserve_in in Hv2.
  destruct (Z.leb_spec (if zero_for_one e then v2_reserve0 s else v2_reserve1 s) a); [lia|eauto].
Qed.

Lemma fidelity_loop_ok arena caps amounts verified edges i a hs pre profile :
  hops_run arena caps i edges a hs → a ≠ 0 →
  (verified = true ∨ Forall (λ e, protocol_is_multi (protocol e) = false) edges) →
  amounts = pre ++ a :: (hr_amount_out <$> hs) → List.length pre = i →
  ∃ p, fidelity_loop arena amounts verified caps i edges profile = Done (None, p).
Proof.
  intros Hrun. revert pre profile.
  induction Hrun as [i a|i e es a st e' cap h hs Es Et Er Ec Eh Hz Hrun IH]; intros pre profile Ha Hv Hl Hp;
    cbn [fidelity_loop]; [eauto|].
  rewrite Es, Et. cbn [negb].
  assert (amounts !! i = Some a) as -> by (subst; by apply list_lookup_middle).
  change (default 0 (Some a)) with a.
  assert (∃ p, hop_depth_verdict st e i a (count_hop profile) verified caps = Done (None, p)) as [p ->].
  { unfold realigned in Er. destruct (protocol_is_multi (protocol e)) eqn:Em.
    - destruct Hv as [->|Hv]; [|apply Forall_cons_1 in Hv as [? _]; congruence].
      exists (count_hop profile). unfold hop_depth_verdict. by destruct st, (protocol e).
    - injection Er as <-. by eapply hop_depth_verdict_ok. }
  cbn [obind]. apply (IH (pre ++ [a])).
  - by apply Hz.
  - destruct Hv as [?|Hv]; [by left|right]. by apply Forall_cons_1 in Hv as [_ ?].
  - subst. rewrite fmap_cons. by rewrite <- app_assoc.
  - rewrite length_app. cbn. lia.
Qed.

Lemma detailed_run arena edges a r :
  a ≠ 0 → simulate_route_detailed arena edges a = Done (Some r) →
  ∃ caps hs, effective_caps arena edges None = Done caps ∧ hops_run arena caps 0 edges a hs ∧
    r = run_result edges a hs.
Proof.
  intros Ha Hr. destruct (route_edges_simulatable arena edges) eqn:Hs;
    [|unfold simulate_route_detailed, simulate_route_detailed_with_caps in Hr; by rewrite Hs in Hr].
  pose proof Hs as Hs'. unfold route_edges_simulatable in Hs'.
  apply andb_true_iff in Hs' as [[_ Hl]%andb_true_iff _]. nbool.
  destruct (effective_caps_spec arena edges Hl) as (caps & Hc & _ & _).
  apply (simulate_route_detailed_run _ _ _ _ _ _ Hs Ha Hc) in Hr as (hs & Hrun & ->). eauto.
Qed.

(** A route that has just been simulated passes its fidelity gates: the quick
    gate always, and the full one, which quotes every hop again, when no hop needs
    its vault indices realigned. *)
Theorem simulated_route_is_faithful (arena : StateArena) (edges : list Edge) (a : Z)
    (r : RouteSimulationResult) :
  a ≠ 0 → simulate_route_detailed arena edges a = Done (Some r) →
  route_hop_fidelity_ok_after_walk arena edges (rs_hop_amounts r) = Done true ∧
  (Forall (λ e, protocol_is_multi (protocol e) = false) edges →
   route_hop_fidelity_ok arena edges (rs_hop_amounts r) = Done true).
Proof.
  intros Ha Hr. destruct (detailed_run _ _ _ _ Ha Hr) as (caps & hs & Hc & Hrun & ->).
  unfold route_hop_fidelity_ok_after_walk, route_hop_fidelity_ok, route_hop_fidelity_reject,
    route_hop_fidelity_reject_profiled. rewrite Hc. cbn [obind]. split; [|intros Hm].
  - destruct (fidelity_loop_ok arena caps (rs_hop_amounts (run_result edges a hs)) true edges 0 a hs [] None)
      as [p ->]; auto.
  - destruct (fidelity_loop_ok arena caps (rs_hop_amounts (run_result edges a hs)) false edges 0 a hs [] None)
      as [p ->]; auto.
Qed.

(** ** Drift *)

Lemma hop_drift_iff b r :
  0 ≤ r → u256 b → b * 10000 < M256 →
  hop_amount_within_drift b r RESIM_HOP_DRIFT_BPS = true ↔ b ≤ r ∨ (0 < r ∧ (b - r) * 10000 < 201 * b).
Proof.
  intros Hr Hb Hroom. unfold hop_amount_within_drift, is_zero, RESIM_HOP_DRIFT_BPS, u256 in *.
  destruct (Z.leb_spec b r); [split; [by left|done]|].
  destruct (Z.eqb_spec r 0) as [->|]; [split; [done|lia]|].
  rewrite wsub_small, wmul_small by lia. rewrite Z.leb_le.
  pose proof (div_mul_le ((b - r) * 10000) b ltac:(lia)).
  pose proof (div_mul_gt ((b - r) * 10000) b ltac:(lia)). split; [right; nia|].
  intros [?|[_ ?]]; [lia|]. apply Z.lt_succ_r. apply Z.div_lt_upper_bound; lia.
Qed.

Lemma resim_hops_iff pairs p :
  Forall (λ br, 0 ≤ br.2 ∧ u256 br.1 ∧ br.1 * 10000 < M256) pairs →
  (resim_hops pairs p).1 = None ↔
  Forall (λ br, br.1 ≤ br.2 ∨ (0 < br.2 ∧ (br.1 - br.2) * 10000 < 201 * br.1)) pairs.
Proof.
  intros Hall. revert p. induction Hall as [|[b r] pairs (Hr & Hb & Hroom) _ IH]; intros p; [done|].
  cbn [resim_hops fst snd] in *. rewrite Forall_cons.
  destruct (hop_amount_within_drift b r RESIM_HOP_DRIFT_BPS) eqn:Ed; cbn [negb fst snd].
  - rewrite IH. apply hop_drift_iff in Ed; [|done..]. naive_solver.
  - split; [done|]. intros [Hd _]. apply hop_drift_iff in Hd; [congruence|done..].
Qed.

(** A fresh simulation is accepted exactly when it is profitable, has as many
    hop amounts as the baseline, keeps at least 90% (rounded down) of the
    baseline's profit when there was one, and has no hop output more than 2% below
    the baseline's (to the basis point, rounded down) nor reduced to zero. *)
Theorem route_resim_fidelity_iff (baseline refreshed : RouteSimulationResult) :
  0 ≤ rs_profit refreshed → 0 ≤ rs_profit baseline → rs_profit baseline * 10000 < M256 →
  Forall (λ x, 0 ≤ x) (rs_hop_amounts refreshed) →
  Forall (λ x, u256 x ∧ x * 10000 < M256) (rs_hop_amounts baseline) →
  route_resim_fidelity_reject baseline refreshed = None ↔
  rs_profit refreshed ≠ 0 ∧
  List.length (rs_hop_amounts baseline) = List.length (rs_hop_amounts refreshed) ∧
  rs_profit baseline * 9000 / 10000 ≤ rs_profit refreshed ∧
  (∀ i b r, (1 ≤ i)%nat → rs_hop_amounts baseline !! i = Some b → rs_hop_amounts refreshed !! i = Some r →
     b ≤ r ∨ (0 < r ∧ (b - r) * 10000 < 201 * b)).
Proof.
  intros Hpr Hpb Hroom Hr Hb. unfold route_resim_fidelity_reject, route_resim_fidelity_reject_profiled, is_zero.
  destruct (Z.eqb_spec (rs_profit refreshed) 0); [split; [done|naive_solver]|].
  destruct (Nat.eqb_spec (List.length (rs_hop_amounts baseline)) (List.length (rs_hop_amounts refreshed)))
    as [Hlen|]; cbn [negb]; [|split; [done|naive_solver]].
  set (pairs := zip (rs_hop_amounts baseline) (rs_hop_amounts refreshed)).
  assert (Forall (λ br, 0 ≤ br.2 ∧ u256 br.1 ∧ br.1 * 10000 < M256) (tail pairs)) as Hpairs.
  { apply Forall_forall. intros [b r] Hin. assert ((b, r) ∈ pairs) as Hin' by (by destruct pairs; [|right]).
    apply list_elem_of_lookup_1 in Hin' as [i Hi]. apply lookup_zip_with_Some in Hi as (b' & r' & [= -> ->] & Hbi & Hri).
    rewrite Forall_lookup in Hb, Hr. specialize (Hb _ _ Hbi). specialize (Hr _ _ Hri). cbn. naive_solver. }
  assert (min_resim_profit (rs_profit baseline) = rs_profit baseline * 9000 / 10000) as Emin.
  { unfold min_resim_profit, RESIM_PROFIT_DRIFT_BPS. by rewrite wmul_small by lia. }
  assert (∀ p, (resim_hops (tail pairs) p).1 = None ↔
    (∀ i b r, (1 ≤ i)%nat → rs_hop_amounts baseline !! i = Some b → rs_hop_amounts refreshed !! i = Some r →
     b ≤ r ∨ (0 < r ∧ (b - r) * 10000 < 201 * b))) as Hhops.
  { intros p. rewrite resim_hops_iff by done. rewrite Forall_lookup. split.
    - intros Hall [|i] b r Hi Hbi Hri; [lia|]. apply (Hall i (b, r)). rewrite lookup_tail.
      apply lookup_zip_with_Some. eauto.
    - intros Hall i [b r] Hi. rewrite lookup_tail in Hi.
      apply lookup_zip_with_Some in Hi as (b' & r' & [= -> ->] & Hbi & Hri). by apply (Hall (S i)); [lia|..]. }
  rewrite Emin. destruct (Z.eqb_spec (rs_profit baseline) 0) as [E0|E0]; cbn [negb andb].
  - rewrite Hhops, E0. cbn. naive_solver lia.
  - destruct (Z.ltb_spec (rs_profit refreshed) (rs_profit baseline * 9000 / 10000)); cbn [fst].
    + split; [done|]. intros (_ & _ & ? & _). lia.
    + rewrite Hhops. naive_solver.
Qed.

(** ** Witnesses *)

Lemma simulated_route_is_faithful_witness :
  route_hop_fidelity_ok_after_walk demo_arena demo_route (rs_hop_amounts demo_result) = Done true ∧
  (Forall (λ e, protocol_is_multi (protocol e) = false) demo_route →
   route_hop_fidelity_ok demo_arena demo_route (rs_hop_amounts demo_result) = Done true).
Proof.
  apply (simulated_route_is_faithful demo_arena demo_route (10 ^ 12)); [discriminate|].
  vm_compute. reflexivity.
Defined.

Definition demo_outcome (profit : Z) (amounts : list Z) : RouteSimulationResult :=
  {| rs_amount_in := 1000; rs_amount_out := 1000 + profit; rs_profit := profit; rs_profitable := true;
     rs_hop_amounts := amounts; rs_total_gas := 300000; rs_hop_count := 2 |}.

Lemma route_resim_fidelity_iff_witness :
  route_resim_fidelity_reject (demo_outcome 100 [1000; 5000; 1100]) (demo_outcome 91 [1000; 4901; 1091]) = None.
Proof.
  apply route_resim_fidelity_iff; cbn; [vm_compute; congruence..| | |].
  - repeat constructor; lia.
  - repeat constructor; vm_compute; congruence.
  - split_and!; [lia|done|vm_compute; congruence|].
    intros i b r Hi Hb Hr. destruct i as [|[|[|i]]]; [lia|..|done]; injection Hb as <-; injection Hr as <-; lia.
Defined.
