(* ===== verification/Nonce.v ===== *)
(** * The nonce manager

    [src/src/services/execution/nonce.rs]: which nonces are reserved by a
    transaction in flight, which ones are stale (their transaction may still be
    mined), and which one is handed out next.  The state is behind a mutex, so each
    method is one atomic step; the pending nonce that [initialize] reads over RPC is
    an argument ([None] is a failed read).  Nonces are [u64]s. *)
From stdpp Require Import gmap.
From S2P Require Import Prelude Word.

Record NonceState := {
  ns_local_nonce : Z;
  ns_in_flight : gset Z;
  ns_min_in_flight : option Z;
  ns_stale : gset Z;
}.

Definition init : NonceState :=
  {| ns_local_nonce := 0; ns_in_flight := ∅; ns_min_in_flight := None; ns_stale := ∅ |}.

(** [n += 1] *)
Definition next_u64 (n : Z) : Z := wrap_u 64 (n + 1).

(** [!self.in_flight.contains(&n) && !self.stale.contains(&n)] *)
Definition is_free (self : NonceState) (n : Z) : bool :=
  (negb (bool_decide (n ∈ ns_in_flight self)) && negb (bool_decide (n ∈ ns_stale self)))%bool.

(** The loop of [next_available]; [None] is out of fuel. *)
Fixpoint next_free (fuel : nat) (self : NonceState) (n : Z) : option Z :=
  match fuel with
  | O => None
  | S fuel => if is_free self n then Some n else next_free fuel self (next_u64 n)
  end.

Definition first_nonce (self : NonceState) : Z :=
  match ns_min_in_flight self with
  | Some min_in_flight => Z.min (ns_local_nonce self) min_in_flight
  | None => ns_local_nonce self
  end.

(** One step more than there are reserved nonces. *)
Definition next_available (self : NonceState) : option Z :=
  next_free (S (size (ns_in_flight self ∪ ns_stale self))) self (first_nonce self).

Definition insert_in_flight (nonce : Z) (self : NonceState) : NonceState :=
  if bool_decide (nonce ∈ ns_in_flight self) then self
  else {| ns_local_nonce := ns_local_nonce self;
          ns_in_flight := {[nonce]} ∪ ns_in_flight self;
          ns_min_in_flight :=
            Some (match ns_min_in_flight self with Some m => Z.min m nonce | None => nonce end);
          ns_stale := ns_stale self |}.

(** [self.in_flight.iter().copied().min()] *)
Definition set_min (s : gset Z) : option Z :=
  fold_left (λ best n, Some (match best with Some m => Z.min m n | None => n end)) (elements s) None.

Definition remove_in_flight (nonce : Z) (self : NonceState) : NonceState :=
  if negb (bool_decide (nonce ∈ ns_in_flight self)) then self
  else
    let in_flight := ns_in_flight self ∖ {[nonce]} in
    {| ns_local_nonce := ns_local_nonce self; ns_in_flight := in_flight;
       ns_min_in_flight :=
         if bool_decide (ns_min_in_flight self = Some nonce) then set_min in_flight
         else ns_min_in_flight self;
       ns_stale := ns_stale self |}.

Definition clear_in_flight (self : NonceState) : NonceState :=
  {| ns_local_nonce := ns_local_nonce self; ns_in_flight := ∅; ns_min_in_flight := None;
     ns_stale := ns_stale self |}.

Definition prune_stale (self : NonceState) : NonceState :=
  {| ns_local_nonce := ns_local_nonce self; ns_in_flight := ns_in_flight self;
     ns_min_in_flight := ns_min_in_flight self;
     ns_stale := filter (λ n, ns_local_nonce self ≤ n) (ns_stale self) |}.

Definition set_local_nonce (nonce : Z) (self : NonceState) : NonceState :=
  {| ns_local_nonce := nonce; ns_in_flight := ns_in_flight self;
     ns_min_in_flight := ns_min_in_flight self; ns_stale := ns_stale self |}.

Definition set_stale (stale : gset Z) (self : NonceState) : NonceState :=
  {| ns_local_nonce := ns_local_nonce self; ns_in_flight := ns_in_flight self;
     ns_min_in_flight := ns_min_in_flight self; ns_stale := stale |}.

(** ** The manager *)

Record NonceManager := { nm_address : Z; nm_initialized : bool; nm_state : NonceState }.

Definition new (address : Z) : NonceManager :=
  {| nm_address := address; nm_initialized := false; nm_state := init |}.

Definition with_state (mgr : NonceManager) (s : NonceState) : NonceManager :=
  {| nm_address := nm_address mgr; nm_initialized := nm_initialized mgr; nm_state := s |}.

(** The boolean is [is_ok()]. *)
Definition initialize (pending_nonce : option Z) (mgr : NonceManager) : bool * NonceManager :=
  match pending_nonce with
  | Some nonce =>
      (true,
       {| nm_address := nm_address mgr; nm_initialized := true;
          nm_state := set_stale ∅ (clear_in_flight (set_local_nonce nonce (nm_state mgr))) |})
  | None => (false, mgr)
  end.

Inductive NextNonce := NotInitialized | Reserved (nonce : Z).

(** [None] is out of fuel. *)
Definition next_nonce (mgr : NonceManager) : option (NextNonce * NonceManager) :=
  if negb (nm_initialized mgr) then Some (NotInitialized, mgr)
  else
    let? nonce := next_available (nm_state mgr) in
    Some (Reserved nonce, with_state mgr (insert_in_flight nonce (nm_state mgr))).

Definition confirm (confirmed : Z) (mgr : NonceManager) : NonceManager :=
  let state := remove_in_flight confirmed (nm_state mgr) in
  let state := set_local_nonce (Z.max (ns_local_nonce state) (next_u64 confirmed)) state in
  with_state mgr (prune_stale state).

Definition release (nonce : Z) (mgr : NonceManager) : NonceManager :=
  with_state mgr (remove_in_flight nonce (nm_state mgr)).

Definition mark_stale (nonce : Z) (mgr : NonceManager) : NonceManager :=
  let state := remove_in_flight nonce (nm_state mgr) in
  with_state mgr (set_stale ({[nonce]} ∪ ns_stale state) state).

Definition replace_nonce (nonce : Z) (mgr : NonceManager) : option Z * NonceManager :=
  let state := nm_state mgr in
  let was_stale := bool_decide (nonce ∈ ns_stale state) in
  let state := set_stale (ns_stale state ∖ {[nonce]}) state in
  if (was_stale || bool_decide (nonce ∈ ns_in_flight state))%bool
  then (Some nonce, with_state mgr (insert_in_flight nonce state))
  else (None, with_state mgr state).

Definition stale_count (mgr : NonceManager) : nat := size (ns_stale (nm_state mgr)).
Definition in_flight_count (mgr : NonceManager) : nat := size (ns_in_flight (nm_state mgr)).

Definition resync (pending_nonce : option Z) (mgr : NonceManager) : bool * NonceManager :=
  initialize pending_nonce mgr.

(** The result of the read is only used when it is made. *)
Definition resync_if_dirty (pending_nonce : option Z) (mgr : NonceManager)
    : option bool * NonceManager :=
  if ((stale_count mgr =? 0)%nat && (in_flight_count mgr =? 0)%nat)%bool then (Some false, mgr)
  else
    let '(ok, mgr) := resync pending_nonce mgr in
    (if ok then Some true else None, mgr).

(** ** The invariant *)

(** [o] is the least element of [s]. *)
Definition least (s : gset Z) (o : option Z) : Prop :=
  match o with Some m => m ∈ s ∧ ∀ n, n ∈ s → m ≤ n | None => s = ∅ end.

Lemma least_unique s o o' : least s o → least s o' → o = o'.
Proof.
  destruct o as [m|], o' as [m'|]; cbn; intros H H'; [|set_solver..|done].
  destruct H as [Hm H], H' as [Hm' H']. f_equal. specialize (H _ Hm'). specialize (H' _ Hm). lia.
Qed.

Lemma set_min_least s : least s (set_min s).
Proof.
  unfold set_min.
  assert (∀ l best (t : gset Z), least t best →
    least (t ∪ list_to_set l)
      (fold_left (λ best n, Some (match best with Some m => Z.min m n | None => n end)) l best)) as H.
  { induction l as [|n l IH]; intros best t Ht; cbn [fold_left].
    { by rewrite list_to_set_nil, (right_id_L ∅ (∪)). }
    rewrite list_to_set_cons, (assoc_L (∪)). apply IH. destruct best as [m|]; cbn in *.
    - destruct Ht as [Hm Ht]. split.
      + destruct (Z.min_spec m n) as [[? ->]|[? ->]]; set_solver.
      + intros x [Hx| ->%elem_of_singleton]%elem_of_union; [specialize (Ht x Hx)|]; lia.
    - subst t. split; [set_solver|]. intros x Hx. assert (x = n) as -> by set_solver. lia. }
  specialize (H (elements s) None ∅ eq_refl). by rewrite list_to_set_elements_L, (left_id_L ∅ (∪)) in H.
Qed.

Definition state_ok (s : NonceState) : Prop :=
  least (ns_in_flight s) (ns_min_in_flight s) ∧ ns_in_flight s ## ns_stale s.

Lemma insert_in_flight_ok n s :
  state_ok s → n ∉ ns_stale s →
  state_ok (insert_in_flight n s) ∧ ns_in_flight (insert_in_flight n s) = {[n]} ∪ ns_in_flight s ∧
  ns_stale (insert_in_flight n s) = ns_stale s.
Proof.
  intros [Hm Hd] Hn. unfold insert_in_flight. case_bool_decide as Hin.
  { split; [by split|]. split; [set_solver|done]. }
  split; [|done]. split; cbn; [|set_solver].
  destruct (ns_min_in_flight s) as [m|]; cbn in Hm.
  - destruct Hm as [Hm Hl]. split.
    + destruct (Z.min_spec m n) as [[? ->]|[? ->]]; set_solver.
    + intros x [->%elem_of_singleton|Hx]%elem_of_union; [|specialize (Hl x Hx)]; lia.
  - rewrite Hm. split; [set_solver|]. intros x Hx. assert (x = n) as -> by set_solver. lia.
Qed.

Lemma remove_in_flight_ok n s :
  state_ok s →
  state_ok (remove_in_flight n s) ∧ ns_in_flight (remove_in_flight n s) = ns_in_flight s ∖ {[n]} ∧
  ns_stale (remove_in_flight n s) = ns_stale s ∧
  ns_local_nonce (remove_in_flight n s) = ns_local_nonce s.
Proof.
  intros [Hm Hd]. unfold remove_in_flight. case_bool_decide as Hin; cbn [negb].
  2:{ split; [by split|]. split; [set_solver|done]. }
  split; [|done]. split; cbn; [|set_solver]. case_bool_decide as Emin; [apply set_min_least|].
  destruct (ns_min_in_flight s) as [m|]; cbn in *; [|set_solver].
  destruct Hm as [Hm Hl]. split; [|set_solver]. apply elem_of_difference. split; [done|].
  intros ->%elem_of_singleton. by destruct Emin.
Qed.

(** Everything a client can do to the manager; nonces passed in are arbitrary. *)
Inductive nonce_step (mgr : NonceManager) : NonceManager → Prop :=
| step_initialize pending : nonce_step mgr (initialize pending mgr).2
| step_next r mgr' : next_nonce mgr = Some (r, mgr') → nonce_step mgr mgr'
| step_confirm n : nonce_step mgr (confirm n mgr)
| step_release n : nonce_step mgr (release n mgr)
| step_mark_stale n : nonce_step mgr (mark_stale n mgr)
| step_replace n : nonce_step mgr (replace_nonce n mgr).2
| step_resync_if_dirty pending : nonce_step mgr (resync_if_dirty pending mgr).2.

Lemma next_free_spec fuel s : ∀ n r, next_free fuel s n = Some r → is_free s r = true.
Proof.
  induction fuel as [|fuel IH]; intros n r; cbn [next_free]; [done|].
  destruct (is_free s n) eqn:E; [by intros [= <-]|apply IH].
Qed.

Lemma is_free_spec s n : is_free s n = true ↔ n ∉ ns_in_flight s ∧ n ∉ ns_stale s.
Proof. unfold is_free. rewrite andb_true_iff, !negb_true_iff, !bool_decide_eq_false. done. Qed.

Lemma next_nonce_Some mgr r mgr' :
  next_nonce mgr = Some (r, mgr') →
  r = NotInitialized ∧ mgr' = mgr ∨
  ∃ n, r = Reserved n ∧ n ∉ ns_in_flight (nm_state mgr) ∧ n ∉ ns_stale (nm_state mgr) ∧
    mgr' = with_state mgr (insert_in_flight n (nm_state mgr)).
Proof.
  unfold next_nonce. destruct (nm_initialized mgr); cbn [negb]; [|intros [= <- <-]; by left].
  destruct (next_available _) as [n|] eqn:E; [|done]. intros [= <- <-].
  apply next_free_spec, is_free_spec in E as []. right. by exists n.
Qed.

Lemma initialize_ok pending mgr :
  state_ok (nm_state mgr) → state_ok (nm_state (initialize pending mgr).2).
Proof. destruct pending; [|done]. intros _. split; cbn; [done|set_solver]. Qed.

Lemma nonce_step_ok mgr mgr' :
  state_ok (nm_state mgr) → nonce_step mgr mgr' → state_ok (nm_state mgr').
Proof.
  intros Hok Hs. destruct Hs as [p|r mgr' H|n|n|n|n|p].
  - by apply initialize_ok.
  - apply next_nonce_Some in H as [[_ ->]|(n & _ & ? & ? & ->)]; [done|]. by apply insert_in_flight_ok.
  - destruct (remove_in_flight_ok n _ Hok) as ([Hm Hd] & Hi & Hst & _). split; [done|].
    unfold confirm, with_state, prune_stale, set_local_nonce. cbn.
    rewrite Hst. rewrite Hst in Hd. intros x Hx Hx'. apply elem_of_filter in Hx' as [_ ?].
    by apply (Hd x).
  - by apply remove_in_flight_ok.
  - destruct (remove_in_flight_ok n _ Hok) as ([Hm Hd] & Hi & _). split; [done|].
    unfold mark_stale, with_state, set_stale. cbn in *. rewrite Hi in *. set_solver.
  - unfold replace_nonce. destruct Hok as [Hm Hd].
    assert (state_ok (set_stale (ns_stale (nm_state mgr) ∖ {[n]}) (nm_state mgr))) as Hok'
      by (split; cbn; [done|set_solver]).
    destruct (_ || _)%bool; [|done]. apply insert_in_flight_ok; [done|]. cbn. set_solver.
  - unfold resync_if_dirty. destruct (_ && _)%bool; [done|]. unfold resync.
    pose proof (initialize_ok p mgr Hok) as H. by destruct (initialize p mgr).
Qed.

Lemma nonce_reachable_ok address mgr :
  rtc nonce_step (new address) mgr → state_ok (nm_state mgr).
Proof.
  intros H. assert (state_ok (nm_state (new address))) as H0 by (split; cbn; [done|set_solver]).
  revert H0. induction H; eauto using nonce_step_ok.
Qed.

(** ** Reservation *)

(** Enough fuel: each busy candidate is a reserved nonce, and they are distinct. *)
Lemma next_free_total s (top : Z) : ∀ (fuel : nat) (n : Z),
  0 ≤ n → (∀ m, m ∈ ns_in_flight s ∪ ns_stale s → m < top) → top < 2 ^ 64 →
  (size (filter (λ m, (n ≤ m)%Z) (ns_in_flight s ∪ ns_stale s)) < fuel)%nat →
  ∃ r, next_free fuel s n = Some r ∧ n ≤ r ∧
    ∀ m, n ≤ m < r → m ∈ ns_in_flight s ∪ ns_stale s.
Proof.
  set (R := ns_in_flight s ∪ ns_stale s).
  induction fuel as [|fuel IH]; intros n Hn Htop H64 Hsz; [lia|]. cbn [next_free].
  destruct (is_free s n) eqn:E; [exists n; split; [done|]; split; [lia|]; intros; lia|].
  assert (n ∈ R) as HR.
  { destruct (decide (n ∈ R)) as [|Hn']; [done|]. rewrite (proj2 (is_free_spec s n)) in E; [done|].
    subst R. set_solver. }
  specialize (Htop n HR) as Hlt.
  assert (next_u64 n = n + 1) as -> by (apply Z.mod_small; lia).
  destruct (IH (n + 1)) as (r & Hr & Hle & Hbusy); [lia|done..| |].
  { assert (filter (λ m, n ≤ m) R = {[n]} ∪ filter (λ m, n + 1 ≤ m) R) as Heq.
    { apply set_eq. intros x. rewrite elem_of_union, !elem_of_filter, elem_of_singleton.
      split; [intros [? ?]; destruct (decide (x = n)); [by left|right; split; [lia|done]]|].
      intros [->|[? ?]]; split; done || lia. }
    rewrite Heq, (size_union ({[n]} : gset Z)), size_singleton in Hsz; [lia|].
    intros x ->%elem_of_singleton [? _]%elem_of_filter. lia. }
  exists r. split; [done|]. split; [lia|]. intros m Hm.
  destruct (decide (m = n)) as [->|]; [done|]. apply Hbusy. lia.
Qed.

Lemma next_available_total s top :
  0 ≤ first_nonce s → (∀ m, m ∈ ns_in_flight s ∪ ns_stale s → m < top) → top < 2 ^ 64 →
  ∃ r, next_available s = Some r ∧ first_nonce s ≤ r ∧
    ∀ m, first_nonce s ≤ m < r → m ∈ ns_in_flight s ∪ ns_stale s.
Proof.
  intros Hn Htop H64. unfold next_available. apply (next_free_total s top); [done..|].
  assert (filter (λ m, first_nonce s ≤ m) (ns_in_flight s ∪ ns_stale s) ⊆ ns_in_flight s ∪ ns_stale s)
    as Hsub by (intros x [_ ?]%elem_of_filter; done).
  apply subseteq_size in Hsub. lia.
Qed.

(** C37: In every state the manager can reach, whatever nonces its clients pass, the
    cached minimum is the least nonce in flight, and no nonce is both in flight and
    stale. *)
Theorem nonce_invariant (address : Z) (mgr : NonceManager) :
  rtc nonce_step (new address) mgr →
  least (ns_in_flight (nm_state mgr)) (ns_min_in_flight (nm_state mgr)) ∧
  ns_in_flight (nm_state mgr) ## ns_stale (nm_state mgr).
Proof. apply nonce_reachable_ok. Qed.

(** C40: An initialized manager always reserves a nonce: the loop ends after at most one
    step more than there are reserved nonces.  The nonce is the least one from the
    start of the search on that no transaction holds, in flight or stale, and it is in
    flight afterwards. *)
Theorem next_nonce_reserves_least_free (mgr : NonceManager) (top : Z) :
  nm_initialized mgr = true →
  0 ≤ first_nonce (nm_state mgr) →
  (∀ m, m ∈ ns_in_flight (nm_state mgr) ∪ ns_stale (nm_state mgr) → m < top) → top < 2 ^ 64 →
  ∃ n mgr', next_nonce mgr = Some (Reserved n, mgr') ∧
    first_nonce (nm_state mgr) ≤ n ∧
    n ∉ ns_in_flight (nm_state mgr) ∪ ns_stale (nm_state mgr) ∧
    (∀ m, first_nonce (nm_state mgr) ≤ m < n →
       m ∈ ns_in_flight (nm_state mgr) ∪ ns_stale (nm_state mgr)) ∧
    ns_in_flight (nm_state mgr') = {[n]} ∪ ns_in_flight (nm_state mgr) ∧
    ns_stale (nm_state mgr') = ns_stale (nm_state mgr).
Proof.
  intros Hi Hn Htop H64. destruct (next_available_total _ top Hn Htop H64) as (n & E & Hle & Hbusy).
  assert (next_nonce mgr = Some (Reserved n, with_state mgr (insert_in_flight n (nm_state mgr)))) as H.
  { unfold next_nonce. by rewrite Hi, E. }
  exists n. eexists. split; [exact H|]. unfold next_available in E. apply next_free_spec, is_free_spec in E as [].
  split; [done|]. split; [set_solver|]. split; [done|].
  cbn. unfold insert_in_flight. by case_bool_decide.
Qed.

Lemma release_reserved mgr mgr' n :
  state_ok (nm_state mgr) → next_nonce mgr = Some (Reserved n, mgr') → release n mgr' = mgr.
Proof.
  intros [Hm Hd] H.
  apply next_nonce_Some in H as [[? _]|(n' & [= <-] & Hf & Hs & ->)]; [done|].
  destruct mgr as [a i [loc fl mi st]]. unfold release, with_state, insert_in_flight. cbn in *.
  rewrite bool_decide_eq_false_2 by done. unfold remove_in_flight. cbn.
  rewrite bool_decide_eq_true_2 by set_solver. cbn [negb].
  assert (({[n]} ∪ fl) ∖ {[n]} = fl) as -> by set_solver.
  do 2 f_equal. case_bool_decide as E; [by apply (least_unique fl); [apply set_min_least|]|].
  destruct mi as [m|]; [|by destruct E]. cbn in Hm. f_equal.
  destruct (Z.min_spec m n) as [[? He]|[? He]]; rewrite He in *; done.
Qed.

(** Reserving a nonce and releasing it unused restores the manager exactly,
    including its cached minimum. *)
Theorem release_undoes_next_nonce (address : Z) (mgr mgr' : NonceManager) (n : Z) :
  rtc nonce_step (new address) mgr →
  next_nonce mgr = Some (Reserved n, mgr') → release n mgr' = mgr.
Proof. intros Hr. by apply release_reserved, (nonce_reachable_ok address). Qed.

(** The steps that end the life of a stale nonce. *)
Inductive keeps_stale (n : Z) (mgr : NonceManager) : NonceManager → Prop :=
| keep_next r mgr' : next_nonce mgr = Some (r, mgr') → keeps_stale n mgr mgr'
| keep_confirm m : 0 ≤ m < n → n < 2 ^ 64 → keeps_stale n mgr (confirm m mgr)
| keep_release m : keeps_stale n mgr (release m mgr)
| keep_mark m : keeps_stale n mgr (mark_stale m mgr)
| keep_replace m : m ≠ n → keeps_stale n mgr (replace_nonce m mgr).2.

(** A nonce marked stale is not handed out again, however many nonces are reserved,
    released, marked or replaced and however many smaller ones are confirmed, as long
    as the manager is not resynchronized and the nonce itself is not replaced. *)
Theorem stale_nonce_not_reserved (mgr mgr' : NonceManager) (n m : Z) (mgr'' : NonceManager) :
  ns_local_nonce (nm_state mgr) ≤ n →
  rtc (keeps_stale n) (mark_stale n mgr) mgr' →
  next_nonce mgr' = Some (Reserved m, mgr'') → m ≠ n.
Proof.
  intros Hloc Hr.
  assert (n ∈ ns_stale (nm_state mgr') ∧ ns_local_nonce (nm_state mgr') ≤ n) as [Hst _].
  { assert (n ∈ ns_stale (nm_state (mark_stale n mgr)) ∧
      ns_local_nonce (nm_state (mark_stale n mgr)) ≤ n) as H0.
    { unfold mark_stale, remove_in_flight. destruct (negb _); cbn; (split; [set_solver|done]). }
    assert (∀ k s, ns_stale (remove_in_flight k s) = ns_stale s ∧
      ns_local_nonce (remove_in_flight k s) = ns_local_nonce s) as Hrem
      by (intros; unfold remove_in_flight; by destruct (negb _)).
    assert (∀ k s, ns_stale (insert_in_flight k s) = ns_stale s ∧
      ns_local_nonce (insert_in_flight k s) = ns_local_nonce s) as Hins
      by (intros; unfold insert_in_flight; by case_bool_decide).
    clear Hloc. induction Hr as [|x y z Hs _ IH]; [done|]. apply IH. clear IH.
    destruct H0 as [H1 H2], Hs as [r y H|k Hk H64|k|k|k Hk].
    - apply next_nonce_Some in H as [[_ ->]|(? & _ & _ & _ & ->)]; [done|]. cbn.
      by rewrite (proj1 (Hins _ _)), (proj2 (Hins _ _)).
    - cbn. rewrite (proj1 (Hrem _ _)), (proj2 (Hrem _ _)).
      assert (next_u64 k ≤ n).
      { unfold next_u64, wrap_u. rewrite Z.mod_small; lia. }
      split; [apply elem_of_filter; split; [lia|done]|lia].
    - cbn. by rewrite (proj1 (Hrem _ _)), (proj2 (Hrem _ _)).
    - cbn. rewrite (proj1 (Hrem _ _)), (proj2 (Hrem _ _)). split; [set_solver|done].
    - unfold replace_nonce. destruct (_ || _)%bool; cbn;
        rewrite ?(proj1 (Hins _ _)), ?(proj2 (Hins _ _)); cbn; (split; [set_solver|done]). }
  intros H. apply next_nonce_Some in H as [[? _]|(k & [= <-] & _ & ? & _)]; [done|]. by intros ->.
Qed.

(** ** Witnesses and a reused nonce *)

Definition reserve (mgr : NonceManager) : NonceManager :=
  match next_nonce mgr with Some (_, mgr') => mgr' | None => mgr end.

(** Two transactions with the nonces 5 and 6 in flight. *)
Definition demo_manager : NonceManager := reserve (reserve (initialize (Some 5) (new 0)).2).

Lemma demo_manager_reached : rtc nonce_step (new 0) demo_manager.
Proof.
  eapply rtc_l; [exact (step_initialize _ (Some 5))|].
  eapply rtc_l; [eapply (step_next _ (Reserved 5)); vm_compute; reflexivity|].
  eapply rtc_l; [eapply (step_next _ (Reserved 6)); vm_compute; reflexivity|].
  apply rtc_refl.
Qed.

(** A confirmed nonce can be handed out again: the search starts at the least nonce
    in flight, below the local nonce, and a confirmed nonce is neither in flight nor
    stale.  With 5 and 6 in flight and 6 confirmed first, the next nonce is 6. *)
Theorem confirmed_nonce_can_be_reserved :
  ∃ mgr mgr', rtc nonce_step (new 0) mgr ∧ 6 ∈ ns_in_flight (nm_state mgr) ∧
    next_nonce (confirm 6 mgr) = Some (Reserved 6, mgr').
Proof.
  exists demo_manager. eexists. split; [exact demo_manager_reached|].
  split; [vm_compute; by constructor|vm_compute; reflexivity].
Qed.

Lemma nonce_invariant_witness :
  rtc nonce_step (new 0) demo_manager ∧ ns_min_in_flight (nm_state demo_manager) = Some 5 ∧
  ns_in_flight (nm_state demo_manager) ## ns_stale (nm_state demo_manager).
Proof.
  split; [exact demo_manager_reached|]. split; [vm_compute; reflexivity|].
  exact (proj2 (nonce_invariant 0 demo_manager demo_manager_reached)).
Defined.

Lemma next_nonce_reserves_least_free_witness :
  ∃ n mgr', next_nonce demo_manager = Some (Reserved n, mgr') ∧ n = 7.
Proof.
  destruct (next_nonce_reserves_least_free demo_manager 100) as (n & mgr' & H & _).
  - vm_compute. reflexivity.
  - vm_compute. discriminate.
  - intros m Hm. assert (m ∈ elements (ns_in_flight (nm_state demo_manager) ∪ ns_stale (nm_state demo_manager)))
      as Hm' by (apply elem_of_elements; exact Hm).
    revert Hm'. vm_compute. intros Hm'. repeat (inversion Hm' as [|? ? ? Hm'']; subst; [reflexivity|]; clear Hm'; rename Hm'' into Hm').
    inversion Hm'.
  - reflexivity.
  - exists n, mgr'. split; [exact H|]. vm_compute in H. congruence.
Defined.

Lemma release_undoes_next_nonce_witness :
  release 7 (reserve demo_manager) = demo_manager.
Proof.
  apply (release_undoes_next_nonce 0 demo_manager (reserve demo_manager) 7); [exact demo_manager_reached|].
  vm_compute. reflexivity.
Defined.

Lemma stale_nonce_not_reserved_witness :
  ∃ mgr, next_nonce (confirm 5 (mark_stale 6 demo_manager)) = Some (Reserved 7, mgr) ∧ 7 ≠ 6.
Proof.
  eexists.
  assert (next_nonce (confirm 5 (mark_stale 6 demo_manager)) =
    Some (Reserved 7, reserve (confirm 5 (mark_stale 6 demo_manager)))) as H
    by (vm_compute; reflexivity).
  split; [exact H|]. refine (stale_nonce_not_reserved demo_manager _ 6 7 _ _ _ H).
  - vm_compute. discriminate.
  - apply rtc_once. constructor; lia.
Defined.
