(* ===== verification/Risk.v ===== *)
(** * Route cool-downs and learned risk

    [src/src/services/execution/service/risk.rs] and the statistics of
    [service/route_stats.rs], with their constants from [service.rs]: which routes
    are quarantined and until when, who may assess a route, how many failures a route
    has, what minimum-profit uplift and flash-loan cap were learned for it.

    A route is its edge list.  Each map is behind a lock of its own and each function
    one atomic step on the record of them; [Instant]s are nanoseconds and every
    reading of the clock is an argument.  The two static counters that pace the
    pruning of expired entries are fields.  The events handed to the background writer
    of the statistics file are a list of lines. *)
From stdpp Require Import gmap strings pretty.
From S2P Require Import Prelude Word Types Arena.

Definition secs (n : Z) : Z := n * 1000000000.

Definition ROUTE_COOLDOWN : Z := secs 30.
Definition DRY_RUN_PASS_COOLDOWN : Z := secs 120.
Definition ROUTE_ASSESS_CLAIM_TTL : Z := secs 3.
Definition CHRONIC_UNDERWATER_COVER_BPS : Z := 10000.
Definition CHRONIC_UNDERWATER_MIN_AVAILABLE_MATIC_WEI : Z := 10 ^ 15.
Definition CHRONIC_UNDERWATER_STRIKES : Z := 3.
Definition CHRONIC_UNDERWATER_STRIKE_WINDOW : Z := secs 120.
Definition CHRONIC_UNDERWATER_MIN_COVER_BPS : Z := 25.
Definition BATCH_QUERY_FAIL_QUARANTINE : Z := secs 600.
Definition DIRECT_TOKEN_ZERO_REALIZED_QUARANTINE : Z := secs 1800.
Definition STRUCTURAL_DRY_RUN_QUARANTINE : Z := secs 600.
Definition PROBE_BELOW_FLOOR_QUARANTINE : Z := secs 300.
Definition CHRONIC_UNDERWATER_QUARANTINE : Z := STRUCTURAL_DRY_RUN_QUARANTINE.
Definition CHRONIC_THIN_LIQ_QUARANTINE : Z := secs 3600.
Definition CHRONIC_NEAR_MISS_QUARANTINE : Z := secs 30.
Definition CHRONIC_HIGH_COVER_BPS : Z := 7500.
Definition CHRONIC_MID_BAND_QUARANTINE : Z := secs 90.
Definition CHRONIC_THIN_LIQ_AVAILABLE_MATIC_WEI : Z := 5 * 10 ^ 16.
Definition CHRONIC_DUST_AVAILABLE_MATIC_WEI : Z := 10 ^ 16.
Definition CHRONIC_NEAR_MISS_COVER_BPS : Z := 500.
Definition PERMANENT_QUARANTINE : Z := secs 3600.
Definition MAX_CONSECUTIVE_FAILURES : Z := 5.
Definition ADAPTIVE_FLASH_CAP_START_DIVISOR : Z := 4.

(** ** Statistics *)

Record RouteStats := {
  st_successes : Z;
  st_dry_run_successes : Z;
  st_failures : Z;
  st_dry_run_failures : Z;
  st_submit_failures : Z;
  st_receipt_timeouts : Z;
  st_reverts : Z;
  st_realized_losses : Z;
  st_adaptive_flash_loan_usd : option Z;
}.

Definition default_stats : RouteStats :=
  {| st_successes := 0; st_dry_run_successes := 0; st_failures := 0; st_dry_run_failures := 0;
     st_submit_failures := 0; st_receipt_timeouts := 0; st_reverts := 0; st_realized_losses := 0;
     st_adaptive_flash_loan_usd := None |}.

Inductive RouteFailureKind := DryRun | Submit | Timeout | Revert | RealizedLoss.

Definition as_tag (self : RouteFailureKind) : string :=
  match self with
  | DryRun => "DryRun"
  | Submit => "Submit"
  | Timeout => "Timeout"
  | Revert => "Revert"
  | RealizedLoss => "RealizedLoss"
  end.

Inductive RouteStatsEvent :=
| Success | DryRunPass | Failure (kind : RouteFailureKind) | AdaptiveFlashCap (cap : Z).

Definition ROUTE_STATS_RECORD_VERSION : string := "v1".

(** [protocol as u8] *)
Definition protocol_u8 (p : ProtocolType) : Z := default 0 (fetch_slot p).

Definition encode_edge (edge : Edge) : string :=
  String.concat ":"
    (pretty <$> [pool_index edge; token_in edge; token_out edge; token_in_idx edge;
                 token_out_idx edge; protocol_u8 (protocol edge); fee_bps edge;
                 if zero_for_one edge then 1 else 0]).

Definition encode_cycle_edges (edges : list Edge) : string :=
  String.concat "," (encode_edge <$> edges).

Definition encode_route_event (edges : list Edge) (fingerprint : Z) (event : RouteStatsEvent)
  : string :=
  let encoded_edges := encode_cycle_edges edges in
  String.concat " "
    ([ROUTE_STATS_RECORD_VERSION; pretty fingerprint; encoded_edges] ++
     match event with
     | Success => ["s"]
     | DryRunPass => ["d"]
     | Failure kind => ["f"; as_tag kind]
     | AdaptiveFlashCap cap => ["c"; pretty cap]
     end).

(** ** The state *)

Abbreviation RouteMap A := (gmap CycleEdges A) (only parsing).

Record ExecutionService := {
  es_last_submit : RouteMap Z;
  es_quarantine : RouteMap Z;
  es_assess_inflight : RouteMap Z;
  es_route_hash_quarantine : gmap Z Z;
  es_direct_token_quarantine : gmap Z Z;
  es_underwater_strikes : RouteMap (Z * Z);
  es_fail_counts : RouteMap Z;
  es_route_stats : RouteMap RouteStats;
  es_prepare_skip_counts : gmap Z Z;
  es_claims : Z;
  es_inserts : Z;
  es_events : list string;
}.

Definition set_last_submit (v : RouteMap Z) (self : ExecutionService) : ExecutionService :=
  {| es_last_submit := v; es_quarantine := es_quarantine self;
     es_assess_inflight := es_assess_inflight self;
     es_route_hash_quarantine := es_route_hash_quarantine self;
     es_direct_token_quarantine := es_direct_token_quarantine self;
     es_underwater_strikes := es_underwater_strikes self; es_fail_counts := es_fail_counts self;
     es_route_stats := es_route_stats self; es_prepare_skip_counts := es_prepare_skip_counts self;
     es_claims := es_claims self; es_inserts := es_inserts self; es_events := es_events self |}.

Definition set_quarantine (v : RouteMap Z) (inserts : Z) (self : ExecutionService) : ExecutionService :=
  {| es_last_submit := es_last_submit self; es_quarantine := v;
     es_assess_inflight := es_assess_inflight self;
     es_route_hash_quarantine := es_route_hash_quarantine self;
     es_direct_token_quarantine := es_direct_token_quarantine self;
     es_underwater_strikes := es_underwater_strikes self; es_fail_counts := es_fail_counts self;
     es_route_stats := es_route_stats self; es_prepare_skip_counts := es_prepare_skip_counts self;
     es_claims := es_claims self; es_inserts := inserts; es_events := es_events self |}.

Definition set_assess_inflight (v : RouteMap Z) (claims : Z) (self : ExecutionService)
  : ExecutionService :=
  {| es_last_submit := es_last_submit self; es_quarantine := es_quarantine self;
     es_assess_inflight := v; es_route_hash_quarantine := es_route_hash_quarantine self;
     es_direct_token_quarantine := es_direct_token_quarantine self;
     es_underwater_strikes := es_underwater_strikes self; es_fail_counts := es_fail_counts self;
     es_route_stats := es_route_stats self; es_prepare_skip_counts := es_prepare_skip_counts self;
     es_claims := claims; es_inserts := es_inserts self; es_events := es_events self |}.

Definition set_hash_quarantine (v : gmap Z Z) (self : ExecutionService) : ExecutionService :=
  {| es_last_submit := es_last_submit self; es_quarantine := es_quarantine self;
     es_assess_inflight := es_assess_inflight self; es_route_hash_quarantine := v;
     es_direct_token_quarantine := es_direct_token_quarantine self;
     es_underwater_strikes := es_underwater_strikes self; es_fail_counts := es_fail_counts self;
     es_route_stats := es_route_stats self; es_prepare_skip_counts := es_prepare_skip_counts self;
     es_claims := es_claims self; es_inserts := es_inserts self; es_events := es_events self |}.

Definition set_token_quarantine (v : gmap Z Z) (self : ExecutionService) : ExecutionService :=
  {| es_last_submit := es_last_submit self; es_quarantine := es_quarantine self;
     es_assess_inflight := es_assess_inflight self;
     es_route_hash_quarantine := es_route_hash_quarantine self; es_direct_token_quarantine := v;
     es_underwater_strikes := es_underwater_strikes self; es_fail_counts := es_fail_counts self;
     es_route_stats := es_route_stats self; es_prepare_skip_counts := es_prepare_skip_counts self;
     es_claims := es_claims self; es_inserts := es_inserts self; es_events := es_events self |}.

Definition set_strikes (v : RouteMap (Z * Z)) (self : ExecutionService) : ExecutionService :=
  {| es_last_submit := es_last_submit self; es_quarantine := es_quarantine self;
     es_assess_inflight := es_assess_inflight self;
     es_route_hash_quarantine := es_route_hash_quarantine self;
     es_direct_token_quarantine := es_direct_token_quarantine self;
     es_underwater_strikes := v; es_fail_counts := es_fail_counts self;
     es_route_stats := es_route_stats self; es_prepare_skip_counts := es_prepare_skip_counts self;
     es_claims := es_claims self; es_inserts := es_inserts self; es_events := es_events self |}.

Definition set_fail_counts (v : RouteMap Z) (self : ExecutionService) : ExecutionService :=
  {| es_last_submit := es_last_submit self; es_quarantine := es_quarantine self;
     es_assess_inflight := es_assess_inflight self;
     es_route_hash_quarantine := es_route_hash_quarantine self;
     es_direct_token_quarantine := es_direct_token_quarantine self;
     es_underwater_strikes := es_underwater_strikes self; es_fail_counts := v;
     es_route_stats := es_route_stats self; es_prepare_skip_counts := es_prepare_skip_counts self;
     es_claims := es_claims self; es_inserts := es_inserts self; es_events := es_events self |}.

(** The statistics and the line handed to the writer. *)
Definition set_route_stats (v : RouteMap RouteStats) (line : string) (self : ExecutionService)
  : ExecutionService :=
  {| es_last_submit := es_last_submit self; es_quarantine := es_quarantine self;
     es_assess_inflight := es_assess_inflight self;
     es_route_hash_quarantine := es_route_hash_quarantine self;
     es_direct_token_quarantine := es_direct_token_quarantine self;
     es_underwater_strikes := es_underwater_strikes self; es_fail_counts := es_fail_counts self;
     es_route_stats := v; es_prepare_skip_counts := es_prepare_skip_counts self;
     es_claims := es_claims self; es_inserts := es_inserts self;
     es_events := es_events self ++ [line] |}.

Definition set_prepare_skips (v : gmap Z Z) (self : ExecutionService) : ExecutionService :=
  {| es_last_submit := es_last_submit self; es_quarantine := es_quarantine self;
     es_assess_inflight := es_assess_inflight self;
     es_route_hash_quarantine := es_route_hash_quarantine self;
     es_direct_token_quarantine := es_direct_token_quarantine self;
     es_underwater_strikes := es_underwater_strikes self; es_fail_counts := es_fail_counts self;
     es_route_stats := es_route_stats self; es_prepare_skip_counts := v;
     es_claims := es_claims self; es_inserts := es_inserts self; es_events := es_events self |}.

(** ** Recording outcomes *)

Definition bump (n : Z) : Z := wrap_u 64 (n + 1).

(** [stats.failures += 1] and the counter of the kind. *)
Definition add_failure (kind : RouteFailureKind) (s : RouteStats) : RouteStats :=
  {| st_successes := st_successes s; st_dry_run_successes := st_dry_run_successes s;
     st_failures := bump (st_failures s);
     st_dry_run_failures :=
       match kind with DryRun => bump (st_dry_run_failures s) | _ => st_dry_run_failures s end;
     st_submit_failures :=
       match kind with Submit => bump (st_submit_failures s) | _ => st_submit_failures s end;
     st_receipt_timeouts :=
       match kind with Timeout => bump (st_receipt_timeouts s) | _ => st_receipt_timeouts s end;
     st_reverts := match kind with Revert => bump (st_reverts s) | _ => st_reverts s end;
     st_realized_losses :=
       match kind with RealizedLoss => bump (st_realized_losses s) | _ => st_realized_losses s end;
     st_adaptive_flash_loan_usd := st_adaptive_flash_loan_usd s |}.

Definition add_success (s : RouteStats) : RouteStats :=
  {| st_successes := bump (st_successes s); st_dry_run_successes := st_dry_run_successes s;
     st_failures := st_failures s; st_dry_run_failures := st_dry_run_failures s;
     st_submit_failures := st_submit_failures s; st_receipt_timeouts := st_receipt_timeouts s;
     st_reverts := st_reverts s; st_realized_losses := st_realized_losses s;
     st_adaptive_flash_loan_usd := st_adaptive_flash_loan_usd s |}.

Definition add_dry_run_pass (s : RouteStats) : RouteStats :=
  {| st_successes := st_successes s; st_dry_run_successes := bump (st_dry_run_successes s);
     st_failures := st_failures s; st_dry_run_failures := st_dry_run_failures s;
     st_submit_failures := st_submit_failures s; st_receipt_timeouts := st_receipt_timeouts s;
     st_reverts := st_reverts s; st_realized_losses := st_realized_losses s;
     st_adaptive_flash_loan_usd := st_adaptive_flash_loan_usd s |}.

Definition set_cap (cap : Z) (s : RouteStats) : RouteStats :=
  {| st_successes := st_successes s; st_dry_run_successes := st_dry_run_successes s;
     st_failures := st_failures s; st_dry_run_failures := st_dry_run_failures s;
     st_submit_failures := st_submit_failures s; st_receipt_timeouts := st_receipt_timeouts s;
     st_reverts := st_reverts s; st_realized_losses := st_realized_losses s;
     st_adaptive_flash_loan_usd := Some cap |}.

(** [all.entry(edges).or_default()], an update, and [write_route_event]. *)
Definition update_stats (edges : list Edge) (fp : Z) (f : RouteStats → RouteStats)
    (event : RouteStatsEvent) (self : ExecutionService) : ExecutionService :=
  set_route_stats
    (<[edges := f (default default_stats (es_route_stats self !! edges))]> (es_route_stats self))
    (encode_route_event edges fp event) self.

Definition record_route_failure (edges : list Edge) (fp : Z) (kind : RouteFailureKind)
    (self : ExecutionService) : ExecutionService :=
  update_stats edges fp (add_failure kind) (Failure kind) self.

Definition record_route_success (edges : list Edge) (fp : Z) (self : ExecutionService)
  : ExecutionService :=
  update_stats edges fp add_success Success self.

Definition record_route_dry_run_pass (edges : list Edge) (fp : Z) (self : ExecutionService)
  : ExecutionService :=
  update_stats edges fp add_dry_run_pass DryRunPass self.

(** ** A fresh service: the statistics file is never replayed *)

Definition KNOWN_FOT_TOKENS : list Address :=
  [0xeB51D9A39AD5EEF215dC0Bf39a8821ff804A0F01; 0xd93f7E271cB87c23AaA73edC008A79646d1F9912].
Definition KNOWN_FOT_SEED_TTL : Z := secs (7 * 24 * 3600).

Definition with_route_stats_path (now : Z) : ExecutionService :=
  let fot_until := now + KNOWN_FOT_SEED_TTL in
  {| es_last_submit := ∅; es_quarantine := ∅; es_assess_inflight := ∅;
     es_route_hash_quarantine := ∅;
     es_direct_token_quarantine := list_to_map ((λ t, (t, fot_until)) <$> KNOWN_FOT_TOKENS);
     es_underwater_strikes := ∅; es_fail_counts := ∅; es_route_stats := ∅;
     es_prepare_skip_counts := ∅; es_claims := 0; es_inserts := 0; es_events := [] |}.

(** ** Rotations of a cycle *)

Definition rotate_left {A} (l : list A) : list A :=
  match l with [] => [] | x :: l => l ++ [x] end.

(** The rotations visited by [any_edge_rotation], in order. *)
Fixpoint rotations_from (n : nat) (rotated : list Edge) : list (list Edge) :=
  match n with O => [] | S n => rotated :: rotations_from n (rotate_left rotated) end.

Definition edge_rotations (edges : list Edge) : list (list Edge) :=
  rotations_from (length edges) edges.

Definition any_edge_rotation (edges : list Edge) (predicate : list Edge → bool) : bool :=
  existsb predicate (edge_rotations edges).

(** ** Cool-downs *)

(** [map.get(key).is_some_and(|expiry| now < *expiry)] *)
Definition active {K} `{Countable K} (m : gmap K Z) (now : Z) (key : K) : bool :=
  match m !! key with Some expiry => now <? expiry | None => false end.

Definition any_quarantined (routes : list CycleEdges) (now : Z) (self : ExecutionService) : bool :=
  existsb (active (es_quarantine self) now) routes.

Definition is_route_quarantined (edges : list Edge) (now : Z) (self : ExecutionService) : bool :=
  any_quarantined [edges] now self.

Definition cycle_edges_quarantined (edges : list Edge) (now : Z) (self : ExecutionService) : bool :=
  any_edge_rotation edges (active (es_quarantine self) now).

(** [for_each_edge_rotation(edges, |rotation| map.insert(rotation, until))] *)
Definition insert_rotations (edges : list Edge) (until : Z) (m : RouteMap Z) : RouteMap Z :=
  fold_left (λ m rotation, <[rotation := until]> m) (edge_rotations edges) m.

(** The clock is read for the quarantine and again for the claim. *)
Definition try_claim_route_assess (edges : list Edge) (now_q now : Z) (self : ExecutionService)
  : bool * ExecutionService :=
  if ((length edges =? 0)%nat || cycle_edges_quarantined edges now_q self)%bool then (false, self)
  else if any_edge_rotation edges (active (es_assess_inflight self) now) then (false, self)
  else
    let map :=
      if es_claims self mod 32 =? 0
      then filter (λ kv, now < kv.2) (es_assess_inflight self) else es_assess_inflight self in
    let until := now + ROUTE_ASSESS_CLAIM_TTL in
    (true, set_assess_inflight (insert_rotations edges until map) (wrap_u 32 (es_claims self + 1)) self).

Definition is_route_hash_quarantined (route_hash now : Z) (self : ExecutionService) : bool :=
  active (es_route_hash_quarantine self) now route_hash.

Definition quarantine_insert (edges : list Edge) (until now : Z) (self : ExecutionService)
  : ExecutionService :=
  let q :=
    if es_inserts self mod 32 =? 0
    then filter (λ kv, now < kv.2) (es_quarantine self) else es_quarantine self in
  set_quarantine (<[edges := until]> q) (wrap_u 32 (es_inserts self + 1)) self.

Definition route_cooldown (is_dry_run : bool) : Z :=
  if is_dry_run then DRY_RUN_PASS_COOLDOWN else ROUTE_COOLDOWN.

Definition is_route_on_cooldown (edges : list Edge) (is_dry_run : bool) (now : Z)
    (self : ExecutionService) : bool :=
  let cooldown := route_cooldown is_dry_run in
  match es_last_submit self !! edges with
  | Some t => Z.max 0 (now - t) <? cooldown
  | None => false
  end.

Definition quarantine_route_hash (route_hash now : Z) (self : ExecutionService) : ExecutionService :=
  set_hash_quarantine
    (<[route_hash := now + STRUCTURAL_DRY_RUN_QUARANTINE]> (es_route_hash_quarantine self)) self.

Definition quarantine_batch_query_failure (edges : list Edge) (fingerprint now now' : Z)
    (self : ExecutionService) : ExecutionService :=
  let self := quarantine_insert edges (now + BATCH_QUERY_FAIL_QUARANTINE) now' self in
  set_prepare_skips (delete fingerprint (es_prepare_skip_counts self)) self.

(** Extend quarantine to [until] without shortening an existing longer cool. *)
Definition quarantine_extend_until (edges : list Edge) (until : Z) (self : ExecutionService)
  : ExecutionService :=
  let shorter := match es_quarantine self !! edges with Some exp => exp <? until | None => true end in
  if shorter
  then set_quarantine (<[edges := until]> (es_quarantine self)) (es_inserts self) self else self.

Definition quarantine_stale_route (edges : list Edge) (now : Z) (self : ExecutionService)
  : ExecutionService :=
  let until := now + ROUTE_COOLDOWN in
  let shorter := match es_quarantine self !! edges with Some exp => exp <? until | None => true end in
  if shorter
  then set_quarantine (<[edges := until]> (es_quarantine self)) (es_inserts self) self else self.

Definition quarantine_probe_below_dispatch_floor (edges : list Edge) (now : Z)
    (self : ExecutionService) : bool * ExecutionService :=
  if active (es_quarantine self) now edges then (false, self)
  else
    (true, set_quarantine (<[edges := now + PROBE_BELOW_FLOOR_QUARANTINE]> (es_quarantine self))
             (es_inserts self) self).

Definition quarantine_direct_token_zero_realized (token now : Z) (self : ExecutionService)
  : ExecutionService :=
  set_token_quarantine
    (<[token := now + DIRECT_TOKEN_ZERO_REALIZED_QUARANTINE]> (es_direct_token_quarantine self)) self.

Definition is_direct_token_quarantined (token now : Z) (self : ExecutionService) : bool :=
  active (es_direct_token_quarantine self) now token.

Definition cycle_has_quarantined_token (arena : StateArena) (edges : list Edge) (now : Z)
    (self : ExecutionService) : bool :=
  let q := es_direct_token_quarantine self in
  if bool_decide (q = ∅) then false
  else
    existsb (λ edge,
      existsb (λ ti, match token_address arena ti with
                     | Some addr => active q now addr
                     | None => false
                     end) [token_in edge; token_out edge]) edges.

Definition record_prepare_skip (fingerprint : Z) (self : ExecutionService) : ExecutionService :=
  let counts := es_prepare_skip_counts self in
  set_prepare_skips (<[fingerprint := wrap_u 32 (default 0 (counts !! fingerprint) + 1)]> counts) self.

Definition quarantine_route (edges : list Edge) (fp now : Z) (kind : RouteFailureKind) (now' : Z)
    (self : ExecutionService) : ExecutionService :=
  let self := record_route_failure edges fp kind self in
  let count := wrap_u 32 (default 0 (es_fail_counts self !! edges) + 1) in
  let self := set_fail_counts (<[edges := count]> (es_fail_counts self)) self in
  let cooldown := if MAX_CONSECUTIVE_FAILURES <=? count then PERMANENT_QUARANTINE else ROUTE_COOLDOWN in
  quarantine_insert edges (now + cooldown) now' self.

Definition quarantine_route_soft (edges : list Edge) (now now' : Z) (self : ExecutionService)
  : ExecutionService := quarantine_insert edges (now + ROUTE_COOLDOWN) now' self.

Definition clear_fail_count (edges : list Edge) (fp : Z) (self : ExecutionService)
  : ExecutionService :=
  record_route_success edges fp (set_fail_counts (delete edges (es_fail_counts self)) self).

(** ** Log suppression: the state is the last logged item *)

Definition should_log_near_miss (last : option Z) (now : Z) : bool * option Z :=
  match last with
  | Some prev => if Z.max 0 (now - prev) <? secs 30 then (false, last) else (true, Some now)
  | None => (true, Some now)
  end.

Definition should_log_dispatch (last : option (Z * Z)) (fingerprint profit_matic : Z)
  : bool * option (Z * Z) :=
  if bool_decide (last = Some (fingerprint, profit_matic)) then (false, last)
  else (true, Some (fingerprint, profit_matic)).

Definition should_log_prepare_skip (last : option Z) (fingerprint : Z) : bool * option Z :=
  if bool_decide (last = Some fingerprint) then (false, last) else (true, Some fingerprint).

(** ** Chronic underwater routes *)

(** The cover that decides the band: inflated ratios of a thin amount are clamped. *)
Definition band_cover_bps (gas_cover_bps available_matic_wei : Z) : Z :=
  if ((available_matic_wei <? CHRONIC_UNDERWATER_MIN_AVAILABLE_MATIC_WEI)
      || ((available_matic_wei <? CHRONIC_THIN_LIQ_AVAILABLE_MATIC_WEI)
          && (CHRONIC_UNDERWATER_COVER_BPS <=? gas_cover_bps)))%bool
  then Z.min gas_cover_bps (CHRONIC_UNDERWATER_COVER_BPS - 1) else gas_cover_bps.

(** The strike count after this strike. *)
Definition add_strike (now : Z) (entry : option (Z * Z)) : Z :=
  let entry := default (0, now) entry in
  let count := if CHRONIC_UNDERWATER_STRIKE_WINDOW <? Z.max 0 (now - entry.2) then 0 else entry.1 in
  Z.min (count + 1) (2 ^ 32 - 1).

Definition near_miss (gas_cover_bps available_matic_wei : Z) : bool :=
  ((CHRONIC_NEAR_MISS_COVER_BPS <=? gas_cover_bps)
   && (CHRONIC_DUST_AVAILABLE_MATIC_WEI <=? available_matic_wei))%bool.

Definition mid_band (gas_cover_bps available_matic_wei : Z) : bool :=
  ((CHRONIC_NEAR_MISS_COVER_BPS <=? gas_cover_bps)
   && (CHRONIC_UNDERWATER_MIN_AVAILABLE_MATIC_WEI <=? available_matic_wei)
   && (available_matic_wei <? CHRONIC_DUST_AVAILABLE_MATIC_WEI))%bool.

Definition strikes_needed (gas_cover_bps cover_bps available_matic_wei : Z) : Z :=
  let high_cover_near_miss :=
    ((CHRONIC_HIGH_COVER_BPS <=? gas_cover_bps)
     && (CHRONIC_DUST_AVAILABLE_MATIC_WEI <=? available_matic_wei))%bool in
  let thin_first_strike :=
    ((available_matic_wei <? CHRONIC_DUST_AVAILABLE_MATIC_WEI)
     || ((available_matic_wei <? CHRONIC_THIN_LIQ_AVAILABLE_MATIC_WEI)
         && (cover_bps <? CHRONIC_NEAR_MISS_COVER_BPS)))%bool in
  if (thin_first_strike || mid_band gas_cover_bps available_matic_wei
      || (near_miss gas_cover_bps available_matic_wei && negb high_cover_near_miss))%bool
  then 1 else CHRONIC_UNDERWATER_STRIKES.

Definition chronic_ttl (gas_cover_bps available_matic_wei : Z) : Z :=
  if available_matic_wei <? CHRONIC_UNDERWATER_MIN_AVAILABLE_MATIC_WEI then CHRONIC_THIN_LIQ_QUARANTINE
  else if near_miss gas_cover_bps available_matic_wei then CHRONIC_NEAR_MISS_QUARANTINE
  else if mid_band gas_cover_bps available_matic_wei then CHRONIC_MID_BAND_QUARANTINE
  else CHRONIC_UNDERWATER_QUARANTINE.

Definition quarantine_chronic_gas_underwater (edges : list Edge)
    (gas_cover_bps available_matic_wei now now' : Z) (self : ExecutionService)
  : option Z * ExecutionService :=
  let cover_bps := band_cover_bps gas_cover_bps available_matic_wei in
  if negb ((CHRONIC_UNDERWATER_MIN_COVER_BPS <=? cover_bps)
           && (cover_bps <? CHRONIC_UNDERWATER_COVER_BPS))%bool
  then (None, self)
  else if active (es_quarantine self) now edges then (None, self)
  else
    let strikes := add_strike now (es_underwater_strikes self !! edges) in
    let self := set_strikes (<[edges := (strikes, now)]> (es_underwater_strikes self)) self in
    if strikes <? strikes_needed gas_cover_bps cover_bps available_matic_wei then (None, self)
    else
      let self := set_strikes (delete edges (es_underwater_strikes self)) self in
      let ttl := chronic_ttl gas_cover_bps available_matic_wei in
      (Some ttl, quarantine_insert edges (now + ttl) now' self).

(** ** Learned risk and flash cap *)

Definition sat_u64 (n : Z) : Z := Z.min n u64_max.

Definition risk_multiplier_bps_from_stats (stats : option RouteStats) : Z :=
  let_some stats := stats or 10000 in
  let attempts := sat_u64 (st_successes stats + st_failures stats) in
  if attempts <? 3 then 10000
  else
    let hard_extra := sat_u64 (st_reverts stats + st_realized_losses stats) in
    let weighted_half :=
      sat_u64 (sat_u64 (sat_u64 (st_failures stats * 2) + sat_u64 (hard_extra * 2))
               + st_receipt_timeouts stats) in
    Z.min (sat_u64 (10000 + sat_u64 (weighted_half * 10000) / attempts)) 30000.

Definition adaptive_flash_cap_initial (configured_max_usd : Z) : Z :=
  sat_u64 (configured_max_usd + (ADAPTIVE_FLASH_CAP_START_DIVISOR - 1))
    / ADAPTIVE_FLASH_CAP_START_DIVISOR.

Definition adaptive_flash_loan_usd_from_stats (stats : option RouteStats) (configured_max_usd : Z)
  : Z :=
  let initial := adaptive_flash_cap_initial configured_max_usd in
  Z.min (default initial (stats ≫= st_adaptive_flash_loan_usd)) configured_max_usd.

Definition route_risk_multiplier_bps (edges : list Edge) (self : ExecutionService) : Z :=
  risk_multiplier_bps_from_stats (es_route_stats self !! edges).

Definition adaptive_flash_loan_usd (edges : list Edge) (configured_max_usd : Z)
    (self : ExecutionService) : Z :=
  adaptive_flash_loan_usd_from_stats (es_route_stats self !! edges) configured_max_usd.

Definition route_learning_snapshot (edges : list Edge) (configured_max_usd : Z)
    (self : ExecutionService) : Z * Z :=
  let entry := es_route_stats self !! edges in
  (risk_multiplier_bps_from_stats entry, adaptive_flash_loan_usd_from_stats entry configured_max_usd).

Definition promote_adaptive_flash_loan_cap (edges : list Edge) (fp configured_max_usd : Z)
    (self : ExecutionService) : option (Z * Z) * ExecutionService :=
  let initial := adaptive_flash_cap_initial configured_max_usd in
  let current :=
    Z.min (default initial ((es_route_stats self !! edges) ≫= st_adaptive_flash_loan_usd))
      configured_max_usd in
  let next := Z.min (sat_u64 (current * 2)) configured_max_usd in
  if next =? current then (None, self)
  else (Some (current, next), update_stats edges fp (set_cap next) (AdaptiveFlashCap next) self).

Definition demote_adaptive_flash_loan_cap (edges : list Edge) (fp configured_max_usd : Z)
    (self : ExecutionService) : option (Z * Z) * ExecutionService :=
  let initial := adaptive_flash_cap_initial configured_max_usd in
  let current :=
    Z.min (default initial ((es_route_stats self !! edges) ≫= st_adaptive_flash_loan_usd))
      configured_max_usd in
  let next := Z.min (Z.max (current / 2) initial) configured_max_usd in
  if current <=? next then (None, self)
  else (Some (current, next), update_stats edges fp (set_cap next) (AdaptiveFlashCap next) self).

(** ** Runs of the service, with a clock that does not go back *)

(** A step whose last reading of the clock is [t]. *)
Inductive service_step (t : Z) (s : ExecutionService) : ExecutionService → Prop :=
| by_claim edges now_q : service_step t s (try_claim_route_assess edges now_q t s).2
| by_cool edges until : service_step t s (quarantine_insert edges until t s)
| by_extend edges until : service_step t s (quarantine_extend_until edges until s)
| by_stale edges : service_step t s (quarantine_stale_route edges t s)
| by_probe edges : service_step t s (quarantine_probe_below_dispatch_floor edges t s).2
| by_batch edges fp now : service_step t s (quarantine_batch_query_failure edges fp now t s)
| by_token token : service_step t s (quarantine_direct_token_zero_realized token t s)
| by_hash hash : service_step t s (quarantine_route_hash hash t s)
| by_chronic edges cover available now :
    service_step t s (quarantine_chronic_gas_underwater edges cover available now t s).2
| by_skip fp : service_step t s (record_prepare_skip fp s)
| by_failure edges fp now kind : service_step t s (quarantine_route edges fp now kind t s)
| by_success edges fp : service_step t s (clear_fail_count edges fp s)
| by_pass edges fp : service_step t s (record_route_dry_run_pass edges fp s)
| by_promote edges fp max : service_step t s (promote_adaptive_flash_loan_cap edges fp max s).2
| by_demote edges fp max : service_step t s (demote_adaptive_flash_loan_cap edges fp max s).2.

Inductive run (t : Z) (s : ExecutionService) : Z → ExecutionService → Prop :=
| run_done : run t s t s
| run_step t' s' t'' s'' : t ≤ t' → service_step t' s s' → run t' s' t'' s'' → run t s t'' s''.

Lemma run_time t s t' s' : run t s t' s' → t ≤ t'.
Proof. induction 1; lia. Qed.

(** ** Claims *)

Lemma active_Some {K} `{Countable K} (m : gmap K Z) now k u :
  m !! k = Some u → active m now k = (now <? u).
Proof. unfold active. by intros ->. Qed.

Lemma rotations_head (edges : list Edge) : edges ≠ [] → edges ∈ edge_rotations edges.
Proof. destruct edges as [|e es]; [done|]. intros _. by left. Qed.

Lemma any_edge_rotation_self (edges : list Edge) p : edges ≠ [] → p edges = true → any_edge_rotation edges p = true.
Proof.
  intros Hne Hp. apply existsb_exists. exists edges. split; [|done].
  by apply list_elem_of_In, rotations_head.
Qed.

Lemma insert_rotations_lookup (edges : list Edge) (u : Z) (m : RouteMap Z) (r : list Edge) :
  insert_rotations edges u m !! r = if bool_decide (r ∈ edge_rotations edges) then Some u else m !! r.
Proof.
  unfold insert_rotations. generalize (edge_rotations edges) as l. intros l. revert m.
  induction l as [|x l IH]; intros m; cbn [fold_left]; [done|]. rewrite IH.
  destruct (decide (r ∈ l)) as [Hl|Hl].
  - rewrite !bool_decide_eq_true_2; [done|by right|done].
  - rewrite (bool_decide_eq_false_2 (r ∈ l)) by done. destruct (decide (r = x)) as [->|Hx].
    + by rewrite lookup_insert_eq, bool_decide_eq_true_2 by (by left).
    + rewrite lookup_insert_ne by done. rewrite bool_decide_eq_false_2; [done|]. by intros [|]%elem_of_cons.
Qed.

(** Only claims change the claims. *)
Lemma quarantine_insert_assess e u n s :
  es_assess_inflight (quarantine_insert e u n s) = es_assess_inflight s.
Proof. done. Qed.

Lemma step_claims t s s' (r : list Edge) lim u :
  service_step t s s' → es_assess_inflight s !! r = Some u → t < lim → lim ≤ u →
  lim ≤ t + ROUTE_ASSESS_CLAIM_TTL →
  ∃ u', es_assess_inflight s' !! r = Some u' ∧ lim ≤ u'.
Proof.
  intros Hs Hr Ht Hu Hlim.
  assert (es_assess_inflight s' = es_assess_inflight s ∨
    ∃ e q, s' = (try_claim_route_assess e q t s).2) as [->|(e & q & ->)]; [|by exists u|].
  { destruct Hs; [right; eauto|left..]; try done;
      unfold quarantine_extend_until, quarantine_stale_route, quarantine_probe_below_dispatch_floor,
        quarantine_chronic_gas_underwater, promote_adaptive_flash_loan_cap,
        demote_adaptive_flash_loan_cap; cbv zeta; repeat case_match; done. }
  unfold try_claim_route_assess. destruct (_ || _)%bool; [by exists u|].
  destruct (any_edge_rotation _ _); [by exists u|]. cbn [snd es_assess_inflight set_assess_inflight].
  rewrite insert_rotations_lookup. case_bool_decide; [by eexists|]. exists u. split; [|done].
  destruct (_ =? _); [|done]. apply map_lookup_filter_Some. split; [done|cbn; lia].
Qed.

Lemma run_claims t s t' s' (r : list Edge) lim u :
  run t s t' s' → es_assess_inflight s !! r = Some u → lim ≤ u → t' < lim →
  lim ≤ t + ROUTE_ASSESS_CLAIM_TTL → ∃ u', es_assess_inflight s' !! r = Some u' ∧ lim ≤ u'.
Proof.
  intros Hrun. revert u. induction Hrun as [|t s t1 s1 t' s' Ht Hs Hrun IH]; intros u Hr Hu Hlt Hlim; [eauto|].
  pose proof (run_time _ _ _ _ Hrun).
  destruct (step_claims _ _ _ _ lim _ Hs Hr) as (u1 & Hr1 & Hu1); [lia..|].
  apply (IH u1); [done|done|done|lia].
Qed.

Lemma rotations_length (r edges : list Edge) : r ∈ edge_rotations edges → length r = length edges.
Proof.
  unfold edge_rotations. generalize (length edges) at 1 as n. intros n. revert edges.
  induction n as [|n IH]; intros edges; cbn [rotations_from]; [by intros ?%elem_of_nil|].
  intros [->|Hr]%elem_of_cons; [done|]. rewrite (IH _ Hr). destruct edges; [done|].
  cbn [rotate_left]. rewrite length_app. cbn. lia.
Qed.

(** Assessment claims exclude each other.  Once a route is claimed, every claim of the
    route or of any rotation of it fails for three seconds, whatever other threads
    claim, cool, record or prune in between. *)
Theorem route_assess_claims_exclude (edges other : list Edge) (now_q t : Z)
    (s s1 : ExecutionService) (t2 : Z) (s2 : ExecutionService) (now_q' now : Z) :
  try_claim_route_assess edges now_q t s = (true, s1) →
  other ∈ edge_rotations edges →
  run t s1 t2 s2 → t2 ≤ now → now < t + ROUTE_ASSESS_CLAIM_TTL →
  try_claim_route_assess other now_q' now s2 = (false, s2).
Proof.
  intros Hc Ho Hrun Hle Hlt.
  assert (es_assess_inflight s1 !! other = Some (t + ROUTE_ASSESS_CLAIM_TTL)) as Hu.
  { unfold try_claim_route_assess in Hc. destruct (_ || _)%bool; [done|].
    destruct (any_edge_rotation _ _); [done|]. injection Hc as <-. cbn.
    by rewrite insert_rotations_lookup, bool_decide_eq_true_2. }
  destruct (run_claims _ _ _ _ _ (t + ROUTE_ASSESS_CLAIM_TTL) _ Hrun Hu) as (u & Hu' & Hlim); [lia..|].
  unfold try_claim_route_assess. destruct (_ || _)%bool; [done|].
  rewrite any_edge_rotation_self; [done| |].
  - intros ->. apply rotations_length in Ho. destruct edges; [|done].
    unfold try_claim_route_assess in Hc. by cbn in Hc.
  - rewrite (active_Some _ _ _ _ Hu'). apply Z.ltb_lt. lia.
Qed.

(** ** Cool-downs that are never cut short *)

(** A route cooled until [u] before is cooled at least until [u] after, as long as [u]
    is still to come. *)
Definition no_shorter (now : Z) (s s' : ExecutionService) : Prop :=
  ∀ r u, es_quarantine s !! r = Some u → now < u →
    ∃ u', es_quarantine s' !! r = Some u' ∧ u ≤ u'.

Lemma insert_no_shorter now s s' e until inserts :
  s' = set_quarantine (<[e := until]> (es_quarantine s)) inserts s →
  (∀ u, es_quarantine s !! e = Some u → now < u → u ≤ until) → no_shorter now s s'.
Proof.
  intros -> H r u Hr Hu. cbn. destruct (decide (r = e)) as [->|].
  - rewrite lookup_insert_eq. eauto.
  - rewrite lookup_insert_ne by done. eauto using Z.le_refl.
Qed.

Lemma no_shorter_refl now s : no_shorter now s s.
Proof. intros r u ? ?. eauto using Z.le_refl. Qed.

Lemma quarantine_insert_no_shorter e until now s :
  (∀ u, es_quarantine s !! e = Some u → now < u → u ≤ until) →
  no_shorter now s (quarantine_insert e until now s).
Proof.
  intros H r u Hr Hu. unfold quarantine_insert. cbn. destruct (decide (r = e)) as [->|].
  - rewrite lookup_insert_eq. eauto.
  - rewrite lookup_insert_ne by done. exists u. split; [|lia].
    destruct (_ =? _); [|done]. by apply map_lookup_filter_Some.
Qed.

(** The guarded cool-downs (stale route, extension, probe below the dispatch floor,
    chronic underwater) never shorten the cool-down of any route, whatever prunings they
    make on the way. *)
Theorem guarded_cooldowns_never_shorten (edges : list Edge) (until now now' cover available : Z)
    (s : ExecutionService) :
  now ≤ now' →
  no_shorter now s (quarantine_stale_route edges now s) ∧
  no_shorter now s (quarantine_extend_until edges until s) ∧
  no_shorter now s (quarantine_probe_below_dispatch_floor edges now s).2 ∧
  no_shorter now' s (quarantine_chronic_gas_underwater edges cover available now now' s).2.
Proof.
  intros Hnow. split_and!.
  - unfold quarantine_stale_route. cbv zeta.
    destruct (es_quarantine s !! edges) as [u|] eqn:E; [destruct (Z.ltb_spec u (now + ROUTE_COOLDOWN))|];
      [|apply no_shorter_refl|]; (eapply insert_no_shorter; [done|]); rewrite E; intros ? [= <-]; lia.
  - unfold quarantine_extend_until. cbv zeta.
    destruct (es_quarantine s !! edges) as [u|] eqn:E; [destruct (Z.ltb_spec u until)|];
      [|apply no_shorter_refl|]; (eapply insert_no_shorter; [done|]); rewrite E; intros ? [= <-]; lia.
  - unfold quarantine_probe_below_dispatch_floor, active.
    destruct (es_quarantine s !! edges) as [u|] eqn:E; [destruct (Z.ltb_spec now u)|];
      [apply no_shorter_refl|..]; (eapply insert_no_shorter; [done|]); rewrite E; intros ? [= <-]; lia.
  - unfold quarantine_chronic_gas_underwater, active. cbv zeta.
    destruct (negb _); [apply no_shorter_refl|].
    destruct (es_quarantine s !! edges) as [u|] eqn:E; [destruct (Z.ltb_spec now u); [apply no_shorter_refl|]|];
      (destruct (_ <? strikes_needed _ _ _); [by intros r v ? ?; exists v; split; [|lia]|]); cbn [snd];
      (match goal with |- no_shorter ?n _ (quarantine_insert ?e ?u _ ?s1) =>
         change (no_shorter n s1 (quarantine_insert e u n s1)) end);
      (apply quarantine_insert_no_shorter; cbn; rewrite E; intros ? [= <-]; lia).
Qed.

(** ** Learned risk *)

(** Every failure is counted once under its kind, and no counter is near overflow. *)
Definition stats_ok (s : RouteStats) : Prop :=
  0 ≤ st_successes s ∧ 0 ≤ st_dry_run_failures s ∧ 0 ≤ st_submit_failures s ∧
  0 ≤ st_receipt_timeouts s ∧ 0 ≤ st_reverts s ∧ 0 ≤ st_realized_losses s ∧
  st_failures s = st_dry_run_failures s + st_submit_failures s + st_receipt_timeouts s +
    st_reverts s + st_realized_losses s ∧
  st_successes s + st_failures s < 2 ^ 40.

(** Twice the weighted failures: two halves each, two more when hard, one more for a
    timeout. *)
Definition weighted_half (s : RouteStats) : Z :=
  st_failures s * 2 + (st_reverts s + st_realized_losses s) * 2 + st_receipt_timeouts s.

Lemma risk_multiplier_eq s :
  stats_ok s →
  risk_multiplier_bps_from_stats (Some s) =
    if st_successes s + st_failures s <? 3 then 10000
    else Z.min (10000 + weighted_half s * 10000 / (st_successes s + st_failures s)) 30000.
Proof.
  intros (H1 & H2 & H3 & H4 & H5 & H6 & Hf & H7).
  unfold risk_multiplier_bps_from_stats, sat_u64, u64_max, weighted_half.
  rewrite (Z.min_l (st_successes s + st_failures s)) by lia.
  destruct (Z.ltb_spec (st_successes s + st_failures s) 3); [done|].
  rewrite (Z.min_l (st_reverts s + _)), (Z.min_l (st_failures s * 2)),
    (Z.min_l ((st_reverts s + _) * 2)), (Z.min_l (st_failures s * 2 + _)) by lia.
  rewrite (Z.min_l (_ + st_receipt_timeouts s)) by lia.
  set (w := _ + st_receipt_timeouts s).
  rewrite (Z.min_l (w * 10000)) by (subst w; lia).
  assert (w * 10000 / (st_successes s + st_failures s) ≤ w * 10000) by (apply Z.div_le_upper_bound; subst w; nia).
  rewrite (Z.min_l (10000 + _)) by (subst w; lia). done.
Qed.

(** One more failure weighs at least two halves. *)
Lemma ratio_after_failure w a d :
  0 ≤ w → 0 < a → 2 ≤ d →
  Z.min (10000 + w * 10000 / a) 30000 ≤ Z.min (10000 + (w + d) * 10000 / (a + 1)) 30000.
Proof.
  intros Hw Ha Hd. destruct (decide (w ≤ 2 * a)) as [Hle|Hgt].
  - apply Z.min_le_compat_r. apply Z.add_le_mono_l. apply div_lower; [lia|].
    pose proof (div_mul_le (w * 10000) a Ha).
    assert (w * 10000 / a < 20001) by (apply div_upper; lia). nia.
  - assert (20000 ≤ (w + d) * 10000 / (a + 1)) by (apply div_lower; nia). lia.
Qed.

Lemma add_failure_ok k s :
  stats_ok s → st_successes s + st_failures s + 1 < 2 ^ 40 →
  stats_ok (add_failure k s) ∧ st_successes (add_failure k s) = st_successes s ∧
  st_failures (add_failure k s) = st_failures s + 1 ∧
  weighted_half s + 2 ≤ weighted_half (add_failure k s).
Proof.
  intros (H1 & H2 & H3 & H4 & H5 & H6 & Hf & H7) Hlt.
  assert (∀ n, 0 ≤ n < 2 ^ 40 → bump n = n + 1) as Hb.
  { intros n Hn. unfold bump, wrap_u. apply Z.mod_small. lia. }
  unfold stats_ok, weighted_half. destruct k; cbn; rewrite !Hb by lia; lia.
Qed.

Lemma add_success_ok s :
  stats_ok s → st_successes s + st_failures s + 1 < 2 ^ 40 →
  stats_ok (add_success s) ∧ st_successes (add_success s) = st_successes s + 1 ∧
  st_failures (add_success s) = st_failures s ∧ weighted_half (add_success s) = weighted_half s.
Proof.
  intros (H1 & H2 & H3 & H4 & H5 & H6 & Hf & H7) Hlt.
  assert (bump (st_successes s) = st_successes s + 1) as Hb
    by (unfold bump, wrap_u; apply Z.mod_small; lia).
  unfold stats_ok, weighted_half. cbn. rewrite Hb. lia.
Qed.

(** The learned uplift of the minimum profit stays between one and three times; a
    recorded failure of any kind never lowers it and, from the third outcome on, a
    success never raises it. *)
Theorem risk_multiplier_monotone (s : RouteStats) (kind : RouteFailureKind) :
  stats_ok s → st_successes s + st_failures s + 1 < 2 ^ 40 →
  let m s := risk_multiplier_bps_from_stats (Some s) in
  10000 ≤ m s ≤ 30000 ∧ m s ≤ m (add_failure kind s) ∧
  (3 ≤ st_successes s + st_failures s → m (add_success s) ≤ m s).
Proof.
  intros Hok Hlt m. subst m. cbv beta.
  destruct (add_failure_ok kind s Hok Hlt) as (Hfok & Hfs & Hff & Hfw).
  destruct (add_success_ok s Hok Hlt) as (Hsok & Hss & Hsf & Hsw).
  rewrite !risk_multiplier_eq by done. rewrite Hfs, Hff, Hss, Hsf, Hsw.
  destruct Hok as (H1 & H2 & H3 & H4 & H5 & H6 & Hf & H7).
  set (a := st_successes s + st_failures s) in *.
  replace (st_successes s + (st_failures s + 1)) with (a + 1) by (subst a; lia).
  replace (st_successes s + 1 + st_failures s) with (a + 1) by (subst a; lia).
  assert (0 ≤ weighted_half s) as Hw by (unfold weighted_half; lia).
  assert (0 ≤ a) by (subst a; lia).
  assert (∀ w b, 0 ≤ w → 0 < b → 0 ≤ w * 10000 / b) as Hdiv by (intros; apply Z.div_pos; lia).
  split; [|split].
  - destruct (Z.ltb_spec a 3); [lia|]. specialize (Hdiv (weighted_half s) a Hw ltac:(lia)). lia.
  - destruct (Z.ltb_spec a 3) as [?|?]; [destruct (Z.ltb_spec (a + 1) 3); [lia|]|].
    + specialize (Hdiv (weighted_half (add_failure kind s)) (a + 1) ltac:(lia) ltac:(lia)). lia.
    + destruct (Z.ltb_spec (a + 1) 3); [lia|].
      replace (weighted_half (add_failure kind s))
        with (weighted_half s + (weighted_half (add_failure kind s) - weighted_half s)) by lia.
      apply ratio_after_failure; lia.
  - intros Ha. destruct (Z.ltb_spec a 3); [lia|]. destruct (Z.ltb_spec (a + 1) 3); [lia|].
    apply Z.min_le_compat_r. apply Z.add_le_mono_l.
    apply Z.div_le_compat_l; lia.
Qed.

(** ** The flash-loan cap *)

Inductive CapEvent := Promote | Demote.

Definition cap_event (edges : list Edge) (fp max : Z) (s : ExecutionService) (e : CapEvent)
  : ExecutionService :=
  match e with
  | Promote => (promote_adaptive_flash_loan_cap edges fp max s).2
  | Demote => (demote_adaptive_flash_loan_cap edges fp max s).2
  end.

Lemma cap_initial_bounds max :
  0 ≤ max ≤ u64_max →
  0 ≤ adaptive_flash_cap_initial max ≤ max ∧
  (max + 3 ≤ u64_max → max ≤ 4 * adaptive_flash_cap_initial max).
Proof.
  intros Hm. unfold adaptive_flash_cap_initial, sat_u64, ADAPTIVE_FLASH_CAP_START_DIVISOR.
  pose proof (div_mul_gt (Z.min (max + (4 - 1)) u64_max) 4 ltac:(lia)).
  pose proof (div_mul_le (Z.min (max + (4 - 1)) u64_max) 4 ltac:(lia)).
  set (q := _ / 4) in *. assert (0 ≤ q) by (subst q; apply Z.div_pos; lia). lia.
Qed.

Lemma cap_event_usd edges fp max s e :
  let u := adaptive_flash_loan_usd edges max s in
  let u' := adaptive_flash_loan_usd edges max (cap_event edges fp max s e) in
  match e with
  | Promote => u' = Z.min (sat_u64 (u * 2)) max
  | Demote => u' = Z.min u (Z.min (Z.max (u / 2) (adaptive_flash_cap_initial max)) max)
  end.
Proof.
  cbv zeta. assert (∀ f ev s0, adaptive_flash_loan_usd edges max (update_stats edges fp f ev s0) =
    adaptive_flash_loan_usd_from_stats (Some (f (default default_stats (es_route_stats s0 !! edges)))) max)
    as Hu by (intros; unfold adaptive_flash_loan_usd, update_stats; cbn; by rewrite lookup_insert_eq).
  destruct e; cbn [cap_event]; unfold promote_adaptive_flash_loan_cap, demote_adaptive_flash_loan_cap;
    cbv zeta; fold (adaptive_flash_loan_usd_from_stats (es_route_stats s !! edges) max);
    change (adaptive_flash_loan_usd_from_stats (es_route_stats s !! edges) max)
      with (adaptive_flash_loan_usd edges max s);
    set (u := adaptive_flash_loan_usd edges max s).
  - destruct (Z.eqb_spec (Z.min (sat_u64 (u * 2)) max) u); cbn [snd]; [done|].
    rewrite Hu. unfold adaptive_flash_loan_usd_from_stats, set_cap. cbn. lia.
  - destruct (Z.leb_spec u (Z.min (Z.max (u / 2) (adaptive_flash_cap_initial max)) max)); cbn [snd].
    + fold u. lia.
    + rewrite Hu. unfold adaptive_flash_loan_usd_from_stats, set_cap. cbn. lia.
Qed.

(** However promotions and demotions of a route alternate, its learned borrow cap stays
    between the conservative start (a quarter of the configured maximum, rounded up) and
    that maximum; a promotion doubles it up to the maximum, so two in a row reach it, and
    a demotion never raises it. *)
Theorem adaptive_flash_cap_bounds (edges : list Edge) (fp max now : Z) (events : list CapEvent) :
  0 ≤ max → max + 3 ≤ u64_max →
  let usd s := adaptive_flash_loan_usd edges max s in
  let s := fold_left (cap_event edges fp max) events (with_route_stats_path now) in
  adaptive_flash_cap_initial max ≤ usd s ≤ max ∧
  usd (cap_event edges fp max s Promote) = Z.min (2 * usd s) max ∧
  usd (cap_event edges fp max (cap_event edges fp max s Promote) Promote) = max ∧
  usd (cap_event edges fp max s Demote) ≤ usd s.
Proof.
  intros H0 Hmax usd s. subst usd. cbv beta.
  destruct (cap_initial_bounds max ltac:(lia)) as [Hi H4]. specialize (H4 Hmax).
  assert (adaptive_flash_cap_initial max ≤ adaptive_flash_loan_usd edges max s ≤ max) as Hb.
  { subst s. assert (adaptive_flash_cap_initial max ≤
      adaptive_flash_loan_usd edges max (with_route_stats_path now) ≤ max) as Hinit.
    { unfold adaptive_flash_loan_usd, with_route_stats_path, adaptive_flash_loan_usd_from_stats.
      cbn [es_route_stats]. rewrite lookup_empty. cbn [mbind option_bind default from_option id]. lia. }
    generalize dependent (with_route_stats_path now). induction events as [|e es IH]; intros s Hs; [done|].
    cbn [fold_left]. apply IH. pose proof (cap_event_usd edges fp max s e) as He. cbv zeta in He.
    destruct e; rewrite He; unfold sat_u64. all: lia. }
  pose proof (cap_event_usd edges fp max s Promote) as Hp. cbn [cap_event] in Hp. cbv zeta in Hp.
  pose proof (cap_event_usd edges fp max (cap_event edges fp max s Promote) Promote) as Hp2. cbv zeta in Hp2.
  pose proof (cap_event_usd edges fp max s Demote) as Hd. cbv zeta in Hd.
  cbn [cap_event] in *. rewrite Hp2, Hp, Hd. unfold sat_u64. split_and!; lia.
Qed.

(** ** Chronic underwater routes *)

(** One underwater win of a high-cover near miss. *)
Lemma high_cover_win edges c a now now' s :
  CHRONIC_HIGH_COVER_BPS ≤ c < CHRONIC_UNDERWATER_COVER_BPS → CHRONIC_DUST_AVAILABLE_MATIC_WEI ≤ a →
  es_quarantine s !! edges = None →
  let n := add_strike now (es_underwater_strikes s !! edges) in
  let r := quarantine_chronic_gas_underwater edges c a now now' s in
  if n <? 3
  then r.1 = None ∧ es_quarantine r.2 !! edges = None ∧ es_underwater_strikes r.2 !! edges = Some (n, now)
  else r.1 = Some CHRONIC_NEAR_MISS_QUARANTINE ∧
    es_quarantine r.2 !! edges = Some (now + CHRONIC_NEAR_MISS_QUARANTINE).
Proof.
  intros Hc Ha Hq n r.
  unfold CHRONIC_HIGH_COVER_BPS, CHRONIC_UNDERWATER_COVER_BPS, CHRONIC_DUST_AVAILABLE_MATIC_WEI in Hc, Ha.
  assert (band_cover_bps c a = c) as Hb.
  { unfold band_cover_bps, CHRONIC_UNDERWATER_MIN_AVAILABLE_MATIC_WEI,
      CHRONIC_THIN_LIQ_AVAILABLE_MATIC_WEI, CHRONIC_UNDERWATER_COVER_BPS.
    destruct (Z.ltb_spec a (10 ^ 15)), (Z.ltb_spec a (5 * 10 ^ 16)), (Z.leb_spec 10000 c); cbn [orb andb]; lia. }
  assert (near_miss c a = true) as Hn.
  { unfold near_miss, CHRONIC_NEAR_MISS_COVER_BPS, CHRONIC_DUST_AVAILABLE_MATIC_WEI.
    apply andb_true_iff. rewrite !Z.leb_le. lia. }
  assert (strikes_needed c c a = 3) as Hneed.
  { unfold strikes_needed. rewrite Hn. unfold mid_band, CHRONIC_DUST_AVAILABLE_MATIC_WEI,
      CHRONIC_HIGH_COVER_BPS, CHRONIC_NEAR_MISS_COVER_BPS, CHRONIC_UNDERWATER_STRIKES.
    destruct (Z.ltb_spec a (10 ^ 16)); [lia|]. destruct (Z.ltb_spec c 500); [lia|].
    destruct (Z.leb_spec 7500 c); [|lia]. destruct (Z.leb_spec (10 ^ 16) a); [|lia].
    by rewrite !andb_false_r. }
  assert (chronic_ttl c a = CHRONIC_NEAR_MISS_QUARANTINE) as Httl.
  { unfold chronic_ttl. rewrite Hn. unfold CHRONIC_UNDERWATER_MIN_AVAILABLE_MATIC_WEI.
    destruct (Z.ltb_spec a (10 ^ 15)); [lia|done]. }
  subst r. unfold quarantine_chronic_gas_underwater. cbv zeta. rewrite Hb.
  unfold CHRONIC_UNDERWATER_MIN_COVER_BPS, CHRONIC_UNDERWATER_COVER_BPS.
  destruct (Z.leb_spec 25 c); [|lia]. destruct (Z.ltb_spec c 10000); [|lia]. cbn [andb negb].
  assert (active (es_quarantine s) now edges = false) as -> by (unfold active; by rewrite Hq).
  rewrite Hneed. fold n. destruct (n <? 3); cbn [fst snd].
  - split; [done|]. split; [exact Hq|]. unfold set_strikes. cbn [es_underwater_strikes].
    apply lookup_insert_eq.
  - rewrite Httl. split; [done|]. unfold quarantine_insert, set_quarantine. cbn [es_quarantine].
    apply lookup_insert_eq.
Qed.

(** An almost-profitable route is cooled only after three underwater wins, each within
    two minutes of the one before, and then for thirty seconds. *)
Theorem high_cover_route_cooled_on_third_strike (edges : list Edge) (c a t1 t2 t3 : Z)
    (s : ExecutionService) :
  CHRONIC_HIGH_COVER_BPS ≤ c < CHRONIC_UNDERWATER_COVER_BPS → CHRONIC_DUST_AVAILABLE_MATIC_WEI ≤ a →
  es_quarantine s !! edges = None → es_underwater_strikes s !! edges = None →
  0 ≤ t2 - t1 ≤ CHRONIC_UNDERWATER_STRIKE_WINDOW → t2 ≤ t3 →
  let win t s := quarantine_chronic_gas_underwater edges c a t t s in
  (win t1 s).1 = None ∧ (win t2 (win t1 s).2).1 = None ∧
  let r := win t3 (win t2 (win t1 s).2).2 in
  if t3 - t2 <=? CHRONIC_UNDERWATER_STRIKE_WINDOW
  then r.1 = Some CHRONIC_NEAR_MISS_QUARANTINE ∧
    ∀ t, is_route_quarantined edges t r.2 = (t <? t3 + CHRONIC_NEAR_MISS_QUARANTINE)
  else r.1 = None.
Proof.
  intros Hc Ha Hq Hs Ht Ht' win.
  pose proof (high_cover_win edges c a t1 t1 s Hc Ha Hq) as H1. cbv zeta in H1.
  fold (win t1 s) in H1. rewrite Hs in H1.
  assert (add_strike t1 None = 1) as E1.
  { unfold add_strike. cbn [default from_option id fst snd]. rewrite Z.sub_diag. reflexivity. }
  rewrite E1 in H1. cbn in H1. destruct H1 as (R1 & Q1 & S1).
  pose proof (high_cover_win edges c a t2 t2 (win t1 s).2 Hc Ha Q1) as H2. cbv zeta in H2.
  fold (win t2 (win t1 s).2) in H2. rewrite S1 in H2.
  assert (add_strike t2 (Some (1, t1)) = 2) as E2.
  { unfold add_strike. cbn [default from_option id fst snd].
    destruct (Z.ltb_spec CHRONIC_UNDERWATER_STRIKE_WINDOW (Z.max 0 (t2 - t1))); [lia|reflexivity]. }
  rewrite E2 in H2. cbn in H2. destruct H2 as (R2 & Q2 & S2).
  pose proof (high_cover_win edges c a t3 t3 (win t2 (win t1 s).2).2 Hc Ha Q2) as H3. cbv zeta in H3.
  fold (win t3 (win t2 (win t1 s).2).2) in H3. rewrite S2 in H3.
  split; [done|]. split; [done|]. cbv zeta.
  unfold add_strike in H3. cbn [default from_option id fst snd] in H3.
  destruct (Z.leb_spec (t3 - t2) CHRONIC_UNDERWATER_STRIKE_WINDOW),
    (Z.ltb_spec CHRONIC_UNDERWATER_STRIKE_WINDOW (Z.max 0 (t3 - t2))); try (unfold CHRONIC_UNDERWATER_STRIKE_WINDOW, secs in *; lia);
    cbn in H3.
  - destruct H3 as [R3 Q3]. split; [done|]. intros t. unfold is_route_quarantined, any_quarantined.
    cbn [existsb]. rewrite (active_Some _ _ _ _ Q3). apply orb_false_r.
  - apply H3.
Qed.

(** A soft cool-down is not guarded: it cuts the hour of a fifth failure to thirty
    seconds. *)
Lemma soft_cooldown_shortens :
  let five := Nat.iter 5 (quarantine_route [] 7 0 Revert 0) (with_route_stats_path 0) in
  is_route_quarantined [] (secs 1000) five = true ∧
  is_route_quarantined [] (secs 1000) (quarantine_route_soft [] (secs 10) (secs 10) five) = false.
Proof. vm_compute. done. Qed.

(** ** Witnesses *)

Definition demo_hop (pool tin tout : Z) : Edge :=
  {| pool_index := pool; token_in := tin; token_out := tout; token_in_idx := 0; token_out_idx := 1;
     protocol := UniswapV2; fee_bps := 30; zero_for_one := true |}.
Definition demo_cycle : list Edge := [demo_hop 1 10 11; demo_hop 2 11 10].

Definition demo_claimed : ExecutionService :=
  (try_claim_route_assess demo_cycle 0 0 (with_route_stats_path 0)).2.
Definition demo_later : ExecutionService := quarantine_insert [] (secs 9) (secs 1) demo_claimed.

Lemma demo_later_run : run 0 demo_claimed (secs 1) demo_later.
Proof.
  apply (run_step 0 demo_claimed (secs 1) demo_later); [vm_compute; discriminate| |apply run_done].
  exact (by_cool (secs 1) demo_claimed [] (secs 9)).
Qed.

Lemma demo_claim : try_claim_route_assess demo_cycle 0 0 (with_route_stats_path 0) = (true, demo_claimed).
Proof.
  assert ((try_claim_route_assess demo_cycle 0 0 (with_route_stats_path 0)).1 = true) as H
    by (vm_compute; reflexivity).
  unfold demo_claimed. rewrite <- H. apply surjective_pairing.
Qed.

Lemma route_assess_claims_exclude_witness :
  try_claim_route_assess [demo_hop 2 11 10; demo_hop 1 10 11] (secs 2) (secs 2) demo_later
  = (false, demo_later).
Proof.
  refine (route_assess_claims_exclude demo_cycle _ 0 0 _ _ (secs 1) _ (secs 2) (secs 2)
    demo_claim _ demo_later_run _ _).
  - right. left.
  - vm_compute. discriminate.
  - vm_compute. reflexivity.
Defined.

Lemma guarded_cooldowns_never_shorten_witness :
  no_shorter 5 (quarantine_insert demo_cycle 100 0 (with_route_stats_path 0))
    (quarantine_stale_route demo_cycle 5 (quarantine_insert demo_cycle 100 0 (with_route_stats_path 0))).
Proof. exact (proj1 (guarded_cooldowns_never_shorten demo_cycle 0 5 5 0 0 _ (Z.le_refl 5))). Defined.

Definition demo_stats : RouteStats := add_failure Revert (add_failure Timeout (add_success default_stats)).

Lemma risk_multiplier_monotone_witness :
  risk_multiplier_bps_from_stats (Some demo_stats) = 30000 ∧
  risk_multiplier_bps_from_stats (Some demo_stats) ≤
    risk_multiplier_bps_from_stats (Some (add_failure Submit demo_stats)).
Proof.
  split; [vm_compute; reflexivity|].
  apply (risk_multiplier_monotone demo_stats Submit); vm_compute; repeat split; try discriminate; reflexivity.
Defined.

Lemma adaptive_flash_cap_bounds_witness :
  adaptive_flash_loan_usd demo_cycle 50000
    (cap_event demo_cycle 1 50000 (cap_event demo_cycle 1 50000 (with_route_stats_path 0) Promote) Promote)
  = 50000.
Proof.
  refine (proj1 (proj2 (proj2 (adaptive_flash_cap_bounds demo_cycle 1 50000 0 [] _ _))));
    vm_compute; discriminate.
Defined.

Definition demo_win (t : Z) (s : ExecutionService) : option Z * ExecutionService :=
  quarantine_chronic_gas_underwater demo_cycle 8672 (10 ^ 17) t t s.

Lemma high_cover_route_cooled_on_third_strike_witness :
  (demo_win (secs 20) (demo_win (secs 10) (demo_win 0 (with_route_stats_path 0)).2).2).1
  = Some (secs 30).
Proof.
  destruct (high_cover_route_cooled_on_third_strike demo_cycle 8672 (10 ^ 17) 0 (secs 10) (secs 20)
    (with_route_stats_path 0)) as (_ & _ & H).
  - split; [vm_compute; discriminate|reflexivity].
  - vm_compute. discriminate.
  - apply lookup_empty.
  - apply lookup_empty.
  - split; vm_compute; discriminate.
  - vm_compute. discriminate.
  - change (secs 20 - secs 10 <=? CHRONIC_UNDERWATER_STRIKE_WINDOW) with true in H.
    exact (proj1 H).
Defined.
