(* ===== verification/Pnl.v ===== *)
(** * Profit and loss

    [src/src/services/execution/service/pnl.rs], with the global quarantine of
    [risk.rs]: the running totals, the daily total that rolls over at midnight UTC, the
    counters, and the circuit breaker that stops execution for an hour when the day's
    loss reaches the configured limit.  Amounts are MATIC wei; the totals are [i128]s
    that saturate.  The clock is read as the number of the UTC day and as an [Instant] in
    nanoseconds, both arguments. *)
From Stdlib Require Import Sorted.
From S2P Require Import Prelude Word Types Risk.

Definition i128_min : Z := - 2 ^ 127.
Definition sat_i128 (n : Z) : Z := Z.max i128_min (Z.min n i128_max).

Record PnlState := { pl_total : Z; pl_daily : Z; pl_daily_utc_day : Z }.

Definition new : PnlState := {| pl_total := 0; pl_daily := 0; pl_daily_utc_day := 0 |}.

(** Seconds since the epoch; a clock before the epoch is day 0. *)
Definition utc_day_number (secs_since_epoch : option Z) : Z :=
  match secs_since_epoch with Some s => wrap_u 32 (s / 86400) | None => 0 end.

Definition maybe_roll_daily (today : Z) (self : PnlState) : PnlState :=
  if negb (pl_daily_utc_day self =? today)
  then {| pl_total := pl_total self; pl_daily := 0; pl_daily_utc_day := today |} else self.

Definition record_profit (today net : Z) (self : PnlState) : PnlState :=
  let self := maybe_roll_daily today self in
  {| pl_total := sat_i128 (pl_total self + net); pl_daily := sat_i128 (pl_daily self + net);
     pl_daily_utc_day := pl_daily_utc_day self |}.

Definition record_loss (today loss : Z) (self : PnlState) : PnlState :=
  let self := maybe_roll_daily today self in
  {| pl_total := sat_i128 (pl_total self - loss); pl_daily := sat_i128 (pl_daily self - loss);
     pl_daily_utc_day := pl_daily_utc_day self |}.

Definition snapshot (self : PnlState) : Z * Z := (pl_total self, pl_daily self).

Definition token_profit_to_matic_wei (profit_token_units token_to_matic_rate token_decimals : Z)
  : option Z :=
  if token_to_matic_rate <? MIN_TOKEN_TO_MATIC_RATE then None
  else
    let? v := checked_mul profit_token_units token_to_matic_rate in
    checked_div v (ten_pow_u256 token_decimals).

(** The fields of [ExecutionService] that the accounting uses. *)
Record Books := {
  bk_pnl : PnlState;
  bk_total_trades : Z;
  bk_total_losses : Z;
  bk_consecutive_fails : Z;
  bk_max_daily_loss_matic_wei : option Z;
  bk_global_quarantine_until : option Z;
}.

Definition set_pnl (pnl : PnlState) (self : Books) : Books :=
  {| bk_pnl := pnl; bk_total_trades := bk_total_trades self;
     bk_total_losses := bk_total_losses self; bk_consecutive_fails := bk_consecutive_fails self;
     bk_max_daily_loss_matic_wei := bk_max_daily_loss_matic_wei self;
     bk_global_quarantine_until := bk_global_quarantine_until self |}.

Definition set_counters (trades losses fails : Z) (self : Books) : Books :=
  {| bk_pnl := bk_pnl self; bk_total_trades := trades; bk_total_losses := losses;
     bk_consecutive_fails := fails;
     bk_max_daily_loss_matic_wei := bk_max_daily_loss_matic_wei self;
     bk_global_quarantine_until := bk_global_quarantine_until self |}.

(** [quarantine_global] and [global_is_quarantined] of [risk.rs]. *)
Definition quarantine_global (duration now : Z) (self : Books) : Books :=
  {| bk_pnl := bk_pnl self; bk_total_trades := bk_total_trades self;
     bk_total_losses := bk_total_losses self; bk_consecutive_fails := bk_consecutive_fails self;
     bk_max_daily_loss_matic_wei := bk_max_daily_loss_matic_wei self;
     bk_global_quarantine_until := Some (now + duration) |}.

Definition global_is_quarantined (now : Z) (self : Books) : bool :=
  match bk_global_quarantine_until self with Some expiry => now <? expiry | None => false end.

Definition pnl_snapshot (today : Z) (self : Books) : (Z * Z) * Books :=
  let pnl := maybe_roll_daily today (bk_pnl self) in (snapshot pnl, set_pnl pnl self).

Definition enforce_daily_loss_limit_with_daily (daily now : Z) (self : Books) : Books :=
  match bk_max_daily_loss_matic_wei self with
  | None => self
  | Some max_loss =>
      if 0 <=? daily then self
      else
        let abs_loss := Z.abs daily in
        if abs_loss <? max_loss then self else quarantine_global (secs 3600) now self
  end.

(** [.min(U256::from(i128::MAX as u128)).to::<u128>() as i128] *)
Definition to_i128 (v : Z) : Z := Z.min v i128_max.

Definition record_realized (profit_wei gas_cost_wei today now : Z) (self : Books) : Books :=
  let self :=
    if gas_cost_wei <=? profit_wei then
      let p := to_i128 (saturating_sub profit_wei gas_cost_wei) in
      let self := set_counters (bk_total_trades self) (bk_total_losses self) 0 self in
      if 0 <? p
      then set_counters (wrap_u 64 (bk_total_trades self + 1)) (bk_total_losses self)
             (bk_consecutive_fails self) (set_pnl (record_profit today p (bk_pnl self)) self)
      else set_pnl (maybe_roll_daily today (bk_pnl self)) self
    else
      let loss := to_i128 (saturating_sub gas_cost_wei profit_wei) in
      set_counters (bk_total_trades self) (wrap_u 64 (bk_total_losses self + 1))
        (wrap_u 32 (bk_consecutive_fails self + 1))
        (set_pnl (record_loss today loss (bk_pnl self)) self) in
  enforce_daily_loss_limit_with_daily (pl_daily (bk_pnl self)) now self.

Definition record_gas_cost_loss (gas_cost_wei today now : Z) (self : Books) : Books :=
  if is_zero gas_cost_wei then self else record_realized 0 gas_cost_wei today now self.

(** ** The books against a ledger

    A ledger is the list of realized trades, newest first: the day and the net result. *)

Record Entry := { le_day : Z; le_profit : Z; le_gas : Z; le_now : Z }.

Definition net (e : Entry) : Z := le_profit e - le_gas e.
Definition total (l : list Entry) : Z := foldr (λ e acc, net e + acc) 0 l.
Definition of_day (day : Z) (l : list Entry) : list Entry := filter (λ e, le_day e = day) l.

(** The state after the trades of a ledger, oldest first. *)
Fixpoint book (l : list Entry) (self : Books) : Books :=
  match l with
  | [] => self
  | e :: l => record_realized (le_profit e) (le_gas e) (le_day e) (le_now e) (book l self)
  end.

(** All money ever moved fits the accounting type. *)
Definition turnover (l : list Entry) : Z := foldr (λ e acc, le_profit e + le_gas e + acc) 0 l.

Definition wf_entry (e : Entry) : Prop := 0 ≤ le_profit e ∧ 0 ≤ le_gas e.

Lemma enforce_pnl daily now b : bk_pnl (enforce_daily_loss_limit_with_daily daily now b) = bk_pnl b.
Proof. unfold enforce_daily_loss_limit_with_daily. repeat case_match; done. Qed.

Lemma enforce_max daily now b :
  bk_max_daily_loss_matic_wei (enforce_daily_loss_limit_with_daily daily now b) =
  bk_max_daily_loss_matic_wei b.
Proof. unfold enforce_daily_loss_limit_with_daily. repeat case_match; done. Qed.

Lemma sat_i128_id n : - 2 ^ 127 ≤ n < 2 ^ 127 → sat_i128 n = n.
Proof. unfold sat_i128, i128_min, i128_max. lia. Qed.

(** Every realized trade moves both totals by its net result, the daily one after the
    roll-over. *)
Lemma record_realized_pnl p g d now b :
  0 ≤ p → 0 ≤ g → p + g + Z.abs (pl_total (bk_pnl b)) < 2 ^ 127 →
  p + g + Z.abs (pl_daily (bk_pnl b)) < 2 ^ 127 →
  bk_pnl (record_realized p g d now b) =
    {| pl_total := pl_total (bk_pnl b) + (p - g);
       pl_daily := (if pl_daily_utc_day (bk_pnl b) =? d then pl_daily (bk_pnl b) else 0) + (p - g);
       pl_daily_utc_day := d |}.
Proof.
  intros Hp Hg Ht Hd. unfold record_realized. cbv zeta. rewrite enforce_pnl.
  assert (∀ x, 0 ≤ x < 2 ^ 127 → to_i128 x = x) as Hto by (intros; unfold to_i128, i128_max; lia).
  assert (maybe_roll_daily d (bk_pnl b) = {| pl_total := pl_total (bk_pnl b);
    pl_daily := if pl_daily_utc_day (bk_pnl b) =? d then pl_daily (bk_pnl b) else 0;
    pl_daily_utc_day := d |}) as Hroll.
  { unfold maybe_roll_daily. destruct (bk_pnl b) as [t dl dd]. cbn.
    destruct (Z.eqb_spec dd d) as [->|]; done. }
  unfold saturating_sub. destruct (Z.leb_spec g p).
  - rewrite Z.max_r, Hto by lia. destruct (Z.ltb_spec 0 (p - g)); cbn [bk_pnl set_counters set_pnl].
    + unfold record_profit. rewrite Hroll. cbn [pl_total pl_daily pl_daily_utc_day].
      f_equal; apply sat_i128_id; [lia|]. destruct (_ =? d); lia.
    + rewrite Hroll. f_equal; [lia|]. destruct (_ =? d); lia.
  - rewrite Z.max_r, Hto by lia. cbn [bk_pnl set_counters set_pnl].
    unfold record_loss. rewrite Hroll. cbn [pl_total pl_daily pl_daily_utc_day].
    f_equal; [rewrite sat_i128_id by lia; lia|].
    destruct (_ =? d); rewrite sat_i128_id by lia; lia.
Qed.

Lemma total_bound l : Forall wf_entry l → Z.abs (total l) ≤ turnover l.
Proof. unfold total, turnover, net. induction 1 as [|e l [? ?] _ IH]; cbn [foldr]; lia. Qed.

Lemma of_day_bound d l : Forall wf_entry l → Z.abs (total (of_day d l)) ≤ turnover l.
Proof.
  unfold total, turnover, net, of_day. induction 1 as [|e l [? ?] _ IH]; [done|]. cbn [foldr].
  rewrite filter_cons. case_decide; cbn [foldr]; lia.
Qed.

(** The invariant of a run: the books are those of the ledger. *)
Definition agrees (l : list Entry) (b : Books) : Prop :=
  pl_total (bk_pnl b) = total l ∧
  pl_daily (bk_pnl b) = total (of_day (pl_daily_utc_day (bk_pnl b)) l) ∧
  match l with [] => True | e :: _ => pl_daily_utc_day (bk_pnl b) = le_day e end.

Lemma of_day_later d l :
  Forall (λ e, le_day e < d) l → of_day d l = [].
Proof.
  unfold of_day. induction 1 as [|e l He _ IH]; [done|]. rewrite filter_cons, decide_False; [done|]. lia.
Qed.

Lemma book_agrees l b :
  bk_pnl b = new → Forall wf_entry l → turnover l < 2 ^ 126 →
  StronglySorted (λ newer older, le_day older ≤ le_day newer) l →
  agrees l (book l b).
Proof.
  intros Hb Hwf. induction Hwf as [|e l He Hwf IH]; intros Hturn Hs; cbn [book].
  { unfold agrees. by rewrite Hb. }
  apply StronglySorted_inv in Hs as [Hs Hall].
  assert (turnover (e :: l) = le_profit e + le_gas e + turnover l) as Et by done.
  destruct He as [Hp Hg].
  pose proof (total_bound l Hwf). pose proof (of_day_bound (pl_daily_utc_day (bk_pnl (book l b))) l Hwf).
  destruct IH as (Ht & Hd & Hday); [lia|done|].
  unfold agrees. rewrite record_realized_pnl by lia. cbn [pl_total pl_daily pl_daily_utc_day].
  split_and!; [rewrite Ht; unfold total, net; cbn [foldr]; lia| |done].
  assert (of_day (le_day e) (e :: l) = e :: of_day (le_day e) l) as ->
    by (unfold of_day; by rewrite filter_cons, decide_True).
  change (total (e :: of_day (le_day e) l)) with (net e + total (of_day (le_day e) l)). unfold net.
  destruct (Z.eqb_spec (pl_daily_utc_day (bk_pnl (book l b))) (le_day e)) as [E|E].
  - rewrite Hd, E. lia.
  - rewrite of_day_later; [cbn; lia|].
    destruct l as [|e' l]; [done|]. rewrite Hday in E.
    apply StronglySorted_inv in Hs as [_ Hall']. apply Forall_cons in Hall as [Hle Hall].
    apply Forall_cons. split; [lia|]. eapply Forall_impl; [exact Hall'|]. cbn. intros x Hx. lia.
Qed.

(** C35: The books agree with the ledger of realized trades.  Whatever the trades, as long as
    the UTC day does not go back and the turnover fits the accounting type, the total is
    the sum of all net results and the daily total the sum of those of the last trade's
    day; break-even trades move neither. *)
Theorem books_agree_with_ledger (e : Entry) (l : list Entry) (b : Books) :
  bk_pnl b = new → Forall wf_entry (e :: l) → turnover (e :: l) < 2 ^ 126 →
  StronglySorted (λ newer older, le_day older ≤ le_day newer) (e :: l) →
  (pnl_snapshot (le_day e) (book (e :: l) b)).1 = (total (e :: l), total (of_day (le_day e) (e :: l))).
Proof.
  intros Hb Hwf Ht Hs. destruct (book_agrees (e :: l) b Hb Hwf Ht Hs) as (H1 & H2 & H3).
  unfold pnl_snapshot, maybe_roll_daily, snapshot. rewrite H3, Z.eqb_refl. cbn [negb fst].
  by rewrite H1, H2, H3.
Qed.

(** What the limit check sees is the daily total after booking. *)
Lemma record_realized_limit p g d now b m :
  bk_max_daily_loss_matic_wei b = Some m →
  bk_global_quarantine_until (record_realized p g d now b) =
    if ((pl_daily (bk_pnl (record_realized p g d now b)) <? 0)
        && (m <=? - pl_daily (bk_pnl (record_realized p g d now b))))%bool
    then Some (now + secs 3600) else bk_global_quarantine_until b.
Proof.
  intros Hm. unfold record_realized. cbv zeta. rewrite enforce_pnl.
  match goal with |- context [enforce_daily_loss_limit_with_daily _ _ ?b'] => set (b1 := b') end.
  assert (bk_max_daily_loss_matic_wei b1 = Some m ∧
    bk_global_quarantine_until b1 = bk_global_quarantine_until b) as [Hm1 Hg1]
    by (subst b1; destruct (_ <=? _); [destruct (_ <? _)|]; done).
  unfold enforce_daily_loss_limit_with_daily. rewrite Hm1. rewrite <- Hg1.
  set (dl := pl_daily (bk_pnl b1)).
  destruct (Z.leb_spec 0 dl), (Z.ltb_spec dl 0); try lia; cbn [andb]; [done|].
  rewrite (Z.abs_neq dl) by lia.
  destruct (Z.ltb_spec (- dl) m), (Z.leb_spec m (- dl)); try lia; done.
Qed.

Lemma book_max l b : bk_max_daily_loss_matic_wei (book l b) = bk_max_daily_loss_matic_wei b.
Proof.
  induction l as [|e l IH]; cbn [book]; [done|]. rewrite <- IH. unfold record_realized. cbv zeta.
  rewrite enforce_max. destruct (_ <=? _); [destruct (_ <? _)|]; done.
Qed.

(** The daily loss limit is a circuit breaker.  With a limit configured, execution is
    stopped for an hour from a trade on exactly when that trade leaves the day's realized
    loss at or above the limit; a trade that does not leaves the stop as it was. *)
Theorem daily_loss_limit_trips (e : Entry) (l : list Entry) (b : Books) (limit : Z) :
  bk_pnl b = new → bk_max_daily_loss_matic_wei b = Some limit → 0 < limit →
  Forall wf_entry (e :: l) → turnover (e :: l) < 2 ^ 126 →
  StronglySorted (λ newer older, le_day older ≤ le_day newer) (e :: l) →
  if limit <=? - total (of_day (le_day e) (e :: l))
  then ∀ t, global_is_quarantined t (book (e :: l) b) = (t <? le_now e + secs 3600)
  else bk_global_quarantine_until (book (e :: l) b) = bk_global_quarantine_until (book l b).
Proof.
  intros Hb Hm Hpos Hwf Ht Hs. destruct (book_agrees (e :: l) b Hb Hwf Ht Hs) as (_ & Hd & H3).
  rewrite H3 in Hd. cbn [book] in *.
  pose proof (record_realized_limit (le_profit e) (le_gas e) (le_day e) (le_now e) (book l b) limit) as Hl.
  rewrite book_max in Hl. specialize (Hl Hm). rewrite Hd in Hl.
  set (dl := total _) in *.
  destruct (Z.leb_spec limit (- dl)).
  - intros t. unfold global_is_quarantined. rewrite Hl.
    destruct (Z.ltb_spec dl 0); [|lia]. by rewrite andb_true_l.
  - rewrite Hl. by rewrite andb_false_r.
Qed.

(** ** Witnesses *)

Definition demo_books : Books :=
  {| bk_pnl := new; bk_total_trades := 0; bk_total_losses := 0; bk_consecutive_fails := 0;
     bk_max_daily_loss_matic_wei := Some 100; bk_global_quarantine_until := None |}.
Definition demo_gain : Entry := {| le_day := 19000; le_profit := 90; le_gas := 30; le_now := 5 |}.
Definition demo_loss : Entry := {| le_day := 19001; le_profit := 0; le_gas := 120; le_now := 9 |}.

Lemma demo_ledger_wf :
  Forall wf_entry [demo_loss; demo_gain] ∧
  StronglySorted (λ newer older, le_day older ≤ le_day newer) [demo_loss; demo_gain].
Proof. split; repeat constructor; vm_compute; discriminate. Qed.

Lemma books_agree_with_ledger_witness :
  (pnl_snapshot 19001 (book [demo_loss; demo_gain] demo_books)).1 = (-60, -120).
Proof.
  refine (books_agree_with_ledger demo_loss [demo_gain] demo_books eq_refl
    (proj1 demo_ledger_wf) _ (proj2 demo_ledger_wf)). vm_compute. reflexivity.
Defined.

Lemma daily_loss_limit_trips_witness :
  global_is_quarantined (secs 60) (book [demo_loss; demo_gain] demo_books) = (secs 60 <? 9 + secs 3600).
Proof.
  assert (H : ∀ t, global_is_quarantined t (book [demo_loss; demo_gain] demo_books) = (t <? 9 + secs 3600)).
  { refine (daily_loss_limit_trips demo_loss [demo_gain] demo_books 100 eq_refl eq_refl _
      (proj1 demo_ledger_wf) _ (proj2 demo_ledger_wf)); vm_compute; reflexivity. }
  apply H.
Defined.
