(* ===== verification/Submit.v ===== *)
(** * Submitting a transaction

    From [src/src/services/execution]: the classification of RPC errors by their text
    ([support.rs]), the mempool gate ([mempool.rs] and its caller in [service.rs]), the
    fees and the retry loop ([submit.rs]) and the recovery after a missing receipt
    ([recovery.rs]).  The network is a parameter: a provider state with the RPC
    methods used, each of which may fail with a message.  Error messages are ASCII
    strings, hashes and addresses numbers. *)
From Stdlib Require Import Ascii String.
From stdpp Require Import gmap strings pretty.
From S2P Require Import Prelude Word Types Gas Profit GasOracle Nonce.

(** ** Error messages *)

Definition lower (a : ascii) : ascii :=
  let n := N_of_ascii a in
  if ((65 <=? n) && (n <=? 90))%N%bool then ascii_of_N (n + 32) else a.

(** [h] begins with [n], up to the case of ASCII letters. *)
Fixpoint prefix_ic (n h : string) : bool :=
  match n, h with
  | EmptyString, _ => true
  | String a n, String b h => (Ascii.eqb (lower a) (lower b) && prefix_ic n h)%bool
  | String _ _, EmptyString => false
  end.

(** [h.windows(n.len()).any(|w| w.eq_ignore_ascii_case(n))] *)
Fixpoint ic (haystack needle : string) : bool :=
  (prefix_ic needle haystack ||
   match haystack with String _ h => ic h needle | EmptyString => false end)%bool.

(** [str::contains] *)
Fixpoint contains (haystack needle : string) : bool :=
  (String.prefix needle haystack ||
   match haystack with String _ h => contains h needle | EmptyString => false end)%bool.

Inductive SubmitAction :=
| ResyncAndRetry | BumpFeesAndRetry | AlreadyKnown | InsufficientFunds | Fail_.

Definition classify_submit_error (msg : string) : SubmitAction :=
  if (ic msg "nonce too low" || ic msg "nonce has already been used" || ic msg "nonce too high")%bool
  then ResyncAndRetry
  else if (ic msg "already known" || ic msg "already imported")%bool then AlreadyKnown
  else if (ic msg "replacement transaction underpriced" || ic msg "fee too low"
           || ic msg "underpriced")%bool then BumpFeesAndRetry
  else if (ic msg "insufficient funds" || ic msg "insufficient balance")%bool then InsufficientFunds
  else if (ic msg "429" || ic msg "rate limit" || ic msg "timeout")%bool then BumpFeesAndRetry
  else Fail_.

Definition is_transient_receipt_error (msg : string) : bool :=
  (ic msg "429" || ic msg "rate limit" || ic msg "timeout" || ic msg "connection"
   || ic msg "temporarily unavailable" || ic msg "server error")%bool.

Definition is_rpc_rate_limited (msg : string) : bool :=
  (contains msg "429" || contains msg "error code 15" || ic msg "rate limit"
   || ic msg "usage limit" || ic msg "too many request")%bool.

(** [err.split("0x")]: the part before the first separator and the others. *)
Fixpoint split_0x (s : string) : string * list string :=
  match s with
  | EmptyString => (EmptyString, [])
  | String a s' =>
      match s' with
      | String b s'' =>
          if (Ascii.eqb a "0" && Ascii.eqb b "x")%bool
          then let '(first, rest) := split_0x s'' in (EmptyString, first :: rest)
          else let '(first, rest) := split_0x s' in (String a first, rest)
      | EmptyString => (String a EmptyString, [])
      end
  end.

Definition hex_digit (a : ascii) : option Z :=
  let n := Z.of_N (N_of_ascii a) in
  if ((48 <=? n) && (n <=? 57))%bool then Some (n - 48)
  else if ((65 <=? n) && (n <=? 70))%bool then Some (n - 55)
  else if ((97 <=? n) && (n <=? 102))%bool then Some (n - 87)
  else None.

(** [format!("0x{hex}").parse::<B256>()] of the first 64 characters. *)
Fixpoint parse_hex (digits : nat) (acc : Z) (s : string) : option Z :=
  match digits, s with
  | O, _ => Some acc
  | S digits, String a s => let? d := hex_digit a in parse_hex digits (acc * 16 + d) s
  | S _, EmptyString => None
  end.

(** [.find_map(..)]: the first that gives a result. *)
Fixpoint find_map {A B} (f : A → option B) (l : list A) : option B :=
  match l with
  | [] => None
  | x :: l => match f x with Some r => Some r | None => find_map f l end
  end.

Definition extract_tx_hash_from_error (err : string) : option Z :=
  find_map (parse_hex 64 0) (split_0x err).2.

(** ** The mempool gate *)

Definition MEMPOOL_STALL_TIMEOUT : Z := 20000000000.
Definition MEMPOOL_NONCE_CACHE_TTL : Z := 400000000.

Record MempoolGateDecision := { md_allow_submit : bool; md_pending_ahead : bool }.

Definition decide_mempool_gate (latest pending : Z) (last_global_submit : option Z)
    (now stall_timeout : Z) : MempoolGateDecision :=
  if pending =? latest then {| md_allow_submit := true; md_pending_ahead := false |}
  else
    let waiting_on_recent_local_submit :=
      match last_global_submit with Some t => Z.max 0 (now - t) <=? stall_timeout | None => false end in
    if waiting_on_recent_local_submit
    then {| md_allow_submit := false; md_pending_ahead := false |}
    else {| md_allow_submit := true; md_pending_ahead := true |}.

(** The cache is [(fetched_at, latest, pending)]; [now_check] and [now_store] are the
    later readings of the clock, [latest_rpc] and [pending_rpc] the two reads. *)
Definition operator_mempool_clear (cache : option (Z * Z * Z)) (last_global_submit : option Z)
    (now now_check now_store : Z) (latest_rpc pending_rpc : option Z)
  : option (bool * bool) * option (Z * Z * Z) :=
  let cached :=
    match cache with
    | Some (fetched_at, latest, pending) =>
        if Z.max 0 (now_check - fetched_at) <? MEMPOOL_NONCE_CACHE_TTL then Some (latest, pending) else None
    | None => None
    end in
  let decided latest pending :=
    let decision := decide_mempool_gate latest pending last_global_submit now MEMPOOL_STALL_TIMEOUT in
    Some (md_allow_submit decision, md_pending_ahead decision) in
  match cached with
  | Some (latest, pending) => (decided latest pending, cache)
  | None =>
      match latest_rpc, pending_rpc with
      | Some latest, Some pending => (decided latest pending, Some (now_store, latest, pending))
      | _, _ => (None, cache)
      end
  end.

(** ** Fees *)

Definition FEE_BUMP_BPS : Z := 1500.
Definition MAX_SUBMIT_ATTEMPTS : Z := 3.

Record SubmitFees := { sf_max_fee_per_gas : Z; sf_max_priority_fee_per_gas : Z }.

Definition bump_fees (fees : SubmitFees) (bump_bps : Z) : SubmitFees :=
  let num := wrap_u 64 (10000 + bump_bps) in
  {| sf_max_fee_per_gas := (sf_max_fee_per_gas fees *% num) / 10000;
     sf_max_priority_fee_per_gas := (sf_max_priority_fee_per_gas fees *% num) / 10000 |}.

Definition resolve_submit_fees (gas_oracle : GasOracle) : option SubmitFees :=
  let? snap := go_snapshot gas_oracle in
  let prio := Z.max (priority_fee snap) MIN_PRIORITY_FEE_PER_GAS in
  Some {| sf_max_fee_per_gas := Z.max (compute_conservative_gas_price snap) (base_fee snap +% prio);
          sf_max_priority_fee_per_gas := prio |}.

Definition resolve_submit_fees_with_profit (gas_oracle : GasOracle)
    (expected_profit_matic_wei alpha_bps tip_gas_units : Z) : option SubmitFees :=
  let? snap := go_snapshot gas_oracle in
  let max_fee_per_gas := compute_conservative_gas_price snap in
  let prio := Z.max (priority_fee snap) MIN_PRIORITY_FEE_PER_GAS in
  if (is_zero expected_profit_matic_wei || (alpha_bps =? 0) || (tip_gas_units =? 0))%bool
  then Some {| sf_max_fee_per_gas := max_fee_per_gas; sf_max_priority_fee_per_gas := prio |}
  else
    let tip :=
      profit_priority_tip_per_gas expected_profit_matic_wei alpha_bps (Z.min tip_gas_units u32_max) in
    let prio := Z.max prio tip in
    let min_max_fee := base_fee snap +% prio in
    Some {| sf_max_fee_per_gas := Z.max max_fee_per_gas min_max_fee;
            sf_max_priority_fee_per_gas := prio |}.

Definition expected_submit_gas_price (base : Z) (fees : SubmitFees) : Z :=
  saturating_add base (sf_max_priority_fee_per_gas fees).

(** ** Sending *)

Record CandidateExecution := {
  cd_route_fingerprint : Z;
  cd_route_edges : CycleEdges;
  cd_calldata : list Z;
  cd_target_address : Address;
  cd_value : Z;
  cd_profit_token : Address;
  cd_expected_profit_matic_wei : Z;
  cd_priority_bid_basis_matic_wei : Z;
  cd_gas_limit : option Z;
  cd_simulated_gas : Z;
  cd_route_hash : Z;
  cd_gross_profit : Z;
  cd_amount_in : Z;
  cd_token_decimals : Z;
  cd_token_to_matic_rate : Z;
  cd_slippage_bps : Z;
  cd_flash_loan_source : FlashLoanSource;
  cd_min_profit_matic_wei : Z;
  cd_min_profit_roi_bps : Z;
  cd_hop_count : Z;
  cd_safety_multiplier_bps : Z;
  cd_state_generation : Z;
  cd_state_block : Z;
  cd_state_hash : option Z;
  cd_route_trace : string;
  cd_adaptive_flash_cap_bound : bool;
  cd_adaptive_flash_loan_usd_limit : Z;
}.

Record TransactionRequest := {
  tx_from : option Address;
  tx_to : Address;
  tx_input : list Z;
  tx_value : Z;
  tx_nonce : Z;
  tx_max_fee_per_gas : Z;
  tx_max_priority_fee_per_gas : Z;
  tx_gas_limit : Z;
}.

Inductive SubmitError :=
| RpcError (msg : string)
| FeeTooWide (v : Z)
| NonceNotInitialized
| HashUnavailable.

Definition u256_to_u128 (v : Z) : Z + SubmitError := if v <? M128 then inl v else inr (FeeTooWide v).

Definition build_transaction_request_with_calldata (candidate : CandidateExecution)
    (calldata : list Z) (nonce : Z) (fees : SubmitFees) (gas_limit : Z)
  : TransactionRequest + SubmitError :=
  match u256_to_u128 (sf_max_fee_per_gas fees) with
  | inr e => inr e
  | inl max_fee =>
      match u256_to_u128 (sf_max_priority_fee_per_gas fees) with
      | inr e => inr e
      | inl max_priority_fee =>
          inl {| tx_from := None; tx_to := cd_target_address candidate; tx_input := calldata;
                 tx_value := cd_value candidate; tx_nonce := nonce; tx_max_fee_per_gas := max_fee;
                 tx_max_priority_fee_per_gas := max_priority_fee; tx_gas_limit := gas_limit |}
      end
  end.

Section network.
Context {P : Type}.
(** Sending a transaction, over the public mempool or a private relay. *)
Context (submit_transaction : P → TransactionRequest → (Z + string) * P).
(** [eth_getTransactionCount] at the pending block. *)
Context (pending_nonce : P → (Z + string) * P).

Definition rpc_ok (r : Z + string) : option Z := match r with inl n => Some n | inr _ => None end.

(** [submit_with_recovery], which also writes the caller's nonce. *)
Record Submitted := {
  sb_result : Z + SubmitError;
  sb_nonce : Z;
  sb_mgr : NonceManager;
  sb_provider : P;
}.

(** The nonce is released, the manager resynchronized and a new nonce reserved, each with
    [?]; the outer [None] is out of fuel. *)
Definition resync_nonce (p : P) (mgr : NonceManager) (nonce : Z)
  : option ((Z + SubmitError) * NonceManager * P) :=
  let mgr := release nonce mgr in
  let '(read, p) := pending_nonce p in
  let mgr := (resync (rpc_ok read) mgr).2 in
  match read with
  | inr msg => Some (inr (RpcError msg), mgr, p)
  | inl _ =>
      let? reserved := next_nonce mgr in
      Some (match reserved with
            | (Reserved nonce, mgr) => (inl nonce, mgr, p)
            | (NotInitialized, mgr) => (inr NonceNotInitialized, mgr, p)
            end)
  end.

(** The loop: [more] attempts remain after this one. *)
Fixpoint submit_attempts (more : nat) (candidate : CandidateExecution) (gas_limit : Z)
    (p : P) (mgr : NonceManager) (nonce : Z) (fees : SubmitFees) : option Submitted :=
  let finish result nonce mgr p :=
    Some {| sb_result := result; sb_nonce := nonce; sb_mgr := mgr; sb_provider := p |} in
  match build_transaction_request_with_calldata candidate (cd_calldata candidate) nonce fees gas_limit with
  | inr e => finish (inr e) nonce mgr p
  | inl tx =>
      let '(sent, p) := submit_transaction p tx in
      match sent with
      | inl hash => finish (inl hash) nonce mgr p
      | inr msg =>
          match more with
          | O => finish (inr (RpcError msg)) nonce mgr p
          | S more =>
              match classify_submit_error msg with
              | ResyncAndRetry =>
                  let? r := resync_nonce p mgr nonce in
                  match r.1.1 with
                  | inl nonce => submit_attempts more candidate gas_limit r.2 r.1.2 nonce fees
                  | inr e => finish (inr e) nonce r.1.2 r.2
                  end
              | BumpFeesAndRetry =>
                  submit_attempts more candidate gas_limit p mgr nonce (bump_fees fees FEE_BUMP_BPS)
              | AlreadyKnown =>
                  match extract_tx_hash_from_error msg with
                  | Some hash => finish (inl hash) nonce mgr p
                  | None => finish (inr HashUnavailable) nonce mgr p
                  end
              | InsufficientFunds | Fail_ => finish (inr (RpcError msg)) nonce mgr p
              end
          end
      end
  end.

Definition submit_with_recovery (p : P) (mgr : NonceManager) (candidate : CandidateExecution)
    (nonce : Z) (fees : SubmitFees) (gas_limit : Z) : option Submitted :=
  submit_attempts (Z.to_nat (MAX_SUBMIT_ATTEMPTS - 1)) candidate gas_limit p mgr nonce fees.

(** ** After a missing receipt *)

Record Log := { lg_address : Address; lg_transfer : option (Address * Address * Z) }.

Record ReceiptData := {
  rd_success : bool;
  rd_gas_used : Z;
  rd_effective_gas_price : option Z;
  rd_logs : list Log;
}.

Inductive NonceRecoveryOutcome :=
| Mined (receipt : ReceiptData) | Cancelled (hash : Z) | StillPending | Dropped.

Context (get_transaction_receipt : P → Z → (option ReceiptData + string) * P).
Context (get_transaction_by_hash : P → Z → (bool + string) * P).

Definition cancel_transaction (operator nonce : Z) (fees : SubmitFees) (gas_limit : Z)
  : TransactionRequest :=
  let bumped := bump_fees fees FEE_BUMP_BPS in
  let narrow v := match u256_to_u128 v with inl v => v | inr _ => M128 - 1 end in
  {| tx_from := Some operator; tx_to := operator; tx_input := []; tx_value := 0; tx_nonce := nonce;
     tx_max_fee_per_gas := narrow (sf_max_fee_per_gas bumped);
     tx_max_priority_fee_per_gas := narrow (sf_max_priority_fee_per_gas bumped);
     tx_gas_limit := Z.min gas_limit 21000 |}.

Definition recover_after_receipt_timeout (p : P) (mgr : NonceManager) (operator tx_hash nonce : Z)
    (fees : SubmitFees) (gas_limit : Z) : NonceRecoveryOutcome * NonceManager * P :=
  let '(receipt, p) := get_transaction_receipt p tx_hash in
  match receipt with
  | inl (Some r) => (Mined r, mgr, p)
  | _ =>
      let '(known, p) := get_transaction_by_hash p tx_hash in
      match known with
      | inl false =>
          let '(read, p) := pending_nonce p in
          let '(ok, mgr) := resync (rpc_ok read) mgr in
          if ok then (Dropped, mgr, p) else (StillPending, mark_stale nonce mgr, p)
      | inr _ => (StillPending, mark_stale nonce mgr, p)
      | inl true =>
          let '(sent, p) := submit_transaction p (cancel_transaction operator nonce fees gas_limit) in
          match sent with
          | inl hash => (Cancelled hash, mark_stale nonce mgr, p)
          | inr _ => (StillPending, mark_stale nonce mgr, p)
          end
      end
  end.

(** [submit_replacement]: [12%] higher fees on the same nonce. *)
Definition submit_replacement (p : P) (mgr : NonceManager) (candidate : CandidateExecution)
    (nonce : Z) (fees : SubmitFees) (gas_limit : Z) : option (Z + SubmitError) * NonceManager * P :=
  let bumped := bump_fees fees 1200 in
  let mgr := mark_stale nonce mgr in
  let '(replacement_nonce, mgr) := replace_nonce nonce mgr in
  match replacement_nonce with
  | None => (None, mgr, p)
  | Some n =>
      match build_transaction_request_with_calldata candidate (cd_calldata candidate) n bumped gas_limit with
      | inr e => (Some (inr e), mgr, p)
      | inl tx =>
          let '(sent, p) := submit_transaction p tx in
          (Some (match sent with inl hash => inl hash | inr msg => inr (RpcError msg) end), mgr, p)
      end
  end.
End network.
Arguments Submitted : clear implicits.

(** What the caller of a failed submission does with the nonce; the text of an error
    of the number conversion is a parameter. *)
Definition display (conversion_error : string) (e : SubmitError) : string :=
  match e with
  | RpcError msg => msg
  | FeeTooWide v => "value " +:+ pretty v +:+ " exceeds u128: " +:+ conversion_error
  | NonceNotInitialized => "nonce manager not initialized"
  | HashUnavailable => "transaction already known but hash unavailable"
  end.

Definition release_failed_submit_nonce (nonce : Z) (action : SubmitAction) (mgr : NonceManager)
  : NonceManager :=
  match action with AlreadyKnown => mark_stale nonce mgr | _ => release nonce mgr end.

(** ** Matching messages *)

Fixpoint lower_string (s : string) : string :=
  match s with EmptyString => EmptyString | String a s => String (lower a) (lower_string s) end.

Lemma prefix_ic_spec n : ∀ h,
  prefix_ic n h = true ↔ ∃ b c, h = b +:+ c ∧ lower_string b = lower_string n.
Proof.
  induction n as [|a n IH]; intros h; cbn [prefix_ic].
  { split; [intros _; by exists EmptyString, h|done]. }
  destruct h as [|b h].
  - split; [done|]. intros ([|? ?] & c & Hh & Hl); discriminate.
  - rewrite andb_true_iff, Ascii.eqb_eq, IH. split.
    + intros [Hab (m & c & -> & Hm)]. exists (String b m), c. split; [done|]. cbn. congruence.
    + intros ([|b' m] & c & Hh & Hl); [discriminate|]. cbn in Hh, Hl. injection Hh as -> ->.
      injection Hl as Hb Hm. split; [congruence|]. by exists m, c.
Qed.

(** The search for an error text finds exactly the occurrences up to the case of
    letters, anywhere in the message. *)
Theorem ic_finds_iff (haystack needle : string) :
  ic haystack needle = true ↔
  ∃ a b c, haystack = a +:+ b +:+ c ∧ lower_string b = lower_string needle.
Proof.
  induction haystack as [|x h IH]; cbn [ic]; rewrite orb_true_iff, prefix_ic_spec.
  - split.
    + intros [(b & c & E & Hb)|]; [by exists EmptyString, b, c|done].
    + intros ([|? ?] & b & c & E & Hb); [left; by exists b, c|discriminate].
  - rewrite IH. split.
    + intros [(b & c & E & Hb)|(a & b & c & -> & Hb)]; [by exists EmptyString, b, c|].
      by exists (String x a), b, c.
    + intros ([|y a] & b & c & E & Hb); [left; by exists b, c|].
      injection E as -> ->. right. by exists a, b, c.
Qed.

(** ** Fees *)

Lemma bump_fees_eq fees bps :
  0 ≤ bps < 2 ^ 32 → 0 ≤ sf_max_fee_per_gas fees < M128 → 0 ≤ sf_max_priority_fee_per_gas fees < M128 →
  bump_fees fees bps =
    {| sf_max_fee_per_gas := sf_max_fee_per_gas fees * (10000 + bps) / 10000;
       sf_max_priority_fee_per_gas := sf_max_priority_fee_per_gas fees * (10000 + bps) / 10000 |}.
Proof.
  unfold bump_fees, M128. intros Hb Hf Hp.
  assert (wrap_u 64 (10000 + bps) = 10000 + bps) as -> by (apply Z.mod_small; lia).
  rewrite !wmul_small; [done|unfold u256, M256; nia..].
Qed.

(** A fee bump is a valid replacement: both fees grow by at least the ten percent that
    nodes ask of a replacement transaction, and they never shrink. *)
Theorem bump_fees_replaces (fees : SubmitFees) (bps : Z) :
  1200 ≤ bps < 2 ^ 32 → 50 ≤ sf_max_fee_per_gas fees < M128 →
  50 ≤ sf_max_priority_fee_per_gas fees < M128 →
  let bumped := bump_fees fees bps in
  11 * sf_max_fee_per_gas fees ≤ 10 * sf_max_fee_per_gas bumped ∧
  11 * sf_max_priority_fee_per_gas fees ≤ 10 * sf_max_priority_fee_per_gas bumped.
Proof.
  intros Hb Hf Hp. cbv zeta. rewrite bump_fees_eq by lia. cbn [sf_max_fee_per_gas sf_max_priority_fee_per_gas].
  assert (∀ v, 50 ≤ v → 11 * v ≤ 10 * (v * (10000 + bps) / 10000)) as H; [|split; apply H; lia].
  intros v Hv. pose proof (div_mul_gt (v * (10000 + bps)) 10000 ltac:(lia)). nia.
Qed.

(** The fees of a live submission pay: the tip is at least the floor tip, and the fee
    ceiling covers the base fee plus the tip, which is the price the chain charges. *)
Theorem submit_fees_cover_base_and_tip (o : GasOracle) (profit alpha units : Z) (snap : FeeSnapshot)
    (fees : SubmitFees) :
  go_snapshot o = Some snap → 0 ≤ base_fee snap < 2 ^ 200 → 0 ≤ priority_fee snap < 2 ^ 200 →
  resolve_submit_fees_with_profit o profit alpha units = Some fees →
  MIN_PRIORITY_FEE_PER_GAS ≤ sf_max_priority_fee_per_gas fees ∧
  base_fee snap + sf_max_priority_fee_per_gas fees ≤ sf_max_fee_per_gas fees ∧
  expected_submit_gas_price (base_fee snap) fees ≤ sf_max_fee_per_gas fees.
Proof.
  intros Hs Hb Hp. unfold resolve_submit_fees_with_profit. rewrite Hs. cbv zeta.
  set (tip := profit_priority_tip_per_gas _ _ _). set (prio := Z.max (priority_fee snap) _).
  assert (MIN_PRIORITY_FEE_PER_GAS = 25000000000) as Emin by reflexivity.
  assert (25000000000 ≤ prio < 2 ^ 200) as Hprio by (subst prio; lia).
  assert (tip ≤ MAX_PROFIT_PRIORITY_FEE_WEI) as Htip.
  { subst tip. unfold profit_priority_tip_per_gas. destruct (_ || _)%bool; [by vm_compute|]. lia. }
  assert (MAX_PROFIT_PRIORITY_FEE_WEI < 2 ^ 200) as Hmax by (vm_compute; reflexivity).
  assert (base_fee snap + prio ≤ compute_conservative_gas_price snap) as Hcons.
  { unfold compute_conservative_gas_price. fold prio.
    rewrite wmul_small by (unfold u256, M256; nia).
    assert (base_fee snap ≤ base_fee snap * 11250 / 10000) by (apply div_lower; lia).
    assert (base_fee snap * 11250 / 10000 ≤ base_fee snap * 2) by (apply Z.div_le_upper_bound; lia).
    rewrite wadd_small; [lia|unfold u256, M256; lia]. }
  assert (∀ f, expected_submit_gas_price (base_fee snap) f ≤ base_fee snap + sf_max_priority_fee_per_gas f)
    as Hexp by (intros; unfold expected_submit_gas_price, saturating_add; lia).
  intros H. rewrite Emin.
  assert (25000000000 ≤ sf_max_priority_fee_per_gas fees ∧
    base_fee snap + sf_max_priority_fee_per_gas fees ≤ sf_max_fee_per_gas fees) as [? ?].
  { destruct (_ || _)%bool; injection H as <-; cbn [sf_max_priority_fee_per_gas sf_max_fee_per_gas]; [lia|].
    rewrite wadd_small by (unfold u256, M256; lia). lia. }
  specialize (Hexp fees). lia.
Qed.

(** ** The retry loop *)

Lemma resync_ok n mgr : (resync (Some n) mgr).2 =
  {| nm_address := nm_address mgr; nm_initialized := true;
     nm_state := {| ns_local_nonce := n; ns_in_flight := ∅; ns_min_in_flight := None; ns_stale := ∅ |} |}.
Proof. done. Qed.

(** A resynchronized manager hands out the pending nonce. *)
Lemma next_nonce_after_resync n mgr :
  next_nonce (resync (Some n) mgr).2 =
  Some (Reserved n, with_state (resync (Some n) mgr).2
          (insert_in_flight n (nm_state (resync (Some n) mgr).2))).
Proof.
  rewrite resync_ok. unfold next_nonce, next_available. cbn [nm_initialized negb nm_state].
  unfold first_nonce. cbn [ns_min_in_flight ns_local_nonce ns_in_flight ns_stale].
  rewrite (left_id_L ∅ (∪)), size_empty. cbn [next_free]. unfold is_free. cbn [ns_in_flight ns_stale].
  by rewrite bool_decide_eq_false_2 by set_solver.
Qed.

Section retry.
Context {P : Type}.
Context (submit_transaction : P → TransactionRequest → (Z + string) * P).
Context (pending_nonce : P → (Z + string) * P).
(** The transactions that the network was asked to accept. *)
Context (sends : P → nat).
Context (send_counts : ∀ p tx, sends (submit_transaction p tx).2 = S (sends p)).
Context (read_counts : ∀ p, sends (pending_nonce p).2 = sends p).

(** A hash stands for this nonce: the network gave it for a transaction with the nonce, or
    named it as already known. *)
Definition stands_for (hash nonce : Z) : Prop :=
  ∃ p tx, tx_nonce tx = nonce ∧
    ((submit_transaction p tx).1 = inl hash ∨
     ∃ msg, (submit_transaction p tx).1 = inr msg ∧ classify_submit_error msg = AlreadyKnown ∧
       extract_tx_hash_from_error msg = Some hash).

Definition submitted_ok (p : P) (n : nat) (s : Submitted P) : Prop :=
  (sends (sb_provider s) ≤ sends p + n)%nat ∧
  ∀ hash, sb_result s = inl hash →
    stands_for hash (sb_nonce s) ∧ sb_nonce s ∈ ns_in_flight (nm_state (sb_mgr s)).

Lemma build_nonce candidate nonce fees gas tx :
  build_transaction_request_with_calldata candidate (cd_calldata candidate) nonce fees gas = inl tx →
  tx_nonce tx = nonce.
Proof.
  unfold build_transaction_request_with_calldata. repeat case_match; try done.
  by intros [= <-].
Qed.

Lemma submit_attempts_ok candidate gas more : ∀ p mgr nonce fees,
  nonce ∈ ns_in_flight (nm_state mgr) →
  ∃ s, submit_attempts submit_transaction pending_nonce more candidate gas p mgr nonce fees = Some s ∧
    submitted_ok p (S more) s.
Proof using send_counts read_counts.
  induction more as [|more IH]; intros p mgr nonce fees Hn; cbn [submit_attempts];
    destruct (build_transaction_request_with_calldata _ _ _ _ _) as [tx|e] eqn:Etx;
    try (eexists; split; [reflexivity|]; split; [cbn; lia|done]);
    apply build_nonce in Etx; pose proof (send_counts p tx) as Hc;
    destruct (submit_transaction p tx) as [[hash|msg] p1] eqn:Es; cbn [snd] in Hc;
    try (eexists; split; [reflexivity|]; split; [cbn; lia|done]);
    try (eexists; split; [reflexivity|]; split; [cbn; lia|]; cbn; intros h [= <-]; split; [|done];
         exists p, tx; split; [done|]; left; by rewrite Es).
  destruct (classify_submit_error msg) eqn:Ec;
    try (eexists; split; [reflexivity|]; split; [cbn; lia|done]).
  - unfold resync_nonce. pose proof (read_counts p1) as Hr.
    destruct (pending_nonce p1) as [[n|m] p2] eqn:Ep; cbn [snd rpc_ok] in *;
      [|eexists; split; [reflexivity|]; split; [cbn; lia|done]].
    rewrite next_nonce_after_resync. cbn [fst snd].
    edestruct IH as (s & Hs & Hc1 & Hc2); [|exists s; split; [exact Hs|]].
    + rewrite resync_ok. cbn. unfold insert_in_flight. cbn. case_bool_decide; set_solver.
    + split; [lia|exact Hc2].
  - edestruct (IH p1 mgr nonce (bump_fees fees FEE_BUMP_BPS)) as (s & Hs & Hc1 & Hc2); [done|].
    exists s. split; [exact Hs|]. split; [lia|exact Hc2].
  - destruct (extract_tx_hash_from_error msg) as [h|] eqn:Eh;
      (eexists; split; [reflexivity|]; split; [cbn; lia|]); [|done].
    cbn. intros h' [= <-]. split; [|done]. exists p, tx. split; [done|]. right. exists msg.
    by rewrite Es.
Qed.

(** Submitting ends after at most three transactions, whatever the network answers.  A
    hash it reports stands for a transaction with the nonce it reports, and that nonce is
    reserved in the manager, also when the manager was resynchronized on the way. *)
Theorem submit_with_recovery_keeps_reservation (p : P) (mgr : NonceManager)
    (candidate : CandidateExecution) (nonce : Z) (fees : SubmitFees) (gas_limit : Z) :
  nonce ∈ ns_in_flight (nm_state mgr) →
  ∃ s, submit_with_recovery submit_transaction pending_nonce p mgr candidate nonce fees gas_limit = Some s ∧
    (sends (sb_provider s) ≤ sends p + Z.to_nat MAX_SUBMIT_ATTEMPTS)%nat ∧
    ∀ hash, sb_result s = inl hash →
      stands_for hash (sb_nonce s) ∧ sb_nonce s ∈ ns_in_flight (nm_state (sb_mgr s)).
Proof using send_counts read_counts.
  intros Hn. destruct (submit_attempts_ok candidate gas_limit (Z.to_nat (MAX_SUBMIT_ATTEMPTS - 1)) p mgr nonce fees Hn)
    as (s & Hs & Hok). exists s. split; [exact Hs|exact Hok].
Qed.
End retry.

(** ** What a hash was given for *)

(** The fees of the attempt after [k] bumps. *)
Definition bumped (k : nat) (fees : SubmitFees) : SubmitFees :=
  Nat.iter k (λ f, bump_fees f FEE_BUMP_BPS) fees.

(** The transaction carries the candidate's call and value, with these fees and gas limit. *)
Record carries (candidate : CandidateExecution) (fees : SubmitFees) (gas_limit : Z)
    (tx : TransactionRequest) : Prop := {
  ca_to : tx_to tx = cd_target_address candidate;
  ca_input : tx_input tx = cd_calldata candidate;
  ca_value : tx_value tx = cd_value candidate;
  ca_max_fee : tx_max_fee_per_gas tx = sf_max_fee_per_gas fees;
  ca_priority_fee : tx_max_priority_fee_per_gas tx = sf_max_priority_fee_per_gas fees;
  ca_gas_limit : tx_gas_limit tx = gas_limit;
}.

Lemma build_carries candidate nonce fees gas tx :
  build_transaction_request_with_calldata candidate (cd_calldata candidate) nonce fees gas = inl tx →
  carries candidate fees gas tx.
Proof.
  unfold build_transaction_request_with_calldata, u256_to_u128.
  destruct (_ <? M128); [|done]. destruct (_ <? M128); [|done]. by intros [= <-].
Qed.

(** The network gave this hash, or named it as already known, when it was sent a transaction
    of the candidate, with these fees bumped fewer than [tries] times and this gas limit. *)
Definition submitted_for {P : Type} (submit_transaction : P → TransactionRequest → (Z + string) * P)
    (candidate : CandidateExecution) (fees : SubmitFees) (gas_limit : Z) (tries : nat) (hash : Z) : Prop :=
  ∃ k q tx, (k < tries)%nat ∧ carries candidate (bumped k fees) gas_limit tx ∧
    ((submit_transaction q tx).1 = inl hash ∨
     ∃ msg, (submit_transaction q tx).1 = inr msg ∧ classify_submit_error msg = AlreadyKnown ∧
       extract_tx_hash_from_error msg = Some hash).

Lemma submitted_for_bump {P} (send : P → TransactionRequest → (Z + string) * P) candidate fees gas tries hash :
  submitted_for send candidate (bump_fees fees FEE_BUMP_BPS) gas tries hash →
  submitted_for send candidate fees gas (S tries) hash.
Proof.
  intros (k & q & tx & Hk & Hc & Hh). exists (S k), q, tx. split; [lia|]. split; [|done].
  unfold bumped in *. by rewrite Nat.iter_succ_r.
Qed.

Lemma submitted_for_more {P} (send : P → TransactionRequest → (Z + string) * P) candidate fees gas tries hash :
  submitted_for send candidate fees gas tries hash → submitted_for send candidate fees gas (S tries) hash.
Proof. intros (k & q & tx & Hk & ?). exists k, q, tx. split; [lia|done]. Qed.

Lemma submit_attempts_for {P} (send : P → TransactionRequest → (Z + string) * P) pending candidate gas more :
  ∀ p mgr nonce fees s hash,
  submit_attempts send pending more candidate gas p mgr nonce fees = Some s → sb_result s = inl hash →
  submitted_for send candidate fees gas (S more) hash.
Proof.
  induction more as [|more IH]; intros p mgr nonce fees s hash; cbn [submit_attempts];
    destruct (build_transaction_request_with_calldata _ _ _ _ _) as [tx|e] eqn:Etx; [|by intros [= <-]| |by intros [= <-]];
    apply build_carries in Etx; destruct (send p tx) as [[h|msg] p1] eqn:Es;
    [intros [= <-] [= <-]; exists 0%nat, p, tx; rewrite Es; by auto with lia|by intros [= <-]
    |intros [= <-] [= <-]; exists 0%nat, p, tx; rewrite Es; by auto with lia|].
  destruct (classify_submit_error msg) eqn:Ec; [| | |by intros [= <-]|by intros [= <-]].
  - destruct (resync_nonce _ _ _ _) as [[[[n|e] mgr'] p2]|]; [|by intros [= <-]|done].
    intros Hs Hh. eapply submitted_for_more, IH; [exact Hs|exact Hh].
  - intros Hs Hh. eapply submitted_for_bump, IH; [exact Hs|exact Hh].
  - destruct (extract_tx_hash_from_error msg) as [h|] eqn:Ex; intros [= <-]; [|done]. intros [= <-].
    exists 0%nat, p, tx. rewrite Es. split; [lia|]. split; [done|]. right. by exists msg.
Qed.

Lemma submit_with_recovery_for {P} (send : P → TransactionRequest → (Z + string) * P) pending p mgr candidate
    nonce fees gas s hash :
  submit_with_recovery send pending p mgr candidate nonce fees gas = Some s → sb_result s = inl hash →
  submitted_for send candidate fees gas (Z.to_nat MAX_SUBMIT_ATTEMPTS) hash.
Proof. apply submit_attempts_for. Qed.

(** ** Witnesses *)

Definition demo_fees : SubmitFees :=
  {| sf_max_fee_per_gas := 90 * 10 ^ 9; sf_max_priority_fee_per_gas := 30 * 10 ^ 9 |}.

Lemma bump_fees_replaces_witness :
  11 * sf_max_fee_per_gas demo_fees ≤ 10 * sf_max_fee_per_gas (bump_fees demo_fees FEE_BUMP_BPS).
Proof.
  apply (bump_fees_replaces demo_fees FEE_BUMP_BPS); unfold FEE_BUMP_BPS, M128; cbn; lia.
Defined.

Definition demo_oracle : GasOracle :=
  {| go_snapshot := Some {| base_fee := 30 * 10 ^ 9; priority_fee := 26 * 10 ^ 9 |};
     go_snapshot_updated_at_ms := 0; go_poll_interval_ms := 1000;
     go_route_gas := {| rh_map := ∅; rh_order := [] |}; go_sim_scale_bps := 10000 |}.

Lemma submit_fees_cover_base_and_tip_witness :
  ∃ fees, resolve_submit_fees_with_profit demo_oracle (10 ^ 18) 5000 400000 = Some fees ∧
    30 * 10 ^ 9 + sf_max_priority_fee_per_gas fees ≤ sf_max_fee_per_gas fees.
Proof.
  destruct (resolve_submit_fees_with_profit demo_oracle (10 ^ 18) 5000 400000) as [fees|] eqn:E;
    [|by vm_compute in E].
  exists fees. split; [done|].
  apply (submit_fees_cover_base_and_tip demo_oracle (10 ^ 18) 5000 400000
    {| base_fee := 30 * 10 ^ 9; priority_fee := 26 * 10 ^ 9 |} fees); [done|cbn; lia|cbn; lia|exact E].
Defined.

Definition demo_candidate : CandidateExecution :=
  {| cd_route_fingerprint := 1; cd_route_edges := []; cd_calldata := []; cd_target_address := 50;
     cd_value := 0; cd_profit_token := 77; cd_expected_profit_matic_wei := 0;
     cd_priority_bid_basis_matic_wei := 0; cd_gas_limit := None; cd_simulated_gas := 90;
     cd_route_hash := 0; cd_gross_profit := 3 * 10 ^ 18; cd_amount_in := 100 * 10 ^ 18;
     cd_token_decimals := 18; cd_token_to_matic_rate := 10 ^ 18; cd_slippage_bps := 10;
     cd_flash_loan_source := FBalancer; cd_min_profit_matic_wei := 0; cd_min_profit_roi_bps := 0;
     cd_hop_count := 2; cd_safety_multiplier_bps := 10000; cd_state_generation := 0;
     cd_state_block := 0; cd_state_hash := None; cd_route_trace := EmptyString;
     cd_adaptive_flash_cap_bound := false; cd_adaptive_flash_loan_usd_limit := 0 |}.

(** A network that counts the transactions it is sent and refuses nonces below 8. *)
Definition demo_send (p : nat) (tx : TransactionRequest) : (Z + string) * nat :=
  (if tx_nonce tx <? 8 then inr "Nonce too LOW"%string else inl (tx_nonce tx + 1000), S p).
Definition demo_pending (p : nat) : (Z + string) * nat := (inl 8, p).

Lemma submit_with_recovery_keeps_reservation_witness :
  ∃ s, submit_with_recovery demo_send demo_pending O demo_manager demo_candidate 6 demo_fees 100 = Some s ∧
    sb_result s = inl 1008 ∧ 8 ∈ ns_in_flight (nm_state (sb_mgr s)).
Proof.
  destruct (submit_with_recovery_keeps_reservation demo_send demo_pending (λ p, p)
    (λ p tx, eq_refl) (λ p, eq_refl) O demo_manager demo_candidate 6 demo_fees 100)
    as (s & Hs & _ & Hk); [vm_compute; by constructor|].
  exists s. assert (sb_result <$> submit_with_recovery demo_send demo_pending O demo_manager demo_candidate 6 demo_fees 100
    = Some (inl 1008) ∧ sb_nonce <$> submit_with_recovery demo_send demo_pending O demo_manager demo_candidate 6
    demo_fees 100 = Some 8) as [H1 H2] by (vm_compute; done).
  rewrite Hs in H1, H2. cbn in H1, H2. injection H1 as H1. injection H2 as H2.
  split; [done|]. split; [done|]. rewrite <- H2. by apply (Hk 1008).
Defined.
