(* ===== verification/Settle.v ===== *)
(** * From submission to the books

    The tail of [ExecutionService::process_candidate]
    ([src/src/services/execution/service.rs]): reserve a nonce, submit, wait for the
    receipt, recover when it is missing, and settle - risk statistics, gas oracle,
    profit and loss - with the sweep of the profit ([profit_sweep.rs]).  It composes
    [Nonce], [Submit], [Risk], [Pnl] and [GasOracle].

    What the operating system and the network answer is a parameter: the provider of
    [Submit], the receipt poller, the clock.  Log lines and the interface hook are left
    out. *)
From stdpp Require Import gmap strings.
From S2P Require Import Prelude Word Types Gas Profit GasOracle Risk Pnl Nonce Submit.

(** ** Profit from transfer logs ([support.rs]) *)

(** The loop; [None] is [?] on an underflow. *)
Fixpoint transfer_loop (executor : Address) (profit_token : option Address) (logs : list Log)
    (net : Z) (matched : bool) : option (Z * bool) :=
  match logs with
  | [] => Some (net, matched)
  | log :: logs =>
      let other_token :=
        match profit_token with Some token => negb (lg_address log =? token) | None => false end in
      if other_token then transfer_loop executor profit_token logs net matched
      else
        match lg_transfer log with
        | None => transfer_loop executor profit_token logs net matched
        | Some (from, to, value) =>
            let is_to := to =? executor in
            let is_from := from =? executor in
            let matched := (matched || is_to || is_from)%bool in
            if (is_to && is_from)%bool then transfer_loop executor profit_token logs net matched
            else if is_to
            then transfer_loop executor profit_token logs (saturating_add net value) matched
            else if is_from then
              let? net := checked_sub net value in
              transfer_loop executor profit_token logs net matched
            else transfer_loop executor profit_token logs net matched
        end
  end.

Definition parse_transfer_profit (logs : list Log) (executor : Address)
    (profit_token : option Address) : option Z :=
  let? r := transfer_loop executor profit_token logs 0 false in
  if r.2 then Some r.1 else None.

(** ** Settling a receipt *)

Inductive ExecutionOutcome :=
| DryRunPassed (gas_used : Z)
| DryRunFailed (reason : string)
| SkippedCircuitBreaker
| SkippedInsufficientBalance
| SkippedQuarantined
| SkippedCooldown
| SkippedNoWallet
| SkippedNoPrivateRpc
| SkippedUnprofitablePreDryRun
| SkippedUnprofitableAfterDryRun
| SkippedShutdown
| Confirmed (tx_hash gas_used profit_wei : Z)
| Reverted (tx_hash gas_used : Z)
| ReceiptTimeout (tx_hash : Z)
| SubmitFailed (reason : string).

(** The parts of the service's state that settling touches. *)
Record Service := {
  sv_risk : ExecutionService;
  sv_books : Books;
  sv_gas : GasOracle;
  sv_last_global_submit : option Z;
  sv_mempool_nonce_cache : option (Z * Z * Z);
}.

Definition with_risk (f : ExecutionService → ExecutionService) (s : Service) : Service :=
  {| sv_risk := f (sv_risk s); sv_books := sv_books s; sv_gas := sv_gas s;
     sv_last_global_submit := sv_last_global_submit s;
     sv_mempool_nonce_cache := sv_mempool_nonce_cache s |}.

Definition with_books (f : Books → Books) (s : Service) : Service :=
  {| sv_risk := sv_risk s; sv_books := f (sv_books s); sv_gas := sv_gas s;
     sv_last_global_submit := sv_last_global_submit s;
     sv_mempool_nonce_cache := sv_mempool_nonce_cache s |}.

Definition with_gas (f : GasOracle → GasOracle) (s : Service) : Service :=
  {| sv_risk := sv_risk s; sv_books := sv_books s; sv_gas := f (sv_gas s);
     sv_last_global_submit := sv_last_global_submit s;
     sv_mempool_nonce_cache := sv_mempool_nonce_cache s |}.

Definition set_last_global_submit (now : Z) (s : Service) : Service :=
  {| sv_risk := sv_risk s; sv_books := sv_books s; sv_gas := sv_gas s;
     sv_last_global_submit := Some now; sv_mempool_nonce_cache := sv_mempool_nonce_cache s |}.

Definition invalidate_mempool_nonce_cache (s : Service) : Service :=
  {| sv_risk := sv_risk s; sv_books := sv_books s; sv_gas := sv_gas s;
     sv_last_global_submit := sv_last_global_submit s; sv_mempool_nonce_cache := None |}.

(** The readings of the clock while settling: for pruning cool-downs, the UTC day, and
    for the global stop. *)
Record Clock := { ck_prune : Z; ck_today : Z; ck_stop : Z }.

(** [u32::try_from(gas).unwrap_or(u32::MAX)] *)
Definition gas_u32 (gas : Z) : Z := Z.min gas u32_max.
Definition u64_sat (n : Z) : Z := Z.min n u64_max.

Definition teach_gas (candidate : CandidateExecution) (gas : Z) (o : GasOracle) : GasOracle :=
  record_route_gas (cd_route_edges candidate) (gas_u32 gas)
    (record_sim_observed (cd_simulated_gas candidate) gas o).

(** The gas cost of a reverted receipt. *)
Definition revert_gas_cost (receipt : ReceiptData) (o : GasOracle) : Z :=
  let priced :=
    let? price := rd_effective_gas_price receipt in checked_mul (rd_gas_used receipt) price in
  match priced with
  | Some cost => cost
  | None =>
      default 0 (let? price := conservative_gas_price o in checked_mul (rd_gas_used receipt) price)
  end.

Section settle.
Context (fp now : Z) (ck : Clock) (tx_hash : Z) (receipt : ReceiptData)
  (candidate : CandidateExecution) (submitted_gas_limit : Z).

Definition settle_revert (s : Service) : ExecutionOutcome * Service :=
  let s := with_risk (quarantine_route (cd_route_edges candidate) fp now Revert (ck_prune ck)) s in
  let gas_cost := revert_gas_cost receipt (sv_gas s) in
  let s := with_books (record_gas_cost_loss gas_cost (ck_today ck) (ck_stop ck)) s in
  let s :=
    if cd_simulated_gas candidate * 105 / 100 <? rd_gas_used receipt then
      let oog_at_limit :=
        ((0 <? submitted_gas_limit)
         && (u64_sat (submitted_gas_limit * 98) / 100 <=? rd_gas_used receipt))%bool in
      let gas :=
        if oog_at_limit then u64_sat (rd_gas_used receipt * 130) / 100
        else u64_sat (rd_gas_used receipt * 110) / 100 in
      with_gas (teach_gas candidate gas) s
    else s in
  (Reverted tx_hash (rd_gas_used receipt), s).

(** The profit is attributed and the gas is priced. *)
Definition settle_attributed (profit_matic_wei gas_cost : Z) (s : Service) : Service :=
  let edges := cd_route_edges candidate in
  let s := with_books (record_realized profit_matic_wei gas_cost (ck_today ck) (ck_stop ck)) s in
  if gas_cost <=? profit_matic_wei then
    let s := with_risk (clear_fail_count edges fp) s in
    if ((gas_cost <? profit_matic_wei) && cd_adaptive_flash_cap_bound candidate)%bool
    then with_risk (λ r, (promote_adaptive_flash_loan_cap edges fp
                            (cd_adaptive_flash_loan_usd_limit candidate) r).2) s
    else s
  else with_risk (quarantine_route edges fp now RealizedLoss (ck_prune ck)) s.

Definition settle_success (s : Service) : ExecutionOutcome * Service :=
  let s := if 0 <? rd_gas_used receipt then with_gas (teach_gas candidate (rd_gas_used receipt)) s else s in
  let parsed_profit :=
    parse_transfer_profit (rd_logs receipt) (cd_target_address candidate)
      (Some (cd_profit_token candidate)) in
  let profit_wei := default 0 parsed_profit in
  let outcome := Confirmed tx_hash (rd_gas_used receipt) profit_wei in
  let unpriced := (outcome, with_risk (quarantine_route (cd_route_edges candidate) fp now RealizedLoss (ck_prune ck)) s) in
  let_some price := rd_effective_gas_price receipt or unpriced in
  let_some gas_cost := checked_mul (rd_gas_used receipt) price or unpriced in
  let profit_matic_wei :=
    let? profit := parsed_profit in
    token_profit_to_matic_wei profit (cd_token_to_matic_rate candidate) (cd_token_decimals candidate) in
  (outcome,
   match profit_matic_wei with
   | Some profit_matic_wei => settle_attributed profit_matic_wei gas_cost s
   | None => with_risk (quarantine_route_soft (cd_route_edges candidate) now (ck_prune ck)) s
   end).

Definition finalize_receipt (nonce : Z) (mgr : NonceManager) (s : Service)
  : ExecutionOutcome * NonceManager * Service :=
  let mgr := confirm nonce mgr in
  let s := with_risk (λ r, set_last_submit (<[cd_route_edges candidate := now]> (es_last_submit r)) r) s in
  let '(outcome, s) := if negb (rd_success receipt) then settle_revert s else settle_success s in
  (outcome, mgr, s).
End settle.

(** ** Waiting for the receipt ([receipt.rs]) *)

Inductive ReceiptPollOutcome :=
| Received (receipt : ReceiptData) | TimedOut | Shutdown | RpcFailure (reason : string).

Inductive Awaited := Settle (receipt : ReceiptData) | Done (outcome : ExecutionOutcome).

Record Processed (P : Type) := {
  pr_outcome : ExecutionOutcome;
  pr_mgr : NonceManager;
  pr_service : Service;
  pr_provider : P;
}.
Arguments Build_Processed {P}.
Arguments pr_outcome {P}.
Arguments pr_mgr {P}.
Arguments pr_service {P}.
Arguments pr_provider {P}.

Definition TRANSFER_ALL_GAS_LIMIT : Z := 150000.

Definition resolve_profit_recipient (configured : option Address) (operator executor : Address)
  : option Address :=
  let recipient := default operator configured in
  if (is_zero recipient || (recipient =? executor))%bool then None else Some recipient.

(** [{ calldata, value: 0, ..candidate }] *)
Definition sweep_candidate (calldata : list Z) (c : CandidateExecution) : CandidateExecution :=
  {| cd_route_fingerprint := cd_route_fingerprint c; cd_route_edges := cd_route_edges c;
     cd_calldata := calldata; cd_target_address := cd_target_address c; cd_value := 0;
     cd_profit_token := cd_profit_token c;
     cd_expected_profit_matic_wei := cd_expected_profit_matic_wei c;
     cd_priority_bid_basis_matic_wei := cd_priority_bid_basis_matic_wei c;
     cd_gas_limit := cd_gas_limit c; cd_simulated_gas := cd_simulated_gas c;
     cd_route_hash := cd_route_hash c; cd_gross_profit := cd_gross_profit c;
     cd_amount_in := cd_amount_in c; cd_token_decimals := cd_token_decimals c;
     cd_token_to_matic_rate := cd_token_to_matic_rate c; cd_slippage_bps := cd_slippage_bps c;
     cd_flash_loan_source := cd_flash_loan_source c;
     cd_min_profit_matic_wei := cd_min_profit_matic_wei c;
     cd_min_profit_roi_bps := cd_min_profit_roi_bps c; cd_hop_count := cd_hop_count c;
     cd_safety_multiplier_bps := cd_safety_multiplier_bps c;
     cd_state_generation := cd_state_generation c; cd_state_block := cd_state_block c;
     cd_state_hash := cd_state_hash c; cd_route_trace := cd_route_trace c;
     cd_adaptive_flash_cap_bound := cd_adaptive_flash_cap_bound c;
     cd_adaptive_flash_loan_usd_limit := cd_adaptive_flash_loan_usd_limit c |}.

Section pipeline.
Context {P : Type}.
Context (submit_transaction : P → TransactionRequest → (Z + string) * P).
Context (pending_nonce : P → (Z + string) * P).
Context (get_transaction_receipt : P → Z → (option ReceiptData + string) * P).
Context (get_transaction_by_hash : P → Z → (bool + string) * P).
(** The clock; the shutdown flag (never set when there is no channel); and sleeping for a
    duration, cut short with [true] when the flag is set meanwhile. *)
Context (instant : P → Z) (shutdown : P → bool) (sleep : P → Z → bool * P).
(** The ABI encoding of [transferAll(token, to)] and the text of a number conversion
    error, from libraries. *)
Context (encode_transfer_all : Address → Address → list Z) (conversion_error : string).
(** The poller's configuration and the sweep's. *)
Context (timeout poll_interval : Z) (profit_recipient : option Address).

(** The loop of [ReceiptPoller::wait]; [None] is out of fuel. *)
Fixpoint wait_loop (fuel : nat) (deadline tx_hash : Z) (p : P) : option (ReceiptPollOutcome * P) :=
  match fuel with
  | O => None
  | S fuel =>
      if shutdown p then Some (Shutdown, p)
      else if deadline <=? instant p then Some (TimedOut, p)
      else
        let '(answer, p) := get_transaction_receipt p tx_hash in
        let again :=
          let remaining := Z.max 0 (deadline - instant p) in
          let delay := Z.min poll_interval remaining in
          let '(woken, p) := sleep p delay in
          if woken then Some (Shutdown, p) else wait_loop fuel deadline tx_hash p in
        match answer with
        | inl (Some receipt) => Some (Received receipt, p)
        | inl None => again
        | inr err => if is_transient_receipt_error err then again else Some (RpcFailure err, p)
        end
  end.

(** One round more than there are nanoseconds until the deadline. *)
Definition wait (p : P) (tx_hash : Z) : option (ReceiptPollOutcome * P) :=
  wait_loop (S (Z.to_nat timeout)) (instant p + timeout) tx_hash p.

(** ** The stages of [process_candidate] *)

Section candidate.
Context (fp now : Z) (ck : Clock) (candidate : CandidateExecution) (operator : Address)
  (fees : SubmitFees) (final_gas : Z).

(** Resynchronize and reserve. *)
Definition reserve_nonce (pending_ahead : bool) (mgr : NonceManager) (p : P)
  : option (NextNonce * NonceManager * P) :=
  let '(mgr, p) :=
    if pending_ahead then
      let '(read, p) := pending_nonce p in ((resync (rpc_ok read) mgr).2, p)
    else if ((stale_count mgr =? 0)%nat && (in_flight_count mgr =? 0)%nat)%bool then (mgr, p)
    else
      let '(read, p) := pending_nonce p in ((resync_if_dirty (rpc_ok read) mgr).2, p) in
  let? r := next_nonce mgr in
  Some (r.1, r.2, p).

(** [Err(e)] of [submit_with_recovery]. *)
Definition submit_failed (e : SubmitError) (nonce : Z) (mgr : NonceManager) (s : Service)
  : ExecutionOutcome * NonceManager * Service :=
  let msg := display conversion_error e in
  let action := classify_submit_error msg in
  let mgr := release_failed_submit_nonce nonce action mgr in
  let s := invalidate_mempool_nonce_cache s in
  let s := with_books (λ b, set_counters (bk_total_trades b) (bk_total_losses b)
                              (wrap_u 32 (bk_consecutive_fails b + 1)) b) s in
  let s :=
    match action with
    | ResyncAndRetry => with_risk (quarantine_route_soft (cd_route_edges candidate) now (ck_prune ck)) s
    | _ => with_risk (quarantine_route (cd_route_edges candidate) fp now Submit (ck_prune ck)) s
    end in
  (SubmitFailed msg, mgr, s).

(** After the time-out of the poller. *)
Definition after_timeout (tx_hash nonce : Z) (mgr : NonceManager) (s : Service) (p : P)
  : Awaited * NonceManager * Service * P :=
  if shutdown p then (Done SkippedShutdown, mark_stale nonce mgr, s, p)
  else
    let '(recovered, mgr, p) :=
      recover_after_receipt_timeout submit_transaction pending_nonce get_transaction_receipt
        get_transaction_by_hash p mgr operator tx_hash nonce fees final_gas in
    let abandon s :=
      (Done (ReceiptTimeout tx_hash), mgr,
       with_risk (quarantine_route (cd_route_edges candidate) fp now Timeout (ck_prune ck)) s, p) in
    match recovered with
    | Mined receipt => (Settle receipt, mgr, s, p)
    | Cancelled _ =>
        let cancel_fees := bump_fees fees FEE_BUMP_BPS in
        let cancel_cost := saturating_mul 21000 (sf_max_fee_per_gas cancel_fees) in
        abandon (with_books (record_gas_cost_loss cancel_cost (ck_today ck) (ck_stop ck)) s)
    | Dropped | StillPending => abandon s
    end.

(** From a submitted transaction to its receipt or a final outcome. *)
Definition await_receipt (tx_hash nonce : Z) (mgr : NonceManager) (s : Service) (p : P)
  : option (Awaited * NonceManager * Service * P) :=
  let? r := wait p tx_hash in
  let '(polled, p) := r in
  Some (match polled with
        | Received receipt => (Settle receipt, mgr, s, p)
        | Shutdown => (Done SkippedShutdown, mark_stale nonce mgr, s, p)
        | RpcFailure reason =>
            (Done (SubmitFailed ("receipt RPC failed; transaction fate unknown: " +:+ reason)),
             mark_stale nonce mgr,
             with_risk (quarantine_route_soft (cd_route_edges candidate) now (ck_prune ck)) s, p)
        | TimedOut => after_timeout tx_hash nonce mgr s p
        end).

(** [sweep_profit_to_recipient]; the boolean is [is_ok()]. *)
Definition sweep_profit_to_recipient (gas_oracle : GasOracle) (mgr : NonceManager) (p : P)
  : option (bool * NonceManager * P) :=
  match resolve_profit_recipient profit_recipient operator (cd_target_address candidate) with
  | None => Some (true, mgr, p)
  | Some recipient =>
      let sweep := sweep_candidate (encode_transfer_all (cd_profit_token candidate) recipient) candidate in
      match resolve_submit_fees gas_oracle with
      | None => Some (false, mgr, p)
      | Some fees =>
          let? reserved := next_nonce mgr in
          match reserved with
          | (NotInitialized, mgr) => Some (false, mgr, p)
          | (Reserved nonce, mgr) =>
              let? sent := submit_with_recovery submit_transaction pending_nonce p mgr sweep nonce fees
                             TRANSFER_ALL_GAS_LIMIT in
              let nonce := sb_nonce sent in
              let mgr := sb_mgr sent in
              match sb_result sent with
              | inr _ => Some (false, release nonce mgr, sb_provider sent)
              | inl tx_hash =>
                  let? r := wait (sb_provider sent) tx_hash in
                  let '(polled, p) := r in
                  Some (match polled with
                        | Received receipt => (rd_success receipt, confirm nonce mgr, p)
                        | Shutdown => (false, release nonce mgr, p)
                        | RpcFailure _ | TimedOut => (false, mark_stale nonce mgr, p)
                        end)
              end
          end
      end
  end.

Definition finalize_receipt_and_maybe_sweep (tx_hash : Z) (receipt : ReceiptData) (nonce : Z)
    (mgr : NonceManager) (s : Service) (p : P) : option (Processed P) :=
  let '(outcome, mgr, s) := finalize_receipt fp now ck tx_hash receipt candidate final_gas nonce mgr s in
  let kept := Some {| pr_outcome := outcome; pr_mgr := mgr; pr_service := s; pr_provider := p |} in
  match outcome with
  | Confirmed _ _ profit_wei =>
      if is_zero profit_wei then kept
      else
        let? swept := sweep_profit_to_recipient (sv_gas s) mgr p in
        Some {| pr_outcome := outcome; pr_mgr := swept.1.2;
                pr_service := invalidate_mempool_nonce_cache s; pr_provider := swept.2 |}
  | _ => kept
  end.

(** The end of [process_candidate], from the nonce on; [private_error] is the error of
    [build_private_config]. *)
Definition submit_and_settle (pending_ahead : bool) (private_error : option string)
    (mgr : NonceManager) (s : Service) (p : P) : option (Processed P) :=
  let finish outcome mgr s p :=
    Some {| pr_outcome := outcome; pr_mgr := mgr; pr_service := s; pr_provider := p |} in
  let? reserved := reserve_nonce pending_ahead mgr p in
  match reserved with
  | (NotInitialized, mgr, p) =>
      finish (SubmitFailed (display conversion_error NonceNotInitialized)) mgr s p
  | (Reserved nonce, mgr, p) =>
      match private_error with
      | Some e => finish (SubmitFailed ("private submit requires chain_id: " +:+ e)) (release nonce mgr) s p
      | None =>
          let? sent := submit_with_recovery submit_transaction pending_nonce p mgr candidate nonce fees
                         final_gas in
          let nonce := sb_nonce sent in
          match sb_result sent with
          | inr e =>
              let '(outcome, mgr, s) := submit_failed e nonce (sb_mgr sent) s in
              finish outcome mgr s (sb_provider sent)
          | inl tx_hash =>
              let s := invalidate_mempool_nonce_cache (set_last_global_submit now s) in
              let? awaited := await_receipt tx_hash nonce (sb_mgr sent) s (sb_provider sent) in
              match awaited with
              | (Done outcome, mgr, s, p) => finish outcome mgr s p
              | (Settle receipt, mgr, s, p) =>
                  finalize_receipt_and_maybe_sweep tx_hash receipt nonce mgr s p
              end
          end
      end
  end.
End candidate.
End pipeline.

(** ** What a receipt pays *)

(** The transfers of the profit token to and from the executor; a transfer to itself
    moves nothing. *)
Definition flow (executor : Address) (profit_token : option Address) (log : Log) : option (Z * Z) :=
  if match profit_token with Some token => negb (lg_address log =? token) | None => false end then None
  else
    let? t := lg_transfer log in
    let '(from, to, value) := t in
    if (to =? executor) && (from =? executor) then Some (0, 0)
    else if to =? executor then Some (value, 0)
    else if from =? executor then Some (0, value) else None.

Definition flows executor profit_token (logs : list Log) : list (Z * Z) :=
  omap (flow executor profit_token) logs.

Definition inflow (l : list (Z * Z)) : Z := foldr (λ f acc, f.1 + acc) 0 l.
Definition outflow (l : list (Z * Z)) : Z := foldr (λ f acc, f.2 + acc) 0 l.

(** At no point has more gone out than come in. *)
Definition covered (l : list (Z * Z)) : Prop :=
  ∀ k, outflow (take k l) ≤ inflow (take k l).

Lemma covered_cons a b net l :
  (∀ k, outflow (take k ((a, b) :: l)) ≤ net + inflow (take k ((a, b) :: l))) ↔
  0 ≤ net ∧ (∀ k, outflow (take k l) ≤ net + a - b + inflow (take k l)).
Proof.
  split.
  - intros H. split; [specialize (H O); cbn in H; lia|]. intros k. specialize (H (S k)). unfold inflow, outflow in *.
    cbn in H. lia.
  - intros [H0 H] [|k]; [cbn; lia|]. specialize (H k). unfold inflow, outflow in *. cbn. lia.
Qed.

Lemma transfer_loop_spec executor token logs : ∀ net matched v m,
  0 ≤ net →
  Forall (λ f, 0 ≤ f.1 ∧ 0 ≤ f.2) (flows executor token logs) →
  net + inflow (flows executor token logs) < M256 →
  transfer_loop executor token logs net matched = Some (v, m) ↔
  (∀ k, outflow (take k (flows executor token logs)) ≤ net + inflow (take k (flows executor token logs))) ∧
  v = net + inflow (flows executor token logs) - outflow (flows executor token logs) ∧
  m = (matched || negb (bool_decide (flows executor token logs = [])))%bool.
Proof.
  induction logs as [|log logs IH]; intros net matched v m Hnet Hpos Hfit.
  { cbn. split.
    - intros [= <- <-]. split; [intros [|k]; cbn; lia|]. split; [lia|]. by rewrite orb_false_r.
    - intros (_ & -> & ->). do 2 f_equal; [lia|]. by rewrite orb_false_r. }
  cbn [transfer_loop]. unfold flows in *. cbn [omap list_omap] in *.
  assert (flow executor token log = None →
    transfer_loop executor token (log :: logs) net matched = transfer_loop executor token logs net matched) as Hskip.
  { unfold flow. cbn [transfer_loop]. destruct (match token with Some _ => _ | None => _ end); [done|].
    destruct (lg_transfer log) as [[[from to] value]|]; cbn [obind]; [|done].
    destruct (to =? executor), (from =? executor); cbn [andb orb]; try done. by rewrite !orb_false_r. }
  cbn [transfer_loop] in Hskip.
  destruct (flow executor token log) as [[a b]|] eqn:Ef.
  2:{ rewrite Hskip by done. by apply IH. }
  clear Hskip. unfold flow in Ef.
  destruct (match token with Some _ => _ | None => _ end); [done|].
  destruct (lg_transfer log) as [[[from to] value]|]; cbn [obind] in Ef; [|done].
  apply Forall_cons in Hpos as [[Ha Hb] Hpos]. cbn [fst snd] in Ha, Hb.
  assert (0 ≤ inflow (omap (flow executor token) logs)) as Hin.
  { clear -Hpos. induction Hpos as [|? ? [? ?] _ IH]; unfold inflow in *; cbn [foldr]; lia. }
  change (inflow ((a, b) :: omap (flow executor token) logs)) with
    (a + inflow (omap (flow executor token) logs)) in *.
  change (outflow ((a, b) :: omap (flow executor token) logs)) with
    (b + outflow (omap (flow executor token) logs)) in *.
  rewrite bool_decide_eq_false_2 by done. cbn [negb]. rewrite orb_true_r.
  rewrite covered_cons.
  assert (∀ net', 0 ≤ net' → net' = net + a - b →
    transfer_loop executor token logs net' true = Some (v, m) ↔
    (0 ≤ net ∧ ∀ k, outflow (take k (omap (flow executor token) logs)) ≤
       net + a - b + inflow (take k (omap (flow executor token) logs))) ∧
    v = net + (a + inflow (omap (flow executor token) logs)) - (b + outflow (omap (flow executor token) logs)) ∧
    m = true) as Hgo.
  { intros net' Hn' ->. rewrite IH; [|lia|done|lia]. cbn [orb]. intuition lia. }
  destruct (to =? executor), (from =? executor); cbn [andb orb] in *; try done; injection Ef as <- <-;
    rewrite ?orb_true_r.
  - apply Hgo; lia.
  - unfold saturating_add. rewrite Z.min_l by (unfold U256_MAX, M256 in *; lia). apply Hgo; lia.
  - unfold checked_sub. destruct (Z.leb_spec value net); cbn [obind].
    + apply Hgo; lia.
    + split; [done|]. intros [[_ Hk] _]. specialize (Hk O). rewrite !take_0 in Hk. cbn in Hk. lia.
Qed.

(** The profit read off a receipt is what the executor gained: with the transfers of the
    profit token to and from the executor, in the order of the logs, it is the inflow
    minus the outflow, and it is missing exactly when there is no such transfer or when at
    some point more has gone out than come in. *)
Theorem parse_transfer_profit_iff (logs : list Log) (executor : Address) (token : option Address) (v : Z) :
  Forall (λ f, 0 ≤ f.1 ∧ 0 ≤ f.2) (flows executor token logs) →
  inflow (flows executor token logs) < M256 →
  parse_transfer_profit logs executor token = Some v ↔
  flows executor token logs ≠ [] ∧ covered (flows executor token logs) ∧
  v = inflow (flows executor token logs) - outflow (flows executor token logs).
Proof.
  intros Hpos Hfit. unfold parse_transfer_profit.
  pose proof (λ v m, transfer_loop_spec executor token logs 0 false v m ltac:(lia) Hpos Hfit) as Hs.
  destruct (transfer_loop executor token logs 0 false) as [[w m]|] eqn:E.
  - destruct (proj1 (Hs w m) eq_refl) as (Hc & Hw & Hm). cbn [fst snd orb] in *.
    destruct (decide (flows executor token logs = [])) as [En|En].
    + rewrite bool_decide_eq_true_2 in Hm by done. subst m. split; [done|]. by intros [].
    + rewrite bool_decide_eq_false_2 in Hm by done. subst m. cbn [negb]. split.
      * intros [= <-]. split; [done|]. split; [exact Hc|lia].
      * intros (_ & _ & ->). f_equal. lia.
  - split; [done|]. intros (_ & Hc & Hv).
    specialize (Hs v (negb (bool_decide (flows executor token logs = [])))). cbn [orb] in Hs.
    apply proj2 in Hs. enough (None = Some (v, negb (bool_decide (flows executor token logs = [])))) by done.
    apply Hs. split; [exact Hc|]. split; [lia|done].
Qed.

(** ** What settling books *)

(** The realized trade that a receipt stands for: profit and gas cost in MATIC wei. *)
Definition realized (receipt : ReceiptData) (candidate : CandidateExecution) (o : GasOracle)
  : option (Z * Z) :=
  if rd_success receipt then
    let? price := rd_effective_gas_price receipt in
    let? gas_cost := checked_mul (rd_gas_used receipt) price in
    let? profit := parse_transfer_profit (rd_logs receipt) (cd_target_address candidate)
                     (Some (cd_profit_token candidate)) in
    let? matic := token_profit_to_matic_wei profit (cd_token_to_matic_rate candidate)
                    (cd_token_decimals candidate) in
    Some (matic, gas_cost)
  else if is_zero (revert_gas_cost receipt o) then None
  else Some (0, revert_gas_cost receipt o).

Lemma finalize_receipt_books fp now ck hash receipt candidate limit nonce mgr s outcome mgr' s' :
  finalize_receipt fp now ck hash receipt candidate limit nonce mgr s = (outcome, mgr', s') →
  sv_books s' = match realized receipt candidate (sv_gas s) with
                | Some (profit, gas) => record_realized profit gas (ck_today ck) (ck_stop ck) (sv_books s)
                | None => sv_books s
                end.
Proof.
  unfold finalize_receipt, realized. destruct (rd_success receipt); cbn [negb].
  - unfold settle_success. cbv zeta.
    set (s1 := if 0 <? rd_gas_used receipt then _ else _).
    assert (sv_books s1 = sv_books s) as Hb by (subst s1; by destruct (0 <? _)).
    destruct (rd_effective_gas_price receipt) as [price|]; [|intros [= _ _ <-]; exact Hb].
    destruct (checked_mul (rd_gas_used receipt) price) as [cost|]; [|intros [= _ _ <-]; exact Hb].
    destruct (parse_transfer_profit _ _ _) as [profit|]; [|intros [= _ _ <-]; exact Hb].
    destruct (token_profit_to_matic_wei _ _ _) as [matic|]; [|intros [= _ _ <-]; exact Hb].
    intros [= _ _ <-]. unfold settle_attributed. cbv zeta. rewrite <- Hb.
    destruct (cost <=? matic); [destruct (_ && _)%bool|]; done.
  - unfold settle_revert. cbv zeta.
    intros H.
    assert (sv_books s' = record_gas_cost_loss (revert_gas_cost receipt (sv_gas s)) (ck_today ck) (ck_stop ck)
      (sv_books s)) as ->.
    { destruct (_ <? _) in H; injection H as _ _ <-; done. }
    unfold record_gas_cost_loss. by destruct (is_zero _).
Qed.

(** Settling a receipt books the trade exactly once.  A confirmed trade whose gas is
    priced and whose profit is attributed moves the running total by profit minus gas; a
    reverted one by its gas cost; one that cannot be attributed moves nothing. *)
Theorem settled_receipt_moves_total (fp now : Z) (ck : Clock) (hash limit nonce : Z) (receipt : ReceiptData)
    (candidate : CandidateExecution) (mgr : NonceManager) (s : Service) :
  (∀ profit gas, realized receipt candidate (sv_gas s) = Some (profit, gas) →
     0 ≤ profit < 2 ^ 120 ∧ 0 ≤ gas < 2 ^ 120) →
  Z.abs (pl_total (bk_pnl (sv_books s))) < 2 ^ 120 → Z.abs (pl_daily (bk_pnl (sv_books s))) < 2 ^ 120 →
  let '(outcome, mgr', s') := finalize_receipt fp now ck hash receipt candidate limit nonce mgr s in
  pl_total (bk_pnl (sv_books s')) =
    pl_total (bk_pnl (sv_books s)) +
    match realized receipt candidate (sv_gas s) with Some (profit, gas) => profit - gas | None => 0 end.
Proof.
  intros Hr Ht Hd.
  destruct (finalize_receipt fp now ck hash receipt candidate limit nonce mgr s) as [[outcome mgr'] s'] eqn:E.
  apply finalize_receipt_books in E. rewrite E.
  destruct (realized receipt candidate (sv_gas s)) as [[profit gas]|]; [|lia].
  destruct (Hr profit gas eq_refl). rewrite record_realized_pnl by lia. done.
Qed.

(** ** Waiting ends *)

Section waiting.
Context {P : Type}.
Context (get_transaction_receipt : P → Z → (option ReceiptData + string) * P).
Context (instant : P → Z) (shutdown : P → bool) (sleep : P → Z → bool * P).
Context (timeout poll_interval : Z).
(** Time does not go back, and sleeping takes at least a nanosecond. *)
Context (asking_takes_time : ∀ p h, instant p ≤ instant (get_transaction_receipt p h).2).
Context (sleeping_takes_time : ∀ p d, instant p < instant (sleep p d).2).

Local Abbreviation wait_loop :=
  (wait_loop get_transaction_receipt instant shutdown sleep poll_interval) (only parsing).
Local Abbreviation wait :=
  (wait get_transaction_receipt instant shutdown sleep timeout poll_interval) (only parsing).

(** What an outcome of the poller says. *)
Definition poll_meaning (deadline tx_hash : Z) (polled : ReceiptPollOutcome) (p : P) : Prop :=
  match polled with
  | Received receipt => ∃ p0, get_transaction_receipt p0 tx_hash = (inl (Some receipt), p)
  | TimedOut => deadline ≤ instant p
  | Shutdown => shutdown p = true ∨ ∃ p0 d, sleep p0 d = (true, p)
  | RpcFailure err =>
      (∃ p0, get_transaction_receipt p0 tx_hash = (inr err, p)) ∧ is_transient_receipt_error err = false
  end.

Lemma wait_loop_returns deadline tx_hash : ∀ fuel p,
  (0 < fuel)%nat → deadline - instant p < Z.of_nat fuel →
  ∃ polled p', wait_loop fuel deadline tx_hash p = Some (polled, p') ∧
    poll_meaning deadline tx_hash polled p'.
Proof using asking_takes_time sleeping_takes_time.
  induction fuel as [|fuel IH]; [lia|]. intros p _ Hf. cbn [Settle.wait_loop].
  destruct (shutdown p) eqn:Esd; [eexists _, _; split; [done|by left]|].
  destruct (Z.leb_spec deadline (instant p)); [eexists _, _; by split|].
  pose proof (asking_takes_time p tx_hash) as Ha.
  destruct (get_transaction_receipt p tx_hash) as [answer p1] eqn:Eg. cbn [snd] in Ha. cbv zeta.
  assert (∃ polled p', (let '(woken, p) := sleep p1 (Z.min poll_interval (Z.max 0 (deadline - instant p1))) in
    if woken then Some (Shutdown, p) else wait_loop fuel deadline tx_hash p) = Some (polled, p') ∧
    poll_meaning deadline tx_hash polled p') as Hagain.
  { set (d := Z.min _ _). pose proof (sleeping_takes_time p1 d) as Hs.
    destruct (sleep p1 d) as [[] p2] eqn:Es; [eexists _, _; split; [done|right; by exists p1, d]|].
    cbn [snd] in Hs. apply IH; lia. }
  destruct answer as [[receipt|]|err]; [|exact Hagain|].
  - eexists _, _. split; [done|]. by exists p.
  - destruct (is_transient_receipt_error err) eqn:Et; [exact Hagain|].
    eexists _, _. split; [done|]. split; [by exists p|done].
Qed.

(** Waiting for a receipt ends: after at most one round per nanosecond of the timeout
    the poller returns the network's receipt, a lasting error of the network, a shutdown,
    or, at the deadline and not before, a timeout.  Errors that pass are polled through. *)
Theorem wait_returns (p : P) (tx_hash : Z) :
  0 ≤ timeout →
  ∃ polled p', wait p tx_hash = Some (polled, p') ∧ poll_meaning (instant p + timeout) tx_hash polled p'.
Proof using asking_takes_time sleeping_takes_time. intros Ht. apply wait_loop_returns; lia. Qed.

End waiting.

(** ** What a sent transaction was *)

(** The hash of a transaction that the network accepted. *)
Definition sent_hash (outcome : ExecutionOutcome) : option Z :=
  match outcome with
  | Confirmed hash _ _ | Reverted hash _ | ReceiptTimeout hash => Some hash
  | _ => None
  end.

Section sent.
Context {P : Type}.
Context (submit_transaction : P → TransactionRequest → (Z + string) * P).
Context (pending_nonce : P → (Z + string) * P).
Context (get_transaction_receipt : P → Z → (option ReceiptData + string) * P).
Context (get_transaction_by_hash : P → Z → (bool + string) * P).
Context (instant : P → Z) (shutdown : P → bool) (sleep : P → Z → bool * P).
Context (encode_transfer_all : Address → Address → list Z) (conversion_error : string).
Context (timeout poll_interval : Z) (profit_recipient : option Address).
Context (fp now : Z) (ck : Clock) (candidate : CandidateExecution) (operator : Address)
  (fees : SubmitFees) (final_gas : Z).

Lemma await_receipt_hash hash nonce mgr s p outcome mgr' s' p' :
  await_receipt submit_transaction pending_nonce get_transaction_receipt get_transaction_by_hash
    instant shutdown sleep timeout poll_interval fp now ck candidate operator fees final_gas hash nonce mgr s p
    = Some (Done outcome, mgr', s', p') →
  ∀ h, sent_hash outcome = Some h → h = hash.
Proof.
  unfold await_receipt, after_timeout. destruct (wait _ _ _ _ _ _ _ _) as [[polled p1]|]; [|done].
  repeat case_match; intros [= <- <- <- <-] h; cbn; congruence.
Qed.

Lemma finalize_receipt_hash hash receipt limit nonce mgr s :
  sent_hash (finalize_receipt fp now ck hash receipt candidate limit nonce mgr s).1.1 = Some hash.
Proof.
  unfold finalize_receipt, settle_revert, settle_success. cbv zeta. destruct (negb _); [done|].
  destruct (rd_effective_gas_price receipt) as [price|]; [|done].
  by destruct (checked_mul (rd_gas_used receipt) price).
Qed.

(** A hash in the outcome was given for the candidate's own transaction, at these fees and
    this gas limit. *)
Lemma submit_and_settle_sent pending_ahead private_error mgr s p r hash :
  submit_and_settle submit_transaction pending_nonce get_transaction_receipt get_transaction_by_hash
    instant shutdown sleep encode_transfer_all conversion_error timeout poll_interval profit_recipient
    fp now ck candidate operator fees final_gas pending_ahead private_error mgr s p = Some r →
  sent_hash (pr_outcome r) = Some hash →
  submitted_for submit_transaction candidate fees final_gas (Z.to_nat MAX_SUBMIT_ATTEMPTS) hash.
Proof.
  unfold submit_and_settle. destruct (reserve_nonce _ _ _ _) as [[[[|n] m1] p1]|]; [by intros [= <-]| |done].
  destruct private_error; [by intros [= <-]|].
  destruct (submit_with_recovery _ _ _ _ _ _ _ _) as [sent|] eqn:Es; [|done].
  destruct (sb_result sent) as [h|e] eqn:Er; [|by intros [= <-]].
  pose proof (submit_with_recovery_for _ _ _ _ _ _ _ _ _ _ Es Er) as Hfor.
  destruct (await_receipt _ _ _ _ _ _ _ _ _ _ _ _ _ _ _ _ _ _ _ _ _) as [[[[awaited m] s'] p2]|] eqn:Ea; [|done].
  destruct awaited as [receipt|o].
  - unfold finalize_receipt_and_maybe_sweep.
    pose proof (finalize_receipt_hash h receipt final_gas (sb_nonce sent) m s') as Hh.
    destruct (finalize_receipt _ _ _ _ _ _ _ _ _ _) as [[o m2] s2]. cbn [fst] in Hh.
    intros Hr. assert (pr_outcome r = o) as -> by (revert Hr; repeat case_match; by intros [= <-]).
    rewrite Hh. by intros [= <-].
  - intros [= <-]. cbn. intros Ho. by rewrite (await_receipt_hash _ _ _ _ _ _ _ _ _ Ea _ Ho).
Qed.
End sent.

(** ** A submitted nonce stays held *)

Section holding.
Context {P : Type}.
Context (submit_transaction : P → TransactionRequest → (Z + string) * P).
Context (pending_nonce : P → (Z + string) * P).
Context (get_transaction_receipt : P → Z → (option ReceiptData + string) * P).
Context (get_transaction_by_hash : P → Z → (bool + string) * P).
Context (instant : P → Z) (shutdown : P → bool) (sleep : P → Z → bool * P).
Context (timeout poll_interval : Z).
Context (fp now : Z) (ck : Clock) (candidate : CandidateExecution) (operator : Address)
  (fees : SubmitFees) (final_gas : Z).

Local Abbreviation await_receipt :=
  (await_receipt submit_transaction pending_nonce get_transaction_receipt get_transaction_by_hash
     instant shutdown sleep timeout poll_interval fp now ck candidate operator fees final_gas) (only parsing).

(** The manager does not hand out [n] next. *)
Definition held (n : Z) (mgr : NonceManager) : Prop :=
  ∀ m mgr', next_nonce mgr = Some (Reserved m, mgr') → m ≠ n.

Lemma reserved_held n mgr :
  n ∈ ns_in_flight (nm_state mgr) ∪ ns_stale (nm_state mgr) → held n mgr.
Proof.
  intros Hn m mgr' [[? _]|(k & [= <-] & ? & ? & _)]%next_nonce_Some; [done|]. intros ->. set_solver.
Qed.

Lemma mark_stale_next n mgr : held n (mark_stale n mgr).
Proof. apply reserved_held. unfold mark_stale. cbn. set_solver. Qed.

(** The node does not know the transaction: asked after the time-out, from the state [q], it
    has no receipt and denies having seen the hash, and the manager starts again, with
    nothing reserved, at the pending nonce that the node gives then. *)
Definition follows_node (q : P) (hash : Z) (mgr' : NonceManager) (p' : P) : Prop :=
  ∃ answer q1 q2 n,
    get_transaction_receipt q hash = (answer, q1) ∧ (∀ r, answer ≠ inl (Some r)) ∧
    get_transaction_by_hash q1 hash = (inl false, q2) ∧ pending_nonce q2 = (inl n, p') ∧
    nm_state mgr' = {| ns_local_nonce := n; ns_in_flight := ∅; ns_min_in_flight := None; ns_stale := ∅ |} ∧
    ∃ mgr'', next_nonce mgr' = Some (Reserved n, mgr'').

Lemma recover_held p mgr hash nonce out mgr' p' :
  nonce ∈ ns_in_flight (nm_state mgr) →
  recover_after_receipt_timeout submit_transaction pending_nonce get_transaction_receipt
    get_transaction_by_hash p mgr operator hash nonce fees final_gas = (out, mgr', p') →
  (nonce ∈ ns_in_flight (nm_state mgr') ∪ ns_stale (nm_state mgr')) ∨
  out = Dropped ∧ follows_node p hash mgr' p'.
Proof.
  intros Hn. unfold recover_after_receipt_timeout, follows_node.
  assert (nonce ∈ ns_in_flight (nm_state mgr) ∪ ns_stale (nm_state mgr)) as H1 by set_solver.
  assert (∀ m, nonce ∈ ns_in_flight (nm_state (mark_stale nonce m)) ∪ ns_stale (nm_state (mark_stale nonce m)))
    as H2 by (intros; unfold mark_stale; cbn; set_solver).
  destruct (get_transaction_receipt p hash) as [[[r|]|e] p1] eqn:Er;
    [intros [= <- <- <-]; by left|..];
    (destruct (get_transaction_by_hash p1 hash) as [[[]|m] p2] eqn:Eh;
     [destruct (submit_transaction p2 _) as [[] ?]; intros [= <- <- <-]; by left| |
      intros [= <- <- <-]; by left];
     destruct (pending_nonce p2) as [[n|m] p3] eqn:Ep; cbn [rpc_ok resync initialize];
       intros [= <- <- <-]; [|left; apply H2];
     right; split; [done|]; eexists _, p1, p2, n; split_and!; try done; eexists; apply (next_nonce_after_resync n)).
Qed.

(** C34: A submitted nonce stays held.  However waiting for the receipt ends - received,
    timed out and recovered, cancelled, shut down, network errors - the nonce is still in
    flight or stale, so the next reservation is another one.  The one exception: the wait
    timed out and the node, asked then, has no receipt and says that it does not know the
    transaction; the outcome is the time-out, and the manager has nothing in flight nor
    stale any more and hands out next the pending nonce the node gave in that recovery. *)
Theorem submitted_nonce_stays_held (hash nonce : Z) (mgr mgr' : NonceManager) (s s' : Service) (p p' : P)
    (awaited : Awaited) :
  nonce ∈ ns_in_flight (nm_state mgr) →
  await_receipt hash nonce mgr s p = Some (awaited, mgr', s', p') →
  (nonce ∈ ns_in_flight (nm_state mgr') ∪ ns_stale (nm_state mgr') ∧ held nonce mgr') ∨
  (awaited = Done (ReceiptTimeout hash) ∧
   ∃ q, wait get_transaction_receipt instant shutdown sleep timeout poll_interval p hash = Some (TimedOut, q) ∧
     follows_node q hash mgr' p').
Proof.
  intros Hn. unfold Settle.await_receipt.
  destruct (Settle.wait _ _ _ _ _ _ p hash) as [[polled p1]|]; [|done]. intros [= H].
  enough (nonce ∈ ns_in_flight (nm_state mgr') ∪ ns_stale (nm_state mgr') ∨
    (awaited = Done (ReceiptTimeout hash) ∧ polled = TimedOut ∧ follows_node p1 hash mgr' p'))
    as [?|(? & -> & ?)] by (left; split; [done|by apply reserved_held]) || (right; split; [done|by exists p1]).
  assert (∀ m, nonce ∈ ns_in_flight (nm_state (mark_stale nonce m)) ∪ ns_stale (nm_state (mark_stale nonce m)))
    as Hst by (intros; unfold mark_stale; cbn; set_solver).
  destruct polled; [injection H as <- <- <- <-; left; set_solver|..|injection H as <- <- <- <-; by left|
    injection H as <- <- <- <-; by left].
  unfold after_timeout in H. destruct (shutdown p1); [injection H as <- <- <- <-; by left|].
  destruct (recover_after_receipt_timeout _ _ _ _ _ _ _ _ _ _ _) as [[out m] p2] eqn:Er.
  apply recover_held in Er; [|done].
  destruct out; injection H as <- <- <- <-;
    (destruct Er as [?|[? ?]]; [by left|try done; by right]).
Qed.
End holding.

(** ** Every candidate gets an outcome *)

(** The nonces of a manager leave room for more. *)
Definition roomy (k : Z) (mgr : NonceManager) : Prop :=
  nm_initialized mgr = true ∧ state_ok (nm_state mgr) ∧ 0 ≤ ns_local_nonce (nm_state mgr) ≤ 2 ^ 63 + k ∧
  ∀ m, m ∈ ns_in_flight (nm_state mgr) ∪ ns_stale (nm_state mgr) → 0 ≤ m < 2 ^ 63 + k.

Lemma roomy_next k mgr :
  roomy k mgr → k < 1000 →
  ∃ n mgr', next_nonce mgr = Some (Reserved n, mgr') ∧ roomy (k + 1) mgr' ∧ n ∈ ns_in_flight (nm_state mgr').
Proof.
  intros (Hi & Hok & Hl & Hb) Hk. destruct (Hok) as [Hmin _].
  assert (0 ≤ first_nonce (nm_state mgr) ≤ 2 ^ 63 + k) as Hf.
  { unfold first_nonce. destruct (ns_min_in_flight (nm_state mgr)) as [m|]; [|lia].
    cbn in Hmin. destruct Hmin as [Hm _]. specialize (Hb m ltac:(set_solver)). lia. }
  destruct (next_available_total (nm_state mgr) (2 ^ 63 + k)) as (n & Hn & Hge & Hbusy);
    [lia|intros m Hm; by apply Hb|lia|].
  assert (n ≤ 2 ^ 63 + k) as Hle.
  { destruct (Z.le_gt_cases n (2 ^ 63 + k)) as [|Hgt]; [done|].
    specialize (Hb _ (Hbusy (2 ^ 63 + k) ltac:(lia))). lia. }
  assert (next_nonce mgr = Some (Reserved n, with_state mgr (insert_in_flight n (nm_state mgr)))) as E
    by (unfold next_nonce; by rewrite Hi, Hn).
  unfold next_available in Hn. apply next_free_spec, is_free_spec in Hn as [Hnf Hns].
  destruct (insert_in_flight_ok n _ Hok Hns) as (Hok' & Hfl & Hst).
  eexists n, _. split; [exact E|]. cbn [nm_state with_state]. split; [|rewrite Hfl; set_solver].
  split; [done|]. split; [done|]. cbn [nm_state with_state]. split.
  - unfold insert_in_flight. case_bool_decide; cbn; lia.
  - intros m Hm. rewrite Hfl, Hst in Hm.
    assert (m = n ∨ m ∈ ns_in_flight (nm_state mgr) ∪ ns_stale (nm_state mgr)) as [->|Hm'] by set_solver;
      [lia|specialize (Hb m Hm'); lia].
Qed.

Lemma remove_in_flight_local n s : ns_local_nonce (remove_in_flight n s) = ns_local_nonce s.
Proof. unfold remove_in_flight. by destruct (negb _). Qed.

Lemma roomy_release k n mgr : roomy k mgr → roomy k (release n mgr).
Proof.
  intros (Hi & Hok & Hl & Hb). destruct (remove_in_flight_ok n _ Hok) as (Hok' & Hfl & Hst & Hlo).
  split; [done|]. split; [done|]. cbn [nm_state release with_state]. rewrite Hlo, Hfl, Hst.
  split; [done|]. intros m Hm. apply Hb. set_solver.
Qed.

Lemma roomy_mark_stale k n mgr :
  roomy k mgr → 0 ≤ n < 2 ^ 63 + k → roomy k (mark_stale n mgr).
Proof.
  intros (Hi & Hok & Hl & Hb) Hn. split; [done|]. split; [by apply (nonce_step_ok mgr); [|constructor]|].
  destruct (remove_in_flight_ok n _ Hok) as (_ & Hfl & Hst & Hlo).
  unfold mark_stale. cbn. rewrite Hlo, Hfl, Hst. split; [done|].
  intros m Hm. destruct (decide (m = n)) as [->|]; [lia|]. apply Hb. set_solver.
Qed.

Lemma roomy_nonce k n mgr :
  roomy k mgr → n ∈ ns_in_flight (nm_state mgr) → 0 ≤ n < 2 ^ 63 + k.
Proof. intros (_ & _ & _ & Hb) Hn. apply Hb. set_solver. Qed.

Lemma roomy_confirm k n mgr :
  roomy k mgr → 0 ≤ n < 2 ^ 63 + k → k < 1000 → roomy k (confirm n mgr).
Proof.
  intros (Hi & Hok & Hl & Hb) Hn Hk. split; [done|]. split; [by apply (nonce_step_ok mgr); [|constructor]|].
  destruct (remove_in_flight_ok n _ Hok) as (_ & Hfl & Hst & Hlo).
  unfold confirm. cbn. rewrite Hlo, Hfl, Hst.
  unfold next_u64, wrap_u. rewrite Z.mod_small by lia. split; [lia|].
  intros m Hm. apply Hb. apply elem_of_union in Hm as [?|[_ ?]%elem_of_filter]; set_solver.
Qed.

Lemma roomy_resync n k mgr : 0 ≤ n ≤ 2 ^ 63 → 0 ≤ k → roomy k (resync (Some n) mgr).2.
Proof.
  intros Hn Hk. split; [done|]. split; [split; cbn; [done|set_solver]|]. cbn. split; [lia|set_solver].
Qed.

Lemma roomy_mono k k' mgr : roomy k mgr → k ≤ k' → roomy k' mgr.
Proof.
  intros (Hi & Hok & Hl & Hb) Hk. split; [done|]. split; [done|]. split; [lia|].
  intros m Hm. specialize (Hb m Hm). lia.
Qed.

Section outcome.
Context {P : Type}.
Context (submit_transaction : P → TransactionRequest → (Z + string) * P).
Context (pending_nonce : P → (Z + string) * P).
Context (get_transaction_receipt : P → Z → (option ReceiptData + string) * P).
Context (get_transaction_by_hash : P → Z → (bool + string) * P).
Context (instant : P → Z) (shutdown : P → bool) (sleep : P → Z → bool * P).
Context (timeout poll_interval : Z).
Context (asking_takes_time : ∀ p h, instant p ≤ instant (get_transaction_receipt p h).2).
Context (sleeping_takes_time : ∀ p d, instant p < instant (sleep p d).2).
(** The nonces of an account fit half a word. *)
Context (nonces_fit : ∀ p n p', pending_nonce p = (inl n, p') → 0 ≤ n ≤ 2 ^ 63).
Context (timeout_pos : 0 ≤ timeout).

Lemma submit_attempts_roomy candidate gas k more : ∀ p mgr nonce fees,
  1 ≤ k → roomy k mgr → nonce ∈ ns_in_flight (nm_state mgr) →
  ∃ sent, submit_attempts submit_transaction pending_nonce more candidate gas p mgr nonce fees = Some sent ∧
    roomy k (sb_mgr sent) ∧ 0 ≤ sb_nonce sent < 2 ^ 63 + k ∧
    ∀ h, sb_result sent = inl h → sb_nonce sent ∈ ns_in_flight (nm_state (sb_mgr sent)).
Proof using nonces_fit.
  induction more as [|more IH]; intros p mgr nonce fees Hk Hr Hn; cbn [submit_attempts];
    pose proof (roomy_nonce _ _ _ Hr Hn) as Hb;
    (destruct (build_transaction_request_with_calldata _ _ _ _ _) as [tx|e];
     [|eexists; split; [reflexivity|]; done]);
    destruct (submit_transaction p tx) as [[hash|msg] p1];
    try (eexists; split; [reflexivity|]; done).
  destruct (classify_submit_error msg); try (eexists; split; [reflexivity|]; done).
  - unfold resync_nonce. destruct (pending_nonce p1) as [[n|m] p2] eqn:Ep; cbn [rpc_ok].
    + apply nonces_fit in Ep. pose proof (roomy_resync n 0 (release nonce mgr) Ep ltac:(lia)) as Hr0.
      destruct (roomy_next 0 _ Hr0) as (n' & mgr' & E & Hr' & Hn'); [lia|]. rewrite E. cbn [fst snd].
      apply IH; [done|by apply (roomy_mono 1)|done].
    + eexists; split; [reflexivity|]. split; [by apply roomy_release|done].
  - by apply IH.
  - destruct (extract_tx_hash_from_error msg); (eexists; split; [reflexivity|]; done).
Qed.

Lemma submit_roomy candidate k p mgr nonce fees gas :
  1 ≤ k → roomy k mgr → nonce ∈ ns_in_flight (nm_state mgr) →
  ∃ sent, submit_with_recovery submit_transaction pending_nonce p mgr candidate nonce fees gas = Some sent ∧
    roomy k (sb_mgr sent) ∧ 0 ≤ sb_nonce sent < 2 ^ 63 + k ∧
    ∀ h, sb_result sent = inl h → sb_nonce sent ∈ ns_in_flight (nm_state (sb_mgr sent)).
Proof using nonces_fit. apply submit_attempts_roomy. Qed.

Context (fp now : Z) (ck : Clock) (candidate : CandidateExecution) (operator : Address)
  (fees : SubmitFees) (final_gas : Z).

Lemma wait_total p hash :
  ∃ r, wait get_transaction_receipt instant shutdown sleep timeout poll_interval p hash = Some r.
Proof using asking_takes_time sleeping_takes_time timeout_pos.
  destruct (wait_loop_returns get_transaction_receipt instant shutdown sleep poll_interval
    asking_takes_time sleeping_takes_time (instant p + timeout) hash (S (Z.to_nat timeout)) p)
    as (? & ? & H & _); [lia..|]. eexists. exact H.
Qed.

Lemma await_roomy k hash nonce mgr s p :
  0 ≤ k → roomy k mgr → nonce ∈ ns_in_flight (nm_state mgr) →
  ∃ awaited mgr' s' p',
    await_receipt submit_transaction pending_nonce get_transaction_receipt get_transaction_by_hash
      instant shutdown sleep timeout poll_interval fp now ck candidate operator fees final_gas
      hash nonce mgr s p = Some (awaited, mgr', s', p') ∧
    roomy k mgr' ∧ ∀ r, awaited = Settle r → mgr' = mgr.
Proof using asking_takes_time sleeping_takes_time timeout_pos nonces_fit.
  intros Hk Hr Hn. unfold await_receipt. destruct (wait_total p hash) as [[polled p1] ->].
  assert (roomy k (mark_stale nonce mgr)) as Hs by (by apply roomy_mark_stale; [|apply (roomy_nonce _ _ mgr)]).
  destruct polled; try (eexists _, _, _, _; split; [reflexivity|]; by split).
  unfold after_timeout. destruct (shutdown p1); [eexists _, _, _, _; split; [reflexivity|]; by split|].
  unfold recover_after_receipt_timeout.
  destruct (get_transaction_receipt p1 hash) as [[[r|]|e] p2];
    [eexists _, _, _, _; split; [reflexivity|]; by split|..];
    (destruct (get_transaction_by_hash p2 hash) as [[[]|m] p3];
     [destruct (submit_transaction p3 _) as [[] ?]| |];
     [eexists _, _, _, _; split; [reflexivity|]; by split..| |
      eexists _, _, _, _; split; [reflexivity|]; by split];
     destruct (pending_nonce p3) as [[n|m] p4] eqn:Ep; cbn [rpc_ok];
     [|eexists _, _, _, _; split; [reflexivity|]; by split];
     apply nonces_fit in Ep; eexists _, _, _, _; split; [reflexivity|]; split; [|done];
     by apply (roomy_resync n)).
Qed.

Context (encode_transfer_all : Address → Address → list Z) (conversion_error : string)
  (profit_recipient : option Address).

Lemma sweep_total o k mgr p :
  1 ≤ k < 100 → roomy k mgr →
  ∃ ok mgr' p', sweep_profit_to_recipient submit_transaction pending_nonce get_transaction_receipt
    instant shutdown sleep encode_transfer_all timeout poll_interval profit_recipient
    candidate operator o mgr p = Some (ok, mgr', p') ∧ roomy (k + 1) mgr'.
Proof using asking_takes_time sleeping_takes_time timeout_pos nonces_fit.
  intros Hk Hr. unfold sweep_profit_to_recipient.
  assert (roomy (k + 1) mgr) by (apply (roomy_mono k); [done|lia]).
  destruct (resolve_profit_recipient _ _ _) as [recipient|]; [|eexists _, _, _; by split].
  destruct (resolve_submit_fees o) as [fs|]; [|eexists _, _, _; by split].
  destruct (roomy_next k mgr Hr) as (n & mgr1 & -> & Hr1 & Hn); [lia|].
  edestruct (submit_roomy (sweep_candidate (encode_transfer_all (cd_profit_token candidate) recipient) candidate)
    (k + 1) p mgr1 n fs TRANSFER_ALL_GAS_LIMIT) as (sent & -> & Hr2 & Hb2 & Hn2); [lia|done..|].
  destruct (sb_result sent) as [hash|e]; [|eexists _, _, _; split; [done|]; by apply roomy_release].
  destruct (wait_total (sb_provider sent) hash) as [[polled p1] ->].
  destruct polled; eexists _, _, _; (split; [done|]);
    [apply roomy_confirm|apply roomy_mark_stale|apply roomy_release|apply roomy_mark_stale]; done || lia.
Qed.

Lemma reserve_roomy pending_ahead mgr p :
  roomy 0 mgr →
  ∃ n mgr' p', reserve_nonce pending_nonce pending_ahead mgr p = Some (Reserved n, mgr', p') ∧
    roomy 1 mgr' ∧ n ∈ ns_in_flight (nm_state mgr').
Proof using nonces_fit.
  intros Hr.
  assert (∀ m (p0 : P), roomy 0 m → ∃ n mgr' p', (let? r := next_nonce m in Some (r.1, r.2, p0)) =
    Some (Reserved n, mgr', p') ∧ roomy 1 mgr' ∧ n ∈ ns_in_flight (nm_state mgr')) as Hnext.
  { intros m p0 Hm. destruct (roomy_next 0 m Hm) as (n & m' & -> & ? & ?); [lia|]. by eexists n, m', p0. }
  assert (∀ p0, ∃ read p', pending_nonce p0 = (read, p') ∧ roomy 0 (resync (rpc_ok read) mgr).2) as Hre.
  { intros p0. destruct (pending_nonce p0) as [[r|e] p'] eqn:Ep; eexists _, _; (split; [done|]); [|done].
    apply nonces_fit in Ep. by apply roomy_resync. }
  unfold reserve_nonce. destruct pending_ahead; [|destruct (_ && _)%bool eqn:Eclean].
  - destruct (Hre p) as (read & p' & -> & ?). by apply Hnext.
  - by apply Hnext.
  - destruct (Hre p) as (read & p' & -> & ?). apply Hnext. unfold resync_if_dirty. rewrite Eclean.
    by destruct (resync (rpc_ok read) mgr).
Qed.

(** Every candidate that reaches submission gets an outcome: the stages from the nonce to
    the books end, whatever the network answers, and leave a manager that satisfies its
    invariant.  The exception is a manager that was never initialized, which is reported. *)
Theorem submit_and_settle_returns (pending_ahead : bool) (private_error : option string)
    (mgr : NonceManager) (s : Service) (p : P) :
  roomy 0 mgr →
  ∃ r, submit_and_settle submit_transaction pending_nonce get_transaction_receipt
         get_transaction_by_hash instant shutdown sleep encode_transfer_all conversion_error
         timeout poll_interval profit_recipient fp now ck candidate operator fees final_gas
         pending_ahead private_error mgr s p = Some r ∧
    state_ok (nm_state (pr_mgr r)) ∧ nm_initialized (pr_mgr r) = true.
Proof using asking_takes_time sleeping_takes_time timeout_pos nonces_fit.
  intros Hr. enough (∃ r, submit_and_settle submit_transaction pending_nonce get_transaction_receipt
    get_transaction_by_hash instant shutdown sleep encode_transfer_all conversion_error
    timeout poll_interval profit_recipient fp now ck candidate operator fees final_gas
    pending_ahead private_error mgr s p = Some r ∧ roomy 2 (pr_mgr r)) as (r & ? & ? & ? & _)
    by (exists r; by split_and!).
  unfold submit_and_settle.
  destruct (reserve_roomy pending_ahead mgr p Hr) as (n & mgr1 & p1 & -> & Hr1 & Hn).
  assert (∀ m, roomy 1 m → roomy 2 m) as H12 by (intros; apply (roomy_mono 1); [done|lia]).
  destruct private_error; [eexists; split; [done|]; by apply H12, roomy_release|].
  destruct (submit_roomy candidate 1 p1 mgr1 n fees final_gas) as (sent & -> & Hr2 & Hb2 & Hn2); [lia|done..|].
  destruct (sb_result sent) as [hash|e].
  - specialize (Hn2 hash eq_refl). cbv zeta.
    destruct (await_roomy 1 hash (sb_nonce sent) (sb_mgr sent)
      (invalidate_mempool_nonce_cache (set_last_global_submit now s)) (sb_provider sent))
      as (awaited & m & s' & p2 & -> & Hm & Hsame); [lia|done..|].
    destruct awaited as [receipt|outcome]; [|eexists; split; [done|]; by apply H12].
    specialize (Hsame receipt eq_refl) as ->. unfold finalize_receipt_and_maybe_sweep.
    destruct (finalize_receipt _ _ _ _ _ _ _ _ _ _) as [[outcome m'] s''] eqn:Ef.
    assert (roomy 1 m') as Hm'.
    { unfold finalize_receipt in Ef. destruct (if negb _ then _ else _) in Ef. injection Ef as _ <- _.
      apply roomy_confirm; [done|lia|lia]. }
    assert (roomy 2 m') as Hm2 by (by apply H12).
    destruct outcome; try (eexists; by split).
    destruct (is_zero _); [eexists; by split|].
    destruct (sweep_total (sv_gas s'') 1 m' p2) as (ok & m3 & p3 & -> & H3); [lia|done|]. eexists. by split.
  - unfold submit_failed. cbv zeta. eexists. split; [done|]. cbn [pr_mgr]. apply H12.
    unfold release_failed_submit_nonce. destruct (classify_submit_error _); try by apply roomy_release.
    by apply roomy_mark_stale.
Qed.
End outcome.

(** ** A sweep cut short *)

Section sweep.
Context {P : Type}.
Context (submit_transaction : P → TransactionRequest → (Z + string) * P).
Context (pending_nonce : P → (Z + string) * P).
Context (get_transaction_receipt : P → Z → (option ReceiptData + string) * P).
Context (instant : P → Z) (shutdown : P → bool) (sleep : P → Z → bool * P).
Context (encode_transfer_all : Address → Address → list Z).
Context (timeout poll_interval : Z) (profit_recipient : option Address).

(** A sweep cut short by a shutdown forgets its transaction: the network has accepted it,
    but the manager is left as it was before the sweep, so the next reservation hands out
    the nonce of the transaction in flight. *)
Theorem shutdown_sweep_releases_submitted_nonce (candidate : CandidateExecution) (operator : Address)
    (o : GasOracle) (address : Z) (mgr mgr1 : NonceManager) (n : Z) (p : P) (recipient : Address)
    (fees : SubmitFees) :
  (∀ p tx, ∃ hash, (submit_transaction p tx).1 = inl hash ∧ shutdown (submit_transaction p tx).2 = true) →
  resolve_profit_recipient profit_recipient operator (cd_target_address candidate) = Some recipient →
  resolve_submit_fees o = Some fees →
  sf_max_fee_per_gas fees < M128 → sf_max_priority_fee_per_gas fees < M128 →
  rtc nonce_step (Nonce.new address) mgr → next_nonce mgr = Some (Reserved n, mgr1) →
  ∃ p', sweep_profit_to_recipient submit_transaction pending_nonce get_transaction_receipt
    instant shutdown sleep encode_transfer_all timeout poll_interval profit_recipient
    candidate operator o mgr p = Some (false, mgr, p').
Proof.
  intros Hsub Hrec Hfees Hf Hp Hreach Hn.
  assert (release n mgr1 = mgr) as Hrel.
  { pose proof (nonce_reachable_ok _ _ Hreach) as Hok. by apply release_reserved. }
  unfold sweep_profit_to_recipient. rewrite Hrec, Hfees, Hn.
  unfold submit_with_recovery. destruct (Z.to_nat (MAX_SUBMIT_ATTEMPTS - 1)) as [|more]; cbn [submit_attempts];
    unfold build_transaction_request_with_calldata, u256_to_u128;
    rewrite !(proj2 (Z.ltb_lt _ _)) by done;
    (match goal with |- context [submit_transaction p ?tx] => destruct (Hsub p tx) as (hash & Hs & Hd);
      destruct (submit_transaction p tx) as [sent p1] end);
    cbn [fst snd] in Hs, Hd; subst sent; cbn [sb_result sb_nonce sb_mgr sb_provider];
    unfold wait; cbn [wait_loop]; rewrite Hd, Hrel; by eexists.
Qed.
End sweep.

(** ** Witnesses *)

Definition demo_receipt : ReceiptData :=
  {| rd_success := true; rd_gas_used := 100; rd_effective_gas_price := Some 2;
     rd_logs := [{| lg_address := 77; lg_transfer := Some (9, 50, 1000) |};
                 {| lg_address := 77; lg_transfer := Some (50, 9, 300) |};
                 {| lg_address := 78; lg_transfer := Some (9, 50, 5) |}] |}.

Definition demo_service : Service :=
  {| sv_risk := with_route_stats_path 0; sv_books := demo_books; sv_gas := demo_oracle;
     sv_last_global_submit := None; sv_mempool_nonce_cache := None |}.

Definition demo_clock : Clock := {| ck_prune := 1; ck_today := 19000; ck_stop := 1 |}.

(** A network whose state is the clock: a transaction is accepted at once and mined at
    time 3. *)
Definition demo_send (p : Z) (tx : TransactionRequest) : (Z + string) * Z := (inl (tx_nonce tx + 1000), p).
Definition demo_pending (p : Z) : (Z + string) * Z := (inl 5, p).
Definition demo_get (p hash : Z) : (option ReceiptData + string) * Z :=
  (inl (if p <? 3 then None else Some demo_receipt), p).
Definition demo_known (p hash : Z) : (bool + string) * Z := (inl true, p).
Definition demo_sleep (p d : Z) : bool * Z := (false, p + 1 + Z.max 0 d).

Lemma parse_transfer_profit_iff_witness :
  parse_transfer_profit (rd_logs demo_receipt) 50 (Some 77) = Some 700.
Proof.
  apply parse_transfer_profit_iff.
  - repeat constructor; cbn; lia.
  - vm_compute. reflexivity.
  - split; [discriminate|]. split; [|reflexivity].
    intros [|[|k]]; vm_compute; try discriminate. by destruct k.
Defined.

Lemma settled_receipt_moves_total_witness :
  pl_total (bk_pnl (sv_books
    (finalize_receipt 1 0 demo_clock 1005 demo_receipt demo_candidate 200 5 (Nonce.new 0) demo_service).2)) = 500.
Proof.
  pose proof (settled_receipt_moves_total 1 0 demo_clock 1005 200 5 demo_receipt demo_candidate
    (Nonce.new 0) demo_service) as H.
  assert (realized demo_receipt demo_candidate (sv_gas demo_service) = Some (700, 200)) as Er by (vm_compute; reflexivity).
  rewrite Er in H. destruct (finalize_receipt _ _ _ _ _ _ _ _ _ _) as [[o m] s]. cbn [snd].
  rewrite H.
  - reflexivity.
  - intros p g [= <- <-]. lia.
  - reflexivity.
  - reflexivity.
Defined.

Lemma wait_returns_witness :
  ∃ polled p', wait demo_get (λ p, p) (λ _, false) demo_sleep 20 1 0 1005 = Some (polled, p') ∧
    polled = Received demo_receipt.
Proof.
  destruct (wait_returns demo_get (λ p, p) (λ _, false) demo_sleep 20 1 (λ p h, Z.le_refl p)
    ltac:(intros p d; unfold demo_sleep; cbn; lia) 0 1005 ltac:(lia)) as (polled & p' & H & _).
  exists polled, p'. split; [exact H|]. vm_compute in H. by injection H as <- _.
Defined.

Lemma submitted_nonce_stays_held_witness :
  ∃ mgr', held 5 mgr' ∧
    pr_mgr <$> submit_and_settle demo_send demo_pending demo_get demo_known (λ p, p) (λ p, 0 <? p) demo_sleep
      (λ _ _, []) EmptyString 20 1 None 1 0 demo_clock demo_candidate 9 demo_fees 200
      false None (initialize (Some 5) (Nonce.new 0)).2 demo_service 0 = Some mgr'.
Proof.
  pose proof (submitted_nonce_stays_held demo_send demo_pending demo_get demo_known (λ p, p) (λ p, 0 <? p)
    demo_sleep 20 1 1 0 demo_clock demo_candidate 9 demo_fees 200 1005 5
    (reserve (initialize (Some 5) (Nonce.new 0)).2)
    (mark_stale 5 (reserve (initialize (Some 5) (Nonce.new 0)).2))) as H.
  eexists. split; [|vm_compute; reflexivity].
  specialize (H demo_service demo_service 0 2 (Done SkippedShutdown)).
  destruct H as [[_ H]|[? _]]; [vm_compute; by constructor|reflexivity|exact H|done].
Defined.

Lemma submit_and_settle_returns_witness :
  ∃ r, submit_and_settle demo_send demo_pending demo_get demo_known (λ p, p) (λ _, false) demo_sleep
      (λ _ _, []) EmptyString 20 1 None 1 0 demo_clock demo_candidate 9 demo_fees 200
      false None (initialize (Some 5) (Nonce.new 0)).2 demo_service 0 = Some r ∧
    state_ok (nm_state (pr_mgr r)) ∧ nm_initialized (pr_mgr r) = true.
Proof.
  assert (∀ p d, p < (demo_sleep p d).2) as Hsleep by (intros p d; unfold demo_sleep; cbn; lia).
  assert (∀ p n p', demo_pending p = (inl n, p') → 0 ≤ n ≤ 2 ^ 63) as Hfit
    by (intros p n p' [= <- _]; lia).
  assert (roomy 0 (initialize (Some 5) (Nonce.new 0)).2) as Hr.
  { split; [done|]. split; [split; cbn; [done|set_solver]|]. cbn. split; [lia|set_solver]. }
  exact (submit_and_settle_returns demo_send demo_pending demo_get demo_known (λ p, p) (λ _, false) demo_sleep
      20 1 (λ p h, Z.le_refl p) Hsleep Hfit ltac:(lia) 1 0 demo_clock demo_candidate 9 demo_fees 200
      (λ _ _, []) EmptyString None false None _ demo_service 0 Hr).
Defined.

Lemma shutdown_sweep_releases_submitted_nonce_witness :
  ∃ p', sweep_profit_to_recipient demo_send demo_pending demo_get (λ p, p) (λ _, true) demo_sleep
    (λ _ _, []) 20 1 None demo_candidate 9 demo_oracle demo_manager 0 = Some (false, demo_manager, p').
Proof.
  destruct (resolve_submit_fees demo_oracle) as [fees|] eqn:E; [|by vm_compute in E].
  apply (shutdown_sweep_releases_submitted_nonce demo_send demo_pending demo_get (λ p, p) (λ _, true) demo_sleep
    (λ _ _, []) 20 1 None demo_candidate 9 demo_oracle 0 demo_manager (reserve demo_manager) 7 0 9 fees).
  - intros p tx. by eexists.
  - reflexivity.
  - exact E.
  - vm_compute in E. injection E as <-. reflexivity.
  - vm_compute in E. injection E as <-. reflexivity.
  - exact demo_manager_reached.
  - vm_compute. reflexivity.
Defined.
