(* ===== verification/FlashLiquidity.v ===== *)
(** * Flash-loan liquidity

    [src/src/services/execution/flash_liquidity.rs] up to the preparation of a dispatch
    (which is in [Prepare]), the reserve flags of [aave.rs] and the policy of
    [support.rs]: the cache of what each provider can lend, its refresh over multicalls,
    and the choice of provider and borrow cap for a cycle.

    The published snapshot is swapped atomically, so every method is one step on a
    record; the network, the ABI decoders and the readings of the clock (nanoseconds) are
    parameters.  The statistics that feed logs are left out. *)
From stdpp Require Import gmap sorting.
From S2P Require Import Prelude Word Types Arena Profit TokenRates.

(** ** Policy and reserve flags *)

Inductive FlashLoanPolicy := Auto | BalancerOnly | AaveOnly.

Definition hf_eval_flash_source (policy : FlashLoanPolicy) : FlashLoanSource :=
  match policy with AaveOnly | Auto => FAaveV3 | BalancerOnly => FBalancer end.

Definition AAVE_CFG_ACTIVE_BIT : Z := 56.
Definition AAVE_CFG_PAUSED_BIT : Z := 60.
Definition AAVE_CFG_FLASH_BIT : Z := 63.

Inductive AaveReserveStatus := Viable | RpcError | NoAToken | Inactive | Paused | FlashDisabled.

Definition aave_cfg_bit_set (configuration bit : Z) : bool :=
  negb (Z.land (Z.shiftr configuration bit) 1 =? 0).

Definition reserve_status_from_config (configuration : Z) (has_a_token : bool) : AaveReserveStatus :=
  if negb has_a_token then NoAToken
  else if negb (aave_cfg_bit_set configuration AAVE_CFG_ACTIVE_BIT) then Inactive
  else if aave_cfg_bit_set configuration AAVE_CFG_PAUSED_BIT then Paused
  else if negb (aave_cfg_bit_set configuration AAVE_CFG_FLASH_BIT) then FlashDisabled
  else Viable.

Definition aave_reserve_flash_eligible (configuration : Z) : bool :=
  match reserve_status_from_config configuration true with Viable => true | _ => false end.

(** ** The cache *)

Definition CACHE_TTL : Z := 30 * 10 ^ 9.
Definition AAVE_RESERVE_LIST_TTL : Z := 300 * 10 ^ 9.
Definition MAX_HOT_FLASH_TOKENS : nat := 384.
Definition BALANCER_VAULT : Address := 0xba12222222228d8ba445958a75a0704d566bf2c8.
Definition AAVE_V3_POOL : Address := 0x794a61358d6845594f94dc1db02a252b5b4814ad.

Record TokenFlashLiquidity := {
  fl_balancer : Z;
  fl_aave : Z;
  fl_aave_listed : bool;
  fl_dodo : Z;
}.

Definition no_liquidity : TokenFlashLiquidity :=
  {| fl_balancer := 0; fl_aave := 0; fl_aave_listed := false; fl_dodo := 0 |}.

Record CachedLiquidity := { ce_snapshot : TokenFlashLiquidity; ce_fetched_at : Z }.

Record FlashLiquiditySnapshot := {
  fs_generation : Z;
  fs_entries : gmap Z CachedLiquidity;
}.

(** [fetched_at.elapsed() < ttl] *)
Definition fresh (now ttl : Z) (e : CachedLiquidity) : bool := Z.max 0 (now - ce_fetched_at e) <? ttl.

Definition token_liquidity (now ttl : Z) (token : Address) (self : FlashLiquiditySnapshot)
  : TokenFlashLiquidity :=
  match fs_entries self !! token with
  | Some e => if fresh now ttl e then ce_snapshot e else no_liquidity
  | None => no_liquidity
  end.

Definition tokens_liquidity (now ttl : Z) (tokens : list Address) (self : FlashLiquiditySnapshot)
  : list TokenFlashLiquidity := (λ token, token_liquidity now ttl token self) <$> tokens.

Definition has_fresh (now ttl : Z) (token : Address) (self : FlashLiquiditySnapshot) : bool :=
  match fs_entries self !! token with Some e => fresh now ttl e | None => false end.

Record FlashLiquidityCache := {
  fc_inner : FlashLiquiditySnapshot;
  fc_ttl : Z;
  fc_balancer_vault : Address;
  fc_aave_pool : Address;
  fc_hot_tokens : gset Z;
  fc_aave_inactive_pins : gset Z;
  fc_aave_reserves : option (gset Z * Z);
  fc_refresh_inflight : bool;
}.

Definition new : FlashLiquidityCache :=
  {| fc_inner := {| fs_generation := 0; fs_entries := ∅ |}; fc_ttl := CACHE_TTL;
     fc_balancer_vault := BALANCER_VAULT; fc_aave_pool := AAVE_V3_POOL; fc_hot_tokens := ∅;
     fc_aave_inactive_pins := ∅; fc_aave_reserves := None; fc_refresh_inflight := false |}.

Definition set_inner (inner : FlashLiquiditySnapshot) (self : FlashLiquidityCache) : FlashLiquidityCache :=
  {| fc_inner := inner; fc_ttl := fc_ttl self; fc_balancer_vault := fc_balancer_vault self;
     fc_aave_pool := fc_aave_pool self; fc_hot_tokens := fc_hot_tokens self;
     fc_aave_inactive_pins := fc_aave_inactive_pins self; fc_aave_reserves := fc_aave_reserves self;
     fc_refresh_inflight := fc_refresh_inflight self |}.

Definition set_hot_tokens (hot : gset Z) (self : FlashLiquidityCache) : FlashLiquidityCache :=
  {| fc_inner := fc_inner self; fc_ttl := fc_ttl self; fc_balancer_vault := fc_balancer_vault self;
     fc_aave_pool := fc_aave_pool self; fc_hot_tokens := hot;
     fc_aave_inactive_pins := fc_aave_inactive_pins self; fc_aave_reserves := fc_aave_reserves self;
     fc_refresh_inflight := fc_refresh_inflight self |}.

Definition set_pins (pins : gset Z) (self : FlashLiquidityCache) : FlashLiquidityCache :=
  {| fc_inner := fc_inner self; fc_ttl := fc_ttl self; fc_balancer_vault := fc_balancer_vault self;
     fc_aave_pool := fc_aave_pool self; fc_hot_tokens := fc_hot_tokens self;
     fc_aave_inactive_pins := pins; fc_aave_reserves := fc_aave_reserves self;
     fc_refresh_inflight := fc_refresh_inflight self |}.

Definition set_reserves (reserves : option (gset Z * Z)) (self : FlashLiquidityCache) : FlashLiquidityCache :=
  {| fc_inner := fc_inner self; fc_ttl := fc_ttl self; fc_balancer_vault := fc_balancer_vault self;
     fc_aave_pool := fc_aave_pool self; fc_hot_tokens := fc_hot_tokens self;
     fc_aave_inactive_pins := fc_aave_inactive_pins self; fc_aave_reserves := reserves;
     fc_refresh_inflight := fc_refresh_inflight self |}.

Definition set_inflight (inflight : bool) (self : FlashLiquidityCache) : FlashLiquidityCache :=
  {| fc_inner := fc_inner self; fc_ttl := fc_ttl self; fc_balancer_vault := fc_balancer_vault self;
     fc_aave_pool := fc_aave_pool self; fc_hot_tokens := fc_hot_tokens self;
     fc_aave_inactive_pins := fc_aave_inactive_pins self; fc_aave_reserves := fc_aave_reserves self;
     fc_refresh_inflight := inflight |}.

Definition generation (self : FlashLiquidityCache) : Z := fs_generation (fc_inner self).

(** A swapped snapshot has the next generation, saturating. *)
Definition next_generation (current : FlashLiquiditySnapshot) : Z :=
  Z.min (fs_generation current + 1) u64_max.

Definition publish_updates (updates : gmap Z CachedLiquidity) (self : FlashLiquidityCache)
  : FlashLiquidityCache :=
  if bool_decide (updates = ∅) then self
  else set_inner {| fs_generation := next_generation (fc_inner self);
                    fs_entries := updates ∪ fs_entries (fc_inner self) |} self.

(** [sort_unstable] and [dedup] of distinct or repeated addresses. *)
Definition sorted_tokens (tokens : gset Z) : list Address := merge_sort Z.le (elements tokens).

Definition track_hot_tokens (tokens : list Address) (self : FlashLiquidityCache) : FlashLiquidityCache :=
  let hot := list_to_set tokens ∪ fc_hot_tokens self in
  if (size hot <=? MAX_HOT_FLASH_TOKENS)%nat then set_hot_tokens hot self
  else
    let current := take MAX_HOT_FLASH_TOKENS (sorted_tokens (list_to_set tokens)) in
    let remaining := (MAX_HOT_FLASH_TOKENS - length current)%nat in
    let prior := take remaining (sorted_tokens (hot ∖ list_to_set current)) in
    set_hot_tokens (list_to_set current ∪ list_to_set prior) self.

(** [compare_exchange]; [None] is a refresh in flight.  Dropping the guard clears the flag. *)
Definition try_acquire_refresh_inflight (self : FlashLiquidityCache) : option FlashLiquidityCache :=
  if fc_refresh_inflight self then None else Some (set_inflight true self).

Definition release_refresh_inflight (self : FlashLiquidityCache) : FlashLiquidityCache :=
  set_inflight false self.

Definition snapshot (now : Z) (token : Address) (self : FlashLiquidityCache) : TokenFlashLiquidity :=
  token_liquidity now (fc_ttl self) token (fc_inner self).

Definition has_fresh_entry (now : Z) (token : Address) (self : FlashLiquidityCache) : bool :=
  has_fresh now (fc_ttl self) token (fc_inner self).

Definition aave_viable (liq : TokenFlashLiquidity) : bool := (fl_aave_listed liq && negb (is_zero (fl_aave liq)))%bool.

Definition aave_viable_for_dispatch (now : Z) (token : Address) (self : FlashLiquidityCache) : bool :=
  if negb (has_fresh now (fc_ttl self) token (fc_inner self)) then false
  else aave_viable (token_liquidity now (fc_ttl self) token (fc_inner self)).

Definition invalidate_batch (tokens : list Address) (self : FlashLiquidityCache) : FlashLiquidityCache :=
  if forallb (λ t, negb (bool_decide (is_Some (fs_entries (fc_inner self) !! t)))) tokens then self
  else set_inner {| fs_generation := next_generation (fc_inner self);
                    fs_entries := fold_left (λ m t, delete t m) tokens (fs_entries (fc_inner self)) |} self.

Definition invalidate (token : Address) (self : FlashLiquidityCache) : FlashLiquidityCache :=
  invalidate_batch [token] self.

Definition mark_aave_inactive (now : Z) (token : Address) (self : FlashLiquidityCache)
  : FlashLiquidityCache :=
  let self := set_pins ({[token]} ∪ fc_aave_inactive_pins self) self in
  let current := fc_inner self in
  let prior :=
    match fs_entries current !! token with Some e => ce_snapshot e | None => no_liquidity end in
  let entry :=
    {| ce_snapshot := {| fl_balancer := fl_balancer prior; fl_aave := 0; fl_aave_listed := false;
                         fl_dodo := fl_dodo prior |};
       ce_fetched_at := now |} in
  set_inner {| fs_generation := next_generation current;
               fs_entries := <[token := entry]> (fs_entries current) |} self.

(** [ttl.mul_f32(0.75)], which is exact for the thirty seconds of [new]. *)
Definition refresh_after (self : FlashLiquidityCache) : Z := fc_ttl self * 3 / 4.

Definition stale_tokens (now : Z) (tokens : list Address) (self : FlashLiquidityCache) : list Address :=
  filter (λ token, match fs_entries (fc_inner self) !! token with
                   | Some e => refresh_after self <=? Z.max 0 (now - ce_fetched_at e)
                   | None => true
                   end = true) tokens.

Definition should_defer_dust_flash_refresh (stale : list Address) : bool :=
  ((length stale <? 4)%nat && negb (existsb is_polygon_hub_token stale))%bool.

Definition spawn_refresh_if_stale (now : Z) (tokens : list Address) (self : FlashLiquidityCache)
  : option (list Address) * FlashLiquidityCache :=
  if bool_decide (tokens = []) then (None, self)
  else
    let self := track_hot_tokens tokens self in
    let stale := stale_tokens now tokens self in
    if bool_decide (stale = []) then (None, self)
    else if should_defer_dust_flash_refresh stale then (None, self)
    else if fc_refresh_inflight self then (None, self)
    else (Some stale, self).

(** ** Fetching *)

Inductive CallData :=
| GetReservesList | BalanceOf (account : Address) | GetReserveData (asset : Address).

Record MulticallItem := { mi_target : Address; mi_data : CallData }.

Definition aave_reserve_needs_fetch (aave_reserves : option (gset Z)) (token : Address) : bool :=
  match aave_reserves with Some reserves => bool_decide (token ∈ reserves) | None => true end.

(** The items of the second multicall: balances, then the reserves that are listed. *)
Definition fetch_items (aave_reserves : option (gset Z)) (to_fetch : list Address)
    (self : FlashLiquidityCache) : list MulticallItem :=
  ((λ token, {| mi_target := token; mi_data := BalanceOf (fc_balancer_vault self) |}) <$> to_fetch) ++
  ((λ token, {| mi_target := fc_aave_pool self; mi_data := GetReserveData token |}) <$>
     filter (λ token, aave_reserve_needs_fetch aave_reserves token = true) to_fetch).

(** The items of the third one. *)
Definition aave_items (to_fetch : list Address) (reserves : list (option Address)) : list MulticallItem :=
  omap (λ '(token, reserve),
    let? a_token := reserve in Some {| mi_target := token; mi_data := BalanceOf a_token |})
    (zip to_fetch reserves).

Section fetch.
Context {P Bytes : Type}.
(** A multicall gives one optional answer per item, or fails as a whole. *)
Context (execute_multicall : P → list MulticallItem → option (list (option Bytes)) * P).
(** ABI decoders of the three calls; a reserve is its configuration and its aToken. *)
Context (decode_reserves_list : Bytes → option (list Address))
  (decode_balance_of : Bytes → option Z) (decode_reserve_data : Bytes → option (Z * Address)).

Definition decode_balance (bytes : option (option Bytes)) : Z :=
  default 0 (let? b := bytes in let? b := b in decode_balance_of b).

(** The cached list of reserves, or a new one, which is cached. *)
Definition fetch_reserves_list (now : Z) (self : FlashLiquidityCache) (p : P)
  : option (gset Z) * FlashLiquidityCache * P :=
  let cached :=
    let? c := fc_aave_reserves self in
    if Z.max 0 (now - c.2) <? AAVE_RESERVE_LIST_TTL then Some c.1 else None in
  match cached with
  | Some reserves => (Some reserves, self, p)
  | None =>
      let '(results, p) :=
        execute_multicall p [{| mi_target := fc_aave_pool self; mi_data := GetReservesList |}] in
      let list :=
        let? results := results in
        let? bytes := results !! O in
        let? bytes := bytes in
        let? tokens := decode_reserves_list bytes in
        Some (list_to_set tokens : gset Z) in
      match list with
      | Some tokens => (Some tokens, set_reserves (Some (tokens, now)) self, p)
      | None => (None, self, p)
      end
  end.

(** The aTokens of the viable reserves; [cursor] walks the answers behind the balances. *)
Fixpoint reserves_loop (aave_reserves : option (gset Z)) (pinned_tokens : gset Z)
    (results : list (option Bytes)) (to_fetch : list Address) (cursor : nat) : list (option Address) :=
  match to_fetch with
  | [] => []
  | token :: to_fetch =>
      let pinned := bool_decide (token ∈ pinned_tokens) in
      let queried_reserve := aave_reserve_needs_fetch aave_reserves token in
      let decoded :=
        if queried_reserve then
          let? bytes := results !! cursor in let? bytes := bytes in decode_reserve_data bytes
        else None in
      let status :=
        if negb queried_reserve then NoAToken
        else match decoded with
             | Some r => reserve_status_from_config r.1 (negb (r.2 =? 0))
             | None => RpcError
             end in
      let reserve :=
        if pinned then None
        else match status with Viable => let? r := decoded in Some r.2 | _ => None end in
      reserve :: reserves_loop aave_reserves pinned_tokens results to_fetch
                   (if queried_reserve then S cursor else cursor)
  end.

(** The entries to publish; [i] and [aave_index] walk the answers. *)
Fixpoint updates_loop (now : Z) (pinned_tokens : gset Z) (results aave_results : list (option Bytes))
    (tokens : list (Address * option Address)) (i aave_index : nat) (updates : gmap Z CachedLiquidity)
  : gmap Z CachedLiquidity :=
  match tokens with
  | [] => updates
  | (token, reserve) :: tokens =>
      let balancer := decode_balance (results !! i) in
      let aave_pinned := bool_decide (token ∈ pinned_tokens) in
      let aave_listed := (negb aave_pinned && bool_decide (is_Some reserve))%bool in
      let aave := if aave_listed then decode_balance (aave_results !! aave_index) else 0 in
      let entry :=
        {| ce_snapshot := {| fl_balancer := balancer; fl_aave := aave; fl_aave_listed := aave_listed;
                             fl_dodo := 0 |};
           ce_fetched_at := now |} in
      updates_loop now pinned_tokens results aave_results tokens (S i)
        (if aave_listed then S aave_index else aave_index) (<[token := entry]> updates)
  end.

(** What a fetch has read before it publishes; [None] is a failed multicall. *)
Definition fetch_updates (now : Z) (to_fetch : list Address) (aave_reserves : option (gset Z))
    (self : FlashLiquidityCache) (p : P) : option (gmap Z CachedLiquidity) * P :=
  let '(results, p) := execute_multicall p (fetch_items aave_reserves to_fetch self) in
  match results with
  | None => (None, p)
  | Some results =>
      let pinned_tokens := fc_aave_inactive_pins self in
      let reserves := reserves_loop aave_reserves pinned_tokens results to_fetch (length to_fetch) in
      let items := aave_items to_fetch reserves in
      let '(aave_results, p) :=
        match items with [] => (Some [], p) | _ => execute_multicall p items end in
      match aave_results with
      | None => (None, p)
      | Some aave_results =>
          (Some (updates_loop now pinned_tokens results aave_results (zip to_fetch reserves) O O ∅), p)
      end
  end.

(** The boolean is [is_ok()]. *)
Definition fetch_and_publish (now : Z) (to_fetch : list Address) (self : FlashLiquidityCache) (p : P)
  : bool * FlashLiquidityCache * P :=
  if bool_decide (to_fetch = []) then (true, self, p)
  else
    let '(aave_reserves, self, p) := fetch_reserves_list now self p in
    let '(updates, p) := fetch_updates now to_fetch aave_reserves self p in
    match updates with
    | None => (false, self, p)
    | Some updates => (true, publish_updates updates self, p)
    end.

Definition refresh (now now_fetch : Z) (tokens : list Address) (self : FlashLiquidityCache) (p : P)
  : option Z * FlashLiquidityCache * P :=
  let self := track_hot_tokens tokens self in
  let to_fetch := stale_tokens now tokens self in
  if bool_decide (to_fetch = []) then (Some (generation self), self, p)
  else
    let '(ok, self, p) := fetch_and_publish now_fetch to_fetch self p in
    (if ok then Some (generation self) else None, self, p).

(** The candidates in turn, with the clock at each; [None] is a failed connection. *)
Fixpoint fallback_loop (to_fetch : list Address) (candidates : list (Z * option P))
    (self : FlashLiquidityCache) : option Z * FlashLiquidityCache :=
  match candidates with
  | [] => (None, self)
  | (_, None) :: candidates => fallback_loop to_fetch candidates self
  | (now, Some p) :: candidates =>
      let '(ok, self, _) := fetch_and_publish now to_fetch self p in
      if ok then (Some (generation self), self) else fallback_loop to_fetch candidates self
  end.

Definition refresh_with_fallback (now : Z) (tokens : list Address) (candidates : list (Z * option P))
    (self : FlashLiquidityCache) : option Z * FlashLiquidityCache :=
  let self := track_hot_tokens tokens self in
  let to_fetch := stale_tokens now tokens self in
  if bool_decide (to_fetch = []) then (Some (generation self), self)
  else fallback_loop to_fetch candidates self.
End fetch.

(** ** Choosing a provider *)

Inductive FlashPlanAction := PlanDirect | CapAndReoptimize | Reject.
#[export] Instance FlashPlanAction_eq_dec : EqDecision FlashPlanAction.
Proof. solve_decision. Defined.

Record FlashPlan := { fp_source : FlashLoanSource; fp_action : FlashPlanAction; fp_cap : Z }.

Inductive FlashRejectReason :=
| ZeroAmount | ColdCache | ZeroLiquidity | AaveUnlisted | MixedBalancerNoAave | AlignDispatch.

Record CycleFlashContext := {
  cx_liquidity : TokenFlashLiquidity;
  cx_forbid_balancer_flash : bool;
  cx_balancer_only : bool;
  cx_has_dodo : bool;
  cx_start_addr : Address;
  cx_start_fresh : bool;
}.

Definition is_balancer_edge (e : Edge) : bool := bool_decide (protocol e = BalancerV2).

Definition route_uses_balancer_vault_swap (cycle : FoundCycle) : bool :=
  existsb is_balancer_edge (fc_edges cycle).

Definition route_is_balancer_only (cycle : FoundCycle) : bool :=
  (negb (bool_decide (fc_edges cycle = [])) && forallb is_balancer_edge (fc_edges cycle))%bool.

Definition dodo_base_flash_pool_for_cycle (arena : StateArena) (cycle : FoundCycle) : option Address :=
  let? _start_token := token_address arena (fc_start_token cycle) in
  if negb DODO_EXTERNAL_FLASH_ENABLED then None else None.

Definition dodo_pool_is_route_swap_hop (arena : StateArena) (cycle : FoundCycle) (pool : Address) : bool :=
  existsb (λ edge,
    (match pool_state arena (pool_index edge) with Some (PDodo _) => true | _ => false end
     && bool_decide (pool_address arena (pool_index edge) = Some pool))%bool) (fc_edges cycle).

Definition align_flash_source_for_dispatch (source : FlashLoanSource) (liquidity : TokenFlashLiquidity)
    (balancer_only has_dodo route_uses_balancer_vault : bool) : option FlashLoanSource :=
  let aave_viable := aave_viable liquidity in
  let mixed_balancer_route := (route_uses_balancer_vault && negb balancer_only)%bool in
  if (negb balancer_only && match source with FBalancer | FDirect => true | _ => false end)%bool then
    if aave_viable then Some FAaveV3
    else if has_dodo then Some FDodo
    else if (negb (is_zero (fl_balancer liquidity)) && negb mixed_balancer_route)%bool then Some FBalancer
    else None
  else if (bool_decide (source = FAaveV3) && negb aave_viable)%bool then
    if has_dodo then Some FDodo else None
  else if (bool_decide (source = FDodo) && negb has_dodo)%bool then
    if aave_viable then Some FAaveV3 else None
  else Some source.

(** [.position(..)] *)
Fixpoint position {A} (f : A → bool) (l : list A) : option nat :=
  match l with
  | [] => None
  | x :: l => if f x then Some O else let? k := position f l in Some (S k)
  end.

(** [rotate_left(k)] *)
Definition rotate_by {A} (k : nat) (l : list A) : list A := drop k l ++ take k l.

Definition rotate_cycle_to_start (cycle : FoundCycle) (new_start : TokenIndex) : option FoundCycle :=
  if bool_decide (fc_edges cycle = []) then None
  else
    let? k := position (λ e, token_in e =? new_start) (fc_edges cycle) in
    let edges := rotate_by k (fc_edges cycle) in
    if match last edges with Some e => token_out e =? new_start | None => false end
    then Some {| fc_start_token := new_start; fc_edges := edges; fc_hop_count := edge_hops cycle;
                 fc_log_weight := fc_log_weight cycle;
                 fc_cumulative_fee_bps := fc_cumulative_fee_bps cycle; fc_score := fc_score cycle;
                 fc_cycle_ratio := fc_cycle_ratio cycle |}
    else None.

Definition token_flash_liquidity_borrowable (liquidity : TokenFlashLiquidity) : bool :=
  (negb (is_zero (fl_balancer liquidity)) || negb (is_zero (fl_dodo liquidity)) || aave_viable liquidity)%bool.

Section snapshot.
Context (now ttl : Z) (flash : FlashLiquiditySnapshot).

Definition token_flash_borrow_proven_unviable (token : Address) : bool :=
  (has_fresh now ttl token flash
   && negb (token_flash_liquidity_borrowable (token_liquidity now ttl token flash)))%bool.

Definition token_eligible_for_flash_borrow_graph (token : Address) : bool :=
  if has_fresh now ttl token flash
  then token_flash_liquidity_borrowable (token_liquidity now ttl token flash)
  else is_polygon_hub_token token.

Definition cycle_has_aave_listed_token (cycle : FoundCycle) (arena : StateArena) : bool :=
  let addrs := omap (λ edge, token_address arena (token_in edge)) (fc_edges cycle) in
  existsb aave_viable (tokens_liquidity now ttl addrs flash).

(** The distinct tokens of the hops that have an address, in order. *)
Fixpoint hop_tokens (arena : StateArena) (seen : gset Z) (edges : list Edge) : list (Address * TokenIndex) :=
  match edges with
  | [] => []
  | edge :: edges =>
      let token := token_in edge in
      if bool_decide (token ∈ seen) then hop_tokens arena seen edges
      else
        let rest := hop_tokens arena ({[token]} ∪ seen) edges in
        match token_address arena token with Some addr => (addr, token) :: rest | None => rest end
  end.

Definition cycle_flash_tokens_all_fresh (cycle : FoundCycle) (arena : StateArena) : bool :=
  let tokens := hop_tokens arena ∅ (fc_edges cycle) in
  (forallb (λ t, has_fresh now ttl t.1 flash) tokens && (0 <? length tokens)%nat)%bool.

Definition balancer_route_flash_feasible (cycle : FoundCycle) (arena : StateArena) : bool :=
  if negb (route_uses_balancer_vault_swap cycle) then true
  else if route_is_balancer_only cycle then true
  else if negb (cycle_flash_tokens_all_fresh cycle arena) then true
  else
    (cycle_has_aave_listed_token cycle arena
     || match dodo_base_flash_pool_for_cycle arena cycle with Some _ => true | None => false end)%bool.

(** [max_by_key]: the last of the greatest. *)
Definition max_by_depth (candidates : list (Z * TokenIndex)) : option (Z * TokenIndex) :=
  fold_left (λ best c, match best with
                       | Some b => if b.1 <=? c.1 then Some c else Some b
                       | None => Some c
                       end) candidates None.

Definition depth_of (liq : TokenFlashLiquidity) : Z :=
  if negb (is_zero (fl_aave liq)) then fl_aave liq else fl_balancer liq.

Definition flash_candidates (usable : TokenFlashLiquidity → bool) (depth : TokenFlashLiquidity → Z)
    (rates : gmap Z Z) (tokens : list (Address * TokenIndex)) : list (Z * TokenIndex) :=
  omap (λ t,
    let liq := token_liquidity now ttl t.1 flash in
    if (usable liq && has_reliable_matic_rate t.2 rates)%bool then Some (depth liq, t.2) else None) tokens.

Definition prefer_aave_flash_start (cycle : FoundCycle) (arena : StateArena) (rates : gmap Z Z) : FoundCycle :=
  if route_is_balancer_only cycle then cycle
  else
    let tokens := hop_tokens arena ∅ (fc_edges cycle) in
    let start_dead :=
      match token_address arena (fc_start_token cycle) with
      | Some addr => token_flash_borrow_proven_unviable addr
      | None => false
      end in
    if (negb (route_uses_balancer_vault_swap cycle) && negb start_dead)%bool then cycle
    else
      let candidates :=
        if route_uses_balancer_vault_swap cycle
        then flash_candidates aave_viable fl_aave rates tokens
        else flash_candidates token_flash_liquidity_borrowable depth_of rates tokens in
      match max_by_depth candidates with
      | None => cycle
      | Some (_, best) =>
          if best =? fc_start_token cycle then cycle
          else default cycle (rotate_cycle_to_start cycle best)
      end.

Definition plan_single (source : FlashLoanSource) (amount_in available : Z) : FlashPlan :=
  if is_zero available then {| fp_source := source; fp_action := Reject; fp_cap := 0 |}
  else if amount_in <=? available
  then {| fp_source := source; fp_action := PlanDirect; fp_cap := amount_in |}
  else {| fp_source := source; fp_action := CapAndReoptimize; fp_cap := available |}.

Definition plan_auto (amount_in : Z) (liquidity : TokenFlashLiquidity) (allow_balancer : bool) : FlashPlan :=
  let direct source := {| fp_source := source; fp_action := PlanDirect; fp_cap := amount_in |} in
  if (allow_balancer && (amount_in <=? fl_balancer liquidity))%bool then direct FBalancer
  else if (fl_aave_listed liquidity && (amount_in <=? fl_aave liquidity))%bool then direct FAaveV3
  else if amount_in <=? fl_dodo liquidity then direct FDodo
  else
    let cap :=
      if allow_balancer
      then Z.max (Z.max (fl_balancer liquidity) (fl_aave liquidity)) (fl_dodo liquidity)
      else Z.max (fl_aave liquidity) (fl_dodo liquidity) in
    if is_zero cap then {| fp_source := FBalancer; fp_action := Reject; fp_cap := 0 |}
    else
      let source :=
        if (allow_balancer && negb (is_zero (fl_balancer liquidity))
            && (fl_aave liquidity <=? fl_balancer liquidity))%bool then FBalancer
        else if (fl_aave_listed liquidity && (fl_dodo liquidity <=? fl_aave liquidity))%bool then FAaveV3
        else FDodo in
      {| fp_source := source; fp_action := CapAndReoptimize; fp_cap := cap |}.

Definition plan_flash_loan (policy : FlashLoanPolicy) (amount_in : Z) (liquidity : TokenFlashLiquidity)
    (forbid_balancer_flash balancer_only : bool) : FlashPlan :=
  if is_zero amount_in then {| fp_source := FBalancer; fp_action := Reject; fp_cap := 0 |}
  else if forbid_balancer_flash then
    if balancer_only then {| fp_source := FDirect; fp_action := PlanDirect; fp_cap := amount_in |}
    else if negb (aave_viable liquidity) then
      if negb (is_zero (fl_dodo liquidity)) then plan_single FDodo amount_in (fl_dodo liquidity)
      else {| fp_source := FAaveV3; fp_action := Reject; fp_cap := 0 |}
    else plan_single FAaveV3 amount_in (fl_aave liquidity)
  else
    match policy with
    | Auto => plan_auto amount_in liquidity true
    | BalancerOnly => plan_single FBalancer amount_in (fl_balancer liquidity)
    | AaveOnly =>
        if negb (fl_aave_listed liquidity) then {| fp_source := FAaveV3; fp_action := Reject; fp_cap := 0 |}
        else plan_single FAaveV3 amount_in (fl_aave liquidity)
    end.

Definition route_balancer_flash_capacity (arena : StateArena) (cycle : FoundCycle) : Z :=
  let_some start_addr := token_address arena (fc_start_token cycle) or 0 in
  fold_left (λ max edge,
    if negb (is_balancer_edge edge) then max
    else match pool_state arena (pool_index edge) with
         | Some (PBalancer state) =>
             let_some idx := position (λ t, t =? start_addr) (bl_tokens state) or max in
             match bl_balances state !! idx with Some b => Z.max max b | None => max end
         | _ => max
         end) (fc_edges cycle) 0.

Definition effective_balancer_liquidity (snapshot route_cap : Z) : Z :=
  match is_zero snapshot, is_zero route_cap with
  | true, true => 0
  | true, false => route_cap
  | false, true => snapshot
  | false, false => Z.min snapshot route_cap
  end.

Definition build_cycle_flash_context (cycle : FoundCycle) (arena : StateArena) : option CycleFlashContext :=
  let? start_addr := token_address arena (fc_start_token cycle) in
  let snapshot := token_liquidity now ttl start_addr flash in
  let route_cap := route_balancer_flash_capacity arena cycle in
  let has_dodo := match dodo_base_flash_pool_for_cycle arena cycle with Some _ => true | None => false end in
  Some {| cx_liquidity :=
            {| fl_balancer := effective_balancer_liquidity (fl_balancer snapshot) route_cap;
               fl_aave := fl_aave snapshot; fl_aave_listed := fl_aave_listed snapshot;
               fl_dodo := if has_dodo then U256_MAX else 0 |};
          cx_forbid_balancer_flash := route_uses_balancer_vault_swap cycle;
          cx_balancer_only := route_is_balancer_only cycle; cx_has_dodo := has_dodo;
          cx_start_addr := start_addr; cx_start_fresh := has_fresh now ttl start_addr flash |}.

Definition flash_reject_reason (ctx : CycleFlashContext) (policy : FlashLoanPolicy) (amount_in : Z)
  : option FlashRejectReason :=
  if is_zero amount_in then Some ZeroAmount
  else if (cx_balancer_only ctx && cx_forbid_balancer_flash ctx)%bool then None
  else
    let plan := plan_flash_loan policy amount_in (cx_liquidity ctx) (cx_forbid_balancer_flash ctx)
                  (cx_balancer_only ctx) in
    match fp_action plan with
    | Reject =>
        if negb (cx_start_fresh ctx) then Some ColdCache
        else if (cx_forbid_balancer_flash ctx && negb (cx_balancer_only ctx)
                 && negb (aave_viable (cx_liquidity ctx)))%bool then Some MixedBalancerNoAave
        else if (match policy with AaveOnly => true | _ => false end
                 && negb (fl_aave_listed (cx_liquidity ctx)))%bool then Some AaveUnlisted
        else Some ZeroLiquidity
    | _ =>
        match align_flash_source_for_dispatch (fp_source plan) (cx_liquidity ctx) (cx_balancer_only ctx)
                (cx_has_dodo ctx) (cx_forbid_balancer_flash ctx) with
        | None => Some AlignDispatch
        | Some _ => None
        end
    end.

Definition resolve_flash_source_with_context (ctx : CycleFlashContext) (policy : FlashLoanPolicy)
    (amount_in : Z) : option FlashLoanSource :=
  if is_zero amount_in then None
  else
    let plan := plan_flash_loan policy amount_in (cx_liquidity ctx) (cx_forbid_balancer_flash ctx)
                  (cx_balancer_only ctx) in
    match fp_action plan with
    | Reject => if (cx_balancer_only ctx && cx_forbid_balancer_flash ctx)%bool then Some FDirect else None
    | _ => align_flash_source_for_dispatch (fp_source plan) (cx_liquidity ctx) (cx_balancer_only ctx)
             (cx_has_dodo ctx) (cx_forbid_balancer_flash ctx)
    end.

Definition resolve_flash_source_for_cycle (cycle : FoundCycle) (arena : StateArena)
    (policy : FlashLoanPolicy) (amount_in : Z) : option FlashLoanSource :=
  let? ctx := build_cycle_flash_context cycle arena in
  resolve_flash_source_with_context ctx policy amount_in.
End snapshot.

(** The tokens whose liquidity a cycle needs; [out] is the list so far, [seen] its set. *)
Definition push_flash_token (arena : StateArena) (so : gset Z * list Address) (token : TokenIndex)
  : gset Z * list Address :=
  match token_address arena token with
  | Some addr => if bool_decide (addr ∈ so.1) then so else ({[addr]} ∪ so.1, so.2 ++ [addr])
  | None => so
  end.

Definition collect_flash_tokens_for_cycle (arena : StateArena) (cycle : FoundCycle)
    (so : gset Z * list Address) : gset Z * list Address :=
  if route_uses_balancer_vault_swap cycle
  then fold_left (push_flash_token arena) (token_in <$> fc_edges cycle) so
  else push_flash_token arena so (fc_start_token cycle).

(** ** The refresh publishes the chain's state *)

Section honest.
Context {P Bytes : Type}.
Context (execute_multicall : P → list MulticallItem → option (list (option Bytes)) * P).
Context (decode_reserves_list : Bytes → option (list Address))
  (decode_balance_of : Bytes → option Z) (decode_reserve_data : Bytes → option (Z * Address)).
(** A network that answers every item, and what it says. *)
Context (answer : MulticallItem → Bytes).
Context (honest : ∀ p items, (execute_multicall p items).1 = Some (Some ∘ answer <$> items)).
Context (balance_of : Address → Address → Z) (reserve_data : Address → Z * Address).
Context (balances_decode : ∀ token account,
  decode_balance_of (answer {| mi_target := token; mi_data := BalanceOf account |}) = Some (balance_of token account)).
Context (reserves_decode : ∀ pool asset,
  decode_reserve_data (answer {| mi_target := pool; mi_data := GetReserveData asset |}) = Some (reserve_data asset)).

(** A token that can be borrowed from Aave: listed, not pinned, and with open flags. *)
Definition lendable (aave_reserves : option (gset Z)) (pins : gset Z) (token : Address) : bool :=
  (aave_reserve_needs_fetch aave_reserves token && negb (bool_decide (token ∈ pins))
   && negb ((reserve_data token).2 =? 0)
   && aave_reserve_flash_eligible (reserve_data token).1)%bool.

(** The entry the chain's state amounts to. *)
Definition chain_entry (aave_reserves : option (gset Z)) (self : FlashLiquidityCache) (now : Z)
    (token : Address) : CachedLiquidity :=
  let listed := lendable aave_reserves (fc_aave_inactive_pins self) token in
  {| ce_snapshot :=
       {| fl_balancer := balance_of token (fc_balancer_vault self);
          fl_aave := if listed then balance_of token (reserve_data token).2 else 0;
          fl_aave_listed := listed; fl_dodo := 0 |};
     ce_fetched_at := now |}.

Definition reserve_of (aave_reserves : option (gset Z)) (pins : gset Z) (token : Address) : option Address :=
  if lendable aave_reserves pins token then Some (reserve_data token).2 else None.

Lemma reserves_loop_honest aave_reserves pins pool results to_fetch : ∀ cursor,
  drop cursor results =
    Some ∘ answer <$> ((λ token, {| mi_target := pool; mi_data := GetReserveData token |}) <$>
      filter (λ token, aave_reserve_needs_fetch aave_reserves token = true) to_fetch) →
  reserves_loop decode_reserve_data aave_reserves pins results to_fetch cursor =
    reserve_of aave_reserves pins <$> to_fetch.
Proof using reserves_decode.
  induction to_fetch as [|token to_fetch IH]; intros cursor Hd; [done|].
  cbn [reserves_loop fmap list_fmap]. unfold reserve_of at 1, lendable, aave_reserve_flash_eligible.
  rewrite filter_cons in Hd. destruct (aave_reserve_needs_fetch aave_reserves token) eqn:Eq; cbn [negb andb].
  - rewrite decide_True in Hd by done. cbn [fmap list_fmap] in Hd.
    assert (results !! cursor = Some (Some (answer {| mi_target := pool; mi_data := GetReserveData token |}))) as Hc.
    { rewrite <- (Nat.add_0_r cursor), <- lookup_drop, Hd. done. }
    rewrite Hc, reserves_decode.
    rewrite IH by (replace (S cursor) with (cursor + 1)%nat by lia; rewrite <- drop_drop, Hd; done).
    f_equal. destruct (reserve_data token) as [cfg a]. cbn [fst snd].
    case_bool_decide; cbn [negb andb]; [done|].
    destruct (a =? 0); cbn [negb andb]; [done|].
    by destruct (reserve_status_from_config cfg true).
  - rewrite decide_False in Hd by done. rewrite (IH cursor Hd). f_equal. by case_bool_decide.
Qed.

Lemma aave_items_honest aave_reserves pins to_fetch :
  aave_items to_fetch (reserve_of aave_reserves pins <$> to_fetch) =
    (λ token, {| mi_target := token; mi_data := BalanceOf (reserve_data token).2 |}) <$>
      filter (λ token, lendable aave_reserves pins token = true) to_fetch.
Proof.
  unfold aave_items. induction to_fetch as [|token to_fetch IH]; [done|].
  cbn [zip zip_with fmap list_fmap omap list_omap]. unfold reserve_of at 1. rewrite filter_cons.
  destruct (lendable aave_reserves pins token).
  - rewrite decide_True by done. cbn [fmap list_fmap]. f_equal. exact IH.
  - rewrite decide_False by done. exact IH.
Qed.

Lemma updates_loop_honest aave_reserves self now results aave_results vault_items to_fetch : ∀ i aave_index updates,
  fc_balancer_vault self = vault_items →
  take (length to_fetch) (drop i results) =
    Some ∘ answer <$> ((λ token, {| mi_target := token; mi_data := BalanceOf vault_items |}) <$> to_fetch) →
  drop aave_index aave_results =
    Some ∘ answer <$> ((λ token, {| mi_target := token; mi_data := BalanceOf (reserve_data token).2 |}) <$>
      filter (λ token, lendable aave_reserves (fc_aave_inactive_pins self) token = true) to_fetch) →
  ∀ t, updates_loop decode_balance_of now (fc_aave_inactive_pins self) results aave_results
    (zip to_fetch (reserve_of aave_reserves (fc_aave_inactive_pins self) <$> to_fetch)) i aave_index updates !! t =
    if bool_decide (t ∈ to_fetch) then Some (chain_entry aave_reserves self now t) else updates !! t.
Proof using balances_decode.
  induction to_fetch as [|token to_fetch IH]; intros i ai updates Hv Hr Ha t; [done|].
  cbn [zip zip_with fmap list_fmap updates_loop length] in *.
  assert (results !! i = Some (Some (answer {| mi_target := token; mi_data := BalanceOf vault_items |}))) as Hi.
  { rewrite <- (Nat.add_0_r i), <- lookup_drop. apply (f_equal (λ l, l !! O)) in Hr.
    rewrite lookup_take_lt in Hr by lia. exact Hr. }
  assert (take (length to_fetch) (drop (S i) results) =
    Some ∘ answer <$> ((λ token, {| mi_target := token; mi_data := BalanceOf vault_items |}) <$> to_fetch)) as Hr'.
  { replace (S i) with (i + 1)%nat by lia. rewrite <- drop_drop, take_drop_commute.
    replace (1 + length to_fetch)%nat with (S (length to_fetch)) by lia. by rewrite Hr. }
  rewrite filter_cons in Ha.
  set (listed := lendable aave_reserves (fc_aave_inactive_pins self) token) in *.
  assert ((negb (bool_decide (token ∈ fc_aave_inactive_pins self))
    && bool_decide (is_Some (reserve_of aave_reserves (fc_aave_inactive_pins self) token)))%bool = listed) as Hl.
  { subst listed. unfold reserve_of, lendable. destruct (aave_reserve_needs_fetch _ _); cbn [andb];
      case_bool_decide; cbn [negb andb]; try done; destruct (_ =? 0), (aave_reserve_flash_eligible _); done. }
  rewrite Hl. unfold decode_balance. rewrite Hi, balances_decode. cbn [default].
  assert (∀ e ai', drop ai' aave_results =
    Some ∘ answer <$> ((λ token, {| mi_target := token; mi_data := BalanceOf (reserve_data token).2 |}) <$>
      filter (λ token, lendable aave_reserves (fc_aave_inactive_pins self) token = true) to_fetch) →
    e = chain_entry aave_reserves self now token →
    updates_loop decode_balance_of now (fc_aave_inactive_pins self) results aave_results
      (zip to_fetch (reserve_of aave_reserves (fc_aave_inactive_pins self) <$> to_fetch)) (S i) ai'
      (<[token := e]> updates) !! t =
    if bool_decide (t ∈ token :: to_fetch) then Some (chain_entry aave_reserves self now t) else updates !! t) as Hgo.
  { intros e ai' Hai ->. rewrite (IH (S i) ai' _ Hv Hr' Hai). destruct (bool_decide_reflect (t ∈ to_fetch)) as [Ht|Ht].
    - by rewrite bool_decide_eq_true_2 by (by right).
    - destruct (decide (t = token)) as [->|Hne].
      + by rewrite lookup_insert_eq, bool_decide_eq_true_2 by (by left).
      + rewrite lookup_insert_ne by done. rewrite bool_decide_eq_false_2; [done|]. by intros [|]%elem_of_cons. }
  destruct listed eqn:El.
  - rewrite decide_True in Ha by done. cbn [fmap list_fmap] in Ha.
    assert (aave_results !! ai = Some (Some (answer {| mi_target := token; mi_data := BalanceOf (reserve_data token).2 |}))) as Hai.
    { rewrite <- (Nat.add_0_r ai), <- lookup_drop, Ha. done. }
    rewrite Hai, balances_decode. cbn [default]. apply Hgo.
    + replace (S ai) with (ai + 1)%nat by lia. by rewrite <- drop_drop, Ha.
    + unfold chain_entry. fold listed. by rewrite El, Hv.
  - rewrite decide_False in Ha by done. apply Hgo; [exact Ha|]. unfold chain_entry. fold listed. by rewrite El, Hv.
Qed.

(** A refresh publishes the chain's state.  Over a network that answers every call, each
    fetched token gets the vault's balance, and Aave's balance exactly when the reserve is
    listed, active, not paused, open for flash loans and not pinned - whatever the order and
    number of the tokens, although the answers come as two packed lists.  Every other
    token keeps its entry. *)
Theorem fetch_publishes_chain_state (now : Z) (to_fetch : list Address) (self : FlashLiquidityCache) (p : P) :
  ∃ self' p', fetch_and_publish execute_multicall decode_reserves_list decode_balance_of decode_reserve_data
      now to_fetch self p = (true, self', p') ∧
    ∀ t, fs_entries (fc_inner self') !! t =
      if bool_decide (t ∈ to_fetch)
      then Some (chain_entry (fetch_reserves_list execute_multicall decode_reserves_list now self p).1.1 self now t)
      else fs_entries (fc_inner self) !! t.
Proof using honest balances_decode reserves_decode.
  unfold fetch_and_publish. case_bool_decide as Hne.
  { subst. exists self, p. split; [done|]. intros t. by rewrite bool_decide_eq_false_2 by set_solver. }
  assert (∀ reserves self1 p1, fetch_reserves_list execute_multicall decode_reserves_list now self p = (reserves, self1, p1) →
    fc_inner self1 = fc_inner self ∧ fc_balancer_vault self1 = fc_balancer_vault self ∧
    fc_aave_inactive_pins self1 = fc_aave_inactive_pins self) as Hsame.
  { intros reserves self1 p1. unfold fetch_reserves_list.
    destruct (let? c := fc_aave_reserves self in _); [by intros [= <- <- <-]|].
    destruct (execute_multicall p _) as [res p2]. destruct (let? results := res in _); by intros [= <- <- <-]. }
  destruct (fetch_reserves_list _ _ now self p) as [[reserves self1] p1] eqn:Er. cbn [fst].
  destruct (Hsame _ _ _ eq_refl) as (Hin & Hva & Hpins). clear Hsame.
  assert (∀ t, chain_entry reserves self1 now t = chain_entry reserves self now t) as Hce
    by (intros; unfold chain_entry; by rewrite Hva, Hpins).
  unfold fetch_updates. pose proof (honest p1 (fetch_items reserves to_fetch self1)) as Hh.
  destruct (execute_multicall p1 _) as [results p2]. cbn [fst] in Hh. subst results.
  set (results := Some ∘ answer <$> fetch_items reserves to_fetch self1).
  assert (results = (Some ∘ answer <$> ((λ token, {| mi_target := token; mi_data := BalanceOf (fc_balancer_vault self1) |}) <$> to_fetch))
    ++ (Some ∘ answer <$> ((λ token, {| mi_target := fc_aave_pool self1; mi_data := GetReserveData token |}) <$>
          filter (λ token, aave_reserve_needs_fetch reserves token = true) to_fetch))) as Hres
    by (subst results; unfold fetch_items; by rewrite fmap_app).
  rewrite (reserves_loop_honest reserves (fc_aave_inactive_pins self1) (fc_aave_pool self1)).
  2:{ rewrite Hres, drop_app_length'; [done|]. by rewrite !length_fmap. }
  rewrite aave_items_honest. set (items := _ <$> filter _ to_fetch).
  assert (∃ p3, match items with [] => (Some [], p2) | _ => execute_multicall p2 items end =
    (Some (Some ∘ answer <$> items), p3)) as [p3 Hp3].
  { destruct items as [|x l]; [by exists p2|]. pose proof (honest p2 (x :: l)) as Hh.
    destruct (execute_multicall p2 (x :: l)) as [r p3]. cbn [fst] in Hh. subst r. by exists p3. }
  rewrite Hp3. eexists _, _. split; [done|]. intros t.
  set (updates := updates_loop _ _ _ _ _ _ _ _ _).
  assert (∀ t, updates !! t = if bool_decide (t ∈ to_fetch) then Some (chain_entry reserves self1 now t) else None) as Hu.
  { intros t'. rewrite <- (lookup_empty (M := gmap Z) t').
    apply (updates_loop_honest reserves self1 now results _ (fc_balancer_vault self1)); [done| |done].
    rewrite drop_0, Hres. apply take_app_length'. by rewrite !length_fmap. }
  unfold publish_updates. case_bool_decide as Hemp.
  - destruct to_fetch as [|x l]; [done|]. specialize (Hu x).
    rewrite Hemp, lookup_empty, bool_decide_eq_true_2 in Hu by (by left). done.
  - cbn [fc_inner set_inner fs_entries]. rewrite lookup_union, Hu, Hin.
    case_bool_decide; [by rewrite Hce, union_Some_l|by rewrite (left_id None _)].
Qed.
End honest.

(** ** The invariant of the cache *)

(** A pinned token offers nothing on Aave. *)
Definition pins_hold (pins : gset Z) (entries : gmap Z CachedLiquidity) : Prop :=
  ∀ t e, t ∈ pins → entries !! t = Some e →
    fl_aave_listed (ce_snapshot e) = false ∧ fl_aave (ce_snapshot e) = 0.

Definition cache_ok (self : FlashLiquidityCache) : Prop :=
  pins_hold (fc_aave_inactive_pins self) (fs_entries (fc_inner self)) ∧
  (size (fc_hot_tokens self) ≤ MAX_HOT_FLASH_TOKENS)%nat ∧
  0 ≤ generation self ≤ u64_max.

(** What the service does with the cache, each refresh as one step, over any network. *)
Inductive flash_step (c : FlashLiquidityCache) : FlashLiquidityCache → Prop :=
| step_track tokens : flash_step c (track_hot_tokens tokens c)
| step_fetch {P Bytes} (exec : P → list MulticallItem → option (list (option Bytes)) * P) d1 d2 d3 now to_fetch p :
    flash_step c (fetch_and_publish exec d1 d2 d3 now to_fetch c p).1.2
| step_invalidate tokens : flash_step c (invalidate_batch tokens c)
| step_mark now token : flash_step c (mark_aave_inactive now token c)
| step_acquire c' : try_acquire_refresh_inflight c = Some c' → flash_step c c'
| step_release : flash_step c (release_refresh_inflight c).

Lemma updates_loop_pins {Bytes} (d : Bytes → option Z) now pins results aave_results tokens : ∀ i ai updates,
  pins_hold pins updates → pins_hold pins (updates_loop d now pins results aave_results tokens i ai updates).
Proof.
  induction tokens as [|[token reserve] tokens IH]; intros i ai updates H; cbn [updates_loop]; [done|].
  apply IH. intros t e Ht. rewrite lookup_insert. case_decide as Heq; [|by apply H].
  subst t. intros [= <-]. cbn. by rewrite bool_decide_eq_true_2 by done.
Qed.

Lemma next_generation_ok s : 0 ≤ fs_generation s → 0 ≤ next_generation s ≤ u64_max.
Proof. unfold next_generation. assert (0 < u64_max) by (by vm_compute). lia. Qed.

Lemma publish_updates_ok updates c :
  cache_ok c → pins_hold (fc_aave_inactive_pins c) updates → cache_ok (publish_updates updates c).
Proof.
  intros (Hp & Hh & Hg) Hu. unfold publish_updates. case_bool_decide; [done|].
  split; [|split; [done|apply (next_generation_ok (fc_inner c)), Hg]]. cbn.
  intros t e Ht. rewrite lookup_union. destruct (updates !! t) as [x|] eqn:E.
  - rewrite union_Some_l. intros [= <-]. by apply (Hu t).
  - rewrite (left_id None _). by apply Hp.
Qed.

Lemma fetch_ok {P Bytes} (exec : P → list MulticallItem → option (list (option Bytes)) * P) d1 d2 d3 now
    to_fetch c p :
  cache_ok c → cache_ok (fetch_and_publish exec d1 d2 d3 now to_fetch c p).1.2.
Proof.
  intros H. unfold fetch_and_publish. case_bool_decide; [done|].
  assert (cache_ok (fetch_reserves_list exec d1 now c p).1.2) as H1.
  { unfold fetch_reserves_list. destruct (let? c := fc_aave_reserves c in _); [done|].
    destruct (exec p _) as [res p2]. by destruct (let? results := res in _). }
  destruct (fetch_reserves_list exec d1 now c p) as [[reserves c1] p1]. cbn [fst snd] in H1.
  unfold fetch_updates. destruct (exec p1 _) as [[results|] p2]; [|done].
  destruct (match aave_items _ _ with [] => _ | _ => _ end) as [[aave_results|] p3]; [|done]. cbn [fst snd].
  apply publish_updates_ok; [done|]. apply updates_loop_pins. by intros ? ? ? ?%lookup_empty_Some.
Qed.

Lemma track_size tokens c : (size (fc_hot_tokens (track_hot_tokens tokens c)) ≤ MAX_HOT_FLASH_TOKENS)%nat.
Proof.
  unfold track_hot_tokens. destruct (Nat.leb_spec (size (list_to_set tokens ∪ fc_hot_tokens c)) MAX_HOT_FLASH_TOKENS)
    as [|]; [done|]. cbn [fc_hot_tokens set_hot_tokens].
  set (cur := take _ _). set (prior := take _ _).
  assert (∀ l : list Z, size (list_to_set l : gset Z) ≤ length l)%nat as Hl.
  { induction l as [|x l IH]; [by rewrite list_to_set_nil, size_empty|].
    rewrite list_to_set_cons, size_union_alt. cbn [length]. rewrite size_singleton.
    assert (size ((list_to_set l : gset Z) ∖ {[x]}) ≤ size (list_to_set l : gset Z))%nat by (apply subseteq_size; set_solver).
    lia. }
  rewrite size_union_alt. pose proof (Hl cur). 
  assert (size ((list_to_set prior : gset Z) ∖ list_to_set cur) ≤ size (list_to_set prior : gset Z))%nat
    by (apply subseteq_size; set_solver).
  pose proof (Hl prior).
  assert (length prior ≤ MAX_HOT_FLASH_TOKENS - length cur)%nat by (subst prior; rewrite length_take; lia).
  assert (length cur ≤ MAX_HOT_FLASH_TOKENS)%nat by (subst cur; rewrite length_take; lia). lia.
Qed.

Lemma flash_step_ok c c' : cache_ok c → flash_step c c' → cache_ok c'.
Proof.
  intros H Hs. pose proof H as (Hp & Hh & Hg).
  destruct Hs as [tokens|P Bytes exec d1 d2 d3 now to_fetch p|tokens|now token|c' Ha|].
  - split; [|split; [apply track_size|]]; unfold track_hot_tokens, generation in *; by destruct (_ <=? _)%nat.
  - by apply fetch_ok.
  - unfold invalidate_batch. destruct (forallb _ tokens); [done|].
    split; [|split; [done|apply (next_generation_ok (fc_inner c)), Hg]]. cbn. intros t e Ht He. apply (Hp t); [done|].
    clear -He. revert He. generalize (fs_entries (fc_inner c)). induction tokens as [|x l IH]; intros m He; [done|].
    cbn [fold_left] in He. apply IH in He. rewrite lookup_delete in He. by case_decide.
  - split; [|split; [done|apply (next_generation_ok (fc_inner c)), Hg]]. cbn. intros t e Ht.
    rewrite lookup_insert. case_decide as Heq; [by intros [= <-]|]. apply Hp. set_solver.
  - unfold try_acquire_refresh_inflight in Ha. destruct (fc_refresh_inflight c); [done|]. by injection Ha as <-.
  - done.
Qed.

(** In every state the cache can reach with whole refreshes, over any network, a token
    pinned after a failed loan offers nothing on Aave, the set of hot tokens is bounded,
    and the generation fits its type. *)
Theorem flash_cache_invariant (c : FlashLiquidityCache) :
  rtc flash_step new c →
  (∀ t now, t ∈ fc_aave_inactive_pins c → aave_viable_for_dispatch now t c = false) ∧
  (size (fc_hot_tokens c) ≤ MAX_HOT_FLASH_TOKENS)%nat ∧ 0 ≤ generation c ≤ u64_max.
Proof.
  intros H. assert (cache_ok c) as (Hp & Hh & Hg).
  { assert (cache_ok new) as H0.
    { split; [by intros t e _ He; cbn in He|]. split; [cbn; rewrite size_empty; lia|].
      by vm_compute. }
    revert H0. induction H; eauto using flash_step_ok. }
  split; [|done]. intros t now Ht. unfold aave_viable_for_dispatch, has_fresh, token_liquidity.
  destruct (fs_entries (fc_inner c) !! t) as [e|] eqn:E; [|done].
  destruct (fresh now (fc_ttl c) e); [|done]. cbn [negb]. unfold aave_viable.
  by destruct (Hp t e Ht E) as [-> ->].
Qed.

(** ** Plans *)

(** What the provider of a plan can lend. *)
Definition available (liquidity : TokenFlashLiquidity) (source : FlashLoanSource) : Z :=
  match source with
  | FBalancer => fl_balancer liquidity
  | FAaveV3 => if fl_aave_listed liquidity then fl_aave liquidity else 0
  | FDodo => fl_dodo liquidity
  | FDirect => U256_MAX
  end.

(** The liquidity a cycle's context holds: Aave's balance counts only when listed, and
    DODO lends everything or nothing. *)
Definition context_liquidity (liquidity : TokenFlashLiquidity) : Prop :=
  0 ≤ fl_balancer liquidity ∧ 0 ≤ fl_aave liquidity ∧
  (fl_aave_listed liquidity = false → fl_aave liquidity = 0) ∧
  (fl_dodo liquidity = 0 ∨ fl_dodo liquidity = U256_MAX).

Ltac plan_cases :=
  repeat match goal with
  | |- context [match ?b with _ => _ end] =>
      match b with
      | context [match _ with _ => _ end] => fail 1
      | _ => destruct b eqn:?
      end
  end.

Ltac close_plan := first [done | lia | by intros | (intros; discriminate)].

Ltac fields := cbn [fp_cap fp_source fp_action available].

Lemma plan_single_funded source amount available' :
  let plan := plan_single source amount available' in
  fp_source plan = source ∧
  (fp_action plan = Reject ∨ 0 < fp_cap plan ∧ fp_cap plan ≤ available' ∧ fp_cap plan ≤ amount ∧
     (fp_action plan = PlanDirect → fp_cap plan = amount)) ∨ available' < 0 ∨ amount ≤ 0.
Proof.
  cbv zeta. unfold plan_single, is_zero.
  destruct (Z.eqb_spec available' 0), (Z.leb_spec amount available'); cbn; try (left; split; [done|left; done]);
    (destruct (Z.le_gt_cases amount 0), (Z.le_gt_cases 0 available'); try (right; lia));
    left; (split; [done|right]); split_and!; try lia; done.
Qed.

(** The plan borrows a positive amount its provider has, no more than asked. *)
Definition plan_ok (liquidity : TokenFlashLiquidity) (amount_in : Z) (forbid_balancer_flash : bool)
    (plan : FlashPlan) : Prop :=
  fp_action plan = Reject ∨
  0 < fp_cap plan ∧ fp_cap plan ≤ amount_in ∧ fp_cap plan ≤ available liquidity (fp_source plan) ∧
  (fp_action plan = PlanDirect → fp_cap plan = amount_in) ∧
  (forbid_balancer_flash = true → fp_source plan ≠ FBalancer).

Lemma plan_single_ok liquidity source amount_in (f : bool) available' :
  0 < amount_in → 0 ≤ available' → (f = true → source ≠ FBalancer) → available' = available liquidity source →
  plan_ok liquidity amount_in f (plan_single source amount_in available').
Proof.
  intros Hamt Hav Hf Heq. unfold plan_ok.
  destruct (plan_single_funded source amount_in available') as [[Hs H]|[|]]; [|lia..].
  rewrite Hs. destruct H as [?|(? & ? & ? & ?)]; [by left|right]. rewrite <- Heq. by split_and!.
Qed.

Lemma plan_auto_ok liquidity amount_in :
  context_liquidity liquidity → 0 < amount_in ≤ U256_MAX →
  plan_ok liquidity amount_in false (plan_auto amount_in liquidity true).
Proof.
  intros (Hb & Ha & Hl & Hd) Hamt. unfold plan_ok, plan_auto, is_zero. cbn [andb].
  assert (0 ≤ fl_dodo liquidity) as Hd0 by (unfold U256_MAX, M256 in *; lia).
  destruct (Z.leb_spec amount_in (fl_balancer liquidity)); [right; fields; split_and!; close_plan|].
  destruct (fl_aave_listed liquidity) eqn:El; cbn [andb].
  - destruct (Z.leb_spec amount_in (fl_aave liquidity)); [right; fields; rewrite El; split_and!; close_plan|].
    destruct (Z.leb_spec amount_in (fl_dodo liquidity)); [right; fields; split_and!; close_plan|].
    destruct (Z.eqb_spec (Z.max (Z.max (fl_balancer liquidity) (fl_aave liquidity)) (fl_dodo liquidity)) 0); [by left|].
    right. cbn [fp_cap fp_source fp_action]. destruct (Z.eqb_spec (fl_balancer liquidity) 0); cbn [negb andb];
      [|destruct (Z.leb_spec (fl_aave liquidity) (fl_balancer liquidity))];
      try (fields; split_and!; close_plan);
      (destruct (Z.leb_spec (fl_dodo liquidity) (fl_aave liquidity)); fields; rewrite ?El; split_and!; close_plan).
  - specialize (Hl eq_refl). rewrite Hl.
    destruct (Z.leb_spec amount_in (fl_dodo liquidity)); [right; fields; split_and!; close_plan|].
    destruct (Z.eqb_spec (Z.max (Z.max (fl_balancer liquidity) 0) (fl_dodo liquidity)) 0); [by left|].
    right. cbn [fp_cap fp_source fp_action]. destruct (Z.eqb_spec (fl_balancer liquidity) 0); cbn [negb andb]; [lia|].
    destruct (Z.leb_spec 0 (fl_balancer liquidity)); [|lia]. fields. split_and!; close_plan.
Qed.

Lemma plan_flash_loan_ok policy amount_in liquidity forbid_balancer_flash balancer_only :
  context_liquidity liquidity → 0 ≤ amount_in ≤ U256_MAX →
  plan_ok liquidity amount_in forbid_balancer_flash
    (plan_flash_loan policy amount_in liquidity forbid_balancer_flash balancer_only).
Proof.
  intros Hctx Hamt. pose proof Hctx as (Hb & Ha & Hl & Hd). unfold plan_flash_loan.
  destruct (is_zero amount_in) eqn:E0; [by left|]. apply Z.eqb_neq in E0.
  assert (0 < amount_in) as Hpos by lia.
  assert (0 ≤ fl_dodo liquidity) as Hd0 by (unfold U256_MAX, M256 in *; lia).
  assert (fl_aave_listed liquidity = true → fl_aave liquidity = available liquidity FAaveV3) as Haave
    by (intros El; cbn; by rewrite El).
  destruct forbid_balancer_flash.
  - destruct balancer_only; [right; fields; split_and!; close_plan|]. unfold aave_viable.
    destruct (fl_aave_listed liquidity) eqn:El, (is_zero (fl_aave liquidity)),
      (is_zero (fl_dodo liquidity)); cbn [negb andb]; try (by left); apply plan_single_ok; auto; done.
  - destruct policy; [apply plan_auto_ok; [done|lia]|by apply plan_single_ok|].
    destruct (fl_aave_listed liquidity) eqn:El; cbn [negb]; [|by left]. by apply plan_single_ok; auto.
Qed.

(** A flash-loan plan is fundable.  Whatever the policy, a plan that is not rejected borrows
    a positive amount, no more than asked, that its own provider has available; a direct
    plan borrows all that was asked; and when the route swaps through the Balancer vault,
    the loan never comes from Balancer. *)
Theorem plan_flash_loan_funded (policy : FlashLoanPolicy) (amount_in : Z) (liquidity : TokenFlashLiquidity)
    (forbid_balancer_flash balancer_only : bool) :
  context_liquidity liquidity → 0 ≤ amount_in ≤ U256_MAX →
  let plan := plan_flash_loan policy amount_in liquidity forbid_balancer_flash balancer_only in
  fp_action plan = Reject ∨
  0 < fp_cap plan ∧ fp_cap plan ≤ amount_in ∧ fp_cap plan ≤ available liquidity (fp_source plan) ∧
  (fp_action plan = PlanDirect → fp_cap plan = amount_in) ∧
  (forbid_balancer_flash = true → fp_source plan ≠ FBalancer).
Proof. apply plan_flash_loan_ok. Qed.

(** A source the executor can dispatch on a route. *)
Definition dispatchable (ctx : CycleFlashContext) (source : FlashLoanSource) : Prop :=
  match source with
  | FAaveV3 => aave_viable (cx_liquidity ctx) = true
  | FDodo => cx_has_dodo ctx = true
  | FBalancer => cx_forbid_balancer_flash ctx = false
  | FDirect => cx_balancer_only ctx = true
  end.

Lemma align_dispatchable source liq only dodo vault s :
  (only = true → source = FBalancer → vault = false) →
  align_flash_source_for_dispatch source liq only dodo vault = Some s →
  match s with
  | FAaveV3 => aave_viable liq = true
  | FDodo => dodo = true
  | FBalancer => vault = false
  | FDirect => only = true
  end.
Proof.
  intros Hv. unfold align_flash_source_for_dispatch.
  destruct only, source, (aave_viable liq) eqn:Ea, dodo, vault, (is_zero (fl_balancer liq)); cbn; intros [= <-];
    try done; try (by rewrite Hv); by specialize (Hv eq_refl eq_refl).
Qed.

(** The source resolved for a cycle can be dispatched: Aave only with a viable reserve,
    DODO only with a pool off the route, Balancer only when no hop enters its vault, and no
    loan at all only for a pure Balancer route.  And evaluation and diagnosis agree: a
    source is missing exactly when there is a reason to reject. *)
Theorem resolved_source_dispatchable (ctx : CycleFlashContext) (policy : FlashLoanPolicy) (amount_in : Z) :
  (cx_balancer_only ctx = true → cx_forbid_balancer_flash ctx = true) →
  (∀ source, resolve_flash_source_with_context ctx policy amount_in = Some source → dispatchable ctx source) ∧
  (resolve_flash_source_with_context ctx policy amount_in = None ↔
     is_Some (flash_reject_reason ctx policy amount_in)).
Proof.
  intros Hvault. unfold resolve_flash_source_with_context, flash_reject_reason.
  destruct (is_zero amount_in) eqn:E0; [split; [done|by split]|].
  set (plan := plan_flash_loan _ _ _ _ _).
  assert (cx_balancer_only ctx = true →
    plan = {| fp_source := FDirect; fp_action := PlanDirect; fp_cap := amount_in |}) as Hdirect.
  { intros H1. subst plan. unfold plan_flash_loan. by rewrite E0, (Hvault H1), H1. }
  assert ((cx_balancer_only ctx && cx_forbid_balancer_flash ctx)%bool = cx_balancer_only ctx) as Eboth.
  { destruct (cx_balancer_only ctx); [by rewrite Hvault|done]. }
  rewrite Eboth.
  assert (∀ s, align_flash_source_for_dispatch (fp_source plan) (cx_liquidity ctx) (cx_balancer_only ctx)
    (cx_has_dodo ctx) (cx_forbid_balancer_flash ctx) = Some s → dispatchable ctx s) as Halign.
  { intros s Hs. unfold dispatchable. apply (align_dispatchable _ _ _ _ _ s) in Hs; [by destruct s|].
    intros Ho Hsrc. by rewrite (Hdirect Ho) in Hsrc. }
  destruct (cx_balancer_only ctx) eqn:Eo.
  - rewrite (Hdirect eq_refl). cbn [fp_action fp_source]. rewrite (Hdirect eq_refl) in Halign.
    split; [exact Halign|]. split; [done|by intros [? ?]].
  - split.
    + intros s. destruct (fp_action plan); [apply Halign..|done].
    + destruct (fp_action plan); [..|plan_cases; (split; [by eexists|done])];
        (destruct (align_flash_source_for_dispatch _ _ _ _ _);
         [split; [done|by intros [? ?]]|split; [by eexists|done]]).
Qed.

(** ** Starting where a loan exists *)

Lemma position_spec {A} (f : A → bool) l k :
  position f l = Some k → ∃ x, l !! k = Some x ∧ f x = true.
Proof.
  revert k. induction l as [|y l IH]; intros k; cbn [position]; [done|].
  destruct (f y) eqn:E; [intros [= <-]; by exists y|].
  destruct (position f l) as [j|]; [|done]. intros [= <-]. by apply IH.
Qed.

Lemma max_by_depth_in l : ∀ c, max_by_depth l = Some c → c ∈ l.
Proof.
  unfold max_by_depth. assert (∀ best c, fold_left (λ best c, match best with
    | Some b => if b.1 <=? c.1 then Some c else Some b | None => Some c end) l best = Some c →
    c ∈ l ∨ best = Some c) as H; [|intros c Hc; by destruct (H None c Hc)].
  induction l as [|x l IH]; intros best c; cbn [fold_left]; [by right|].
  intros [Hc|Hc]%IH; [left; by right|]. destruct best as [b|].
  - destruct (b.1 <=? x.1); injection Hc as <-; [left; by left|by right].
  - injection Hc as <-. left. by left.
Qed.

Lemma hop_tokens_address arena edges : ∀ seen a t,
  (a, t) ∈ hop_tokens arena seen edges → token_address arena t = Some a.
Proof.
  induction edges as [|e edges IH]; intros seen a t; cbn [hop_tokens]; [by intros ?%elem_of_nil|].
  case_bool_decide; [apply IH|]. destruct (token_address arena (token_in e)) as [addr|] eqn:E; [|apply IH].
  intros [[= -> ->]|Ht]%elem_of_cons; [done|by apply IH in Ht].
Qed.

Lemma flash_candidates_spec now ttl flash usable depth rates tokens d t :
  (d, t) ∈ flash_candidates now ttl flash usable depth rates tokens →
  ∃ a, (a, t) ∈ tokens ∧ usable (token_liquidity now ttl a flash) = true ∧ has_reliable_matic_rate t rates = true.
Proof.
  unfold flash_candidates. intros ([a t'] & Hin & H)%list_elem_of_omap. cbn [fst snd] in H.
  destruct (usable _ && has_reliable_matic_rate t' rates)%bool eqn:E; [|done].
  injection H as <- <-. apply andb_true_iff in E as []. by exists a.
Qed.

Lemma aave_viable_borrowable liq : aave_viable liq = true → token_flash_liquidity_borrowable liq = true.
Proof. unfold token_flash_liquidity_borrowable. intros ->. by rewrite !orb_true_r. Qed.

(** The preferred start of a cycle is the cycle itself or a rotation of it, never another
    route: the same hops in the same circular order, beginning and ending at the new start,
    whose token has a reliable rate and liquidity to borrow. *)
Theorem preferred_start_rotates (now ttl : Z) (flash : FlashLiquiditySnapshot) (cycle : FoundCycle)
    (arena : StateArena) (rates : gmap Z Z) :
  let r := prefer_aave_flash_start now ttl flash cycle arena rates in
  r = cycle ∨
  ∃ k e first' a, fc_edges r = rotate_by k (fc_edges cycle) ∧
    head (fc_edges r) = Some first' ∧ token_in first' = fc_start_token r ∧
    last (fc_edges r) = Some e ∧ token_out e = fc_start_token r ∧
    has_reliable_matic_rate (fc_start_token r) rates = true ∧
    token_address arena (fc_start_token r) = Some a ∧
    token_flash_liquidity_borrowable (token_liquidity now ttl a flash) = true.
Proof.
  cbv zeta. unfold prefer_aave_flash_start. destruct (route_is_balancer_only cycle); [by left|].
  destruct (_ && _)%bool; [by left|].
  set (cands := if route_uses_balancer_vault_swap cycle then _ else _).
  destruct (max_by_depth cands) as [[d best]|] eqn:Em; [|by left].
  destruct (best =? fc_start_token cycle); [by left|].
  assert (∃ a, (a, best) ∈ hop_tokens arena ∅ (fc_edges cycle) ∧
    token_flash_liquidity_borrowable (token_liquidity now ttl a flash) = true ∧
    has_reliable_matic_rate best rates = true) as (a & Ha & Hb & Hrate).
  { apply max_by_depth_in in Em. subst cands.
    destruct (route_uses_balancer_vault_swap cycle); apply flash_candidates_spec in Em as (a & ? & ? & ?);
      exists a; split_and!; try done. by apply aave_viable_borrowable. }
  apply hop_tokens_address in Ha.
  unfold rotate_cycle_to_start. case_bool_decide; [by left|].
  destruct (position _ _) as [k|] eqn:Ek; [|by left].
  apply position_spec in Ek as (first' & Hk & Hfirst). apply Z.eqb_eq in Hfirst.
  destruct (last (rotate_by k (fc_edges cycle))) as [e|] eqn:El; [|by left].
  destruct (Z.eqb_spec (token_out e) best); [|by left]. right. cbn [default fc_edges fc_start_token].
  exists k, e, first', a. split_and!; try done.
  unfold rotate_by. by rewrite (drop_S _ first' k).
Qed.

(** ** Witnesses, and a pin lost in a race *)

(** A network where the vault holds [2000] and Aave [500] of every token, with an open
    reserve. *)
Definition demo_answer (item : MulticallItem) : CallData := mi_data item.
Definition demo_exec (p : unit) (items : list MulticallItem) : option (list (option CallData)) * unit :=
  (Some (Some ∘ demo_answer <$> items), p).
Definition demo_list (b : CallData) : option (list Address) := Some [7; 8].
Definition demo_balance (b : CallData) : option Z :=
  match b with BalanceOf account => Some (if account =? BALANCER_VAULT then 2000 else 500) | _ => None end.
Definition demo_open : Z := 2 ^ 56 + 2 ^ 63.
Definition demo_reserve (b : CallData) : option (Z * Address) :=
  match b with GetReserveData asset => Some (demo_open, asset + 100) | _ => None end.

(** A refresh in flight loses a pin.  The pinned tokens are read before the balances are
    fetched; a token pinned in between is published with the liquidity that was read, and
    is offered again although it is pinned. *)
Theorem pin_lost_in_flight :
  ∃ updates,
    (fetch_updates demo_exec demo_balance demo_reserve 0 [7] (Some {[7]}) new tt).1 = Some updates ∧
    let c := publish_updates updates (mark_aave_inactive 0 7 new) in
    7 ∈ fc_aave_inactive_pins c ∧ aave_viable_for_dispatch 1 7 c = true.
Proof. eexists. split; [vm_compute; reflexivity|]. split; [vm_compute; by constructor|vm_compute; reflexivity]. Qed.

Lemma fetch_publishes_chain_state_witness :
  ∃ c p, fetch_and_publish demo_exec demo_list demo_balance demo_reserve 5 [9; 7; 8] (mark_aave_inactive 0 8 new) tt
      = (true, c, p) ∧
    snapshot 6 7 c = {| fl_balancer := 2000; fl_aave := 500; fl_aave_listed := true; fl_dodo := 0 |}.
Proof.
  destruct (fetch_publishes_chain_state demo_exec demo_list demo_balance demo_reserve demo_answer
    (λ p items, eq_refl) (λ _ account, if account =? BALANCER_VAULT then 2000 else 500)
    (λ asset, (demo_open, asset + 100)) (λ _ _, eq_refl) (λ _ _, eq_refl)
    5 [9; 7; 8] (mark_aave_inactive 0 8 new) tt) as (c & p & H & Hc).
  exists c, p. split; [exact H|]. specialize (Hc 7). unfold snapshot, token_liquidity. rewrite Hc.
  assert (fc_ttl c = CACHE_TTL) as Ht by (vm_compute in H; by injection H as <- _).
  rewrite Ht. vm_compute. reflexivity.
Defined.

Lemma flash_cache_invariant_witness :
  aave_viable_for_dispatch 3 7 (mark_aave_inactive 2 7
    (fetch_and_publish demo_exec demo_list demo_balance demo_reserve 1 [7] new tt).1.2) = false.
Proof.
  apply flash_cache_invariant.
  - eapply rtc_l; [exact (step_fetch new demo_exec demo_list demo_balance demo_reserve 1 [7] tt)|].
    eapply rtc_l; [exact (step_mark _ 2 7)|]. apply rtc_refl.
  - vm_compute. by constructor.
Defined.

Definition demo_liquidity : TokenFlashLiquidity :=
  {| fl_balancer := 2000; fl_aave := 500; fl_aave_listed := true; fl_dodo := 0 |}.

Lemma plan_flash_loan_funded_witness :
  plan_flash_loan Auto 3000 demo_liquidity true false =
    {| fp_source := FAaveV3; fp_action := CapAndReoptimize; fp_cap := 500 |} ∧
  fp_source (plan_flash_loan Auto 3000 demo_liquidity true false) ≠ FBalancer.
Proof.
  split; [reflexivity|].
  destruct (plan_flash_loan_funded Auto 3000 demo_liquidity true false) as [H|(_ & _ & _ & _ & H)].
  - split_and!; cbn; first [lia | done | by left].
  - unfold U256_MAX, M256. lia.
  - discriminate H.
  - by apply H.
Defined.

Lemma resolved_source_dispatchable_witness :
  dispatchable {| cx_liquidity := demo_liquidity; cx_forbid_balancer_flash := true; cx_balancer_only := false;
                  cx_has_dodo := false; cx_start_addr := 7; cx_start_fresh := true |} FAaveV3.
Proof.
  refine (proj1 (resolved_source_dispatchable _ Auto 3000 _) FAaveV3 _); [discriminate|reflexivity].
Defined.
