(* ===== verification/Assess.v ===== *)
(** * Assessing a simulated route

    The second half of [src/src/services/execution/profit.rs]: which gas a route is
    charged, the thresholds, and the entry points that feed [assess_profit]; the
    reassessment after a dry run ([candidate.rs], [service.rs]) and the choice of the
    executor's entry point ([candidate.rs]). *)
From stdpp Require Import gmap.
From Corelib Require Import SpecFloat.
From S2P Require Import Prelude Word Types Gas Profit GasOracle Arena Routes SimSanity TokenRates.
From S2P Require Import Ternary Submit FlashLiquidity.

(** ** The bootstrap rate ([price_oracle.rs], [rates.rs]) *)

Definition RATE_PRECISION : Z := 1000000000000000000.
Definition DEFAULT_MATIC_USD : f64 := S754_zero false.

(** [(x * 1e18).round() as u128], a saturating cast. *)
Definition micro_u128 (x : f64) : Z :=
  match SFmul 53 1024 x (binary_normalize 53 1024 (10 ^ 18) 0 false) with
  | S754_finite false m e => Z.min (f64_round m e) (M128 - 1)
  | S754_infinity false => M128 - 1
  | _ => 0
  end.

Definition token_usd_to_matic_rate_per_unit (token_usd matic_usd : f64) : Z :=
  if negb (f64_is_finite token_usd && f64_is_finite matic_usd
           && f64_is_positive token_usd && f64_is_positive matic_usd)%bool then 0
  else
    let token_micro := micro_u128 token_usd in
    let matic_micro := micro_u128 matic_usd in
    if ((token_micro =? M128 - 1) || (matic_micro =? 0) || (matic_micro =? M128 - 1))%bool then 0
    else (token_micro *% RATE_PRECISION) / matic_micro.

Definition bootstrap_matic_rate_per_unit : Z :=
  token_usd_to_matic_rate_per_unit (binary_normalize 53 1024 1 0 false) DEFAULT_MATIC_USD.

Definition resolve_token_to_matic_rate (token : TokenIndex) (rates : gmap Z Z) : Z :=
  default bootstrap_matic_rate_per_unit (lookup_matic_rate token rates).

(** ** The context of a size search *)

Definition with_safety_multiplier (cycle_start : TokenIndex) (arena : StateArena)
    (token_to_matic_rates token_decimals : gmap Z Z) (gas_price slippage_bps : Z)
    (flash_source : FlashLoanSource) (safety_multiplier_bps : Z) : ProfitEvalContext :=
  {| cx_gas_price := gas_price; cx_charged_priority_fee_per_gas := MIN_PRIORITY_FEE_PER_GAS;
     cx_flash_source := flash_source; cx_slippage_bps := slippage_bps;
     cx_token_to_matic_rate := resolve_token_to_matic_rate cycle_start token_to_matic_rates;
     cx_token_decimals := resolve_token_decimals_for_index cycle_start arena token_decimals;
     cx_safety_multiplier_bps := safety_multiplier_bps; cx_gas_scale_bps := 10000;
     cx_profit_priority_alpha_bps := 0; cx_hop_count := 1 |}.

Definition for_cycle (cycle_start : TokenIndex) (arena : StateArena)
    (token_to_matic_rates token_decimals : gmap Z Z) (gas_price slippage_bps : Z)
    (flash_source : FlashLoanSource) : ProfitEvalContext :=
  with_safety_multiplier cycle_start arena token_to_matic_rates token_decimals gas_price
    slippage_bps flash_source 0.

(** ** Requests *)

Record RouteProfitParams := {
  rp_gross_profit : Z;
  rp_amount_in : Z;
  rp_gas_units : Z;
  rp_hop_count : Z;
  rp_slippage_bps : Z;
  rp_flash_loan_source : FlashLoanSource;
}.

Record ProfitThresholds := {
  th_min_profit_matic_wei : Z;
  th_min_profit_roi_bps : Z;
  th_safety_multiplier_bps : Z;
  th_profit_priority_alpha_bps : Z;
  th_charged_priority_fee_per_gas : Z;
}.

Definition route_profit_thresholds (min_profit_matic min_profit_roi_bps safety_multiplier_bps
    profit_priority_alpha_bps risk_bps charged_priority_fee_per_gas : Z) : ProfitThresholds :=
  {| th_min_profit_matic_wei := saturating_mul min_profit_matic risk_bps / 10000;
     th_min_profit_roi_bps := min_profit_roi_bps; th_safety_multiplier_bps := safety_multiplier_bps;
     th_profit_priority_alpha_bps := profit_priority_alpha_bps;
     th_charged_priority_fee_per_gas := charged_priority_fee_per_gas |}.

Inductive AssessmentGas :=
| TickRoute (lookup : RouteGasLookup) (edges : list Edge)
| Route (oracle : GasOracle) (edges : list Edge)
| CalibratedSeed (lookup : option RouteGasLookup) (oracle : GasOracle) (edges : list Edge).

Definition assessment_gas_units (simulated_gas : Z) (gas : AssessmentGas) : Z :=
  match gas with
  | TickRoute lookup edges => lookup_gas_or_heuristic lookup edges simulated_gas
  | Route oracle edges => route_gas_or_heuristic oracle edges simulated_gas
  | CalibratedSeed (Some lookup) _ edges => lookup_gas_observed_or_seed lookup edges simulated_gas
  | CalibratedSeed None oracle edges => route_gas_observed_or_seed oracle edges simulated_gas
  end.

Definition assessment_gas_for_edges (edges : list Edge) (lookup : option RouteGasLookup)
    (oracle : GasOracle) : AssessmentGas :=
  if (balancer_direct_batch_eligible edges || dodo_flash_batch_eligible edges)%bool
  then CalibratedSeed lookup oracle edges
  else match lookup with
       | Some lookup => TickRoute lookup edges
       | None => Route oracle edges
       end.

Record RouteAssessRequest := {
  ra_cycle_start : TokenIndex;
  ra_arena : StateArena;
  ra_gross_profit : Z;
  ra_amount_in : Z;
  ra_simulated_gas : Z;
  ra_hop_count : Z;
  ra_slippage_bps : Z;
  ra_flash_source : FlashLoanSource;
  ra_gas : AssessmentGas;
  ra_thresholds : ProfitThresholds;
  ra_token_to_matic_rates : gmap Z Z;
  ra_token_decimals : gmap Z Z;
  ra_gas_price : Z;
}.

Definition assess_route_profit (fees : FlashFees) (cycle_start : TokenIndex) (arena : StateArena)
    (route : RouteProfitParams) (token_to_matic_rates token_decimals : gmap Z Z) (gas_price : Z)
    (thresholds : ProfitThresholds) : ProfitAssessment :=
  assess_profit fees
    {| in_gross_profit := rp_gross_profit route; in_amount_in := rp_amount_in route;
       in_gas_units := rp_gas_units route; in_gas_price_wei := gas_price;
       in_charged_priority_fee_per_gas := th_charged_priority_fee_per_gas thresholds;
       in_token_to_matic_rate := resolve_token_to_matic_rate cycle_start token_to_matic_rates;
       in_token_decimals := resolve_token_decimals_for_index cycle_start arena token_decimals;
       in_hop_count := rp_hop_count route;
       in_min_profit_matic_wei := th_min_profit_matic_wei thresholds;
       in_min_profit_roi_bps := th_min_profit_roi_bps thresholds;
       in_slippage_bps := rp_slippage_bps route; in_flash_loan_source := rp_flash_loan_source route;
       in_safety_multiplier_bps := th_safety_multiplier_bps thresholds;
       in_profit_priority_alpha_bps := th_profit_priority_alpha_bps thresholds |}.

Definition assess_route_from_sim (fees : FlashFees) (request : RouteAssessRequest) : ProfitAssessment :=
  let route :=
    {| rp_gross_profit := ra_gross_profit request; rp_amount_in := ra_amount_in request;
       rp_gas_units := assessment_gas_units (ra_simulated_gas request) (ra_gas request);
       rp_hop_count := ra_hop_count request; rp_slippage_bps := ra_slippage_bps request;
       rp_flash_loan_source := ra_flash_source request |} in
  assess_route_profit fees (ra_cycle_start request) (ra_arena request) route
    (ra_token_to_matic_rates request) (ra_token_decimals request) (ra_gas_price request)
    (ra_thresholds request).

(** ** After the dry run *)

Definition profit_assessment_input (self : CandidateExecution)
    (gas_units gas_price_wei min_profit_matic_wei : Z) : AssessProfitInput :=
  {| in_gross_profit := cd_gross_profit self; in_amount_in := cd_amount_in self;
     in_gas_units := gas_units; in_gas_price_wei := gas_price_wei;
     in_charged_priority_fee_per_gas := MIN_PRIORITY_FEE_PER_GAS;
     in_token_to_matic_rate := cd_token_to_matic_rate self;
     in_token_decimals := cd_token_decimals self; in_hop_count := cd_hop_count self;
     in_min_profit_matic_wei := min_profit_matic_wei;
     in_min_profit_roi_bps := cd_min_profit_roi_bps self; in_slippage_bps := cd_slippage_bps self;
     in_flash_loan_source := cd_flash_loan_source self;
     in_safety_multiplier_bps := cd_safety_multiplier_bps self; in_profit_priority_alpha_bps := 0 |}.

(** [None] is a dry run that reports a zero profit. *)
Definition reassess_assessment (fees : FlashFees) (candidate : CandidateExecution)
    (profit_gas gas_price min_profit_matic_wei : Z) (realized_profit : option Z)
    (profit_priority_alpha_bps : Z) : option ProfitAssessment :=
  let gas_units := Z.min profit_gas u32_max in
  let? basis :=
    match realized_profit with
    | Some realized =>
        if is_zero realized then None else Some (realized, cd_amount_in candidate, 0, FDirect)
    | None => Some (cd_gross_profit candidate, cd_amount_in candidate, cd_slippage_bps candidate,
                    cd_flash_loan_source candidate)
    end in
  let '(gross_profit, amount_in, slippage_bps, flash_source) := basis in
  let input := profit_assessment_input candidate gas_units gas_price min_profit_matic_wei in
  Some (assess_profit fees
    {| in_gross_profit := gross_profit; in_amount_in := amount_in;
       in_gas_units := in_gas_units input; in_gas_price_wei := in_gas_price_wei input;
       in_charged_priority_fee_per_gas := in_charged_priority_fee_per_gas input;
       in_token_to_matic_rate := in_token_to_matic_rate input;
       in_token_decimals := in_token_decimals input; in_hop_count := in_hop_count input;
       in_min_profit_matic_wei := in_min_profit_matic_wei input;
       in_min_profit_roi_bps := in_min_profit_roi_bps input; in_slippage_bps := slippage_bps;
       in_flash_loan_source := flash_source;
       in_safety_multiplier_bps := in_safety_multiplier_bps input;
       in_profit_priority_alpha_bps := profit_priority_alpha_bps |}).

(** ** The executor's entry point *)

Record CalldataHop := {
  ch_edge : Edge;
  ch_pool_address : Address;
  ch_token_in : Address;
  ch_token_out : Address;
  ch_amount_in : Z;
  ch_amount_out : Z;
  ch_pool_id : option Z;
  ch_protocol_label : option String.string;
  ch_pool_type : option String.string;
  ch_router : option Address;
  ch_hooks : option Address;
}.

Inductive ExecutorEntrypoint := BalancerFlash | AaveFlash | DodoFlash | EntryDirect.

Definition hops_are_balancer_only (hops : list CalldataHop) : bool :=
  (negb (is_empty hops) && forallb (λ h, is_balancer_edge (ch_edge h)) hops)%bool.

Definition balancer_batch_direct_eligible (hops : list CalldataHop) : bool :=
  (hops_are_balancer_only hops && (length hops <=? MAX_BALANCER_BATCH_HOPS)%nat)%bool.

Definition resolve_executor_entrypoint (flash_source : FlashLoanSource) (hops : list CalldataHop)
  : ExecutorEntrypoint :=
  match flash_source with
  | FDirect => if balancer_batch_direct_eligible hops then EntryDirect else AaveFlash
  | FBalancer => BalancerFlash
  | FDodo => DodoFlash
  | FAaveV3 => AaveFlash
  end.

Definition structural_flash_source (flash_source : FlashLoanSource) (hops : list CalldataHop)
  : FlashLoanSource :=
  if (bool_decide (flash_source = FDirect) && negb (balancer_batch_direct_eligible hops))%bool
  then FAaveV3 else flash_source.

Inductive DispatchError := DodoDisabled | DodoWithoutPool | NoViableSource.

Definition resolve_dispatch (flash_source : FlashLoanSource) (hops : list CalldataHop)
    (liquidity : option TokenFlashLiquidity) (has_dodo_pool : bool)
  : DispatchError + (FlashLoanSource * ExecutorEntrypoint) :=
  let source := structural_flash_source flash_source hops in
  let dodo := bool_decide (source = FDodo) in
  if (dodo && negb DODO_EXTERNAL_FLASH_ENABLED)%bool then inl DodoDisabled
  else if (dodo && negb has_dodo_pool)%bool then inl DodoWithoutPool
  else
    let_some dispatch_flash_source :=
      match liquidity with
      | Some liquidity =>
          align_flash_source_for_dispatch source liquidity (hops_are_balancer_only hops) has_dodo_pool
            (existsb (λ h, is_balancer_edge (ch_edge h)) hops)
      | None => Some source
      end or inl NoViableSource in
    inr (dispatch_flash_source, resolve_executor_entrypoint dispatch_flash_source hops).

(** ** Properties *)

(** The rate used where none is known is zero: the default MATIC price is. *)
Lemma bootstrap_rate_zero : bootstrap_matic_rate_per_unit = 0.
Proof. vm_compute. reflexivity. Qed.

(** The gas the size search charges is the gas the assessment charges.  A search costing
    built from the oracle for the route, as the dispatch builds it, resolves every
    simulated gas to the units the assessment of that route uses, whether the assessment
    reads the oracle or a per-tick table made from it; so a route is never sized on one gas
    and judged on another. *)
Theorem search_gas_is_assessed_gas (oracle : GasOracle) (edges : list Edge) (routes : list CycleEdges)
    (simulated_gas : Z) :
  edges ∈ routes →
  let lookup := for_routes oracle routes in
  let costing :=
    {| gc_lookup := for_routes oracle [edges]; gc_edges := edges;
       gc_calibrated_seed := balancer_direct_batch_eligible edges || dodo_flash_batch_eligible edges |} in
  let direct := assessment_gas_units simulated_gas (assessment_gas_for_edges edges None oracle) in
  resolve costing simulated_gas = direct ∧
  assessment_gas_units simulated_gas (assessment_gas_for_edges edges (Some lookup) oracle) = direct.
Proof.
  intros Hin. cbv zeta. unfold resolve, assessment_gas_for_edges. cbn [gc_lookup gc_edges gc_calibrated_seed].
  destruct (for_routes_agrees oracle routes edges simulated_gas Hin) as [H1 H2].
  destruct (for_routes_agrees oracle [edges] edges simulated_gas) as [H3 H4]; [by constructor|].
  destruct (balancer_direct_batch_eligible edges || dodo_flash_batch_eligible edges)%bool;
    cbn [assessment_gas_units]; by rewrite ?H1, ?H2, ?H3, ?H4.
Qed.

(** An approved assessment has computed its terms. *)
Lemma approved_terms fees input :
  should_execute (assess_profit fees input) = true →
  ∃ t, assess_terms fees input = inr t ∧ assess_profit fees input = assess_gate input t.
Proof. unfold assess_profit. destruct (assess_terms fees input) as [|t]; [done|by exists t]. Qed.

(** An approved reassessment judged the realized profit, free of fees, at this gas, this
    price and this floor. *)
Lemma reassessment_pins fees candidate profit_gas gas_price floor realized a :
  reassess_assessment fees candidate profit_gas gas_price floor (Some realized) 0 = Some a →
  should_execute a = true →
  gross_profit a = realized ∧ flash_loan_fee a = 0 ∧
  gas_cost_wei a = Z.min profit_gas u32_max * gas_price ∧
  (cd_safety_multiplier_bps candidate ≠ 0 → floor ≤ net_profit_after_gas_matic_wei a).
Proof.
  unfold reassess_assessment. destruct (is_zero realized); [done|]. intros [= <-] Hex.
  apply approved_terms in Hex as Ht. destruct Ht as (t & Ht & E). rewrite E in *.
  assert (tm_flash_loan_fee t = 0 ∧ tm_gas_cost_wei t = Z.min profit_gas u32_max * gas_price) as [Hf Hg].
  { revert Ht. unfold assess_terms. cbn. destruct (slippage_adjusted _ 0) as [out|]; [|done].
    destruct (checked_mul _ gas_price) as [gas|] eqn:Eg; [|done]. apply checked_mul_Some in Eg as [-> _].
    do 3 (match goal with |- context [match ?m with Some _ => _ | None => inl _ end] => destruct m; [|done] end).
    by intros [= <-]. }
  unfold assess_gate in *. cbn [should_execute gross_profit flash_loan_fee gas_cost_wei
    net_profit_after_gas_matic_wei in_gross_profit in_min_profit_matic_wei profit_assessment_input] in *.
  split; [done|]. split; [done|]. split; [done|]. intros Hs.
  cbn [in_safety_multiplier_bps] in Hex. rewrite (proj2 (Z.eqb_neq _ 0) Hs), !andb_true_iff in Hex.
  destruct Hex as [[[[_ Hmin] _] _] _]. zbool. exact Hmin.
Qed.

(** The reassessment after a dry run judges the profit the dry run returned.  It exists
    unless that profit is zero; when it approves, the realized profit is charged no
    flash-loan fee and no slippage a second time, the gas is the dry run's at the given
    price, and the net profit reported is exactly the realized one. *)
Theorem dry_run_reassessment_exact (fees : FlashFees) (candidate : CandidateExecution)
    (profit_gas gas_price min_profit realized alpha : Z) :
  0 ≤ realized → 0 ≤ cd_amount_in candidate → 0 ≤ profit_gas → 0 ≤ gas_price →
  (reassess_assessment fees candidate profit_gas gas_price min_profit (Some realized) alpha = None
     ↔ realized = 0) ∧
  (∀ a, reassess_assessment fees candidate profit_gas gas_price min_profit (Some realized) alpha = Some a →
     should_execute a = true →
     gross_profit a = realized ∧ net_profit a = realized ∧ flash_loan_fee a = 0 ∧
     slippage_deduction a = 0 ∧ gas_cost_wei a = Z.min profit_gas u32_max * gas_price).
Proof.
  intros Hr Ha Hg Hp. unfold reassess_assessment, is_zero.
  destruct (Z.eqb_spec realized 0) as [E|E]; [by split; [|done]|].
  split; [by split|]. intros a [= <-] Hex.
  apply approved_terms in Hex as (t & Ht & ->). revert Ht. unfold assess_terms. cbn.
  destruct (slippage_adjusted _ 0) as [out|] eqn:Eo; [|done].
  assert (out = realized + cd_amount_in candidate) as ->.
  { unfold slippage_adjusted, is_zero in Eo. change (BPS_SCALE -% 0) with 10000 in Eo.
    destruct (_ || _)%bool; [done|]. destruct (checked_mul _ 10000) as [v|] eqn:Ev; [|done].
    apply checked_mul_Some in Ev as [-> Hv]. rewrite Z.div_mul in Eo by done.
    destruct (_ =? 0); [done|]. injection Eo as <-.
    unfold saturating_add, U256_MAX, M256 in *. lia. }
  destruct (checked_mul _ gas_price) as [gas|] eqn:Eg; [|done]. apply checked_mul_Some in Eg as [-> _].
  do 3 (match goal with |- context [match ?m with Some _ => _ | None => inl _ end] => destruct m; [|done] end).
  intros [= <-]. cbn. unfold saturating_sub. split_and!; lia.
Qed.

(** The executor is entered the way the loan is taken.  A resolved dispatch uses exactly
    the entry point of its source, the direct one only for a pure Balancer route that fits
    a batch swap; and when the prepared source is trusted, it is kept, except that a
    direct plan that fits no batch becomes an Aave loan. *)
Theorem dispatch_entrypoint_matches_source (source : FlashLoanSource) (hops : list CalldataHop)
    (liquidity : option TokenFlashLiquidity) (has_dodo_pool : bool) (s : FlashLoanSource)
    (e : ExecutorEntrypoint) :
  resolve_dispatch source hops liquidity has_dodo_pool = inr (s, e) →
  e = match s with
      | FBalancer => BalancerFlash | FAaveV3 => AaveFlash | FDodo => DodoFlash | FDirect => EntryDirect
      end ∧
  (s = FDirect → balancer_batch_direct_eligible hops = true) ∧
  (liquidity = None →
     s = source ∧ (s = FDirect → balancer_batch_direct_eligible hops = true) ∨
     source = FDirect ∧ s = FAaveV3 ∧ balancer_batch_direct_eligible hops = false).
Proof.
  unfold resolve_dispatch, structural_flash_source, resolve_executor_entrypoint.
  unfold align_flash_source_for_dispatch.
  destruct (balancer_batch_direct_eligible hops) eqn:El, source, liquidity as [l|];
    repeat case_bool_decide; cbn; try done;
    repeat match goal with |- context [if ?b then _ else _] => destruct b; cbn end;
    rewrite ?El; intros [= <- <-]; (split_and!; [done|done|]); (intros Hl; first [discriminate Hl|auto]).
Qed.

(** Five Balancer hops: the plan of such a route is direct, at no fee; the trusted dispatch
    takes an Aave loan that was neither assessed nor checked for liquidity. *)
Definition demo_hop : CalldataHop :=
  {| ch_edge := Routes.demo_edge BalancerV2 0 0 1; ch_pool_address := 1; ch_token_in := 2;
     ch_token_out := 3; ch_amount_in := 1; ch_amount_out := 1; ch_pool_id := None;
     ch_protocol_label := None; ch_pool_type := None; ch_router := None; ch_hooks := None |}.

Theorem long_balancer_route_becomes_unplanned_loan :
  let hops := repeat demo_hop 5 in
  let cycle := {| fc_start_token := 0; fc_edges := ch_edge <$> hops; fc_hop_count := 5;
                  fc_log_weight := S754_zero false; fc_cumulative_fee_bps := 0;
                  fc_score := S754_zero false; fc_cycle_ratio := 0 |} in
  plan_flash_loan Auto 1000 no_liquidity (route_uses_balancer_vault_swap cycle)
    (route_is_balancer_only cycle)
    = {| fp_source := FDirect; fp_action := PlanDirect; fp_cap := 1000 |} ∧
  resolve_dispatch FDirect hops None false = inr (FAaveV3, AaveFlash) ∧
  aave_viable no_liquidity = false.
Proof. vm_compute. done. Qed.

(** ** Witnesses *)

Lemma search_gas_is_assessed_gas_witness :
  let edges := [Routes.demo_edge UniswapV2 1 0 1; Routes.demo_edge UniswapV3 0 1 0] in
  resolve {| gc_lookup := for_routes (GasOracle.new 1000) [edges]; gc_edges := edges;
             gc_calibrated_seed := false |} 300000 = 300000.
Proof.
  intros edges.
  destruct (search_gas_is_assessed_gas (GasOracle.new 1000) edges [edges] 300000) as [H _].
  - constructor.
  - exact H.
Defined.

Lemma dry_run_reassessment_exact_witness :
  net_profit (default (rejected_arithmetic demo_assess RateTooLow)
    (reassess_assessment flash_fees_init demo_candidate 300000 (30 * 10 ^ 9) 1000 (Some (10 ^ 18)) 0)) = 10 ^ 18.
Proof.
  destruct (dry_run_reassessment_exact flash_fees_init demo_candidate 300000 (30 * 10 ^ 9) 1000 (10 ^ 18) 0)
    as [_ H]; [eval_range..|].
  apply (H (default (rejected_arithmetic demo_assess RateTooLow)
    (reassess_assessment flash_fees_init demo_candidate 300000 (30 * 10 ^ 9) 1000 (Some (10 ^ 18)) 0)));
    vm_compute; reflexivity.
Defined.

Lemma dispatch_entrypoint_matches_source_witness :
  let hops := repeat demo_hop 4 in
  balancer_batch_direct_eligible hops = true ∧ resolve_dispatch FDirect hops None false = inr (FDirect, EntryDirect).
Proof.
  assert (resolve_dispatch FDirect (repeat demo_hop 4) None false = inr (FDirect, EntryDirect)) as H
    by (vm_compute; reflexivity).
  split; [|exact H].
  destruct (dispatch_entrypoint_matches_source FDirect (repeat demo_hop 4) None false FDirect EntryDirect H)
    as (_ & Hd & _). apply Hd. reflexivity.
Defined.
