(* ===== verification/Prepare.v ===== *)
(** * Preparing a dispatch

    [prepare_evaluated_route] of [src/src/services/execution/flash_liquidity.rs] and its
    helpers: the last step between an evaluated route and the built transaction.  It plans
    the flash loan, caps the size at what may and can be borrowed, searches and simulates
    again when a cap binds, and gates the result.  The skip messages are left out.  The
    shared route cache and the sampling counter of the size search are threaded through
    as [SearchState]. *)
From stdpp Require Import gmap.
From S2P Require Import Prelude Word Types Gas Profit GasOracle Arena Realign Routes LocalSim.
From S2P Require Import RouteSimCache Golden SimSanity TokenRates Ternary Submit FlashLiquidity Assess.

Record EvaluatedRoute := {
  ev_cycle : FoundCycle;
  ev_result : RouteSimulationResult;
  ev_assessment : option ProfitAssessment;
  ev_effective_slippage_bps : Z;
}.

Definition evaluated_from_sim (cycle : FoundCycle) (result : RouteSimulationResult)
    (assessment : ProfitAssessment) (effective_slippage_bps : Z) : EvaluatedRoute :=
  {| ev_cycle := cycle; ev_result := result; ev_assessment := Some assessment;
     ev_effective_slippage_bps := effective_slippage_bps |}.

Record PrepareDispatchInput := {
  pi_evaluated : EvaluatedRoute;
  pi_arena : StateArena;
  pi_liquidity : TokenFlashLiquidity;
  pi_policy : FlashLoanPolicy;
  pi_token_to_matic_rates : gmap Z Z;
  pi_token_decimals : gmap Z Z;
  pi_brent_iters : Z;
  pi_min_profit_matic : Z;
  pi_min_profit_roi_bps : Z;
  pi_gas_price : Z;
  pi_slippage_bps : Z;
  pi_max_flash_loan_usd : Z;
  pi_matic_usd : f64;
  pi_matic_usd_chainlink : option Z;
  pi_safety_multiplier_bps : Z;
  pi_profit_priority_alpha_bps : Z;
  pi_route_fingerprint : Z;
  pi_gas_oracle : GasOracle;
  pi_search_low : Z;
  pi_risk_multiplier_bps : Z;
  pi_existing_assessment : option ProfitAssessment;
  pi_log_skips : bool;
  pi_adaptive_flash_cap_bound : bool;
}.

Record PreparedDispatch := {
  pd_evaluated : EvaluatedRoute;
  pd_flash_source : FlashLoanSource;
  pd_liquidity_cap_applied : bool;
  pd_adaptive_flash_cap_bound : bool;
}.

(** The shared route cache and the sampling counter. *)
Definition SearchState : Type := RouteSimCache * Z.

Section prepare.
Context (fees : FlashFees).
Context (keys : gmap RouteSimKey MinimalSimResult → list RouteSimKey).
Context (iter_sims : gmap Z MinimalSimResult → list (Z * MinimalSimResult)).

Definition charged_priority_from_oracle (gas_oracle : GasOracle) : Z :=
  match go_snapshot gas_oracle with
  | Some s => Z.max (priority_fee s) MIN_PRIORITY_FEE_PER_GAS
  | None => MIN_PRIORITY_FEE_PER_GAS
  end.

Section input.
Context (input : PrepareDispatchInput).
Let cycle := ev_cycle (pi_evaluated input).
Let result := ev_result (pi_evaluated input).

Definition prepare_profit_thresholds : ProfitThresholds :=
  route_profit_thresholds (pi_min_profit_matic input) (pi_min_profit_roi_bps input)
    (pi_safety_multiplier_bps input) (pi_profit_priority_alpha_bps input)
    (pi_risk_multiplier_bps input) (charged_priority_from_oracle (pi_gas_oracle input)).

Definition flash_cap_for_prepare (token_decimals token_to_matic_rate : Z) : FlashBorrowCapParams :=
  {| fc_max_flash_loan_usd := pi_max_flash_loan_usd input; fc_token_decimals := token_decimals;
     fc_token_to_matic_rate := token_to_matic_rate; fc_matic_usd := pi_matic_usd input;
     fc_matic_usd_chainlink := pi_matic_usd_chainlink input |}.

Definition dispatch_sim_passes_sanity (sim : RouteSimulationResult)
    (search_low token_decimals token_to_matic_rate : Z) (check_flash_cap : bool) : bool :=
  if token_to_matic_rate <? MIN_TOKEN_TO_MATIC_RATE then false
  else if (check_flash_cap
           && negb (amount_within_cap (flash_cap_for_prepare token_decimals token_to_matic_rate)
                      (rs_amount_in sim)))%bool then false
  else
    bool_decide (check_sim_sanity_for_dispatch
      {| ss_amount_in := rs_amount_in sim; ss_gross_profit := rs_profit sim;
         ss_search_low := search_low; ss_token_decimals := token_decimals;
         ss_token_to_matic_rate := token_to_matic_rate |} = None).

(** The rate and the decimals of the start token. *)
Definition start_rate : Z :=
  resolve_token_to_matic_rate (fc_start_token cycle) (pi_token_to_matic_rates input).
Definition start_decimals : Z :=
  resolve_token_decimals_for_index (fc_start_token cycle) (pi_arena input) (pi_token_decimals input).

Definition capped_sim_passes_sanity (sim : RouteSimulationResult) (search_low : Z) : bool :=
  dispatch_sim_passes_sanity sim search_low start_decimals start_rate true.

(** The request for the assessment of a simulation of the route. *)
Definition assess_request (sim : RouteSimulationResult) (source : FlashLoanSource)
  : RouteAssessRequest :=
  {| ra_cycle_start := fc_start_token cycle; ra_arena := pi_arena input;
     ra_gross_profit := rs_profit sim; ra_amount_in := rs_amount_in sim;
     ra_simulated_gas := rs_total_gas sim; ra_hop_count := edge_hops cycle;
     ra_slippage_bps := pi_slippage_bps input; ra_flash_source := source;
     ra_gas := assessment_gas_for_edges (fc_edges cycle) None (pi_gas_oracle input);
     ra_thresholds := prepare_profit_thresholds;
     ra_token_to_matic_rates := pi_token_to_matic_rates input;
     ra_token_decimals := pi_token_decimals input; ra_gas_price := pi_gas_price input |}.

Definition reassess_route (source : FlashLoanSource) : option ProfitAssessment :=
  Some (assess_route_from_sim fees (assess_request result source)).

Definition assessment_flash_fee_matches (assessment : ProfitAssessment) (source : FlashLoanSource)
    (amount_in : Z) : bool :=
  flash_loan_fee assessment =? default U256_MAX (flash_loan_fee_amount fees source amount_in).

Definition assessment_gas_matches (assessment : ProfitAssessment) (simulated_gas gas_price : Z)
    (gas_oracle : GasOracle) (edges : list Edge) : bool :=
  let units := assessment_gas_units simulated_gas (assessment_gas_for_edges edges None gas_oracle) in
  match checked_mul units gas_price with
  | Some expected => gas_cost_wei assessment =? expected
  | None => false
  end.

Definition reuse_or_reassess (source : FlashLoanSource) : option ProfitAssessment :=
  if 10000 <? pi_risk_multiplier_bps input then reassess_route source
  else
    let_some existing := pi_existing_assessment input or reassess_route source in
    if (should_execute existing && (gross_profit existing =? rs_profit result)
        && assessment_flash_fee_matches existing source (rs_amount_in result)
        && assessment_gas_matches existing (rs_total_gas result) (pi_gas_price input)
             (pi_gas_oracle input) (fc_edges cycle))%bool
    then Some existing
    else reassess_route source.

(** The context of the capped search. *)
Definition capped_profit_ctx (source : FlashLoanSource) : ProfitEvalContext :=
  let ctx :=
    with_safety_multiplier (fc_start_token cycle) (pi_arena input) (pi_token_to_matic_rates input)
      (pi_token_decimals input) (pi_gas_price input) (pi_slippage_bps input) source
      (pi_safety_multiplier_bps input) in
  {| cx_gas_price := cx_gas_price ctx;
     cx_charged_priority_fee_per_gas := charged_priority_from_oracle (pi_gas_oracle input);
     cx_flash_source := cx_flash_source ctx; cx_slippage_bps := cx_slippage_bps ctx;
     cx_token_to_matic_rate := cx_token_to_matic_rate ctx; cx_token_decimals := cx_token_decimals ctx;
     cx_safety_multiplier_bps := cx_safety_multiplier_bps ctx; cx_gas_scale_bps := 10000;
     cx_profit_priority_alpha_bps := pi_profit_priority_alpha_bps input;
     cx_hop_count := edge_hops cycle |}.

Definition capped_route_gas : RouteGasCosting :=
  {| gc_lookup := for_routes (pi_gas_oracle input) [fc_edges cycle]; gc_edges := fc_edges cycle;
     gc_calibrated_seed :=
       balancer_direct_batch_eligible (fc_edges cycle) || dodo_flash_batch_eligible (fc_edges cycle) |}.

Definition reoptimize_capped (source : FlashLoanSource) (cap : Z) (st : SearchState)
  : outcome (option PreparedDispatch * SearchState) :=
  let! found :=
    optimize_cycle fees keys iter_sims (pi_arena input) cycle (pi_token_to_matic_rates input)
      (pi_token_decimals input) (Some (pi_max_flash_loan_usd input)) (pi_matic_usd input)
      (pi_matic_usd_chainlink input) (Some (pi_brent_iters input)) (Some cap)
      (capped_profit_ctx source) None (Some capped_route_gas) None st.1 st.2 in
  let '(opt, route_cache, sample) := found in
  let st := (route_cache, sample) in
  let_some opt := opt or Done (None, st) in
  let optimal_input := Z.min (or_optimal_input opt) cap in
  let! sim := simulate_route_detailed (pi_arena input) (fc_edges cycle) optimal_input in
  let_some sim := sim or Done (None, st) in
  if is_zero (rs_profit sim) then Done (None, st)
  else if negb (capped_sim_passes_sanity sim (or_search_low opt)) then Done (None, st)
  else
    let assessment := assess_route_from_sim fees (assess_request sim source) in
    Done (Some {| pd_evaluated :=
                    {| ev_cycle := cycle; ev_result := sim; ev_assessment := Some assessment;
                       ev_effective_slippage_bps := pi_slippage_bps input |};
                  pd_flash_source := source; pd_liquidity_cap_applied := true;
                  pd_adaptive_flash_cap_bound := pi_adaptive_flash_cap_bound input |}, st).

(** What the sources can lend to this route. *)
Definition prepare_liquidity : TokenFlashLiquidity :=
  let route_cap := route_balancer_flash_capacity (pi_arena input) cycle in
  let has_dodo :=
    match dodo_base_flash_pool_for_cycle (pi_arena input) cycle with Some _ => true | None => false end in
  {| fl_balancer := effective_balancer_liquidity (fl_balancer (pi_liquidity input)) route_cap;
     fl_aave := fl_aave (pi_liquidity input); fl_aave_listed := fl_aave_listed (pi_liquidity input);
     fl_dodo := if has_dodo then U256_MAX else 0 |}.

Definition prepare_plan : FlashPlan :=
  plan_flash_loan (pi_policy input) (rs_amount_in result) prepare_liquidity
    (route_uses_balancer_vault_swap cycle) (route_is_balancer_only cycle).

Definition executes (d : PreparedDispatch) : bool :=
  match ev_assessment (pd_evaluated d) with Some a => should_execute a | None => false end.

(** The [Direct] branch: the evaluated size stands. *)
Definition prepare_direct (plan : FlashPlan) (st : SearchState)
  : outcome (option PreparedDispatch * SearchState) :=
  let amount_in := rs_amount_in result in
  if negb (dispatch_sim_passes_sanity result (pi_search_low input) start_decimals start_rate false)
  then Done (None, st)
  else if (bool_decide (fp_source plan = FBalancer) && (fl_balancer prepare_liquidity <? amount_in)
           && negb (is_zero (fl_balancer prepare_liquidity)))%bool
  then reoptimize_capped (fp_source plan) (fl_balancer prepare_liquidity) st
  else
    let_some assessment := reuse_or_reassess (fp_source plan) or Done (None, st) in
    if negb (should_execute assessment) then Done (None, st)
    else
      Done (Some {| pd_evaluated :=
                      {| ev_cycle := cycle; ev_result := result; ev_assessment := Some assessment;
                         ev_effective_slippage_bps := pi_slippage_bps input |};
                    pd_flash_source := fp_source plan; pd_liquidity_cap_applied := false;
                    pd_adaptive_flash_cap_bound := pi_adaptive_flash_cap_bound input |}, st).

(** The [match plan.action]. *)
Definition prepare_planned (plan : FlashPlan) (st : SearchState)
  : outcome (option PreparedDispatch * SearchState) :=
  match fp_action plan with
  | Reject => Done (None, st)
  | PlanDirect => prepare_direct plan st
  | CapAndReoptimize =>
      let! capped := reoptimize_capped (fp_source plan) (fp_cap plan) st in
      match capped.1 with
      | Some d => if executes d then Done capped else Done (None, capped.2)
      | None => Done capped
      end
  end.

Definition prepare_evaluated_route (st : SearchState)
  : outcome (option PreparedDispatch * SearchState) :=
  let_some _flash_token := token_address (pi_arena input) (fc_start_token cycle) or Done (None, st) in
  let amount_in := rs_amount_in result in
  let plan := prepare_plan in
  let flash_cap := flash_cap_for_prepare start_decimals start_rate in
  let rejected := bool_decide (fp_action plan = Reject) in
  if (negb rejected && cap_enforced_but_unresolved flash_cap && negb (is_zero amount_in))%bool
  then Done (None, st)
  else
    match (if rejected then None else cap_wei flash_cap) with
    | Some cap =>
        if cap <? amount_in then reoptimize_capped (fp_source plan) cap st
        else prepare_planned plan st
    | None => prepare_planned plan st
    end.
End input.
End prepare.

(** ** What a prepared dispatch guarantees *)

Lemma detailed_amount_in arena edges a r :
  simulate_route_detailed arena edges a = Done (Some r) → rs_amount_in r = a.
Proof.
  unfold simulate_route_detailed, simulate_route_detailed_with_caps, is_zero.
  destruct (negb _); [done|]. destruct (Z.eqb_spec a 0) as [->|]; [by intros [= <-]|].
  destruct (walk_route_hops _ _ _ _ _) as [[[[? ?] ?]|]|]; [|done..].
  by intros [= <-].
Qed.

Section spec.
Context (fees : FlashFees).
Context (keys : gmap RouteSimKey MinimalSimResult → list RouteSimKey).
Context (iter_sims : gmap Z MinimalSimResult → list (Z * MinimalSimResult)).
Context (input : PrepareDispatchInput).

Let borrow_cap := flash_cap_for_prepare input (start_decimals input) (start_rate input).

(** The gates every simulation passes on the way out. *)
Definition gated (sim : RouteSimulationResult) : Prop :=
  MIN_TOKEN_TO_MATIC_RATE ≤ start_rate input ∧
  ∃ search_low, check_sim_sanity_for_dispatch
    {| ss_amount_in := rs_amount_in sim; ss_gross_profit := rs_profit sim; ss_search_low := search_low;
       ss_token_decimals := start_decimals input; ss_token_to_matic_rate := start_rate input |} = None.

Lemma sanity_gated sim low check :
  dispatch_sim_passes_sanity input sim low (start_decimals input) (start_rate input) check = true →
  gated sim ∧ (check = true → amount_within_cap borrow_cap (rs_amount_in sim) = true).
Proof.
  unfold dispatch_sim_passes_sanity. destruct (Z.ltb_spec (start_rate input) MIN_TOKEN_TO_MATIC_RATE); [done|].
  destruct (check && _)%bool eqn:Ec; [done|]. intros Hs%bool_decide_eq_true. split; [split; [done|by exists low]|].
  intros ->. cbn [andb] in Ec. by apply negb_false_iff in Ec.
Qed.

(** A capped dispatch is the simulation of a size within the cap, gated and assessed. *)
Lemma reoptimize_capped_spec source cap st d st' :
  reoptimize_capped fees keys iter_sims input source cap st = Done (Some d, st') →
  let sim := ev_result (pd_evaluated d) in
  ev_cycle (pd_evaluated d) = ev_cycle (pi_evaluated input) ∧ pd_flash_source d = source ∧
  pd_liquidity_cap_applied d = true ∧ gated sim ∧ amount_within_cap borrow_cap (rs_amount_in sim) = true ∧
  rs_amount_in sim ≤ cap ∧
  simulate_route_detailed (pi_arena input) (fc_edges (ev_cycle (pi_evaluated input))) (rs_amount_in sim)
    = Done (Some sim) ∧ rs_profit sim ≠ 0 ∧
  ev_assessment (pd_evaluated d) = Some (assess_route_from_sim fees (assess_request input sim source)).
Proof.
  unfold reoptimize_capped. destruct (optimize_cycle _ _ _ _ _ _ _ _ _ _ _ _ _ _ _ _ _ _) as [[[o rc] sm]|];
    cbn [obind]; [|done].
  destruct o as [opt|]; [|done].
  destruct (simulate_route_detailed _ _ _) as [[sim|]|] eqn:Es; cbn [obind]; [|done..].
  unfold is_zero. destruct (Z.eqb_spec (rs_profit sim) 0); [done|].
  destruct (capped_sim_passes_sanity input sim (or_search_low opt)) eqn:Ec; cbn [negb]; [|done].
  intros [= <- _]. cbn. apply sanity_gated in Ec as [Hg Hw].
  pose proof (detailed_amount_in _ _ _ _ Es) as Ha. rewrite Ha in *.
  split_and!; first [done|lia|by apply Hw].
Qed.

Lemma within_cap_wei p amount cap :
  0 < amount → cap_wei p = Some cap → amount_within_cap p amount = true → amount ≤ cap.
Proof.
  intros Ha Hc. unfold amount_within_cap, is_zero. rewrite Hc. destruct (Z.eqb_spec amount 0); [lia|].
  destruct (Z.eqb_spec (fc_max_flash_loan_usd p) 0) as [E|]; cbn [orb]; [|by intros ?%Z.leb_le].
  revert Hc. unfold cap_wei, max_flash_borrow_wei, max_flash_loan_matic_wei_from_usd_chainlink_8,
    max_flash_loan_matic_wei_from_usd. rewrite E. destruct (_ || _)%bool, (fc_matic_usd_chainlink p); done.
Qed.

(** The borrow cap lets an amount through when the code goes past it. *)
Lemma under_cap amount_in :
  0 ≤ pi_max_flash_loan_usd input →
  (cap_enforced_but_unresolved borrow_cap && negb (is_zero amount_in))%bool = false →
  (∀ cap, cap_wei borrow_cap = Some cap → amount_in ≤ cap) → amount_within_cap borrow_cap amount_in = true.
Proof.
  intros Hu. unfold cap_enforced_but_unresolved, amount_within_cap.
  destruct (is_zero amount_in); [by rewrite orb_true_r|]. rewrite orb_false_r, andb_true_r.
  change (fc_max_flash_loan_usd borrow_cap) with (pi_max_flash_loan_usd input).
  destruct (Z.eqb_spec (pi_max_flash_loan_usd input) 0); [done|].
  destruct (Z.ltb_spec 0 (pi_max_flash_loan_usd input)); [|lia]. cbn [andb].
  destruct (cap_wei borrow_cap) as [c|]; [|by intros ?%bool_decide_eq_false].
  intros _ Hc. by apply Z.leb_le, Hc.
Qed.

(** What [prepare_evaluated_route] promises of a dispatch. *)
Definition dispatch_ok (d : PreparedDispatch) : Prop :=
  let plan := prepare_plan input in
  let sim := ev_result (pd_evaluated d) in
  ev_cycle (pd_evaluated d) = ev_cycle (pi_evaluated input) ∧ pd_flash_source d = fp_source plan ∧
  fp_action plan ≠ Reject ∧ gated sim ∧ amount_within_cap borrow_cap (rs_amount_in sim) = true ∧
  (if pd_liquidity_cap_applied d
   then simulate_route_detailed (pi_arena input) (fc_edges (ev_cycle (pi_evaluated input)))
          (rs_amount_in sim) = Done (Some sim) ∧ rs_profit sim ≠ 0 ∧
        ev_assessment (pd_evaluated d) =
          Some (assess_route_from_sim fees (assess_request input sim (fp_source plan)))
   else fp_action plan = PlanDirect ∧ sim = ev_result (pi_evaluated input)) ∧
  (amount_within_cap borrow_cap (rs_amount_in (ev_result (pi_evaluated input))) = true →
     rs_amount_in sim ≤ available (prepare_liquidity input) (fp_source plan) ∧ executes d = true).

Let plan := prepare_plan input.
Let amount_in := rs_amount_in (ev_result (pi_evaluated input)).

(** A capped dispatch, given what its cap means for the source. *)
Lemma capped_ok cap st d st' :
  fp_action plan ≠ Reject →
  reoptimize_capped fees keys iter_sims input (fp_source plan) cap st = Done (Some d, st') →
  (amount_within_cap borrow_cap amount_in = true →
     cap ≤ available (prepare_liquidity input) (fp_source plan) ∧ executes d = true) →
  dispatch_ok d.
Proof.
  intros Hr H Hcap. unfold dispatch_ok. fold plan amount_in.
  apply reoptimize_capped_spec in H as (? & ? & Hl & ? & ? & ? & ? & ? & ?). rewrite Hl.
  split_and!; [done..|]. intros [? ?]%Hcap. split; [lia|done].
Qed.

Lemma planned_ok st d st' :
  fp_action plan ≠ Reject → fp_cap plan ≤ available (prepare_liquidity input) (fp_source plan) →
  (fp_action plan = PlanDirect → fp_cap plan = amount_in) →
  amount_within_cap borrow_cap amount_in = true →
  prepare_planned fees keys iter_sims input plan st = Done (Some d, st') → dispatch_ok d.
Proof.
  intros Hr Hav Hdir Hw. unfold prepare_planned. destruct (fp_action plan) eqn:Ea; [| |done].
  - specialize (Hdir eq_refl). unfold prepare_direct. fold amount_in.
    destruct (dispatch_sim_passes_sanity _ _ _ _ _ _) eqn:Es; cbn [negb]; [|done].
    apply sanity_gated in Es as [Hg _].
    destruct (bool_decide (fp_source plan = FBalancer) && _ && _)%bool eqn:Eb.
    { apply andb_true_iff in Eb as [[Hs%bool_decide_eq_true Hlt]%andb_true_iff _].
      rewrite Hs in Hav. cbn [available] in Hav. zbool. lia. }
    destruct (reuse_or_reassess fees input (fp_source plan)) as [a|]; [|done].
    destruct (should_execute a) eqn:Ex; cbn [negb]; [|done]. intros [= <- _].
    unfold dispatch_ok. cbn. fold plan amount_in. rewrite Ea.
    split_and!; try done. intros _. split; [lia|done].
  - destruct (reoptimize_capped _ _ _ _ _ _ _) as [[[d'|] st1]|] eqn:Eo; cbn [obind fst snd]; [|done..].
    destruct (executes d') eqn:Ex; [|done]. intros [= -> ->].
    eapply capped_ok; [by rewrite Ea|exact Eo|]. done.
Qed.
End spec.

(** C10: A prepared dispatch may be executed.  It keeps the route and the source of the flash plan,
    the start token has a reliable rate, the borrowed amount is within the dollar cap, and
    its simulation passes the dispatch sanity gate.  When no cap bound, it is the evaluated
    route of a direct plan; otherwise it is the detailed simulation of the new size, with
    a profit, assessed anew for the planned source.  And when the evaluated size was within
    the dollar cap, the planned source has the amount available and the assessment approves.
    Whatever the size search and its caches did. *)
Theorem prepared_dispatch_executable (fees : FlashFees)
    (keys : gmap RouteSimKey MinimalSimResult → list RouteSimKey)
    (iter_sims : gmap Z MinimalSimResult → list (Z * MinimalSimResult))
    (input : PrepareDispatchInput) (st st' : SearchState) (d : PreparedDispatch) :
  0 ≤ pi_max_flash_loan_usd input → context_liquidity (prepare_liquidity input) →
  0 ≤ rs_amount_in (ev_result (pi_evaluated input)) ≤ U256_MAX →
  prepare_evaluated_route fees keys iter_sims input st = Done (Some d, st') →
  let plan := prepare_plan input in
  let borrow_cap := flash_cap_for_prepare input (start_decimals input) (start_rate input) in
  let sim := ev_result (pd_evaluated d) in
  ev_cycle (pd_evaluated d) = ev_cycle (pi_evaluated input) ∧ pd_flash_source d = fp_source plan ∧
  fp_action plan ≠ Reject ∧ gated input sim ∧ amount_within_cap borrow_cap (rs_amount_in sim) = true ∧
  (if pd_liquidity_cap_applied d
   then simulate_route_detailed (pi_arena input) (fc_edges (ev_cycle (pi_evaluated input)))
          (rs_amount_in sim) = Done (Some sim) ∧ rs_profit sim ≠ 0 ∧
        ev_assessment (pd_evaluated d) =
          Some (assess_route_from_sim fees (assess_request input sim (fp_source plan)))
   else fp_action plan = PlanDirect ∧ sim = ev_result (pi_evaluated input)) ∧
  (amount_within_cap borrow_cap (rs_amount_in (ev_result (pi_evaluated input))) = true →
     rs_amount_in sim ≤ available (prepare_liquidity input) (fp_source plan) ∧ executes d = true).
Proof.
  intros Hu Hctx Hamt. unfold prepare_evaluated_route. destruct (token_address _ _); [|done].
  set (plan := prepare_plan input). set (amount_in := rs_amount_in (ev_result (pi_evaluated input))) in *.
  assert (plan_ok (prepare_liquidity input) amount_in
    (route_uses_balancer_vault_swap (ev_cycle (pi_evaluated input))) plan) as Hplan
    by (by apply plan_flash_loan_ok).
  case_bool_decide as Hr; cbn [negb andb]; [unfold prepare_planned; by rewrite Hr|].
  destruct Hplan as [?|(Hpos & Hle & Hav & Hdir & _)]; [done|].
  destruct (cap_enforced_but_unresolved _ && _)%bool eqn:Eu; [done|].
  pose proof (under_cap input amount_in Hu Eu) as Hunder.
  destruct (cap_wei _) as [cap|] eqn:Ec.
  - destruct (Z.ltb_spec cap amount_in) as [Hlt|Hge]; intros H.
    + apply (capped_ok fees keys iter_sims input cap st d st' Hr H).
      intros Hw. apply (within_cap_wei _ _ cap) in Hw; [lia|lia|done].
    + apply (planned_ok fees keys iter_sims input st d st'); try done.
      apply Hunder. by intros ? [= <-].
  - intros H. apply (planned_ok fees keys iter_sims input st d st'); try done. by apply Hunder.
Qed.

(** The assessment of an uncapped dispatch, reused or made anew, is of the simulated profit;
    and when it approves, it charges the loan of the planned source and the gas of the
    route as the oracle resolves it now, exactly. *)
Theorem assessment_prices_planned_route (fees : FlashFees) (input : PrepareDispatchInput)
    (source : FlashLoanSource) :
  let route := pi_evaluated input in
  let units := assessment_gas_units (rs_total_gas (ev_result route))
    (assessment_gas_for_edges (fc_edges (ev_cycle route)) None (pi_gas_oracle input)) in
  ∃ a, reuse_or_reassess fees input source = Some a ∧
    gross_profit a = rs_profit (ev_result route) ∧
    (should_execute a = true →
       flash_loan_fee a = default U256_MAX (flash_loan_fee_amount fees source (rs_amount_in (ev_result route))) ∧
       gas_cost_wei a = units * pi_gas_price input) ∧
    (10000 < pi_risk_multiplier_bps input →
       a = assess_route_from_sim fees (assess_request input (ev_result route) source)).
Proof.
  cbv zeta. set (units := assessment_gas_units _ _). unfold reuse_or_reassess.
  assert (∃ a, reassess_route fees input source = Some a ∧ gross_profit a = rs_profit (ev_result (pi_evaluated input)) ∧
    (should_execute a = true → flash_loan_fee a = default U256_MAX (flash_loan_fee_amount fees source
         (rs_amount_in (ev_result (pi_evaluated input)))) ∧ gas_cost_wei a = units * pi_gas_price input) ∧
    (10000 < pi_risk_multiplier_bps input →
       a = assess_route_from_sim fees (assess_request input (ev_result (pi_evaluated input)) source))) as Hre.
  { eexists. split; [done|]. unfold assess_route_from_sim, assess_route_profit. split_and!; [| |done].
    - unfold assess_profit. by destruct (assess_terms _ _).
    - intros (t & Ht & ->)%approved_terms. revert Ht. unfold assess_terms. cbn.
      destruct (flash_loan_fee_amount _ _ _); [|done]. destruct (_ <=? _); [done|].
      destruct (slippage_adjusted _ _); [|done].
      destruct (checked_mul _ (pi_gas_price input)) as [gas|] eqn:Eg; [|done].
      apply checked_mul_Some in Eg as [-> _].
      do 3 (match goal with |- context [match ?m with Some _ => _ | None => inl _ end] => destruct m; [|done] end).
      by intros [= <-]. }
  destruct (Z.ltb_spec 10000 (pi_risk_multiplier_bps input)); [done|].
  destruct (pi_existing_assessment input) as [a|]; [|done].
  destruct (_ && _ && _ && _)%bool eqn:Em; [|done]. exists a. split; [done|].
  apply andb_true_iff in Em as [[[_ Hg%Z.eqb_eq]%andb_true_iff Hf%Z.eqb_eq]%andb_true_iff Hm].
  unfold assessment_gas_matches in Hm. fold units in Hm.
  destruct (checked_mul units _) as [gas|] eqn:Eg; [|done]. apply checked_mul_Some in Eg as [-> _].
  apply Z.eqb_eq in Hm. split_and!; [done|by intros _|lia].
Qed.

(** ** Witnesses *)

Definition demo_evaluated (amount : Z) : EvaluatedRoute :=
  {| ev_cycle := demo_cycle2;
     ev_result := {| rs_amount_in := amount; rs_amount_out := amount + 10 ^ 6; rs_profit := 10 ^ 6;
                     rs_profitable := true; rs_hop_amounts := [amount; amount; amount + 10 ^ 6];
                     rs_total_gas := 300000; rs_hop_count := 2 |};
     ev_assessment := None; ev_effective_slippage_bps := 0 |}.

(** A borrow of at most 5 dollars, 50 tokens at 10 cents. *)
Definition demo_input (amount balancer min_profit : Z) : PrepareDispatchInput :=
  {| pi_evaluated := demo_evaluated amount; pi_arena := demo_arena2;
     pi_liquidity := {| fl_balancer := balancer; fl_aave := 0; fl_aave_listed := false; fl_dodo := 0 |};
     pi_policy := Auto; pi_token_to_matic_rates := demo_rates; pi_token_decimals := demo_decimals;
     pi_brent_iters := 16; pi_min_profit_matic := min_profit; pi_min_profit_roi_bps := 0;
     pi_gas_price := 0; pi_slippage_bps := 0; pi_max_flash_loan_usd := 5;
     pi_matic_usd := Floats.SpecFloat.S754_zero false; pi_matic_usd_chainlink := Some 25000000;
     pi_safety_multiplier_bps := 10000; pi_profit_priority_alpha_bps := 0; pi_route_fingerprint := 1;
     pi_gas_oracle := GasOracle.new 1000; pi_search_low := 0; pi_risk_multiplier_bps := 10000;
     pi_existing_assessment := None; pi_log_skips := false; pi_adaptive_flash_cap_bound := false |}.

Definition demo_prepare (amount balancer min_profit : Z) : option PreparedDispatch :=
  match prepare_evaluated_route flash_fees_init map_keys map_to_list
          (demo_input amount balancer min_profit) (RouteSimCache.new, 0) with
  | Done (d, _) => d
  | Panic => None
  end.

(** When the dollar cap binds, only it limits the new size.  Here it is 50 tokens: the route is
    sized at 34 tokens, though the planned source holds one; and with a minimum profit that
    no route meets, the dispatch is returned with an assessment that rejects it. *)
Theorem dollar_cap_forgets_liquidity :
  (∃ d, demo_prepare (10 ^ 8) (10 ^ 6) 0 = Some d ∧ pd_flash_source d = FBalancer ∧
     available (prepare_liquidity (demo_input (10 ^ 8) (10 ^ 6) 0)) FBalancer = 10 ^ 6 ∧
     rs_amount_in (ev_result (pd_evaluated d)) = 34340524) ∧
  (∃ d, demo_prepare (10 ^ 8) (10 ^ 9) (10 ^ 30) = Some d ∧ executes d = false).
Proof.
  split; (eexists; split; [vm_compute; reflexivity|vm_compute; done]).
Qed.

Lemma prepared_dispatch_executable_witness :
  match demo_prepare (4 * 10 ^ 7) (3 * 10 ^ 7) 0 with
  | Some d => rs_amount_in (ev_result (pd_evaluated d)) ≤ 3 * 10 ^ 7 ∧ executes d = true
  | None => False
  end.
Proof.
  destruct (demo_prepare (4 * 10 ^ 7) (3 * 10 ^ 7) 0) as [d|] eqn:E; [|vm_compute in E; discriminate E].
  unfold demo_prepare in E.
  destruct (prepare_evaluated_route flash_fees_init map_keys map_to_list
    (demo_input (4 * 10 ^ 7) (3 * 10 ^ 7) 0) (RouteSimCache.new, 0)) as [[d' st']|] eqn:Ep; [|discriminate E].
  subst d'.
  destruct (prepared_dispatch_executable flash_fees_init map_keys map_to_list
    (demo_input (4 * 10 ^ 7) (3 * 10 ^ 7) 0) (RouteSimCache.new, 0) st' d)
    as (_ & _ & _ & _ & _ & _ & H).
  - eval_range.
  - unfold context_liquidity. vm_compute. split; [discriminate|split; [discriminate|split; [reflexivity|left; reflexivity]]].
  - split; eval_range.
  - exact Ep.
  - apply H. vm_compute. reflexivity.
Defined.
