(* ===== verification/Abi.v ===== *)
(** * Executor calls and their packing

    [src/src/abis.rs] (the calls the encoders emit), [calldata/approvals.rs],
    [calldata/hash.rs] and [build_packed_route_payload] of [calldata/mod.rs], all in
    [src/src/services/execution].  A call is kept as the typed value the code hands to
    the ABI encoder; the encoder itself is generated by a library and a parameter
    ([abi_encode]), and so is [keccak256].  Bytes are numbers below 256. *)
From S2P Require Import Prelude Word Types Routes.

(** ** Bytes *)

(** [to_be_bytes::<n>()] *)
Fixpoint be_bytes (n : nat) (v : Z) : list Z :=
  match n with
  | O => []
  | S n => be_bytes n (v / 256) ++ [v mod 256]
  end.

(** The number big-endian bytes denote. *)
Definition of_be (bytes : list Z) : Z := fold_left (λ acc b, acc * 256 + b) bytes 0.

(** A 32-byte word that holds an address. *)
Definition address_word (a : Address) : list Z := replicate 12 0 ++ be_bytes 20 a.

(** ** Calls *)

Record BalancerSingleSwap := {
  ss_pool_id : Z;
  ss_kind : Z;
  ss_asset_in : Address;
  ss_asset_out : Address;
  ss_amount : Z;
  ss_user_data : list Z;
}.

Record BalancerFundManagement := {
  fm_sender : Address;
  fm_from_internal_balance : bool;
  fm_recipient : Address;
  fm_to_internal_balance : bool;
}.

Record BalancerBatchSwapStep := {
  bs_pool_id : Z;
  bs_asset_in_index : nat;
  bs_asset_out_index : nat;
  bs_amount : Z;
  bs_user_data : list Z;
}.

(** The tuple of the V3 callback data. *)
Record V3Callback := { cb_protocol_id : Z; cb_token0 : Address; cb_token1 : Address; cb_fee : Z }.

(** The calls of [IArbExecutor], [IERC20] and the pools that the encoders make. *)
Inductive AbiCall :=
| TransferAllCall (token to : Address)
| TransferCall (to : Address) (amount : Z)
| ApproveCall (spender : Address) (amount : Z)
| V2SwapCall (amount0_out amount1_out : Z) (to : Address) (data : list Z)
| V3SwapCall (recipient : Address) (zero_for_one : bool) (amount_specified sqrt_price_limit_x96 : Z)
    (data : V3Callback)
| UnlockCall (data : list Z)
| CurveStableExchange (i j dx min_dy : Z)
| CurveStableNgExchange (i j dx min_dy : Z) (receiver : Address)
| CurveCryptoExchange (i j dx min_dy : Z)
| BalancerSwapCall (single_swap : BalancerSingleSwap) (funds : BalancerFundManagement)
    (limit deadline : Z)
| BatchSwapCall (kind : Z) (swaps : list BalancerBatchSwapStep) (assets : list Address)
    (funds : BalancerFundManagement) (limits : list Z) (deadline : Z)
| SellBaseCall (to : Address)
| SellQuoteCall (to : Address)
| WoofiSwapCall (from_token to_token : Address) (from_amount min_to_amount : Z)
    (to rebate_to : Address).

Record ExecutorCall := { ec_target : Address; ec_value : Z; ec_data : AbiCall }.

Definition exec_call (target : Address) (data : AbiCall) : ExecutorCall :=
  {| ec_target := target; ec_value := 0; ec_data := data |}.

(** ** Approvals and transfers *)

Definition encode_approve_if_needed (token spender : Address) (amount : Z) : ExecutorCall :=
  exec_call token (ApproveCall spender amount).

Definition encode_transfer_all (executor token to : Address) : ExecutorCall :=
  exec_call executor (TransferAllCall token to).

Definition encode_token_transfer (executor token pool : Address) (amount : Z)
    (use_transfer_all : bool) : ExecutorCall :=
  if use_transfer_all then encode_transfer_all executor token pool
  else exec_call token (TransferCall pool amount).

(** ** Packing *)

(** [is_plausible_contract_address] of [services/discovery.rs] *)
Definition MIN_CONTRACT : Address := 0xffff.
Definition is_plausible_contract_address (addr : Address) : bool :=
  (negb (is_zero addr) && (MIN_CONTRACT <? addr))%bool.

Section pack.
Context (abi_encode : AbiCall → list Z) (keccak256 : list Z → Z).

Definition compute_route_hash (route_blob : list Z) : Z := keccak256 route_blob.

(** The bytes of one call. *)
Definition pack_call (call : ExecutorCall) : list Z :=
  let data := abi_encode (ec_data call) in
  address_word (ec_target call) ++ be_bytes 32 (ec_value call)
    ++ be_bytes 32 (Z.of_nat (length data)) ++ data.

Definition pack_executor_calls (calls : list ExecutorCall) : option (list Z) :=
  if is_empty calls then None
  else if negb (packed_calls_fit_executor (length calls)) then None
  else if existsb (λ call, is_zero (ec_target call)
                           || negb (is_plausible_contract_address (ec_target call)))%bool calls
  then None
  else Some (be_bytes 32 (Z.of_nat (length calls)) ++ concat (pack_call <$> calls)).

Definition build_packed_route_payload (flash_token : Address) (flash_amount : Z)
    (profit_token : Address) (min_profit deadline : Z) (calls : list ExecutorCall)
  : option (list Z * Z) :=
  if (is_zero flash_token || is_zero profit_token)%bool then None
  else
    let? packed_calls := pack_executor_calls calls in
    let route_hash := compute_route_hash packed_calls in
    Some (address_word flash_token ++ be_bytes 32 flash_amount ++ address_word profit_token
            ++ be_bytes 32 min_profit ++ be_bytes 32 deadline ++ be_bytes 32 route_hash
            ++ packed_calls,
          route_hash).

(** ** Reading the packed bytes back *)

(** One 32-byte word and the rest. *)
Definition read_word (bytes : list Z) : option (Z * list Z) :=
  if (length bytes <? 32)%nat then None else Some (of_be (take 32 bytes), drop 32 bytes).

(** [n] calls: target, value and data of each. *)
Fixpoint read_calls (n : nat) (bytes : list Z) : option (list (Z * Z * list Z)) :=
  match n with
  | O => match bytes with [] => Some [] | _ => None end
  | S n =>
      let? target := read_word bytes in
      let? value := read_word target.2 in
      let? len := read_word value.2 in
      let size := Z.to_nat len.1 in
      if (length len.2 <? size)%nat then None
      else
        let? calls := read_calls n (drop size len.2) in
        Some ((target.1, value.1, take size len.2) :: calls)
  end.

Record Payload := {
  py_flash_token : Z;
  py_flash_amount : Z;
  py_profit_token : Z;
  py_min_profit : Z;
  py_deadline : Z;
  py_route_hash : Z;
  py_calls : list (Z * Z * list Z);
}.

Definition read_payload (bytes : list Z) : option Payload :=
  let? flash_token := read_word bytes in
  let? flash_amount := read_word flash_token.2 in
  let? profit_token := read_word flash_amount.2 in
  let? min_profit := read_word profit_token.2 in
  let? deadline := read_word min_profit.2 in
  let? route_hash := read_word deadline.2 in
  let? count := read_word route_hash.2 in
  let? calls := read_calls (Z.to_nat count.1) count.2 in
  Some {| py_flash_token := flash_token.1; py_flash_amount := flash_amount.1;
          py_profit_token := profit_token.1; py_min_profit := min_profit.1;
          py_deadline := deadline.1; py_route_hash := route_hash.1; py_calls := calls |}.
End pack.

(** ** Byte lemmas *)

Lemma be_bytes_length n : ∀ v, length (be_bytes n v) = n.
Proof. induction n as [|n IH]; intros v; [done|]. cbn. rewrite length_app, IH. cbn. lia. Qed.

Lemma of_be_app l r : of_be (l ++ r) = of_be l * 256 ^ Z.of_nat (length r) + of_be r.
Proof.
  unfold of_be. rewrite fold_left_app. generalize (fold_left (λ acc b, acc * 256 + b) l 0). intros a.
  induction r as [|b r IH] using rev_ind; [cbn; lia|].
  rewrite !fold_left_app, IH, length_app. cbn [fold_left length].
  rewrite Nat2Z.inj_add, Z.pow_add_r by lia. change (Z.of_nat 1) with 1. ring.
Qed.

Lemma of_be_be_bytes n : ∀ v, 0 ≤ v < 256 ^ Z.of_nat n → of_be (be_bytes n v) = v.
Proof.
  induction n as [|n IH]; intros v Hv; [cbn in *; lia|]. cbn [be_bytes].
  rewrite Nat2Z.inj_succ, Z.pow_succ_r in Hv by lia.
  rewrite of_be_app, IH by (split; [apply Z.div_pos; lia|apply Z.div_lt_upper_bound; lia]).
  cbn. pose proof (Z.div_mod v 256). lia.
Qed.

Lemma of_be_zeros n : of_be (replicate n 0) = 0.
Proof. unfold of_be. induction n as [|n IH]; [done|]. exact IH. Qed.

Lemma read_word_be v rest : u256 v → read_word (be_bytes 32 v ++ rest) = Some (v, rest).
Proof.
  intros Hv. unfold read_word. rewrite length_app, be_bytes_length.
  destruct (Nat.ltb_spec (32 + length rest) 32); [lia|].
  rewrite take_app_length', drop_app_length' by (symmetry; apply be_bytes_length).
  by rewrite of_be_be_bytes by (unfold u256, M256 in Hv; cbn; lia).
Qed.

(** An address is a 160-bit number. *)
Definition is_address (a : Z) : Prop := 0 ≤ a < 2 ^ 160.

Lemma address_word_length a : length (address_word a) = 32%nat.
Proof. unfold address_word. by rewrite length_app, length_replicate, be_bytes_length. Qed.

Lemma read_word_address a rest : is_address a → read_word (address_word a ++ rest) = Some (a, rest).
Proof.
  intros Ha. unfold read_word. rewrite length_app, address_word_length.
  destruct (Nat.ltb_spec (32 + length rest) 32); [lia|].
  rewrite take_app_length', drop_app_length' by (symmetry; apply address_word_length).
  unfold address_word. rewrite of_be_app, of_be_zeros.
  by rewrite of_be_be_bytes by (unfold is_address in Ha; cbn; lia).
Qed.

(** ** Properties *)

Section roundtrip.
Context (abi_encode : AbiCall → list Z) (keccak256 : list Z → Z).

(** A call whose parts fit their words. *)
Definition call_fits (call : ExecutorCall) : Prop :=
  is_address (ec_target call) ∧ u256 (ec_value call) ∧
  u256 (Z.of_nat (length (abi_encode (ec_data call)))).

(** What a reader sees of a call. *)
Definition raw_call (call : ExecutorCall) : Z * Z * list Z :=
  (ec_target call, ec_value call, abi_encode (ec_data call)).

Lemma read_calls_pack calls :
  Forall call_fits calls →
  read_calls (length calls) (concat (pack_call abi_encode <$> calls)) = Some (raw_call <$> calls).
Proof.
  induction 1 as [|call calls (Ht & Hv & Hl) _ IH]; [done|].
  cbn [length read_calls fmap list_fmap concat]. unfold pack_call at 1. rewrite <- !app_assoc.
  rewrite read_word_address by done. cbn [fst snd].
  rewrite read_word_be by done. cbn [fst snd]. rewrite read_word_be by done. cbn [fst snd].
  rewrite Nat2Z.id, length_app.
  destruct (Nat.ltb_spec (length (abi_encode (ec_data call)) + length (concat (pack_call abi_encode <$> calls)))
    (length (abi_encode (ec_data call)))); [lia|].
  by rewrite drop_app_length, take_app_length, IH.
Qed.

Lemma pack_executor_calls_spec calls :
  pack_executor_calls abi_encode calls =
    if bool_decide ((1 ≤ length calls ≤ MAX_EXECUTOR_CALLS)%nat ∧
                    Forall (λ call, MIN_CONTRACT < ec_target call) calls)
    then Some (be_bytes 32 (Z.of_nat (length calls)) ++ concat (pack_call abi_encode <$> calls))
    else None.
Proof.
  unfold pack_executor_calls, packed_calls_fit_executor.
  destruct calls as [|c calls]; cbn [is_empty]; [by rewrite bool_decide_eq_false_2 by (cbn; lia)|].
  destruct (Nat.leb_spec (length (c :: calls)) MAX_EXECUTOR_CALLS) as [Hl|Hl]; cbn [negb];
    [|by rewrite bool_decide_eq_false_2 by (cbn in *; lia)].
  destruct (existsb _ _) eqn:Ee.
  - rewrite bool_decide_eq_false_2; [done|]. intros [_ Hall].
    apply existsb_exists in Ee as (x & Hx%list_elem_of_In & Hz).
    rewrite Forall_forall in Hall. specialize (Hall x Hx).
    unfold is_plausible_contract_address, is_zero, MIN_CONTRACT in *. zbool. lia.
  - rewrite bool_decide_eq_true_2; [done|]. split; [cbn in *; lia|]. apply Forall_forall. intros x Hx.
    destruct (Z.ltb_spec MIN_CONTRACT (ec_target x)) as [|Hlt]; [done|].
    apply not_true_iff_false in Ee. destruct Ee. apply existsb_exists. exists x.
    split; [by apply list_elem_of_In|]. unfold is_plausible_contract_address.
    destruct (Z.ltb_spec MIN_CONTRACT (ec_target x)); [lia|]. by rewrite andb_false_r, orb_true_r.
Qed.

(** The payload of plausible calls reads back. *)
Lemma read_payload_build flash_token flash_amount profit_token min_profit deadline calls bytes hash :
  is_address flash_token → is_address profit_token → u256 flash_amount → u256 min_profit →
  u256 deadline → (∀ bytes, u256 (keccak256 bytes)) → Forall call_fits calls →
  build_packed_route_payload abi_encode keccak256 flash_token flash_amount profit_token min_profit
    deadline calls = Some (bytes, hash) →
  (∃ packed, pack_executor_calls abi_encode calls = Some packed ∧ hash = keccak256 packed) ∧
  read_payload bytes = Some
    {| py_flash_token := flash_token; py_flash_amount := flash_amount;
       py_profit_token := profit_token; py_min_profit := min_profit; py_deadline := deadline;
       py_route_hash := hash; py_calls := raw_call <$> calls |}.
Proof.
  intros Hf Hp Ha Hm Hd Hk Hcalls. unfold build_packed_route_payload. destruct (_ || _)%bool; [done|].
  rewrite pack_executor_calls_spec. case_bool_decide as Hok; [|done]. destruct Hok as [Hlen Hall].
  intros Heq. apply (inj Some), pair_eq in Heq as [<- <-]. split; [by eexists|].
  unfold read_payload. rewrite read_word_address by done. cbn [fst snd].
  rewrite read_word_be by done. cbn [fst snd]. rewrite read_word_address by done. cbn [fst snd].
  do 3 (rewrite read_word_be by (done || apply Hk); cbn [fst snd]).
  rewrite read_word_be by (unfold u256, M256, MAX_EXECUTOR_CALLS in *; lia). cbn [fst snd].
  rewrite Nat2Z.id. by rewrite read_calls_pack.
Qed.

(** C5: The packed route reads back.  A payload exists exactly when both tokens are given, there
    are between one and [MAX_EXECUTOR_CALLS] calls and every target lies above the precompiles;
    and when the parts fit their words, reading the bytes as the executor lays them out
    gives the flash token and amount, the profit token and minimum, the deadline, the hash
    of the packed calls, and every call in order with its target, value and data. *)
Theorem packed_route_roundtrip (flash_token flash_amount profit_token min_profit deadline : Z)
    (calls : list ExecutorCall) :
  is_address flash_token → is_address profit_token → u256 flash_amount → u256 min_profit →
  u256 deadline → (∀ bytes, u256 (keccak256 bytes)) → Forall call_fits calls →
  match build_packed_route_payload abi_encode keccak256 flash_token flash_amount profit_token
          min_profit deadline calls with
  | Some (bytes, route_hash) =>
      (∃ packed, pack_executor_calls abi_encode calls = Some packed ∧ route_hash = keccak256 packed) ∧
      read_payload bytes = Some
        {| py_flash_token := flash_token; py_flash_amount := flash_amount;
           py_profit_token := profit_token; py_min_profit := min_profit; py_deadline := deadline;
           py_route_hash := route_hash; py_calls := raw_call <$> calls |} ∧
      flash_token ≠ 0 ∧ profit_token ≠ 0 ∧ (1 ≤ length calls ≤ MAX_EXECUTOR_CALLS)%nat ∧
      Forall (λ call, MIN_CONTRACT < ec_target call) calls
  | None =>
      flash_token = 0 ∨ profit_token = 0 ∨
      ¬ ((1 ≤ length calls ≤ MAX_EXECUTOR_CALLS)%nat ∧ Forall (λ call, MIN_CONTRACT < ec_target call) calls)
  end.
Proof.
  intros Hf Hp Ha Hm Hd Hk Hcalls.
  destruct (build_packed_route_payload _ _ _ _ _ _ _ _) as [[bytes hash]|] eqn:Hb.
  - destruct (read_payload_build _ _ _ _ _ _ bytes hash Hf Hp Ha Hm Hd Hk Hcalls Hb) as [Hpack Hread].
    do 2 (split; [done|]). revert Hb. unfold build_packed_route_payload, is_zero.
    destruct (Z.eqb_spec flash_token 0), (Z.eqb_spec profit_token 0); cbn [orb]; try done. intros _.
    destruct Hpack as (packed & Hpack & _). rewrite pack_executor_calls_spec in Hpack.
    by case_bool_decide.
  - revert Hb. unfold build_packed_route_payload, is_zero.
    destruct (Z.eqb_spec flash_token 0); [by left|]. destruct (Z.eqb_spec profit_token 0); [by right; left|].
    cbn [orb]. rewrite pack_executor_calls_spec. case_bool_decide; [done|]. by right; right.
Qed.
End roundtrip.

Definition demo_encode (call : AbiCall) : list Z :=
  match call with TransferCall to amount => [1; 2; 3] | _ => [4] end.

Lemma packed_route_roundtrip_witness :
  match build_packed_route_payload demo_encode (λ _, 99) 70000 5 70001 6 7
          [exec_call 70000 (TransferCall 70002 5); exec_call 70002 (SellBaseCall 70003)] with
  | Some (bytes, route_hash) => option_map py_calls (read_payload bytes) =
      Some [(70000, 0, [1; 2; 3]); (70002, 0, [4])]
  | None => False
  end.
Proof.
  pose proof (packed_route_roundtrip demo_encode (λ _, 99) 70000 5 70001 6 7
    [exec_call 70000 (TransferCall 70002 5); exec_call 70002 (SellBaseCall 70003)]) as H.
  destruct (build_packed_route_payload demo_encode (λ _, 99) 70000 5 70001 6 7
    [exec_call 70000 (TransferCall 70002 5); exec_call 70002 (SellBaseCall 70003)]) as [[bytes hash]|] eqn:E.
  - destruct H as (_ & H & _).
    1,2: split; eval_range.
    1-3: eval_range.
    + intros bytes0. eval_range.
    + apply Forall_cons. split; [|apply Forall_cons; split; [|apply Forall_nil; exact I]];
        (split; [split; eval_range|split; eval_range]).
    + rewrite H. reflexivity.
  - vm_compute in E. discriminate E.
Defined.
