(* ===== verification/Calldata.v ===== *)
(** * From a route to executor calls

    [src/src/services/execution/calldata]: the hops of a route with their addresses and
    amounts ([build_calldata_hops]), one encoder per venue ([encoders/*.rs]) and
    [encode_route], which chains them; [quote.rs], the quotes and price limits they use;
    and the label tests of [core/protocol.rs].  An [anyhow] error is [None]; the reject
    strings of [build_calldata_hops] are constructors. *)
From stdpp Require Import gmap.
From Stdlib Require Import Ascii String.
From S2P Require Import Prelude Word Types TickMath UniswapV3 Gas Profit Arena Realign Routes LocalSim.
From S2P Require Import Submit FlashLiquidity Assess Abi.

(** ** Labels *)

Definition contains_ignore_case (s needle : string) : bool := ic s needle.

Definition is_ascii_alphanumeric (a : ascii) : bool :=
  let n := N_of_ascii a in
  (((48 <=? n) && (n <=? 57)) || ((65 <=? n) && (n <=? 90)) || ((97 <=? n) && (n <=? 122)))%N%bool.

(** [.bytes().filter(..).map(..).collect()] *)
Fixpoint compact_label (s : string) : string :=
  match s with
  | EmptyString => EmptyString
  | String a s => if is_ascii_alphanumeric a then String (lower a) (compact_label s) else compact_label s
  end.

Definition is_curve_stableswap_ng_pool_type (pool_type : option string) : bool :=
  let_some pool_type := pool_type or false in
  let compact := compact_label pool_type in
  (contains compact "stableng" || contains compact "stableswapng")%bool.

Definition is_algebra_integral_protocol_label (raw : string) : bool :=
  (contains_ignore_case raw "quickswap_v4" || contains_ignore_case raw "quick_v4")%bool.

Definition is_algebra_protocol_label (raw : string) : bool :=
  (is_algebra_integral_protocol_label raw || contains_ignore_case raw "algebra"
   || contains_ignore_case raw "quickswap_v3" || contains_ignore_case raw "quick_v3")%bool.

Definition is_known_protocol_label (raw : string) : bool :=
  (is_algebra_protocol_label raw || contains_ignore_case raw "woofi" || contains_ignore_case raw "dodo"
   || contains_ignore_case raw "balancer" || contains_ignore_case raw "curve"
   || contains_ignore_case raw "elastic" || contains_ignore_case raw "v2"
   || contains_ignore_case raw "v3" || contains_ignore_case raw "v4")%bool.

Definition curve_uses_receiver (pool_type : option string) : bool :=
  is_curve_stableswap_ng_pool_type pool_type.

Definition v3_callback_protocol_id (label : option string) : Z :=
  let_some l := label or 1 in
  if (ic l "sushiswap_v3" || ic l "sushi_v3")%bool then 2
  else if ic l "ramses" then 6
  else if is_algebra_integral_protocol_label l then 4
  else if is_algebra_protocol_label l then 3
  else 1.

(** ** The hops of a route *)

Definition balancer_pool_id_from_arena (arena : StateArena) (pool_index : PoolIndex) : option Z :=
  match pool_state arena pool_index with Some (PBalancer b) => bl_pool_id b | _ => None end.

Inductive HopReject :=
| EmptyEdges | HopAmountsLen | BrokenTokenChain
| MissingPoolAddr (hop : nat) | ImplausiblePool (hop : nat)
| MissingTokenIn (hop : nat) | MissingTokenOut (hop : nat) | ImplausibleTokens (hop : nat)
| ZfoMismatch (hop : nat) | MetaProtoMismatch (hop : nat)
| TokenNotInPool (hop : nat) | MetaTokensShort (hop : nat) | NoMeta (hop : nat)
| CurveCoinIdxUnresolved (hop : nat) | UnknownLabel (hop : nat).

Definition is_uniswap (p : ProtocolType) : bool :=
  match p with UniswapV2 | UniswapV3 | UniswapV4 => true | _ => false end.
Definition is_curve (p : ProtocolType) : bool :=
  match p with CurveStable | CurveCrypto => true | _ => false end.

(** The position of an address among the pool's tokens. *)
Definition meta_position (arena : StateArena) (m : PoolMeta) (addr : Address) : option nat :=
  position (λ t, bool_decide (token_address arena t = Some addr)) (pm_tokens m).

(** The membership test of a pair pool or Curve pool; [Some] is a reject. *)
Definition hop_membership (arena : StateArena) (i : nat) (edge : Edge) (meta : option PoolMeta)
    (tin tout : Address) : option HopReject :=
  if negb (is_uniswap (protocol edge) || is_curve (protocol edge)) then None
  else match meta with
  | None => Some (NoMeta i)
  | Some m =>
      if (length (pm_tokens m) <? 2)%nat then Some (MetaTokensShort i)
      else
        let meta_has addr := existsb (λ t, bool_decide (token_address arena t = Some addr)) (pm_tokens m) in
        if negb (meta_has tin && meta_has tout) then Some (TokenNotInPool i) else None
  end.

(** The coin indices of a Curve hop from the pool's token order. *)
Definition resolve_coin_indices (arena : StateArena) (i : nat) (edge : Edge) (meta : option PoolMeta)
    (tin tout : Address) : HopReject + Edge :=
  match meta with
  | Some m =>
      if is_curve (protocol edge) then
        match meta_position arena m tin, meta_position arena m tout with
        | Some i_pos, Some j_pos =>
            if (i_pos =? j_pos)%nat then inl (CurveCoinIdxUnresolved i)
            else inr (set_idxs edge (wrap_u 8 (Z.of_nat i_pos)) (wrap_u 8 (Z.of_nat j_pos)))
        | _, _ => inl (CurveCoinIdxUnresolved i)
        end
      else inr edge
  | None => inr edge
  end.

(** The body of the loop. *)
Definition build_calldata_hop (arena : StateArena) (metas : gmap Z PoolMeta) (hop_amounts : list Z)
    (i : nat) (edge : Edge) : HopReject + CalldataHop :=
  let_some pool_addr := pool_address arena (pool_index edge) or inl (MissingPoolAddr i) in
  if negb (is_plausible_contract_address pool_addr) then inl (ImplausiblePool i)
  else
  let_some tin := token_address arena (token_in edge) or inl (MissingTokenIn i) in
  let_some tout := token_address arena (token_out edge) or inl (MissingTokenOut i) in
  if (negb (is_plausible_contract_address tin) || negb (is_plausible_contract_address tout))%bool
  then inl (ImplausibleTokens i)
  else if (is_uniswap (protocol edge) && negb (Bool.eqb (zero_for_one edge) (tin <? tout)))%bool
  then inl (ZfoMismatch i)
  else
  let meta := metas !! pool_index edge in
  let meta_mismatch :=
    match meta with
    | Some pool =>
        (negb (bool_decide (pm_protocol pool = protocol edge))
         && negb match pool_state arena (pool_index edge) with
                 | Some s => protocol_matches_pool_state (protocol edge) s
                 | None => false
                 end)%bool
    | None => false
    end in
  if meta_mismatch then inl (MetaProtoMismatch i)
  else match hop_membership arena i edge meta tin tout with
  | Some reject => inl reject
  | None =>
      match resolve_coin_indices arena i edge meta tin tout with
      | inl reject => inl reject
      | inr edge =>
          let known_label :=
            match meta ≫= pm_protocol_label with Some label => is_known_protocol_label label | None => true end in
          if negb known_label then inl (UnknownLabel i)
          else
            let meta_pool_id := meta ≫= pm_pool_id in
            inr {| ch_edge := edge; ch_pool_address := pool_addr; ch_token_in := tin; ch_token_out := tout;
                   ch_amount_in := nth i hop_amounts 0; ch_amount_out := nth (S i) hop_amounts 0;
                   ch_pool_id :=
                     if is_balancer_edge edge then
                       match balancer_pool_id_from_arena arena (pool_index edge) with
                       | Some id => Some id
                       | None => meta_pool_id
                       end
                     else meta_pool_id;
                   ch_protocol_label := meta ≫= pm_protocol_label; ch_pool_type := meta ≫= pm_pool_type;
                   ch_router := None; ch_hooks := meta ≫= pm_hooks |}
      end
  end.

Fixpoint build_hops_loop (arena : StateArena) (metas : gmap Z PoolMeta) (hop_amounts : list Z)
    (i : nat) (edges : list Edge) : HopReject + list CalldataHop :=
  match edges with
  | [] => inr []
  | edge :: edges =>
      match build_calldata_hop arena metas hop_amounts i edge with
      | inl reject => inl reject
      | inr hop =>
          match build_hops_loop arena metas hop_amounts (S i) edges with
          | inl reject => inl reject
          | inr hops => inr (hop :: hops)
          end
      end
  end.

Definition build_calldata_hops (arena : StateArena) (edges : list Edge) (hop_amounts : list Z)
    (metas : gmap Z PoolMeta) : HopReject + list CalldataHop :=
  if Routes.is_empty edges then inl EmptyEdges
  else if negb (length hop_amounts =? length edges + 1)%nat then inl HopAmountsLen
  else if negb (bool_decide (first_hop_continuity_break_in_arena arena edges = None))
  then inl BrokenTokenChain
  else build_hops_loop arena metas hop_amounts 0 edges.

(** ** Quotes and price limits *)

Definition quote_hop_for_execution (arena : StateArena) (hop : CalldataHop) : outcome (option Z) :=
  let_some state := pool_state arena (pool_index (ch_edge hop)) or Done None in
  let '(ok, edge) := realign_multi_token_edge arena state (ch_edge hop) in
  if negb ok then Done None
  else simulate_hop_amount_out_for_execution state edge (ch_amount_in hop).

Definition resolve_v3_fee_pips_for_hop (arena : StateArena) (hop : CalldataHop) : Z :=
  let edge_fee := fee_bps (ch_edge hop) in
  match pool_state arena (pool_index (ch_edge hop)) with
  | Some (PV3 s) => Z.min (resolve_v3_fee_pips (cl_fee s) (Some edge_fee) false) 0xffffff
  | Some (PV4 s) => Z.min (resolve_v3_fee_pips (cl_fee s) (Some edge_fee) true) 0xffffff
  | _ => Z.min edge_fee 0xffffff
  end.

Definition pool_tokens_from_hop (hop : CalldataHop) : Address * Address :=
  if ch_token_in hop <? ch_token_out hop then (ch_token_in hop, ch_token_out hop)
  else (ch_token_out hop, ch_token_in hop).

(** [tmp.fee = U256::from(pips)] *)
Definition with_fee (pips : Z) (s : V3PoolState) : V3PoolState :=
  {| cl_sqrt_price_x96 := cl_sqrt_price_x96 s; cl_tick := cl_tick s; cl_liquidity := cl_liquidity s;
     cl_fee := pips; cl_tick_spacing := cl_tick_spacing s; cl_ticks := cl_ticks s;
     cl_unlocked := cl_unlocked s; cl_fee_protocol := cl_fee_protocol s;
     cl_observation_cardinality := cl_observation_cardinality s |}.

(** The limit at a price the swap moved to, half the slippage further. *)
Definition bumped_limit (sqrt_after : Z) (zero_for_one : bool) (slippage_bps : Z) : Z :=
  let denom := 20000 in
  if zero_for_one then Z.max (sqrt_after *% (denom -% slippage_bps) / denom) (MIN_SQRT_RATIO +% 1)
  else
    let limit := sqrt_after *% (denom +% slippage_bps) / denom in
    if MAX_SQRT_RATIO_EXCLUSIVE <? limit then MAX_SQRT_RATIO_EXCLUSIVE else limit.

(** The widest limit the protocol accepts in a direction. *)
Definition extreme_limit (zero_for_one : bool) : Z :=
  if zero_for_one then MIN_SQRT_RATIO +% 1 else MAX_SQRT_RATIO_EXCLUSIVE.

Definition derive_tight_v3_price_limit (state : V3PoolState) (amount_in quoted_out : Z)
    (zero_for_one : bool) (edge_fee_bps slippage_bps : Z) (explicit_fee_pips : option Z)
    (allow_zero_pool_fee : bool) : outcome (option Z) :=
  let! sim :=
    match explicit_fee_pips with
    | Some pips => simulate_v3_swap (with_fee pips state) amount_in zero_for_one None allow_zero_pool_fee
    | None => simulate_v3_swap state amount_in zero_for_one (Some edge_fee_bps) allow_zero_pool_fee
    end in
  let after := vr_sqrt_price_x96_after sim in
  if vr_shallow sim then
    Done (if ((length (cl_ticks state) =? 0)%nat && negb (is_zero quoted_out))%bool
          then Some (extreme_limit zero_for_one) else None)
  else if vr_synthetic sim then Done None
  else if ((after <? MIN_SQRT_RATIO) || (MAX_SQRT_RATIO <=? after))%bool then Done None
  else
    let moved_ok :=
      if zero_for_one then ((after <? cl_sqrt_price_x96 state) && (MIN_SQRT_RATIO <? after))%bool
      else ((cl_sqrt_price_x96 state <? after) && (after <? MAX_SQRT_RATIO))%bool in
    if (negb moved_ok && negb (is_zero quoted_out))%bool then Done None
    else Done (Some (bumped_limit after zero_for_one slippage_bps)).

(** ** Shared by the encoders *)

Definition WOOFI_ROUTER_V2 : Address := 0x4c4af8dbc524681930a27b2f1af5bcc8062e6fb7.
Definition UNISWAP_V4_POOL_MANAGER : Address := 0x67366782805870060151383f4bbff9dab53e5cd6.
Definition EXECUTION_MIN_SLIPPAGE_BPS : Z := 100.
Definition EXECUTION_CHAIN_IN_BUFFER_BPS : Z := 300.

Record RouteEncodeConfig := { rc_slippage_bps : Z; rc_deadline : Z }.

Definition compute_quoted_out (arena : StateArena) (hop : CalldataHop) : outcome (option Z) :=
  let!? q := quote_hop_for_execution arena hop or None in
  Done (if is_zero q then None else Some q).

Definition compute_min_out (arena : StateArena) (hop : CalldataHop) (slippage_bps : Z)
  : outcome (option Z) :=
  let!? quoted := compute_quoted_out arena hop or None in
  Done (slippage_adjusted quoted slippage_bps).

Definition to_v3_state (state : PoolState) : option V3PoolState :=
  match state with PV3 s | PV4 s => Some s | _ => None end.

Record ClSwapLimit := { sl_fee_pips : Z; sl_sqrt_limit : Z }.

Definition resolve_cl_swap_limit (arena : StateArena) (hop : CalldataHop) (slippage_bps : Z)
    (full_range_limit : bool) (prequoted_out : option Z) (allow_zero_pool_fee : bool)
  : outcome (option ClSwapLimit) :=
  let_some pool := pool_state arena (pool_index (ch_edge hop)) or Done None in
  let_some state := to_v3_state pool or Done None in
  let fresh := quote_hop_for_execution arena hop in
  let!? quoted_out :=
    (match prequoted_out with Some q => if is_zero q then fresh else Done (Some q) | None => fresh end)
    or None in
  let fee_pips := resolve_v3_fee_pips_for_hop arena hop in
  let zfo := zero_for_one (ch_edge hop) in
  let!? sqrt_limit :=
    (if full_range_limit then Done (Some (extreme_limit zfo))
     else derive_tight_v3_price_limit state (ch_amount_in hop) quoted_out zfo (fee_bps (ch_edge hop))
            slippage_bps (Some fee_pips) allow_zero_pool_fee) or None in
  Done (Some {| sl_fee_pips := fee_pips; sl_sqrt_limit := sqrt_limit |}).

Definition resolve_balancer_pool_id (pool_id : option Z) : option Z := pool_id.

(** The floor of an exact-in exchange: the requoted minimum, or the assessed output when
    that is lower and not zero. *)
Definition tighter_min (arena : StateArena) (hop : CalldataHop) (slippage_bps : Z) : outcome (option Z) :=
  let!? quoted := compute_min_out arena hop (Z.max slippage_bps EXECUTION_MIN_SLIPPAGE_BPS) or None in
  Done (Some (if is_zero (ch_amount_out hop) then quoted else Z.min (ch_amount_out hop) quoted)).

(** ** Uniswap V2 *)

Inductive V2Prefund := PrefundExact | PrefundTransferAll | PrefundSkipped.

Definition encode_v2_hop (arena : StateArena) (hop : CalldataHop) (swap_to executor : Address)
    (slippage_bps : Z) (prefund : V2Prefund) : outcome (option (list ExecutorCall * Z)) :=
  let zfo := zero_for_one (ch_edge hop) in
  if negb (Bool.eqb zfo (ch_token_in hop <? ch_token_out hop)) then Done None
  else
    let!? amount_out := tighter_min arena hop slippage_bps or None in
    if is_zero amount_out then Done None
    else
      let transfer use_all :=
        [encode_token_transfer executor (ch_token_in hop) (ch_pool_address hop) (ch_amount_in hop) use_all] in
      let funding :=
        match prefund with
        | PrefundExact => transfer false
        | PrefundTransferAll => transfer true
        | PrefundSkipped => []
        end in
      let amounts := if zfo then (0, amount_out) else (amount_out, 0) in
      Done (Some (funding ++ [exec_call (ch_pool_address hop) (V2SwapCall amounts.1 amounts.2 swap_to [])],
                  amount_out)).

(** ** Uniswap V3 and V4 *)

(** [I256::try_from] *)
Definition i256_try_from (v : Z) : option Z := if v <? 2 ^ 255 then Some v else None.

Definition sqrt_limit_u160 (sqrt_limit : Z) : option Z :=
  if sqrt_limit <? 2 ^ 160 then Some sqrt_limit else None.

Definition encode_v3_hop (hop : CalldataHop) (recipient : Address) (arena : StateArena)
    (slippage_bps : Z) (full_range_limit : bool) (prequoted_out : option Z)
  : outcome (option (list ExecutorCall)) :=
  let!? limit := resolve_cl_swap_limit arena hop slippage_bps full_range_limit prequoted_out false or None in
  let tokens := pool_tokens_from_hop hop in
  let proto_id := v3_callback_protocol_id (ch_protocol_label hop) in
  if sl_fee_pips limit =? 0 then Done None
  else
    let callback :=
      {| cb_protocol_id := proto_id; cb_token0 := tokens.1; cb_token1 := tokens.2;
         cb_fee := sl_fee_pips limit |} in
    let_some amount_spec := i256_try_from (ch_amount_in hop) or Done None in
    let_some sqrt_limit := sqrt_limit_u160 (sl_sqrt_limit limit) or Done None in
    Done (Some [exec_call (ch_pool_address hop)
                  (V3SwapCall recipient (zero_for_one (ch_edge hop)) amount_spec sqrt_limit callback)]).

Definition SWAP_HOOK_BLOCKLIST_MASK : Z := 0x00cc.
Definition is_supported_v4_hook (hook : Address) : bool :=
  let flags := hook mod 2 ^ 16 in
  (is_zero hook || (Z.land flags SWAP_HOOK_BLOCKLIST_MASK =? 0))%bool.

Definition v4_static_fields (arena : StateArena) (hop : CalldataHop) : Z * Z * Address :=
  let hooks := default 0 (ch_hooks hop) in
  match pool_state arena (pool_index (ch_edge hop)) with
  | Some (PV4 s) =>
      (Z.min (resolve_v3_fee_pips (cl_fee s) (Some (fee_bps (ch_edge hop))) true) 0xffffff,
       cl_tick_spacing s, hooks)
  | _ => (Z.min (fee_bps (ch_edge hop) * 100) u32_max, 60, hooks)
  end.

Record V4PoolKey := {
  pk_currency0 : Address;
  pk_currency1 : Address;
  pk_fee : Z;
  pk_tick_spacing : Z;
  pk_hooks : Address;
}.

(** [Signed::try_from] of an [int24] fails when it does not fit, [Uint::from] of a [uint24]
    panics. *)
Definition build_v4_pool_key (tin tout : Address) (fee tick_spacing : Z) (hooks : Address)
  : outcome (option (V4PoolKey * bool)) :=
  let currencies := if tin <? tout then (tin, tout) else (tout, tin) in
  let zero_for_one := tin =? currencies.1 in
  if negb ((- 2 ^ 23 <=? tick_spacing) && (tick_spacing <? 2 ^ 23))%bool then Done None
  else if 2 ^ 24 <=? fee then Panic
  else
    Done (Some ({| pk_currency0 := currencies.1; pk_currency1 := currencies.2; pk_fee := fee;
                   pk_tick_spacing := tick_spacing; pk_hooks := hooks |}, zero_for_one)).

(** The 256 bytes of [abi.encode(PoolKey, SwapParams)]; [to_be_bytes] of a signed number is
    its two's complement. *)
Definition unlock_inner (key : V4PoolKey) (zero_for_one : bool) (amount_spec sqrt_limit : Z) : list Z :=
  address_word (pk_currency0 key) ++ address_word (pk_currency1 key)
    ++ replicate 29 0 ++ be_bytes 3 (pk_fee key)
    ++ replicate 29 0 ++ be_bytes 3 (pk_tick_spacing key mod 2 ^ 24)
    ++ address_word (pk_hooks key)
    ++ replicate 31 0 ++ [if zero_for_one then 1 else 0]
    ++ be_bytes 32 (amount_spec mod M256) ++ be_bytes 32 sqrt_limit.

Definition encode_v4_hop (hop : CalldataHop) (arena : StateArena) (slippage_bps : Z)
    (full_range_limit : bool) (prequoted_out : option Z) : outcome (option (list ExecutorCall)) :=
  let '(fee, tick_spacing, hooks) := v4_static_fields arena hop in
  if negb (is_supported_v4_hook hooks) then Done None
  else if negb (Bool.eqb (zero_for_one (ch_edge hop)) (ch_token_in hop <? ch_token_out hop)) then Done None
  else
    let!? limit := resolve_cl_swap_limit arena hop slippage_bps full_range_limit prequoted_out true or None in
    let!? key := build_v4_pool_key (ch_token_in hop) (ch_token_out hop) fee tick_spacing hooks or None in
    let_some amount_pos := i256_try_from (ch_amount_in hop) or Done None in
    let amount_spec := - amount_pos in
    Done (Some
      [encode_approve_if_needed (ch_token_in hop) UNISWAP_V4_POOL_MANAGER (ch_amount_in hop);
       exec_call UNISWAP_V4_POOL_MANAGER
         (UnlockCall (unlock_inner key.1 key.2 amount_spec (sl_sqrt_limit limit)))]).

(** ** Curve, Balancer, DODO, WOOFi *)

Definition encode_curve_hop (hop : CalldataHop) (recipient : Address) (arena : StateArena)
    (slippage_bps : Z) : outcome (option (list ExecutorCall)) :=
  if token_in_idx (ch_edge hop) =? token_out_idx (ch_edge hop) then Done None
  else
    let!? min_dy := tighter_min arena hop slippage_bps or None in
    let i := token_in_idx (ch_edge hop) in
    let j := token_out_idx (ch_edge hop) in
    let dx := ch_amount_in hop in
    let exchange :=
      if curve_uses_receiver (ch_pool_type hop) then CurveStableNgExchange i j dx min_dy recipient
      else if bool_decide (protocol (ch_edge hop) = CurveCrypto) then CurveCryptoExchange i j dx min_dy
      else CurveStableExchange i j dx min_dy in
    Done (Some [encode_approve_if_needed (ch_token_in hop) (ch_pool_address hop) dx;
                exec_call (ch_pool_address hop) exchange]).

Definition BALANCER_GIVEN_IN : Z := 0.

(** The vault pays [recipient] with the tokens of [sender]. *)
Definition vault_funds (sender recipient : Address) : BalancerFundManagement :=
  {| fm_sender := sender; fm_from_internal_balance := false; fm_recipient := recipient;
     fm_to_internal_balance := false |}.

Definition encode_balancer_hop (hop : CalldataHop) (recipient executor : Address) (arena : StateArena)
    (slippage_bps deadline : Z) : outcome (option (list ExecutorCall)) :=
  let_some pool_id := resolve_balancer_pool_id (ch_pool_id hop) or Done None in
  let!? limit := tighter_min arena hop slippage_bps or None in
  let single_swap :=
    {| ss_pool_id := pool_id; ss_kind := BALANCER_GIVEN_IN; ss_asset_in := ch_token_in hop;
       ss_asset_out := ch_token_out hop; ss_amount := ch_amount_in hop; ss_user_data := [] |} in
  Done (Some [encode_approve_if_needed (ch_token_in hop) BALANCER_VAULT (ch_amount_in hop);
              exec_call BALANCER_VAULT
                (BalancerSwapCall single_swap (vault_funds executor recipient) limit deadline)]).

Record BalancerBatchSwapRequest := {
  br_swaps : list BalancerBatchSwapStep;
  br_assets : list Address;
  br_funds : BalancerFundManagement;
}.

(** [asset_index.entry(token)]: the assets are the keys of the map, in the order of their
    indices, so the index of a token is its position among them. *)
Definition add_asset (assets : list Address) (token : Address) : list Address :=
  if bool_decide (token ∈ assets) then assets else assets ++ [token].

Definition batch_assets (hops : list CalldataHop) : list Address :=
  fold_left (λ assets hop, add_asset (add_asset assets (ch_token_in hop)) (ch_token_out hop)) hops [].

Definition asset_position (assets : list Address) (token : Address) : option nat :=
  position (λ a, a =? token) assets.

Fixpoint batch_swaps (assets : list Address) (i : nat) (hops : list CalldataHop)
  : option (list BalancerBatchSwapStep) :=
  match hops with
  | [] => Some []
  | hop :: hops =>
      let? pool_id := resolve_balancer_pool_id (ch_pool_id hop) in
      let? asset_in_index := asset_position assets (ch_token_in hop) in
      let? asset_out_index := asset_position assets (ch_token_out hop) in
      let? swaps := batch_swaps assets (S i) hops in
      Some ({| bs_pool_id := pool_id; bs_asset_in_index := asset_in_index;
               bs_asset_out_index := asset_out_index;
               bs_amount := if (i =? 0)%nat then ch_amount_in hop else 0; bs_user_data := [] |} :: swaps)
  end.

Definition build_balancer_batch_swap_request (hops : list CalldataHop) (recipient : Address)
  : option BalancerBatchSwapRequest :=
  if Routes.is_empty hops then None
  else
    let assets := batch_assets hops in
    let? swaps := batch_swaps assets 0 hops in
    Some {| br_swaps := swaps; br_assets := assets; br_funds := vault_funds recipient recipient |}.

Definition I256_MAX : Z := 2 ^ 255 - 1.

Definition build_flash_swap_limits (assets : list Address) (hops : list CalldataHop) : list Z :=
  let limits := replicate (length assets) 0 in
  match hops with
  | first :: _ =>
      match asset_position assets (ch_token_in first) with
      | Some idx => <[idx := I256_MAX]> limits
      | None => limits
      end
  | [] => limits
  end.

Definition encode_balancer_batch_route (hops : list CalldataHop) (recipient : Address) (deadline : Z)
  : option (list ExecutorCall) :=
  let? req := build_balancer_batch_swap_request hops recipient in
  let limits := build_flash_swap_limits (br_assets req) hops in
  Some [exec_call BALANCER_VAULT
          (BatchSwapCall BALANCER_GIVEN_IN (br_swaps req) (br_assets req) (br_funds req) limits deadline)].

Definition dodo_sell_base (arena : StateArena) (hop : CalldataHop) : option bool :=
  match pool_state arena (pool_index (ch_edge hop)) with
  | Some (PDodo state) =>
      if ((ch_token_in hop =? dd_base_token state) && (ch_token_out hop =? dd_quote_token state))%bool
      then Some true
      else if ((ch_token_in hop =? dd_quote_token state) && (ch_token_out hop =? dd_base_token state))%bool
      then Some false
      else None
  | _ => Some (token_in_idx (ch_edge hop) =? 0)
  end.

Definition encode_dodo_hop (arena : StateArena) (hop : CalldataHop) (recipient executor : Address)
    (use_transfer_all : bool) : option (list ExecutorCall) :=
  let? sell_base := dodo_sell_base arena hop in
  Some [encode_token_transfer executor (ch_token_in hop) (ch_pool_address hop) (ch_amount_in hop)
          use_transfer_all;
        exec_call (ch_pool_address hop) (if sell_base then SellBaseCall recipient else SellQuoteCall recipient)].

Definition resolve_woofi_router (hop : CalldataHop) : Address := default WOOFI_ROUTER_V2 (ch_router hop).

Definition encode_woofi_hop (hop : CalldataHop) (recipient : Address) (arena : StateArena)
    (slippage_bps : Z) : outcome (option (list ExecutorCall)) :=
  let router := resolve_woofi_router hop in
  let!? min_to := tighter_min arena hop slippage_bps or None in
  Done (Some [encode_approve_if_needed (ch_token_in hop) router (ch_amount_in hop);
              exec_call router (WoofiSwapCall (ch_token_in hop) (ch_token_out hop) (ch_amount_in hop)
                                  min_to recipient 0)]).

Definition encode_hop_for_protocol (hop : CalldataHop) (recipient executor : Address) (arena : StateArena)
    (config : RouteEncodeConfig) (is_first_hop is_last_hop : bool) (prequoted_out : option Z)
  : outcome (option (list ExecutorCall)) :=
  let slippage := rc_slippage_bps config in
  match protocol (ch_edge hop) with
  | UniswapV2 =>
      let!? r := encode_v2_hop arena hop recipient executor slippage
                   (if is_first_hop then PrefundExact else PrefundTransferAll) or None in
      Done (Some r.1)
  | UniswapV3 => encode_v3_hop hop recipient arena slippage (negb is_last_hop) prequoted_out
  | UniswapV4 => encode_v4_hop hop arena slippage (negb is_last_hop) prequoted_out
  | CurveStable | CurveCrypto => encode_curve_hop hop recipient arena slippage
  | BalancerV2 => encode_balancer_hop hop recipient executor arena slippage (rc_deadline config)
  | Dodo => Done (encode_dodo_hop arena hop recipient executor (negb is_first_hop))
  | Woofi => encode_woofi_hop hop recipient arena slippage
  end.

(** ** The route *)

Definition hop_can_direct_output_to (hop : CalldataHop) : bool :=
  match protocol (ch_edge hop) with
  | UniswapV2 | UniswapV3 | Dodo | BalancerV2 | Woofi => true
  | CurveStable | CurveCrypto => curve_uses_receiver (ch_pool_type hop)
  | UniswapV4 => false
  end.

Definition is_v2_hop (hop : CalldataHop) : bool := bool_decide (protocol (ch_edge hop) = UniswapV2).

Definition validate_flash_hop_compatibility (hops : list CalldataHop) (flash_source : FlashLoanSource) : bool :=
  match flash_source with
  | FBalancer => negb (existsb (λ h, is_balancer_edge (ch_edge h)) hops)
  | FDodo => negb (existsb (λ h, bool_decide (protocol (ch_edge h) = Dodo)) hops)
  | FAaveV3 | FDirect => true
  end.

Definition with_amounts (hop : CalldataHop) (amount_in amount_out : Z) : CalldataHop :=
  {| ch_edge := ch_edge hop; ch_pool_address := ch_pool_address hop; ch_token_in := ch_token_in hop;
     ch_token_out := ch_token_out hop; ch_amount_in := amount_in; ch_amount_out := amount_out;
     ch_pool_id := ch_pool_id hop; ch_protocol_label := ch_protocol_label hop;
     ch_pool_type := ch_pool_type hop; ch_router := ch_router hop; ch_hooks := ch_hooks hop |}.

(** [if let Some(ain) = chain_in.take()]: the amount the previous hop hands on. *)
Definition chained_hop (chain_in : option Z) (hop : CalldataHop) : CalldataHop :=
  match chain_in with
  | Some ain =>
      with_amounts hop (if is_zero (ch_amount_in hop) then ain else Z.min ain (ch_amount_in hop))
        (ch_amount_out hop)
  | None => hop
  end.

Section route.
Context (arena : StateArena) (executor : Address) (config : RouteEncodeConfig).

(** Where a hop sends its output: the next V2 pair when it can, or the executor. *)
Definition output_to (direct : bool) (next : option CalldataHop) : Address :=
  match next with
  | Some n => if (is_v2_hop n && direct)%bool then ch_pool_address n else executor
  | None => executor
  end.

(** The body of the loop: the calls, the amount handed on and where the output is. *)
Definition encode_hop_step (i : nat) (chain_in : option Z) (funds_at : option Address)
    (hop : CalldataHop) (next : option CalldataHop)
  : outcome (option (list ExecutorCall * option Z * Address)) :=
  let hop := chained_hop chain_in hop in
  if is_v2_hop hop then
    let swap_to := output_to true next in
    let prefund :=
      if bool_decide (funds_at = Some (ch_pool_address hop)) then PrefundSkipped
      else if (i =? 0)%nat then PrefundExact else PrefundTransferAll in
    let!? r := encode_v2_hop arena hop swap_to executor (rc_slippage_bps config) prefund or None in
    Done (Some (r.1, Some r.2, swap_to))
  else
    let bps := Z.max (rc_slippage_bps config) EXECUTION_MIN_SLIPPAGE_BPS in
    let!? quoted_out := quote_hop_for_execution arena hop or None in
    let_some min_out := slippage_adjusted quoted_out bps or Done None in
    let hop := with_amounts hop (ch_amount_in hop) min_out in
    let recipient := output_to (hop_can_direct_output_to hop) next in
    let is_last := bool_decide (next = None) in
    let!? calls := encode_hop_for_protocol hop recipient executor arena config (i =? 0)%nat is_last
                     (Some quoted_out) or None in
    if is_last then Done (Some (calls, None, recipient))
    else
      let chain_bps := Z.min (bps + EXECUTION_CHAIN_IN_BUFFER_BPS) u64_max in
      let_some chained := slippage_adjusted quoted_out chain_bps or Done None in
      Done (Some (calls, Some chained, recipient)).

Fixpoint route_loop (i : nat) (chain_in : option Z) (funds_at : option Address) (hops : list CalldataHop)
  : outcome (option (list ExecutorCall)) :=
  match hops with
  | [] => Done (Some [])
  | hop :: hops =>
      let!? step := encode_hop_step i chain_in funds_at hop (head hops) or None in
      let '(calls, chain_in, funds_at) := step in
      let!? rest := route_loop (S i) chain_in (Some funds_at) hops or None in
      Done (Some (calls ++ rest))
  end.

Definition encode_route (hops : list CalldataHop) (flash_source : FlashLoanSource)
  : outcome (option (list ExecutorCall)) :=
  if is_zero executor then Done None
  else if negb (validate_flash_hop_compatibility hops flash_source) then Done None
  else if (bool_decide (flash_source = FDirect) && hops_are_balancer_only hops
           && (length hops <=? MAX_BALANCER_BATCH_HOPS)%nat)%bool
  then Done (encode_balancer_batch_route hops executor (rc_deadline config))
  else route_loop 0 None None hops.
End route.

(** ** Where the tokens are *)

Section flow.
Context (executor : Address).

(** The address whose balance of the hop's input token its calls spend: the pool itself when
    it was paid before, or the executor, by a transfer to the pool that is called next, by an
    approval of the contract that is called next, or in the callback of a V3 swap. *)
Definition spends_from (hop : CalldataHop) (calls : list ExecutorCall) : option Address :=
  match calls with
  | [swap] =>
      match ec_data swap with
      | V2SwapCall _ _ _ _ => Some (ec_target swap)
      | V3SwapCall _ _ _ _ _ => Some executor
      | _ => None
      end
  | [funding; swap] =>
      match ec_data funding with
      | TransferCall to amount =>
          if bool_decide (to = ec_target swap ∧ ec_target funding = ch_token_in hop ∧
                          amount = ch_amount_in hop) then Some executor else None
      | TransferAllCall token to =>
          if bool_decide (to = ec_target swap ∧ ec_target funding = executor ∧ token = ch_token_in hop)
          then Some executor else None
      | ApproveCall spender amount =>
          if bool_decide (spender = ec_target swap ∧ ec_target funding = ch_token_in hop ∧
                          amount = ch_amount_in hop) then Some executor else None
      | _ => None
      end
  | _ => None
  end.

(** Who receives the output. *)
Definition pays_to (calls : list ExecutorCall) : option Address :=
  let? swap := last calls in
  match ec_data swap with
  | V2SwapCall _ _ to _ | SellBaseCall to | SellQuoteCall to => Some to
  | V3SwapCall recipient _ _ _ _ => Some recipient
  | CurveStableNgExchange _ _ _ _ receiver => Some receiver
  | UnlockCall _ | CurveStableExchange _ _ _ _ | CurveCryptoExchange _ _ _ _ => Some executor
  | BalancerSwapCall _ funds _ _ =>
      if fm_sender funds =? executor then Some (fm_recipient funds) else None
  | WoofiSwapCall _ _ _ _ to _ => Some to
  | _ => None
  end.

(** The output the calls insist on, where they state one. *)
Definition guaranteed_out (calls : list ExecutorCall) : option Z :=
  let? swap := last calls in
  match ec_data swap with
  | V2SwapCall amount0_out amount1_out _ _ => Some (Z.max amount0_out amount1_out)
  | CurveStableExchange _ _ _ min_dy | CurveCryptoExchange _ _ _ min_dy
  | CurveStableNgExchange _ _ _ min_dy _ => Some min_dy
  | BalancerSwapCall _ _ limit _ => Some limit
  | WoofiSwapCall _ _ _ min_to _ _ => Some min_to
  | _ => None
  end.

(** A hop is not given more than its predecessor guarantees. *)
Definition hands_on (calls : list ExecutorCall) (amount_in : Z) : Prop :=
  ∀ g, guaranteed_out calls = Some g → 0 ≤ g → amount_in ≤ g.

(** Each hop spends where the one before it paid, and the last pays the executor. *)
Inductive flows : Address → list (CalldataHop * list ExecutorCall) → Prop :=
| flows_end : flows executor []
| flows_hop from to hop calls rest :
    spends_from hop calls = Some from → pays_to calls = Some to →
    (∀ next, head rest = Some next → hands_on calls (ch_amount_in next.1)) →
    flows to rest → flows from ((hop, calls) :: rest).

(** A hop as encoded: the planned one, but for the amounts, with at most the planned input. *)
Definition encoded_as (planned encoded : CalldataHop) : Prop :=
  encoded = with_amounts planned (ch_amount_in encoded) (ch_amount_out encoded) ∧
  (ch_amount_in planned ≠ 0 → ch_amount_in encoded ≤ ch_amount_in planned).

(** ** What a hop's calls do *)

Section trades.
Context (arena : StateArena) (config : RouteEncodeConfig).

(** The call that swaps: on the contract of the hop's pool (the V4 manager, the vault, the
    WOOFi router), in the hop's direction, between its tokens or coins, of its exact input.
    A V2 pair and a DODO pool are called with what they were paid; the payload of a V4
    unlock is spelled out as its eight words. *)
Definition trades (hop : CalldataHop) (swap : ExecutorCall) : Prop :=
  let edge := ch_edge hop in
  let tin := ch_token_in hop in
  let tout := ch_token_out hop in
  let dx := ch_amount_in hop in
  match protocol edge with
  | UniswapV2 =>
      ec_target swap = ch_pool_address hop ∧ zero_for_one edge = (tin <? tout) ∧
      ∃ out to, out ≠ 0 ∧
        ec_data swap = V2SwapCall (if tin <? tout then 0 else out) (if tin <? tout then out else 0) to []
  | UniswapV3 =>
      ec_target swap = ch_pool_address hop ∧
      ∃ to limit, ec_data swap = V3SwapCall to (zero_for_one edge) dx limit
        {| cb_protocol_id := v3_callback_protocol_id (ch_protocol_label hop);
           cb_token0 := Z.min tin tout; cb_token1 := Z.max tin tout;
           cb_fee := resolve_v3_fee_pips_for_hop arena hop |}
  | UniswapV4 =>
      ec_target swap = UNISWAP_V4_POOL_MANAGER ∧ zero_for_one edge = (tin <? tout) ∧
      ∃ fee spacing limit, (v4_static_fields arena hop).1 = (fee, spacing) ∧
        ec_data swap = UnlockCall
          (address_word (Z.min tin tout) ++ address_word (Z.max tin tout)
             ++ replicate 29 0 ++ be_bytes 3 fee ++ replicate 29 0 ++ be_bytes 3 (spacing mod 2 ^ 24)
             ++ address_word (default 0 (ch_hooks hop))
             ++ replicate 31 0 ++ [if tin <=? tout then 1 else 0]
             ++ be_bytes 32 ((- dx) mod M256) ++ be_bytes 32 limit)
  | CurveStable | CurveCrypto =>
      let i := token_in_idx edge in
      let j := token_out_idx edge in
      ec_target swap = ch_pool_address hop ∧ i ≠ j ∧
      ∃ min_dy to, ec_data swap =
        if is_curve_stableswap_ng_pool_type (ch_pool_type hop) then CurveStableNgExchange i j dx min_dy to
        else match protocol edge with
             | CurveCrypto => CurveCryptoExchange i j dx min_dy
             | _ => CurveStableExchange i j dx min_dy
             end
  | BalancerV2 =>
      ec_target swap = BALANCER_VAULT ∧
      ∃ pool_id limit to, ch_pool_id hop = Some pool_id ∧
        ec_data swap = BalancerSwapCall
          {| ss_pool_id := pool_id; ss_kind := 0; ss_asset_in := tin; ss_asset_out := tout; ss_amount := dx;
             ss_user_data := [] |}
          {| fm_sender := executor; fm_from_internal_balance := false; fm_recipient := to;
             fm_to_internal_balance := false |} limit (rc_deadline config)
  | Dodo =>
      ec_target swap = ch_pool_address hop ∧
      ∃ to sell_base, ec_data swap = (if sell_base : bool then SellBaseCall to else SellQuoteCall to) ∧
        match pool_state arena (pool_index edge) with
        | Some (PDodo pool) =>
            (tin, tout) = if sell_base then (dd_base_token pool, dd_quote_token pool)
                          else (dd_quote_token pool, dd_base_token pool)
        | _ => sell_base = (token_in_idx edge =? 0)
        end
  | Woofi =>
      ec_target swap = default WOOFI_ROUTER_V2 (ch_router hop) ∧
      ∃ min_to to, ec_data swap = WoofiSwapCall tin tout dx min_to to 0
  end.

(** The minimum that a hop's calls insist on: its requote less the slippage, or the assessed
    output of the hop when that is lower. *)
Definition insists (hop : CalldataHop) (calls : list ExecutorCall) : Prop :=
  ∀ g, guaranteed_out calls = Some g → 0 < g →
    ∃ quoted least, quote_hop_for_execution arena hop = Done (Some quoted) ∧
      slippage_adjusted quoted (Z.max (rc_slippage_bps config) EXECUTION_MIN_SLIPPAGE_BPS) = Some least ∧
      g = if is_zero (ch_amount_out hop) then least else Z.min (ch_amount_out hop) least.

(** No value is sent along, and the last call is the hop's swap. *)
Definition executes (hop : CalldataHop) (calls : list ExecutorCall) : Prop :=
  Forall (λ c, ec_value c = 0) calls ∧ (∃ swap, last calls = Some swap ∧ trades hop swap) ∧ insists hop calls.

(** The amount a hop hands on: the exact output of a pair, else the requote less the slippage
    and the chain's buffer. *)
Definition hands_out (hop : CalldataHop) (calls : list ExecutorCall) (c : Z) : Prop :=
  if is_v2_hop hop
  then ∃ swap a0 a1 to data, last calls = Some swap ∧ ec_data swap = V2SwapCall a0 a1 to data ∧ c = a0 + a1
  else ∃ quoted, quote_hop_for_execution arena hop = Done (Some quoted) ∧
         slippage_adjusted quoted
           (Z.min (Z.max (rc_slippage_bps config) EXECUTION_MIN_SLIPPAGE_BPS + EXECUTION_CHAIN_IN_BUFFER_BPS)
              u64_max) = Some c.

(** The input of a hop is the planned one, and from the second hop on what the previous hop
    hands on, when the plan has no amount or a larger one. *)
Definition input_from (chain_in : option Z) (planned : CalldataHop) : Z :=
  match chain_in with
  | Some c => if ch_amount_in planned =? 0 then c else Z.min c (ch_amount_in planned)
  | None => ch_amount_in planned
  end.

(** The calls of the hops, in order. *)
Inductive encodes : option Z → list CalldataHop → list (CalldataHop * list ExecutorCall) → Prop :=
| encodes_nil chain_in : encodes chain_in [] []
| encodes_cons chain_in chain_out hop hops used calls segs :
    encoded_as hop used → ch_amount_in used = input_from chain_in hop → executes used calls →
    (hops ≠ [] → ∃ c, chain_out = Some c ∧ hands_out used calls c) →
    encodes chain_out hops segs → encodes chain_in (hop :: hops) ((used, calls) :: segs).
End trades.

Lemma tighter_min_spec arena hop slip m :
  tighter_min arena hop slip = Done (Some m) →
  ∃ q lo, quote_hop_for_execution arena hop = Done (Some q) ∧
    slippage_adjusted q (Z.max slip EXECUTION_MIN_SLIPPAGE_BPS) = Some lo ∧
    m = if is_zero (ch_amount_out hop) then lo else Z.min (ch_amount_out hop) lo.
Proof.
  unfold tighter_min, compute_min_out, compute_quoted_out.
  destruct (quote_hop_for_execution arena hop) as [[q|]|]; [|done..].
  destruct (is_zero q); [done|].
  destruct (slippage_adjusted q _) as [lo|] eqn:E; [|done]. intros [= <-]. by exists q, lo.
Qed.

Lemma encode_v2_hop_flow arena hop swap_to slip prefund calls out :
  encode_v2_hop arena hop swap_to executor slip prefund = Done (Some (calls, out)) →
  spends_from hop calls =
    Some (match prefund with PrefundSkipped => ch_pool_address hop | _ => executor end) ∧
  pays_to calls = Some swap_to ∧ hands_on calls out ∧ hands_on calls (Z.min out (ch_amount_in hop)) .
Proof.
  unfold encode_v2_hop. destruct (negb _); [done|].
  destruct (tighter_min _ _ _) as [[o|]|]; [|done..]. destruct (is_zero o); [done|]. intros [= <- <-].
  destruct prefund, (zero_for_one (ch_edge hop)); cbn; rewrite ?bool_decide_eq_true_2 by done;
    unfold hands_on; cbn; (split_and!; [done|done|..]); intros g [= <-] Hg; lia.
Qed.

Ltac funds_at_executor :=
  cbn; rewrite ?bool_decide_eq_true_2 by done; rewrite ?Z.eqb_refl; split_and!; try done;
  cbn; intros; simplify_eq; lia.

Lemma encode_curve_flow arena hop recipient slip calls :
  (curve_uses_receiver (ch_pool_type hop) = false → recipient = executor) →
  (∀ m, tighter_min arena hop slip = Done (Some m) → m = ch_amount_out hop) →
  encode_curve_hop hop recipient arena slip = Done (Some calls) →
  spends_from hop calls = Some executor ∧ pays_to calls = Some recipient ∧
  (∀ g, guaranteed_out calls = Some g → g = ch_amount_out hop).
Proof.
  intros Hdir Hmin. unfold encode_curve_hop. destruct (_ =? _); [done|].
  destruct (tighter_min _ _ _) as [[m|]|]; [|done..]. rewrite (Hmin m eq_refl). intros [= <-].
  destruct (curve_uses_receiver _); [by funds_at_executor|]. rewrite (Hdir eq_refl).
  destruct (bool_decide _); by funds_at_executor.
Qed.

Lemma encode_hop_flow arena config hop recipient first last q calls :
  is_v2_hop hop = false →
  (hop_can_direct_output_to hop = false → recipient = executor) →
  quote_hop_for_execution arena hop = Done (Some q) →
  slippage_adjusted q (Z.max (rc_slippage_bps config) EXECUTION_MIN_SLIPPAGE_BPS) = Some (ch_amount_out hop) →
  encode_hop_for_protocol hop recipient executor arena config first last (Some q) = Done (Some calls) →
  spends_from hop calls = Some executor ∧ pays_to calls = Some recipient ∧
  (∀ g, guaranteed_out calls = Some g → g = ch_amount_out hop).
Proof.
  intros Hv2 Hdir Hq Hout. unfold is_v2_hop, hop_can_direct_output_to, encode_hop_for_protocol in *.
  assert (∀ m, tighter_min arena hop (rc_slippage_bps config) = Done (Some m) → m = ch_amount_out hop) as Hmin.
  { intros m Hm%tighter_min_spec. destruct Hm as (q' & lo & Hq' & Hlo & ->).
    rewrite Hq in Hq'. injection Hq' as <-. rewrite Hout in Hlo. injection Hlo as <-.
    destruct (is_zero _); [done|lia]. }
  destruct (protocol (ch_edge hop)); [by rewrite bool_decide_eq_true_2 in Hv2|..]; intros H.
  - revert H. unfold encode_v3_hop. destruct (resolve_cl_swap_limit _ _ _ _ _ _) as [[l|]|]; [|done..].
    destruct (_ =? 0); [done|]. destruct (i256_try_from _); [|done]. destruct (sqrt_limit_u160 _); [|done].
    by intros [= <-].
  - rewrite (Hdir eq_refl). revert H. unfold encode_v4_hop. destruct (v4_static_fields arena hop) as [[? ?] ?].
    destruct (negb _); [done|]. destruct (negb _); [done|].
    destruct (resolve_cl_swap_limit _ _ _ _ _ _) as [[l|]|]; [|done..].
    destruct (build_v4_pool_key _ _ _ _ _) as [[key|]|]; [|done..]. destruct (i256_try_from _); [|done].
    intros [= <-]. by funds_at_executor.
  - revert H. unfold encode_balancer_hop. destruct (resolve_balancer_pool_id _); [|done].
    destruct (tighter_min _ _ _) as [[m|]|]; [|done..]. rewrite (Hmin m eq_refl). intros [= <-].
    by funds_at_executor.
  - by apply (encode_curve_flow arena hop recipient (rc_slippage_bps config)).
  - by apply (encode_curve_flow arena hop recipient (rc_slippage_bps config)).
  - injection H as H. revert H. unfold encode_dodo_hop. destruct (dodo_sell_base arena hop) as [b|]; [|done].
    intros [= <-]. destruct first, b; by funds_at_executor.
  - revert H. unfold encode_woofi_hop. destruct (tighter_min _ _ _) as [[m|]|]; [|done..].
    rewrite (Hmin m eq_refl). intros [= <-]. by funds_at_executor.
Qed.

Lemma pool_tokens_sorted hop :
  pool_tokens_from_hop hop = (Z.min (ch_token_in hop) (ch_token_out hop), Z.max (ch_token_in hop) (ch_token_out hop)).
Proof. unfold pool_tokens_from_hop. destruct (Z.ltb_spec (ch_token_in hop) (ch_token_out hop)); f_equal; lia. Qed.

Lemma encode_v2_hop_executes arena config hop swap_to prefund calls out :
  is_v2_hop hop = true →
  encode_v2_hop arena hop swap_to executor (rc_slippage_bps config) prefund = Done (Some (calls, out)) →
  executes arena config hop calls ∧ hands_out arena config hop calls out.
Proof.
  intros Hv. unfold executes, hands_out. rewrite Hv. apply bool_decide_eq_true in Hv.
  unfold encode_v2_hop. destruct (Bool.eqb _ _) eqn:Ez; cbn [negb]; [|done]. apply eqb_prop in Ez.
  destruct (tighter_min _ _ _) as [[o|]|] eqn:Em; [|done..].
  unfold is_zero at 1. destruct (Z.eqb_spec o 0); [done|]. intros [= <- <-].
  apply tighter_min_spec in Em as (q & lo & Hq & Hlo & Ho).
  set (swap := exec_call (ch_pool_address hop) _).
  assert (∀ funding, Forall (λ c, ec_value c = 0) funding →
    Forall (λ c, ec_value c = 0) (funding ++ [swap])) as Hvalue by (intros f Hf; by apply Forall_app; repeat constructor).
  split; [split; [|split]|].
  - apply Hvalue. destruct prefund; by repeat constructor.
  - exists swap. split; [by apply last_snoc|]. unfold trades. rewrite Hv. cbn. split; [done|]. split; [done|].
    exists o, swap_to. split; [done|]. rewrite <- Ez. by destruct (zero_for_one _).
  - unfold insists, guaranteed_out. rewrite last_snoc. subst swap. intros g [= <-] Hpos. exists q, lo.
    split; [done|]. split; [done|]. rewrite <- Ho. destruct (zero_for_one _); cbn [fst snd] in *; lia.
  - exists swap. rewrite last_snoc. eexists _, _, _, _. split; [done|]. split; [done|].
    destruct (zero_for_one _); cbn [fst snd]; lia.
Qed.

Lemma encode_curve_executes arena config hop recipient calls :
  is_curve (protocol (ch_edge hop)) = true →
  encode_curve_hop hop recipient arena (rc_slippage_bps config) = Done (Some calls) →
  executes arena config hop calls.
Proof.
  intros Hc. unfold encode_curve_hop. destruct (Z.eqb_spec (token_in_idx (ch_edge hop)) (token_out_idx (ch_edge hop)));
    [done|].
  destruct (tighter_min _ _ _) as [[m|]|] eqn:Em; [|done..]. apply tighter_min_spec in Em as (q & lo & Hq & Hlo & Hm).
  intros [= <-]. split; [by repeat constructor|]. split.
  - eexists. split; [reflexivity|]. unfold trades. cbn. unfold curve_uses_receiver.
    destruct (protocol (ch_edge hop)) eqn:Ep; try discriminate Hc;
      (split; [done|]; split; [done|]; exists m, recipient; by destruct (is_curve_stableswap_ng_pool_type _)).
  - intros g Hg _. exists q, lo. split; [done|]. split; [done|]. rewrite <- Hm. revert Hg. unfold guaranteed_out. cbn.
    destruct (curve_uses_receiver _); [by intros [= <-]|]. destruct (bool_decide _); by intros [= <-].
Qed.

Lemma encode_v3_executes arena config hop recipient full q calls :
  protocol (ch_edge hop) = UniswapV3 →
  encode_v3_hop hop recipient arena (rc_slippage_bps config) full q = Done (Some calls) → executes arena config hop calls.
Proof.
  intros Hp. unfold encode_v3_hop.
  destruct (resolve_cl_swap_limit _ _ _ _ _ _) as [[l|]|] eqn:El; [|done..].
  assert (sl_fee_pips l = resolve_v3_fee_pips_for_hop arena hop) as Hfee.
  { revert El. unfold resolve_cl_swap_limit. repeat case_match; intros; simplify_eq; done. }
  rewrite Hfee. destruct (_ =? 0); [done|]. unfold i256_try_from, sqrt_limit_u160.
  destruct (_ <? 2 ^ 255); [|done]. destruct (_ <? 2 ^ 160); [|done]. intros [= <-].
  split; [by repeat constructor|]. split; [|by intros g [=]]. eexists. split; [reflexivity|].
  unfold trades. rewrite Hp, pool_tokens_sorted. cbn. split; [done|]. by eexists _, _.
Qed.

Lemma encode_v4_executes arena config hop full q calls :
  protocol (ch_edge hop) = UniswapV4 →
  encode_v4_hop hop arena (rc_slippage_bps config) full q = Done (Some calls) → executes arena config hop calls.
Proof.
  intros Hp. unfold encode_v4_hop. destruct (v4_static_fields arena hop) as [[fee spacing] hooks] eqn:Es.
  assert (hooks = default 0 (ch_hooks hop)) as ->.
  { revert Es. unfold v4_static_fields. repeat case_match; by intros [= _ _ <-]. }
  destruct (negb (is_supported_v4_hook _)); [done|].
  destruct (Bool.eqb _ _) eqn:Ez; cbn [negb]; [|done]. apply eqb_prop in Ez.
  destruct (resolve_cl_swap_limit _ _ _ _ _ _) as [[l|]|]; [|done..]. unfold build_v4_pool_key.
  fold (pool_tokens_from_hop hop). rewrite pool_tokens_sorted. cbn [fst snd].
  destruct (negb _); [done|]. destruct (2 ^ 24 <=? fee); [done|]. unfold i256_try_from.
  destruct (_ <? 2 ^ 255); [|done]. intros [= <-].
  split; [by repeat constructor|]. split; [|by intros g [=]]. eexists. split; [reflexivity|].
  unfold trades. rewrite Hp, Es. cbn [ec_target ec_data exec_call fst snd]. split; [done|]. split; [done|].
  exists fee, spacing, (sl_sqrt_limit l). split; [done|]. unfold unlock_inner. cbn.
  assert ((ch_token_in hop =? Z.min (ch_token_in hop) (ch_token_out hop)) = (ch_token_in hop <=? ch_token_out hop)) as ->
    by (destruct (Z.leb_spec (ch_token_in hop) (ch_token_out hop));
        destruct (Z.eqb_spec (ch_token_in hop) (Z.min (ch_token_in hop) (ch_token_out hop))); lia).
  done.
Qed.

Lemma encode_hop_executes arena config hop recipient first is_last q calls :
  is_v2_hop hop = false →
  encode_hop_for_protocol hop recipient executor arena config first is_last q = Done (Some calls) →
  executes arena config hop calls.
Proof.
  unfold is_v2_hop, encode_hop_for_protocol. intros Hv. destruct (protocol (ch_edge hop)) eqn:Ep; [done|..].
  - by apply encode_v3_executes.
  - by apply encode_v4_executes.
  - unfold encode_balancer_hop, resolve_balancer_pool_id. destruct (ch_pool_id hop) as [id|] eqn:Eid; [|done].
    destruct (tighter_min _ _ _) as [[m|]|] eqn:Em; [|done..].
    apply tighter_min_spec in Em as (q' & lo & Hq & Hlo & Hm). intros [= <-].
    split; [by repeat constructor|]. split; [|intros g [= <-] _; by exists q', lo].
    eexists. split; [reflexivity|]. unfold trades. rewrite Ep. cbn. split; [done|]. by eexists _, _, _.
  - apply encode_curve_executes. by rewrite Ep.
  - apply encode_curve_executes. by rewrite Ep.
  - intros [= H]. revert H. unfold encode_dodo_hop, dodo_sell_base.
    destruct (match pool_state arena _ with Some _ => _ | None => _ end) as [b|] eqn:Eb; [|done]. intros [= <-].
    split; [destruct first; by repeat constructor|]. split; [|intros g; by destruct b].
    eexists. split; [reflexivity|]. unfold trades. rewrite Ep. cbn. split; [done|]. exists recipient, b.
    split; [by destruct b|]. revert Eb. destruct (pool_state arena _) as [[]|]; try (by intros [= <-]).
    destruct (_ && _)%bool eqn:E1.
    { intros [= <-]. apply andb_true_iff in E1 as [E1%Z.eqb_eq E2%Z.eqb_eq]. by rewrite E1, E2. }
    destruct (_ && _)%bool eqn:E2 in |- *; [|done].
    intros [= <-]. apply andb_true_iff in E2 as [E2%Z.eqb_eq E3%Z.eqb_eq]. by rewrite E2, E3.
  - unfold encode_woofi_hop, resolve_woofi_router.
    destruct (tighter_min _ _ _) as [[m|]|] eqn:Em; [|done..].
    apply tighter_min_spec in Em as (q' & lo & Hq & Hlo & Hm). intros [= <-].
    split; [by repeat constructor|]. split; [|intros g [= <-] _; by exists q', lo].
    eexists. split; [reflexivity|]. unfold trades. rewrite Ep. cbn. split; [done|]. by eexists _, _.
Qed.

(** The state between two hops: the output is at the executor or at the next pair, and the
    amount handed on is at most what was guaranteed. *)
Definition funds_ok (at_ : Address) (hops : list CalldataHop) : Prop :=
  at_ = executor ∨ ∃ hop, head hops = Some hop ∧ is_v2_hop hop = true ∧ at_ = ch_pool_address hop.

Lemma chained_hop_eq chain_in hop :
  chained_hop chain_in hop = with_amounts hop (input_from chain_in hop) (ch_amount_out hop).
Proof. unfold chained_hop, input_from. destruct chain_in as [c|]; [done|by destruct hop]. Qed.

Lemma input_from_le chain_in hop :
  (ch_amount_in hop ≠ 0 → input_from chain_in hop ≤ ch_amount_in hop) ∧
  (∀ c, chain_in = Some c → input_from chain_in hop ≤ c).
Proof.
  unfold input_from. destruct chain_in as [c|]; [|by split; [|intros ? [=]]].
  destruct (Z.eqb_spec (ch_amount_in hop) 0); split; try (intros ? [= <-]); lia.
Qed.

Lemma output_to_ok direct next :
  direct = false → output_to executor direct next = executor.
Proof. intros ->. unfold output_to. destruct next; [by rewrite andb_false_r|done]. Qed.

Lemma output_to_funds direct hops : funds_ok (output_to executor direct (head hops)) hops.
Proof.
  unfold funds_ok, output_to. destruct hops as [|n hops]; cbn [head]; [by left|].
  destruct (is_v2_hop n) eqn:E; cbn [andb]; [|by left]. destruct direct; [right; by exists n|by left].
Qed.

Lemma slippage_adjusted_mono q s s' m m' :
  0 ≤ s ≤ s' → slippage_adjusted q s = Some m → slippage_adjusted q s' = Some m' → 0 ≤ m → m' ≤ m.
Proof.
  intros Hs. unfold slippage_adjusted, is_zero.
  destruct (_ || _)%bool eqn:E; [done|]. destruct (_ || _)%bool eqn:E' in |- *; [done|]. zbool.
  change BPS_SCALE with 10000. rewrite !wsub_small by (unfold M256; lia).
  destruct (checked_mul q (10000 - s)) as [v|] eqn:Ev; [|done]. apply checked_mul_Some in Ev as [-> _].
  destruct (checked_mul q (10000 - s')) as [v'|] eqn:Ev'; [|done]. apply checked_mul_Some in Ev' as [-> _].
  destruct (Z.eqb_spec (q * (10000 - s) / 10000) 0); [done|]. intros [= <-].
  destruct (_ =? 0); [done|]. intros [= <-] Hm.
  apply Z.div_le_mono; [lia|].
  assert (0 ≤ q) by (destruct (Z.le_gt_cases 0 q); [done|]; assert (q * (10000 - s) < 0) by nia;
    assert (q * (10000 - s) / 10000 < 0) by (apply Z.div_lt_upper_bound; lia); lia).
  nia.
Qed.

Lemma hands_on_le calls a b : hands_on calls a → b ≤ a → hands_on calls b.
Proof. intros H Hb g Hg Hpos. specialize (H g Hg Hpos). lia. Qed.

Lemma encode_hop_step_flow arena config i chain_in funds_at hop hops calls chain_out at_ :
  0 ≤ rc_slippage_bps config ≤ u64_max →
  funds_ok (default executor funds_at) (hop :: hops) →
  encode_hop_step arena executor config i chain_in funds_at hop (head hops)
    = Done (Some (calls, chain_out, at_)) →
  ∃ used, encoded_as hop used ∧ ch_amount_in used = input_from chain_in hop ∧
    executes arena config used calls ∧
    spends_from used calls = Some (default executor funds_at) ∧ pays_to calls = Some at_ ∧
    funds_ok at_ hops ∧ (∀ c, chain_out = Some c → hands_on calls c) ∧
    (hops ≠ [] → ∃ c, chain_out = Some c ∧ hands_out arena config used calls c).
Proof.
  intros Hslip Hfunds. unfold encode_hop_step. rewrite chained_hop_eq.
  destruct (input_from_le chain_in hop) as [Hmax _].
  set (used := with_amounts hop (input_from chain_in hop) (ch_amount_out hop)).
  change (is_v2_hop used) with (is_v2_hop hop).
  destruct (is_v2_hop hop) eqn:E.
  - destruct (encode_v2_hop _ _ _ _ _ _) as [[[cs out]|]|] eqn:Ec; [|done..]. intros [= <- <- <-].
    pose proof Ec as Hex. apply encode_v2_hop_executes in Hex as [Hex Hout]; [|exact E].
    apply encode_v2_hop_flow in Ec as (Hs & Hp & Hh & _). exists used.
    split_and!; try done; [|apply output_to_funds|by intros ? [= <-]|by intros _; exists out].
    rewrite Hs. f_equal. case_bool_decide as Hf; [by rewrite Hf|].
    destruct funds_at as [a|]; [|by destruct (i =? 0)%nat].
    cbn in Hfunds. destruct Hfunds as [->|(h & [= <-] & _ & ->)]; [by destruct (i =? 0)%nat|by destruct Hf].
  - assert (default executor funds_at = executor) as ->.
    { destruct Hfunds as [->|(h & [= <-] & Hv & _)]; [done|congruence]. }
    destruct (quote_hop_for_execution arena used) as [[q|]|] eqn:Eq; [|done..].
    destruct (slippage_adjusted q _) as [lo|] eqn:El; [|done].
    set (bps := Z.max _ _) in *. set (hop' := with_amounts used (ch_amount_in used) lo).
    destruct (encode_hop_for_protocol _ _ _ _ _ _ _ _) as [[cs|]|] eqn:Ec; [|done..].
    pose proof Ec as Hex. apply encode_hop_executes in Hex; [|exact E].
    apply encode_hop_flow in Ec as (Hs & Hp & Hh); [|exact E|by apply output_to_ok|done|done].
    case_bool_decide as Elast.
    + intros [= <- <- <-]. exists hop'. split_and!; try done; [apply output_to_funds|].
      intros Hne. destruct hops; [done|]. discriminate Elast.
    + destruct (slippage_adjusted q (Z.min _ _)) as [c|] eqn:Echain; [|done].
      intros [= <- <- <-]. exists hop'. split_and!; try done; [apply output_to_funds| |].
      * intros c' [= <-] g Hg Hpos. apply Hh in Hg as ->. cbn in Hpos |- *.
        apply (slippage_adjusted_mono q bps (Z.min (bps + EXECUTION_CHAIN_IN_BUFFER_BPS) u64_max)); try done.
        unfold bps, EXECUTION_MIN_SLIPPAGE_BPS, EXECUTION_CHAIN_IN_BUFFER_BPS, u64_max, M64 in *. lia.
      * intros _. exists c. split; [done|]. unfold hands_out. change (is_v2_hop hop') with (is_v2_hop hop).
        rewrite E. by exists q.
Qed.

Lemma route_loop_flow arena config hops : ∀ i chain_in funds_at calls,
  0 ≤ rc_slippage_bps config ≤ u64_max → funds_ok (default executor funds_at) hops →
  route_loop arena executor config i chain_in funds_at hops = Done (Some calls) →
  ∃ segs, calls = concat segs.*2 ∧ encodes arena config chain_in hops segs ∧
    flows (default executor funds_at) segs ∧
    (∀ c seg, chain_in = Some c → head segs = Some seg → ch_amount_in seg.1 ≤ c).
Proof.
  induction hops as [|hop hops IH]; intros i chain_in funds_at calls Hslip Hfunds; cbn [route_loop].
  { intros [= <-]. exists []. split_and!; [done|constructor| |by intros].
    destruct Hfunds as [->|(? & [=] & _)]. constructor. }
  destruct (encode_hop_step _ _ _ _ _ _ _ _) as [[[[cs chain'] at_]|]|] eqn:Es; [|done..].
  apply encode_hop_step_flow in Es as (used & Henc & Hin & Hex & Hs & Hp & Hok & Hh & Hsome); [|done..].
  destruct (route_loop _ _ _ _ _ _ _) as [[rest|]|] eqn:Er; [|done..]. intros [= <-].
  apply IH in Er as (segs & -> & Hall & Hflow & Hhead); [|done..].
  exists ((used, cs) :: segs). cbn [concat fmap list_fmap fst snd]. split_and!; [done|by econstructor| |].
  - apply (flows_hop _ at_); try done. intros next Hnext.
    destruct hops as [|h hops]; [inversion Hall; by subst|].
    destruct (Hsome ltac:(done)) as (c & -> & _). eapply hands_on_le; [by apply Hh|by apply Hhead].
  - intros c seg Hc [= <-]. cbn [fst]. rewrite Hin. by apply input_from_le.
Qed.
End flow.

(** ** The vault batch *)

Lemma add_asset_NoDup assets t : NoDup assets → NoDup (add_asset assets t) ∧ t ∈ add_asset assets t ∧ assets ⊆ add_asset assets t.
Proof.
  intros Hnd. unfold add_asset. case_bool_decide; [done|]. split_and!; [|set_solver..].
  apply NoDup_app. split_and!; [done|set_solver|apply NoDup_singleton].
Qed.

Lemma batch_assets_spec hops : ∀ assets,
  NoDup assets →
  let all := fold_left (λ assets hop, add_asset (add_asset assets (ch_token_in hop)) (ch_token_out hop)) hops assets in
  NoDup all ∧ assets ⊆ all ∧ Forall (λ hop, ch_token_in hop ∈ all ∧ ch_token_out hop ∈ all) hops.
Proof.
  induction hops as [|hop hops IH]; intros assets Hnd; cbn [fold_left]; [by split_and!|].
  destruct (add_asset_NoDup assets (ch_token_in hop) Hnd) as (H1 & H2 & H3).
  destruct (add_asset_NoDup _ (ch_token_out hop) H1) as (H4 & H5 & H6).
  destruct (IH _ H4) as (H7 & H8 & H9). split_and!; [done|set_solver|].
  constructor; [set_solver|done].
Qed.

Lemma asset_position_spec assets t :
  match asset_position assets t with Some i => assets !! i = Some t | None => t ∉ assets end.
Proof.
  unfold asset_position. induction assets as [|a assets IH]; cbn [position]; [set_solver|].
  destruct (Z.eqb_spec a t) as [->|]; [done|].
  destruct (position _ assets) as [i|]; cbn in *; [done|set_solver].
Qed.

(** A step of the batch stands for its hop. *)
Definition step_of (assets : list Address) (i : nat) (hop : CalldataHop) (s : BalancerBatchSwapStep) : Prop :=
  ch_pool_id hop = Some (bs_pool_id s) ∧ assets !! bs_asset_in_index s = Some (ch_token_in hop) ∧
  assets !! bs_asset_out_index s = Some (ch_token_out hop) ∧
  bs_amount s = (if (i =? 0)%nat then ch_amount_in hop else 0) ∧ bs_user_data s = [].

Lemma batch_swaps_spec assets hops : ∀ i,
  Forall (λ hop, ch_token_in hop ∈ assets ∧ ch_token_out hop ∈ assets) hops →
  match batch_swaps assets i hops with
  | Some swaps => length swaps = length hops ∧
      ∀ k hop s, hops !! k = Some hop → swaps !! k = Some s → step_of assets (i + k) hop s
  | None => Exists (λ hop, ch_pool_id hop = None) hops
  end.
Proof.
  induction hops as [|hop hops IH]; intros i Hall; cbn [batch_swaps]; [done|].
  apply Forall_cons in Hall as [[Hin Hout] Hall]. unfold resolve_balancer_pool_id.
  destruct (ch_pool_id hop) as [id|] eqn:Eid; [|by left].
  pose proof (asset_position_spec assets (ch_token_in hop)) as Hi.
  pose proof (asset_position_spec assets (ch_token_out hop)) as Ho.
  destruct (asset_position assets (ch_token_in hop)) as [a|]; [|done].
  destruct (asset_position assets (ch_token_out hop)) as [b|]; [|done].
  specialize (IH (S i) Hall). destruct (batch_swaps assets (S i) hops) as [swaps|]; [|by right].
  destruct IH as [Hlen IH]. split; [cbn; lia|].
  intros [|k] h s; cbn; [intros [= <-] [= <-]|intros Hh Hs].
  - rewrite Nat.add_0_r. by unfold step_of.
  - rewrite Nat.add_succ_r. by apply IH.
Qed.

(** A pure Balancer route is one batch that borrows nothing but its first input.  The request
    exists exactly when there are hops and each has a pool id; the assets are distinct, every
    step names the pool and the tokens of its hop by their positions, only the first step
    has an amount (the vault passes each output on), sender and recipient are the executor;
    and the limits let the vault take the first input only. *)
Theorem balancer_batch_faithful (hops : list CalldataHop) (recipient : Address) :
  match build_balancer_batch_swap_request hops recipient with
  | Some req =>
      NoDup (br_assets req) ∧ length (br_swaps req) = length hops ∧
      (∀ k hop s, hops !! k = Some hop → br_swaps req !! k = Some s → step_of (br_assets req) k hop s) ∧
      br_funds req = vault_funds recipient recipient ∧
      (∀ first k a limit, head hops = Some first → br_assets req !! k = Some a →
         build_flash_swap_limits (br_assets req) hops !! k = Some limit →
         limit = if bool_decide (a = ch_token_in first) then I256_MAX else 0) ∧
      length (build_flash_swap_limits (br_assets req) hops) = length (br_assets req)
  | None => hops = [] ∨ Exists (λ hop, ch_pool_id hop = None) hops
  end.
Proof.
  unfold build_balancer_batch_swap_request. destruct hops as [|first rest] eqn:Eh; [by left|].
  rewrite <- Eh. assert (Routes.is_empty hops = false) as -> by (by rewrite Eh).
  destruct (batch_assets_spec hops [] (NoDup_nil_2)) as (Hnd & _ & Hall). fold (batch_assets hops) in *.
  pose proof (batch_swaps_spec (batch_assets hops) hops 0 Hall) as Hs.
  destruct (batch_swaps _ _ _) as [swaps|]; [|by right]. destruct Hs as [Hlen Hs]. cbn [br_assets br_swaps br_funds].
  assert (is_Some (asset_position (batch_assets hops) (ch_token_in first))) as [idx Eidx].
  { pose proof (asset_position_spec (batch_assets hops) (ch_token_in first)) as Hp.
    destruct (asset_position _ _); [done|]. rewrite Forall_forall in Hall.
    destruct (Hall first) as [? _]; [rewrite Eh; constructor|done]. }
  pose proof (asset_position_spec (batch_assets hops) (ch_token_in first)) as Hp. rewrite Eidx in Hp.
  assert (build_flash_swap_limits (batch_assets hops) hops =
    <[idx := I256_MAX]> (replicate (length (batch_assets hops)) 0)) as ->.
  { unfold build_flash_swap_limits. generalize dependent (batch_assets hops). intros assets. intros.
    rewrite Eh. by rewrite Eidx. }
  split_and!; try done; [|by rewrite length_insert, length_replicate].
  intros f k a limit Hf Ha. rewrite Eh in Hf. injection Hf as <-.
  destruct (decide (k = idx)) as [->|Hne].
  - rewrite Ha in Hp. injection Hp as ->. rewrite bool_decide_eq_true_2 by done.
    rewrite list_lookup_insert_eq; [by intros [= <-]|]. rewrite length_replicate. by eapply lookup_lt_Some.
  - rewrite list_lookup_insert_ne by done. intros [-> _]%lookup_replicate.
    rewrite bool_decide_eq_false_2; [done|]. intros ->. apply Hne. by eapply NoDup_lookup.
Qed.

(** The calls of a batch: one call of the vault, whose request stands for the hops. *)
Definition batches (executor deadline : Z) (hops : list CalldataHop) (calls : list ExecutorCall) : Prop :=
  ∃ swaps assets limits,
    calls = [{| ec_target := BALANCER_VAULT; ec_value := 0;
                ec_data := BatchSwapCall 0 swaps assets
                  {| fm_sender := executor; fm_from_internal_balance := false; fm_recipient := executor;
                     fm_to_internal_balance := false |} limits deadline |}] ∧
    NoDup assets ∧ length swaps = length hops ∧ length limits = length assets ∧
    (∀ k hop s, hops !! k = Some hop → swaps !! k = Some s → step_of assets k hop s) ∧
    (∀ first k a limit, head hops = Some first → assets !! k = Some a → limits !! k = Some limit →
       limit = if bool_decide (a = ch_token_in first) then 2 ^ 255 - 1 else 0).

Lemma encode_batch_batches executor deadline hops calls :
  encode_balancer_batch_route hops executor deadline = Some calls → batches executor deadline hops calls.
Proof.
  unfold encode_balancer_batch_route. pose proof (balancer_batch_faithful hops executor) as H.
  destruct (build_balancer_batch_swap_request hops executor) as [req|]; [|done].
  destruct H as (Hnd & Hlen & Hsteps & Hfunds & Hlim & Hlen'). intros [= <-].
  exists (br_swaps req), (br_assets req), (build_flash_swap_limits (br_assets req) hops). by rewrite Hfunds.
Qed.

(** ** An encoded route *)

(** C4: The calls of an encoded route trade the planned hops, and no hop looks for its tokens
    where they are not.  Unless the route is one vault batch, its calls are those of the
    hops in order ([encodes]): each hop's last call goes to the contract of its pool, in its
    direction, between its own tokens or coin indices and for exactly its input, which is
    the planned one for the first hop and the smaller of the planned one and what its
    predecessor hands on for the others, and insists on the requote less the slippage where
    it states a minimum ([executes]).  Each hop spends the address the previous one paid (the
    first the executor, which holds the loan): a pair paid directly is not funded twice, any
    other is funded from the executor with the hop's own token, the amount given to a hop is
    at most the minimum the previous one insists on, and the last output comes back to the
    executor ([flows]).  A batch is one call of the vault, from and to the executor, with a
    step per hop that names its pool and tokens, the first input and no other amount
    ([batches]). *)
Theorem encode_route_funds_flow (arena : StateArena) (executor : Address) (config : RouteEncodeConfig)
    (hops : list CalldataHop) (flash_source : FlashLoanSource) (calls : list ExecutorCall) :
  0 ≤ rc_slippage_bps config ≤ u64_max →
  encode_route arena executor config hops flash_source = Done (Some calls) →
  executor ≠ 0 ∧
  (flash_source = FBalancer → Forall (λ hop, protocol (ch_edge hop) ≠ BalancerV2) hops) ∧
  (flash_source = FDirect ∧ hops_are_balancer_only hops = true ∧
     batches executor (rc_deadline config) hops calls ∨
   ∃ segs, calls = concat segs.*2 ∧ encodes executor arena config None hops segs ∧ flows executor executor segs).
Proof.
  intros Hslip. unfold encode_route, is_zero. destruct (Z.eqb_spec executor 0); [done|].
  destruct (validate_flash_hop_compatibility hops flash_source) eqn:Ev; cbn [negb]; [|done].
  intros H. split; [done|]. split.
  { intros ->. cbn in Ev. apply negb_true_iff, not_true_iff_false in Ev. apply Forall_forall.
    intros hop Hin Hp. apply Ev, existsb_exists. exists hop. split; [by apply list_elem_of_In|].
    unfold is_balancer_edge. by rewrite bool_decide_eq_true_2. }
  destruct (_ && _ && _)%bool eqn:Eb.
  - left. apply andb_true_iff in Eb as [[?%bool_decide_eq_true ?]%andb_true_iff _]. injection H as H.
    split; [done|]. split; [done|]. by apply encode_batch_batches.
  - right. apply (route_loop_flow executor) in H as (segs & ? & ? & ? & _); [by exists segs|done|by left].
Qed.

(** ** The hops describe the route *)

(** What [build_calldata_hop] has checked of a hop. *)
Definition hop_faithful (arena : StateArena) (metas : gmap Z PoolMeta) (hop_amounts : list Z) (k : nat)
    (edge : Edge) (hop : CalldataHop) : Prop :=
  pool_address arena (pool_index edge) = Some (ch_pool_address hop) ∧
  token_address arena (token_in edge) = Some (ch_token_in hop) ∧
  token_address arena (token_out edge) = Some (ch_token_out hop) ∧
  Forall (λ a, MIN_CONTRACT < a) [ch_pool_address hop; ch_token_in hop; ch_token_out hop] ∧
  pool_index (ch_edge hop) = pool_index edge ∧ protocol (ch_edge hop) = protocol edge ∧
  ch_amount_in hop = nth k hop_amounts 0 ∧ ch_amount_out hop = nth (S k) hop_amounts 0 ∧
  (is_uniswap (protocol edge) = true →
     zero_for_one (ch_edge hop) = (ch_token_in hop <? ch_token_out hop)) ∧
  (is_uniswap (protocol edge) = true ∨ is_curve (protocol edge) = true →
     ∃ m, metas !! pool_index edge = Some m ∧
       (∃ t, t ∈ pm_tokens m ∧ token_address arena t = Some (ch_token_in hop)) ∧
       (∃ t, t ∈ pm_tokens m ∧ token_address arena t = Some (ch_token_out hop))) ∧
  (is_curve (protocol edge) = true →
     ∃ m i j ti tj, metas !! pool_index edge = Some m ∧ i ≠ j ∧
       pm_tokens m !! i = Some ti ∧ token_address arena ti = Some (ch_token_in hop) ∧
       pm_tokens m !! j = Some tj ∧ token_address arena tj = Some (ch_token_out hop) ∧
       token_in_idx (ch_edge hop) = Z.of_nat i mod 256 ∧ token_out_idx (ch_edge hop) = Z.of_nat j mod 256).

Lemma plausible_iff a : is_plausible_contract_address a = true ↔ MIN_CONTRACT < a.
Proof. unfold is_plausible_contract_address, is_zero, MIN_CONTRACT. rewrite andb_true_iff. zbool. lia. Qed.

Lemma meta_position_spec arena m a i :
  meta_position arena m a = Some i → ∃ t, pm_tokens m !! i = Some t ∧ token_address arena t = Some a.
Proof. intros (t & Ht & Ha%bool_decide_eq_true)%position_spec. by exists t. Qed.

Lemma hop_membership_spec arena i edge meta tin tout :
  hop_membership arena i edge meta tin tout = None →
  is_uniswap (protocol edge) = true ∨ is_curve (protocol edge) = true →
  ∃ m, meta = Some m ∧ (∃ t, t ∈ pm_tokens m ∧ token_address arena t = Some tin) ∧
    (∃ t, t ∈ pm_tokens m ∧ token_address arena t = Some tout).
Proof.
  unfold hop_membership. intros H Hp. rewrite (proj2 (orb_true_iff _ _) Hp) in H. cbn [negb] in H.
  destruct meta as [m|]; [|done]. destruct (_ <? _)%nat; [done|]. destruct (_ && _)%bool eqn:E in H; [|done].
  exists m. split; [done|]. apply andb_true_iff in E as [Ei Eo].
  apply existsb_exists in Ei as (t & Ht%list_elem_of_In & Hi%bool_decide_eq_true).
  apply existsb_exists in Eo as (t' & Ht'%list_elem_of_In & Ho%bool_decide_eq_true). eauto 8.
Qed.

Lemma resolve_coin_indices_spec arena i edge meta tin tout edge' :
  resolve_coin_indices arena i edge meta tin tout = inr edge' →
  pool_index edge' = pool_index edge ∧ protocol edge' = protocol edge ∧
  zero_for_one edge' = zero_for_one edge ∧
  (is_curve (protocol edge) = true → is_Some meta →
     ∃ m i j ti tj, meta = Some m ∧ i ≠ j ∧
       pm_tokens m !! i = Some ti ∧ token_address arena ti = Some tin ∧
       pm_tokens m !! j = Some tj ∧ token_address arena tj = Some tout ∧
       token_in_idx edge' = Z.of_nat i mod 256 ∧ token_out_idx edge' = Z.of_nat j mod 256).
Proof.
  unfold resolve_coin_indices. destruct meta as [m|]; [|intros [= <-]; split_and!; try done; by intros _ [? ?]].
  destruct (is_curve _) eqn:E; [|by intros [= <-]; split_and!].
  destruct (meta_position arena m tin) as [a|] eqn:Ea; [|done].
  destruct (meta_position arena m tout) as [b|] eqn:Eb; [|done].
  destruct (Nat.eqb_spec a b); [done|]. intros [= <-]. split_and!; [done..|]. intros _ _.
  apply meta_position_spec in Ea as (ti & ? & ?). apply meta_position_spec in Eb as (tj & ? & ?).
  exists m, a, b, ti, tj. cbn. unfold wrap_u. by split_and!.
Qed.

Lemma build_calldata_hop_faithful arena metas amounts k edge hop :
  build_calldata_hop arena metas amounts k edge = inr hop → hop_faithful arena metas amounts k edge hop.
Proof.
  unfold build_calldata_hop. destruct (pool_address _ _) as [pa|] eqn:Epa; [|done].
  destruct (is_plausible_contract_address pa) eqn:E1; cbn [negb]; [|done].
  destruct (token_address arena (token_in edge)) as [tin|] eqn:Ein; [|done].
  destruct (token_address arena (token_out edge)) as [tout|] eqn:Eout; [|done].
  destruct (is_plausible_contract_address tin) eqn:E2; cbn [negb orb]; [|done].
  destruct (is_plausible_contract_address tout) eqn:E3; cbn [negb]; [|done].
  destruct (is_uniswap (protocol edge) && _)%bool eqn:Ez; [done|].
  destruct (match metas !! _ with Some _ => _ | None => _ end); [done|].
  destruct (hop_membership _ _ _ _ _ _) eqn:Em; [done|].
  destruct (resolve_coin_indices _ _ _ _ _ _) as [|edge'] eqn:Er; [done|].
  lazymatch goal with |- context [if negb ?b then inl (UnknownLabel _) else _] => destruct b end;
    cbn [negb]; [|done]. intros [= <-].
  apply plausible_iff in E1, E2, E3.
  pose proof (hop_membership_spec _ _ _ _ _ _ Em) as Hm.
  apply resolve_coin_indices_spec in Er as (Hpi & Hpr & Hz & Hc).
  unfold hop_faithful. cbn. split_and!; try done; [by repeat constructor|..].
  - intros Hu. rewrite Hz. rewrite Hu in Ez. cbn in Ez. by apply negb_false_iff, eqb_prop in Ez.
  - intros Hcu. apply Hc; [done|]. destruct (Hm (or_intror Hcu)) as (m & -> & _). by eexists.
Qed.

Lemma build_hops_loop_faithful arena metas amounts edges : ∀ k hops,
  build_hops_loop arena metas amounts k edges = inr hops →
  length hops = length edges ∧
  ∀ j edge hop, edges !! j = Some edge → hops !! j = Some hop →
    hop_faithful arena metas amounts (k + j) edge hop.
Proof.
  induction edges as [|edge edges IH]; intros k hops; cbn [build_hops_loop]; [by intros [= <-]|].
  destruct (build_calldata_hop _ _ _ _ _) as [|hop] eqn:Eh; [done|].
  destruct (build_hops_loop _ _ _ _ _) as [|hops'] eqn:El; [done|]. intros [= <-].
  apply IH in El as [Hlen Hall]. split; [cbn; lia|]. intros [|j] e h; cbn.
  - intros [= <-] [= <-]. rewrite Nat.add_0_r. by apply build_calldata_hop_faithful.
  - intros He Hh. rewrite Nat.add_succ_r. by apply Hall.
Qed.

(** C36: The hops that are encoded describe the simulated route.  There is one per edge, with the
    addresses the arena has for its pool and tokens, none of them a precompile; it spends and
    gets the simulated amounts, so what one hop is simulated to pay the next one spends, and
    in the same token; a Uniswap hop swaps in the direction of its sorted tokens, a Uniswap
    or Curve hop trades tokens of the pool's own list, and a Curve hop names two different
    coins by their positions in it (as bytes). *)
Theorem calldata_hops_faithful (arena : StateArena) (edges : list Edge) (hop_amounts : list Z)
    (metas : gmap Z PoolMeta) (hops : list CalldataHop) :
  build_calldata_hops arena edges hop_amounts metas = inr hops →
  edges ≠ [] ∧ length hop_amounts = S (length edges) ∧ length hops = length edges ∧
  (∀ k edge hop, edges !! k = Some edge → hops !! k = Some hop →
     hop_faithful arena metas hop_amounts k edge hop) ∧
  (∀ k h0 h1, hops !! k = Some h0 → hops !! S k = Some h1 →
     ch_token_out h0 = ch_token_in h1 ∧ ch_amount_out h0 = ch_amount_in h1).
Proof.
  unfold build_calldata_hops. destruct edges as [|e0 es] eqn:Ee; [done|]. rewrite <- Ee.
  assert (Routes.is_empty edges = false) as -> by (by rewrite Ee).
  destruct (Nat.eqb_spec (length hop_amounts) (length edges + 1)); cbn [negb]; [|done].
  case_bool_decide as Hb; cbn [negb]; [|done]. intros H. apply build_hops_loop_faithful in H as [Hlen Hall].
  split_and!; [by rewrite Ee|lia|done|done|]. intros k h0 h1 H0 H1.
  assert (is_Some (edges !! k)) as [a Ha] by (apply lookup_lt_is_Some; rewrite <- Hlen; by eapply lookup_lt_Some).
  assert (is_Some (edges !! S k)) as [b Hb'] by (apply lookup_lt_is_Some; rewrite <- Hlen; by eapply lookup_lt_Some).
  pose proof (first_break_none _ _ Hb _ _ _ Ha Hb') as Hc.
  destruct (Hall k a h0 Ha H0) as (_ & _ & Ho & _ & _ & _ & _ & Hao & _).
  destruct (Hall (S k) b h1 Hb' H1) as (_ & Hi & _ & _ & _ & _ & Hai & _).
  unfold hops_connect in Hc. rewrite Ho, Hi in Hc. apply Z.eqb_eq in Hc.
  split; [done|]. by rewrite Hao, Hai.
Qed.

(** ** Price limits *)

(** A tight price limit lets the simulated swap through and is one the pool accepts.  When
    the simulation covers the swap, the limit lies beyond the price the swap ends at, on the
    far side of the current price, within the protocol's bounds (the lower one exclusive
    when the price falls), and fits the 160 bits it is encoded in. *)
Theorem tight_limit_admits_swap (state : V3PoolState) (amount_in quoted_out : Z) (zfo : bool)
    (slippage_bps pips limit : Z) (allow_zero : bool) (sim : V3SwapResult) :
  0 ≤ slippage_bps ≤ 20000 → quoted_out ≠ 0 →
  simulate_v3_swap (with_fee pips state) amount_in zfo None allow_zero = Done sim →
  vr_shallow sim = false →
  derive_tight_v3_price_limit state amount_in quoted_out zfo 0 slippage_bps (Some pips) allow_zero
    = Done (Some limit) →
  MIN_SQRT_RATIO ≤ limit ≤ MAX_SQRT_RATIO_EXCLUSIVE ∧ sqrt_limit_u160 limit = Some limit ∧
  (if zfo then MIN_SQRT_RATIO < limit ∧ limit ≤ vr_sqrt_price_x96_after sim < cl_sqrt_price_x96 state
   else cl_sqrt_price_x96 state < vr_sqrt_price_x96_after sim ≤ limit).
Proof.
  intros Hs Hq Hsim Hsh. unfold derive_tight_v3_price_limit. rewrite Hsim. cbn [obind]. rewrite Hsh.
  destruct (vr_synthetic sim); [done|]. set (after := vr_sqrt_price_x96_after sim).
  destruct ((after <? MIN_SQRT_RATIO) || _)%bool eqn:Er; [done|]. zbool.
  assert (is_zero quoted_out = false) as -> by (by apply Z.eqb_neq). rewrite andb_true_r.
  assert (MIN_SQRT_RATIO = 4295128739) as Emin by reflexivity.
  assert (MAX_SQRT_RATIO_EXCLUSIVE = MAX_SQRT_RATIO - 1) as Emax by (vm_compute; reflexivity).
  assert (MAX_SQRT_RATIO < 2 ^ 160) as Hmax by (vm_compute; reflexivity).
  assert (MAX_SQRT_RATIO > 4295128740) as Hmm by (vm_compute; reflexivity).
  destruct (negb _) eqn:Emv; [done|]. apply negb_false_iff in Emv. intros [= <-].
  unfold bumped_limit, sqrt_limit_u160. rewrite wadd_small by (unfold M256; lia).
  destruct zfo; zbool.
  - rewrite wsub_small by (unfold M256; lia).
    rewrite wmul_small by (unfold M256; nia).
    pose proof (mul_ratio_le after (20000 - slippage_bps) 20000 ltac:(lia) ltac:(lia) ltac:(lia)).
    set (l := Z.max _ _) in *. assert (l ≤ after ∧ MIN_SQRT_RATIO < l) by lia.
    destruct (Z.ltb_spec l (2 ^ 160)); [|lia]. split_and!; first [done|lia].
  - rewrite wadd_small by (unfold M256; lia).
    rewrite wmul_small by (unfold M256; nia).
    assert (after ≤ after * (20000 + slippage_bps) / 20000) by (apply Z.div_le_lower_bound; nia).
    destruct (Z.ltb_spec MAX_SQRT_RATIO_EXCLUSIVE (after * (20000 + slippage_bps) / 20000)).
    + destruct (Z.ltb_spec MAX_SQRT_RATIO_EXCLUSIVE (2 ^ 160)); [|lia]. split_and!; first [done|lia].
    + destruct (Z.ltb_spec (after * (20000 + slippage_bps) / 20000) (2 ^ 160)); [|lia]. split_and!; first [done|lia].
Qed.

(** ** The V4 unlock payload *)

(** The 32-byte words of a payload. *)
Fixpoint read_words (n : nat) (bytes : list Z) : option (list Z) :=
  match n with
  | O => match bytes with [] => Some [] | _ => None end
  | S n => let? word := read_word bytes in let? words := read_words n word.2 in Some (word.1 :: words)
  end.

(** The hand-written unlock data is the ABI encoding of the pool key and the swap parameters:
    eight words - the sorted currencies, fee, tick spacing, hooks, direction, the negated
    input as a two's complement (exact input in V4) and the price limit. *)
Theorem v4_unlock_layout (tin tout : Address) (fee tick_spacing hooks amount_in sqrt_limit : Z)
    (key : V4PoolKey) (zero_for_one : bool) :
  is_address tin → is_address tout → is_address hooks → 0 ≤ fee → 0 ≤ tick_spacing →
  0 < amount_in < 2 ^ 255 → u256 sqrt_limit →
  build_v4_pool_key tin tout fee tick_spacing hooks = Done (Some (key, zero_for_one)) →
  read_words 8 (unlock_inner key zero_for_one (- amount_in) sqrt_limit) =
    Some [Z.min tin tout; Z.max tin tout; fee; tick_spacing; hooks;
          if zero_for_one then 1 else 0; 2 ^ 256 - amount_in; sqrt_limit] ∧
  (tin ≠ tout → zero_for_one = (tin <? tout)).
Proof.
  intros Htin Htout Hh Hfee Hts Ha Hl. unfold build_v4_pool_key.
  destruct (negb _) eqn:Er; [done|]. destruct (Z.leb_spec (2 ^ 24) fee); [done|]. intros [= <- <-].
  apply negb_false_iff in Er. zbool.
  assert ((if tin <? tout then (tin, tout) else (tout, tin)) = (Z.min tin tout, Z.max tin tout)) as ->
    by (destruct (Z.ltb_spec tin tout); f_equal; lia).
  split; [|intros Hne; cbn; destruct (Z.eqb_spec tin (Z.min tin tout)), (Z.ltb_spec tin tout); lia].
  assert (∀ k n v rest, (k + n = 32)%nat → 0 ≤ v < 256 ^ Z.of_nat n →
    read_word (replicate k 0 ++ be_bytes n v ++ rest) = Some (v, rest)) as Hpad.
  { intros k n v rest Hk Hv. unfold read_word. rewrite !length_app, length_replicate, be_bytes_length.
    destruct (Nat.ltb_spec (k + (n + length rest)) 32); [lia|]. rewrite app_assoc.
    assert (32%nat = length (replicate k 0 ++ be_bytes n v)) as E
      by (by rewrite length_app, length_replicate, be_bytes_length).
    rewrite take_app_length', drop_app_length' by exact E.
    by rewrite of_be_app, of_be_zeros, of_be_be_bytes. }
  unfold unlock_inner. cbn [pk_currency0 pk_currency1 pk_fee pk_tick_spacing pk_hooks fst snd].
  assert ((- amount_in) mod M256 = 2 ^ 256 - amount_in) as ->.
  { change M256 with (2 ^ 256). rewrite <- (Z.mod_unique (- amount_in) (2 ^ 256) (-1) (2 ^ 256 - amount_in)); lia. }
  cbn [read_words]. unfold is_address in *.
  rewrite read_word_address by (unfold is_address; lia). cbn [fst snd].
  rewrite read_word_address by (unfold is_address; lia). cbn [fst snd].
  rewrite Hpad by (cbn; lia). cbn [fst snd].
  rewrite Hpad by (cbn; rewrite ?Z.mod_small by lia; lia). cbn [fst snd].
  rewrite read_word_address by (unfold is_address; lia). cbn [fst snd].
  assert ([if tin =? Z.min tin tout then 1 else 0] = be_bytes 1 (if tin =? Z.min tin tout then 1 else 0)) as ->
    by (by destruct (tin =? Z.min tin tout)).
  rewrite Hpad by (by destruct (tin =? Z.min tin tout)). cbn [fst snd].
  rewrite read_word_be by (unfold u256, M256; lia). cbn [fst snd].
  rewrite <- (app_nil_r (be_bytes 32 sqrt_limit)), read_word_be by done. cbn [fst snd].
  by rewrite Z.mod_small by lia.
Qed.

(** ** Witnesses: two V2 pairs of the same tokens *)

Definition demo_arena3 : StateArena :=
  (register_pool demo_hash
     (register_pool demo_hash
        (register_token demo_hash (register_token demo_hash (arena_default demo_hash) 100000).1 100001).1
        200000 (demo_v2 (10 ^ 10) (10 ^ 10)) false).1
     200001 (demo_v2 (10 ^ 10) (102 * 10 ^ 8)) false).1.

Definition demo_edges3 : list Edge :=
  [Routes.demo_edge UniswapV2 1 0 1; set_zfo (set_legs (Routes.demo_edge UniswapV2 0 0 1) 1 0) false].

Definition demo_pair_meta (pool : Z) : PoolMeta :=
  {| pm_pool_index := pool; pm_protocol := UniswapV2; pm_tokens := [0; 1]; pm_fee_bps := 30;
     pm_bpt_index := None; pm_pool_id := None; pm_protocol_label := None; pm_pool_type := None;
     pm_hooks := None; pm_tick_spacing := None |}.

Definition demo_metas3 : gmap Z PoolMeta := {[0 := demo_pair_meta 0; 1 := demo_pair_meta 1]}.

Definition demo_hops3 : list CalldataHop :=
  match build_calldata_hops demo_arena3 demo_edges3 [10 ^ 6; 1016000; 1010000] demo_metas3 with
  | inr hops => hops
  | inl _ => []
  end.

Lemma calldata_hops_faithful_witness :
  length demo_hops3 = 2%nat ∧
  ∀ k h0 h1, demo_hops3 !! k = Some h0 → demo_hops3 !! S k = Some h1 → ch_amount_out h0 = ch_amount_in h1.
Proof.
  destruct (calldata_hops_faithful demo_arena3 demo_edges3 [10 ^ 6; 1016000; 1010000] demo_metas3 demo_hops3)
    as (_ & _ & H & _ & Hc).
  - vm_compute. reflexivity.
  - split; [exact H|]. intros k h0 h1 H0 H1. destruct (Hc k h0 h1 H0 H1) as [_ Hx]. exact Hx.
Defined.

Definition demo_calls3 : list ExecutorCall :=
  match encode_route demo_arena3 300000 {| rc_slippage_bps := 50; rc_deadline := 0 |} demo_hops3 FAaveV3 with
  | Done (Some calls) => calls
  | _ => []
  end.

Lemma encode_route_funds_flow_witness :
  length demo_calls3 = 3%nat ∧
  ∃ segs, demo_calls3 = concat segs.*2 ∧ flows 300000 300000 segs ∧
    encodes 300000 demo_arena3 {| rc_slippage_bps := 50; rc_deadline := 0 |} None demo_hops3 segs.
Proof.
  split; [vm_compute; reflexivity|].
  destruct (encode_route_funds_flow demo_arena3 300000 {| rc_slippage_bps := 50; rc_deadline := 0 |}
    demo_hops3 FAaveV3 demo_calls3) as (_ & _ & [(H & _)|(segs & H1 & H3 & H2)]).
  - split; eval_range.
  - vm_compute. reflexivity.
  - discriminate H.
  - exists segs. split; [exact H1|]. split; [exact H2|exact H3].
Defined.

Lemma v4_unlock_layout_witness :
  read_words 8 (unlock_inner
    {| pk_currency0 := 100000; pk_currency1 := 100001; pk_fee := 3000; pk_tick_spacing := 60; pk_hooks := 0 |}
    true (- 1000) 5) = Some [100000; 100001; 3000; 60; 0; 1; 2 ^ 256 - 1000; 5].
Proof.
  destruct (v4_unlock_layout 100000 100001 3000 60 0 1000 5
    {| pk_currency0 := 100000; pk_currency1 := 100001; pk_fee := 3000; pk_tick_spacing := 60; pk_hooks := 0 |}
    true) as [H _]; [unfold is_address; split; eval_range..|eval_range|eval_range|split; eval_range|eval_range
    |reflexivity|exact H].
Defined.

Lemma tight_limit_admits_swap_witness :
  match simulate_v3_swap (with_fee 3000 demo_pool) (10 ^ 12) true None false,
        derive_tight_v3_price_limit demo_pool (10 ^ 12) 1 true 0 50 (Some 3000) false with
  | Done sim, Done (Some limit) => limit ≤ vr_sqrt_price_x96_after sim < cl_sqrt_price_x96 demo_pool
  | _, _ => False
  end.
Proof.
  destruct (simulate_v3_swap (with_fee 3000 demo_pool) (10 ^ 12) true None false) as [sim|] eqn:Es;
    [|vm_compute in Es; discriminate Es].
  destruct (derive_tight_v3_price_limit demo_pool (10 ^ 12) 1 true 0 50 (Some 3000) false) as [[limit|]|] eqn:El;
    [|vm_compute in El; discriminate El..].
  assert (vr_shallow sim = false) as Hsh.
  { pose proof Es as E. vm_compute in E. injection E as <-. reflexivity. }
  destruct (tight_limit_admits_swap demo_pool (10 ^ 12) 1 true 50 3000 limit false sim) as (_ & _ & _ & H).
  - split; eval_range.
  - eval_range.
  - exact Es.
  - exact Hsh.
  - exact El.
  - exact H.
Defined.
