(* ===== verification/Candidate.v ===== *)
(** * The executable candidate

    [build_execution_candidate] of [src/src/services/execution/candidate.rs] and
    [build_arb_calldata] of [calldata/mod.rs]: an assessed route with its plan becomes the
    transaction the executor is sent.  The ABI encoders, [keccak256] and the text of the hop
    trace are parameters; the clock is the seconds since the epoch, [None] when it stands
    before it.  Error messages are dropped: [None] is an [anyhow] error. *)
From stdpp Require Import gmap.
From Stdlib Require Import String SpecFloat.
From S2P Require Import Prelude Word Types Gas Profit Arena Realign Routes LocalSim.
From S2P Require Import Submit FlashLiquidity Assess Prepare Abi Calldata.

Record BuiltArbTx := {
  bt_to : Address;
  bt_data : list Z;
  bt_value : Z;
  bt_route_hash : Z;
  bt_calls : list ExecutorCall;
}.

Record CandidateBuildConfig := {
  cb_executor_address : Address;
  cb_slippage_bps : Z;
  cb_flash_loan_source : FlashLoanSource;
  cb_deadline_secs_from_now : Z;
  cb_min_profit_matic_wei : Z;
  cb_min_profit_roi_bps : Z;
  cb_token_decimals : Z;
  cb_token_to_matic_rate : Z;
  cb_safety_multiplier_bps : Z;
  cb_state_generation : Z;
  cb_state_block : Z;
  cb_state_hash : option Z;
  cb_route_fingerprint : Z;
  cb_flash_liquidity : TokenFlashLiquidity;
  cb_has_dodo_pool : bool;
  cb_trust_prepared_flash : bool;
  cb_adaptive_flash_cap_bound : bool;
  cb_adaptive_flash_loan_usd_limit : Z;
}.

Section build.
Context (abi_encode : AbiCall → list Z) (keccak256 : list Z → Z).
(** [executeArb*Call { packedRoute }.abi_encode()] *)
Context (encode_entry : ExecutorEntrypoint → list Z → list Z).
Context (trace_of : list CalldataHop → string).

Definition build_arb_calldata (executor flash_token profit_token : Address)
    (flash_amount min_profit deadline : Z) (calls : list ExecutorCall)
    (entrypoint : ExecutorEntrypoint) : option BuiltArbTx :=
  let? packed := build_packed_route_payload abi_encode keccak256 flash_token flash_amount
                   profit_token min_profit deadline calls in
  Some {| bt_to := executor; bt_data := encode_entry entrypoint packed.1; bt_value := 0;
          bt_route_hash := packed.2; bt_calls := calls |}.

(** The deadline: [now] is [None] before the epoch; the sum is a [u64]. *)
Definition candidate_deadline (now : option Z) (deadline_secs_from_now : Z) : Z :=
  match now with
  | Some secs => wrap_u 64 (secs + deadline_secs_from_now)
  | None => deadline_secs_from_now
  end.

Definition is_dodo_flash (entrypoint : ExecutorEntrypoint) : bool :=
  match entrypoint with DodoFlash => true | _ => false end.

(** [h.first().is_none_or(|h| h.token_in != start_token)] *)
Definition hop0_mismatch (hops : list CalldataHop) (start_token : Address) : bool :=
  match hops with [] => true | h :: _ => negb (ch_token_in h =? start_token) end.

(** The token that goes into the flash field of the packed route. *)
Definition packed_flash_token (arena : StateArena) (cycle : FoundCycle) (entrypoint : ExecutorEntrypoint)
    (start_token : Address) : option Address :=
  if is_dodo_flash entrypoint then dodo_base_flash_pool_for_cycle arena cycle else Some start_token.

Definition candidate_of (evaluated : EvaluatedRoute) (config : CandidateBuildConfig)
    (assessment : ProfitAssessment) (start_token : Address) (source : FlashLoanSource)
    (hops : list CalldataHop) (built : BuiltArbTx) : CandidateExecution :=
  let cycle := ev_cycle evaluated in
  let result := ev_result evaluated in
  {| cd_route_fingerprint := cb_route_fingerprint config;
     cd_route_edges := fc_edges cycle;
     cd_calldata := bt_data built;
     cd_target_address := bt_to built;
     cd_value := bt_value built;
     cd_profit_token := start_token;
     cd_expected_profit_matic_wei := net_profit_after_gas_matic_wei assessment;
     cd_priority_bid_basis_matic_wei := priority_bid_basis_matic_wei assessment;
     cd_gas_limit := buffer_gas_limit (rs_total_gas result);
     cd_simulated_gas := rs_total_gas result;
     cd_route_hash := bt_route_hash built;
     cd_gross_profit := rs_profit result;
     cd_amount_in := rs_amount_in result;
     cd_token_decimals := cb_token_decimals config;
     cd_token_to_matic_rate := cb_token_to_matic_rate config;
     cd_slippage_bps := cb_slippage_bps config;
     cd_flash_loan_source := source;
     cd_min_profit_matic_wei := cb_min_profit_matic_wei config;
     cd_min_profit_roi_bps := cb_min_profit_roi_bps config;
     cd_hop_count := edge_hops cycle;
     cd_safety_multiplier_bps := cb_safety_multiplier_bps config;
     cd_state_generation := cb_state_generation config;
     cd_state_block := cb_state_block config;
     cd_state_hash := cb_state_hash config;
     cd_route_trace := trace_of hops;
     cd_adaptive_flash_cap_bound := cb_adaptive_flash_cap_bound config;
     cd_adaptive_flash_loan_usd_limit := cb_adaptive_flash_loan_usd_limit config |}.

Definition build_execution_candidate (arena : StateArena) (evaluated : EvaluatedRoute)
    (config : CandidateBuildConfig) (metas : gmap Z PoolMeta) (now : option Z)
  : outcome (option CandidateExecution) :=
  let cycle := ev_cycle evaluated in
  let result := ev_result evaluated in
  let_some assessment := ev_assessment evaluated or Done None in
  let_some start_token := token_address arena (fc_start_token cycle) or Done None in
  match build_calldata_hops arena (fc_edges cycle) (rs_hop_amounts result) metas with
  | inl _ => Done None
  | inr hops =>
      let deadline := candidate_deadline now (cb_deadline_secs_from_now config) in
      let liquidity :=
        if cb_trust_prepared_flash config then None else Some (cb_flash_liquidity config) in
      match resolve_dispatch (cb_flash_loan_source config) hops liquidity (cb_has_dodo_pool config) with
      | inl _ => Done None
      | inr (source, entrypoint) =>
          if (negb (is_dodo_flash entrypoint) && hop0_mismatch hops start_token)%bool then Done None
          else if is_zero (rs_amount_in result) then Done None
          else
            let encode_cfg := {| rc_slippage_bps := cb_slippage_bps config; rc_deadline := deadline |} in
            let! calls := encode_route arena (cb_executor_address config) encode_cfg hops source in
            let_some executor_calls := calls or Done None in
            let_some min_profit := on_chain_min_profit_from_assessment assessment or Done None in
            let_some flash_token := packed_flash_token arena cycle entrypoint start_token or Done None in
            let_some built := build_arb_calldata (cb_executor_address config) flash_token start_token
                                (rs_amount_in result) min_profit deadline executor_calls entrypoint
              or Done None in
            Done (Some (candidate_of evaluated config assessment start_token source hops built))
      end
  end.
End build.

(** ** What the executor is told to call *)

(** The contracts a route may call: its pools and input tokens, the router a hop names, the
    executor itself and the three fixed venues. *)
Definition fixed_contracts (executor : Address) : list Address :=
  [executor; BALANCER_VAULT; UNISWAP_V4_POOL_MANAGER; WOOFI_ROUTER_V2].

Definition hop_contract (executor : Address) (hop : CalldataHop) (t : Address) : Prop :=
  t ∈ fixed_contracts executor ∨ t = ch_pool_address hop ∨ t = ch_token_in hop ∨ ch_router hop = Some t.

Definition plain_call (executor : Address) (hop : CalldataHop) (call : ExecutorCall) : Prop :=
  ec_value call = 0 ∧ hop_contract executor hop (ec_target call).

Ltac contract := unfold hop_contract, fixed_contracts; cbn; rewrite ?elem_of_cons; intuition.
Ltac plain := repeat (apply Forall_cons; split); try apply Forall_nil; try done;
  split; try done; contract.

Lemma token_transfer_plain executor hop amount all :
  plain_call executor hop (encode_token_transfer executor (ch_token_in hop) (ch_pool_address hop) amount all).
Proof. destruct all; (split; [done|contract]). Qed.

Lemma encode_v2_hop_plain arena hop to executor slip prefund calls out :
  encode_v2_hop arena hop to executor slip prefund = Done (Some (calls, out)) →
  Forall (plain_call executor hop) calls.
Proof.
  unfold encode_v2_hop. destruct (negb _); [done|]. destruct (tighter_min _ _ _) as [[o|]|]; [|done..].
  destruct (is_zero o); [done|]. intros [= <- <-].
  apply Forall_app. split; [|plain]. destruct prefund; plain.
Qed.

Lemma encode_hop_plain arena config hop recipient executor first last q calls :
  encode_hop_for_protocol hop recipient executor arena config first last q = Done (Some calls) →
  Forall (plain_call executor hop) calls.
Proof.
  unfold encode_hop_for_protocol. destruct (protocol (ch_edge hop)).
  - destruct (encode_v2_hop _ _ _ _ _ _) as [[[cs o]|]|] eqn:E; [|done..]. intros [= <-].
    by eapply encode_v2_hop_plain.
  - unfold encode_v3_hop. destruct (resolve_cl_swap_limit _ _ _ _ _ _) as [[l|]|]; [|done..].
    destruct (_ =? 0); [done|]. destruct (i256_try_from _); [|done]. destruct (sqrt_limit_u160 _); [|done].
    intros [= <-]. plain.
  - unfold encode_v4_hop. destruct (v4_static_fields arena hop) as [[? ?] ?].
    destruct (negb _); [done|]. destruct (negb _); [done|].
    destruct (resolve_cl_swap_limit _ _ _ _ _ _) as [[l|]|]; [|done..].
    destruct (build_v4_pool_key _ _ _ _ _) as [[key|]|]; [|done..]. destruct (i256_try_from _); [|done].
    intros [= <-]. plain.
  - unfold encode_balancer_hop. destruct (resolve_balancer_pool_id _); [|done].
    destruct (tighter_min _ _ _) as [[m|]|]; [|done..]. intros [= <-]. plain.
  - unfold encode_curve_hop. destruct (_ =? _); [done|]. destruct (tighter_min _ _ _) as [[m|]|]; [|done..].
    intros [= <-]. plain.
  - unfold encode_curve_hop. destruct (_ =? _); [done|]. destruct (tighter_min _ _ _) as [[m|]|]; [|done..].
    intros [= <-]. plain.
  - intros [= H]. revert H. unfold encode_dodo_hop. destruct (dodo_sell_base arena hop) as [b|]; [|done].
    intros [= <-]. apply Forall_cons. split; [apply token_transfer_plain|plain].
  - unfold encode_woofi_hop, resolve_woofi_router. destruct (tighter_min _ _ _) as [[m|]|]; [|done..].
    intros [= <-]. destruct (ch_router hop) as [r|] eqn:E; cbn; plain.
Qed.

Lemma encode_hop_step_plain arena executor config i chain_in funds_at hop next calls chain_out at_ :
  encode_hop_step arena executor config i chain_in funds_at hop next = Done (Some (calls, chain_out, at_)) →
  Forall (plain_call executor hop) calls.
Proof.
  assert (∀ used cs, ch_pool_address used = ch_pool_address hop → ch_token_in used = ch_token_in hop →
    ch_router used = ch_router hop → Forall (plain_call executor used) cs → Forall (plain_call executor hop) cs) as Hsame.
  { intros used cs Hp Ht Hr Hall. eapply Forall_impl; [exact Hall|]. intros c [Hv Hc]. split; [done|].
    revert Hc. unfold hop_contract. by rewrite Hp, Ht, Hr. }
  assert (Forall (plain_call executor (chained_hop chain_in hop)) calls → Forall (plain_call executor hop) calls) as Hback.
  { by apply Hsame; destruct chain_in. }
  unfold encode_hop_step. set (used := chained_hop chain_in hop) in *.
  destruct (is_v2_hop used).
  - destruct (encode_v2_hop _ _ _ _ _ _) as [[[cs out]|]|] eqn:E; [|done..]. intros [= <- <- <-].
    apply Hback. by eapply encode_v2_hop_plain.
  - destruct (quote_hop_for_execution arena used) as [[q|]|]; [|done..].
    destruct (slippage_adjusted q _) as [lo|]; [|done].
    destruct (encode_hop_for_protocol _ _ _ _ _ _ _ _) as [[cs|]|] eqn:E; [|done..].
    apply encode_hop_plain, Hsame in E; [|by destruct chain_in..].
    case_bool_decide; [by intros [= <- <- <-]|].
    destruct (slippage_adjusted q _); [|done]. by intros [= <- <- <-].
Qed.

(** A call of a route: no value, to a contract of one of its hops. *)
Definition route_call (executor : Address) (hops : list CalldataHop) (call : ExecutorCall) : Prop :=
  ∃ hop, hop ∈ hops ∧ plain_call executor hop call.

Lemma route_loop_plain arena executor config hops : ∀ i chain_in funds_at calls,
  route_loop arena executor config i chain_in funds_at hops = Done (Some calls) →
  Forall (route_call executor hops) calls.
Proof.
  induction hops as [|hop hops IH]; intros i chain_in funds_at calls; cbn [route_loop]; [intros [= <-]; constructor|].
  destruct (encode_hop_step _ _ _ _ _ _ _ _) as [[[[cs chain'] at_]|]|] eqn:Es; [|done..].
  destruct (route_loop _ _ _ _ _ _ _) as [[rest|]|] eqn:Er; [|done..]. intros [= <-].
  apply encode_hop_step_plain in Es. apply IH in Er. apply Forall_app. split.
  - eapply Forall_impl; [exact Es|]. intros c Hc. exists hop. split; [by left|done].
  - eapply Forall_impl; [exact Er|]. intros c (h & Hin & Hc). exists h. split; [by right|done].
Qed.

Lemma encode_route_plain arena executor config hops source calls :
  encode_route arena executor config hops source = Done (Some calls) →
  Forall (route_call executor hops) calls.
Proof.
  unfold encode_route. destruct (is_zero executor); [done|]. destruct (negb _); [done|].
  destruct (_ && _ && _)%bool; [|apply route_loop_plain]. intros [= H]. revert H.
  unfold encode_balancer_batch_route, build_balancer_batch_swap_request.
  destruct hops as [|hop hops]; [done|]. cbn [Routes.is_empty].
  destruct (batch_swaps _ _ _) as [swaps|]; [|done]. intros [= <-]. constructor; [|constructor].
  exists hop. split; [by left|plain].
Qed.

(** ** The candidate *)

(** The addresses the arena and the executor stand under are addresses. *)
Definition addresses_ok (arena : StateArena) (executor : Address) : Prop :=
  is_address executor ∧ (∀ t a, token_address arena t = Some a → is_address a) ∧
  (∀ p a, pool_address arena p = Some a → is_address a).

Lemma build_hops_loop_lookup arena metas amounts edges : ∀ i hops hop,
  build_hops_loop arena metas amounts i edges = inr hops → hop ∈ hops →
  ∃ k edge, build_calldata_hop arena metas amounts k edge = inr hop.
Proof.
  induction edges as [|e edges IH]; intros i hops hop; cbn; [intros [= <-] []%not_elem_of_nil|].
  destruct (build_calldata_hop _ _ _ _ _) as [|h] eqn:Eh; [done|].
  destruct (build_hops_loop _ _ _ _ _) as [|hops'] eqn:El; [done|]. intros [= <-].
  intros [->|Hin]%elem_of_cons; [by eexists _, _|by eapply IH].
Qed.

Lemma built_hop_addresses arena metas amounts edges hops executor :
  addresses_ok arena executor → build_calldata_hops arena edges amounts metas = inr hops →
  Forall (λ hop, is_address (ch_pool_address hop) ∧ is_address (ch_token_in hop) ∧ ch_router hop = None) hops.
Proof.
  intros (_ & Ht & Hp) H. apply Forall_forall. intros hop Hin.
  unfold build_calldata_hops in H. destruct (Routes.is_empty edges); [done|]. destruct (negb _); [done|].
  destruct (negb _); [done|]. destruct (build_hops_loop_lookup _ _ _ _ _ _ _ H Hin) as (k & e & Hb).
  pose proof Hb as (Hpa & Hti & _)%build_calldata_hop_faithful. split_and!; [by eapply Hp|by eapply Ht|].
  revert Hb. unfold build_calldata_hop.
  repeat (match goal with |- context [match ?x with _ => _ end] => destruct x end; try done); by intros [= <-].
Qed.

Lemma route_calls_fit abi_encode arena metas amounts edges hops executor calls :
  addresses_ok arena executor → build_calldata_hops arena edges amounts metas = inr hops →
  (∀ call, u256 (Z.of_nat (length (abi_encode call)))) →
  Forall (route_call executor hops) calls → Forall (call_fits abi_encode) calls.
Proof.
  intros Hok Hb He Hall. pose proof (built_hop_addresses _ _ _ _ _ _ Hok Hb) as Ha.
  rewrite Forall_forall in Ha. eapply Forall_impl; [exact Hall|]. intros c (hop & Hin & Hv & Hc).
  destruct (Ha hop Hin) as (Hp & Ht & Hr). unfold call_fits. rewrite Hv. split_and!; [|eval_range|done].
  destruct Hc as [Hf|[->|[->|Hc]]]; [|done..|congruence]. unfold fixed_contracts in Hf.
  rewrite !elem_of_cons in Hf. destruct Hok as (Hx & _ & _).
  destruct Hf as [->|[->|[->|[->|[]%not_elem_of_nil]]]]; [done|unfold is_address; split; eval_range..].
Qed.

Definition entry_of (source : FlashLoanSource) : ExecutorEntrypoint :=
  match source with
  | FBalancer => BalancerFlash | FAaveV3 => AaveFlash | FDodo => DodoFlash | FDirect => EntryDirect
  end.

Lemma resolve_dispatch_entry source hops liquidity has_dodo s e :
  resolve_dispatch source hops liquidity has_dodo = inr (s, e) →
  e = entry_of s ∧ (s = FDirect → balancer_batch_direct_eligible hops = true).
Proof.
  unfold resolve_dispatch, structural_flash_source, resolve_executor_entrypoint, align_flash_source_for_dispatch.
  destruct (balancer_batch_direct_eligible hops) eqn:El, source, liquidity as [l|];
    repeat case_bool_decide; cbn; try done;
    repeat match goal with |- context [if ?b then _ else _] => destruct b; cbn end;
    rewrite ?El; intros [= <- <-]; (split; [done|]); (intros Hl; first [discriminate Hl|auto]).
Qed.

Section candidate.
Context (abi_encode : AbiCall → list Z) (keccak256 : list Z → Z).
Context (encode_entry : ExecutorEntrypoint → list Z → list Z) (trace_of : list CalldataHop → string).

Lemma on_chain_min_profit_range net m :
  u256 net → on_chain_min_profit net = Some m → u256 m ∧ m ≤ net ∧ net * 9500 / 10000 ≤ m.
Proof.
  intros Hn H. destruct (Z.eq_dec net 0) as [->|]; [injection H as <-; vm_compute; intuition congruence|].
  unfold u256 in *. destruct (on_chain_min_profit_bounds net m ltac:(lia) H). lia.
Qed.

Lemma candidate_deadline_u256 now secs : 0 ≤ secs ≤ u64_max → u256 (candidate_deadline now secs).
Proof.
  intros Hs. destruct now as [n|]; cbn; [|unfold u256, u64_max, M64, M256 in *; lia].
  unfold wrap_u. pose proof (Z.mod_pos_bound (n + secs) (2 ^ 64) ltac:(lia)). unfold u256, M256. lia.
Qed.

(** C3: A candidate is the trade that was assessed.  Whatever is built from an evaluated route
    goes to the configured executor without value, through the entry point of the loan it
    names (never DODO's); the packed route reads back as a loan of the simulated input in the
    start token, repaid and paid out in that token, with a minimum profit between 95% and all
    of the assessed net profit, under the hash the candidate is known by; its calls are those
    encoded for the route's hops, the first of which spends the start token, and each calls
    without value a pool, an input token or a fixed venue of the route. *)
Theorem candidate_carries_assessed_trade (arena : StateArena) (evaluated : EvaluatedRoute)
    (config : CandidateBuildConfig) (metas : gmap Z PoolMeta) (now : option Z) (c : CandidateExecution) :
  addresses_ok arena (cb_executor_address config) →
  u256 (rs_amount_in (ev_result evaluated)) →
  (∀ a, ev_assessment evaluated = Some a → u256 (net_profit a)) →
  0 ≤ cb_deadline_secs_from_now config ≤ u64_max →
  (∀ bytes, u256 (keccak256 bytes)) → (∀ call, u256 (Z.of_nat (length (abi_encode call)))) →
  build_execution_candidate abi_encode keccak256 encode_entry trace_of arena evaluated config metas now
    = Done (Some c) →
  ∃ assessment hop hops calls packed min_profit,
    ev_assessment evaluated = Some assessment ∧
    token_address arena (fc_start_token (ev_cycle evaluated)) = Some (cd_profit_token c) ∧
    build_calldata_hops arena (fc_edges (ev_cycle evaluated)) (rs_hop_amounts (ev_result evaluated)) metas
      = inr (hop :: hops) ∧ ch_token_in hop = cd_profit_token c ∧
    Forall (route_call (cb_executor_address config) (hop :: hops)) calls ∧
    min_profit ≤ net_profit assessment ∧ net_profit assessment * 9500 / 10000 ≤ min_profit ∧
    cd_target_address c = cb_executor_address config ∧ cd_value c = 0 ∧
    cd_calldata c = encode_entry (entry_of (cd_flash_loan_source c)) packed ∧
    cd_flash_loan_source c ≠ FDodo ∧
    cd_amount_in c = rs_amount_in (ev_result evaluated) ∧ cd_amount_in c ≠ 0 ∧
    cd_route_edges c = fc_edges (ev_cycle evaluated) ∧
    cd_expected_profit_matic_wei c = net_profit_after_gas_matic_wei assessment ∧
    let deadline := candidate_deadline now (cb_deadline_secs_from_now config) in
    encode_route arena (cb_executor_address config)
      {| rc_slippage_bps := cb_slippage_bps config; rc_deadline := deadline |} (hop :: hops)
      (cd_flash_loan_source c) = Done (Some calls) ∧
    read_payload packed = Some
      {| py_flash_token := cd_profit_token c; py_flash_amount := cd_amount_in c;
         py_profit_token := cd_profit_token c; py_min_profit := min_profit; py_deadline := deadline;
         py_route_hash := cd_route_hash c; py_calls := raw_call abi_encode <$> calls |}.
Proof.
  intros Haddr Ham Hnet Hsecs Hk He. unfold build_execution_candidate.
  destruct (ev_assessment evaluated) as [a|]; [|done]. specialize (Hnet a eq_refl).
  destruct (token_address arena _) as [start|] eqn:Estart; [|done].
  destruct (build_calldata_hops _ _ _ _) as [|hops] eqn:Ehops; [done|].
  destruct (resolve_dispatch _ _ _ _) as [|[source entry]] eqn:Ed; [done|].
  apply resolve_dispatch_entry in Ed as (-> & _). unfold packed_flash_token, is_dodo_flash.
  destruct (decide (source = FDodo)) as [->|Hdodo].
  { cbn. destruct (is_zero _); [done|]. destruct (encode_route arena _ _ _ _) as [[]|]; [|done..]. cbn [obind].
    destruct (on_chain_min_profit_from_assessment a); [|done]. unfold dodo_base_flash_pool_for_cycle.
    by destruct (token_address arena _). }
  assert (match entry_of source with DodoFlash => true | _ => false end = false) as -> by (by destruct source).
  cbn [negb andb].
  destruct hops as [|hop hops]; [done|]. cbn [hop0_mismatch].
  destruct (Z.eqb_spec (ch_token_in hop) start) as [<-|]; cbn [negb]; [|done].
  unfold is_zero. destruct (Z.eqb_spec (rs_amount_in (ev_result evaluated)) 0) as [|Hz]; [done|].
  destruct (encode_route arena _ _ _ _) as [[calls|]|] eqn:Ec; [|done..]. cbn [obind].
  unfold on_chain_min_profit_from_assessment. destruct (on_chain_min_profit _) as [m|] eqn:Em; [|done].
  apply on_chain_min_profit_range in Em as (Hm & Hle & Hge); [|done].
  unfold build_arb_calldata.
  destruct (build_packed_route_payload _ _ _ _ _ _ _ _) as [[packed hash]|] eqn:Ep; [|done].
  intros Hc%Done_inj. apply (inj Some) in Hc as <-. cbn.
  pose proof (encode_route_plain _ _ _ _ _ _ Ec) as Hplain.
  pose proof (route_calls_fit abi_encode _ _ _ _ _ _ _ Haddr Ehops He Hplain) as Hfit.
  destruct Haddr as (Hx & Ht & _). pose proof (Ht _ _ Estart) as Hs.
  apply read_payload_build in Ep as [_ Hread]; try done; [|by apply candidate_deadline_u256].
  exists a, hop, hops, calls, packed, m. by split_and!.
Qed.
End candidate.

(** ** Witness *)

Definition demo_evaluated3 : EvaluatedRoute :=
  {| ev_cycle := {| fc_start_token := 0; fc_edges := demo_edges3; fc_hop_count := 2;
                    fc_log_weight := S754_zero false; fc_cumulative_fee_bps := 0;
                    fc_score := S754_zero false; fc_cycle_ratio := 0 |};
     ev_result := {| rs_amount_in := 10 ^ 6; rs_amount_out := 1010000; rs_profit := 10000;
                     rs_profitable := true; rs_hop_amounts := [10 ^ 6; 1016000; 1010000];
                     rs_total_gas := 300000; rs_hop_count := 2 |};
     ev_assessment := Some (assess_profit flash_fees_init demo_assess);
     ev_effective_slippage_bps := 50 |}.

Definition demo_config3 : CandidateBuildConfig :=
  {| cb_executor_address := 300000; cb_slippage_bps := 50; cb_flash_loan_source := FAaveV3;
     cb_deadline_secs_from_now := 120; cb_min_profit_matic_wei := 1; cb_min_profit_roi_bps := 0;
     cb_token_decimals := 18; cb_token_to_matic_rate := 10 ^ 18; cb_safety_multiplier_bps := 10000;
     cb_state_generation := 1; cb_state_block := 7; cb_state_hash := None; cb_route_fingerprint := 5;
     cb_flash_liquidity := no_liquidity; cb_has_dodo_pool := false; cb_trust_prepared_flash := true;
     cb_adaptive_flash_cap_bound := false; cb_adaptive_flash_loan_usd_limit := 0 |}.

Definition demo_candidate3 : outcome (option CandidateExecution) :=
  build_execution_candidate demo_encode (λ _, 99) (λ _ packed, packed) (λ _, EmptyString) demo_arena3
    demo_evaluated3 demo_config3 demo_metas3 (Some 1000).

Lemma lookup_address (l : list Address) k a :
  forallb (λ a, (0 <=? a) && (a <? 2 ^ 160))%bool l = true → l !! k = Some a → is_address a.
Proof.
  intros H Hl%list_elem_of_lookup_2. rewrite forallb_forall in H. apply list_elem_of_In, H in Hl.
  unfold is_address. zbool. lia.
Qed.

Lemma candidate_carries_assessed_trade_witness :
  match demo_candidate3 with
  | Done (Some c) => cd_target_address c = 300000 ∧ cd_value c = 0 ∧
      option_map py_flash_amount (read_payload (cd_calldata c)) = Some (10 ^ 6)
  | _ => False
  end.
Proof.
  destruct demo_candidate3 as [[c|]|] eqn:Ec; [|vm_compute in Ec; discriminate Ec..].
  destruct (candidate_carries_assessed_trade demo_encode (λ _, 99) (λ _ packed, packed) (λ _, EmptyString)
    demo_arena3 demo_evaluated3 demo_config3 demo_metas3 (Some 1000) c)
    as (a & hop & hops & calls & packed & m & _ & _ & _ & _ & _ & _ & _ & Ht & Hv & Hd & _ & Ha & _ & _ & _ & _ & Hr).
  - split; [split; eval_range|].
    split; intros k x; [unfold token_address|unfold pool_address]; apply lookup_address; vm_compute; reflexivity.
  - eval_range.
  - intros a Ha. change (Some (assess_profit flash_fees_init demo_assess) = Some a) in Ha.
    apply (inj Some) in Ha as <-. eval_range.
  - split; eval_range.
  - intros bytes. eval_range.
  - intros call. destruct call; eval_range.
  - exact Ec.
  - split; [exact Ht|]. split; [exact Hv|]. rewrite Hd, Hr, Ha. reflexivity.
Defined.
