(* ===== verification/Revert.v ===== *)
(** * Decoding a revert

    [src/src/services/execution/revert_decoder.rs] and the readings of a decoded revert in
    [service.rs]: what a failed simulation says about the executor, the failing hop and the
    failing token.  A revert is a list of bytes, [usize] has 64 bits, and a slice out of
    range is a [Panic], which ends the process (the release profile aborts).  The text of an
    address and its parser, and the lossy conversion of bytes to text, are the standard and
    other libraries' and parameters. *)
From Stdlib Require Import Ascii String.
From stdpp Require Import gmap strings pretty.
From S2P Require Import Prelude Word Types Routes Submit TokenRates Abi.

(** ** Selectors *)

Definition SEL_UNAUTHORIZED : list Z := [0x82; 0xb4; 0x29; 0x00].
Definition SEL_DEADLINE_EXPIRED : list Z := [0x1a; 0xb7; 0xda; 0x6b].
Definition SEL_EMPTY_ROUTE : list Z := [0xea; 0x60; 0xab; 0x1d].
Definition SEL_TOO_MANY_CALLS : list Z := [0xf5; 0xde; 0xdb; 0xff].
Definition SEL_FLASH_LOAN_REQUIRED : list Z := [0x94; 0x63; 0x02; 0xfe].
Definition SEL_INVALID_ROUTE_HASH : list Z := [0xc8; 0x58; 0xad; 0xff].
Definition SEL_FLASH_LOAN_ONLY : list Z := [0xfc; 0x30; 0x53; 0x29].
Definition SEL_INVALID_FLASH_LOAN_CTX : list Z := [0xad; 0xd4; 0xad; 0xc0].
Definition SEL_CALLBACK_ONLY : list Z := [0xc2; 0x1d; 0x53; 0xe8].
Definition SEL_UNSUPPORTED_PROTOCOL : list Z := [0xf8; 0x50; 0x44; 0x2b].
Definition SEL_INVALID_POOL_CALLER : list Z := [0xf2; 0x06; 0x25; 0x59].
Definition SEL_EXTERNAL_CALL_FAILED : list Z := [0x0f; 0x43; 0x45; 0x73].
Definition SEL_INSUFFICIENT_PROFIT : list Z := [0x4e; 0x88; 0x42; 0x2a].
Definition SEL_TRANSFER_FAILED : list Z := [0xbf; 0x18; 0x2b; 0xe8].
Definition SEL_APPROVE_FAILED : list Z := [0x1b; 0x6c; 0x83; 0xab].
Definition SEL_ZERO_ADDRESS : list Z := [0xd9; 0x2e; 0x23; 0x3d].
Definition SEL_INVALID_CALLBACK_SOURCE : list Z := [0x93; 0x61; 0x98; 0xe9].
Definition SEL_BALANCER_VAULT_REENTRANCY : list Z := [0x6b; 0xe9; 0x2d; 0xa6].
Definition SEL_AAVE_RESERVE_INACTIVE : list Z := [0x90; 0xcd; 0x6f; 0x24].
Definition SEL_ERROR_STRING : list Z := [0x08; 0xc3; 0x79; 0xa0].
Definition SEL_PANIC : list Z := [0x4e; 0x48; 0x7b; 0x71].

Inductive DecodedRevert :=
| Unauthorized
| DeadlineExpired
| EmptyRoute
| TooManyCalls
| FlashLoanRequired
| InvalidRouteHash
| FlashLoanOnly
| InvalidFlashLoanContext
| CallbackOnly
| UnsupportedProtocol (id : Z)
| InvalidPoolCaller (expected actual : Address)
| ExternalCallFailed (index : Z) (target : Address) (reason : string)
| InsufficientProfit (final_balance required : Z)
| TransferFailed (token to : Address) (amount : Z)
| ApproveFailed (token spender : Address)
| ZeroAddress
| InvalidCallbackSource
| BalancerVaultReentrancy
| AaveReserveInactive
| Unknown (selector : list Z) (hex : string).

(** ** Bytes *)

Definition zlen (data : list Z) : Z := Z.of_nat (length data).

(** [&data[start..end]] where it is known to be in range. *)
Definition sub_bytes (data : list Z) (start end_ : Z) : list Z :=
  take (Z.to_nat (end_ - start)) (drop (Z.to_nat start) data).

(** [&data[start..end]] *)
Definition slice (data : list Z) (start end_ : Z) : outcome (list Z) :=
  if ((start <=? end_) && (end_ <=? zlen data))%bool then Done (sub_bytes data start end_) else Panic.

(** [usize::try_from(v).ok()] and [u64::try_from(v).ok()] *)
Definition u64_try (v : Z) : option Z := if v <=? u64_max then Some v else None.
Definition usize_add (a b : Z) : Z := wrap_u 64 (a + b).
Definition usize_saturating_add (a b : Z) : Z := Z.min (a + b) u64_max.

Definition word_u256 (data : list Z) (word : Z) : option Z :=
  let? start := u64_try (word * 32) in
  let? end_ := u64_try (start + 32) in
  if end_ <=? zlen data then Some (of_be (sub_bytes data start end_)) else None.

Definition hex_nibble (n : Z) : ascii :=
  ascii_of_N (Z.to_N (if n <? 10 then 48 + n else 87 + n)).

(** [{b:02x}] *)
Definition hex_byte (b : Z) : string := String (hex_nibble (b / 16)) (String (hex_nibble (b mod 16)) EmptyString).

Definition hex_bytes (data : list Z) : string := foldr (λ b s, hex_byte b +:+ s) EmptyString data.

Definition hex_preview (data : list Z) (max : nat) : string := hex_bytes (take max data).

(** [{sel:02x?}] *)
Definition debug_selector (sel : list Z) : string :=
  "[" +:+ String.concat ", " (hex_byte <$> sel) +:+ "]".

Section decode.
Context (show_address : Address → string) (utf8_lossy : list Z → string).

(** [Display] *)
Definition show_revert (d : DecodedRevert) : string :=
  match d with
  | Unauthorized => "Unauthorized: caller is not owner"
  | DeadlineExpired => "DeadlineExpired: block.timestamp > deadline"
  | EmptyRoute => "EmptyRoute: calls array is empty"
  | TooManyCalls => "TooManyCalls: more than 12 calls"
  | FlashLoanRequired => "FlashLoanRequired: flashAmount is zero"
  | InvalidRouteHash => "InvalidRouteHash: keccak(calls) != routeHash"
  | FlashLoanOnly => "FlashLoanOnly: caller is not the flash loan provider"
  | InvalidFlashLoanContext => "InvalidFlashLoanContext: wrong phase or mismatched context"
  | CallbackOnly => "CallbackOnly: caller is not the expected DEX pool"
  | UnsupportedProtocol id => "UnsupportedProtocol: protocol ID " +:+ pretty id
  | InvalidPoolCaller expected actual =>
      "InvalidPoolCaller: expected " +:+ show_address expected +:+ ", got " +:+ show_address actual
  | ExternalCallFailed index target reason =>
      "ExternalCallFailed: hop " +:+ pretty index +:+ ", target " +:+ show_address target +:+
        ", reason: " +:+ reason
  | InsufficientProfit final_balance required =>
      "InsufficientProfit: final=" +:+ pretty final_balance +:+ ", required=" +:+ pretty required +:+
        ", shortfall=" +:+ pretty (Z.max 0 (required - final_balance))
  | TransferFailed token to amount =>
      "TransferFailed: token=" +:+ show_address token +:+ ", to=" +:+ show_address to +:+
        ", amount=" +:+ pretty amount
  | ApproveFailed token spender =>
      "ApproveFailed: token=" +:+ show_address token +:+ ", spender=" +:+ show_address spender
  | ZeroAddress => "ZeroAddress: parameter is address(0)"
  | InvalidCallbackSource => "InvalidCallbackSource: factory lookup returned address(0)"
  | BalancerVaultReentrancy =>
      "BalancerVaultReentrancy: vault calls forbidden inside Balancer flash-loan callback"
  | AaveReserveInactive => "AaveReserveInactive: token reserve not active for flash loan"
  | Unknown sel hex => "Unknown: selector=0x" +:+ debug_selector sel +:+ ", data=" +:+ hex
  end.

(** ** The decoder *)

Definition decode_invalid_pool_caller (data : list Z) : DecodedRevert :=
  if zlen data <? 64 then InvalidPoolCaller 0 0
  else InvalidPoolCaller (of_be (sub_bytes data 12 32)) (of_be (sub_bytes data 44 64)).

Definition decode_abi_string (data : list Z) (offset : Z) : string :=
  if zlen data <? usize_saturating_add offset 32 then EmptyString
  else
    let len := default 0 (let? v := word_u256 data (offset / 32) in u64_try v) in
    let body_start := usize_saturating_add offset 32 in
    let end_ := usize_saturating_add body_start len in
    if end_ <=? zlen data then utf8_lossy (sub_bytes data body_start end_) else EmptyString.

Definition sanitize_external_call_failed (index : Z) (target : Address) (reason : string)
  : option DecodedRevert :=
  if Z.of_nat MAX_EXECUTOR_CALLS <=? index then None
  else
    let target := if is_plausible_contract_address target then target else 0 in
    Some (ExternalCallFailed index target reason).

(** [?] inside: the inner [None] leaves the function. *)
Definition decode_external_call_failed_abi (payload : list Z) : outcome (option DecodedRevert) :=
  if zlen payload <? 96 then Done None
  else
    let_some head := word_u256 payload 0 or Done None in
    let_some off := u64_try head or Done None in
    if zlen payload <? usize_add off 96 then Done None
    else
      let! index_word := slice payload off (usize_add off 32) in
      let index := default 0 (u64_try (of_be index_word)) in
      let! target_word := slice payload (usize_add off 44) (usize_add off 64) in
      let target := of_be target_word in
      let! rel_word := slice payload (usize_add off 64) (usize_add off 96) in
      let_some reason_rel := u64_try (of_be rel_word) or Done None in
      let reason := decode_abi_string payload (usize_saturating_add off reason_rel) in
      Done (sanitize_external_call_failed index target reason).

Definition decode_error_string_prefer (data : list Z) : option string :=
  if negb (bool_decide (take 4 data = SEL_ERROR_STRING)) then None
  else
    let payload := drop 4 data in
    let? word := word_u256 payload 0 in
    let? str_off := u64_try word in
    let s := decode_abi_string payload str_off in
    if String.eqb s EmptyString then None else Some s.

Definition decode_insufficient_profit (data : list Z) : option DecodedRevert :=
  if zlen data <? 64 then None
  else Some (InsufficientProfit (of_be (sub_bytes data 0 32)) (of_be (sub_bytes data 32 64))).

Definition decode_transfer_failed (data : list Z) : option DecodedRevert :=
  if zlen data <? 96 then None
  else Some (TransferFailed (of_be (sub_bytes data 12 32)) (of_be (sub_bytes data 44 64))
               (of_be (sub_bytes data 64 96))).

Definition decode_approve_failed (data : list Z) : option DecodedRevert :=
  if zlen data <? 64 then None
  else Some (ApproveFailed (of_be (sub_bytes data 12 32)) (of_be (sub_bytes data 44 64))).

(** The functions that call each other take [decode_revert] as [nested]. *)
Section nested.
Context (nested : list Z → outcome (option DecodedRevert)).

(** The reason of a nested revert of [rd_size] bytes. *)
Definition nested_reason (payload : list Z) (rd_size : Z) : outcome string :=
  let rd := sub_bytes payload 128 (128 + rd_size) in
  match decode_error_string_prefer rd with
  | Some s => Done s
  | None =>
      let! decoded := nested rd in
      Done (match decoded with
            | Some d => show_revert d
            | None => "0x" +:+ hex_preview rd 64
            end)
  end.

Definition decode_huff_external_call_failed_payload (payload : list Z) : outcome (option DecodedRevert) :=
  if zlen payload <? 64 then Done None
  else
    let index := default 0 (u64_try (of_be (sub_bytes payload 0 32))) in
    let target := of_be (sub_bytes payload 44 64) in
    let! reason :=
      (if 128 <=? zlen payload then
         let rd_size := default 0 (u64_try (of_be (sub_bytes payload 96 128))) in
         if rd_size =? 0 then
           let trailing := zlen payload - 128 in
           Done (if 0 <? trailing
                 then "empty nested revert (rd_size=0, trailing=" +:+ pretty trailing +:+ "B 0x" +:+
                        hex_preview (drop 128 payload) 32 +:+ ")"
                 else "empty nested revert (rd_size=0)")
         else if usize_saturating_add 128 rd_size <=? zlen payload then nested_reason payload rd_size
         else Done ("truncated nested revert (rd_size=" +:+ pretty rd_size +:+ ", payload=" +:+
                      pretty (zlen payload) +:+ "B)")
       else Done (if 64 <? zlen payload then "short huff payload (" +:+ pretty (zlen payload) +:+ "B)"
                  else EmptyString)) in
    Done (sanitize_external_call_failed index target reason).

Definition decode_external_call_failed (payload : list Z) : outcome (option DecodedRevert) :=
  if zlen payload =? 0 then Done (Some (ExternalCallFailed 0 0 EmptyString))
  else
    let! huff := decode_huff_external_call_failed_payload payload in
    match huff with
    | Some decoded => Done (Some decoded)
    | None =>
        let! abi := decode_external_call_failed_abi payload in
        match abi with
        | Some decoded => Done (Some decoded)
        | None =>
            let reason :=
              if 128 <? zlen payload then "undecodable payload (" +:+ pretty (zlen payload) +:+ " bytes)"
              else "0x" +:+ hex_preview payload (length payload) in
            Done (Some (ExternalCallFailed 0 0 reason))
        end
    end.

(** The errors without parameters. *)
Definition plain_revert (sel : list Z) : option DecodedRevert :=
  if bool_decide (sel = SEL_UNAUTHORIZED) then Some Unauthorized
  else if bool_decide (sel = SEL_DEADLINE_EXPIRED) then Some DeadlineExpired
  else if bool_decide (sel = SEL_EMPTY_ROUTE) then Some EmptyRoute
  else if bool_decide (sel = SEL_TOO_MANY_CALLS) then Some TooManyCalls
  else if bool_decide (sel = SEL_FLASH_LOAN_REQUIRED) then Some FlashLoanRequired
  else if bool_decide (sel = SEL_INVALID_ROUTE_HASH) then Some InvalidRouteHash
  else if bool_decide (sel = SEL_FLASH_LOAN_ONLY) then Some FlashLoanOnly
  else if bool_decide (sel = SEL_INVALID_FLASH_LOAN_CTX) then Some InvalidFlashLoanContext
  else if bool_decide (sel = SEL_CALLBACK_ONLY) then Some CallbackOnly
  else if bool_decide (sel = SEL_ZERO_ADDRESS) then Some ZeroAddress
  else if bool_decide (sel = SEL_INVALID_CALLBACK_SOURCE) then Some InvalidCallbackSource
  else if bool_decide (sel = SEL_BALANCER_VAULT_REENTRANCY) then Some BalancerVaultReentrancy
  else if bool_decide (sel = SEL_AAVE_RESERVE_INACTIVE) then Some AaveReserveInactive
  else None.

(** The [match] on the selector. *)
Definition decode_selected (sel payload data : list Z) : outcome (option DecodedRevert) :=
  match plain_revert sel with
  | Some d => Done (Some d)
  | None =>
      if bool_decide (sel = SEL_UNSUPPORTED_PROTOCOL) then
        Done (Some (UnsupportedProtocol
          (if 32 <=? zlen payload then
             let id := of_be (sub_bytes payload 0 32) in if id <? 256 then id else 0
           else 0)))
      else if bool_decide (sel = SEL_INVALID_POOL_CALLER) then Done (Some (decode_invalid_pool_caller payload))
      else if bool_decide (sel = SEL_EXTERNAL_CALL_FAILED) then decode_external_call_failed payload
      else if bool_decide (sel = SEL_INSUFFICIENT_PROFIT) then Done (decode_insufficient_profit payload)
      else if bool_decide (sel = SEL_TRANSFER_FAILED) then Done (decode_transfer_failed payload)
      else if bool_decide (sel = SEL_APPROVE_FAILED) then Done (decode_approve_failed payload)
      else if bool_decide (sel = SEL_ERROR_STRING) then
        let str_off := default 32 (let? v := word_u256 payload 0 in u64_try v) in
        Done (Some (ExternalCallFailed 0 0 (decode_abi_string payload str_off)))
      else if bool_decide (sel = SEL_PANIC) then
        let code := if 32 <=? zlen payload then of_be (sub_bytes payload 0 32) else 0 in
        Done (Some (ExternalCallFailed 0 0 ("Panic(" +:+ pretty code +:+ ")")))
      else Done (Some (Unknown sel (hex_bytes data)))
  end.

Definition decode_revert_body (data : list Z) : outcome (option DecodedRevert) :=
  if zlen data <? 4 then Done None else decode_selected (take 4 data) (drop 4 data) data.
End nested.

(** A nested revert is at least 132 bytes shorter; a revert of fewer than four bytes calls
    nothing. *)
Fixpoint decode_revert_fuel (fuel : nat) (data : list Z) : outcome (option DecodedRevert) :=
  decode_revert_body (match fuel with O => λ _, Done None | S fuel => decode_revert_fuel fuel end) data.

Definition decode_revert (data : list Z) : outcome (option DecodedRevert) :=
  decode_revert_fuel (length data) data.
End decode.

(** ** What a revert says about the route ([service.rs]) *)

Fixpoint to_ascii_lowercase (s : string) : string :=
  match s with EmptyString => EmptyString | String a s => String (lower a) (to_ascii_lowercase s) end.

Definition is_mid_hop_transfer_underfund (decoded : option DecodedRevert) : bool :=
  match decoded with
  | Some (ExternalCallFailed index _ reason) =>
      if 1 <=? index then
        let r := to_ascii_lowercase reason in
        (contains r "transferfailed" || contains r "transfer_failed"
         || contains r "transfer amount exceeds balance" || contains r "insufficient balance"
         || contains r "exceeds balance")%bool
      else false
  | _ => false
  end.

(** What follows the first occurrence of [pat], and what precedes it (all when there is
    none). *)
Fixpoint skip (n : nat) (s : string) : string :=
  match n, s with S n, String _ s => skip n s | _, _ => s end.

Fixpoint after (pat s : string) : option string :=
  if String.prefix pat s then Some (skip (String.length pat) s)
  else match s with String _ s => after pat s | EmptyString => None end.

Fixpoint before (pat s : string) : string :=
  if String.prefix pat s then EmptyString
  else match s with String a s => String a (before pat s) | EmptyString => EmptyString end.

(** Up to the first character that satisfies [p]. *)
Fixpoint until (p : ascii → bool) (s : string) : string :=
  match s with
  | EmptyString => EmptyString
  | String a s => if p a then EmptyString else String a (until p s)
  end.

Fixpoint trim_start (p : ascii → bool) (s : string) : string :=
  match s with
  | EmptyString => EmptyString
  | String a s' => if p a then trim_start p s' else s
  end.

Fixpoint trim_end (p : ascii → bool) (s : string) : string :=
  match s with
  | EmptyString => EmptyString
  | String a s =>
      match trim_end p s with
      | EmptyString => if p a then EmptyString else String a EmptyString
      | t => String a t
      end
  end.

(** [char::is_whitespace] of ASCII. *)
Definition is_whitespace (a : ascii) : bool :=
  let n := N_of_ascii a in ((n =? 32) || ((9 <=? n) && (n <=? 13)))%N%bool.

(** [[',', ' ', '\n', '\t']] *)
Definition is_separator (a : ascii) : bool :=
  let n := N_of_ascii a in ((n =? 44) || (n =? 32) || (n =? 10) || (n =? 9))%N%bool.

Section classify.
(** [parse::<Address>().ok()] *)
Context (parse_address : string → option Address).

Definition parse_nested_transfer_failed_token (reason : string) : option Address :=
  let? rest := after "token=" reason in
  let rest := before "token=" rest in
  let addr := trim_end is_whitespace (trim_start is_whitespace (until is_separator rest)) in
  if String.eqb addr EmptyString then None else parse_address addr.

Definition transfer_failed_token_to_quarantine (decoded : option DecodedRevert) (profit_token : Address)
  : option Address :=
  if is_mid_hop_transfer_underfund decoded then None
  else
    let? token :=
      match decoded with
      | Some (TransferFailed token _ _) => Some token
      | Some (ExternalCallFailed index _ reason) =>
          if negb (contains reason "TransferFailed" || contains reason "TRANSFER_FAILED") then None
          else
            match parse_nested_transfer_failed_token reason with
            | Some token => Some token
            | None => if index =? 0 then Some profit_token else None
            end
      | _ => None
      end in
    if is_polygon_hub_token token then None else Some token.
End classify.

Definition flash_size_failure_reason (reason : string) : bool :=
  let r := to_ascii_lowercase reason in
  (contains r "bal#528" || contains r "insufficient balancer flash" || contains r "flash-loan balance"
   || contains r "flash loan amount" || contains r "borrow amount exceeds"
   || contains r "amount exceeds available")%bool.

(** ** Nested reverts *)

Section decode.
Context (show_address : Address → string) (utf8_lossy : list Z → string).

Notation decode_revert := (decode_revert show_address utf8_lossy).
Notation decode_revert_fuel := (decode_revert_fuel show_address utf8_lossy).
Notation decode_revert_body := (decode_revert_body show_address utf8_lossy).

Lemma sub_bytes_length data a b : (length (sub_bytes data a b) ≤ length data)%nat.
Proof. unfold sub_bytes. rewrite length_take, length_drop. lia. Qed.

(** Only shorter reverts are decoded on the way. *)
Lemma decode_revert_body_ext n1 n2 data :
  (∀ rd, (length rd < length data)%nat → n1 rd = n2 rd) →
  decode_revert_body n1 data = decode_revert_body n2 data.
Proof.
  intros Hn. unfold decode_revert_body. destruct (Z.ltb_spec (zlen data) 4) as [|Hl]; [done|].
  unfold decode_selected. destruct (plain_revert _); [done|].
  do 2 (case_bool_decide; [done|]). case_bool_decide; [|done].
  unfold decode_external_call_failed. destruct (_ =? 0); [done|].
  unfold decode_huff_external_call_failed_payload. destruct (_ <? 64); [done|].
  destruct (128 <=? _); [|done]. destruct (_ =? 0); [done|]. destruct (_ <=? zlen _); [|done].
  unfold nested_reason. destruct (decode_error_string_prefer _ _); [done|].
  rewrite Hn; [done|]. eapply Nat.le_lt_trans; [apply sub_bytes_length|].
  rewrite length_drop. unfold zlen in Hl. lia.
Qed.

Lemma decode_revert_fuel_enough n m data :
  (length data ≤ n)%nat → (length data ≤ m)%nat → decode_revert_fuel n data = decode_revert_fuel m data.
Proof.
  revert m data. induction n as [|n IH]; intros m data Hn Hm.
  - destruct data; [|cbn in Hn; lia]. by destruct m.
  - destruct m as [|m]; [destruct data; [done|cbn in Hm; lia]|]. cbn [Revert.decode_revert_fuel].
    apply decode_revert_body_ext. intros rd Hr. apply IH; lia.
Qed.

(** The recursion needs no fuel. *)
Lemma decode_revert_eq data : decode_revert data = decode_revert_body decode_revert data.
Proof.
  unfold Revert.decode_revert. destruct (length data) eqn:El.
  - by destruct data.
  - cbn [Revert.decode_revert_fuel]. apply decode_revert_body_ext. intros rd Hr.
    apply decode_revert_fuel_enough; lia.
Qed.
End decode.

(** ** The errors of the executor *)

(** The layout of its [ExternalCallFailed], which carries what the callee returned. *)
Definition huff_error (index : Z) (target : Address) (junk : Z) (rd : list Z) : list Z :=
  SEL_EXTERNAL_CALL_FAILED ++ be_bytes 32 index ++ address_word target ++ be_bytes 32 junk
    ++ be_bytes 32 (zlen rd) ++ rd.

Definition transfer_failed_error (token to : Address) (amount : Z) : list Z :=
  SEL_TRANSFER_FAILED ++ address_word token ++ address_word to ++ be_bytes 32 amount.

Definition insufficient_profit_error (final_balance required : Z) : list Z :=
  SEL_INSUFFICIENT_PROFIT ++ be_bytes 32 final_balance ++ be_bytes 32 required.

(** [abi.encodeWithSignature] of [Error(string)], with any padding. *)
Definition error_string (text padding : list Z) : list Z :=
  SEL_ERROR_STRING ++ be_bytes 32 32 ++ be_bytes 32 (zlen text) ++ text ++ padding.

Lemma sub_bytes_mid pre mid post start end_ :
  zlen pre = start → zlen mid = end_ - start → sub_bytes (pre ++ mid ++ post) start end_ = mid.
Proof.
  unfold zlen, sub_bytes. intros <- <-. rewrite !Nat2Z.id.
  by rewrite drop_app_length, take_app_length.
Qed.

Lemma zlen_app a b : zlen (a ++ b) = zlen a + zlen b.
Proof. unfold zlen. rewrite length_app. lia. Qed.
Lemma zlen_be n v : zlen (be_bytes n v) = Z.of_nat n.
Proof. unfold zlen. by rewrite be_bytes_length. Qed.
Lemma zlen_address a : zlen (address_word a) = 32.
Proof. unfold zlen. by rewrite address_word_length. Qed.
Lemma zlen_replicate n (x : Z) : zlen (replicate n x) = Z.of_nat n.
Proof. unfold zlen. by rewrite length_replicate. Qed.
Lemma zlen_nonneg data : 0 ≤ zlen data.
Proof. unfold zlen. lia. Qed.

Ltac zlens := rewrite ?zlen_app, ?zlen_be, ?zlen_address, ?zlen_replicate in *; cbn [Z.of_nat Pos.of_succ_nat Pos.succ] in *.

Lemma of_be_bytes_u256 v : u256 v → of_be (be_bytes 32 v) = v.
Proof. intros Hv. apply of_be_be_bytes. unfold u256, M256 in Hv. cbn. lia. Qed.
Lemma of_be_bytes_address v : is_address v → of_be (be_bytes 20 v) = v.
Proof. intros Hv. apply of_be_be_bytes. unfold is_address in Hv. cbn. lia. Qed.

(** The slices of a word and of an address inside a longer list. *)
Lemma read_at_word pre v post start end_ :
  zlen pre = start → end_ = start + 32 → u256 v → of_be (sub_bytes (pre ++ be_bytes 32 v ++ post) start end_) = v.
Proof. intros Hp He Hv. rewrite sub_bytes_mid by (zlens; lia). by apply of_be_bytes_u256. Qed.

Lemma read_at_address pre a post start end_ :
  zlen pre + 12 = start → end_ = start + 20 → is_address a →
  of_be (sub_bytes (pre ++ address_word a ++ post) start end_) = a.
Proof.
  intros Hp He Ha. unfold address_word. rewrite <- !app_assoc, (app_assoc pre).
  rewrite sub_bytes_mid by (zlens; lia). by apply of_be_bytes_address.
Qed.

Lemma word_at pre v post word :
  zlen pre = word * 32 → word * 32 + 32 ≤ u64_max → u256 v →
  word_u256 (pre ++ be_bytes 32 v ++ post) word = Some v.
Proof.
  intros Hp Hw Hv. pose proof (zlen_nonneg post). pose proof (zlen_nonneg pre). unfold word_u256, u64_try.
  rewrite (proj2 (Z.leb_le (word * 32) u64_max)) by lia.
  rewrite (proj2 (Z.leb_le (word * 32 + 32) u64_max)) by lia.
  rewrite (proj2 (Z.leb_le _ (zlen (pre ++ _)))) by (zlens; lia). f_equal. by apply read_at_word.
Qed.

Lemma read_first_word v post : u256 v → of_be (sub_bytes (be_bytes 32 v ++ post) 0 32) = v.
Proof. by apply (read_at_word []). Qed.
Lemma read_first_address a post : is_address a → of_be (sub_bytes (address_word a ++ post) 12 32) = a.
Proof. by apply (read_at_address []). Qed.

Section roundtrip.
Context (show_address : Address → string) (utf8_lossy : list Z → string).

Notation decode_revert := (decode_revert show_address utf8_lossy).

Lemma decode_selected_by sel payload :
  zlen sel = 4 → decode_revert (sel ++ payload) =
    decode_selected show_address utf8_lossy decode_revert sel payload (sel ++ payload).
Proof.
  intros Hs. rewrite decode_revert_eq. unfold decode_revert_body. rewrite zlen_app.
  destruct (Z.ltb_spec (zlen sel + zlen payload) 4); [pose proof (zlen_nonneg payload); lia|].
  by rewrite take_app_length', drop_app_length' by (unfold zlen in Hs; lia).
Qed.

(** The reason that is read out of what the callee returned. *)
Definition callee_reason (rd : list Z) : outcome string :=
  match decode_error_string_prefer utf8_lossy rd with
  | Some s => Done s
  | None =>
      let! decoded := decode_revert rd in
      Done (match decoded with
            | Some d => show_revert show_address d
            | None => "0x" +:+ hex_preview rd 64
            end)
  end.

Lemma decode_huff_error index target junk rd :
  0 ≤ index < Z.of_nat MAX_EXECUTOR_CALLS → is_address target → u256 junk → rd ≠ [] →
  128 + zlen rd ≤ u64_max →
  decode_revert (huff_error index target junk rd) =
    let! reason := callee_reason rd in
    Done (Some (ExternalCallFailed index (if is_plausible_contract_address target then target else 0) reason)).
Proof.
  intros Hi Ht Hj Hne Hlen. unfold huff_error. rewrite decode_selected_by by done.
  change (decode_selected show_address utf8_lossy decode_revert SEL_EXTERNAL_CALL_FAILED ?p ?d)
    with (decode_external_call_failed show_address utf8_lossy decode_revert p).
  set (payload := be_bytes 32 index ++ _).
  assert (0 < zlen rd) as Hpos by (destruct rd; [done|unfold zlen; cbn; lia]).
  assert (zlen payload = 128 + zlen rd) as Hp by (unfold payload; zlens; lia).
  assert (u64_max < M256) by done.
  assert (of_be (sub_bytes payload 0 32) = index) as Ei.
  { apply read_first_word. change MAX_EXECUTOR_CALLS with 12%nat in Hi. unfold u256, M256. lia. }
  assert (of_be (sub_bytes payload 44 64) = target) as Et by (apply (read_at_address (be_bytes 32 index)); zlens; done).
  assert (of_be (sub_bytes payload 96 128) = zlen rd) as El.
  { unfold payload. rewrite !app_assoc, <- (app_assoc _ _ rd). apply read_at_word; [zlens; lia|lia|]. unfold u256. lia. }
  assert (sub_bytes payload 128 (128 + zlen rd) = rd) as Er.
  { unfold payload. rewrite !app_assoc. rewrite <- (app_nil_r rd) at 2.
    apply sub_bytes_mid; zlens; lia. }
  unfold decode_external_call_failed. rewrite (proj2 (Z.eqb_neq (zlen payload) 0)) by lia.
  unfold decode_huff_external_call_failed_payload. rewrite Ei, Et, El.
  rewrite (proj2 (Z.ltb_ge (zlen payload) 64)), (proj2 (Z.leb_le 128 (zlen payload))) by lia.
  assert (u64_try index = Some index) as ->.
  { unfold u64_try. change MAX_EXECUTOR_CALLS with 12%nat in Hi.
    by rewrite (proj2 (Z.leb_le index u64_max)) by (unfold u64_max, M64; lia). }
  assert (u64_try (zlen rd) = Some (zlen rd)) as ->.
  { unfold u64_try. by rewrite (proj2 (Z.leb_le (zlen rd) u64_max)) by lia. }
  cbn [from_option id]. rewrite (proj2 (Z.eqb_neq (zlen rd) 0)) by lia.
  unfold usize_saturating_add. rewrite Z.min_l by lia. rewrite (proj2 (Z.leb_le _ (zlen payload))) by lia.
  unfold nested_reason. rewrite Er. unfold callee_reason, sanitize_external_call_failed.
  rewrite (proj2 (Z.leb_gt _ index)) by lia.
  destruct (decode_error_string_prefer _ rd); [done|].
  by destruct (decode_revert rd).
Qed.

Lemma decode_transfer_failed_error token to amount :
  is_address token → is_address to → u256 amount →
  decode_revert (transfer_failed_error token to amount) = Done (Some (TransferFailed token to amount)).
Proof.
  intros Ht Hto Ha. unfold transfer_failed_error. rewrite decode_selected_by by done.
  change (decode_selected show_address utf8_lossy decode_revert SEL_TRANSFER_FAILED ?p ?d)
    with (Done (decode_transfer_failed p)).
  unfold decode_transfer_failed. zlens. cbn [Z.ltb Z.compare Z.add Pos.add Pos.compare Pos.compare_cont].
  rewrite read_first_address by done. rewrite (read_at_address (address_word token)) by (zlens; done).
  rewrite <- (app_nil_r (be_bytes 32 amount)), app_assoc.
  by rewrite read_at_word by (zlens; done).
Qed.

Lemma decode_insufficient_profit_error final_balance required :
  u256 final_balance → u256 required →
  decode_revert (insufficient_profit_error final_balance required)
    = Done (Some (InsufficientProfit final_balance required)).
Proof.
  intros Hf Hr. unfold insufficient_profit_error. rewrite decode_selected_by by done.
  change (decode_selected show_address utf8_lossy decode_revert SEL_INSUFFICIENT_PROFIT ?p ?d)
    with (Done (decode_insufficient_profit p)).
  unfold decode_insufficient_profit. zlens. cbn [Z.ltb Z.compare Z.add Pos.add Pos.compare Pos.compare_cont].
  rewrite read_first_word by done. rewrite <- (app_nil_r (be_bytes 32 required)).
  by rewrite read_at_word by (zlens; done).
Qed.

Lemma callee_reason_error_string text padding :
  64 + zlen text ≤ u64_max → utf8_lossy text ≠ EmptyString →
  callee_reason (error_string text padding) = Done (utf8_lossy text).
Proof.
  intros Hl Hne. unfold callee_reason, decode_error_string_prefer, error_string.
  pose proof (zlen_nonneg text). pose proof (zlen_nonneg padding).
  assert (u64_max < M256) by done.
  rewrite bool_decide_eq_true_2 by done. cbn [negb].
  change (drop 4 (SEL_ERROR_STRING ++ ?p)) with p.
  set (payload := be_bytes 32 32 ++ _).
  assert (zlen payload = 64 + zlen text + zlen padding) as Hp by (unfold payload; zlens; lia).
  assert (word_u256 payload 0 = Some 32) as -> by (by apply (word_at [])).
  change (u64_try 32) with (Some 32). unfold decode_abi_string.
  assert (∀ n, 0 ≤ n → 32 + n ≤ u64_max → usize_saturating_add 32 n = 32 + n) as Hadd
    by (intros; unfold usize_saturating_add; lia).
  rewrite (Hadd 32) by (lia || done). change (32 + 32) with 64.
  rewrite (proj2 (Z.ltb_ge (zlen payload) 64)) by lia.
  assert (word_u256 payload (32 / 32) = Some (zlen text)) as ->.
  { apply word_at; [by zlens|done|unfold u256; lia]. }
  unfold u64_try. rewrite (proj2 (Z.leb_le (zlen text) u64_max)) by lia. cbn [from_option id].
  unfold usize_saturating_add. rewrite Z.min_l by lia.
  rewrite (proj2 (Z.leb_le (64 + zlen text) (zlen payload))) by lia.
  assert (sub_bytes payload 64 (64 + zlen text) = text) as ->.
  { unfold payload. rewrite app_assoc. apply sub_bytes_mid; [zlens; done|lia]. }
  destruct (String.eqb_spec (utf8_lossy text) EmptyString); [done|]. done.
Qed.
End roundtrip.

(** ** The text of an address *)

Fixpoint all_chars (p : ascii → bool) (s : string) : bool :=
  match s with EmptyString => true | String a s => (p a && all_chars p s)%bool end.

(** A hexadecimal digit or the [x] of its prefix. *)
Definition address_char (a : ascii) : bool :=
  let n := N_of_ascii a in
  (((48 <=? n) && (n <=? 57)) || ((65 <=? n) && (n <=? 70)) || ((97 <=? n) && (n <=? 102)) || (n =? 120))%N%bool.

Lemma address_char_plain a :
  address_char a = true → is_separator a = false ∧ is_whitespace a = false ∧ Ascii.eqb "t" a = false.
Proof. destruct a as [[] [] [] [] [] [] [] []]; vm_compute; auto. Qed.

#[local] Arguments is_separator : simpl never.
#[local] Arguments is_whitespace : simpl never.
#[local] Arguments address_char : simpl never.

Lemma before_address s rest :
  all_chars address_char s = true → before "token=" (s +:+ rest) = s +:+ before "token=" rest.
Proof.
  induction s as [|a s IH]; [done|]. cbn [all_chars]. intros [Ha Hs]%andb_true_iff.
  apply address_char_plain in Ha as (_ & _ & Ht). change (String a s +:+ rest) with (String a (s +:+ rest)).
  change (before "token=" (String a (s +:+ rest))) with
    (if String.prefix "token=" (String a (s +:+ rest)) then EmptyString else String a (before "token=" (s +:+ rest))).
  assert (String.prefix "token=" (String a (s +:+ rest)) = false) as ->.
  { change (String.prefix "token=" (String a (s +:+ rest)))
      with (if ascii_dec "t" a then String.prefix "oken=" (s +:+ rest) else false).
    destruct (ascii_dec "t" a) as [<-|]; [vm_compute in Ht; discriminate Ht|done]. }
  by rewrite IH.
Qed.

Lemma until_address s a rest :
  all_chars address_char s = true → is_separator a = true → until is_separator (s +:+ String a rest) = s.
Proof.
  intros Hs Ha. induction s as [|b s IH].
  { change (EmptyString +:+ String a rest) with (String a rest). cbn. by rewrite Ha. }
  change (String b s +:+ String a rest) with (String b (s +:+ String a rest)). cbn in Hs |- *.
  apply andb_true_iff in Hs as [Hb Hs]. apply address_char_plain in Hb as (-> & _ & _). by rewrite IH.
Qed.

Lemma trim_address s :
  all_chars address_char s = true → trim_end is_whitespace (trim_start is_whitespace s) = s.
Proof.
  intros Hs. assert (trim_start is_whitespace s = s) as ->.
  { destruct s as [|b s]; [done|]. cbn in *. apply andb_true_iff in Hs as [Hb _].
    by apply address_char_plain in Hb as (_ & -> & _). }
  induction s as [|b s IH]; [done|]. cbn in *. apply andb_true_iff in Hs as [Hb Hs]. rewrite (IH Hs).
  apply address_char_plain in Hb as (_ & -> & _). by destruct s.
Qed.

Lemma after_transfer_failed rest : after "token=" ("TransferFailed: token=" +:+ rest) = Some rest.
Proof. by destruct rest. Qed.

Section blame.
Context (show_address : Address → string) (utf8_lossy : list Z → string).
Context (parse_address : string → option Address).

(** Addresses are printed in hexadecimal and read back. *)
Definition address_text : Prop :=
  ∀ a, is_address a → all_chars address_char (show_address a) = true ∧
    show_address a ≠ EmptyString ∧ parse_address (show_address a) = Some a.

Lemma parse_nested_transfer_failed token to amount :
  address_text → is_address token →
  parse_nested_transfer_failed_token parse_address
    (show_revert show_address (TransferFailed token to amount)) = Some token.
Proof.
  intros Htext Ht. destruct (Htext token Ht) as (Hc & Hne & Hp). unfold parse_nested_transfer_failed_token.
  unfold show_revert. rewrite after_transfer_failed.
  cbv beta iota. rewrite before_address by done.
  generalize (show_address to +:+ ", amount=" +:+ pretty amount). intros rest.
  change (before "token=" (", to=" +:+ rest)) with (String "," (before "token=" (" to=" +:+ rest))).
  rewrite until_address, trim_address by done.
  destruct (String.eqb_spec (show_address token) EmptyString); [done|exact Hp].
Qed.

(** The executor's errors are understood.  Its [TransferFailed] and [InsufficientProfit], and
    its [ExternalCallFailed] around whatever the callee returned, are decoded with the values
    they carry; a Solidity error string of the callee is the reason word for word.  When a
    token refuses a transfer inside the first call, exactly that token is put away, unless it
    is a hub token; inside any later call none is, since the previous hop may have delivered
    too little. *)
Theorem executor_errors_decode (index junk amount final_balance required : Z)
    (target token to profit_token : Address) (text padding : list Z) :
  0 ≤ index < Z.of_nat MAX_EXECUTOR_CALLS → is_address target → MIN_CONTRACT < target → u256 junk →
  is_address token → is_address to → u256 amount → u256 final_balance → u256 required →
  text ≠ [] → 256 + zlen text + zlen padding ≤ u64_max → utf8_lossy text ≠ EmptyString → address_text →
  decode_revert show_address utf8_lossy (insufficient_profit_error final_balance required)
    = Done (Some (InsufficientProfit final_balance required)) ∧
  decode_revert show_address utf8_lossy (huff_error index target junk (error_string text padding))
    = Done (Some (ExternalCallFailed index target (utf8_lossy text))) ∧
  ∃ d, decode_revert show_address utf8_lossy (transfer_failed_error token to amount) = Done (Some d) ∧
    d = TransferFailed token to amount ∧
    decode_revert show_address utf8_lossy (huff_error index target junk (transfer_failed_error token to amount))
      = Done (Some (ExternalCallFailed index target (show_revert show_address d))) ∧
    transfer_failed_token_to_quarantine parse_address
      (Some (ExternalCallFailed index target (show_revert show_address d))) profit_token
      = if (1 <=? index)%Z then None else if is_polygon_hub_token token then None else Some token.
Proof.
  intros Hi Ht Hplaus Hj Htok Hto Ha Hf Hr Hne Hlen Hs Htext.
  pose proof (zlen_nonneg text). pose proof (zlen_nonneg padding).
  assert (is_plausible_contract_address target = true) as Hpl.
  { unfold is_plausible_contract_address, is_zero, MIN_CONTRACT in *. apply andb_true_iff.
    split; [apply negb_true_iff, Z.eqb_neq; lia|by apply Z.ltb_lt]. }
  split_and!; [by apply decode_insufficient_profit_error| |].
  - rewrite decode_huff_error; try done.
    + rewrite callee_reason_error_string by (done || lia). cbn [obind]. by rewrite Hpl.
    + unfold error_string. zlens. change (zlen SEL_ERROR_STRING) with 4. lia.
  - exists (TransferFailed token to amount). pose proof (decode_transfer_failed_error show_address utf8_lossy
      token to amount Htok Hto Ha) as Hd. split_and!; [done|done| |].
    + rewrite decode_huff_error; try done. unfold callee_reason.
      change (decode_error_string_prefer utf8_lossy (transfer_failed_error token to amount)) with (@None string).
      rewrite Hd. cbn [obind]. by rewrite Hpl.
    + unfold transfer_failed_token_to_quarantine, is_mid_hop_transfer_underfund.
      destruct (1 <=? index) eqn:Ei; [done|]. cbv zeta.
      rewrite parse_nested_transfer_failed by done. done.
Qed.
End blame.

(** ** A revert that ends the process *)

(** What a contract can return: the selector of [ExternalCallFailed], an offset just below
    [2^64] and two more words. *)
Definition hostile_return (off : Z) (rest : list Z) : list Z :=
  SEL_EXTERNAL_CALL_FAILED ++ be_bytes 32 off ++ rest.

Section hostile.
Context (show_address : Address → string) (utf8_lossy : list Z → string).

Lemma slice_in data a b : 0 ≤ a ≤ b → b ≤ zlen data → slice data a b = Done (sub_bytes data a b).
Proof. intros Ha Hb. unfold slice. by rewrite (proj2 (Z.leb_le a b)), (proj2 (Z.leb_le b _)) by lia. Qed.

Lemma usize_add_small a b : 0 ≤ a → 0 ≤ b → a + b ≤ u64_max → usize_add a b = a + b.
Proof. intros. unfold usize_add, wrap_u. apply Z.mod_small. unfold u64_max, M64 in *. lia. Qed.

Lemma usize_add_wraps a b : a ≤ u64_max → b ≤ u64_max → u64_max < a + b → usize_add a b = a + b - 2 ^ 64.
Proof.
  intros Ha Hb Hab. unfold usize_add, wrap_u. symmetry. apply (Z.mod_unique_pos _ _ 1); unfold u64_max, M64 in *; lia.
Qed.

(** The offset check [off + 96 > payload.len()] wraps, and so does the slice. *)
Lemma abi_decoder_aborts payload off :
  96 ≤ zlen payload ≤ 2 ^ 63 → u256 off → word_u256 payload 0 = Some off →
  decode_external_call_failed_abi utf8_lossy payload = Panic ↔ u64_max - 96 < off ≤ u64_max.
Proof.
  intros Hl Hu Hw. unfold decode_external_call_failed_abi. unfold u256 in Hu.
  rewrite (proj2 (Z.ltb_ge _ 96)), Hw by lia. unfold u64_try.
  destruct (Z.leb_spec off u64_max) as [Ho|Ho]; [|split; [done|lia]].
  destruct (Z_le_gt_dec off (u64_max - 96)) as [Hs|Hs].
  - split; [|lia]. rewrite usize_add_small by lia. destruct (Z.ltb_spec (zlen payload) (off + 96)); [done|].
    rewrite !usize_add_small by lia. rewrite !slice_in by lia. cbn [obind].
    destruct (_ <=? u64_max); [done|by intros].
  - split; [lia|intros _]. rewrite (usize_add_wraps off 96) by (unfold u64_max, M64 in *; lia).
    destruct (Z.ltb_spec (zlen payload) (off + 96 - 2 ^ 64)); [unfold u64_max, M64 in *; lia|].
    unfold slice. destruct (Z_le_gt_dec (off + 32) u64_max) as [|].
    + rewrite usize_add_small by lia. rewrite (proj2 (Z.leb_gt (off + 32) _)) by (unfold u64_max, M64 in *; lia).
      by rewrite andb_false_r.
    + rewrite usize_add_wraps by (unfold u64_max, M64 in *; lia).
      by rewrite (proj2 (Z.leb_gt off _)) by (unfold u64_max, M64 in *; lia).
Qed.

Lemma decode_hostile_return off rest :
  64 ≤ zlen rest ≤ 2 ^ 62 → u64_max - 96 < off ≤ u64_max →
  decode_revert show_address utf8_lossy (hostile_return off rest) = Panic.
Proof.
  intros Hr Ho. unfold hostile_return. rewrite decode_selected_by by done.
  change (decode_selected show_address utf8_lossy ?n SEL_EXTERNAL_CALL_FAILED ?p ?d)
    with (decode_external_call_failed show_address utf8_lossy n p).
  set (payload := be_bytes 32 off ++ rest).
  assert (zlen payload = 32 + zlen rest) as Hp by (unfold payload; zlens; lia).
  assert (u256 off) as Hu by (unfold u256, u64_max, M64, M256 in *; lia).
  assert (of_be (sub_bytes payload 0 32) = off) as Ei by (by apply read_first_word).
  unfold decode_external_call_failed. rewrite (proj2 (Z.eqb_neq (zlen payload) 0)) by lia.
  unfold decode_huff_external_call_failed_payload. rewrite Ei.
  rewrite (proj2 (Z.ltb_ge (zlen payload) 64)) by lia.
  assert (∀ r, sanitize_external_call_failed (default 0 (u64_try off)) r = λ _, None) as Hsan.
  { intros r. unfold sanitize_external_call_failed, u64_try.
    rewrite (proj2 (Z.leb_le off u64_max)) by lia. cbn [from_option id].
    by rewrite (proj2 (Z.leb_le _ off)) by (change MAX_EXECUTOR_CALLS with 12%nat; unfold u64_max, M64 in *; lia). }
  match goal with |- obind (obind ?m _) _ = _ => destruct m as [reason|] end; [|done].
  cbn [obind]. rewrite Hsan.
  by rewrite (proj2 (abi_decoder_aborts payload off ltac:(lia) Hu (word_at [] off rest 0 eq_refl ltac:(done) Hu))).
Qed.

(** Returned data can end the bot.  The ABI reading of an [ExternalCallFailed] aborts exactly
    when the offset it starts with is within 96 below [2^64]; so when a contract that the
    executor calls reverts with such data, decoding the error of the simulation, in which
    the executor wraps it, panics, whatever call it was. *)
Theorem hostile_revert_aborts (index target junk off : Z) (rest : list Z) :
  0 ≤ index < Z.of_nat MAX_EXECUTOR_CALLS → is_address target → u256 junk → u256 off →
  64 ≤ zlen rest ≤ 2 ^ 62 →
  (decode_external_call_failed_abi utf8_lossy (be_bytes 32 off ++ rest) = Panic ↔
     u64_max - 96 < off ≤ u64_max) ∧
  (u64_max - 96 < off ≤ u64_max →
   decode_revert show_address utf8_lossy (huff_error index target junk (hostile_return off rest)) = Panic).
Proof.
  intros Hi Ht Hj Hu Hr. split.
  - apply abi_decoder_aborts; [zlens; lia|done|]. by apply (word_at []).
  - intros Ho. rewrite decode_huff_error; try done.
    + unfold callee_reason, decode_error_string_prefer.
      change (take 4 (hostile_return off rest)) with SEL_EXTERNAL_CALL_FAILED.
      rewrite bool_decide_eq_false_2 by done. cbn [negb]. by rewrite decode_hostile_return.
    + unfold hostile_return. zlens. change (zlen SEL_EXTERNAL_CALL_FAILED) with 4. unfold u64_max, M64. lia.
Qed.
End hostile.

(** ** Witnesses *)

(** Addresses in lower-case hexadecimal without a prefix. *)
Definition hex_address (a : Address) : string := hex_bytes (be_bytes 20 a).
Definition ascii_text (bytes : list Z) : string :=
  foldr (λ b s, String (ascii_of_N (Z.to_N b)) s) EmptyString bytes.

Lemma be_bytes_bytes n v : Forall (λ b, 0 ≤ b < 256) (be_bytes n v).
Proof.
  revert v. induction n as [|n IH]; intros v; [constructor|]. cbn. apply Forall_app. split; [apply IH|].
  constructor; [apply Z.mod_pos_bound; lia|constructor].
Qed.

Lemma nibble_cases (P : Z → Prop) : Forall P (seqZ 0 16) → ∀ n, 0 ≤ n < 16 → P n.
Proof. intros H n Hn. rewrite Forall_forall in H. apply H, elem_of_seqZ. lia. Qed.

Lemma hex_nibble_spec n :
  0 ≤ n < 16 → hex_digit (hex_nibble n) = Some n ∧ address_char (hex_nibble n) = true.
Proof. revert n. apply nibble_cases. vm_compute. repeat constructor. Qed.

Lemma hex_bytes_spec bytes acc :
  Forall (λ b, 0 ≤ b < 256) bytes →
  parse_hex (2 * length bytes) acc (hex_bytes bytes) = Some (fold_left (λ acc b, acc * 256 + b) bytes acc) ∧
  all_chars address_char (hex_bytes bytes) = true.
Proof.
  intros H. revert acc. induction H as [|b bytes Hb _ IH]; intros acc; [done|].
  assert (0 ≤ b / 16 < 16) as [Hd1 Hc1]%hex_nibble_spec
    by (split; [apply Z.div_pos; lia|apply Z.div_lt_upper_bound; lia]).
  destruct (hex_nibble_spec (b mod 16)) as [Hd2 Hc2]; [apply Z.mod_pos_bound; lia|].
  replace (2 * length (b :: bytes))%nat with (S (S (2 * length bytes))) by (cbn; lia).
  change (hex_bytes (b :: bytes)) with
    (String (hex_nibble (b / 16)) (String (hex_nibble (b mod 16)) (hex_bytes bytes))).
  cbn [parse_hex all_chars fold_left]. rewrite Hd1, Hd2, Hc1, Hc2.
  destruct (IH (acc * 256 + b)) as [IH1 ->]. split; [|done]. rewrite <- IH1. f_equal.
  pose proof (Z.div_mod b 16). lia.
Qed.

Lemma parse_hex_bytes n v :
  0 ≤ v < 256 ^ Z.of_nat n →
  parse_hex (2 * n) 0 (hex_bytes (be_bytes n v)) = Some v ∧ all_chars address_char (hex_bytes (be_bytes n v)) = true.
Proof.
  intros Hv. destruct (hex_bytes_spec (be_bytes n v) 0 (be_bytes_bytes n v)) as [Hp Hc].
  rewrite be_bytes_length in Hp. split; [|done]. rewrite Hp. f_equal. by apply of_be_be_bytes.
Qed.

Lemma parse_hex_address a :
  is_address a → parse_hex 40 0 (hex_address a) = Some a ∧ all_chars address_char (hex_address a) = true.
Proof. intros Ha. apply (parse_hex_bytes 20). unfold is_address in Ha. cbn. lia. Qed.

Lemma hex_address_text : address_text hex_address (parse_hex 40 0).
Proof.
  intros a Ha. apply parse_hex_address in Ha as [Hp Hc]. revert Hp Hc. generalize (hex_address a).
  intros s Hp Hc. split_and!; [done| |done]. by intros ->.
Qed.

Lemma executor_errors_decode_witness :
  decode_revert hex_address ascii_text (huff_error 0 70000 96 (error_string [73; 73; 65] []))
    = Done (Some (ExternalCallFailed 0 70000 "IIA")) ∧
  transfer_failed_token_to_quarantine (parse_hex 40 0)
    (Some (ExternalCallFailed 0 70000 (show_revert hex_address (TransferFailed 80000 90000 5)))) 60000
    = Some 80000.
Proof.
  destruct (executor_errors_decode hex_address ascii_text (parse_hex 40 0) 0 96 5 0 1 70000 80000 90000 60000
    [73; 73; 65] []) as (_ & H & d & _ & -> & _ & Ht).
  1, 2, 5, 6: split; eval_range.
  1, 2: eval_range.
  1-3: eval_range.
  - discriminate.
  - eval_range.
  - discriminate.
  - exact hex_address_text.
  - split; [exact H|]. rewrite Ht. vm_compute. reflexivity.
Defined.

Lemma hostile_revert_aborts_witness :
  decode_revert hex_address ascii_text (huff_error 2 70000 96 (hostile_return (2 ^ 64 - 50) (be_bytes 64 0)))
    = Panic.
Proof.
  destruct (hostile_revert_aborts hex_address ascii_text 2 70000 96 (2 ^ 64 - 50) (be_bytes 64 0)) as [_ H].
  - split; eval_range.
  - split; eval_range.
  - eval_range.
  - eval_range.
  - split; eval_range.
  - apply H. split; eval_range.
Defined.
