(* ===== verification/DryRun.v ===== *)
(** * The dry run

    [src/src/services/execution/dryrun.rs]: a candidate is simulated by the node before it
    is sent.  The node is a parameter: a provider state with [eth_call] and
    [eth_estimateGas], each of which answers, fails with a message or does not answer in
    time; so are the hexadecimal decoder of the library and what [Revert] leaves open.
    [None] inside an answer never occurs; a [Panic] is one of the decoder. *)
From Stdlib Require Import Ascii String.
From stdpp Require Import gmap strings pretty.
From S2P Require Import Prelude Word Types Submit Abi Revert.

Definition MAX_ETH_CALL_GAS : Z := 30000000.
Definition MIN_ETH_CALL_GAS : Z := 500000.
Definition ETH_CALL_SIM_SCALE_BPS : Z := 20000.

(** [clamp(lo, hi)] *)
Definition clamp (lo hi x : Z) : Z := if x <? lo then lo else if hi <? x then hi else x.

Definition eth_call_gas_limit (simulated_gas : Z) : Z :=
  let gas := simulated_gas * ETH_CALL_SIM_SCALE_BPS / 10000 in
  Z.max (clamp MIN_ETH_CALL_GAS MAX_ETH_CALL_GAS gas) simulated_gas.

Record DryRunResult := {
  dr_semantic_success : bool;
  dr_success : bool;
  dr_gas_used : option Z;
  dr_realized_profit : option Z;
  dr_error : option string;
  dr_decoded_revert : option DecodedRevert;
}.

(** A dry run that failed. *)
Definition dry_run_failure (error : string) (decoded : option DecodedRevert) : DryRunResult :=
  {| dr_semantic_success := false; dr_success := false; dr_gas_used := None;
     dr_realized_profit := None; dr_error := Some error; dr_decoded_revert := decoded |}.

(** One that passed. *)
Definition dry_run_pass (gas_used realized_profit : option Z) : DryRunResult :=
  {| dr_semantic_success := true; dr_success := true; dr_gas_used := gas_used;
     dr_realized_profit := realized_profit; dr_error := None; dr_decoded_revert := None |}.

Definition is_acceptable_realized_profit (profit : option Z) : bool :=
  match profit with Some p => negb (is_zero p) | None => false end.

Definition decode_realized_profit (output : list Z) : option Z :=
  if zlen output <? 32 then None else Some (of_be (sub_bytes output (zlen output - 32) (zlen output))).

Record CallRequest := {
  cr_to : Address;
  cr_input : list Z;
  cr_value : Z;
  cr_from : Address;
  cr_gas : option Z;
}.

Definition build_tx (candidate : CandidateExecution) (from : Address) (gas_limit : option Z) : CallRequest :=
  {| cr_to := cd_target_address candidate; cr_input := cd_calldata candidate;
     cr_value := cd_value candidate; cr_from := from; cr_gas := gas_limit |}.

Definition is_gas_limit_rpc_error (msg : string) : bool :=
  (contains msg "gas uint64 overflow" || contains msg "exceeds block gas limit"
   || contains msg "intrinsic gas too high")%bool.

Definition gas_overflow_dry_run_failure : DryRunResult :=
  dry_run_failure "eth_call exceeded gas limit and estimate_gas also failed" None.

Definition gas_overflow_estimate_fallback (realized_profit : Z) : DryRunResult :=
  dry_run_pass None (Some realized_profit).

(** What [timeout(RPC_TIMEOUT, ..)] gives. *)
Inductive RpcAnswer (A : Type) := Answered (a : A) | Refused (msg : string) | NoAnswer.
Arguments Answered {A}.
Arguments Refused {A}.
Arguments NoAnswer {A}.

Definition quote_char : ascii := ascii_of_N 34.
Definition apostrophe : ascii := ascii_of_N 39.

(** The suffix from the first occurrence of [pat]. *)
Fixpoint find_from (pat s : string) : option string :=
  if String.prefix pat s then Some s
  else match s with String _ s => find_from pat s | EmptyString => None end.

Section dry_run.
Context (show_address : Address → string) (utf8_lossy : list Z → string).
(** [alloy::hex::decode(..).ok()] *)
Context (hex_decode : string → option (list Z)).
Context {P : Type}.
Context (eth_call : P → CallRequest → option Z → RpcAnswer (list Z) * P).
Context (eth_estimate_gas : P → CallRequest → option Z → RpcAnswer Z * P).

Definition extract_revert_bytes (raw : string) : option (list Z) :=
  let second :=
    let? tail := find_from "0x" raw in
    let hex := trim_end (Ascii.eqb apostrophe) (trim_end (Ascii.eqb quote_char) tail) in
    let hex := if String.prefix "0x" hex then skip 2 hex else hex in
    hex_decode hex in
  if String.prefix "0x" raw then
    match hex_decode (skip 2 raw) with Some bytes => Some bytes | None => second end
  else second.

Definition try_decode_revert (raw : string) : outcome (option DecodedRevert) :=
  let_some bytes := extract_revert_bytes raw or Done None in
  decode_revert show_address utf8_lossy bytes.

(** An answer as [Result<_, String>]. *)
Definition eth_call_at_block (p : P) (candidate : CandidateExecution) (from : Address)
    (gas_limit simulation_block : option Z) : (list Z + string) * P :=
  let '(answer, p) := eth_call p (build_tx candidate from gas_limit) simulation_block in
  (match answer with
   | Answered output => inl output
   | Refused msg => inr msg
   | NoAnswer => inr "eth_call timed out"
   end, p).

(** The failure of a call, with its decoded revert; [explain] when there is none. *)
Definition call_failed (explain : string → string) (raw : string) : outcome DryRunResult :=
  let! decoded := try_decode_revert raw in
  let reason := match decoded with Some d => show_revert show_address d | None => explain raw end in
  Done (dry_run_failure reason decoded).

Definition dry_run_after_call_gas_overflow (p : P) (candidate : CandidateExecution) (from : Address)
    (simulation_block : option Z) : outcome (DryRunResult * P) :=
  let estimate_cap := eth_call_gas_limit (cd_simulated_gas candidate) in
  let '(answer, p) := eth_estimate_gas p (build_tx candidate from (Some estimate_cap)) simulation_block in
  match answer with
  | Refused err =>
      Done (if is_gas_limit_rpc_error err then gas_overflow_dry_run_failure else dry_run_failure err None, p)
  | NoAnswer => Done (dry_run_failure "estimate_gas timed out after eth_call gas overflow" None, p)
  | Answered gas =>
      let gas := Z.min gas MAX_ETH_CALL_GAS in
      let call_gas := Z.min (gas * 11000) u64_max / 10000 in
      let '(called, p) :=
        eth_call_at_block p candidate from (Some (Z.min call_gas MAX_ETH_CALL_GAS)) simulation_block in
      match called with
      | inl output =>
          let realized_profit := decode_realized_profit output in
          if is_acceptable_realized_profit realized_profit
          then Done (dry_run_pass (Some gas) realized_profit, p)
          else
            Done ({| dr_semantic_success := false; dr_success := false; dr_gas_used := Some gas;
                     dr_realized_profit := None;
                     dr_error := Some "eth_call after gas estimate succeeded but returned no decodable realized profit";
                     dr_decoded_revert := None |}, p)
      | inr raw =>
          if is_gas_limit_rpc_error raw then Done (gas_overflow_dry_run_failure, p)
          else
            let! r := call_failed (λ raw, raw) raw in
            Done (r, p)
      end
  end.

Definition estimate_candidate_gas (p : P) (candidate : CandidateExecution) (from : Address)
    (simulation_block : option Z) : option Z * P :=
  let '(answer, p) := eth_estimate_gas p (build_tx candidate from None) simulation_block in
  (match answer with Answered gas => Some (Z.min gas MAX_ETH_CALL_GAS) | _ => None end, p).

(** The hint that is added to an error that was not decoded. *)
Definition explain_call_error (raw : string) : string :=
  if contains raw "BAL#528" then
    raw +:+ " (insufficient Balancer flash-loan balance — size capped to pool cash)"
  else if contains raw "ApproveFailed" then
    raw +:+ " (Aave/Balancer flash repay needs token balance + pool allowance — check hop approvals)"
  else if contains raw "BalancerVaultReentrancy" then
    raw +:+ " (mixed route: use executeArbWithAave, not executeArb with Balancer vault hops)"
  else if (contains raw ("data: " +:+ String quote_char ("0x" +:+ String quote_char EmptyString))
           || contains raw "data: '0x'")%bool then
    raw +:+ " (bare revert — check entrypoint: pure Balancer→executeArbDirect, mixed→executeArbWithAave, Balancer-only flash→executeArb)"
  else if contains raw "90cd6f24" then
    raw +:+ " (Aave ReserveInactive — token reserve not active for flash loan)"
  else if contains raw "IIA" then
    raw +:+ " (V3/Algebra IIA — callback did not pay pool input token)"
  else raw.

(** [gas_from_estimate] *)
Definition gas_from_estimate (p : P) (candidate : CandidateExecution) (from : Address)
    (simulation_block : option Z) : (Z + string) * P :=
  let cap := eth_call_gas_limit (cd_simulated_gas candidate) in
  let '(answer, p) := eth_estimate_gas p (build_tx candidate from (Some cap)) simulation_block in
  match answer with
  | Answered gas => (inl (Z.min gas MAX_ETH_CALL_GAS), p)
  | Refused err =>
      if is_gas_limit_rpc_error err then
        let '(answer, p) := eth_estimate_gas p (build_tx candidate from None) simulation_block in
        (match answer with
         | Answered gas => inl (Z.min gas MAX_ETH_CALL_GAS)
         | Refused e => inr e
         | NoAnswer => inr "estimate_gas timed out"
         end, p)
      else (inr err, p)
  | NoAnswer => (inr "estimate_gas timed out", p)
  end.

(** The result once the call has returned a profit. *)
Definition dry_run_of_estimate (estimate : Z + string) (realized_profit : option Z) : DryRunResult :=
  match estimate with
  | inl gas => dry_run_pass (Some gas) realized_profit
  | inr msg =>
      if is_gas_limit_rpc_error msg then
        match realized_profit with
        | Some p => if is_zero p then gas_overflow_dry_run_failure else gas_overflow_estimate_fallback p
        | None => gas_overflow_dry_run_failure
        end
      else
        match realized_profit with
        | Some profit =>
            if String.eqb msg "estimate_gas timed out" then gas_overflow_estimate_fallback profit
            else dry_run_failure msg None
        | None => dry_run_failure msg None
        end
  end.

Definition dry_run_candidate (p : P) (candidate : CandidateExecution) (from : Address)
    (simulation_block : option Z) : outcome (DryRunResult * P) :=
  let call_gas := eth_call_gas_limit (cd_simulated_gas candidate) in
  let '(called, p) := eth_call_at_block p candidate from (Some call_gas) simulation_block in
  match called with
  | inr raw =>
      if is_gas_limit_rpc_error raw then dry_run_after_call_gas_overflow p candidate from simulation_block
      else
        let! r := call_failed explain_call_error raw in
        Done (r, p)
  | inl output =>
      let realized_profit := decode_realized_profit output in
      if negb (is_acceptable_realized_profit realized_profit) then
        let error :=
          match realized_profit with
          | Some _ => "eth_call succeeded but on-chain realized profit is zero"
          | None => "eth_call succeeded but returned no decodable realized profit (wrong entrypoint or empty return)"
          end in
        Done ({| dr_semantic_success := false; dr_success := false; dr_gas_used := None;
                 dr_realized_profit := realized_profit; dr_error := Some error;
                 dr_decoded_revert := None |}, p)
      else
        let '(estimate, p) := gas_from_estimate p candidate from simulation_block in
        Done (dry_run_of_estimate estimate realized_profit, p)
  end.

Definition failure_reason (self : DryRunResult) : string :=
  match dr_error self, dr_decoded_revert self with
  | Some e, _ => e
  | None, Some d => show_revert show_address d
  | None, None =>
      if match dr_realized_profit self with Some p => is_zero p | None => false end
      then "eth_call succeeded but on-chain realized profit is zero"
      else if negb (dr_semantic_success self)
      then "dry-run did not produce a decodable realized profit"
      else if bool_decide (dr_realized_profit self = None)
      then "dry-run succeeded but returned no non-zero realized profit"
      else "dry-run failed without RPC error detail"
  end.
End dry_run.

(** ** What a passed dry run says *)

Section spec.
Context (show_address : Address → string) (utf8_lossy : list Z → string).
Context (hex_decode : string → option (list Z)).
Context {P : Type}.
Context (eth_call : P → CallRequest → option Z → RpcAnswer (list Z) * P).
Context (eth_estimate_gas : P → CallRequest → option Z → RpcAnswer Z * P).

Notation dry_run_candidate :=
  (dry_run_candidate show_address utf8_lossy hex_decode eth_call eth_estimate_gas).
Notation dry_run_after_call_gas_overflow :=
  (dry_run_after_call_gas_overflow show_address utf8_lossy hex_decode eth_call eth_estimate_gas).

(** The node returned [profit] for the candidate's own call, at the block, within [cap]. *)
Definition call_returned (candidate : CandidateExecution) (from : Address) (block : option Z)
    (cap profit : Z) : Prop :=
  ∃ p gas output,
    (eth_call p (build_tx candidate from (Some gas)) block).1 = Answered output ∧ gas ≤ cap ∧
    decode_realized_profit output = Some profit.

(** The node estimated [gas] for it. *)
Definition gas_estimated (candidate : CandidateExecution) (from : Address) (block : option Z) (gas : Z) : Prop :=
  ∃ p limit g,
    (eth_estimate_gas p (build_tx candidate from limit) block).1 = Answered g ∧ gas = Z.min g MAX_ETH_CALL_GAS.

Definition result_ok (candidate : CandidateExecution) (from : Address) (block : option Z)
    (r : DryRunResult) : Prop :=
  if dr_success r then
    dr_semantic_success r = true ∧ dr_error r = None ∧
    (∃ profit, dr_realized_profit r = Some profit ∧ profit ≠ 0 ∧
      call_returned candidate from block (eth_call_gas_limit (cd_simulated_gas candidate) `max` MAX_ETH_CALL_GAS) profit) ∧
    (∀ g, dr_gas_used r = Some g → gas_estimated candidate from block g)
  else dr_semantic_success r = false ∧ dr_error r ≠ None.

Lemma failure_ok candidate from block e d : result_ok candidate from block (dry_run_failure e d).
Proof. done. Qed.

Lemma pass_ok candidate from block cap gas profit :
  profit ≠ 0 → call_returned candidate from block cap profit →
  cap ≤ eth_call_gas_limit (cd_simulated_gas candidate) `max` MAX_ETH_CALL_GAS →
  (∀ g, gas = Some g → gas_estimated candidate from block g) →
  result_ok candidate from block (dry_run_pass gas (Some profit)).
Proof.
  intros Hp (p & g & out & Hc & Hg & Ho) Hcap Hgas. unfold result_ok. cbn. split_and!; [done..| |done].
  exists profit. split_and!; [done..|]. exists p, g, out. split_and!; [done|lia|done].
Qed.

Lemma acceptable_profit o : is_acceptable_realized_profit o = true → ∃ p, o = Some p ∧ p ≠ 0.
Proof.
  unfold is_acceptable_realized_profit, is_zero. destruct o as [p|]; [|done]. intros H. exists p. split; [done|].
  by destruct (Z.eqb_spec p 0).
Qed.

Lemma call_failed_ok explain raw candidate from block r :
  call_failed show_address utf8_lossy hex_decode explain raw = Done r → result_ok candidate from block r.
Proof. unfold call_failed. destruct (try_decode_revert _ _ _ raw); [|done]. by intros [= <-]. Qed.

Lemma after_overflow_ok p candidate from block r p' :
  dry_run_after_call_gas_overflow p candidate from block = Done (r, p') → result_ok candidate from block r.
Proof.
  unfold DryRun.dry_run_after_call_gas_overflow.
  destruct (eth_estimate_gas _ _ _) as [[gas|err|] p1] eqn:Ee; [| |by intros [= <- <-]].
  - unfold eth_call_at_block. destruct (eth_call _ _ _) as [[out|raw|] p2] eqn:Ec.
    + destruct (is_acceptable_realized_profit _) eqn:Ea; [|by intros [= <- <-]].
      apply acceptable_profit in Ea as (profit & Hp & Hne). rewrite Hp. intros [= <- <-].
      apply (pass_ok _ _ _ MAX_ETH_CALL_GAS); [done| |lia|].
      * eexists _, _, out. rewrite Ec. split_and!; [done|lia|done].
      * intros g [= <-]. eexists _, _, gas. by rewrite Ee.
    + destruct (is_gas_limit_rpc_error raw); [by intros [= <- <-]|].
      destruct (call_failed _ _ _ _ _) eqn:Ef; [|done]. intros [= <- <-]. by eapply call_failed_ok.
    + destruct (is_gas_limit_rpc_error _); [by intros [= <- <-]|].
      destruct (call_failed _ _ _ _ _) eqn:Ef; [|done]. intros [= <- <-]. by eapply call_failed_ok.
  - intros [= <- <-]. by destruct (is_gas_limit_rpc_error err).
Qed.

Lemma gas_from_estimate_ok p candidate from block g p' :
  gas_from_estimate eth_estimate_gas p candidate from block = (inl g, p') → gas_estimated candidate from block g.
Proof.
  unfold gas_from_estimate. destruct (eth_estimate_gas p _ _) as [[gas|err|] p1] eqn:Ee; [| |done].
  - intros [= <- <-]. eexists _, _, gas. by rewrite Ee.
  - destruct (is_gas_limit_rpc_error err); [|done].
    destruct (eth_estimate_gas p1 _ _) as [[gas|e|] p2] eqn:Ee2; [|done..].
    intros [= <- <-]. eexists _, _, gas. by rewrite Ee2.
Qed.

(** C7: A dry run passes only on a profit the node computed.  When it is successful, the realized
    profit is not zero and is the last word that the candidate's own call, with its value, to
    its target, from the operator and at the given block, returned under a gas cap; the
    gas used, when there is one, is the node's own estimate for that call, at most the block
    gas limit; otherwise it is a failure on every count and carries an error. *)
Theorem dry_run_result_sound (p p' : P) (candidate : CandidateExecution) (from : Address)
    (block : option Z) (r : DryRunResult) :
  dry_run_candidate p candidate from block = Done (r, p') → result_ok candidate from block r.
Proof.
  unfold DryRun.dry_run_candidate, eth_call_at_block.
  destruct (eth_call _ _ _) as [answer p1] eqn:Ec.
  assert (∀ raw, (if is_gas_limit_rpc_error raw then dry_run_after_call_gas_overflow p1 candidate from block
    else let! r := call_failed show_address utf8_lossy hex_decode explain_call_error raw in Done (r, p1))
    = Done (r, p') → result_ok candidate from block r) as Herr.
  { intros raw. destruct (is_gas_limit_rpc_error raw); [apply after_overflow_ok|].
    destruct (call_failed _ _ _ _ _) eqn:Ef; [|done]. intros [= <- <-]. by eapply call_failed_ok. }
  destruct answer as [out|raw|]; [|apply Herr..].
  destruct (is_acceptable_realized_profit _) eqn:Ea; cbn [negb]; [|by intros [= <- <-]].
  apply acceptable_profit in Ea as (profit & Hp & Hne). rewrite Hp.
  destruct (gas_from_estimate _ _ _ _ _) as [estimate p2] eqn:Eg. intros [= <- <-].
  assert (∀ gas, (∀ g, gas = Some g → gas_estimated candidate from block g) →
    result_ok candidate from block (dry_run_pass gas (Some profit))) as Hpass.
  { intros gas. apply (pass_ok _ _ _ (eth_call_gas_limit (cd_simulated_gas candidate))); [done| |lia].
    eexists _, _, out. rewrite Ec. split_and!; [done|lia|done]. }
  unfold dry_run_of_estimate, is_zero. destruct estimate as [gas|msg].
  - apply Hpass. intros g [= <-]. by eapply gas_from_estimate_ok.
  - destruct (is_gas_limit_rpc_error msg); [destruct (profit =? 0); [done|by apply Hpass]|].
    destruct (String.eqb msg _); [by apply Hpass|done].
Qed.
End spec.

(** ** Size failures *)

Lemma prefix_iff pat s : String.prefix pat s = true ↔ ∃ post, s = pat +:+ post.
Proof.
  revert s. induction pat as [|a pat IH]; intros s.
  - split; [by exists s|]. by destruct s.
  - destruct s as [|b s]; [split; [done|intros (post & H); discriminate H]|].
    change (String.prefix (String a pat) (String b s)) with (if ascii_dec a b then String.prefix pat s else false).
    destruct (ascii_dec a b) as [<-|Hne].
    + rewrite IH. split; intros (post & H); exists post; [by rewrite H|by injection H].
    + split; [done|]. intros (post & H). by injection H.
Qed.

Lemma contains_iff s pat : contains s pat = true ↔ ∃ pre post, s = pre +:+ pat +:+ post.
Proof.
  induction s as [|a s IH].
  - cbn [contains]. rewrite orb_false_r, prefix_iff. split.
    + intros (post & H). by exists EmptyString, post.
    + intros ([|b pre] & post & H); [by exists post|discriminate H].
  - cbn [contains]. rewrite orb_true_iff, prefix_iff, IH. split.
    + intros [(post & H)|(pre & post & H)]; [by exists EmptyString, post|].
      exists (String a pre), post. by rewrite H.
    + intros ([|b pre] & post & H); [left; by exists post|]. right. injection H as -> ->. by exists pre, post.
Qed.

Lemma string_app_assoc (a b c : string) : (a +:+ b) +:+ c = a +:+ b +:+ c.
Proof. induction a as [|x a IH]; [done|]. exact (f_equal (String x) IH). Qed.

Lemma contains_app_l a b pat : contains a pat = true → contains (a +:+ b) pat = true.
Proof.
  rewrite !contains_iff. intros (pre & post & ->). exists pre, (post +:+ b). by rewrite !string_app_assoc.
Qed.

Lemma contains_app_r a b pat : contains b pat = true → contains (a +:+ b) pat = true.
Proof.
  rewrite !contains_iff. intros (pre & post & ->). exists (a +:+ pre), post. by rewrite string_app_assoc.
Qed.

Lemma lowercase_app a b : to_ascii_lowercase (a +:+ b) = to_ascii_lowercase a +:+ to_ascii_lowercase b.
Proof. induction a as [|x a IH]; [done|]. exact (f_equal (String (lower x)) IH). Qed.

Lemma contains_lowercase s pat :
  contains s pat = true → contains (to_ascii_lowercase s) (to_ascii_lowercase pat) = true.
Proof.
  rewrite !contains_iff. intros (pre & post & ->). exists (to_ascii_lowercase pre), (to_ascii_lowercase post).
  by rewrite !lowercase_app.
Qed.

Lemma size_failure_of_code s : contains s "BAL#528" = true → flash_size_failure_reason s = true.
Proof. intros H%contains_lowercase. change (to_ascii_lowercase "BAL#528") with "bal#528" in H. unfold flash_size_failure_reason. by rewrite H. Qed.

(** A loan that the vault cannot pay is told from other failures.  Whether the vault's code
    [BAL#528] is in the node's message or in the reason of the decoded revert, the reason of
    the failed dry run is one that lowers the route's learned flash-loan cap. *)
Theorem vault_shortfall_lowers_cap (show_address : Address → string) (utf8_lossy : list Z → string)
    (hex_decode : string → option (list Z)) (raw : string) (r : DryRunResult) :
  call_failed show_address utf8_lossy hex_decode explain_call_error raw = Done r →
  match try_decode_revert show_address utf8_lossy hex_decode raw with
  | Done (Some (ExternalCallFailed _ _ reason)) => contains reason "BAL#528" = true
  | Done None => contains raw "BAL#528" = true
  | _ => False
  end →
  flash_size_failure_reason (failure_reason show_address r) = true.
Proof.
  unfold call_failed. destruct (try_decode_revert _ _ _ raw) as [[d|]|]; [|..]; cbn [obind]; [| |done].
  - intros [= <-]. destruct d; try done. intros H. apply size_failure_of_code. cbn.
    by repeat apply contains_app_r.
  - intros [= <-] H. apply size_failure_of_code. cbn. unfold explain_call_error. rewrite H.
    by apply contains_app_l.
Qed.

(** ** Witnesses *)

(** A node that answers every call with a profit of seven. *)
Definition demo_call (p : unit) (tx : CallRequest) (block : option Z) : RpcAnswer (list Z) * unit :=
  (Answered (be_bytes 32 7), p).
Definition demo_estimate (p : unit) (tx : CallRequest) (block : option Z) : RpcAnswer Z * unit :=
  (Answered 250000, p).
Definition no_hex (s : string) : option (list Z) := None.

Lemma dry_run_result_sound_witness :
  match dry_run_candidate hex_address ascii_text no_hex demo_call demo_estimate tt demo_candidate 5 (Some 9) with
  | Done (r, _) => dr_realized_profit r = Some 7 ∧
      result_ok demo_call demo_estimate demo_candidate 5 (Some 9) r
  | Panic => False
  end.
Proof.
  destruct (dry_run_candidate hex_address ascii_text no_hex demo_call demo_estimate tt demo_candidate 5 (Some 9))
    as [[r []]|] eqn:E; [|vm_compute in E; discriminate E].
  split; [vm_compute in E; injection E as <-; reflexivity|].
  exact (dry_run_result_sound hex_address ascii_text no_hex demo_call demo_estimate tt tt demo_candidate 5 (Some 9) r E).
Defined.

Lemma vault_shortfall_lowers_cap_witness :
  match call_failed hex_address ascii_text no_hex explain_call_error "execution reverted: BAL#528" with
  | Done r => flash_size_failure_reason (failure_reason hex_address r) = true
  | Panic => False
  end.
Proof.
  destruct (call_failed hex_address ascii_text no_hex explain_call_error "execution reverted: BAL#528") as [r|] eqn:E;
    [|vm_compute in E; discriminate E].
  apply (vault_shortfall_lowers_cap hex_address ascii_text no_hex "execution reverted: BAL#528" r E).
  vm_compute. reflexivity.
Defined.
