(* ===== verification/Dispatch.v ===== *)
(** * Dispatching a candidate

    [ExecutionService::process_candidate] of [src/src/services/execution/service.rs], from
    the admission gates to the settled trade: gates on the state of the service, the dry
    run, what a failed dry run teaches, gas and fees, the second assessment, the gates of a
    live submission, and then [Settle.submit_and_settle].  [Candidate] builds what comes in.

    The network is a parameter, as in [Settle] and [DryRun]; one provider state stands for
    the simulation node, the submission node and the operating system.  The readings of the
    clock are fields of [DispatchClock].  Log lines, metrics and the interface hook are left
    out; [min_operator_matic_wei] of the configuration comes parsed. *)
From Stdlib Require Import Ascii String.
From stdpp Require Import gmap strings pretty.
From S2P Require Import Prelude Word Types Gas Profit GasOracle Arena TokenRates Risk Pnl Nonce Submit.
From S2P Require Import Settle FlashLiquidity Assess Abi Revert DryRun.

Definition CHAIN_HEAD_RPC_TIMEOUT_MS : Z := 1500.

(** The fields of [AppConfig] that are read. *)
Record DispatchConfig := {
  dx_is_dry_run : bool;
  dx_profit_priority_fee_alpha_bps : Z;
  dx_max_global_consecutive_failures : Z;
  dx_min_operator_matic_wei : option Z;
}.

(** The readings of the clock, in the order of the code: the global stop, [now], the
    route-hash and token cool-downs; in a failed dry run the Aave pin and the two token
    cool-downs; the wall clock of the gas snapshot; the three of the mempool gate; those of
    [Settle]. *)
Record DispatchClock := {
  dc_global : Z;
  dc_now : Z;
  dc_hash : Z;
  dc_token : Z;
  dc_aave : Z;
  dc_zero_realized : Z;
  dc_transfer_failed : Z;
  dc_now_ms : Z;
  dc_mempool : Z * Z * Z;
  dc_settle : Clock;
}.

(** The state of the service, the flash-liquidity cache and the nonce manager it shares. *)
Record Dispatcher := {
  di_service : Service;
  di_flash : FlashLiquidityCache;
  di_nonce : option (Address * NonceManager);
}.

Definition with_service (f : Service → Service) (d : Dispatcher) : Dispatcher :=
  {| di_service := f (di_service d); di_flash := di_flash d; di_nonce := di_nonce d |}.
Definition with_route_risk (f : ExecutionService → ExecutionService) : Dispatcher → Dispatcher :=
  with_service (with_risk f).
Definition with_flash (f : FlashLiquidityCache → FlashLiquidityCache) (d : Dispatcher) : Dispatcher :=
  {| di_service := di_service d; di_flash := f (di_flash d); di_nonce := di_nonce d |}.
Definition set_nonce (n : option (Address * NonceManager)) (d : Dispatcher) : Dispatcher :=
  {| di_service := di_service d; di_flash := di_flash d; di_nonce := n |}.
Definition set_mempool_nonce_cache (cache : option (Z * Z * Z)) (s : Service) : Service :=
  {| sv_risk := sv_risk s; sv_books := sv_books s; sv_gas := sv_gas s;
     sv_last_global_submit := sv_last_global_submit s; sv_mempool_nonce_cache := cache |}.

Definition candidate_matches_state_generation (candidate : CandidateExecution) (generation : Z) : bool :=
  cd_state_generation candidate <=? generation.

Definition min_operator_balance_wei (config : DispatchConfig) : option Z :=
  let? v := dx_min_operator_matic_wei config in if is_zero v then None else Some v.

Definition required_operator_balance (config : DispatchConfig)
    (transaction_value gas_limit max_fee_per_gas : Z) : option Z :=
  let? gas_budget := checked_mul gas_limit max_fee_per_gas in
  let? with_value := checked_add gas_budget transaction_value in
  checked_add with_value (default 0 (min_operator_balance_wei config)).

(** ** Admission *)

Section candidate.
Context (config : DispatchConfig) (ck : DispatchClock) (candidate : CandidateExecution)
  (operator : Address).

Let edges : list Edge := cd_route_edges candidate.
Let fp : Z := cd_route_fingerprint candidate.
Let now : Z := dc_now ck.
Let prune : Z := ck_prune (dc_settle ck).

Definition learned_floor (s : Service) : Z :=
  saturating_mul (cd_min_profit_matic_wei candidate) (route_risk_multiplier_bps edges (sv_risk s)) / 10000.

(** The gates before the block number is known; [Some] is the outcome. *)
Definition admission_gates (generation expected_block : Z) (expected_hash : option Z) (shut : bool)
    (s : Service) : option ExecutionOutcome :=
  if shut then Some SkippedShutdown
  else if global_is_quarantined (dc_global ck) (sv_books s) then Some SkippedCircuitBreaker
  else if negb (candidate_matches_state_generation candidate generation)
  then Some (SubmitFailed "candidate state generation mismatch")
  else if (negb (cd_state_block candidate =? expected_block)
           || negb (bool_decide (cd_state_hash candidate = expected_hash)))%bool
  then Some (SubmitFailed "candidate state provenance mismatch")
  else if cd_expected_profit_matic_wei candidate <? learned_floor s
  then Some SkippedUnprofitablePreDryRun
  else None.

Definition provenance_block (expected_block : Z) : Z := Z.max (cd_state_block candidate) expected_block.

Definition simulation_block (expected_block chain_head : Z) : Z :=
  let provenance := provenance_block expected_block in
  if 0 <? provenance then Z.min provenance chain_head else chain_head.

(** The gates after it: cool-downs of the route, its hash and its start token. *)
Definition cooldown_gates (s : Service) : option ExecutionOutcome :=
  let risk := sv_risk s in
  if active (es_quarantine risk) now edges then Some SkippedQuarantined
  else if is_route_hash_quarantined (cd_route_hash candidate) (dc_hash ck) risk
  then Some SkippedQuarantined
  else if is_direct_token_quarantined (cd_profit_token candidate) (dc_token ck) risk
  then Some SkippedQuarantined
  else if is_route_on_cooldown edges (dx_is_dry_run config) now risk
  then Some SkippedCooldown
  else None.

(** ** A failed dry run *)

Definition transfer_all_funding_miss (dry : DryRunResult) : bool :=
  match dr_decoded_revert dry with
  | Some (ExternalCallFailed _ target reason) =>
      ((target =? cd_target_address candidate)
       && (contains reason "empty nested revert" || contains reason "transferAll zero balance"))%bool
  | _ => false
  end.

Definition is_external_call_failed (dry : DryRunResult) : bool :=
  match dr_decoded_revert dry with Some (ExternalCallFailed _ _ _) => true | _ => false end.
Definition is_transfer_failed (dry : DryRunResult) : bool :=
  match dr_decoded_revert dry with Some (TransferFailed _ _ _) => true | _ => false end.
Definition is_zero_final_balance (dry : DryRunResult) : bool :=
  match dr_decoded_revert dry with Some (InsufficientProfit final _) => is_zero final | _ => false end.
Definition is_aave_reserve_inactive (dry : DryRunResult) : bool :=
  match dr_decoded_revert dry with Some AaveReserveInactive => true | _ => false end.

Definition sim_fidelity_miss (dry : DryRunResult) : bool :=
  (transfer_all_funding_miss dry || is_mid_hop_transfer_underfund (dr_decoded_revert dry)
   || is_zero_final_balance dry)%bool.

Section failed.
Context (show_address : Address → string) (parse_address : string → option Address).

(** The reason in the outcome. *)
Definition dry_run_reason (dry : DryRunResult) : string :=
  let reason := failure_reason show_address dry in
  match dr_decoded_revert dry with
  | Some (ExternalCallFailed index _ r) =>
      if transfer_all_funding_miss dry then
        "transferAll zero balance at packed call " +:+ pretty index +:+
          " (prior hop left no intermediate on executor; often Curve/DODO→V2 after under-delivery or index mismatch)"
      else if is_mid_hop_transfer_underfund (dr_decoded_revert dry) then
        "mid-hop transfer underfund at packed call " +:+ pretty index +:+
          " (prior hop delivered less than chain_in; " +:+ r +:+ ")"
      else reason
  | _ => reason
  end.

(** The cool-downs of an [ExternalCallFailed] or [TransferFailed]. *)
Definition call_failure_cooldowns (dry : DryRunResult) (d : Dispatcher) : Dispatcher :=
  if (is_external_call_failed dry || is_transfer_failed dry)%bool then
    let underfund := is_mid_hop_transfer_underfund (dr_decoded_revert dry) in
    let d :=
      if (is_external_call_failed dry && negb (transfer_all_funding_miss dry) && negb underfund)%bool then
        with_route_risk (λ r,
          quarantine_insert edges (now + STRUCTURAL_DRY_RUN_QUARANTINE) prune
            (quarantine_route_hash (cd_route_hash candidate) now r)) d
      else d in
    if underfund then d
    else
      match transfer_failed_token_to_quarantine parse_address (dr_decoded_revert dry)
              (cd_profit_token candidate) with
      | Some token =>
          with_route_risk (quarantine_direct_token_zero_realized token (dc_transfer_failed ck)) d
      | None => d
      end
  else d.

Definition dry_run_failed (dry : DryRunResult) (d : Dispatcher) : ExecutionOutcome * Dispatcher :=
  let d :=
    if is_aave_reserve_inactive dry
    then with_flash (mark_aave_inactive (dc_aave ck) (cd_profit_token candidate)) d else d in
  let d :=
    if (bool_decide (cd_flash_loan_source candidate = FDirect)
        && match dr_realized_profit dry with Some p => is_zero p | None => false end
        && negb (is_polygon_hub_token (cd_profit_token candidate)))%bool
    then with_route_risk
           (quarantine_direct_token_zero_realized (cd_profit_token candidate) (dc_zero_realized ck)) d
    else d in
  let d :=
    if sim_fidelity_miss dry then with_route_risk (quarantine_route_soft edges now prune) d
    else with_route_risk (quarantine_route edges fp now DryRun prune) d in
  let d := call_failure_cooldowns dry d in
  let reason := dry_run_reason dry in
  let d :=
    if (cd_adaptive_flash_cap_bound candidate && flash_size_failure_reason reason)%bool then
      with_route_risk (λ r, (demote_adaptive_flash_loan_cap edges fp
                               (cd_adaptive_flash_loan_usd_limit candidate) r).2) d
    else d in
  (DryRunFailed reason, d).
End failed.

(** ** A passed dry run: gas, fees and the second assessment *)

Definition nonzero (o : option Z) : option Z := let? v := o in if is_zero v then None else Some v.

Definition tip_profit (realized_profit : option Z) : Z :=
  let realized :=
    nonzero (let? p := realized_profit in
             token_profit_to_matic_wei p (cd_token_to_matic_rate candidate) (cd_token_decimals candidate)) in
  match realized with
  | Some p => p
  | None =>
      default (cd_expected_profit_matic_wei candidate) (nonzero (Some (cd_priority_bid_basis_matic_wei candidate)))
  end.

Definition tip_gas_units (dry : DryRunResult) (prior_observed_gas : option Z) : Z :=
  let positive (o : option Z) : option Z := let? g := o in if 0 <? g then Some g else None in
  let units :=
    match positive (dr_gas_used dry) with
    | Some g => g
    | None => default (Z.max (cd_simulated_gas candidate) 1) (positive prior_observed_gas)
    end in
  Z.max units 1.

Record Priced := { pr_gas_used : Z; pr_final_gas : Z; pr_fees : SubmitFees; pr_assessment : ProfitAssessment }.

Definition dry_run_gas_unknown (reason : string) (d : Dispatcher) : (ExecutionOutcome + Priced) * Dispatcher :=
  (inl (DryRunFailed reason), with_route_risk (quarantine_route edges fp now DryRun prune) d).

(** The pricing after the gas limit is picked; [observed] is the history before the dry run. *)
Definition price_and_reassess (flash_fees : FlashFees) (dry : DryRunResult) (realized_profit : option Z)
    (observed : option Z) (gas_used final_gas floor : Z) (d : Dispatcher)
  : (ExecutionOutcome + Priced) * Dispatcher :=
  let oracle := sv_gas (di_service d) in
  let fallback := bool_decide (dr_gas_used dry = None) in
  match resolve_submit_fees_with_profit oracle (tip_profit realized_profit)
          (dx_profit_priority_fee_alpha_bps config) (tip_gas_units dry observed) with
  | None => (inl (SubmitFailed "gas oracle has no snapshot for fee resolution"), d)
  | Some fees =>
      match go_snapshot oracle with
      | None => (inl (SubmitFailed "gas oracle has no snapshot for fee reassess"), d)
      | Some snap =>
          let gas_price := expected_submit_gas_price (base_fee snap) fees in
          let profit_gas :=
            profit_reassess_gas observed (cd_simulated_gas candidate) (dr_gas_used dry) fallback
              (sim_scale_bps oracle) in
          match reassess_assessment flash_fees candidate profit_gas gas_price floor realized_profit 0 with
          | Some assessment =>
              if should_execute assessment then
                (inr {| pr_gas_used := gas_used; pr_final_gas := final_gas; pr_fees := fees;
                        pr_assessment := assessment |},
                 with_route_risk (record_route_dry_run_pass edges fp) d)
              else (inl SkippedUnprofitableAfterDryRun, d)
          | None => (inl SkippedUnprofitableAfterDryRun, d)
          end
      end
  end.

Definition dry_run_passed (flash_fees : FlashFees) (dry : DryRunResult) (realized_profit : option Z)
    (floor : Z) (d : Dispatcher) : (ExecutionOutcome + Priced) * Dispatcher :=
  let oracle := sv_gas (di_service d) in
  let simulated_gas := cd_simulated_gas candidate in
  let observed := observed_route_gas oracle edges in
  let gas_used := submit_gas_basis observed (sim_scale_bps oracle) simulated_gas (dr_gas_used dry) in
  if gas_used =? 0 then dry_run_gas_unknown "dry-run passed but gas estimate is zero" d
  else
    let fallback := bool_decide (dr_gas_used dry = None) in
    let d :=
      if fallback then d
      else
        with_service (with_gas (λ o,
          let o := record_sim_observed simulated_gas gas_used o in
          if 0 <? gas_used then record_route_gas edges (gas_u32 gas_used) o else o)) d in
    let final_gas :=
      if fallback then pick_live_gas_limit_with_buffer simulated_gas gas_used GAS_FALLBACK_BUFFER_BPS
      else pick_live_gas_limit simulated_gas gas_used in
    match final_gas with
    | None => dry_run_gas_unknown "dry-run passed but gas estimate is zero" d
    | Some final_gas =>
        price_and_reassess flash_fees dry realized_profit observed gas_used final_gas floor d
    end.

Definition mark_submitted (d : Dispatcher) : Dispatcher :=
  with_route_risk (λ r, set_last_submit (<[edges := now]> (es_last_submit r)) r) d.
End candidate.

(** ** The whole of [process_candidate] *)

(** [{o:?}] *)
Definition debug_option (o : option Z) : string :=
  match o with Some n => "Some(" +:+ pretty n +:+ ")" | None => "None" end.

Section process.
Context (show_address : Address → string) (parse_address : string → option Address).
Context (utf8_lossy : list Z → string) (hex_decode : string → option (list Z)).
Context {P : Type}.
(** The simulation node. *)
Context (eth_call : P → CallRequest → option Z → RpcAnswer (list Z) * P).
Context (eth_estimate_gas : P → CallRequest → option Z → RpcAnswer Z * P).
Context (get_block_number : P → RpcAnswer Z * P).
Context (get_balance : P → Address → (Z + string) * P).
(** The wallet and the submission node: [connect_submit_checked], the operator's latest and
    pending nonce as one answer, and what [Settle] uses. *)
Context (has_signer : bool) (connect_submit_checked : P → bool * P).
Context (operator_nonces : P → Address → (Z + string) * (Z + string) * P).
Context (submit_transaction : P → TransactionRequest → (Z + string) * P).
Context (pending_nonce : P → (Z + string) * P).
Context (get_transaction_receipt : P → Z → (option ReceiptData + string) * P).
Context (get_transaction_by_hash : P → Z → (bool + string) * P).
Context (instant : P → Z) (shutdown : P → bool) (sleep : P → Z → bool * P).
Context (encode_transfer_all : Address → Address → list Z) (conversion_error : string).
Context (timeout poll_interval : Z) (profit_recipient : option Address) (private_error : option string).
Context (flash_fees : FlashFees).

Section candidate.
Context (config : DispatchConfig) (ck : DispatchClock) (candidate : CandidateExecution)
  (operator : Address).

Definition Step (A : Type) : Type := (ExecutionOutcome + A) * Dispatcher * P.

(** The block the simulation node stands at. *)
Definition read_chain_head (hint : option Z) (p : P) : (ExecutionOutcome + Z) * P :=
  match hint with
  | Some head => (inr head, p)
  | None =>
      let '(answer, p) := get_block_number p in
      (match answer with
       | Answered block => inr block
       | Refused e => inl (SubmitFailed ("cannot establish simulation block: " +:+ e))
       | NoAnswer =>
           inl (SubmitFailed ("cannot establish simulation block: eth_blockNumber timed out after "
                                +:+ pretty CHAIN_HEAD_RPC_TIMEOUT_MS +:+ "ms"))
       end, p)
  end.

(** [operator_mempool_clear]: the nonces are read only when the cache is stale. *)
Definition mempool_gate (d : Dispatcher) (p : P) : ((bool * bool) + string) * Dispatcher * P :=
  let s := di_service d in
  let '(t, t_check, t_store) := dc_mempool ck in
  let gate := operator_mempool_clear (sv_mempool_nonce_cache s) (sv_last_global_submit s) t t_check t_store in
  match (gate None None).1 with
  | Some status => (inl status, d, p)
  | None =>
      let '(latest, pending, p) := operator_nonces p operator in
      let '(status, cache) := gate (rpc_ok latest) (rpc_ok pending) in
      (match status, latest, pending with
       | Some status, _, _ => inl status
       | None, inr e, _ => inr ("failed to read latest operator nonce: " +:+ e)
       | None, inl _, inr e => inr ("failed to read pending operator nonce: " +:+ e)
       | None, inl _, inl _ => inr EmptyString
       end, with_service (set_mempool_nonce_cache cache) d, p)
  end.

Definition ensure_nonce_manager (d : Dispatcher) (p : P) : (NonceManager + string) * Dispatcher * P :=
  let fresh :=
    let '(read, p) := pending_nonce p in
    match read with
    | inl nonce =>
        let mgr := (initialize (Some nonce) (Nonce.new operator)).2 in
        (inl mgr, set_nonce (Some (operator, mgr)) d, p)
    | inr e => (inr e, d, p)
    end in
  match di_nonce d with
  | Some (addr, mgr) => if addr =? operator then (inl mgr, d, p) else fresh
  | None => fresh
  end.

(** The signer, the submission node and the pending transactions; the boolean is
    [pending_ahead]. *)
Definition connect_gates (d : Dispatcher) (p : P) : Step bool :=
  if bool_decide (conservative_gas_price_for_live_submit (dc_now_ms ck) (sv_gas (di_service d)) = None)
  then (inl (SubmitFailed ("gas fee snapshot not fresh for live submit (age_ms=" +:+
               debug_option (snapshot_age_ms (dc_now_ms ck) (sv_gas (di_service d))) +:+ ")")), d, p)
  else if negb has_signer then (inl SkippedNoWallet, d, p)
  else
    let '(connected, p) := connect_submit_checked p in
    if negb connected then (inl SkippedNoPrivateRpc, d, p)
    else
      let '(gate, d, p) := mempool_gate d p in
      match gate with
      | inr e => (inl (SubmitFailed e), d, p)
      | inl (clear, pending_ahead) =>
          if negb clear then (inl SkippedCooldown, d, p)
          else if shutdown p then (inl SkippedShutdown, d, p)
          else (inr pending_ahead, d, p)
      end.

(** The circuit breaker, the balance and the lag of the head. *)
Definition funding_gates (fees : SubmitFees) (final_gas chain_head block : Z) (d : Dispatcher) (p : P) : Step unit :=
  let books := sv_books (di_service d) in
  if dx_max_global_consecutive_failures config <=? bk_consecutive_fails books then
    (inl SkippedCircuitBreaker,
     with_service (with_books (λ b,
       let b := quarantine_global (secs 60) (dc_now ck) b in
       set_counters (bk_total_trades b) (bk_total_losses b) 0 b)) d, p)
  else
    match required_operator_balance config (cd_value candidate) final_gas (sf_max_fee_per_gas fees) with
    | None => (inl (SubmitFailed "operator balance requirement overflow"), d, p)
    | Some required =>
        let '(balance, p) := get_balance p operator in
        match balance with
        | inr e => (inl (SubmitFailed ("operator balance check failed: " +:+ e)), d, p)
        | inl balance =>
            if balance <? required then (inl SkippedInsufficientBalance, d, p)
            else
              let '(answer, p) := get_block_number p in
              match answer with
              | Answered head =>
                  if head <=? Z.min (chain_head + 1) u64_max then (inr tt, d, p)
                  else
                    (inl (SubmitFailed ("candidate stale: dry-run head " +:+ pretty chain_head +:+
                                          " (sim block " +:+ pretty block +:+ "), now " +:+ pretty head)), d, p)
              | Refused e => (inl (SubmitFailed ("pre-submit head check failed: " +:+ e)), d, p)
              | NoAnswer =>
                  (inl (SubmitFailed ("pre-submit head check timed out after "
                                        +:+ pretty CHAIN_HEAD_RPC_TIMEOUT_MS +:+ "ms")), d, p)
              end
        end
    end.

(** From the nonce manager to the books. *)
Definition send (priced : Priced) (pending_ahead : bool) (d : Dispatcher) (p : P)
  : option (ExecutionOutcome * Dispatcher * P) :=
  let '(mgr, d, p) := ensure_nonce_manager d p in
  match mgr with
  | inr e => Some (SubmitFailed ("nonce init failed: " +:+ e), d, p)
  | inl mgr =>
      let? r :=
        submit_and_settle submit_transaction pending_nonce get_transaction_receipt get_transaction_by_hash
          instant shutdown sleep encode_transfer_all conversion_error timeout poll_interval
          profit_recipient (cd_route_fingerprint candidate) (dc_now ck) (dc_settle ck) candidate operator
          (pr_fees priced) (pr_final_gas priced) pending_ahead private_error mgr (di_service d) p in
      Some (Settle.pr_outcome r,
            {| di_service := pr_service r; di_flash := di_flash d; di_nonce := Some (operator, pr_mgr r) |},
            pr_provider r)
  end.

(** Everything after a dry run that passed. *)
Definition live_stage (priced : Priced) (chain_head block : Z) (d : Dispatcher) (p : P)
  : option (ExecutionOutcome * Dispatcher * P) :=
  if dx_is_dry_run config then
    Some (DryRunPassed (pr_gas_used priced), mark_submitted ck candidate d, p)
  else
    let '(connected, d, p) := connect_gates d p in
    match connected with
    | inl outcome => Some (outcome, d, p)
    | inr pending_ahead =>
        let '(funded, d, p) := funding_gates (pr_fees priced) (pr_final_gas priced) chain_head block d p in
        match funded with
        | inl outcome => Some (outcome, d, p)
        | inr tt => send priced pending_ahead d p
        end
    end.

(** [realized_profit] after the filter, when the dry run counts as passed. *)
Definition dry_run_profit (dry : DryRunResult) : option Z :=
  if (dr_success dry && dr_semantic_success dry)%bool then nonzero (dr_realized_profit dry) else None.

(** [Done None] is out of fuel, which [Settle] rules out. *)
Definition process_candidate (generation expected_block : Z) (expected_hash : option Z)
    (chain_head_hint : option Z) (d : Dispatcher) (p : P)
  : outcome (option (ExecutionOutcome * Dispatcher * P)) :=
  let s := di_service d in
  match admission_gates ck candidate generation expected_block expected_hash (shutdown p) s with
  | Some outcome => Prelude.Done (Some (outcome, d, p))
  | None =>
      let floor := learned_floor candidate s in
      let '(head, p) := read_chain_head chain_head_hint p in
      match head with
      | inl outcome => Prelude.Done (Some (outcome, d, p))
      | inr chain_head =>
          match cooldown_gates config ck candidate s with
          | Some outcome => Prelude.Done (Some (outcome, d, p))
          | None =>
              let block := simulation_block candidate expected_block chain_head in
              let! run :=
                dry_run_candidate show_address utf8_lossy hex_decode eth_call eth_estimate_gas p
                  candidate operator (Some block) in
              let '(dry, p) := run in
              match dry_run_profit dry with
              | None =>
                  let '(outcome, d) := dry_run_failed ck candidate show_address parse_address dry d in
                  Prelude.Done (Some (outcome, d, p))
              | Some profit =>
                  let '(priced, d) :=
                    dry_run_passed config ck candidate flash_fees dry (Some profit) floor d in
                  Prelude.Done
                    (match priced with
                     | inl outcome => Some (outcome, d, p)
                     | inr priced => live_stage priced chain_head block d p
                     end)
              end
          end
      end
  end.
End candidate.
End process.

(** ** Stages *)

(** The outcomes of a transaction that was accepted by the network. *)
Definition was_sent (outcome : ExecutionOutcome) : bool :=
  match outcome with Confirmed _ _ _ | Reverted _ _ | ReceiptTimeout _ => true | _ => false end.

Definition is_dry_run_failed (outcome : ExecutionOutcome) : bool :=
  match outcome with DryRunFailed _ => true | _ => false end.

(** The candidate is admitted: fresh, of the expected block, worth the learned floor, and
    neither it, its hash nor its token is cooling down. *)
Record admitted (config : DispatchConfig) (ck : DispatchClock) (candidate : CandidateExecution)
    (generation expected_block : Z) (expected_hash : option Z) (s : Service) : Prop := {
  ad_running : global_is_quarantined (dc_global ck) (sv_books s) = false;
  ad_generation : cd_state_generation candidate ≤ generation;
  ad_block : cd_state_block candidate = expected_block;
  ad_hash : cd_state_hash candidate = expected_hash;
  ad_floor : learned_floor candidate s ≤ cd_expected_profit_matic_wei candidate;
  ad_route : active (es_quarantine (sv_risk s)) (dc_now ck) (cd_route_edges candidate) = false;
  ad_route_hash : is_route_hash_quarantined (cd_route_hash candidate) (dc_hash ck) (sv_risk s) = false;
  ad_token : is_direct_token_quarantined (cd_profit_token candidate) (dc_token ck) (sv_risk s) = false;
  ad_cooldown : is_route_on_cooldown (cd_route_edges candidate) (dx_is_dry_run config) (dc_now ck)
                  (sv_risk s) = false;
}.

Lemma gates_admit config ck candidate generation expected_block expected_hash shut s :
  admission_gates ck candidate generation expected_block expected_hash shut s = None →
  cooldown_gates config ck candidate s = None →
  shut = false ∧ admitted config ck candidate generation expected_block expected_hash s.
Proof.
  unfold admission_gates, cooldown_gates, candidate_matches_state_generation.
  destruct shut; [done|]. destruct (global_is_quarantined _ _) eqn:E1; [done|].
  destruct (Z.leb_spec (cd_state_generation candidate) generation) as [E2|]; cbn [negb]; [|done].
  destruct (Z.eqb_spec (cd_state_block candidate) expected_block) as [E3|]; cbn [negb orb]; [|done].
  case_bool_decide as E4; cbn [negb]; [|done].
  destruct (Z.ltb_spec (cd_expected_profit_matic_wei candidate) (learned_floor candidate s)) as [|E5]; [done|].
  intros _. destruct (active _ _ _) eqn:E6; [done|]. destruct (is_route_hash_quarantined _ _ _) eqn:E7; [done|].
  destruct (is_direct_token_quarantined _ _ _) eqn:E8; [done|].
  destruct (is_route_on_cooldown _ _ _ _) eqn:E9; [done|]. intros _. split; [done|]. by split.
Qed.

(** The gas of the trade: the dry run's own, else the route's history, else the simulated
    gas scaled by twice or more. *)
Definition trade_gas (candidate : CandidateExecution) (dry : DryRunResult) (o : GasOracle) : Z :=
  match dr_gas_used dry, observed_route_gas o (cd_route_edges candidate) with
  | Some gas, _ | None, Some gas => gas
  | None, None => scaled_simulated_gas (cd_simulated_gas candidate) (Z.max (sim_scale_bps o) GAS_FALLBACK_MIN_SCALE_BPS)
  end.

(** What a dry run with a gas figure of its own teaches the oracle. *)
Definition taught (candidate : CandidateExecution) (dry : DryRunResult) (o : GasOracle) : GasOracle :=
  match dr_gas_used dry with
  | None => o
  | Some gas =>
      let o := record_sim_observed (cd_simulated_gas candidate) gas o in
      if 0 <? gas then record_route_gas (cd_route_edges candidate) (gas_u32 gas) o else o
  end.

(** What the pricing of a passed dry run has fixed, from the gas oracle [before] it: the gas
    of the trade, the limit with its buffer, the fees from the profit that the dry run
    returned, and the assessment, which charges that same gas at the price these fees
    lead to against that same profit and approves. *)
Record priced_by (config : DispatchConfig) (candidate : CandidateExecution) (flash_fees : FlashFees)
    (dry : DryRunResult) (profit floor : Z) (before after : GasOracle) (priced : Priced) : Prop := {
  pb_after : after = taught candidate dry before;
  pb_gas : pr_gas_used priced = trade_gas candidate dry before;
  pb_limit :
    pick_live_gas_limit_with_buffer (cd_simulated_gas candidate) (trade_gas candidate dry before)
      (match dr_gas_used dry with Some _ => GAS_LIMIT_BUFFER_BPS | None => GAS_FALLBACK_BUFFER_BPS end)
    = Some (pr_final_gas priced);
  pb_fees :
    resolve_submit_fees_with_profit after (tip_profit candidate (Some profit))
      (dx_profit_priority_fee_alpha_bps config)
      (tip_gas_units candidate dry (observed_route_gas before (cd_route_edges candidate)))
    = Some (pr_fees priced);
  pb_assessed : ∃ snap,
    go_snapshot after = Some snap ∧
    let price := expected_submit_gas_price (base_fee snap) (pr_fees priced) in
    reassess_assessment flash_fees candidate (trade_gas candidate dry before) price floor (Some profit) 0
      = Some (pr_assessment priced) ∧
    gas_cost_wei (pr_assessment priced) = Z.min (trade_gas candidate dry before) u32_max * price;
  pb_approved : should_execute (pr_assessment priced) = true;
  pb_profit : gross_profit (pr_assessment priced) = profit ∧ flash_loan_fee (pr_assessment priced) = 0;
  pb_floor : cd_safety_multiplier_bps candidate ≠ 0 →
    floor ≤ net_profit_after_gas_matic_wei (pr_assessment priced);
}.

(** The state of the service outside [sv_risk] and [sv_gas] is as before. *)
Definition books_same (d d' : Dispatcher) : Prop :=
  sv_books (di_service d') = sv_books (di_service d) ∧
  sv_last_global_submit (di_service d') = sv_last_global_submit (di_service d) ∧ di_nonce d' = di_nonce d.

Lemma submit_gas_basis_trade candidate dry o :
  submit_gas_basis (observed_route_gas o (cd_route_edges candidate)) (sim_scale_bps o)
    (cd_simulated_gas candidate) (dr_gas_used dry) = trade_gas candidate dry o.
Proof.
  unfold submit_gas_basis, trade_gas.
  destruct (dr_gas_used dry); [done|]. by destruct (observed_route_gas o _).
Qed.

Lemma profit_reassess_gas_trade candidate dry o :
  profit_reassess_gas (observed_route_gas o (cd_route_edges candidate)) (cd_simulated_gas candidate)
    (dr_gas_used dry) (bool_decide (dr_gas_used dry = None)) (sim_scale_bps (taught candidate dry o))
  = trade_gas candidate dry o.
Proof.
  unfold profit_reassess_gas, trade_gas, taught.
  destruct (dr_gas_used dry); [done|]. by destruct (observed_route_gas o _).
Qed.

Lemma dry_run_passed_spec config ck candidate flash_fees dry profit floor d r d' :
  dry_run_passed config ck candidate flash_fees dry (Some profit) floor d = (r, d') →
  match r with
  | inl outcome => was_sent outcome = false
  | inr priced =>
      priced_by config candidate flash_fees dry profit floor (sv_gas (di_service d)) (sv_gas (di_service d')) priced
  end ∧ books_same d d'.
Proof.
  unfold dry_run_passed. rewrite submit_gas_basis_trade. destruct (_ =? 0); [by intros [= <- <-]|].
  set (d1 := if bool_decide _ then d else _).
  assert (books_same d d1 ∧ sv_gas (di_service d1) = taught candidate dry (sv_gas (di_service d))) as [Hd1 Htaught].
  { unfold d1, taught, trade_gas. by destruct (dr_gas_used dry). }
  match goal with |- context [match ?m with Some _ => _ | None => _ end] => destruct m as [limit|] eqn:El end;
    [|by intros [= <- <-]].
  assert (pick_live_gas_limit_with_buffer (cd_simulated_gas candidate) (trade_gas candidate dry (sv_gas (di_service d)))
    (match dr_gas_used dry with Some _ => GAS_LIMIT_BUFFER_BPS | None => GAS_FALLBACK_BUFFER_BPS end) = Some limit)
    as Hlimit by (revert El; by destruct (dr_gas_used dry)).
  unfold price_and_reassess. rewrite Htaught, profit_reassess_gas_trade.
  destruct (resolve_submit_fees_with_profit _ _ _ _) as [fees|] eqn:Ef; [|by intros [= <- <-]].
  destruct (go_snapshot _) as [snap|] eqn:Es; [|by intros [= <- <-]].
  destruct (reassess_assessment _ _ _ _ _ _ _) as [a|] eqn:Ea; [|by intros [= <- <-]].
  destruct (should_execute a) eqn:Ex; [|by intros [= <- <-]].
  pose proof (reassessment_pins _ _ _ _ _ _ _ Ea Ex) as (Hp & Hl & Hg & Hm).
  intros [= <- <-]. split; [|exact Hd1].
  split; cbn [pr_gas_used pr_final_gas pr_fees pr_assessment]; try done; try exact Htaught.
  - by rewrite <- Htaught in Ef.
  - exists snap. by rewrite <- Htaught in Es.
Qed.

Lemma dry_run_failed_spec ck candidate show parse dry d outcome d' :
  dry_run_failed ck candidate show parse dry d = (outcome, d') → was_sent outcome = false ∧ books_same d d'.
Proof.
  unfold dry_run_failed. intros [= <- <-]. split; [done|].
  unfold call_failure_cooldowns. by repeat case_match.
Qed.

(** ** Failed dry runs *)

(** The route is cooling down at least until [t]. *)
Definition cooled_until (edges : CycleEdges) (t : Z) (d : Dispatcher) : Prop :=
  ∃ until, es_quarantine (sv_risk (di_service d)) !! edges = Some until ∧ t ≤ until.

Lemma cooled_insert edges t until prune d f :
  t ≤ until → (∀ r, es_quarantine (f r) = es_quarantine (quarantine_insert edges until prune r)) →
  cooled_until edges t (with_route_risk f d).
Proof.
  intros Ht Hf. exists until. split; [|done]. cbn. rewrite Hf. cbn. by rewrite lookup_insert_eq.
Qed.

Lemma cooled_kept edges t d f :
  (∀ r, es_quarantine (f r) = es_quarantine r) → cooled_until edges t d → cooled_until edges t (with_route_risk f d).
Proof. intros Hf (until & Hq & Ht). exists until. split; [|done]. cbn. by rewrite Hf. Qed.

Lemma quarantine_route_cools edges fp now kind prune d :
  cooled_until edges (now + ROUTE_COOLDOWN) (with_route_risk (quarantine_route edges fp now kind prune) d).
Proof.
  eexists. split; [cbn; by rewrite lookup_insert_eq|].
  destruct (MAX_CONSECUTIVE_FAILURES <=? _); unfold PERMANENT_QUARANTINE, ROUTE_COOLDOWN, secs; lia.
Qed.

Lemma dry_run_failed_cools ck candidate show parse dry d :
  cooled_until (cd_route_edges candidate) (dc_now ck + ROUTE_COOLDOWN)
    (dry_run_failed ck candidate show parse dry d).2.
Proof.
  unfold dry_run_failed. cbn [snd].
  match goal with |- context [call_failure_cooldowns _ _ _ _ ?x] =>
    assert (cooled_until (cd_route_edges candidate) (dc_now ck + ROUTE_COOLDOWN) x) as H end.
  { destruct (sim_fidelity_miss _ _); [|apply quarantine_route_cools]. by eapply cooled_insert. }
  match goal with |- context [call_failure_cooldowns _ _ _ _ ?x] => generalize dependent x end. intros x Hx.
  assert (cooled_until (cd_route_edges candidate) (dc_now ck + ROUTE_COOLDOWN)
    (call_failure_cooldowns ck candidate parse dry x)) as H.
  { unfold call_failure_cooldowns. destruct (_ || _)%bool; [|done]. cbv zeta.
    match goal with |- context [if is_mid_hop_transfer_underfund _ then ?y else _] =>
      assert (cooled_until (cd_route_edges candidate) (dc_now ck + ROUTE_COOLDOWN) y) as Hy end.
    { destruct (_ && _)%bool; [|done].
      apply (cooled_insert _ _ (dc_now ck + STRUCTURAL_DRY_RUN_QUARANTINE) (ck_prune (dc_settle ck)));
        [unfold STRUCTURAL_DRY_RUN_QUARANTINE, ROUTE_COOLDOWN, secs; lia|done]. }
    destruct (is_mid_hop_transfer_underfund _); [done|].
    destruct (transfer_failed_token_to_quarantine _ _ _); [|done]. by apply cooled_kept. }
  destruct (_ && _)%bool; [|done]. apply cooled_kept; [|done]. intros r.
  unfold demote_adaptive_flash_loan_cap. by destruct (_ <=? _).
Qed.

Lemma dry_run_passed_cools config ck candidate flash_fees dry profit floor d reason d' :
  dry_run_passed config ck candidate flash_fees dry profit floor d = (inl (DryRunFailed reason), d') →
  cooled_until (cd_route_edges candidate) (dc_now ck + ROUTE_COOLDOWN) d'.
Proof.
  unfold dry_run_passed, dry_run_gas_unknown.
  destruct (_ =? 0); [intros [= _ <-]; apply quarantine_route_cools|].
  match goal with |- context [match ?m with Some _ => _ | None => _ end] => destruct m end.
  - unfold price_and_reassess. repeat case_match; by intros [=].
  - intros [= _ <-]. apply quarantine_route_cools.
Qed.

(** ** What a sent transaction has passed *)

Section sent.
Context (show_address : Address → string) (parse_address : string → option Address).
Context (utf8_lossy : list Z → string) (hex_decode : string → option (list Z)).
Context {P : Type}.
Context (eth_call : P → CallRequest → option Z → RpcAnswer (list Z) * P).
Context (eth_estimate_gas : P → CallRequest → option Z → RpcAnswer Z * P).
Context (get_block_number : P → RpcAnswer Z * P) (get_balance : P → Address → (Z + string) * P).
Context (has_signer : bool) (connect_submit_checked : P → bool * P).
Context (operator_nonces : P → Address → (Z + string) * (Z + string) * P).
Context (submit_transaction : P → TransactionRequest → (Z + string) * P).
Context (pending_nonce : P → (Z + string) * P).
Context (get_transaction_receipt : P → Z → (option ReceiptData + string) * P).
Context (get_transaction_by_hash : P → Z → (bool + string) * P).
Context (instant : P → Z) (shutdown : P → bool) (sleep : P → Z → bool * P).
Context (encode_transfer_all : Address → Address → list Z) (conversion_error : string).
Context (timeout poll_interval : Z) (profit_recipient : option Address) (private_error : option string).
Context (flash_fees : FlashFees).
Context (config : DispatchConfig) (ck : DispatchClock) (candidate : CandidateExecution) (operator : Address).

Notation process_candidate := (process_candidate show_address parse_address utf8_lossy hex_decode
  eth_call eth_estimate_gas get_block_number get_balance has_signer connect_submit_checked operator_nonces
  submit_transaction pending_nonce get_transaction_receipt get_transaction_by_hash instant shutdown sleep
  encode_transfer_all conversion_error timeout poll_interval profit_recipient private_error flash_fees
  config ck candidate operator).
Notation dry_run := (dry_run_candidate show_address utf8_lossy hex_decode eth_call eth_estimate_gas).
Notation connect_gates := (connect_gates has_signer connect_submit_checked operator_nonces shutdown ck operator).
Notation funding_gates := (funding_gates get_block_number get_balance config ck candidate operator).
Notation mempool_gate := (mempool_gate operator_nonces ck operator).

(** The live gates: fresh fees, a wallet and a node, no pending transaction in the way, the
    breaker closed, the balance for the gas limit at the maximal fee and a head at most one
    block past the simulated one. *)
Record live (priced : Priced) (chain_head : Z) (d : Dispatcher) : Prop := {
  lv_mode : dx_is_dry_run config = false;
  lv_fresh : is_Some (conservative_gas_price_for_live_submit (dc_now_ms ck) (sv_gas (di_service d)));
  lv_signer : has_signer = true;
  lv_mempool : ∃ q pending_ahead, (mempool_gate d q).1.1 = inl (true, pending_ahead);
  lv_running : ∃ q, shutdown q = false;
  lv_breaker : bk_consecutive_fails (sv_books (di_service d)) < dx_max_global_consecutive_failures config;
  lv_balance : ∃ required q balance,
    required_operator_balance config (cd_value candidate) (pr_final_gas priced)
      (sf_max_fee_per_gas (pr_fees priced)) = Some required ∧
    (get_balance q operator).1 = inl balance ∧ required ≤ balance;
  lv_head : ∃ q head, (get_block_number q).1 = Answered head ∧ head ≤ chain_head + 1;
}.

Lemma connect_gates_spec d p r d' p' :
  connect_gates d p = (r, d', p') →
  match r with
  | inl outcome => was_sent outcome = false ∧ is_dry_run_failed outcome = false
  | inr pending_ahead =>
      is_Some (conservative_gas_price_for_live_submit (dc_now_ms ck) (sv_gas (di_service d))) ∧
      has_signer = true ∧ (∃ q, (mempool_gate d q).1.1 = inl (true, pending_ahead)) ∧ ∃ q, shutdown q = false
  end ∧ sv_books (di_service d') = sv_books (di_service d).
Proof.
  unfold Dispatch.connect_gates. case_bool_decide as Ef; [by intros [= <- <- <-]|].
  destruct has_signer eqn:Es; cbn [negb]; [|by intros [= <- <- <-]].
  destruct (connect_submit_checked p) as [[] p1]; cbn [negb]; [|by intros [= <- <- <-]].
  destruct (mempool_gate d p1) as [[gate d1] p2] eqn:Em.
  assert (sv_books (di_service d1) = sv_books (di_service d)) as Hb.
  { revert Em. unfold Dispatch.mempool_gate. destruct (dc_mempool ck) as [[? ?] ?].
    destruct (operator_mempool_clear _ _ _ _ _ None None).1; [by intros [= <- <- <-]|].
    destruct (operator_nonces p1 operator) as [[latest pending] p3].
    destruct (operator_mempool_clear _ _ _ _ _ (rpc_ok latest) (rpc_ok pending)) as [status cache].
    by intros [= <- <- <-]. }
  destruct gate as [[clear pa]|e]; [|by intros [= <- <- <-]].
  destruct clear; cbn [negb]; [|by intros [= <- <- <-]].
  destruct (shutdown p2) eqn:Esh; [by intros [= <- <- <-]|].
  intros [= <- <- <-]. split; [|done]. split_and!; [|done| |by exists p2].
  - destruct (conservative_gas_price_for_live_submit _ _); [by eexists|done].
  - exists p1. by rewrite Em.
Qed.

Lemma funding_gates_spec fees final_gas chain_head block d p r d' p' :
  funding_gates fees final_gas chain_head block d p = (r, d', p') →
  match r with
  | inl outcome => was_sent outcome = false ∧ is_dry_run_failed outcome = false
  | inr tt =>
      bk_consecutive_fails (sv_books (di_service d)) < dx_max_global_consecutive_failures config ∧
      (∃ required q balance,
        required_operator_balance config (cd_value candidate) final_gas (sf_max_fee_per_gas fees) = Some required ∧
        (get_balance q operator).1 = inl balance ∧ required ≤ balance) ∧
      ∃ q head, (get_block_number q).1 = Answered head ∧ head ≤ chain_head + 1
  end.
Proof.
  unfold Dispatch.funding_gates.
  destruct (Z.leb_spec (dx_max_global_consecutive_failures config) (bk_consecutive_fails (sv_books (di_service d))));
    [by intros [= <- <- <-]|].
  destruct (required_operator_balance _ _ _ _) as [required|]; [|by intros [= <- <- <-]].
  destruct (get_balance p operator) as [[balance|e] p1] eqn:Eb; [|by intros [= <- <- <-]].
  destruct (Z.ltb_spec balance required); [by intros [= <- <- <-]|].
  destruct (get_block_number p1) as [[head|e|] p2] eqn:Eh; [|by intros [= <- <- <-]..].
  destruct (Z.leb_spec head (Z.min (chain_head + 1) u64_max)); [|by intros [= <- <- <-]].
  intros [= <- <- <-]. split_and!; [done| |].
  - exists required, p, balance. by rewrite Eb.
  - exists p1, head. rewrite Eh. split; [done|lia].
Qed.

Lemma connect_gates_nonce d p r d' p' : connect_gates d p = (r, d', p') → di_nonce d' = di_nonce d.
Proof.
  unfold Dispatch.connect_gates, Dispatch.mempool_gate. destruct (dc_mempool ck) as [[? ?] ?].
  repeat case_match; intros; simplify_eq; done.
Qed.

Lemma funding_gates_nonce fees final_gas chain_head block d p r d' p' :
  funding_gates fees final_gas chain_head block d p = (r, d', p') → di_nonce d' = di_nonce d.
Proof. unfold Dispatch.funding_gates. repeat case_match; intros; simplify_eq; done. Qed.

Lemma send_hash priced pending_ahead d p outcome d' p' :
  send submit_transaction pending_nonce get_transaction_receipt get_transaction_by_hash instant shutdown sleep
    encode_transfer_all conversion_error timeout poll_interval profit_recipient private_error ck candidate operator
    priced pending_ahead d p = Some (outcome, d', p') →
  was_sent outcome = true →
  ∃ hash, sent_hash outcome = Some hash ∧
    submitted_for submit_transaction candidate (pr_fees priced) (pr_final_gas priced) 3 hash.
Proof.
  unfold send. destruct (ensure_nonce_manager _ _ _ _) as [[[mgr|e] d4] p5]; [|by intros [= <- _ _]].
  destruct (submit_and_settle _ _ _ _ _ _ _ _ _ _ _ _ _ _ _ _ _ _ _ _ _ _ _ _) as [r|] eqn:Er; [|done].
  intros [= <- _ _] Hs.
  destruct (sent_hash (Settle.pr_outcome r)) as [hash|] eqn:Eh; [|by destruct (Settle.pr_outcome r)].
  exists hash. split; [done|]. by eapply (submit_and_settle_sent submit_transaction).
Qed.

(** C1: Nothing is sent that has not passed every gate.  When a candidate ends as confirmed,
    reverted or timed out, it was admitted: no stop was in force, it belongs to the expected
    block, its expected profit reaches the floor learned for its route, and neither the
    route, its hash nor its token was cooling down; a dry run at the simulation block
    returned a profit that is not zero; the second assessment, of that profit against the
    same floor, charged the gas of the trade at the price the fees lead to and approved; the
    mode is live, the fee snapshot fresh, the mempool clear, the breaker closed, the balance
    enough for the gas limit at the maximal fee and the head at most one block further.  And
    what was sent is what was assessed: the network gave the hash of the outcome for a
    transaction with the candidate's target, call and value, the priced gas limit and the
    priced fees, raised by [FEE_BUMP_BPS] at most twice. *)
Theorem sent_candidate_passed_gates (generation expected_block : Z) (expected_hash hint : option Z)
    (d d' : Dispatcher) (p p' : P) (outcome : ExecutionOutcome) :
  process_candidate generation expected_block expected_hash hint d p = Prelude.Done (Some (outcome, d', p')) →
  was_sent outcome = true →
  shutdown p = false ∧
  admitted config ck candidate generation expected_block expected_hash (di_service d) ∧
  ∃ chain_head dry profit q q' priced d1 hash,
    dry_run q candidate operator (Some (simulation_block candidate expected_block chain_head))
      = Prelude.Done (dry, q') ∧
    dr_success dry = true ∧ dr_realized_profit dry = Some profit ∧ profit ≠ 0 ∧
    priced_by config candidate flash_fees dry profit (learned_floor candidate (di_service d))
      (sv_gas (di_service d)) (sv_gas (di_service d1)) priced ∧
    live priced chain_head d1 ∧
    sent_hash outcome = Some hash ∧
    submitted_for submit_transaction candidate (pr_fees priced) (pr_final_gas priced) 3 hash.
Proof.
  unfold Dispatch.process_candidate. intros H Hsent. revert H.
  destruct (admission_gates _ _ _ _ _ _ _) eqn:Ea.
  { intros [= -> -> ->]. revert Ea Hsent. unfold admission_gates. repeat case_match; intros [= <-]; done. }
  destruct (read_chain_head _ _ _) as [[o|chain_head] p1] eqn:Eh.
  { intros [= -> -> ->]. revert Eh Hsent. unfold read_chain_head. repeat case_match; intros [= <-]; done. }
  destruct (cooldown_gates _ _ _ _) eqn:Ec.
  { intros [= -> -> ->]. revert Ec Hsent. unfold cooldown_gates. repeat case_match; intros [= <-]; done. }
  destruct (gates_admit _ _ _ _ _ _ _ _ Ea Ec) as [Hshut Hadm].
  destruct (dry_run p1 candidate operator _) as [[dry p2]|] eqn:Ed; [|done]. cbn [obind].
  destruct (dry_run_profit dry) as [profit|] eqn:Ep.
  2: { destruct (dry_run_failed _ _ _ _ _ _) as [o d1] eqn:Ef. intros [= -> -> ->].
       apply dry_run_failed_spec in Ef as [Ef _]. congruence. }
  destruct (dry_run_passed _ _ _ _ _ _ _) as [priced d1] eqn:Er. apply dry_run_passed_spec in Er as [Hpriced Hsame].
  destruct priced as [o|priced]; [intros [= -> -> ->]; congruence|].
  intros H%Done_inj. revert H.
  unfold live_stage. destruct (dx_is_dry_run config) eqn:Emode; [intros [= <- _ _]; done|].
  destruct (connect_gates d1 p2) as [[[o|pa] d2] p3] eqn:Eg; apply connect_gates_spec in Eg as [Hconn Hbooks].
  { intros [= -> -> ->]. destruct Hconn. congruence. }
  destruct (funding_gates _ _ _ _ d2 p3) as [[[o|[]] d3] p4] eqn:Efu; apply funding_gates_spec in Efu.
  { intros [= -> -> ->]. destruct Efu. congruence. }
  intros Hsend. split; [done|]. split; [done|].
  destruct (send_hash _ _ _ _ _ _ _ Hsend Hsent) as (hash & Hhash & Hfor).
  destruct Hconn as (Hfresh & Hsigner & [q1 Hmem] & Hrun). destruct Efu as (Hbreak & Hbal & Hhead).
  revert Ep. unfold dry_run_profit. destruct (dr_success dry) eqn:Es; [|done].
  destruct (dr_semantic_success dry); [|done]. cbn [andb]. unfold nonzero, is_zero.
  destruct (dr_realized_profit dry) as [r|] eqn:Epr; [|done].
  destruct (Z.eqb_spec r 0); [done|]. intros [= ->].
  exists chain_head, dry, profit, p1, p2, priced, d1, hash. split_and!; try done.
  split; try done; [by exists q1, pa|]. by rewrite <- Hbooks.
Qed.

Lemma submit_and_settle_not_dry fees final_gas pending_ahead mgr s p r :
  submit_and_settle submit_transaction pending_nonce get_transaction_receipt get_transaction_by_hash
    instant shutdown sleep encode_transfer_all conversion_error timeout poll_interval profit_recipient
    (cd_route_fingerprint candidate) (dc_now ck) (dc_settle ck) candidate operator fees final_gas
    pending_ahead private_error mgr s p = Some r →
  is_dry_run_failed (Settle.pr_outcome r) = false.
Proof.
  unfold submit_and_settle. destruct (reserve_nonce _ _ _ _) as [[[[|n] m1] p1]|]; [by intros [= <-]| |done].
  destruct private_error; [by intros [= <-]|].
  destruct (submit_with_recovery _ _ _ _ _ _ _ _) as [sent|]; [|done].
  destruct (sb_result sent) as [hash|e].
  - destruct (await_receipt _ _ _ _ _ _ _ _ _ _ _ _ _ _ _ _ _ _ _ _ _) as [[[[awaited m] s'] p2]|] eqn:Ea; [|done].
    destruct awaited as [receipt|o].
    + unfold finalize_receipt_and_maybe_sweep, finalize_receipt, settle_revert, settle_success.
      repeat case_match; intros [= <-]; simplify_eq; done.
    + intros [= <-]. revert Ea. unfold await_receipt, after_timeout.
      destruct (wait _ _ _ _ _ _ _ _) as [[polled p3]|]; [|done]. repeat case_match; intros [= <- _ _ _]; done.
  - unfold submit_failed. by intros [= <-].
Qed.

Lemma live_stage_not_dry priced chain_head block d p outcome d' p' :
  live_stage get_block_number get_balance has_signer connect_submit_checked operator_nonces submit_transaction
    pending_nonce get_transaction_receipt get_transaction_by_hash instant shutdown sleep encode_transfer_all
    conversion_error timeout poll_interval profit_recipient private_error config ck candidate operator
    priced chain_head block d p = Some (outcome, d', p') →
  is_dry_run_failed outcome = false.
Proof.
  unfold live_stage. destruct (dx_is_dry_run config); [by intros [= <- _ _]|].
  destruct (connect_gates d p) as [[[o|pa] d2] p3] eqn:Eg; apply connect_gates_spec in Eg as [Hconn _].
  { intros [= <- _ _]. by destruct Hconn. }
  destruct (funding_gates _ _ _ _ d2 p3) as [[[o|[]] d3] p4] eqn:Efu; apply funding_gates_spec in Efu.
  { intros [= <- _ _]. by destruct Efu. }
  unfold send. destruct (ensure_nonce_manager _ _ _ _) as [[[mgr|e] d4] p5]; [|by intros [= <- _ _]].
  destruct (submit_and_settle _ _ _ _ _ _ _ _ _ _ _ _ _ _ _ _ _ _ _ _ _ _ _ _) as [r|] eqn:Er; [|done].
  intros [= <- _ _]. by eapply submit_and_settle_not_dry.
Qed.

(** C6: A failed dry run is not repeated and costs nothing.  It leaves the books, the last
    submission and the nonces as they were, and the route cooling down for at least
    [ROUTE_COOLDOWN]: until then, whatever the configuration and the candidate, the same
    route is stopped before its dry run. *)
Theorem failed_dry_run_cools_route (generation expected_block : Z) (expected_hash hint : option Z)
    (d d' : Dispatcher) (p p' : P) (reason : string) :
  process_candidate generation expected_block expected_hash hint d p
    = Prelude.Done (Some (DryRunFailed reason, d', p')) →
  books_same d d' ∧
  ∀ config' ck' candidate',
    cd_route_edges candidate' = cd_route_edges candidate → dc_now ck' < dc_now ck + ROUTE_COOLDOWN →
    cooldown_gates config' ck' candidate' (di_service d') = Some SkippedQuarantined.
Proof.
  intros H. enough (books_same d d' ∧ cooled_until (cd_route_edges candidate) (dc_now ck + ROUTE_COOLDOWN) d')
    as [Hb (until & Hq & Hu)].
  { split; [done|]. intros config' ck' candidate' He Hn. unfold cooldown_gates, active. rewrite He, Hq.
    by rewrite (proj2 (Z.ltb_lt (dc_now ck') until)) by lia. }
  revert H. unfold Dispatch.process_candidate.
  destruct (admission_gates _ _ _ _ _ _ _) eqn:Ea.
  { intros [= -> -> ->]. revert Ea. unfold admission_gates. repeat case_match; by intros [=]. }
  destruct (read_chain_head _ _ _) as [[o|chain_head] p1] eqn:Eh.
  { intros [= -> -> ->]. revert Eh. unfold read_chain_head. repeat case_match; by intros [=]. }
  destruct (cooldown_gates _ _ _ _) eqn:Ec.
  { intros [= -> -> ->]. revert Ec. unfold cooldown_gates. repeat case_match; by intros [=]. }
  destruct (dry_run p1 candidate operator _) as [[dry p2]|]; [|done]. cbn [obind].
  destruct (dry_run_profit dry) as [profit|].
  - destruct (dry_run_passed _ _ _ _ _ _ _) as [priced d1] eqn:Er.
    pose proof Er as Hcool. apply dry_run_passed_spec in Er as [_ Hsame].
    destruct priced as [o|priced]; [intros [= -> -> ->]; split; [done|by eapply dry_run_passed_cools]|].
    intros H%Done_inj%live_stage_not_dry. discriminate H.
  - pose proof (dry_run_failed_cools ck candidate show_address parse_address dry d) as Hcool.
    destruct (dry_run_failed _ _ _ _ _ _) as [o d1] eqn:Ef.
    intros [= -> -> ->]. apply dry_run_failed_spec in Ef as [_ Hsame]. by split.
Qed.

(** In dry-run mode nothing can be sent.  The run does not depend on the wallet, on the
    submission node nor on anything the submission would use, and ends with the books, the
    last submission and the nonces as they were. *)
Theorem dry_run_mode_sends_nothing (has_signer2 : bool) (connect2 : P → bool * P)
    (nonces2 : P → Address → (Z + string) * (Z + string) * P)
    (submit2 : P → TransactionRequest → (Z + string) * P) (pending2 : P → (Z + string) * P)
    (receipt2 : P → Z → (option ReceiptData + string) * P) (by_hash2 : P → Z → (bool + string) * P)
    (generation expected_block : Z) (expected_hash hint : option Z) (d : Dispatcher) (p : P) :
  dx_is_dry_run config = true →
  process_candidate generation expected_block expected_hash hint d p =
    Dispatch.process_candidate show_address parse_address utf8_lossy hex_decode eth_call eth_estimate_gas
      get_block_number get_balance has_signer2 connect2 nonces2 submit2 pending2 receipt2 by_hash2
      instant shutdown sleep encode_transfer_all conversion_error timeout poll_interval profit_recipient
      private_error flash_fees config ck candidate operator generation expected_block expected_hash hint d p ∧
  ∀ outcome d' p',
    process_candidate generation expected_block expected_hash hint d p
      = Prelude.Done (Some (outcome, d', p')) → was_sent outcome = false ∧ books_same d d'.
Proof.
  intros Hmode. unfold Dispatch.process_candidate, live_stage. rewrite Hmode. split; [done|].
  intros outcome d' p'. destruct (admission_gates _ _ _ _ _ _ _) eqn:Ea.
  { intros [= -> -> ->]. split; [|done]. revert Ea. unfold admission_gates. repeat case_match; by intros [= <-]. }
  destruct (read_chain_head _ _ _) as [[o|chain_head] p1] eqn:Eh.
  { intros [= -> -> ->]. split; [|done]. revert Eh. unfold read_chain_head. repeat case_match; by intros [= <-]. }
  destruct (cooldown_gates _ _ _ _) eqn:Ec.
  { intros [= -> -> ->]. split; [|done]. revert Ec. unfold cooldown_gates. repeat case_match; by intros [= <-]. }
  destruct (dry_run p1 candidate operator _) as [[dry p2]|]; [|done]. cbn [obind].
  destruct (dry_run_profit dry) as [profit|].
  - destruct (dry_run_passed _ _ _ _ _ _ _) as [priced d1] eqn:Er.
    apply dry_run_passed_spec in Er as [Hp Hsame].
    destruct priced as [o|priced]; [by intros [= -> -> ->]|]. by intros [= <- <- <-].
  - destruct (dry_run_failed _ _ _ _ _ _) as [o d1] eqn:Ef. intros [= -> -> ->].
    by apply dry_run_failed_spec in Ef.
Qed.

(** Asking and waiting take time, and nonces fit. *)
Context (asking_takes_time : ∀ p h, instant p ≤ instant (get_transaction_receipt p h).2).
Context (sleeping_takes_time : ∀ p t, instant p < instant (sleep p t).2).
Context (nonces_fit : ∀ p n p', pending_nonce p = (inl n, p') → 0 ≤ n ≤ 2 ^ 63).
Context (timeout_pos : 0 ≤ timeout).

(** In the dry run at this block the node refused the candidate's call with a message whose
    revert data the decoder aborts on. *)
Definition hostile_refusal (block : Z) : Prop :=
  ∃ q gas_limit raw bytes,
    (eth_call q (build_tx candidate operator (Some gas_limit)) (Some block)).1 = Refused raw ∧
    extract_revert_bytes hex_decode raw = Some bytes ∧
    decode_revert show_address utf8_lossy bytes = Panic.

Lemma call_failed_returns explain raw :
  (∃ r, call_failed show_address utf8_lossy hex_decode explain raw = Prelude.Done r) ∨
  call_failed show_address utf8_lossy hex_decode explain raw = Panic ∧
  ∃ bytes, extract_revert_bytes hex_decode raw = Some bytes ∧ decode_revert show_address utf8_lossy bytes = Panic.
Proof.
  unfold call_failed, try_decode_revert. destruct (extract_revert_bytes hex_decode raw) as [b|]; [|by left; eexists].
  destruct (decode_revert show_address utf8_lossy b) eqn:E; [by left; eexists|]. right. split; [done|by exists b].
Qed.

(** A failed call either becomes a result or holds data the decoder aborts on. *)
Lemma refused_call_returns q gas_limit block raw p1 explain :
  eth_call_at_block eth_call q candidate operator (Some gas_limit) (Some block) = (inr raw, p1) →
  (∃ r, call_failed show_address utf8_lossy hex_decode explain raw = Prelude.Done r) ∨
  call_failed show_address utf8_lossy hex_decode explain raw = Panic ∧ hostile_refusal block.
Proof.
  intros Hcall. destruct (call_failed_returns explain raw) as [?|(Hp & bytes & Hx & Hd)]; [by left|right].
  split; [done|]. exists q, gas_limit, raw, bytes. revert Hcall. unfold eth_call_at_block.
  destruct (eth_call q _ _) as [[out|m|] p2]; [done|by intros [= <- _]|]. intros [= <- _]. by vm_compute in Hx.
Qed.

Lemma dry_run_returns q block :
  (∃ r, dry_run q candidate operator (Some block) = Prelude.Done r) ∨
  dry_run q candidate operator (Some block) = Panic ∧ hostile_refusal block.
Proof.
  unfold dry_run_candidate. destruct (eth_call_at_block _ _ _ _ _ _) as [[out|raw] p1] eqn:Ec.
  { left. destruct (is_acceptable_realized_profit _); cbn [negb]; [|by eexists].
    destruct (gas_from_estimate _ _ _ _ _). by eexists. }
  destruct (is_gas_limit_rpc_error raw).
  2: { destruct (refused_call_returns _ _ _ _ _ explain_call_error Ec) as [[r ->]|[-> ?]]; [left; by eexists|by right]. }
  unfold dry_run_after_call_gas_overflow. destruct (eth_estimate_gas _ _ _) as [[g|e|] p2]; [|left; by eexists..].
  destruct (eth_call_at_block eth_call p2 _ _ _ _) as [[out|raw2] p3] eqn:Ec2.
  { left. destruct (is_acceptable_realized_profit _); by eexists. }
  destruct (is_gas_limit_rpc_error raw2); [left; by eexists|].
  destruct (refused_call_returns _ _ _ _ _ (λ raw, raw) Ec2) as [[r ->]|[-> ?]]; [left; by eexists|by right].
Qed.

(** What a run owes: an outcome, with the nonce manager's invariant in place again; it ends
    without one only on a hostile refusal, in the dry run at the block it simulates. *)
Definition ends_well (expected_block : Z) (run : Prelude.outcome (option (ExecutionOutcome * Dispatcher * P))) : Prop :=
  match run with
  | Prelude.Done (Some (_, d', _)) =>
      ∀ mgr, di_nonce d' = Some (operator, mgr) → state_ok (nm_state mgr) ∧ nm_initialized mgr = true
  | Prelude.Done None => False
  | Panic => ∃ chain_head, hostile_refusal (simulation_block candidate expected_block chain_head)
  end.

(** C8: Every candidate ends.  For a clock that advances while the bot asks and waits and
    nonces up to [2^63], the run from the admission gates to the settled trade never hangs:
    it returns an outcome, and the nonce manager it leaves satisfies its invariant again.
    The one way to end without an outcome is a panic, and then the node refused the
    simulated call with a message that carries revert data on which the decoder aborts. *)
Theorem process_candidate_returns (generation expected_block : Z) (expected_hash hint : option Z)
    (d : Dispatcher) (p : P) :
  (∀ mgr, di_nonce d = Some (operator, mgr) → roomy 0 mgr) →
  ends_well expected_block (process_candidate generation expected_block expected_hash hint d p).
Proof using asking_takes_time sleeping_takes_time nonces_fit timeout_pos.
  intros Hroom.
  assert (∀ o d1 p1, di_nonce d1 = di_nonce d → ends_well expected_block (Prelude.Done (Some (o, d1, p1)))) as Hkeep.
  { intros o d1 p1 Hd1 mgr Hm. rewrite Hd1 in Hm. destruct (Hroom mgr Hm) as (? & ? & _). by split. }
  unfold Dispatch.process_candidate. destruct (admission_gates _ _ _ _ _ _ _); [by apply Hkeep|].
  destruct (read_chain_head _ _ _) as [[o|chain_head] p1]; [by apply Hkeep|].
  destruct (cooldown_gates _ _ _ _); [by apply Hkeep|].
  destruct (dry_run_returns p1 (simulation_block candidate expected_block chain_head)) as [[[dry p2] ->]|[-> ?]];
    [|by exists chain_head].
  cbn [obind]. destruct (dry_run_profit dry) as [profit|].
  2: { destruct (dry_run_failed _ _ _ _ _ _) as [o d1] eqn:Ef. apply dry_run_failed_spec in Ef as [_ (_ & _ & Hn)].
       by apply Hkeep. }
  destruct (dry_run_passed _ _ _ _ _ _ _) as [priced d1] eqn:Er. apply dry_run_passed_spec in Er as [_ (_ & _ & Hn)].
  destruct priced as [o|priced]; [by apply Hkeep|].
  unfold live_stage. destruct (dx_is_dry_run config); [by apply Hkeep|].
  destruct (connect_gates d1 p2) as [[[o|pa] d2] p3] eqn:Eg; apply connect_gates_nonce in Eg.
  { apply Hkeep. congruence. }
  destruct (funding_gates _ _ _ _ d2 p3) as [[[o|[]] d3] p4] eqn:Efu; apply funding_gates_nonce in Efu.
  { apply Hkeep. congruence. }
  unfold send. destruct (ensure_nonce_manager _ _ d3 p4) as [[[mgr|e] d4] p5] eqn:En.
  - assert (roomy 0 mgr) as Hr.
    { revert En. unfold ensure_nonce_manager.
      assert (∀ n p6, pending_nonce p4 = (inl n, p6) → roomy 0 (initialize (Some n) (Nonce.new operator)).2) as Hinit
        by (intros n p6 Hn6; apply nonces_fit in Hn6; by apply roomy_resync).
      destruct (di_nonce d3) as [[addr m]|] eqn:Ed3.
      - destruct (Z.eqb_spec addr operator) as [->|].
        + intros [= -> _ _]. apply Hroom. congruence.
        + destruct (pending_nonce p4) as [[nn|e] p6] eqn:Ep; [|done]. intros [= <- _ _]. by eapply Hinit.
      - destruct (pending_nonce p4) as [[nn|e] p6] eqn:Ep; [|done]. intros [= <- _ _]. by eapply Hinit. }
    edestruct (submit_and_settle_returns submit_transaction pending_nonce get_transaction_receipt
      get_transaction_by_hash instant shutdown sleep timeout poll_interval asking_takes_time sleeping_takes_time
      nonces_fit timeout_pos (cd_route_fingerprint candidate) (dc_now ck) (dc_settle ck) candidate operator
      (pr_fees priced) (pr_final_gas priced) encode_transfer_all conversion_error profit_recipient pa
      private_error mgr (di_service d4) p5 Hr) as (r & -> & Hs & Hi).
    cbn. by intros m [= <-].
  - revert En. unfold ensure_nonce_manager. intros En.
    apply Hkeep. transitivity (di_nonce d3); [|congruence]. revert En.
    repeat case_match; intros; simplify_eq; done.
Qed.
End sent.

(** ** A cool-down that is shortened *)

(** A route that failed for good comes back early.  The fifth failure in a row puts a route
    away for [PERMANENT_QUARANTINE] (an hour); when that failure is a structural one (a call
    of the executor failed, neither for lack of funds nor underfunded mid-route), the
    cool-down meant to lengthen the usual thirty seconds overwrites it with ten minutes. *)
Theorem structural_failure_shortens_permanent (ck : DispatchClock) (candidate : CandidateExecution)
    (show_address : Address → string) (parse_address : string → option Address) (dry : DryRunResult)
    (d : Dispatcher) :
  let edges := cd_route_edges candidate in
  let risk := sv_risk (di_service d) in
  default 0 (es_fail_counts risk !! edges) = MAX_CONSECUTIVE_FAILURES - 1 →
  is_external_call_failed dry = true → transfer_all_funding_miss candidate dry = false →
  is_mid_hop_transfer_underfund (dr_decoded_revert dry) = false →
  es_quarantine (quarantine_route edges (cd_route_fingerprint candidate) (dc_now ck) DryRun
    (ck_prune (dc_settle ck)) risk) !! edges = Some (dc_now ck + PERMANENT_QUARANTINE) ∧
  es_quarantine (sv_risk (di_service (dry_run_failed ck candidate show_address parse_address dry d).2)) !! edges
    = Some (dc_now ck + STRUCTURAL_DRY_RUN_QUARANTINE) ∧
  STRUCTURAL_DRY_RUN_QUARANTINE < PERMANENT_QUARANTINE.
Proof.
  intros edges risk Hcount He Hm Hu. split_and!; [| |done].
  - unfold quarantine_route. cbn. rewrite Hcount. by rewrite lookup_insert_eq.
  - unfold dry_run_failed, call_failure_cooldowns. rewrite He, Hm, Hu. cbn [orb andb negb snd].
    match goal with |- context [if (cd_adaptive_flash_cap_bound _ && _)%bool then with_route_risk ?f ?x else _] =>
      assert (es_quarantine (sv_risk (di_service x)) !! edges = Some (dc_now ck + STRUCTURAL_DRY_RUN_QUARANTINE)) as Hx
    end.
    { destruct (transfer_failed_token_to_quarantine _ _ _); cbn; by rewrite lookup_insert_eq. }
    destruct (cd_adaptive_flash_cap_bound candidate && _)%bool; [|exact Hx]. cbn.
    unfold demote_adaptive_flash_loan_cap. destruct (_ <=? _); exact Hx.
Qed.

(** ** Witnesses *)

(** A node that returns a profit of one token, [10 ^ 18], or fails inside the vault. *)
Definition demo_node (profit : Z) (p : Z) (tx : CallRequest) (block : option Z) : RpcAnswer (list Z) * Z :=
  (Answered (be_bytes 32 profit), p).
Definition demo_gas (p : Z) (tx : CallRequest) (block : option Z) : RpcAnswer Z * Z := (Answered 250000, p).
Definition demo_head (p : Z) : RpcAnswer Z * Z := (Answered 100, p).
Definition demo_balance (p : Z) (a : Address) : (Z + string) * Z := (inl (10 ^ 30), p).
Definition demo_connect (p : Z) : bool * Z := (true, p).
Definition demo_nonces (p : Z) (a : Address) : (Z + string) * (Z + string) * Z := (inl 5, inl 5, p).

Definition demo_config (dry : bool) : DispatchConfig :=
  {| dx_is_dry_run := dry; dx_profit_priority_fee_alpha_bps := 0;
     dx_max_global_consecutive_failures := 5; dx_min_operator_matic_wei := Some (10 ^ 18) |}.

Definition demo_readings : DispatchClock :=
  {| dc_global := 1; dc_now := 1; dc_hash := 1; dc_token := 1; dc_aave := 1; dc_zero_realized := 1;
     dc_transfer_failed := 1; dc_now_ms := 10; dc_mempool := (1, 1, 1); dc_settle := demo_clock |}.

(** The gas snapshot was taken at time 5. *)
Definition demo_fresh (o : GasOracle) : GasOracle :=
  {| go_snapshot := go_snapshot o; go_snapshot_updated_at_ms := 5; go_poll_interval_ms := go_poll_interval_ms o;
     go_route_gas := go_route_gas o; go_sim_scale_bps := go_sim_scale_bps o |}.

Definition demo_dispatcher : Dispatcher :=
  {| di_service := with_gas demo_fresh demo_service; di_flash := FlashLiquidity.new; di_nonce := None |}.

Definition demo_process (profit : Z) (dry : bool) : outcome (option (ExecutionOutcome * Dispatcher * Z)) :=
  process_candidate hex_address (parse_hex 40 0) ascii_text no_hex (demo_node profit) demo_gas demo_head
    demo_balance true demo_connect demo_nonces demo_send demo_pending demo_get demo_known (λ p, p)
    (λ _, false) demo_sleep (λ _ _, []) EmptyString 20 1 None None flash_fees_init (demo_config dry)
    demo_readings demo_candidate 9 0 0 None (Some 100) demo_dispatcher 0.

Definition demo_ends (r : outcome (option (ExecutionOutcome * Dispatcher * Z))) (f : ExecutionOutcome → bool) : bool :=
  match r with Prelude.Done (Some (o, _, _)) => f o | _ => false end.

Lemma sent_candidate_passed_gates_witness :
  match demo_process (10 ^ 18) false with
  | Prelude.Done (Some (outcome, _, _)) =>
      was_sent outcome = true ∧
      admitted (demo_config false) demo_readings demo_candidate 0 0 None (di_service demo_dispatcher)
  | _ => False
  end.
Proof.
  assert (demo_ends (demo_process (10 ^ 18) false) was_sent = true) as Hs by (vm_compute; reflexivity).
  destruct (demo_process (10 ^ 18) false) as [[[[outcome d'] p']|]|] eqn:E; [|discriminate Hs..]. cbn in Hs.
  split; [exact Hs|].
  destruct (sent_candidate_passed_gates hex_address (parse_hex 40 0) ascii_text no_hex (demo_node (10 ^ 18)) demo_gas
    demo_head demo_balance true demo_connect demo_nonces demo_send demo_pending demo_get demo_known (λ p, p)
    (λ _, false) demo_sleep (λ _ _, []) EmptyString 20 1 None None flash_fees_init (demo_config false)
    demo_readings demo_candidate 9 0 0 None (Some 100) demo_dispatcher d' 0 p' outcome E Hs) as (_ & H & _).
  exact H.
Defined.

Lemma failed_dry_run_cools_route_witness :
  match demo_process 0 false with
  | Prelude.Done (Some (_, d', _)) =>
      cooldown_gates (demo_config true) demo_readings demo_candidate (di_service d') = Some SkippedQuarantined
  | _ => False
  end.
Proof.
  assert (demo_ends (demo_process 0 false) is_dry_run_failed = true) as Hs by (vm_compute; reflexivity).
  destruct (demo_process 0 false) as [[[[outcome d'] p']|]|] eqn:E; [|discriminate Hs..]. cbn in Hs.
  destruct outcome; try discriminate Hs.
  destruct (failed_dry_run_cools_route hex_address (parse_hex 40 0) ascii_text no_hex (demo_node 0) demo_gas
    demo_head demo_balance true demo_connect demo_nonces demo_send demo_pending demo_get demo_known (λ p, p)
    (λ _, false) demo_sleep (λ _ _, []) EmptyString 20 1 None None flash_fees_init (demo_config false)
    demo_readings demo_candidate 9 0 0 None (Some 100) demo_dispatcher d' 0 p' reason E) as (_ & H).
  apply H; reflexivity.
Defined.

Lemma dry_run_mode_sends_nothing_witness :
  match demo_process (10 ^ 18) true with
  | Prelude.Done (Some (outcome, _, _)) => was_sent outcome = false
  | _ => False
  end.
Proof.
  assert (demo_ends (demo_process (10 ^ 18) true) (λ o, negb (was_sent o)) = true) as Hs by (vm_compute; reflexivity).
  destruct (demo_process (10 ^ 18) true) as [[[[outcome d'] p']|]|] eqn:E; [|discriminate Hs..]. cbn in Hs.
  destruct (dry_run_mode_sends_nothing hex_address (parse_hex 40 0) ascii_text no_hex (demo_node (10 ^ 18)) demo_gas
    demo_head demo_balance true demo_connect demo_nonces demo_send demo_pending demo_get demo_known (λ p, p)
    (λ _, false) demo_sleep (λ _ _, []) EmptyString 20 1 None None flash_fees_init (demo_config true)
    demo_readings demo_candidate 9 false demo_connect demo_nonces demo_send demo_pending demo_get demo_known
    0 0 None (Some 100) demo_dispatcher 0 eq_refl) as [_ H].
  destruct (H outcome d' p' E) as [Ho _]. exact Ho.
Defined.

(** Hexadecimal text, as the node's messages carry revert data. *)
Fixpoint demo_hex (s : string) : option (list Z) :=
  match s with
  | EmptyString => Some []
  | String a (String b s) =>
      let? hi := hex_digit a in let? lo := hex_digit b in let? rest := demo_hex s in Some (16 * hi + lo :: rest)
  | String _ EmptyString => None
  end.

(** A node that refuses the call, with this revert data. *)
Definition demo_refusal (data : list Z) (p : Z) (tx : CallRequest) (block : option Z) : RpcAnswer (list Z) * Z :=
  (Refused ("execution reverted: 0x" +:+ hex_bytes data), p).

Definition demo_refused (data : list Z) : outcome (option (ExecutionOutcome * Dispatcher * Z)) :=
  process_candidate hex_address (parse_hex 40 0) ascii_text demo_hex (demo_refusal data) demo_gas demo_head
    demo_balance true demo_connect demo_nonces demo_send demo_pending demo_get demo_known (λ p, p)
    (λ _, false) demo_sleep (λ _ _, []) EmptyString 20 1 None None flash_fees_init (demo_config false)
    demo_readings demo_candidate 9 0 0 None (Some 100) demo_dispatcher 0.

(** [Error("IIA")] *)
Definition demo_reason : list Z :=
  [8; 195; 121; 160] ++ be_bytes 32 32 ++ be_bytes 32 3 ++ [73; 73; 65] ++ repeat 0 29.

(** With a decoder that decodes: a readable revert ends the run with its reason, and the
    hostile one of [hostile_revert_aborts] with a panic. *)
Lemma process_candidate_returns_witness :
  ends_well hex_address ascii_text demo_hex (demo_refusal demo_reason) demo_candidate 9 0 (demo_refused demo_reason) ∧
  (∃ reason d' p', demo_refused demo_reason = Prelude.Done (Some (DryRunFailed reason, d', p'))) ∧
  demo_refused (huff_error 2 70000 96 (hostile_return (2 ^ 64 - 50) (be_bytes 64 0))) = Panic.
Proof.
  assert (∀ p t, p < (demo_sleep p t).2) as Hsleep by (intros p t; unfold demo_sleep; cbn; lia).
  assert (∀ p n p', demo_pending p = (inl n, p') → 0 ≤ n ≤ 2 ^ 63) as Hfit by (intros p n p' [= <- _]; lia).
  split; [|split].
  - apply (process_candidate_returns hex_address (parse_hex 40 0) ascii_text demo_hex (demo_refusal demo_reason)
      demo_gas demo_head demo_balance true demo_connect demo_nonces demo_send demo_pending demo_get demo_known
      (λ p, p) (λ _, false) demo_sleep (λ _ _, []) EmptyString 20 1 None None flash_fees_init (demo_config false)
      demo_readings demo_candidate 9 (λ p h, Z.le_refl p) Hsleep Hfit ltac:(lia)
      0 0 None (Some 100) demo_dispatcher 0). intros mgr [=].
  - assert (demo_ends (demo_refused demo_reason) is_dry_run_failed = true) as Hs by (vm_compute; reflexivity).
    destruct (demo_refused demo_reason) as [[[[outcome d'] p']|]|]; [|discriminate Hs..].
    destruct outcome; try discriminate Hs. by eexists _, _, _.
  - vm_compute. reflexivity.
Defined.

(** A call that fails inside the vault, after four failures. *)
Definition demo_vault_failure : DryRunResult :=
  dry_run_failure "BAL#327" (Some (ExternalCallFailed 0 60 "BAL#327")).
Definition demo_struck : Dispatcher :=
  with_route_risk (set_fail_counts {[ [] := 4 ]}) demo_dispatcher.

Lemma structural_failure_shortens_permanent_witness :
  es_quarantine (sv_risk (di_service
    (dry_run_failed demo_readings demo_candidate hex_address (parse_hex 40 0) demo_vault_failure demo_struck).2))
    !! [] = Some (1 + secs 600).
Proof.
  destruct (structural_failure_shortens_permanent demo_readings demo_candidate hex_address (parse_hex 40 0)
    demo_vault_failure demo_struck) as (_ & H & _); [vm_compute; reflexivity..|exact H].
Defined.
