(* ===== verification/CycleRank.v ===== *)
(** * Ranking, deduplicating and selecting cycles

    The comparators of [src/src/pipeline/types.rs], [dedupe_cycles_by_key] of
    [src/src/pipeline/cycle_filter.rs] and the selection across protocols of
    [src/src/pipeline/cycle_finder.rs].  [sort_unstable_by] is modelled by a stable
    sort, which is one of the orders it may produce; the digest of a route ([FxHasher])
    is a parameter. *)
From stdpp Require Import gmap sorting.
From Stdlib Require Import SpecFloat.
From S2P Require Import Prelude Word Types.

(** ** Comparisons *)

(** [then_with] *)
Definition then_with (c d : comparison) : comparison := match c with Eq => d | _ => c end.

(** The integer [f64::total_cmp] compares: the bits as a sign and a magnitude.  The model
    of [f64] has one NaN, taken as positive. *)
Definition f64_magnitude (x : f64) : Z :=
  match x with
  | S754_zero _ => 0
  | S754_finite _ m e => (e + 1074) * 2 ^ 52 + Zpos m
  | S754_infinity _ => 2047 * 2 ^ 52
  | S754_nan => 2047 * 2 ^ 52 + 2 ^ 51
  end.

Definition f64_negative (x : f64) : bool :=
  match x with S754_zero s | S754_infinity s | S754_finite s _ _ => s | S754_nan => false end.

Definition f64_order (x : f64) : Z :=
  if f64_negative x then - f64_magnitude x - 1 else f64_magnitude x.

Definition total_cmp (x y : f64) : comparison := f64_order x ?= f64_order y.

(** The order of two edges in [cycle_tie_break]. *)
Definition compare_edge (left right : Edge) : comparison :=
  then_with (pool_index left ?= pool_index right)
    (then_with (token_in left ?= token_in right)
       (then_with (token_out left ?= token_out right)
          (then_with (token_in_idx left ?= token_in_idx right)
             (token_out_idx left ?= token_out_idx right)))).

(** [.zip(..).find_map(..)] *)
Fixpoint first_difference (l r : list Edge) : option comparison :=
  match l, r with
  | a :: l, b :: r =>
      match compare_edge a b with Eq => first_difference l r | order => Some order end
  | _, _ => None
  end.

Definition cycle_tie_break (a b : FoundCycle) : comparison :=
  then_with (edge_hops a ?= edge_hops b)
    (then_with (fc_start_token a ?= fc_start_token b)
       (default (Nat.compare (length (fc_edges a)) (length (fc_edges b)))
          (first_difference (fc_edges a) (fc_edges b)))).

Definition compare_cycle_score (a b : FoundCycle) : comparison :=
  then_with (fc_cycle_ratio b ?= fc_cycle_ratio a)
    (then_with (total_cmp (fc_score a) (fc_score b)) (cycle_tie_break a b)).

(** [b.cmp(&a)] of booleans, [false] first. *)
Definition compare_bool (a b : bool) : comparison := Z.b2z a ?= Z.b2z b.

Definition compare_cycle_execution (a b : FoundCycle) : comparison :=
  let a_ok := ONE <? fc_cycle_ratio a in
  let b_ok := ONE <? fc_cycle_ratio b in
  then_with (compare_bool b_ok a_ok)
    (then_with (total_cmp (fc_score a) (fc_score b))
       (then_with (fc_cycle_ratio b ?= fc_cycle_ratio a) (cycle_tie_break a b))).

Definition cycle_prefers_candidate (candidate incumbent : FoundCycle) : bool :=
  match compare_cycle_score candidate incumbent with Lt => true | _ => false end.

(** ** Sorting by a comparator *)

Definition cmp_le {A} (cmp : A → A → comparison) (a b : A) : Prop := cmp a b ≠ Gt.

#[export] Instance cmp_le_dec {A} (cmp : A → A → comparison) : RelDecision (cmp_le cmp).
Proof. intros a b. unfold cmp_le. destruct (cmp a b); (by left) || (right; congruence). Defined.

Definition sort_by {A} (cmp : A → A → comparison) (l : list A) : list A := merge_sort (cmp_le cmp) l.

(** ** Deduplication *)

Section dedupe.
Context (key_for : list Edge → Z).

Record Dedupe := { dd_best : gmap Z FoundCycle; dd_collisions : gmap Z (list FoundCycle) }.

Definition better_of (cycle existing : FoundCycle) : FoundCycle :=
  if cycle_prefers_candidate cycle existing then cycle else existing.

Fixpoint bucket_insert (cycle : FoundCycle) (bucket : list FoundCycle) : list FoundCycle :=
  match bucket with
  | [] => [cycle]
  | existing :: bucket =>
      if decide (fc_edges existing = fc_edges cycle) then better_of cycle existing :: bucket
      else existing :: bucket_insert cycle bucket
  end.

Definition dedupe_step (d : Dedupe) (cycle : FoundCycle) : Dedupe :=
  let key := key_for (fc_edges cycle) in
  match dd_best d !! key with
  | Some e =>
      if decide (fc_edges e = fc_edges cycle)
      then {| dd_best := <[key := better_of cycle e]> (dd_best d); dd_collisions := dd_collisions d |}
      else
        let bucket := default [] (dd_collisions d !! key) in
        {| dd_best := dd_best d;
           dd_collisions := <[key := bucket_insert cycle bucket]> (dd_collisions d) |}
  | None => {| dd_best := <[key := cycle]> (dd_best d); dd_collisions := dd_collisions d |}
  end.

Definition dedupe_cycles_by_key (cycles : list FoundCycle) : list FoundCycle :=
  let d := fold_left dedupe_step cycles {| dd_best := ∅; dd_collisions := ∅ |} in
  sort_by compare_cycle_score
    ((map_to_list (dd_best d)).*2 ++ concat (map_to_list (dd_collisions d)).*2).
End dedupe.

(** [cycle_key] is the parameter. *)
Definition dedupe_cycles_by_edges (cycle_key : list Edge → Z) (cycles : list FoundCycle) : list FoundCycle :=
  dedupe_cycles_by_key cycle_key cycles.

(** ** Selection across protocols *)

Definition protocol_fetch_slot (p : ProtocolType) : nat := Z.to_nat (default 0 (fetch_slot p)).

Definition protocol_from_slot (slot : nat) : ProtocolType := protocol_of_slot (Z.of_nat slot).

(** [counts[slot]] *)
Definition slot_count (edges : list Edge) (slot : nat) : nat :=
  length (filter (λ e, protocol_fetch_slot (protocol e) = slot) edges).

Definition primary_protocol (edges : list Edge) : ProtocolType :=
  let first := match head edges with Some e => protocol_fetch_slot (protocol e) | None => O end in
  protocol_from_slot
    (fold_left (λ best i, if (slot_count edges best <? slot_count edges i)%nat then i else best)
       (seq 0 8) first).

(** The bucket a cycle goes to. *)
Definition cycle_slot (c : FoundCycle) : nat := protocol_fetch_slot (primary_protocol (fc_edges c)).

(** The buckets, each best first; [pop] after the [reverse] takes the head. *)
Definition protocol_groups (cycles : list FoundCycle) : list (list FoundCycle) :=
  (λ slot, sort_by compare_cycle_execution (filter (λ c, cycle_slot c = slot) cycles)) <$> seq 0 8.

(** [active[i] = active[active_len - 1]; active_len -= 1] *)
Definition swap_remove (i : nat) (active : list nat) : list nat :=
  match last active with
  | Some slot => take (length active - 1) (<[i := slot]> active)
  | None => active
  end.

(** The inner [while], one pass over the active buckets. *)
Fixpoint robin_pass (fuel cap i : nat) (groups : list (list FoundCycle)) (active : list nat)
    (selected : list FoundCycle) (progressed : bool)
  : list (list FoundCycle) * list nat * list FoundCycle * bool :=
  match fuel with
  | O => (groups, active, selected, progressed)
  | S fuel =>
      match active !! i with
      | None => (groups, active, selected, progressed)
      | Some slot =>
          if (cap <=? length selected)%nat then (groups, active, selected, progressed)
          else
            let g := default [] (groups !! slot) in
            let groups' := <[slot := tail g]> groups in
            let selected' := selected ++ option_list (head g) in
            let progressed' := (progressed || bool_decide (g ≠ []))%bool in
            if bool_decide (tail g = [])
            then robin_pass fuel cap i groups' (swap_remove i active) selected' progressed'
            else robin_pass fuel cap (S i) groups' active selected' progressed'
      end
  end.

(** The outer [while]. *)
Fixpoint robin_loop (fuel cap : nat) (groups : list (list FoundCycle)) (active : list nat)
    (selected : list FoundCycle) : list FoundCycle :=
  match fuel with
  | O => selected
  | S fuel =>
      if ((cap <=? length selected)%nat || bool_decide (active = []))%bool then selected
      else
        let '(groups, active, selected, progressed) :=
          robin_pass (length active) cap 0 groups active selected false in
        if progressed then robin_loop fuel cap groups active selected else selected
  end.

Definition active_slots (groups : list (list FoundCycle)) : list nat :=
  filter (λ slot, default [] (groups !! slot) ≠ []) (seq 0 8).

Definition apply_protocol_diverse_selection (cycle_key : list Edge → Z) (cycles : list FoundCycle)
    (max_cycles : nat) : list FoundCycle :=
  let cycles := dedupe_cycles_by_edges cycle_key cycles in
  if ((max_cycles =? 0)%nat || bool_decide (cycles = []))%bool then []
  else
    let groups := protocol_groups cycles in
    let total := sum_list (length <$> groups) in
    let cap := Nat.min max_cycles total in
    sort_by compare_cycle_execution (robin_loop cap cap groups (active_slots groups) []).

(** ** The comparators are total orders *)

(** A comparison that a sort can trust. *)
Class TotalCmp {A} (cmp : A → A → comparison) : Prop := {
  cmp_antisym : ∀ a b, cmp b a = CompOpp (cmp a b);
  cmp_trans : ∀ a b c, cmp_le cmp a b → cmp_le cmp b c → cmp_le cmp a c;
}.

Section total.
Context {A} (cmp : A → A → comparison) `{TotalCmp A cmp}.

#[export] Instance cmp_le_trans : Transitive (cmp_le cmp).
Proof using Type*. intros a b c. exact (cmp_trans (cmp := cmp) a b c). Qed.

#[export] Instance cmp_le_total : Total (cmp_le cmp).
Proof using Type*. intros a b. unfold cmp_le. rewrite (cmp_antisym (cmp := cmp) a b). destruct (cmp a b); auto. Qed.

Lemma sort_by_sorted l : StronglySorted (cmp_le cmp) (sort_by cmp l).
Proof using Type*. apply StronglySorted_merge_sort; apply _. Qed.
End total.

Lemma sort_by_perm {A} (cmp : A → A → comparison) l : sort_by cmp l ≡ₚ l.
Proof. apply merge_sort_Permutation. Qed.

Lemma elem_of_sort_by {A} (cmp : A → A → comparison) l x : x ∈ sort_by cmp l ↔ x ∈ l.
Proof. by rewrite sort_by_perm. Qed.

(** Lexicographic order, a prefix first. *)
Fixpoint lex (l k : list Z) : comparison :=
  match l, k with
  | [], [] => Eq
  | [], _ => Lt
  | _, [] => Gt
  | x :: l, y :: k => then_with (x ?= y) (lex l k)
  end.

Lemma lex_antisym l : ∀ k, lex k l = CompOpp (lex l k).
Proof.
  induction l as [|x l IH]; intros [|y k]; cbn; try done. rewrite (Z.compare_antisym x y).
  destruct (x ?= y); cbn; [apply IH|done..].
Qed.

Lemma lex_trans l : ∀ k m, lex l k ≠ Gt → lex k m ≠ Gt → lex l m ≠ Gt.
Proof.
  induction l as [|x l IH]; intros [|y k] [|z m]; cbn; try done.
  destruct (Z.compare_spec x y), (Z.compare_spec y z), (Z.compare_spec x z);
    cbn; try done; try lia. apply IH.
Qed.

(** A comparator that compares keys is total. *)
Lemma total_of_key {A} (cmp : A → A → comparison) (key : A → list Z) :
  (∀ a b, cmp a b = lex (key a) (key b)) → TotalCmp cmp.
Proof.
  intros Hk. split.
  - intros a b. rewrite !Hk. apply lex_antisym.
  - intros a b c. unfold cmp_le. rewrite !Hk. apply lex_trans.
Qed.

Definition edge_key (e : Edge) : list Z :=
  [pool_index e; token_in e; token_out e; token_in_idx e; token_out_idx e].

Definition route_key (c : FoundCycle) : list Z :=
  edge_hops c :: fc_start_token c :: (fc_edges c ≫= edge_key).

Definition score_key (c : FoundCycle) : list Z :=
  - fc_cycle_ratio c :: f64_order (fc_score c) :: route_key c.

Definition execution_key (c : FoundCycle) : list Z :=
  - Z.b2z (ONE <? fc_cycle_ratio c) :: f64_order (fc_score c) :: - fc_cycle_ratio c :: route_key c.

Lemma lex_app x y l k : length x = length y → lex (x ++ l) (y ++ k) = then_with (lex x y) (lex l k).
Proof.
  revert y. induction x as [|a x IH]; intros [|b y] Hl; cbn; try done.
  destruct (a ?= b); cbn; [|done..]. apply IH. by injection Hl.
Qed.

Lemma then_with_assoc a b c : then_with (then_with a b) c = then_with a (then_with b c).
Proof. by destruct a. Qed.

Lemma compare_opp x y : (- x ?= - y) = (y ?= x).
Proof. destruct (Z.compare_spec (- x) (- y)), (Z.compare_spec y x); (done || lia). Qed.

Lemma compare_edge_key a b : compare_edge a b = lex (edge_key a) (edge_key b).
Proof. unfold compare_edge, edge_key. cbn. by destruct (token_out_idx a ?= _). Qed.

Lemma edges_key l : ∀ k,
  default (Nat.compare (length l) (length k)) (first_difference l k) = lex (l ≫= edge_key) (k ≫= edge_key).
Proof.
  induction l as [|a l IH]; intros [|b k]; [done..|].
  rewrite !bind_cons, lex_app by done. rewrite <- compare_edge_key, <- IH. cbn [first_difference length].
  by destruct (compare_edge a b).
Qed.

Lemma tie_break_key a b : cycle_tie_break a b = lex (route_key a) (route_key b).
Proof. unfold cycle_tie_break. by rewrite edges_key. Qed.

#[export] Instance score_total : TotalCmp compare_cycle_score.
Proof.
  apply (total_of_key _ score_key). intros a b. unfold compare_cycle_score.
  rewrite tie_break_key. cbn [lex score_key]. by rewrite compare_opp.
Qed.

#[export] Instance execution_total : TotalCmp compare_cycle_execution.
Proof.
  apply (total_of_key _ execution_key). intros a b. unfold compare_cycle_execution, compare_bool.
  rewrite tie_break_key. cbn [lex execution_key]. by rewrite !compare_opp.
Qed.

(** ** Deduplication keeps the best of each route *)

(** [o] ranks at least as high as [c]. *)
Abbreviation ranks_before := (cmp_le compare_cycle_score).

Lemma ranks_before_refl c : ranks_before c c.
Proof. destruct (total ranks_before c c); done. Qed.

Lemma better_of_spec cycle existing :
  fc_edges existing = fc_edges cycle →
  fc_edges (better_of cycle existing) = fc_edges cycle ∧
  (better_of cycle existing = cycle ∨ better_of cycle existing = existing) ∧
  ranks_before (better_of cycle existing) cycle ∧ ranks_before (better_of cycle existing) existing.
Proof.
  intros He. unfold better_of, cycle_prefers_candidate.
  pose proof (cmp_antisym (cmp := compare_cycle_score) cycle existing) as Ha.
  pose proof (ranks_before_refl cycle). pose proof (ranks_before_refl existing).
  unfold cmp_le in *. destruct (compare_cycle_score cycle existing) eqn:E; rewrite ?Ha; cbn;
    split_and!; auto; congruence.
Qed.

Section dedupe.
Context (key_for : list Edge → Z).

Definition held (d : Dedupe) (o : FoundCycle) : Prop :=
  (∃ k, dd_best d !! k = Some o) ∨ (∃ k b, dd_collisions d !! k = Some b ∧ o ∈ b).

Record dedupe_ok (p : list FoundCycle) (d : Dedupe) : Prop := {
  do_best k o : dd_best d !! k = Some o → key_for (fc_edges o) = k ∧ o ∈ p;
  do_bucket k b : dd_collisions d !! k = Some b →
    (∃ e, dd_best d !! k = Some e ∧ fc_edges e ∉ (fc_edges <$> b)) ∧ NoDup (fc_edges <$> b) ∧
    Forall (λ o, key_for (fc_edges o) = k ∧ o ∈ p) b;
  do_cover c : c ∈ p → ∃ o, held d o ∧ fc_edges o = fc_edges c ∧ ranks_before o c;
}.

Lemma bucket_insert_spec cycle b :
  NoDup (fc_edges <$> b) →
  NoDup (fc_edges <$> bucket_insert cycle b) ∧
  (∀ o, o ∈ bucket_insert cycle b → o = cycle ∨ o ∈ b) ∧
  (∃ o, o ∈ bucket_insert cycle b ∧ fc_edges o = fc_edges cycle ∧ ranks_before o cycle) ∧
  (∀ c, c ∈ b → ∃ o, o ∈ bucket_insert cycle b ∧ fc_edges o = fc_edges c ∧ ranks_before o c) ∧
  (∀ es, es ∈ fc_edges <$> bucket_insert cycle b ↔ es = fc_edges cycle ∨ es ∈ fc_edges <$> b).
Proof.
  induction b as [|e b IH]; intros Hnd; cbn [bucket_insert].
  { split_and!; [apply NoDup_singleton|set_solver| |set_solver|set_solver].
    exists cycle. split_and!; [set_solver|done|apply ranks_before_refl]. }
  apply NoDup_cons in Hnd as [He Hnd]. case_decide as Hd.
  - destruct (better_of_spec cycle e Hd) as (Hes & Hor & Hr1 & Hr2).
    split_and!.
    + rewrite fmap_cons, Hes, <- Hd. by constructor.
    + intros o [->|]%elem_of_cons; [destruct Hor as [->| ->]|]; set_solver.
    + exists (better_of cycle e). split_and!; [set_solver|done|done].
    + intros c [->|Hc]%elem_of_cons.
      * exists (better_of cycle e). split_and!; [set_solver|congruence|done].
      * exists c. split_and!; [set_solver|done|apply ranks_before_refl].
    + intros es. rewrite !fmap_cons, !elem_of_cons, Hes, Hd. naive_solver.
  - destruct (IH Hnd) as (H1 & H2 & (o & Ho & Hoe & Hor) & H4 & H5). split_and!.
    + rewrite fmap_cons. constructor; [|done]. rewrite H5. naive_solver.
    + intros o' [->|Ho']%elem_of_cons; [set_solver|]. destruct (H2 _ Ho'); set_solver.
    + exists o. split_and!; [set_solver|done|done].
    + intros c [->|Hc]%elem_of_cons.
      * exists e. split_and!; [set_solver|done|apply ranks_before_refl].
      * destruct (H4 c Hc) as (o' & ? & ? & ?). exists o'. split_and!; [set_solver|done|done].
    + intros es. rewrite !fmap_cons, !elem_of_cons, H5. naive_solver.
Qed.

(** A cover survives when what held it is replaced by something at least as good. *)
Lemma cover_mono d d' c :
  (∀ o, held d o → ∃ o', held d' o' ∧ fc_edges o' = fc_edges o ∧ ranks_before o' o) →
  (∃ o, held d o ∧ fc_edges o = fc_edges c ∧ ranks_before o c) →
  ∃ o, held d' o ∧ fc_edges o = fc_edges c ∧ ranks_before o c.
Proof.
  intros Hm (o & Ho & He & Hr). destruct (Hm o Ho) as (o' & Ho' & He' & Hr').
  exists o'. split_and!; [done|congruence|by transitivity o].
Qed.

Lemma held_self (d : Dedupe) o :
  held d o → ∃ o', held d o' ∧ fc_edges o' = fc_edges o ∧ ranks_before o' o.
Proof. exists o. split_and!; [done|done|apply ranks_before_refl]. Qed.

Lemma dedupe_step_ok p d cycle : dedupe_ok p d → dedupe_ok (p ++ [cycle]) (dedupe_step key_for d cycle).
Proof.
  intros [Hb Hc Hv]. unfold dedupe_step. set (key := key_for (fc_edges cycle)).
  assert (∀ o, o ∈ p → o ∈ p ++ [cycle]) as Hp by set_solver.
  destruct (dd_best d !! key) as [e|] eqn:He; [case_decide as Hd|].
  - destruct (better_of_spec cycle e Hd) as (Hes & Hor & Hr1 & Hr2). split; cbn.
    + intros k o [[<- <-]|[? Ho]]%lookup_insert_Some.
      * rewrite Hes. split; [done|]. destruct (Hb _ _ He). destruct Hor as [->| ->]; set_solver.
      * destruct (Hb _ _ Ho). auto.
    + intros k b Hkb. destruct (Hc _ _ Hkb) as ((e' & He' & Hn) & Hnd & Hf). split_and!; [|done|].
      * destruct (decide (k = key)) as [->|]; [|exists e'; by rewrite lookup_insert_ne].
        exists (better_of cycle e). rewrite lookup_insert_eq. split; [done|]. congruence.
      * eapply Forall_impl; [done|]. naive_solver.
    + intros c [Hcp| ->%list_elem_of_singleton]%elem_of_app.
      * eapply cover_mono; [|by apply Hv]. intros o [[k Ho]|Ho].
        -- destruct (decide (k = key)) as [->|].
           ++ exists (better_of cycle e). split_and!; [left; exists key; apply lookup_insert_eq|congruence|congruence].
           ++ apply held_self. left. exists k. cbn. by rewrite lookup_insert_ne.
        -- apply held_self. by right.
      * exists (better_of cycle e). split_and!; [left; exists key; apply lookup_insert_eq|done|done].
  - set (bucket := default [] (dd_collisions d !! key)).
    assert (NoDup (fc_edges <$> bucket) ∧ fc_edges e ∉ fc_edges <$> bucket ∧
            Forall (λ o, key_for (fc_edges o) = key ∧ o ∈ p) bucket) as (Hnd & Hn & Hf).
    { unfold bucket. destruct (dd_collisions d !! key) as [b|] eqn:Hkb; cbn.
      - destruct (Hc _ _ Hkb) as ((e' & He' & ?) & ? & ?). naive_solver.
      - split_and!; [constructor|set_solver|done]. }
    destruct (bucket_insert_spec cycle bucket Hnd) as (H1 & H2 & H3 & H4 & H5). split; cbn.
    + intros k o Ho. destruct (Hb _ _ Ho). auto.
    + intros k b [[<- <-]|[? Hkb]]%lookup_insert_Some.
      * split_and!; [|done|].
        -- exists e. split; [done|]. rewrite H5. naive_solver.
        -- apply Forall_forall. intros o [-> |Ho]%H2; [split; [done|set_solver]|].
           rewrite Forall_forall in Hf. naive_solver.
      * destruct (Hc _ _ Hkb) as (? & ? & ?). split_and!; [done|done|].
        eapply Forall_impl; [done|]. naive_solver.
    + intros c [Hcp| ->%list_elem_of_singleton]%elem_of_app.
      * eapply cover_mono; [|by apply Hv]. intros o [Ho|(k & b & Hkb & Hob)]; [apply held_self; by left|].
        destruct (decide (k = key)) as [->|].
        -- assert (bucket = b) as Hbb by (unfold bucket; by rewrite Hkb). rewrite <- Hbb in Hob.
           destruct (H4 o Hob) as (o' & ? & ? & ?). exists o'. split_and!; [|done|done].
           right. exists key, (bucket_insert cycle bucket). split; [apply lookup_insert_eq|done].
        -- apply held_self. right. exists k, b. cbn. by rewrite lookup_insert_ne.
      * destruct H3 as (o & ? & ? & ?). exists o. split_and!; [|done|done].
        right. exists key, (bucket_insert cycle bucket). split; [apply lookup_insert_eq|done].
  - split; cbn.
    + intros k o [[<- <-]|[? Ho]]%lookup_insert_Some; [split; [done|set_solver]|].
      destruct (Hb _ _ Ho). auto.
    + intros k b Hkb. destruct (Hc _ _ Hkb) as ((e' & He' & Hn) & Hnd & Hf). split_and!; [|done|].
      * exists e'. rewrite lookup_insert_ne; [done|]. congruence.
      * eapply Forall_impl; [done|]. naive_solver.
    + intros c [Hcp| ->%list_elem_of_singleton]%elem_of_app.
      * eapply cover_mono; [|by apply Hv]. intros o [[k Ho]|Ho]; apply held_self; [left|by right].
        exists k. cbn. rewrite lookup_insert_ne; [done|]. congruence.
      * exists cycle. split_and!; [left; exists key; apply lookup_insert_eq|done|apply ranks_before_refl].
Qed.

Lemma dedupe_ok_empty : dedupe_ok [] {| dd_best := ∅; dd_collisions := ∅ |}.
Proof. split; cbn; [intros k o; by rewrite lookup_empty|intros k b; by rewrite lookup_empty|set_solver]. Qed.

Lemma dedupe_fold_ok cycles : ∀ p d, dedupe_ok p d → dedupe_ok (p ++ cycles) (fold_left (dedupe_step key_for) cycles d).
Proof.
  induction cycles as [|c cycles IH]; intros p d Hd; [by rewrite app_nil_r|].
  cbn. rewrite (cons_middle c p cycles), app_assoc. by apply IH, dedupe_step_ok.
Qed.

(** What is in the map and the buckets, as a list. *)
Definition entries (d : Dedupe) : list FoundCycle :=
  (map_to_list (dd_best d)).*2 ++ concat (map_to_list (dd_collisions d)).*2.

Lemma elem_of_entries d o : o ∈ entries d ↔ held d o.
Proof.
  unfold entries, held. rewrite elem_of_app. f_equiv.
  - rewrite list_elem_of_fmap. setoid_rewrite <- elem_of_map_to_list. split.
    + intros ([k o'] & -> & ?). by exists k.
    + intros [k ?]. by exists (k, o).
  - rewrite list_elem_of_In, in_concat. split.
    + intros (b & Hb & Ho). apply list_elem_of_In, list_elem_of_fmap in Hb as ([k b'] & -> & Hb).
      apply elem_of_map_to_list in Hb. exists k, b'. by rewrite list_elem_of_In.
    + intros (k & b & Hb & Ho). exists b. rewrite <- !list_elem_of_In. split; [|done].
      apply list_elem_of_fmap. exists (k, b). by rewrite elem_of_map_to_list.
Qed.

Lemma best_edges_NoDup (l : list (Z * FoundCycle)) :
  NoDup l.*1 → Forall (λ x, key_for (fc_edges x.2) = x.1) l → NoDup (fc_edges <$> l.*2).
Proof.
  intros Hnd Hf. apply (NoDup_fmap_1 key_for).
  replace (key_for <$> (fc_edges <$> l.*2)) with l.*1; [done|].
  clear Hnd. induction Hf as [|[k o] l Hk _ IH]; [done|]. cbn in *. by rewrite Hk, IH.
Qed.

Lemma bucket_edges_NoDup (l : list (Z * list FoundCycle)) :
  NoDup l.*1 →
  Forall (λ x, NoDup (fc_edges <$> x.2) ∧ Forall (λ o, key_for (fc_edges o) = x.1) x.2) l →
  NoDup (fc_edges <$> concat l.*2).
Proof.
  intros Hnd Hf. induction Hf as [|[k b] l [Hb Hk] Hf IH]; [constructor|]. cbn in *.
  apply NoDup_cons in Hnd as [Hn Hnd]. rewrite fmap_app. apply NoDup_app. split_and!; [done| |by apply IH].
  intros es (o & -> & Ho)%list_elem_of_fmap (o' & He & Ho')%list_elem_of_fmap.
  rewrite list_elem_of_In in Ho'. apply in_concat in Ho' as (b' & Hb' & Ho').
  apply list_elem_of_In, list_elem_of_fmap in Hb' as ([k' b''] & -> & Hin). rewrite <- list_elem_of_In in Ho'.
  rewrite Forall_forall in Hk; rewrite Forall_forall in Hf. destruct (Hf _ Hin) as [_ Hk']. rewrite Forall_forall in Hk'.
  apply Hn, list_elem_of_fmap. exists (k', b''). split; [|done].
  cbn in *. rewrite <- (Hk o Ho), <- (Hk' o' Ho'). by rewrite He.
Qed.

Lemma entries_NoDup p d : dedupe_ok p d → NoDup (fc_edges <$> entries d).
Proof.
  intros [Hb Hc _]. unfold entries. rewrite fmap_app. apply NoDup_app. split_and!.
  - apply best_edges_NoDup; [apply NoDup_fst_map_to_list|].
    apply Forall_forall. intros [k o] Ho%elem_of_map_to_list. by apply Hb.
  - intros es (o & -> & Ho)%list_elem_of_fmap (o' & He & Ho')%list_elem_of_fmap.
    apply list_elem_of_fmap in Ho as ([k o''] & -> & Ho%elem_of_map_to_list). cbn in *.
    rewrite list_elem_of_In in Ho'. apply in_concat in Ho' as (b & Hb' & Ho').
    apply list_elem_of_In, list_elem_of_fmap in Hb' as ([k' b'] & -> & Hin%elem_of_map_to_list).
    rewrite <- list_elem_of_In in Ho'. cbn in Ho'.
    destruct (Hc _ _ Hin) as ((e & He' & Hn) & _ & Hf). rewrite Forall_forall in Hf.
    destruct (Hf _ Ho') as [Hk' _]. destruct (Hb _ _ Ho) as [Hk _].
    assert (k = k') as -> by congruence. rewrite Ho in He'. injection He' as ->.
    apply Hn, list_elem_of_fmap. by exists o'.
  - apply bucket_edges_NoDup; [apply NoDup_fst_map_to_list|].
    apply Forall_forall. intros [k b] Hkb%elem_of_map_to_list. destruct (Hc _ _ Hkb) as (_ & ? & Hf).
    split; [done|]. eapply Forall_impl; [done|]. naive_solver.
Qed.

Lemma dedupe_spec (cycles : list FoundCycle) :
  let out := dedupe_cycles_by_key key_for cycles in
  NoDup (fc_edges <$> out) ∧ StronglySorted ranks_before out ∧ (∀ o, o ∈ out → o ∈ cycles) ∧
  (∀ c, c ∈ cycles → ∃ o, o ∈ out ∧ fc_edges o = fc_edges c ∧ ranks_before o c).
Proof.
  unfold dedupe_cycles_by_key.
  pose proof (dedupe_fold_ok cycles [] _ dedupe_ok_empty) as Hok. cbn [app] in Hok.
  set (d := fold_left _ cycles _) in *. fold (entries d). split_and!.
  - rewrite sort_by_perm. by eapply entries_NoDup.
  - apply sort_by_sorted, _.
  - intros o. rewrite elem_of_sort_by, elem_of_entries. destruct Hok as [Hb Hc _].
    intros [[k Ho]|(k & b & Hkb & Ho)]; [by apply Hb in Ho as []|].
    destruct (Hc _ _ Hkb) as (_ & _ & Hf). rewrite Forall_forall in Hf. by apply Hf.
  - intros c Hcin. destruct (do_cover _ _ Hok c Hcin) as (o & Ho & ? & ?).
    exists o. rewrite elem_of_sort_by, elem_of_entries. auto.
Qed.
End dedupe.

(** Deduplication keeps the best variant of every route, whatever the digest: routes that
    collide are told apart.  The result has each list of edges of the input exactly once,
    held by a cycle of the input that no other with these edges ranks ahead of, in the
    order of the score. *)
Theorem dedupe_keeps_best (cycle_key : list Edge → Z) (cycles : list FoundCycle) :
  let out := dedupe_cycles_by_edges cycle_key cycles in
  NoDup (fc_edges <$> out) ∧ StronglySorted ranks_before out ∧ (∀ o, o ∈ out → o ∈ cycles) ∧
  (∀ c, c ∈ cycles → ∃ o, o ∈ out ∧ fc_edges o = fc_edges c ∧ ranks_before o c) ∧
  (∀ o c, o ∈ out → c ∈ cycles → fc_edges c = fc_edges o → cycle_prefers_candidate c o = false).
Proof.
  unfold dedupe_cycles_by_edges.
  destruct (dedupe_spec cycle_key cycles) as (Hnd & Hs & Hin & Hc). cbn zeta.
  split_and!; [done..|]. intros o c Ho Hcin He. destruct (Hc c Hcin) as (o' & Ho' & He' & Hr).
  assert (o' = o) as ->.
  { assert (fc_edges o' = fc_edges o) as Heq by congruence.
    apply list_elem_of_lookup in Ho as [i Hi], Ho' as [j Hj].
    assert (i = j) as ->; [|congruence]. eapply (NoDup_lookup _ _ _ _ Hnd); rewrite list_lookup_fmap.
    - by rewrite Hi.
    - rewrite Hj. cbn. by rewrite Heq. }
  unfold cycle_prefers_candidate. unfold cmp_le in Hr.
  rewrite (cmp_antisym (cmp := compare_cycle_score) o c). by destruct (compare_cycle_score o c).
Qed.

(** ** The selection is fair to the protocols *)

Lemma bind_gains {A} (l : list nat) (f f' : nat → list A) x h :
  NoDup l → x ∈ l → f' x ≡ₚ h :: f x → (∀ y, y ≠ x → f' y ≡ₚ f y) →
  l ≫= f' ≡ₚ h :: (l ≫= f).
Proof.
  intros Hnd Hx Hfx Hfy. induction Hnd as [|y l Hy Hnd IH]; [by apply not_elem_of_nil in Hx|].
  rewrite !bind_cons. apply elem_of_cons in Hx as [->|Hx].
  - rewrite Hfx. cbn. f_equiv. f_equiv. clear IH Hnd Hfx. induction l as [|z l IH]; [done|].
    apply not_elem_of_cons in Hy as [Hyz Hyl]. rewrite !bind_cons, (Hfy z) by congruence. by rewrite IH.
  - rewrite IH by done. rewrite (Hfy y) by (intros ->; contradiction). by rewrite Permutation_middle.
Qed.

Lemma slots_partition {A} (slot : A → nat) n l :
  (∀ c, c ∈ l → (slot c < n)%nat) → seq 0 n ≫= (λ s, filter (λ c, slot c = s) l) ≡ₚ l.
Proof.
  induction l as [|c l IH]; intros Hl.
  { induction (seq 0 n) as [|s ss IH']; [done|]. by rewrite bind_cons, IH'. }
  etrans; [|apply perm_skip, IH; intros; apply Hl; by right]. apply (bind_gains _ _ _ (slot c)).
  - apply NoDup_seq.
  - apply elem_of_seq. pose proof (Hl c (list_elem_of_here _ _)). lia.
  - by rewrite filter_cons_True.
  - intros y Hy. by rewrite filter_cons_False.
Qed.

Lemma cycle_slot_lt c : (cycle_slot c < 8)%nat.
Proof. unfold cycle_slot, protocol_fetch_slot. destruct (primary_protocol _); cbn; lia. Qed.

Lemma swap_remove_lookup i active slot :
  active !! i = Some slot →
  ∃ z, last active = Some z ∧ ∀ j x, swap_remove i active !! j = Some x ↔
    (j < length active - 1)%nat ∧ (if (j =? i)%nat then x = z else active !! j = Some x).
Proof.
  intros Hi. pose proof (lookup_lt_Some _ _ _ Hi). unfold swap_remove.
  destruct (last active) as [z|] eqn:Hz; [|apply last_None in Hz; by subst].
  exists z. split; [done|]. intros j x. rewrite lookup_take_Some. split.
  - intros [Hj Hl]. split; [done|]. destruct (Nat.eqb_spec j i) as [->|Hne].
    + rewrite list_lookup_insert_eq in Hj by done. by injection Hj.
    + by rewrite list_lookup_insert_ne in Hj by done.
  - intros [Hl Hj]. split; [|done]. destruct (Nat.eqb_spec j i) as [->|Hne].
    + rewrite list_lookup_insert_eq by done. by subst.
    + by rewrite list_lookup_insert_ne by done.
Qed.

Lemma swap_remove_spec i active slot :
  NoDup active → active !! i = Some slot →
  NoDup (swap_remove i active) ∧ (∀ x, x ∈ swap_remove i active ↔ x ∈ active ∧ x ≠ slot) ∧
  (∀ j x, swap_remove i active !! j = Some x → ∃ j', active !! j' = Some x ∧ (j' <? i)%nat = (j <? i)%nat) ∧
  length (swap_remove i active) = (length active - 1)%nat.
Proof.
  intros Hnd Hi. pose proof (lookup_lt_Some _ _ _ Hi) as Hlt.
  destruct (swap_remove_lookup i active slot Hi) as (z & Hz & Hl). rewrite last_lookup in Hz.
  assert (∀ j x, swap_remove i active !! j = Some x →
    ∃ j', active !! j' = Some x ∧ (j' <? i)%nat = (j <? i)%nat ∧ j' ≠ i ∧
      j' = (if (j =? i)%nat then pred (length active) else j)) as Hback.
  { intros j x [Hj Hx]%Hl. destruct (Nat.eqb_spec j i) as [->|Hne].
    - subst. exists (pred (length active)). split_and!; [done| |lia|done].
      destruct (Nat.ltb_spec (pred (length active)) i), (Nat.ltb_spec i i); (done || lia).
    - exists j. by split_and!. }
  split_and!.
  - apply NoDup_alt. intros j k x Hj Hk.
    destruct (Hback _ _ Hj) as (j' & Hj' & _ & _ & ->), (Hback _ _ Hk) as (k' & Hk' & _ & _ & ->).
    pose proof (NoDup_lookup _ _ _ _ Hnd Hj' Hk') as He.
    apply Hl in Hj as [? _], Hk as [? _].
    destruct (Nat.eqb_spec j i), (Nat.eqb_spec k i); lia.
  - intros x. split.
    + intros [j Hj]%list_elem_of_lookup. destruct (Hback _ _ Hj) as (j' & Hj' & _ & Hne & _).
      split; [by eapply list_elem_of_lookup_2|]. intros ->. apply Hne. by eapply NoDup_lookup.
    + intros [[j Hj]%list_elem_of_lookup Hne]. pose proof (lookup_lt_Some _ _ _ Hj).
      destruct (decide (j = i)) as [->|Hji]; [congruence|].
      destruct (decide (j = pred (length active))) as [->|Hjl].
      * apply list_elem_of_lookup. exists i. apply Hl. rewrite Nat.eqb_refl. split; [lia|congruence].
      * apply list_elem_of_lookup. exists j. apply Hl.
        destruct (Nat.eqb_spec j i); [done|]. split; [lia|done].
  - intros j x Hj. destruct (Hback _ _ Hj) as (j' & ? & ? & _). by exists j'.
  - unfold swap_remove. rewrite last_lookup, Hz, length_take, length_insert. lia.
Qed.

Section robin.
Context (G : list (list FoundCycle)).

Definition grp (x : nat) : list FoundCycle := default [] (G !! x).

(** In round [k], with [i] of the active buckets served: what was taken from each. *)
Record robin_inv (taken : nat → nat) (k i : nat) (groups : list (list FoundCycle))
    (active : list nat) (selected : list FoundCycle) : Prop := {
  ri_length : length groups = length G;
  ri_groups x : default [] (groups !! x) = drop (taken x) (grp x);
  ri_nodup : NoDup active;
  ri_active x : x ∈ active ↔ (taken x < length (grp x))%nat;
  ri_taken x : (taken x ≤ length (grp x))%nat;
  ri_done x : x ∉ active → (length (grp x) ≤ S k)%nat;
  ri_count j x : active !! j = Some x → taken x = if (j <? i)%nat then S k else k;
  ri_selected : selected ≡ₚ seq 0 (length G) ≫= (λ x, take (taken x) (grp x));
}.

Definition take_one (taken : nat → nat) (slot x : nat) : nat :=
  if decide (x = slot) then S (taken x) else taken x.

Lemma grp_bound x : (0 < length (grp x))%nat → (x < length G)%nat.
Proof.
  unfold grp. destruct (G !! x) eqn:Hx; cbn; [|lia]. intros _. by eapply lookup_lt_Some.
Qed.

(** Serving one bucket. *)
Lemma robin_take taken k i groups active selected slot :
  robin_inv taken k i groups active selected → active !! i = Some slot →
  ∃ h, head (default [] (groups !! slot)) = Some h ∧
    default [] (groups !! slot) ≠ [] ∧
    (∀ x, default [] (<[slot := tail (default [] (groups !! slot))]> groups !! x)
          = drop (take_one taken slot x) (grp x)) ∧
    selected ++ [h] ≡ₚ seq 0 (length G) ≫= (λ x, take (take_one taken slot x) (grp x)).
Proof.
  intros Hinv Hi. assert (slot ∈ active) as Hs by (by eapply list_elem_of_lookup_2).
  apply (ri_active _ _ _ _ _ _ Hinv) in Hs as Hlt.
  assert (slot < length G)%nat as HG by (apply grp_bound; lia).
  rewrite (ri_groups _ _ _ _ _ _ Hinv). destruct (lookup_lt_is_Some_2 (grp slot) (taken slot) Hlt) as [h Hh].
  rewrite (drop_S _ _ _ Hh). exists h. split_and!; [done|done| |].
  - intros x. unfold take_one. case_decide as Hd; [subst x|].
    + rewrite list_lookup_insert_eq by (by rewrite (ri_length _ _ _ _ _ _ Hinv)). done.
    + rewrite list_lookup_insert_ne by done. apply (ri_groups _ _ _ _ _ _ Hinv).
  - rewrite <- Permutation_cons_append, (ri_selected _ _ _ _ _ _ Hinv). symmetry.
    apply (bind_gains _ _ _ slot); [apply NoDup_seq|apply elem_of_seq; lia| |].
    + unfold take_one. rewrite decide_True by done. rewrite (take_S_r _ _ _ Hh). symmetry. apply Permutation_cons_append.
    + intros y Hy. unfold take_one. by rewrite decide_False.
Qed.

(** The bucket has more: it stays active. *)
Lemma robin_keep taken k i groups active selected slot h :
  robin_inv taken k i groups active selected → active !! i = Some slot →
  head (default [] (groups !! slot)) = Some h → tail (default [] (groups !! slot)) ≠ [] →
  robin_inv (take_one taken slot) k (S i) (<[slot := tail (default [] (groups !! slot))]> groups) active
    (selected ++ [h]).
Proof.
  intros Hinv Hi Hh Ht. destruct (robin_take _ _ _ _ _ _ _ Hinv Hi) as (h' & Hh' & _ & Hg & Hsel).
  assert (h' = h) as -> by congruence.
  assert (S (taken slot) < length (grp slot))%nat as Hmore.
  { apply Nat.nle_gt. intros Hle. apply Ht, nil_length_inv.
    rewrite (ri_groups _ _ _ _ _ _ Hinv), length_tl, length_drop. lia. }
  destruct Hinv as [Hlen Hgr Hnd Hact Htk Hdn Hct Hsl]. split; [by rewrite length_insert|done|done| | |done| |done].
  - intros x. rewrite Hact. unfold take_one. case_decide; [subst; lia|done].
  - intros x. unfold take_one. case_decide; [subst; lia|apply Htk].
  - intros j x Hj. pose proof (Hct _ _ Hj) as Hc. unfold take_one. case_decide as Hd.
    + subst x. assert (j = i) as -> by (by eapply NoDup_lookup). rewrite Hc.
      destruct (Nat.ltb_spec i i), (Nat.ltb_spec i (S i)); lia.
    + rewrite Hc. assert (j ≠ i) by congruence.
      destruct (Nat.ltb_spec j i), (Nat.ltb_spec j (S i)); lia.
Qed.

(** The bucket is exhausted: it leaves the active ones, and the last takes its place. *)
Lemma robin_drop taken k i groups active selected slot h :
  robin_inv taken k i groups active selected → active !! i = Some slot →
  head (default [] (groups !! slot)) = Some h → tail (default [] (groups !! slot)) = [] →
  robin_inv (take_one taken slot) k i (<[slot := tail (default [] (groups !! slot))]> groups)
    (swap_remove i active) (selected ++ [h]).
Proof.
  intros Hinv Hi Hh Ht. destruct (robin_take _ _ _ _ _ _ _ Hinv Hi) as (h' & Hh' & _ & Hg & Hsel).
  assert (h' = h) as -> by congruence.
  destruct (swap_remove_spec i active slot (ri_nodup _ _ _ _ _ _ Hinv) Hi) as (Hnd' & Hin & Hback & _).
  assert (length (grp slot) = S (taken slot)) as Hlast.
  { rewrite (ri_groups _ _ _ _ _ _ Hinv) in Ht, Hh. apply (f_equal length) in Ht.
    rewrite length_tl, length_drop in Ht. cbn in Ht.
    destruct (drop (taken slot) (grp slot)) eqn:Hd; [done|]. apply (f_equal length) in Hd.
    rewrite length_drop in Hd. cbn in Hd. lia. }
  destruct Hinv as [Hlen Hgr Hnd Hact Htk Hdn Hct Hsl].
  split; [by rewrite length_insert|done|done| | | | |done].
  - intros x. rewrite Hin, Hact. unfold take_one. case_decide; [subst; lia|naive_solver].
  - intros x. unfold take_one. case_decide; [subst; lia|apply Htk].
  - intros x Hx. destruct (decide (x = slot)) as [->|Hne].
    + rewrite Hlast. pose proof (Hct _ _ Hi) as Hc. rewrite Nat.ltb_irrefl in Hc. lia.
    + apply Hdn. intros Hxa. apply Hx. by apply Hin.
  - intros j x Hj. destruct (Hback _ _ Hj) as (j' & Hj' & He). rewrite <- He, <- (Hct _ _ Hj').
    unfold take_one. rewrite decide_False; [done|]. apply Hin. by eapply list_elem_of_lookup_2.
Qed.

(** A pass ends at the cap or with every active bucket served. *)
Lemma robin_pass_spec fuel cap : ∀ taken k i groups active selected progressed,
  robin_inv taken k i groups active selected → (length selected ≤ cap)%nat →
  (length active ≤ fuel + i)%nat →
  let '(groups', active', selected', progressed') :=
    robin_pass fuel cap i groups active selected progressed in
  ∃ taken' i', robin_inv taken' k i' groups' active' selected' ∧
    (length selected ≤ length selected' ≤ cap)%nat ∧
    ((cap ≤ length selected')%nat ∨ (length active' ≤ i')%nat) ∧
    (progressed' = true ↔ progressed = true ∨ (length selected < length selected')%nat) ∧
    ((i < length active)%nat → (length selected < cap)%nat → (length selected < length selected')%nat).
Proof.
  induction fuel as [|fuel IH]; intros taken k i groups active selected progressed Hinv Hcap Hfuel;
    cbn [robin_pass].
  { exists taken, i. split_and!; [done|lia|lia|right; lia|naive_solver lia|lia]. }
  destruct (active !! i) as [slot|] eqn:Hi.
  2: { apply lookup_ge_None in Hi. exists taken, i. split_and!; [done|lia|lia|by right|naive_solver lia|lia]. }
  pose proof (lookup_lt_Some _ _ _ Hi) as Hlt. destruct (Nat.leb_spec cap (length selected)) as [Hc|Hc].
  { exists taken, i. split_and!; [done|lia|lia|by left|naive_solver lia|lia]. }
  destruct (robin_take _ _ _ _ _ _ _ Hinv Hi) as (h & Hh & Hne & _). rewrite Hh. cbn [option_list].
  rewrite (bool_decide_eq_true_2 _ Hne), orb_true_r. case_bool_decide as Ht.
  - assert (length (swap_remove i active) ≤ fuel + i)%nat as Hf.
    { destruct (swap_remove_spec i active slot (ri_nodup _ _ _ _ _ _ Hinv) Hi) as (_ & _ & _ & ->). lia. }
    specialize (IH _ _ _ _ _ (selected ++ [h]) true (robin_drop _ _ _ _ _ _ _ _ Hinv Hi Hh Ht)).
    rewrite length_app in IH. cbn [length] in IH. specialize (IH ltac:(lia) Hf).
    destruct (robin_pass _ _ _ _ _ _ _) as [[[groups' active'] selected'] progressed'].
    destruct IH as (taken' & i' & ? & ? & ? & [_ Hp] & _). exists taken', i'. rewrite Hp by (by left).
    split_and!; [done|lia|lia|done|split; [right; lia|done]|lia].
  - specialize (IH _ _ _ _ _ (selected ++ [h]) true (robin_keep _ _ _ _ _ _ _ _ Hinv Hi Hh Ht)).
    rewrite length_app in IH. cbn [length] in IH. specialize (IH ltac:(lia) ltac:(lia)).
    destruct (robin_pass _ _ _ _ _ _ _) as [[[groups' active'] selected'] progressed'].
    destruct IH as (taken' & i' & ? & ? & ? & [_ Hp] & _). exists taken', i'. rewrite Hp by (by left).
    split_and!; [done|lia|lia|done|split; [right; lia|done]|lia].
Qed.

Lemma robin_next taken k i groups active selected :
  robin_inv taken k i groups active selected → (length active ≤ i)%nat →
  robin_inv taken (S k) 0 groups active selected.
Proof.
  intros [Hlen Hgr Hnd Hact Htk Hdn Hct Hsl] Hi. split; try done.
  - intros x Hx. specialize (Hdn x Hx). lia.
  - intros j x Hj. rewrite (Hct _ _ Hj). pose proof (lookup_lt_Some _ _ _ Hj).
    destruct (Nat.ltb_spec j i), (Nat.ltb_spec j 0); lia.
Qed.

(** What the rounds leave: every bucket gave its best, within one of the others. *)
Definition fair (selected : list FoundCycle) : Prop :=
  ∃ (taken : nat → nat) (k : nat),
    (∀ x, (k `min` length (grp x) ≤ taken x ≤ S k `min` length (grp x))%nat) ∧
    selected ≡ₚ seq 0 (length G) ≫= (λ x, take (taken x) (grp x)).

Lemma robin_inv_fair taken k i groups active selected :
  robin_inv taken k i groups active selected → fair selected.
Proof.
  intros [Hlen Hgr Hnd Hact Htk Hdn Hct Hsl]. exists taken, k. split; [|done].
  intros x. specialize (Htk x). destruct (decide (x ∈ active)) as [Hx|Hx].
  - apply list_elem_of_lookup in Hx as [j Hj]. pose proof (Hct _ _ Hj).
    destruct (j <? i)%nat; lia.
  - pose proof (Hdn _ Hx). rewrite Hact in Hx. lia.
Qed.

Lemma bind_nth {A} (l : list (list A)) : seq 0 (length l) ≫= (λ x, default [] (l !! x)) = mjoin l.
Proof.
  induction l as [|x l IH]; [done|]. cbn [length seq]. rewrite bind_cons. cbn [lookup list_lookup default mjoin list_join].
  f_equal. rewrite <- fmap_S_seq, list_fmap_bind. exact IH.
Qed.

Lemma robin_inv_total taken k i groups active selected :
  robin_inv taken k i groups active selected → active = [] → length selected = sum_list (length <$> G).
Proof.
  intros Hinv ->. rewrite (ri_selected _ _ _ _ _ _ Hinv). rewrite <- length_join. f_equal.
  transitivity (seq 0 (length G) ≫= grp); [|apply bind_nth].
  apply list_bind_ext; [|done]. intros x. rewrite take_ge; [done|].
  apply Nat.nlt_ge. rewrite <- (ri_active _ _ _ _ _ _ Hinv). apply not_elem_of_nil.
Qed.

Lemma robin_loop_spec fuel cap : (cap ≤ sum_list (length <$> G))%nat → ∀ taken k groups active selected,
  robin_inv taken k 0 groups active selected → (length selected ≤ cap ≤ fuel + length selected)%nat →
  let out := robin_loop fuel cap groups active selected in fair out ∧ length out = cap.
Proof.
  intros Htot. induction fuel as [|fuel IH]; intros taken k groups active selected Hinv Hb; cbn [robin_loop].
  { split; [by eapply robin_inv_fair|lia]. }
  destruct (Nat.leb_spec cap (length selected)) as [Hc|Hc]; cbn [orb].
  { split; [by eapply robin_inv_fair|lia]. }
  case_bool_decide as Ha.
  { split; [by eapply robin_inv_fair|]. pose proof (robin_inv_total _ _ _ _ _ _ Hinv Ha). lia. }
  assert (0 < length active)%nat as Hpos by (destruct active; cbn; [done|lia]).
  pose proof (robin_pass_spec (length active) cap _ _ _ _ _ _ false Hinv ltac:(lia) ltac:(lia)) as Hp.
  destruct (robin_pass _ _ _ _ _ _ _) as [[[groups' active'] selected'] progressed'].
  destruct Hp as (taken' & i' & Hinv' & ? & Hend & [_ Hp] & Hpr).
  specialize (Hpr Hpos Hc). rewrite Hp by (by right).
  destruct (decide (cap ≤ length selected')%nat) as [Hcap|Hcap].
  - destruct fuel as [|fuel]; cbn [robin_loop].
    + split; [by eapply robin_inv_fair|lia].
    + rewrite (proj2 (Nat.leb_le _ _) Hcap). cbn. split; [by eapply robin_inv_fair|lia].
  - apply (IH taken' (S k)); [|lia]. eapply robin_next; [done|lia].
Qed.

Lemma robin_start : robin_inv (λ _, 0%nat) 0 0 G
    (filter (λ slot, default [] (G !! slot) ≠ []) (seq 0 (length G))) [].
Proof.
  split; try done.
  - apply NoDup_filter, NoDup_seq.
  - intros x. rewrite list_elem_of_filter, elem_of_seq. fold (grp x).
    pose proof (grp_bound x). destruct (grp x); cbn in *; naive_solver lia.
  - intros x. lia.
  - intros x Hx. rewrite list_elem_of_filter, elem_of_seq in Hx. fold (grp x) in Hx.
    pose proof (grp_bound x). destruct (grp x) eqn:Hg; cbn in *; [lia|]. exfalso. apply Hx. split; [done|lia].
  - generalize (seq 0 (length G)) as l. induction l as [|x l IH]; [done|]. rewrite bind_cons. apply IH.
Qed.
End robin.

(** The bucket of a protocol slot, in the order it is served. *)
Definition bucket_of (pool : list FoundCycle) (slot : nat) : list FoundCycle :=
  sort_by compare_cycle_execution (filter (λ c, cycle_slot c = slot) pool).

Lemma length_protocol_groups pool : length (protocol_groups pool) = 8%nat.
Proof. done. Qed.

Lemma grp_protocol_groups pool slot : (slot < 8)%nat → grp (protocol_groups pool) slot = bucket_of pool slot.
Proof.
  intros Hs. unfold grp, protocol_groups. rewrite list_lookup_fmap, lookup_seq_lt by done. done.
Qed.

Lemma groups_partition pool : mjoin (protocol_groups pool) ≡ₚ pool.
Proof.
  unfold protocol_groups. etrans; [|apply (slots_partition cycle_slot 8 pool); intros; apply cycle_slot_lt].
  induction (seq 0 8) as [|s l IH]; [done|]. rewrite bind_cons, <- IH. cbn. by rewrite sort_by_perm.
Qed.

Lemma bind_submseteq {A} (l : list nat) (f g : nat → list A) :
  (∀ x, f x ⊆+ g x) → l ≫= f ⊆+ l ≫= g.
Proof. intros Hfg. induction l as [|x l IH]; [done|]. rewrite !bind_cons. by apply submseteq_app. Qed.

Lemma filter_none {A} (P : A → Prop) `{∀ x, Decision (P x)} (l : list A) : (∀ x, x ∈ l → ¬ P x) → filter P l = [].
Proof.
  intros Hl. apply elem_of_nil_inv. intros x [HP Hx]%list_elem_of_filter. by apply (Hl x).
Qed.

Lemma filter_all {A} (P : A → Prop) `{∀ x, Decision (P x)} (l : list A) : (∀ x, x ∈ l → P x) → filter P l = l.
Proof.
  induction l as [|x l IH]; intros Hl; [done|]. rewrite filter_cons_True by (apply Hl; by left).
  rewrite IH; [done|]. intros y Hy. apply Hl. by right.
Qed.

Lemma filter_bind {A} (slot : A → nat) (f : nat → list A) s l :
  NoDup l → s ∈ l → (∀ x c, c ∈ f x → slot c = x) →
  filter (λ c, slot c = s) (l ≫= f) = f s.
Proof.
  intros Hnd Hs Hf. induction Hnd as [|y l Hy Hnd IH]; [by apply not_elem_of_nil in Hs|].
  rewrite bind_cons, filter_app. apply elem_of_cons in Hs as [<-|Hs].
  - rewrite filter_all by (intros c; apply Hf). rewrite filter_none; [apply app_nil_r|].
    intros c (x & Hc & Hx)%list_elem_of_bind Hsl. apply Hf in Hc. congruence.
  - rewrite filter_none; [by apply IH|]. intros c Hc%Hf Hsl. congruence.
Qed.

Lemma selected_fair (pool : list FoundCycle) selected :
  fair (protocol_groups pool) selected →
  selected ⊆+ pool ∧
  ∃ rounds, ∀ slot, (slot < 8)%nat → ∃ n,
    (rounds `min` length (bucket_of pool slot) ≤ n ≤ S rounds `min` length (bucket_of pool slot))%nat ∧
    filter (λ c, cycle_slot c = slot) selected ≡ₚ take n (bucket_of pool slot).
Proof.
  intros (taken & k & Ht & Hsel). rewrite length_protocol_groups in Hsel. split.
  - rewrite Hsel, <- (groups_partition pool), <- bind_nth, length_protocol_groups. apply bind_submseteq.
    intros x. apply sublist_submseteq, sublist_take.
  - exists k. intros slot Hs. exists (taken slot). rewrite <- grp_protocol_groups by done. split; [apply Ht|].
    rewrite Hsel. rewrite filter_bind; [done|apply NoDup_seq|apply elem_of_seq; lia|].
    intros x c Hc%elem_of_take. destruct (decide (x < 8)%nat) as [Hx|Hx].
    + destruct Hc as (i & Hi%list_elem_of_lookup_2 & _). rewrite grp_protocol_groups in Hi by done.
      unfold bucket_of in Hi. rewrite elem_of_sort_by, list_elem_of_filter in Hi. by destruct Hi.
    + destruct Hc as (i & Hi & _). unfold grp in Hi. rewrite (lookup_ge_None_2 (protocol_groups pool) x) in Hi; [done|].
      rewrite length_protocol_groups. lia.
Qed.

(** What the selection keeps: its quota of the deduplicated cycles, bucket by bucket. *)
Lemma diverse_selection_keeps (cycle_key : list Edge → Z) (cycles : list FoundCycle) (max_cycles : nat) :
  let pool := dedupe_cycles_by_edges cycle_key cycles in
  let out := apply_protocol_diverse_selection cycle_key cycles max_cycles in
  length out = (max_cycles `min` length pool)%nat ∧ out ⊆+ pool ∧
  StronglySorted (cmp_le compare_cycle_execution) out ∧
  ∃ rounds, ∀ slot, (slot < 8)%nat → ∃ n,
    (rounds `min` length (bucket_of pool slot) ≤ n ≤ S rounds `min` length (bucket_of pool slot))%nat ∧
    filter (λ c, cycle_slot c = slot) out ≡ₚ take n (bucket_of pool slot).
Proof.
  intros pool out. assert (NoDup (fc_edges <$> pool)) as Hnd by apply dedupe_spec.
  unfold out, apply_protocol_diverse_selection. fold pool.
  destruct ((max_cycles =? 0)%nat || bool_decide (pool = []))%bool eqn:Hz.
  { split_and!; [|apply submseteq_nil_l|constructor|].
    - apply orb_true_iff in Hz as [->%Nat.eqb_eq|Hz]; [done|]. apply bool_decide_eq_true in Hz.
      rewrite Hz, Nat.min_0_r. done.
    - exists 0%nat. intros slot _. exists 0%nat. split; [lia|done]. }
  set (groups := protocol_groups pool).
  assert (sum_list (length <$> groups) = length pool) as Htot.
  { rewrite <- length_join. apply Permutation_length, groups_partition. }
  rewrite Htot. set (cap := (max_cycles `min` length pool)%nat).
  destruct (robin_loop_spec groups cap cap ltac:(lia) _ _ _ _ _ (robin_start groups) ltac:(cbn; lia)) as [Hfair Hlen].
  change (filter _ (seq 0 (length groups))) with (active_slots groups) in Hfair, Hlen.
  destruct (selected_fair pool _ Hfair) as (Hin & rounds & Hr). split_and!.
  - by rewrite sort_by_perm.
  - by rewrite sort_by_perm.
  - apply sort_by_sorted, _.
  - exists rounds. intros slot Hs. destruct (Hr slot Hs) as (n & Hn & He). exists n. split; [done|].
    by rewrite sort_by_perm.
Qed.

(** C31: The selection across protocols fills its quota from the deduplicated cycles, no route
    twice, in execution order, and serves the protocols in rounds: from each of the eight
    buckets it keeps the best in execution order, as many as from any other bucket up to
    one, unless the bucket has no more. *)
Theorem diverse_selection_fair (cycle_key : list Edge → Z) (cycles : list FoundCycle) (max_cycles : nat) :
  let pool := dedupe_cycles_by_edges cycle_key cycles in
  let out := apply_protocol_diverse_selection cycle_key cycles max_cycles in
  length out = (max_cycles `min` length pool)%nat ∧ NoDup (fc_edges <$> out) ∧ out ⊆+ pool ∧
  StronglySorted (cmp_le compare_cycle_execution) out ∧
  ∃ rounds, ∀ slot, (slot < 8)%nat → ∃ n,
    (rounds `min` length (bucket_of pool slot) ≤ n ≤ S rounds `min` length (bucket_of pool slot))%nat ∧
    filter (λ c, cycle_slot c = slot) out ≡ₚ take n (bucket_of pool slot).
Proof.
  intros pool out. destruct (diverse_selection_keeps cycle_key cycles max_cycles) as (Hl & Hin & Hs & Hf).
  split_and!; [done| |done..]. assert (NoDup (fc_edges <$> pool)) as Hnd by apply dedupe_spec.
  destruct (submseteq_Permutation _ _ Hin) as [rest Hp]. fold pool out in Hp. rewrite Hp, fmap_app in Hnd. by apply NoDup_app in Hnd as [].
Qed.
