(* ===== verification/SpotPrice.v ===== *)
(** * Spot ratios and weights of edges

    [src/src/pipeline/spot_price.rs], with [edge_log_weight_from_ratio] of
    [src/src/core/math/fixed_point.rs], [u256_to_f64] of [src/src/util.rs] and
    [clamp_fee_bps] of [src/src/pipeline/cycle_finder.rs].  A ratio is the output for one
    unit of input after fees, in units of [ONE]; the weight of an edge is minus its
    logarithm.  The logarithms of the platform ([f64::ln], [f64::ln_1p]) are parameters. *)
From stdpp Require Import gmap sorting.
From Corelib Require Import SpecFloat.
From S2P Require Import Prelude Word LogExp Types UniswapV2 UniswapV3 Profit Arena Routes Realign.
From S2P Require Import LocalSim SimSanity TokenRates.

(** ** Floating point *)

Definition f_add (x y : f64) : f64 := SFadd 53 1024 x y.
Definition f_mul (x y : f64) : f64 := SFmul 53 1024 x y.
Definition f_div (x y : f64) : f64 := SFdiv 53 1024 x y.
Definition f_zero : f64 := S754_zero false.
Definition f_inf : f64 := S754_infinity false.

(** An integer of at most 64 bits [as f64]. *)
Definition f_int (x : Z) : f64 := binary_normalize 53 1024 x 0 false.

(** A decimal literal: [m] over a power of ten below 2^53, rounded once. *)
Definition f_dec (m d : Z) : f64 := f_div (f_int m) (f_int d).

Definition limb (v : Z) (i : Z) : Z := Z.shiftr v (64 * i) mod M64.

(** [x.mul_add(2^k, y)]: the product by a power of two is exact. *)
Definition mul_add_pow2 (x : f64) (k : Z) (y : f64) : f64 :=
  f_add (f_mul x (binary_normalize 53 1024 1 k false)) y.

Definition u256_to_f64 (v : Z) : f64 :=
  if (is_zero (limb v 1) && is_zero (limb v 2) && is_zero (limb v 3))%bool then f_int (limb v 0)
  else
    let hi := f_int (limb v 3) in
    let mid_hi := f_int (limb v 2) in
    let mid_lo := f_int (limb v 1) in
    let lo := f_int (limb v 0) in
    mul_add_pow2 hi 192 (mul_add_pow2 mid_hi 128 (mul_add_pow2 mid_lo 64 lo)).

Definition ONE_F64 : f64 := f_int ONE.

(** ** Weights *)

Definition edge_log_weight_from_ratio (ratio : Z) : f64 :=
  if is_zero ratio then f_inf
  else if ONE <=? ratio then
    let ln_ratio := log_exp_ln ratio in
    if is_zero ln_ratio then f_zero else f_div (SFopp (u256_to_f64 ln_ratio)) ONE_F64
  else
    let reciprocal := u512_to_u256 ((ONE *%% ONE) / ratio) in
    let ln_recip := log_exp_ln reciprocal in
    if is_zero ln_recip then f_zero else f_div (u256_to_f64 ln_recip) ONE_F64.

Definition clamp_fee_bps (fee_bps : Z) : Z := Z.min fee_bps 9999.

Definition HOP_PENALTIES : list f64 :=
  [f_zero; f_zero; f_zero; f_dec 1 100; f_dec 3 100; f_dec 8 100; f_dec 15 100; f_dec 30 100; f_dec 50 100].

Definition hop_penalty (hops : Z) : f64 :=
  default (f_mul (f_int hops) (f_dec 15 100)) (HOP_PENALTIES !! Z.to_nat hops).

Definition min_profitable_cycle_ratio (hops : Z) : Z :=
  if hops <=? 2 then saturating_add ONE 1
  else
    let extra := saturating_sub hops 2 in
    let drag_bps := wrap_u 64 (20 + wrap_u 64 (extra * 38)) in
    saturating_add ONE ((ONE *% drag_bps) / 10000).

(** ** Ratios *)

Definition mul_ratio (a b : Z) : option Z :=
  if (is_zero a || is_zero b)%bool then Some 0
  else if a =? ONE then Some b
  else if b =? ONE then Some a
  else if a * b <? M512 then u512_to_u256_checked (a * b / ONE) else None.

Definition mul_ratio_saturating (a b : Z) : Z := default U256_MAX (mul_ratio a b).

Definition simulated_edge_ratio (out probe : Z) : option Z :=
  if (is_zero out || is_zero probe)%bool then None
  else if out * ONE <? M512 then u512_to_u256_checked (out * ONE / probe) else None.

Definition v2_marginal_probe (probe reserve_in : Z) : option Z :=
  if reserve_in <=? 1 then None
  else
    let cap := reserve_in -% 1 in
    let amount := Z.min probe cap in
    if is_zero amount then None else Some amount.

Definition v2_edge_ratio_u256 (state : V2PoolState) (edge : Edge) (probe : Z) : outcome (option Z) :=
  let reserve_in := if zero_for_one edge then v2_reserve0 state else v2_reserve1 state in
  let_some amount := v2_marginal_probe probe reserve_in or Done None in
  let! out := simulate_v2_swap state amount (zero_for_one edge) (Some (fee_bps edge)) in
  Done (simulated_edge_ratio out amount).

Definition cl_has_ticks (state : V3PoolState) : bool := negb (ticks_empty state).

(** The spot price before the fee. *)
Definition cl_spot (sqrt : Z) (zfo : bool) : option Z :=
  if zfo then
    let sqrt_hi := Z.shiftr sqrt 96 in
    let sqrt_lo := Z.land sqrt (Z.shiftl 1 96 - 1) in
    let? hi_sq := checked_mul sqrt_hi sqrt_hi in
    let? hi_term := checked_mul hi_sq ONE in
    let cross := (sqrt_hi *%% sqrt_lo) *%% ONE in
    let cross_term := u512_to_u256 (Z.shiftr cross 95) in
    let lo_sq := sqrt_lo *%% sqrt_lo in
    let lo_numer := lo_sq *%% ONE in
    let lo_term := u512_to_u256 (Z.shiftr lo_numer 192) in
    let? s := checked_add hi_term cross_term in
    checked_add s lo_term
  else
    let two_pow_192 := Z.shiftl 1 192 in
    let numerator := two_pow_192 *%% ONE in
    let sqrt_sq := sqrt *%% sqrt in
    let raw := numerator / sqrt_sq in
    if is_zero raw then None else Some (u512_to_u256 raw).

Definition cl_spot_u256 (state : V3PoolState) (edge : Edge) : option Z :=
  let sqrt := cl_sqrt_price_x96 state in
  if is_zero sqrt then None
  else
    let? spot_u256 := cl_spot sqrt (zero_for_one edge) in
    let fee_numer := 10000 - clamp_fee_bps (fee_bps edge) in
    let? v := checked_mul spot_u256 fee_numer in
    Some (v / 10000).

Definition cl_edge_ratio_u256 (state : V3PoolState) (edge : Edge) (probe : Z) : outcome (option Z) :=
  if is_zero probe then Done (cl_spot_u256 state edge)
  else
    let allow_zero := bool_decide (protocol edge = UniswapV4) in
    let! r := simulate_v3_swap state probe (zero_for_one edge) (Some (fee_bps edge)) allow_zero in
    Done (if vr_shallow r then None else simulated_edge_ratio (vr_amount_out r) probe).

Definition cl_edge_ratio_from_state (state : V3PoolState) (edge : Edge) (probe : Z) : outcome Z :=
  if cl_has_ticks state then
    let! r := cl_edge_ratio_u256 state edge probe in Done (default 0 r)
  else Done (default 0 (cl_spot_u256 state edge)).

Definition edge_ratio_from_state (state : PoolState) (edge : Edge) (probe : Z) : outcome Z :=
  if (is_zero probe || negb (is_tradable state))%bool then Done 0
  else
    let shallow_cap := probe in
    match state, protocol edge with
    | PV2 s, UniswapV2 => let! r := v2_edge_ratio_u256 s edge probe in Done (default 0 r)
    | PV3 s, UniswapV3 | PV4 s, UniswapV4 => cl_edge_ratio_from_state s edge probe
    | _, _ =>
        let! q := simulate_hop_amount_out_with_cap state edge probe shallow_cap in
        Done (default 0 (simulated_edge_ratio (default 0 q) probe))
    end.

Definition compute_edge_ratio (arena : StateArena) (edge : Edge) : outcome Z :=
  match pool_state arena (pool_index edge) with
  | None => Done 0
  | Some state =>
      let probe := spot_probe_for_token arena (token_in edge) in
      edge_ratio_from_state state edge probe
  end.

Definition spot_ratio_to_f64 (ratio : option Z) : f64 :=
  match ratio with
  | Some r => if is_zero r then f_zero else f_div (u256_to_f64 r) ONE_F64
  | None => f_zero
  end.

Definition spot_price_from_state (state : PoolState) (edge : Edge) (token_in_decimals : Z) : outcome f64 :=
  let probe := spot_probe_for_decimals token_in_decimals in
  let! r := edge_ratio_from_state state edge probe in
  Done (spot_ratio_to_f64 (Some r)).

Fixpoint cycle_product_loop (arena : StateArena) (edges : list Edge) (product : Z) : outcome Z :=
  match edges with
  | [] => Done product
  | edge :: edges =>
      let! ratio := compute_edge_ratio arena edge in
      if is_zero ratio then Done 0
      else cycle_product_loop arena edges (mul_ratio_saturating product ratio)
  end.

Definition cycle_product_ratio (arena : StateArena) (edges : list Edge) : outcome Z :=
  cycle_product_loop arena edges ONE.

(** The amounts [for_each_rank_probe_amount] visits, in order. *)
Definition rank_probe_amounts (decimals rate : Z) : list Z :=
  let economic := min_economic_amount_in decimals rate in
  let spot := spot_probe_for_decimals decimals in
  let scale := ten_pow_u256 decimals in
  let micro := if 6 <=? decimals then ten_pow_u256 (decimals - 6) else 1 in
  let tenth := scale / 10 in
  let one := scale in
  let amounts :=
    fold_left (λ amounts candidate,
      if (is_zero candidate || bool_decide (candidate ∈ amounts))%bool then amounts
      else amounts ++ [candidate]) [micro; spot; economic; tenth; one] [] in
  merge_sort Z.le amounts.

(** ** The table of ratios *)

Definition SpotTable := gmap Edge Z.

Definition table_get_ratio (self : SpotTable) (edge : Edge) : option Z := self !! edge.

Definition set_ratio (self : SpotTable) (edge : Edge) (ratio : Z) : SpotTable :=
  if is_zero ratio then self else <[edge := ratio]> self.

(** [get_ratio(edge).filter(|r| !r.is_zero())] *)
Definition table_live_ratio (self : SpotTable) (edge : Edge) : option Z :=
  let? r := table_get_ratio self edge in if is_zero r then None else Some r.

Definition table_get (self : SpotTable) (edge : Edge) : f64 :=
  match table_live_ratio self edge with
  | Some r => f_div (u256_to_f64 r) ONE_F64
  | None => f_zero
  end.

Definition ratio_or_compute (self : SpotTable) (arena : StateArena) (edge : Edge) : outcome Z :=
  match table_live_ratio self edge with
  | Some r => Done r
  | None => compute_edge_ratio arena edge
  end.

(** ** Rescoring *)

Definition DEAD_EDGE_LOG_WEIGHT : f64 := f_int 15.

Section rescore.
Context (ln_f64 ln_1p : f64 → f64) (fees : FlashFees).

Definition compute_edge_log_weight (fee_bps : Z) : f64 :=
  if fee_bps =? 0 then f_zero
  else if 10000 <=? fee_bps then f_inf
  else
    let keep := SFsub 53 1024 (f_int 1) (f_div (f_int fee_bps) (f_int 10000)) in
    SFopp (ln_f64 keep).

(** The weight of a priced edge, from its fee when the logarithm is not finite. *)
Definition priced_log_weight (ratio fee_bps : Z) : f64 :=
  let w := edge_log_weight_from_ratio ratio in
  if f64_is_finite w then w else compute_edge_log_weight fee_bps.

Definition gas_log_penalty_for_cycle (edges : list Edge) (gas_price_wei : Z)
    (token_to_matic_rates : option (gmap Z Z)) (start_token : TokenIndex) (start_token_decimals : Z)
    (flash_source : option FlashLoanSource) : f64 :=
  let gas_units := estimate_route_gas edges in
  if (is_zero gas_units || is_zero gas_price_wei)%bool then f_zero
  else
    let gas_cost_wei := gas_units *% gas_price_wei in
    match (let? m := token_to_matic_rates in
           let? r := m !! start_token in
           if MIN_TOKEN_TO_MATIC_RATE <=? r then Some r else None) with
    | None => f_inf
    | Some rate =>
        let drag_wei :=
          match flash_source with
          | None => gas_cost_wei
          | Some source =>
              let probe := min_economic_amount_in start_token_decimals rate in
              let flash_fee := default 0 (flash_loan_fee_amount fees source probe) in
              let scale := ten_pow_u256 start_token_decimals in
              saturating_add gas_cost_wei ((flash_fee *% rate) / scale)
          end in
        let drag_f64 := u256_to_f64 drag_wei in
        let rate_f64 := u256_to_f64 rate in
        if (SFleb drag_f64 f_zero || SFleb rate_f64 f_zero)%bool then f_zero
        else ln_1p (f_div drag_f64 rate_f64)
    end.

(** The loop of [rescore_one_cycle]: the accumulated weight, fee and ratio, and whether
    the route is dead. *)
Fixpoint rescore_loop (arena : StateArena) (table : SpotTable) (edges : list Edge) (log_weight : f64)
    (cum_fee product_ratio : Z) : outcome (f64 * Z * Z * bool) :=
  match edges with
  | [] => Done (log_weight, cum_fee, product_ratio, false)
  | edge :: edges =>
      let cum_fee := Z.min (cum_fee + clamp_fee_bps (fee_bps edge)) (2 ^ 32 - 1) in
      match pool_state arena (pool_index edge) with
      | None => Done (log_weight, cum_fee, product_ratio, true)
      | Some state =>
          if negb (hop_pair_routable state (Z.to_nat (token_in_idx edge)) (Z.to_nat (token_out_idx edge)))
          then Done (log_weight, cum_fee, product_ratio, true)
          else
            let! ratio := ratio_or_compute table arena edge in
            if is_zero ratio then Done (log_weight, cum_fee, product_ratio, true)
            else
              rescore_loop arena table edges
                (f_add log_weight (priced_log_weight ratio (fee_bps edge))) cum_fee
                (mul_ratio_saturating product_ratio ratio)
      end
  end.

Definition rescore_one_cycle (arena : StateArena) (table : SpotTable) (cycle : FoundCycle)
    (gas_price_wei : option Z) (token_to_matic_rates token_decimals : option (gmap Z Z))
    (flash_source : option FlashLoanSource) : outcome FoundCycle :=
  let edge_hops := edge_hops cycle in
  let start_decimals :=
    match token_decimals with
    | Some m => resolve_token_decimals_for_index (fc_start_token cycle) arena m
    | None => 18
    end in
  let! r := rescore_loop arena table (fc_edges cycle) f_zero 0 ONE in
  let '(log_weight, cum_fee, product_ratio, dead) := r in
  let log_weight := if dead then DEAD_EDGE_LOG_WEIGHT else log_weight in
  let product_ratio := if dead then 0 else product_ratio in
  let gas_penalty :=
    match gas_price_wei with
    | Some price =>
        if is_zero price then f_zero
        else gas_log_penalty_for_cycle (fc_edges cycle) price token_to_matic_rates
               (fc_start_token cycle) start_decimals flash_source
    | None => f_zero
    end in
  let log_weight := f_add log_weight (f_add (hop_penalty edge_hops) gas_penalty) in
  Done {| fc_start_token := fc_start_token cycle; fc_edges := fc_edges cycle;
          fc_hop_count := edge_hops; fc_log_weight := log_weight;
          fc_cumulative_fee_bps := cum_fee; fc_score := log_weight; fc_cycle_ratio := product_ratio |}.

(** The cycles are independent: the parallel loop is the sequential one. *)
Fixpoint rescore_cycles_with_table_and_gas (arena : StateArena) (table : SpotTable)
    (cycles : list FoundCycle) (gas_price_wei : option Z)
    (token_to_matic_rates token_decimals : option (gmap Z Z))
    (flash_source : option FlashLoanSource) : outcome (list FoundCycle) :=
  match cycles with
  | [] => Done []
  | cycle :: cycles =>
      let! c := rescore_one_cycle arena table cycle gas_price_wei token_to_matic_rates
                  token_decimals flash_source in
      let! cs := rescore_cycles_with_table_and_gas arena table cycles gas_price_wei
                   token_to_matic_rates token_decimals flash_source in
      Done (c :: cs)
  end.
End rescore.

(** ** Products of ratios *)

Lemma ONE_pos : 0 < ONE. Proof. done. Qed.

(** The product is the exact quotient, saturated; the shortcuts for zero and [ONE] agree. *)
Lemma mul_ratio_saturating_eq a b :
  u256 a → u256 b → mul_ratio_saturating a b = Z.min (a * b / ONE) U256_MAX.
Proof.
  intros Ha Hb. unfold mul_ratio_saturating, mul_ratio, is_zero, u256, U256_MAX in *.
  destruct (Z.eqb_spec a 0) as [->|]; [done|]. destruct (Z.eqb_spec b 0) as [->|].
  { cbn. by rewrite Z.mul_0_r. }
  cbn [orb]. destruct (Z.eqb_spec a ONE) as [->|].
  { rewrite Z.mul_comm, Z.div_mul by done. cbn [default]. unfold id. lia. }
  destruct (Z.eqb_spec b ONE) as [->|]; [rewrite Z.div_mul by done; cbn; unfold id; lia|].
  assert (a * b < M512) as Hlt.
  { rewrite M512_eq. apply Z.mul_lt_mono_nonneg; lia. }
  rewrite (proj2 (Z.ltb_lt _ _) Hlt), u512_to_u256_checked_spec by (apply Z.div_pos; [nia|done]).
  destruct (Z.ltb_spec (a * b / ONE) M256); cbn; unfold id; lia.
Qed.

Lemma mul_ratio_saturating_range a b : u256 a → u256 b → u256 (mul_ratio_saturating a b).
Proof.
  intros Ha Hb. rewrite mul_ratio_saturating_eq by done.
  assert (0 ≤ a * b / ONE) by (apply Z.div_pos; [unfold u256 in *; nia|done]).
  unfold u256, U256_MAX in *. pose proof M256_pos. lia.
Qed.

Lemma mul_ratio_saturating_mono a a' b b' :
  u256 a' → u256 b' → 0 ≤ a ≤ a' → 0 ≤ b ≤ b' → mul_ratio_saturating a b ≤ mul_ratio_saturating a' b'.
Proof.
  intros Ha' Hb' Ha Hb. assert (u256 a ∧ u256 b) as [] by (unfold u256 in *; lia).
  rewrite !mul_ratio_saturating_eq by done.
  assert (a * b / ONE ≤ a' * b' / ONE) by (apply Z.div_le_mono; [done|nia]). lia.
Qed.

(** Below [ONE] a product only shrinks what it multiplies. *)
Lemma mul_ratio_saturating_le a b : u256 a → 0 ≤ b ≤ ONE → mul_ratio_saturating a b ≤ a.
Proof.
  intros Ha Hb. rewrite mul_ratio_saturating_eq; [|done|unfold u256; unfold ONE, M256 in *; lia].
  unfold u256 in Ha. enough (a * b / ONE ≤ a) by lia. apply Z.div_le_upper_bound; [done|]. nia.
Qed.

(** The margin a route must clear: at least one unit, and 20 basis points plus 38 for each
    hop beyond the second. *)
Lemma min_profitable_cycle_ratio_eq hops :
  hops ≤ 2 ^ 32 →
  min_profitable_cycle_ratio hops =
  if hops <=? 2 then ONE + 1 else ONE + (20 + (hops - 2) * 38) * 10 ^ 14.
Proof.
  intros Hh. unfold min_profitable_cycle_ratio. destruct (Z.leb_spec hops 2); [done|].
  unfold saturating_sub. rewrite Z.max_r by lia.
  unfold wrap_u. rewrite (Z.mod_small ((hops - 2) * 38)) by lia. rewrite Z.mod_small by lia.
  rewrite wmul_small by (unfold ONE, M256; nia).
  unfold saturating_add. replace (ONE * (20 + (hops - 2) * 38)) with ((20 + (hops - 2) * 38) * 10 ^ 14 * 10000)
    by (unfold ONE; lia).
  rewrite Z.div_mul by done. unfold U256_MAX, M256, ONE. nia.
Qed.

Lemma min_profitable_gt_ONE hops : 0 ≤ hops ≤ 2 ^ 32 → ONE < min_profitable_cycle_ratio hops.
Proof.
  intros Hh. rewrite min_profitable_cycle_ratio_eq by lia. destruct (Z.leb_spec hops 2); [|nia]. lia.
Qed.

(** ** Accuracy of the spot price *)

Lemma scaled_floor S X k n f d :
  0 < k → 0 < d → 0 ≤ f ≤ d → 0 ≤ n → S * k ≤ X < (S + n) * k →
  S * f / d ≤ X * f / (k * d) ≤ S * f / d + n.
Proof.
  intros Hk Hd Hf Hn HX. assert (0 < k * d) by nia. split.
  - apply Z.div_le_lower_bound; [done|]. pose proof (div_mul_le (S * f) d Hd). nia.
  - enough (X * f / (k * d) < S * f / d + n + 1) by lia. apply Z.div_lt_upper_bound; [done|].
    pose proof (div_mul_gt (S * f) d Hd). nia.
Qed.

Lemma cl_spot_zfo sqrt spot :
  u256 sqrt → cl_spot sqrt true = Some spot →
  u256 spot ∧ spot * 2 ^ 192 ≤ sqrt * sqrt * ONE < (spot + 2) * 2 ^ 192.
Proof.
  intros Hs. unfold cl_spot. rewrite Z.shiftr_div_pow2 by done.
  change (Z.shiftl 1 96 - 1) with (Z.ones 96). rewrite Z.land_ones by done.
  set (hi := sqrt / 2 ^ 96). set (lo := sqrt mod 2 ^ 96).
  assert (sqrt = hi * 2 ^ 96 + lo) as Heq by (unfold hi, lo; pose proof (Z.div_mod sqrt (2 ^ 96)); lia).
  assert (0 ≤ lo < 2 ^ 96) as Hlo by (apply Z.mod_pos_bound; done).
  assert (0 ≤ hi < 2 ^ 160) as Hhi.
  { unfold u256 in Hs. unfold hi. split; [apply Z.div_pos; lia|]. apply Z.div_lt_upper_bound; [done|].
    unfold M256 in Hs. lia. }
  destruct (checked_mul hi hi) as [hi_sq|] eqn:E1; [|done]. apply checked_mul_Some in E1 as [-> ?].
  destruct (checked_mul _ ONE) as [hi_term|] eqn:E2; [|done]. apply checked_mul_Some in E2 as [-> ?].
  assert (0 ≤ hi * lo < 2 ^ 256) as Hcr by nia.
  rewrite (wmul512_small hi lo), (wmul512_small lo lo) by (unfold M512; nia).
  rewrite (wmul512_small _ ONE), (wmul512_small _ ONE) by (unfold M512, ONE; nia).
  rewrite !Z.shiftr_div_pow2 by done.
  pose proof (div_mul_le (hi * lo * ONE) (2 ^ 95) ltac:(done)).
  pose proof (div_mul_gt (hi * lo * ONE) (2 ^ 95) ltac:(done)).
  pose proof (div_mul_le (lo * lo * ONE) (2 ^ 192) ltac:(done)).
  pose proof (div_mul_gt (lo * lo * ONE) (2 ^ 192) ltac:(done)).
  assert (0 ≤ hi * lo * ONE / 2 ^ 95 < 2 ^ 221).
  { split; [apply Z.div_pos; unfold ONE; lia|]. apply Z.div_lt_upper_bound; [done|]. unfold ONE. lia. }
  assert (0 ≤ lo * lo * ONE / 2 ^ 192 < M256).
  { split; [apply Z.div_pos; [unfold ONE; nia|done]|]. apply Z.div_lt_upper_bound; [done|]. unfold ONE, M256. nia. }
  rewrite !u512_to_u256_small by (unfold M256 in *; lia).
  set (B := hi * lo * ONE / 2 ^ 95) in *. set (C := lo * lo * ONE / 2 ^ 192) in *.
  unfold checked_add. destruct (Z.ltb_spec (hi * hi * ONE + B) M256); [|done].
  destruct (Z.ltb_spec (hi * hi * ONE + B + C) M256); [|done]. intros [= <-].
  split; [unfold u256; unfold ONE in *; nia|]. rewrite Heq. nia.
Qed.

Lemma cl_spot_ofz sqrt spot :
  u256 sqrt → sqrt ≠ 0 → cl_spot sqrt false = Some spot →
  u256 spot ∧ spot * (sqrt * sqrt) ≤ 2 ^ 192 * ONE < (spot + 1) * (sqrt * sqrt).
Proof.
  intros Hs Hz. unfold cl_spot. change (Z.shiftl 1 192) with (2 ^ 192).
  rewrite (wmul512_small (2 ^ 192)) by (unfold ONE, M512; lia). rewrite wmul512_u256 by done.
  assert (0 < sqrt * sqrt) by (unfold u256 in Hs; nia).
  destruct (is_zero _); [done|]. intros [= <-].
  assert (0 ≤ 2 ^ 192 * ONE / (sqrt * sqrt) < M256).
  { split; [apply Z.div_pos; [done|lia]|]. apply Z.div_lt_upper_bound; [done|]. unfold ONE, M256 in *. nia. }
  rewrite u512_to_u256_small by done. split; [done|]. split; [by apply div_mul_le|by apply div_mul_gt].
Qed.

(** The fixed-point spot price of a V3 or V4 pool, computed from the square root in 96-bit
    halves, is the exact price after fees within two units of 10^-18, from below, in both
    directions and for every square root. *)
Theorem cl_spot_accurate (state : V3PoolState) (edge : Edge) (r : Z) :
  u256 (cl_sqrt_price_x96 state) → 0 ≤ fee_bps edge → cl_spot_u256 state edge = Some r →
  let p := cl_sqrt_price_x96 state * cl_sqrt_price_x96 state in
  let keep := 10000 - Z.min (fee_bps edge) 9999 in
  let exact := if zero_for_one edge then p * ONE * keep / (2 ^ 192 * 10000)
               else 2 ^ 192 * ONE * keep / (p * 10000) in
  r ≤ exact ≤ r + 2.
Proof.
  intros Hs Hf. unfold cl_spot_u256, is_zero, clamp_fee_bps.
  destruct (Z.eqb_spec (cl_sqrt_price_x96 state) 0) as [|Hz]; [done|].
  destruct (cl_spot _ _) as [spot|] eqn:Hc; [|done].
  destruct (checked_mul _ _) as [v|] eqn:Hm; [|done]. apply checked_mul_Some in Hm as [-> _].
  intros [= <-]. cbn zeta. destruct (zero_for_one edge).
  - apply cl_spot_zfo in Hc as [? ?]; [|done]. apply scaled_floor; lia.
  - apply cl_spot_ofz in Hc as [? Hb]; [|done..].
    destruct (scaled_floor spot (2 ^ 192 * ONE) (cl_sqrt_price_x96 state * cl_sqrt_price_x96 state) 1
      (10000 - Z.min (fee_bps edge) 9999) 10000) as [H1 H2]; [unfold u256 in Hs; nia|done|lia|lia|done|]. lia.
Qed.

(** ** A pool does not trade against itself *)

Lemma simulated_edge_ratio_le out probe r :
  0 ≤ out → 0 ≤ probe → simulated_edge_ratio out probe = Some r → 0 ≤ r < M256 ∧ r * probe ≤ out * ONE.
Proof.
  intros Ho Hp. unfold simulated_edge_ratio, is_zero.
  destruct (Z.eqb_spec out 0), (Z.eqb_spec probe 0); cbn [orb]; try done.
  destruct (_ <? M512); [|done].
  rewrite u512_to_u256_checked_spec by (apply Z.div_pos; [unfold ONE; nia|lia]).
  destruct (Z.ltb_spec (out * ONE / probe) M256); [|done]. intros [= <-].
  split; [split; [apply Z.div_pos; [unfold ONE; nia|lia]|done]|]. apply div_mul_le. lia.
Qed.

Definition v2_fee_wf (s : V2PoolState) : Prop :=
  0 ≤ v2_fee s ∧ 0 ≤ v2_fee_denominator s < 2 ^ 64.

Lemma resolve_v2_fee_den s b : v2_fee_wf s → (resolve_v2_fee_with_edge s b).2 < 2 ^ 64.
Proof.
  intros [? ?]. unfold resolve_v2_fee_with_edge. repeat case_match; cbn; (lia || done).
Qed.

(** One direction: the ratio is below the ratio of the reserves. *)
Lemma v2_ratio_below_reserves s e probe r ri ro :
  v2_fee_wf s → u256 (v2_reserve0 s) → u256 (v2_reserve1 s) → u256 probe →
  ri = (if zero_for_one e then v2_reserve0 s else v2_reserve1 s) →
  ro = (if zero_for_one e then v2_reserve1 s else v2_reserve0 s) →
  v2_edge_ratio_u256 s e probe = Done (Some r) → 0 ≤ r < M256 ∧ 0 < ri ∧ r * ri ≤ ro * ONE.
Proof.
  intros Hf H0 H1 Hp Hri' Hro'. unfold v2_edge_ratio_u256, v2_marginal_probe, simulate_v2_swap, is_zero.
  rewrite <- Hri'.
  assert ((if zero_for_one e then (v2_reserve0 s, v2_reserve1 s) else (v2_reserve1 s, v2_reserve0 s)) = (ri, ro))
    as -> by (destruct (zero_for_one e); congruence).
  assert (u256 ri ∧ u256 ro) as [Hri Hro] by (destruct (zero_for_one e); simplify_eq; done).
  destruct (Z.leb_spec ri 1); [done|]. rewrite wsub_small by (unfold u256 in Hri; lia).
  destruct (Z.eqb_spec (Z.min probe (ri - 1)) 0); [done|].
  set (a := Z.min probe (ri - 1)) in *. assert (0 < a ∧ a ≤ ri) as [Ha Har] by (unfold u256, a in *; lia).
  pose proof (resolve_v2_fee_valid s (Some (fee_bps e)) (proj1 Hf) ltac:(destruct Hf; lia)) as Hfee.
  pose proof (resolve_v2_fee_den s (Some (fee_bps e)) Hf) as Hden.
  destruct (resolve_v2_fee_with_edge _ _) as [fn d]. cbn in Hden. destruct Hfee as [Hn Hnd].
  destruct (Z.eqb_spec ro 0) as [->|Hz].
  { unfold get_amount_out, is_zero. rewrite Z.eqb_refl, orb_true_r. done. }
  assert (u256 a) by (unfold u256 in *; lia).
  rewrite get_amount_out_eq by (done || (unfold u256 in *; lia)). intros Hs. apply Done_inj in Hs.
  pose proof (quote_le_exact a ri ro fn d Hn Hnd ltac:(lia) ltac:(lia) ltac:(unfold u256 in *; lia)) as Hq.
  unfold amount_out_exact in Hq. set (out := _ mod _ / _) in *.
  apply simulated_edge_ratio_le in Hs as [Hr' Hle]; [|lia..].
  assert (0 < ri * d + a * fn) by nia.
  pose proof (div_mul_le (a * fn * ro) (ri * d + a * fn) ltac:(lia)) as Hm.
  assert (out * (ri * d + a * fn) ≤ a * fn * ro).
  { etrans; [|exact Hm]. apply Z.mul_le_mono_nonneg_r; lia. }
  assert (0 ≤ out * (a * fn)) by (apply Z.mul_nonneg_nonneg; nia).
  assert (0 < ro) by (unfold u256 in *; lia).
  assert (0 < a * ro) by (by apply Z.mul_pos_pos).
  assert (out * ri * d ≤ a * ro * d) by nia.
  assert (out * ri ≤ a * ro) by (apply (Z.mul_le_mono_pos_r _ _ d); lia).
  assert (r * a * ri ≤ out * ONE * ri) by (apply Z.mul_le_mono_nonneg_r; lia).
  split_and!; [lia|lia|lia|]. apply (Z.mul_le_mono_pos_l _ _ a); [lia|]. unfold ONE in *. lia.
Qed.

(** Selling into a V2 pool and back out of it is never ranked as a gain: whatever the
    probes, the fees and the reserves, the two ratios of the pool multiply to at most one. *)
Theorem v2_round_trip_ratio (s : V2PoolState) (e0 e1 : Edge) (p0 p1 r0 r1 : Z) :
  v2_fee_wf s → u256 (v2_reserve0 s) → u256 (v2_reserve1 s) → u256 p0 → u256 p1 →
  zero_for_one e1 = negb (zero_for_one e0) →
  v2_edge_ratio_u256 s e0 p0 = Done (Some r0) → v2_edge_ratio_u256 s e1 p1 = Done (Some r1) →
  mul_ratio_saturating r0 r1 ≤ ONE.
Proof.
  intros Hf H0 H1 Hp0 Hp1 Hz Hr0 Hr1.
  eapply v2_ratio_below_reserves in Hr0 as (Hb0 & Hi0 & Hl0); [|done..].
  eapply v2_ratio_below_reserves in Hr1 as (Hb1 & Hi1 & Hl1); [|done..]. rewrite Hz in Hi1, Hl1.
  rewrite mul_ratio_saturating_eq by done.
  enough (r0 * r1 / ONE ≤ ONE) by lia. apply Z.div_le_upper_bound; [done|].
  destruct (zero_for_one e0); cbn in *.
  all: match type of Hi0 with 0 < ?x => match type of Hi1 with 0 < ?y =>
    apply (Z.mul_le_mono_pos_r _ _ (x * y)); [nia|];
    transitivity ((r0 * x) * (r1 * y)); [lia|];
    transitivity ((y * ONE) * (x * ONE)); [apply Z.mul_le_mono_nonneg; nia|lia] end end.
Qed.

(** ** Rescoring a cycle *)

Section rescore_spec.
Context (ln_f64 ln_1p : f64 → f64) (fees : FlashFees) (arena : StateArena) (table : SpotTable).

(** An edge that rescoring refuses. *)
Definition dead_edge (e : Edge) : Prop :=
  match pool_state arena (pool_index e) with
  | None => True
  | Some state =>
      hop_pair_routable state (Z.to_nat (token_in_idx e)) (Z.to_nat (token_out_idx e)) = false ∨
      compute_edge_ratio arena e = Done 0
  end.

Definition fee_total (edges : list Edge) (fee : Z) : Z :=
  fold_left (λ f e, Z.min (f + clamp_fee_bps (fee_bps e)) (2 ^ 32 - 1)) edges fee.

(** The table holds ratios of the current states. *)
Definition table_current : Prop := ∀ e r, table !! e = Some r → compute_edge_ratio arena e = Done r.

Lemma ratio_or_compute_current e : table_current → ratio_or_compute table arena e = compute_edge_ratio arena e.
Proof using Type.
  intros Ht. unfold ratio_or_compute, table_live_ratio, table_get_ratio.
  destruct (table !! e) as [r|] eqn:He; [|done]. rewrite (Ht _ _ He). by destruct (is_zero r).
Qed.

Lemma rescore_loop_spec edges : ∀ w f p w' f' p' dead,
  table_current → rescore_loop ln_f64 arena table edges w f p = Done (w', f', p', dead) →
  if dead then Exists dead_edge edges
  else Forall (λ e, ¬ dead_edge e) edges ∧ f' = fee_total edges f ∧ cycle_product_loop arena edges p = Done p'.
Proof using Type.
  induction edges as [|e edges IH]; intros w f p w' f' p' dead Ht; cbn [rescore_loop cycle_product_loop].
  { intros [= <- <- <- <-]. done. }
  assert (∀ d : bool, (d = true → dead_edge e ∨ Exists dead_edge edges) → d = true → Exists dead_edge (e :: edges))
    as Hd by (intros d Hd Hdt; apply Exists_cons; by apply Hd).
  destruct (pool_state arena (pool_index e)) as [state|] eqn:Hp.
  2: { intros [= _ _ _ <-]. apply (Hd true); [|done]. left. unfold dead_edge. by rewrite Hp. }
  destruct (hop_pair_routable state _ _) eqn:Hr; cbn [negb].
  2: { intros [= _ _ _ <-]. apply (Hd true); [|done]. left. unfold dead_edge. rewrite Hp. by left. }
  rewrite ratio_or_compute_current by done. destruct (compute_edge_ratio arena e) as [ratio|] eqn:Hc; [|done].
  cbn [obind]. unfold is_zero. destruct (Z.eqb_spec ratio 0) as [->|Hz].
  { intros [= _ _ _ <-]. apply (Hd true); [|done]. left. unfold dead_edge. rewrite Hp. by right. }
  intros Hl. specialize (IH _ _ _ _ _ _ _ Ht Hl). destruct dead; [apply (Hd true); auto|].
  destruct IH as (Hf & Hfee & Hpr). split_and!; [|done|done]. constructor; [|done].
  unfold dead_edge. rewrite Hp, Hc. intros [|[= ]]; congruence.
Qed.
End rescore_spec.

(** Rescoring keeps the route and refreshes the rest from the arena: either a hop has no
    pool, no routable pair or no price, and the ratio is zero; or every hop is priced, and
    the ratio is the product over the route, the fee the saturated sum of the clamped
    fees.  The table, when it is current, changes nothing. *)
Theorem rescore_one_cycle_spec (ln_f64 ln_1p : f64 → f64) (fees : FlashFees) (arena : StateArena)
    (table : SpotTable) (c c' : FoundCycle) (gas : option Z) (rates decimals : option (gmap Z Z))
    (flash : option FlashLoanSource) :
  table_current arena table →
  rescore_one_cycle ln_f64 ln_1p fees arena table c gas rates decimals flash = Done c' →
  fc_edges c' = fc_edges c ∧ fc_start_token c' = fc_start_token c ∧ fc_hop_count c' = edge_hops c ∧
  fc_score c' = fc_log_weight c' ∧
  ((Exists (dead_edge arena) (fc_edges c) ∧ fc_cycle_ratio c' = 0) ∨
   (Forall (λ e, ¬ dead_edge arena e) (fc_edges c) ∧
    cycle_product_ratio arena (fc_edges c) = Done (fc_cycle_ratio c') ∧
    fc_cumulative_fee_bps c' = fee_total (fc_edges c) 0)).
Proof.
  intros Ht. unfold rescore_one_cycle.
  destruct (rescore_loop _ _ _ _ _ _ _) as [[[[w f] p] dead]|] eqn:Hl; [|done].
  cbn [obind]. intros Hd. apply Done_inj in Hd as <-. cbn.
  apply rescore_loop_spec in Hl; [|done]. split_and!; [done..|].
  destruct dead; [left; done|right]. destruct Hl as (? & -> & ?). done.
Qed.

(** ** Witnesses *)

Lemma cl_spot_accurate_witness :
  ∃ r, cl_spot_u256 demo_pool (demo_edge UniswapV3 0 0 1) = Some r ∧
    r ≤ cl_sqrt_price_x96 demo_pool * cl_sqrt_price_x96 demo_pool * ONE * 9970 / (2 ^ 192 * 10000) ≤ r + 2.
Proof.
  eexists. split; [vm_compute; reflexivity|].
  apply (cl_spot_accurate demo_pool (demo_edge UniswapV3 0 0 1)); vm_compute; (split || reflexivity || idtac);
    (discriminate || reflexivity).
Defined.

Definition demo_v2_pool : V2PoolState :=
  {| v2_reserve0 := 10 ^ 20; v2_reserve1 := 3 * 10 ^ 20; v2_fee := 997; v2_fee_denominator := 1000;
     v2_block_timestamp_last := 1 |}.

Definition demo_ratio (zfo : bool) : Z :=
  match v2_edge_ratio_u256 demo_v2_pool (set_zfo (demo_edge UniswapV2 0 0 1) zfo) (10 ^ 16) with
  | Done (Some r) => r
  | _ => 0
  end.

Lemma v2_round_trip_ratio_witness : mul_ratio_saturating (demo_ratio true) (demo_ratio false) ≤ ONE.
Proof.
  apply (v2_round_trip_ratio demo_v2_pool (set_zfo (demo_edge UniswapV2 0 0 1) true)
           (set_zfo (demo_edge UniswapV2 0 0 1) false) (10 ^ 16) (10 ^ 16)).
  - split; [|split]; vm_compute; (discriminate || reflexivity).
  - eval_range.
  - eval_range.
  - eval_range.
  - eval_range.
  - reflexivity.
  - vm_compute. reflexivity.
  - vm_compute. reflexivity.
Defined.

Definition demo_cycle : FoundCycle :=
  {| fc_start_token := 0; fc_edges := demo_route; fc_hop_count := 2; fc_log_weight := f_zero;
     fc_cumulative_fee_bps := 0; fc_score := f_zero; fc_cycle_ratio := 0 |}.

Definition demo_fees : FlashFees := {| aave_fee_bps := 5; aave_fetched_at_ms := 0; balancer_fee_pct := 0; balancer_fetched_at_ms := 0 |}.

Definition demo_rescored : FoundCycle :=
  match rescore_one_cycle (λ x, x) (λ x, x) demo_fees demo_arena ∅ demo_cycle None None None None with
  | Done c => c
  | Panic => demo_cycle
  end.

Lemma rescore_one_cycle_spec_witness :
  cycle_product_ratio demo_arena demo_route = Done (fc_cycle_ratio demo_rescored) ∧
  0 < fc_cycle_ratio demo_rescored < ONE.
Proof.
  split; [|vm_compute; split; reflexivity].
  destruct (rescore_one_cycle_spec (λ x, x) (λ x, x) demo_fees demo_arena ∅ demo_cycle demo_rescored
              None None None None) as (_ & _ & _ & _ & Hc).
  - intros e r H. discriminate H.
  - vm_compute. reflexivity.
  - destruct Hc as [[_ Hz]|(_ & Hc & _)]; [vm_compute in Hz; discriminate|exact Hc].
Defined.
