(* ===== verification/Graph.v ===== *)
(** * The routing graph

    [RoutingGraph] of [src/src/pipeline/types.rs] and its cached aggregates
    ([src/src/pipeline/graph_base_view.rs]).  Nodes [0 .. token_count) are tokens, the
    virtual hubs of multi-token pools follow.  [pool_edge_positions] is a reverse index
    from a pool to the places of its edges; [base_view] caches counts of edges and pools.
    Node and edge positions are [nat]s; the tokens, pools and nodes an edge names are
    [u32] values in [Z]. *)
From stdpp Require Import gmap sorting.
From Corelib Require Import SpecFloat.
From S2P Require Import Prelude Word Types.

Inductive GraphHopPhase := Direct | EnterPool | ExitPool.

#[export] Instance GraphHopPhase_eq_dec : EqDecision GraphHopPhase.
Proof. solve_decision. Defined.

Record GraphEdge := {
  ge_edge : Edge;
  ge_phase : GraphHopPhase;
  ge_target_node : Z;
  ge_log_weight : f64;
  ge_ratio : Z;
}.

Record VirtualPoolHub := {
  vh_pool_index : PoolIndex;
  vh_protocol : ProtocolType;
  vh_exit_legs : list Z;
  vh_v4_singleton : bool;
}.

Record GraphNodeAggregate := {
  na_live_direct_edges : nat;
  na_dead_direct_edges : nat;
  na_hub_leg_edges : nat;
}.

Record GraphAggregateIndex := {
  ai_live_direct_edges : nat;
  ai_dead_direct_edges : nat;
  ai_hub_leg_edges : nat;
  ai_active_pools : nat;
}.

Record GraphBaseView := {
  bv_node_aggregates : list GraphNodeAggregate;
  bv_pool_live_edge_counts : list nat;
  bv_aggregate_index : GraphAggregateIndex;
}.

(** [CycleCapableCoverage]: a bit mask over the tokens and the set of pools. *)
Record CycleCapableCoverage := {
  cc_token_mask : list Z;
  cc_token_count : nat;
  cc_pool_indices : gset nat;
}.

Record RoutingGraph := {
  rg_adjacency : list (list GraphEdge);
  rg_token_count : Z;
  rg_virtual_hubs : list VirtualPoolHub;
  rg_v4_singleton_hub : option Z;
  rg_pool_edge_positions : list (list (nat * nat));
  rg_coverage : option CycleCapableCoverage;
  rg_base_view : option GraphBaseView;
}.

(** ** Field updates *)

Definition set_adjacency (g : RoutingGraph) (adj : list (list GraphEdge)) : RoutingGraph :=
  {| rg_adjacency := adj; rg_token_count := rg_token_count g; rg_virtual_hubs := rg_virtual_hubs g;
     rg_v4_singleton_hub := rg_v4_singleton_hub g; rg_pool_edge_positions := rg_pool_edge_positions g;
     rg_coverage := rg_coverage g; rg_base_view := rg_base_view g |}.

Definition set_positions (g : RoutingGraph) (pos : list (list (nat * nat))) : RoutingGraph :=
  {| rg_adjacency := rg_adjacency g; rg_token_count := rg_token_count g; rg_virtual_hubs := rg_virtual_hubs g;
     rg_v4_singleton_hub := rg_v4_singleton_hub g; rg_pool_edge_positions := pos;
     rg_coverage := rg_coverage g; rg_base_view := rg_base_view g |}.

Definition set_hubs (g : RoutingGraph) (hubs : list VirtualPoolHub) (v4 : option Z) : RoutingGraph :=
  {| rg_adjacency := rg_adjacency g; rg_token_count := rg_token_count g; rg_virtual_hubs := hubs;
     rg_v4_singleton_hub := v4; rg_pool_edge_positions := rg_pool_edge_positions g;
     rg_coverage := rg_coverage g; rg_base_view := rg_base_view g |}.

Definition set_coverage (g : RoutingGraph) (c : option CycleCapableCoverage) : RoutingGraph :=
  {| rg_adjacency := rg_adjacency g; rg_token_count := rg_token_count g; rg_virtual_hubs := rg_virtual_hubs g;
     rg_v4_singleton_hub := rg_v4_singleton_hub g; rg_pool_edge_positions := rg_pool_edge_positions g;
     rg_coverage := c; rg_base_view := rg_base_view g |}.

Definition set_base_view (g : RoutingGraph) (v : option GraphBaseView) : RoutingGraph :=
  {| rg_adjacency := rg_adjacency g; rg_token_count := rg_token_count g; rg_virtual_hubs := rg_virtual_hubs g;
     rg_v4_singleton_hub := rg_v4_singleton_hub g; rg_pool_edge_positions := rg_pool_edge_positions g;
     rg_coverage := rg_coverage g; rg_base_view := v |}.

Definition invalidate_base_view (g : RoutingGraph) : RoutingGraph := set_base_view g None.

Definition set_target (ge : GraphEdge) (node : Z) : GraphEdge :=
  {| ge_edge := ge_edge ge; ge_phase := ge_phase ge; ge_target_node := node;
     ge_log_weight := ge_log_weight ge; ge_ratio := ge_ratio ge |}.

(** ** Reads *)

Definition is_live_graph_edge (ge : GraphEdge) : bool :=
  match ge_phase ge with
  | EnterPool | ExitPool => true
  | Direct => negb (is_zero (ge_ratio ge))
  end.

Definition ge_pool (ge : GraphEdge) : nat := Z.to_nat (pool_index (ge_edge ge)).

Definition token_slots (g : RoutingGraph) : nat := Z.to_nat (rg_token_count g).

Definition adj_at (g : RoutingGraph) (node : nat) : list GraphEdge := default [] (rg_adjacency g !! node).

Definition positions_at (g : RoutingGraph) (pool : nat) : list (nat * nat) :=
  default [] (rg_pool_edge_positions g !! pool).

(** [graph.adjacency.get(node).and_then(|edges| edges.get(edge))] *)
Definition edge_at (g : RoutingGraph) (at_ : nat * nat) : option GraphEdge :=
  let? edges := rg_adjacency g !! at_.1 in edges !! at_.2.

Definition node_count (g : RoutingGraph) : Z := wrap_u 32 (Z.of_nat (length (rg_adjacency g))).

Definition is_virtual_node (g : RoutingGraph) (node : Z) : bool := rg_token_count g <=? node.

Definition virtual_hub_index (g : RoutingGraph) (node : Z) : option nat :=
  if negb (is_virtual_node g node) then None
  else
    let idx := Z.to_nat (saturating_sub node (rg_token_count g)) in
    let? _ := rg_virtual_hubs g !! idx in Some idx.

Definition live_at (g : RoutingGraph) (at_ : nat * nat) : bool :=
  match edge_at g at_ with Some ge => is_live_graph_edge ge | None => false end.

Definition pool_has_live_edges (g : RoutingGraph) (pool_index : PoolIndex) : bool :=
  match rg_pool_edge_positions g !! Z.to_nat pool_index with
  | Some positions => existsb (live_at g) positions
  | None => false
  end.

Definition pool_has_edges (g : RoutingGraph) (pool_index : PoolIndex) : bool :=
  match rg_pool_edge_positions g !! Z.to_nat pool_index with
  | Some p => negb (bool_decide (p = []))
  | None => false
  end.

(** ** Construction *)

Definition graph_new (token_count : Z) : RoutingGraph :=
  {| rg_adjacency := replicate (Z.to_nat token_count) []; rg_token_count := token_count;
     rg_virtual_hubs := []; rg_v4_singleton_hub := None; rg_pool_edge_positions := [];
     rg_coverage := None; rg_base_view := None |}.

(** [if len <= i { resize(i + 1, default) }] *)
Definition grow {A} (i : nat) (d : A) (l : list A) : list A :=
  if (length l <=? i)%nat then resize (S i) d l else l.

Definition push_edge_at (g : RoutingGraph) (from_node : Z) (ge : GraphEdge) : RoutingGraph :=
  let ge := if decide (ge_phase ge = Direct) then set_target ge (token_out (ge_edge ge)) else ge in
  let idx := Z.to_nat from_node in
  let adj := grow idx [] (rg_adjacency g) in
  let pos := length (default [] (adj !! idx)) in
  let pool_idx := ge_pool ge in
  let positions := grow pool_idx [] (rg_pool_edge_positions g) in
  invalidate_base_view
    (set_positions (set_adjacency g (alter (λ edges, edges ++ [ge]) idx adj))
       (alter (λ ps, ps ++ [(idx, pos)]) pool_idx positions)).

Definition add_direct_edge (g : RoutingGraph) (from : TokenIndex) (ge : GraphEdge) : RoutingGraph :=
  push_edge_at g from ge.

(** Hub nodes move up by [delta]. *)
Definition shift_node (old_tc old_hub_end delta node : Z) : Z :=
  if ((old_tc <=? node) && (node <? old_hub_end))%bool then node + delta else node.

Definition shift_position (old_tc old_hub_end delta : Z) (at_ : nat * nat) : nat * nat :=
  (Z.to_nat (shift_node old_tc old_hub_end delta (Z.of_nat at_.1)), at_.2).

(** The three loops that fill [new_adj]: the tokens, the hubs, and what an earlier push
    placed past the hubs. *)
Definition moved_adjacency (old_adj : list (list GraphEdge)) (old_tc new_tc hub_count : nat)
  : list (list GraphEdge) :=
  let old_hub_end := (old_tc + hub_count)%nat in
  let slot i := default [] (old_adj !! i) in
  (λ i,
     let base := if (i <? Nat.min old_tc (length old_adj))%nat then slot i
                 else if (new_tc <=? i)%nat then slot (old_tc + (i - new_tc))%nat else [] in
     if ((old_hub_end <=? i) && (i <? length old_adj) && (i <? new_tc))%nat%bool
     then base ++ slot i else base) <$> seq 0 (new_tc + hub_count).

Definition ensure_token_capacity (g : RoutingGraph) (token_count : Z) : RoutingGraph :=
  if token_count <=? rg_token_count g then g
  else
    let old_tc := rg_token_count g in
    let delta := token_count - old_tc in
    let hub_count := length (rg_virtual_hubs g) in
    let old_hub_end := old_tc + Z.of_nat hub_count in
    let new_adj := moved_adjacency (rg_adjacency g) (Z.to_nat old_tc) (Z.to_nat token_count) hub_count in
    let shift := shift_node old_tc old_hub_end delta in
    {| rg_adjacency := (λ adj : list GraphEdge, (λ ge, set_target ge (shift (ge_target_node ge))) <$> adj) <$> new_adj;
       rg_token_count := token_count;
       rg_virtual_hubs := rg_virtual_hubs g;
       rg_v4_singleton_hub := shift <$> rg_v4_singleton_hub g;
       rg_pool_edge_positions :=
         (λ ps : list (nat * nat), shift_position old_tc old_hub_end delta <$> ps) <$> rg_pool_edge_positions g;
       rg_coverage := None;
       rg_base_view := None |}.

(** ** Cached aggregates *)

Definition no_aggregate : GraphNodeAggregate :=
  {| na_live_direct_edges := 0; na_dead_direct_edges := 0; na_hub_leg_edges := 0 |}.

Definition no_index : GraphAggregateIndex :=
  {| ai_live_direct_edges := 0; ai_dead_direct_edges := 0; ai_hub_leg_edges := 0; ai_active_pools := 0 |}.

(** The contribution of one edge. *)
Definition count_edge (token_node : bool) (aggregate : GraphNodeAggregate) (edge : GraphEdge)
  : GraphNodeAggregate :=
  match ge_phase edge with
  | Direct =>
      if is_live_graph_edge edge
      then {| na_live_direct_edges := S (na_live_direct_edges aggregate);
              na_dead_direct_edges := na_dead_direct_edges aggregate;
              na_hub_leg_edges := na_hub_leg_edges aggregate |}
      else {| na_live_direct_edges := na_live_direct_edges aggregate;
              na_dead_direct_edges := S (na_dead_direct_edges aggregate);
              na_hub_leg_edges := na_hub_leg_edges aggregate |}
  | EnterPool | ExitPool =>
      if (token_node && is_live_graph_edge edge)%bool
      then {| na_live_direct_edges := na_live_direct_edges aggregate;
              na_dead_direct_edges := na_dead_direct_edges aggregate;
              na_hub_leg_edges := S (na_hub_leg_edges aggregate) |}
      else aggregate
  end.

Definition node_aggregate (g : RoutingGraph) (node : nat) : GraphNodeAggregate :=
  let token_node := (node <? token_slots g)%nat in
  match rg_adjacency g !! node with
  | None => no_aggregate
  | Some edges => fold_left (count_edge token_node) edges no_aggregate
  end.

Definition live_edge_count_for_pool (g : RoutingGraph) (pool : nat) : nat :=
  match rg_pool_edge_positions g !! pool with
  | None => 0
  | Some positions => length (filter (λ at_, live_at g at_ = true) positions)
  end.

Definition add_node_aggregate (index : GraphAggregateIndex) (a : GraphNodeAggregate) : GraphAggregateIndex :=
  {| ai_live_direct_edges := ai_live_direct_edges index + na_live_direct_edges a;
     ai_dead_direct_edges := ai_dead_direct_edges index + na_dead_direct_edges a;
     ai_hub_leg_edges := ai_hub_leg_edges index + na_hub_leg_edges a;
     ai_active_pools := ai_active_pools index |}%nat.

(** [saturating_sub] of [usize] is [nat] subtraction. *)
Definition subtract_node_aggregate (index : GraphAggregateIndex) (a : GraphNodeAggregate)
  : GraphAggregateIndex :=
  {| ai_live_direct_edges := ai_live_direct_edges index - na_live_direct_edges a;
     ai_dead_direct_edges := ai_dead_direct_edges index - na_dead_direct_edges a;
     ai_hub_leg_edges := ai_hub_leg_edges index - na_hub_leg_edges a;
     ai_active_pools := ai_active_pools index |}%nat.

Definition set_active_pools (index : GraphAggregateIndex) (n : nat) : GraphAggregateIndex :=
  {| ai_live_direct_edges := ai_live_direct_edges index; ai_dead_direct_edges := ai_dead_direct_edges index;
     ai_hub_leg_edges := ai_hub_leg_edges index; ai_active_pools := n |}.

Definition count_live (counts : list nat) (edge : GraphEdge) : list nat :=
  if is_live_graph_edge edge then alter S (ge_pool edge) (grow (ge_pool edge) 0%nat counts) else counts.

Definition view_build (g : RoutingGraph) : GraphBaseView :=
  let node_aggregates := node_aggregate g <$> seq 0 (length (rg_adjacency g)) in
  let index := fold_left add_node_aggregate node_aggregates no_index in
  let counts := fold_left (λ counts adj, fold_left count_live adj counts) (rg_adjacency g) [] in
  {| bv_node_aggregates := node_aggregates; bv_pool_live_edge_counts := counts;
     bv_aggregate_index := set_active_pools index (length (filter (λ count, (0 < count)%nat) counts)) |}.

(** [sort_unstable(); dedup()] *)
Fixpoint vec_dedup (l : list nat) : list nat :=
  match l with
  | x :: (y :: _) as r => if (x =? y)%nat then vec_dedup r else x :: vec_dedup r
  | _ => l
  end.

Definition sort_dedup (l : list nat) : list nat := vec_dedup (merge_sort Nat.le l).

Definition patch_node (g : RoutingGraph) (v : GraphBaseView) (node : nat) : GraphBaseView :=
  if (length (rg_adjacency g) <=? node)%nat then v
  else
    let prior := default no_aggregate (bv_node_aggregates v !! node) in
    let index := subtract_node_aggregate (bv_aggregate_index v) prior in
    let current := node_aggregate g node in
    {| bv_node_aggregates := <[node := current]> (bv_node_aggregates v);
       bv_pool_live_edge_counts := bv_pool_live_edge_counts v;
       bv_aggregate_index := add_node_aggregate index current |}.

Definition patch_pool (g : RoutingGraph) (v : GraphBaseView) (pool : nat) : GraphBaseView :=
  let counts := grow pool 0%nat (bv_pool_live_edge_counts v) in
  let prior := default 0%nat (counts !! pool) in
  let current := live_edge_count_for_pool g pool in
  let active := ai_active_pools (bv_aggregate_index v) in
  let active :=
    if ((prior =? 0) && (0 <? current))%nat%bool then S active
    else if ((0 <? prior) && (current =? 0))%nat%bool then (active - 1)%nat else active in
  {| bv_node_aggregates := bv_node_aggregates v;
     bv_pool_live_edge_counts := <[pool := current]> counts;
     bv_aggregate_index := set_active_pools (bv_aggregate_index v) active |}.

Definition view_patch (v : GraphBaseView) (g : RoutingGraph) (nodes : list nat) (pools : list nat)
  : GraphBaseView :=
  let v := {| bv_node_aggregates := resize (length (rg_adjacency g)) no_aggregate (bv_node_aggregates v);
              bv_pool_live_edge_counts := bv_pool_live_edge_counts v;
              bv_aggregate_index := bv_aggregate_index v |} in
  fold_left (patch_pool g) (sort_dedup pools) (fold_left (patch_node g) (sort_dedup nodes) v).

Definition rebuild_base_view (g : RoutingGraph) : RoutingGraph := set_base_view g (Some (view_build g)).

Definition patch_base_view_nodes (g : RoutingGraph) (nodes : list nat) (pools : list nat) : RoutingGraph :=
  match rg_base_view g with
  | Some view => set_base_view g (Some (view_patch view (set_base_view g None) nodes pools))
  | None => g
  end.

(** The pools with a live edge, by a scan. *)
Definition live_pools (g : RoutingGraph) : gset nat :=
  fold_left (λ live adj,
      fold_left (λ live ge, if is_live_graph_edge ge then {[ ge_pool ge ]} ∪ live else live) adj live)
    (rg_adjacency g) ∅.

Definition active_pool_count (g : RoutingGraph) : nat :=
  match rg_base_view g with
  | Some view => ai_active_pools (bv_aggregate_index view)
  | None => size (live_pools g)
  end.
