(* ===== verification/Coverage.v ===== *)
(** * Cycle-capable coverage

    [cycle_capable_coverage] of [src/src/pipeline/cycle_finder.rs]: tokens and pools form a
    bipartite graph, an iterative Tarjan search finds its bridges, and a pool can be part
    of a cycle when at least two of its incidences are not bridges.  The set of incidences
    is walked in the order of [elements], one of the orders the hash set may have. *)
From stdpp Require Import gmap.
From Corelib Require Import SpecFloat.
From S2P Require Import Prelude Word Types Graph.

(** ** The mask *)

Definition mask_set (words : list Z) (idx : nat) : list Z :=
  let word := (idx / 64)%nat in
  let bit := (idx mod 64)%nat in
  if (word <? length words)%nat
  then alter (λ w, Z.lor w (wrap_u 64 (Z.shiftl 1 (Z.of_nat bit)))) word words
  else words.

Definition is_token_capable (c : CycleCapableCoverage) (token_idx : nat) : bool :=
  if (cc_token_count c <=? token_idx)%nat then false
  else
    let word := (token_idx / 64)%nat in
    let bit := (token_idx mod 64)%nat in
    match cc_token_mask c !! word with
    | Some w => Z.land (Z.shiftr w (Z.of_nat bit)) 1 =? 1
    | None => false
    end.

(** ** Incidences *)

Definition e_in (ge : GraphEdge) : nat := Z.to_nat (token_in (ge_edge ge)).
Definition e_out (ge : GraphEdge) : nat := Z.to_nat (token_out (ge_edge ge)).

Definition token_incidences (inc : gset (nat * nat)) (ge : GraphEdge) : gset (nat * nat) :=
  if negb (is_live_graph_edge ge) then inc
  else match ge_phase ge with
       | Direct => {[ (ge_pool ge, e_out ge) ]} ∪ ({[ (ge_pool ge, e_in ge) ]} ∪ inc)
       | EnterPool => {[ (ge_pool ge, e_in ge) ]} ∪ inc
       | ExitPool => inc
       end.

Definition hub_incidences (inc : gset (nat * nat)) (ge : GraphEdge) : gset (nat * nat) :=
  if (bool_decide (ge_phase ge = ExitPool) && is_live_graph_edge ge)%bool
  then {[ (ge_pool ge, e_out ge) ]} ∪ inc else inc.

Definition incidences (g : RoutingGraph) : gset (nat * nat) :=
  let fold f adjs inc := fold_left (λ inc edges, fold_left f edges inc) adjs inc in
  fold hub_incidences (drop (token_slots g) (rg_adjacency g))
    (fold token_incidences (take (token_slots g) (rg_adjacency g)) ∅).

(** The incidences in range; an incidence is known by its place in the list. *)
Definition incidence_edges (g : RoutingGraph) : list (nat * nat) :=
  filter (λ pt, (pt.1 < length (rg_pool_edge_positions g))%nat ∧ (pt.2 < token_slots g)%nat)
    (elements (incidences g)).

(** ** The bridge search *)

Definition bipartite (token_count : nat) (edges : list (nat * nat)) (node_count : nat)
  : list (list (nat * nat)) :=
  (fold_left (λ '(adj, edge_id) '(pool, token),
     let pool_node := (token_count + pool)%nat in
     let adj := alter (λ l, l ++ [(pool_node, edge_id)]) token adj in
     (alter (λ l, l ++ [(token, edge_id)]) pool_node adj, S edge_id))
   edges (replicate node_count [], 0%nat)).1.

Record Tarjan := {
  tj_discovered : list nat;
  tj_low : list nat;
  tj_parent_edge : list (option nat);
  tj_bridges : list bool;
  tj_clock : nat;
  tj_stack : list (nat * nat);
}.

Section search.
Context (token_count : nat) (incidence_edges : list (nat * nat)) (adjacency : list (list (nat * nat))).

Definition set_stack (s : Tarjan) (stack : list (nat * nat)) : Tarjan :=
  {| tj_discovered := tj_discovered s; tj_low := tj_low s; tj_parent_edge := tj_parent_edge s;
     tj_bridges := tj_bridges s; tj_clock := tj_clock s; tj_stack := stack |}.

(** A node is met for the first time. *)
Definition discover (s : Tarjan) (node : nat) (parent : option nat) (stack : list (nat * nat)) : Tarjan :=
  let clock := S (tj_clock s) in
  {| tj_discovered := <[node := clock]> (tj_discovered s); tj_low := <[node := clock]> (tj_low s);
     tj_parent_edge := match parent with
                       | Some e => <[node := Some e]> (tj_parent_edge s)
                       | None => tj_parent_edge s end;
     tj_bridges := tj_bridges s; tj_clock := clock; tj_stack := (node, 0%nat) :: stack |}.

Definition parent_of (s : Tarjan) (node : nat) : option nat := nth node (tj_parent_edge s) None.
Definition disc (s : Tarjan) (node : nat) : nat := nth node (tj_discovered s) 0%nat.
Definition low (s : Tarjan) (node : nat) : nat := nth node (tj_low s) 0%nat.

(** One turn of [while let Some((node, next_index)) = stack.last_mut()]. *)
Definition tarjan_step (s : Tarjan) : Tarjan :=
  match tj_stack s with
  | [] => s
  | (node, next_index) :: rest =>
      match nth node adjacency [] !! next_index with
      | Some (next, edge_id) =>
          let stack := (node, S next_index) :: rest in
          if decide (parent_of s node = Some edge_id) then set_stack s stack
          else if (disc s next =? 0)%nat then discover s next (Some edge_id) stack
          else
            {| tj_discovered := tj_discovered s;
               tj_low := <[node := Nat.min (low s node) (disc s next)]> (tj_low s);
               tj_parent_edge := tj_parent_edge s; tj_bridges := tj_bridges s;
               tj_clock := tj_clock s; tj_stack := stack |}
      | None =>
          match parent_of s node with
          | None => set_stack s rest
          | Some edge_id =>
              let '(pool, token) := nth edge_id incidence_edges (0%nat, 0%nat) in
              let pool_node := (token_count + pool)%nat in
              let parent := if (node =? pool_node)%nat then token else pool_node in
              {| tj_discovered := tj_discovered s;
                 tj_low := <[parent := Nat.min (low s parent) (low s node)]> (tj_low s);
                 tj_parent_edge := tj_parent_edge s;
                 tj_bridges := <[edge_id := (disc s parent <? low s node)%nat]> (tj_bridges s);
                 tj_clock := tj_clock s; tj_stack := rest |}
          end
      end
  end.

Fixpoint tarjan_run (fuel : nat) (s : Tarjan) : Tarjan :=
  match fuel with
  | O => s
  | S fuel => match tj_stack s with [] => s | _ => tarjan_run fuel (tarjan_step s) end
  end.

(** Every turn scans an entry of the adjacency or pops a node. *)
Definition tarjan_fuel : nat := sum_list (length <$> adjacency) + length adjacency + 1.

Definition tarjan_root (s : Tarjan) (root : nat) : Tarjan :=
  if (negb (disc s root =? 0)%nat || bool_decide (nth root adjacency [] = []))%bool then s
  else tarjan_run tarjan_fuel (discover s root None []).

Definition tarjan (node_count : nat) : Tarjan :=
  fold_left tarjan_root (seq 0 node_count)
    {| tj_discovered := replicate node_count 0%nat; tj_low := replicate node_count 0%nat;
       tj_parent_edge := replicate node_count None;
       tj_bridges := replicate (length incidence_edges) false; tj_clock := 0; tj_stack := [] |}.
End search.

(** ** The coverage *)

Definition participating (bridges : list bool) (edges : list (nat * nat)) (pool : nat) : bool :=
  (2 <=? length (filter (λ eb : nat * nat * bool, eb.1.1 = pool ∧ eb.2 = false) (zip edges bridges)))%nat.

Definition coverage_of (bridges : list bool) (edges : list (nat * nat)) (token_count : nat)
  : CycleCapableCoverage :=
  let words := ((token_count + 63) / 64)%nat in
  let '(pool_indices, token_mask) :=
    fold_left (λ '(pools, mask) '(pool, token),
        if participating bridges edges pool then ({[ pool ]} ∪ pools, mask_set mask token)
        else (pools, mask)) edges (∅, replicate words 0) in
  {| cc_token_mask := token_mask; cc_token_count := token_count; cc_pool_indices := pool_indices |}.

Definition cycle_capable_coverage (g : RoutingGraph) : CycleCapableCoverage :=
  let token_count := token_slots g in
  let node_count := (token_count + length (rg_pool_edge_positions g))%nat in
  let edges := incidence_edges g in
  let adjacency := bipartite token_count edges node_count in
  coverage_of (tj_bridges (tarjan token_count edges adjacency node_count)) edges token_count.

Definition refresh_graph_cycle_coverage (g : RoutingGraph) : RoutingGraph :=
  set_coverage g (Some (cycle_capable_coverage g)).
