(* ===== verification/GraphEdges.v ===== *)
(** * Which edges a pool gets

    The first half of [src/src/pipeline/graph.rs]: the directed edges of a pair, the funded
    legs of a multi-token pool, the resolution of a hub enter and exit into a swap, and
    the gate that decides whether a pool belongs in the graph. *)
From stdpp Require Import gmap.
From Corelib Require Import SpecFloat.
From S2P Require Import Prelude Word Types Profit Arena Routes Realign LocalSim TokenRates FlashLiquidity.
From S2P Require Import SpotPrice Graph.

Definition MAX_PARALLEL_EDGES_PER_PAIR : nat := 2.

Record GraphBuildGate := {
  gg_token_to_matic_rates : gmap Z Z;
  gg_flash : FlashLiquiditySnapshot;
  gg_flash_ttl : Z;
  gg_spoke_connectivity : option (gset Z);
}.

Definition gate_active (self : GraphBuildGate) : bool :=
  negb (bool_decide (gg_token_to_matic_rates self = ∅)).

Record PendingHubSwap := {
  ph_pool_index : PoolIndex;
  ph_token_in : TokenIndex;
  ph_token_in_idx : Z;
  ph_protocol : ProtocolType;
  ph_fee_bps : Z;
}.

Definition pair_zero_for_one (token_in_idx : Z) : bool := token_in_idx =? 0.

Definition cl_zero_for_one_from_addresses (arena : StateArena) (token_in token_out : TokenIndex)
  : option bool :=
  match token_address arena token_in, token_address arena token_out with
  | Some a_in, Some a_out => Some (a_in <? a_out)
  | _, _ => None
  end.

Definition apply_cl_zero_for_one (arena : StateArena) (edge : Edge) : Edge :=
  match protocol edge with
  | UniswapV2 | UniswapV3 | UniswapV4 =>
      match cl_zero_for_one_from_addresses arena (token_in edge) (token_out edge) with
      | Some zfo => set_zfo edge zfo
      | None => edge
      end
  | _ => edge
  end.

Definition multi_zero_for_one (token_in_idx token_out_idx : Z) : bool := token_in_idx <? token_out_idx.

Definition uses_hub_spoke (meta : PoolMeta) : bool :=
  match pm_protocol meta with
  | UniswapV4 | BalancerV2 | Woofi => true
  | _ => (2 <? length (pm_tokens meta))%nat
  end.

(** The two directions of a pair. *)
Definition pair_edge (pool_index : PoolIndex) (protocol : ProtocolType) (tin tout : TokenIndex)
    (in_idx out_idx fee_bps : Z) : Edge :=
  {| pool_index := pool_index; token_in := tin; token_out := tout; token_in_idx := in_idx;
     token_out_idx := out_idx; protocol := protocol; fee_bps := fee_bps;
     zero_for_one := pair_zero_for_one in_idx |}.

Definition edges_for_pair (pool_index : PoolIndex) (protocol : ProtocolType) (token0 token1 : TokenIndex)
    (fee_bps : Z) (state : option PoolState) : list Edge :=
  let forward := pair_edge pool_index protocol token0 token1 0 1 fee_bps in
  let backward := pair_edge pool_index protocol token1 token0 1 0 fee_bps in
  match state with
  | Some state =>
      (if hop_pair_routable state 0 1 then [forward] else [])
      ++ (if hop_pair_routable state 1 0 then [backward] else [])
  | None => [forward; backward]
  end.

(** ** Legs *)

Definition leg_count (state : PoolState) (meta : PoolMeta) : nat * option nat :=
  match state with
  | PBalancer b =>
      if is_empty (bl_tokens b) then (length (pm_tokens meta), pm_bpt_index meta)
      else (length (bl_tokens b), match bl_bpt_index b with Some i => Some i | None => pm_bpt_index meta end)
  | PWoofi w =>
      if is_empty (wf_tokens w) then (length (pm_tokens meta), pm_bpt_index meta)
      else (length (wf_tokens w), None)
  | _ => (length (pm_tokens meta), pm_bpt_index meta)
  end.

(** The funded legs below [n] but the pool's own token, as [u8]s. *)
Definition funded_legs (state : PoolState) (n : nat) (bpt : option nat) : list Z :=
  (λ i, wrap_u 8 (Z.of_nat i)) <$>
    filter (λ i, bpt ≠ Some i ∧ hop_token_funded state i = true) (seq 0 n).

Definition funded_token_indices (state : PoolState) (meta : PoolMeta) : list Z :=
  let '(n, bpt) := leg_count state meta in funded_legs state n bpt.

Definition vault_leg (arena : StateArena) (tokens : list Address) (leg : nat) : option TokenIndex :=
  let? addr := tokens !! leg in ai_address_to_token (sa_inner arena) !! addr.

Definition routing_token_at_leg (arena : StateArena) (state : PoolState) (meta : PoolMeta) (leg : nat)
  : option TokenIndex :=
  match state with
  | PBalancer b => if is_empty (bl_tokens b) then pm_tokens meta !! leg else vault_leg arena (bl_tokens b) leg
  | PWoofi w => if is_empty (wf_tokens w) then pm_tokens meta !! leg else vault_leg arena (wf_tokens w) leg
  | _ => pm_tokens meta !! leg
  end.

(** ** Hub swaps *)

Section lazy.
Context (ln_f64 : f64 → f64).

Definition lazy_indices (arena : StateArena) (tokens : list Address) (pending : PendingHubSwap)
    (token_out : TokenIndex) (token_out_idx : Z) : option (Z * Z) :=
  let? tin := token_address arena (ph_token_in pending) in
  let? tout := token_address arena token_out in
  if (bool_decide (tokens !! Z.to_nat (ph_token_in_idx pending) = Some tin)
      && bool_decide (tokens !! Z.to_nat token_out_idx = Some tout))%bool
  then Some (ph_token_in_idx pending, token_out_idx)
  else resolve_multi_token_vault_indices tokens tin tout.

Definition resolved_indices (arena : StateArena) (state : PoolState) (pending : PendingHubSwap)
    (token_out : TokenIndex) (token_out_idx : Z) : option (Z * Z) :=
  match state with
  | PBalancer b =>
      if is_empty (bl_tokens b) then Some (ph_token_in_idx pending, token_out_idx)
      else lazy_indices arena (bl_tokens b) pending token_out token_out_idx
  | PWoofi w =>
      if is_empty (wf_tokens w) then Some (ph_token_in_idx pending, token_out_idx)
      else lazy_indices arena (wf_tokens w) pending token_out token_out_idx
  | _ => Some (ph_token_in_idx pending, token_out_idx)
  end.

Definition resolve_lazy_swap_edge (arena : StateArena) (pending : PendingHubSwap) (token_out : TokenIndex)
    (token_out_idx : Z) : outcome (option (Edge * f64 * Z)) :=
  let_some state := pool_state arena (ph_pool_index pending) or Done None in
  let_some r := resolved_indices arena state pending token_out token_out_idx or Done None in
  let '(resolved_in_idx, resolved_out_idx) := r in
  if negb (hop_pair_routable state (Z.to_nat resolved_in_idx) (Z.to_nat resolved_out_idx)) then Done None
  else
    let_some zfo :=
      (match ph_protocol pending with
       | UniswapV3 | UniswapV4 => cl_zero_for_one_from_addresses arena (ph_token_in pending) token_out
       | _ => Some (multi_zero_for_one resolved_in_idx resolved_out_idx)
       end) or Done None in
    let edge :=
      {| pool_index := ph_pool_index pending; token_in := ph_token_in pending; token_out := token_out;
         token_in_idx := resolved_in_idx; token_out_idx := resolved_out_idx;
         protocol := ph_protocol pending; fee_bps := ph_fee_bps pending; zero_for_one := zfo |} in
    let! ratio := compute_edge_ratio arena edge in
    if is_zero ratio then Done None
    else Done (Some (edge, priced_log_weight ln_f64 ratio (fee_bps edge), ratio)).
End lazy.

(** ** Eligibility *)

Definition direct_pair_has_marginal_spot (state : PoolState) (protocol : ProtocolType) (fee_bps : Z)
    (input_decimals : Z * Z) : outcome bool :=
  let '(dec0, dec1) := input_decimals in
  oany (λ '(t_in_idx, t_out_idx, zfo, tin_dec),
    if negb (hop_pair_routable state (Z.to_nat t_in_idx) (Z.to_nat t_out_idx)) then Done false
    else
      let edge := {| pool_index := 0; token_in := t_in_idx; token_out := t_out_idx;
                     token_in_idx := t_in_idx; token_out_idx := t_out_idx; protocol := protocol;
                     fee_bps := fee_bps; zero_for_one := zfo |} in
      let! spot := spot_price_from_state state edge tin_dec in
      Done (SFltb f_zero spot))
    [(0, 1, true, dec0); (1, 0, false, dec1)].

(** Some pair of [funded] is routable in one of its directions. *)
Fixpoint some_pair_routable (state : PoolState) (funded : list Z) : bool :=
  match funded with
  | [] => false
  | i :: rest =>
      (existsb (λ j, hop_pair_routable state (Z.to_nat i) (Z.to_nat j)
                     || hop_pair_routable state (Z.to_nat j) (Z.to_nat i))%bool rest
       || some_pair_routable state rest)%bool
  end.

Definition pool_state_graph_eligible (state : PoolState) (protocol : ProtocolType) (token_count : nat)
    (bpt_index : option nat) (fee_bps : Z) (pair_input_decimals : option (Z * Z)) : outcome bool :=
  if (negb (is_tradable state) || (token_count <? 2)%nat)%bool then Done false
  else
    let hub_spoke := (bool_decide (protocol = UniswapV4) || (2 <? token_count)%nat)%bool in
    if ((token_count =? 2)%nat && negb hub_spoke)%bool then
      let_some decimals := pair_input_decimals or Done false in
      direct_pair_has_marginal_spot state protocol fee_bps decimals
    else Done (some_pair_routable state (funded_legs state token_count bpt_index)).

Section gate.
Context (now : Z).

(** [meta.tokens.iter().enumerate().any(..)] over the tokens that are not the pool's own. *)
Definition any_token (meta : PoolMeta) (bpt_index : option nat) (p : TokenIndex → bool) : bool :=
  existsb (λ it : nat * TokenIndex, bool_decide (bpt_index ≠ Some it.1) && p it.2)%bool
    (zip (seq 0 (length (pm_tokens meta))) (pm_tokens meta)).

(** A priced token, a token that can be borrowed, or a token of the connected set. *)
Definition gate_admits (arena : StateArena) (meta : PoolMeta) (gate : GraphBuildGate)
    (bpt_index : option nat) : bool :=
  (any_token meta bpt_index (λ token, has_reliable_matic_rate token (gg_token_to_matic_rates gate))
   || any_token meta bpt_index (λ token,
        match token_address arena token with
        | Some addr => token_eligible_for_flash_borrow_graph now (gg_flash_ttl gate) (gg_flash gate) addr
        | None => false
        end)
   || match gg_spoke_connectivity gate with
      | None => false
      | Some conn => any_token meta bpt_index (λ token,
          match token_address arena token with Some a => bool_decide (a ∈ conn) | None => false end)
      end)%bool.

(** [gate.filter(|g| g.active())] *)
Definition active_gate (gate : option GraphBuildGate) : option GraphBuildGate :=
  let? g := gate in if gate_active g then Some g else None.

Definition state_bpt_index (state : PoolState) : option nat :=
  match state with PBalancer b => bl_bpt_index b | _ => None end.

Definition pool_has_admissible_edges (arena : StateArena) (meta : PoolMeta) (gate : option GraphBuildGate)
  : outcome bool :=
  let_some state := pool_state arena (pm_pool_index meta) or Done false in
  let_some protocol :=
    (if protocol_matches_pool_state (pm_protocol meta) state then Some (pm_protocol meta)
     else
       let healed := protocol_from_pool_state state (pm_protocol meta) in
       if protocol_matches_pool_state healed state then Some healed else None) or Done false in
  let token_count :=
    match state with
    | PBalancer b => if is_empty (bl_tokens b) then length (pm_tokens meta) else length (bl_tokens b)
    | PWoofi w => if is_empty (wf_tokens w) then length (pm_tokens meta) else length (wf_tokens w)
    | _ => length (pm_tokens meta)
    end in
  let bpt_index := match pm_bpt_index meta with Some i => Some i | None => state_bpt_index state end in
  let pair_input_decimals :=
    match routing_token_at_leg arena state meta 0, routing_token_at_leg arena state meta 1 with
    | Some t0, Some t1 => Some (token_decimals arena t0, token_decimals arena t1)
    | _, _ => None
    end in
  let! ok := pool_state_graph_eligible state protocol token_count bpt_index (pm_fee_bps meta)
               pair_input_decimals in
  if negb ok then Done false
  else
    match active_gate gate with
    | None => Done true
    | Some gate => Done (gate_admits arena meta gate bpt_index)
    end.

Definition pool_worth_capped_attach (arena : StateArena) (meta : PoolMeta) (gate : option GraphBuildGate)
  : bool :=
  match active_gate gate with
  | None => true
  | Some gate =>
      let bpt_index :=
        match pm_bpt_index meta with
        | Some i => Some i
        | None => let? s := pool_state arena (pm_pool_index meta) in state_bpt_index s
        end in
      gate_admits arena meta gate bpt_index
  end.

(** [.filter(p).count()] *)
Definition ocount {A} (p : A → outcome bool) (l : list A) : outcome nat :=
  ofold (λ n x, let! b := p x in Done (if b then S n else n)) l 0%nat.

Definition count_graph_eligible_pools_with_gate (arena : StateArena) (pools : list PoolMeta)
    (gate : option GraphBuildGate) : outcome nat :=
  ocount (λ meta, pool_has_admissible_edges arena meta gate) pools.

Definition count_graph_eligible_pools (arena : StateArena) (pools : list PoolMeta) : outcome nat :=
  count_graph_eligible_pools_with_gate arena pools None.

Definition count_graph_eligible_unpriced_pools (arena : StateArena) (pools : list PoolMeta)
    (gate : GraphBuildGate) : outcome nat :=
  if negb (gate_active gate) then Done 0%nat
  else
    ocount (λ meta,
      if any_token meta (pm_bpt_index meta)
           (λ token, has_reliable_matic_rate token (gg_token_to_matic_rates gate))
      then Done false
      else pool_has_admissible_edges arena meta (Some gate)) pools.
End gate.

Definition pool_touches_hub (arena : StateArena) (meta : PoolMeta) : bool :=
  existsb (λ t, match token_address arena t with Some a => is_polygon_hub_token a | None => false end)
    (pm_tokens meta).

Definition pool_meta_from_pair (pool_index : PoolIndex) (protocol : ProtocolType)
    (token0 token1 : TokenIndex) (fee_bps : Z) : PoolMeta :=
  {| pm_pool_index := pool_index; pm_protocol := protocol; pm_tokens := [token0; token1];
     pm_fee_bps := fee_bps; pm_bpt_index := None; pm_pool_id := None; pm_protocol_label := None;
     pm_pool_type := None; pm_hooks := None; pm_tick_spacing := None |}.
