(* ===== verification/GraphOps.v ===== *)
(** * Building and maintaining the routing graph

    The second half of [src/src/pipeline/graph.rs]: attaching a pool, removing one,
    rescoring its edges, thinning parallel edges, and the passes over many pools.  A price
    may panic, so an operation that prices edges returns an [outcome]. *)
From stdpp Require Import gmap sorting.
From Corelib Require Import SpecFloat.
From S2P Require Import Prelude Word Types Profit Arena Realign LocalSim TokenRates FlashLiquidity.
From S2P Require Import CycleRank SpotPrice Graph Coverage GraphEdges.

(** ** Hubs *)

Definition push_hub (g : RoutingGraph) (hub : VirtualPoolHub) (v4 : option Z) : RoutingGraph :=
  set_adjacency (set_hubs g (rg_virtual_hubs g ++ [hub]) v4) (rg_adjacency g ++ [[]]).

Definition next_hub_node (g : RoutingGraph) : Z :=
  rg_token_count g + Z.of_nat (length (rg_virtual_hubs g)).

Definition ensure_per_pool_hub (g : RoutingGraph) (pool_index : PoolIndex) (protocol : ProtocolType)
    (exit_legs : list Z) : RoutingGraph * Z :=
  (push_hub g {| vh_pool_index := pool_index; vh_protocol := protocol; vh_exit_legs := exit_legs;
                 vh_v4_singleton := false |} (rg_v4_singleton_hub g), next_hub_node g).

Definition ensure_v4_singleton_hub (g : RoutingGraph) : RoutingGraph * Z :=
  match rg_v4_singleton_hub g with
  | Some node => (g, node)
  | None =>
      (push_hub g {| vh_pool_index := 0; vh_protocol := UniswapV4; vh_exit_legs := [];
                     vh_v4_singleton := true |} (Some (next_hub_node g)), next_hub_node g)
  end.

(** The edge of an enter or exit leg: both ends are the token. *)
Definition leg_edge (pool_index : PoolIndex) (token : TokenIndex) (leg : Z) (protocol : ProtocolType)
    (fee_bps : Z) : Edge :=
  {| pool_index := pool_index; token_in := token; token_out := token; token_in_idx := leg;
     token_out_idx := leg; protocol := protocol; fee_bps := fee_bps;
     zero_for_one := pair_zero_for_one leg |}.

Definition push_enter_edge (g : RoutingGraph) (from_token : TokenIndex) (hub_node : Z)
    (pool_index : PoolIndex) (token_in_idx : Z) (protocol : ProtocolType) (fee_bps : Z) : RoutingGraph :=
  push_edge_at g from_token
    {| ge_edge := leg_edge pool_index from_token token_in_idx protocol fee_bps; ge_phase := EnterPool;
       ge_target_node := hub_node; ge_log_weight := f_zero; ge_ratio := ONE |}.

Definition push_exit_edge (g : RoutingGraph) (hub_node : Z) (pool_index : PoolIndex)
    (to_token : TokenIndex) (token_out_idx : Z) (protocol : ProtocolType) (fee_bps : Z) : RoutingGraph :=
  push_edge_at g hub_node
    {| ge_edge := leg_edge pool_index to_token token_out_idx protocol fee_bps; ge_phase := ExitPool;
       ge_target_node := to_token; ge_log_weight := f_zero; ge_ratio := ONE |}.

(** The funded legs whose token the arena knows. *)
Definition funded_tokens (arena : StateArena) (meta : PoolMeta) (state : PoolState) : list (Z * TokenIndex) :=
  omap (λ leg, let? token := routing_token_at_leg arena state meta (Z.to_nat leg) in Some (leg, token))
    (funded_token_indices state meta).

Definition attach_hub_spoke_pool (g : RoutingGraph) (arena : StateArena) (meta : PoolMeta)
    (state : PoolState) : RoutingGraph :=
  let funded := funded_tokens arena meta state in
  if (length funded <? 2)%nat then g
  else
    let exit_legs := funded.*1 in
    let v4 := bool_decide (pm_protocol meta = UniswapV4) in
    let '(g, hub_node) :=
      if v4 then ensure_v4_singleton_hub g
      else ensure_per_pool_hub g (pm_pool_index meta) (pm_protocol meta) exit_legs in
    let g := fold_left (λ g '(leg, token),
      push_enter_edge g token hub_node (pm_pool_index meta) leg (pm_protocol meta) (pm_fee_bps meta))
      funded g in
    if v4 then g
    else fold_left (λ g '(leg, token),
           push_exit_edge g hub_node (pm_pool_index meta) token leg (pm_protocol meta) (pm_fee_bps meta))
           funded g.

(** ** Thinning *)

Definition protocol_u8 (p : ProtocolType) : Z := default 0 (fetch_slot p).

(** [(token_out, protocol, Reverse(ratio), pool_index)] *)
Definition compare_parallel (a b : GraphEdge) : comparison :=
  then_with (token_out (ge_edge a) ?= token_out (ge_edge b))
    (then_with (protocol_u8 (protocol (ge_edge a)) ?= protocol_u8 (protocol (ge_edge b)))
       (then_with (ge_ratio b ?= ge_ratio a)
          (pool_index (ge_edge a) ?= pool_index (ge_edge b)))).

Definition with_price (ge : GraphEdge) (log_weight : f64) (ratio : Z) : GraphEdge :=
  {| ge_edge := ge_edge ge; ge_phase := ge_phase ge; ge_target_node := ge_target_node ge;
     ge_log_weight := log_weight; ge_ratio := ratio |}.

Definition dead_stub (ge : GraphEdge) : GraphEdge := with_price ge DEAD_EDGE_LOG_WEIGHT 0.

Definition parallel_key (ge : GraphEdge) : Z * Z :=
  (token_out (ge_edge ge), protocol_u8 (protocol (ge_edge ge))).

(** The loop over the sorted edges: the first [max_per_pair] of each group are kept. *)
Fixpoint thin_loop (max_per_pair : nat) (cur_key : Z * Z) (group_kept : nat) (live : list GraphEdge)
  : list GraphEdge * list GraphEdge :=
  match live with
  | [] => ([], [])
  | edge :: live =>
      let key := parallel_key edge in
      let group_kept := if decide (key = cur_key) then group_kept else 0%nat in
      if (group_kept <? max_per_pair)%nat then
        let '(retained, stubs) := thin_loop max_per_pair key (S group_kept) live in
        (edge :: retained, stubs)
      else
        let '(retained, stubs) := thin_loop max_per_pair key group_kept live in
        (retained, dead_stub edge :: stubs)
  end.

Definition is_direct (ge : GraphEdge) : bool := bool_decide (ge_phase ge = Direct).

(** The edges after the pass, and whether some were removed. *)
Definition thin_parallel_edges_in_place (adj : list GraphEdge) (max_per_pair : nat)
  : list GraphEdge * bool :=
  let before_len := length adj in
  let direct := filter (λ ge, is_direct ge = true) adj in
  let hub_legs := filter (λ ge, is_direct ge = false) adj in
  let live_direct := filter (λ ge, is_live_graph_edge ge = true) direct in
  let stubs := filter (λ ge, is_live_graph_edge ge = false) direct in
  let adj' :=
    if (max_per_pair =? 0)%nat then live_direct ++ stubs ++ hub_legs
    else if (length live_direct <=? max_per_pair)%nat then live_direct ++ stubs ++ hub_legs
    else
      let '(retained, dropped) :=
        thin_loop max_per_pair (2 ^ 32 - 1, 255) 0 (sort_by compare_parallel live_direct) in
      retained ++ (stubs ++ dropped) ++ hub_legs in
  (adj', negb (before_len =? length adj')%nat).

Definition sort_adjacency_edges (adj : list GraphEdge) : list GraphEdge :=
  sort_by (λ a b, total_cmp (ge_log_weight a) (ge_log_weight b)) adj.

(** ** The reverse index *)

Definition clear_pool (positions : list (list (nat * nat))) (pool_idx : nat) : list (list (nat * nat)) :=
  alter (λ _, []) pool_idx positions.

(** The places of one adjacency list that belong to [pools]. *)
Definition index_node (pools : list nat) (positions : list (list (nat * nat))) (adj_idx : nat)
    (adj : list GraphEdge) : list (list (nat * nat)) :=
  fold_left (λ positions '(pos, ge),
      if decide (ge_pool ge ∈ pools)
      then alter (λ ps, ps ++ [(adj_idx, pos)]) (ge_pool ge) positions else positions)
    (zip (seq 0 (length adj)) adj) positions.

Definition rebuild_pool_edge_positions_for_pools (g : RoutingGraph) (pools : list nat) : RoutingGraph :=
  if decide (pools = []) then g
  else
    let pools := sort_dedup pools in
    let positions := rg_pool_edge_positions g in
    let max_pool := Nat.max (length positions) (match last pools with Some i => S i | None => 0%nat end) in
    let positions := if (length positions <? max_pool)%nat then resize max_pool [] positions else positions in
    let adj_to_scan := sort_dedup (pools ≫= λ p, (default [] (positions !! p)).*1) in
    let positions := fold_left clear_pool pools positions in
    set_positions g
      (fold_left (λ positions adj_idx,
         match rg_adjacency g !! adj_idx with
         | Some adj => index_node pools positions adj_idx adj
         | None => positions
         end) adj_to_scan positions).

(** ** Compaction *)

(** One adjacency of [compact_token_adjacency]; [Some slots] limits the pass. *)
Definition compact_step (token_slots_filter : option (list nat))
    (st : list (list GraphEdge) * bool * gset nat) (adj_idx : nat)
  : list (list GraphEdge) * bool * gset nat :=
  let '(adjacency, topology_changed, reindex) := st in
  if (match token_slots_filter with Some slots => bool_decide (adj_idx ∈ slots) | None => true end) then
    match adjacency !! adj_idx with
    | Some adj =>
        let pools_before := list_to_set (ge_pool <$> adj) in
        let '(thinned, removed) := thin_parallel_edges_in_place adj MAX_PARALLEL_EDGES_PER_PAIR in
        let sorted := sort_adjacency_edges thinned in
        (<[adj_idx := sorted]> adjacency, (topology_changed || removed)%bool,
         list_to_set (ge_pool <$> sorted) ∪ ((if removed then pools_before else ∅) ∪ reindex))
    | None => (adjacency, topology_changed, reindex)
    end
  else (adjacency, topology_changed, reindex).

(** The hubs of a full pass. *)
Definition compact_hub (st : list (list GraphEdge) * gset nat) (adj_idx : nat)
  : list (list GraphEdge) * gset nat :=
  let '(adjacency, reindex) := st in
  match adjacency !! adj_idx with
  | Some adj =>
      let sorted := sort_adjacency_edges adj in
      (<[adj_idx := sorted]> adjacency, list_to_set (ge_pool <$> sorted) ∪ reindex)
  | None => st
  end.

Definition compact_token_adjacency (g : RoutingGraph) (slots : option (list nat)) : RoutingGraph :=
  let token_count := token_slots g in
  let '(adjacency, topology_changed, reindex) :=
    fold_left (compact_step slots) (seq 0 token_count)
      (rg_adjacency g, bool_decide (rg_coverage g = None), ∅) in
  let '(adjacency, reindex) :=
    match slots with
    | None => fold_left compact_hub (seq token_count (length adjacency - token_count)) (adjacency, reindex)
    | Some _ => (adjacency, reindex)
    end in
  let g := set_adjacency g adjacency in
  let g := if decide (reindex = ∅) then g
           else rebuild_pool_edge_positions_for_pools g (elements reindex) in
  if topology_changed then refresh_graph_cycle_coverage g else g.

(** ** Removal *)

Definition clear_exit_legs (hub : VirtualPoolHub) : VirtualPoolHub :=
  {| vh_pool_index := vh_pool_index hub; vh_protocol := vh_protocol hub; vh_exit_legs := [];
     vh_v4_singleton := vh_v4_singleton hub |}.

(** [iter_mut().find(p)] and the update of what it finds. *)
Fixpoint update_first {A} (p : A → bool) (f : A → A) (l : list A) : list A :=
  match l with
  | [] => []
  | x :: l => if p x then f x :: l else x :: update_first p f l
  end.

(** One adjacency: what is left, whether it changed, and the pools to index again. *)
Definition remove_step (pool : PoolIndex) (st : list (list GraphEdge) * bool * gset nat) (adj_idx : nat)
  : list (list GraphEdge) * bool * gset nat :=
  let '(adjacency, changed, reindex) := st in
  match adjacency !! adj_idx with
  | None => st
  | Some adj =>
      let kept := filter (λ ge, pool_index (ge_edge ge) ≠ pool) adj in
      if (length kept =? length adj)%nat then (<[adj_idx := kept]> adjacency, changed, reindex)
      else (<[adj_idx := kept]> adjacency, true, list_to_set (ge_pool <$> kept) ∪ reindex)
  end.

Definition remove_pool_edges_from_graph (g : RoutingGraph) (pool : PoolIndex) : RoutingGraph :=
  let pool_idx := Z.to_nat pool in
  let positions := positions_at g pool_idx in
  if decide (positions = []) then g
  else
    let adj_touched := elements (list_to_set positions.*1 : gset nat) in
    let '(adjacency, changed, reindex) :=
      fold_left (remove_step pool) adj_touched (rg_adjacency g, false, {[ pool_idx ]}) in
    let g := set_adjacency g adjacency in
    if negb changed then set_positions g (alter (λ _, []) pool_idx (rg_pool_edge_positions g))
    else
      let g := set_hubs g (update_first (λ h, vh_pool_index h =? pool) clear_exit_legs (rg_virtual_hubs g))
                 (rg_v4_singleton_hub g) in
      invalidate_base_view
        (set_coverage (rebuild_pool_edge_positions_for_pools g (elements reindex)) None).

(** ** Attaching *)

Definition direct_on_meta (arena : StateArena) (ok : list TokenIndex) (tok : TokenIndex) : bool :=
  existsb (λ t, ((t =? tok)
                 || (bool_decide (token_address arena t ≠ None)
                     && bool_decide (token_address arena t = token_address arena tok)))%bool) ok.

Definition meta_routing_tokens (arena : StateArena) (meta : PoolMeta) : list TokenIndex :=
  match pool_state arena (pm_pool_index meta) with
  | None => pm_tokens meta
  | Some state =>
      fold_left (λ ok leg,
          match routing_token_at_leg arena state meta leg with
          | Some t => if bool_decide (t ∈ ok) then ok else ok ++ [t]
          | None => ok
          end) [0%nat; 1%nat] (pm_tokens meta)
  end.

Definition pool_direct_edges_match_meta (g : RoutingGraph) (arena : StateArena) (meta : PoolMeta) : bool :=
  if (length (pm_tokens meta) <? 2)%nat then true
  else
    match rg_pool_edge_positions g !! Z.to_nat (pm_pool_index meta) with
    | None => true
    | Some positions =>
        let ok := meta_routing_tokens arena meta in
        forallb (λ at_,
          match edge_at g at_ with
          | None => true
          | Some ge =>
              (negb (is_direct ge)
               || (direct_on_meta arena ok (token_in (ge_edge ge))
                   && direct_on_meta arena ok (token_out (ge_edge ge))))%bool
          end) positions
    end.

Definition push_direct (arena : StateArena) (g : RoutingGraph) (edge : Edge) : RoutingGraph :=
  let edge := apply_cl_zero_for_one arena edge in
  push_edge_at g (token_in edge)
    {| ge_edge := edge; ge_phase := Direct; ge_target_node := token_out edge;
       ge_log_weight := f_zero; ge_ratio := 0 |}.

Definition arena_token_count (arena : StateArena) : Z := Z.of_nat (length (ai_tokens (sa_inner arena))).

(** The edges of an admitted pool; [None] when its shape gives none. *)
Definition attach_edges (g : RoutingGraph) (arena : StateArena) (meta : PoolMeta) (state : PoolState)
  : option RoutingGraph :=
  if uses_hub_spoke meta then Some (attach_hub_spoke_pool g arena meta state)
  else if (length (pm_tokens meta) =? 2)%nat then
    let? token0 := routing_token_at_leg arena state meta 0 in
    let? token1 := routing_token_at_leg arena state meta 1 in
    if token0 =? token1 then None
    else
      let edge_proto :=
        if protocol_matches_pool_state (pm_protocol meta) state then pm_protocol meta
        else protocol_from_pool_state state (pm_protocol meta) in
      Some (fold_left (push_direct arena)
              (edges_for_pair (pm_pool_index meta) edge_proto token0 token1 (pm_fee_bps meta) (Some state)) g)
  else None.

(** ** Pricing *)

Definition set_ge_edge (ge : GraphEdge) (e : Edge) : GraphEdge :=
  {| ge_edge := e; ge_phase := ge_phase ge; ge_target_node := ge_target_node ge;
     ge_log_weight := ge_log_weight ge; ge_ratio := ge_ratio ge |}.

Section pricing.
Context (ln_f64 : f64 → f64) (now : Z).

(** The edge with the family, fee and direction of the state; [None] when no family fits. *)
Definition healed_graph_edge (arena : StateArena) (edge : Edge) (state : PoolState) : option Edge :=
  let? edge :=
    (if protocol_matches_pool_state (protocol edge) state then Some edge
     else
       let corrected := protocol_from_pool_state state (protocol edge) in
       if (bool_decide (corrected = protocol edge) || negb (protocol_matches_pool_state corrected state))%bool
       then None else Some (set_protocol edge corrected)) in
  Some (apply_cl_zero_for_one arena (sync_edge_fee_bps_from_state edge state)).

Definition rescore_graph_edge (arena : StateArena) (ge : GraphEdge) : outcome GraphEdge :=
  match ge_phase ge with
  | EnterPool | ExitPool => Done (with_price ge f_zero ONE)
  | Direct =>
      let_some state := pool_state arena (pool_index (ge_edge ge)) or Done (dead_stub ge) in
      let_some edge := healed_graph_edge arena (ge_edge ge) state or Done (dead_stub ge) in
      let ge := set_ge_edge ge edge in
      if negb (hop_pair_routable state (Z.to_nat (token_in_idx edge)) (Z.to_nat (token_out_idx edge)))
      then Done (dead_stub ge)
      else
        let! ratio := compute_edge_ratio arena edge in
        if is_zero ratio then Done (dead_stub ge)
        else Done (with_price ge (priced_log_weight ln_f64 ratio (fee_bps edge)) ratio)
  end.

(** The lists are independent: the parallel loop is the sequential one. *)
Definition rescore_adjacency (arena : StateArena) (adjacency : list (list GraphEdge))
  : outcome (list (list GraphEdge)) :=
  omapM (omapM (rescore_graph_edge arena)) adjacency.

Definition rescore_graph_in_place (arena : StateArena) (g : RoutingGraph) : outcome RoutingGraph :=
  let! adjacency := rescore_adjacency arena (rg_adjacency g) in
  Done (rebuild_base_view (compact_token_adjacency (set_adjacency g adjacency) None)).

Record DirtyPass := {
  dp_adjacency : list (list GraphEdge);
  dp_touched : nat;
  dp_affected : list nat;
  dp_pools : list nat;
}.

(** One place of a dirty pool. *)
Definition rescore_place (arena : StateArena) (st : DirtyPass) (at_ : nat * nat) : outcome DirtyPass :=
  match (let? adj := dp_adjacency st !! at_.1 in adj !! at_.2) with
  | None => Done st
  | Some ge =>
      let! ge := rescore_graph_edge arena ge in
      Done {| dp_adjacency := alter (<[at_.2 := ge]>) at_.1 (dp_adjacency st);
              dp_touched := S (dp_touched st); dp_affected := dp_affected st ++ [at_.1];
              dp_pools := dp_pools st |}
  end.

Definition rescore_pool (arena : StateArena) (positions : list (list (nat * nat))) (st : DirtyPass)
    (pool : PoolIndex) : outcome DirtyPass :=
  let pool_idx := Z.to_nat pool in
  match positions !! pool_idx with
  | None => Done st
  | Some places =>
      let! st := ofold (rescore_place arena) places st in
      Done {| dp_adjacency := dp_adjacency st; dp_touched := dp_touched st; dp_affected := dp_affected st;
              dp_pools := dp_pools st ++ [pool_idx] |}
  end.

(** [sort_adjacency_edges] on the lists named. *)
Definition sort_nodes (adjacency : list (list GraphEdge)) (nodes : list nat) : list (list GraphEdge) :=
  fold_left (λ adjacency i, alter sort_adjacency_edges i adjacency) nodes adjacency.

Definition rescore_pools_in_place (arena : StateArena) (g : RoutingGraph) (pools : list PoolIndex)
  : outcome (RoutingGraph * nat) :=
  if decide (pools = []) then Done (g, 0%nat)
  else
    let! st := ofold (rescore_pool arena (rg_pool_edge_positions g)) pools
                 {| dp_adjacency := rg_adjacency g; dp_touched := 0; dp_affected := []; dp_pools := [] |} in
    let touched_pools := sort_dedup (dp_pools st) in
    let affected := sort_dedup (dp_affected st) in
    let g := set_adjacency g (dp_adjacency st) in
    let aggregate_pools :=
      (Z.to_nat <$> pools) ++ (affected ≫= λ i, ge_pool <$> adj_at g i) in
    let token_count := token_slots g in
    let compact_slots := filter (λ i, (i < token_count)%nat) affected in
    let hubs := filter (λ i, (token_count ≤ i)%nat) affected in
    let g :=
      if decide (compact_slots = []) then
        rebuild_pool_edge_positions_for_pools
          (set_adjacency g (sort_nodes (rg_adjacency g) affected)) touched_pools
      else
        let g := set_adjacency g (sort_nodes (rg_adjacency g) hubs) in
        let g := compact_token_adjacency g (Some compact_slots) in
        if decide (hubs = []) then g else rebuild_pool_edge_positions_for_pools g touched_pools in
    Done (patch_base_view_nodes g affected aggregate_pools, dp_touched st).

Inductive GraphRescoreMode := RescoreFull | RescorePartial.

Record GraphRescoreReport := {
  rr_mode : option GraphRescoreMode;
  rr_edges_touched : nat;
  rr_dirty_pools : nat;
}.

Definition rescore_dirty_pools_or_full (arena : StateArena) (g : RoutingGraph)
    (dirty_pools : list PoolIndex) (arena_pool_count : nat) : outcome (RoutingGraph * GraphRescoreReport) :=
  if decide (dirty_pools = []) then
    Done (g, {| rr_mode := None; rr_edges_touched := 0; rr_dirty_pools := 0 |})
  else if (arena_pool_count / 2 <? length dirty_pools)%nat then
    let! g := rescore_graph_in_place arena g in
    Done (g, {| rr_mode := Some RescoreFull;
                rr_edges_touched := sum_list (length <$> rg_adjacency g);
                rr_dirty_pools := length dirty_pools |})
  else
    let! r := rescore_pools_in_place arena g dirty_pools in
    Done (r.1, {| rr_mode := Some RescorePartial; rr_edges_touched := r.2;
                  rr_dirty_pools := length dirty_pools |}).

(** ** Passes over the pools *)

(** The part of [attach_pool_to_graph] after the checks on existing edges. *)
Definition attach_fresh (g : RoutingGraph) (arena : StateArena) (meta : PoolMeta)
    (gate : option GraphBuildGate) : outcome (RoutingGraph * bool) :=
  match pool_state arena (pm_pool_index meta) with
  | None => Done (g, false)
  | Some state =>
      if negb (is_tradable state) then Done (g, false)
      else
        let! admissible := pool_has_admissible_edges now arena meta gate in
        if negb admissible then Done (g, false)
        else
          let g := ensure_token_capacity g (arena_token_count arena) in
          match attach_edges g arena meta state with
          | None => Done (g, false)
          | Some g => Done (g, pool_has_edges g (pm_pool_index meta))
          end
  end.

Definition attach_pool_to_graph (g : RoutingGraph) (arena : StateArena) (meta : PoolMeta)
    (gate : option GraphBuildGate) : outcome (RoutingGraph * bool) :=
  if pool_has_live_edges g (pm_pool_index meta) then
    if pool_direct_edges_match_meta g arena meta then Done (g, false)
    else attach_fresh (remove_pool_edges_from_graph g (pm_pool_index meta)) arena meta gate
  else if pool_has_edges g (pm_pool_index meta) then Done (g, false)
  else attach_fresh g arena meta gate.

Definition finalize_graph_topology (arena : StateArena) (g : RoutingGraph) : outcome RoutingGraph :=
  let! g := rescore_graph_in_place arena g in Done (refresh_graph_cycle_coverage g).

Definition build_graph_with_gate (arena : StateArena) (pools : list PoolMeta)
    (gate : option GraphBuildGate) : outcome RoutingGraph :=
  let! g := ofold (λ g meta, let! r := attach_pool_to_graph g arena meta gate in Done r.1) pools
              (graph_new (arena_token_count arena)) in
  finalize_graph_topology arena g.

Definition build_graph (arena : StateArena) (pools : list PoolMeta) : outcome RoutingGraph :=
  build_graph_with_gate arena pools None.

(** An admissible pool without edges. *)
Definition pool_missing (arena : StateArena) (g : RoutingGraph) (gate : option GraphBuildGate)
    (meta : PoolMeta) : outcome bool :=
  let! admissible := pool_has_admissible_edges now arena meta gate in
  Done (admissible && pool_worth_capped_attach now arena meta gate
        && negb (pool_has_live_edges g (pm_pool_index meta))
        && negb (pool_has_edges g (pm_pool_index meta)))%bool.

Definition count_eligible_pools_missing_from_graph_with_gate (arena : StateArena) (pools : list PoolMeta)
    (g : RoutingGraph) (gate : option GraphBuildGate) : outcome nat :=
  ocount (pool_missing arena g gate) pools.

Definition has_missing_eligible_pools_with_gate (arena : StateArena) (pools : list PoolMeta)
    (g : RoutingGraph) (gate : option GraphBuildGate) : outcome bool :=
  oany (λ meta,
    let! admissible := pool_has_admissible_edges now arena meta gate in
    Done (if (negb admissible || negb (pool_worth_capped_attach now arena meta gate))%bool then false
          else if pool_has_live_edges g (pm_pool_index meta)
          then negb (pool_direct_edges_match_meta g arena meta)
          else negb (pool_has_edges g (pm_pool_index meta)))) pools.

Definition has_missing_eligible_pools (arena : StateArena) (pools : list PoolMeta) (g : RoutingGraph)
  : outcome bool := has_missing_eligible_pools_with_gate arena pools g None.

Definition ATTACH_MISSING_CAP : nat := Z.to_nat 1024.

Definition try_attach_missing_pool (arena : StateArena) (gate : option GraphBuildGate)
    (st : RoutingGraph * list PoolIndex) (meta : PoolMeta) : outcome (RoutingGraph * list PoolIndex) :=
  let '(g, attached_pools) := st in
  let pool := pm_pool_index meta in
  if (ATTACH_MISSING_CAP <=? length attached_pools)%nat then Done st
  else if negb (pool_worth_capped_attach now arena meta gate) then Done st
  else
    let attach g :=
      let! r := attach_pool_to_graph g arena meta gate in
      Done (r.1, if r.2 : bool then attached_pools ++ [pool] else attached_pools) in
    if (pool_has_live_edges g pool && negb (pool_direct_edges_match_meta g arena meta))%bool
    then attach (remove_pool_edges_from_graph g pool)
    else if pool_has_live_edges g pool then Done st
    else if pool_has_edges g pool then Done st
    else attach g.

Record GraphAttachReport := {
  ar_attached_pools : nat;
  ar_live_after : nat;
  ar_hit_cap : bool;
  ar_missing_after : nat;
  ar_missing_sample : option PoolIndex;
}.

(** One of the two passes: the pools that touch a hub token, or the others. *)
Definition attach_pass (arena : StateArena) (pools : list PoolMeta) (gate : option GraphBuildGate)
    (st : RoutingGraph * list PoolIndex) (prefer_hub : bool) : outcome (RoutingGraph * list PoolIndex) :=
  ofold (λ st meta,
    if (ATTACH_MISSING_CAP <=? length st.2)%nat then Done st
    else if negb (Bool.eqb prefer_hub (pool_touches_hub arena meta)) then Done st
    else try_attach_missing_pool arena gate st meta) pools st.

Definition attach_missing_eligible_pools_with_gate (arena : StateArena) (g : RoutingGraph)
    (pools : list PoolMeta) (gate : option GraphBuildGate) : outcome (RoutingGraph * GraphAttachReport) :=
  let g := ensure_token_capacity g (arena_token_count arena) in
  let! st := ofold (attach_pass arena pools gate) [true; false] (g, []) in
  let attached_pools := st.2 in
  let! g :=
    (if decide (attached_pools = []) then Done st.1
     else
       let! r := rescore_pools_in_place arena st.1 attached_pools in
       Done (refresh_graph_cycle_coverage r.1)) in
  let live_after := length (filter (λ p, pool_has_live_edges g p = true) attached_pools) in
  let at_cap := (ATTACH_MISSING_CAP <=? length attached_pools)%nat in
  let! missing :=
    (if at_cap then
       ofold (λ acc meta,
         let! m := pool_missing arena g gate meta in
         Done (if m then (S acc.1, match acc.2 with Some s => Some s | None => Some (pm_pool_index meta) end)
               else acc)) pools (0%nat, None)
     else Done (0%nat, None)) in
  Done (g, {| ar_attached_pools := length attached_pools; ar_live_after := live_after;
              ar_hit_cap := (at_cap && (0 <? missing.1)%nat)%bool;
              ar_missing_after := missing.1; ar_missing_sample := missing.2 |}).

Definition attach_missing_eligible_pools (arena : StateArena) (g : RoutingGraph) (pools : list PoolMeta)
  : outcome (RoutingGraph * GraphAttachReport) :=
  attach_missing_eligible_pools_with_gate arena g pools None.
End pricing.

(** ** Statistics *)

Record GraphTopologyStats := {
  ts_token_slots : nat;
  ts_virtual_hubs : nat;
  ts_live_direct_edges : nat;
  ts_dead_direct_edges : nat;
  ts_hub_leg_edges : nat;
  ts_active_pools : nat;
  ts_cycle_capable_pools : nat;
}.

(** The scan: a token node's hub legs count, a hub's do not. *)
Definition scan_index (g : RoutingGraph) : GraphAggregateIndex :=
  fold_left (λ index '(adj_idx, adj),
      fold_left (λ index ge, add_node_aggregate index
                   (count_edge (adj_idx <? token_slots g)%nat no_aggregate ge)) adj index)
    (zip (seq 0 (length (rg_adjacency g))) (rg_adjacency g)) no_index.

Definition topology_stats (g : RoutingGraph) : GraphTopologyStats :=
  let index :=
    match rg_base_view g with
    | Some view => bv_aggregate_index view
    | None => set_active_pools (scan_index g) (active_pool_count g)
    end in
  {| ts_token_slots := token_slots g; ts_virtual_hubs := length (rg_virtual_hubs g);
     ts_live_direct_edges := ai_live_direct_edges index;
     ts_dead_direct_edges := ai_dead_direct_edges index;
     ts_hub_leg_edges := ai_hub_leg_edges index; ts_active_pools := ai_active_pools index;
     ts_cycle_capable_pools :=
       match rg_coverage g with Some c => size (cc_pool_indices c) | None => 0%nat end |}.
