(* ===== verification/GraphInv.v ===== *)
(** * The invariant of the routing graph

    The reverse index names exactly the places of the edges, every edge sits at the node
    its phase demands, and the cached aggregates are those a fresh count gives.  Every
    operation of [GraphOps.v] preserves this. *)
From stdpp Require Import gmap sorting.
From Corelib Require Import SpecFloat.
From S2P Require Import Prelude Word Types Profit Arena Realign LocalSim TokenRates FlashLiquidity.
From S2P Require Import CycleRank SpotPrice Graph Coverage GraphEdges GraphOps.

(** ** Sorted lists without duplicates *)

Lemma vec_dedup_cons2 a b l :
  vec_dedup (a :: b :: l) = if (a =? b)%nat then vec_dedup (b :: l) else a :: vec_dedup (b :: l).
Proof. done. Qed.

Lemma vec_dedup_elem l x : x ∈ vec_dedup l ↔ x ∈ l.
Proof.
  induction l as [|a [|b l] IH]; [done..|]. rewrite vec_dedup_cons2.
  destruct (Nat.eqb_spec a b) as [->|Hne].
  - rewrite IH, !elem_of_cons. naive_solver.
  - rewrite (elem_of_cons (vec_dedup _)), IH. by rewrite (elem_of_cons (b :: l)).
Qed.

Lemma vec_dedup_NoDup l : StronglySorted Nat.le l → NoDup (vec_dedup l).
Proof.
  induction l as [|a [|b l] IH]; intros Hs; [constructor|apply NoDup_singleton|].
  apply StronglySorted_inv in Hs as [Hs Hf]. rewrite vec_dedup_cons2.
  destruct (Nat.eqb_spec a b) as [->|Hne]; [by apply IH|].
  constructor; [|by apply IH]. rewrite vec_dedup_elem. intros Hin.
  apply Forall_cons in Hf as [Hab Hf]. apply StronglySorted_inv in Hs as [_ Hb].
  apply elem_of_cons in Hin as [->|Hin]; [done|].
  rewrite Forall_forall in Hb. specialize (Hb _ Hin). unfold Nat.le in *. lia.
Qed.

Lemma sort_dedup_elem l x : x ∈ sort_dedup l ↔ x ∈ l.
Proof. unfold sort_dedup. by rewrite vec_dedup_elem, merge_sort_Permutation. Qed.

Lemma sort_dedup_NoDup l : NoDup (sort_dedup l).
Proof. apply vec_dedup_NoDup, StronglySorted_merge_sort; apply _. Qed.

(** ** Growing lists *)

Lemma grow_lookup {A} i (d : A) l j : grow i d l !! j = (if decide (j < length l)%nat then l !! j
  else if decide (j ≤ i)%nat then Some d else None).
Proof.
  unfold grow. destruct (Nat.leb_spec (length l) i) as [Hle|Hlt].
  - destruct (decide (j < length l)%nat); [by rewrite lookup_resize by lia|].
    destruct (decide (j ≤ i)%nat); [by rewrite lookup_resize_new by lia|].
    apply lookup_ge_None. rewrite length_resize. lia.
  - destruct (decide (j < length l)%nat); [done|]. rewrite decide_False by lia. by apply lookup_ge_None; lia.
Qed.

Lemma grow_default {A} i (d : A) l j : default d (grow i d l !! j) = default d (l !! j).
Proof.
  rewrite grow_lookup. destruct (decide _) as [|Hn]; [done|].
  rewrite (lookup_ge_None_2 l j) by lia. by destruct (decide _).
Qed.

Lemma length_grow {A} i (d : A) l : length (grow i d l) = Nat.max (length l) (S i).
Proof. unfold grow. destruct (Nat.leb_spec (length l) i); rewrite ?length_resize; lia. Qed.

Lemma resize_default {A} k (d : A) l j : (length l ≤ k)%nat → default d (resize k d l !! j) = default d (l !! j).
Proof.
  intros Hk. destruct (decide (j < length l)%nat); [by rewrite lookup_resize by lia|].
  rewrite (lookup_ge_None_2 l j) by lia.
  destruct (decide (j < k)%nat); [by rewrite lookup_resize_new by lia|].
  by rewrite lookup_ge_None_2 by (rewrite length_resize; lia).
Qed.

Lemma alter_default {A} (f : A → A) i (d : A) l j :
  (i < length l)%nat → default d (alter f i l !! j) = if decide (i = j) then f (default d (l !! j)) else default d (l !! j).
Proof.
  intros Hi. destruct (decide (i = j)) as [->|Hne].
  - rewrite list_lookup_alter_eq. by destruct (lookup_lt_is_Some_2 l j Hi) as [x ->].
  - by rewrite list_lookup_alter_ne.
Qed.

(** ** Places *)

Definition place (adj : list (list GraphEdge)) (at_ : nat * nat) : option GraphEdge :=
  let? edges := adj !! at_.1 in edges !! at_.2.

(** The reverse index is exact for one pool. *)
Definition exact (adj : list (list GraphEdge)) (pos : list (list (nat * nat))) (p : nat) : Prop :=
  NoDup (default [] (pos !! p)) ∧
  ∀ at_, at_ ∈ default [] (pos !! p) ↔ ∃ ge, place adj at_ = Some ge ∧ ge_pool ge = p.

Definition edge_placed (tc hubs : Z) (node : nat) (ge : GraphEdge) : Prop :=
  0 ≤ pool_index (ge_edge ge) ∧
  match ge_phase ge with
  | Direct =>
      Z.of_nat node < tc ∧ token_in (ge_edge ge) = Z.of_nat node ∧ 0 ≤ token_out (ge_edge ge) < tc ∧
      token_in (ge_edge ge) ≠ token_out (ge_edge ge) ∧ ge_target_node ge = token_out (ge_edge ge)
  | EnterPool =>
      Z.of_nat node < tc ∧ token_in (ge_edge ge) = Z.of_nat node ∧ tc ≤ ge_target_node ge < tc + hubs
  | ExitPool =>
      tc ≤ Z.of_nat node ∧ 0 ≤ token_out (ge_edge ge) < tc ∧ ge_target_node ge = token_out (ge_edge ge)
  end.

Definition all_placed (tc hubs : Z) (adj : list (list GraphEdge)) : Prop :=
  ∀ at_ ge, place adj at_ = Some ge → edge_placed tc hubs at_.1 ge.

Definition live_count (adj : list (list GraphEdge)) (p : nat) : nat :=
  length (filter (λ ge, ge_pool ge = p ∧ is_live_graph_edge ge = true) (mjoin adj)).

Record view_ok (g : RoutingGraph) (v : GraphBaseView) : Prop := {
  vo_nodes : bv_node_aggregates v = node_aggregate g <$> seq 0 (length (rg_adjacency g));
  vo_counts p : default 0%nat (bv_pool_live_edge_counts v !! p) = live_count (rg_adjacency g) p;
  vo_index : bv_aggregate_index v =
    set_active_pools (fold_left add_node_aggregate (bv_node_aggregates v) no_index)
      (length (filter (λ count, (0 < count)%nat) (bv_pool_live_edge_counts v)));
}.

(** A hub holds the edges of one pool. *)
Definition hubs_pure (tc : Z) (adj : list (list GraphEdge)) : Prop :=
  ∀ a b b' ge ge', tc ≤ Z.of_nat a → place adj (a, b) = Some ge → place adj (a, b') = Some ge' →
    ge_pool ge = ge_pool ge'.

Definition hub_count (g : RoutingGraph) : Z := Z.of_nat (length (rg_virtual_hubs g)).

(** All but the cached view, which an attachment leaves stale until it pushes an edge. *)
Record struct_ok (g : RoutingGraph) : Prop := {
  go_tc : 0 ≤ rg_token_count g;
  go_len : Z.of_nat (length (rg_adjacency g)) = rg_token_count g + hub_count g;
  go_v4 h : rg_v4_singleton_hub g = Some h → rg_token_count g ≤ h < rg_token_count g + hub_count g;
  go_placed : all_placed (rg_token_count g) (hub_count g) (rg_adjacency g);
  go_pure : hubs_pure (rg_token_count g) (rg_adjacency g);
  go_exact p : exact (rg_adjacency g) (rg_pool_edge_positions g) p;
}.

Definition graph_ok (g : RoutingGraph) : Prop :=
  struct_ok g ∧ ∀ v, rg_base_view g = Some v → view_ok g v.

Lemma edge_at_place g at_ : edge_at g at_ = place (rg_adjacency g) at_.
Proof. done. Qed.

(** ** Rebuilding the reverse index *)

Abbreviation pos_at pos p := (default [] (pos !! p : option (list (nat * nat)))).

Lemma clear_pool_at pos q p : pos_at (clear_pool pos q) p = if decide (p = q) then [] else pos_at pos p.
Proof.
  unfold clear_pool. rewrite list_lookup_alter. destruct (decide (q = p)) as [->|].
  - rewrite decide_True by done. by destruct (pos !! p).
  - by rewrite decide_False by done.
Qed.

Lemma clear_pools_at pools pos p :
  pos_at (fold_left clear_pool pools pos) p = if decide (p ∈ pools) then [] else pos_at pos p.
Proof.
  revert pos. induction pools as [|q pools IH]; intros pos; cbn [fold_left].
  { rewrite decide_False by apply not_elem_of_nil. done. }
  rewrite IH, clear_pool_at. destruct (decide (p ∈ pools)).
  { rewrite decide_True by (by right). done. }
  destruct (decide (p = q)) as [->|].
  - rewrite decide_True by (by left). done.
  - rewrite decide_False; [done|]. rewrite elem_of_cons. naive_solver.
Qed.

Lemma length_clear_pools pools pos : length (fold_left clear_pool pools pos) = length pos.
Proof.
  revert pos. induction pools as [|q pools IH]; intros pos; [done|]. cbn. rewrite IH. apply length_alter.
Qed.

(** The places of one pool in a list that starts at position [k]. *)
Definition node_places (i k : nat) (adj : list GraphEdge) (p : nat) : list (nat * nat) :=
  (λ '(pos, _), (i, pos)) <$> filter (λ x : nat * GraphEdge, ge_pool x.2 = p) (zip (seq k (length adj)) adj).

Lemma node_places_elem i k adj p at_ :
  at_ ∈ node_places i k adj p ↔
  at_.1 = i ∧ (k ≤ at_.2)%nat ∧ ∃ ge, adj !! (at_.2 - k)%nat = Some ge ∧ ge_pool ge = p.
Proof.
  unfold node_places. rewrite list_elem_of_fmap. destruct at_ as [i' pos]. cbn. split.
  - intros ([pos' ge] & [= -> ->] & Hin). apply list_elem_of_filter in Hin as [Hp Hin]. cbn in Hp.
    apply list_elem_of_lookup in Hin as [j Hj]. rewrite lookup_zip_Some in Hj. destruct Hj as [Hs Hg].
    apply lookup_seq in Hs as [-> _]. split_and!; [done|lia|]. exists ge.
    replace (k + j - k)%nat with j by lia. done.
  - intros (-> & Hk & ge & Hg & Hp). exists (pos, ge). split; [done|]. apply list_elem_of_filter. split; [done|].
    apply list_elem_of_lookup. exists (pos - k)%nat. rewrite lookup_zip_Some.
    pose proof (lookup_lt_Some _ _ _ Hg). split; [|done]. apply lookup_seq. lia.
Qed.

Lemma node_places_NoDup i k adj p : NoDup (node_places i k adj p).
Proof.
  revert k. induction adj as [|ge adj IH]; intros k; [constructor|].
  unfold node_places. cbn [length seq zip zip_with]. rewrite filter_cons. destruct (decide _).
  - cbn [fmap list_fmap]. constructor; [|apply (IH (S k))].
    intros Hin. apply (node_places_elem i (S k) adj p (i, k)) in Hin as (_ & Hle & _). cbn in Hle. lia.
  - apply (IH (S k)).
Qed.

Lemma index_node_at pools pos i adj p :
  (∀ q, q ∈ pools → (q < length pos)%nat) →
  pos_at (index_node pools pos i adj) p = pos_at pos p ++ (if decide (p ∈ pools) then node_places i 0 adj p else []).
Proof.
  unfold index_node, node_places. generalize 0%nat as k. revert pos.
  induction adj as [|ge adj IH]; intros pos k Hlt; cbn [length seq zip zip_with fold_left].
  { destruct (decide _); by rewrite app_nil_r. }
  destruct (decide (ge_pool ge ∈ pools)) as [Hin|Hin].
  - rewrite IH by (by setoid_rewrite length_alter). rewrite alter_default by (by apply Hlt).
    rewrite filter_cons. cbn [snd]. destruct (decide (ge_pool ge = p)) as [<-|Hne].
    + rewrite !decide_True by done. cbn [fmap list_fmap]. by rewrite <- app_assoc.
    + done.
  - rewrite IH by done. rewrite filter_cons. cbn [snd].
    destruct (decide (p ∈ pools)); [|done]. rewrite decide_False; [done|]. congruence.
Qed.

Lemma length_index_node pools pos i adj : length (index_node pools pos i adj) = length pos.
Proof.
  unfold index_node. generalize 0%nat as k. revert pos. induction adj as [|ge adj IH]; intros pos k; [done|].
  cbn [length seq zip zip_with fold_left]. rewrite IH. destruct (decide _); [apply length_alter|done].
Qed.

Definition index_nodes (g : RoutingGraph) (pools : list nat) (nodes : list nat) (pos : list (list (nat * nat))) :=
  fold_left (λ pos i, match rg_adjacency g !! i with
                      | Some adj => index_node pools pos i adj | None => pos end) nodes pos.

Lemma index_nodes_at g pools nodes pos p :
  (∀ q, q ∈ pools → (q < length pos)%nat) →
  pos_at (index_nodes g pools nodes pos) p =
  pos_at pos p ++ (if decide (p ∈ pools) then nodes ≫= (λ i, node_places i 0 (adj_at g i) p) else []).
Proof.
  revert pos. induction nodes as [|i nodes IH]; intros pos Hlt; cbn [index_nodes fold_left].
  { destruct (decide _); by rewrite app_nil_r. }
  fold (index_nodes g pools nodes (match rg_adjacency g !! i with
                      | Some adj => index_node pools pos i adj | None => pos end)).
  destruct (rg_adjacency g !! i) as [adj|] eqn:Hi.
  - rewrite IH by (by rewrite length_index_node). rewrite index_node_at by done.
    destruct (decide _); [|by rewrite !app_nil_r]. rewrite bind_cons, <- app_assoc.
    assert (adj_at g i = adj) as -> by (unfold adj_at; by rewrite Hi). done.
  - rewrite IH by done. destruct (decide _); [|done]. rewrite bind_cons.
    assert (adj_at g i = []) as -> by (unfold adj_at; by rewrite Hi). done.
Qed.

Lemma sorted_last_max l x d : StronglySorted Nat.le l → x ∈ l → (x ≤ default d (last l))%nat.
Proof.
  intros Hs. revert x. induction Hs as [|a l Hs IH Hf]; intros x Hx; [by apply not_elem_of_nil in Hx|].
  destruct l as [|b l]; [apply list_elem_of_singleton in Hx as ->; done|].
  change (last (a :: b :: l)) with (last (b :: l)). apply elem_of_cons in Hx as [->|Hx]; [|by apply IH].
  rewrite Forall_forall in Hf. transitivity b; [apply Hf; by left|]. apply IH. by left.
Qed.

Lemma vec_dedup_sorted l : StronglySorted Nat.le l → StronglySorted Nat.le (vec_dedup l).
Proof.
  induction l as [|a [|b l] IH]; intros Hs; [constructor|repeat constructor|].
  apply StronglySorted_inv in Hs as [Hs Hf]. rewrite vec_dedup_cons2.
  destruct (Nat.eqb_spec a b) as [->|Hne]; [by apply IH|]. apply SSorted_cons; [apply IH, Hs|].
  apply Forall_forall. intros x Hx. rewrite vec_dedup_elem in Hx. rewrite Forall_forall in Hf. by apply Hf.
Qed.

Lemma sort_dedup_sorted l : StronglySorted Nat.le (sort_dedup l).
Proof. apply vec_dedup_sorted, StronglySorted_merge_sort; apply _. Qed.

(** The entries of a pool name every node it has edges at. *)
Definition covered (adj : list (list GraphEdge)) (pos : list (list (nat * nat))) (p : nat) : Prop :=
  ∀ at_ ge, place adj at_ = Some ge → ge_pool ge = p → at_.1 ∈ (pos_at pos p).*1.

(** A rebuild makes the index exact for the pools named, if their old entries covered the
    nodes they have edges at, and leaves the others alone. *)
Lemma rebuild_at g pools p :
  let pos' := rg_pool_edge_positions (rebuild_pool_edge_positions_for_pools g pools) in
  (p ∈ pools → covered (rg_adjacency g) (rg_pool_edge_positions g) p → exact (rg_adjacency g) pos' p) ∧
  (p ∉ pools → pos_at pos' p = pos_at (rg_pool_edge_positions g) p).
Proof.
  unfold rebuild_pool_edge_positions_for_pools.
  destruct (decide (pools = [])) as [->|Hne]; [split; [by intros ?%not_elem_of_nil|done]|].
  set (ps := sort_dedup pools). set (pos := rg_pool_edge_positions g) in *.
  set (max_pool := Nat.max (length pos) _). set (pos1 := if (length pos <? max_pool)%nat then _ else pos).
  assert (∀ q, pos_at pos1 q = pos_at pos q) as Hpos1.
  { intros q. unfold pos1. destruct (Nat.ltb_spec (length pos) max_pool); [|done]. apply resize_default. lia. }
  assert (∀ q, q ∈ ps → (q < length pos1)%nat) as Hlt.
  { intros q Hq. assert (q < max_pool)%nat.
    { pose proof (sorted_last_max ps q 0%nat (sort_dedup_sorted pools) Hq) as Hl. unfold max_pool.
      destruct (last ps) eqn:El; cbn in Hl; [lia|]. apply last_None in El. rewrite El in Hq.
      by apply not_elem_of_nil in Hq. }
    unfold pos1. destruct (Nat.ltb_spec (length pos) max_pool); rewrite ?length_resize; lia. }
  cbn [set_positions rg_pool_edge_positions rg_adjacency].
  set (scan := sort_dedup (ps ≫= _)).
  change (fold_left _ scan _) with (index_nodes g ps scan (fold_left clear_pool ps pos1)).
  unfold exact. rewrite index_nodes_at by (by rewrite length_clear_pools). rewrite clear_pools_at.
  assert (p ∈ ps ↔ p ∈ pools) as Hiff by apply sort_dedup_elem. split.
  2: { intros Hp'. rewrite !decide_False by (by rewrite Hiff). by rewrite app_nil_r, Hpos1. }
  intros Hp' Hcov. rewrite !decide_True, app_nil_l by (by apply Hiff).
  assert (∀ at_, at_ ∈ scan ≫= (λ i, node_places i 0 (adj_at g i) p) ↔
    at_.1 ∈ scan ∧ ∃ ge, place (rg_adjacency g) at_ = Some ge ∧ ge_pool ge = p) as Helem.
  { intros at_. rewrite list_elem_of_bind. setoid_rewrite node_places_elem. unfold place, adj_at. split.
    - intros (i & (<- & _ & ge & Hg & Hgp) & Hi). split; [done|]. exists ge. rewrite Nat.sub_0_r in Hg.
      by destruct (rg_adjacency g !! at_.1).
    - intros (Hi & ge & Hg & Hgp). exists at_.1. split_and!; [done|lia| |done]. exists ge. rewrite Nat.sub_0_r.
      by destruct (rg_adjacency g !! at_.1). }
  split.
  - clear Helem. assert (NoDup scan) as Hnd by apply sort_dedup_NoDup. induction Hnd as [|i l Hi Hnd IH]; [constructor|].
    rewrite bind_cons. apply NoDup_app. split_and!; [apply node_places_NoDup| |done].
    intros at_ (Hat & _)%node_places_elem Hin. apply list_elem_of_bind in Hin as (j & Hj & Hjl).
    apply node_places_elem in Hj as (Hat' & _). congruence.
  - intros at_. rewrite Helem. split; [by intros [_ ?]|]. intros (ge & Hg & Hgp). split; [|by exists ge].
    apply sort_dedup_elem, list_elem_of_bind. exists p. split; [|by apply Hiff]. rewrite Hpos1.
    by apply (Hcov at_ ge).
Qed.

Lemma exact_covered adj pos p : exact adj pos p → covered adj pos p.
Proof. intros [_ Hat] at_ ge Hge Hp. apply list_elem_of_fmap. exists at_. split; [done|]. apply Hat. by exists ge. Qed.

Lemma exact_ext adj pos pos' p : pos_at pos' p = pos_at pos p → exact adj pos p → exact adj pos' p.
Proof. unfold exact. by intros ->. Qed.

Lemma covered_ext adj pos pos' p : pos_at pos' p = pos_at pos p → covered adj pos p → covered adj pos' p.
Proof. unfold covered. by intros ->. Qed.


(** A pool outside the list keeps its entries. *)
Lemma rebuild_adjacency g pools : rg_adjacency (rebuild_pool_edge_positions_for_pools g pools) = rg_adjacency g.
Proof. unfold rebuild_pool_edge_positions_for_pools. by destruct (decide _). Qed.

(** ** Edges that keep their place in the graph *)

(** [ge'] is [ge] up to its price, family, fee and direction. *)
Record repriced (ge ge' : GraphEdge) : Prop := {
  rp_pool : pool_index (ge_edge ge') = pool_index (ge_edge ge);
  rp_in : token_in (ge_edge ge') = token_in (ge_edge ge);
  rp_out : token_out (ge_edge ge') = token_out (ge_edge ge);
  rp_phase : ge_phase ge' = ge_phase ge;
  rp_target : ge_target_node ge' = ge_target_node ge;
}.

#[export] Instance repriced_preorder : PreOrder repriced.
Proof. split; [by intros ge; split|intros a b c [] []; split; congruence]. Qed.

Lemma repriced_ge_pool ge ge' : repriced ge ge' → ge_pool ge' = ge_pool ge.
Proof. intros []. unfold ge_pool. congruence. Qed.

Lemma repriced_placed tc hubs i ge ge' : repriced ge ge' → edge_placed tc hubs i ge → edge_placed tc hubs i ge'.
Proof. intros [Hp Hi Ho Hph Ht]. unfold edge_placed. by rewrite Hp, Hph, Hi, Ho, Ht. Qed.

(** Every edge of [l'] is an edge of [l], repriced. *)
Definition subnode (l l' : list GraphEdge) : Prop := ∀ ge', ge' ∈ l' → ∃ ge, ge ∈ l ∧ repriced ge ge'.

#[export] Instance subnode_preorder : PreOrder subnode.
Proof.
  split.
  - intros l ge Hge. by exists ge.
  - intros a b c Hab Hbc ge Hge. destruct (Hbc _ Hge) as (x & Hx & ?). destruct (Hab _ Hx) as (y & ? & ?).
    exists y. split; [done|]. by transitivity x.
Qed.

Lemma subnode_perm l l' : l' ≡ₚ l → subnode l l'.
Proof. intros Hp ge Hge. exists ge. by rewrite <- Hp. Qed.

Definition same_nodes (adj adj' : list (list GraphEdge)) (changed : nat → Prop) : Prop :=
  length adj' = length adj ∧
  ∀ i, adj' !! i = adj !! i ∨
       changed i ∧ ∃ l l', adj !! i = Some l ∧ adj' !! i = Some l' ∧ subnode l l'.

Lemma place_elem adj i l ge : adj !! i = Some l → ge ∈ l ↔ ∃ j, place adj (i, j) = Some ge.
Proof. intros Hi. unfold place. cbn. rewrite Hi. apply list_elem_of_lookup. Qed.

Lemma place_node adj at_ ge : place adj at_ = Some ge → ∃ l, adj !! at_.1 = Some l ∧ ge ∈ l.
Proof.
  unfold place. destruct (adj !! at_.1) as [l|]; [|done]. intros Hj. exists l. split; [done|].
  by eapply list_elem_of_lookup_2.
Qed.

Lemma same_nodes_placed adj adj' changed tc hubs :
  same_nodes adj adj' changed → all_placed tc hubs adj → all_placed tc hubs adj'.
Proof.
  intros [_ Hs] Hp [i j] ge Hge. destruct (Hs i) as [Heq|(_ & l & l' & Hl & Hl' & Hsub)].
  - apply (Hp (i, j)). unfold place in *. cbn in *. by rewrite <- Heq.
  - apply place_node in Hge as (l2 & Hl2 & Hin). cbn in *. simplify_eq.
    destruct (Hsub _ Hin) as (ge0 & Hin0 & Hr). eapply repriced_placed; [done|].
    destruct (proj1 (place_elem _ i l ge0 Hl) Hin0) as [j0 Hj0]. exact (Hp _ _ Hj0).
Qed.

Lemma same_nodes_covered adj adj' changed pos p :
  same_nodes adj adj' changed → covered adj pos p → covered adj' pos p.
Proof.
  intros [_ Hs] Hcov [i j] ge Hge Hp. destruct (Hs i) as [Heq|(_ & l & l' & Hl & Hl' & Hsub)].
  - apply (Hcov (i, j) ge); [|done]. unfold place in *. cbn in *. by rewrite <- Heq.
  - apply place_node in Hge as (l2 & Hl2 & Hin). cbn in Hl2. assert (l2 = l') as -> by congruence.
    destruct (Hsub _ Hin) as (ge0 & Hin0 & Hrp). destruct (proj1 (place_elem _ i l ge0 Hl) Hin0) as [j0 Hj0].
    apply (Hcov (i, j0) ge0); [done|]. by rewrite <- (repriced_ge_pool _ _ Hrp).
Qed.

(** A pool without edges at the changed nodes keeps its entries exact. *)
Lemma same_nodes_exact adj adj' changed pos p :
  same_nodes adj adj' changed →
  (∀ i l ge, changed i → adj !! i = Some l → ge ∈ l → ge_pool ge ≠ p) →
  exact adj pos p → exact adj' pos p.
Proof.
  intros [_ Hs] Hq [Hnd Hat]. split; [done|]. intros [i j]. etrans; [apply Hat|].
  destruct (Hs i) as [Heq|(Hci & l & l' & Hl & Hl' & Hsub)].
  - unfold place. cbn. by rewrite Heq.
  - split; intros (ge & Hge & Hgp); exfalso.
    + apply place_node in Hge as (l2 & Hl2 & Hin). by eapply Hq.
    + apply place_node in Hge as (l2 & Hl2 & Hin). cbn in Hl2. assert (l2 = l') as -> by congruence.
      destruct (Hsub _ Hin) as (ge0 & Hin0 & Hrp). apply repriced_ge_pool in Hrp.
      eapply (Hq i l ge0); [done..|]. congruence.
Qed.

(** After nodes changed, rebuilding the pools that had edges there restores the index. *)
Lemma reindex_exact g adj' pools (changed : nat → Prop) :
  (∀ p, exact (rg_adjacency g) (rg_pool_edge_positions g) p) →
  same_nodes (rg_adjacency g) adj' changed →
  (∀ i l ge, changed i → rg_adjacency g !! i = Some l → ge ∈ l → ge_pool ge ∈ pools) →
  ∀ p, exact adj' (rg_pool_edge_positions (rebuild_pool_edge_positions_for_pools (set_adjacency g adj') pools)) p.
Proof.
  intros Hex Hs Hch p. destruct (rebuild_at (set_adjacency g adj') pools p) as [Hin Hout].
  destruct (decide (p ∈ pools)) as [Hp|Hp].
  - apply Hin; [done|]. by eapply same_nodes_covered, exact_covered.
  - eapply exact_ext; [by apply Hout|]. eapply same_nodes_exact; [done| |apply Hex].
    intros i l ge Hc Hl Hge <-. by eapply Hp, Hch.
Qed.

Lemma same_nodes_pure tc adj adj' changed : same_nodes adj adj' changed → hubs_pure tc adj → hubs_pure tc adj'.
Proof.
  intros [_ Hs] Hpure a b b' x x' Ha Hx Hx'. destruct (Hs a) as [Heq|(_ & l & l' & Hl & Hl' & Hsub)].
  - unfold place in *. cbn in *. rewrite Heq in *. by eapply (Hpure a b b').
  - apply place_node in Hx as (l1 & H1 & Hx), Hx' as (l2 & H2 & Hx'). cbn in *. simplify_eq.
    destruct (Hsub _ Hx) as (y & Hy & Ry), (Hsub _ Hx') as (y' & Hy' & Ry').
    rewrite (repriced_ge_pool _ _ Ry), (repriced_ge_pool _ _ Ry').
    destruct (proj1 (place_elem _ a l y Hl) Hy) as [j Hj], (proj1 (place_elem _ a l y' Hl) Hy') as [j' Hj'].
    by eapply (Hpure a j j').
Qed.

(** In-place repricing does not concern the index. *)
Lemma reprice_exact adj adj' pos p :
  (∀ at_, ge_pool <$> place adj' at_ = ge_pool <$> place adj at_) → exact adj pos p → exact adj' pos p.
Proof.
  intros Hs [Hnd Hat]. split; [done|]. intros at_. rewrite Hat. specialize (Hs at_).
  destruct (place adj' at_) as [ge'|], (place adj at_) as [ge|]; try done; naive_solver.
Qed.

(** ** Sorting, thinning and pricing keep the places *)

Lemma sort_adjacency_perm adj : sort_adjacency_edges adj ≡ₚ adj.
Proof. apply sort_by_perm. Qed.

Lemma dead_stub_repriced ge : repriced ge (dead_stub ge).
Proof. by split. Qed.

(** Equal up to the price. *)
Definition unpriced (ge : GraphEdge) : Edge * GraphHopPhase * Z := (ge_edge ge, ge_phase ge, ge_target_node ge).

Lemma unpriced_repriced ge ge' : unpriced ge' = unpriced ge → repriced ge ge'.
Proof. unfold unpriced. intros [= He Hp Ht]. split; congruence. Qed.

Lemma thin_loop_perm k key n live :
  unpriced <$> ((thin_loop k key n live).1 ++ (thin_loop k key n live).2) ≡ₚ unpriced <$> live.
Proof.
  revert key n. induction live as [|ge live IH]; intros key n; [done|]. cbn [thin_loop].
  destruct (_ <? k)%nat.
  - specialize (IH (parallel_key ge) (S (if decide (parallel_key ge = key) then n else 0%nat))).
    destruct (thin_loop _ _ _ live) as [r s]. cbn in *. by rewrite IH.
  - specialize (IH (parallel_key ge) (if decide (parallel_key ge = key) then n else 0%nat)).
    destruct (thin_loop _ _ _ live) as [r s]. cbn in *. rewrite <- IH, !fmap_app. cbn.
    by rewrite Permutation_middle.
Qed.

Lemma filter_split {A} (f : A → bool) (l : list A) :
  filter (λ x, f x = true) l ++ filter (λ x, f x = false) l ≡ₚ l.
Proof.
  induction l as [|x l IH]; [done|]. destruct (f x) eqn:E.
  - rewrite filter_cons_True, filter_cons_False by congruence. cbn [app]. by rewrite IH.
  - rewrite filter_cons_False, filter_cons_True by congruence. by rewrite <- Permutation_middle, IH.
Qed.

(** Thinning only prices edges down: nothing is removed, so it never reports a removal. *)
Lemma thin_unpriced adj k : unpriced <$> (thin_parallel_edges_in_place adj k).1 ≡ₚ unpriced <$> adj.
Proof.
  unfold thin_parallel_edges_in_place. cbn [fst].
  set (direct := filter (λ ge, is_direct ge = true) adj). set (hub := filter (λ ge, is_direct ge = false) adj).
  set (live := filter _ direct). set (stubs := filter (λ ge, is_live_graph_edge ge = false) direct).
  assert (unpriced <$> (live ++ stubs ++ hub) ≡ₚ unpriced <$> adj) as Hall.
  { apply fmap_Permutation. rewrite app_assoc. unfold live, stubs. rewrite (filter_split is_live_graph_edge).
    apply filter_split. }
  destruct (k =? 0)%nat; [done|]. destruct (_ <=? k)%nat; [done|].
  pose proof (thin_loop_perm k (2 ^ 32 - 1, 255) 0 (sort_by compare_parallel live)) as Ht.
  destruct (thin_loop _ _ _ _) as [r s]. cbn [fst snd] in Ht.
  rewrite <- Hall, !fmap_app, <- (fmap_Permutation unpriced _ _ (sort_by_perm compare_parallel live)), <- Ht, fmap_app.
  rewrite !app_assoc. apply Permutation_app_tail. rewrite <- !app_assoc. apply Permutation_app_head.
  apply Permutation_app_comm.
Qed.

Lemma thin_never_removes adj k : (thin_parallel_edges_in_place adj k).2 = false.
Proof.
  pose proof (Permutation_length (thin_unpriced adj k)) as Hl. rewrite !length_fmap in Hl.
  unfold thin_parallel_edges_in_place in *. cbn [fst snd] in *. rewrite Hl.
  apply negb_false_iff, Nat.eqb_refl.
Qed.

Lemma unpriced_subnode l l' : unpriced <$> l' ≡ₚ unpriced <$> l → subnode l l'.
Proof.
  intros Hp ge' Hge'. assert (unpriced ge' ∈ unpriced <$> l) as Hin by (rewrite <- Hp; by apply list_elem_of_fmap_2).
  apply list_elem_of_fmap in Hin as (ge & Hu & Hin). exists ge. split; [done|]. by apply unpriced_repriced.
Qed.

Lemma compact_node_unpriced adj :
  unpriced <$> sort_adjacency_edges (thin_parallel_edges_in_place adj MAX_PARALLEL_EDGES_PER_PAIR).1
  ≡ₚ unpriced <$> adj.
Proof. rewrite (fmap_Permutation _ _ _ (sort_adjacency_perm _)). apply thin_unpriced. Qed.

Lemma healed_repriced ln_f64 arena ge ge' : rescore_graph_edge ln_f64 arena ge = Done ge' → repriced ge ge'.
Proof.
  unfold rescore_graph_edge, healed_graph_edge. destruct (ge_phase ge) eqn:Hph.
  2,3: intros H; apply Done_inj in H as <-; by split.
  destruct (pool_state _ _) as [state|]; [|intros H; apply Done_inj in H as <-; by split].
  assert (∀ e, pool_index (apply_cl_zero_for_one arena (sync_edge_fee_bps_from_state e state)) = pool_index e ∧
    token_in (apply_cl_zero_for_one arena (sync_edge_fee_bps_from_state e state)) = token_in e ∧
    token_out (apply_cl_zero_for_one arena (sync_edge_fee_bps_from_state e state)) = token_out e) as Hkeep.
  { intros e. assert (∀ e, pool_index (apply_cl_zero_for_one arena e) = pool_index e ∧
      token_in (apply_cl_zero_for_one arena e) = token_in e ∧
      token_out (apply_cl_zero_for_one arena e) = token_out e) as Hz.
    { intros e'. unfold apply_cl_zero_for_one. repeat case_match; done. }
    destruct (Hz (sync_edge_fee_bps_from_state e state)) as (-> & -> & ->).
    unfold sync_edge_fee_bps_from_state. repeat case_match; done. }
  destruct (protocol_matches_pool_state _ _).
  2: destruct (_ || _)%bool; [intros H; apply Done_inj in H as <-; by split|].
  all: assert (∀ e, pool_index (apply_cl_zero_for_one arena (sync_edge_fee_bps_from_state e state)) = pool_index e)
    as Hk1 by (intros; apply Hkeep).
  all: assert (∀ e, token_in (apply_cl_zero_for_one arena (sync_edge_fee_bps_from_state e state)) = token_in e)
    as Hk2 by (intros; apply Hkeep).
  all: assert (∀ e, token_out (apply_cl_zero_for_one arena (sync_edge_fee_bps_from_state e state)) = token_out e)
    as Hk3 by (intros; apply Hkeep).
  all: destruct (negb _); [intros H; apply Done_inj in H as <-; split; cbn; rewrite ?Hk1, ?Hk2, ?Hk3; done|].
  all: destruct (compute_edge_ratio _ _) as [r|]; [|done]; cbn [obind].
  all: destruct (is_zero r); intros H; apply Done_inj in H as <-; split; cbn; rewrite ?Hk1, ?Hk2, ?Hk3; done.
Qed.

(** ** The aggregates *)

Lemma zip_seq_cons {A} (x : A) l i : zip (seq i (length (x :: l))) (x :: l) = (i, x) :: zip (seq (S i) (length l)) l.
Proof. done. Qed.

Lemma node_live (F : nat * nat → bool) i p l : ∀ k,
  (∀ j ge, l !! j = Some ge → F (i, (k + j)%nat) = is_live_graph_edge ge) →
  length (filter (λ at_, F at_ = true) (node_places i k l p)) =
  length (filter (λ ge, ge_pool ge = p ∧ is_live_graph_edge ge = true) l).
Proof.
  induction l as [|ge l IH]; intros k HF; [done|]. unfold node_places. rewrite zip_seq_cons.
  specialize (IH (S k)). unfold node_places in IH.
  assert (F (i, k) = is_live_graph_edge ge) as HFk by (rewrite <- (HF 0%nat ge); [f_equal; f_equal; lia|done]).
  assert (∀ j ge, l !! j = Some ge → F (i, (S k + j)%nat) = is_live_graph_edge ge) as HF'.
  { intros j x Hj. rewrite <- (HF (S j) x Hj). f_equal; f_equal; lia. }
  rewrite (filter_cons _ (k, ge)). cbn [snd]. destruct (decide (ge_pool ge = p)) as [Hp|Hp].
  - cbn [fmap list_fmap]. destruct (is_live_graph_edge ge) eqn:El.
    + rewrite (filter_cons_True _ (i, k)) by (by rewrite HFk). rewrite (filter_cons_True _ ge) by done.
      cbn [length]. f_equal. by apply IH.
    + rewrite (filter_cons_False _ (i, k)) by (by rewrite HFk). rewrite filter_cons_False by (intros [_ ?]; congruence).
      by apply IH.
  - rewrite (filter_cons_False _ ge) by (by intros [? _]). by apply IH.
Qed.

Definition all_places (i : nat) (adj : list (list GraphEdge)) (p : nat) : list (nat * nat) :=
  zip (seq i (length adj)) adj ≫= (λ x, node_places x.1 0 x.2 p).

Lemma all_places_elem i adj p at_ :
  at_ ∈ all_places i adj p ↔
  (i ≤ at_.1)%nat ∧ ∃ ge, place adj ((at_.1 - i)%nat, at_.2) = Some ge ∧ ge_pool ge = p.
Proof.
  unfold all_places. rewrite list_elem_of_bind. split.
  - intros ([a l] & Hin & Hz). cbn in Hin. apply node_places_elem in Hin as (Ha & _ & ge & Hg & Hp).
    apply list_elem_of_lookup in Hz as [j Hj]. rewrite lookup_zip_Some in Hj. destruct Hj as [Hs Hl].
    apply lookup_seq in Hs as [-> _]. rewrite Nat.sub_0_r in Hg. split; [lia|]. exists ge. split; [|done].
    unfold place. cbn. rewrite Ha. replace (i + j - i)%nat with j by lia. by rewrite Hl.
  - intros (Hi & ge & Hg & Hp). unfold place in Hg. cbn in Hg. destruct (adj !! _) as [l|] eqn:El; [|done].
    exists (at_.1, l). cbn. split; [apply node_places_elem; split_and!; [done|lia|exists ge; by rewrite Nat.sub_0_r]|].
    apply list_elem_of_lookup. exists (at_.1 - i)%nat. rewrite lookup_zip_Some. split; [|done].
    apply lookup_seq. apply lookup_lt_Some in El. lia.
Qed.

Lemma all_places_NoDup i adj p : NoDup (all_places i adj p).
Proof.
  revert i. induction adj as [|l adj IH]; intros i; [constructor|]. unfold all_places.
  rewrite zip_seq_cons, bind_cons. apply NoDup_app. split_and!; [apply node_places_NoDup| |apply IH].
  intros at_ (Ha & _)%node_places_elem Hin. apply all_places_elem in Hin as [? _]. cbn in Ha. lia.
Qed.

Lemma all_places_live (F : nat * nat → bool) adj p : ∀ i,
  (∀ a b ge, place adj (a, b) = Some ge → F ((i + a)%nat, b) = is_live_graph_edge ge) →
  length (filter (λ at_, F at_ = true) (all_places i adj p)) = live_count adj p.
Proof.
  induction adj as [|l adj IH]; intros i HF; [done|]. unfold all_places, live_count.
  rewrite zip_seq_cons, bind_cons, filter_app, length_app. cbn [mjoin list_join]. rewrite filter_app, length_app.
  f_equal.
  - apply node_live. intros j ge Hj. cbn. rewrite <- (HF 0%nat j ge); [f_equal; f_equal; lia|done].
  - apply IH. intros a b ge Hg. rewrite <- (HF (S a) b ge Hg). f_equal; f_equal; lia.
Qed.

(** Counting through an exact index is counting the edges. *)
Lemma exact_live_count g p :
  exact (rg_adjacency g) (rg_pool_edge_positions g) p →
  live_edge_count_for_pool g p = live_count (rg_adjacency g) p.
Proof.
  intros [Hnd Hat].
  assert (live_edge_count_for_pool g p = length (filter (λ at_, live_at g at_ = true) (pos_at (rg_pool_edge_positions g) p)))
    as -> by (unfold live_edge_count_for_pool; by destruct (rg_pool_edge_positions g !! p)).
  rewrite <- (all_places_live (live_at g) (rg_adjacency g) p 0).
  - apply Permutation_length, filter_Permutation. apply NoDup_Permutation; [done|apply all_places_NoDup|].
    intros [a b]. rewrite Hat, all_places_elem. cbn. rewrite Nat.sub_0_r. split; [intros H; split; [lia|done]|by intros [_ ?]].
  - intros a b ge Hg. unfold live_at. rewrite edge_at_place. cbn. by rewrite Hg.
Qed.

Lemma live_count_cons l adj p : live_count (l :: adj) p =
  (length (filter (λ ge, ge_pool ge = p ∧ is_live_graph_edge ge = true) l) + live_count adj p)%nat.
Proof. unfold live_count. cbn [mjoin list_join]. by rewrite filter_app, length_app. Qed.

Lemma live_count_node adj p : live_count adj p = sum_list
  ((λ l, length (filter (λ ge, ge_pool ge = p ∧ is_live_graph_edge ge = true) l)) <$> adj).
Proof.
  induction adj as [|l adj IH]; [done|]. rewrite live_count_cons. by rewrite IH.
Qed.

(** A pool without edges at the changed nodes keeps its count. *)
Lemma live_count_unchanged adj adj' changed p :
  same_nodes adj adj' changed →
  (∀ i l ge, changed i → adj !! i = Some l → ge ∈ l → ge_pool ge ≠ p) →
  live_count adj' p = live_count adj p.
Proof.
  intros [Hlen Hs] Hp. rewrite !live_count_node. f_equal. apply list_eq. intros i. rewrite !list_lookup_fmap.
  destruct (Hs i) as [->|(Hc & l & l' & Hl & Hl' & Hsub)]; [done|]. rewrite Hl, Hl'. cbn. f_equal.
  rewrite !filter_none; [done| |].
  - intros ge Hge [Hpp _]. by eapply Hp.
  - intros ge Hge [Hpp _]. destruct (Hsub _ Hge) as (ge0 & Hin & Hr).
    apply repriced_ge_pool in Hr. eapply (Hp i l ge0); [done..|]. congruence.
Qed.

Definition sum_of (f : GraphNodeAggregate → nat) (aggs : list GraphNodeAggregate) : nat := sum_list (f <$> aggs).

Lemma fold_add_eq aggs idx :
  fold_left add_node_aggregate aggs idx =
  {| ai_live_direct_edges := ai_live_direct_edges idx + sum_of na_live_direct_edges aggs;
     ai_dead_direct_edges := ai_dead_direct_edges idx + sum_of na_dead_direct_edges aggs;
     ai_hub_leg_edges := ai_hub_leg_edges idx + sum_of na_hub_leg_edges aggs;
     ai_active_pools := ai_active_pools idx |}%nat.
Proof.
  revert idx. induction aggs as [|a aggs IH]; intros idx; cbn [fold_left].
  - unfold sum_of. cbn. rewrite !Nat.add_0_r. by destruct idx.
  - rewrite IH. unfold sum_of. cbn. f_equal; lia.
Qed.

Lemma sum_of_insert f aggs i old new :
  aggs !! i = Some old → sum_of f (<[i := new]> aggs) = (sum_of f aggs - f old + f new)%nat ∧ (f old ≤ sum_of f aggs)%nat.
Proof.
  revert i. induction aggs as [|a aggs IH]; intros [|i] Hi; try done.
  - injection Hi as ->. unfold sum_of. cbn. lia.
  - destruct (IH i Hi) as [He Hle].
    change (sum_of f (<[S i:=new]> (a :: aggs))) with (f a + sum_of f (<[i:=new]> aggs))%nat.
    change (sum_of f (a :: aggs)) with (f a + sum_of f aggs)%nat. lia.
Qed.

Definition view_sums (v : GraphBaseView) : Prop :=
  bv_aggregate_index v = set_active_pools (fold_left add_node_aggregate (bv_node_aggregates v) no_index)
    (length (filter (λ count, (0 < count)%nat) (bv_pool_live_edge_counts v))).

Lemma patch_node_sums g v i :
  length (bv_node_aggregates v) = length (rg_adjacency g) → view_sums v →
  view_sums (patch_node g v i) ∧
  bv_pool_live_edge_counts (patch_node g v i) = bv_pool_live_edge_counts v ∧
  bv_node_aggregates (patch_node g v i) =
    if (i <? length (rg_adjacency g))%nat then <[i := node_aggregate g i]> (bv_node_aggregates v)
    else bv_node_aggregates v.
Proof.
  intros Hlen Hs. unfold patch_node. destruct (Nat.leb_spec (length (rg_adjacency g)) i) as [Hi|Hi].
  { destruct (Nat.ltb_spec i (length (rg_adjacency g))); [lia|done]. }
  destruct (Nat.ltb_spec i (length (rg_adjacency g))); [|lia]. split_and!; [|done..].
  destruct (lookup_lt_is_Some_2 (bv_node_aggregates v) i) as [old Hold]; [by rewrite Hlen|].
  unfold view_sums in *. cbn [bv_aggregate_index bv_node_aggregates bv_pool_live_edge_counts]. rewrite Hs, Hold.
  rewrite !fold_add_eq. unfold set_active_pools, add_node_aggregate, subtract_node_aggregate. cbn.
  f_equal; match goal with |- context [sum_of ?f] =>
    destruct (sum_of_insert f _ i old (node_aggregate g i) Hold) as [-> ?]; lia end.
Qed.

Lemma filter_pos_insert counts p c old :
  counts !! p = Some old →
  length (filter (λ n, (0 < n)%nat) (<[p := c]> counts)) =
  (length (filter (λ n, (0 < n)%nat) counts) + (if (0 <? c)%nat then 1 else 0) - (if (0 <? old)%nat then 1 else 0))%nat ∧
  ((if (0 <? old)%nat then 1 else 0) ≤ length (filter (λ n, (0 < n)%nat) counts))%nat.
Proof.
  revert p. induction counts as [|n counts IH]; intros [|p] Hp; try done.
  - cbn in Hp. injection Hp as ->. cbn [insert list_insert]. rewrite !filter_cons.
    destruct (Nat.ltb_spec 0 c), (Nat.ltb_spec 0 old), (decide (0 < c)%nat), (decide (0 < old)%nat); cbn; lia.
  - cbn in Hp. destruct (IH p Hp) as [He Hle].
    change (<[S p := c]> (n :: counts)) with (n :: <[p := c]> counts). rewrite !(filter_cons _ n).
    destruct (decide (0 < n)%nat); cbn [length]; rewrite He; lia.
Qed.

Lemma filter_pos_grow counts p :
  length (filter (λ n, (0 < n)%nat) (grow p 0%nat counts)) = length (filter (λ n, (0 < n)%nat) counts).
Proof.
  unfold grow. destruct (length counts <=? p)%nat eqn:E; [|done]. apply Nat.leb_le in E.
  rewrite resize_ge by lia. rewrite filter_app, (filter_none _ (replicate _ _)).
  - by rewrite app_nil_r.
  - intros x [-> _]%elem_of_replicate. lia.
Qed.

Lemma patch_pool_sums g v p :
  view_sums v →
  view_sums (patch_pool g v p) ∧ bv_node_aggregates (patch_pool g v p) = bv_node_aggregates v ∧
  ∀ q, default 0%nat (bv_pool_live_edge_counts (patch_pool g v p) !! q) =
    if decide (q = p) then live_edge_count_for_pool g p else default 0%nat (bv_pool_live_edge_counts v !! q).
Proof.
  intros Hs. unfold patch_pool. set (counts := grow p 0%nat (bv_pool_live_edge_counts v)).
  assert (p < length counts)%nat as Hlt by (unfold counts; rewrite length_grow; lia).
  destruct (lookup_lt_is_Some_2 counts p Hlt) as [old Hold]. rewrite Hold.
  change (default 0%nat (Some old)) with old. set (c := live_edge_count_for_pool g p). split_and!; [|done|].
  - unfold view_sums in *. cbn [bv_aggregate_index bv_node_aggregates bv_pool_live_edge_counts].
    destruct (filter_pos_insert counts p c old Hold) as [-> Hle]. unfold counts. rewrite filter_pos_grow.
    unfold counts in Hle. rewrite filter_pos_grow in Hle. rewrite Hs.
    unfold set_active_pools. cbn [ai_active_pools ai_live_direct_edges ai_dead_direct_edges ai_hub_leg_edges]. f_equal.
    destruct (Nat.eqb_spec old 0), (Nat.ltb_spec 0 c), (Nat.ltb_spec 0 old), (Nat.eqb_spec c 0); cbn [andb] in *; lia.
  - intros q. cbn. destruct (decide (q = p)) as [->|Hne].
    + by rewrite list_lookup_insert_eq.
    + rewrite list_lookup_insert_ne by done. apply grow_default.
Qed.

Lemma count_live_at counts ge p :
  default 0%nat (count_live counts ge !! p) =
  (default 0%nat (counts !! p) + (if decide (ge_pool ge = p ∧ is_live_graph_edge ge = true) then 1 else 0))%nat.
Proof.
  unfold count_live. destruct (is_live_graph_edge ge) eqn:El.
  - rewrite alter_default by (rewrite length_grow; lia). rewrite grow_default.
    destruct (decide (ge_pool ge = p)) as [Hp|Hp].
    + rewrite decide_True by done. lia.
    + rewrite decide_False by (by intros [? _]). lia.
  - rewrite decide_False by (intros [_ ?]; congruence). lia.
Qed.

Lemma fold_count_live_at l counts p :
  default 0%nat (fold_left count_live l counts !! p) =
  (default 0%nat (counts !! p) + length (filter (λ ge, ge_pool ge = p ∧ is_live_graph_edge ge = true) l))%nat.
Proof.
  revert counts. induction l as [|ge l IH]; intros counts; cbn [fold_left]; [cbn [filter list_filter length]; lia|].
  rewrite IH, count_live_at, (filter_cons _ ge). destruct (decide _); cbn [length]; lia.
Qed.

Lemma view_build_counts adj : ∀ counts p,
  default 0%nat (fold_left (λ c l, fold_left count_live l c) adj counts !! p) =
  (default 0%nat (counts !! p) + live_count adj p)%nat.
Proof.
  induction adj as [|l adj IH]; intros counts p; cbn [fold_left]; [change (live_count [] p) with 0%nat; lia|].
  rewrite IH, fold_count_live_at, live_count_cons. lia.
Qed.

Lemma view_build_ok g : view_ok g (view_build g).
Proof.
  split; [done| |done]. intros p. unfold view_build. cbn [bv_pool_live_edge_counts].
  rewrite view_build_counts. by rewrite lookup_nil.
Qed.

Lemma view_ok_sums g v : view_ok g v → view_sums v.
Proof. intros []. done. Qed.

(** Patching a correct view at everything that changed gives a correct view. *)
Lemma view_patch_ok g v nodes pools :
  view_sums v → length (bv_node_aggregates v) = length (rg_adjacency g) →
  (∀ i, (i < length (rg_adjacency g))%nat → i ∉ nodes → bv_node_aggregates v !! i = Some (node_aggregate g i)) →
  (∀ p, p ∉ pools → default 0%nat (bv_pool_live_edge_counts v !! p) = live_count (rg_adjacency g) p) →
  (∀ p, exact (rg_adjacency g) (rg_pool_edge_positions g) p) →
  view_ok g (view_patch v g nodes pools).
Proof.
  intros Hs Hlen Hnodes Hpools Hex. unfold view_patch. rewrite resize_all_alt by lia.
  set (v0 := {| bv_node_aggregates := bv_node_aggregates v; bv_pool_live_edge_counts := bv_pool_live_edge_counts v;
    bv_aggregate_index := bv_aggregate_index v |}).
  assert (∀ l w, view_sums w → length (bv_node_aggregates w) = length (rg_adjacency g) →
    let w' := fold_left (patch_node g) l w in
    view_sums w' ∧ bv_pool_live_edge_counts w' = bv_pool_live_edge_counts w ∧
    length (bv_node_aggregates w') = length (rg_adjacency g) ∧
    ∀ i, (i < length (rg_adjacency g))%nat →
      bv_node_aggregates w' !! i = if decide (i ∈ l) then Some (node_aggregate g i) else bv_node_aggregates w !! i) as Hfold.
  { induction l as [|n l IH]; intros w Hw Hwl; cbn [fold_left].
    { split_and!; [done..|]. intros i _. by rewrite decide_False by apply not_elem_of_nil. }
    destruct (patch_node_sums g w n Hwl Hw) as (Hw1 & Hc1 & Ha1).
    assert (length (bv_node_aggregates (patch_node g w n)) = length (rg_adjacency g)) as Hl1
      by (rewrite Ha1; destruct (_ <? _)%nat; by rewrite ?length_insert).
    destruct (IH _ Hw1 Hl1) as (H1 & H2 & H3 & H4). split_and!; [done|congruence|done|].
    intros i Hi. rewrite H4 by done. destruct (decide (i ∈ l)) as [|Hni].
    { rewrite decide_True by (by right). done. }
    rewrite Ha1. destruct (decide (i = n)) as [->|Hne].
    - rewrite decide_True by (by left). destruct (Nat.ltb_spec n (length (rg_adjacency g))); [|lia].
      apply list_lookup_insert_eq. lia.
    - rewrite decide_False by (rewrite elem_of_cons; naive_solver). destruct (_ <? _)%nat; [|done].
      by rewrite list_lookup_insert_ne. }
  assert (∀ l w, view_sums w → let w' := fold_left (patch_pool g) l w in
    view_sums w' ∧ bv_node_aggregates w' = bv_node_aggregates w ∧
    ∀ p, default 0%nat (bv_pool_live_edge_counts w' !! p) =
      if decide (p ∈ l) then live_edge_count_for_pool g p else default 0%nat (bv_pool_live_edge_counts w !! p)) as Hpfold.
  { induction l as [|n l IH]; intros w Hw; cbn [fold_left].
    { split_and!; [done..|]. intros p. by rewrite decide_False by apply not_elem_of_nil. }
    destruct (patch_pool_sums g w n Hw) as (Hw1 & Ha1 & Hc1). destruct (IH _ Hw1) as (H1 & H2 & H3).
    split_and!; [done|congruence|]. intros p. rewrite H3. destruct (decide (p ∈ l)).
    { rewrite decide_True by (by right). done. }
    rewrite Hc1. destruct (decide (p = n)) as [->|].
    - rewrite decide_True by (by left). done.
    - rewrite decide_False; [done|]. rewrite elem_of_cons. naive_solver. }
  destruct (Hfold (sort_dedup nodes) v0 Hs Hlen) as (A1 & A2 & A3 & A4).
  destruct (Hpfold (sort_dedup pools) _ A1) as (B1 & B2 & B3). split; [| |exact B1].
  - apply list_eq. intros i. rewrite B2, list_lookup_fmap.
    destruct (decide (i < length (rg_adjacency g))%nat) as [Hi|Hi].
    + rewrite A4 by done. rewrite lookup_seq_lt by done. cbn.
      destruct (decide (i ∈ sort_dedup nodes)) as [|Hni]; [done|]. apply Hnodes; [done|].
      intros Hin. apply Hni. by apply sort_dedup_elem.
    + rewrite !lookup_ge_None_2; [done|rewrite length_seq; lia|lia].
  - intros p. rewrite B3. destruct (decide (p ∈ sort_dedup pools)) as [|Hnp].
    + apply exact_live_count, Hex.
    + rewrite A2. apply Hpools. intros Hin. apply Hnp. by apply sort_dedup_elem.
Qed.

(** The count of active pools is the number of pools with a live edge. *)
Lemma live_pools_elem adj : ∀ (S : gset nat) p,
  p ∈ fold_left (λ live adj,
      fold_left (λ live ge, if is_live_graph_edge ge then {[ ge_pool ge ]} ∪ live else live) adj live)
    adj S ↔ p ∈ S ∨ (0 < live_count adj p)%nat.
Proof.
  assert (∀ l (S : gset nat) p,
    p ∈ fold_left (λ live ge, if is_live_graph_edge ge then {[ ge_pool ge ]} ∪ live else live) l S ↔
    p ∈ S ∨ (0 < length (filter (λ ge, ge_pool ge = p ∧ is_live_graph_edge ge = true) l))%nat) as Hl.
  { induction l as [|ge l IH]; intros S p; cbn [fold_left]; [cbn; naive_solver lia|].
    rewrite IH, (filter_cons _ ge). destruct (is_live_graph_edge ge) eqn:El.
    - rewrite elem_of_union, elem_of_singleton. destruct (decide (ge_pool ge = p ∧ true = true)) as [[<- _]|Hn].
      + cbn [length]. split; [intros _; right; lia|]. intros _. left. by left.
      + split; [intros [[->|?]|?]; [by destruct Hn|by left|by right]|intros [?|?]; [left; by right|by right]].
    - rewrite decide_False; [done|]. by intros [_ ?]. }
  induction adj as [|l adj IH]; intros S p; cbn [fold_left]; [change (live_count [] p) with 0%nat; naive_solver lia|].
  rewrite IH, Hl, live_count_cons.
  split; [intros [[?|?]|?]; [by left|right; lia..]|intros [?|?]; [by left; left|]].
  destruct (decide (0 < live_count adj p)%nat); [by right|left; right; lia].
Qed.

(** ** Construction *)

Lemma graph_new_ok tc : 0 ≤ tc → graph_ok (graph_new tc).
Proof.
  intros Htc. split; [|done].
  assert (∀ at_, place (rg_adjacency (graph_new tc)) at_ = None) as Hnone.
  { intros [i j]. unfold place. cbn. destruct (replicate _ _ !! i) as [l|] eqn:El; [|done].
    by apply lookup_replicate in El as [-> _]. }
  split; cbn; [done| |done| | |].
  - rewrite length_replicate. unfold hub_count. cbn. lia.
  - intros at_ ge Hge. cbn in *. by rewrite Hnone in Hge.
  - intros a b b' ge ge' _ Hge. cbn in *. by rewrite Hnone in Hge.
  - intros p. split; [constructor|]. intros at_. split; [by intros ?%not_elem_of_nil|].
    intros (ge & Hge & _). cbn in Hnone. by rewrite Hnone in Hge.
Qed.

Lemma place_push adj i ge at_ :
  (i < length adj)%nat →
  place (alter (λ l, l ++ [ge]) i adj) at_ =
  if decide (at_ = (i, length (default [] (adj !! i)))) then Some ge else place adj at_.
Proof.
  intros Hi. destruct at_ as [a b]. unfold place. cbn [fst snd]. rewrite list_lookup_alter.
  destruct (lookup_lt_is_Some_2 adj i Hi) as [l Hl]. rewrite Hl. cbn [default]. change (id l) with l.
  destruct (decide (i = a)) as [->|Hne].
  - rewrite Hl. cbn [fmap option_fmap option_map]. destruct (decide _) as [[= ->]|Hb].
    + rewrite lookup_app_r by lia. by rewrite Nat.sub_diag.
    + destruct (decide (b < length l)%nat); [by rewrite lookup_app_l|].
      rewrite !lookup_ge_None_2; [done|lia|]. rewrite length_app. cbn. assert (b ≠ length l) by congruence. lia.
  - rewrite decide_False by congruence. done.
Qed.

Lemma grow_id {A} i (d : A) l : (i < length l)%nat → grow i d l = l.
Proof. intros. unfold grow. destruct (Nat.leb_spec (length l) i); [lia|done]. Qed.

Lemma exact_push adj pos i ge :
  (i < length adj)%nat → (∀ p, exact adj pos p) →
  ∀ p, exact (alter (λ l, l ++ [ge]) i adj)
         (alter (λ ps, ps ++ [(i, length (default [] (adj !! i)))]) (ge_pool ge) (grow (ge_pool ge) [] pos)) p.
Proof.
  intros Hi Hex p. destruct (Hex p) as [Hnd Hat]. unfold exact.
  rewrite alter_default by (rewrite length_grow; lia). rewrite grow_default.
  set (at0 := (i, length (default [] (adj !! i)))).
  assert (place adj at0 = None) as Hfresh.
  { unfold place, at0. cbn. destruct (adj !! i); [|done]. by apply lookup_ge_None. }
  assert (at0 ∉ default [] (pos !! p)) as Hnin.
  { rewrite Hat. intros (x & Hx & _). congruence. }
  destruct (decide (ge_pool ge = p)) as [Hp|Hp].
  - split; [apply NoDup_app; split_and!; [done|set_solver|apply NoDup_singleton]|].
    intros at_. rewrite elem_of_app, list_elem_of_singleton, place_push by done. fold at0.
    destruct (decide (at_ = at0)) as [->|Hne]; [|rewrite Hat; naive_solver].
    split; [|by right]. intros _. by exists ge.
  - split; [done|]. intros at_. rewrite place_push by done. fold at0.
    destruct (decide (at_ = at0)) as [->|Hne]; [|apply Hat].
    split; [done|]. intros (x & [= <-] & Hx). done.
Qed.

(** The edge as [push_edge_at] stores it. *)
Definition stored (ge : GraphEdge) : GraphEdge :=
  if decide (ge_phase ge = Direct) then set_target ge (token_out (ge_edge ge)) else ge.

Lemma push_edge_ok g from ge :
  struct_ok g → 0 ≤ from < rg_token_count g + hub_count g →
  edge_placed (rg_token_count g) (hub_count g) (Z.to_nat from) (stored ge) →
  (rg_token_count g ≤ from → ∀ x, x ∈ adj_at g (Z.to_nat from) → ge_pool x = ge_pool ge) →
  graph_ok (push_edge_at g from ge).
Proof.
  intros [Htc Hlen Hv4 Hpl Hpure Hex] Hfrom Hplaced Hhub. unfold push_edge_at. fold (stored ge).
  assert (Z.to_nat from < length (rg_adjacency g))%nat as Hlt by lia. rewrite grow_id by done.
  assert (ge_pool (stored ge) = ge_pool ge) as Hsp by (unfold stored; by destruct (decide _)).
  assert (∀ b x, place (rg_adjacency g) (Z.to_nat from, b) = Some x → x ∈ adj_at g (Z.to_nat from)) as Hin.
  { intros b x Hx. apply place_node in Hx as (l & Hl & Hx). unfold adj_at. cbn in Hl. by rewrite Hl. }
  split; [|done]. split; cbn; [done| |done| | |].
  - rewrite length_alter. exact Hlen.
  - intros at_ x Hx. rewrite place_push in Hx by done. destruct (decide _) as [->|]; [|by apply Hpl].
    injection Hx as <-. exact Hplaced.
  - intros a b b' x x' Ha Hx Hx'. rewrite place_push in Hx, Hx' by done.
    destruct (decide ((a, b) = _)) as [[= E _]|], (decide ((a, b') = _)) as [[= E' _]|]; simplify_eq.
    + done.
    + rewrite Hsp. symmetry. apply Hhub; [lia|]. by eapply Hin.
    + rewrite Hsp. apply Hhub; [lia|]. by eapply Hin.
    + by eapply Hpure.
  - by apply exact_push.
Qed.

Lemma push_edge_frame g from ge :
  rg_token_count (push_edge_at g from ge) = rg_token_count g ∧
  hub_count (push_edge_at g from ge) = hub_count g.
Proof. done. Qed.

Lemma place_app_nil adj at_ : place (adj ++ [[]]) at_ = place adj at_.
Proof.
  destruct at_ as [a b]. unfold place. cbn. destruct (decide (a < length adj)%nat) as [Ha|Ha].
  - by rewrite lookup_app_l.
  - rewrite lookup_app_r, (lookup_ge_None_2 adj) by lia. by destruct (a - length adj)%nat.
Qed.

Lemma push_hub_ok g hub v4 :
  struct_ok g → (v4 = rg_v4_singleton_hub g ∨ v4 = Some (next_hub_node g)) → struct_ok (push_hub g hub v4).
Proof.
  intros [Htc Hlen Hv4 Hpl Hpure Hex] Hv. unfold hub_count in *. split; cbn; unfold hub_count; cbn; rewrite ?length_app; cbn.
  - done.
  - lia.
  - intros h Hh. destruct Hv as [->| ->]; [specialize (Hv4 _ Hh); lia|]. injection Hh as <-. unfold next_hub_node. lia.
  - intros at_ ge Hge. rewrite place_app_nil in Hge. specialize (Hpl _ _ Hge). unfold edge_placed in *.
    destruct Hpl as [? Hpl]. split; [done|]. destruct (ge_phase ge); [done| |done]. lia.
  - intros a b b' x x' Ha. rewrite !place_app_nil. by apply Hpure.
  - intros p. destruct (Hex p) as [? Hat]. split; [done|]. intros at_. rewrite place_app_nil. apply Hat.
Qed.

Lemma fold_push_enter_ok g hub pool proto fee (funded : list (Z * TokenIndex)) :
  struct_ok g → 0 ≤ pool → rg_token_count g ≤ hub < rg_token_count g + hub_count g →
  Forall (λ lt, 0 ≤ lt.2 < rg_token_count g) funded →
  let g' := fold_left (λ g '(leg, token), push_enter_edge g token hub pool leg proto fee) funded g in
  struct_ok g' ∧ rg_token_count g' = rg_token_count g ∧ hub_count g' = hub_count g ∧
  (funded ≠ [] → graph_ok g').
Proof.
  intros Hok Hpool Hhub. revert g Hok Hhub.
  induction funded as [|[leg token] funded IH]; intros g Hok Hhub Hf; cbn [fold_left]; [done|].
  apply Forall_cons in Hf as [Ht Hf]. cbn in Ht.
  assert (graph_ok (push_enter_edge g token hub pool leg proto fee)) as Hok1.
  { apply push_edge_ok; [done|unfold hub_count; lia| |lia].
    unfold stored. rewrite decide_False by done. unfold edge_placed. cbn. split_and!; lia. }
  destruct (IH _ (proj1 Hok1) Hhub Hf) as (H1 & H2 & H3 & H4). split_and!; [done..|]. intros _.
  destruct funded; [exact Hok1|by apply H4].
Qed.

(** The enter legs do not touch the hub's own list. *)
Lemma fold_push_enter_hub g hub pool proto fee (funded : list (Z * TokenIndex)) :
  struct_ok g → rg_token_count g ≤ hub < rg_token_count g + hub_count g →
  Forall (λ lt, 0 ≤ lt.2 < rg_token_count g) funded →
  adj_at (fold_left (λ g '(leg, token), push_enter_edge g token hub pool leg proto fee) funded g) (Z.to_nat hub)
  = adj_at g (Z.to_nat hub).
Proof.
  intros [Htc Hlen _ _ _ _] Hhub Hf.
  assert (∀ g', rg_token_count g' = rg_token_count g → length (rg_adjacency g') = length (rg_adjacency g) →
    adj_at (fold_left (λ g '(leg, token), push_enter_edge g token hub pool leg proto fee) funded g') (Z.to_nat hub)
    = adj_at g' (Z.to_nat hub)) as H; [|by apply H].
  induction Hf as [|[leg token] funded Ht Hf IH]; intros g' Htc' Hl'; cbn [fold_left]; [done|]. cbn in Ht.
  rewrite IH; [| |]; unfold push_enter_edge, push_edge_at, adj_at; cbn; rewrite ?grow_id by lia.
  - by rewrite list_lookup_alter_ne by lia.
  - done.
  - by rewrite length_alter.
Qed.

Lemma fold_push_exit_ok g hub pool proto fee (funded : list (Z * TokenIndex)) :
  graph_ok g → 0 ≤ pool → rg_token_count g ≤ hub < rg_token_count g + hub_count g →
  Forall (λ lt, 0 ≤ lt.2 < rg_token_count g) funded →
  (∀ x, x ∈ adj_at g (Z.to_nat hub) → ge_pool x = Z.to_nat pool) →
  graph_ok (fold_left (λ g '(leg, token), push_exit_edge g hub pool token leg proto fee) funded g).
Proof.
  intros Hok Hpool Hhub. revert g Hok Hhub.
  induction funded as [|[leg token] funded IH]; intros g Hok Hhub Hf Hx; cbn [fold_left]; [done|].
  apply Forall_cons in Hf as [Ht Hf]. cbn in Ht. destruct (proj1 Hok) as [Htc Hlen _ _ _ _].
  apply IH; [|done|done|].
  - apply push_edge_ok; [apply Hok|lia| |intros _; exact Hx].
    unfold stored. rewrite decide_False by done. unfold edge_placed. cbn. split_and!; lia.
  - intros x. unfold push_exit_edge, push_edge_at, adj_at. cbn. rewrite grow_id by lia.
    rewrite list_lookup_alter_eq. destruct (rg_adjacency g !! Z.to_nat hub) as [l|] eqn:El; cbn.
    2: by intros ?%not_elem_of_nil.
    intros [Hin| ->%list_elem_of_singleton]%elem_of_app; [|by rewrite decide_False by done].
    apply Hx. unfold adj_at. by rewrite El.
Qed.

(** The metas and the arena name tokens of the arena. *)
Definition tokens_below (tc : Z) (arena : StateArena) (meta : PoolMeta) : Prop :=
  Forall (λ t, 0 ≤ t < tc) (pm_tokens meta) ∧ 0 ≤ pm_pool_index meta ∧
  map_Forall (λ _ t, 0 ≤ t < tc) (ai_address_to_token (sa_inner arena)).

Lemma routing_token_below tc arena state meta leg t :
  tokens_below tc arena meta → routing_token_at_leg arena state meta leg = Some t → 0 ≤ t < tc.
Proof.
  intros (Hm & _ & Ha) Ht. rewrite Forall_lookup in Hm. unfold routing_token_at_leg, vault_leg in Ht.
  repeat case_match; simplify_eq; try (by eapply Hm); by eapply Ha.
Qed.

Lemma funded_tokens_below tc arena meta state :
  tokens_below tc arena meta → Forall (λ lt, 0 ≤ lt.2 < tc) (funded_tokens arena meta state).
Proof.
  intros Hb. apply Forall_forall. intros [leg t] Hin. apply list_elem_of_omap in Hin as (l & _ & Hl).
  destruct (routing_token_at_leg _ _ _ _) as [t'|] eqn:Ht; [|done]. injection Hl as -> ->.
  by eapply routing_token_below.
Qed.

Lemma attach_hub_spoke_ok g arena meta state :
  graph_ok g → tokens_below (rg_token_count g) arena meta → graph_ok (attach_hub_spoke_pool g arena meta state).
Proof.
  intros Hok Hb. unfold attach_hub_spoke_pool. pose proof (funded_tokens_below _ arena meta state Hb) as Hf.
  destruct (Nat.ltb_spec (length (funded_tokens arena meta state)) 2) as [|Hl]; [done|].
  assert (funded_tokens arena meta state ≠ []) as Hne by (intros E; rewrite E in Hl; cbn in Hl; lia).
  destruct Hb as (_ & Hpool & _). destruct Hok as [Hs _]. case_bool_decide as Hv4.
  - unfold ensure_v4_singleton_hub. destruct (rg_v4_singleton_hub g) as [node|] eqn:Hv.
    + destruct (fold_push_enter_ok g node (pm_pool_index meta) (pm_protocol meta) (pm_fee_bps meta) _ Hs Hpool
        (go_v4 _ Hs _ Hv) Hf) as (_ & _ & _ & H). by apply H.
    + eapply fold_push_enter_ok; [apply push_hub_ok; [done|by right]|done| |done|done].
      unfold next_hub_node, hub_count. cbn. rewrite length_app. cbn. destruct Hs. lia.
  - unfold ensure_per_pool_hub.
    set (g1 := push_hub _ _ _). assert (struct_ok g1) as Hs1 by (apply push_hub_ok; [done|by left]).
    assert (rg_token_count g1 ≤ next_hub_node g < rg_token_count g1 + hub_count g1) as Hhub.
    { unfold next_hub_node, hub_count. cbn. rewrite length_app. cbn. destruct Hs. lia. }
    destruct (fold_push_enter_ok g1 (next_hub_node g) (pm_pool_index meta) (pm_protocol meta) (pm_fee_bps meta) _
      Hs1 Hpool Hhub Hf) as (_ & H2 & H3 & H4). apply fold_push_exit_ok; [by apply H4|done| | |].
    + rewrite H2, H3. exact Hhub.
    + rewrite H2. exact Hf.
    + rewrite fold_push_enter_hub; [|done|exact Hhub|exact Hf]. unfold adj_at, g1. cbn.
      replace (Z.to_nat (next_hub_node g)) with (length (rg_adjacency g))
        by (destruct Hs as [Htc Hlen _ _ _ _]; unfold next_hub_node, hub_count in *; lia).
      rewrite lookup_app_r, Nat.sub_diag by done. by intros x ?%not_elem_of_nil.
Qed.

Lemma apply_cl_frame arena e :
  pool_index (apply_cl_zero_for_one arena e) = pool_index e ∧
  token_in (apply_cl_zero_for_one arena e) = token_in e ∧
  token_out (apply_cl_zero_for_one arena e) = token_out e.
Proof. unfold apply_cl_zero_for_one. repeat case_match; done. Qed.

Lemma push_direct_ok g arena e :
  graph_ok g → 0 ≤ pool_index e → 0 ≤ token_in e < rg_token_count g → 0 ≤ token_out e < rg_token_count g →
  token_in e ≠ token_out e → graph_ok (push_direct arena g e).
Proof.
  intros [Hs _] Hp Hi Ho Hne. destruct (apply_cl_frame arena e) as (E1 & E2 & E3).
  unfold push_direct. apply push_edge_ok; [done|unfold hub_count; rewrite E2; lia| |rewrite E2; lia].
  unfold stored. rewrite decide_True by done. unfold edge_placed. cbn. rewrite E1, E2, E3. split_and!; lia.
Qed.

Lemma attach_edges_ok g arena meta state g' :
  graph_ok g → tokens_below (rg_token_count g) arena meta → attach_edges g arena meta state = Some g' → graph_ok g'.
Proof.
  intros Hok Hb. unfold attach_edges. destruct (uses_hub_spoke meta).
  { intros [= <-]. by apply attach_hub_spoke_ok. }
  destruct (_ =? 2)%nat; [|done].
  destruct (routing_token_at_leg arena state meta 0) as [t0|] eqn:E0; [|done].
  destruct (routing_token_at_leg arena state meta 1) as [t1|] eqn:E1; [|done].
  destruct (Z.eqb_spec t0 t1) as [|Hne]; [done|]. intros [= <-].
  pose proof (routing_token_below _ _ _ _ _ _ Hb E0). pose proof (routing_token_below _ _ _ _ _ _ Hb E1).
  destruct Hb as (_ & Hp & _). unfold edges_for_pair.
  assert (∀ g e, rg_token_count (push_direct arena g e) = rg_token_count g) as Htc by done.
  destruct (hop_pair_routable state 0 1), (hop_pair_routable state 1 0); cbn [app fold_left];
    repeat (apply push_direct_ok; rewrite ?Htc); cbn; (done || lia).
Qed.

(** ** Growing the token region *)

Lemma moved_place (adj : list (list GraphEdge)) (tc ntc hubs : nat) (at_ : nat * nat) :
  length adj = (tc + hubs)%nat → (tc ≤ ntc)%nat →
  place (moved_adjacency adj tc ntc hubs) at_ =
  if (at_.1 <? tc)%nat then place adj at_
  else if (at_.1 <? ntc)%nat then None else place adj ((tc + (at_.1 - ntc))%nat, at_.2).
Proof.
  intros Hlen Hle. destruct at_ as [a b]. unfold place, moved_adjacency. cbn [fst snd].
  rewrite list_lookup_fmap. destruct (decide (a < ntc + hubs)%nat) as [Ha|Ha].
  - rewrite lookup_seq_lt by done. cbn [fmap option_fmap option_map]. rewrite Nat.add_0_l, Hlen.
    assert (((tc + hubs <=? a) && (a <? tc + hubs) && (a <? ntc))%nat%bool = false) as ->.
    { destruct (Nat.leb_spec (tc + hubs) a), (Nat.ltb_spec a (tc + hubs)); cbn; (done || lia). }
    rewrite Nat.min_l by lia. destruct (Nat.ltb_spec a tc).
    { destruct (lookup_lt_is_Some_2 adj a) as [l ->]; [lia|]. done. }
    destruct (Nat.leb_spec ntc a), (Nat.ltb_spec a ntc); try lia; [|done].
    by destruct (adj !! (tc + (a - ntc))%nat).
  - rewrite (lookup_ge_None_2 (seq _ _)) by (rewrite length_seq; lia).
    destruct (Nat.ltb_spec a tc); [lia|]. destruct (Nat.ltb_spec a ntc); [done|].
    by rewrite lookup_ge_None_2 by lia.
Qed.

Lemma ensure_token_capacity_ok g tc : graph_ok g → graph_ok (ensure_token_capacity g tc).
Proof.
  intros [[Htc Hlen Hv4 Hpl Hpure Hex] Hview]. unfold ensure_token_capacity. destruct (Z.leb_spec tc (rg_token_count g)) as [|Hlt].
  { by split. }
  split; [|done]. set (otc := rg_token_count g) in *. set (hubs := length (rg_virtual_hubs g)).
  assert (hub_count g = Z.of_nat hubs) as Hhc by done. rewrite Hhc in *.
  assert (length (rg_adjacency g) = (Z.to_nat otc + hubs)%nat) as Hl by lia.
  set (adj := moved_adjacency _ _ _ _). set (shift := shift_node _ _ _).
  assert (∀ n, 0 ≤ n < otc → shift n = n) as Hsl.
  { intros n Hn. unfold shift, shift_node. destruct (Z.leb_spec otc n); [lia|done]. }
  assert (∀ n, otc ≤ n < otc + Z.of_nat hubs → shift n = n + (tc - otc)) as Hsh.
  { intros n Hn. unfold shift, shift_node. destruct (Z.leb_spec otc n), (Z.ltb_spec n (otc + Z.of_nat hubs)); (lia || done). }
  set (retarget := λ ge, set_target ge (shift (ge_target_node ge))).
  assert (∀ at_, place ((λ l : list GraphEdge, retarget <$> l) <$> adj) at_ = retarget <$> place adj at_) as Hrt.
  { intros [a b]. unfold place. cbn [fst snd]. rewrite list_lookup_fmap. destruct (adj !! a) as [l|]; [|done].
    cbn. by rewrite list_lookup_fmap. }
  assert (∀ at_, place adj at_ = if (at_.1 <? Z.to_nat otc)%nat then place (rg_adjacency g) at_
    else if (at_.1 <? Z.to_nat tc)%nat then None
    else place (rg_adjacency g) ((Z.to_nat otc + (at_.1 - Z.to_nat tc))%nat, at_.2)) as Hmv.
  { intros at_. apply moved_place; [done|lia]. }
  assert (∀ a b ge, place (rg_adjacency g) (a, b) = Some ge → (a < Z.to_nat otc + hubs)%nat) as Hbound.
  { intros a b ge Hge. apply place_node in Hge as (l & Hl' & _). apply lookup_lt_Some in Hl'. cbn in Hl'. lia. }
  (* a place of the new adjacency comes from one place of the old *)
  assert (∀ at_ ge, place adj at_ = Some ge ↔ ∃ at0, at_ = shift_position otc (otc + Z.of_nat hubs) (tc - otc) at0 ∧
    place (rg_adjacency g) at0 = Some ge) as Hfrom.
  { intros [a b] ge. rewrite Hmv. cbn [fst snd]. unfold shift_position. fold shift. cbn [fst snd]. split.
    - destruct (Nat.ltb_spec a (Z.to_nat otc)).
      + intros Hge. exists (a, b). split; [|done]. cbn. f_equal. rewrite Hsl by lia. lia.
      + destruct (Nat.ltb_spec a (Z.to_nat tc)); [done|]. intros Hge. apply Hbound in Hge as Hb.
        eexists. split; [|exact Hge]. cbn. f_equal. rewrite Hsh by lia. lia.
    - intros ([a0 b0] & [= -> ->] & Hge). cbn [fst snd]. apply Hbound in Hge as Hb.
      destruct (decide (a0 < Z.to_nat otc)%nat).
      + rewrite Hsl by lia. rewrite Nat2Z.id. by destruct (Nat.ltb_spec a0 (Z.to_nat otc)); [|lia].
      + rewrite Hsh by lia. destruct (Nat.ltb_spec (Z.to_nat (Z.of_nat a0 + (tc - otc))) (Z.to_nat otc)); [lia|].
        destruct (Nat.ltb_spec (Z.to_nat (Z.of_nat a0 + (tc - otc))) (Z.to_nat tc)); [lia|].
        rewrite <- Hge. f_equal. f_equal. lia. }
  split; cbn; unfold hub_count; cbn; fold otc hubs.
  - lia.
  - rewrite length_fmap. unfold adj, moved_adjacency. rewrite length_fmap, length_seq. lia.
  - intros h Hh. destruct (rg_v4_singleton_hub g) as [h0|] eqn:E; [|done]. injection Hh as <-.
    specialize (Hv4 _ eq_refl). fold shift. rewrite Hsh by lia. lia.
  - intros at_ ge Hge. fold shift in Hge. fold retarget in Hge. rewrite Hrt in Hge.
    destruct (place adj at_) as [ge0|] eqn:Hp; [|done]. injection Hge as <-.
    apply Hfrom in Hp as (at0 & -> & Hp). specialize (Hpl _ _ Hp). destruct at0 as [a0 b0]. apply Hbound in Hp as Hb.
    unfold edge_placed in *. unfold shift_position. fold shift. cbn in *. destruct Hpl as [? Hpl]. split; [done|].
    destruct (ge_phase ge0).
    + destruct Hpl as (? & Hi & Ho & Hne & Ht). rewrite Ht. rewrite (Hsl (Z.of_nat a0)), (Hsl (token_out _)) by lia. lia.
    + destruct Hpl as (? & Hi & Ht). rewrite (Hsh (ge_target_node ge0)), (Hsl (Z.of_nat a0)) by lia. lia.
    + destruct Hpl as (? & Ho & Ht). rewrite Ht, (Hsl (token_out _)), (Hsh (Z.of_nat a0)) by lia. lia.
  - intros a b b' x x' Ha. fold shift. fold retarget. rewrite !Hrt.
    destruct (place adj (a, b)) as [y|] eqn:E1, (place adj (a, b')) as [y'|] eqn:E2; [|done..].
    intros [= <-] [= <-]. apply Hfrom in E1 as ([a1 b1] & [= Ea1 _] & E1), E2 as ([a2 b2] & [= Ea2 _] & E2).
    apply Hbound in E1 as Hb1. apply Hbound in E2 as Hb2.
    change (ge_pool (retarget y)) with (ge_pool y). change (ge_pool (retarget y')) with (ge_pool y').
    assert (otc ≤ Z.of_nat a1 ∧ a2 = a1) as [Ha1 ->].
    { fold shift in Ea1, Ea2. destruct (decide (Z.of_nat a1 < otc)), (decide (Z.of_nat a2 < otc));
        rewrite ?(Hsl (Z.of_nat a1)), ?(Hsh (Z.of_nat a1)), ?(Hsl (Z.of_nat a2)), ?(Hsh (Z.of_nat a2)) in * by lia; lia. }
    by eapply (Hpure a1).
  - intros p. destruct (Hex p) as [Hnd Hat]. unfold exact. rewrite list_lookup_fmap.
    assert (default [] ((λ ps : list (nat * nat), shift_position otc (otc + Z.of_nat hubs) (tc - otc) <$> ps) <$>
      (rg_pool_edge_positions g !! p)) = shift_position otc (otc + Z.of_nat hubs) (tc - otc) <$> pos_at (rg_pool_edge_positions g) p)
      as -> by (by destruct (rg_pool_edge_positions g !! p)).
    split.
    + apply NoDup_fmap_2_strong; [|done]. intros [a b] [a' b'] H1 H2. unfold shift_position. cbn. fold shift.
      apply Hat in H1 as (? & H1 & _), H2 as (? & H2 & _). apply Hbound in H1, H2. intros [= Heq ->]. f_equal.
      destruct (decide (a < Z.to_nat otc)%nat), (decide (a' < Z.to_nat otc)%nat);
        rewrite ?(Hsl (Z.of_nat a)), ?(Hsl (Z.of_nat a')), ?(Hsh (Z.of_nat a)), ?(Hsh (Z.of_nat a')) in Heq by lia; lia.
    + intros at_. rewrite list_elem_of_fmap. fold shift. fold retarget. setoid_rewrite Hrt. split.
      * intros (at0 & -> & H0). apply Hat in H0 as (ge & Hge & Hp). exists (retarget ge). split; [|done].
        assert (place adj (shift_position otc (otc + Z.of_nat hubs) (tc - otc) at0) = Some ge) as ->; [|done].
        apply Hfrom. by exists at0.
      * intros (ge & Hge & Hp). destruct (place adj at_) as [ge0|] eqn:E; [|done]. injection Hge as <-.
        apply Hfrom in E as (at0 & -> & E). exists at0. split; [done|]. apply Hat. by exists ge0.
Qed.

Lemma ensure_token_capacity_tc g tc : rg_token_count (ensure_token_capacity g tc) = Z.max (rg_token_count g) tc.
Proof. unfold ensure_token_capacity. destruct (Z.leb_spec tc (rg_token_count g)); cbn; lia. Qed.

(** ** Compaction *)

Definition compact_node (adj : list GraphEdge) : list GraphEdge :=
  sort_adjacency_edges (thin_parallel_edges_in_place adj MAX_PARALLEL_EDGES_PER_PAIR).1.

Definition selected_slot (slots : option (list nat)) (i : nat) : Prop :=
  match slots with Some s => i ∈ s | None => True end.

#[export] Instance selected_slot_dec slots i : Decision (selected_slot slots i).
Proof. destruct slots; cbn; apply _. Defined.

Lemma pools_unpriced l l' p : unpriced <$> l' ≡ₚ unpriced <$> l → p ∈ ge_pool <$> l ↔ p ∈ ge_pool <$> l'.
Proof.
  intros Hp. assert (∀ l : list GraphEdge, ge_pool <$> l =
    (λ u : Edge * GraphHopPhase * Z, Z.to_nat (pool_index u.1.1)) <$> (unpriced <$> l)) as He.
  { intros k. by rewrite <- list_fmap_compose. }
  rewrite !He. by rewrite Hp.
Qed.

Lemma compact_step_eq slots adj tch R i :
  compact_step slots (adj, tch, R) i =
  if decide (selected_slot slots i) then
    match adj !! i with
    | Some l => (<[i := compact_node l]> adj, tch, list_to_set (ge_pool <$> compact_node l) ∪ (∅ ∪ R))
    | None => (adj, tch, R)
    end
  else (adj, tch, R).
Proof.
  unfold compact_step, compact_node.
  assert ((match slots with Some s => bool_decide (i ∈ s) | None => true end) = bool_decide (selected_slot slots i)) as ->
    by (destruct slots; cbn; [apply bool_decide_ext; done|done]).
  destruct (decide (selected_slot slots i)) as [Hs|Hs]; [rewrite bool_decide_eq_true_2 by done|by rewrite bool_decide_eq_false_2].
  destruct (adj !! i) as [l|]; [|done]. pose proof (thin_never_removes l MAX_PARALLEL_EDGES_PER_PAIR) as Hr.
  destruct (thin_parallel_edges_in_place l _) as [t r]. cbn in Hr. subst r. by rewrite orb_false_r.
Qed.

(** What a pass over distinct nodes does: [f] at the chosen nodes, whose pools are noted. *)
Record pass_spec (f : list GraphEdge → list GraphEdge) (chosen : nat → Prop)
    (adj adj' : list (list GraphEdge)) (R R' : gset nat) : Prop := {
  ps_length : length adj' = length adj;
  ps_chosen i : chosen i → adj' !! i = f <$> adj !! i;
  ps_other i : ¬ chosen i → adj' !! i = adj !! i;
  ps_mono : R ⊆ R';
  ps_pools i l ge : chosen i → adj !! i = Some l → ge ∈ l → ge_pool ge ∈ R';
}.

Lemma pass_spec_step f i l adj R :
  (∀ l, unpriced <$> f l ≡ₚ unpriced <$> l) → adj !! i = Some l →
  pass_spec f (λ j, j = i) adj (<[i := f l]> adj) R (list_to_set (ge_pool <$> f l) ∪ R).
Proof.
  intros Hf Hi. pose proof (lookup_lt_Some _ _ _ Hi). split.
  - apply length_insert.
  - intros j ->. rewrite list_lookup_insert_eq by done. by rewrite Hi.
  - intros j Hj. by rewrite list_lookup_insert_ne.
  - set_solver.
  - intros j l' ge -> Hl' Hge. assert (l' = l) as -> by congruence.
    apply elem_of_union_l, elem_of_list_to_set. rewrite <- (pools_unpriced l (f l)) by apply Hf. by apply list_elem_of_fmap_2.
Qed.

Lemma pass_spec_none f chosen adj R :
  (∀ i, chosen i → adj !! i = None) → pass_spec f chosen adj adj R R.
Proof.
  intros Hn. split; [done| |done|done|].
  - intros i Hi. by rewrite (Hn i Hi).
  - intros i l ge Hi Hl. by rewrite (Hn i Hi) in Hl.
Qed.

Lemma pass_spec_trans f chosen chosen' adj adj1 adj2 R R1 R2 :
  (∀ i, chosen i → ¬ chosen' i) → pass_spec f chosen adj adj1 R R1 → pass_spec f chosen' adj1 adj2 R1 R2 →
  (∀ i, Decision (chosen i)) →
  pass_spec f (λ i, chosen i ∨ chosen' i) adj adj2 R R2.
Proof.
  intros Hdis [L1 C1 O1 M1 P1] [L2 C2 O2 M2 P2] Hdec. split; [congruence| | |by transitivity R1|].
  - intros i [Hi|Hi].
    + rewrite O2 by (by apply Hdis). by apply C1.
    + rewrite C2 by done. rewrite O1; [done|]. intros Hc. by apply (Hdis i).
  - intros i Hi. rewrite O2, O1; [done|naive_solver..].
  - intros i l ge [Hi|Hi] Hl Hge; [apply M2; by eapply P1|].
    eapply P2; [done| |done]. rewrite O1; [done|]. intros Hc. by apply (Hdis i).
Qed.

Lemma pass_spec_ext f chosen chosen' adj adj' R R' :
  (∀ i, chosen i ↔ chosen' i) → pass_spec f chosen adj adj' R R' → pass_spec f chosen' adj adj' R R'.
Proof.
  intros He [L C O M P]. split; [done| | |done|].
  - intros i Hi. by apply C, He.
  - intros i Hi. apply O. by rewrite He.
  - intros i l ge Hi. by apply P, He.
Qed.

Lemma compact_fold_spec slots ns : NoDup ns → ∀ adj tch R,
  let '(adj', tch', R') := fold_left (compact_step slots) ns (adj, tch, R) in
  tch' = tch ∧ pass_spec compact_node (λ i, i ∈ ns ∧ selected_slot slots i) adj adj' R R'.
Proof.
  induction 1 as [|i ns Hi Hnd IH]; intros adj tch R; cbn [fold_left].
  { split; [done|]. apply pass_spec_none. by intros i [?%not_elem_of_nil _]. }
  rewrite compact_step_eq.
  set (st := if decide _ then _ else _).
  assert (∃ adj1 R1, st = (adj1, tch, R1) ∧ pass_spec compact_node (λ j, j = i ∧ selected_slot slots j) adj adj1 R R1)
    as (adj1 & R1 & -> & Hst).
  { unfold st. destruct (decide (selected_slot slots i)) as [Hs|Hs]; [destruct (adj !! i) as [l|] eqn:El|].
    - eexists _, _. split; [done|]. rewrite (union_empty_l_L R).
      eapply pass_spec_ext; [|apply pass_spec_step; [apply compact_node_unpriced|exact El]]. naive_solver.
    - eexists _, _. split; [done|]. apply pass_spec_none. by intros j [-> _].
    - eexists _, _. split; [done|]. apply pass_spec_none. by intros j [-> ?]. }
  specialize (IH adj1 tch R1). destruct (fold_left _ ns _) as [[adj' tch'] R']. destruct IH as [-> IH].
  split; [done|]. eapply pass_spec_ext; [|eapply pass_spec_trans; [|exact Hst|exact IH|]].
  - intros j. cbn. rewrite elem_of_cons. naive_solver.
  - intros j [-> _] [? _]. done.
  - intros j. apply _.
Qed.

Lemma compact_hub_fold_spec ns : NoDup ns → ∀ adj R,
  let '(adj', R') := fold_left compact_hub ns (adj, R) in
  pass_spec sort_adjacency_edges (λ i, i ∈ ns) adj adj' R R'.
Proof.
  induction 1 as [|i ns Hi Hnd IH]; intros adj R; cbn [fold_left].
  { apply pass_spec_none. by intros i ?%not_elem_of_nil. }
  set (st := compact_hub (adj, R) i).
  assert (∃ adj1 R1, st = (adj1, R1) ∧ pass_spec sort_adjacency_edges (λ j, j = i) adj adj1 R R1)
    as (adj1 & R1 & -> & Hst).
  { unfold st, compact_hub. destruct (adj !! i) as [l|] eqn:El; eexists _, _; (split; [done|]).
    - apply pass_spec_step; [|exact El]. intros l'. apply fmap_Permutation, sort_adjacency_perm.
    - apply pass_spec_none. by intros j ->. }
  specialize (IH adj1 R1). destruct (fold_left _ ns _) as [adj' R'].
  eapply pass_spec_ext; [|eapply pass_spec_trans; [|exact Hst|exact IH|]].
  - intros j. cbn. by rewrite elem_of_cons.
  - by intros j ->.
  - intros j. apply _.
Qed.

(** The list at each node after a compaction. *)
Definition compacted (slots : option (list nat)) (tc : nat) (i : nat) (l : list GraphEdge) : list GraphEdge :=
  if decide (i < tc)%nat then if decide (selected_slot slots i) then compact_node l else l
  else match slots with None => sort_adjacency_edges l | Some _ => l end.

Definition touched (slots : option (list nat)) (tc : nat) (i : nat) : Prop :=
  if decide (i < tc)%nat then selected_slot slots i else slots = None.

Lemma compacted_untouched slots tc i l : ¬ touched slots tc i → compacted slots tc i l = l.
Proof.
  unfold touched, compacted. destruct (decide (i < tc)%nat).
  - intros Hn. by rewrite decide_False.
  - by destruct slots.
Qed.

Lemma compacted_unpriced slots tc i l : unpriced <$> compacted slots tc i l ≡ₚ unpriced <$> l.
Proof.
  unfold compacted. destruct (decide _); [destruct (decide _); [apply compact_node_unpriced|done]|].
  destruct slots; [done|]. apply fmap_Permutation, sort_adjacency_perm.
Qed.

Definition same_frame (g g' : RoutingGraph) : Prop :=
  rg_token_count g' = rg_token_count g ∧ rg_virtual_hubs g' = rg_virtual_hubs g ∧
  rg_v4_singleton_hub g' = rg_v4_singleton_hub g.

Lemma rebuild_frame g pools :
  same_frame g (rebuild_pool_edge_positions_for_pools g pools) ∧
  rg_base_view (rebuild_pool_edge_positions_for_pools g pools) = rg_base_view g ∧
  rg_coverage (rebuild_pool_edge_positions_for_pools g pools) = rg_coverage g.
Proof. unfold rebuild_pool_edge_positions_for_pools. by destruct (decide _). Qed.

Lemma compact_shape g slots :
  let g' := compact_token_adjacency g slots in
  same_frame g g' ∧ rg_base_view g' = rg_base_view g ∧
  (∀ i, rg_adjacency g' !! i = compacted slots (token_slots g) i <$> rg_adjacency g !! i) ∧
  same_nodes (rg_adjacency g) (rg_adjacency g') (touched slots (token_slots g)) ∧
  (rg_coverage g ≠ None → rg_coverage g' = rg_coverage g) ∧
  ∃ R, (∀ i l ge, touched slots (token_slots g) i → rg_adjacency g !! i = Some l → ge ∈ l → ge_pool ge ∈ R) ∧
    rg_pool_edge_positions g' =
    rg_pool_edge_positions (rebuild_pool_edge_positions_for_pools (set_adjacency g (rg_adjacency g')) R).
Proof.
  unfold compact_token_adjacency.
  pose proof (compact_fold_spec slots (seq 0 (token_slots g)) (NoDup_seq _ _) (rg_adjacency g)
    (bool_decide (rg_coverage g = None)) ∅) as H1.
  destruct (fold_left _ _ _) as [[adj1 tch] R1]. destruct H1 as [-> H1].
  set (r2 := match slots with None => _ | Some _ => _ end).
  assert (∃ adj2 R2, r2 = (adj2, R2) ∧ length adj2 = length (rg_adjacency g) ∧
    (∀ i, adj2 !! i = compacted slots (token_slots g) i <$> rg_adjacency g !! i) ∧
    (∀ i l ge, touched slots (token_slots g) i → rg_adjacency g !! i = Some l → ge ∈ l → ge_pool ge ∈ R2))
    as (adj2 & R2 & -> & Hlen & Hadj & HR).
  { destruct H1 as [L1 C1 O1 _ P1]. destruct slots as [s|]; unfold r2; clear r2.
    - exists adj1, R1. split_and!; [done|done| |].
      + intros i. unfold compacted. destruct (decide (i < token_slots g)%nat) as [Hi|Hi].
        * destruct (decide (selected_slot (Some s) i)) as [Hs|Hs].
          -- apply C1. split; [apply elem_of_seq; lia|done].
          -- rewrite O1 by (by intros [_ ?]). by destruct (rg_adjacency g !! i).
        * rewrite O1 by (rewrite elem_of_seq; intros [? _]; lia). by destruct (rg_adjacency g !! i).
      + intros i l ge. unfold touched. destruct (decide (i < token_slots g)%nat); [|done].
        intros Hs. apply P1. split; [apply elem_of_seq; lia|done].
    - pose proof (compact_hub_fold_spec (seq (token_slots g) (length adj1 - token_slots g)) (NoDup_seq _ _) adj1 R1) as H2.
      destruct (fold_left compact_hub _ _) as [adj2 R2]. destruct H2 as [L2 C2 O2 M2 P2].
      assert (∀ i, (token_slots g ≤ i)%nat → adj1 !! i = rg_adjacency g !! i) as E
        by (intros i Hi; apply O1; rewrite elem_of_seq; intros [? _]; lia).
      exists adj2, R2. split_and!; [done|congruence| |].
      + intros i. unfold compacted. destruct (decide (i < token_slots g)%nat) as [Hi|Hi].
        * rewrite O2 by (rewrite elem_of_seq; lia).
          destruct (decide (selected_slot None i)) as [_|[]]; [|done]. apply C1. split; [apply elem_of_seq; lia|done].
        * rewrite <- E by lia. destruct (decide (i < length adj1)%nat) as [Hil|Hil].
          -- apply C2. apply elem_of_seq. lia.
          -- rewrite !lookup_ge_None_2 by lia. done.
      + intros i l ge _ Hl Hge. destruct (decide (i < token_slots g)%nat) as [Hi|Hi].
        * apply M2. eapply P1; [|done..]. split; [apply elem_of_seq; lia|done].
        * rewrite <- E in Hl by lia. eapply P2; [|done..]. apply elem_of_seq. apply lookup_lt_Some in Hl. lia. }
  assert (same_nodes (rg_adjacency g) adj2 (touched slots (token_slots g))) as Hsame.
  { split; [done|]. intros i. rewrite Hadj. destruct (rg_adjacency g !! i) as [l|]; [|by left].
    assert (Decision (touched slots (token_slots g) i)) as Hdec.
    { unfold touched. destruct (decide _); [apply _|]. destruct slots; [by right|by left]. }
    destruct (decide (touched slots (token_slots g) i)) as [Ht|Ht].
    - right. split; [done|]. exists l, (compacted slots (token_slots g) i l). split_and!; [done..|].
      apply unpriced_subnode, compacted_unpriced.
    - left. cbn. by rewrite compacted_untouched. }
  set (g1 := set_adjacency g adj2).
  set (g2 := if decide (R2 = ∅) then g1 else _).
  assert (g2 = rebuild_pool_edge_positions_for_pools g1 (elements R2)) as ->.
  { unfold g2. destruct (decide (R2 = ∅)) as [->|]; [|done]. by rewrite elements_empty. }
  set (g2 := rebuild_pool_edge_positions_for_pools g1 (elements R2)).
  destruct (rebuild_frame g1 (elements R2)) as ((Hf1 & Hf2 & Hf3) & Hv & Hc). fold g2 in Hf1, Hf2, Hf3, Hv, Hc.
  assert (rg_adjacency g2 = adj2) as Ha by apply rebuild_adjacency.
  assert (∀ i l ge, touched slots (token_slots g) i → rg_adjacency g !! i = Some l → ge ∈ l →
    ge_pool ge ∈ elements R2) as HR' by (intros; apply elem_of_elements; by eapply HR).
  case_bool_decide as Hcov; cbn zeta.
  - unfold refresh_graph_cycle_coverage, set_coverage, same_frame. cbn. rewrite Ha. split_and!; [done..|].
    by exists (elements R2).
  - unfold same_frame. rewrite Ha. split_and!; [done..|]. by exists (elements R2).
Qed.

Lemma same_nodes_struct g g' changed :
  struct_ok g → same_frame g g' → same_nodes (rg_adjacency g) (rg_adjacency g') changed →
  (∀ p, exact (rg_adjacency g') (rg_pool_edge_positions g') p) → struct_ok g'.
Proof.
  intros [Htc Hlen Hv4 Hpl Hpure Hex] (F1 & F2 & F3) Hs Hex'. unfold hub_count in *. split; unfold hub_count;
    rewrite ?F1, ?F2, ?F3; try done.
  - by rewrite (proj1 Hs).
  - by eapply same_nodes_placed.
  - by eapply same_nodes_pure.
Qed.

Lemma compact_ok g slots : struct_ok g → struct_ok (compact_token_adjacency g slots).
Proof.
  intros Hok. destruct (compact_shape g slots) as (Hf & _ & _ & Hs & _ & R & HR & Hpos).
  eapply same_nodes_struct; [done..|]. rewrite Hpos. by eapply reindex_exact; [apply Hok| |].
Qed.

(** ** Pricing *)

Definition repriced_all (adj adj' : list (list GraphEdge)) : Prop := Forall2 (Forall2 repriced) adj adj'.

Lemma repriced_all_refl adj : repriced_all adj adj.
Proof. apply Forall_Forall2_diag, Forall_true. intros l. by apply Forall_Forall2_diag, Forall_true. Qed.

Lemma repriced_all_place adj adj' at_ :
  repriced_all adj adj' →
  match place adj at_, place adj' at_ with
  | Some ge, Some ge' => repriced ge ge' | None, None => True | _, _ => False end.
Proof.
  intros Hr. unfold place. destruct (adj !! at_.1) as [l|] eqn:Hl.
  - destruct (Forall2_lookup_l _ _ _ _ _ Hr Hl) as (l' & -> & Hll). destruct (l !! at_.2) as [ge|] eqn:Hg.
    + by destruct (Forall2_lookup_l _ _ _ _ _ Hll Hg) as (ge' & -> & ?).
    + apply lookup_ge_None in Hg. rewrite (Forall2_length _ _ _ Hll) in Hg. by rewrite lookup_ge_None_2.
  - apply lookup_ge_None in Hl. rewrite (Forall2_length _ _ _ Hr) in Hl. by rewrite lookup_ge_None_2.
Qed.

Lemma repriced_all_nodes adj adj' : repriced_all adj adj' → same_nodes adj adj' (λ _, True).
Proof.
  intros Hr. split; [symmetry; by eapply Forall2_length|]. intros i.
  destruct (adj !! i) as [l|] eqn:Hl.
  - destruct (Forall2_lookup_l _ _ _ _ _ Hr Hl) as (l' & Hl' & Hll). right. split; [done|]. exists l, l'. split_and!; [done..|].
    intros ge' [j Hj]%list_elem_of_lookup. destruct (Forall2_lookup_r _ _ _ _ _ Hll Hj) as (ge & Hg & ?).
    exists ge. split; [by eapply list_elem_of_lookup_2|done].
  - left. apply lookup_ge_None in Hl. rewrite (Forall2_length _ _ _ Hr) in Hl. by rewrite lookup_ge_None_2.
Qed.

Lemma repriced_all_exact adj adj' pos p : repriced_all adj adj' → exact adj pos p → exact adj' pos p.
Proof.
  intros Hr. apply reprice_exact. intros at_. pose proof (repriced_all_place adj adj' at_ Hr) as Hp.
  destruct (place adj at_), (place adj' at_); try done. cbn. f_equal. by apply repriced_ge_pool.
Qed.

Lemma rescore_adjacency_repriced ln_f64 arena adj adj' :
  rescore_adjacency ln_f64 arena adj = Done adj' → repriced_all adj adj'.
Proof.
  intros Hr%omapM_Forall2. eapply Forall2_impl; [done|]. intros l l' Hl%omapM_Forall2.
  eapply Forall2_impl; [done|]. intros ge ge'. apply healed_repriced.
Qed.

Lemma set_adjacency_repriced_ok g adj' :
  struct_ok g → repriced_all (rg_adjacency g) adj' → struct_ok (set_adjacency g adj').
Proof.
  intros Hok Hr. eapply same_nodes_struct; [exact Hok|done|by apply repriced_all_nodes|].
  intros p. eapply repriced_all_exact; [done|]. apply Hok.
Qed.

Lemma view_ok_frame g g' v :
  view_ok g v → rg_adjacency g' = rg_adjacency g → rg_token_count g' = rg_token_count g → view_ok g' v.
Proof.
  intros [Hn Hc Hi] Ha Ht. split; [|by rewrite Ha|done]. rewrite Hn, Ha. apply list_fmap_ext. intros i n _.
  unfold node_aggregate, token_slots. by rewrite Ha, Ht.
Qed.

Lemma rescore_graph_ok ln_f64 arena g g' :
  struct_ok g → rescore_graph_in_place ln_f64 arena g = Done g' → graph_ok g'.
Proof.
  intros Hok. unfold rescore_graph_in_place. destruct (rescore_adjacency _ _ _) as [adj|] eqn:Ha; [|done].
  cbn [obind]. intros Hd. apply Done_inj in Hd as <-.
  assert (struct_ok (compact_token_adjacency (set_adjacency g adj) None)) as Hc.
  { apply compact_ok. apply set_adjacency_repriced_ok; [done|]. by eapply rescore_adjacency_repriced. }
  split; [destruct Hc; by split|]. intros v [= <-]. by eapply view_ok_frame; [apply view_build_ok| |].
Qed.

Lemma refresh_coverage_ok g : graph_ok g → graph_ok (refresh_graph_cycle_coverage g).
Proof.
  intros [[] Hv]. split; [by split|]. intros v Hvv. specialize (Hv v Hvv). destruct Hv. by split.
Qed.

(** *** Dirty pools *)

Record dirty_ok (adj : list (list GraphEdge)) (done_pools : list nat) (st : DirtyPass) : Prop := {
  do_repriced : repriced_all adj (dp_adjacency st);
  do_unaffected i : i ∉ dp_affected st → dp_adjacency st !! i = adj !! i;
  do_from i : i ∈ dp_affected st → ∃ j ge, place adj (i, j) = Some ge ∧ ge_pool ge ∈ done_pools;
}.

Lemma dirty_ok_mono adj ps ps' st : ps ⊆ ps' → dirty_ok adj ps st → dirty_ok adj ps' st.
Proof. intros Hps [H1 H2 H3]. split; [done..|]. intros i Hi. destruct (H3 i Hi) as (j & ge & ? & ?). exists j, ge. auto. Qed.

Lemma Forall2_insert_place adj adj' i j l ge ge' :
  repriced_all adj adj' → adj' !! i = Some l → l !! j = Some ge → repriced ge ge' →
  repriced_all adj (alter (<[j := ge']>) i adj').
Proof.
  intros Hr Hi Hj Hrp. apply Forall2_same_length_lookup_2.
  { rewrite length_alter. by eapply Forall2_length. }
  intros a l0 l1 Hl0 Hl1. rewrite list_lookup_alter in Hl1. destruct (decide (i = a)) as [->|Hne].
  2: { by eapply Forall2_lookup_lr. }
  rewrite Hi in Hl1. injection Hl1 as <-.
  assert (Forall2 repriced l0 l) as Hll by (by eapply Forall2_lookup_lr).
  apply Forall2_same_length_lookup_2; [rewrite length_insert; by eapply Forall2_length|].
  intros b x y Hx Hy. destruct (decide (j = b)) as [->|Hnb].
  - rewrite list_lookup_insert_eq in Hy by (by eapply lookup_lt_Some). injection Hy as <-.
    transitivity ge; [by eapply Forall2_lookup_lr|done].
  - rewrite list_lookup_insert_ne in Hy by done. by eapply Forall2_lookup_lr.
Qed.

Lemma rescore_place_ok ln_f64 arena adj pos ps p at_ st st' :
  exact adj pos p → at_ ∈ pos_at pos p → p ∈ ps →
  dirty_ok adj ps st → rescore_place ln_f64 arena st at_ = Done st' → dirty_ok adj ps st'.
Proof.
  intros [_ Hat] Hin Hp [H1 H2 H3]. unfold rescore_place. apply Hat in Hin as (ge0 & Hge0 & Hgp).
  pose proof (repriced_all_place _ _ at_ H1) as Hpl. rewrite Hge0 in Hpl.
  fold (place (dp_adjacency st) at_). destruct (place (dp_adjacency st) at_) as [ge|] eqn:Hge; [|done].
  destruct (rescore_graph_edge ln_f64 arena ge) as [ge'|] eqn:Hr; [|done]. cbn [obind]. intros Hd.
  apply Done_inj in Hd as <-. apply healed_repriced in Hr. unfold place in Hge.
  destruct (dp_adjacency st !! at_.1) as [l|] eqn:Hl; [|done]. split; cbn.
  - by eapply Forall2_insert_place.
  - intros i Hi. rewrite elem_of_app, list_elem_of_singleton in Hi. rewrite list_lookup_alter_ne by naive_solver.
    apply H2. naive_solver.
  - intros i [Hi| ->%list_elem_of_singleton]%elem_of_app; [by apply H3|].
    exists at_.2, ge0. split; [by destruct at_|]. by rewrite Hgp.
Qed.

Lemma rescore_pool_ok ln_f64 arena adj pos st st' pool :
  (∀ p, exact adj pos p) → dirty_ok adj (dp_pools st) st → rescore_pool ln_f64 arena pos st pool = Done st' →
  dirty_ok adj (dp_pools st') st'.
Proof.
  intros Hex Hok. unfold rescore_pool. set (p := Z.to_nat pool). destruct (pos !! p) as [places|] eqn:Hpl.
  2: { intros Hd. by apply Done_inj in Hd as <-. }
  destruct (ofold _ places st) as [st1|] eqn:Hf; [|done]. cbn [obind]. intros Hd. apply Done_inj in Hd as <-.
  assert (dirty_ok adj (dp_pools st ++ [p]) st1 ∧ dp_pools st1 = dp_pools st) as [Hok1 Hdp].
  { eapply (ofold_inv (λ s, dirty_ok adj (dp_pools st ++ [p]) s ∧ dp_pools s = dp_pools st)); [|split; [|done]|exact Hf].
    - intros s at_ s' Hin [Hs Hsp] Hs'. split.
      + eapply rescore_place_ok; [apply (Hex p)| | |exact Hs|exact Hs']; [by rewrite Hpl|set_solver].
      + unfold rescore_place in Hs'. destruct (let? _ := _ in _) as [ge|]; [|by apply Done_inj in Hs' as <-].
        destruct (rescore_graph_edge _ _ _); [|done]. cbn in Hs'. by apply Done_inj in Hs' as <-.
    - eapply dirty_ok_mono; [|exact Hok]. set_solver. }
  cbn. rewrite Hdp. destruct Hok1. by split.
Qed.

Lemma sort_nodes_at adj nodes i :
  (∃ l', l' ≡ₚ default [] (adj !! i) ∧ sort_nodes adj nodes !! i = (λ _, l') <$> adj !! i) ∧
  (i ∉ nodes → sort_nodes adj nodes !! i = adj !! i) ∧ length (sort_nodes adj nodes) = length adj.
Proof.
  unfold sort_nodes. revert adj. induction nodes as [|n nodes IH]; intros adj; cbn [fold_left].
  { split_and!; [|done..]. exists (default [] (adj !! i)). split; [done|]. by destruct (adj !! i). }
  destruct (IH (alter sort_adjacency_edges n adj)) as ((l' & Hp & Hl) & Hn & Hlen).
  split_and!; [| |by rewrite Hlen, length_alter].
  - rewrite Hl. rewrite list_lookup_alter in *. destruct (decide (n = i)) as [->|].
    + destruct (adj !! i) as [l|]; cbn in *; [|by exists []]. exists l'. split; [|done].
      rewrite Hp. apply sort_adjacency_perm.
    + by exists l'.
  - intros Hi. apply not_elem_of_cons in Hi as [Hne Hi]. rewrite Hn by done. by rewrite list_lookup_alter_ne.
Qed.

Lemma sort_nodes_same adj nodes : same_nodes adj (sort_nodes adj nodes) (λ i, i ∈ nodes).
Proof.
  split; [by apply (sort_nodes_at adj nodes 0)|]. intros i.
  destruct (sort_nodes_at adj nodes i) as ((l' & Hp & Hl) & Hn & _).
  destruct (decide (i ∈ nodes)) as [Hi|Hi]; [|left; by apply Hn].
  destruct (adj !! i) as [l|] eqn:El; [|left; by rewrite Hl]. right. split; [done|].
  exists l, l'. split_and!; [done|done|]. by apply subnode_perm.
Qed.

Lemma same_nodes_trans adj adj1 adj2 c1 c2 c :
  same_nodes adj adj1 c1 → same_nodes adj1 adj2 c2 → (∀ i, c1 i → c i) → (∀ i, c2 i → c i) →
  same_nodes adj adj2 c.
Proof.
  intros [L1 H1] [L2 H2] Hc1 Hc2. split; [congruence|]. intros i.
  destruct (H1 i) as [E1|(C1 & l & l1 & Hl & Hl1 & S1)], (H2 i) as [E2|(C2 & m & l2 & Hm & Hl2 & S2)].
  - left. congruence.
  - right. split; [auto|]. exists m, l2. split_and!; [congruence|done..].
  - right. split; [auto|]. exists l, l1. split_and!; [done|congruence|done].
  - right. split; [auto|]. exists l, l2. split_and!; [done..|]. assert (m = l1) as -> by congruence. by transitivity l1.
Qed.

Lemma dirty_same_nodes adj ps st : dirty_ok adj ps st → same_nodes adj (dp_adjacency st) (λ i, i ∈ dp_affected st).
Proof.
  intros [H1 H2 _]. destruct (repriced_all_nodes _ _ H1) as [Hl Hs]. split; [done|]. intros i.
  destruct (decide (i ∈ dp_affected st)) as [Hi|Hi]; [|left; by apply H2].
  destruct (Hs i) as [?|[_ ?]]; [by left|by right].
Qed.

(** The pools with an edge at a changed node. *)
Definition touches (adj : list (list GraphEdge)) (changed : nat → Prop) (p : nat) : Prop :=
  ∃ i l ge, changed i ∧ adj !! i = Some l ∧ ge ∈ l ∧ ge_pool ge = p.

(** One or two rebuilds that cover what changed leave the index exact. *)
Lemma rebuild_twice g adj' P1 P2 changed :
  (∀ p, exact (rg_adjacency g) (rg_pool_edge_positions g) p) →
  same_nodes (rg_adjacency g) adj' changed →
  (∀ p, touches (rg_adjacency g) changed p → p ∈ P1 ∨ p ∈ P2) →
  ∀ p, exact adj' (rg_pool_edge_positions (rebuild_pool_edge_positions_for_pools
    (set_positions (set_adjacency g adj') (rg_pool_edge_positions
       (rebuild_pool_edge_positions_for_pools (set_adjacency g adj') P1))) P2)) p.
Proof.
  intros Hex Hs Hch p. set (g1 := rebuild_pool_edge_positions_for_pools (set_adjacency g adj') P1).
  set (g2 := set_positions (set_adjacency g adj') (rg_pool_edge_positions g1)).
  destruct (rebuild_at (set_adjacency g adj') P1 p) as [In1 Out1]. fold g1 in In1, Out1.
  destruct (rebuild_at g2 P2 p) as [In2 Out2]. cbn [g2 rg_adjacency set_positions set_adjacency rg_pool_edge_positions] in *.
  assert (covered adj' (rg_pool_edge_positions g) p) as Hcov by (by eapply same_nodes_covered, exact_covered).
  assert (p ∈ P1 → exact adj' (rg_pool_edge_positions g1) p) as Hin1 by auto.
  destruct (decide (p ∈ P2)) as [Hp2|Hp2].
  - apply In2; [done|]. destruct (decide (p ∈ P1)) as [Hp1|Hp1]; [by apply exact_covered, Hin1|].
    eapply covered_ext; [by apply Out1|done].
  - eapply exact_ext; [by apply Out2|]. destruct (decide (p ∈ P1)) as [Hp1|Hp1]; [by apply Hin1|].
    eapply exact_ext; [by apply Out1|]. eapply same_nodes_exact; [done| |apply Hex].
    intros i l ge Hc Hl Hge Hgp. destruct (Hch p) as [|]; [by exists i, l, ge|done..].
Qed.

Lemma rebuild_positions_ext g g' P :
  rg_adjacency g' = rg_adjacency g → rg_pool_edge_positions g' = rg_pool_edge_positions g →
  rg_pool_edge_positions (rebuild_pool_edge_positions_for_pools g' P) =
  rg_pool_edge_positions (rebuild_pool_edge_positions_for_pools g P).
Proof.
  intros Ha Hp. unfold rebuild_pool_edge_positions_for_pools. destruct (decide _); [done|]. cbn. by rewrite Ha, Hp.
Qed.

(** The pools that a rescored place brings into the affected nodes. *)
Lemma hub_touch tc adj ps st p :
  hubs_pure tc adj → dirty_ok adj ps st →
  touches adj (λ i, i ∈ dp_affected st ∧ tc ≤ Z.of_nat i) p → p ∈ ps.
Proof.
  intros Hpure [_ _ Hfrom] (i & l & ge & [Hi Htc] & Hl & Hge & <-).
  destruct (Hfrom i Hi) as (j & ge0 & Hge0 & Hp0).
  destruct (proj1 (place_elem _ i l ge Hl) Hge) as [j' Hj']. by rewrite <- (Hpure i j j' ge0 ge).
Qed.

Lemma same_nodes_impl adj adj' (c c' : nat → Prop) :
  same_nodes adj adj' c → (∀ i, c i → c' i) → same_nodes adj adj' c'.
Proof. intros [Hl Hs] Hc. split; [done|]. intros i. destruct (Hs i) as [?|[? ?]]; [by left|right; auto]. Qed.

Lemma repriced_all_pools adj adj' i l ge :
  repriced_all adj adj' → adj !! i = Some l → ge ∈ l →
  ∃ l' ge', adj' !! i = Some l' ∧ ge' ∈ l' ∧ ge_pool ge' = ge_pool ge.
Proof.
  intros Hr Hl [j Hj]%list_elem_of_lookup. destruct (Forall2_lookup_l _ _ _ _ _ Hr Hl) as (l' & Hl' & Hll).
  destruct (Forall2_lookup_l _ _ _ _ _ Hll Hj) as (ge' & Hj' & Hrp). exists l', ge'.
  split_and!; [done|by eapply list_elem_of_lookup_2|by apply repriced_ge_pool].
Qed.

(** What the dirty pass and its sorting leave before the view is patched. *)
Definition dirty_graph (g : RoutingGraph) (st : DirtyPass) : RoutingGraph :=
  let T := sort_dedup (dp_pools st) in
  let affected := sort_dedup (dp_affected st) in
  let g := set_adjacency g (dp_adjacency st) in
  let slots := filter (λ i, (i < token_slots g)%nat) affected in
  let hubs := filter (λ i, (token_slots g ≤ i)%nat) affected in
  if decide (slots = []) then
    rebuild_pool_edge_positions_for_pools (set_adjacency g (sort_nodes (rg_adjacency g) affected)) T
  else
    let g := compact_token_adjacency (set_adjacency g (sort_nodes (rg_adjacency g) hubs)) (Some slots) in
    if decide (hubs = []) then g else rebuild_pool_edge_positions_for_pools g T.

Lemma dirty_graph_ok g st :
  struct_ok g → dirty_ok (rg_adjacency g) (dp_pools st) st →
  let g' := dirty_graph g st in
  struct_ok g' ∧ same_frame g g' ∧ rg_base_view g' = rg_base_view g ∧
  same_nodes (rg_adjacency g) (rg_adjacency g') (λ i, i ∈ dp_affected st).
Proof.
  intros Hok Hdirty. pose proof (do_repriced _ _ _ Hdirty) as Hrp.
  assert (0 ≤ rg_token_count g) as Htc by apply Hok.
  assert (∀ i, i ∈ sort_dedup (dp_affected st) ↔ i ∈ dp_affected st) as Haff by (intros; apply sort_dedup_elem).
  assert (∀ p, p ∈ sort_dedup (dp_pools st) ↔ p ∈ dp_pools st) as HT by (intros; apply sort_dedup_elem).
  enough (∃ adj' P1 P2, same_nodes (rg_adjacency g) adj' (λ i, i ∈ dp_affected st) ∧
    (∀ p, touches (rg_adjacency g) (λ i, i ∈ dp_affected st) p → p ∈ P1 ∨ p ∈ P2) ∧
    same_frame g (dirty_graph g st) ∧ rg_base_view (dirty_graph g st) = rg_base_view g ∧
    rg_adjacency (dirty_graph g st) = adj' ∧ rg_pool_edge_positions (dirty_graph g st) =
    rg_pool_edge_positions (rebuild_pool_edge_positions_for_pools
    (set_positions (set_adjacency g adj') (rg_pool_edge_positions
       (rebuild_pool_edge_positions_for_pools (set_adjacency g adj') P1))) P2))
    as (adj' & P1 & P2 & Hs & Hch & Hf & Hv & Ha & Hpos).
  { cbn zeta. rewrite Ha. split_and!; [|done..]. eapply same_nodes_struct; [exact Hok|exact Hf|by rewrite Ha|].
    intros p. rewrite Ha, Hpos. by eapply rebuild_twice; [apply Hok| |]. }
  unfold dirty_graph. cbn zeta. set (affected := sort_dedup (dp_affected st)) in *.
  set (T := sort_dedup (dp_pools st)) in *. set (g1 := set_adjacency g (dp_adjacency st)).
  change (token_slots g1) with (token_slots g). change (rg_adjacency g1) with (dp_adjacency st).
  set (slots := filter (λ i, (i < token_slots g)%nat) affected).
  set (hubs := filter (λ i, (token_slots g ≤ i)%nat) affected).
  assert (∀ p, touches (rg_adjacency g) (λ i, i ∈ dp_affected st ∧ rg_token_count g ≤ Z.of_nat i) p → p ∈ T) as Hhub.
  { intros p Hp. apply HT. eapply hub_touch; [apply Hok|exact Hdirty|exact Hp]. }
  destruct (decide (slots = [])) as [Hsl|Hsl].
  - eexists (sort_nodes (dp_adjacency st) affected), [], T. split_and!.
    + eapply same_nodes_trans; [by eapply dirty_same_nodes|apply sort_nodes_same|done|intros i; apply Haff].
    + intros p (i & l & ge & Hi & Hl & Hge & Hp). right. apply Hhub. exists i, l, ge. split_and!; [done| |done..].
      assert (¬ (i < token_slots g)%nat); [|unfold token_slots in *; lia]. intros Hlt.
      assert (i ∈ slots) as Hin by (apply list_elem_of_filter; split; [done|by apply Haff]).
      rewrite Hsl in Hin. by apply not_elem_of_nil in Hin.
    + exact (proj1 (rebuild_frame (set_adjacency g1 (sort_nodes (dp_adjacency st) affected)) T)).
    + exact (proj1 (proj2 (rebuild_frame (set_adjacency g1 (sort_nodes (dp_adjacency st) affected)) T))).
    + apply rebuild_adjacency.
    + by apply rebuild_positions_ext.
  - set (gh := set_adjacency g1 (sort_nodes (dp_adjacency st) hubs)).
    destruct (compact_shape gh (Some slots)) as (Hf & Hv & _ & Hs & _ & R & HR & Hpos).
    set (gc := compact_token_adjacency gh (Some slots)) in *.
    assert (same_nodes (rg_adjacency g) (rg_adjacency gc) (λ i, i ∈ dp_affected st)) as Hsame.
    { eapply same_nodes_trans; [|exact Hs| |].
      - eapply same_nodes_trans; [by eapply dirty_same_nodes|apply sort_nodes_same|intros i Hi; exact Hi|].
        intros i [_ Hi]%list_elem_of_filter. by apply Haff.
      - done.
      - intros i. unfold touched. destruct (decide _); [|done]. intros [_ Hi]%list_elem_of_filter. by apply Haff. }
    assert (∀ p, touches (rg_adjacency g) (λ i, i ∈ dp_affected st) p → p ∈ R ∨ (p ∈ T ∧ hubs ≠ [])) as Hch.
    { intros p (i & l & ge & Hi & Hl & Hge & Hp). destruct (decide (i < token_slots g)%nat) as [Hlt|Hlt].
      - left. destruct (repriced_all_pools _ _ _ _ _ Hrp Hl Hge) as (l' & ge' & Hl' & Hge' & Hp').
        rewrite <- Hp, <- Hp'. apply (HR i l'); [| |done].
        + unfold touched. change (token_slots gh) with (token_slots g). rewrite decide_True by done.
          apply list_elem_of_filter. split; [done|by apply Haff].
        + cbn. destruct (sort_nodes_at (dp_adjacency st) hubs i) as (_ & -> & _); [done|].
          intros [? _]%list_elem_of_filter. lia.
      - right. split.
        + apply Hhub. exists i, l, ge. split_and!; [done|unfold token_slots in *; lia|done..].
        + assert (i ∈ hubs) as Hin by (apply list_elem_of_filter; split; [lia|by apply Haff]).
          intros E. rewrite E in Hin. by apply not_elem_of_nil in Hin. }
    destruct (decide (hubs = [])) as [Hh|Hh].
    + exists (rg_adjacency gc), R, []. split_and!; [done| |done..|].
      * intros p Hp. left. destruct (Hch p Hp) as [?|[_ ?]]; done.
      * rewrite Hpos.
        transitivity (rg_pool_edge_positions
          (rebuild_pool_edge_positions_for_pools (set_adjacency g (rg_adjacency gc)) R));
          [by apply rebuild_positions_ext|done].
    + exists (rg_adjacency gc), R, T. split_and!; [done| | | |apply rebuild_adjacency|].
      * intros p Hp. destruct (Hch p Hp) as [?|[? _]]; auto.
      * destruct (rebuild_frame gc T) as ((F1 & F2 & F3) & _ & _). destruct Hf as (E1 & E2 & E3).
        unfold same_frame. rewrite F1, F2, F3, E1, E2, E3. done.
      * destruct (rebuild_frame gc T) as (_ & -> & _). exact Hv.
      * apply rebuild_positions_ext; [done|]. cbn. rewrite Hpos. by apply rebuild_positions_ext.
Qed.

Lemma rescore_pools_ok ln_f64 arena g pools g' n :
  graph_ok g → rescore_pools_in_place ln_f64 arena g pools = Done (g', n) → graph_ok g' ∧ same_frame g g'.
Proof.
  intros [Hok Hview]. unfold rescore_pools_in_place. destruct (decide (pools = [])) as [->|Hne].
  { intros Hd. apply Done_inj in Hd. by simplify_eq. }
  set (st0 := {| dp_adjacency := rg_adjacency g; dp_touched := 0; dp_affected := []; dp_pools := [] |}).
  destruct (ofold _ pools st0) as [st|] eqn:Hst; [|done]. cbn [obind].
  assert (dirty_ok (rg_adjacency g) (dp_pools st) st) as Hdirty.
  { eapply (ofold_inv (λ s, dirty_ok (rg_adjacency g) (dp_pools s) s)); [| |exact Hst].
    - intros s pool s' _ Hs Hs'. eapply rescore_pool_ok; [|exact Hs|exact Hs']. apply Hok.
    - split; cbn; [apply repriced_all_refl|done|by intros i ?%not_elem_of_nil]. }
  set (gd := dirty_graph g st). set (affected := sort_dedup (dp_affected st)).
  set (aggregate := (Z.to_nat <$> pools) ++ (affected ≫= λ i, ge_pool <$> adj_at (set_adjacency g (dp_adjacency st)) i)).
  change (Done (patch_base_view_nodes gd affected aggregate, dp_touched st) = Done (g', n) → graph_ok g' ∧ same_frame g g').
  intros Hd. apply Done_inj in Hd as [= <- <-].
  destruct (dirty_graph_ok g st Hok Hdirty) as (Hok' & Hf & Hbv & Hs).
  fold gd in Hok', Hf, Hbv, Hs.
  unfold patch_base_view_nodes. rewrite Hbv. destruct (rg_base_view g) as [v|] eqn:Ev.
  2: { split; [|done]. split; [done|]. intros v. by rewrite Hbv. }
  split; [|exact Hf]. split; [destruct Hok'; by split|]. intros v' [= <-]. specialize (Hview _ eq_refl).
  destruct Hview as [Vn Vc Vi]. destruct Hf as (F1 & F2 & F3).
  assert (view_ok (set_base_view gd None) (view_patch v (set_base_view gd None) (sort_dedup (dp_affected st)) aggregate))
    as [Wn Wc Wi]; [|by split].
  apply view_patch_ok.
  - done.
  - rewrite Vn, length_fmap, length_seq. symmetry. apply Hs.
  - intros i Hi Hni. cbn in Hi. rewrite (proj1 Hs) in Hi. rewrite Vn, list_lookup_fmap, lookup_seq_lt by done. cbn.
    f_equal. unfold node_aggregate, token_slots. cbn. rewrite F1.
    destruct (proj2 Hs i) as [->|[Hc _]]; [done|]. destruct Hni. by apply sort_dedup_elem.
  - intros p Hp. rewrite Vc. cbn. symmetry. eapply live_count_unchanged; [exact Hs|].
    intros i l ge Hi Hl Hge <-. apply Hp. apply elem_of_app. right. apply list_elem_of_bind.
    exists i. split; [|by apply sort_dedup_elem].
    destruct (repriced_all_pools _ _ _ _ _ (do_repriced _ _ _ Hdirty) Hl Hge) as (l' & ge' & Hl' & Hge' & Hp').
    apply list_elem_of_fmap. exists ge'. split; [done|]. unfold adj_at. cbn. by rewrite Hl'.
  - intros p. destruct Hok' as [_ _ _ _ _ Hex]. apply Hex.
Qed.
