(* ===== verification/GraphSteps.v ===== *)
(** * Histories of the routing graph

    Removal, attachment and the passes over many pools preserve the invariant of
    [GraphInv.v]; a graph reached by any sequence of the operations of
    [src/src/pipeline/graph.rs] satisfies it. *)
From stdpp Require Import gmap sorting relations.
From Corelib Require Import SpecFloat.
From S2P Require Import Prelude Word Types Profit Arena Realign LocalSim TokenRates FlashLiquidity.
From S2P Require Import CycleRank SpotPrice Graph Coverage GraphEdges GraphOps GraphInv.

(** ** Removal *)

Definition without (pool : PoolIndex) (l : list GraphEdge) : list GraphEdge :=
  filter (λ ge, pool_index (ge_edge ge) ≠ pool) l.

Lemma without_subnode pool l : subnode l (without pool l).
Proof. intros ge [_ Hge]%list_elem_of_filter. by exists ge. Qed.

Lemma without_shorter pool l x : x ∈ l → pool_index (ge_edge x) = pool → (length (without pool l) < length l)%nat.
Proof.
  intros Hx Hp. apply (length_filter_lt _ _ x); [done|]. intros Hn. by apply Hn.
Qed.

(** What the pass over the touched nodes does. *)
Record remove_spec (pool : PoolIndex) (ns : list nat) (adj adj' : list (list GraphEdge))
    (ch ch' : bool) (R R' : gset nat) : Prop := {
  rs_at i : adj' !! i = if decide (i ∈ ns) then without pool <$> adj !! i else adj !! i;
  rs_mono : R ⊆ R';
  rs_sticky : ch = true → ch' = true;
  rs_hit i l x : i ∈ ns → adj !! i = Some l → x ∈ l → pool_index (ge_edge x) = pool →
    ch' = true ∧ ∀ ge, ge ∈ l → pool_index (ge_edge ge) ≠ pool → ge_pool ge ∈ R';
}.

Lemma remove_step_spec pool i adj ch R :
  let '(adj', ch', R') := remove_step pool (adj, ch, R) i in remove_spec pool [i] adj adj' ch ch' R R'.
Proof.
  unfold remove_step. destruct (adj !! i) as [l|] eqn:Hl.
  - fold (without pool l). pose proof (lookup_lt_Some _ _ _ Hl).
    assert (∀ j, <[i:=without pool l]> adj !! j = if decide (j ∈ [i]) then without pool <$> adj !! j else adj !! j) as Hat.
    { intros j. destruct (decide (j ∈ [i])) as [->%list_elem_of_singleton|Hn].
      - by rewrite list_lookup_insert_eq, Hl.
      - apply list_lookup_insert_ne. intros ->. apply Hn. by apply list_elem_of_singleton. }
    destruct (Nat.eqb_spec (length (without pool l)) (length l)) as [E|E]; split; try done.
    + intros j l' x ->%list_elem_of_singleton Hl' Hx Hp. assert (l' = l) as -> by congruence.
      pose proof (without_shorter pool l x Hx Hp). lia.
    + set_solver.
    + intros j l' x ->%list_elem_of_singleton Hl' Hx Hp. assert (l' = l) as -> by congruence. split; [done|].
      intros ge Hge Hne. apply elem_of_union_l, elem_of_list_to_set, list_elem_of_fmap_2.
      by apply list_elem_of_filter.
  - split; try done.
    + intros j. destruct (decide (j ∈ [i])) as [->%list_elem_of_singleton|Hn]; [by rewrite Hl|done].
    + intros j l' x ->%list_elem_of_singleton Hl'. congruence.
Qed.

Lemma remove_fold_spec pool ns : NoDup ns → ∀ adj ch R,
  let '(adj', ch', R') := fold_left (remove_step pool) ns (adj, ch, R) in
  remove_spec pool ns adj adj' ch ch' R R'.
Proof.
  induction 1 as [|i ns Hi Hnd IH]; intros adj ch R; cbn [fold_left].
  { split; try done. by intros i l x ?%not_elem_of_nil. }
  pose proof (remove_step_spec pool i adj ch R) as H1.
  destruct (remove_step pool (adj, ch, R) i) as [[adj1 ch1] R1]. specialize (IH adj1 ch1 R1).
  destruct (fold_left _ ns _) as [[adj2 ch2] R2]. destruct H1 as [A1 M1 S1 T1], IH as [A2 M2 S2 T2]. split.
  - intros j. rewrite A2, A1. destruct (decide (j = i)) as [->|Hne].
    + rewrite (decide_False (P := i ∈ ns)) by done. rewrite !decide_True; [done|left|by apply list_elem_of_singleton].
    + rewrite (decide_False (P := j ∈ [i])) by (by rewrite list_elem_of_singleton).
      apply decide_ext. rewrite elem_of_cons. naive_solver.
  - by transitivity R1.
  - auto.
  - intros j l x [->|Hj]%elem_of_cons Hl Hx Hp.
    + destruct (T1 i l x) as [Hch HR]; [by apply list_elem_of_singleton|done..|].
      split; [by apply S2|]. intros ge Hge Hne. by apply M2, HR.
    + apply (T2 j l x); [done| |done..]. rewrite A1, decide_False; [done|].
      intros ->%list_elem_of_singleton. done.
Qed.

Lemma length_update_first {A} p f (l : list A) : length (update_first p f l) = length l.
Proof. induction l as [|x l IH]; cbn; [done|]. destruct (p x); cbn; congruence. Qed.

Lemma without_id pool l : (∀ ge, ge ∈ l → pool_index (ge_edge ge) ≠ pool) → without pool l = l.
Proof.
  intros Hl. unfold without. induction l as [|x l IH]; [done|]. rewrite filter_cons_True by (apply Hl; left).
  f_equal. apply IH. intros ge Hge. apply Hl. by right.
Qed.

Lemma placed_pool_nonneg g i l ge :
  struct_ok g → rg_adjacency g !! i = Some l → ge ∈ l → 0 ≤ pool_index (ge_edge ge).
Proof.
  intros Hok Hl Hge. destruct (proj1 (place_elem _ i l ge Hl) Hge) as [j Hj].
  exact (proj1 (go_placed _ Hok _ _ Hj)).
Qed.

(** With an exact index, the nodes that hold an edge of a pool are those the index names. *)
Lemma indexed_node g pool i l :
  struct_ok g → 0 ≤ pool → rg_adjacency g !! i = Some l →
  i ∈ (positions_at g (Z.to_nat pool)).*1 ↔ ∃ ge, ge ∈ l ∧ pool_index (ge_edge ge) = pool.
Proof.
  intros Hok Hp Hl. rewrite list_elem_of_fmap. split.
  - intros ([i' j] & Hi & Hat). cbn in Hi. subst i'. apply (go_exact _ Hok) in Hat as (ge & Hge & Hpool).
    assert (ge ∈ l) as Hin by (apply (place_elem _ i l ge Hl); by exists j). exists ge. split; [done|].
    pose proof (placed_pool_nonneg g i l ge Hok Hl Hin). unfold ge_pool in Hpool. lia.
  - intros (ge & Hge & Hpool). destruct (proj1 (place_elem _ i l ge Hl) Hge) as [j Hj]. exists (i, j).
    split; [done|]. apply (go_exact _ Hok). exists ge. split; [done|]. unfold ge_pool. by rewrite Hpool.
Qed.

Lemma indexed_in_range g pool i :
  struct_ok g → i ∈ (positions_at g pool).*1 → is_Some (rg_adjacency g !! i).
Proof.
  intros Hok (at_ & -> & Hat)%list_elem_of_fmap. apply (go_exact _ Hok) in Hat as (ge & Hge & _).
  apply place_node in Hge as (l & Hl & _). by eexists.
Qed.

Record removed (g g' : RoutingGraph) (pool : PoolIndex) : Prop := {
  rm_tc : rg_token_count g' = rg_token_count g;
  rm_hubs : hub_count g' = hub_count g;
  rm_v4 : rg_v4_singleton_hub g' = rg_v4_singleton_hub g;
  rm_at : rg_adjacency g' = without pool <$> rg_adjacency g;
  rm_index p : exact (rg_adjacency g') (rg_pool_edge_positions g') p;
  rm_view : positions_at g (Z.to_nat pool) ≠ [] → rg_base_view g' = None ∧ rg_coverage g' = None;
}.

Lemma remove_shape g pool :
  struct_ok g → 0 ≤ pool → removed g (remove_pool_edges_from_graph g pool) pool.
Proof.
  intros Hok Hp. unfold remove_pool_edges_from_graph.
  pose proof (λ i l, indexed_node g pool i l Hok Hp) as Hix. pose proof (indexed_in_range g (Z.to_nat pool)) as Hrange.
  destruct (decide (positions_at g (Z.to_nat pool) = [])) as [E|E].
  { split; try done; [|apply Hok]. apply list_eq. intros i. rewrite list_lookup_fmap.
    destruct (rg_adjacency g !! i) as [l|] eqn:Hl; [|done]. cbn. f_equal.
    symmetry. apply without_id. intros ge Hge Hpool. assert (i ∈ (positions_at g (Z.to_nat pool)).*1) as Hi.
    { apply (Hix i l Hl). by exists ge. } rewrite E in Hi. by apply not_elem_of_nil in Hi. }
  set (positions := positions_at g (Z.to_nat pool)) in *. set (ns := elements (list_to_set positions.*1 : gset nat)).
  assert (∀ i, i ∈ ns ↔ i ∈ positions.*1) as Hns by (intros i; unfold ns; by rewrite elem_of_elements, elem_of_list_to_set).
  pose proof (remove_fold_spec pool ns (NoDup_elements _) (rg_adjacency g) false {[ Z.to_nat pool ]}) as Hfold.
  destruct (fold_left _ ns _) as [[adj' ch'] R']. destruct Hfold as [Hat Hmono _ Hhit].
  assert (∀ i, i ∈ ns → ∃ l x, rg_adjacency g !! i = Some l ∧ x ∈ l ∧ pool_index (ge_edge x) = pool) as Hex.
  { intros i Hi%Hns. destruct (Hrange i Hok Hi) as [l Hl]. exists l.
    destruct (proj1 (Hix i l Hl) Hi) as (x & Hx & Hxp). by exists x. }
  assert (ch' = true) as ->.
  { destruct positions as [|at_ ps] eqn:Eps; [done|]. assert (at_.1 ∈ ns) as Hi by (apply Hns; left).
    destruct (Hex _ Hi) as (l & x & Hl & Hx & Hxp). by eapply Hhit. }
  assert (adj' = without pool <$> rg_adjacency g) as Hall.
  { apply list_eq. intros i. rewrite Hat, list_lookup_fmap. destruct (decide (i ∈ ns)) as [|Hn]; [done|].
    destruct (rg_adjacency g !! i) as [l|] eqn:Hl; [|done]. cbn. f_equal. symmetry. apply without_id.
    intros ge Hge Hpool. apply Hn, Hns, (Hix i l Hl). by exists ge. }
  cbn [negb]. set (g1 := set_hubs _ _ _).
  destruct (rebuild_frame g1 (elements R')) as ((F1 & F2 & F3) & _ & _).
  pose proof (rebuild_adjacency g1 (elements R')) as Fa.
  set (g2 := rebuild_pool_edge_positions_for_pools g1 (elements R')) in *.
  split; cbn; rewrite ?F1, ?F3, ?Fa; try done.
  - unfold hub_count. cbn. rewrite F2. cbn. by rewrite length_update_first.
  - assert (∀ p, exact adj' (rg_pool_edge_positions (rebuild_pool_edge_positions_for_pools (set_adjacency g adj') (elements R'))) p) as Hx.
    { eapply (reindex_exact g adj' _ (λ i, i ∈ ns)); [apply Hok| |].
      - split; [by rewrite Hall, length_fmap|]. intros i. rewrite Hat. destruct (decide (i ∈ ns)) as [Hi|]; [right|by left]. split; [done|].
        destruct (Hex _ Hi) as (l & _ & Hl & _). rewrite Hl. eexists _, _. split_and!; [done..|apply without_subnode].
      - intros i l ge Hi Hl Hge. apply elem_of_elements. destruct (Hex _ Hi) as (l' & x & Hl' & Hx & Hxp).
        assert (l' = l) as -> by congruence. destruct (decide (pool_index (ge_edge ge) = pool)) as [<-|Hne].
        + apply Hmono. unfold ge_pool. by apply elem_of_singleton.
        + by eapply Hhit. }
    intros p. eapply exact_ext; [|apply Hx]. f_equal. unfold g2.
    by rewrite (rebuild_positions_ext (set_adjacency g adj') g1).
Qed.

Lemma without_same_nodes pool adj : same_nodes adj (without pool <$> adj) (λ _, True).
Proof.
  split; [apply length_fmap|]. intros i. rewrite list_lookup_fmap. destruct (adj !! i) as [l|]; [right|by left].
  split; [done|]. eexists _, _. split_and!; [done..|apply without_subnode].
Qed.

Lemma remove_ok g pool : graph_ok g → 0 ≤ pool → graph_ok (remove_pool_edges_from_graph g pool).
Proof.
  intros [Hok Hv] Hp. destruct (decide (positions_at g (Z.to_nat pool) = [])) as [E|E].
  { unfold remove_pool_edges_from_graph. rewrite decide_True by done. by split. }
  destruct (remove_shape g pool Hok Hp) as [Htc Hhubs Hv4 Hat Hex Hview]. destruct (Hview E) as [Hn _].
  split; [|by intros v; rewrite Hn]. destruct Hok as [K1 K2 K3 K4 K5 _]. pose proof (without_same_nodes pool (rg_adjacency g)).
  split; rewrite ?Htc, ?Hhubs, ?Hv4; try done; rewrite Hat.
  - by rewrite length_fmap.
  - by eapply same_nodes_placed.
  - by eapply same_nodes_pure.
Qed.

(** ** Attachment *)

(** The meta and the arena name tokens of the arena. *)
Definition names_tokens (arena : StateArena) (meta : PoolMeta) : Prop :=
  tokens_below (arena_token_count arena) arena meta.

Lemma tokens_below_mono tc tc' arena meta : tc ≤ tc' → tokens_below tc arena meta → tokens_below tc' arena meta.
Proof.
  intros Hle (H1 & H2 & H3). split_and!; [|done|].
  - eapply Forall_impl; [exact H1|]. cbn. lia.
  - eapply map_Forall_impl; [exact H3|]. cbn. lia.
Qed.

Section passes.
Context (ln_f64 : f64 → f64) (now : Z).

Lemma attach_fresh_ok g arena meta gate g' b :
  graph_ok g → names_tokens arena meta → attach_fresh now g arena meta gate = Done (g', b) → graph_ok g'.
Proof.
  intros Hok Hm. unfold attach_fresh. destruct (pool_state _ _) as [state|]; [|by intros [= <- <-]%Done_inj].
  destruct (negb (is_tradable state)); [by intros [= <- <-]%Done_inj|].
  destruct (pool_has_admissible_edges _ _ _ _) as [adm|]; [|done]. cbn [obind].
  destruct (negb adm); [by intros [= <- <-]%Done_inj|].
  pose proof (ensure_token_capacity_ok g (arena_token_count arena) Hok) as Hok1.
  destruct (attach_edges _ arena meta state) as [g2|] eqn:Hg2; intros [= <- <-]%Done_inj; [|done].
  eapply attach_edges_ok; [exact Hok1| |exact Hg2].
  eapply tokens_below_mono; [|exact Hm]. rewrite ensure_token_capacity_tc. lia.
Qed.

Lemma attach_pool_ok g arena meta gate g' b :
  graph_ok g → names_tokens arena meta → attach_pool_to_graph now g arena meta gate = Done (g', b) → graph_ok g'.
Proof.
  intros Hok Hm. unfold attach_pool_to_graph. destruct (pool_has_live_edges _ _).
  - destruct (pool_direct_edges_match_meta _ _ _); [by intros [= <- <-]%Done_inj|].
    apply attach_fresh_ok; [|done]. apply remove_ok; [done|]. apply Hm.
  - destruct (pool_has_edges _ _); [by intros [= <- <-]%Done_inj|]. by apply attach_fresh_ok.
Qed.

Lemma build_graph_ok arena pools gate g :
  Forall (names_tokens arena) pools → build_graph_with_gate ln_f64 now arena pools gate = Done g → graph_ok g.
Proof.
  intros Hm. unfold build_graph_with_gate. destruct (ofold _ pools _) as [g1|] eqn:Hg1; [|done]. cbn [obind].
  assert (graph_ok g1) as [Hok _].
  { eapply (ofold_inv graph_ok); [| |exact Hg1].
    - intros s meta s' Hin Hs. cbn beta. destruct (attach_pool_to_graph now s arena meta gate) as [[g2 b]|] eqn:Ha; cbn [obind]; [|done].
      intros [= <-]%Done_inj. eapply attach_pool_ok; [done| |done]. rewrite Forall_forall in Hm. by apply Hm.
    - apply graph_new_ok. unfold arena_token_count. lia. }
  unfold finalize_graph_topology. destruct (rescore_graph_in_place _ _ _)  as [g2|] eqn:Hg2; [|done]. cbn [obind].
  intros <-%Done_inj. apply refresh_coverage_ok. by eapply rescore_graph_ok.
Qed.

Lemma try_attach_ok arena gate st meta st' :
  graph_ok st.1 → names_tokens arena meta → try_attach_missing_pool now arena gate st meta = Done st' → graph_ok st'.1.
Proof.
  destruct st as [g attached]. intros Hok Hm. unfold try_attach_missing_pool.
  destruct (_ <=? _)%nat; [by intros <-%Done_inj|]. destruct (negb _); [by intros <-%Done_inj|].
  assert (∀ g, graph_ok g → (let! r := attach_pool_to_graph now g arena meta gate in
      Done (r.1, if r.2 : bool then attached ++ [pm_pool_index meta] else attached)) = Done st' → graph_ok st'.1) as Ha.
  { intros g1 Hg1. destruct (attach_pool_to_graph now g1 arena meta gate) as [[g2 b]|] eqn:Hat; [|done]. cbn [obind].
    intros <-%Done_inj. by eapply attach_pool_ok. }
  destruct (_ && _)%bool; [apply Ha, remove_ok; [done|apply Hm]|].
  destruct (pool_has_live_edges _ _); [by intros <-%Done_inj|].
  destruct (pool_has_edges _ _); [by intros <-%Done_inj|]. by apply Ha.
Qed.

Lemma attach_pass_ok arena pools gate st prefer st' :
  graph_ok st.1 → Forall (names_tokens arena) pools → attach_pass now arena pools gate st prefer = Done st' → graph_ok st'.1.
Proof.
  intros Hok Hm Hst. eapply (ofold_inv (λ st, graph_ok st.1)); [|exact Hok|exact Hst]. cbn. clear Hst.
  intros s meta s' Hin Hs. destruct (_ <=? _)%nat; [by intros <-%Done_inj|].
  destruct (negb _); [by intros <-%Done_inj|]. rewrite Forall_forall in Hm. intros Ht.
  eapply try_attach_ok; [exact Hs| |exact Ht]. by apply Hm.
Qed.

Lemma attach_missing_ok arena g pools gate g' report :
  graph_ok g → Forall (names_tokens arena) pools →
  attach_missing_eligible_pools_with_gate ln_f64 now arena g pools gate = Done (g', report) → graph_ok g'.
Proof.
  intros Hok Hm. unfold attach_missing_eligible_pools_with_gate.
  destruct (ofold (attach_pass now arena pools gate) _ _) as [st|] eqn:Hst; [|done]. cbn [obind].
  assert (graph_ok st.1) as Hs.
  { eapply (ofold_inv (λ st, graph_ok st.1)); [| |exact Hst].
    - intros s prefer s' _ Hs1 Hs2. by eapply attach_pass_ok.
    - by apply ensure_token_capacity_ok. }
  destruct (if decide _ then _ else _) as [g1|] eqn:Hg1; [|done]. cbn [obind].
  destruct (if (_ <=? _)%nat then _ else _) as [missing|]; [|done]. cbn [obind]. intros [= <- _]%Done_inj.
  destruct (decide (st.2 = [])); [by apply Done_inj in Hg1 as <-|].
  destruct (rescore_pools_in_place _ _ _ _) as [[g2 n2]|] eqn:Hg2; [|done]. cbn [obind] in Hg1.
  apply Done_inj in Hg1 as <-. apply refresh_coverage_ok. by eapply rescore_pools_ok.
Qed.
End passes.
