(* ===== verification/GraphClaims.v ===== *)
(** * What the routing graph guarantees

    Thinning, full rescoring, the index queries, the cached counts and removal, stated
    over every graph the operations of [src/src/pipeline/graph.rs] can reach. *)
From stdpp Require Import gmap sorting relations.
From Corelib Require Import SpecFloat.
From S2P Require Import Prelude Word Types Profit Arena Realign LocalSim TokenRates FlashLiquidity.
From S2P Require Import CycleRank SpotPrice Graph Coverage GraphEdges GraphOps GraphInv GraphSteps.

(** ** Thinning *)

#[export] Instance parallel_total : TotalCmp compare_parallel.
Proof.
  apply (total_of_key _ (λ ge, [token_out (ge_edge ge); protocol_u8 (protocol (ge_edge ge)); - ge_ratio ge;
                                 pool_index (ge_edge ge)])).
  intros a b. unfold compare_parallel. cbn [lex]. rewrite compare_opp. unfold then_with.
  by destruct (pool_index (ge_edge a) ?= pool_index (ge_edge b)).
Qed.

Definition key_le (a b : Z * Z) : Prop := a.1 < b.1 ∨ (a.1 = b.1 ∧ a.2 ≤ b.2).

Lemma parallel_key_le a b : cmp_le compare_parallel a b → key_le (parallel_key a) (parallel_key b).
Proof.
  unfold cmp_le, compare_parallel, then_with, key_le, parallel_key. cbn [fst snd].
  destruct (Z.compare_spec (token_out (ge_edge a)) (token_out (ge_edge b))); [|by left|done].
  destruct (Z.compare_spec (protocol_u8 (protocol (ge_edge a))) (protocol_u8 (protocol (ge_edge b))));
    [right; lia..|done].
Qed.

Abbreviation of_key κ l := (filter (λ ge, parallel_key ge = κ) l).

Lemma filter_to_nil {A} (P : A → Prop) `{∀ x, Decision (P x)} (l : list A) :
  (∀ x, x ∈ l → ¬ P x) → filter P l = [].
Proof.
  intros Hn. induction l as [|x l IH]; [done|]. rewrite filter_cons_False by (apply Hn; left).
  apply IH. intros y Hy. apply Hn. by right.
Qed.

(** Of each run of equal keys the loop keeps the first [k], less the [n] it already has. *)
Lemma thin_loop_group k κ live : ∀ key n,
  StronglySorted (λ a b, key_le (parallel_key a) (parallel_key b)) live →
  n = 0%nat ∨ Forall (λ ge, key_le key (parallel_key ge)) live → (n ≤ k)%nat →
  of_key κ (thin_loop k key n live).1 = take (if decide (κ = key) then k - n else k)%nat (of_key κ live).
Proof.
  induction live as [|e live IH]; intros key n Hs Hn Hk; [by rewrite !filter_nil, take_nil|].
  apply StronglySorted_inv in Hs as [Hs He]. cbn [thin_loop].
  set (m := if decide (parallel_key e = key) then n else 0%nat).
  assert (m ≤ k)%nat as Hm by (unfold m; destruct (decide _); lia).
  assert (κ = key → parallel_key e ≠ key → n = 0%nat ∨ of_key κ live = []) as Hpast.
  { intros -> Hne. destruct Hn as [|Hn]; [by left|right]. apply Forall_cons in Hn as [Hke _].
    apply filter_to_nil. intros x Hx. rewrite Forall_forall in He. specialize (He _ Hx).
    intros E. apply Hne. unfold key_le in *. destruct (parallel_key e), (parallel_key x), key. cbn in *.
    simplify_eq. f_equal; lia. }
  rewrite filter_cons. destruct (Nat.ltb_spec m k) as [Hlt|Hge].
  - specialize (IH (parallel_key e) (S m) Hs (or_intror He) Hlt).
    destruct (thin_loop k (parallel_key e) (S m) live) as [r s]. cbn [fst] in *. rewrite filter_cons.
    destruct (decide (parallel_key e = κ)) as [<-|Hne].
    + rewrite IH, decide_True by done. unfold m in *. destruct (decide (parallel_key e = key)).
      * destruct (k - n)%nat as [|j] eqn:Ej; [lia|]. cbn. do 2 f_equal. lia.
      * destruct k as [|j]; [lia|]. cbn. do 2 f_equal. lia.
    + rewrite IH, decide_False by congruence. unfold m in *. destruct (decide (κ = key)) as [->|]; [|done].
      destruct (Hpast eq_refl) as [->| ->]; [congruence|by rewrite Nat.sub_0_r|by rewrite !take_nil].
  - specialize (IH (parallel_key e) m Hs (or_intror He) Hm).
    destruct (thin_loop k (parallel_key e) m live) as [r s]. cbn [fst] in *. rewrite IH.
    destruct (decide (parallel_key e = κ)) as [<-|Hne].
    + rewrite decide_True by done. unfold m in *. destruct (decide (parallel_key e = key)).
      * by replace (k - n)%nat with 0%nat by lia.
      * by replace k with 0%nat by lia.
    + rewrite decide_False by congruence. unfold m in *. destruct (decide (κ = key)) as [->|]; [|done].
      destruct (Hpast eq_refl) as [->| ->]; [congruence|by rewrite Nat.sub_0_r|by rewrite !take_nil].
Qed.

(** The live direct edges to one token through one protocol. *)
Definition parallel_group (κ : Z * Z) (l : list GraphEdge) : list GraphEdge :=
  filter (λ ge, is_direct ge = true ∧ is_live_graph_edge ge = true ∧ parallel_key ge = κ) l.

Lemma parallel_group_app κ l l' : parallel_group κ (l ++ l') = parallel_group κ l ++ parallel_group κ l'.
Proof. apply filter_app. Qed.

Lemma parallel_group_none κ l :
  (∀ ge, ge ∈ l → is_direct ge = false ∨ is_live_graph_edge ge = false) → parallel_group κ l = [].
Proof. intros Hl. apply filter_to_nil. intros ge Hge (Hd & Hv & _). destruct (Hl _ Hge); congruence. Qed.

Lemma parallel_group_live κ l :
  (∀ ge, ge ∈ l → is_direct ge = true ∧ is_live_graph_edge ge = true) → parallel_group κ l = of_key κ l.
Proof.
  intros Hl. unfold parallel_group. induction l as [|x l IH]; [done|].
  destruct (Hl x) as [Hd Hv]; [left|]. rewrite !filter_cons, IH by (intros ge Hge; apply Hl; by right).
  repeat case_decide; naive_solver.
Qed.

Lemma StronglySorted_impl {A} (R R' : relation A) l :
  (∀ a b, R a b → R' a b) → StronglySorted R l → StronglySorted R' l.
Proof. intros Himp. induction 1; constructor; [done|]. eapply Forall_impl; [done|]. intros b. apply Himp. Qed.

Lemma StronglySorted_filter {A} (R : relation A) (P : A → Prop) `{∀ x, Decision (P x)} l :
  StronglySorted R l → StronglySorted R (filter P l).
Proof.
  induction 1 as [|x l Hs IH Hx]; [constructor|]. rewrite filter_cons. destruct (decide (P x)); [|done].
  constructor; [done|]. rewrite Forall_forall in *. intros y [_ Hy]%list_elem_of_filter. by apply Hx.
Qed.

Lemma thin_loop_elem k : ∀ live key n ge,
  (ge ∈ (thin_loop k key n live).1 → ge ∈ live) ∧
  (ge ∈ (thin_loop k key n live).2 → ∃ x, x ∈ live ∧ ge = dead_stub x).
Proof.
  induction live as [|e live IH]; intros key n ge; [by split; intros ?%not_elem_of_nil|]. cbn [thin_loop].
  destruct (_ <? k)%nat.
  - specialize (IH (parallel_key e) (S (if decide (parallel_key e = key) then n else 0%nat)) ge).
    destruct (thin_loop _ _ _ live) as [r s]. cbn in *. destruct IH as [H1 H2]. split.
    + intros [->|Hr]%elem_of_cons; [left|right; auto].
    + intros Hs. destruct (H2 Hs) as (x & ? & ?). exists x. split; [by right|done].
  - specialize (IH (parallel_key e) (if decide (parallel_key e = key) then n else 0%nat) ge).
    destruct (thin_loop _ _ _ live) as [r s]. cbn in *. destruct IH as [H1 H2]. split.
    + intros Hr. right; auto.
    + intros [->|Hs]%elem_of_cons; [exists e; split; [left|done]|].
      destruct (H2 Hs) as (x & ? & ?). exists x. split; [by right|done].
Qed.

Lemma dead_stub_not_live ge : is_direct ge = true → is_live_graph_edge (dead_stub ge) = false.
Proof.
  unfold is_direct. rewrite bool_decide_eq_true. intros Hd. unfold is_live_graph_edge, dead_stub, with_price. cbn.
  by rewrite Hd.
Qed.

Lemma thin_group_spec adj k κ : (0 < k)%nat →
  ∃ s, s ≡ₚ parallel_group κ adj ∧ StronglySorted (cmp_le compare_parallel) s ∧
    parallel_group κ (thin_parallel_edges_in_place adj k).1 ≡ₚ take k s.
Proof.
  intros Hk. unfold thin_parallel_edges_in_place. cbn [fst].
  set (direct := filter (λ ge, is_direct ge = true) adj). set (hub := filter (λ ge, is_direct ge = false) adj).
  set (live := filter _ direct). set (stubs := filter (λ ge, is_live_graph_edge ge = false) direct).
  assert (∀ ge, ge ∈ live → is_direct ge = true ∧ is_live_graph_edge ge = true) as Hlive
    by (intros ge [? [? _]%list_elem_of_filter]%list_elem_of_filter; done).
  assert (parallel_group κ stubs = [] ∧ parallel_group κ hub = []) as [Hst Hhub].
  { split; apply parallel_group_none; intros ge [? _]%list_elem_of_filter; auto. }
  assert (parallel_group κ live ≡ₚ parallel_group κ adj) as Hgroup.
  { transitivity (parallel_group κ (live ++ stubs ++ hub)).
    - by rewrite !parallel_group_app, Hst, Hhub, !app_nil_r.
    - apply filter_Permutation. rewrite app_assoc. unfold live, stubs. rewrite (filter_split is_live_graph_edge).
      apply filter_split. }
  set (s := sort_by compare_parallel (parallel_group κ live)).
  assert (s ≡ₚ parallel_group κ adj) as Hs by (unfold s; by rewrite sort_by_perm).
  rewrite (proj2 (Nat.eqb_neq k 0)) by lia. destruct (Nat.leb_spec (length live) k) as [Hle|Hgt].
  - exists s. split_and!; [done|apply sort_by_sorted, _|].
    rewrite !parallel_group_app, Hst, Hhub, !app_nil_r, Hgroup. rewrite take_ge; [by symmetry|].
    unfold s. rewrite sort_by_perm. unfold parallel_group. rewrite <- Hle. apply length_filter.
  - clear s Hs. set (l := sort_by compare_parallel live).
    assert (∀ ge, ge ∈ l → is_direct ge = true ∧ is_live_graph_edge ge = true) as Hl
      by (intros ge Hge%elem_of_sort_by; by apply Hlive).
    assert (StronglySorted (cmp_le compare_parallel) l) as Hsort by apply sort_by_sorted, _.
    pose proof (thin_loop_group k κ l (2 ^ 32 - 1, 255) 0) as Hg.
    pose proof (thin_loop_elem k l (2 ^ 32 - 1, 255) 0) as Hin.
    destruct (thin_loop k (2 ^ 32 - 1, 255) 0 l) as [r d]. cbn [fst snd] in *.
    exists (of_key κ l). split_and!.
    + rewrite <- Hgroup, <- (parallel_group_live κ l) by done. apply filter_Permutation, sort_by_perm.
    + by apply StronglySorted_filter.
    + rewrite !parallel_group_app, Hst, Hhub, (parallel_group_none κ d), !app_nil_r.
      * rewrite (parallel_group_live κ r), Hg; [by rewrite Nat.sub_0_r; destruct (decide _)| |by left|lia|].
        -- eapply StronglySorted_impl; [exact parallel_key_le|done].
        -- intros ge Hge. apply Hl. by apply Hin.
      * intros ge Hge. destruct (proj2 (Hin ge) Hge) as (x & Hx & ->). right. apply dead_stub_not_live. by apply Hl.
Qed.

(** C24: Thinning a node leaves, of the live direct edges to each token through each protocol,
    the two of highest ratio; the others stay in the list with a zero price, so no edge is
    ever removed and the removal flag is never raised. *)
Theorem thin_keeps_best adj :
  let '(adj', removed) := thin_parallel_edges_in_place adj MAX_PARALLEL_EDGES_PER_PAIR in
  removed = false ∧ unpriced <$> adj' ≡ₚ unpriced <$> adj ∧
  ∀ κ, ∃ s, s ≡ₚ parallel_group κ adj ∧ StronglySorted (cmp_le compare_parallel) s ∧
    parallel_group κ adj' ≡ₚ take 2 s.
Proof.
  pose proof (thin_never_removes adj MAX_PARALLEL_EDGES_PER_PAIR) as H1.
  pose proof (thin_unpriced adj MAX_PARALLEL_EDGES_PER_PAIR) as H2.
  pose proof (λ κ, thin_group_spec adj MAX_PARALLEL_EDGES_PER_PAIR κ ltac:(unfold MAX_PARALLEL_EDGES_PER_PAIR; lia)) as H3.
  destruct (thin_parallel_edges_in_place _ _) as [adj' removed]. split_and!; [done..|]. exact H3.
Qed.

Lemma thin_elem adj k ge : ge ∈ (thin_parallel_edges_in_place adj k).1 →
  ge ∈ adj ∨ ∃ x, x ∈ adj ∧ is_direct x = true ∧ ge = dead_stub x.
Proof.
  unfold thin_parallel_edges_in_place. cbn [fst].
  set (direct := filter (λ ge, is_direct ge = true) adj). set (hub := filter (λ ge, is_direct ge = false) adj).
  set (live := filter _ direct). set (stubs := filter (λ ge, is_live_graph_edge ge = false) direct).
  assert (∀ x, x ∈ live → x ∈ adj ∧ is_direct x = true) as Hlive
    by (intros x [_ [Hd Hx]%list_elem_of_filter]%list_elem_of_filter; done).
  assert (∀ x, x ∈ stubs → x ∈ adj) as Hst by (intros x [_ [_ Hx]%list_elem_of_filter]%list_elem_of_filter; done).
  assert (∀ x, x ∈ hub → x ∈ adj) as Hhub by (intros x [_ Hx]%list_elem_of_filter; done).
  assert (ge ∈ live ++ stubs ++ hub → ge ∈ adj) as Hall.
  { rewrite !elem_of_app. intros [H|[H|H]]; [by apply Hlive|by apply Hst|by apply Hhub]. }
  destruct (_ =? 0)%nat; [by intros ?; left; apply Hall|]. destruct (_ <=? k)%nat; [by intros ?; left; apply Hall|].
  pose proof (thin_loop_elem k (sort_by compare_parallel live) (2 ^ 32 - 1, 255) 0 ge) as [Hr Hd].
  destruct (thin_loop _ _ _ _) as [r d]. cbn [fst snd] in *. rewrite !elem_of_app.
  intros [H|[[H|H]|H]]; [left|left|right|left].
  - apply Hlive. apply (elem_of_sort_by compare_parallel). by apply Hr.
  - by apply Hst.
  - destruct (Hd H) as (x & Hx%elem_of_sort_by & ->). exists x. destruct (Hlive x Hx). done.
  - by apply Hhub.
Qed.

(** ** Full rescoring *)

Section sound.
Context (ln_f64 : f64 → f64).

(** The price of an edge is the one its own pool state gives, or none. *)
Definition well_priced (arena : StateArena) (ge : GraphEdge) : Prop :=
  match ge_phase ge with
  | EnterPool | ExitPool => ge_log_weight ge = f_zero ∧ ge_ratio ge = ONE
  | Direct =>
      ge_ratio ge = 0 ∧ ge_log_weight ge = DEAD_EDGE_LOG_WEIGHT ∨
      ge_ratio ge ≠ 0 ∧ compute_edge_ratio arena (ge_edge ge) = Done (ge_ratio ge) ∧
      ge_log_weight ge = priced_log_weight ln_f64 (ge_ratio ge) (fee_bps (ge_edge ge)) ∧
      ∃ state, pool_state arena (pool_index (ge_edge ge)) = Some state ∧
        hop_pair_routable state (Z.to_nat (token_in_idx (ge_edge ge))) (Z.to_nat (token_out_idx (ge_edge ge))) = true
  end.

Lemma dead_stub_priced arena ge : is_direct ge = true → well_priced arena (dead_stub ge).
Proof.
  unfold is_direct. rewrite bool_decide_eq_true. intros Hd. unfold well_priced, dead_stub, with_price. cbn.
  rewrite Hd. by left.
Qed.

Lemma heal_keeps_pool arena e state e' : healed_graph_edge arena e state = Some e' → pool_index e' = pool_index e.
Proof.
  unfold healed_graph_edge. intros H.
  assert (∀ e, pool_index (apply_cl_zero_for_one arena (sync_edge_fee_bps_from_state e state)) = pool_index e) as Hk.
  { intros x. rewrite (proj1 (apply_cl_frame arena _)). unfold sync_edge_fee_bps_from_state. repeat case_match; done. }
  destruct (protocol_matches_pool_state (protocol e) state); [injection H as <-; apply Hk|].
  destruct (_ || _)%bool; [done|]. injection H as <-. apply (Hk (set_protocol e _)).
Qed.

Lemma rescore_edge_priced arena ge ge' : rescore_graph_edge ln_f64 arena ge = Done ge' → well_priced arena ge'.
Proof.
  unfold rescore_graph_edge. destruct (ge_phase ge) eqn:Hph.
  2,3: intros <-%Done_inj; unfold well_priced; cbn; by rewrite Hph.
  assert (is_direct ge = true) as Hd by (unfold is_direct; by rewrite bool_decide_eq_true).
  destruct (pool_state _ _) as [state|] eqn:Hst; [|intros <-%Done_inj; by apply dead_stub_priced].
  destruct (healed_graph_edge _ _ _) as [e|] eqn:He; [|intros <-%Done_inj; by apply dead_stub_priced].
  apply heal_keeps_pool in He.
  destruct (hop_pair_routable _ _ _) eqn:Hr; cbn [negb]; [|intros <-%Done_inj; by apply dead_stub_priced].
  destruct (compute_edge_ratio _ _) as [r|] eqn:Hc; cbn [obind]; [|done].
  unfold is_zero. destruct (Z.eqb_spec r 0) as [|Hne]; intros <-%Done_inj; [by apply dead_stub_priced|].
  unfold well_priced. cbn. rewrite Hph. right. split_and!; [done..|]. exists state. by rewrite He.
Qed.

Lemma rescore_adjacency_priced arena adj adj' at_ ge :
  rescore_adjacency ln_f64 arena adj = Done adj' → place adj' at_ = Some ge → well_priced arena ge.
Proof.
  intros Ha Hge. apply omapM_Forall2 in Ha. destruct at_ as [i j].
  unfold place in Hge. cbn in Hge. destruct (adj' !! i) as [l'|] eqn:Hl'; [|done].
  destruct (Forall2_lookup_r _ _ _ _ _ Ha Hl') as (l & _ & Hl). apply omapM_Forall2 in Hl.
  destruct (Forall2_lookup_r _ _ _ _ _ Hl Hge) as (x & _ & Hx). by eapply rescore_edge_priced.
Qed.

Lemma compacted_elem slots tc i l ge : ge ∈ compacted slots tc i l →
  ge ∈ l ∨ ∃ x, x ∈ l ∧ is_direct x = true ∧ ge = dead_stub x.
Proof.
  unfold compacted, compact_node. repeat case_decide; [|by left|destruct slots; [by left|]].
  - rewrite sort_adjacency_perm. apply thin_elem.
  - rewrite sort_adjacency_perm. by left.
Qed.

Abbreviation by_weight := (λ a b : GraphEdge, total_cmp (ge_log_weight a) (ge_log_weight b)).

#[local] Instance by_weight_total : TotalCmp by_weight.
Proof.
  apply (total_of_key _ (λ ge, [f64_order (ge_log_weight ge)])). intros a b. cbn [lex]. unfold total_cmp.
  by destruct (_ ?= _).
Qed.

Lemma compacted_sorted tc i l : StronglySorted (cmp_le by_weight) (compacted None tc i l).
Proof.
  unfold compacted, compact_node. cbn [selected_slot]. rewrite (decide_True (P := True)) by done.
  destruct (decide _); apply (sort_by_sorted by_weight).
Qed.

Lemma rescored_edge_priced arena g g' at_ ge :
  rescore_graph_in_place ln_f64 arena g = Done g' → edge_at g' at_ = Some ge → well_priced arena ge.
Proof.
  unfold rescore_graph_in_place. destruct (rescore_adjacency _ _ _) as [adj|] eqn:Ha; [|done]. cbn [obind].
  intros <-%Done_inj. destruct (compact_shape (set_adjacency g adj) None) as (_ & _ & Hat & _).
  set (g1 := compact_token_adjacency (set_adjacency g adj) None) in *. destruct at_ as [i j]. intros Hge.
  change (place (rg_adjacency g1) (i, j) = Some ge) in Hge. apply place_node in Hge as (l' & Hl' & Hin).
  cbn [fst] in Hl'. rewrite Hat in Hl'. cbn [rg_adjacency set_adjacency] in Hl'.
  destruct (adj !! i) as [l|] eqn:Hl; [|done]. injection Hl' as <-.
  destruct (compacted_elem _ _ _ _ _ Hin) as [Hx|(x & _ & Hd & ->)]; [|by apply dead_stub_priced].
  destruct (proj1 (place_elem _ i l ge Hl) Hx) as [k Hk]. by eapply rescore_adjacency_priced.
Qed.

(** C21: After a full rescore every edge is priced from the state of its own pool or dead, each
    node's list is in order of weight, a token node keeps at most two live direct edges to
    a token through a protocol, and no node has lost an edge. *)
Theorem rescore_graph_sound arena g g' :
  rescore_graph_in_place ln_f64 arena g = Done g' →
  (∀ at_ ge, edge_at g' at_ = Some ge → well_priced arena ge) ∧
  (∀ i, StronglySorted (cmp_le by_weight) (adj_at g' i)) ∧
  (∀ i κ, (i < token_slots g)%nat → (length (parallel_group κ (adj_at g' i)) ≤ 2)%nat) ∧
  (∀ i, length (adj_at g' i) = length (adj_at g i)).
Proof.
  intros Hg. pose proof (λ at_ ge, rescored_edge_priced arena g g' at_ ge Hg) as Hpriced. revert Hg Hpriced.
  unfold rescore_graph_in_place. destruct (rescore_adjacency _ _ _) as [adj|] eqn:Ha; [|done]. cbn [obind].
  intros <-%Done_inj Hpriced. destruct (compact_shape (set_adjacency g adj) None) as (_ & _ & Hat & _).
  set (g1 := compact_token_adjacency (set_adjacency g adj) None) in *.
  change (token_slots (set_adjacency g adj)) with (token_slots g) in Hat. cbn [rg_adjacency set_adjacency] in Hat.
  assert (∀ i, adj_at g1 i = default [] (compacted None (token_slots g) i <$> adj !! i)) as Hadj
    by (intros i; unfold adj_at; by rewrite Hat).
  split_and!.
  - exact Hpriced.
  - intros i. change (adj_at _ i) with (adj_at g1 i). rewrite Hadj.
    destruct (adj !! i); cbn; [apply compacted_sorted|constructor].
  - intros i κ Hi. change (adj_at _ i) with (adj_at g1 i). rewrite Hadj. destruct (adj !! i) as [l|]; cbn; [|lia].
    unfold compacted. rewrite !decide_True by done. unfold compact_node.
    rewrite (filter_Permutation _ _ _ (sort_adjacency_perm _)).
    destruct (thin_group_spec l MAX_PARALLEL_EDGES_PER_PAIR κ) as (s & _ & _ & Hs); [unfold MAX_PARALLEL_EDGES_PER_PAIR; lia|].
    fold (parallel_group κ (thin_parallel_edges_in_place l MAX_PARALLEL_EDGES_PER_PAIR).1). rewrite Hs.
    rewrite length_take. unfold MAX_PARALLEL_EDGES_PER_PAIR. lia.
  - intros i. change (adj_at (rebuild_base_view g1) i) with (adj_at g1 i). rewrite Hadj.
    apply rescore_adjacency_repriced in Ha. unfold adj_at.
    destruct (rg_adjacency g !! i) as [l|] eqn:Hl.
    + destruct (Forall2_lookup_l _ _ _ _ _ Ha Hl) as (l' & -> & Hll). cbn.
      rewrite <- (length_fmap unpriced), (Permutation_length (compacted_unpriced _ _ _ _)), length_fmap.
      symmetry. by eapply Forall2_length.
    + apply lookup_ge_None in Hl. rewrite (lookup_ge_None_2 adj); [done|].
      rewrite <- (Forall2_length _ _ _ Ha). done.
Qed.
End sound.

(** ** Histories *)

Section histories.
Context (ln_f64 : f64 → f64).

(** What the rest of the program does to a graph, at any time and for any arena. *)
Inductive graph_step : RoutingGraph → RoutingGraph → Prop :=
| step_attach now g arena meta gate g' b :
    names_tokens arena meta → attach_pool_to_graph now g arena meta gate = Done (g', b) → graph_step g g'
| step_attach_missing now g arena pools gate g' report :
    Forall (names_tokens arena) pools →
    attach_missing_eligible_pools_with_gate ln_f64 now arena g pools gate = Done (g', report) → graph_step g g'
| step_remove g pool : 0 ≤ pool → graph_step g (remove_pool_edges_from_graph g pool)
| step_rescore g arena g' : rescore_graph_in_place ln_f64 arena g = Done g' → graph_step g g'
| step_rescore_dirty g arena dirty n g' report :
    rescore_dirty_pools_or_full ln_f64 arena g dirty n = Done (g', report) → graph_step g g'
| step_rescore_pools g arena pools g' n :
    rescore_pools_in_place ln_f64 arena g pools = Done (g', n) → graph_step g g'
| step_finalize g arena g' : finalize_graph_topology ln_f64 arena g = Done g' → graph_step g g'
| step_coverage g : graph_step g (refresh_graph_cycle_coverage g)
| step_capacity g tc : graph_step g (ensure_token_capacity g tc).

Lemma finalize_ok arena g g' : graph_ok g → finalize_graph_topology ln_f64 arena g = Done g' → graph_ok g'.
Proof.
  intros [Hok _]. unfold finalize_graph_topology. destruct (rescore_graph_in_place _ _ _) as [g2|] eqn:Hg2; [|done].
  cbn [obind]. intros <-%Done_inj. apply refresh_coverage_ok. by eapply rescore_graph_ok.
Qed.

Lemma rescore_dirty_ok arena g dirty n g' report :
  graph_ok g → rescore_dirty_pools_or_full ln_f64 arena g dirty n = Done (g', report) → graph_ok g'.
Proof.
  intros Hok. unfold rescore_dirty_pools_or_full. destruct (decide _); [by intros [= <- _]%Done_inj|].
  destruct (_ <? _)%nat.
  - destruct (rescore_graph_in_place _ _ _) as [g2|] eqn:Hg2; [|done]. cbn [obind].
    intros [= <- _]%Done_inj. eapply rescore_graph_ok; [apply Hok|done].
  - destruct (rescore_pools_in_place _ _ _ _) as [[g2 m]|] eqn:Hg2; [|done]. cbn [obind].
    intros [= <- _]%Done_inj. by eapply rescore_pools_ok.
Qed.

Lemma graph_step_ok g g' : graph_step g g' → graph_ok g → graph_ok g'.
Proof.
  destruct 1; intros Hok.
  - by eapply attach_pool_ok.
  - by eapply attach_missing_ok.
  - by apply remove_ok.
  - eapply rescore_graph_ok; [apply Hok|done].
  - by eapply rescore_dirty_ok.
  - by eapply rescore_pools_ok.
  - by eapply finalize_ok.
  - by apply refresh_coverage_ok.
  - by apply ensure_token_capacity_ok.
Qed.

(** A graph the program can have: empty at first, then changed by the operations. *)
Definition reachable (g : RoutingGraph) : Prop := ∃ tc, 0 ≤ tc ∧ rtc graph_step (graph_new tc) g.

Lemma reachable_ok g : reachable g → graph_ok g.
Proof.
  intros (tc & Htc & Hr). pose proof (graph_new_ok tc Htc) as H0.
  induction Hr as [|x y z Hxy _ IH]; [done|]. apply IH. by eapply graph_step_ok.
Qed.

(** C20: Every edge of a reachable graph sits where its phase demands: direct and enter edges at
    the node of their input token, exit edges at a hub, and each points to a node of the
    right region; the lists are exactly the tokens and the hubs. *)
Theorem reachable_graph_typed g :
  reachable g →
  Z.of_nat (length (rg_adjacency g)) = rg_token_count g + hub_count g ∧
  (∀ h, rg_v4_singleton_hub g = Some h → rg_token_count g ≤ h < rg_token_count g + hub_count g) ∧
  (∀ at_ ge, edge_at g at_ = Some ge → edge_placed (rg_token_count g) (hub_count g) at_.1 ge) ∧
  (∀ i j k a b, rg_token_count g ≤ Z.of_nat i → edge_at g (i, j) = Some a → edge_at g (i, k) = Some b →
     ge_pool a = ge_pool b).
Proof. intros Hr. destruct (reachable_ok g Hr) as [[_ H1 H2 H3 H4 _] _]. split_and!; [done..|]. intros i j k a b. apply H4. Qed.

Lemma has_edges_iff g pool :
  pool_has_edges g pool = true ↔ ∃ at_, at_ ∈ positions_at g (Z.to_nat pool).
Proof.
  unfold pool_has_edges, positions_at. destruct (_ !! _) as [ps|]; cbn.
  - rewrite negb_true_iff, bool_decide_eq_false. split.
    + destruct ps as [|at_ ps]; [done|]. intros _. exists at_. left.
    + intros [at_ Hin] ->. by apply not_elem_of_nil in Hin.
  - split; [done|]. by intros [at_ Hin%not_elem_of_nil].
Qed.

Lemma has_live_iff g pool :
  pool_has_live_edges g pool = true ↔ ∃ at_, at_ ∈ positions_at g (Z.to_nat pool) ∧ live_at g at_ = true.
Proof.
  unfold pool_has_live_edges, positions_at. destruct (_ !! _) as [ps|]; cbn.
  - rewrite existsb_exists. by setoid_rewrite list_elem_of_In.
  - split; [done|]. by intros (at_ & Hin%not_elem_of_nil & _).
Qed.

(** The index of a well-formed graph lists the places of a pool's edges. *)
Lemma indexed_places g pool at_ :
  struct_ok g → 0 ≤ pool →
  at_ ∈ positions_at g (Z.to_nat pool) ↔ ∃ ge, edge_at g at_ = Some ge ∧ pool_index (ge_edge ge) = pool.
Proof.
  intros Hok Hp. etrans; [apply (go_exact _ Hok)|]. split; intros (ge & Hge & Hpool); exists ge; (split; [done|]).
  - pose proof (proj1 (go_placed _ Hok _ _ Hge)). unfold ge_pool in Hpool. lia.
  - unfold ge_pool. by rewrite Hpool.
Qed.

(** C19: The reverse index of a reachable graph lists, for each pool, exactly the places of its
    edges, each once: the queries on a pool answer as a scan of all edges would. *)
Theorem reachable_graph_indexed g pool :
  reachable g → 0 ≤ pool →
  NoDup (positions_at g (Z.to_nat pool)) ∧
  (∀ at_, at_ ∈ positions_at g (Z.to_nat pool) ↔ ∃ ge, edge_at g at_ = Some ge ∧ pool_index (ge_edge ge) = pool) ∧
  (pool_has_edges g pool = true ↔ ∃ at_ ge, edge_at g at_ = Some ge ∧ pool_index (ge_edge ge) = pool) ∧
  (pool_has_live_edges g pool = true ↔ ∃ at_ ge, edge_at g at_ = Some ge ∧
     pool_index (ge_edge ge) = pool ∧ is_live_graph_edge ge = true).
Proof.
  intros Hr Hp. destruct (reachable_ok g Hr) as [Hok _].
  pose proof (λ at_, indexed_places g pool at_ Hok Hp) as Hat.
  split_and!; [apply (go_exact _ Hok)|done|..].
  - etrans; [apply has_edges_iff|]. setoid_rewrite Hat. done.
  - etrans; [apply has_live_iff|]. setoid_rewrite Hat. split.
    + intros (at_ & (ge & Hge & Hpool) & Hl). exists at_, ge. unfold live_at in Hl. by rewrite Hge in Hl.
    + intros (at_ & ge & Hge & Hpool & Hl). exists at_. split; [by exists ge|]. unfold live_at. by rewrite Hge.
Qed.
End histories.

(** ** The cached counts *)

Lemma count_edge_split tn a ge :
  count_edge tn a ge =
  {| na_live_direct_edges := na_live_direct_edges a + na_live_direct_edges (count_edge tn no_aggregate ge);
     na_dead_direct_edges := na_dead_direct_edges a + na_dead_direct_edges (count_edge tn no_aggregate ge);
     na_hub_leg_edges := na_hub_leg_edges a + na_hub_leg_edges (count_edge tn no_aggregate ge) |}%nat.
Proof.
  unfold count_edge. destruct a as [a1 a2 a3]. repeat case_match; cbn; f_equal; lia.
Qed.

Lemma scan_node tn adj index :
  fold_left (λ index ge, add_node_aggregate index (count_edge tn no_aggregate ge)) adj index =
  add_node_aggregate index (fold_left (count_edge tn) adj no_aggregate).
Proof.
  induction adj as [|ge adj IH] using rev_ind.
  - destruct index. unfold add_node_aggregate. cbn. f_equal; lia.
  - rewrite !fold_left_app, IH. cbn [fold_left]. rewrite (count_edge_split tn (fold_left _ adj _)).
    unfold add_node_aggregate. cbn. f_equal; lia.
Qed.

Lemma scan_index_eq g :
  scan_index g = fold_left add_node_aggregate (node_aggregate g <$> seq 0 (length (rg_adjacency g))) no_index.
Proof.
  unfold scan_index.
  assert (node_aggregate g <$> seq 0 (length (rg_adjacency g)) =
    (λ p : nat * list GraphEdge, fold_left (count_edge (p.1 <? token_slots g)%nat) p.2 no_aggregate) <$>
      zip (seq 0 (length (rg_adjacency g))) (rg_adjacency g)) as ->.
  { apply list_eq. intros i. rewrite !list_lookup_fmap, lookup_zip_with.
    destruct (rg_adjacency g !! i) as [l|] eqn:Hl.
    - pose proof (lookup_lt_Some _ _ _ Hl). rewrite lookup_seq_lt by done. cbn. unfold node_aggregate. by rewrite Hl.
    - apply lookup_ge_None in Hl. by rewrite lookup_seq_ge. }
  generalize no_index. induction (zip _ _) as [|[i l] z IH]; intros index; cbn [fold_left fmap list_fmap]; [done|].
  by rewrite scan_node, IH.
Qed.

Lemma filter_of_fmap {A B} (f : A → B) (P : B → Prop) `{∀ x, Decision (P x)} (l : list A) :
  filter P (f <$> l) = f <$> filter (λ x, P (f x)) l.
Proof. induction l as [|x l IH]; [done|]. rewrite fmap_cons, !filter_cons, IH. by destruct (decide (P (f x))). Qed.

Lemma active_pools_eq g v : view_ok g v →
  length (filter (λ count, (0 < count)%nat) (bv_pool_live_edge_counts v)) = size (live_pools g).
Proof.
  intros [_ Hc _]. set (counts := bv_pool_live_edge_counts v) in *.
  assert (counts = (λ p, default 0%nat (counts !! p)) <$> seq 0 (length counts)) as E.
  { apply list_eq. intros p. rewrite list_lookup_fmap. destruct (counts !! p) as [c|] eqn:Ec.
    - pose proof (lookup_lt_Some _ _ _ Ec). rewrite lookup_seq_lt by done. cbn. by rewrite Ec.
    - apply lookup_ge_None in Ec. by rewrite lookup_seq_ge. }
  rewrite E, filter_of_fmap, length_fmap.
  set (L := filter _ _). assert (NoDup L) as Hnd by apply NoDup_filter, NoDup_seq.
  rewrite <- (size_list_to_set (C := gset nat)) by done. f_equal. apply set_eq. intros p.
  rewrite elem_of_list_to_set. unfold L. rewrite list_elem_of_filter, elem_of_seq. cbn. unfold live_pools.
  rewrite live_pools_elem, <- Hc. rewrite elem_of_empty. split; [intros [H _]; by right|].
  intros [[]|H]. split; [done|]. split; [lia|]. destruct (decide (p < length counts)%nat); [done|].
  rewrite lookup_ge_None_2 in H by lia. cbn in H. lia.
Qed.

(** C23: The statistics and the count of active pools read from the cached view are those a
    scan of the whole graph gives. *)
Theorem cached_counts_fresh ln_f64 g :
  reachable ln_f64 g →
  topology_stats g = topology_stats (invalidate_base_view g) ∧
  active_pool_count g = size (live_pools g).
Proof.
  intros Hr. destruct (reachable_ok ln_f64 g Hr) as [_ Hv]. unfold topology_stats, active_pool_count.
  change (rg_base_view (invalidate_base_view g)) with (@None GraphBaseView).
  destruct (rg_base_view g) as [v|] eqn:Ev; [|done]. specialize (Hv v eq_refl). pose proof (active_pools_eq g v Hv) as Ha.
  destruct Hv as [Hn _ Hi]. rewrite Hi. cbn [ai_active_pools set_active_pools]. split; [|done].
  change (scan_index (invalidate_base_view g)) with (scan_index g).
  change (active_pool_count (invalidate_base_view g)) with (size (live_pools g)).
  rewrite scan_index_eq, Hn, Ha. done.
Qed.

(** C22: Removing a pool through the reverse index removes what a scan of the whole graph would
    and keeps every other edge in its order.  The index stays exact, although the others'
    places move: for every pool it lists the places of that pool's edges in the new graph,
    each once and no other, none for the removed pool. *)
Theorem remove_is_a_full_scan ln_f64 g pool :
  reachable ln_f64 g → 0 ≤ pool →
  let g' := remove_pool_edges_from_graph g pool in
  rg_adjacency g' = (filter (λ ge, pool_index (ge_edge ge) ≠ pool)) <$> rg_adjacency g ∧
  (∀ other, 0 ≤ other →
     NoDup (positions_at g' (Z.to_nat other)) ∧
     ∀ at_, at_ ∈ positions_at g' (Z.to_nat other) ↔
       ∃ ge, edge_at g' at_ = Some ge ∧ pool_index (ge_edge ge) = other) ∧
  pool_has_edges g' pool = false ∧
  (pool_has_edges g pool = true → rg_coverage g' = None ∧ rg_base_view g' = None) ∧
  (pool_has_edges g pool = false → g' = g).
Proof.
  intros Hr Hp. destruct (reachable_ok ln_f64 g Hr) as [Hok Hv].
  destruct (remove_shape g pool Hok Hp) as [Htc Hh H4 Hat Hex Hview]. cbn zeta. split_and!.
  - exact Hat.
  - intros other Ho. destruct (remove_ok g pool (conj Hok Hv) Hp) as [Hok' _].
    split; [apply (go_exact _ Hok')|]. intros at_. by apply indexed_places.
  - apply not_true_iff_false. intros [at_ Hin]%has_edges_iff. apply Hex in Hin as (ge & Hge & Hpool).
    pose proof (proj1 (go_placed _ (proj1 (remove_ok g pool (conj Hok Hv) Hp)) _ _ Hge)) as H0.
    apply place_node in Hge as (l' & Hl' & Hin). rewrite Hat, list_lookup_fmap in Hl'.
    destruct (rg_adjacency g !! at_.1); [|done]. injection Hl' as <-.
    apply list_elem_of_filter in Hin as [Hne _]. apply Hne. unfold ge_pool in Hpool. lia.
  - intros [at_ Hin]%has_edges_iff. destruct Hview; [|done]. intros E. rewrite E in Hin. by apply not_elem_of_nil in Hin.
  - intros Hf. unfold remove_pool_edges_from_graph. rewrite decide_True; [done|].
    destruct (positions_at g (Z.to_nat pool)) as [|at_ ps] eqn:E; [done|].
    apply not_true_iff_false in Hf. destruct Hf. apply has_edges_iff. exists at_. rewrite E. left.
Qed.

(** ** Witnesses: three tokens, three pairs *)

Definition demo_tokens3 : StateArena :=
  foldl (λ a t, (register_token demo_hash a t).1) (arena_default demo_hash) [100; 101; 102].

Definition demo_triangle : StateArena :=
  foldl (λ a '(p, r0, r1), (register_pool demo_hash a p (demo_v2 r0 r1) false).1) demo_tokens3
    [(500, 10 ^ 24, 10 ^ 24); (501, 10 ^ 24, 10 ^ 24); (502, 10 ^ 24, 102 * 10 ^ 22)].

Definition demo_triangle_meta (pool t0 t1 : Z) : PoolMeta :=
  {| pm_pool_index := pool; pm_protocol := UniswapV2; pm_tokens := [t0; t1]; pm_fee_bps := 30;
     pm_bpt_index := None; pm_pool_id := None; pm_protocol_label := None; pm_pool_type := None;
     pm_hooks := None; pm_tick_spacing := None |}.

Definition demo_attach (g : RoutingGraph) (pool t0 t1 : Z) : RoutingGraph :=
  match attach_pool_to_graph 0 g demo_triangle (demo_triangle_meta pool t0 t1) None with
  | Done (g, _) => g
  | Panic => g
  end.

Definition demo_attached : RoutingGraph :=
  demo_attach (demo_attach (demo_attach (graph_new 3) 0 0 1) 1 1 2) 2 2 0.

Definition demo_rescored_graph : RoutingGraph :=
  match rescore_graph_in_place (λ x, x) demo_triangle demo_attached with Done g => g | Panic => demo_attached end.

(** The tokens of a pair of the triangle are its own. *)
Lemma demo_names pool t0 t1 :
  ((0 <=? pool) && (0 <=? t0) && (t0 <? 3) && (0 <=? t1) && (t1 <? 3))%bool = true →
  names_tokens demo_triangle (demo_triangle_meta pool t0 t1).
Proof.
  intros H. repeat (apply andb_prop in H as [H ?]). rewrite ?Z.leb_le, ?Z.ltb_lt in *.
  split_and!; [|done|].
  - repeat constructor; change (arena_token_count demo_triangle) with 3; lia.
  - intros a t Ht. change (arena_token_count demo_triangle) with 3.
    assert (forallb (λ p : Z * Z, (0 <=? p.2) && (p.2 <? 3))%bool (map_to_list (ai_address_to_token (sa_inner demo_triangle))) = true)
      as Hall by (vm_compute; reflexivity).
    rewrite forallb_forall in Hall. specialize (Hall (a, t)). apply elem_of_map_to_list, list_elem_of_In, Hall in Ht.
    cbn in Ht. lia.
Qed.

Definition demo_attached_ok (g : RoutingGraph) (pool t0 t1 : Z) : bool :=
  match attach_pool_to_graph 0 g demo_triangle (demo_triangle_meta pool t0 t1) None with
  | Done (_, b) => b
  | Panic => false
  end.

Lemma demo_attach_step ln_f64 g pool t0 t1 :
  ((0 <=? pool) && (0 <=? t0) && (t0 <? 3) && (0 <=? t1) && (t1 <? 3))%bool = true →
  demo_attached_ok g pool t0 t1 = true → graph_step ln_f64 g (demo_attach g pool t0 t1).
Proof.
  intros Hn%demo_names Hok. unfold demo_attached_ok, demo_attach in *.
  destruct (attach_pool_to_graph _ _ _ _ _) as [[g' b]|] eqn:Ha; [|done].
  by eapply step_attach.
Qed.

Lemma demo_reachable : reachable (λ x, x) demo_rescored_graph.
Proof.
  exists 3. split; [lia|]. unfold demo_rescored_graph.
  transitivity demo_attached.
  - unfold demo_attached.
    eapply rtc_l; [apply (demo_attach_step _ _ 0 0 1); vm_compute; reflexivity|].
    eapply rtc_l; [apply (demo_attach_step _ _ 1 1 2); vm_compute; reflexivity|].
    apply rtc_once, (demo_attach_step _ _ 2 2 0); vm_compute; reflexivity.
  - destruct (rescore_graph_in_place _ _ demo_attached) as [g|] eqn:Hg; [|done].
    by eapply rtc_once, step_rescore.
Qed.

Lemma reachable_graph_typed_witness :
  reachable (λ x, x) demo_rescored_graph ∧
  Z.of_nat (length (rg_adjacency demo_rescored_graph)) =
    rg_token_count demo_rescored_graph + hub_count demo_rescored_graph.
Proof. split; [exact demo_reachable|]. exact (proj1 (reachable_graph_typed _ _ demo_reachable)). Defined.

Lemma reachable_graph_indexed_witness :
  NoDup (positions_at demo_rescored_graph 2) ∧
  ((∃ at_ ge, edge_at demo_rescored_graph at_ = Some ge ∧ pool_index (ge_edge ge) = 2) →
   pool_has_edges demo_rescored_graph 2 = true).
Proof.
  destruct (reachable_graph_indexed (λ x, x) demo_rescored_graph 2 demo_reachable) as (H1 & _ & H2 & _); [lia|].
  split; [exact H1|apply H2].
Defined.

Lemma cached_counts_fresh_witness :
  rg_base_view demo_rescored_graph ≠ None ∧
  active_pool_count demo_rescored_graph = size (live_pools demo_rescored_graph).
Proof.
  split; [vm_compute; discriminate|]. exact (proj2 (cached_counts_fresh _ _ demo_reachable)).
Defined.

Lemma remove_is_a_full_scan_witness :
  pool_has_edges demo_rescored_graph 1 = true ∧
  pool_has_edges (remove_pool_edges_from_graph demo_rescored_graph 1) 1 = false ∧
  ∀ at_, at_ ∈ positions_at (remove_pool_edges_from_graph demo_rescored_graph 1) 2 →
    ∃ ge, edge_at (remove_pool_edges_from_graph demo_rescored_graph 1) at_ = Some ge ∧ pool_index (ge_edge ge) = 2.
Proof.
  split; [vm_compute; reflexivity|].
  destruct (remove_is_a_full_scan (λ x, x) demo_rescored_graph 1 demo_reachable) as (_ & H & H1 & _); [lia|].
  split; [exact H1|]. intros at_ Hin. destruct (H 2 ltac:(lia)) as [_ Hx]. exact (proj1 (Hx at_) Hin).
Defined.

Lemma rescore_graph_sound_witness :
  is_live_graph_edge <$> edge_at demo_rescored_graph (0, 0)%nat = Some true ∧
  ∀ at_ ge, edge_at demo_rescored_graph at_ = Some ge → well_priced (λ x, x) demo_triangle ge.
Proof.
  split; [vm_compute; reflexivity|].
  apply (rescore_graph_sound (λ x, x) demo_triangle demo_attached demo_rescored_graph).
  vm_compute. reflexivity.
Defined.
