(* ===== verification/Bridges.v ===== *)
(** * The bridge search of the coverage

    The iterative search of [cycle_capable_coverage] ends within its fuel, and what it
    flags is a bridge: the incidence cuts its tokens and pools in two.  So a pool and a
    token that lie on a cycle are always in the coverage. *)
From stdpp Require Import gmap relations.
From S2P Require Import Prelude Word Types Graph Coverage.

Lemma nth_replicate_default {A} n (d : A) i : nth i (replicate n d) d = d.
Proof. revert i. induction n as [|n IH]; intros [|i]; cbn; [done..|apply IH]. Qed.

Lemma lookup_replicate_default {A} n (d : A) i : default d (replicate n d !! i) = d.
Proof. rewrite <- nth_lookup. apply nth_replicate_default. Qed.

Lemma nth_alter_snoc {A} (adj : list (list A)) i e u : (i < length adj)%nat →
  nth u (alter (λ l, l ++ [e]) i adj) [] = nth u adj [] ++ if decide (u = i) then [e] else [].
Proof.
  intros Hi. rewrite !nth_lookup. destruct (decide (u = i)) as [->|].
  - rewrite list_lookup_alter_eq. by destruct (lookup_lt_is_Some_2 adj i Hi) as [l ->].
  - by rewrite list_lookup_alter_ne, app_nil_r.
Qed.

Section search.
Context (tc : nat) (edges : list (nat * nat)) (adj : list (list (nat * nat))).

(** The node [x] is next to [u] through the incidence [id]. *)
Definition linked (u x id : nat) : Prop := (x, id) ∈ nth u adj [].

(** The adjacency lists are those of a bipartite graph of tokens and pools. *)
Record incidence_ok : Prop := {
  io_next u x id : linked u x id → (u < length adj)%nat ∧ (x < length adj)%nat;
  io_edge u x id : linked u x id → ∃ pool token, edges !! id = Some (pool, token) ∧ (token < tc)%nat ∧
    ((u = token ∧ x = tc + pool) ∨ (u = tc + pool ∧ x = token))%nat;
  io_sym u x id : linked u x id → linked x u id;
}.

(** One step that does not use the incidence [id]. *)
Definition around (id : nat) : relation nat := λ u x, ∃ id', id' ≠ id ∧ linked u x id'.

(** A set of nodes whose only way out is the incidence [id]. *)
Definition cut (id : nat) : Prop := ∃ (side : nat → Prop) v p,
  linked v p id ∧ side v ∧ ¬ side p ∧ ∀ w x id', side w → linked w x id' → id' ≠ id → side x.

Context (Hio : incidence_ok).

Lemma linked_ends w x v p id : linked w x id → linked p v id → (w = p ∧ x = v) ∨ (w = v ∧ x = p).
Proof.
  intros H1 H2. destruct (io_edge Hio _ _ _ H1) as (p1 & t1 & E1 & ? & ?).
  destruct (io_edge Hio _ _ _ H2) as (p2 & t2 & E2 & ? & ?). rewrite E1 in E2. injection E2 as -> ->. lia.
Qed.

Lemma cut_separates id u x : cut id → linked u x id → ¬ rtc (around id) u x.
Proof.
  intros (side & v & p & Hl & Hv & Hp & Hc) Hux Hr.
  assert (∀ a b, rtc (around id) a b → side a → side b) as Hstay.
  { intros a b H. induction H as [|a b c (id' & Hne & Hab) _ IH]; [done|]. intros Ha. apply IH. by eapply Hc. }
  destruct (linked_ends _ _ _ _ _ Hux Hl) as [[-> ->]|[-> ->]].
  - by apply Hp, (Hstay _ _ Hr).
  - apply Hp. apply (Hstay v p); [|done]. clear - Hr Hio. induction Hr as [|a b c (id' & Hne & Hab) _ IH]; [done|].
    eapply rtc_r; [exact IH|]. exists id'. split; [done|]. by apply (io_sym Hio).
Qed.

#[local] Arguments disc : simpl never.
#[local] Arguments low : simpl never.
#[local] Arguments parent_of : simpl never.

(** ** The state of the search *)

(** The incidence was read among the first [i] of [v]. *)
Definition scanned (i v x id : nat) : Prop := ∃ k, (k < i)%nat ∧ nth v adj [] !! k = Some (x, id).

(** The stack from the top; [hi] bounds the discovery times of the nodes that belong to its
    first entry: itself and what was met and finished above it. *)
Fixpoint stack_ok (s : Tarjan) (hi : nat) (stack : list (nat * nat)) : Prop :=
  match stack with
  | [] => True
  | (v, i) :: rest =>
      (0 < disc s v < hi)%nat ∧ (low s v ≤ disc s v)%nat ∧
      (∀ w x id, (disc s v ≤ disc s w < hi)%nat → linked w x id → (w = v → scanned i v x id) →
         parent_of s v ≠ Some id → (0 < disc s x ∧ low s v ≤ disc s x)%nat) ∧
      (∀ w x id, (disc s v < disc s w < hi)%nat → linked w x id → (0 < disc s x < hi)%nat) ∧
      match rest with
      | [] => parent_of s v = None
      | (p, _) :: _ => ∃ id, parent_of s v = Some id ∧ linked p v id
      end ∧
      stack_ok s (disc s v) rest
  end.

Record tarjan_ok (s : Tarjan) : Prop := {
  to_discovered : length (tj_discovered s) = length adj;
  to_low : length (tj_low s) = length adj;
  to_parents : length (tj_parent_edge s) = length adj;
  to_clock w : (disc s w ≤ tj_clock s)%nat;
  to_inj w w' : (0 < disc s w)%nat → disc s w = disc s w' → w = w';
  to_new w : disc s w = 0%nat → parent_of s w = None;
  to_stack : stack_ok s (S (tj_clock s)) (tj_stack s);
  to_bridges id : tj_bridges s !! id = Some true → cut id;
}.

Lemma stack_discovered s v i stack : ∀ hi, stack_ok s hi stack → (v, i) ∈ stack → (0 < disc s v < hi)%nat.
Proof.
  induction stack as [|[u j] rest IH]; intros hi Hs Hin; [by apply elem_of_nil in Hin|].
  cbn in Hs. destruct Hs as (Hd & _ & _ & _ & _ & Hr). apply elem_of_cons in Hin as [[= -> ->]|Hin]; [done|].
  specialize (IH _ Hr Hin). lia.
Qed.

(** What the stack says does not depend on the nodes met since. *)
Lemma stack_frame s s' stack : ∀ hi,
  (∀ w, disc s w ≠ 0%nat → disc s' w = disc s w ∧ parent_of s' w = parent_of s w) →
  (∀ w, disc s w = 0%nat → disc s' w = 0%nat ∨ (hi ≤ disc s' w)%nat) →
  (∀ v i, (v, i) ∈ stack → low s' v = low s v) →
  stack_ok s hi stack → stack_ok s' hi stack.
Proof.
  induction stack as [|[v i] rest IH]; intros hi Hold Hnew Hlow Hs; [done|]. cbn in *.
  destruct Hs as (Hd & Hl & H1 & H2 & Hp & Hr).
  destruct (Hold v ltac:(lia)) as [Ev Epv]. rewrite (Hlow v i) by left. rewrite Ev, Epv.
  assert (∀ w, (disc s v ≤ disc s' w < hi)%nat → disc s' w = disc s w) as Hw.
  { intros w Hw. destruct (decide (disc s w = 0%nat)) as [E|E]; [destruct (Hnew w E); lia|]. by apply Hold. }
  split_and!; [lia|lia|lia| | |done|].
  - intros w x id Hdw Hwx Hsc Hne. rewrite (Hw w) in Hdw by lia.
    destruct (H1 w x id Hdw Hwx Hsc Hne) as [Hx Hlx]. by rewrite (proj1 (Hold x ltac:(lia))).
  - intros w x id Hdw Hwx. rewrite (Hw w) in Hdw by lia.
    pose proof (H2 w x id Hdw Hwx) as Hx. by rewrite (proj1 (Hold x ltac:(lia))).
  - apply IH; [done| |by intros; eapply Hlow; right|done]. intros w E. destruct (Hnew w E); [by left|right; lia].
Qed.

(** One more incidence of the top node is read. *)
Lemma stack_read s hi v i x id rest :
  stack_ok s hi ((v, i) :: rest) → nth v adj [] !! i = Some (x, id) →
  (parent_of s v = Some id ∨ (0 < disc s x ∧ low s v ≤ disc s x)%nat) →
  stack_ok s hi ((v, S i) :: rest).
Proof.
  cbn. intros (Hd & Hl & H1 & H2 & Hp & Hr) Hi Hx. split_and!; [lia..| |done|done|done].
  intros w y id' Hdw Hwy Hsc Hne. destruct (decide (w = v)) as [->|Hwv]; [|by apply (H1 w y id')].
  destruct (Hsc eq_refl) as (k & Hk & Hky). destruct (decide (k = i)) as [->|Hki].
  - rewrite Hi in Hky. injection Hky as -> ->. by destruct Hx.
  - apply (H1 v y id'); [done..| |done]. intros _. exists k. split; [lia|done].
Qed.

(** The low link of the top node falls. *)
Lemma stack_lower s s' hi v i rest :
  (∀ w, disc s' w = disc s w) → (∀ w, parent_of s' w = parent_of s w) →
  (low s' v ≤ low s v)%nat → (∀ w, w ≠ v → low s' w = low s w) →
  stack_ok s hi ((v, i) :: rest) → stack_ok s' hi ((v, i) :: rest).
Proof.
  cbn. intros Hd Hp Hl Hlo (Hdv & Hlv & H1 & H2 & Hpv & Hr). rewrite !Hd, Hp. split_and!; [lia..| | | |].
  - intros w x id. rewrite !Hd. intros Hw Hwx Hsc Hne. destruct (H1 w x id Hw Hwx Hsc Hne). lia.
  - intros w x id. rewrite !Hd. apply H2.
  - destruct rest as [|[p j] rest]; [done|]. done.
  - apply (stack_frame s); [by intros; rewrite Hd, Hp|by intros w; rewrite Hd; left| |done].
    intros u j Hu. apply Hlo. intros ->. pose proof (stack_discovered _ _ _ _ _ Hr Hu). lia.
Qed.

(** ** A node is met *)

Lemma disc_insert s v n w : (v < length (tj_discovered s))%nat →
  nth w (<[v := n]> (tj_discovered s)) 0%nat = if decide (w = v) then n else disc s w.
Proof.
  intros Hv. unfold disc. rewrite !nth_lookup. destruct (decide (w = v)) as [->|].
  - by rewrite list_lookup_insert_eq.
  - by rewrite list_lookup_insert_ne.
Qed.

Lemma low_insert s v n w : (v < length (tj_low s))%nat →
  nth w (<[v := n]> (tj_low s)) 0%nat = if decide (w = v) then n else low s w.
Proof.
  intros Hv. unfold low. rewrite !nth_lookup. destruct (decide (w = v)) as [->|].
  - by rewrite list_lookup_insert_eq.
  - by rewrite list_lookup_insert_ne.
Qed.

(** What [discover] changes. *)
Lemma discover_spec s node parent stack : tarjan_ok s → (node < length adj)%nat → disc s node = 0%nat →
  let s' := discover s node parent stack in
  (∀ w, disc s' w = if decide (w = node) then S (tj_clock s) else disc s w) ∧
  (∀ w, low s' w = if decide (w = node) then S (tj_clock s) else low s w) ∧
  (∀ w, parent_of s' w = if decide (w = node) then parent else parent_of s w).
Proof.
  intros [L1 L2 L3 _ _ Hnew _ _] Hn Hd s'. split_and!; intros w.
  - apply disc_insert. by rewrite L1.
  - apply low_insert. by rewrite L2.
  - unfold parent_of, s', discover. cbn. destruct parent as [e|].
    + rewrite !nth_lookup. destruct (decide (w = node)) as [->|].
      * by rewrite list_lookup_insert_eq by lia.
      * by rewrite list_lookup_insert_ne.
    + destruct (decide (w = node)) as [->|]; [|done]. by apply Hnew.
Qed.

Lemma discover_ok s node parent stack : tarjan_ok s → (node < length adj)%nat → disc s node = 0%nat →
  let s' := discover s node parent stack in
  stack_ok s' (S (tj_clock s)) stack →
  match stack with
  | [] => parent = None
  | (p, _) :: _ => ∃ id, parent = Some id ∧ linked p node id
  end →
  tarjan_ok s'.
Proof.
  intros Hok Hn Hd s' Hst Hpar. destruct (discover_spec s node parent stack Hok Hn Hd) as (D & L & P). fold s' in D, L, P.
  destruct Hok as [L1 L2 L3 Hclock Hinj Hnew _ Hbr].
  assert (∀ w, (disc s' w ≤ S (tj_clock s))%nat) as Hc'.
  { intros w. rewrite D. specialize (Hclock w). destruct (decide _); lia. }
  split; cbn; rewrite ?length_insert; try done.
  - destruct parent; by rewrite ?length_insert.
  - intros w w'. rewrite !D. pose proof (Hclock w). pose proof (Hclock w').
    destruct (decide (w = node)), (decide (w' = node)); subst; try lia; try done. apply Hinj.
  - intros w. rewrite D, P. destruct (decide (w = node)); [lia|apply Hnew].
  - change (stack_ok s' (S (S (tj_clock s))) ((node, 0%nat) :: stack)). cbn [stack_ok].
    rewrite (D node), (L node), (P node), !decide_True by done. split_and!; [lia..| | |done|done].
    + intros w x id Hw Hwx Hsc _. rewrite D in Hw. specialize (Hclock w). destruct (decide (w = node)) as [->|]; [|lia].
      destruct (Hsc eq_refl) as (k & Hk & _). lia.
    + intros w x id Hw. rewrite D in Hw. specialize (Hclock w). destruct (decide _); lia.
Qed.

(** ** A node is left *)

(** The top entry was read to the end: its nodes go to the entry below. *)
Lemma stack_merge s hi v i p j id rest :
  (∀ w w', (0 < disc s w)%nat → disc s w = disc s w' → w = w') →
  (∀ w, (disc s w < hi)%nat) →
  stack_ok s hi ((v, i) :: (p, j) :: rest) → nth v adj [] !! i = None →
  parent_of s v = Some id → linked p v id → (low s p ≤ low s v)%nat →
  stack_ok s hi ((p, j) :: rest).
Proof.
  intros Hinj Hhi Hs Hend Hpv Hl Hlow. cbn [stack_ok] in Hs. cbn [stack_ok].
  destruct Hs as (Hdv & Hlv & V1 & V2 & _ & Hdp & Hlp & P1 & P2 & Hpp & Hr).
  assert (∀ w x id', linked w x id' → w = v → scanned i v x id') as Hall.
  { intros w x id' Hwx ->. apply list_elem_of_lookup in Hwx as [k Hk]. exists k. split; [|done].
    apply lookup_ge_None_1 in Hend. apply lookup_lt_Some in Hk. lia. }
  split_and!; [lia..| | |done|done].
  - intros w x id' Hw Hwx Hsc Hne. destruct (decide (disc s w < disc s v)%nat) as [Hlt|Hge]; [by apply (P1 w x id'); [lia|..]|].
    destruct (decide (id' = id)) as [->|Hid].
    + destruct (linked_ends _ _ _ _ _ Hwx Hl) as [[-> ->]|[-> ->]]; lia.
    + destruct (V1 w x id'); [lia|done|by eauto|congruence|]. lia.
  - intros w x id' Hw Hwx. destruct (decide (disc s w < disc s v)%nat) as [Hlt|Hge].
    { pose proof (P2 w x id' ltac:(lia) Hwx). lia. }
    destruct (decide (disc s w = disc s v)) as [E|E].
    + apply Hinj in E as ->; [|lia]. split; [|apply Hhi]. destruct (decide (id' = id)) as [->|Hid].
      * destruct (linked_ends _ _ _ _ _ Hwx Hl) as [[-> ->]|[_ ->]]; lia.
      * destruct (V1 v x id'); [lia|done|by eauto|congruence|lia].
    + by apply (V2 w x id'); [lia|].
Qed.

(** An incidence is flagged when nothing above it leads below it. *)
Lemma flagged_cut s hi v i p j id rest :
  (∀ w, (disc s w < hi)%nat) →
  stack_ok s hi ((v, i) :: (p, j) :: rest) → nth v adj [] !! i = None →
  parent_of s v = Some id → linked p v id → (disc s p < low s v)%nat → cut id.
Proof.
  intros Hhi Hs Hend Hpv Hl Hflag. cbn [stack_ok] in Hs.
  destruct Hs as (Hdv & Hlv & V1 & V2 & _ & Hdp & Hlp & P1 & P2 & Hpp & Hr).
  exists (λ w, (disc s v ≤ disc s w)%nat), v, p. split_and!; [by apply io_sym|lia|lia|].
  intros w x id' Hw Hwx Hne. destruct (decide (disc s v ≤ disc s x)%nat) as [|Hlt]; [done|exfalso].
  destruct (V1 w x id') as [Hx Hlx]; [by split|done| |congruence|].
  { intros ->. apply list_elem_of_lookup in Hwx as [k Hk]. exists k. split; [|done].
    apply lookup_ge_None_1 in Hend. apply lookup_lt_Some in Hk. lia. }
  pose proof (P2 x w id' ltac:(lia) (io_sym Hio _ _ _ Hwx)). lia.
Qed.

(** ** One turn *)

(** The top node meets a node again. *)
Lemma seen_ok s v i x id rest :
  tarjan_ok s → tj_stack s = (v, i) :: rest → (v < length adj)%nat →
  nth v adj [] !! i = Some (x, id) → disc s x ≠ 0%nat →
  tarjan_ok {| tj_discovered := tj_discovered s;
               tj_low := <[v := Nat.min (low s v) (disc s x)]> (tj_low s);
               tj_parent_edge := tj_parent_edge s; tj_bridges := tj_bridges s;
               tj_clock := tj_clock s; tj_stack := (v, S i) :: rest |}.
Proof.
  intros [L1 L2 L3 Hclock Hinj Hnew Hst Hbr] Es Hv Hi Hx. rewrite Es in Hst.
  split; cbn -[stack_ok]; rewrite ?length_insert; try done. set (s' := {| tj_discovered := _ |}).
  assert (∀ w, low s' w = if decide (w = v) then Nat.min (low s v) (disc s x) else low s w) as L.
  { intros w. apply low_insert. by rewrite L2. }
  assert (stack_ok s' (S (tj_clock s)) ((v, i) :: rest)) as Hf.
  { apply (stack_lower s); [done|done| | |exact Hst].
    - rewrite L, decide_True by done. lia.
    - intros w Hw. by rewrite L, decide_False. }
  eapply stack_read; [exact Hf|exact Hi|]. right. rewrite L, decide_True by done.
  change (disc s' x) with (disc s x). lia.
Qed.

(** The top node is read to the end; the entry below is the other end of its incidence. *)
Lemma leave_ok s v i p j id rest :
  tarjan_ok s → tj_stack s = (v, i) :: (p, j) :: rest → nth v adj [] !! i = None →
  parent_of s v = Some id → linked p v id →
  tarjan_ok {| tj_discovered := tj_discovered s;
               tj_low := <[p := Nat.min (low s p) (low s v)]> (tj_low s);
               tj_parent_edge := tj_parent_edge s;
               tj_bridges := <[id := (disc s p <? low s v)%nat]> (tj_bridges s);
               tj_clock := tj_clock s; tj_stack := (p, j) :: rest |}.
Proof.
  intros [L1 L2 L3 Hclock Hinj Hnew Hst Hbr] Es Hi He Hl. rewrite Es in Hst.
  pose proof (io_next Hio _ _ _ Hl) as [Hp _].
  assert (∀ w, (disc s w < S (tj_clock s))%nat) as Hhi by (intros w; specialize (Hclock w); lia).
  split; cbn -[stack_ok]; rewrite ?length_insert; try done.
  - set (s' := {| tj_discovered := _ |}).
    assert (∀ w, low s' w = if decide (w = p) then Nat.min (low s p) (low s v) else low s w) as L.
    { intros w. apply low_insert. by rewrite L2. }
    assert (p ≠ v) as Hpv. { intros ->. cbn in Hst. lia. }
    apply (stack_merge s' _ v i _ _ id); [done|done| |done|done|done|].
    + cbn [stack_ok] in Hst |- *. destruct Hst as (V0 & V1 & V2 & V3 & V4 & Hr).
      rewrite (L v), decide_False by done.
      split; [exact V0|split; [exact V1|split; [exact V2|split; [exact V3|split; [exact V4|]]]]].
      change (stack_ok s' (disc s v) ((p, j) :: rest)).
      apply (stack_lower s); [done|done| | |exact Hr].
      * rewrite L, decide_True by done. lia.
      * intros w Hw. by rewrite L, decide_False.
    + rewrite !L, decide_True, decide_False by done. lia.
  - intros e Hid. destruct (decide (e = id)) as [->|Hne]; [|rewrite list_lookup_insert_ne in Hid by done; by apply Hbr].
    destruct (decide (id < length (tj_bridges s))%nat) as [Hlt|Hge].
    + rewrite list_lookup_insert_eq in Hid by done. injection Hid as Hid. apply Nat.ltb_lt in Hid.
      by eapply flagged_cut.
    + rewrite list_insert_ge in Hid by lia. by apply Hbr.
Qed.

(** The top node meets a node for the first time. *)
Lemma meet_ok s v i x id rest :
  tarjan_ok s → tj_stack s = (v, i) :: rest → nth v adj [] !! i = Some (x, id) → disc s x = 0%nat →
  tarjan_ok (discover s x (Some id) ((v, S i) :: rest)).
Proof.
  intros Hok Es Hi E. pose proof Hok as [_ _ _ Hclock _ _ Hst _]. rewrite Es in Hst.
  assert (linked v x id) as Hl by (by eapply list_elem_of_lookup_2).
  pose proof (io_next Hio _ _ _ Hl) as [_ Hx].
  destruct (discover_spec s x (Some id) ((v, S i) :: rest) Hok Hx E) as (D & L & P).
  assert (x ≠ v) as Hxv. { intros ->. pose proof (proj1 Hst). lia. }
  apply discover_ok; [done..| |by exists id].
  assert (stack_ok (discover s x (Some id) ((v, S i) :: rest)) (S (tj_clock s)) ((v, i) :: rest)) as Hf.
  { apply (stack_frame s); [| | |exact Hst].
    - intros w Hw. rewrite D, P. by rewrite !decide_False by congruence.
    - intros w Hw. rewrite D. destruct (decide _); [by right|by left].
    - intros w j Hw. rewrite L, decide_False; [done|]. intros ->.
      pose proof (stack_discovered _ _ _ _ _ Hst Hw). lia. }
  eapply stack_read; [exact Hf|exact Hi|]. right. rewrite D, L, decide_True, decide_False by done.
  destruct Hst as (_ & Hlow & _). specialize (Hclock v). lia.
Qed.

Lemma top_in_range s v i rest : tarjan_ok s → tj_stack s = (v, i) :: rest → (v < length adj)%nat.
Proof.
  intros [L1 _ _ _ _ _ Hst _] Es. rewrite Es in Hst. destruct (decide (v < length adj)%nat); [done|].
  pose proof (proj1 Hst) as Hd. unfold disc in Hd. rewrite nth_overflow in Hd by lia. lia.
Qed.

Lemma tarjan_step_ok s : tarjan_ok s → tarjan_ok (tarjan_step tc edges adj s).
Proof.
  intros Hok. unfold tarjan_step. destruct (tj_stack s) as [|[v i] rest] eqn:Es; [done|].
  pose proof (top_in_range _ _ _ _ Hok Es) as Hv.
  destruct (nth v adj [] !! i) as [[x id]|] eqn:Hi.
  - destruct (decide (parent_of s v = Some id)) as [Hp|Hp].
    + pose proof Hok as [L1 L2 L3 Hclock Hinj Hnew Hst Hbr]. rewrite Es in Hst.
      split; cbn -[stack_ok]; try done. apply (stack_frame s); [done|by left|done|].
      eapply stack_read; [exact Hst|exact Hi|by left].
    + destruct (Nat.eqb_spec (disc s x) 0) as [E|E]; [by apply meet_ok|by apply (seen_ok s v i x id)].
  - pose proof Hok as [L1 L2 L3 Hclock Hinj Hnew Hst Hbr]. rewrite Es in Hst.
    destruct Hst as (_ & _ & _ & _ & Hpar & _). destruct rest as [|[p j] rest].
    { rewrite Hpar. split; cbn; done. }
    destruct Hpar as (e & He & Hl). rewrite He.
    destruct (io_edge Hio _ _ _ Hl) as (pool & token & Ee & Ht & Hends).
    rewrite (nth_lookup_Some _ _ _ _ Ee).
    assert ((if (v =? tc + pool)%nat then token else tc + pool)%nat = p) as ->.
    { destruct (Nat.eqb_spec v (tc + pool)); lia. }
    by apply (leave_ok s v i p j e).
Qed.

(** ** The search ends *)

(** The incidences of the nodes not met yet, and what is left to read of the stack. *)
Definition pending (s : Tarjan) : nat :=
  sum_list (zip_with (λ d l, if (d =? 0)%nat then S (length l) else 0%nat) (tj_discovered s) adj) +
  sum_list ((λ vi : nat * nat, S (length (nth vi.1 adj []) - vi.2)) <$> tj_stack s).

Lemma pending_new (l : list nat) (a : list (list (nat * nat))) x n : length l = length a → (x < length l)%nat →
  nth x l 0%nat = 0%nat → n ≠ 0%nat →
  let f (d : nat) (l : list (nat * nat)) := if (d =? 0)%nat then S (length l) else 0%nat in
  (sum_list (zip_with f (<[x := n]> l) a) + S (length (nth x a [])) = sum_list (zip_with f l a))%nat.
Proof.
  intros Hl Hx E Hn. revert a x Hl Hx E. induction l as [|d l IH]; intros [|b a] [|x] Hl Hx E; cbn in *; try lia.
  - subst d. rewrite (proj2 (Nat.eqb_neq _ _) Hn). cbn. lia.
  - rewrite <- Nat.add_assoc. f_equal. apply IH; [lia|lia|done].
Qed.

Lemma pending_discover s x parent stack : length (tj_discovered s) = length adj → (x < length adj)%nat →
  disc s x = 0%nat →
  (pending (discover s x parent stack) +  sum_list ((λ vi : nat * nat, S (length (nth vi.1 adj []) - vi.2)) <$> tj_stack s)
   = pending s + sum_list ((λ vi : nat * nat, S (length (nth vi.1 adj []) - vi.2)) <$> stack))%nat.
Proof.
  intros L Hx E. unfold pending. cbn -[Nat.sub]. unfold disc in E.
  pose proof (pending_new (tj_discovered s) adj x (S (tj_clock s)) L ltac:(lia) E ltac:(lia)) as H. cbn -[Nat.sub] in H. lia.
Qed.

Lemma tarjan_step_pending s : tarjan_ok s → tj_stack s ≠ [] →
  (pending (tarjan_step tc edges adj s) < pending s)%nat.
Proof.
  intros Hok Hne. unfold tarjan_step. destruct (tj_stack s) as [|[v i] rest] eqn:Es; [done|].
  destruct (nth v adj [] !! i) as [[x id]|] eqn:Hi.
  - assert (linked v x id) as Hl by (by eapply list_elem_of_lookup_2).
    pose proof (io_next Hio _ _ _ Hl) as [_ Hx]. pose proof (lookup_lt_Some _ _ _ Hi) as Hlt.
    assert (S (length (nth v adj []) - S i) = length (nth v adj []) - i)%nat as Hs by lia.
    destruct (decide _); [unfold pending; cbn -[Nat.sub]; rewrite Es; cbn -[Nat.sub]; lia|].
    destruct (Nat.eqb_spec (disc s x) 0) as [E|E].
    + pose proof (pending_discover s x (Some id) ((v, S i) :: rest) (to_discovered _ Hok) Hx E) as H.
      rewrite Es in H. cbn -[Nat.sub pending] in H. lia.
    + unfold pending; cbn -[Nat.sub]; rewrite Es; cbn -[Nat.sub]; lia.
  - destruct (parent_of s v) as [e|]; [destruct (nth e edges _) as [pool token]|];
      unfold pending; cbn -[Nat.sub]; rewrite Es; cbn -[Nat.sub]; lia.
Qed.

Lemma tarjan_run_ok fuel : ∀ s, tarjan_ok s → (pending s ≤ fuel)%nat →
  tarjan_ok (tarjan_run tc edges adj fuel s) ∧ tj_stack (tarjan_run tc edges adj fuel s) = [].
Proof.
  induction fuel as [|fuel IH]; intros s Hok Hp; cbn [tarjan_run].
  - split; [done|]. unfold pending in Hp. destruct (tj_stack s) as [|[v i] rest]; [done|]. cbn in Hp. lia.
  - destruct (tj_stack s) as [|e rest] eqn:Es; [done|]. apply IH; [by apply tarjan_step_ok|].
    pose proof (tarjan_step_pending s Hok ltac:(by rewrite Es)). lia.
Qed.

Lemma pending_bound (l : list nat) (a : list (list (nat * nat))) :
  (sum_list (zip_with (λ d l, if (d =? 0)%nat then S (length l) else 0%nat) l a) ≤ sum_list (length <$> a) + length a)%nat.
Proof. revert a. induction l as [|d l IH]; intros [|b a]; cbn; try lia. specialize (IH a). destruct (_ =? 0)%nat; lia. Qed.

Lemma tarjan_root_ok s root : tarjan_ok s → tj_stack s = [] → (root < length adj)%nat →
  tarjan_ok (tarjan_root tc edges adj s root) ∧ tj_stack (tarjan_root tc edges adj s root) = [].
Proof.
  intros Hok Es Hr. unfold tarjan_root. destruct (Nat.eqb_spec (disc s root) 0) as [E|E]; [|done].
  destruct (_ || _)%bool; [done|]. apply tarjan_run_ok; [by apply discover_ok|].
  pose proof (pending_discover s root None [] (to_discovered _ Hok) Hr E) as H. rewrite Es in H. cbn -[pending] in H.
  assert (pending s ≤ sum_list (length <$> adj) + length adj)%nat.
  { unfold pending. rewrite Es. cbn. pose proof (pending_bound (tj_discovered s) adj). lia. }
  unfold tarjan_fuel. lia.
Qed.

Lemma tarjan_step_length s : length (tj_bridges (tarjan_step tc edges adj s)) = length (tj_bridges s).
Proof.
  unfold tarjan_step. destruct (tj_stack s) as [|[v i] rest]; [done|].
  destruct (_ !! i) as [[x id]|].
  - destruct (decide _); [done|]. by destruct (disc s x =? 0)%nat.
  - destruct (parent_of s v); [|done]. destruct (nth _ edges _). cbn. apply length_insert.
Qed.

Lemma tarjan_run_length fuel : ∀ s, length (tj_bridges (tarjan_run tc edges adj fuel s)) = length (tj_bridges s).
Proof.
  induction fuel as [|fuel IH]; intros s; [done|]. cbn [tarjan_run]. destruct (tj_stack s) eqn:Es; [done|].
  by rewrite IH, tarjan_step_length.
Qed.

(** The whole search ends with an empty stack, and flags bridges only. *)
Lemma tarjan_sound :
  let s := tarjan tc edges adj (length adj) in
  tj_stack s = [] ∧ length (tj_bridges s) = length edges ∧ ∀ id, tj_bridges s !! id = Some true → cut id.
Proof.
  unfold tarjan. set (s0 := {| tj_discovered := _ |}).
  assert (tarjan_ok s0) as Hok.
  { assert (∀ w, disc s0 w = 0%nat) as D by (intros w; apply nth_replicate_default).
    split; cbn; rewrite ?length_replicate; try done.
    - intros w. by rewrite D.
    - intros w w'. rewrite D. lia.
    - intros w _. apply nth_replicate_default.
    - intros id Hid. apply lookup_replicate in Hid as [? _]. done. }
  assert (∀ roots s, Forall (λ r, r < length adj)%nat roots → tarjan_ok s → tj_stack s = [] →
    let s' := fold_left (tarjan_root tc edges adj) roots s in
    tarjan_ok s' ∧ tj_stack s' = [] ∧ length (tj_bridges s') = length (tj_bridges s)) as H.
  { induction roots as [|r roots IH]; intros s Hr Hs Es; [done|]. apply Forall_cons in Hr as [Hr Hrs]. cbn.
    destruct (tarjan_root_ok s r Hs Es Hr) as [H1 H2]. destruct (IH _ Hrs H1 H2) as (H3 & H4 & H5).
    split_and!; [done..|]. rewrite H5. unfold tarjan_root. destruct (_ || _)%bool; [done|]. by rewrite tarjan_run_length. }
  destruct (H (seq 0 (length adj)) s0) as (H1 & H2 & H3); [|done|done|].
  { apply Forall_forall. intros r Hr. apply elem_of_seq in Hr. lia. }
  split_and!; [done| |apply (to_bridges _ H1)]. rewrite H3. apply length_replicate.
Qed.
End search.

(** ** The bipartite graph *)

Lemma bipartite_linked tc edges n :
  (∀ p t, (p, t) ∈ edges → (t < tc ∧ t < n ∧ tc + p < n)%nat) →
  length (bipartite tc edges n) = n ∧
  ∀ u x id, linked (bipartite tc edges n) u x id ↔ ∃ pool token, edges !! id = Some (pool, token) ∧
    ((u = token ∧ x = tc + pool) ∨ (u = tc + pool ∧ x = token))%nat.
Proof.
  unfold bipartite, linked. set (f := λ '(adj, edge_id) '(pool, token), _).
  enough (∀ edges, (∀ p t, (p, t) ∈ edges → (t < tc ∧ t < n ∧ tc + p < n)%nat) →
    let r := fold_left f edges (replicate n [], 0%nat) in
    r.2 = length edges ∧ length r.1 = n ∧
    ∀ u x id, (x, id) ∈ nth u r.1 [] ↔ ∃ pool token, edges !! id = Some (pool, token) ∧
      ((u = token ∧ x = tc + pool) ∨ (u = tc + pool ∧ x = token))%nat) as H.
  { intros He. destruct (H edges He) as (_ & H1 & H2). done. }
  clear edges. induction edges as [|[pool token] edges IH] using rev_ind; intros He; cbn zeta.
  { cbn. rewrite length_replicate. split_and!; [done..|]. intros u x id. rewrite nth_replicate_default. split.
    - by intros Hx%elem_of_nil.
    - by intros (pool & token & Hx & _). }
  rewrite fold_left_app. destruct IH as (H1 & H2 & H3). { intros p t Hpt. apply He, elem_of_app. by left. }
  destruct (fold_left f edges _) as [adj k] eqn:Ef. cbn in H1, H2, H3. subst k. cbn.
  destruct (He pool token) as (Ht & Htn & Hpn). { apply elem_of_app. right. by left. }
  rewrite !length_alter, length_app. cbn. split_and!; [lia|done|]. intros u x id.
  rewrite nth_alter_snoc, nth_alter_snoc by (rewrite ?length_alter; lia). rewrite !elem_of_app, H3. split.
  - intros [[(p & t & E & Hux)|Hx]|Hx].
    + exists p, t. by rewrite lookup_app_l by (by eapply lookup_lt_Some).
    + destruct (decide (u = token)) as [->|]; [|by apply elem_of_nil in Hx]. apply list_elem_of_singleton in Hx as [= -> ->].
      exists pool, token. rewrite lookup_app_r, Nat.sub_diag by done. by split; [|left].
    + destruct (decide (u = _)) as [->|]; [|by apply elem_of_nil in Hx]. apply list_elem_of_singleton in Hx as [= -> ->].
      exists pool, token. rewrite lookup_app_r, Nat.sub_diag by done. by split; [|right].
  - intros (p & t & E & Hux). apply lookup_app_Some in E as [E|[Hge E]]; [left; left; by exists p, t|].
    apply list_lookup_singleton_Some in E as [Hid [= <- <-]]. assert (id = length edges) as -> by lia.
    destruct Hux as [[-> ->]|[-> ->]]; [left; right|right]; rewrite decide_True by done; by left.
Qed.

Lemma bipartite_ok tc edges n :
  (∀ p t, (p, t) ∈ edges → (t < tc ∧ t < n ∧ tc + p < n)%nat) → incidence_ok tc edges (bipartite tc edges n).
Proof.
  intros He. destruct (bipartite_linked tc edges n He) as [Hlen Hl]. split.
  - intros u x id (p & t & E & Hux)%Hl. apply list_elem_of_lookup_2, He in E. lia.
  - intros u x id (p & t & E & Hux)%Hl. exists p, t. pose proof (list_elem_of_lookup_2 _ _ _ E) as Hin.
    destruct (He _ _ Hin) as (? & _). done.
  - intros u x id (p & t & E & Hux)%Hl. apply Hl. exists p, t. split; [done|lia].
Qed.

(** ** The mask *)

Lemma testbit_mask_bit w b c : (b < 64)%nat → (c < 64)%nat →
  Z.testbit (Z.lor w (wrap_u 64 (Z.shiftl 1 (Z.of_nat b)))) (Z.of_nat c)
  = (Z.testbit w (Z.of_nat c) || (b =? c)%nat)%bool.
Proof.
  intros Hb Hc. rewrite Z.lor_spec. f_equal. unfold wrap_u. rewrite Z.mod_pow2_bits_low by lia.
  rewrite Z.shiftl_1_l, Z.pow2_bits_eqb by lia. destruct (Nat.eqb_spec b c); lia.
Qed.

Lemma is_token_capable_testbit tc words pools t : (t < tc)%nat →
  is_token_capable {| cc_token_mask := words; cc_token_count := tc; cc_pool_indices := pools |} t
  = Z.testbit (default 0 (words !! (t / 64)%nat)) (Z.of_nat (t mod 64)).
Proof.
  intros Ht. unfold is_token_capable. cbn. rewrite (proj2 (Nat.leb_gt _ _) Ht).
  destruct (words !! _) as [w|]; cbn; [|by rewrite Z.bits_0].
  change 1 with (Z.ones 1) at 1. rewrite Z.land_ones by done. by rewrite Z.testbit_odd, Zodd_mod.
Qed.

Lemma length_mask_set words i : length (mask_set words i) = length words.
Proof. unfold mask_set. destruct (_ <? _)%nat; [apply length_alter|done]. Qed.

(** Setting one token sets its bit and no other. *)
Lemma mask_set_testbit words i t : (i / 64 < length words)%nat →
  Z.testbit (default 0 (mask_set words i !! (t / 64)%nat)) (Z.of_nat (t mod 64))
  = (Z.testbit (default 0 (words !! (t / 64)%nat)) (Z.of_nat (t mod 64)) || (i =? t)%nat)%bool.
Proof.
  intros Hi. unfold mask_set. rewrite (proj2 (Nat.ltb_lt _ _) Hi).
  pose proof (Nat.mod_upper_bound i 64 ltac:(done)). pose proof (Nat.mod_upper_bound t 64 ltac:(done)).
  pose proof (Nat.div_mod i 64 ltac:(done)). pose proof (Nat.div_mod t 64 ltac:(done)).
  rewrite list_lookup_alter. destruct (decide (i / 64 = t / 64)%nat) as [E|E].
  - rewrite E. destruct (lookup_lt_is_Some_2 words (t / 64) ltac:(lia)) as [w ->].
    etrans; [by apply testbit_mask_bit|]. f_equal. destruct (Nat.eqb_spec (i mod 64) (t mod 64)), (Nat.eqb_spec i t); lia || congruence.
  - destruct (Nat.eqb_spec i t) as [->|]; [done|]. by rewrite orb_false_r.
Qed.

(** ** The coverage of a list of incidences *)

Lemma coverage_of_spec bridges edges tc : (∀ p t, (p, t) ∈ edges → (t < tc)%nat) →
  let c := coverage_of bridges edges tc in
  (∀ p, p ∈ cc_pool_indices c ↔ ∃ t, (p, t) ∈ edges ∧ participating bridges edges p = true) ∧
  (∀ t, is_token_capable c t = true ↔ ∃ p, (p, t) ∈ edges ∧ participating bridges edges p = true).
Proof.
  intros He. unfold coverage_of. set (words := ((tc + 63) / 64)%nat). set (f := λ '(pools, mask) '(pool, token), _).
  enough (∀ es, (∀ p t, (p, t) ∈ es → (t < tc)%nat) →
    let r := fold_left f es (∅, replicate words 0) in
    length r.2 = words ∧
    (∀ p, p ∈ r.1 ↔ ∃ t, (p, t) ∈ es ∧ participating bridges edges p = true) ∧
    (∀ t, Z.testbit (default 0 (r.2 !! (t / 64)%nat)) (Z.of_nat (t mod 64)) = true ↔
       ∃ p, (p, t) ∈ es ∧ participating bridges edges p = true)) as H.
  { destruct (H edges He) as (_ & H1 & H2). destruct (fold_left f edges _) as [pools mask]. cbn [fst snd] in H1, H2.
    split; [done|]. intros t. destruct (decide (t < tc)%nat) as [Ht|Ht].
    - rewrite is_token_capable_testbit by done. apply H2.
    - split.
      + unfold is_token_capable. cbn. by rewrite (proj2 (Nat.leb_le _ _)) by lia.
      + intros (p & Hin & _). by apply He in Hin. }
  induction es as [|[pool token] es IH] using rev_ind; intros Hes; cbn zeta.
  { cbn. rewrite length_replicate. split_and!; [done| |]; intros x; split.
    - by intros ?%elem_of_empty.
    - by intros (? & ?%elem_of_nil & _).
    - rewrite lookup_replicate_default. by rewrite Z.bits_0.
    - by intros (? & ?%elem_of_nil & _). }
  rewrite fold_left_app. destruct IH as (H1 & H2 & H3). { intros p t Hpt. apply (Hes p). apply elem_of_app. by left. }
  destruct (fold_left f es _) as [pools mask]. cbn [fst snd] in H1, H2, H3. subst f. cbn [fold_left fst snd]. cbv beta iota.
  assert (token < tc)%nat as Ht. { apply (Hes pool). apply elem_of_app. right. by left. }
  assert (∀ p t, (p, t) ∈ es ++ [(pool, token)] ↔ (p, t) ∈ es ∨ (p = pool ∧ t = token)) as Happ.
  { intros p t. rewrite elem_of_app, list_elem_of_singleton. intuition congruence. }
  destruct (participating bridges edges pool) eqn:Ep; cbn [fst snd].
  - assert (token / 64 < length mask)%nat as Hw.
    { rewrite H1. unfold words. apply Nat.Div0.div_lt_upper_bound. pose proof (Nat.div_mod (tc + 63) 64 ltac:(done)).
      pose proof (Nat.mod_upper_bound (tc + 63) 64 ltac:(done)). lia. }
    split_and!.
    + by rewrite length_mask_set.
    + intros p. rewrite elem_of_union, elem_of_singleton, H2. setoid_rewrite Happ. split.
      * intros [->|(t & ? & ?)]; [exists token|exists t]; auto.
      * intros (t & [?|[-> ->]] & ?); [right; by exists t|by left].
    + intros t. rewrite mask_set_testbit, orb_true_iff, H3, Nat.eqb_eq by done. setoid_rewrite Happ. split.
      * intros [(p & ? & ?)| ->]; [exists p|exists pool]; auto.
      * intros (p & [?|[-> ->]] & ?); [left; by exists p|by right].
  - split_and!; [done| |].
    + intros p. rewrite H2. setoid_rewrite Happ. split.
      * intros (t & ? & ?). exists t. auto.
      * intros (t & [?|[-> ->]] & ?); [by exists t|congruence].
    + intros t. rewrite H3. setoid_rewrite Happ. split.
      * intros (p & ? & ?). exists p. auto.
      * intros (p & [?|[-> ->]] & ?); [by exists p|congruence].
Qed.
