(* ===== verification/CoverageClaims.v ===== *)
(** * What the coverage keeps

    A closed walk of live hops, through pools or through their hubs, that repeats no pool
    and no token lies in the coverage of a reachable graph: its pools are cycle-capable and
    so are its tokens. *)
From stdpp Require Import gmap relations.
From S2P Require Import Prelude Word Types Arena Routes Realign CycleRank SpotPrice Graph Coverage GraphOps GraphInv.
From S2P Require Import GraphSteps GraphClaims Bridges.

(** ** The incidences of a graph *)

Lemma fold_keeps {A} (f : gset (nat * nat) → A → gset (nat * nat)) l : (∀ inc a, inc ⊆ f inc a) →
  ∀ inc, inc ⊆ fold_left f l inc.
Proof. intros Hf. induction l as [|a l IH]; intros inc; cbn; [done|]. by rewrite <- IH. Qed.

Lemma fold_hits {A} (f : gset (nat * nat) → A → gset (nat * nat)) l a x : (∀ inc a, inc ⊆ f inc a) →
  a ∈ l → (∀ inc, x ∈ f inc a) → ∀ inc, x ∈ fold_left f l inc.
Proof.
  intros Hf Ha Hx. induction l as [|b l IH]; [by apply elem_of_nil in Ha|]. intros inc. cbn.
  apply elem_of_cons in Ha as [->|Ha]; [|by apply IH]. by apply (fold_keeps f l Hf).
Qed.

Lemma token_incidences_keeps inc ge : inc ⊆ token_incidences inc ge.
Proof. unfold token_incidences. destruct (negb _); [done|]. destruct (ge_phase ge); set_solver. Qed.

Lemma hub_incidences_keeps inc ge : inc ⊆ hub_incidences inc ge.
Proof. unfold hub_incidences. destruct (_ && _)%bool; set_solver. Qed.

Lemma token_incidence g node ge x : (node < token_slots g)%nat → ge ∈ adj_at g node →
  (∀ inc, x ∈ token_incidences inc ge) → x ∈ incidences g.
Proof.
  intros Hn Hge Hx. unfold incidences.
  apply (fold_keeps _ _ (λ inc l, fold_keeps _ l hub_incidences_keeps inc)).
  unfold adj_at in Hge. destruct (rg_adjacency g !! node) as [l|] eqn:El; [|by apply elem_of_nil in Hge].
  apply (fold_hits _ _ l).
  - intros inc l'. apply fold_keeps, token_incidences_keeps.
  - apply list_elem_of_lookup. exists node. by rewrite lookup_take_lt.
  - intros inc. by apply (fold_hits _ _ ge _ token_incidences_keeps).
Qed.

Lemma hub_incidence g node ge : (token_slots g ≤ node)%nat → ge ∈ adj_at g node →
  ge_phase ge = ExitPool → is_live_graph_edge ge = true → (ge_pool ge, e_out ge) ∈ incidences g.
Proof.
  intros Hn Hge Hp Hl. unfold incidences. unfold adj_at in Hge.
  destruct (rg_adjacency g !! node) as [l|] eqn:El; [|by apply elem_of_nil in Hge].
  apply (fold_hits _ _ l).
  - intros inc l'. apply fold_keeps, hub_incidences_keeps.
  - apply list_elem_of_lookup. exists (node - token_slots g)%nat. rewrite lookup_drop. by rewrite Nat.add_comm, Nat.sub_add.
  - intros inc. apply (fold_hits _ _ ge _ hub_incidences_keeps Hge). intros inc'. unfold hub_incidences.
    rewrite bool_decide_true, Hl by done. set_solver.
Qed.

(** ** Hops *)

(** A hop a route can make: a direct edge, or into the hub of a pool and out of it again.  The
    way out is an exit edge of the hub, or, since the search resolves the exits from the
    pool's legs when it takes them (and the shared hub of the Uniswap V4 pools has no exit
    edges at all), any other token with a leg into the hub for the same pool. *)
Inductive graph_hop (g : RoutingGraph) : nat * (nat * nat) → Prop :=
| direct_hop at_ ge :
    edge_at g at_ = Some ge → ge_phase ge = Direct → is_live_graph_edge ge = true →
    graph_hop g (ge_pool ge, (e_in ge, e_out ge))
| hub_hop at_ enter at' exit :
    edge_at g at_ = Some enter → ge_phase enter = EnterPool → is_live_graph_edge enter = true →
    edge_at g at' = Some exit → ge_phase exit = ExitPool → is_live_graph_edge exit = true →
    ge_pool enter = ge_pool exit →
    graph_hop g (ge_pool enter, (e_in enter, e_out exit))
| leg_hop at_ enter at' leg :
    edge_at g at_ = Some enter → ge_phase enter = EnterPool → is_live_graph_edge enter = true →
    edge_at g at' = Some leg → ge_phase leg = EnterPool → is_live_graph_edge leg = true →
    ge_pool enter = ge_pool leg →
    graph_hop g (ge_pool enter, (e_in enter, e_in leg)).

Lemma placed_pool g at_ ge : struct_ok g → edge_at g at_ = Some ge →
  (ge_pool ge < length (rg_pool_edge_positions g))%nat ∧ ge ∈ adj_at g at_.1.
Proof.
  intros Hok He. split.
  - destruct (go_exact _ Hok (ge_pool ge)) as [_ Hx].
    assert (at_ ∈ default [] (rg_pool_edge_positions g !! ge_pool ge)) as Hin by (apply Hx; by exists ge).
    destruct (rg_pool_edge_positions g !! ge_pool ge) as [l|] eqn:El; [by eapply lookup_lt_Some|by apply elem_of_nil in Hin].
  - rewrite edge_at_place in He. unfold place, adj_at in *. destruct (rg_adjacency g !! at_.1) as [l|]; [|done].
    by eapply list_elem_of_lookup_2.
Qed.

Lemma incidence_edges_intro g pool token :
  (pool, token) ∈ incidences g → (pool < length (rg_pool_edge_positions g))%nat → (token < token_slots g)%nat →
  (pool, token) ∈ incidence_edges g.
Proof. intros H1 H2 H3. unfold incidence_edges. apply list_elem_of_filter. split; [done|]. by apply elem_of_elements. Qed.

(** A live leg into a hub is an incidence of its pool. *)
Lemma enter_incidence g at_ ge : struct_ok g → edge_at g at_ = Some ge → ge_phase ge = EnterPool →
  is_live_graph_edge ge = true → (ge_pool ge, e_in ge) ∈ incidence_edges g.
Proof.
  intros Hok He Hp Hl. destruct (placed_pool g _ _ Hok He) as [Hpl Hin].
  pose proof (go_placed _ Hok _ _ He) as [_ Hq]. rewrite Hp in Hq.
  apply incidence_edges_intro; [|done|unfold e_in, token_slots; lia].
  apply (token_incidence g at_.1 ge); [unfold token_slots; lia|done|]. intros inc.
  unfold token_incidences. rewrite Hl, Hp. cbn. set_solver.
Qed.

(** Both ends of a hop are incidences. *)
Lemma hop_incidences g h : struct_ok g → graph_hop g h →
  (h.1, h.2.1) ∈ incidence_edges g ∧ (h.1, h.2.2) ∈ incidence_edges g.
Proof.
  intros Hok Hh. destruct Hh as [at_ ge He Hp Hl|at_ en at' ex He Hp Hl He' Hp' Hl' Hpool|at_ en at' leg He Hp Hl He' Hp' Hl' Hpool];
    cbn [fst snd].
  - destruct (placed_pool g _ _ Hok He) as [Hpl Hin]. pose proof (go_placed _ Hok _ _ He) as [_ Hq]. rewrite Hp in Hq.
    assert (at_.1 < token_slots g)%nat as Hn by (unfold token_slots; lia).
    split; apply incidence_edges_intro; try done.
    + apply (token_incidence g at_.1 ge); [done|done|]. intros inc. unfold token_incidences. rewrite Hl, Hp. cbn. set_solver.
    + unfold e_in, token_slots. lia.
    + apply (token_incidence g at_.1 ge); [done|done|]. intros inc. unfold token_incidences. rewrite Hl, Hp. cbn. set_solver.
    + unfold e_out, token_slots. lia.
  - split; [by eapply enter_incidence|]. rewrite Hpool.
    destruct (placed_pool g _ _ Hok He') as [Hpl' Hin']. pose proof (go_placed _ Hok _ _ He') as [_ Hq']. rewrite Hp' in Hq'.
    apply incidence_edges_intro; [|done|unfold e_out, token_slots; lia].
    apply (hub_incidence g at'.1); [unfold token_slots; lia|done..].
  - split; [by eapply enter_incidence|]. rewrite Hpool. by eapply enter_incidence.
Qed.

(** ** Rings *)

(** The hops lead from [t] to [t']. *)
Fixpoint leads (t : nat) (hops : list (nat * (nat * nat))) (t' : nat) : Prop :=
  match hops with
  | [] => t = t'
  | h :: hops => h.2.1 = t ∧ leads h.2.2 hops t'
  end.

Lemma leads_app a b t t' : leads t (a ++ b) t' ↔ ∃ m, leads t a m ∧ leads m b t'.
Proof.
  revert t. induction a as [|h a IH]; intros t; cbn.
  - split; [by exists t|]. by intros (m & -> & ?).
  - rewrite IH. naive_solver.
Qed.

Lemma leads_last hops t t' : hops ≠ [] → leads t hops t' → t' ∈ (λ h : nat * (nat * nat), h.2.2) <$> hops.
Proof.
  revert t. induction hops as [|h hops IH]; intros t Hn; [done|]. cbn. intros [_ Hl].
  destruct hops as [|h' hops]; [cbn in Hl; subst; left|]. right. by eapply IH.
Qed.

(** A closed walk of live hops, no pool and no token twice. *)
Record ring (g : RoutingGraph) (hops : list (nat * (nat * nat))) : Prop := {
  ri_hops : Forall (graph_hop g) hops;
  ri_long : (2 ≤ length hops)%nat;
  ri_closed : ∃ t, leads t hops t;
  ri_pools : NoDup hops.*1;
  ri_tokens : NoDup ((λ h : nat * (nat * nat), h.2.2) <$> hops);
}.

Lemma two_elements {A} (l : list A) x y : x ∈ l → y ∈ l → x ≠ y → (2 ≤ length l)%nat.
Proof.
  intros Hx Hy Hne. destruct l as [|a [|b l]]; cbn; [|exfalso|lia].
  - by apply elem_of_nil in Hx.
  - apply list_elem_of_singleton in Hx, Hy. congruence.
Qed.

Section ring.
Context (tc : nat) (edges : list (nat * nat)) (adj : list (list (nat * nat))).
Context (Hio : incidence_ok tc edges adj).
Context (Hlinked : ∀ u x id, linked adj u x id ↔ ∃ pool token, edges !! id = Some (pool, token) ∧
    ((u = token ∧ x = tc + pool) ∨ (u = tc + pool ∧ x = token))%nat).

(** The other hops lead around an incidence of a pool they do not use. *)
Lemma leads_around id pool token hops : edges !! id = Some (pool, token) → pool ∉ hops.*1 →
  Forall (λ h : nat * (nat * nat), (h.1, h.2.1) ∈ edges ∧ (h.1, h.2.2) ∈ edges) hops →
  ∀ t t', leads t hops t' → rtc (around adj id) t t'.
Proof.
  intros Hid. induction hops as [|h hops IH]; intros Hp Hf t t'; cbn; [by intros ->|]. intros [<- Hl].
  cbn in Hp. apply not_elem_of_cons in Hp as [Hne Hp]. apply Forall_cons in Hf as [[Ha Hb] Hf].
  apply list_elem_of_lookup in Ha as [a Ha], Hb as [b Hb].
  apply (rtc_l _ _ (tc + h.1)%nat); [|apply (rtc_l _ _ h.2.2); [|by apply IH]].
  - exists a. split; [intros ->; congruence|]. apply Hlinked. exists h.1, h.2.1. auto.
  - exists b. split; [intros ->; congruence|]. apply Hlinked. exists h.1, h.2.2. auto.
Qed.

Lemma around_symmetric id a b : rtc (around adj id) a b → rtc (around adj id) b a.
Proof.
  induction 1 as [|x y z (id' & Hne & Hl) _ IH]; [done|]. eapply rtc_r; [exact IH|]. exists id'. split; [done|].
  by apply (io_sym _ _ _ Hio).
Qed.

(** Neither incidence of a hop of a ring is a cut. *)
Lemma ring_no_cut pool tin tout others id id' :
  edges !! id = Some (pool, tin) → edges !! id' = Some (pool, tout) → tin ≠ tout → pool ∉ others.*1 →
  Forall (λ h : nat * (nat * nat), (h.1, h.2.1) ∈ edges ∧ (h.1, h.2.2) ∈ edges) others →
  leads tout others tin → ¬ cut adj id ∧ ¬ cut adj id'.
Proof.
  intros Hi Hi' Hne Hp Hf Hl.
  assert (linked adj (tc + pool) tin id) as L by (apply Hlinked; exists pool, tin; auto).
  assert (linked adj (tc + pool) tout id') as L' by (apply Hlinked; exists pool, tout; auto).
  assert (id ≠ id') as Hid by congruence. split; intros Hcut.
  - apply (cut_separates tc edges adj Hio _ _ _ Hcut L). apply (rtc_l _ _ tout).
    + by exists id'.
    + by eapply leads_around.
  - apply (cut_separates tc edges adj Hio _ _ _ Hcut L'). apply (rtc_l _ _ tin).
    + by exists id.
    + apply around_symmetric. by eapply leads_around.
Qed.
End ring.

Lemma participating_two bridges edges pool t t' id id' :
  edges !! id = Some (pool, t) → edges !! id' = Some (pool, t') → t ≠ t' →
  bridges !! id = Some false → bridges !! id' = Some false → participating bridges edges pool = true.
Proof.
  intros Hi Hi' Hne Hb Hb'. unfold participating. apply Nat.leb_le.
  apply (two_elements _ (pool, t, false) (pool, t', false)); [| |congruence]; apply list_elem_of_filter; (split; [done|]);
    apply list_elem_of_lookup; [exists id|exists id']; rewrite lookup_zip_with; by simplify_option_eq.
Qed.

Lemma incidence_edges_range g p t : (p, t) ∈ incidence_edges g →
  (t < token_slots g ∧ t < token_slots g + length (rg_pool_edge_positions g) ∧
   token_slots g + p < token_slots g + length (rg_pool_edge_positions g))%nat.
Proof. unfold incidence_edges. intros [[H1 H2] _]%list_elem_of_filter. cbn in *. lia. Qed.

(** Two incidences of a pool that are no cuts put the pool and their tokens in. *)
Lemma coverage_of_graph g pool t t' :
  let adj := bipartite (token_slots g) (incidence_edges g) (token_slots g + length (rg_pool_edge_positions g)) in
  (pool, t) ∈ incidence_edges g → (pool, t') ∈ incidence_edges g → t ≠ t' →
  (∀ id, incidence_edges g !! id = Some (pool, t) ∨ incidence_edges g !! id = Some (pool, t') → ¬ cut adj id) →
  let c := cycle_capable_coverage g in
  pool ∈ cc_pool_indices c ∧ is_token_capable c t = true ∧ is_token_capable c t' = true.
Proof.
  intros adj H H' Hne Hcut. cbn zeta. unfold cycle_capable_coverage. fold adj.
  assert (incidence_ok (token_slots g) (incidence_edges g) adj) as Hio by apply bipartite_ok, incidence_edges_range.
  destruct (bipartite_linked (token_slots g) (incidence_edges g) _ (incidence_edges_range g)) as [Hlen _].
  pose proof (tarjan_sound _ _ _ Hio) as (_ & Hbl & Hb). fold adj in Hlen. rewrite Hlen in Hbl, Hb.
  set (bridges := tj_bridges (tarjan _ _ adj _)) in *.
  assert (∀ id p u, incidence_edges g !! id = Some (p, u) → ¬ cut adj id → bridges !! id = Some false) as Hfalse.
  { intros id p u Hid Hc. destruct (lookup_lt_is_Some_2 bridges id) as [b Eb].
    - rewrite Hbl. by eapply lookup_lt_Some.
    - destruct b; [|done]. by destruct Hc; apply Hb. }
  apply list_elem_of_lookup in H as [id Hid] , H' as [id' Hid'].
  assert (participating bridges (incidence_edges g) pool = true) as Hpart.
  { eapply (participating_two _ _ _ t t' id id'); [done..| |]; eapply Hfalse; eauto. }
  destruct (coverage_of_spec bridges (incidence_edges g) (token_slots g)) as [Hp Ht].
  { intros p u Hpu. by destruct (incidence_edges_range _ _ _ Hpu). }
  apply list_elem_of_lookup_2 in Hid, Hid'.
  rewrite Hp, !Ht. split_and!; [by exists t|by exists pool|by exists pool].
Qed.

(** C25: Whatever history built the graph, the bridge search never drops a cycle: on every
    closed walk of live hops that repeats no pool and no token, all pools and all tokens are
    in the coverage.  A hop is a direct edge or goes through a hub: in by a leg of the pool
    and out by one of its exit edges or, as every hop of a Uniswap V4 pool does, to another
    token that has a leg of the pool. *)
Theorem coverage_keeps_cycles ln_f64 g hops :
  reachable ln_f64 g → ring g hops →
  let c := cycle_capable_coverage g in
  ∀ pool tin tout, (pool, (tin, tout)) ∈ hops →
    pool ∈ cc_pool_indices c ∧ is_token_capable c tin = true ∧ is_token_capable c tout = true.
Proof.
  intros Hr [Hhops Hlong [t0 Hl] Hpools Htokens] c pool tin tout Hin.
  destruct (reachable_ok ln_f64 g Hr) as [Hok _].
  apply list_elem_of_split in Hin as (l1 & l2 & ->).
  apply leads_app in Hl as (m & Hl1 & Hl2). cbn in Hl2. destruct Hl2 as [<- Hl2].
  assert (leads tout (l2 ++ l1) tin) as Hring by (apply leads_app; by exists t0).
  assert (Forall (λ h : nat * (nat * nat), (h.1, h.2.1) ∈ incidence_edges g ∧ (h.1, h.2.2) ∈ incidence_edges g)
    (l1 ++ (pool, (tin, tout)) :: l2)) as Hinc.
  { eapply Forall_impl; [exact Hhops|]. intros h. by apply hop_incidences. }
  apply Forall_app in Hinc as [Hi1 Hi2]. apply Forall_cons in Hi2 as [[Ha Hb] Hi2]. cbn in Ha, Hb.
  rewrite fmap_app, fmap_cons in Hpools, Htokens. cbn in Hpools, Htokens.
  rewrite (Permutation_app_comm l1.*1), <- app_comm_cons, NoDup_cons, <- fmap_app in Hpools.
  rewrite (Permutation_app_comm (_ <$> l1)), <- app_comm_cons, NoDup_cons, <- fmap_app in Htokens.
  destruct Hpools as [Hp _], Htokens as [Ht _].
  assert (tin ≠ tout) as Hne.
  { intros ->. apply Ht. apply (leads_last _ tout); [|done]. intros E. rewrite length_app in Hlong. cbn in Hlong.
    apply (f_equal length) in E. rewrite length_app in E. cbn in E. lia. }
  pose proof (incidence_edges_range g) as Hrange.
  apply coverage_of_graph; [done..|]. intros id Hid Hcut.
  apply list_elem_of_lookup in Ha as [a Ha], Hb as [b Hb].
  pose proof (proj2 (Forall_app _ _ _) (conj Hi2 Hi1)) as Hothers.
  pose proof (ring_no_cut _ _ _ (bipartite_ok _ _ _ Hrange) (proj2 (bipartite_linked _ _ _ Hrange)) pool tin tout (l2 ++ l1)) as Hno.
  destruct Hid as [Hid|Hid]; [by destruct (Hno id b)|by destruct (Hno a id)].
Qed.

(** ** Witnesses: a ring of pairs and a ring of Uniswap V4 pools *)

Definition demo_ring : list (nat * (nat * nat)) := [(0, (0, 1)); (1, (1, 2)); (2, (2, 0))]%nat.

Definition demo_hop_ok (g : RoutingGraph) (phase phase' : GraphHopPhase) (pool tin tout : nat) (at_ at' : nat * nat) : bool :=
  match edge_at g at_, edge_at g at' with
  | Some ge, Some ge' =>
      bool_decide (ge_phase ge = phase) && is_live_graph_edge ge && bool_decide (ge_phase ge' = phase')
        && is_live_graph_edge ge' && bool_decide (ge_pool ge = ge_pool ge')
        && bool_decide ((ge_pool ge, (e_in ge, if bool_decide (phase = Direct) then e_out ge' else e_in ge'))
                        = (pool, (tin, tout)))
  | _, _ => false
  end%bool.

Lemma demo_direct g pool tin tout at_ :
  demo_hop_ok g Direct Direct pool tin tout at_ at_ = true → graph_hop g (pool, (tin, tout)).
Proof.
  unfold demo_hop_ok. destruct (edge_at g at_) as [ge|] eqn:He; [|done]. intros H.
  apply andb_prop in H as [[[[[Hp%bool_decide_eq_true Hl]%andb_prop _]%andb_prop _]%andb_prop _]%andb_prop Hq%bool_decide_eq_true].
  rewrite <- Hq. by eapply direct_hop.
Qed.

Lemma demo_leg g pool tin tout at_ at' :
  demo_hop_ok g EnterPool EnterPool pool tin tout at_ at' = true → graph_hop g (pool, (tin, tout)).
Proof.
  unfold demo_hop_ok. destruct (edge_at g at_) as [ge|] eqn:He; [|done]. destruct (edge_at g at') as [ge'|] eqn:He'; [|done].
  intros H. apply andb_prop in H as [[[[[Hp%bool_decide_eq_true Hl]%andb_prop Hp'%bool_decide_eq_true]%andb_prop
    Hl']%andb_prop Hpool%bool_decide_eq_true]%andb_prop Hq%bool_decide_eq_true].
  rewrite <- Hq. by eapply leg_hop.
Qed.

Lemma demo_ring_closed g : Forall (graph_hop g) demo_ring → ring g demo_ring.
Proof.
  intros Hh. split; [done|cbn; lia|by exists 0%nat|..]; apply (bool_decide_unpack _); vm_compute; exact I.
Qed.

Lemma demo_is_ring : ring demo_rescored_graph demo_ring.
Proof.
  apply demo_ring_closed.
  apply Forall_cons_2; [apply (demo_direct _ _ _ _ (0, 1)%nat); vm_compute; reflexivity|].
  apply Forall_cons_2; [apply (demo_direct _ _ _ _ (1, 1)%nat); vm_compute; reflexivity|].
  apply Forall_cons_2; [apply (demo_direct _ _ _ _ (2, 1)%nat); vm_compute; reflexivity|done].
Qed.

Definition demo_arena_v4 : StateArena :=
  foldl (λ a p, (register_pool demo_hash a p (PV4 UniswapV3.demo_pool) false).1) demo_tokens3 [500; 501; 502].

Definition demo_v4_meta (pool t0 t1 : Z) : PoolMeta :=
  {| pm_pool_index := pool; pm_protocol := UniswapV4; pm_tokens := [t0; t1]; pm_fee_bps := 30;
     pm_bpt_index := None; pm_pool_id := Some 1; pm_protocol_label := None; pm_pool_type := None;
     pm_hooks := None; pm_tick_spacing := Some 60 |}.

Definition demo_attach_v4 (g : RoutingGraph) (pool t0 t1 : Z) : RoutingGraph :=
  match attach_pool_to_graph 0 g demo_arena_v4 (demo_v4_meta pool t0 t1) None with
  | Done (g, _) => g
  | Panic => g
  end.

Definition demo_graph_v4 : RoutingGraph :=
  demo_attach_v4 (demo_attach_v4 (demo_attach_v4 (graph_new 3) 0 0 1) 1 1 2) 2 2 0.

(** The pairs of the V4 ring name tokens of the arena. *)
Lemma demo_v4_names pool t0 t1 :
  ((0 <=? pool) && (0 <=? t0) && (t0 <? 3) && (0 <=? t1) && (t1 <? 3))%bool = true →
  names_tokens demo_arena_v4 (demo_v4_meta pool t0 t1).
Proof.
  intros H. repeat (apply andb_prop in H as [H ?]). rewrite ?Z.leb_le, ?Z.ltb_lt in *.
  split_and!; [|done|].
  - repeat constructor; change (arena_token_count demo_arena_v4) with 3; lia.
  - intros a t Ht. change (arena_token_count demo_arena_v4) with 3.
    assert (forallb (λ p : Z * Z, (0 <=? p.2) && (p.2 <? 3))%bool (map_to_list (ai_address_to_token (sa_inner demo_arena_v4))) = true)
      as Hall by (vm_compute; reflexivity).
    rewrite forallb_forall in Hall. specialize (Hall (a, t)). apply elem_of_map_to_list, list_elem_of_In, Hall in Ht.
    cbn in Ht. lia.
Qed.

Definition demo_v4_attaches (g : RoutingGraph) (pool t0 t1 : Z) : bool :=
  match attach_pool_to_graph 0 g demo_arena_v4 (demo_v4_meta pool t0 t1) None with
  | Done (_, attached) => attached
  | Panic => false
  end.

Lemma demo_v4_step ln_f64 g pool t0 t1 :
  ((0 <=? pool) && (0 <=? t0) && (t0 <? 3) && (0 <=? t1) && (t1 <? 3))%bool = true →
  demo_v4_attaches g pool t0 t1 = true → graph_step ln_f64 g (demo_attach_v4 g pool t0 t1).
Proof.
  intros Hn%demo_v4_names Hok. unfold demo_v4_attaches, demo_attach_v4 in *.
  destruct (attach_pool_to_graph _ _ _ _ _) as [[g' b]|] eqn:Ha; [|done]. by eapply step_attach.
Qed.

Lemma demo_v4_reachable : reachable (λ x, x) demo_graph_v4.
Proof.
  exists 3. split; [lia|]. unfold demo_graph_v4.
  eapply rtc_l; [apply (demo_v4_step _ _ 0 0 1); vm_compute; reflexivity|].
  eapply rtc_l; [apply (demo_v4_step _ _ 1 1 2); vm_compute; reflexivity|].
  apply rtc_once, (demo_v4_step _ _ 2 2 0); vm_compute; reflexivity.
Qed.

Lemma demo_v4_is_ring : ring demo_graph_v4 demo_ring.
Proof.
  apply demo_ring_closed.
  apply Forall_cons_2; [apply (demo_leg _ _ _ _ (0, 0)%nat (1, 0)%nat); vm_compute; reflexivity|].
  apply Forall_cons_2; [apply (demo_leg _ _ _ _ (1, 1)%nat (2, 0)%nat); vm_compute; reflexivity|].
  apply Forall_cons_2; [apply (demo_leg _ _ _ _ (2, 1)%nat (0, 1)%nat); vm_compute; reflexivity|done].
Qed.

(** Direct pairs, and V4 pools, of which no edge of the graph is an exit. *)
Lemma coverage_keeps_cycles_witness :
  ring demo_rescored_graph demo_ring ∧
  1%nat ∈ cc_pool_indices (cycle_capable_coverage demo_rescored_graph) ∧
  Forall (λ ge, ge_phase ge ≠ ExitPool) (concat (rg_adjacency demo_graph_v4)) ∧
  1%nat ∈ cc_pool_indices (cycle_capable_coverage demo_graph_v4).
Proof.
  split; [exact demo_is_ring|]. split; [|split].
  - apply (coverage_keeps_cycles (λ x, x) demo_rescored_graph demo_ring demo_reachable demo_is_ring 1 1 2).
    right. left.
  - apply (bool_decide_unpack _). vm_compute. exact I.
  - apply (coverage_keeps_cycles (λ x, x) demo_graph_v4 demo_ring demo_v4_reachable demo_v4_is_ring 1 1 2).
    right. left.
Defined.
