(* ===== verification/Deadline.v ===== *)
(** * The evaluation deadline

    [src/src/pipeline/deadline.rs].  The clock is a parameter: [now k] is the answer of the
    [k]-th call of [Instant::now], and a guard counts the calls it has made. *)
From stdpp Require Import base gmap list.
From S2P Require Import Prelude Word.

Definition DEADLINE_CHECK_INTERVAL : Z := 256.
Definition DEADLINE_CHECK_MASK : Z := DEADLINE_CHECK_INTERVAL - 1.

Record DeadlineGuard := {
  dg_deadline : Z;
  dg_ops : Z;
  dg_expired : bool;
}.

(** The flag the threads share, and the counter of each thread. *)
Record SharedDeadlineGuard := {
  sg_deadline : Z;
  sg_expired : bool;
  sg_local_ops : gmap nat Z;
}.

Section deadline.
Context (now : nat → Z).

(** The state is the guard and the number of readings of the clock. *)
Definition guard_new (budget : Z) (k : nat) : DeadlineGuard * nat :=
  ({| dg_deadline := now k + budget; dg_ops := 0; dg_expired := false |}, S k).

Definition tick (st : DeadlineGuard * nat) : bool * (DeadlineGuard * nat) :=
  let '(self, k) := st in
  if dg_expired self then (true, st)
  else
    let ops := wrap_u 32 (dg_ops self + 1) in
    if Z.land ops DEADLINE_CHECK_MASK =? 0 then
      let expired := dg_deadline self <? now k in
      (expired, ({| dg_deadline := dg_deadline self; dg_ops := ops; dg_expired := expired |}, S k))
    else (false, ({| dg_deadline := dg_deadline self; dg_ops := ops; dg_expired := false |}, k)).

(** The counters of the threads outlive the guard. *)
Definition shared_guard_new (budget : Z) (local_ops : gmap nat Z) (k : nat) : SharedDeadlineGuard * nat :=
  ({| sg_deadline := now k + budget; sg_expired := false; sg_local_ops := local_ops |}, S k).

(** One [tick] of thread [tid]; the loads and the store of one call are one step. *)
Definition shared_tick (tid : nat) (st : SharedDeadlineGuard * nat) : bool * (SharedDeadlineGuard * nat) :=
  let '(self, k) := st in
  if sg_expired self then (true, st)
  else
    let ops := default 0 (sg_local_ops self !! tid) in
    let local := <[tid := wrap_u 32 (ops + 1)]> (sg_local_ops self) in
    if Z.land ops DEADLINE_CHECK_MASK =? 0 then
      let expired := sg_deadline self <? now k in
      (expired, ({| sg_deadline := sg_deadline self; sg_expired := expired; sg_local_ops := local |}, S k))
    else (false, ({| sg_deadline := sg_deadline self; sg_expired := false; sg_local_ops := local |}, k)).

(** The answers of [n] calls in a row. *)
Fixpoint ticks (n : nat) (st : DeadlineGuard * nat) : list bool * (DeadlineGuard * nat) :=
  match n with
  | O => ([], st)
  | S n => let '(b, st) := tick st in let '(bs, st) := ticks n st in (b :: bs, st)
  end.

Fixpoint shared_ticks (tids : list nat) (st : SharedDeadlineGuard * nat)
  : list bool * (SharedDeadlineGuard * nat) :=
  match tids with
  | [] => ([], st)
  | tid :: tids => let '(b, st) := shared_tick tid st in let '(bs, st) := shared_ticks tids st in (b :: bs, st)
  end.

(** ** Expiry *)

Lemma deadline_mask x : Z.land x DEADLINE_CHECK_MASK = x mod 256.
Proof. unfold DEADLINE_CHECK_MASK, DEADLINE_CHECK_INTERVAL. change (256 - 1) with (Z.ones 8). by rewrite Z.land_ones. Qed.

Lemma wrap_mod_256 x : wrap_u 32 x mod 256 = x mod 256.
Proof.
  unfold wrap_u. apply Z.mod_mod_divide. by exists (2 ^ 24).
Qed.

Lemma expired_stays st n : dg_expired st.1 = true → ticks n st = (replicate n true, st).
Proof.
  destruct st as [self k]. cbn. intros He. induction n as [|n IH]; [done|]. cbn. unfold tick. rewrite He, IH. done.
Qed.

(** The call that finds the count at a multiple of 256. *)
Lemma ticks_until_check n : ∀ self k,
  dg_expired self = false → (∀ j, (k ≤ j)%nat → dg_deadline self < now j) →
  (dg_ops self + Z.of_nat n) mod 256 = 0 → (0 < n)%nat →
  dg_expired (ticks n (self, k)).2.1 = true.
Proof.
  induction n as [|n IH]; intros self k He Hnow Hops Hn; [lia|]. cbn [ticks]. unfold tick. rewrite He.
  rewrite deadline_mask, wrap_mod_256. destruct (Z.eqb_spec ((dg_ops self + 1) mod 256) 0) as [E|E].
  - rewrite (proj2 (Z.ltb_lt _ _)) by (apply Hnow; lia).
    match goal with |- context [ticks n ?st] => rewrite (expired_stays st n) by done end. done.
  - destruct n as [|n]; [destruct E; rewrite <- Hops; f_equal; lia|].
    match goal with |- context [ticks (S n) ?st] => destruct (ticks (S n) st) as [bs st'] eqn:Et;
      assert (dg_expired (ticks (S n) st).2.1 = true) as Hx end.
    + apply IH; cbn [dg_expired dg_ops dg_deadline]; [done|done| |lia].
      rewrite Z.add_mod, wrap_mod_256, <- Z.add_mod by done. rewrite <- Hops. f_equal. lia.
    + by rewrite Et in Hx.
Qed.

(** Once the clock has passed the deadline the guard expires within 256 ticks, and then
    stays expired: every later tick says so without another look at the clock. *)
Theorem deadline_expires self k :
  (∀ j, (k ≤ j)%nat → dg_deadline self < now j) →
  ∃ n, (n ≤ 256)%nat ∧ ∃ st, (ticks n (self, k)).2 = st ∧ dg_expired st.1 = true ∧
    ∀ m, ticks m st = (replicate m true, st).
Proof.
  intros Hnow. destruct (dg_expired self) eqn:He.
  { exists 0%nat. split; [lia|]. exists (self, k). split_and!; [done..|]. intros m. by apply expired_stays. }
  exists (Z.to_nat (256 - dg_ops self mod 256)). pose proof (Z.mod_pos_bound (dg_ops self) 256 eq_refl).
  split; [lia|]. eexists. split; [done|].
  assert (dg_expired (ticks (Z.to_nat (256 - dg_ops self mod 256)) (self, k)).2.1 = true) as Hx.
  { apply ticks_until_check; [done..| |lia]. rewrite Z2Nat.id by lia.
    rewrite (Z.div_mod (dg_ops self) 256) at 1 by done. 
    replace (256 * (dg_ops self / 256) + dg_ops self mod 256 + (256 - dg_ops self mod 256))
      with ((dg_ops self / 256 + 1) * 256) by lia. by apply Z.mod_mul. }
  split; [done|]. intros m. by apply expired_stays.
Qed.

(** ** No early expiry *)

Lemma ticks_before n : ∀ self k,
  dg_expired self = false → (∀ j, now j ≤ dg_deadline self) → (ticks n (self, k)).1 = replicate n false.
Proof.
  induction n as [|n IH]; intros self k He Hnow; [done|]. cbn [ticks]. unfold tick. rewrite He.
  destruct (_ =? 0).
  - rewrite (proj2 (Z.ltb_ge _ _)) by apply Hnow.
    match goal with |- context [ticks n ?st] => pose proof (IH st.1 st.2 eq_refl Hnow) as Hx;
      change (st.1, st.2) with st in Hx; destruct (ticks n st) end.
    cbn in *. by f_equal.
  - match goal with |- context [ticks n ?st] => pose proof (IH st.1 st.2 eq_refl Hnow) as Hx;
      change (st.1, st.2) with st in Hx; destruct (ticks n st) end.
    cbn in *. by f_equal.
Qed.

(** ** The guard of the parallel search *)

Lemma shared_expired_stays tids st : sg_expired st.1 = true → shared_ticks tids st = (replicate (length tids) true, st).
Proof.
  destruct st as [self k]. cbn. intros He. induction tids as [|t tids IH]; [done|]. cbn [shared_ticks length replicate].
  unfold shared_tick at 1. by rewrite He, IH.
Qed.

Definition next_check (self : SharedDeadlineGuard) (tid : nat) : Z :=
  (- default 0 (sg_local_ops self !! tid)) mod 256.

Abbreviation calls_of tid tids := (Z.of_nat (length (filter (λ t, t = tid) tids))).

(** However the calls of the threads interleave, 256 calls of one thread after the deadline
    end the search of all of them. *)
Theorem shared_deadline_expires tid tids : ∀ self k,
  (∀ j, (k ≤ j)%nat → sg_deadline self < now j) → next_check self tid < calls_of tid tids →
  sg_expired (shared_ticks tids (self, k)).2.1 = true.
Proof.
  induction tids as [|t tids IH]; intros self k Hnow Hc.
  { unfold next_check in Hc. cbn in Hc. pose proof (Z.mod_pos_bound (- default 0 (sg_local_ops self !! tid)) 256 eq_refl). lia. }
  cbn [shared_ticks]. unfold shared_tick at 1. destruct (sg_expired self) eqn:He.
  { pose proof (shared_expired_stays tids (self, k) He) as ->. done. }
  rewrite deadline_mask. set (ops := default 0 (sg_local_ops self !! t)).
  destruct (Z.eqb_spec (ops mod 256) 0) as [E|E].
  - rewrite (proj2 (Z.ltb_lt _ _)) by (apply Hnow; lia).
    match goal with |- context [shared_ticks tids ?st] => rewrite (shared_expired_stays tids st) by done end. done.
  - match goal with |- context [shared_ticks tids ?st] => destruct (shared_ticks tids st) as [bs st'] eqn:Et;
      assert (sg_expired (shared_ticks tids st).2.1 = true) as Hx end; [|by rewrite Et in Hx].
    apply IH; [done|]. unfold next_check in *. cbn [sg_local_ops].
    destruct (decide (t = tid)) as [->|Hne].
    + rewrite filter_cons_True in Hc by done. cbn [length] in Hc. rewrite lookup_insert_eq. cbn [default].
      enough ((- wrap_u 32 (ops + 1)) mod 256 = (- ops) mod 256 - 1) by (fold ops in Hc; cbn [default from_option]; unfold id; lia).
      rewrite <- (Z.sub_0_l (wrap_u _ _)), Zminus_mod, wrap_mod_256, <- Zminus_mod.
      replace (0 - (ops + 1)) with (- ops + -1) by lia.
      pose proof (Z.mod_pos_bound (- ops) 256 eq_refl).
      assert ((- ops) mod 256 ≠ 0). { intros Z0. apply E. apply Z.mod_divide in Z0 as [q Hq]; [|done].
        apply Z.mod_divide; [done|]. exists (- q). lia. }
      symmetry. apply (Z.mod_unique_pos _ _ ((- ops) / 256)); [lia|].
      pose proof (Z.div_mod (- ops) 256 ltac:(done)). lia.
    + rewrite filter_cons_False in Hc by done. by rewrite lookup_insert_ne.
Qed.
End deadline.

Definition demo_guard : DeadlineGuard := {| dg_deadline := 9; dg_ops := 5; dg_expired := false |}.

Lemma deadline_expires_witness :
  ∃ n, (n ≤ 256)%nat ∧ dg_expired (ticks (λ _, 10) n (demo_guard, 0%nat)).2.1 = true.
Proof.
  destruct (deadline_expires (λ _, 10) demo_guard 0) as (n & Hn & st & Hst & He & _); [intros; cbn; lia|].
  exists n. split; [exact Hn|]. rewrite Hst. exact He.
Defined.

Lemma shared_deadline_expires_witness :
  sg_expired (shared_ticks (λ _, 10) (concat (replicate 256 [0; 1]%nat))
    ({| sg_deadline := 9; sg_expired := false; sg_local_ops := {[1%nat := 3]} |}, 0%nat)).2.1 = true.
Proof. apply (shared_deadline_expires (λ _, 10) 1); [intros; cbn; lia|vm_compute; reflexivity]. Defined.
