(* ===== verification/BellmanFord.v ===== *)
(** * Bellman-Ford search for profitable cycles

    [src/src/pipeline/weighted_graph.rs], [negative_cycle.rs] and [bellman_ford.rs]: the
    projection of the routing graph, the bounded relaxation from one source, the
    extraction of the cycles through the predecessors, and the passes over the sources. *)
From stdpp Require Import gmap sorting.
From Stdlib Require Import SpecFloat.
From S2P Require Import Prelude Word Types Routes CycleRank SpotPrice Graph Deadline.

Record WeightedEdge := {
  we_edge : Edge;
  we_weight : f64;
  we_ratio : Z;
}.

(** ** The projection of the graph *)

Definition weigh (token_slots : nat) (ge : GraphEdge) : option WeightedEdge :=
  if (negb (bool_decide (ge_phase ge = Direct)) || negb (is_live_graph_edge ge))%bool then None
  else if (token_slots <=? Z.to_nat (token_out (ge_edge ge)))%nat then None
  else Some {| we_edge := ge_edge ge; we_weight := ge_log_weight ge; we_ratio := ge_ratio ge |}.

Definition build_weighted_adjacency (g : RoutingGraph) : list (list WeightedEdge) :=
  (λ edges : list GraphEdge, omap (weigh (token_slots g)) edges) <$> take (token_slots g) (rg_adjacency g).

(** ** Simple cycles *)

(** The tests of one position against the earlier ones. *)
Definition position_ok (edges : list Edge) (start : TokenIndex) (i : nat) (e : Edge) : bool :=
  let earlier := take i edges in
  (negb (existsb (λ e', pool_index e' =? pool_index e) earlier)
   && (negb (i <? length edges - 1)%nat
       || (negb (token_out e =? start) && negb (existsb (λ e', token_out e' =? token_out e) earlier))))%bool.

Definition is_simple_cycle (edges : list Edge) : option nat :=
  match edges with
  | first :: _ :: _ =>
      let start := token_in first in
      if bool_decide (token_out <$> last edges ≠ Some start) then None
      else if forallb (λ ie : nat * Edge, position_ok edges start ie.1 ie.2) (zip (seq 0 (length edges)) edges)
      then Some (estimate_packed_route_calls edges) else None
  | _ => None
  end.

(** ** The arrays of the search *)

Record BfScratch := {
  bf_dist : list f64;
  bf_dist_ratio : list Z;
  bf_pred_node : list (option TokenIndex);
  bf_pred_edge : list (option WeightedEdge);
  bf_in_next : list bool;
  bf_visited : list Z;
  bf_gen : Z;
}.

(** [active] and [next_active] are cleared here and at the start of each source, so they
    carry nothing over. *)
Definition prepare (self : BfScratch) (token_count : nat) : BfScratch :=
  if (length (bf_dist self) <? token_count)%nat then
    {| bf_dist := resize token_count f_inf (bf_dist self);
       bf_dist_ratio := resize token_count ONE (bf_dist_ratio self);
       bf_pred_node := resize token_count None (bf_pred_node self);
       bf_pred_edge := resize token_count None (bf_pred_edge self);
       bf_in_next := resize token_count false (bf_in_next self);
       bf_visited := resize token_count 0 (bf_visited self);
       bf_gen := bf_gen self |}
  else
    let fill {A} (x : A) l := replicate token_count x ++ drop token_count l in
    {| bf_dist := fill f_inf (bf_dist self); bf_dist_ratio := fill ONE (bf_dist_ratio self);
       bf_pred_node := fill None (bf_pred_node self); bf_pred_edge := fill None (bf_pred_edge self);
       bf_in_next := fill false (bf_in_next self); bf_visited := bf_visited self; bf_gen := bf_gen self |}.

(** ** Relaxation *)

Definition f_one : f64 := f_int 1.

(** [f64::EPSILON], 2^-52 *)
Definition EPSILON : f64 := binary_normalize 53 1024 1 (-52) false.

(** [f64::max] ignores a NaN. *)
Definition f_max (x y : f64) : f64 :=
  match x, y with
  | S754_nan, _ => y
  | _, S754_nan => x
  | _, _ => if SFltb x y then y else x
  end.

Definition bf_eps (old : f64) : f64 := f_mul (f_mul EPSILON (f_max (SFabs old) f_one)) (f_int 2).

Definition f_sub (x y : f64) : f64 := SFsub 53 1024 x y.

Definition is_finite (x : f64) : bool :=
  match x with S754_zero _ | S754_finite _ _ _ => true | S754_infinity _ | S754_nan => false end.

Record Relax := {
  rx_scratch : BfScratch;
  rx_queue : list nat;
  rx_touched : list nat;
}.

Definition dist_at (s : BfScratch) (v : nat) : f64 := nth v (bf_dist s) f_inf.
Definition ratio_at (s : BfScratch) (v : nat) : Z := nth v (bf_dist_ratio s) ONE.
Definition in_next_at (s : BfScratch) (v : nat) : bool := nth v (bf_in_next s) false.

(** The node [v] is reached through [we] from [u]. *)
Definition reach (s : BfScratch) (v u : nat) (we : WeightedEdge) (new_dist : f64) (new_ratio : Z) : BfScratch :=
  {| bf_dist := <[v := new_dist]> (bf_dist s); bf_dist_ratio := <[v := new_ratio]> (bf_dist_ratio s);
     bf_pred_node := <[v := Some (Z.of_nat u)]> (bf_pred_node s);
     bf_pred_edge := <[v := Some we]> (bf_pred_edge s);
     bf_in_next := <[v := true]> (bf_in_next s); bf_visited := bf_visited s; bf_gen := bf_gen s |}.

Definition set_in_next (s : BfScratch) (v : nat) (b : bool) : BfScratch :=
  {| bf_dist := bf_dist s; bf_dist_ratio := bf_dist_ratio s; bf_pred_node := bf_pred_node s;
     bf_pred_edge := bf_pred_edge s; bf_in_next := <[v := b]> (bf_in_next s);
     bf_visited := bf_visited s; bf_gen := bf_gen s |}.

Definition relax_edge (u_idx : nat) (u_dist : f64) (u_ratio : Z) (st : Relax) (we : WeightedEdge) : Relax :=
  let s := rx_scratch st in
  let v := Z.to_nat (token_out (we_edge we)) in
  if ((length (bf_dist s) <=? v)%nat || is_zero (we_ratio we))%bool then st
  else
    let new_dist := f_add u_dist (we_weight we) in
    let old := dist_at s v in
    let new_ratio := mul_ratio_saturating u_ratio (we_ratio we) in
    let ratio_improves := ratio_at s v <? new_ratio in
    if (SFltb new_dist (f_sub old (bf_eps old)) || ratio_improves)%bool then
      {| rx_scratch := reach s v u_idx we new_dist new_ratio;
         rx_queue := if in_next_at s v then rx_queue st else rx_queue st ++ [v];
         rx_touched := if is_finite old then rx_touched st else rx_touched st ++ [v] |}
    else st.

Section search.
Context (adj : list (list WeightedEdge)).

Definition relax_node (st : Relax) (u_idx : nat) : Relax :=
  let s := rx_scratch st in
  match adj !! u_idx with
  | None => st
  | Some edges => fold_left (relax_edge u_idx (dist_at s u_idx) (ratio_at s u_idx)) edges st
  end.

(** One round; the queue is the next active set. *)
Definition relax_round (st : Relax) : Relax :=
  let active := rx_queue st in
  let s := fold_left (λ s u, set_in_next s u false) active (rx_scratch st) in
  fold_left relax_node active {| rx_scratch := s; rx_queue := []; rx_touched := rx_touched st |}.

Fixpoint relax_rounds (rounds : nat) (st : Relax) : Relax :=
  match rounds with
  | O => st
  | S rounds => if decide (rx_queue st = []) then st else relax_rounds rounds (relax_round st)
  end.

(** The state after [dist[src] = 0]. *)
Definition relax_start (s : BfScratch) (src : nat) : Relax :=
  {| rx_scratch :=
       {| bf_dist := <[src := f_zero]> (bf_dist s); bf_dist_ratio := <[src := ONE]> (bf_dist_ratio s);
          bf_pred_node := bf_pred_node s; bf_pred_edge := bf_pred_edge s; bf_in_next := bf_in_next s;
          bf_visited := bf_visited s; bf_gen := bf_gen s |};
     rx_queue := [src]; rx_touched := [src] |}.

(** ** Extraction *)

(** The walk back over the predecessors until a node repeats. *)
Fixpoint walk (fuel : nat) (pred_node : list (option TokenIndex)) (generation : Z) (visited : list Z)
    (curr : option TokenIndex) : option TokenIndex * list Z :=
  match fuel with
  | O => (curr, visited)
  | S fuel =>
      match curr with
      | None => (None, visited)
      | Some c =>
          let idx := Z.to_nat c in
          match visited !! idx with
          | None => (curr, visited)
          | Some mark =>
              if mark =? generation then (curr, visited)
              else walk fuel pred_node generation (<[idx := generation]> visited) (nth idx pred_node None)
          end
      end
  end.

Definition walk_fuel (visited : list Z) : nat := S (length visited).

Record Trace := {
  tr_edges : list Edge;
  tr_log_weight : f64;
  tr_cum_fee : Z;
  tr_product : Z;
}.

(** Collects at most [hops] edges from [t] back to [cycle_start]; the last one first. *)
Fixpoint trace_back (hops : nat) (s : BfScratch) (cycle_start t : TokenIndex) (tr : Trace) : Trace :=
  match hops with
  | O => tr
  | S hops =>
      let t_idx := Z.to_nat t in
      match nth t_idx (bf_pred_edge s) None with
      | None => tr
      | Some we_pred =>
          let tr :=
            {| tr_edges := tr_edges tr ++ [we_edge we_pred];
               tr_log_weight := f_add (tr_log_weight tr) (we_weight we_pred);
               tr_cum_fee := Z.min (tr_cum_fee tr + clamp_fee_bps (fee_bps (we_edge we_pred))) (2 ^ 32 - 1);
               tr_product := mul_ratio_saturating (tr_product tr) (we_ratio we_pred) |} in
          match nth t_idx (bf_pred_node s) None with
          | None => tr
          | Some t' => if t' =? cycle_start then tr else trace_back hops s cycle_start t' tr
          end
      end
  end.

Definition trace_new : Trace :=
  {| tr_edges := []; tr_log_weight := f_zero; tr_cum_fee := 0; tr_product := ONE |}.

(** The cycle a trace stands for, when it is one worth keeping. *)
Definition cycle_of_trace (tr : Trace) : option FoundCycle :=
  let cycle_edges := reverse (tr_edges tr) in
  let? route_calls := is_simple_cycle cycle_edges in
  let hop_count := wrap_u 32 (Z.of_nat (length cycle_edges)) in
  if (negb (packed_calls_fit_executor route_calls) || (tr_product tr <=? ONE)
      || (tr_product tr <? min_profitable_cycle_ratio hop_count))%bool then None
  else
    let? first := head cycle_edges in
    let log_weight := f_add (tr_log_weight tr) (hop_penalty hop_count) in
    Some {| fc_start_token := token_in first; fc_edges := cycle_edges; fc_hop_count := hop_count;
            fc_log_weight := log_weight; fc_cumulative_fee_bps := tr_cum_fee tr; fc_score := log_weight;
            fc_cycle_ratio := tr_product tr |}.

(** A new generation for the visited marks. *)
Definition next_generation (s : BfScratch) : BfScratch :=
  let gen := wrap_u 32 (bf_gen s + 1) in
  if is_zero gen then
    {| bf_dist := bf_dist s; bf_dist_ratio := bf_dist_ratio s; bf_pred_node := bf_pred_node s;
       bf_pred_edge := bf_pred_edge s; bf_in_next := bf_in_next s;
       bf_visited := replicate (length (bf_visited s)) 0; bf_gen := 1 |}
  else
    {| bf_dist := bf_dist s; bf_dist_ratio := bf_dist_ratio s; bf_pred_node := bf_pred_node s;
       bf_pred_edge := bf_pred_edge s; bf_in_next := bf_in_next s; bf_visited := bf_visited s; bf_gen := gen |}.

Definition set_visited (s : BfScratch) (visited : list Z) : BfScratch :=
  {| bf_dist := bf_dist s; bf_dist_ratio := bf_dist_ratio s; bf_pred_node := bf_pred_node s;
     bf_pred_edge := bf_pred_edge s; bf_in_next := bf_in_next s; bf_visited := visited; bf_gen := bf_gen s |}.

(** The edge still improves its target. *)
Definition still_improves (s : BfScratch) (u_idx : nat) (we : WeightedEdge) : bool :=
  let v_idx := Z.to_nat (token_out (we_edge we)) in
  let u_dist := dist_at s u_idx in
  let v_dist := dist_at s v_idx in
  let edge_ratio_at_v := mul_ratio_saturating (ratio_at s u_idx) (we_ratio we) in
  let we_neg_via_ratio := ratio_at s v_idx <? edge_ratio_at_v in
  (negb (is_zero (we_ratio we)) && (v_idx <? length (bf_dist s))%nat
   && (negb (SFleb (f_sub v_dist (bf_eps v_dist)) (f_add u_dist (we_weight we))) || we_neg_via_ratio))%bool.

Record Extract (St : Type) := {
  ex_scratch : BfScratch;
  ex_keys : gset (list Edge);
  ex_cycles : list FoundCycle;
  ex_stop : St;
}.
Arguments ex_scratch {_}. Arguments ex_keys {_}. Arguments ex_cycles {_}. Arguments ex_stop {_}.
Arguments Build_Extract {_}.

Section extract.
Context {St : Type} (should_stop : St → bool * St) (max_hops max_cycles : nat).

(** [should_stop() || cycles.len() >= max_cycles] *)
Definition stops (x : Extract St) : bool * Extract St :=
  let '(b, st) := should_stop (ex_stop x) in
  ((b || (max_cycles <=? length (ex_cycles x))%nat)%bool,
   {| ex_scratch := ex_scratch x; ex_keys := ex_keys x; ex_cycles := ex_cycles x; ex_stop := st |}).

(** What one edge that still improves leads to. *)
Definition extract_cycle (x : Extract St) (u_idx : nat) : Extract St :=
  let s := next_generation (ex_scratch x) in
  let '(curr, visited) := walk (walk_fuel (bf_visited s)) (bf_pred_node s) (bf_gen s) (bf_visited s) (Some (Z.of_nat u_idx)) in
  let s := set_visited s visited in
  let x := {| ex_scratch := s; ex_keys := ex_keys x; ex_cycles := ex_cycles x; ex_stop := ex_stop x |} in
  match (let? cycle_start := curr in cycle_of_trace (trace_back max_hops s cycle_start cycle_start trace_new)) with
  | None => x
  | Some c =>
      if bool_decide (fc_edges c ∈ ex_keys x) then x
      else {| ex_scratch := s; ex_keys := {[fc_edges c]} ∪ ex_keys x; ex_cycles := ex_cycles x ++ [c];
              ex_stop := ex_stop x |}
  end.

(** The edges of one node; [true] when the search is to stop. *)
Fixpoint extract_edges (x : Extract St) (u_idx : nat) (edges : list WeightedEdge) : bool * Extract St :=
  match edges with
  | [] => (false, x)
  | we :: edges =>
      let '(stop, x) := stops x in
      if stop then (true, x)
      else extract_edges (if still_improves (ex_scratch x) u_idx we then extract_cycle x u_idx else x) u_idx edges
  end.

Fixpoint extract_nodes (x : Extract St) (touched : list nat) : Extract St :=
  match touched with
  | [] => x
  | u_idx :: touched =>
      let '(stop, x) := stops x in
      if stop then x
      else if negb (is_finite (dist_at (ex_scratch x) u_idx)) then extract_nodes x touched
      else
        match adj !! u_idx with
        | None => extract_nodes x touched
        | Some edges =>
            let '(stop, x) := extract_edges x u_idx edges in
            if stop then x else extract_nodes x touched
        end
  end.

Definition clean_node (s : BfScratch) (idx : nat) : BfScratch :=
  {| bf_dist := <[idx := f_inf]> (bf_dist s); bf_dist_ratio := <[idx := ONE]> (bf_dist_ratio s);
     bf_pred_node := <[idx := None]> (bf_pred_node s); bf_pred_edge := <[idx := None]> (bf_pred_edge s);
     bf_in_next := <[idx := false]> (bf_in_next s); bf_visited := bf_visited s; bf_gen := bf_gen s |}.

End extract.

Definition collect_negative_cycles_from_source {St} (should_stop : St → bool * St) (source : TokenIndex)
    (max_hops : Z) (max_cycles : nat) (x : Extract St) : Extract St :=
  let hops := Z.to_nat (Z.min max_hops HOP_CAP) in
  let src := Z.to_nat source in
  if (length (bf_dist (ex_scratch x)) <=? src)%nat then x
  else
    let r := relax_rounds hops (relax_start (ex_scratch x) src) in
    let x := {| ex_scratch := rx_scratch r; ex_keys := ex_keys x; ex_cycles := ex_cycles x; ex_stop := ex_stop x |} in
    let x := extract_nodes should_stop hops max_cycles x (rx_touched r) in
    {| ex_scratch := fold_left clean_node (rx_touched r) (ex_scratch x); ex_keys := ex_keys x;
       ex_cycles := ex_cycles x; ex_stop := ex_stop x |}.

(** ** Passes *)

Record CycleSearchPass := { csp_max_hops : Z; csp_max_cycles : nat }.

Definition BELLMAN_FORD_MAX_SOURCES : nat := 15.
Definition BF_TIME_BUDGET : Z := 175.

Definition compare_degree (a b : TokenIndex * nat) : comparison :=
  then_with (Nat.compare b.2 a.2) (a.1 ?= b.1).

Definition prioritize_cycle_start_tokens_from_out_degrees (out_degrees : list nat) : list TokenIndex :=
  (sort_by compare_degree
     (filter (λ td, (0 < td.2)%nat) (zip (Z.of_nat <$> seq 0 (length out_degrees)) out_degrees))).*1.

Section passes.
Context (now : nat → Z).

Abbreviation Searching := (Extract (DeadlineGuard * nat)).

(** The sources of one pass, until the deadline or the quota. *)
Fixpoint search_sources (pass : CycleSearchPass) (sources : list TokenIndex) (x : Searching) : Searching :=
  match sources with
  | [] => x
  | source :: sources =>
      let '(stop, x) := stops (tick now) (csp_max_cycles pass) x in
      if stop then x
      else search_sources pass sources
             (collect_negative_cycles_from_source (tick now) source (csp_max_hops pass) (csp_max_cycles pass) x)
  end.

Fixpoint search_passes (sources : list TokenIndex) (passes : list CycleSearchPass) (x : Searching) : Searching :=
  match passes with
  | [] => x
  | pass :: passes =>
      let x := search_sources pass sources x in
      let '(stop, x) := stops (tick now) (csp_max_cycles pass) x in
      if stop then x else search_passes sources passes x
  end.

(** The thread's scratch arrays are an argument and a result, like the readings of the
    clock. *)
Definition find_cycles_bellman_ford_multi_pass_with_adj (passes : list CycleSearchPass)
    (scratch : BfScratch) (k : nat) : list FoundCycle * BfScratch * nat :=
  if decide (passes = []) then ([], scratch, k)
  else
    let sources := take BELLMAN_FORD_MAX_SOURCES
                     (prioritize_cycle_start_tokens_from_out_degrees (length <$> adj)) in
    let x := search_passes sources passes
               {| ex_scratch := prepare scratch (length adj); ex_keys := ∅; ex_cycles := [];
                  ex_stop := guard_new now BF_TIME_BUDGET k |} in
    (ex_cycles x, ex_scratch x, (ex_stop x).2).
End passes.
End search.
