(* ===== verification/BellmanFordInv.v ===== *)
(** * What the Bellman-Ford search returns

    Every cycle is a closed simple walk along live edges of the graph with the ratio it
    reports, no route twice, within the quota; the walk over the predecessors ends, and the
    arrays are clean after every source. *)
From stdpp Require Import gmap sorting relations.
From Stdlib Require Import SpecFloat.
From S2P Require Import Prelude Word Types Routes CycleRank SpotPrice Graph Deadline BellmanFord.

(** ** Simple cycles *)

(** Consecutive edges share a token. *)
Definition chained (edges : list Edge) : Prop :=
  ∀ i e e', edges !! i = Some e → edges !! S i = Some e' → token_in e' = token_out e.

Record simple_cycle (edges : list Edge) : Prop := {
  sc_hops : (2 ≤ length edges)%nat;
  sc_closed : token_out <$> last edges = token_in <$> head edges;
  sc_pools : NoDup (pool_index <$> edges);
  sc_tokens : NoDup (token_out <$> edges);
}.

Lemma NoDup_earlier {A B} (f : A → B) (l : list A) :
  (∀ i x y j, l !! i = Some x → (j < i)%nat → l !! j = Some y → f y ≠ f x) → NoDup (f <$> l).
Proof.
  intros H. apply NoDup_alt. intros i j b Hi Hj. rewrite list_lookup_fmap in Hi, Hj.
  destruct (l !! i) as [x|] eqn:Ex; [|done]. destruct (l !! j) as [y|] eqn:Ey; [|done].
  injection Hi as <-. injection Hj as Hj.
  destruct (Nat.lt_total i j) as [Hlt|[->|Hlt]]; [|done|].
  - by destruct (H j y x i Ey Hlt Ex).
  - by destruct (H i x y j Ex Hlt Ey).
Qed.

Lemma no_earlier {A} (p : A → bool) (l : list A) i j y :
  existsb p (take i l) = false → (j < i)%nat → l !! j = Some y → p y = false.
Proof.
  intros Hn Hj Hy. apply not_true_iff_false. intros Hp. apply not_true_iff_false in Hn. apply Hn.
  apply existsb_exists. exists y. split; [|done]. apply list_elem_of_In, list_elem_of_lookup. exists j.
  by rewrite lookup_take_lt.
Qed.

Lemma is_simple_cycle_sound edges calls :
  is_simple_cycle edges = Some calls → simple_cycle edges ∧ calls = estimate_packed_route_calls edges.
Proof.
  unfold is_simple_cycle. destruct edges as [|first [|second rest]]; [done..|].
  set (edges := first :: second :: rest). case_bool_decide as Hc; [done|].
  destruct (forallb _ _) eqn:Hall; [|done]. intros [= <-]. split; [|done].
  rewrite forallb_forall in Hall.
  assert (∀ i e, edges !! i = Some e → position_ok edges (token_in first) i e = true) as Hpos.
  { intros i e He. apply (Hall (i, e)). apply list_elem_of_In, list_elem_of_lookup. exists i.
    rewrite lookup_zip_with, lookup_seq_lt by (by eapply lookup_lt_Some). cbn. by rewrite He. }
  assert (∀ i e j y, edges !! i = Some e → (j < i)%nat → edges !! j = Some y → pool_index y ≠ pool_index e) as Hpool.
  { intros i e j y He Hj Hy. specialize (Hpos i e He). unfold position_ok in Hpos.
    apply andb_prop in Hpos as [Hp _]. apply negb_true_iff in Hp.
    pose proof (no_earlier _ _ _ _ _ Hp Hj Hy) as H. cbn in H. lia. }
  assert (∀ i e, edges !! i = Some e → (i < length edges - 1)%nat → token_out e ≠ token_in first ∧
    ∀ j y, (j < i)%nat → edges !! j = Some y → token_out y ≠ token_out e) as Hmid.
  { intros i e He Hi. specialize (Hpos i e He). unfold position_ok in Hpos.
    apply andb_prop in Hpos as [_ Hp]. rewrite (proj2 (Nat.ltb_lt _ _) Hi) in Hp. cbn [negb orb] in Hp.
    apply andb_prop in Hp as [Hs Hp]. apply negb_true_iff in Hs, Hp. split; [lia|].
    intros j y Hj Hy. pose proof (no_earlier _ _ _ _ _ Hp Hj Hy) as H. cbn in H. lia. }
  split.
  - cbn. lia.
  - done.
  - apply NoDup_earlier. intros i x y j Hx Hj Hy. by eapply Hpool.
  - apply NoDup_earlier. intros i x y j Hx Hj Hy. pose proof (lookup_lt_Some _ _ _ Hx).
    destruct (decide (i < length edges - 1)%nat) as [Hi|Hi].
    + by eapply (proj2 (Hmid i x Hx Hi)).
    + assert (i = length edges - 1)%nat as -> by lia.
      assert (last edges = Some x) as Hl by (rewrite last_lookup; rewrite <- Hx; f_equal; lia).
      rewrite Hl in Hc. injection Hc as Hc. rewrite Hc. apply (proj1 (Hmid j y Hy ltac:(lia))).
Qed.

(** ** The walk over the predecessors ends *)

Definition unmarked (generation : Z) (visited : list Z) : nat :=
  length (filter (λ m, m ≠ generation) visited).

Lemma unmarked_insert generation visited idx mark :
  visited !! idx = Some mark → mark ≠ generation →
  S (unmarked generation (<[idx := generation]> visited)) = unmarked generation visited.
Proof.
  unfold unmarked. revert idx. induction visited as [|m l IH]; intros [|idx] Hi Hm; try done.
  - injection Hi as ->. cbn [insert list_insert]. rewrite filter_cons_False by (by intros []). by rewrite filter_cons_True.
  - cbn in Hi. specialize (IH idx Hi Hm). change (<[S idx := generation]> (m :: l)) with (m :: <[idx := generation]> l).
    rewrite !filter_cons. destruct (decide _); cbn; lia.
Qed.

(** Where the walk stops: no predecessor, outside the arrays, or a node already seen. *)
Definition walk_stopped (generation : Z) (r : option TokenIndex * list Z) : Prop :=
  match r.1 with
  | None => True
  | Some c => r.2 !! Z.to_nat c = None ∨ r.2 !! Z.to_nat c = Some generation
  end.

Lemma walk_ends pred generation fuel : ∀ visited curr,
  (unmarked generation visited < fuel)%nat → walk_stopped generation (walk fuel pred generation visited curr).
Proof.
  induction fuel as [|fuel IH]; intros visited curr Hf; [lia|]. cbn [walk].
  destruct curr as [c|]; [|done]. destruct (visited !! Z.to_nat c) as [mark|] eqn:Hm; [|by left].
  destruct (Z.eqb_spec mark generation) as [->|Hne]; [by right|]. apply IH.
  pose proof (unmarked_insert _ _ _ _ Hm Hne). lia.
Qed.

Lemma walk_fuel_enough pred generation visited curr :
  walk_stopped generation (walk (walk_fuel visited) pred generation visited curr).
Proof.
  apply walk_ends. unfold unmarked, walk_fuel. pose proof (length_filter (λ m, m ≠ generation) visited). lia.
Qed.

Lemma walk_length fuel pred generation : ∀ visited curr,
  length (walk fuel pred generation visited curr).2 = length visited.
Proof.
  induction fuel as [|fuel IH]; intros visited curr; [done|]. cbn [walk]. destruct curr as [c|]; [|done].
  destruct (visited !! _) as [m|]; [|done]. destruct (m =? generation); [done|]. rewrite IH. apply length_insert.
Qed.

(** ** Relaxation *)

Lemma nth_insert {A} (l : list A) i v x d :
  nth v (<[i := x]> l) d = if decide (v = i ∧ (i < length l)%nat) then x else nth v l d.
Proof.
  rewrite !nth_lookup. destruct (decide _) as [[-> Hi]|Hn]; [by rewrite list_lookup_insert_eq|].
  destruct (decide (v = i)) as [->|]; [|by rewrite list_lookup_insert_ne].
  rewrite list_insert_ge; [done|]. destruct (decide (i < length l)%nat); [by destruct Hn|lia].
Qed.

Lemma nth_insert_eq {A} (l : list A) i x d : (i < length l)%nat → nth i (<[i := x]> l) d = x.
Proof. intros Hi. rewrite nth_insert. by rewrite decide_True. Qed.

Lemma nth_insert_ne {A} (l : list A) i v x d : v ≠ i → nth v (<[i := x]> l) d = nth v l d.
Proof. intros Hv. rewrite nth_insert. rewrite decide_False; [done|]. by intros [? _]. Qed.

Lemma nth_resize {A} (l : list A) n v d : (length l ≤ n)%nat → nth v (resize n d l) d = nth v l d.
Proof.
  intros Hl. rewrite !nth_lookup. destruct (decide (v < length l)%nat) as [Hv|Hv].
  - by rewrite lookup_resize by lia.
  - rewrite (lookup_ge_None_2 l) by lia. destruct (decide (v < n)%nat).
    + by rewrite lookup_resize_new by lia.
    + by rewrite lookup_ge_None_2 by (rewrite length_resize; lia).
Qed.

Lemma nth_fill {A} (l : list A) n v d : (n ≤ length l)%nat →
  nth v (replicate n d ++ drop n l) d = if decide (v < n)%nat then d else nth v l d.
Proof.
  intros Hl. rewrite !nth_lookup. destruct (decide (v < n)%nat).
  - rewrite lookup_app_l by (by rewrite length_replicate). by rewrite lookup_replicate_2.
  - rewrite lookup_app_r by (rewrite length_replicate; lia). rewrite length_replicate, lookup_drop.
    do 2 f_equal. lia.
Qed.

Definition pred_node_at (s : BfScratch) (v : nat) : option TokenIndex := nth v (bf_pred_node s) None.
Definition pred_edge_at (s : BfScratch) (v : nat) : option WeightedEdge := nth v (bf_pred_edge s) None.

(** Nothing is recorded for the node. *)
Definition clean_at (s : BfScratch) (v : nat) : Prop :=
  dist_at s v = f_inf ∧ ratio_at s v = ONE ∧ pred_node_at s v = None ∧ pred_edge_at s v = None ∧
  in_next_at s v = false.

(** The arrays have one length. *)
Record sized (n : nat) (s : BfScratch) : Prop := {
  sz_dist : length (bf_dist s) = n;
  sz_ratio : length (bf_dist_ratio s) = n;
  sz_node : length (bf_pred_node s) = n;
  sz_edge : length (bf_pred_edge s) = n;
  sz_next : length (bf_in_next s) = n;
  sz_visited : length (bf_visited s) = n;
}.

(** The scratch between two sources. *)
Definition scratch_clean (s : BfScratch) : Prop := (∃ n, sized n s) ∧ ∀ v, clean_at s v.

Section inv.
Context (adj : list (list WeightedEdge)).

(** A live edge of the adjacency, at the node of its input token. *)
Definition live_edge (we : WeightedEdge) : Prop :=
  we_ratio we ≠ 0 ∧ ∃ l, adj !! Z.to_nat (token_in (we_edge we)) = Some l ∧ we ∈ l.

(** Edges sit at the node of their input token and name real tokens. *)
Definition adj_wf : Prop :=
  ∀ u l we, adj !! u = Some l → we ∈ l →
    token_in (we_edge we) = Z.of_nat u ∧ 0 ≤ token_out (we_edge we).

(** A recorded predecessor is an edge into the node from the recorded node. *)
Definition pred_ok (s : BfScratch) : Prop :=
  ∀ v we, pred_edge_at s v = Some we →
    live_edge we ∧ token_out (we_edge we) = Z.of_nat v ∧ pred_node_at s v = Some (token_in (we_edge we)).

Record relax_ok (n : nat) (st : Relax) : Prop := {
  ro_sized : sized n (rx_scratch st);
  ro_touched v : v ∉ rx_touched st → clean_at (rx_scratch st) v;
  ro_range v : v ∈ rx_touched st → (v < n)%nat;
  ro_pred : pred_ok (rx_scratch st);
}.

Lemma reach_at s n v u we d r w :
  sized n s → (v < n)%nat →
  (w ≠ v → dist_at (reach s v u we d r) w = dist_at s w ∧ ratio_at (reach s v u we d r) w = ratio_at s w ∧
    pred_node_at (reach s v u we d r) w = pred_node_at s w ∧ pred_edge_at (reach s v u we d r) w = pred_edge_at s w ∧
    in_next_at (reach s v u we d r) w = in_next_at s w) ∧
  pred_node_at (reach s v u we d r) v = Some (Z.of_nat u) ∧ pred_edge_at (reach s v u we d r) v = Some we.
Proof.
  intros [S1 S2 S3 S4 S5 S6] Hv.
  unfold dist_at, ratio_at, pred_node_at, pred_edge_at, in_next_at, reach. cbn. split.
  - intros Hw. rewrite !nth_insert_ne by done. done.
  - rewrite !nth_insert_eq by lia. done.
Qed.

Lemma reach_sized s n v u we d r : sized n s → sized n (reach s v u we d r).
Proof. intros []. split; cbn; rewrite ?length_insert; done. Qed.

Lemma relax_edge_ok n u l ud ur st we :
  adj_wf → adj !! u = Some l → we ∈ l → relax_ok n st → relax_ok n (relax_edge u ud ur st we).
Proof.
  intros Hwf Hl Hwe [Hsz Ht Hr Hp]. unfold relax_edge. set (s := rx_scratch st) in *.
  destruct (Hwf u l we Hl Hwe) as [Htin Htout]. set (v := Z.to_nat (token_out (we_edge we))).
  destruct (_ || is_zero (we_ratio we))%bool eqn:Hskip; [by split|].
  apply orb_false_iff in Hskip as [Hv Hz]. apply Nat.leb_gt in Hv. rewrite (sz_dist _ _ Hsz) in Hv.
  destruct (_ || _)%bool; [|by split].
  set (nd := f_add _ _). set (nr := mul_ratio_saturating _ _).
  pose proof (λ w, reach_at s n v u we nd nr w Hsz Hv) as Hat.
  assert (v ∈ (if is_finite (dist_at s v) then rx_touched st else rx_touched st ++ [v])) as Hin.
  { destruct (is_finite (dist_at s v)) eqn:Hf; [|apply elem_of_app; right; left].
    destruct (decide (v ∈ rx_touched st)) as [|Hn]; [done|]. destruct (Ht v Hn) as [Hd _]. by rewrite Hd in Hf. }
  split; cbn.
  - by apply reach_sized.
  - intros w Hw. assert (w ≠ v) as Hne by (intros ->; done).
    assert (w ∉ rx_touched st) as Hnt by (destruct (is_finite _); [done|]; intros ?; apply Hw, elem_of_app; by left).
    destruct (Hat w) as [H _]. destruct (H Hne) as (E1 & E2 & E3 & E4 & E5). unfold clean_at.
    rewrite E1, E2, E3, E4, E5. by apply Ht.
  - intros w Hw. destruct (is_finite _); [by apply Hr|]. apply elem_of_app in Hw as [Hw| ->%list_elem_of_singleton]; [by apply Hr|done].
  - intros w we' Hw. destruct (Hat w) as [Hne Heq]. destruct (decide (w = v)) as [->|Hn].
    + destruct Heq as [Hnode Hedge]. rewrite Hedge in Hw. injection Hw as <-. rewrite Hnode, Htin. split_and!; [|lia|done].
      split; [unfold is_zero in Hz; lia|]. exists l. rewrite Htin, Nat2Z.id. done.
    + destruct (Hne Hn) as (_ & _ & E3 & E4 & _). rewrite E4 in Hw. rewrite E3. by apply Hp.
Qed.

Lemma relax_node_ok n st u : adj_wf → relax_ok n st → relax_ok n (relax_node adj st u).
Proof.
  intros Hwf Hok. unfold relax_node. destruct (adj !! u) as [l|] eqn:Hl; [|done].
  generalize (dist_at (rx_scratch st) u), (ratio_at (rx_scratch st) u). intros ud ur.
  apply fold_left_inv; [done|]. intros s we Hwe Hs. by eapply relax_edge_ok.
Qed.

Lemma set_in_next_ok n st u :
  relax_ok n st → relax_ok n {| rx_scratch := set_in_next (rx_scratch st) u false; rx_queue := rx_queue st; rx_touched := rx_touched st |}.
Proof.
  intros [[S1 S2 S3 S4 S5 S6] Ht Hr Hp]. split; cbn; [split; cbn; by rewrite ?length_insert| |done|done].
  intros v Hv. destruct (Ht v Hv) as (E1 & E2 & E3 & E4 & E5). split_and!; [done..|].
  unfold in_next_at in *. cbn. rewrite nth_insert. by destruct (decide _).
Qed.

Lemma relax_queue_ok n st q : relax_ok n st → relax_ok n {| rx_scratch := rx_scratch st; rx_queue := q; rx_touched := rx_touched st |}.
Proof. intros []. by split. Qed.

Lemma relax_round_ok n st : adj_wf → relax_ok n st → relax_ok n (relax_round adj st).
Proof.
  intros Hwf Hok. unfold relax_round. apply fold_left_inv; [|intros; by apply relax_node_ok].
  apply (fold_left_inv (λ s, relax_ok n {| rx_scratch := s; rx_queue := []; rx_touched := rx_touched st |})).
  - by apply relax_queue_ok.
  - intros s u _ H. apply (set_in_next_ok n _ u H).
Qed.

Lemma relax_rounds_ok n rounds : adj_wf → ∀ st, relax_ok n st → relax_ok n (relax_rounds adj rounds st).
Proof.
  intros Hwf. induction rounds as [|rounds IH]; intros st Hok; cbn [relax_rounds]; [done|].
  destruct (decide _); [done|]. apply IH. by apply relax_round_ok.
Qed.

Lemma relax_start_ok n s src : sized n s → (∀ v, clean_at s v) → (src < n)%nat → relax_ok n (relax_start s src).
Proof.
  intros [S1 S2 S3 S4 S5 S6] Hc Hn. split; cbn.
  - split; cbn; by rewrite ?length_insert.
  - intros v Hv. assert (v ≠ src) as Hne by (intros ->; apply Hv; left). destruct (Hc v) as (E1 & E2 & E3 & E4 & E5).
    split_and!; [..|done|done|done]; unfold dist_at, ratio_at in *; cbn; by rewrite nth_insert_ne.
  - by intros v ->%list_elem_of_singleton.
  - intros v we Hv. destruct (Hc v) as (_ & _ & _ & E4 & _). unfold pred_edge_at in *. cbn in *. congruence.
Qed.

(** ** Reconstruction *)

(** The ratio of a route: the product is taken from the last hop back. *)
Definition route_ratio (wes : list WeightedEdge) : Z :=
  foldr (λ we p, mul_ratio_saturating p (we_ratio we)) ONE wes.

(** A cycle the search may return. *)
Record cycle_found (max_hops : nat) (c : FoundCycle) : Prop := {
  cf_simple : simple_cycle (fc_edges c);
  cf_chained : chained (fc_edges c);
  cf_start : token_in <$> head (fc_edges c) = Some (fc_start_token c);
  cf_hops : (length (fc_edges c) ≤ max_hops)%nat;
  cf_count : fc_hop_count c = wrap_u 32 (Z.of_nat (length (fc_edges c)));
  cf_live : ∃ wes, we_edge <$> wes = fc_edges c ∧ Forall live_edge wes ∧ fc_cycle_ratio c = route_ratio wes;
  cf_profit : ONE < fc_cycle_ratio c ∧ min_profitable_cycle_ratio (fc_hop_count c) ≤ fc_cycle_ratio c;
  cf_budget : packed_calls_fit_executor (estimate_packed_route_calls (fc_edges c)) = true;
}.

(** Each edge leaves the token the next one enters. *)
Definition back_chained (wes : list WeightedEdge) : Prop :=
  ∀ i a b, wes !! i = Some a → wes !! S i = Some b → token_out (we_edge b) = token_in (we_edge a).

Lemma trace_back_spec hops s start : adj_wf → pred_ok s → ∀ t tr,
  ∃ wes, Forall live_edge wes ∧ (length wes ≤ hops)%nat ∧ back_chained wes ∧
    (∀ a, head wes = Some a → token_out (we_edge a) = Z.of_nat (Z.to_nat t)) ∧
    tr_edges (trace_back hops s start t tr) = tr_edges tr ++ (we_edge <$> wes) ∧
    tr_product (trace_back hops s start t tr) =
      fold_left (λ p we, mul_ratio_saturating p (we_ratio we)) wes (tr_product tr).
Proof.
  intros Hwf Hp. induction hops as [|hops IH]; intros t tr; cbn [trace_back].
  { exists []. split_and!; [constructor|done|done|done|by rewrite app_nil_r|done]. }
  fold (pred_edge_at s (Z.to_nat t)) (pred_node_at s (Z.to_nat t)).
  destruct (pred_edge_at s (Z.to_nat t)) as [we|] eqn:Hwe.
  2: { exists []. split_and!; [constructor|cbn; lia|done|done|by rewrite app_nil_r|done]. }
  destruct (Hp _ _ Hwe) as (Hlive & Hout & Hnode). rewrite Hnode.
  match goal with |- context [trace_back hops s start _ ?x] => set (tr1 := x) end.
  destruct (token_in (we_edge we) =? start).
  { exists [we]. split_and!; [by constructor|cbn; lia|by intros [|[|?]]|by intros a [= <-]|done|done]. }
  destruct (IH (token_in (we_edge we)) tr1) as (wes & H1 & H2 & H3 & H4 & H5 & H6).
  exists (we :: wes). split_and!; [by constructor|cbn; lia| |by intros a [= <-]| |exact H6].
  - intros [|i] a b Ha Hb; [|by eapply (H3 i)]. cbn in Ha, Hb. injection Ha as <-.
    destruct wes as [|w wes]; [done|]. injection Hb as ->. rewrite (H4 b) by done.
    destruct Hlive as [_ (l & Hl & Hin)]. pose proof (Hwf _ _ _ Hl Hin) as [-> _]. lia.
  - rewrite H5. unfold tr1. cbn. by rewrite <- app_assoc.
Qed.

Lemma back_chained_reverse wes : back_chained wes → chained (we_edge <$> reverse wes).
Proof.
  intros Hb i e e' He He'. rewrite list_lookup_fmap in He, He'.
  destruct (reverse wes !! i) as [a|] eqn:Ha; [|done]. destruct (reverse wes !! S i) as [b|] eqn:Hb'; [|done].
  injection He as <-. injection He' as <-.
  pose proof (lookup_lt_Some _ _ _ Hb') as Hlt. rewrite length_reverse in Hlt.
  rewrite reverse_lookup in Ha, Hb' by lia. symmetry. apply (Hb (length wes - S (S i))%nat b a); [done|].
  rewrite <- Ha. f_equal. lia.
Qed.

Lemma cycle_of_trace_found hops s start t c :
  adj_wf → pred_ok s → cycle_of_trace (trace_back hops s start t trace_new) = Some c → cycle_found hops c.
Proof.
  intros Hwf Hp. destruct (trace_back_spec hops s start Hwf Hp t trace_new) as (wes & H1 & H2 & H3 & _ & H5 & H6).
  unfold cycle_of_trace. rewrite H5, H6. change (tr_edges trace_new ++ ?x) with x.
  rewrite <- fmap_reverse.
  destruct (is_simple_cycle _) as [calls|] eqn:Hs; [|done]. apply is_simple_cycle_sound in Hs as [Hs ->].
  destruct (_ || _ || _)%bool eqn:Hb; [done|]. apply orb_false_iff in Hb as [Hb Hmin].
  apply orb_false_iff in Hb as [Hfit Hone]. apply negb_false_iff in Hfit.
  destruct (head _) as [first|] eqn:Hhead; [|done]. intros [= <-]. split; cbn.
  - done.
  - by apply back_chained_reverse.
  - by rewrite Hhead.
  - by rewrite length_fmap, length_reverse.
  - done.
  - exists (reverse wes). split_and!; [done| |].
    + rewrite Forall_forall in *. intros we Hwe. apply H1. by apply elem_of_reverse.
    + unfold route_ratio. rewrite <- fold_left_rev_right. by rewrite rev_alt.
  - apply Z.leb_gt in Hone. apply Z.ltb_ge in Hmin. rewrite length_fmap, length_reverse in *. by split.
  - done.
Qed.

(** ** Extraction *)

(** The arrays of the relaxation are the same; the marks may differ. *)
Record same_search (s s' : BfScratch) : Prop := {
  ss_dist : bf_dist s' = bf_dist s;
  ss_ratio : bf_dist_ratio s' = bf_dist_ratio s;
  ss_node : bf_pred_node s' = bf_pred_node s;
  ss_edge : bf_pred_edge s' = bf_pred_edge s;
  ss_next : bf_in_next s' = bf_in_next s;
  ss_visited : length (bf_visited s') = length (bf_visited s);
}.

#[local] Instance same_search_preorder : PreOrder same_search.
Proof. split; [by intros s|intros a b c [] []; split; congruence]. Qed.

Lemma same_search_pred s s' : same_search s s' → pred_ok s → pred_ok s'.
Proof. intros [] Hp v we. unfold pred_edge_at, pred_node_at. rewrite ss_edge0, ss_node0. apply Hp. Qed.

Lemma same_search_sized n s s' : same_search s s' → sized n s → sized n s'.
Proof. intros [] []. split; congruence. Qed.

Lemma same_search_clean s s' v : same_search s s' → clean_at s v → clean_at s' v.
Proof.
  intros []. unfold clean_at, dist_at, ratio_at, pred_node_at, pred_edge_at, in_next_at.
  by rewrite ss_dist0, ss_ratio0, ss_node0, ss_edge0, ss_next0.
Qed.

Lemma next_generation_same s : same_search s (next_generation s).
Proof. unfold next_generation. destruct (is_zero _); split; cbn; by rewrite ?length_replicate. Qed.

Section extract.
Context {St : Type} (should_stop : St → bool * St) (max_hops max_cycles : nat).

(** The keys are those of the cycles found, all different and all sound. *)
Record search_ok (x : Extract St) : Prop := {
  so_keys : ex_keys _ x = list_to_set (fc_edges <$> ex_cycles _ x);
  so_nodup : NoDup (fc_edges <$> ex_cycles _ x);
  so_found : Forall (cycle_found (Z.to_nat HOP_CAP)) (ex_cycles _ x);
}.

(** [x'] continues [x]: it has the same arrays and more cycles, within the quota. *)
Record continues (x x' : Extract St) : Prop := {
  ct_same : same_search (ex_scratch _ x) (ex_scratch _ x');
  ct_ok : search_ok x → search_ok x';
  ct_prefix : ex_cycles _ x `prefix_of` ex_cycles _ x';
  ct_quota : (length (ex_cycles _ x') ≤ length (ex_cycles _ x) `max` max_cycles)%nat;
}.

Lemma continues_refl x : continues x x.
Proof. split; [done|done|done|lia]. Qed.

Lemma continues_trans x y z : continues x y → continues y z → continues x z.
Proof.
  intros [] []. split; [by etrans|auto|by etrans|lia].
Qed.

Lemma stops_continues x : continues x (stops should_stop max_cycles x).2 ∧
  ((stops should_stop max_cycles x).1 = false →
   (length (ex_cycles _ (stops should_stop max_cycles x).2) < max_cycles)%nat).
Proof.
  unfold stops. destruct (should_stop (ex_stop _ x)) as [b st]. cbn. split.
  - split; cbn; [done| |done|lia]. intros []. by split.
  - intros [_ H]%orb_false_iff. by apply Nat.leb_gt in H.
Qed.

Lemma cycle_found_mono h h' c : (h ≤ h')%nat → cycle_found h c → cycle_found h' c.
Proof. intros Hle []. split; try done. lia. Qed.

Lemma extract_cycle_continues x u : adj_wf → (max_hops ≤ Z.to_nat HOP_CAP)%nat → pred_ok (ex_scratch _ x) →
  (length (ex_cycles _ x) < max_cycles)%nat → continues x (extract_cycle max_hops x u).
Proof.
  intros Hwf Hcap Hp Hq. unfold extract_cycle. set (s := next_generation (ex_scratch _ x)).
  destruct (walk _ _ _ _ _) as [curr visited] eqn:Hw.
  assert (same_search (ex_scratch _ x) (set_visited s visited)) as Hs.
  { etrans; [apply next_generation_same|]. split; cbn; try done.
    change visited with (curr, visited).2. rewrite <- Hw. apply walk_length. }
  match goal with |- continues x (match ?o with Some _ => _ | None => _ end) => destruct o as [c|] eqn:Hc end.
  2: { split; cbn; [done| |done|lia]. intros []. by split. }
  assert (cycle_found (Z.to_nat HOP_CAP) c) as Hfound.
  { destruct curr as [start|]; [|done]. eapply cycle_found_mono; [exact Hcap|].
    eapply cycle_of_trace_found; [done| |exact Hc]. by eapply same_search_pred. }
  case_bool_decide as Hk; split; cbn; try done.
  - intros []. by split.
  - lia.
  - intros [K1 K2 K3]. split; cbn.
    + rewrite K1, fmap_app, list_to_set_app_L. cbn. rewrite (right_id_L ∅ (∪)). by rewrite (comm_L (∪)).
    + rewrite fmap_app. apply NoDup_app. split_and!; [done| |apply NoDup_singleton].
      intros e He ->%list_elem_of_singleton. apply Hk. rewrite K1. by apply elem_of_list_to_set.
    + apply Forall_app. by split; [|constructor].
  - by apply prefix_app_r.
  - rewrite length_app. cbn. lia.
Qed.

Lemma extract_edges_continues u edges : adj_wf → (max_hops ≤ Z.to_nat HOP_CAP)%nat → ∀ x, pred_ok (ex_scratch _ x) →
  continues x (extract_edges should_stop max_hops max_cycles x u edges).2.
Proof.
  intros Hwf Hcap. induction edges as [|we edges IH]; intros x Hp; cbn [extract_edges]; [apply continues_refl|].
  destruct (stops_continues x) as [Hs Hq]. destruct (stops should_stop max_cycles x) as [[] x1]; cbn in Hs, Hq; [done|].
  assert (pred_ok (ex_scratch _ x1)) as Hp1 by (eapply same_search_pred; [apply Hs|done]).
  eapply continues_trans; [exact Hs|]. destruct (still_improves _ _ _); [|by apply IH].
  assert (continues x1 (extract_cycle max_hops x1 u)) as Hc.
  { apply extract_cycle_continues; [done..|]. by apply Hq. }
  eapply continues_trans; [exact Hc|]. apply IH. eapply same_search_pred; [apply Hc|done].
Qed.

Lemma extract_nodes_continues touched : adj_wf → (max_hops ≤ Z.to_nat HOP_CAP)%nat → ∀ x, pred_ok (ex_scratch _ x) →
  continues x (extract_nodes adj should_stop max_hops max_cycles x touched).
Proof.
  intros Hwf Hcap. induction touched as [|u touched IH]; intros x Hp; cbn [extract_nodes]; [apply continues_refl|].
  destruct (stops_continues x) as [Hs _]. destruct (stops should_stop max_cycles x) as [[] x1]; cbn in Hs; [done|].
  assert (pred_ok (ex_scratch _ x1)) as Hp1 by (eapply same_search_pred; [apply Hs|done]).
  eapply continues_trans; [exact Hs|]. destruct (negb _); [by apply IH|].
  destruct (adj !! u) as [edges|]; [|by apply IH].
  pose proof (extract_edges_continues u edges Hwf Hcap x1 Hp1) as He.
  destruct (extract_edges _ _ _ x1 u edges) as [[] x2]; cbn in He; [done|].
  eapply continues_trans; [exact He|]. apply IH. eapply same_search_pred; [apply He|done].
Qed.
End extract.

(** ** One source *)

Lemma clean_node_at n s idx v : sized n s → (idx < n)%nat →
  (v = idx ∨ clean_at s v) → clean_at (clean_node s idx) v.
Proof.
  intros [S1 S2 S3 S4 S5 S6] Hi Hv. unfold clean_at, dist_at, ratio_at, pred_node_at, pred_edge_at, in_next_at in *.
  cbn. destruct (decide (v = idx)) as [->|Hne]; [rewrite !nth_insert_eq by lia; done|].
  rewrite !nth_insert_ne by done. by destruct Hv.
Qed.

Lemma clean_node_sized n s idx : sized n s → sized n (clean_node s idx).
Proof. intros []. split; cbn; by rewrite ?length_insert. Qed.

Lemma clean_nodes_at n touched : ∀ s, sized n s → (∀ v, v ∈ touched → (v < n)%nat) →
  (∀ v, v ∉ touched → clean_at s v) → sized n (fold_left clean_node touched s) ∧ ∀ v, clean_at (fold_left clean_node touched s) v.
Proof.
  induction touched as [|i touched IH]; intros s Hs Hr Hc; cbn [fold_left]; [split; [done|]; intros v; apply Hc, not_elem_of_nil|].
  apply IH; [by apply clean_node_sized|intros v Hv; apply Hr; by right|].
  intros v Hv. eapply clean_node_at; [done|apply Hr; left|]. destruct (decide (v = i)) as [|Hne]; [by left|right].
  apply Hc. by intros [?|?]%elem_of_cons.
Qed.

(** The state between sources. *)
Definition between {St} (x : Extract St) : Prop := scratch_clean (ex_scratch _ x) ∧ search_ok x.

Lemma collect_ok {St} (should_stop : St → bool * St) source max_hops max_cycles x :
  adj_wf → between x →
  let x' := collect_negative_cycles_from_source adj should_stop source max_hops max_cycles x in
  between x' ∧ ex_cycles _ x `prefix_of` ex_cycles _ x' ∧
  (length (ex_cycles _ x') ≤ length (ex_cycles _ x) `max` max_cycles)%nat.
Proof.
  intros Hwf [[[n Hsz] Hclean] Hok]. unfold collect_negative_cycles_from_source.
  destruct (Nat.leb_spec (length (bf_dist (ex_scratch _ x))) (Z.to_nat source)) as [|Hsrc].
  { cbn zeta. split_and!; [split; [split; [by exists n|done]|done]|done|lia]. }
  rewrite (sz_dist _ _ Hsz) in Hsrc. set (hops := Z.to_nat (Z.min max_hops HOP_CAP)).
  pose proof (relax_rounds_ok n hops Hwf _ (relax_start_ok n (ex_scratch _ x) (Z.to_nat source) Hsz Hclean Hsrc)) as Hr.
  set (r := relax_rounds adj hops _) in *. destruct Hr as [R1 R2 R3 R4].
  set (x1 := {| ex_scratch := rx_scratch r |}).
  assert (search_ok x1) as Hok1 by (destruct Hok; by split).
  destruct (extract_nodes_continues should_stop hops max_cycles (rx_touched r) Hwf ltac:(unfold hops; lia) x1 R4)
    as [C1 C2 C3 C4].
  set (x2 := extract_nodes _ _ _ _ x1 _) in *. cbn zeta. cbn [ex_cycles].
  destruct (clean_nodes_at n (rx_touched r) (ex_scratch _ x2)) as [K1 K2].
  - by eapply same_search_sized.
  - exact R3.
  - intros v Hv. eapply same_search_clean; [exact C1|]. by apply R2.
  - split_and!; [|exact C3|exact C4]. split; [split; [by exists n|exact K2]|]. destruct (C2 Hok1). by split.
Qed.

(** ** Passes *)

(** The scratch of the thread fits the graph after [prepare]. *)
Lemma prepare_clean s n : scratch_clean s → scratch_clean (prepare s n).
Proof.
  intros [[m [S1 S2 S3 S4 S5 S6]] Hc]. unfold prepare. destruct (Nat.ltb_spec (length (bf_dist s)) n) as [Hlt|Hge].
  - split.
    + exists n. split; cbn; by rewrite length_resize.
    + intros v. destruct (Hc v) as (E1 & E2 & E3 & E4 & E5).
      unfold clean_at, dist_at, ratio_at, pred_node_at, pred_edge_at, in_next_at in *. cbn.
      rewrite !nth_resize by lia. done.
  - split.
    + exists m. split; cbn; rewrite ?length_app, ?length_replicate, ?length_drop; lia.
    + intros v. destruct (Hc v) as (E1 & E2 & E3 & E4 & E5).
      unfold clean_at, dist_at, ratio_at, pred_node_at, pred_edge_at, in_next_at in *. cbn.
      rewrite !nth_fill by lia. destruct (decide (v < n)%nat); done.
Qed.

Section passes.
Context (now : nat → Z).

Lemma search_sources_ok pass sources : adj_wf → ∀ x, between x →
  let x' := search_sources adj now pass sources x in
  between x' ∧ (length (ex_cycles _ x') ≤ length (ex_cycles _ x) `max` csp_max_cycles pass)%nat.
Proof.
  intros Hwf. induction sources as [|source sources IH]; intros x Hx; cbn [search_sources]; [split; [done|lia]|].
  destruct (stops_continues (tick now) (csp_max_cycles pass) x) as [[C1 C2 C3 C4] _].
  assert (ex_scratch _ (stops (tick now) (csp_max_cycles pass) x).2 = ex_scratch _ x) as Es
    by (unfold stops; by destruct (tick now _)).
  destruct (stops _ _ x) as [[] x1]; cbn in *.
  - split; [|done]. split; [rewrite Es; apply Hx|apply C2, Hx].
  - destruct (collect_ok (tick now) source (csp_max_hops pass) (csp_max_cycles pass) x1 Hwf) as (H1 & _ & H3).
    { split; [rewrite Es; apply Hx|apply C2, Hx]. }
    destruct (IH _ H1) as [H4 H5]. split; [exact H4|]. lia.
Qed.

Lemma search_passes_ok sources passes : adj_wf → ∀ x, between x →
  let x' := search_passes adj now sources passes x in
  between x' ∧ (length (ex_cycles _ x') ≤ length (ex_cycles _ x) `max` max_list (csp_max_cycles <$> passes))%nat.
Proof.
  intros Hwf. induction passes as [|pass passes IH]; intros x Hx; cbn [search_passes]; [split; [done|cbn; lia]|].
  destruct (search_sources_ok pass sources Hwf x Hx) as [H1 H2].
  set (x1 := search_sources adj now pass sources x) in *.
  destruct (stops_continues (tick now) (csp_max_cycles pass) x1) as [[C1 C2 C3 C4] _].
  assert (ex_scratch _ (stops (tick now) (csp_max_cycles pass) x1).2 = ex_scratch _ x1) as Es
    by (unfold stops; by destruct (tick now _)).
  destruct (stops _ _ x1) as [[] x2]; cbn [fst snd] in *.
  - split; [split; [rewrite Es; apply H1|apply C2, H1]|]. cbn. lia.
  - destruct (IH x2) as [H4 H5]; [split; [rewrite Es; apply H1|apply C2, H1]|]. split; [exact H4|]. cbn. lia.
Qed.

Lemma multi_pass_ok passes scratch k : adj_wf → scratch_clean scratch →
  let '(found, scratch', _) := find_cycles_bellman_ford_multi_pass_with_adj adj now passes scratch k in
  scratch_clean scratch' ∧ Forall (cycle_found (Z.to_nat HOP_CAP)) found ∧ NoDup (fc_edges <$> found) ∧
  (length found ≤ max_list (csp_max_cycles <$> passes))%nat.
Proof.
  intros Hwf Hs. unfold find_cycles_bellman_ford_multi_pass_with_adj.
  destruct (decide (passes = [])) as [->|_]; [split_and!; [done|constructor|constructor|cbn; lia]|].
  match goal with |- context [search_passes adj now ?ss passes ?x0] =>
    destruct (search_passes_ok ss passes Hwf x0) as [[H1 [H2 H3 H4]] H5] end; [|by split_and!].
  split; [by apply prepare_clean|]. split; [done|constructor|constructor].
Qed.
End passes.
End inv.

(** ** The search over a graph *)

(** The edges of the projection are live direct edges of the graph. *)
Lemma weighted_edge g u l we :
  build_weighted_adjacency g !! u = Some l → we ∈ l →
  ∃ at_ ge, at_.1 = u ∧ edge_at g at_ = Some ge ∧ ge_phase ge = Direct ∧ is_live_graph_edge ge = true ∧
    (Z.to_nat (token_out (ge_edge ge)) < token_slots g)%nat ∧
    we = {| we_edge := ge_edge ge; we_weight := ge_log_weight ge; we_ratio := ge_ratio ge |}.
Proof.
  unfold build_weighted_adjacency. rewrite list_lookup_fmap. intros Hl Hwe.
  destruct (take (token_slots g) (rg_adjacency g) !! u) as [adj|] eqn:Ha; [|done]. injection Hl as <-.
  apply lookup_take_Some in Ha as [Ha _]. apply list_elem_of_omap in Hwe as (ge & Hge & Hw).
  apply list_elem_of_lookup in Hge as [j Hj]. exists (u, j), ge. unfold weigh in Hw.
  destruct (negb _ || negb _)%bool eqn:Hb; [done|]. apply orb_false_iff in Hb as [H1 H2].
  apply negb_false_iff in H1, H2. apply bool_decide_eq_true in H1.
  destruct (Nat.leb_spec (token_slots g) (Z.to_nat (token_out (ge_edge ge)))); [done|]. injection Hw as <-.
  split_and!; [done| |done..]. unfold edge_at. cbn. by rewrite Ha.
Qed.
