(* ===== verification/BellmanFordClaims.v ===== *)
(** * The cycles of a routing graph

    The Bellman-Ford search over a reachable graph, and over a graph that was just priced;
    what its relaxation cannot reach. *)
From stdpp Require Import gmap sorting relations.
From Stdlib Require Import SpecFloat.
From S2P Require Import Prelude Word Types Arena Routes Realign CycleRank SpotPrice Graph GraphOps GraphInv GraphSteps GraphClaims.
From S2P Require Import Deadline BellmanFord BellmanFordInv.

(** A live direct edge of the graph. *)
Definition live_direct (g : RoutingGraph) (ge : GraphEdge) : Prop :=
  ge_phase ge = Direct ∧ is_live_graph_edge ge = true ∧ ∃ at_, edge_at g at_ = Some ge.

Lemma weighted_adjacency_wf g : struct_ok g → adj_wf (build_weighted_adjacency g).
Proof.
  intros Hok u l we Hl Hwe. destruct (weighted_edge _ _ _ _ Hl Hwe) as (at_ & ge & <- & Hge & Hd & _ & _ & ->).
  pose proof (go_placed _ Hok _ _ Hge) as [_ Hp]. rewrite Hd in Hp. cbn. lia.
Qed.

(** The graph edges behind the edges of a route. *)
Lemma live_route g wes : Forall (live_edge (build_weighted_adjacency g)) wes →
  ∃ ges, ge_edge <$> ges = we_edge <$> wes ∧ ge_ratio <$> ges = we_ratio <$> wes ∧ Forall (live_direct g) ges.
Proof.
  induction 1 as [|we wes [_ (l & Hl & Hin)] _ (ges & E1 & E2 & Hg)].
  { by exists []. }
  destruct (weighted_edge _ _ _ _ Hl Hin) as (at_ & ge & _ & Hge & Hd & Hlv & _ & ->). exists (ge :: ges). cbn.
  rewrite E1, E2. split_and!; [done|done|]. constructor; [|done]. split_and!; [done|done|by exists at_].
Qed.

Definition ratio_product (rs : list Z) : Z := foldr (λ r p, mul_ratio_saturating p r) ONE rs.

Lemma route_ratio_product wes : route_ratio wes = ratio_product (we_ratio <$> wes).
Proof. unfold route_ratio, ratio_product. induction wes as [|we wes IH]; [done|]. cbn. by rewrite <- IH. Qed.

Lemma hop_count_small adj h c : cycle_found adj h c → (h ≤ Z.to_nat HOP_CAP)%nat → wrap_u 32 (Z.of_nat (length (fc_edges c))) = Z.of_nat (length (fc_edges c)).
Proof. intros Hc Hh. pose proof (cf_hops _ _ _ Hc). unfold HOP_CAP in Hh. unfold wrap_u. apply Z.mod_small. lia. Qed.

Section search.
Context (ln_f64 : f64 → f64) (now : nat → Z).

(** C26: The search over a reachable graph returns closed walks of two to eight hops through
    live direct edges of the graph, no pool and no token twice, that fit the executor and
    whose ratio, the product of the ratios of their edges, exceeds the bar for their
    length; no route twice, no more than the largest quota, and the arrays clean. *)
Theorem bellman_ford_sound g passes scratch k :
  reachable ln_f64 g → scratch_clean scratch →
  let r := find_cycles_bellman_ford_multi_pass_with_adj (build_weighted_adjacency g) now passes scratch k in
  let found := r.1.1 in
  scratch_clean r.1.2 ∧ NoDup (fc_edges <$> found) ∧
  (length found ≤ max_list (csp_max_cycles <$> passes))%nat ∧
  ∀ c, c ∈ found →
    simple_cycle (fc_edges c) ∧ chained (fc_edges c) ∧ token_in <$> head (fc_edges c) = Some (fc_start_token c) ∧
    (length (fc_edges c) ≤ 8)%nat ∧ fc_hop_count c = Z.of_nat (length (fc_edges c)) ∧
    packed_calls_fit_executor (estimate_packed_route_calls (fc_edges c)) = true ∧
    ONE < fc_cycle_ratio c ∧ min_profitable_cycle_ratio (fc_hop_count c) ≤ fc_cycle_ratio c ∧
    ∃ ges, ge_edge <$> ges = fc_edges c ∧ Forall (live_direct g) ges ∧
      fc_cycle_ratio c = ratio_product (ge_ratio <$> ges).
Proof.
  intros Hr Hs. destruct (reachable_ok ln_f64 g Hr) as [Hok _].
  pose proof (multi_pass_ok (build_weighted_adjacency g) now passes scratch k (weighted_adjacency_wf g Hok) Hs) as H.
  destruct (find_cycles_bellman_ford_multi_pass_with_adj _ _ _ _ _) as [[found scratch'] k']. cbn [fst snd].
  destruct H as (H1 & H2 & H3 & H4). split_and!; [done..|]. intros c Hc. rewrite Forall_forall in H2. specialize (H2 c Hc).
  pose proof (hop_count_small _ _ _ H2 ltac:(done)) as Hw. destruct H2 as [F1 F2 F3 F4 F5 (wes & W1 & W2 & W3) [F7 F8] F9].
  rewrite F5, Hw in *. destruct (live_route g wes W2) as (ges & G1 & G2 & G3).
  split_and!; try done. exists ges. split_and!; [congruence|done|]. by rewrite W3, route_ratio_product, G2.
Qed.

(** When the graph was just priced, the ratio of a cycle is the product of the prices the
    pools of its hops give now. *)
Theorem found_ratio_is_priced arena g0 g passes scratch k c :
  reachable ln_f64 g0 → rescore_graph_in_place ln_f64 arena g0 = Done g → scratch_clean scratch →
  c ∈ (find_cycles_bellman_ford_multi_pass_with_adj (build_weighted_adjacency g) now passes scratch k).1.1 →
  ∃ rs, Forall2 (λ e r, compute_edge_ratio arena e = Done r) (fc_edges c) rs ∧
    fc_cycle_ratio c = ratio_product rs.
Proof.
  intros (tc & Htc & Hr0) Hg Hs Hc.
  assert (reachable ln_f64 g) as Hr.
  { exists tc. split; [done|]. etrans; [exact Hr0|]. by eapply rtc_once, step_rescore. }
  destruct (reachable_ok ln_f64 g Hr) as [Hok _].
  assert (∀ at_ ge, edge_at g at_ = Some ge → well_priced ln_f64 arena ge) as Hpriced.
  { intros at_ ge Hge. eapply rescored_edge_priced; [exact Hg|exact Hge]. }
  pose proof (multi_pass_ok (build_weighted_adjacency g) now passes scratch k (weighted_adjacency_wf g Hok) Hs) as H.
  destruct (find_cycles_bellman_ford_multi_pass_with_adj _ _ _ _ _) as [[found scratch'] k']. cbn in Hc.
  destruct H as (_ & H2 & _). rewrite Forall_forall in H2. specialize (H2 c Hc).
  destruct (cf_live _ _ _ H2) as (wes & W1 & W2 & W3). destruct (live_route g wes W2) as (ges & G1 & G2 & G3).
  exists (ge_ratio <$> ges). split; [|by rewrite W3, route_ratio_product, G2].
  rewrite <- W1, <- G1. clear - G3 Hpriced. induction G3 as [|ge ges (Hd & Hl & at_ & Hge) _ IH]; cbn; constructor; [|done].
  specialize (Hpriced _ _ Hge). unfold well_priced, is_live_graph_edge in *. rewrite Hd in *.
  destruct Hpriced as [[Hz _]|(_ & Hp & _)]; [|exact Hp]. by rewrite Hz in Hl.
Qed.
End search.

(** C27: A node that is not reached yet is reached only by a product above one: the distance
    test compares with infinity minus infinity and never holds, so a walk whose first hop
    loses is not followed from its source, however much the later hops gain. *)
Theorem unreached_needs_gain u_idx u_dist u_ratio st we :
  clean_at (rx_scratch st) (Z.to_nat (token_out (we_edge we))) →
  mul_ratio_saturating u_ratio (we_ratio we) ≤ ONE →
  relax_edge u_idx u_dist u_ratio st we = st.
Proof.
  intros (Hd & Hr & _) Hle. unfold relax_edge. destruct (_ || is_zero _)%bool; [done|]. rewrite Hd, Hr.
  replace (f_sub f_inf (bf_eps f_inf)) with S754_nan by (vm_compute; reflexivity).
  assert (∀ x, SFltb x S754_nan = false) as -> by (intros [| | |]; done).
  by rewrite (proj2 (Z.ltb_ge _ _) Hle).
Qed.

(** ** Witnesses *)

Definition no_scratch : BfScratch :=
  {| bf_dist := []; bf_dist_ratio := []; bf_pred_node := []; bf_pred_edge := []; bf_in_next := [];
     bf_visited := []; bf_gen := 0 |}.

Lemma no_scratch_clean : scratch_clean no_scratch.
Proof. split; [by exists 0%nat|]. by intros [|v]. Qed.

Definition demo_passes : list CycleSearchPass := [{| csp_max_hops := 3; csp_max_cycles := 16 |}].

Abbreviation demo_found :=
  (find_cycles_bellman_ford_multi_pass_with_adj (build_weighted_adjacency demo_rescored_graph) (λ _, 0)
     demo_passes no_scratch 0).1.1.

Lemma bellman_ford_sound_witness :
  length demo_found = 1%nat ∧ ∀ c, c ∈ demo_found → ONE < fc_cycle_ratio c.
Proof.
  split; [vm_compute; reflexivity|]. intros c Hc.
  destruct (bellman_ford_sound (λ x, x) (λ _, 0) demo_rescored_graph demo_passes no_scratch 0 demo_reachable no_scratch_clean)
    as (_ & _ & _ & H).
  destruct (H c Hc) as (_ & _ & _ & _ & _ & _ & Hr & _). exact Hr.
Defined.

Definition demo_cycle3 : FoundCycle :=
  default {| fc_start_token := 0; fc_edges := []; fc_hop_count := 0; fc_log_weight := f_zero;
             fc_cumulative_fee_bps := 0; fc_score := f_zero; fc_cycle_ratio := 0 |} (head demo_found).

Lemma head_elem {A} (l : list A) x : head l = Some x → x ∈ l.
Proof. destruct l as [|y l]; [done|]. intros [= ->]. left. Qed.

Lemma demo_cycle3_found : demo_cycle3 ∈ demo_found.
Proof. apply head_elem. vm_compute. reflexivity. Qed.

Lemma demo_attached_reachable : reachable (λ x, x) demo_attached.
Proof.
  exists 3. split; [lia|]. unfold demo_attached.
  eapply rtc_l; [apply (demo_attach_step _ _ 0 0 1); vm_compute; reflexivity|].
  eapply rtc_l; [apply (demo_attach_step _ _ 1 1 2); vm_compute; reflexivity|].
  apply rtc_once, (demo_attach_step _ _ 2 2 0); vm_compute; reflexivity.
Qed.

Lemma found_ratio_is_priced_witness :
  fc_hop_count demo_cycle3 = 3 ∧
  ∃ rs, Forall2 (λ e r, compute_edge_ratio demo_triangle e = Done r) (fc_edges demo_cycle3) rs ∧
    fc_cycle_ratio demo_cycle3 = ratio_product rs.
Proof.
  split; [vm_compute; reflexivity|].
  apply (found_ratio_is_priced (λ x, x) (λ _, 0) demo_triangle demo_attached demo_rescored_graph demo_passes no_scratch 0).
  - exact demo_attached_reachable.
  - vm_compute. reflexivity.
  - exact no_scratch_clean.
  - exact demo_cycle3_found.
Defined.

(** Two lossy hops and a strong one, the product above one. *)
Definition demo_we (pool tin tout ratio : Z) (weight : f64) : WeightedEdge :=
  {| we_edge := Realign.set_legs (Routes.demo_edge UniswapV2 pool 0 1) tin tout; we_weight := weight; we_ratio := ratio |}.

Definition demo_mixed : list (list WeightedEdge) :=
  [[demo_we 1 0 1 (99 * 10 ^ 16) (f_dec 1 100)]; [demo_we 2 1 2 (99 * 10 ^ 16) (f_dec 1 100)];
   [demo_we 3 2 0 (105 * 10 ^ 16) (SFopp (f_dec 488 10000))]].

Definition demo_from (source : TokenIndex) : list FoundCycle :=
  ex_cycles _ (collect_negative_cycles_from_source demo_mixed (λ u : unit, (false, u)) source 3 16
    {| ex_scratch := prepare no_scratch 3; ex_keys := ∅; ex_cycles := []; ex_stop := tt |}).

(** From the end of the strong hop the triangle is found, from its start it is not. *)
Lemma unreached_needs_gain_witness :
  relax_edge 0 f_zero ONE (relax_start (prepare no_scratch 3) 0) (demo_we 1 0 1 (99 * 10 ^ 16) (f_dec 1 100))
    = relax_start (prepare no_scratch 3) 0 ∧
  demo_from 0 = [] ∧ length (demo_from 2) = 1%nat.
Proof.
  split; [|split; vm_compute; reflexivity].
  apply unreached_needs_gain; [vm_compute; repeat split|vm_compute; discriminate].
Defined.
