(* ===== verification/ActiveGraph.v ===== *)
(** * The view of the graph the depth-first search walks

    [ActiveGraph] of [src/src/pipeline/cycle_finder.rs]: the live edges of each node, best
    first, the start tokens, the bounds the search prunes with, and the adjustments for a
    search that must open through observed pools.  [sort_unstable_by] is modelled by a
    stable sort. *)
From stdpp Require Import gmap sorting.
From Corelib Require Import SpecFloat.
From S2P Require Import Prelude Word Types Realign CycleRank SpotPrice Graph Coverage GraphOps.

Definition DFS_MAX_START_SOURCES : nat := 32.
Definition LOG_WEIGHT_PRUNE_THRESHOLD : f64 := f_zero.

(** ** Pool metadata by index *)

(** [vec![None; max + 1]], then every meta at its index; the last one wins. *)
Definition index_pool_metas (pool_metas : list PoolMeta) : list (option PoolMeta) :=
  let slots := fold_left (λ n meta, Nat.max n (S (Z.to_nat (pm_pool_index meta)))) pool_metas 0%nat in
  fold_left (λ index meta, <[Z.to_nat (pm_pool_index meta) := Some meta]> index) pool_metas (replicate slots None).

Record ActiveGraph := {
  ag_adjacency : list (list GraphEdge);
  ag_start_tokens : list TokenIndex;
  ag_hub_heavy : bool;
  ag_min_outgoing_weight : list f64;
  ag_global_min_live_edge_weight : f64;
  ag_max_outgoing_ratio : list Z;
  ag_global_max_live_edge_ratio : Z;
  ag_first_hop_pools : option (gset PoolIndex);
}.

Definition with_starts (self : ActiveGraph) (starts : list TokenIndex) : ActiveGraph :=
  {| ag_adjacency := ag_adjacency self; ag_start_tokens := starts; ag_hub_heavy := ag_hub_heavy self;
     ag_min_outgoing_weight := ag_min_outgoing_weight self;
     ag_global_min_live_edge_weight := ag_global_min_live_edge_weight self;
     ag_max_outgoing_ratio := ag_max_outgoing_ratio self;
     ag_global_max_live_edge_ratio := ag_global_max_live_edge_ratio self;
     ag_first_hop_pools := ag_first_hop_pools self |}.

Definition with_adjacency (self : ActiveGraph) (adjacency : list (list GraphEdge)) : ActiveGraph :=
  {| ag_adjacency := adjacency; ag_start_tokens := ag_start_tokens self; ag_hub_heavy := ag_hub_heavy self;
     ag_min_outgoing_weight := ag_min_outgoing_weight self;
     ag_global_min_live_edge_weight := ag_global_min_live_edge_weight self;
     ag_max_outgoing_ratio := ag_max_outgoing_ratio self;
     ag_global_max_live_edge_ratio := ag_global_max_live_edge_ratio self;
     ag_first_hop_pools := ag_first_hop_pools self |}.

Definition with_pins (self : ActiveGraph) (pins : gset PoolIndex) : ActiveGraph :=
  {| ag_adjacency := ag_adjacency self; ag_start_tokens := ag_start_tokens self; ag_hub_heavy := ag_hub_heavy self;
     ag_min_outgoing_weight := ag_min_outgoing_weight self;
     ag_global_min_live_edge_weight := ag_global_min_live_edge_weight self;
     ag_max_outgoing_ratio := ag_max_outgoing_ratio self;
     ag_global_max_live_edge_ratio := ag_global_max_live_edge_ratio self;
     ag_first_hop_pools := Some pins |}.

Definition start_token_count (self : ActiveGraph) : nat := length (ag_start_tokens self).

(** ** The adjustments *)

(** [if seen.insert(t) { out.push(t) }]: what was seen is what was pushed. *)
Definition push_fresh (out : list TokenIndex) (t : TokenIndex) : list TokenIndex :=
  if decide (t ∈ out) then out else out ++ [t].

(** The hubs behind the preferred tokens, up to [limit] in all. *)
Fixpoint fill_hubs (limit : nat) (out tokens : list TokenIndex) : list TokenIndex :=
  match tokens with
  | [] => out
  | t :: tokens => if (limit <=? length out)%nat then out else fill_hubs limit (push_fresh out t) tokens
  end.

Definition prefer_start_tokens (self : ActiveGraph) (extra : list TokenIndex) (exclusive : bool) : ActiveGraph :=
  if decide (extra = []) then self
  else
    let extra_cap := Nat.min (length extra) 16 in
    let out := fold_left push_fresh (take extra_cap extra) [] in
    with_starts self
      (if exclusive then out else fill_hubs (DFS_MAX_START_SOURCES + extra_cap) out (ag_start_tokens self)).

Definition is_pin (pins : gset PoolIndex) (ge : GraphEdge) : bool := bool_decide (pool_index (ge_edge ge) ∈ pins).

(** [sort_by_key(|ge| !pin.contains(..))]: the edges of the pins first. *)
Definition compare_pin (pins : gset PoolIndex) (a b : GraphEdge) : comparison :=
  compare_bool (negb (is_pin pins a)) (negb (is_pin pins b)).

Definition prioritize_first_hop_pools (self : ActiveGraph) (pools : list PoolIndex) : ActiveGraph :=
  if decide (pools = []) then self
  else
    let pin : gset PoolIndex := list_to_set pools in
    let self := with_pins self pin in
    let pin_starts :=
      filter (λ t, existsb (is_pin pin) (default [] (ag_adjacency self !! Z.to_nat t)) = true) (ag_start_tokens self) in
    let self := if decide (pin_starts = []) then self else with_starts self pin_starts in
    with_adjacency self
      (fold_left (λ adjacency t, alter (sort_by (compare_pin pin)) (Z.to_nat t) adjacency)
         (ag_start_tokens self) (ag_adjacency self)).

Definition uni_or_pin (pins : gset PoolIndex) (ge : GraphEdge) : bool :=
  (is_pin pins ge || match protocol (ge_edge ge) with UniswapV2 | UniswapV3 | UniswapV4 => true | _ => false end)%bool.

Definition retain_uni_or_pin_edges (self : ActiveGraph) (pools : list PoolIndex) : ActiveGraph :=
  let pin : gset PoolIndex := list_to_set pools in
  with_adjacency self ((λ edges : list GraphEdge, filter (λ ge, uni_or_pin pin ge = true) edges) <$> ag_adjacency self).

(** One edge of the graph against the edges its node already has. *)
Definition inject_edge (pins : gset PoolIndex) (mine : list GraphEdge) (ge : GraphEdge) : list GraphEdge :=
  if (negb (bool_decide (ge_phase ge = Direct)) || negb (is_pin pins ge))%bool then mine
  else if existsb (λ e, (pool_index (ge_edge e) =? pool_index (ge_edge ge))
                        && (token_out (ge_edge e) =? token_out (ge_edge ge))
                        && bool_decide (ge_phase e = Direct))%bool mine then mine
  else mine ++ [if is_zero (ge_ratio ge) then with_price ge f_zero ONE else ge].

Definition inject_unpriced_pin_directs (self : ActiveGraph) (graph : RoutingGraph) (pools : list PoolIndex) : ActiveGraph :=
  if decide (pools = []) then self
  else
    let pin : gset PoolIndex := list_to_set pools in
    let nodes := take (token_slots graph) (rg_adjacency graph) in
    with_adjacency self
      (fold_left (λ adjacency '(ti, edges), alter (λ mine, fold_left (inject_edge pin) edges mine) ti (grow ti [] adjacency))
         (zip (seq 0 (length nodes)) nodes) (ag_adjacency self)).

(** ** Preparation *)

Record NodePrep := {
  np_live : list GraphEdge;
  np_protos : nat;
  np_min_outgoing : option f64;
  np_max_outgoing_ratio : Z;
  np_enter_legs : Z;
  np_direct_legs : Z;
}.

(** The accumulators of [prep_node]: the result so far and the bits of the protocols. *)
Definition no_prep : NodePrep :=
  {| np_live := []; np_protos := 0; np_min_outgoing := None; np_max_outgoing_ratio := ONE;
     np_enter_legs := 0; np_direct_legs := 0 |}.

Definition prep_edge (is_token : bool) (acc : NodePrep * Z) (ge : GraphEdge) : NodePrep * Z :=
  if negb (is_live_graph_edge ge) then acc
  else
    let '(p, proto_bits) := acc in
    let live := np_live p ++ [ge] in
    if negb is_token then
      ({| np_live := live; np_protos := np_protos p; np_min_outgoing := np_min_outgoing p;
          np_max_outgoing_ratio := np_max_outgoing_ratio p; np_enter_legs := np_enter_legs p;
          np_direct_legs := np_direct_legs p |}, proto_bits)
    else
      let bit := wrap_u 16 (Z.shiftl 1 (protocol_u8 (protocol (ge_edge ge)))) in
      let fresh := is_zero (Z.land proto_bits bit) in
      let direct := bool_decide (ge_phase ge = Direct) in
      let w := ge_log_weight ge in
      ({| np_live := live;
          np_protos := if fresh then S (np_protos p) else np_protos p;
          np_min_outgoing :=
            if direct then
              match np_min_outgoing p with
              | Some best => Some (if SFltb w best then w else best)
              | None => Some w
              end
            else np_min_outgoing p;
          np_max_outgoing_ratio :=
            if (direct && (ONE <=? ge_ratio ge) && (np_max_outgoing_ratio p <? ge_ratio ge))%bool then ge_ratio ge
            else np_max_outgoing_ratio p;
          np_enter_legs :=
            if decide (ge_phase ge = EnterPool) then Z.min (np_enter_legs p + 1) 65535 else np_enter_legs p;
          np_direct_legs := if direct then Z.min (np_direct_legs p + 1) 65535 else np_direct_legs p |},
       if fresh then Z.lor proto_bits bit else proto_bits).

(** [partial_cmp(..).unwrap_or(Equal)] *)
Definition compare_log_weight (a b : GraphEdge) : comparison :=
  default Eq (SFcompare (ge_log_weight a) (ge_log_weight b)).

Definition prep_node (index token_count : nat) (graph : RoutingGraph) (coverage : CycleCapableCoverage) : NodePrep :=
  let edges := adj_at graph index in
  if ((index <? token_count)%nat && negb (is_token_capable coverage index))%bool then no_prep
  else
    let p := (fold_left (prep_edge (index <? token_count)%nat) edges (no_prep, 0)).1 in
    {| np_live := sort_by compare_log_weight (np_live p); np_protos := np_protos p;
       np_min_outgoing := np_min_outgoing p; np_max_outgoing_ratio := np_max_outgoing_ratio p;
       np_enter_legs := np_enter_legs p; np_direct_legs := np_direct_legs p |}.

Definition compare_cycle_start_source (a b : TokenIndex * nat * nat) : comparison :=
  then_with (Nat.compare b.1.2 a.1.2) (then_with (Nat.compare b.2 a.2) (a.1.1 ?= b.1.1)).

(** The tokens are distinct, so the first [take] of the selection are those of the sort. *)
Definition select_cycle_start_tokens (scored : list (TokenIndex * nat * nat)) : list TokenIndex :=
  (take (Nat.min (length scored) DFS_MAX_START_SOURCES) (sort_by compare_cycle_start_source scored)).*1.*1.

(** The accumulators of [prepare_active_graph]. *)
Record Gather := {
  ga_hub_enter : Z;
  ga_hub_direct : Z;
  ga_min_outgoing : list (option f64);
  ga_max_outgoing_ratio : list Z;
  ga_global_min : f64;
  ga_global_max_ratio : Z;
  ga_scored : list (TokenIndex * nat * nat);
}.

Definition gather_node (token_count : nat) (acc : Gather) '((index, node) : nat * NodePrep) : Gather :=
  if negb (index <? token_count)%nat then acc
  else
    {| ga_hub_enter := ga_hub_enter acc + np_enter_legs node;
       ga_hub_direct := ga_hub_direct acc + np_direct_legs node;
       ga_min_outgoing :=
         match np_min_outgoing node with
         | Some w => <[index := Some w]> (ga_min_outgoing acc)
         | None => ga_min_outgoing acc
         end;
       ga_max_outgoing_ratio :=
         if nth index (ga_max_outgoing_ratio acc) ONE <? np_max_outgoing_ratio node
         then <[index := np_max_outgoing_ratio node]> (ga_max_outgoing_ratio acc)
         else ga_max_outgoing_ratio acc;
       ga_global_min :=
         match np_min_outgoing node with
         | Some w => if SFltb w (ga_global_min acc) then w else ga_global_min acc
         | None => ga_global_min acc
         end;
       ga_global_max_ratio := Z.max (ga_global_max_ratio acc) (np_max_outgoing_ratio node);
       ga_scored :=
         if (0 <? length (np_live node))%nat
         then ga_scored acc ++ [(Z.of_nat index, np_protos node, length (np_live node))]
         else ga_scored acc |}.

Definition prepare_active_graph (graph : RoutingGraph) : ActiveGraph :=
  let coverage := default (cycle_capable_coverage graph) (rg_coverage graph) in
  let token_count := token_slots graph in
  let node_count := length (rg_adjacency graph) in
  let per_node := (λ index, prep_node index token_count graph coverage) <$> seq 0 node_count in
  let acc :=
    fold_left (gather_node token_count) (zip (seq 0 node_count) per_node)
      {| ga_hub_enter := 0; ga_hub_direct := 0; ga_min_outgoing := replicate token_count None;
         ga_max_outgoing_ratio := replicate token_count ONE; ga_global_min := f_inf;
         ga_global_max_ratio := ONE; ga_scored := [] |} in
  {| ag_adjacency := np_live <$> per_node;
     ag_start_tokens := select_cycle_start_tokens (ga_scored acc);
     ag_hub_heavy := ga_hub_direct acc <? ga_hub_enter acc;
     ag_min_outgoing_weight := default f_inf <$> ga_min_outgoing acc;
     ag_global_min_live_edge_weight := if SFeqb (ga_global_min acc) f_inf then f_zero else ga_global_min acc;
     ag_max_outgoing_ratio := ga_max_outgoing_ratio acc;
     ag_global_max_live_edge_ratio := ga_global_max_ratio acc;
     ag_first_hop_pools := None |}.

(** ** Pruning *)

Definition can_still_be_negative (log_weight : f64) (hops hop_cap : Z) (curr : TokenIndex)
    (min_outgoing : list f64) (global_min : f64) : bool :=
  let close_penalty := hop_penalty (Z.max hop_cap 2) in
  let remaining := saturating_sub hop_cap hops in
  if remaining =? 0 then SFleb (f_add log_weight close_penalty) LOG_WEIGHT_PRUNE_THRESHOLD
  else
    let first := nth (Z.to_nat curr) min_outgoing f_inf in
    if negb (match first with S754_zero _ | S754_finite _ _ _ => true | _ => false end) then false
    else
      let tail := if remaining =? 1 then f_zero else f_mul (f_int (remaining - 1)) global_min in
      SFleb (f_add (f_add (f_add log_weight first) tail) close_penalty) LOG_WEIGHT_PRUNE_THRESHOLD.

(** [for _ in 1..remaining], from the product of the first hop. *)
Fixpoint optimistic_loop (n : nat) (optimistic global_max_ratio : Z) : bool :=
  match n with
  | O => false
  | S n =>
      let optimistic := mul_ratio_saturating optimistic global_max_ratio in
      if ONE <? optimistic then true else optimistic_loop n optimistic global_max_ratio
  end.

Definition can_still_be_profitable_u256 (product_ratio : Z) (hops hop_cap : Z) (curr : TokenIndex)
    (max_outgoing_ratio : list Z) (global_max_ratio : Z) : bool :=
  if ((ONE <? product_ratio) && (min_profitable_cycle_ratio hops <=? product_ratio))%bool then true
  else
    let remaining := saturating_sub hop_cap hops in
    if remaining =? 0 then false
    else
      let first := nth (Z.to_nat curr) max_outgoing_ratio ONE in
      if first <? ONE then false
      else
        let optimistic := mul_ratio_saturating product_ratio first in
        if ONE <? optimistic then true
        else if ((1 <? remaining) && (ONE <=? global_max_ratio))%bool
        then optimistic_loop (Z.to_nat (remaining - 1)) optimistic global_max_ratio
        else false.

Definition edge_is_pin (prep : ActiveGraph) (pool : PoolIndex) : bool :=
  match ag_first_hop_pools prep with Some pins => bool_decide (pool ∈ pins) | None => false end.

Definition can_still_find_profitable_cycle (log_weight : f64) (product_ratio : Z) (hops hop_cap : Z)
    (curr : TokenIndex) (prep : ActiveGraph) (pin_touched : bool) : bool :=
  if pin_touched then true
  else
    let hop_floor := Z.max hops 2 in
    if ((ONE <? product_ratio) && (min_profitable_cycle_ratio hop_floor <=? product_ratio))%bool then true
    else if negb (can_still_be_negative log_weight hops hop_cap curr (ag_min_outgoing_weight prep)
                    (ag_global_min_live_edge_weight prep)) then false
    else can_still_be_profitable_u256 product_ratio hops hop_cap curr (ag_max_outgoing_ratio prep)
           (ag_global_max_live_edge_ratio prep).
