(* ===== verification/CycleDfs.v ===== *)
(** * The depth-first search for cycles

    The rest of [src/src/pipeline/cycle_finder.rs]: the shared quota, the search from one
    start token, the shards and the passes, and of [cycle_search.rs] the split of the
    budget.  A hop through a hub is priced when it is taken, and a price may panic.  The
    shards run in order on one thread. *)
From stdpp Require Import gmap sorting.
From Corelib Require Import SpecFloat.
From S2P Require Import Prelude Word Types Arena Routes Realign CycleRank SpotPrice Graph GraphEdges Deadline.
From S2P Require Import BellmanFord ActiveGraph.

Definition MAX_CYCLES_PER_PASS : nat := Z.to_nat 50000.
Definition CYCLE_ENUM_TIME_BUDGET : Z := 1000.

(** ** The shared quota *)

Record SharedCycleCap := { cap_max : nat; cap_found : nat }.

Definition cap_new (max : nat) : SharedCycleCap := {| cap_max := max; cap_found := 0 |}.

Definition is_full (self : SharedCycleCap) : bool := (cap_max self <=? cap_found self)%nat.

Definition usize_saturating_mul (a b : nat) : Z := Z.min (Z.of_nat a * Z.of_nat b) (2 ^ 64 - 1).

Definition is_past_fraction (self : SharedCycleCap) (num den : nat) : bool :=
  if ((den =? 0)%nat || (cap_max self =? 0)%nat)%bool then is_full self
  else usize_saturating_mul (cap_max self) num <=? usize_saturating_mul (cap_found self) den.

(** The exchange succeeds at its last try; the others saw the value of another thread. *)
Definition try_claim (self : SharedCycleCap) : bool * SharedCycleCap :=
  if (cap_max self <=? cap_found self)%nat then (false, self)
  else (true, {| cap_max := cap_max self; cap_found := S (cap_found self) |}).

Definition reset_to (self : SharedCycleCap) (count : nat) : SharedCycleCap :=
  {| cap_max := cap_max self; cap_found := Nat.min count (cap_max self) |}.

(** ** The marks *)

Definition route_hop_budget_exceeded (hop_call_sum : Z) : bool :=
  negb (packed_calls_fit_executor (Z.to_nat hop_call_sum)).

Definition hub_exit_legs (graph : RoutingGraph) (hub_node : Z) (meta : PoolMeta) (state : PoolState) : list Z :=
  let live := funded_token_indices state meta in
  if decide (live = []) then
    match virtual_hub_index graph hub_node with
    | None => []
    | Some idx => default [] (vh_exit_legs <$> rg_virtual_hubs graph !! idx)
    end
  else live.

Definition pool_mark (used : list bool) (pool_id : PoolIndex) : bool * list bool :=
  let idx := Z.to_nat pool_id in
  let used := grow idx false used in
  if nth idx used false then (false, used) else (true, <[idx := true]> used).

Definition pool_unmark (used : list bool) (pool_id : PoolIndex) : list bool := <[Z.to_nat pool_id := false]> used.

Record DfsScratch := {
  ds_used_pools : list bool;
  ds_used_tokens : list bool;
  ds_path : list Edge;
}.

(** [prepare]; the capacity of the path is not state. *)
Definition prepare_scratch (self : DfsScratch) (pool_slots token_count : nat) : DfsScratch :=
  let clear n (l : list bool) :=
    if (length l <? n)%nat then resize n false l else replicate n false ++ drop n l in
  {| ds_used_pools := clear pool_slots (ds_used_pools self);
     ds_used_tokens := clear token_count (ds_used_tokens self); ds_path := [] |}.

(** ** One start token *)

(** What the search changes: its arrays, the cycles of the shard, and what is shared. *)
Record Dfs := {
  df_scratch : DfsScratch;
  df_cycles : list FoundCycle;
  df_seen : gset (list Edge);
  df_budget : SharedDeadlineGuard * nat;
  df_cap : SharedCycleCap;
}.

Definition set_scratch (s : Dfs) (scratch : DfsScratch) : Dfs :=
  {| df_scratch := scratch; df_cycles := df_cycles s; df_seen := df_seen s; df_budget := df_budget s;
     df_cap := df_cap s |}.

Definition set_used_pools (s : Dfs) (used : list bool) : Dfs :=
  set_scratch s {| ds_used_pools := used; ds_used_tokens := ds_used_tokens (df_scratch s);
                   ds_path := ds_path (df_scratch s) |}.

Definition set_used_token (s : Dfs) (idx : nat) (b : bool) : Dfs :=
  set_scratch s {| ds_used_pools := ds_used_pools (df_scratch s);
                   ds_used_tokens := <[idx := b]> (ds_used_tokens (df_scratch s));
                   ds_path := ds_path (df_scratch s) |}.

Definition set_path (s : Dfs) (path : list Edge) : Dfs :=
  set_scratch s {| ds_used_pools := ds_used_pools (df_scratch s);
                   ds_used_tokens := ds_used_tokens (df_scratch s); ds_path := path |}.

(** [path.pop()] *)
Definition pop_path (s : Dfs) : Dfs := set_path s (removelast (ds_path (df_scratch s))).

(** The arguments a step of the walk hands on. *)
Record Walk := {
  wk_hop_calls : Z;
  wk_hops : Z;
  wk_log_w : f64;
  wk_ratio : Z;
  wk_cum_fee : Z;
  wk_pin : bool;
}.

Definition hop_calls_of (p : ProtocolType) : Z := wrap_u 16 (Z.of_nat (estimate_hop_calls p)).

(** One more hop. *)
Definition extend (w : Walk) (edge : Edge) (log_w : f64) (ratio : Z) (pin : bool) : Walk :=
  {| wk_hop_calls := Z.min (wk_hop_calls w + hop_calls_of (protocol edge)) 65535;
     wk_hops := wrap_u 32 (wk_hops w + 1); wk_log_w := log_w; wk_ratio := ratio;
     wk_cum_fee := wrap_u 32 (wk_cum_fee w + clamp_fee_bps (fee_bps edge)); wk_pin := pin |}.

Definition pending_of (ge : GraphEdge) : PendingHubSwap :=
  {| ph_pool_index := pool_index (ge_edge ge); ph_token_in := token_in (ge_edge ge);
     ph_token_in_idx := token_in_idx (ge_edge ge); ph_protocol := protocol (ge_edge ge);
     ph_fee_bps := fee_bps (ge_edge ge) |}.

Section search.
Context (ln_f64 : f64 → f64) (now : nat → Z) (tid : nat).
Context (graph : RoutingGraph) (arena : StateArena) (pool_metas : list (option PoolMeta)) (prep : ActiveGraph).

Section start.
Context (start : TokenIndex) (hop_cap : Z) (max_cycles : nat).

(** [budget.tick() || cycles.len() >= max_cycles || global_cap.is_full()] *)
Definition dfs_stops (s : Dfs) : bool * Dfs :=
  let '(expired, budget) := shared_tick now tid (df_budget s) in
  ((expired || (max_cycles <=? length (df_cycles s))%nat || is_full (df_cap s))%bool,
   {| df_scratch := df_scratch s; df_cycles := df_cycles s; df_seen := df_seen s; df_budget := budget;
      df_cap := df_cap s |}).

(** A loop with that test at the head of each turn. *)
Fixpoint until_stop {A} (visit : A → Dfs → outcome Dfs) (l : list A) (s : Dfs) : outcome Dfs :=
  match l with
  | [] => Done s
  | a :: l =>
      let '(stop, s) := dfs_stops s in
      if stop then Done s else obind (visit a s) (until_stop visit l)
  end.

(** The walk is back at its start. *)
Definition close_cycle (w : Walk) (s : Dfs) : Dfs :=
  let path := ds_path (df_scratch s) in
  if route_hop_budget_exceeded (wk_hop_calls w) then s
  else
    let pin_touch :=
      (wk_pin w || match ag_first_hop_pools prep with
                   | Some pins => existsb (λ e, bool_decide (pool_index e ∈ pins)) path
                   | None => false end)%bool in
    if (negb pin_touch && ((wk_ratio w <=? ONE) || (wk_ratio w <? min_profitable_cycle_ratio (wk_hops w))))%bool then s
    else
      let score := f_add (wk_log_w w) (hop_penalty (wk_hops w)) in
      if (negb pin_touch && SFltb LOG_WEIGHT_PRUNE_THRESHOLD score)%bool then s
      else if bool_decide (path ∈ df_seen s) then s
      else if (bool_decide (is_Some (ag_first_hop_pools prep)) && negb pin_touch && is_past_fraction (df_cap s) 1 2)%bool
      then s
      else
        let '(claimed, cap) := try_claim (df_cap s) in
        if negb claimed then
          {| df_scratch := df_scratch s; df_cycles := df_cycles s; df_seen := df_seen s; df_budget := df_budget s;
             df_cap := cap |}
        else
          {| df_scratch := df_scratch s;
             df_cycles := df_cycles s ++
               [{| fc_start_token := start; fc_edges := path; fc_hop_count := wk_hops w; fc_log_weight := score;
                   fc_cumulative_fee_bps := wk_cum_fee w; fc_score := score; fc_cycle_ratio := wk_ratio w |}];
             df_seen := {[path]} ∪ df_seen s; df_budget := df_budget s; df_cap := cap |}.

Section visit.
(** The recursive call: the node, what is pending at it, the walk so far. *)
Context (rec : Z → option PendingHubSwap → Walk → Dfs → outcome Dfs).

(** The hop of a pushed edge: walk on, then take it back. *)
Definition along (edge : Edge) (node : Z) (w : Walk) (s : Dfs) : outcome Dfs :=
  obind (rec node None w (set_path s (ds_path (df_scratch s) ++ [edge]))) (λ s, Done (pop_path s)).

(** Out of a hub through one of its legs. *)
Definition visit_leg (pending : PendingHubSwap) (meta : PoolMeta) (state : PoolState) (pin : bool) (w : Walk)
    (out_leg : Z) (s : Dfs) : outcome Dfs :=
  let_some token_out := routing_token_at_leg arena state meta (Z.to_nat out_leg) or Done s in
  obind (resolve_lazy_swap_edge ln_f64 arena pending token_out out_leg) (λ resolved,
    let_some r := resolved or Done s in
    let '(edge, edge_log_w, ratio) := r in
    let w' := extend w edge (f_add (wk_log_w w) edge_log_w) (mul_ratio_saturating (wk_ratio w) ratio) pin in
    if negb (can_still_find_profitable_cycle (wk_log_w w') (wk_ratio w') (wk_hops w') hop_cap token_out prep pin)
    then Done s
    else if route_hop_budget_exceeded (wk_hop_calls w') then Done s
    else along edge token_out w' s).

(** The legs of a hub; the leg the swap came in through is skipped before the test. *)
Fixpoint exit_loop (pending : PendingHubSwap) (meta : PoolMeta) (state : PoolState) (pin : bool) (w : Walk)
    (legs : list Z) (s : Dfs) : outcome Dfs :=
  match legs with
  | [] => Done s
  | out_leg :: legs =>
      if out_leg =? ph_token_in_idx pending then exit_loop pending meta state pin w legs s
      else
        let '(stop, s) := dfs_stops s in
        if stop then Done s
        else obind (visit_leg pending meta state pin w out_leg s) (exit_loop pending meta state pin w legs)
  end.

Definition visit_hub (node : Z) (pending : PendingHubSwap) (w : Walk) (s : Dfs) : outcome Dfs :=
  let pool := ph_pool_index pending in
  let '(fresh, used) := pool_mark (ds_used_pools (df_scratch s)) pool in
  let s := set_used_pools s used in
  if negb fresh then Done s
  else
    let hub_pin := (wk_pin w || edge_is_pin prep pool)%bool in
    let unmark s := set_used_pools s (pool_unmark (ds_used_pools (df_scratch s)) pool) in
    match pool_metas !! Z.to_nat pool, pool_state arena pool with
    | Some (Some meta), Some state =>
        obind (exit_loop pending meta state hub_pin w (hub_exit_legs graph node meta state) s) (λ s, Done (unmark s))
    | _, _ => Done (unmark s)
    end.

(** An edge in the middle of a walk. *)
Definition visit_edge (w : Walk) (ge : GraphEdge) (s : Dfs) : outcome Dfs :=
  let edge := ge_edge ge in
  let next_pin := (wk_pin w || edge_is_pin prep (pool_index edge))%bool in
  match ge_phase ge with
  | ExitPool => Done s
  | EnterPool =>
      rec (ge_target_node ge) (Some (pending_of ge))
        {| wk_hop_calls := wk_hop_calls w; wk_hops := wk_hops w; wk_log_w := wk_log_w w; wk_ratio := wk_ratio w;
           wk_cum_fee := wk_cum_fee w; wk_pin := next_pin |} s
  | Direct =>
      if is_zero (ge_ratio ge) then Done s
      else
        let '(fresh, used) := pool_mark (ds_used_pools (df_scratch s)) (pool_index edge) in
        let s := set_used_pools s used in
        if negb fresh then Done s
        else
          let unmark s := set_used_pools s (pool_unmark (ds_used_pools (df_scratch s)) (pool_index edge)) in
          let w' := extend w edge (f_add (wk_log_w w) (ge_log_weight ge)) (mul_ratio_saturating (wk_ratio w) (ge_ratio ge)) next_pin in
          if negb (can_still_find_profitable_cycle (wk_log_w w') (wk_ratio w') (wk_hops w') hop_cap (token_out edge) prep next_pin)
          then Done (unmark s)
          else if route_hop_budget_exceeded (wk_hop_calls w') then Done (unmark s)
          else obind (along edge (ge_target_node ge) w' s) (λ s, Done (unmark s))
  end.
End visit.

Fixpoint dfs (fuel : nat) (curr_node : Z) (pending : option PendingHubSwap) (w : Walk) (s : Dfs) : outcome Dfs :=
  match fuel with
  | O => Done s
  | S fuel =>
      let '(stop, s) := dfs_stops s in
      if stop then Done s
      else if is_virtual_node graph curr_node then
        let_some pending := pending or Done s in
        visit_hub (dfs fuel) curr_node pending w s
      else
        let curr_idx := Z.to_nat curr_node in
        match ds_used_tokens (df_scratch s) !! curr_idx with
        | None => Done s
        | Some used =>
            if ((2 <=? wk_hops w) && (curr_node =? start))%bool then Done (close_cycle w s)
            else if (used || (hop_cap <=? wk_hops w))%bool then Done s
            else if negb (can_still_find_profitable_cycle (wk_log_w w) (wk_ratio w) (wk_hops w) hop_cap curr_node prep (wk_pin w))
            then Done s
            else
              match ag_adjacency prep !! curr_idx with
              | None | Some [] => Done s
              | Some next_edges =>
                  obind (until_stop (visit_edge (dfs fuel) w) next_edges (set_used_token s curr_idx true))
                    (λ s, Done (set_used_token s curr_idx false))
              end
        end
  end.

(** A token and a hub for each hop, and the node that closes the walk. *)
Definition dfs_fuel : nat := S (2 * Nat.max (Z.to_nat hop_cap) 1).

(** The first hop. *)
Definition open_walk (ge : GraphEdge) : Walk :=
  {| wk_hop_calls := hop_calls_of (protocol (ge_edge ge)); wk_hops := 1; wk_log_w := ge_log_weight ge;
     wk_ratio := ge_ratio ge; wk_cum_fee := clamp_fee_bps (fee_bps (ge_edge ge));
     wk_pin := edge_is_pin prep (pool_index (ge_edge ge)) |}.

Definition visit_first (pin_open : bool) (ge : GraphEdge) (s : Dfs) : outcome Dfs :=
  let edge := ge_edge ge in
  let next_pin := edge_is_pin prep (pool_index edge) in
  if (pin_open && match ag_first_hop_pools prep with
                  | Some pins => negb (bool_decide (pool_index edge ∈ pins))
                  | None => false end)%bool then Done s
  else
    match ge_phase ge with
    | ExitPool => Done s
    | EnterPool =>
        dfs dfs_fuel (ge_target_node ge) (Some (pending_of ge))
          {| wk_hop_calls := 0; wk_hops := 0; wk_log_w := f_zero; wk_ratio := ONE; wk_cum_fee := 0; wk_pin := next_pin |} s
    | Direct =>
        if is_zero (ge_ratio ge) then Done s
        else
          let w := open_walk ge in
          if negb (can_still_find_profitable_cycle (wk_log_w w) (wk_ratio w) 1 hop_cap (token_out edge) prep next_pin) then Done s
          else if route_hop_budget_exceeded (wk_hop_calls w) then Done s
          else
            let '(fresh, used) := pool_mark (ds_used_pools (df_scratch s)) (pool_index edge) in
            let s := set_used_pools s used in
            if negb fresh then Done s
            else
              obind (along (dfs dfs_fuel) edge (ge_target_node ge) w s) (λ s,
                Done (set_used_pools s (pool_unmark (ds_used_pools (df_scratch s)) (pool_index edge))))
    end.
End start.

(** The thread's arrays, the clock and the quota are handed from shard to shard. *)
Definition collect_cycles_dfs_single_start (start : TokenIndex) (hop_limit : Z) (max_cycles : nat)
    (scratch : DfsScratch) (budget : SharedDeadlineGuard * nat) (cap : SharedCycleCap) : outcome Dfs :=
  let hop_cap := Z.min hop_limit HOP_CAP in
  let pool_slots := Nat.max (Nat.max (length (rg_pool_edge_positions graph)) (length (ai_pools (sa_inner arena)))) 1 in
  let s :=
    {| df_scratch := prepare_scratch scratch pool_slots (token_slots graph); df_cycles := []; df_seen := ∅;
       df_budget := budget; df_cap := cap |} in
  let idx := Z.to_nat start in
  if (length (ds_used_tokens (df_scratch s)) <=? idx)%nat then Done s
  else
    match ag_adjacency prep !! idx with
    | None | Some [] => Done s
    | Some first_edges =>
        let pin_open :=
          match ag_first_hop_pools prep with
          | Some pins => existsb (is_pin pins) first_edges
          | None => false end in
        obind (until_stop max_cycles (visit_first start hop_cap max_cycles pin_open) first_edges (set_used_token s idx true))
          (λ s, Done (set_used_token s idx false))
    end.

(** ** The shards *)

Context (cycle_key : list Edge → Z).

(** What the shards share: the arrays of the thread, the clock, the quota. *)
Record Shared := {
  sh_scratch : DfsScratch;
  sh_budget : SharedDeadlineGuard * nat;
  sh_cap : SharedCycleCap;
}.

Definition with_cap (st : Shared) (cap : SharedCycleCap) : Shared :=
  {| sh_scratch := sh_scratch st; sh_budget := sh_budget st; sh_cap := cap |}.

(** [budget.tick()] *)
Definition tick_shared (st : Shared) : bool * Shared :=
  let '(expired, budget) := shared_tick now tid (sh_budget st) in
  (expired, {| sh_scratch := sh_scratch st; sh_budget := budget; sh_cap := sh_cap st |}).

Fixpoint run_shards (hop_limit : Z) (jobs : list (TokenIndex * nat)) (st : Shared)
  : outcome (list (list FoundCycle) * Shared) :=
  match jobs with
  | [] => Done ([], st)
  | (start, cap) :: jobs =>
      obind (collect_cycles_dfs_single_start start hop_limit cap (sh_scratch st) (sh_budget st) (sh_cap st)) (λ s,
      obind (run_shards hop_limit jobs {| sh_scratch := df_scratch s; sh_budget := df_budget s; sh_cap := df_cap s |}) (λ '(rest, st),
      Done (df_cycles s :: rest, st)))
  end.

Definition div_ceil (a b : nat) : nat := ((a + b - 1) / b)%nat.

Definition merge_shard_cycles (shard_cycles : list (list FoundCycle)) : list FoundCycle :=
  dedupe_cycles_by_edges cycle_key (concat shard_cycles).

Definition saturated_shards (shard_cycles : list (list FoundCycle)) (shard_caps : list nat) : list nat :=
  (filter (λ ic : nat * (list FoundCycle * nat), (ic.2.2 <=? length ic.2.1)%nat = true)
     (zip (seq 0 (length shard_cycles)) (zip shard_cycles shard_caps))).*1.

(** The retries: the starts that filled their quota search again with a larger one. *)
Fixpoint retry_saturated (rounds : nat) (hop_limit : Z) (max_cycles : nat) (shard_cycles : list (list FoundCycle))
    (shard_caps : list nat) (merged : list FoundCycle) (st : Shared) : outcome (list FoundCycle * Shared) :=
  match rounds with
  | O => Done (merged, st)
  | S rounds =>
      if (max_cycles <=? length merged)%nat then Done (merged, st)
      else
        let '(expired, st) := tick_shared st in
        if expired then Done (merged, st)
        else
          let saturated := saturated_shards shard_cycles shard_caps in
          if decide (saturated = []) then Done (merged, st)
          else
            let st := with_cap st (reset_to (sh_cap st) 0) in
            let extra := div_ceil (max_cycles - length merged) (length saturated) in
            let cap i := Nat.min (nth i shard_caps 0%nat + extra) max_cycles in
            obind (run_shards hop_limit ((λ i, (nth i (ag_start_tokens prep) 0, cap i)) <$> saturated) st) (λ '(rerun, st),
              let shard_caps' := fold_left (λ caps i, <[i := cap i]> caps) saturated shard_caps in
              let shard_cycles' := fold_left (λ shards '(i, cycles), <[i := cycles]> shards) (zip saturated rerun) shard_cycles in
              let merged' := merge_shard_cycles shard_cycles' in
              if (length merged' =? length merged)%nat then Done (merged', st)
              else retry_saturated rounds hop_limit max_cycles shard_cycles' shard_caps' merged' st)
  end.

Definition collect_cycles_dfs_parallel (hop_limit : Z) (max_cycles : nat) (st : Shared)
  : outcome (list FoundCycle * Shared) :=
  let start_tokens := ag_start_tokens prep in
  if (bool_decide (start_tokens = []) || (max_cycles =? 0)%nat)%bool then Done ([], st)
  else
    let '(expired, st) := tick_shared st in
    if expired then Done ([], st)
    else
      let per_shard := Nat.max (div_ceil max_cycles (length start_tokens)) 1 in
      let shard_caps := replicate (length start_tokens) per_shard in
      obind (run_shards hop_limit (zip start_tokens shard_caps) (with_cap st (cap_new max_cycles))) (λ '(shard_cycles, st),
        if decide (saturated_shards shard_cycles shard_caps = []) then
          Done (take max_cycles (merge_shard_cycles shard_cycles), st)
        else
          let '(expired, st) := tick_shared st in
          if expired then Done (take max_cycles (merge_shard_cycles shard_cycles), st)
          else
            obind (retry_saturated 2 hop_limit max_cycles shard_cycles shard_caps (merge_shard_cycles shard_cycles) st)
              (λ '(merged, st), Done (take max_cycles merged, st))).

(** ** The passes *)

Definition bound_collected (collect_bound : nat) (all : list FoundCycle) : list FoundCycle :=
  if (collect_bound <? length all)%nat then
    let all := dedupe_cycles_by_edges cycle_key all in
    if (collect_bound <? length all)%nat then take collect_bound (sort_by compare_cycle_score all) else all
  else all.

Fixpoint run_passes (collect_bound : nat) (passes : list CycleSearchPass) (all : list FoundCycle) (st : Shared)
  : outcome (list FoundCycle * Shared) :=
  match passes with
  | [] => Done (all, st)
  | pass :: passes =>
      let '(expired, st) := tick_shared st in
      if expired then Done (all, st)
      else
        obind (collect_cycles_dfs_parallel (csp_max_hops pass) (Nat.min (csp_max_cycles pass) MAX_CYCLES_PER_PASS) st)
          (λ '(shard, st), run_passes collect_bound passes (bound_collected collect_bound (all ++ shard)) st)
  end.

Definition find_cycles_multi_pass_with_prep_budget (passes : list CycleSearchPass) (enum_budget : Z)
    (scratch : DfsScratch) (local_ops : gmap nat Z) (k : nat) : outcome (list FoundCycle * Shared) :=
  let st k := {| sh_scratch := scratch; sh_budget := ({| sg_deadline := 0; sg_expired := true; sg_local_ops := local_ops |}, k);
                 sh_cap := cap_new 0 |} in
  if (bool_decide (passes = []) || bool_decide (ag_start_tokens prep = []))%bool then Done ([], st k)
  else
    let pass_cap := max_list (csp_max_cycles <$> passes) in
    let collect_bound := Nat.min (3 * pass_cap) (MAX_CYCLES_PER_PASS * Nat.max (length passes) 1) in
    run_passes collect_bound passes []
      {| sh_scratch := scratch; sh_budget := shared_guard_new now enum_budget local_ops k; sh_cap := cap_new 0 |}.
End search.

(** ** The hybrid split *)

Definition HUB_HEAVY_ENUM_TIME_BUDGET : Z := 500.

Definition hybrid_enum_budget (enum_budget : Z) (hub_heavy : bool) : Z :=
  if hub_heavy then Z.min enum_budget HUB_HEAVY_ENUM_TIME_BUDGET else enum_budget.

Definition split_hybrid_budget (total : nat) (hub_heavy : bool) : nat * nat :=
  if (total =? 0)%nat then (0, 0)%nat
  else if hub_heavy then (total, 0%nat)
  else let dfs := div_ceil total 2 in (dfs, total - dfs)%nat.

(** ** The preparation of a search ([find_cycles_for_mode_with_budget]) *)

Definition prepare_search (graph : RoutingGraph) (extra_start_tokens : list TokenIndex) (exclusive_starts : bool)
    (first_hop_pools : list PoolIndex) (uni_or_pin_only : bool) : ActiveGraph :=
  let prep := prefer_start_tokens (prepare_active_graph graph) extra_start_tokens exclusive_starts in
  if exclusive_starts then
    let prep := if uni_or_pin_only then retain_uni_or_pin_edges prep first_hop_pools else prep in
    prioritize_first_hop_pools (inject_unpriced_pin_directs prep graph first_hop_pools) first_hop_pools
  else prep.
