(* ===== verification/CycleDfsInv.v ===== *)
(** * What the depth-first search does

    The walk it extends is simple and priced at every step, its marks are undone on the way
    back, every cycle it keeps is closed, simple and within the limits, and its depth is
    bounded, so its fuel is enough. *)
From stdpp Require Import gmap sorting.
From Corelib Require Import SpecFloat.
From S2P Require Import Prelude Word Types Arena Routes Realign CycleRank SpotPrice Graph GraphEdges GraphInv Deadline.
From S2P Require Import BellmanFord BellmanFordInv ActiveGraph CycleDfs.

(** ** Walks *)

(** The product of the prices of a walk. *)
Inductive priced : list Z → Z → Prop :=
| priced_none : priced [] ONE
| priced_first r : priced [r] r
| priced_next rs p r : priced rs p → priced (rs ++ [r]) (mul_ratio_saturating p r).

Definition outs (hops : list (Edge * Z)) : list TokenIndex := (λ h : Edge * Z, token_out h.1) <$> hops.

Lemma chained_snoc l e : chained l → (∀ e', last l = Some e' → token_in e = token_out e') → chained (l ++ [e]).
Proof.
  intros Hc He i a b Ha Hb. pose proof (lookup_lt_Some _ _ _ Hb) as Hlt. rewrite length_app in Hlt. cbn in Hlt.
  destruct (decide (S i < length l)%nat) as [Hi|Hi].
  - rewrite lookup_app_l in Ha, Hb by lia. by eapply Hc.
  - rewrite lookup_app_l in Ha by lia. rewrite lookup_app_r in Hb by lia.
    replace (S i - length l)%nat with 0%nat in Hb by lia. injection Hb as <-. apply He.
    rewrite last_lookup. rewrite <- Ha. f_equal. lia.
Qed.

Definition hop_calls_sum (edges : list Edge) : nat := sum_list_with (λ e, estimate_hop_calls (protocol e)) edges.

Lemma hop_calls_sum_snoc l e : hop_calls_sum (l ++ [e]) = (hop_calls_sum l + estimate_hop_calls (protocol e))%nat.
Proof. unfold hop_calls_sum. rewrite sum_list_with_app. cbn. lia. Qed.

Lemma hop_calls_sum_bound l : (hop_calls_sum l ≤ 2 * length l)%nat.
Proof. induction l as [|e l IH]; cbn in *; [lia|]. unfold hop_calls_sum in *. cbn. destruct (protocol e); cbn; lia. Qed.

(** A route needs no more packed calls than its hops one by one. *)
Lemma route_calls_bound edges : ∀ calls prev,
  (route_calls_loop edges calls prev ≤ calls + hop_calls_sum edges)%nat.
Proof.
  unfold hop_calls_sum. induction edges as [|e edges IH]; intros calls prev; cbn; [lia|].
  case_bool_decide as Hp; etrans; [apply IH| |apply IH|]; [rewrite Hp; destruct prev; cbn; lia|lia].
Qed.

Lemma packed_calls_bound edges : edges ≠ [] → (estimate_packed_route_calls edges ≤ hop_calls_sum edges)%nat.
Proof.
  intros Hne. unfold estimate_packed_route_calls. destruct (balancer_direct_batch_eligible edges).
  - destruct edges as [|e edges]; [done|]. unfold hop_calls_sum. cbn. destruct (protocol e); cbn; lia.
  - apply (route_calls_bound edges 0 false).
Qed.

Section inv.
Context (ln_f64 : f64 → f64) (now : nat → Z) (tid : nat).
Context (graph : RoutingGraph) (arena : StateArena) (pool_metas : list (option PoolMeta)) (prep : ActiveGraph).

(** The edges of the view sit where they belong. *)
Definition prep_ok : Prop := ∀ node ge,
  ge ∈ default [] (ag_adjacency prep !! node) → edge_placed (rg_token_count graph) (hub_count graph) node ge.

(** The legs of the pools lead to tokens. *)
Definition legs_ok : Prop := ∀ i meta state leg token,
  pool_metas !! i = Some (Some meta) → routing_token_at_leg arena state meta leg = Some token → 0 ≤ token.

(** A hop the search may take, with its price. *)
Inductive hop_taken : Edge * Z → Prop :=
| hop_of_edge ge :
    ge ∈ default [] (ag_adjacency prep !! Z.to_nat (token_in (ge_edge ge))) → ge_phase ge = Direct →
    ge_ratio ge ≠ 0 → hop_taken (ge_edge ge, ge_ratio ge)
| hop_of_hub ge edge log_w ratio leg :
    ge ∈ default [] (ag_adjacency prep !! Z.to_nat (token_in (ge_edge ge))) → ge_phase ge = EnterPool →
    resolve_lazy_swap_edge ln_f64 arena (pending_of ge) (token_out edge) leg = Done (Some (edge, log_w, ratio)) →
    hop_taken (edge, ratio).

Definition pinned (edges : list Edge) : bool := existsb (λ e, edge_is_pin prep (pool_index e)) edges.

(** What a cycle of the search is. *)
Record dfs_found (hop_cap : Z) (c : FoundCycle) : Prop := {
  fo_simple : simple_cycle (fc_edges c);
  fo_chained : chained (fc_edges c);
  fo_start : token_in <$> head (fc_edges c) = Some (fc_start_token c);
  fo_hops : Z.of_nat (length (fc_edges c)) ≤ hop_cap;
  fo_count : fc_hop_count c = Z.of_nat (length (fc_edges c));
  fo_priced : ∃ hops, hops.*1 = fc_edges c ∧ Forall hop_taken hops ∧ priced hops.*2 (fc_cycle_ratio c);
  fo_budget : packed_calls_fit_executor (estimate_packed_route_calls (fc_edges c)) = true;
  fo_profit : pinned (fc_edges c) = false →
    ONE < fc_cycle_ratio c ∧ min_profitable_cycle_ratio (fc_hop_count c) ≤ fc_cycle_ratio c;
}.

Section start.
Context (start : TokenIndex) (hop_cap : Z) (max_cycles : nat).
Context (Hprep : prep_ok) (Hlegs : legs_ok) (Hstart : 0 ≤ start) (Hcap : 0 ≤ hop_cap ≤ 8).

Record dfs_inv (s : Dfs) : Prop := {
  di_cycles : Forall (λ c, dfs_found hop_cap c ∧ fc_start_token c = start) (df_cycles s);
  di_seen : df_seen s = list_to_set (fc_edges <$> df_cycles s);
  di_nodup : NoDup (fc_edges <$> df_cycles s);
  di_quota : (length (df_cycles s) ≤ max_cycles)%nat;
  di_cap : (cap_found (df_cap s) ≤ cap_max (df_cap s))%nat;
}.

(** The arrays read as before, and a claim was made for each new cycle. *)
Record same (s s' : Dfs) : Prop := {
  sm_path : ds_path (df_scratch s') = ds_path (df_scratch s);
  sm_tokens : ds_used_tokens (df_scratch s') = ds_used_tokens (df_scratch s);
  sm_pools i : nth i (ds_used_pools (df_scratch s')) false = nth i (ds_used_pools (df_scratch s)) false;
  sm_max : cap_max (df_cap s') = cap_max (df_cap s);
  sm_claims : (cap_found (df_cap s') + length (df_cycles s) = cap_found (df_cap s) + length (df_cycles s'))%nat;
}.

Lemma same_refl s : same s s.
Proof. done. Qed.

Lemma same_trans s1 s2 s3 : same s1 s2 → same s2 s3 → same s1 s3.
Proof. intros [A1 A2 A3 A4 A5] [B1 B2 B3 B4 B5]. split; [congruence..| |congruence|lia]. intros i. by rewrite B3. Qed.

Record walked (hops : list (Edge * Z)) (w : Walk) (s : Dfs) : Prop := {
  wd_path : ds_path (df_scratch s) = hops.*1;
  wd_hops : wk_hops w = Z.of_nat (length hops);
  wd_taken : Forall hop_taken hops;
  wd_priced : priced hops.*2 (wk_ratio w);
  wd_chained : chained hops.*1;
  wd_first e : head hops.*1 = Some e → token_in e = start;
  wd_pools : NoDup (pool_index <$> hops.*1);
  wd_marked e : e ∈ hops.*1 →
    0 ≤ pool_index e ∧ nth (Z.to_nat (pool_index e)) (ds_used_pools (df_scratch s)) false = true;
  wd_calls : wk_hop_calls w = Z.of_nat (hop_calls_sum hops.*1);
}.

Definition tokens_marked (tokens : list TokenIndex) (s : Dfs) : Prop :=
  NoDup tokens ∧ Forall (λ t, 0 ≤ t ∧ ds_used_tokens (df_scratch s) !! Z.to_nat t = Some true) tokens.

(** The token the walk has come to. *)
Definition here (hops : list (Edge * Z)) : TokenIndex := default start (last (outs hops)).

(** The search is called at a token. *)
Record token_call (node : Z) (w : Walk) (hops : list (Edge * Z)) (s : Dfs) : Prop := {
  tk_walked : walked hops w s;
  tk_some : hops ≠ [];
  tk_here : node = here hops;
  tk_node : 0 ≤ node;
  tk_marked : tokens_marked (start :: removelast (outs hops)) s;
  tk_hops : Z.of_nat (length hops) ≤ Z.max 1 hop_cap;
  tk_pin : wk_pin w = true → pinned hops.*1 = true;
}.

(** The search is called at a hub. *)
Record hub_call (pending : PendingHubSwap) (w : Walk) (hops : list (Edge * Z)) (s : Dfs) : Prop := {
  hb_walked : walked hops w s;
  hb_pending : ∃ ge, pending = pending_of ge ∧ ge ∈ default [] (ag_adjacency prep !! Z.to_nat (here hops)) ∧
    ge_phase ge = EnterPool;
  hb_marked : tokens_marked (start :: outs hops) s;
  hb_hops : Z.of_nat (length hops) < Z.max 1 hop_cap;
  hb_pin : wk_pin w = true → (pinned hops.*1 || edge_is_pin prep (ph_pool_index pending))%bool = true;
}.

Definition dfs_call (node : Z) (pending : option PendingHubSwap) (w : Walk) (hops : list (Edge * Z)) (s : Dfs) : Prop :=
  if is_virtual_node graph node then ∀ ph, pending = Some ph → hub_call ph w hops s
  else token_call node w hops s.

(** A call keeps the invariant and gives the arrays back. *)
Definition rec_ok (rec : Z → option PendingHubSwap → Walk → Dfs → outcome Dfs) : Prop :=
  ∀ node pending w hops s s',
    dfs_call node pending w hops s → dfs_inv s → rec node pending w s = Done s' → dfs_inv s' ∧ same s s'.

(** ** What a call reads of the state *)

Lemma walked_same hops w s s' : same s s' → walked hops w s → walked hops w s'.
Proof.
  intros [S1 S2 S3 _ _] [W1 W2 W3 W4 W5 W6 W7 W8 W9]. split; try done; [congruence|].
  intros e He. rewrite S3. by apply W8.
Qed.

Lemma tokens_marked_same tokens s s' : same s s' → tokens_marked tokens s → tokens_marked tokens s'.
Proof. intros [_ S2 _ _ _]. unfold tokens_marked. by rewrite S2. Qed.

Lemma dfs_stops_ok s : let r := dfs_stops now tid max_cycles s in
  same s r.2 ∧ (dfs_inv s → dfs_inv r.2) ∧
  (r.1 = false → (length (df_cycles r.2) < max_cycles)%nat ∧ (cap_found (df_cap r.2) < cap_max (df_cap r.2))%nat).
Proof.
  unfold dfs_stops. destruct (shared_tick now tid (df_budget s)) as [b budget]. cbn. split_and!.
  - done.
  - intros [? ? ? ? ?]. done.
  - intros H. apply orb_false_elim in H as [H Hf]. apply orb_false_elim in H as [_ Hl].
    by apply Nat.leb_gt in Hl, Hf.
Qed.

(** A loop of visits that each give the arrays back. *)
Lemma until_stop_ok {A} (visit : A → Dfs → outcome Dfs) l : ∀ s s',
  (∀ a s1 s2, a ∈ l → same s s1 → dfs_inv s1 → visit a s1 = Done s2 → dfs_inv s2 ∧ same s1 s2) →
  dfs_inv s → until_stop now tid max_cycles visit l s = Done s' → dfs_inv s' ∧ same s s'.
Proof.
  induction l as [|a l IH]; intros s s' Hv Hs; cbn [until_stop]; [by intros [= <-]|].
  pose proof (dfs_stops_ok s) as (Hsame & Hinv & _). destruct (dfs_stops _ _ _ s) as [stop s1]. cbn in Hsame, Hinv.
  specialize (Hinv Hs). destruct stop; [by intros [= <-]|].
  destruct (visit a s1) as [s2|] eqn:Ev; [|done]. cbn [obind]. intros Hr.
  destruct (Hv a s1 s2) as [H2 H12]; [by left|done..|].
  assert (same s s2) as Hs2 by (by eapply same_trans).
  destruct (IH s2 s') as [H3 H23]; [|done|done|]. { intros b t1 t2 Hb Ht. apply Hv; [by right|by eapply same_trans]. }
  split; [done|by eapply same_trans].
Qed.

(** ** Marks *)

Lemma nth_grow idx (l : list bool) i : nth i (grow idx false l) false = nth i l false.
Proof. unfold grow. destruct (Nat.leb_spec (length l) idx); [|done]. apply nth_resize. lia. Qed.

Lemma pool_mark_spec used pool fresh used' : pool_mark used pool = (fresh, used') →
  if fresh then nth (Z.to_nat pool) used false = false ∧
                ∀ i, nth i used' false = if decide (i = Z.to_nat pool) then true else nth i used false
  else ∀ i, nth i used' false = nth i used false.
Proof.
  unfold pool_mark. rewrite nth_grow. destruct (nth (Z.to_nat pool) used false) eqn:E; intros [= <- <-].
  - intros i. apply nth_grow.
  - split; [done|]. intros i. rewrite nth_insert, nth_grow. destruct (decide (i = Z.to_nat pool)) as [->|Hi].
    + rewrite decide_True; [done|]. split; [done|]. unfold grow. destruct (Nat.leb_spec (length used) (Z.to_nat pool)); [|done].
      rewrite length_resize. lia.
    + rewrite decide_False by (by intros [? ?]). done.
Qed.

(** A pool that is marked, and unmarked when the search is back. *)
Lemma same_unmark s used pool s1 : pool_mark (ds_used_pools (df_scratch s)) pool = (true, used) →
  same (set_used_pools s used) s1 →
  same s (set_used_pools s1 (pool_unmark (ds_used_pools (df_scratch s1)) pool)).
Proof.
  intros Hm [S1 S2 S3 S4 S5]. apply pool_mark_spec in Hm as [Hf Hu]. split; cbn in *; try done.
  intros i. unfold pool_unmark. rewrite nth_insert. specialize (S3 i). rewrite Hu in S3.
  destruct (decide (i = Z.to_nat pool)) as [->|Hi].
  - destruct (decide _) as [_|Hn]; [done|]. rewrite S3. exfalso. apply Hn. split; [done|].
    destruct (decide (Z.to_nat pool < length (ds_used_pools (df_scratch s1)))%nat) as [|Hge]; [done|].
    by rewrite nth_overflow in S3 by lia.
  - rewrite decide_False by (by intros [? ?]). done.
Qed.

Lemma same_refused s used pool : pool_mark (ds_used_pools (df_scratch s)) pool = (false, used) →
  same s (set_used_pools s used).
Proof. intros Hm. apply pool_mark_spec in Hm. done. Qed.

Lemma dfs_inv_scratch s scratch : dfs_inv s → dfs_inv (set_scratch s scratch).
Proof. by intros [? ? ? ? ?]. Qed.

Lemma walked_mark hops w s pool used : walked hops w s → pool_mark (ds_used_pools (df_scratch s)) pool = (true, used) →
  walked hops w (set_used_pools s used) ∧ nth (Z.to_nat pool) used false = true ∧
  (0 ≤ pool → pool ∉ pool_index <$> hops.*1).
Proof.
  intros [W1 W2 W3 W4 W5 W6 W7 W8 W9] Hm. apply pool_mark_spec in Hm as [Hf Hu]. split_and!.
  - split; try done. cbn. intros e He. rewrite Hu. destruct (decide _); [|by apply W8].
    by split; [apply W8|].
  - rewrite Hu. by rewrite decide_True.
  - intros Hp (e & -> & He)%list_elem_of_fmap. destruct (W8 e He) as [_ Ht]. congruence.
Qed.

Lemma here_marked hops s : tokens_marked (start :: outs hops) s → here hops ∈ start :: outs hops.
Proof.
  intros _. unfold here. destruct (last (outs hops)) as [t|] eqn:Hl; cbn; [|left].
  right. by apply last_Some_elem_of in Hl.
Qed.

Lemma here_last hops e : last hops.*1 = Some e → here hops = token_out e.
Proof.
  unfold here, outs. rewrite !fmap_last. destruct (last hops) as [[e' r]|]; cbn; [|done]. by intros [= ->].
Qed.

Lemma here_snoc hops : hops ≠ [] → outs hops = removelast (outs hops) ++ [here hops].
Proof.
  intros Hne. assert (outs hops ≠ []) as Hon by (unfold outs; by destruct hops).
  unfold here. destruct (exists_last Hon) as (l & a & ->). by rewrite removelast_last, last_snoc.
Qed.

(** ** One hop *)

Lemma extend_walked hops w s e r w' :
  walked hops w s → hop_taken (e, r) → token_in e = here hops → 0 ≤ pool_index e →
  pool_index e ∉ pool_index <$> hops.*1 → nth (Z.to_nat (pool_index e)) (ds_used_pools (df_scratch s)) false = true →
  (length hops < 9)%nat →
  wk_hops w' = wrap_u 32 (wk_hops w + 1) → priced (hops.*2 ++ [r]) (wk_ratio w') →
  wk_hop_calls w' = Z.min (wk_hop_calls w + hop_calls_of (protocol e)) 65535 →
  walked (hops ++ [(e, r)]) w' (set_path s (ds_path (df_scratch s) ++ [e])).
Proof.
  intros [W1 W2 W3 W4 W5 W6 W7 W8 W9] Ht Hin Hp Hnew Hm Hlen Hh Hpr Hc.
  split; rewrite ?fmap_app, ?fmap_cons, ?fmap_nil; cbn [fst snd].
  - cbn. by rewrite W1.
  - rewrite Hh, W2, length_app. cbn. unfold wrap_u. rewrite Z.mod_small; lia.
  - apply Forall_app. by split; [|apply Forall_singleton].
  - done.
  - apply chained_snoc; [done|]. intros e' He'. by rewrite Hin, (here_last _ _ He').
  - intros e0. destruct hops as [|h0 hops]; cbn; [|apply W6].
    intros [= <-]. rewrite Hin. done.
  - apply NoDup_app. split_and!; [done| |apply NoDup_singleton].
    intros x Hx ->%list_elem_of_singleton. done.
  - intros e0 He0. cbn. apply elem_of_app in He0 as [He0| ->%list_elem_of_singleton]; [by apply W8|done].
  - rewrite Hc, W9, hop_calls_sum_snoc. pose proof (hop_calls_sum_bound hops.*1) as Hb. rewrite length_fmap in Hb.
    assert (hop_calls_of (protocol e) = Z.of_nat (estimate_hop_calls (protocol e))) as -> by (by destruct (protocol e)).
    assert (estimate_hop_calls (protocol e) ≤ 2)%nat by (destruct (protocol e); cbn; lia). lia.
Qed.

Lemma pinned_snoc l e : pinned (l ++ [e]) = (pinned l || edge_is_pin prep (pool_index e))%bool.
Proof. unfold pinned. rewrite existsb_app. cbn. by rewrite orb_false_r. Qed.

(** A hop is taken and taken back. *)
Lemma along_ok rec hops s e r w' node s' :
  rec_ok rec → dfs_inv s →
  walked (hops ++ [(e, r)]) w' (set_path s (ds_path (df_scratch s) ++ [e])) →
  tokens_marked (start :: outs hops) s → Z.of_nat (length hops) < Z.max 1 hop_cap →
  (is_virtual_node graph node = false → node = token_out e ∧ 0 ≤ node) →
  (wk_pin w' = true → pinned (hops.*1 ++ [e]) = true) →
  along rec e node w' s = Done s' → dfs_inv s' ∧ same s s'.
Proof.
  intros Hrec Hi Hw Hm Hh Hn Hpin. unfold along. set (s1 := set_path s _) in *.
  destruct (rec node None w' s1) as [s2|] eqn:Er; [|done]. cbn. intros [= <-].
  destruct (Hrec node None w' (hops ++ [(e, r)]) s1 s2) as [H2 [S1 S2 S3 S4 S5]]; [|by apply dfs_inv_scratch|done|].
  - unfold dfs_call. destruct (is_virtual_node graph node); [done|]. destruct (Hn eq_refl) as [-> H0].
    assert (outs (hops ++ [(e, r)]) = outs hops ++ [token_out e]) as Ho by (unfold outs; by rewrite fmap_app).
    split; try done.
    + by destruct hops.
    + unfold here. by rewrite Ho, last_snoc.
    + rewrite Ho, removelast_last. exact Hm.
    + rewrite length_app. cbn. lia.
    + by rewrite fmap_app.
  - split; [by apply dfs_inv_scratch|]. split; cbn; try done.
    rewrite S1. apply removelast_last.
Qed.

(** ** Through a hub *)

Lemma resolve_lazy_edge pending token leg edge log_w ratio :
  resolve_lazy_swap_edge ln_f64 arena pending token leg = Done (Some (edge, log_w, ratio)) →
  pool_index edge = ph_pool_index pending ∧ token_in edge = ph_token_in pending ∧ token_out edge = token.
Proof.
  unfold resolve_lazy_swap_edge. destruct (pool_state _ _); [|done]. destruct (resolved_indices _ _ _ _ _) as [[i j]|]; [|done].
  destruct (negb _); [done|]. destruct (match ph_protocol pending with UniswapV2 => _ | _ => _ end); [|done].
  destruct (compute_edge_ratio _ _) as [x|]; [|done]. cbn. destruct (is_zero x); [done|]. by intros [= <- <- <-].
Qed.

(** The hub whose pool is marked. *)
Record hub_open (pending : PendingHubSwap) (pin : bool) (w : Walk) (hops : list (Edge * Z)) (s : Dfs) : Prop := {
  ho_call : hub_call pending w hops s;
  ho_pool : 0 ≤ ph_pool_index pending;
  ho_new : ph_pool_index pending ∉ pool_index <$> hops.*1;
  ho_mark : nth (Z.to_nat (ph_pool_index pending)) (ds_used_pools (df_scratch s)) false = true;
  ho_pin : pin = (wk_pin w || edge_is_pin prep (ph_pool_index pending))%bool;
}.

Lemma hub_call_same pending w hops s s' : same s s' → hub_call pending w hops s → hub_call pending w hops s'.
Proof. intros Hs [H1 H2 H3 H4 H5]. split; try done; [by eapply walked_same|by eapply tokens_marked_same]. Qed.

Lemma hub_open_same pending pin w hops s s' : same s s' → hub_open pending pin w hops s → hub_open pending pin w hops s'.
Proof.
  intros Hs [H1 H2 H3 H4 H5]. split; try done; [by eapply hub_call_same|]. by rewrite (sm_pools _ _ Hs).
Qed.

Lemma here_nonneg hops s : tokens_marked (start :: outs hops) s → 0 ≤ here hops.
Proof.
  intros H. pose proof (here_marked _ _ H) as Hin. destruct H as [_ Hf]. rewrite Forall_forall in Hf. by destruct (Hf _ Hin).
Qed.

Lemma visit_leg_ok rec pending meta state pin w hops out_leg i s s' :
  rec_ok rec → hub_open pending pin w hops s → pool_metas !! i = Some (Some meta) → dfs_inv s →
  visit_leg ln_f64 arena prep hop_cap rec pending meta state pin w out_leg s = Done s' →
  dfs_inv s' ∧ same s s'.
Proof.
  intros Hrec [[Hw (ge & Hpend & Hge & Hph) Hm Hh Hpn] Hp Hnew Hmark Hpin] Hmeta Hi. unfold visit_leg.
  destruct (routing_token_at_leg arena state meta (Z.to_nat out_leg)) as [token|] eqn:Et; [|by intros [= <-]].
  destruct (resolve_lazy_swap_edge ln_f64 arena pending token out_leg) as [[[[edge log_w] ratio]|]|] eqn:Er;
    cbn [obind]; [|by intros [= <-]|done].
  destruct (negb _); [by intros [= <-]|]. destruct (route_hop_budget_exceeded _); [by intros [= <-]|].
  pose proof (resolve_lazy_edge _ _ _ _ _ _ Er) as (E1 & E2 & E3).
  pose proof (Hprep _ _ Hge) as [_ Hpl]. rewrite Hph in Hpl. destruct Hpl as (_ & Hin & _).
  pose proof (here_nonneg _ _ Hm) as H0.
  assert (token_in edge = here hops) as Hie. { rewrite E2, Hpend. cbn. rewrite Hin. lia. }
  eapply along_ok; [done|done| |done|done| |].
  - apply (extend_walked _ w); [done| |done|by rewrite E1..| |done| |done].
    + apply (hop_of_hub ge _ log_w _ out_leg).
      * rewrite <- (Z2Nat.id (here hops)) in Hge by done. rewrite Hin, Nat2Z.id. by rewrite Nat2Z.id in Hge.
      * done.
      * rewrite <- Hpend, E3. exact Er.
    + lia.
    + cbn. apply priced_next, (wd_priced _ _ _ Hw).
  - intros _. split; [done|]. by eapply Hlegs.
  - cbn. rewrite pinned_snoc, E1, Hpin. intros H. apply orb_true_iff in H as [H|H]; [by apply Hpn|]. by rewrite H, orb_true_r.
Qed.

Lemma exit_loop_ok rec pending meta state pin w hops i legs : ∀ s s',
  rec_ok rec → hub_open pending pin w hops s → pool_metas !! i = Some (Some meta) → dfs_inv s →
  exit_loop ln_f64 now tid arena prep hop_cap max_cycles rec pending meta state pin w legs s = Done s' →
  dfs_inv s' ∧ same s s'.
Proof.
  induction legs as [|leg legs IH]; intros s s' Hrec Ho Hm Hi; cbn [exit_loop]; [by intros [= <-]|].
  destruct (leg =? _); [by apply IH|].
  pose proof (dfs_stops_ok s) as (Hsame & Hinv & _). destruct (dfs_stops _ _ _ s) as [stop s1]. cbn in Hsame, Hinv.
  specialize (Hinv Hi). destruct stop; [by intros [= <-]|].
  destruct (visit_leg _ _ _ _ _ _ _ _ _ _ _ s1) as [s2|] eqn:Ev; [|done]. cbn [obind]. intros Hr.
  pose proof (hub_open_same _ _ _ _ _ _ Hsame Ho) as Ho1.
  destruct (visit_leg_ok _ _ _ _ _ _ _ _ _ _ _ Hrec Ho1 Hm Hinv Ev) as [H2 H12].
  destruct (IH s2 s' Hrec) as [H3 H23]; [by eapply hub_open_same|done..|].
  split; [done|]. by eapply same_trans; [|eapply same_trans].
Qed.

Lemma visit_hub_ok rec node pending w hops s s' :
  rec_ok rec → hub_call pending w hops s → dfs_inv s →
  visit_hub ln_f64 now tid graph arena pool_metas prep hop_cap max_cycles rec node pending w s = Done s' →
  dfs_inv s' ∧ same s s'.
Proof.
  intros Hrec Hc Hi. unfold visit_hub.
  destruct (pool_mark _ _) as [fresh used] eqn:Em. destruct fresh; cbn [negb].
  2:{ intros [= <-]. split; [by apply dfs_inv_scratch|by eapply same_refused]. }
  pose proof (hb_pending _ _ _ _ Hc) as (ge & Hpend & Hge & Hph).
  assert (0 ≤ ph_pool_index pending) as Hp by (rewrite Hpend; cbn; apply (Hprep _ _ Hge)).
  destruct (walked_mark _ _ _ _ _ (hb_walked _ _ _ _ Hc) Em) as (Hw & Hmk & Hnew).
  assert (dfs_inv (set_used_pools s used)) as Hi1 by by apply dfs_inv_scratch.
  assert (dfs_inv (set_used_pools (set_used_pools s used) (pool_unmark used (ph_pool_index pending))) ∧
          same s (set_used_pools (set_used_pools s used) (pool_unmark used (ph_pool_index pending)))) as Hback.
  { split; [by apply dfs_inv_scratch|]. apply (same_unmark s used (ph_pool_index pending) (set_used_pools s used) Em). done. }
  destruct (pool_metas !! Z.to_nat (ph_pool_index pending)) as [[meta|]|] eqn:Emeta; [|by intros [= <-]..].
  destruct (pool_state _ _) as [state|]; [|by intros [= <-]].
  destruct (exit_loop _ _ _ _ _ _ _ _ _ _ _ _ _ _ _) as [s1|] eqn:Ee; [|done]. cbn [obind]. intros [= <-].
  assert (hub_open pending (wk_pin w || edge_is_pin prep (ph_pool_index pending))%bool w hops (set_used_pools s used)) as Ho.
  { split; [|done|by apply Hnew|done|done]. destruct Hc as [C1 C2 C3 C4 C5]. split; done. }
  destruct (exit_loop_ok _ _ _ _ _ _ _ _ _ _ _ Hrec Ho Emeta Hi1 Ee) as [H1 H01].
  split; [by apply dfs_inv_scratch|by eapply same_unmark].
Qed.

(** ** Along an edge *)

Lemma visit_edge_ok rec w hops ge s s' :
  rec_ok rec → walked hops w s → tokens_marked (start :: outs hops) s → hops ≠ [] →
  Z.of_nat (length hops) < Z.max 1 hop_cap → (wk_pin w = true → pinned hops.*1 = true) →
  ge ∈ default [] (ag_adjacency prep !! Z.to_nat (here hops)) → dfs_inv s →
  visit_edge prep hop_cap rec w ge s = Done s' → dfs_inv s' ∧ same s s'.
Proof.
  intros Hrec Hw Hm Hne Hh Hpin Hge Hi. unfold visit_edge. pose proof (Hprep _ _ Hge) as [Hp0 Hpl].
  pose proof (here_nonneg _ _ Hm) as H0. destruct (ge_phase ge) eqn:Hph.
  - destruct (is_zero (ge_ratio ge)) eqn:Hz; [by intros [= <-]|]. destruct Hpl as (_ & Hin & Hout & _ & Htg).
    destruct (pool_mark _ _) as [fresh used] eqn:Em. destruct fresh; cbn [negb].
    2:{ intros [= <-]. split; [by apply dfs_inv_scratch|by eapply same_refused]. }
    destruct (walked_mark _ _ _ _ _ Hw Em) as (Hw1 & Hmk & Hnew).
    assert (dfs_inv (set_used_pools (set_used_pools s used) (pool_unmark used (pool_index (ge_edge ge)))) ∧
            same s (set_used_pools (set_used_pools s used) (pool_unmark used (pool_index (ge_edge ge))))) as Hback.
    { split; [by do 2 apply dfs_inv_scratch|]. apply (same_unmark s used _ (set_used_pools s used) Em). done. }
    destruct (negb _); [by intros [= <-]|]. destruct (route_hop_budget_exceeded _); [by intros [= <-]|].
    destruct (along _ _ _ _ _) as [s1|] eqn:Ea; [|done]. cbn [obind]. intros [= <-].
    assert (dfs_inv s1 ∧ same (set_used_pools s used) s1) as [H1 H01].
    { eapply (along_ok rec hops _ (ge_edge ge) (ge_ratio ge)); [done|by apply dfs_inv_scratch| |exact Hm|done| | |exact Ea].
      - apply (extend_walked _ w); [done| |lia|done|by apply Hnew|done|lia|done| |done].
        + apply hop_of_edge; [|done|by apply Z.eqb_neq]. rewrite Hin, Nat2Z.id. done.
        + cbn. apply priced_next, (wd_priced _ _ _ Hw).
      - intros _. lia.
      - cbn. rewrite pinned_snoc. intros H. apply orb_true_iff in H as [H|H]; [by rewrite Hpin|by rewrite H, orb_true_r]. }
    split; [by apply dfs_inv_scratch|by eapply same_unmark].
  - destruct Hpl as (_ & Hin & Ht). intros Hr. eapply Hrec; [|done|exact Hr]. unfold dfs_call.
    destruct (is_virtual_node graph (ge_target_node ge)) eqn:Ev; [|unfold is_virtual_node in Ev; lia].
    intros ph [= <-]. destruct Hw as [W1 W2 W3 W4 W5 W6 W7 W8 W9]. split; [by split|by exists ge|done|done|].
    cbn. intros H. apply orb_true_iff in H as [H|H]; [by rewrite Hpin|by rewrite H, orb_true_r].
  - by intros [= <-].
Qed.

(** ** The walk closes *)

Lemma closed_walk w hops s : token_call start w hops s → (2 ≤ length hops)%nat → simple_cycle hops.*1.
Proof.
  intros [[W1 W2 W3 W4 W5 W6 W7 W8 W9] Hne Hn _ [Hm _] _ _] Hl.
  assert (outs hops = token_out <$> hops.*1) as Ho by (unfold outs; by rewrite <- list_fmap_compose).
  assert (outs hops = removelast (outs hops) ++ [start]) as Hs by (rewrite (here_snoc hops Hne) at 1; by rewrite <- Hn).
  split.
  - by rewrite length_fmap.
  - rewrite <- fmap_last, <- Ho, Hs, last_snoc. destruct hops as [|h hops]; [done|]. cbn. f_equal. symmetry. by apply W6.
  - done.
  - rewrite <- Ho, Hs. rewrite Permutation_app_comm. exact Hm.
Qed.

Lemma pin_touch_pinned w (hops : list (Edge * Z)) : (wk_pin w = true → pinned hops.*1 = true) → pinned hops.*1 = false →
  (wk_pin w || match ag_first_hop_pools prep with
               | Some pins => existsb (λ e, bool_decide (pool_index e ∈ pins)) hops.*1
               | None => false end)%bool = false.
Proof.
  intros Hp Hn. destruct (wk_pin w); [by rewrite Hp in Hn|]. cbn. unfold pinned, edge_is_pin in Hn.
  by destruct (ag_first_hop_pools prep).
Qed.

Lemma close_cycle_ok w hops s : token_call start w hops s → 2 ≤ wk_hops w → dfs_inv s →
  (length (df_cycles s) < max_cycles)%nat → (cap_found (df_cap s) < cap_max (df_cap s))%nat →
  dfs_inv (close_cycle prep start w s) ∧ same s (close_cycle prep start w s).
Proof.
  intros Hc Hh Hi Hq Hf. pose proof (tk_walked _ _ _ _ Hc) as Hw. pose proof Hw as [W1 W2 W3 W4 W5 W6 W7 W8 W9].
  unfold close_cycle. cbv zeta. rewrite W1.
  destruct (route_hop_budget_exceeded _) eqn:Eb; [by split|].
  set (pin := (wk_pin w || _)%bool).
  destruct (negb pin && (_ || _))%bool eqn:Ep; [by split|].
  destruct (negb pin && SFltb _ _)%bool; [by split|].
  case_bool_decide as Hseen; [by split|]. destruct (_ && _ && _)%bool; [by split|].
  unfold try_claim. rewrite (proj2 (Nat.leb_gt _ _) Hf). cbn [negb].
  assert (length hops = Z.to_nat (wk_hops w)) as Hlen by lia.
  split.
  - destruct Hi as [I1 I2 I3 I4 I5]. split; cbn.
    + apply Forall_app. split; [done|]. apply Forall_singleton. split; [|done]. split; cbn.
      * eapply closed_walk; [done|lia].
      * done.
      * destruct hops as [|h hops]; [cbn in *; lia|]. cbn. f_equal. by apply W6.
      * pose proof (tk_hops _ _ _ _ Hc). rewrite length_fmap. lia.
      * by rewrite length_fmap.
      * by exists hops.
      * unfold route_hop_budget_exceeded in Eb. apply negb_false_iff in Eb. unfold packed_calls_fit_executor in *.
        apply Nat.leb_le. apply Nat.leb_le in Eb. etrans; [apply packed_calls_bound|].
        -- destruct hops; [cbn in *; lia|done].
        -- rewrite W9, Nat2Z.id in Eb. exact Eb.
      * intros Hn. pose proof (pin_touch_pinned w hops (tk_pin _ _ _ _ Hc) Hn) as Hpf. fold pin in Hpf. rewrite Hpf in Ep.
        cbn [negb andb] in Ep. apply orb_false_elim in Ep as [E1 E2]. lia.
    + rewrite fmap_app, list_to_set_app_L, <- I2. cbn. set_solver.
    + rewrite fmap_app. apply NoDup_app. split_and!; [done| |apply NoDup_singleton].
      intros x Hx ->%list_elem_of_singleton. cbn in Hx. apply Hseen. rewrite I2. by apply elem_of_list_to_set.
    + rewrite length_app. cbn. lia.
    + lia.
  - split; cbn; try done. rewrite length_app. cbn. lia.
Qed.

(** ** The search *)

Lemma dfs_ok fuel : rec_ok (dfs ln_f64 now tid graph arena pool_metas prep start hop_cap max_cycles fuel).
Proof.
  induction fuel as [|fuel IH]; intros node pending w hops s s' Hcall Hi; cbn [dfs]; [by intros [= <-]|].
  pose proof (dfs_stops_ok s) as (Hsame & Hinv & Hroom). destruct (dfs_stops _ _ _ s) as [stop s1]. cbn in Hsame, Hinv, Hroom.
  specialize (Hinv Hi). destruct stop; [by intros [= <-]|]. specialize (Hroom eq_refl) as [Hq Hf].
  unfold dfs_call in Hcall. destruct (is_virtual_node graph node) eqn:Ev.
  - destruct pending as [ph|]; [|by intros [= <-]]. intros Hr.
    destruct (visit_hub_ok _ _ _ _ _ _ _ IH (hub_call_same _ _ _ _ _ Hsame (Hcall ph eq_refl)) Hinv Hr) as [H1 H2].
    split; [done|by eapply same_trans].
  - destruct Hcall as [T1 T2 T3 T4 T5 T6 T7]. apply (walked_same _ _ _ _ Hsame) in T1. apply (tokens_marked_same _ _ _ Hsame) in T5.
    destruct (ds_used_tokens (df_scratch s1) !! Z.to_nat node) as [used|] eqn:Eu; [|by intros [= <-]].
    destruct ((2 <=? wk_hops w) && (node =? start))%bool eqn:Ec.
    { intros [= <-]. apply andb_prop in Ec as [E1%Z.leb_le E2%Z.eqb_eq]. rewrite E2 in *.
      destruct (close_cycle_ok w hops s1) as [H1 H2]; try done. split; [done|by eapply same_trans]. }
    destruct (used || _)%bool eqn:Eh; [by intros [= <-]|]. apply orb_false_elim in Eh as [-> Eh].
    destruct (negb _); [by intros [= <-]|].
    destruct (ag_adjacency prep !! Z.to_nat node) as [[|e0 es]|] eqn:Ea; [by intros [= <-]| |by intros [= <-]].
    set (next := e0 :: es) in *. set (s2 := set_used_token s1 (Z.to_nat node) true).
    destruct (until_stop _ _ _ _ next s2) as [s3|] eqn:El; [|done]. cbn [obind]. intros [= <-].
    assert (outs hops = removelast (outs hops) ++ [node]) as Ho by (rewrite T3; by apply here_snoc).
    assert (Z.to_nat node < length (ds_used_tokens (df_scratch s1)))%nat as Hlt by (by eapply lookup_lt_Some).
    assert (walked hops w s2) as Hw2 by (destruct T1; by split).
    assert (tokens_marked (start :: outs hops) s2) as Hm2.
    { destruct T5 as [Hnd Hall]. rewrite Forall_forall in Hall. rewrite Ho, app_comm_cons. split.
      - apply NoDup_app. split_and!; [done| |apply NoDup_singleton]. intros t Ht ->%list_elem_of_singleton.
        destruct (Hall node Ht) as [_ Ht']. by rewrite Eu in Ht'.
      - apply Forall_app. split; [|apply Forall_singleton; split; [done|]; cbn; by rewrite list_lookup_insert_eq].
        apply Forall_forall. intros t Ht. destruct (Hall t Ht) as [Ht0 Ht']. split; [done|]. cbn.
        destruct (decide (Z.to_nat t = Z.to_nat node)) as [->|]; [by rewrite list_lookup_insert_eq|by rewrite list_lookup_insert_ne]. }
    assert (dfs_inv s2) as Hi2 by by apply dfs_inv_scratch.
    apply (until_stop_ok _ next s2 s3) in El as [H3 [S1 S2 S3 S4 S5]]; [| |done].
    + split; [by apply dfs_inv_scratch|]. eapply same_trans; [exact Hsame|]. split; cbn; try done.
      rewrite S2. cbn. rewrite list_insert_insert_eq. by apply list_insert_id.
    + intros ge t1 t2 Hge Ht Ht1 Hv. pose proof (wd_hops _ _ _ Hw2) as Hwh.
      eapply (visit_edge_ok _ w hops ge t1 t2 IH); [by eapply walked_same|by eapply tokens_marked_same|done|lia|done| |done|done].
      rewrite <- T3, Ea. exact Hge.
Qed.

(** ** The first hop *)

Definition walk0 (pin : bool) : Walk :=
  {| wk_hop_calls := 0; wk_hops := 0; wk_log_w := f_zero; wk_ratio := ONE; wk_cum_fee := 0; wk_pin := pin |}.

Lemma walked_nil pin s : ds_path (df_scratch s) = [] → walked [] (walk0 pin) s.
Proof.
  intros Hp. split; cbn; try done; [apply priced_none|apply NoDup_nil_2|].
  by intros e ?%elem_of_nil.
Qed.

Lemma visit_first_ok pin_open ge s s' :
  ds_path (df_scratch s) = [] → tokens_marked [start] s →
  ge ∈ default [] (ag_adjacency prep !! Z.to_nat start) → dfs_inv s →
  visit_first ln_f64 now tid graph arena pool_metas prep start hop_cap max_cycles pin_open ge s = Done s' →
  dfs_inv s' ∧ same s s'.
Proof.
  intros Hp Hm Hge Hi. unfold visit_first. pose proof (Hprep _ _ Hge) as [Hp0 Hpl].
  pose proof (dfs_ok (dfs_fuel hop_cap)) as Hrec. destruct (pin_open && _)%bool; [by intros [= <-]|].
  destruct (ge_phase ge) eqn:Hph; [| |by intros [= <-]].
  - destruct (is_zero (ge_ratio ge)) eqn:Hz; [by intros [= <-]|]. destruct Hpl as (_ & Hin & Hout & _ & Htg).
    destruct (negb _); [by intros [= <-]|]. destruct (route_hop_budget_exceeded _); [by intros [= <-]|].
    destruct (pool_mark _ _) as [fresh used] eqn:Em. destruct fresh; cbn [negb].
    2:{ intros [= <-]. split; [by apply dfs_inv_scratch|by eapply same_refused]. }
    destruct (walked_mark _ _ _ _ _ (walked_nil false s Hp) Em) as (Hw1 & Hmk & Hnew).
    destruct (along _ _ _ _ _) as [s1|] eqn:Ea; [|done]. cbn [obind]. intros [= <-].
    assert (dfs_inv s1 ∧ same (set_used_pools s used) s1) as [H1 H01].
    { eapply (along_ok _ [] _ (ge_edge ge) (ge_ratio ge)); [done|by apply dfs_inv_scratch| |exact Hm|cbn; lia| | |exact Ea].
      - apply (extend_walked [] (walk0 false)); [done| |cbn; lia|done|by apply Hnew|done|cbn; lia|done|apply priced_first|].
        + apply hop_of_edge; [|done|by apply Z.eqb_neq]. rewrite Hin, Nat2Z.id. done.
        + cbn. by destruct (protocol (ge_edge ge)).
      - intros _. lia.
      - cbn. unfold pinned. cbn. by rewrite orb_false_r. }
    split; [by apply dfs_inv_scratch|by eapply same_unmark].
  - destruct Hpl as (_ & Hin & Ht). intros Hr. eapply (Hrec _ _ _ []); [|done|exact Hr]. unfold dfs_call.
    destruct (is_virtual_node graph (ge_target_node ge)) eqn:Ev; [|unfold is_virtual_node in Ev; lia].
    intros ph [= <-]. split; [by apply walked_nil|by exists ge|done|cbn; lia|done].
Qed.

(** ** One start token *)

(** Nothing is marked. *)
Definition marks_clear (scratch : DfsScratch) : Prop :=
  (∀ i, nth i (ds_used_pools scratch) false = false) ∧ (∀ i, nth i (ds_used_tokens scratch) false = false).

Lemma prepare_scratch_clear scratch n m : marks_clear scratch →
  marks_clear (prepare_scratch scratch n m) ∧ ds_path (prepare_scratch scratch n m) = [].
Proof.
  intros [H1 H2]. split; [|done]. unfold prepare_scratch. cbv zeta. split; intros i; cbn [ds_used_pools ds_used_tokens].
  - destruct (Nat.ltb_spec (length (ds_used_pools scratch)) n) as [Hl|Hl].
    + by rewrite nth_resize by lia.
    + rewrite nth_fill by lia. destruct (decide _); [done|apply H1].
  - destruct (Nat.ltb_spec (length (ds_used_tokens scratch)) m) as [Hl|Hl].
    + by rewrite nth_resize by lia.
    + rewrite nth_fill by lia. destruct (decide _); [done|apply H2].
Qed.

(** The result of one shard. *)
Record shard_ok (cap : SharedCycleCap) (s : Dfs) : Prop := {
  sd_inv : dfs_inv s;
  sd_clear : marks_clear (df_scratch s);
  sd_max : cap_max (df_cap s) = cap_max cap;
  sd_claims : cap_found (df_cap s) = (cap_found cap + length (df_cycles s))%nat;
}.
End start.

Lemma single_start_ok start hop_limit max_cycles scratch budget cap s' :
  prep_ok → legs_ok → 0 ≤ start → 0 ≤ hop_limit → marks_clear scratch → (cap_found cap ≤ cap_max cap)%nat →
  collect_cycles_dfs_single_start ln_f64 now tid graph arena pool_metas prep start hop_limit max_cycles scratch budget cap = Done s' →
  shard_ok start (Z.min hop_limit HOP_CAP) max_cycles cap s'.
Proof.
  intros Hprep Hlegs Hstart Hlim Hclear Hcap. unfold collect_cycles_dfs_single_start.
  set (slots := Nat.max _ 1). set (s := {| df_scratch := _ |}).
  destruct (prepare_scratch_clear scratch slots (token_slots graph) Hclear) as [Hc Hp].
  assert (dfs_inv start (Z.min hop_limit HOP_CAP) max_cycles s) as Hi by (split; cbn; [constructor|done|constructor|lia|done]).
  assert (shard_ok start (Z.min hop_limit HOP_CAP) max_cycles cap s) as Hs by (split; cbn; [done|done|done|lia]).
  assert (0 ≤ Z.min hop_limit HOP_CAP ≤ 8) as Hb by (unfold HOP_CAP; lia).
  destruct (Nat.leb_spec (length (ds_used_tokens (df_scratch s))) (Z.to_nat start)) as [|Hlt]; [by intros [= <-]|].
  destruct (ag_adjacency prep !! Z.to_nat start) as [[|e0 es]|] eqn:Ea; [by intros [= <-]| |by intros [= <-]].
  set (first := e0 :: es) in *. set (s1 := set_used_token s (Z.to_nat start) true).
  destruct (until_stop _ _ _ _ first s1) as [s2|] eqn:El; [|done]. cbn [obind]. intros [= <-].
  assert (tokens_marked [start] s1) as Hm.
  { split; [apply NoDup_singleton|]. apply Forall_singleton. split; [done|]. cbn. by rewrite list_lookup_insert_eq. }
  eapply until_stop_ok in El as [H2 [S1 S2 S3 S4 S5]]; [| |by apply dfs_inv_scratch].
  - split; [by apply dfs_inv_scratch| |exact S4|cbn in *; lia]. split; cbn; [intros i; rewrite S3; apply Hc|].
    intros i. rewrite S2. cbn. rewrite list_insert_insert_eq, nth_insert. destruct (decide _); [done|apply Hc].
  - intros ge t1 t2 Hge Ht Ht1 Hv. eapply (visit_first_ok start _ max_cycles Hprep Hlegs Hstart Hb); [| | |done|done].
    + by rewrite (sm_path _ _ Ht).
    + by eapply tokens_marked_same.
    + rewrite Ea. exact Hge.
Qed.

(** ** The fuel is enough *)

Section fuel.
Context (start : TokenIndex) (hop_cap : Z) (max_cycles : nat) (Hprep : prep_ok) (Hcap : 0 ≤ hop_cap ≤ 8).

Abbreviation search n := (dfs ln_f64 now tid graph arena pool_metas prep start hop_cap max_cycles n).

Definition depth_left (w : Walk) : nat := (Nat.max (Z.to_nat hop_cap) 1 - Z.to_nat (wk_hops w))%nat.

(** The calls still to come below a call: two for each hop left, a hub and a token. *)
Definition needs (node : Z) (pending : option PendingHubSwap) (w : Walk) (n : nat) : Prop :=
  0 ≤ wk_hops w ≤ 8 ∧
  if is_virtual_node graph node then
    match pending with None => (1 ≤ n)%nat | Some _ => (0 < depth_left w)%nat ∧ (2 * depth_left w ≤ n)%nat end
  else (2 * depth_left w + 1 ≤ n)%nat.

Definition agrees (rec rec' : Z → option PendingHubSwap → Walk → Dfs → outcome Dfs) (n : nat) : Prop :=
  ∀ node pending w s, needs node pending w n → rec node pending w s = rec' node pending w s.

Lemma obind_ext {A B} (m : outcome A) (k k' : A → outcome B) : (∀ a, k a = k' a) → obind m k = obind m k'.
Proof. intros H. destruct m; cbn; [apply H|done]. Qed.

Lemma until_stop_ext {A} (visit visit' : A → Dfs → outcome Dfs) l : ∀ s,
  (∀ a s, a ∈ l → visit a s = visit' a s) →
  until_stop now tid max_cycles visit l s = until_stop now tid max_cycles visit' l s.
Proof.
  induction l as [|a l IH]; intros s H; cbn [until_stop]; [done|]. destruct (dfs_stops _ _ _ s) as [stop s1].
  destruct stop; [done|]. rewrite H by left. apply obind_ext. intros s2. apply IH. intros b t Hb. apply H. by right.
Qed.

Lemma along_ext rec rec' n edge node w s : agrees rec rec' n → needs node None w n →
  along rec edge node w s = along rec' edge node w s.
Proof. intros H Hn. unfold along. by rewrite H. Qed.

(** One hop more leaves one hop less. *)
Lemma needs_next n node w edge log_w ratio pin : 0 ≤ wk_hops w < 8 → (0 < depth_left w)%nat →
  (2 * depth_left w - 1 ≤ n)%nat → needs node None (extend w edge log_w ratio pin) n.
Proof.
  intros Hh Hd Hn. unfold needs, depth_left in *. cbn [wk_hops extend].
  assert (wrap_u 32 (wk_hops w + 1) = wk_hops w + 1) as -> by (unfold wrap_u; rewrite Z.mod_small; lia).
  split; [lia|]. rewrite Z2Nat.inj_add by lia. destruct (is_virtual_node graph node); lia.
Qed.

Lemma exit_loop_ext rec rec' n pending meta state pin w legs : ∀ s,
  agrees rec rec' n → 0 ≤ wk_hops w < 8 → (0 < depth_left w)%nat → (2 * depth_left w - 1 ≤ n)%nat →
  exit_loop ln_f64 now tid arena prep hop_cap max_cycles rec pending meta state pin w legs s =
  exit_loop ln_f64 now tid arena prep hop_cap max_cycles rec' pending meta state pin w legs s.
Proof.
  induction legs as [|leg legs IH]; intros s H Hh Hd Hn; cbn [exit_loop]; [done|].
  destruct (leg =? _); [by apply IH|]. destruct (dfs_stops _ _ _ s) as [stop s1]. destruct stop; [done|].
  assert (∀ s, visit_leg ln_f64 arena prep hop_cap rec pending meta state pin w leg s =
    visit_leg ln_f64 arena prep hop_cap rec' pending meta state pin w leg s) as ->.
  { intros t. unfold visit_leg. destruct (routing_token_at_leg _ _ _ _); [|done]. apply obind_ext. intros [[[edge lw] r]|]; [|done].
    destruct (negb _); [done|]. destruct (route_hop_budget_exceeded _); [done|]. apply (along_ext _ _ n); [done|]. by apply needs_next. }
  apply obind_ext. intros s2. by apply IH.
Qed.

Lemma visit_edge_ext rec rec' n w ge s node : agrees rec rec' n → ge ∈ default [] (ag_adjacency prep !! node) →
  0 ≤ wk_hops w < 8 → (0 < depth_left w)%nat → (2 * depth_left w ≤ n)%nat →
  visit_edge prep hop_cap rec w ge s = visit_edge prep hop_cap rec' w ge s.
Proof.
  intros H Hge Hh Hd Hn. unfold visit_edge. pose proof (Hprep _ _ Hge) as [_ Hpl]. destruct (ge_phase ge); [| |done].
  - destruct (is_zero _); [done|]. destruct (pool_mark _ _) as [fresh used]. destruct (negb fresh); [done|].
    destruct (negb _); [done|]. destruct (route_hop_budget_exceeded _); [done|].
    f_equal. apply (along_ext _ _ n); [done|]. apply needs_next; [done..|lia].
  - apply H. unfold needs. cbn [wk_hops]. split; [lia|].
    destruct (is_virtual_node graph (ge_target_node ge)) eqn:Ev; [|unfold is_virtual_node in Ev; lia]. done.
Qed.

(** Fuel beyond the depth changes nothing. *)
Lemma dfs_fuel_extra n : ∀ m, (n ≤ m)%nat → agrees (search n) (search m) n.
Proof.
  induction n as [|n IH]; intros m Hm node pending w s [Hh Hneed].
  { destruct (is_virtual_node graph node); [destruct pending|]; unfold depth_left in *; lia. }
  destruct m as [|m]; [lia|]. specialize (IH m ltac:(lia)). cbn [dfs].
  destruct (dfs_stops _ _ _ s) as [stop s1]. destruct stop; [done|]. destruct (is_virtual_node graph node) eqn:Ev.
  - destruct pending as [ph|]; [|done]. destruct Hneed as [Hd Hn]. unfold visit_hub.
    destruct (pool_mark _ _) as [fresh used]. destruct (negb fresh); [done|].
    destruct (pool_metas !! _) as [[meta|]|]; [|done..]. destruct (pool_state _ _); [|done]. f_equal.
    apply (exit_loop_ext _ _ n); [done| |done|lia]. unfold depth_left in Hd. lia.
  - destruct (_ !! Z.to_nat node) as [used|]; [|done]. destruct (_ && _)%bool; [done|].
    destruct (used || _)%bool eqn:Eu; [done|]. apply orb_false_elim in Eu as [_ Eu]. destruct (negb _); [done|].
    destruct (ag_adjacency prep !! Z.to_nat node) as [[|e0 es]|] eqn:Ea; [done| |done]. f_equal. apply until_stop_ext.
    intros ge t Hge. apply (visit_edge_ext _ _ n _ _ _ (Z.to_nat node)); [done|by rewrite Ea|lia| |];
      unfold depth_left in *; lia.
Qed.

Lemma dfs_fuel_enough m node pending w s : (dfs_fuel hop_cap ≤ m)%nat → 0 ≤ wk_hops w ≤ 1 →
  (is_virtual_node graph node = false → wk_hops w = 1) → (pending ≠ None → wk_hops w = 0) →
  search m node pending w s = search (dfs_fuel hop_cap) node pending w s.
Proof.
  intros Hm Hh Ht Hp. symmetry. apply dfs_fuel_extra; [done|]. unfold needs, dfs_fuel, depth_left. split; [lia|].
  destruct (is_virtual_node graph node); [destruct pending; [rewrite Hp by done|]; lia|]. rewrite Ht by done. lia.
Qed.
End fuel.
End inv.
