(* ===== verification/CycleDfsClaims.v ===== *)
(** * The cycles of the depth-first search

    The edges the search walks are those of the graph, the shards and the passes keep what
    each search promises, and what that says of a search over a reachable graph; what the
    pruning loses. *)
From stdpp Require Import gmap sorting relations.
From Corelib Require Import SpecFloat.
From S2P Require Import Prelude Word Types Arena Routes Realign CycleRank SpotPrice Graph GraphEdges GraphOps GraphInv.
From S2P Require Import GraphSteps GraphClaims Deadline BellmanFord BellmanFordInv BellmanFordClaims ActiveGraph CycleDfs CycleDfsInv.

(** ** The edges of the view *)

(** An edge of the view is a live edge of the graph, or a direct edge of an observed pool
    that has no price yet, at par. *)
Definition edge_origin (g : RoutingGraph) (pins : gset PoolIndex) (node : nat) (ge : GraphEdge) : Prop :=
  ∃ i ge0, edge_at g (node, i) = Some ge0 ∧
    ((ge = ge0 ∧ is_live_graph_edge ge0 = true) ∨
     (pool_index (ge_edge ge0) ∈ pins ∧ ge_phase ge0 = Direct ∧ ge_ratio ge0 = 0 ∧ ge = with_price ge0 f_zero ONE)).

Definition from_graph (g : RoutingGraph) (pins : gset PoolIndex) (adjacency : list (list GraphEdge)) : Prop :=
  ∀ node ge, ge ∈ default [] (adjacency !! node) → edge_origin g pins node ge.

Lemma edge_origin_mono g pins pins' node ge : pins ⊆ pins' → edge_origin g pins node ge → edge_origin g pins' node ge.
Proof. intros Hs (i & ge0 & He & [H|(H1 & H2)]); exists i, ge0; (split; [done|]); [by left|right]. set_solver. Qed.

Lemma from_graph_prep_ok g pins prep : struct_ok g → from_graph g pins (ag_adjacency prep) → prep_ok g prep.
Proof.
  intros Hok Hf node ge Hge. destruct (Hf node ge Hge) as (i & ge0 & He & Ho).
  pose proof (go_placed _ Hok _ _ He) as Hp. destruct Ho as [[-> _]|(_ & _ & _ & ->)]; exact Hp.
Qed.

Lemma prep_edge_live b l : ∀ p bits,
  np_live (fold_left (prep_edge b) l (p, bits)).1 = np_live p ++ filter (λ ge, is_live_graph_edge ge = true) l.
Proof.
  induction l as [|ge l IH]; intros p bits; cbn [fold_left]; [by rewrite filter_nil, app_nil_r|].
  rewrite filter_cons. unfold prep_edge at 2. destruct (is_live_graph_edge ge) eqn:E; cbn [negb].
  - destruct (decide (true = true)) as [_|[]]; [|done]. destruct b; cbn [negb]; rewrite IH; cbn [np_live]; by rewrite <- app_assoc.
  - destruct (decide (false = true)); [done|]. apply IH.
Qed.

Lemma elem_of_adj_at g node ge : ge ∈ adj_at g node → ∃ i, edge_at g (node, i) = Some ge.
Proof.
  unfold adj_at. intros Hin.
  destruct (rg_adjacency g !! node) as [l|] eqn:El; [|by apply elem_of_nil in Hin].
  apply list_elem_of_lookup in Hin as [i Hi]. exists i. rewrite edge_at_place. unfold place. cbn. by rewrite El.
Qed.

Lemma prep_node_live index tc g coverage ge : ge ∈ np_live (prep_node index tc g coverage) →
  is_live_graph_edge ge = true ∧ ge ∈ adj_at g index.
Proof.
  unfold prep_node. destruct (_ && _)%bool; cbn [np_live]; [by intros ?%elem_of_nil|].
  rewrite elem_of_sort_by, prep_edge_live. cbn. by intros [? ?]%list_elem_of_filter.
Qed.

Lemma prepared_from_graph g pins : from_graph g pins (ag_adjacency (prepare_active_graph g)).
Proof.
  intros node ge Hge. unfold prepare_active_graph in Hge. cbn [ag_adjacency] in Hge.
  rewrite !list_lookup_fmap in Hge. destruct (seq 0 (length (rg_adjacency g)) !! node) as [i|] eqn:Ei; [|by apply elem_of_nil in Hge].
  apply lookup_seq in Ei as [-> _]. cbn in Hge. apply prep_node_live in Hge as [Hl Hin].
  apply elem_of_adj_at in Hin as [i Hi]. exists i, ge. split; [done|by left].
Qed.

(** ** The adjustments *)

Lemma from_graph_alter g pins f node adjacency : from_graph g pins adjacency →
  (∀ l ge, (∀ x, x ∈ l → edge_origin g pins node x) → ge ∈ f l → edge_origin g pins node ge) →
  from_graph g pins (alter f node adjacency).
Proof.
  intros Hf Hn n ge. rewrite list_lookup_alter. destruct (decide (node = n)) as [<-|]; [|by apply Hf].
  destruct (adjacency !! node) as [l|] eqn:El; cbn; [|by intros ?%elem_of_nil].
  apply Hn. intros x Hx. apply Hf. by rewrite El.
Qed.

Lemma retain_from_graph g pins prep pools : from_graph g pins (ag_adjacency prep) →
  from_graph g pins (ag_adjacency (retain_uni_or_pin_edges prep pools)).
Proof.
  intros Hf node ge. cbn. rewrite list_lookup_fmap. destruct (ag_adjacency prep !! node) as [l|] eqn:El; cbn; [|by intros ?%elem_of_nil].
  intros [_ Hin]%list_elem_of_filter. apply Hf. by rewrite El.
Qed.

Lemma prioritize_from_graph g pins prep pools : from_graph g pins (ag_adjacency prep) →
  from_graph g pins (ag_adjacency (prioritize_first_hop_pools prep pools)).
Proof.
  intros Hf. unfold prioritize_first_hop_pools. destruct (decide _); [done|]. cbn [ag_adjacency with_adjacency].
  apply fold_left_inv; [by destruct (decide _)|]. intros adjacency t _ Ha. apply from_graph_alter; [done|].
  intros l ge Hl Hge. apply elem_of_sort_by in Hge. by apply Hl.
Qed.

Lemma inject_edges_origin g pins node edges : ∀ mine,
  (∀ ge, ge ∈ mine → edge_origin g pins node ge) → (∀ ge, ge ∈ edges → ∃ i, edge_at g (node, i) = Some ge) →
  ∀ ge, ge ∈ fold_left (inject_edge pins) edges mine → edge_origin g pins node ge.
Proof.
  induction edges as [|e edges IH]; intros mine Hm He; cbn [fold_left]; [done|]. apply IH.
  - intros ge. unfold inject_edge. destruct (_ || _)%bool eqn:E1; [by apply Hm|]. destruct (existsb _ _); [by apply Hm|].
    apply orb_false_elim in E1 as [Hp Hpin]. apply negb_false_iff, bool_decide_eq_true in Hp, Hpin.
    intros [Hge|Hge]%elem_of_app; [by apply Hm|]. apply list_elem_of_singleton in Hge as ->.
    destruct (He e) as [i Hi]; [left|]. exists i, e. split; [done|]. destruct (is_zero (ge_ratio e)) eqn:Ez.
    + right. apply Z.eqb_eq in Ez. done.
    + left. split; [done|]. unfold is_live_graph_edge. rewrite Hp. by apply negb_true_iff.
  - intros ge Hge. apply He. by right.
Qed.

Lemma inject_from_graph g prep pools : from_graph g (list_to_set pools) (ag_adjacency prep) →
  from_graph g (list_to_set pools) (ag_adjacency (inject_unpriced_pin_directs prep g pools)).
Proof.
  intros Hf. unfold inject_unpriced_pin_directs. destruct (decide _); [done|]. cbn [ag_adjacency with_adjacency].
  apply fold_left_inv; [done|]. intros adjacency [ti edges] Hin Ha. apply from_graph_alter.
  - intros node ge. unfold grow. destruct (_ <=? _)%nat eqn:El; [|apply Ha].
    rewrite resize_default by (apply Nat.leb_le in El; lia). apply Ha.
  - intros l ge Hl. apply inject_edges_origin; [done|].
    apply list_elem_of_lookup in Hin as [k Hk]. rewrite lookup_zip_with in Hk.
    destruct (seq 0 _ !! k) as [i|] eqn:Ek; [|done]. apply lookup_seq in Ek as [-> _]. cbn in Hk.
    destruct (take _ _ !! k) as [l'|] eqn:El; [|done]. injection Hk as <- <-. apply lookup_take_Some in El as [El _].
    intros e He. apply elem_of_adj_at. unfold adj_at. by rewrite El.
Qed.

(** ** The start tokens *)

Abbreviation nonneg := (Forall (λ t : Z, 0 ≤ t)).

Lemma prepared_starts g : nonneg (ag_start_tokens (prepare_active_graph g)).
Proof.
  unfold prepare_active_graph. cbn [ag_start_tokens]. set (acc := fold_left _ _ _).
  assert (Forall (λ s : TokenIndex * nat * nat, 0 ≤ s.1.1) (ga_scored acc)) as H.
  { apply (fold_left_inv (λ acc, Forall (λ s : TokenIndex * nat * nat, 0 ≤ s.1.1) (ga_scored acc))); [constructor|].
    intros a [index node] _ Ha. unfold gather_node. destruct (negb _); [done|]. cbn [ga_scored].
    destruct (_ <? _)%nat; [|done]. apply Forall_app. split; [done|]. apply Forall_singleton. cbn. lia. }
  rewrite Forall_forall in H. apply Forall_forall. intros t Ht. unfold select_cycle_start_tokens in Ht.
  apply list_elem_of_fmap in Ht as (x & -> & Hx). apply list_elem_of_fmap in Hx as (y & -> & Hy).
  apply elem_of_take in Hy as (i & Hy & _). apply list_elem_of_lookup_2, elem_of_sort_by in Hy. by apply H.
Qed.

Lemma push_fresh_nonneg out t : nonneg out → 0 ≤ t → nonneg (push_fresh out t).
Proof. intros Ho Ht. unfold push_fresh. destruct (decide _); [done|]. apply Forall_app. by split; [|apply Forall_singleton]. Qed.

Lemma fill_hubs_nonneg limit tokens : ∀ out, nonneg out → nonneg tokens → nonneg (fill_hubs limit out tokens).
Proof.
  induction tokens as [|t tokens IH]; intros out Ho Ht; cbn [fill_hubs]; [done|]. apply Forall_cons in Ht as [Ht Hts].
  destruct (_ <=? _)%nat; [done|]. apply IH; [|done]. by apply push_fresh_nonneg.
Qed.

Lemma prefer_starts self extra exclusive : nonneg (ag_start_tokens self) → nonneg extra →
  nonneg (ag_start_tokens (prefer_start_tokens self extra exclusive)).
Proof.
  intros Hs He. unfold prefer_start_tokens. destruct (decide _); [done|]. cbn [ag_start_tokens with_starts].
  assert (nonneg (fold_left push_fresh (take (Nat.min (length extra) 16) extra) [])) as Ho.
  { apply fold_left_inv; [constructor|]. intros out t Ht Ho. apply push_fresh_nonneg; [done|].
    rewrite Forall_forall in He. apply He. apply elem_of_take in Ht as (i & Hi & _). by eapply list_elem_of_lookup_2. }
  destruct exclusive; [done|]. by apply fill_hubs_nonneg.
Qed.

(** What every search starts from. *)
Lemma prepare_search_ok g extra exclusive pools uni : nonneg extra →
  let prep := prepare_search g extra exclusive pools uni in
  from_graph g (list_to_set pools) (ag_adjacency prep) ∧ nonneg (ag_start_tokens prep).
Proof.
  intros He. unfold prepare_search. set (prep := prefer_start_tokens _ _ _).
  assert (from_graph g (list_to_set pools) (ag_adjacency prep)) as Hf.
  { unfold prep, prefer_start_tokens. destruct (decide _); apply prepared_from_graph. }
  assert (nonneg (ag_start_tokens prep)) as Hs by (apply prefer_starts; [apply prepared_starts|done]).
  destruct exclusive; [|done]. set (prep' := if uni then _ else _).
  assert (from_graph g (list_to_set pools) (ag_adjacency prep') ∧ ag_start_tokens prep' = ag_start_tokens prep) as [Hf' Hs'].
  { unfold prep'. destruct uni; [|done]. split; [by apply retain_from_graph|done]. }
  split; [by apply prioritize_from_graph, inject_from_graph|].
  unfold prioritize_first_hop_pools. set (inj := inject_unpriced_pin_directs _ _ _).
  assert (ag_start_tokens inj = ag_start_tokens prep) as Hi.
  { unfold inj, inject_unpriced_pin_directs. destruct (decide _); cbn; congruence. }
  destruct (decide (pools = [])); [by rewrite Hi|]. cbn [ag_start_tokens with_adjacency]. cbv zeta.
  destruct (decide _); cbn [ag_start_tokens with_starts with_pins]; rewrite ?Hi; [done|].
  rewrite Forall_forall in *. intros t [_ Ht]%list_elem_of_filter. by apply Hs.
Qed.

Lemma index_pool_metas_in metas i meta : index_pool_metas metas !! i = Some (Some meta) → meta ∈ metas.
Proof.
  unfold index_pool_metas. set (slots := fold_left _ metas 0%nat).
  enough (∀ l (index : list (option PoolMeta)), (∀ j m, index !! j = Some (Some m) → m ∈ metas) → l ⊆ metas →
    ∀ j m, fold_left (λ index meta, <[Z.to_nat (pm_pool_index meta) := Some meta]> index) l index !! j = Some (Some m) → m ∈ metas) as H.
  { apply H; [|done]. intros j m Hj. by apply lookup_replicate in Hj as [? _]. }
  induction l as [|x l IH]; intros index Hi Hl; cbn [fold_left]; [done|]. apply IH; [|set_solver].
  intros j m Hj. apply list_lookup_insert_Some in Hj as [(_ & [= ->] & _)|[_ Hj]]; [set_solver|by eapply Hi].
Qed.

(** The legs of pools that name their own tokens. *)
Lemma metas_legs_ok arena metas : Forall (names_tokens arena) metas → legs_ok arena (index_pool_metas metas).
Proof.
  intros Hm i meta state leg token Hi%index_pool_metas_in Ht. rewrite Forall_forall in Hm.
  destruct (Hm meta Hi) as (H1 & _ & H3). rewrite Forall_forall in H1.
  assert (∀ tokens, vault_leg arena tokens leg = Some token → 0 ≤ token) as Hv.
  { intros tokens. unfold vault_leg. destruct (tokens !! leg) as [a|]; [|done]. cbn. intros Ha.
    specialize (H3 a token Ha). cbn in H3. lia. }
  assert (pm_tokens meta !! leg = Some token → 0 ≤ token) as Hl.
  { intros Hx%list_elem_of_lookup_2. apply H1 in Hx. lia. }
  unfold routing_token_at_leg in Ht. destruct state as [| | | | |b| |w]; try by apply Hl.
  - destruct (is_empty _); [by apply Hl|by eapply Hv].
  - destruct (is_empty _); [by apply Hl|by eapply Hv].
Qed.

(** ** Shards and passes *)

Section passes.
Context (ln_f64 : f64 → f64) (now : nat → Z) (tid : nat).
Context (graph : RoutingGraph) (arena : StateArena) (pool_metas : list (option PoolMeta)) (prep : ActiveGraph).
Context (cycle_key : list Edge → Z).
Context (Hprep : prep_ok graph prep) (Hlegs : legs_ok arena pool_metas) (Hstarts : nonneg (ag_start_tokens prep)).

Abbreviation found hop_limit := (dfs_found ln_f64 arena prep (Z.min hop_limit HOP_CAP)).

Definition shared_ok (st : Shared) : Prop :=
  marks_clear (sh_scratch st) ∧ (cap_found (sh_cap st) ≤ cap_max (sh_cap st))%nat.

Lemma tick_shared_ok st : shared_ok st → shared_ok (tick_shared now tid st).2.
Proof. unfold tick_shared. by destruct (shared_tick now tid (sh_budget st)). Qed.

Lemma run_shards_ok hop_limit jobs : 0 ≤ hop_limit → ∀ st shards st',
  nonneg jobs.*1 → shared_ok st →
  run_shards ln_f64 now tid graph arena pool_metas prep hop_limit jobs st = Done (shards, st') →
  shared_ok st' ∧ Forall (Forall (found hop_limit)) shards.
Proof.
  intros Hl. induction jobs as [|[start cap] jobs IH]; intros st shards st' Hj Hs; cbn [run_shards]; [by intros [= <- <-]|].
  apply Forall_cons in Hj as [Hj Hjs].
  destruct (collect_cycles_dfs_single_start _ _ _ _ _ _ _ _ _ _ _ _ _) as [s|] eqn:Ec; [|done]. cbn [obind].
  destruct (run_shards _ _ _ _ _ _ _ _ _ _) as [[rest st2]|] eqn:Er; [|done]. cbn [obind]. intros [= <- <-].
  destruct Hs as [Hc Hf].
  destruct (single_start_ok ln_f64 now tid graph arena pool_metas prep _ _ _ _ _ _ _ Hprep Hlegs Hj Hl Hc Hf Ec) as [S1 S2 S3 S4].
  apply (IH _ _ _ Hjs) in Er as [H1 H2]; [|split; [done|apply (di_cap _ _ _ _ _ _ _ S1)]].
  split; [done|]. constructor; [|done]. eapply Forall_impl; [apply (di_cycles _ _ _ _ _ _ _ S1)|]. by intros c [? _].
Qed.

Lemma merge_ok hop_limit shards : Forall (Forall (found hop_limit)) shards →
  Forall (found hop_limit) (merge_shard_cycles cycle_key shards) ∧ NoDup (fc_edges <$> merge_shard_cycles cycle_key shards).
Proof.
  intros Hs. unfold merge_shard_cycles, dedupe_cycles_by_edges.
  destruct (dedupe_spec cycle_key (concat shards)) as (H1 & _ & H3 & _). split; [|done].
  apply Forall_forall. intros c Hc. apply H3 in Hc. apply list_elem_of_In, in_concat in Hc as (l & Hl & Hc).
  rewrite Forall_forall in Hs. specialize (Hs l). rewrite list_elem_of_In in Hs. specialize (Hs Hl).
  rewrite Forall_forall in Hs. apply Hs. by apply list_elem_of_In.
Qed.

Definition merged_ok (hop_limit : Z) (merged : list FoundCycle) : Prop :=
  Forall (found hop_limit) merged ∧ NoDup (fc_edges <$> merged).

Lemma retry_ok rounds hop_limit max_cycles : 0 ≤ hop_limit → ∀ shards caps merged st merged' st',
  Forall (Forall (found hop_limit)) shards → merged_ok hop_limit merged → shared_ok st →
  retry_saturated ln_f64 now tid graph arena pool_metas prep cycle_key rounds hop_limit max_cycles shards caps merged st
    = Done (merged', st') →
  merged_ok hop_limit merged' ∧ shared_ok st'.
Proof.
  intros Hl. induction rounds as [|rounds IH]; intros shards caps merged st merged' st' Hsh Hm Hs; cbn [retry_saturated]; [by intros [= <- <-]|].
  destruct (_ <=? _)%nat; [by intros [= <- <-]|]. pose proof (tick_shared_ok st Hs) as Ht.
  destruct (tick_shared now tid st) as [expired st1]. cbn in Ht. destruct expired; [by intros [= <- <-]|].
  destruct (decide _); [by intros [= <- <-]|]. set (saturated := saturated_shards shards caps).
  destruct (run_shards _ _ _ _ _ _ _ _ _ _) as [[rerun st2]|] eqn:Er; [|done]. cbn [obind].
  apply run_shards_ok in Er as [Hs2 Hr]; [|done| |].
  2:{ rewrite <- list_fmap_compose. apply Forall_fmap, Forall_forall. intros i _. cbn. rewrite nth_lookup.
      destruct (ag_start_tokens prep !! i) as [t|] eqn:Et; [|done]. rewrite Forall_forall in Hstarts.
      cbn. by eapply Hstarts, list_elem_of_lookup_2. }
  2:{ split; [apply Ht|cbn; lia]. }
  assert (Forall (Forall (found hop_limit))
    (fold_left (λ shards '(i, cycles), <[i := cycles]> shards) (zip saturated rerun) shards)) as Hsh'.
  { apply fold_left_inv; [done|]. intros a [i cycles] Hin Ha. apply Forall_insert; [done|].
    apply elem_of_zip_r in Hin. rewrite Forall_forall in Hr. by apply Hr. }
  pose proof (merge_ok _ _ Hsh') as Hm'. destruct (_ =? _)%nat; [by intros [= <- <-]|]. by apply IH.
Qed.

Lemma take_merged_ok n hop_limit merged : merged_ok hop_limit merged → merged_ok hop_limit (take n merged).
Proof. intros [H1 H2]. split; [by apply Forall_take|]. rewrite fmap_take. eapply sublist_NoDup; [exact H2|]. apply sublist_take. Qed.

Lemma collect_parallel_ok hop_limit max_cycles st cycles st' : 0 ≤ hop_limit → shared_ok st →
  collect_cycles_dfs_parallel ln_f64 now tid graph arena pool_metas prep cycle_key hop_limit max_cycles st = Done (cycles, st') →
  merged_ok hop_limit cycles ∧ (length cycles ≤ max_cycles)%nat ∧ shared_ok st'.
Proof.
  intros Hl Hs. unfold collect_cycles_dfs_parallel.
  destruct (_ || _)%bool; [intros [= <- <-]; split_and!; [split; constructor|cbn; lia|done]|].
  pose proof (tick_shared_ok st Hs) as Ht. destruct (tick_shared now tid st) as [expired st1]. cbn in Ht.
  destruct expired; [intros [= <- <-]; split_and!; [split; constructor|cbn; lia|done]|].
  destruct (run_shards _ _ _ _ _ _ _ _ _ _) as [[shards st2]|] eqn:Er; [|done]. cbn [obind].
  apply run_shards_ok in Er as [Hs2 Hr]; [|done| |].
  2:{ apply Forall_forall. intros t (x & -> & Hx)%list_elem_of_fmap. destruct x as [x y]. apply elem_of_zip_l in Hx.
      rewrite Forall_forall in Hstarts. by apply Hstarts. }
  2:{ split; [apply Ht|cbn; lia]. }
  pose proof (merge_ok _ _ Hr) as Hm.
  destruct (decide _); [intros [= <- <-]; split_and!; [by apply take_merged_ok|rewrite length_take; lia|done]|].
  pose proof (tick_shared_ok st2 Hs2) as Ht2. destruct (tick_shared now tid st2) as [expired st3]. cbn in Ht2.
  destruct expired; [intros [= <- <-]; split_and!; [by apply take_merged_ok|rewrite length_take; lia|done]|].
  destruct (retry_saturated _ _ _ _ _ _ _ _ _ _ _ _ _ _ _) as [[merged st4]|] eqn:Et; [|done]. cbn [obind]. intros [= <- <-].
  apply retry_ok in Et as [Hm4 Hs4]; [|done..]. split_and!; [by apply take_merged_ok|rewrite length_take; lia|done].
Qed.

(** A cycle of one of the passes. *)
Definition found_in (passes : list CycleSearchPass) (c : FoundCycle) : Prop :=
  ∃ pass, pass ∈ passes ∧ found (csp_max_hops pass) c.

Lemma bound_collected_ok bound (P : FoundCycle → Prop) all : Forall P all →
  Forall P (bound_collected cycle_key bound all) ∧ (length (bound_collected cycle_key bound all) ≤ bound)%nat.
Proof.
  intros H. unfold bound_collected. destruct (Nat.ltb_spec bound (length all)); [|split; [done|lia]].
  unfold dedupe_cycles_by_edges. destruct (dedupe_spec cycle_key all) as (_ & _ & Hin & _). rewrite Forall_forall in H.
  destruct (Nat.ltb_spec bound (length (dedupe_cycles_by_key cycle_key all))).
  - split; [|rewrite length_take; lia]. apply Forall_take, Forall_forall. intros c Hc%elem_of_sort_by. by apply H, Hin.
  - split; [|lia]. apply Forall_forall. intros c Hc. by apply H, Hin.
Qed.

Lemma run_passes_ok all_passes bound passes : ∀ all st cycles st',
  passes ⊆ all_passes → Forall (λ p, 0 ≤ csp_max_hops p) all_passes →
  Forall (found_in all_passes) all → (length all ≤ bound)%nat → shared_ok st →
  run_passes ln_f64 now tid graph arena pool_metas prep cycle_key bound passes all st = Done (cycles, st') →
  Forall (found_in all_passes) cycles ∧ (length cycles ≤ bound)%nat ∧ shared_ok st'.
Proof.
  induction passes as [|pass passes IH]; intros all st cycles st' Hsub Hh Ha Hb Hs; cbn [run_passes]; [by intros [= <- <-]|].
  pose proof (tick_shared_ok st Hs) as Ht. destruct (tick_shared now tid st) as [expired st1]. cbn in Ht.
  destruct expired; [by intros [= <- <-]|].
  destruct (collect_cycles_dfs_parallel _ _ _ _ _ _ _ _ _ _ _) as [[shard st2]|] eqn:Ec; [|done]. cbn [obind].
  assert (pass ∈ all_passes) as Hpass by set_solver.
  assert (0 ≤ csp_max_hops pass) as H0 by (rewrite Forall_forall in Hh; by apply Hh).
  apply collect_parallel_ok in Ec as ([Hf _] & _ & Hs2); [|done..].
  destruct (bound_collected_ok bound (found_in all_passes) (all ++ shard)) as [H1 H2].
  { apply Forall_app. split; [done|]. eapply Forall_impl; [exact Hf|]. intros c Hc. by exists pass. }
  apply IH; [set_solver|done..].
Qed.
End passes.

(** ** The search over a graph *)

Definition walk_product (rs : list Z) : Z := foldl mul_ratio_saturating ONE rs.

Lemma mul_ratio_one r : mul_ratio_saturating ONE r = r.
Proof.
  unfold mul_ratio_saturating, mul_ratio. destruct (is_zero r) eqn:E; cbn; [|done]. apply Z.eqb_eq in E. by subst.
Qed.

Lemma priced_product rs p : priced rs p → p = walk_product rs.
Proof.
  induction 1 as [|r|rs p r _ IH]; [done|symmetry; apply mul_ratio_one|].
  unfold walk_product in *. by rewrite foldl_app, <- IH.
Qed.

(** What a hop is worth: the price of a live edge, par for an observed pool without a
    price, or the price of a swap through a hub. *)
Inductive hop_price (ln_f64 : f64 → f64) (arena : StateArena) (g : RoutingGraph) (pins : list PoolIndex) : Edge → Z → Prop :=
| live_hop ge : live_direct g ge → hop_price ln_f64 arena g pins (ge_edge ge) (ge_ratio ge)
| observed_hop ge at_ :
    edge_at g at_ = Some ge → ge_phase ge = Direct → ge_ratio ge = 0 → pool_index (ge_edge ge) ∈ pins →
    hop_price ln_f64 arena g pins (ge_edge ge) ONE
| lazy_hop ge at_ edge log_w r leg :
    edge_at g at_ = Some ge → ge_phase ge = EnterPool →
    resolve_lazy_swap_edge ln_f64 arena (pending_of ge) (token_out edge) leg = Done (Some (edge, log_w, r)) →
    hop_price ln_f64 arena g pins edge r.

Lemma hop_taken_price ln_f64 arena g prep pools h : from_graph g (list_to_set pools) (ag_adjacency prep) →
  hop_taken ln_f64 arena prep h → hop_price ln_f64 arena g pools h.1 h.2.
Proof.
  intros Hf Ht. destruct Ht as [ge Hge Hp Hr|ge edge lw r leg Hge Hp Hr]; cbn [fst snd].
  - destruct (Hf _ _ Hge) as (i & ge0 & He & [[-> Hl]|(Hpin & Hd & Hz & ->)]).
    + apply live_hop. split_and!; [done|done|by eexists].
    + cbn. eapply observed_hop; [done..|]. by apply elem_of_list_to_set in Hpin.
  - destruct (Hf _ _ Hge) as (i & ge0 & He & [[-> Hl]|(Hpin & Hd & Hz & ->)]).
    + by eapply lazy_hop.
    + cbn in Hp. congruence.
Qed.

Lemma hops_priced ln_f64 arena g prep pools hops : from_graph g (list_to_set pools) (ag_adjacency prep) →
  Forall (hop_taken ln_f64 arena prep) hops → Forall2 (hop_price ln_f64 arena g pools) hops.*1 hops.*2.
Proof. intros Hf. induction 1 as [|h hops Hh _ IH]; cbn; constructor; [by eapply hop_taken_price|done]. Qed.

(** Only a search that is exclusive has pins, and they are the observed pools. *)
Lemma prepared_pins g extra exclusive pools uni :
  match ag_first_hop_pools (prepare_search g extra exclusive pools uni) with
  | Some pins => exclusive = true ∧ pins = list_to_set pools
  | None => True
  end.
Proof.
  assert (ag_first_hop_pools (prefer_start_tokens (prepare_active_graph g) extra exclusive) = None) as Hn.
  { unfold prefer_start_tokens. by destruct (decide _). }
  unfold prepare_search. destruct exclusive; [|by rewrite Hn]. set (prep := if uni then _ else _).
  assert (ag_first_hop_pools (inject_unpriced_pin_directs prep g pools) = None) as Hi.
  { unfold inject_unpriced_pin_directs, prep. destruct uni, (decide _); done. }
  unfold prioritize_first_hop_pools. destruct (decide _); [by rewrite Hi|]. cbn.
  by destruct (decide _).
Qed.

Lemma unpinned g extra exclusive pools uni edges : exclusive = false ∨ Forall (λ e, pool_index e ∉ pools) edges →
  pinned (prepare_search g extra exclusive pools uni) edges = false.
Proof.
  intros H. pose proof (prepared_pins g extra exclusive pools uni) as Hp. unfold pinned, edge_is_pin.
  destruct (ag_first_hop_pools _) as [pins|]; [|clear H; induction edges as [|e l IH]; [done|exact IH]].
  destruct Hp as [-> ->]. destruct H as [|H]; [done|].
  induction H as [|e edges He _ IH]; [done|]. cbn. rewrite bool_decide_false; [done|]. by rewrite elem_of_list_to_set.
Qed.

(** The cycles of a search, before the view it walked is forgotten. *)
Lemma dfs_search_found ln_f64 now tid g arena metas cycle_key extra exclusive pools uni passes budget scratch ops k cycles st :
  reachable ln_f64 g → Forall (names_tokens arena) metas → nonneg extra → Forall (λ p, 0 ≤ csp_max_hops p) passes →
  marks_clear scratch → let prep := prepare_search g extra exclusive pools uni in
  find_cycles_multi_pass_with_prep_budget ln_f64 now tid g arena (index_pool_metas metas) prep cycle_key passes
    budget scratch ops k = Done (cycles, st) →
  marks_clear (sh_scratch st) ∧ (length cycles ≤ 3 * max_list (csp_max_cycles <$> passes))%nat ∧
  from_graph g (list_to_set pools) (ag_adjacency prep) ∧ Forall (found_in ln_f64 arena prep passes) cycles.
Proof.
  intros Hr Hm He Hh Hc prep. destruct (reachable_ok ln_f64 g Hr) as [Hok _].
  destruct (prepare_search_ok g extra exclusive pools uni He) as [Hf Hs]. fold prep in Hf, Hs.
  pose proof (from_graph_prep_ok _ _ _ Hok Hf) as Hprep. pose proof (metas_legs_ok _ _ Hm) as Hlegs.
  unfold find_cycles_multi_pass_with_prep_budget. destruct (_ || _)%bool.
  { intros [= <- <-]. split_and!; [done|cbn; lia|done|constructor]. }
  intros Hrun. eapply (run_passes_ok _ _ _ _ _ _ _ _ Hprep Hlegs Hs passes) in Hrun as (H1 & H2 & [H3 _]);
    [|done|done|constructor|cbn; lia|by split].
  split_and!; [done|lia|done|done].
Qed.

(** C28: The depth-first search over a reachable graph, however it is prepared, gives its arrays
    back unmarked and returns closed walks of at most the hops of a pass, no pool and no
    token twice, that fit the executor; each hop is a live edge or a swap through a hub, and
    the ratio is the product of their prices; it exceeds the bar for the length unless the
    walk uses an observed pool. *)
Theorem dfs_search_sound ln_f64 now tid g arena metas cycle_key extra exclusive pools uni passes budget scratch ops k cycles st :
  reachable ln_f64 g → Forall (names_tokens arena) metas → nonneg extra → Forall (λ p, 0 ≤ csp_max_hops p) passes →
  marks_clear scratch →
  find_cycles_multi_pass_with_prep_budget ln_f64 now tid g arena (index_pool_metas metas)
    (prepare_search g extra exclusive pools uni) cycle_key passes budget scratch ops k = Done (cycles, st) →
  marks_clear (sh_scratch st) ∧ (length cycles ≤ 3 * max_list (csp_max_cycles <$> passes))%nat ∧
  ∀ c, c ∈ cycles →
    simple_cycle (fc_edges c) ∧ chained (fc_edges c) ∧ token_in <$> head (fc_edges c) = Some (fc_start_token c) ∧
    (∃ pass, pass ∈ passes ∧ fc_hop_count c ≤ csp_max_hops pass) ∧ fc_hop_count c ≤ 8 ∧
    fc_hop_count c = Z.of_nat (length (fc_edges c)) ∧
    packed_calls_fit_executor (estimate_packed_route_calls (fc_edges c)) = true ∧
    (exclusive = false ∨ Forall (λ e, pool_index e ∉ pools) (fc_edges c) →
       ONE < fc_cycle_ratio c ∧ min_profitable_cycle_ratio (fc_hop_count c) ≤ fc_cycle_ratio c) ∧
    ∃ rs, Forall2 (hop_price ln_f64 arena g pools) (fc_edges c) rs ∧ fc_cycle_ratio c = walk_product rs.
Proof.
  intros Hr Hm He Hh Hc Hrun. eapply dfs_search_found in Hrun as (H1 & H2 & Hf & H3); [|done..].
  set (prep := prepare_search _ _ _ _ _) in *. split_and!; [done|done|]. intros c Hcin.
  rewrite Forall_forall in H3. destruct (H3 c Hcin) as (pass & Hpass & [F1 F2 F3 F4 F5 F6 F7 F8]).
  split_and!; try done.
  - exists pass. split; [done|]. unfold HOP_CAP in F4. lia.
  - unfold HOP_CAP in F4. lia.
  - intros Hx. apply F8. by apply unpinned.
  - destruct F6 as (hops & E & Ht & Hp). exists hops.*2. rewrite <- E. split; [by eapply hops_priced|by apply priced_product].
Qed.

(** ** What the pruning keeps *)

Definition direct_bounded (p : NodePrep) (ge : GraphEdge) : Prop := ge_phase ge = Direct → ge_ratio ge ≤ np_max_outgoing_ratio p.

(** The best ratio of a token bounds its live direct edges. *)
Lemma prep_edges_bounded l : ∀ p bits, Forall (direct_bounded p) (np_live p) → ONE ≤ np_max_outgoing_ratio p →
  let p' := (fold_left (prep_edge true) l (p, bits)).1 in
  Forall (direct_bounded p') (np_live p') ∧ ONE ≤ np_max_outgoing_ratio p'.
Proof.
  induction l as [|ge l IH]; intros p bits Hb Hm; cbn [fold_left]; [done|].
  unfold prep_edge at 2 4 6. destruct (negb (is_live_graph_edge ge)); [by apply IH|]. cbn [negb]. apply IH; cbn.
  - apply Forall_app. split.
    + eapply Forall_impl; [exact Hb|]. intros x Hx Hd. specialize (Hx Hd). cbn. destruct (_ && _ && _)%bool eqn:E; [|done].
      apply andb_prop in E as [_ E]. lia.
    + apply Forall_singleton. intros Hd. cbn. rewrite bool_decide_true by done. cbn [andb].
      destruct (ONE <=? ge_ratio ge) eqn:E1; cbn [andb]; [destruct (_ <? _) eqn:E2|]; lia.
  - destruct (_ && _ && _)%bool eqn:E; [|done]. apply andb_prop in E as [E _]. apply andb_prop in E as [_ E]. lia.
Qed.

Lemma prep_node_bounded index tc g coverage : (index < tc)%nat →
  let p := prep_node index tc g coverage in Forall (direct_bounded p) (np_live p) ∧ ONE ≤ np_max_outgoing_ratio p.
Proof.
  intros Hi. unfold prep_node. destruct (_ && _)%bool; [split; [constructor|done]|]. rewrite (proj2 (Nat.ltb_lt _ _) Hi).
  destruct (prep_edges_bounded (adj_at g index) no_prep 0) as [H1 H2]; [constructor|done|]. cbn [np_live np_max_outgoing_ratio].
  split; [|done]. apply Forall_forall. intros x Hx%elem_of_sort_by. rewrite Forall_forall in H1. by apply H1.
Qed.

(** The bounds of the view after the nodes gathered so far. *)
Record gathered (tc : nat) (done_ : list (nat * NodePrep)) (acc : Gather) : Prop := {
  gd_length : length (ga_max_outgoing_ratio acc) = tc;
  gd_token i p : (i, p) ∈ done_ → (i < tc)%nat →
    np_max_outgoing_ratio p ≤ nth i (ga_max_outgoing_ratio acc) ONE ∧ np_max_outgoing_ratio p ≤ ga_global_max_ratio acc;
  gd_par : Forall (λ r, ONE ≤ r) (ga_max_outgoing_ratio acc);
}.

Lemma gather_gathered tc nodes : ∀ done_ acc,
  Forall (λ ip : nat * NodePrep, (ip.1 < tc)%nat → ONE ≤ np_max_outgoing_ratio ip.2) nodes → gathered tc done_ acc →
  gathered tc (done_ ++ nodes) (fold_left (gather_node tc) nodes acc).
Proof.
  induction nodes as [|[index node] nodes IH]; intros done_ acc Hn Hg; cbn [fold_left]; [by rewrite app_nil_r|].
  apply Forall_cons in Hn as [Hx Hn]. cbn in Hx. rewrite (cons_middle (index, node) done_ nodes), app_assoc. apply IH; [done|].
  destruct Hg as [G1 G2 G3]. unfold gather_node. destruct (Nat.ltb_spec index tc) as [Hi|Hi]; cbn [negb].
  2:{ split; [done| |done]. intros i p [Hin|Hin]%elem_of_app; [by apply G2|]. apply list_elem_of_singleton in Hin as [= -> ->]. lia. }
  split; cbn.
  - destruct (_ <? _); [by rewrite length_insert|done].
  - intros i p Hin Hlt. assert (nth i (ga_max_outgoing_ratio acc) ONE ≤
      nth i (if nth index (ga_max_outgoing_ratio acc) ONE <? np_max_outgoing_ratio node
             then <[index := np_max_outgoing_ratio node]> (ga_max_outgoing_ratio acc) else ga_max_outgoing_ratio acc) ONE) as Hmono.
    { destruct (_ <? _) eqn:E; [|done]. rewrite nth_insert. destruct (decide _) as [[-> _]|]; lia. }
    apply elem_of_app in Hin as [Hin|Hin]; [destruct (G2 i p Hin Hlt); lia|].
    apply list_elem_of_singleton in Hin as [= -> ->]. split; [|lia].
    destruct (_ <? _) eqn:E; [|lia]. rewrite nth_insert_eq by lia. lia.
  - destruct (_ <? _); [|done]. apply Forall_insert; [done|]. by apply Hx.
Qed.

(** Every direct edge of the view is within the bounds of its token and of the graph. *)
Lemma prepared_bounds g : let prep := prepare_active_graph g in
  Forall (λ r, ONE ≤ r) (ag_max_outgoing_ratio prep) ∧
  ∀ node ge, (node < token_slots g)%nat → (token_slots g ≤ length (rg_adjacency g))%nat →
    ge ∈ default [] (ag_adjacency prep !! node) → ge_phase ge = Direct →
    ge_ratio ge ≤ nth node (ag_max_outgoing_ratio prep) ONE ∧ ge_ratio ge ≤ ag_global_max_live_edge_ratio prep.
Proof.
  cbn zeta. unfold prepare_active_graph. cbn [ag_max_outgoing_ratio ag_adjacency ag_global_max_live_edge_ratio].
  set (coverage := default _ _). set (per_node := _ <$> seq 0 _). set (acc0 := {| ga_hub_enter := 0 |}).
  destruct (gather_gathered (token_slots g) (zip (seq 0 (length (rg_adjacency g))) per_node) [] acc0) as [_ H2 H3].
  { apply Forall_forall. intros [i p] Hin Hi. cbn in *. apply list_elem_of_lookup in Hin as [k Hk].
    rewrite lookup_zip_with in Hk. destruct (seq 0 _ !! k) as [j|] eqn:Ej; [|done]. unfold per_node in Hk.
    rewrite list_lookup_fmap, Ej in Hk. cbn in Hk. injection Hk as <- <-. by apply prep_node_bounded. }
  { split; cbn; [apply length_replicate|by intros i p ?%elem_of_nil|]. apply Forall_replicate. done. }
  split; [exact H3|]. intros node ge Hn Hlen Hge Hd. rewrite list_lookup_fmap in Hge.
  destruct (per_node !! node) as [p|] eqn:Ep; [|by apply elem_of_nil in Hge]. cbn in Hge.
  assert ((node, p) ∈ zip (seq 0 (length (rg_adjacency g))) per_node) as Hin.
  { apply list_elem_of_lookup. exists node. rewrite lookup_zip_with, Ep, lookup_seq_lt by lia. done. }
  destruct (H2 node p Hin Hn) as [B1 B2]. unfold per_node in Ep. rewrite list_lookup_fmap, lookup_seq_lt in Ep by lia.
  injection Ep as <-. destruct (prep_node_bounded node (token_slots g) g coverage Hn) as [Hb _].
  rewrite Forall_forall in Hb. specialize (Hb ge Hge Hd). cbn in *. lia.
Qed.

Lemma optimistic_loop_false n g : ∀ opt q rs, u256 g → u256 opt → optimistic_loop n opt g = false → opt ≤ ONE →
  Forall (λ r, 0 ≤ r ≤ g) rs → (length rs ≤ n)%nat → 0 ≤ q ≤ opt → foldl mul_ratio_saturating q rs ≤ ONE.
Proof.
  induction n as [|n IH]; intros opt q rs Hg Ho Hl Hle Hr Hn Hq; (destruct rs as [|r rs]; cbn [foldl]; [lia|]); [cbn in Hn; lia|].
  apply Forall_cons in Hr as [Hr Hrs]. cbn [optimistic_loop] in Hl.
  destruct (Z.ltb_spec ONE (mul_ratio_saturating opt g)) as [|Hlt]; [done|].
  assert (u256 q ∧ u256 r) as [Hq' Hr'] by (unfold u256 in *; lia).
  pose proof (mul_ratio_saturating_range _ _ Hq' Hr') as [H0 _].
  apply (IH (mul_ratio_saturating opt g)); try done.
  - by apply mul_ratio_saturating_range.
  - cbn in Hn. lia.
  - split; [done|]. by apply mul_ratio_saturating_mono.
Qed.

(** C29: The bound on the product never cuts off a profit along direct edges: when it says a walk
    cannot become profitable, every way to go on with the hops that are left, along direct
    edges of the view, ends with a product of at most one. *)
Theorem pruned_walk_unprofitable g p hops hop_cap curr path :
  let prep := prepare_active_graph g in
  (token_slots g ≤ length (rg_adjacency g))%nat → u256 p → u256 (ag_global_max_live_edge_ratio prep) →
  Forall u256 (ag_max_outgoing_ratio prep) →
  can_still_be_profitable_u256 p hops hop_cap curr (ag_max_outgoing_ratio prep) (ag_global_max_live_edge_ratio prep) = false →
  path ≠ [] → Z.of_nat (length path) ≤ hop_cap - hops → head path.*1 = Some (Z.to_nat curr) →
  Forall (λ nge : nat * GraphEdge, (nge.1 < token_slots g)%nat ∧ nge.2 ∈ default [] (ag_adjacency prep !! nge.1) ∧
                   ge_phase nge.2 = Direct ∧ 0 ≤ ge_ratio nge.2) path →
  foldl mul_ratio_saturating p ((λ nge : nat * GraphEdge, ge_ratio nge.2) <$> path) ≤ ONE.
Proof.
  intros prep Hlen Hp Hg Hmo Hc Hne Hn Hhead Hpath. destruct (prepared_bounds g) as [Hpar Hb]. fold prep in Hpar, Hb.
  unfold can_still_be_profitable_u256 in Hc. cbv zeta in Hc. destruct (_ && _)%bool; [done|].
  destruct path as [|[node ge] path]; [done|]. cbn in Hhead. injection Hhead as ->. cbn [length] in Hn.
  unfold saturating_sub in Hc. destruct (Z.eqb_spec (Z.max 0 (hop_cap - hops)) 0) as [|_]; [lia|].
  apply Forall_cons in Hpath as [(Hnode & Hge & Hd & Hr) Hpath]. cbn in Hnode, Hge, Hd, Hr.
  destruct (Hb _ _ Hnode Hlen Hge Hd) as [B1 B2]. set (first := nth (Z.to_nat curr) (ag_max_outgoing_ratio prep) ONE) in *.
  assert (u256 first ∧ ONE ≤ first) as [Hf Hf1].
  { unfold first. rewrite nth_lookup. destruct (ag_max_outgoing_ratio prep !! Z.to_nat curr) as [x|] eqn:Ex; [|done]. cbn.
    rewrite Forall_forall in Hmo, Hpar. apply list_elem_of_lookup_2 in Ex. by split; [apply Hmo|apply Hpar]. }
  rewrite (proj2 (Z.ltb_ge _ _) Hf1) in Hc. destruct (Z.ltb_spec ONE (mul_ratio_saturating p first)) as [|Hle]; [done|].
  assert (0 ≤ p) by (by destruct Hp). assert (u256 (ge_ratio ge)) as Hgr by (unfold u256 in *; lia).
  pose proof (mul_ratio_saturating_range _ _ Hp Hgr) as [H0 _].
  assert (mul_ratio_saturating p (ge_ratio ge) ≤ mul_ratio_saturating p first) as Hm by (by apply mul_ratio_saturating_mono).
  cbn [fmap list_fmap foldl snd]. destruct path as [|x path]; [cbn; lia|].
  assert (ONE ≤ ag_global_max_live_edge_ratio prep) as Hgp.
  { unfold prep, prepare_active_graph. cbn [ag_global_max_live_edge_ratio].
    apply (fold_left_inv (λ acc, ONE ≤ ga_global_max_ratio acc)); [done|]. intros a [i q] _ Ha. unfold gather_node.
    destruct (negb _); [done|]. cbn. lia. }
  rewrite (proj2 (Z.ltb_lt 1 _)), (proj2 (Z.leb_le _ _) Hgp) in Hc by (cbn in Hn; lia). cbn [andb] in Hc.
  eapply (optimistic_loop_false _ _ _ _ _ Hg) with (2 := Hc); [by apply mul_ratio_saturating_range|done| | |lia].
  - apply Forall_fmap. eapply Forall_impl; [exact Hpath|]. intros [n e] (N1 & N2 & N3 & N4). cbn in *.
    destruct (Hb _ _ N1 Hlen N2 N3). lia.
  - rewrite length_fmap. cbn [length] in *. lia.
Qed.

(** ** What the pruning loses *)

Lemma prep_edges_no_direct b l : (∀ ge, ge ∈ l → ge_phase ge = Direct → is_live_graph_edge ge = false) → ∀ p bits,
  np_min_outgoing p = None → np_min_outgoing (fold_left (prep_edge b) l (p, bits)).1 = None.
Proof.
  induction l as [|ge l IH]; intros Hl p bits Hp; cbn [fold_left]; [done|].
  assert (∀ x, x ∈ l → ge_phase x = Direct → is_live_graph_edge x = false) as Hl' by (intros x Hx; apply Hl; by right).
  unfold prep_edge at 2. destruct (is_live_graph_edge ge) eqn:E; cbn [negb]; [|by apply IH].
  destruct b; cbn [negb]; apply IH; try done. cbn. destruct (ge_phase ge) eqn:Ep; [|done..].
  rewrite (Hl ge) in E; [done|left|done].
Qed.

(** The search prices the legs of hubs only when it takes them, but prunes with the direct
    edges alone: at a token that only hubs leave it goes on only when the walk is
    profitable already, whatever the hubs would pay. *)
Lemma no_direct_min g t : (∀ ge, ge ∈ adj_at g (Z.to_nat t) → ge_phase ge = Direct → is_live_graph_edge ge = false) →
  nth (Z.to_nat t) (ag_min_outgoing_weight (prepare_active_graph g)) f_inf = f_inf.
Proof.
  intros Hd. unfold prepare_active_graph. cbn [ag_min_outgoing_weight]. set (acc := fold_left _ _ _).
  assert (∀ w, ga_min_outgoing acc !! Z.to_nat t ≠ Some (Some w)) as H.
  { apply (fold_left_inv (λ acc, ∀ w, ga_min_outgoing acc !! Z.to_nat t ≠ Some (Some w))).
    - cbn. intros w Hw. by apply lookup_replicate in Hw as [? _].
    - intros a [i p] Hin Ha w. unfold gather_node. destruct (negb _); [done|]. cbn.
      apply list_elem_of_lookup in Hin as [k Hk]. rewrite lookup_zip_with in Hk.
      destruct (seq 0 _ !! k) as [j|] eqn:Ej; [|done]. rewrite list_lookup_fmap, Ej in Hk. cbn in Hk. injection Hk as <- <-.
      destruct (np_min_outgoing (prep_node j _ _ _)) as [v|] eqn:Ev; [|done].
      destruct (decide (j = Z.to_nat t)) as [->|Hne]; [|by rewrite list_lookup_insert_ne].
      unfold prep_node in Ev. destruct (_ && _)%bool; [done|]. cbn [np_min_outgoing] in Ev.
      by rewrite prep_edges_no_direct in Ev. }
  rewrite nth_lookup, list_lookup_fmap. destruct (ga_min_outgoing acc !! Z.to_nat t) as [[w|]|]; [|done..]. by destruct (H w).
Qed.

(** Preferring tokens and pools rearranges the edges and leaves the bounds as they were. *)
Lemma prepare_search_min g extra exclusive pools uni :
  ag_min_outgoing_weight (prepare_search g extra exclusive pools uni) = ag_min_outgoing_weight (prepare_active_graph g).
Proof.
  assert (∀ ag, ag_min_outgoing_weight (prioritize_first_hop_pools ag pools) = ag_min_outgoing_weight ag) as H1
    by (intros ag; unfold prioritize_first_hop_pools; destruct (decide _); [done|];
        cbv zeta; cbn [ag_min_outgoing_weight with_adjacency]; by case_decide).
  assert (∀ ag, ag_min_outgoing_weight (inject_unpriced_pin_directs ag g pools) = ag_min_outgoing_weight ag) as H2
    by (intros ag; unfold inject_unpriced_pin_directs; by destruct (decide _)).
  assert (∀ ag, ag_min_outgoing_weight (prefer_start_tokens ag extra exclusive) = ag_min_outgoing_weight ag) as H3
    by (intros ag; unfold prefer_start_tokens; by destruct (decide _)).
  unfold prepare_search. destruct exclusive; [|by rewrite H3]. cbv zeta. rewrite H1, H2, <- (H3 (prepare_active_graph g)). by destruct uni.
Qed.

(** The walk has made its profit at this depth. *)
Definition above_bar (ratio hops : Z) : bool :=
  ((ONE <? ratio) && (min_profitable_cycle_ratio (Z.max hops 2) <=? ratio))%bool.

Lemma hub_only_verdict g extra exclusive pools uni t log_w ratio hops hop_cap pin :
  (∀ ge, ge ∈ adj_at g (Z.to_nat t) → ge_phase ge = Direct → is_live_graph_edge ge = false) → hops < hop_cap →
  can_still_find_profitable_cycle log_w ratio hops hop_cap t (prepare_search g extra exclusive pools uni) pin
  = (pin || above_bar ratio hops)%bool.
Proof.
  intros Hd Hh. unfold can_still_find_profitable_cycle, above_bar. destruct pin; [done|]. destruct (_ && _)%bool; [done|].
  unfold can_still_be_negative. cbv zeta. rewrite prepare_search_min, no_direct_min by done. unfold saturating_sub.
  destruct (Z.eqb_spec (Z.max 0 (hop_cap - hops)) 0); [lia|]. done.
Qed.

(** C30: At a token that no live direct edge leaves, the search goes on in two cases only: the
    walk has touched an observed pool, and then it always goes on, or it has made its profit
    already.  Otherwise, however well the hubs of the token pay and whatever the weight so
    far, the step of the search at that token explores nothing: it ends with the state it
    has after its check of the clock, and no cycle is added.  (This is the token a hop has led
    to; the first hop out of a start token into a hub is not tested.) *)
Theorem hub_only_token_needs_gain ln_f64 clock tid g arena metas extra exclusive pools uni start hop_cap max_cycles
    fuel t w s :
  (∀ ge, ge ∈ adj_at g (Z.to_nat t) → ge_phase ge = Direct → is_live_graph_edge ge = false) →
  t < rg_token_count g → wk_hops w < hop_cap →
  let prep := prepare_search g extra exclusive pools uni in
  (∀ log_w ratio hops pin, hops < hop_cap →
     can_still_find_profitable_cycle log_w ratio hops hop_cap t prep pin = (pin || above_bar ratio hops)%bool) ∧
  (wk_pin w = false → above_bar (wk_ratio w) (wk_hops w) = false → (2 ≤ wk_hops w → t ≠ start) →
     dfs ln_f64 clock tid g arena metas prep start hop_cap max_cycles (S fuel) t None w s
       = Done (dfs_stops clock tid max_cycles s).2 ∧
     df_cycles (dfs_stops clock tid max_cycles s).2 = df_cycles s).
Proof.
  intros Hd Ht Hh prep. split; [intros; by apply hub_only_verdict|]. intros Hpin Hbar Hstart. cbn [dfs].
  assert (df_cycles (dfs_stops clock tid max_cycles s).2 = df_cycles s) as Hc
    by (unfold dfs_stops; by destruct (shared_tick _ _ _)).
  destruct (dfs_stops clock tid max_cycles s) as [stop s1]. cbn [snd] in *. split; [|done].
  destruct stop; [done|].
  assert (is_virtual_node g t = false) as -> by (by apply Z.leb_gt). cbv zeta.
  destruct (_ !! Z.to_nat t) as [used|]; [|done].
  assert ((2 <=? wk_hops w) && (t =? start) = false)%bool as ->.
  { apply andb_false_iff. destruct (Z.leb_spec 2 (wk_hops w)); [right|by left]. apply Z.eqb_neq; auto. }
  destruct (_ || _)%bool; [done|]. unfold prep. rewrite hub_only_verdict by done. by rewrite Hpin, Hbar.
Qed.

(** ** Witnesses *)

Definition demo_dfs_metas : list PoolMeta :=
  [demo_triangle_meta 0 0 1; demo_triangle_meta 1 1 2; demo_triangle_meta 2 2 0].

Definition no_marks : DfsScratch := {| ds_used_pools := []; ds_used_tokens := []; ds_path := [] |}.

Abbreviation demo_dfs_result :=
  (find_cycles_multi_pass_with_prep_budget (λ x, x) (λ _, 0) 0 demo_rescored_graph demo_triangle
     (index_pool_metas demo_dfs_metas) (prepare_search demo_rescored_graph [] false [] false)
     (λ l, Z.of_nat (length l)) demo_passes 100 no_marks ∅ 0).

Lemma no_marks_clear : marks_clear no_marks.
Proof. by split; intros [|i]. Qed.

Lemma demo_dfs_names : Forall (names_tokens demo_triangle) demo_dfs_metas.
Proof. repeat apply Forall_cons_2; [apply demo_names; vm_compute; reflexivity..|done]. Qed.

Lemma dfs_search_sound_witness :
  (match demo_dfs_result with Done (cycles, _) => length cycles | Panic => 0%nat end) = 3%nat ∧
  ∀ cycles st, demo_dfs_result = Done (cycles, st) → ∀ c, c ∈ cycles → ONE < fc_cycle_ratio c.
Proof.
  split; [vm_compute; reflexivity|]. intros cycles st Hr c Hc.
  destruct (dfs_search_sound (λ x, x) (λ _, 0) 0 demo_rescored_graph demo_triangle demo_dfs_metas
    (λ l, Z.of_nat (length l)) [] false [] false demo_passes 100 no_marks ∅ 0 cycles st demo_reachable demo_dfs_names)
    as (_ & _ & H); [constructor|repeat constructor; cbn; lia|exact no_marks_clear|exact Hr|].
  destruct (H c Hc) as (_ & _ & _ & _ & _ & _ & _ & Hp & _). apply Hp. by left.
Defined.

Definition demo_lossy_path : list (nat * GraphEdge) :=
  pair 1%nat <$> take 1 (default [] (ag_adjacency (prepare_active_graph demo_rescored_graph) !! 1%nat)).

(** The hops of one node, taken from its edges. *)
Lemma hops_of_node (slots node n : nat) (adjacency : list (list GraphEdge)) :
  (node <? slots)%nat = true →
  bool_decide (Forall (λ ge, ge_phase ge = Direct ∧ 0 ≤ ge_ratio ge) (take n (default [] (adjacency !! node)))) = true →
  Forall (λ nge : nat * GraphEdge, (nge.1 < slots)%nat ∧ nge.2 ∈ default [] (adjacency !! nge.1) ∧
                   ge_phase nge.2 = Direct ∧ 0 ≤ ge_ratio nge.2) (pair node <$> take n (default [] (adjacency !! node))).
Proof.
  intros Hn Hd. apply Nat.ltb_lt in Hn. apply bool_decide_eq_true in Hd. apply Forall_fmap, Forall_forall. intros ge Hge.
  destruct (proj1 (Forall_forall _ _) Hd _ Hge) as [Hp Hr]. split_and!; [exact Hn| |exact Hp|exact Hr].
  apply elem_of_take in Hge as (i & Hi & _). exact (list_elem_of_lookup_2 _ _ _ Hi).
Qed.

Lemma pruned_walk_unprofitable_witness :
  length demo_lossy_path = 1%nat ∧
  foldl mul_ratio_saturating (97 * 10 ^ 16) ((λ nge : nat * GraphEdge, ge_ratio nge.2) <$> demo_lossy_path) ≤ ONE.
Proof.
  split; [vm_compute; reflexivity|].
  apply (pruned_walk_unprofitable demo_rescored_graph (97 * 10 ^ 16) 2 3 1).
  - vm_compute. lia.
  - vm_compute. split; [discriminate|reflexivity].
  - vm_compute. split; [discriminate|reflexivity].
  - apply (bool_decide_unpack _). vm_compute. exact I.
  - vm_compute. reflexivity.
  - vm_compute. discriminate.
  - vm_compute. discriminate.
  - vm_compute. reflexivity.
  - apply hops_of_node; vm_compute; reflexivity.
Defined.

(** The triangle before it is priced: no token has a live direct edge. *)
Lemma hub_only_token_needs_gain_witness :
  let prep := prepare_search demo_attached [] false [] false in
  let w pin := {| wk_hop_calls := 2; wk_hops := 1; wk_log_w := f_zero; wk_ratio := 99 * 10 ^ 16; wk_cum_fee := 30;
                  wk_pin := pin |} in
  let s := {| df_scratch := no_marks; df_cycles := []; df_seen := ∅;
              df_budget := ({| sg_deadline := 100; sg_expired := false; sg_local_ops := ∅ |}, O);
              df_cap := cap_new 10 |} in
  can_still_find_profitable_cycle f_zero (99 * 10 ^ 16) 1 4 1 prep true = true ∧
  can_still_find_profitable_cycle f_zero (99 * 10 ^ 16) 1 4 1 prep false = false ∧
  dfs (λ x, x) (λ _, 0) O demo_attached demo_triangle [] prep 0 4 10 3 1 None (w false) s
    = Done (dfs_stops (λ _, 0) O 10 s).2.
Proof.
  intros prep w s.
  assert (∀ ge, ge ∈ adj_at demo_attached (Z.to_nat 1) → ge_phase ge = Direct → is_live_graph_edge ge = false) as Hd.
  { intros ge Hge _. revert ge Hge. apply Forall_forall, (bool_decide_unpack _). vm_compute. exact I. }
  destruct (hub_only_token_needs_gain (λ x, x) (λ _, 0) O demo_attached demo_triangle [] [] false [] false 0 4 10 2 1
    (w false) s Hd) as [H1 H2]; [vm_compute; reflexivity|vm_compute; reflexivity|].
  split; [exact (H1 f_zero (99 * 10 ^ 16) 1 true ltac:(lia))|].
  split; [exact (H1 f_zero (99 * 10 ^ 16) 1 false ltac:(lia))|].
  exact (proj1 (H2 eq_refl eq_refl ltac:(cbn; lia))).
Defined.
