(* ===== verification/CycleFilter.v ===== *)
(** * The starts of cycles and their prefilter

    [src/src/pipeline/cycle_filter.rs] but its deduplication, which is in [CycleRank]: the
    rotation of a cycle to its best priced token, and the prefilter that simulates the
    best cycles at a small amount and keeps those that pay, with some it only rescues.
    The diagnostics it counts are left out. *)
From stdpp Require Import gmap.
From Stdlib Require Import SpecFloat.
From S2P Require Import Prelude Word Types Profit Arena Routes Realign LocalSim SimSanity TokenRates.
From S2P Require Import FlashLiquidity CycleRank SpotPrice.

(** ** Quotas *)

Definition graph_negative_rescue_cap (max_keep : nat) : nat :=
  if (max_keep =? 0)%nat then 0%nat
  else Nat.min (Nat.min (Nat.max (max_keep / 4) 32) 256) max_keep.

Definition prefilter_sim_window (max_keep total : nat) : nat := Nat.min (max_keep * 2) total.

Definition cycle_spot_negative (cycle : FoundCycle) : bool :=
  if ONE <? fc_cycle_ratio cycle then true
  else (is_zero (fc_cycle_ratio cycle) && SFltb (fc_score cycle) f_zero)%bool.

(** ** The start of a cycle *)

Definition WMATIC : Address := 0x0d500B1d8E8eF31E21C99d1Db9A6444d3ADf1270.
Definition USDT : Address := 0xc2132d05d31c914a87c6611c10748aeb04b58e8f.
Definition WETH : Address := 0x7ceb23fd6bc0add59e62ac25578270cff1b9f619.
Definition DAI : Address := 0x8f3cf7ad23cd3cadbd9735aff958023239c6a063.
Definition ST_MATIC : Address := 0x3a58a54c066fdc0f2d55fc9c89f0415c92ebf3c4.
Definition MATIC_X : Address := 0xfa68fb4628dff1028cfec22b4162fccd0d45efb6.

Definition flash_start_preference_rank (addr : Address) : Z :=
  if addr =? WMATIC then 0
  else if is_polygon_usd_stable addr then 1
  else if ((addr =? USDT) || (addr =? DAI))%bool then 2
  else if addr =? WETH then 3
  else if ((addr =? ST_MATIC) || (addr =? MATIC_X))%bool then 4
  else if is_polygon_hub_token addr then 10
  else 100.

Section start.
Context (rates : gmap Z Z) (arena : option StateArena).

(** [arena.and_then(..).map(flash_start_preference_rank).unwrap_or(100)] *)
Definition start_rank (token : TokenIndex) : Z :=
  match arena ≫= (λ a, token_address a token) with
  | Some addr => flash_start_preference_rank addr
  | None => 100
  end.

(** [(rank, hop_i) < (br, bi)] *)
Definition rank_before (rank : Z) (hop_i : nat) (br : Z) (bi : nat) : bool :=
  ((rank <? br) || ((rank =? br) && (hop_i <? bi)%nat))%bool.

Fixpoint best_start_loop (hop_i : nat) (edges : list Edge) (best : option (Z * nat * TokenIndex))
    : option (Z * nat * TokenIndex) :=
  match edges with
  | [] => best
  | edge :: edges =>
      let best :=
        if negb (has_reliable_matic_rate (token_in edge) rates) then best
        else
          let rank := start_rank (token_in edge) in
          let candidate := (rank, hop_i, token_in edge) in
          match best with
          | None => Some candidate
          | Some (br, bi, _) => if rank_before rank hop_i br bi then Some candidate else best
          end in
      best_start_loop (S hop_i) edges best
  end.

Definition best_priced_cycle_start (cycle : FoundCycle) : option TokenIndex :=
  snd <$> best_start_loop 0 (fc_edges cycle) None.

(** The cycle it leaves behind, when it says to retain it. *)
Definition normalize_cycle_to_priced_start (cycle : FoundCycle) : option FoundCycle :=
  let? best := best_priced_cycle_start cycle in
  if best =? fc_start_token cycle then Some cycle
  else
    match rotate_cycle_to_start cycle best with
    | Some rotated => Some rotated
    | None => if has_reliable_matic_rate (fc_start_token cycle) rates then Some cycle else None
    end.

Definition retain_cycles_with_priced_start_in (cycle_key : list Edge → Z) (cycles : list FoundCycle)
    : list FoundCycle :=
  if bool_decide (rates = ∅) then cycles
  else
    let cycles := omap normalize_cycle_to_priced_start cycles in
    if (1 <? length cycles)%nat then dedupe_cycles_by_edges cycle_key cycles else cycles.
End start.

Definition retain_cycles_with_priced_start (cycle_key : list Edge → Z) (cycles : list FoundCycle)
    (rates : gmap Z Z) : list FoundCycle :=
  retain_cycles_with_priced_start_in rates None cycle_key cycles.

(** ** The probe of a cycle *)

Record ProbeContext := {
  pb_token_to_matic_rates : option (gmap Z Z);
  pb_token_decimals : option (gmap Z Z);
  pb_gas_price_wei : option Z;
}.

Definition probe_beats_gas_floor (sim : MinimalSimResult) (rate decimals gas_price : Z) : bool :=
  if rate <? MIN_TOKEN_TO_MATIC_RATE then false
  else
    let profit_matic := saturating_mul (sim_profit sim) rate / ten_pow_u256 decimals in
    let gas_matic := saturating_mul (sim_total_gas sim) gas_price in
    gas_matic <? profit_matic.

(** The amount to probe with, the rate and the decimals of the start. *)
Definition probe_context_for_cycle (arena : StateArena) (cycle : FoundCycle) (ctx : option ProbeContext) : Z * Z * Z :=
  let decimals :=
    match ctx ≫= pb_token_decimals with
    | Some c => resolve_token_decimals_for_index (fc_start_token cycle) arena c
    | None => token_decimals arena (fc_start_token cycle)
    end in
  let rate :=
    match ctx ≫= pb_token_to_matic_rates with
    | Some rate_map => default 0 (resolve_token_to_matic_rate_or_bootstrap (fc_start_token cycle) rate_map)
    | None => 0
    end in
  (min_economic_amount_in decimals rate, rate, decimals).

Inductive PrefilterVerdict := Keep | RescueGas | RescueSpot.

#[export] Instance PrefilterVerdict_eq_dec : EqDecision PrefilterVerdict.
Proof. solve_decision. Defined.

(** [probe.as_ref().is_none_or(|s| s.profit.is_zero())] *)
Definition probe_is_empty (probe : option MinimalSimResult) : bool :=
  match probe with Some s => is_zero (sim_profit s) | None => true end.

Definition micro_probe (decimals : Z) : Z := if 6 <=? decimals then ten_pow_u256 (decimals - 6) else 1.

(** What the last probe says. *)
Definition verdict_of_probe (probe : option MinimalSimResult) (rate decimals : Z) (ctx : option ProbeContext)
    : PrefilterVerdict :=
  match probe with
  | Some sim =>
      if 0 <? sim_profit sim then
        match ctx ≫= pb_gas_price_wei with
        | Some gas_price => if probe_beats_gas_floor sim rate decimals gas_price then Keep else RescueGas
        | None => Keep
        end
      else RescueSpot
  | None => RescueSpot
  end.

Definition atomic_sim_verdict_for_cycle (arena : StateArena) (ctx : option ProbeContext) (cycle : FoundCycle)
    : outcome PrefilterVerdict :=
  let '(probe_amount, rate, decimals) := probe_context_for_cycle arena cycle ctx in
  let! caps := precompute_route_shallow_caps arena (fc_edges cycle) in
  let simulate amount := simulate_route_minimal_with_caps arena (fc_edges cycle) amount caps in
  let! probe := simulate probe_amount in
  let! probe :=
    if probe_is_empty probe then
      let spot := spot_probe_for_decimals decimals in
      let! probe :=
        if (negb (spot =? probe_amount) && negb (is_zero spot))%bool then simulate spot else Done probe in
      if probe_is_empty probe then
        let micro := micro_probe decimals in
        if (negb (micro =? probe_amount) && negb (micro =? spot) && negb (is_zero micro))%bool
        then simulate micro else Done probe
      else Done probe
    else Done probe in
  Done (verdict_of_probe probe rate decimals ctx).

(** ** The prefilter *)

(** Every hop is of a family the simulator knows. *)
Definition is_fully_simulable_route (edges : list Edge) : bool :=
  forallb (λ e,
    match protocol e with
    | UniswapV2 | UniswapV3 | UniswapV4 | BalancerV2 | CurveStable | CurveCrypto | Dodo | Woofi => true
    end) edges.

(** The checks before a cycle is simulated. *)
Definition prefilter_admits (arena : StateArena) (c : FoundCycle) : bool :=
  if negb (cycle_spot_negative c) then false
  else if negb (is_fully_simulable_route (fc_edges c)) then false
  else if negb (route_fits_executor (fc_edges c)) then false
  else cycle_edges_match_arena_state arena (fc_edges c).

(** The best candidates by execution. *)
Definition sim_candidates (max_keep : nat) (simulable : list FoundCycle) : list FoundCycle :=
  take (prefilter_sim_window max_keep (length simulable)) (sort_by compare_cycle_execution simulable).

(** [for cycle in rescues { if !admit_rescue(cycle, ..) { break; } }] *)
Fixpoint admit_rescues (rescue_cap total_cap : nat) (rescues : list FoundCycle) (acc : nat * list FoundCycle)
    : nat * list FoundCycle :=
  match rescues with
  | [] => acc
  | cycle :: rescues =>
      let '(rescue_used, survivors) := acc in
      if ((rescue_cap <=? rescue_used)%nat || (total_cap <=? length survivors)%nat)%bool then acc
      else admit_rescues rescue_cap total_cap rescues (S rescue_used, survivors ++ [cycle])
  end.

(** The cycles of a verdict, in order. *)
Definition of_verdict (v : PrefilterVerdict) (judged : list (FoundCycle * PrefilterVerdict)) : list FoundCycle :=
  (filter (λ cv, cv.2 = v) judged).*1.

Definition admit_survivors (max_keep : nat) (judged : list (FoundCycle * PrefilterVerdict)) : list FoundCycle :=
  let rescue_cap := graph_negative_rescue_cap max_keep in
  let total_cap := (max_keep + rescue_cap)%nat in
  let survivors := take (Nat.min (length (of_verdict Keep judged)) max_keep) (of_verdict Keep judged) in
  (admit_rescues rescue_cap total_cap (of_verdict RescueSpot judged)
     (admit_rescues rescue_cap total_cap (of_verdict RescueGas judged) (0%nat, survivors))).2.

Definition prefilter_cycles_by_atomic_sim_with_context_and_diag (arena : StateArena) (cycles : list FoundCycle)
    (max_keep : nat) (ctx : option ProbeContext) : outcome (list FoundCycle) :=
  if ((max_keep =? 0)%nat || is_empty cycles)%bool then Done []
  else
    let simulable := List.filter (prefilter_admits arena) cycles in
    if is_empty simulable then Done []
    else
      let candidates := sim_candidates max_keep simulable in
      let! verdicts := omapM (atomic_sim_verdict_for_cycle arena ctx) candidates in
      Done (admit_survivors max_keep (zip candidates verdicts)).
