(* ===== verification/CycleFilterClaims.v ===== *)
(** * What the start rotation and the prefilter do

    A rotation is the same closed walk from another token; the retained start is the best
    priced token of the cycle; the prefilter keeps what pays before what it rescues. *)
From stdpp Require Import gmap sorting.
From Corelib Require Import SpecFloat.
From S2P Require Import Prelude Word Types Profit Arena Routes Realign LocalSim TokenRates FlashLiquidity CycleRank.
From S2P Require Import SpotPrice BellmanFordInv GraphClaims CycleFilter.

(** ** Rotations *)

Lemma rotate_by_perm {A} k (l : list A) : rotate_by k l ≡ₚ l.
Proof. unfold rotate_by. by rewrite Permutation_app_comm, take_drop. Qed.

Lemma length_rotate_by {A} k (l : list A) : length (rotate_by k l) = length l.
Proof. by rewrite rotate_by_perm. Qed.

Lemma head_rotate_by {A} k (l : list A) x : l !! k = Some x → head (rotate_by k l) = Some x.
Proof. intros H. unfold rotate_by. by rewrite (drop_S _ _ _ H). Qed.

Lemma rotate_by_0 {A} (l : list A) : rotate_by 0 l = l.
Proof. unfold rotate_by. by rewrite take_0, drop_0, app_nil_r. Qed.

Lemma rotate_back {A} k (l : list A) : (k ≤ length l)%nat → rotate_by (length l - k) (rotate_by k l) = l.
Proof.
  intros Hk. unfold rotate_by. rewrite <- (length_drop l k). by rewrite drop_app_length, take_app_length, take_drop.
Qed.

(** A walk whose hops meet, as two walks that meet. *)
Definition meets (l r : list Edge) : Prop :=
  ∀ e e', last l = Some e → head r = Some e' → token_in e' = token_out e.

Lemma chained_app l r : chained (l ++ r) ↔ chained l ∧ chained r ∧ meets l r.
Proof.
  unfold chained, meets. split.
  - intros H. split_and!.
    + intros i e e' He He'. apply (H i); by apply lookup_app_l_Some.
    + intros i e e' He He'. apply (H (length l + i)%nat);
        [|rewrite <- Nat.add_succ_r]; rewrite lookup_app_r by lia; by rewrite Nat.add_comm, Nat.add_sub.
    + intros e e' He He'. rewrite last_lookup in He. assert (0 < length l)%nat by (destruct l; [done|cbn; lia]).
      apply (H (pred (length l))); [by apply lookup_app_l_Some|].
      rewrite lookup_app_r by lia. replace (S (pred (length l)) - length l)%nat with 0%nat by lia. by rewrite <- head_lookup.
  - intros (Hl & Hr & Hm) i e e' He He'. destruct (decide (S i < length l)%nat) as [Hi|Hi].
    { rewrite lookup_app_l in He, He' by lia. by eapply Hl. }
    rewrite lookup_app_r in He' by lia. destruct (decide (i < length l)%nat) as [Hi'|Hi'].
    + rewrite lookup_app_l in He by lia. replace (S i - length l)%nat with 0%nat in He' by lia.
      apply Hm; [|by rewrite head_lookup]. rewrite last_lookup. by replace (pred (length l)) with i by lia.
    + rewrite lookup_app_r in He by lia. eapply Hr; [exact He|]. by replace (S (i - length l)) with (S i - length l)%nat by lia.
Qed.

Lemma meets_closed l : token_out <$> last l = token_in <$> head l → meets l l.
Proof. intros H e e' He He'. rewrite He, He' in H. cbn in H. congruence. Qed.

Lemma rotate_simple k edges : simple_cycle edges → chained edges → (k < length edges)%nat →
  simple_cycle (rotate_by k edges) ∧ chained (rotate_by k edges).
Proof.
  intros [Hh Hc Hp Ht] Hch Hk. pose proof (meets_closed _ Hc) as Hm. unfold rotate_by.
  rewrite <- (take_drop k edges) in Hch, Hm. apply chained_app in Hch as (H1 & H2 & H3).
  destruct (decide (k = 0)%nat) as [->|Hk0].
  { cbn in *. rewrite drop_0, app_nil_r in *. split; [by constructor|done]. }
  assert (∃ a l, take k edges = a :: l) as (a & l & Ea).
  { destruct (take k edges) as [|a l] eqn:E; [|by eauto]. apply (f_equal length) in E. rewrite length_take in E. cbn in E. lia. }
  assert (∃ r b, drop k edges = r ++ [b]) as (r & b & Eb).
  { destruct (drop k edges) as [|b' l' _] eqn:E using rev_ind; [|by eauto]. apply (f_equal length) in E.
    rewrite length_drop in E. cbn in E. lia. }
  assert (meets (drop k edges) (take k edges)) as Hm'.
  { intros e e' He He'. apply Hm.
    - rewrite last_app, He. done.
    - rewrite Ea in *. done. }
  split; [|by apply chained_app]. split.
  - fold (rotate_by k edges). by rewrite length_rotate_by.
  - rewrite Ea, last_app. assert (is_Some (last (a :: l))) as [x Hx] by (apply last_is_Some; done). rewrite Hx.
    destruct (drop k edges) as [|y ys] eqn:Ey; [by destruct r|]. cbn. f_equal. symmetry. apply H3; [by rewrite Ea|done].
  - fold (rotate_by k edges). by rewrite rotate_by_perm.
  - fold (rotate_by k edges). by rewrite rotate_by_perm.
Qed.

Lemma position_witness {A} (f : A → bool) l x : x ∈ l → f x = true → is_Some (position f l).
Proof.
  intros Hx Hf. induction Hx as [|x y l _ IH]; cbn [position]; [by rewrite Hf|].
  destruct (f y); [done|]. destruct IH as [k ->]; [done|]. by eexists.
Qed.

(** A closed walk rotates to any token it leaves. *)
Lemma rotate_cycle_spec c t : simple_cycle (fc_edges c) → chained (fc_edges c) → (∃ e, e ∈ fc_edges c ∧ token_in e = t) →
  ∃ k c', rotate_cycle_to_start c t = Some c' ∧ fc_edges c' = rotate_by k (fc_edges c) ∧ (k < length (fc_edges c))%nat ∧
    fc_start_token c' = t ∧ token_in <$> head (fc_edges c') = Some t ∧ fc_hop_count c' = edge_hops c ∧
    fc_cycle_ratio c' = fc_cycle_ratio c ∧ fc_score c' = fc_score c.
Proof.
  intros Hs Hc (e & He & Ht). unfold rotate_cycle_to_start. rewrite bool_decide_false by (intros H; rewrite H in He; by apply elem_of_nil in He).
  destruct (position_witness (λ e, token_in e =? t) _ _ He) as [k Hk]; [by apply Z.eqb_eq|].
  rewrite Hk. apply position_spec in Hk as (x & Hx & Htx). apply Z.eqb_eq in Htx.
  pose proof (lookup_lt_Some _ _ _ Hx) as Hlt. destruct (rotate_simple k _ Hs Hc Hlt) as [[_ Hcl _ _] _].
  rewrite (head_rotate_by _ _ _ Hx) in Hcl. destruct (last (rotate_by k (fc_edges c))) as [y|]; [|done].
  cbn in Hcl. injection Hcl as Hcl. rewrite Hcl, Htx, Z.eqb_refl. eexists k, _. split; [done|]. cbn. split_and!; try done.
  rewrite (head_rotate_by _ _ _ Hx). cbn. congruence.
Qed.

(** ** The best start *)

Section start.
Context (rates : gmap Z Z) (arena : option StateArena).

Definition best_ok (seen : list Edge) (best : option (Z * nat * TokenIndex)) : Prop :=
  match best with
  | Some (rank, _, t) =>
      has_reliable_matic_rate t rates = true ∧ rank = start_rank arena t ∧ (∃ e, e ∈ seen ∧ token_in e = t) ∧
      ∀ e, e ∈ seen → has_reliable_matic_rate (token_in e) rates = true → rank ≤ start_rank arena (token_in e)
  | None => ∀ e, e ∈ seen → has_reliable_matic_rate (token_in e) rates = false
  end.

Lemma best_start_loop_ok edges : ∀ i seen best, best_ok seen best →
  best_ok (seen ++ edges) (best_start_loop rates arena i edges best).
Proof.
  induction edges as [|edge edges IH]; intros i seen best Hb; cbn [best_start_loop]; [by rewrite app_nil_r|].
  replace (seen ++ edge :: edges) with ((seen ++ [edge]) ++ edges) by (by rewrite <- app_assoc). apply IH. destruct (has_reliable_matic_rate (token_in edge) rates) eqn:Er; cbn [negb].
  - destruct best as [[[br bi] t]|]; cbn in Hb |- *.
    + destruct Hb as (H1 & H2 & (e0 & H3 & H3') & H4). unfold rank_before. destruct (_ || _)%bool eqn:E.
      * assert (start_rank arena (token_in edge) ≤ br) by (zbool; lia). split_and!; [done|done| |].
        { exists edge. split; [set_solver|done]. }
        intros e [He| ->%list_elem_of_singleton]%elem_of_app Hr; [|done]. specialize (H4 e He Hr). lia.
      * assert (br ≤ start_rank arena (token_in edge)) by (zbool; lia). split_and!; [done|done| |].
        { exists e0. split; [set_solver|done]. }
        intros e [He| ->%list_elem_of_singleton]%elem_of_app Hr; [by apply H4|done].
    + split_and!; [done|done| |].
      * exists edge. split; [set_solver|done].
      * intros e [He| ->%list_elem_of_singleton]%elem_of_app Hr; [|done]. rewrite Hb in Hr by done. done.
  - destruct best as [[[br bi] t]|]; cbn in Hb |- *.
    + destruct Hb as (H1 & H2 & (e0 & H3 & H3') & H4). split_and!; [done|done| |].
      * exists e0. split; [set_solver|done].
      * intros e [He| ->%list_elem_of_singleton]%elem_of_app Hr; [by apply H4|congruence].
    + intros e [He| ->%list_elem_of_singleton]%elem_of_app; [by apply Hb|done].
Qed.

Lemma best_start_ok cycle : best_ok (fc_edges cycle) (best_start_loop rates arena 0 (fc_edges cycle) None).
Proof. apply (best_start_loop_ok (fc_edges cycle) 0 [] None). by intros e ?%elem_of_nil. Qed.

(** C18: The retained start of a closed walk is its best priced token: a cycle is dropped exactly
    when no token it leaves has a reliable rate; otherwise it is kept as the same closed walk, hops and
    ratio unchanged, rotated to a token with a reliable rate that no other such token of the walk ranks before. *)
Theorem priced_start_is_best cycle :
  simple_cycle (fc_edges cycle) → chained (fc_edges cycle) →
  token_in <$> head (fc_edges cycle) = Some (fc_start_token cycle) →
  match normalize_cycle_to_priced_start rates arena cycle with
  | None => ∀ e, e ∈ fc_edges cycle → has_reliable_matic_rate (token_in e) rates = false
  | Some c =>
      (∃ k, fc_edges c = rotate_by k (fc_edges cycle)) ∧ fc_cycle_ratio c = fc_cycle_ratio cycle ∧
      simple_cycle (fc_edges c) ∧ chained (fc_edges c) ∧ token_in <$> head (fc_edges c) = Some (fc_start_token c) ∧
      has_reliable_matic_rate (fc_start_token c) rates = true ∧
      ∀ e, e ∈ fc_edges cycle → has_reliable_matic_rate (token_in e) rates = true →
        start_rank arena (fc_start_token c) ≤ start_rank arena (token_in e)
  end.
Proof.
  intros Hs Hc Hh. unfold normalize_cycle_to_priced_start, best_priced_cycle_start.
  pose proof (best_start_ok cycle) as Hb. destruct (best_start_loop _ _ _ _ _) as [[[rank i] t]|]; cbn; [|exact Hb].
  destruct Hb as (H1 & -> & H3 & H4). destruct (Z.eqb_spec t (fc_start_token cycle)) as [->|Hne].
  - split_and!; try done. exists 0%nat. unfold rotate_by. by rewrite take_0, drop_0, app_nil_r.
  - destruct (rotate_cycle_spec cycle t Hs Hc H3) as (k & c' & -> & E & Hk & Et & Eh & _ & Er & _).
    destruct (rotate_simple k _ Hs Hc Hk) as [R1 R2]. rewrite <- E in R1, R2. rewrite Et. split_and!; eauto.
Qed.
End start.

(** ** The prefilter *)

Lemma admit_rescues_take rescue_cap max_keep rescues : ∀ used survivors,
  (used ≤ rescue_cap)%nat → (length survivors ≤ max_keep + used)%nat →
  admit_rescues rescue_cap (max_keep + rescue_cap) rescues (used, survivors) =
  ((used + Nat.min (rescue_cap - used) (length rescues))%nat, survivors ++ take (rescue_cap - used) rescues).
Proof.
  induction rescues as [|c rescues IH]; intros used survivors Hu Hs; cbn [admit_rescues length].
  { by rewrite Nat.min_0_r, Nat.add_0_r, take_nil, app_nil_r. }
  destruct (Nat.leb_spec rescue_cap used) as [Hle|Hlt]; cbn [orb].
  { replace (rescue_cap - used)%nat with 0%nat by lia. by rewrite take_0, app_nil_r, Nat.add_0_r. }
  destruct (Nat.leb_spec (max_keep + rescue_cap) (length survivors)); [lia|].
  rewrite IH by (rewrite ?length_app; cbn; lia). replace (rescue_cap - used)%nat with (S (rescue_cap - S used)) by lia.
  cbn [take]. rewrite <- app_assoc. f_equal. lia.
Qed.

Lemma of_verdict_spec (f : FoundCycle → outcome PrefilterVerdict) l vs : Forall2 (λ c v, f c = Done v) l vs →
  of_verdict Keep (zip l vs) ++ of_verdict RescueGas (zip l vs) ++ of_verdict RescueSpot (zip l vs) ≡ₚ l ∧
  ∀ v, Forall (λ c, f c = Done v) (of_verdict v (zip l vs)) ∧ ∀ c, c ∈ l → f c = Done v → c ∈ of_verdict v (zip l vs).
Proof.
  induction 1 as [|c v l vs Hcv _ [IH1 IH2]].
  { split; [done|]. intros v. split; [constructor|]. by intros c ?%elem_of_nil. }
  assert (∀ w, of_verdict w (zip (c :: l) (v :: vs)) =
            if decide (v = w) then c :: of_verdict w (zip l vs) else of_verdict w (zip l vs)) as Hv.
  { intros w. unfold of_verdict. cbn [zip zip_with]. rewrite filter_cons. cbn [snd]. by destruct (decide (v = w)). }
  split.
  - rewrite !Hv, <- IH1. destruct v; repeat case_decide; try done; cbn [app]; [symmetry; apply Permutation_middle|].
    rewrite !app_assoc. symmetry. apply Permutation_middle.
  - intros w. rewrite Hv. destruct (IH2 w) as [I1 I2]. destruct (decide (v = w)) as [->|Hne].
    + split; [by constructor|]. intros x [->|Hx]%elem_of_cons Hf; [left|right; auto].
    + split; [done|]. intros x [->|Hx]%elem_of_cons Hf; [congruence|auto].
Qed.

(** The candidates are the best of the admitted cycles. *)
Lemma sim_candidates_spec max_keep l : let window := sim_candidates max_keep l in
  window ⊆+ l ∧ length window = Nat.min (max_keep * 2) (length l) ∧
  ∀ w c, w ∈ window → c ∈ l → c ∉ window → compare_cycle_execution w c ≠ Gt.
Proof.
  unfold sim_candidates. set (n := prefilter_sim_window _ _). set (s := sort_by compare_cycle_execution l). cbv zeta.
  assert (s ≡ₚ l) as Hp by apply sort_by_perm. split_and!.
  - rewrite <- Hp. apply sublist_submseteq, sublist_take.
  - rewrite length_take, Hp. unfold n, prefilter_sim_window. lia.
  - intros w c Hw Hc Hnc. rewrite <- Hp, <- (take_drop n s) in Hc. apply elem_of_app in Hc as [?|Hc]; [done|].
    assert (StronglySorted (cmp_le compare_cycle_execution) s) as Hs by (apply sort_by_sorted, _).
    rewrite <- (take_drop n s) in Hs. by eapply (StronglySorted_app_1_elem_of _ _ _ _ _ Hs).
Qed.

Lemma not_all_taken {A} n (l : list A) c : c ∈ l → c ∉ take n l → length (take n l) = n.
Proof.
  intros Hc Hn. rewrite length_take. destruct (decide (n ≤ length l)%nat); [lia|]. rewrite take_ge in Hn by lia. done.
Qed.

Lemma prefilter_judges arena cycles max_keep ctx out :
  prefilter_cycles_by_atomic_sim_with_context_and_diag arena cycles max_keep ctx = Done out →
  let window := sim_candidates max_keep (List.filter (prefilter_admits arena) cycles) in
  ∃ vs, Forall2 (λ c v, atomic_sim_verdict_for_cycle arena ctx c = Done v) window vs ∧
    out = admit_survivors max_keep (zip window vs).
Proof.
  unfold prefilter_cycles_by_atomic_sim_with_context_and_diag. set (l := List.filter _ cycles). cbv zeta.
  destruct (sim_candidates_spec max_keep l) as (_ & W & _).
  assert (max_keep = 0%nat ∨ l = [] → [] = out →
          ∃ vs, Forall2 (λ c v, atomic_sim_verdict_for_cycle arena ctx c = Done v) (sim_candidates max_keep l) vs ∧
            out = admit_survivors max_keep (zip (sim_candidates max_keep l) vs)) as Hempty.
  { intros Hz <-. assert (sim_candidates max_keep l = []) as -> by (apply length_zero_iff_nil; rewrite W; destruct Hz as [->| ->]; cbn; lia).
    exists []. by split; [constructor|]. }
  destruct (Nat.eqb_spec max_keep 0) as [Hz|Hz]; cbn [orb]; [intros [= H]; auto|].
  destruct cycles as [|c cycles]; cbn [is_empty]; [intros [= H]; auto|].
  destruct (is_empty l) eqn:El; [destruct l; [|done]; intros [= H]; auto|].
  destruct (omapM _ _) as [vs|] eqn:Ev; [|done]. cbn [obind]. intros [= <-]. exists vs. split; [|done].
  by apply omapM_Forall2 in Ev.
Qed.

(** The survivors of each kind. *)
Lemma admit_survivors_shape max_keep judged :
  let cap := graph_negative_rescue_cap max_keep in
  let gas := take cap (of_verdict RescueGas judged) in
  admit_survivors max_keep judged =
    take max_keep (of_verdict Keep judged) ++ gas ++ take (cap - length gas) (of_verdict RescueSpot judged).
Proof.
  cbv zeta. unfold admit_survivors. set (cap := graph_negative_rescue_cap max_keep). set (K := of_verdict Keep judged).
  assert (take (Nat.min (length K) max_keep) K = take max_keep K) as ->.
  { destruct (decide (max_keep ≤ length K)%nat); [by rewrite Nat.min_r by lia|]. by rewrite Nat.min_l, !take_ge by lia. }
  assert (length (take max_keep K) ≤ max_keep)%nat as Hk by (rewrite length_take; lia).
  rewrite (admit_rescues_take cap max_keep _ 0), Nat.sub_0_r by lia. set (gas := take cap _).
  assert (Nat.min cap (length (of_verdict RescueGas judged)) = length gas) as Eg by (unfold gas; rewrite length_take; lia).
  rewrite Eg, Nat.add_0_l, admit_rescues_take by (rewrite ?length_app; lia). cbn [snd]. by rewrite <- app_assoc.
Qed.

(** What survives is part of the window and within the quotas. *)
Lemma prefilter_part arena cycles max_keep ctx out :
  prefilter_cycles_by_atomic_sim_with_context_and_diag arena cycles max_keep ctx = Done out →
  out ⊆+ List.filter (prefilter_admits arena) cycles ∧
  (length out ≤ max_keep + graph_negative_rescue_cap max_keep)%nat.
Proof.
  intros H. destruct (prefilter_judges _ _ _ _ _ H) as (vs & Hvs & ->). destruct (of_verdict_spec _ _ _ Hvs) as [Hperm _].
  set (judged := zip _ vs) in *. clearbody judged. rewrite admit_survivors_shape. split; [|rewrite !length_app, !length_take; lia].
  etrans; [|exact (proj1 (sim_candidates_spec max_keep _))]. rewrite <- Hperm.
  repeat apply submseteq_app; apply sublist_submseteq, sublist_take.
Qed.

(** C17: What the prefilter returns: of the cycles that pass its checks it simulates twice as
    many as its quota, or all when they are fewer, none of which ranks by execution behind
    one it leaves out; those that pay come first, as many as the quota admits, then those
    rescued for the gas, then those rescued for the spot price, none of which takes a place
    from one that pays; a cycle that was simulated is dropped only when the quota of its
    kind is used up. *)
Theorem prefilter_keeps_before_rescues arena cycles max_keep ctx out :
  prefilter_cycles_by_atomic_sim_with_context_and_diag arena cycles max_keep ctx = Done out →
  let admitted := List.filter (prefilter_admits arena) cycles in
  let verdict v c := atomic_sim_verdict_for_cycle arena ctx c = Done v in
  let cap := graph_negative_rescue_cap max_keep in
  ∃ window keeps gas spot, out = keeps ++ gas ++ spot ∧
    window ⊆+ admitted ∧ length window = Nat.min (2 * max_keep) (length admitted) ∧
    (∀ w c, w ∈ window → c ∈ admitted → c ∉ window → compare_cycle_execution w c ≠ Gt) ∧
    Forall (λ c, ∃ v, verdict v c) window ∧ out ⊆+ window ∧
    Forall (verdict Keep) keeps ∧ Forall (verdict RescueGas) gas ∧ Forall (verdict RescueSpot) spot ∧
    (length keeps ≤ max_keep)%nat ∧ (length gas + length spot ≤ cap)%nat ∧
    (∀ c, c ∈ window → verdict Keep c → c ∉ keeps → length keeps = max_keep) ∧
    (∀ c, c ∈ window → verdict RescueGas c → c ∉ gas → length gas = cap ∧ spot = []) ∧
    (∀ c, c ∈ window → verdict RescueSpot c → c ∉ spot → (length gas + length spot = cap)%nat).
Proof.
  intros H. cbv zeta. set (l := List.filter (prefilter_admits arena) cycles) in *.
  set (cap := graph_negative_rescue_cap max_keep). destruct (sim_candidates_spec max_keep l) as (W1 & W2 & W3).
  destruct (prefilter_judges _ _ _ _ _ H) as (vs & Hvs & ->). fold l in Hvs |- *.
  destruct (of_verdict_spec _ _ _ Hvs) as [Hperm Hv]. rewrite admit_survivors_shape. fold cap. set (judged := zip _ vs) in *.
  set (keeps := take max_keep _). set (gas := take cap _). set (spot := take (cap - length gas) _).
  assert (length keeps ≤ max_keep)%nat as Hk by (unfold keeps; rewrite length_take; lia).
  assert (length gas ≤ cap)%nat as Hg by (unfold gas; rewrite length_take; lia).
  assert (length spot ≤ cap - length gas)%nat as Hs by (unfold spot; rewrite length_take; lia).
  destruct (Hv Keep) as [K1 K2], (Hv RescueGas) as [G1 G2], (Hv RescueSpot) as [S1 S2].
  exists (sim_candidates max_keep l), keeps, gas, spot. split_and!.
  - done.
  - done.
  - rewrite W2. lia.
  - done.
  - clear -Hvs. induction Hvs; constructor; eauto.
  - rewrite <- Hperm. repeat apply submseteq_app; apply sublist_submseteq, sublist_take.
  - by apply Forall_take.
  - by apply Forall_take.
  - by apply Forall_take.
  - done.
  - lia.
  - intros c Hc Hver Hn. apply not_all_taken with c; auto.
  - intros c Hc Hver Hn. assert (length gas = cap) as E by (apply not_all_taken with c; auto).
    split; [done|]. unfold spot. by rewrite E, Nat.sub_diag.
  - intros c Hc Hver Hn. assert (length spot = (cap - length gas)%nat) by (apply not_all_taken with c; auto). lia.
Qed.

(** ** Witnesses *)

Definition demo_hop (pool t_in t_out : Z) (p : ProtocolType) : Edge :=
  {| pool_index := pool; token_in := t_in; token_out := t_out; token_in_idx := 1; token_out_idx := 0;
     protocol := p; fee_bps := 30; zero_for_one := false |}.

Definition demo_found (edges : list Edge) : FoundCycle :=
  {| fc_start_token := 0; fc_edges := edges; fc_hop_count := Z.of_nat (length edges); fc_log_weight := f_zero;
     fc_cumulative_fee_bps := 90; fc_score := f_zero; fc_cycle_ratio := 101 * 10 ^ 16 |}.

Definition demo_ring3 : FoundCycle :=
  demo_found [demo_hop 2 0 2 UniswapV2; demo_hop 1 2 1 UniswapV2; demo_hop 0 1 0 UniswapV2].

Lemma demo_chained (edges : list Edge) :
  forallb (λ i, match edges !! i, edges !! S i with Some e, Some e' => token_in e' =? token_out e | _, _ => true end)
    (seq 0 (length edges)) = true → chained edges.
Proof.
  intros H i e e' He He'. assert (i < length edges)%nat as Hi by (by eapply lookup_lt_Some).
  rewrite forallb_forall in H. specialize (H i ltac:(apply in_seq; lia)). rewrite He, He' in H. by apply Z.eqb_eq.
Qed.

Lemma priced_start_is_best_witness :
  fc_start_token <$> normalize_cycle_to_priced_start {[1 := 10 ^ 18; 2 := 10 ^ 18]} None demo_ring3 = Some 2 ∧
  match normalize_cycle_to_priced_start {[1 := 10 ^ 18; 2 := 10 ^ 18]} None demo_ring3 with
  | Some c => fc_cycle_ratio c = fc_cycle_ratio demo_ring3
  | None => False
  end.
Proof.
  split; [vm_compute; reflexivity|].
  pose proof (priced_start_is_best {[1 := 10 ^ 18; 2 := 10 ^ 18]} None demo_ring3) as H. revert H.
  destruct (normalize_cycle_to_priced_start _ _ _) as [c|] eqn:E; [|vm_compute in E; discriminate].
  intros H. refine (proj1 (proj2 (H _ _ _))); [|by apply demo_chained|reflexivity].
  split; [cbn; lia|reflexivity|cbn..]; apply (bool_decide_unpack _); vm_compute; exact I.
Defined.

Definition demo_turned : FoundCycle :=
  demo_found [demo_hop 1 2 1 UniswapV2; demo_hop 0 1 0 UniswapV2; demo_hop 2 0 2 UniswapV2].

(** Two rotations of a paying triangle, and a quota of one. *)
Lemma prefilter_keeps_before_rescues_witness :
  prefilter_cycles_by_atomic_sim_with_context_and_diag demo_triangle [demo_ring3; demo_turned] 1 None = Done [demo_turned] ∧
  ∃ keeps rescued, [demo_turned] = keeps ++ rescued ∧ (length keeps ≤ 1)%nat ∧
    Forall (λ c, atomic_sim_verdict_for_cycle demo_triangle None c = Done Keep) keeps.
Proof.
  split; [vm_compute; reflexivity|].
  destruct (prefilter_keeps_before_rescues demo_triangle [demo_ring3; demo_turned] 1 None [demo_turned]) as
    (window & keeps & gas & spot & H1 & _ & Hw & _ & _ & _ & H2 & _ & _ & H3 & _); [vm_compute; reflexivity|].
  exists keeps, (gas ++ spot). exact (conj H1 (conj H3 H2)).
Defined.

(** A rotation that parts two neighbouring V2 hops costs one more call: the route the search
    admitted no longer fits the executor. *)
Lemma rotation_can_outgrow_executor :
  let hops := [demo_hop 0 0 1 UniswapV2; demo_hop 1 1 2 UniswapV2; demo_hop 2 2 3 CurveStable; demo_hop 3 3 4 CurveStable;
               demo_hop 4 4 5 CurveStable; demo_hop 5 5 6 CurveStable; demo_hop 6 6 0 UniswapV3] in
  route_fits_executor hops = true ∧
  (λ c, route_fits_executor (fc_edges c)) <$>
    normalize_cycle_to_priced_start {[1 := 10 ^ 18]} None (demo_found hops) = Some false.
Proof. by vm_compute. Qed.
