(* ===== verification/CycleSearch.v ===== *)
(** * The search of cycles as a whole

    [src/src/pipeline/cycle_search.rs]: the choice of the search by the configured mode, the
    merge of the two searches of the hybrid mode, and what every mode does with the cycles it
    has collected.  The two searches of the hybrid mode run in parallel; they share nothing but
    the clock, and the model runs them one after the other.  The diagnostics are left out. *)
From stdpp Require Import gmap.
From Stdlib Require Import SpecFloat.
From S2P Require Import Prelude Word Types Arena Routes Realign Deadline CycleRank CycleFilter Graph BellmanFord.
From S2P Require Import ActiveGraph CycleDfs.

(** [CycleFinderMode] of the configuration. *)
Inductive CycleFinderMode := ModeHybrid | ModeDfs | ModeBellmanFord.

(** What the thread keeps between searches, and the readings of the clock so far. *)
Record SearchThread := {
  th_dfs_scratch : DfsScratch;
  th_bf_scratch : BfScratch;
  th_local_ops : gmap nat Z;
  th_clock : nat;
}.

Section search.
Context (ln_f64 : f64 → f64) (now : nat → Z) (tid : nat) (cycle_key : list Edge → Z).

(** The largest quota of the passes. *)
Definition max_keep_of (passes : list CycleSearchPass) : nat := max_list (csp_max_cycles <$> passes).

Definition finalize_cycles (arena : StateArena) (cycles : list FoundCycle) (passes : list CycleSearchPass)
    (atomic_prefilter : bool) (probe_ctx : option ProbeContext) : outcome (list FoundCycle) :=
  let merged := dedupe_cycles_by_edges cycle_key cycles in
  let merged :=
    match probe_ctx ≫= pb_token_to_matic_rates with
    | Some rates => retain_cycles_with_priced_start_in rates (Some arena) cycle_key merged
    | None => merged
    end in
  let max_keep := max_keep_of passes in
  if atomic_prefilter then prefilter_cycles_by_atomic_sim_with_context_and_diag arena merged max_keep probe_ctx
  else
    Done (if (max_keep =? 0)%nat then []
          else if (max_keep <? length merged)%nat then take max_keep (sort_by compare_cycle_execution merged)
          else merged).

(** The depth-first search, on the arrays of the thread. *)
Definition run_dfs (arena : StateArena) (graph : RoutingGraph) (pool_metas : list PoolMeta) (prep : ActiveGraph)
    (passes : list CycleSearchPass) (enum_budget : Z) (th : SearchThread) : outcome (list FoundCycle * SearchThread) :=
  let! r :=
    find_cycles_multi_pass_with_prep_budget ln_f64 now tid graph arena (index_pool_metas pool_metas) prep cycle_key
      passes enum_budget (th_dfs_scratch th) (th_local_ops th) (th_clock th) in
  let '(cycles, st) := r in
  Done (cycles, {| th_dfs_scratch := sh_scratch st; th_bf_scratch := th_bf_scratch th;
                   th_local_ops := sg_local_ops (sh_budget st).1; th_clock := (sh_budget st).2 |}).

(** Bellman-Ford, on the arrays of the thread. *)
Definition run_bellman_ford (graph : RoutingGraph) (passes : list CycleSearchPass) (th : SearchThread)
    : list FoundCycle * SearchThread :=
  let '(cycles, scratch, k) :=
    find_cycles_bellman_ford_multi_pass_with_adj (build_weighted_adjacency graph) now passes (th_bf_scratch th) (th_clock th) in
  (cycles, {| th_dfs_scratch := th_dfs_scratch th; th_bf_scratch := scratch; th_local_ops := th_local_ops th;
              th_clock := k |}).

(** The passes of one of the searches of the hybrid mode. *)
Definition share_passes (share : nat * nat → nat) (hub_heavy : bool) (passes : list CycleSearchPass)
    : list CycleSearchPass :=
  (λ p, {| csp_max_hops := csp_max_hops p;
           csp_max_cycles := share (split_hybrid_budget (csp_max_cycles p) hub_heavy) |}) <$> passes.

Section mode.
Context (arena : StateArena) (graph : RoutingGraph) (pool_metas : list PoolMeta) (passes : list CycleSearchPass)
  (atomic_prefilter : bool) (probe_ctx : option ProbeContext) (enum_budget : Z)
  (extra_start_tokens : list TokenIndex) (exclusive_starts : bool) (first_hop_pools : list PoolIndex)
  (uni_or_pin_only : bool).

(** What the hybrid mode collects, before it is finalized. *)
Definition collect_hybrid (prep : ActiveGraph) (th : SearchThread) : outcome (list FoundCycle * SearchThread) :=
  let hub_heavy := ag_hub_heavy prep in
  let dfs_budget := share_passes fst hub_heavy passes in
  let bf_budget := share_passes snd hub_heavy passes in
  let bf_enabled :=
    (negb exclusive_starts && negb hub_heavy && existsb (λ p, (0 <? csp_max_cycles p)%nat) bf_budget)%bool in
  let! r := run_dfs arena graph pool_metas prep dfs_budget (hybrid_enum_budget enum_budget hub_heavy) th in
  let '(dfs_cycles, th) := r in
  let '(bf_cycles, th) := if bf_enabled then run_bellman_ford graph bf_budget th else ([], th) in
  Done (dfs_cycles ++ bf_cycles, th).

Definition collect_for_mode (mode : CycleFinderMode) (prep : ActiveGraph) (th : SearchThread)
    : outcome (list FoundCycle * SearchThread) :=
  match mode with
  | ModeHybrid => collect_hybrid prep th
  | ModeDfs => run_dfs arena graph pool_metas prep passes enum_budget th
  | ModeBellmanFord =>
      if ag_hub_heavy prep then run_dfs arena graph pool_metas prep passes enum_budget th
      else Done (run_bellman_ford graph passes th)
  end.

Definition find_cycles_for_mode_with_budget (mode : CycleFinderMode) (th : SearchThread)
    : outcome (list FoundCycle * SearchThread) :=
  if is_empty passes then Done ([], th)
  else
    let prep := prepare_search graph extra_start_tokens exclusive_starts first_hop_pools uni_or_pin_only in
    let! r := collect_for_mode mode prep th in
    let '(raw, th) := r in
    let! cycles := finalize_cycles arena raw passes atomic_prefilter probe_ctx in
    Done (cycles, th).
End mode.

Definition find_cycles_for_mode (mode : CycleFinderMode) (arena : StateArena) (graph : RoutingGraph)
    (pool_metas : list PoolMeta) (passes : list CycleSearchPass) (atomic_prefilter : bool)
    (probe_ctx : option ProbeContext) (th : SearchThread) : outcome (list FoundCycle * SearchThread) :=
  find_cycles_for_mode_with_budget arena graph pool_metas passes atomic_prefilter probe_ctx CYCLE_ENUM_TIME_BUDGET
    [] false [] false mode th.
End search.
