(* ===== verification/CycleSearchClaims.v ===== *)
(** * What a search returns, in every mode

    The theorems on the two searches, the deduplication, the rotation and the prefilter,
    put together: what a caller of [find_cycles_for_mode_with_budget] may rely on. *)
From stdpp Require Import gmap sorting relations.
From Corelib Require Import SpecFloat.
From S2P Require Import Prelude Word Types Arena Routes Realign TokenRates FlashLiquidity CycleRank SpotPrice Graph GraphEdges GraphOps GraphInv.
From S2P Require Import GraphSteps GraphClaims Deadline BellmanFord BellmanFordInv BellmanFordClaims ActiveGraph CycleDfs CycleDfsInv.
From S2P Require Import CycleDfsClaims CycleFilter CycleFilterClaims CycleSearch.

(** The arrays of the thread are clear. *)
Definition thread_clean (th : SearchThread) : Prop :=
  marks_clear (th_dfs_scratch th) ∧ scratch_clean (th_bf_scratch th).

Section search.
Context (ln_f64 : f64 → f64) (arena : StateArena) (g : RoutingGraph) (exclusive : bool) (pools : list PoolIndex).

(** The product of the prices of the hops, in the order of either search. *)
Definition product_of (rs : list Z) (p : Z) : Prop := p = walk_product rs ∨ p = ratio_product rs.

(** A closed walk from its start that clears its bar, unless the search was for observed
    pools and the walk uses one.  Its ratio is the product of the prices of its hops; the
    search walked them from the hop at [k] on. *)
Record sound_from (k : nat) (c : FoundCycle) : Prop := {
  so_simple : simple_cycle (fc_edges c);
  so_chained : chained (fc_edges c);
  so_start : token_in <$> head (fc_edges c) = Some (fc_start_token c);
  so_count : fc_hop_count c = Z.of_nat (length (fc_edges c));
  so_short : fc_hop_count c ≤ 8;
  so_priced : ∃ rs, Forall2 (hop_price ln_f64 arena g pools) (rotate_by k (fc_edges c)) rs ∧ product_of rs (fc_cycle_ratio c);
  so_bar : exclusive = false ∨ Forall (λ e, pool_index e ∉ pools) (fc_edges c) →
           ONE < fc_cycle_ratio c ∧ min_profitable_cycle_ratio (fc_hop_count c) ≤ fc_cycle_ratio c;
}.

Definition sound_cycle (c : FoundCycle) : Prop := ∃ k, sound_from k c.

(** A cycle as a search found it, rotated as [rotate_cycle_to_start] does, is sound. *)
Lemma rotated_sound c c' k : sound_from 0 c → (k < length (fc_edges c))%nat → fc_edges c' = rotate_by k (fc_edges c) →
  token_in <$> head (fc_edges c') = Some (fc_start_token c') → fc_hop_count c' = fc_hop_count c →
  fc_cycle_ratio c' = fc_cycle_ratio c → sound_cycle c'.
Proof.
  intros [H1 H2 H3 H4 H5 H6 H7] Hk He Hh Hc Hr. destruct (rotate_simple k _ H1 H2 Hk) as [R1 R2].
  exists (length (fc_edges c) - k)%nat.
  split; rewrite ?He, ?Hc, ?Hr; try done; [congruence|by rewrite length_rotate_by| |by rewrite rotate_by_perm].
  rewrite rotate_back by lia. by rewrite rotate_by_0 in H6.
Qed.

Lemma normalized_sound rates a c c' : sound_from 0 c → normalize_cycle_to_priced_start rates a c = Some c' →
  sound_cycle c' ∧ has_reliable_matic_rate (fc_start_token c') rates = true.
Proof.
  intros Hs. pose proof Hs as [H1 H2 H3 H4 H5 _ _]. unfold normalize_cycle_to_priced_start, best_priced_cycle_start.
  pose proof (best_start_ok rates a c) as Hb. destruct (best_start_loop _ _ _ _ _) as [[[rank i] t]|]; cbn; [|done].
  destruct Hb as (B1 & _ & B3 & _). destruct (Z.eqb_spec t (fc_start_token c)) as [->|_]; [intros [= <-]; split; [by exists 0%nat|done]|].
  destruct (rotate_cycle_spec c t H1 H2 B3) as (k & d & -> & E & Hk & Et & Eh & Ec & Er & _). intros [= <-].
  split; [|by rewrite Et]. eapply rotated_sound; [done..|congruence| |done].
  rewrite Ec, H4. unfold edge_hops. case_match; lia.
Qed.

Lemma submseteq_NoDup {A B} (f : A → B) (l k : list A) : l ⊆+ k → NoDup (f <$> k) → NoDup (f <$> l).
Proof.
  intros (r & Hr)%submseteq_Permutation H. rewrite Hr, fmap_app in H. by apply NoDup_app in H as [? _].
Qed.

Lemma dedupe_NoDup cycle_key cycles : NoDup (fc_edges <$> dedupe_cycles_by_edges cycle_key cycles).
Proof. apply dedupe_spec. Qed.

Lemma dedupe_Forall (P : FoundCycle → Prop) cycle_key cycles :
  Forall P cycles → Forall P (dedupe_cycles_by_edges cycle_key cycles).
Proof.
  rewrite !Forall_forall. intros H c Hc. apply H. destruct (dedupe_spec cycle_key cycles) as (_ & _ & Hin & _). by apply Hin.
Qed.

(** The start of a cycle has a reliable rate, when rates are given. *)
Definition priced_start (rates : option (gmap Z Z)) (c : FoundCycle) : Prop :=
  match rates with Some rates => rates = ∅ ∨ has_reliable_matic_rate (fc_start_token c) rates = true | None => True end.

Lemma retained_sound rates a cycle_key cycles : Forall (sound_from 0) cycles → NoDup (fc_edges <$> cycles) →
  let out := retain_cycles_with_priced_start_in rates a cycle_key cycles in
  Forall sound_cycle out ∧ NoDup (fc_edges <$> out) ∧ Forall (priced_start (Some rates)) out.
Proof.
  intros Hs Hnd. unfold retain_cycles_with_priced_start_in. cbv zeta. case_bool_decide as Hr.
  { split_and!; [eapply Forall_impl; [exact Hs|]; intros c Hc; by exists 0%nat|done|]. apply Forall_forall. intros c _. by left. }
  set (kept := omap _ cycles).
  assert (Forall (λ c, sound_cycle c ∧ priced_start (Some rates) c) kept) as Hk.
  { apply Forall_forall. intros c' (c & Hc & Hn)%list_elem_of_omap. rewrite Forall_forall in Hs.
    destruct (normalized_sound _ _ _ _ (Hs c Hc) Hn) as [? ?]. split; [done|by right]. }
  destruct (Nat.ltb_spec 1 (length kept)) as [Hl|Hl].
  - apply (dedupe_Forall _ cycle_key) in Hk. apply Forall_and in Hk as [K1 K2]. split_and!; [done|apply dedupe_NoDup|done].
  - apply Forall_and in Hk as [K1 K2]. split_and!; [done| |done].
    destruct kept as [|c [|]]; [constructor|apply NoDup_singleton|cbn in Hl; lia].
Qed.

(** The share of the prefilter beyond the quota. *)
Definition rescue_share (atomic : bool) (max_keep : nat) : nat := if atomic then graph_negative_rescue_cap max_keep else 0%nat.

Lemma finalized_sound cycle_key cycles passes atomic ctx out : Forall (sound_from 0) cycles →
  finalize_cycles cycle_key arena cycles passes atomic ctx = Done out →
  Forall sound_cycle out ∧ NoDup (fc_edges <$> out) ∧ Forall (priced_start (ctx ≫= pb_token_to_matic_rates)) out ∧
  (length out ≤ max_keep_of passes + rescue_share atomic (max_keep_of passes))%nat ∧
  (atomic = true → Forall (λ c, prefilter_admits arena c = true) out).
Proof.
  intros Hs. unfold finalize_cycles. set (merged := match _ with Some _ => _ | None => _ end).
  assert (Forall sound_cycle merged ∧ NoDup (fc_edges <$> merged) ∧ Forall (priced_start (ctx ≫= pb_token_to_matic_rates)) merged)
    as (M1 & M2 & M3).
  { unfold merged. destruct (ctx ≫= pb_token_to_matic_rates) as [rates|].
    - apply retained_sound; [by apply dedupe_Forall|apply dedupe_NoDup].
    - split_and!; [|apply dedupe_NoDup|by apply Forall_forall]. apply dedupe_Forall. eapply Forall_impl; [exact Hs|].
      intros c Hc. by exists 0%nat. }
  clearbody merged. unfold rescue_share. destruct atomic.
  - intros H. destruct (prefilter_part _ _ _ _ _ H) as [P1 P2].
    assert (out ⊆+ merged) as P3.
    { etrans; [exact P1|]. clear. induction merged as [|c l IH]; cbn; [done|].
      destruct (prefilter_admits arena c); [by apply submseteq_skip|by apply submseteq_cons]. }
    split_and!; try done.
    + rewrite Forall_forall in M1 |- *. intros c Hc. by apply M1, (elem_of_submseteq _ _ _ Hc).
    + by eapply submseteq_NoDup.
    + rewrite Forall_forall in M3 |- *. intros c Hc. by apply M3, (elem_of_submseteq _ _ _ Hc).
    + intros _. apply Forall_forall. intros c Hc. apply (elem_of_submseteq _ _ _ Hc), list_elem_of_In, filter_In in P1. by destruct P1.
  - intros [= <-]. destruct (Nat.eqb_spec (max_keep_of passes) 0); [split_and!; [constructor|constructor|constructor|cbn; lia|done]|].
    destruct (Nat.ltb_spec (max_keep_of passes) (length merged)) as [Hl|Hl]; [|split_and!; try done; lia].
    pose proof (sort_by_perm compare_cycle_execution merged) as Hp. rewrite <- Hp in M1, M2, M3.
    split_and!; [by apply Forall_take| |by apply Forall_take|rewrite length_take; lia|done].
    eapply submseteq_NoDup; [|exact M2]. apply sublist_submseteq, sublist_take.
Qed.
End search.

(** ** The searches *)

Lemma dfs_found_cycle_sound ln_f64 arena g extra exclusive pools uni passes c :
  let prep := prepare_search g extra exclusive pools uni in
  from_graph g (list_to_set pools) (ag_adjacency prep) → found_in ln_f64 arena prep passes c →
  sound_from ln_f64 arena g exclusive pools 0 c.
Proof.
  intros prep Hf (pass & _ & [F1 F2 F3 F4 F5 (hops & E & Ht & Hp) _ F8]). split; try done.
  - unfold HOP_CAP in F4. lia.
  - rewrite rotate_by_0, <- E. exists hops.*2. split; [by eapply hops_priced|left; by apply priced_product].
  - intros Hx. apply F8. by apply unpinned.
Qed.

Lemma bf_found_cycle_sound ln_f64 arena g exclusive pools c : struct_ok g →
  cycle_found (build_weighted_adjacency g) (Z.to_nat HOP_CAP) c → sound_from ln_f64 arena g exclusive pools 0 c.
Proof.
  intros Hok Hc. pose proof (hop_count_small _ _ _ Hc ltac:(done)) as Hw.
  destruct Hc as [F1 F2 F3 F4 F5 (wes & W1 & W2 & W3) [F7 F8] F9]. rewrite F5, Hw in *.
  destruct (live_route g wes W2) as (ges & G1 & G2 & G3). split; try done; rewrite ?F5, ?Hw; try done.
  - unfold HOP_CAP in F4. lia.
  - rewrite rotate_by_0, <- W1, <- G1. exists (ge_ratio <$> ges). split; [|right; by rewrite W3, route_ratio_product, G2].
    clear -G3. induction G3; constructor; [by apply live_hop|done].
Qed.

Section modes.
Context (ln_f64 : f64 → f64) (now : nat → Z) (tid : nat) (cycle_key : list Edge → Z).
Context (arena : StateArena) (g : RoutingGraph) (metas : list PoolMeta) (extra : list TokenIndex) (exclusive : bool)
  (pools : list PoolIndex) (uni : bool).
Context (Hreach : reachable ln_f64 g) (Hmetas : Forall (names_tokens arena) metas) (Hextra : nonneg extra).

Abbreviation prep := (prepare_search g extra exclusive pools uni).
Abbreviation sound := (sound_from ln_f64 arena g exclusive pools 0).

Lemma run_dfs_sound passes budget th cycles th' :
  Forall (λ p, 0 ≤ csp_max_hops p) passes → thread_clean th →
  run_dfs ln_f64 now tid cycle_key arena g metas prep passes budget th = Done (cycles, th') →
  Forall sound cycles ∧ thread_clean th'.
Proof using Hreach Hmetas Hextra.
  intros Hh [H1 H2]. unfold run_dfs. destruct (find_cycles_multi_pass_with_prep_budget _ _ _ _ _ _ _ _ _ _ _ _ _) as [[cs st]|] eqn:E; [|done].
  cbn [obind]. intros [= <- <-]. eapply dfs_search_found in E as (D1 & _ & Hf & D3); [|done..]. split; [|by split].
  eapply Forall_impl; [exact D3|]. intros c Hc. by eapply dfs_found_cycle_sound.
Qed.

Lemma run_bellman_ford_sound passes th : thread_clean th →
  Forall sound (run_bellman_ford now g passes th).1 ∧ thread_clean (run_bellman_ford now g passes th).2.
Proof using Hreach.
  intros [H1 H2]. destruct (reachable_ok ln_f64 g Hreach) as [Hok _]. unfold run_bellman_ford.
  pose proof (multi_pass_ok (build_weighted_adjacency g) now passes (th_bf_scratch th) (th_clock th)
                (weighted_adjacency_wf g Hok) H2) as H.
  destruct (find_cycles_bellman_ford_multi_pass_with_adj _ _ _ _ _) as [[cs scratch] k]. destruct H as (B1 & B2 & _).
  split; [|by split]. eapply Forall_impl; [exact B2|]. intros c Hc. by apply bf_found_cycle_sound.
Qed.

Lemma share_passes_hops share hub_heavy passes : Forall (λ p, 0 ≤ csp_max_hops p) passes →
  Forall (λ p, 0 ≤ csp_max_hops p) (share_passes share hub_heavy passes).
Proof. intros H. unfold share_passes. apply Forall_fmap. exact H. Qed.

Lemma collect_sound mode passes budget th cycles th' :
  Forall (λ p, 0 ≤ csp_max_hops p) passes → thread_clean th →
  collect_for_mode ln_f64 now tid cycle_key arena g metas passes budget exclusive mode prep th = Done (cycles, th') →
  Forall sound cycles ∧ thread_clean th'.
Proof using Hreach Hmetas Hextra.
  intros Hh Ht. destruct mode; cbn [collect_for_mode].
  - unfold collect_hybrid. destruct (run_dfs _ _ _ _ _ _ _ _ _ _ th) as [[dfs_cycles th1]|] eqn:E; [|done]. cbn [obind].
    apply run_dfs_sound in E as [D1 D2]; [|by apply share_passes_hops|done].
    destruct (_ && existsb _ _)%bool; [|by intros [= <- <-]; rewrite app_nil_r].
    destruct (run_bellman_ford_sound (share_passes snd (ag_hub_heavy prep) passes) th1 D2) as [B1 B2].
    destruct (run_bellman_ford _ _ _ _) as [bf_cycles th2]. intros [= <- <-]. split; [by apply Forall_app|done].
  - by apply run_dfs_sound.
  - destruct (ag_hub_heavy _); [by apply run_dfs_sound|]. intros [= H].
    destruct (run_bellman_ford_sound passes th Ht) as [B1 B2]. by rewrite H in B1, B2.
Qed.
End modes.

(** What the theorem below says, in lists. *)
Lemma mode_search_found ln_f64 now tid cycle_key arena g metas passes atomic ctx budget extra exclusive pools uni mode th out th' :
  reachable ln_f64 g → Forall (names_tokens arena) metas → nonneg extra → Forall (λ p, 0 ≤ csp_max_hops p) passes →
  thread_clean th →
  find_cycles_for_mode_with_budget ln_f64 now tid cycle_key arena g metas passes atomic ctx budget extra exclusive
    pools uni mode th = Done (out, th') →
  thread_clean th' ∧ Forall (sound_cycle ln_f64 arena g exclusive pools) out ∧ NoDup (fc_edges <$> out) ∧
  Forall (priced_start (ctx ≫= pb_token_to_matic_rates)) out ∧
  (length out ≤ max_keep_of passes + rescue_share atomic (max_keep_of passes))%nat ∧
  (atomic = true → Forall (λ c, prefilter_admits arena c = true) out).
Proof.
  intros Hr Hm He Hh Ht. unfold find_cycles_for_mode_with_budget. destruct (is_empty passes).
  { intros [= <- <-]. split_and!; [done|constructor..|cbn; lia|constructor]. }
  cbv zeta. destruct (collect_for_mode _ _ _ _ _ _ _ _ _ _ _ _ _) as [[raw th1]|] eqn:E; [|done]. cbn [obind].
  apply collect_sound in E as [C1 C2]; [|done..].
  destruct (finalize_cycles _ _ _ _ _ _) as [cycles|] eqn:F; [|done]. cbn [obind]. intros [= <- <-].
  apply (finalized_sound ln_f64 arena g exclusive pools) in F as (F1 & F2 & F3 & F4 & F5); done.
Qed.

(** C11: Whatever the mode, the observed pools and the prefilter, a search over a reachable graph
    returns sound cycles, each list of hops once, and no more than the largest quota and its share
    of rescues: closed walks from their start, no pool and no token twice, of at most eight hops,
    whose ratio is the product of the prices the graph gives their hops, above the bar for their
    length unless they use an observed pool.  Given rates, every start has a reliable one; given
    the prefilter, every cycle fits the executor and its protocols are those of the pool states.
    The arrays are left clear. *)
Theorem mode_search_sound ln_f64 now tid cycle_key arena g metas passes atomic ctx budget extra exclusive pools uni mode th out th' :
  reachable ln_f64 g → Forall (names_tokens arena) metas → nonneg extra → Forall (λ p, 0 ≤ csp_max_hops p) passes →
  thread_clean th →
  find_cycles_for_mode_with_budget ln_f64 now tid cycle_key arena g metas passes atomic ctx budget extra exclusive
    pools uni mode th = Done (out, th') →
  thread_clean th' ∧ NoDup (fc_edges <$> out) ∧
  (length out ≤ max_keep_of passes + if atomic then graph_negative_rescue_cap (max_keep_of passes) else 0)%nat ∧
  ∀ c, c ∈ out →
    sound_cycle ln_f64 arena g exclusive pools c ∧
    (∀ rates, ctx ≫= pb_token_to_matic_rates = Some rates → rates ≠ ∅ →
       has_reliable_matic_rate (fc_start_token c) rates = true) ∧
    (atomic = true → cycle_spot_negative c = true ∧ route_fits_executor (fc_edges c) = true ∧
       cycle_edges_match_arena_state arena (fc_edges c) = true).
Proof.
  intros Hr Hm He Hh Ht E. eapply mode_search_found in E as (C2 & F1 & F2 & F3 & F4 & F5); [|done..].
  split_and!; [done|done|exact F4|]. intros c Hc. rewrite Forall_forall in F1, F3. split_and!.
  - by apply F1.
  - intros rates Hrates Hne. specialize (F3 c Hc). rewrite Hrates in F3. by destruct F3.
  - intros Ha. specialize (F5 Ha). rewrite Forall_forall in F5. specialize (F5 c Hc). unfold prefilter_admits in F5.
    destruct (cycle_spot_negative c); [|done]. destruct (is_fully_simulable_route _); [|done].
    by destruct (route_fits_executor _).
Qed.

(** ** Witness *)

Definition demo_thread : SearchThread :=
  {| th_dfs_scratch := no_marks; th_bf_scratch := no_scratch; th_local_ops := ∅; th_clock := 0 |}.

(** The rate of the second token of the triangle, and a gas price. *)
Definition demo_rates3 : gmap Z Z := {[1 := 10 ^ 18]}.

Definition demo_probe : ProbeContext :=
  {| pb_token_to_matic_rates := Some demo_rates3; pb_token_decimals := None; pb_gas_price_wei := Some (10 ^ 9) |}.

Abbreviation demo_search :=
  (find_cycles_for_mode_with_budget (λ x, x) (λ _, 0) 0 (λ l, Z.of_nat (length l)) demo_triangle demo_rescored_graph
     demo_dfs_metas demo_passes true (Some demo_probe) 100 [] false [] false ModeHybrid demo_thread).

(** Both searches find the triangle, from each of its tokens; what is returned is the one
    cycle that starts at the priced token. *)
Lemma mode_search_sound_witness :
  (match demo_search with Done (out, _) => fc_start_token <$> out | Panic => [] end) = [1] ∧
  ∀ out th, demo_search = Done (out, th) → ∀ c, c ∈ out →
    has_reliable_matic_rate (fc_start_token c) demo_rates3 = true.
Proof.
  split; [vm_compute; reflexivity|]. intros out th Hr c Hc.
  destruct (mode_search_sound (λ x, x) (λ _, 0) 0 (λ l, Z.of_nat (length l)) demo_triangle demo_rescored_graph demo_dfs_metas
    demo_passes true (Some demo_probe) 100 [] false [] false ModeHybrid demo_thread out th demo_reachable demo_dfs_names)
    as (_ & _ & _ & H); [constructor|repeat constructor; cbn; lia|split; [exact no_marks_clear|exact no_scratch_clean]|exact Hr|].
  destruct (H c Hc) as (_ & Hp & _). apply (Hp demo_rates3); [reflexivity|discriminate].
Defined.
