(* ===== verification/StateCache.v ===== *)
(** * The cache of pool states

    [src/src/services/state_cache.rs]: the states of pools as the streams and the refresh
    write them, with the time and the revision of each, and the addresses touched since the
    graph last asked.  A read is one step under the read lock.  A write is several: what it
    does under the write lock, and then, with the lock released, the dirty marks (and, for a
    removal, the generation before them); [patch_pool], [cache_insert] and [cache_remove] are
    the calls with nothing between their steps, and [cache_step] interleaves the steps of
    any number of them with drains of the dirty set.  The clock is an argument; the order in
    which the hash map lists its entries, which picks the victims of an eviction, is a
    parameter. *)
From stdpp Require Import gmap sorting strings relations.
From S2P Require Import Prelude Word Types Dodo.

Definition DEFAULT_MAX_ENTRIES : nat := Z.to_nat 50000.
Definition DEFAULT_INVALID_RETRY_TTL : Z := 120000.
Definition DEFAULT_STALE_TRADABLE_TTL : Z := 300000.

Record CachedEntry := { ce_state : PoolState; ce_updated_at : Z; ce_revision : Z }.

Record StateCache := {
  sc_inner : gmap Z CachedEntry;
  sc_max_entries : nat;
  sc_ttl : Z;
  sc_invalid_retry_ttl : Z;
  sc_stale_tradable_ttl : Z;
  sc_generation : Z;
  sc_dirty : gset Z;
}.

Definition cache_new (max_entries : nat) (ttl : Z) : StateCache :=
  {| sc_inner := ∅; sc_max_entries := max_entries; sc_ttl := ttl;
     sc_invalid_retry_ttl := DEFAULT_INVALID_RETRY_TTL; sc_stale_tradable_ttl := DEFAULT_STALE_TRADABLE_TTL;
     sc_generation := 0; sc_dirty := ∅ |}.

Definition with_ttls (self : StateCache) (invalid_retry stale_tradable : Z) : StateCache :=
  {| sc_inner := sc_inner self; sc_max_entries := sc_max_entries self; sc_ttl := sc_ttl self;
     sc_invalid_retry_ttl := invalid_retry; sc_stale_tradable_ttl := stale_tradable;
     sc_generation := sc_generation self; sc_dirty := sc_dirty self |}.

(** The map, the generation and the dirty set after a write. *)
Definition set_cache (self : StateCache) (inner : gmap Z CachedEntry) (generation : Z) (dirty : gset Z) : StateCache :=
  {| sc_inner := inner; sc_max_entries := sc_max_entries self; sc_ttl := sc_ttl self;
     sc_invalid_retry_ttl := sc_invalid_retry_ttl self; sc_stale_tradable_ttl := sc_stale_tradable_ttl self;
     sc_generation := generation; sc_dirty := dirty |}.

(** [generation.fetch_add(1, ..)]: the counter after it. *)
Definition next_counter (generation : Z) : Z := wrap_u 64 (generation + 1).

(** The revision of the entry: the old counter plus one, saturating. *)
Definition next_revision (generation : Z) : Z := Z.min (generation + 1) (2 ^ 64 - 1).

(** [mark_dirty] *)
Definition mark_dirty (self : StateCache) (address : Address) : StateCache :=
  set_cache self (sc_inner self) (sc_generation self) ({[address]} ∪ sc_dirty self).

(** The drained set, in the order of [elements]. *)
Definition take_dirty_pool_indices (address_to_pool : gmap Z PoolIndex) (self : StateCache)
    : list PoolIndex * StateCache :=
  (omap (λ addr, address_to_pool !! addr) (elements (sc_dirty self)),
   set_cache self (sc_inner self) (sc_generation self) ∅).

Definition generation (self : StateCache) : Z := sc_generation self.

Section reads.
Context (now : Z).

(** [updated_at.elapsed()] *)
Definition elapsed (entry : CachedEntry) : Z := Z.max 0 (now - ce_updated_at entry).

Definition lookup_pool_state (self : StateCache) (address : Address) : option PoolState :=
  let? entry := sc_inner self !! address in
  if elapsed entry <=? sc_ttl self then Some (ce_state entry) else None.

Definition cache_contains (self : StateCache) (address : Address) : bool :=
  match lookup_pool_state self address with Some _ => true | None => false end.

Definition count_tradable (self : StateCache) (addresses : list Address) : nat :=
  length (List.filter (λ addr,
    match sc_inner self !! addr with
    | Some entry => (elapsed entry <=? sc_ttl self) && is_tradable (ce_state entry)
    | None => false
    end%bool) addresses).

(** A coherent read: the states of one moment, and the generation then. *)
Definition get_arcs_with_generation (self : StateCache) (addresses : list Address)
    : list (Address * PoolState * Z) * Z :=
  (omap (λ address,
     let? entry := sc_inner self !! address in
     if elapsed entry <=? sc_ttl self then Some (address, ce_state entry, ce_revision entry) else None) addresses,
   sc_generation self).

Definition is_fresh_within (self : StateCache) (address : Address) (max_age : Z) : bool :=
  match sc_inner self !! address with
  | Some entry =>
      if negb (is_tradable (ce_state entry)) then false
      else ((elapsed entry <=? max_age) && (elapsed entry <=? sc_ttl self))%bool
  | None => false
  end.

(** Missing, untradable or too old. *)
Definition is_stale (self : StateCache) (max_age : Z) (address : Address) : bool :=
  match sc_inner self !! address with
  | Some entry =>
      if negb (is_tradable (ce_state entry)) then true
      else ((max_age <? elapsed entry) || (sc_ttl self <? elapsed entry))%bool
  | None => true
  end.

Definition stale_addresses_within (self : StateCache) (addresses : list Address) (max_age : Z) (limit : nat)
    : list Address :=
  if (limit =? 0)%nat then [] else take limit (List.filter (is_stale self max_age) addresses).

Definition missing_addresses (self : StateCache) (addresses : list Address) : gset Z :=
  list_to_set (List.filter (λ address, match sc_inner self !! address with Some _ => false | None => true end) addresses).

Definition pool_past_invalid_retry_entry (self : StateCache) (entry : CachedEntry) : bool :=
  if is_tradable (ce_state entry) then false
  else if sc_ttl self <? elapsed entry then false
  else sc_invalid_retry_ttl self <? elapsed entry.

(** [pools] are the addresses of the discovered pools. *)
Definition pools_past_invalid_retry (self : StateCache) (pools : list Address) : list Address :=
  List.filter (λ address, match sc_inner self !! address with
                          | Some entry => pool_past_invalid_retry_entry self entry
                          | None => false end) pools.

Definition fetch_class_for_entry (self : StateCache) (entry : CachedEntry) : option Z :=
  if is_tradable (ce_state entry) then
    if sc_stale_tradable_ttl self <? elapsed entry then Some 3 else None
  else if sc_invalid_retry_ttl self <? elapsed entry then Some 2
  else None.

Definition needs_fetch (self : StateCache) (address : Address) : bool :=
  match sc_inner self !! address with
  | None => true
  | Some entry => match fetch_class_for_entry self entry with Some _ => true | None => false end
  end.

(** What [for_each_fetch_candidate] calls its function with. *)
Definition fetch_candidates (self : StateCache) (pools : list Address) : list (Address * Z) :=
  omap (λ address,
    match sc_inner self !! address with
    | None => Some (address, 1)
    | Some entry => let? class := fetch_class_for_entry self entry in Some (address, class)
    end) pools.

(** Never fetched, invalid long enough to try again, stale. *)
Inductive FetchClass := NeverFetched | InvalidRetry | StaleTradable.
#[export] Instance FetchClass_eq_dec : EqDecision FetchClass.
Proof. solve_decision. Defined.

Definition fetch_class_of (self : StateCache) (addr : Address) : option FetchClass :=
  match sc_inner self !! addr with
  | None => Some NeverFetched
  | Some entry =>
      if sc_ttl self <? elapsed entry then Some StaleTradable
      else if is_tradable (ce_state entry) then
        if sc_stale_tradable_ttl self <? elapsed entry then Some StaleTradable else None
      else if sc_invalid_retry_ttl self <? elapsed entry then Some InvalidRetry
      else None
  end.

Definition classify_for_fetch (self : StateCache) (addresses : list Address)
    : list Address * list Address * list Address :=
  let of_class k := filter (λ addr, fetch_class_of self addr = Some k) addresses in
  (of_class NeverFetched, of_class InvalidRetry, of_class StaleTradable).
End reads.

(** ** Writes *)

(** The marks at the end of a write, with the lock released. *)
Definition mark_all (marks : list Address) (self : StateCache) : StateCache := fold_left mark_dirty marks self.

(** What [patch_pool] does under the write lock: what it returns, the addresses it will mark and
    the cache.  [f] gives the state it leaves and whether it says to store it. *)
Definition patch_section (now : Z) (self : StateCache) (address : Address) (f : PoolState → PoolState * bool)
    : bool * list Address * StateCache :=
  match sc_inner self !! address with
  | None => (false, [], self)
  | Some entry =>
      let '(state, stored) := f (ce_state entry) in
      if negb stored then
        (true, [],
         set_cache self
           (<[address := {| ce_state := state; ce_updated_at := ce_updated_at entry; ce_revision := ce_revision entry |}]>
              (sc_inner self)) (sc_generation self) (sc_dirty self))
      else
        (true, [address],
         set_cache self
           (<[address := {| ce_state := state; ce_updated_at := now; ce_revision := next_revision (sc_generation self) |}]>
              (sc_inner self)) (next_counter (sc_generation self)) (sc_dirty self))
  end.

Definition patch_pool (now : Z) (self : StateCache) (address : Address) (f : PoolState → PoolState * bool)
    : bool * StateCache :=
  let '(found, marks, self) := patch_section now self address f in (found, mark_all marks self).

(** The older entry, or the smaller address when they are equally old. *)
Definition eviction_tier_candidate (best : option (Address * Z)) (addr : Address) (updated_at : Z)
    : option (Address * Z) :=
  match best with
  | None => Some (addr, updated_at)
  | Some (best_addr, best_at) =>
      if updated_at <? best_at then Some (addr, updated_at)
      else if ((updated_at =? best_at) && (addr <? best_addr))%bool then Some (addr, updated_at)
      else best
  end.

Definition EVICTION_SAMPLE : nat := 64.

(** The best candidates of the four tiers. *)
Record Tiers := {
  ti_expired : option (Address * Z);
  ti_invalid : option (Address * Z);
  ti_untradable : option (Address * Z);
  ti_tradable : option (Address * Z);
}.

Definition tier_step (now ttl : Z) (t : Tiers) '((addr, entry) : Address * CachedEntry) : Tiers :=
  let candidate best := eviction_tier_candidate best addr (ce_updated_at entry) in
  if ttl <? elapsed now entry then
    {| ti_expired := candidate (ti_expired t); ti_invalid := ti_invalid t;
       ti_untradable := ti_untradable t; ti_tradable := ti_tradable t |}
  else if match ce_state entry with PInvalid => true | _ => false end then
    {| ti_expired := ti_expired t; ti_invalid := candidate (ti_invalid t);
       ti_untradable := ti_untradable t; ti_tradable := ti_tradable t |}
  else if negb (is_tradable (ce_state entry)) then
    {| ti_expired := ti_expired t; ti_invalid := ti_invalid t;
       ti_untradable := candidate (ti_untradable t); ti_tradable := ti_tradable t |}
  else
    {| ti_expired := ti_expired t; ti_invalid := ti_invalid t;
       ti_untradable := ti_untradable t; ti_tradable := candidate (ti_tradable t) |}.

Definition or_else {A} (a b : option A) : option A := match a with Some _ => a | None => b end.

(** [listed] is the map in the order its iterator gives. *)
Definition pick_eviction_victim (now ttl : Z) (listed : list (Address * CachedEntry)) : option Address :=
  let t := fold_left (tier_step now ttl) (take EVICTION_SAMPLE listed)
             {| ti_expired := None; ti_invalid := None; ti_untradable := None; ti_tradable := None |} in
  fst <$> or_else (or_else (or_else (ti_expired t) (ti_invalid t)) (ti_untradable t)) (ti_tradable t).

Definition woofi_base_level_eq (a b : WoofiBaseTokenState) : bool :=
  ((wb_reserve a =? wb_reserve b) && (wb_price a =? wb_price b))%bool.

Definition pool_state_price_level_eq (a b : PoolState) : bool :=
  match a, b with
  | PV2 x, PV2 y =>
      ((v2_reserve0 x =? v2_reserve0 y) && (v2_reserve1 x =? v2_reserve1 y)
       && (v2_fee x =? v2_fee y) && (v2_fee_denominator x =? v2_fee_denominator y))%bool
  | PV3 x, PV3 y | PV4 x, PV4 y =>
      ((cl_sqrt_price_x96 x =? cl_sqrt_price_x96 y) && (cl_liquidity x =? cl_liquidity y)
       && (cl_tick x =? cl_tick y) && (cl_fee x =? cl_fee y))%bool
  | PInvalid, PInvalid => true
  | PDodo x, PDodo y =>
      ((dd_base_reserve x =? dd_base_reserve y) && (dd_quote_reserve x =? dd_quote_reserve y)
       && (dd_i x =? dd_i y) && (dd_k x =? dd_k y))%bool
  | PCurve x, PCurve y =>
      (bool_decide (cv_balances x = cv_balances y) && (cv_a x =? cv_a y)
       && (cv_fee x =? cv_fee y) && bool_decide (cv_d x = cv_d y))%bool
  | PBalancer x, PBalancer y =>
      (bool_decide (bl_balances x = bl_balances y) && bool_decide (bl_weights x = bl_weights y)
       && (bl_fee x =? bl_fee y))%bool
  | PWoofi x, PWoofi y =>
      ((wf_quote_reserve x =? wf_quote_reserve y) && (wf_fee x =? wf_fee y)
       && (length (wf_base_states x) =? length (wf_base_states y))%nat
       && forallb (λ ab : WoofiBaseTokenState * WoofiBaseTokenState, woofi_base_level_eq ab.1 ab.2)
            (zip (wf_base_states x) (wf_base_states y)))%bool
  | _, _ => false
  end.

(** [matches!(.., (V3, V3) | (V4, V4))] *)
Definition both_cl (a b : PoolState) : bool :=
  match a, b with PV3 _, PV3 _ | PV4 _, PV4 _ => true | _, _ => false end.

Section insert.
Context (iter : gmap Z CachedEntry → list (Z * CachedEntry)).

(** What [insert] does under the write lock: the addresses it will mark, the evicted one
    first, and the cache. *)
Definition insert_section (now : Z) (self : StateCache) (address : Address) (state : PoolState)
    : list Address * StateCache :=
  if (sc_max_entries self =? 0)%nat then ([], self)
  else
    let store victim inner :=
      (match victim with Some v => [v] | None => [] end ++ [address],
       set_cache self
         (<[address := {| ce_state := state; ce_updated_at := now;
                          ce_revision := next_revision (sc_generation self) |}]> inner)
         (next_counter (sc_generation self)) (sc_dirty self)) in
    match sc_inner self !! address with
    | Some existing =>
        if pool_state_price_level_eq (ce_state existing) state then
          ([],
           set_cache self
             (<[address := {| ce_state := if both_cl (ce_state existing) state then ce_state existing else state;
                              ce_updated_at := now; ce_revision := ce_revision existing |}]> (sc_inner self))
             (sc_generation self) (sc_dirty self))
        else store None (sc_inner self)
    | None =>
        let victim :=
          if (sc_max_entries self <=? size (sc_inner self))%nat
          then pick_eviction_victim now (sc_ttl self) (iter (sc_inner self)) else None in
        store victim (match victim with Some v => delete v (sc_inner self) | None => sc_inner self end)
    end.

Definition cache_insert (now : Z) (self : StateCache) (address : Address) (state : PoolState) : StateCache :=
  let '(marks, self) := insert_section now self address state in mark_all marks self.
End insert.

(** The three steps of [remove]: the entry, under the write lock; the generation; the mark. *)
Definition remove_section (self : StateCache) (address : Address) : bool * StateCache :=
  match sc_inner self !! address with
  | Some _ => (true, set_cache self (delete address (sc_inner self)) (sc_generation self) (sc_dirty self))
  | None => (false, self)
  end.

Definition bump_generation (self : StateCache) : StateCache :=
  set_cache self (sc_inner self) (next_counter (sc_generation self)) (sc_dirty self).

Definition cache_remove (self : StateCache) (address : Address) : bool * StateCache :=
  let '(removed, self) := remove_section self address in
  (removed, if removed then mark_dirty (bump_generation self) address else self).

(** ** Writers at work *)

(** What a writer that has released the write lock has still to do. *)
Inductive Pending :=
| ToBump (address : Address)
| ToMark (marks : list Address).

(** The cache, the writers between two of their steps, and what the drains have handed out. *)
Record Shared := {
  sh_cache : StateCache;
  sh_pending : list Pending;
  sh_reported : gset Z;
}.

Definition with_writers (cache : StateCache) (pending : list Pending) (sh : Shared) : Shared :=
  {| sh_cache := cache; sh_pending := pending; sh_reported := sh_reported sh |}.

(** One step of one thread: the locked section of a write, the next step of a writer that is
    under way, or a drain.  The counter is below its last value, and a patch that says it
    stored nothing left the state as it was. *)
Inductive cache_step (iter : gmap Z CachedEntry → list (Z * CachedEntry)) : Shared → Shared → Prop :=
| step_insert sh now address state :
    sc_generation (sh_cache sh) < 2 ^ 64 - 1 →
    let r := insert_section iter now (sh_cache sh) address state in
    cache_step iter sh (with_writers r.2 (ToMark r.1 :: sh_pending sh) sh)
| step_patch sh now address f :
    sc_generation (sh_cache sh) < 2 ^ 64 - 1 → (∀ x, (f x).2 = false → (f x).1 = x) →
    let r := patch_section now (sh_cache sh) address f in
    cache_step iter sh (with_writers r.2 (ToMark r.1.2 :: sh_pending sh) sh)
| step_remove sh address :
    let r := remove_section (sh_cache sh) address in
    cache_step iter sh (with_writers r.2 ((if r.1 then [ToBump address] else []) ++ sh_pending sh) sh)
| step_bump sh address before after :
    sc_generation (sh_cache sh) < 2 ^ 64 - 1 → sh_pending sh = before ++ ToBump address :: after →
    cache_step iter sh (with_writers (bump_generation (sh_cache sh)) (before ++ ToMark [address] :: after) sh)
| step_mark sh address marks before after :
    sh_pending sh = before ++ ToMark (address :: marks) :: after →
    cache_step iter sh (with_writers (mark_dirty (sh_cache sh) address) (before ++ ToMark marks :: after) sh)
| step_done sh before after :
    sh_pending sh = before ++ ToMark [] :: after →
    cache_step iter sh (with_writers (sh_cache sh) (before ++ after) sh)
| step_drain sh address_to_pool :
    cache_step iter sh
      {| sh_cache := (take_dirty_pool_indices address_to_pool (sh_cache sh)).2; sh_pending := sh_pending sh;
         sh_reported := sc_dirty (sh_cache sh) ∪ sh_reported sh |}.

(** The addresses that a drain has handed out, that the next one will, or that a writer is still
    about to mark. *)
Definition to_mark (p : Pending) : gset Z :=
  match p with ToBump address => {[address]} | ToMark marks => list_to_set marks end.

Definition known (sh : Shared) : gset Z :=
  sh_reported sh ∪ sc_dirty (sh_cache sh) ∪ ⋃ (to_mark <$> sh_pending sh).

(** ** The price level is an equivalence *)

Lemma level_eq_refl s : pool_state_price_level_eq s s = true.
Proof.
  destruct s; cbn; rewrite ?Z.eqb_refl, ?Nat.eqb_refl, ?bool_decide_true by done; try done. cbn.
  induction (wf_base_states s) as [|b l IH]; cbn; [done|]. unfold woofi_base_level_eq at 1. cbn. by rewrite !Z.eqb_refl.
Qed.

Lemma woofi_levels_trans (x y z : list WoofiBaseTokenState) : length x = length y → length y = length z →
  forallb (λ ab : WoofiBaseTokenState * WoofiBaseTokenState, woofi_base_level_eq ab.1 ab.2) (zip x y) = true →
  forallb (λ ab : WoofiBaseTokenState * WoofiBaseTokenState, woofi_base_level_eq ab.1 ab.2) (zip y z) = true →
  forallb (λ ab : WoofiBaseTokenState * WoofiBaseTokenState, woofi_base_level_eq ab.1 ab.2) (zip x z) = true.
Proof.
  revert y z. induction x as [|a x IH]; intros [|b y] [|c z]; cbn; try done. intros [= H1] [= H2].
  unfold woofi_base_level_eq at 1 3 5. cbn. rewrite !andb_true_iff, !Z.eqb_eq. intros [[] ?] [[] ?].
  split; [split; congruence|by eapply IH].
Qed.

Lemma level_eq_trans a b c : pool_state_price_level_eq a b = true → pool_state_price_level_eq b c = true →
  pool_state_price_level_eq a c = true.
Proof.
  destruct a, b; cbn; try done; destruct c; cbn; try done;
    rewrite ?andb_true_iff, ?Z.eqb_eq, ?Nat.eqb_eq, ?bool_decide_eq_true.
  1-6: intros; destruct_and!; split_and!; congruence.
  intros; destruct_and!. split_and!; [congruence..|by eapply woofi_levels_trans].
Qed.

(** ** The invariant *)

Section invariant.
Context (iter : gmap Z CachedEntry → list (Z * CachedEntry)) (Hiter : ∀ m, iter m ≡ₚ map_to_list m).

Record cache_wf (s : StateCache) : Prop := {
  cw_size : (size (sc_inner s) ≤ sc_max_entries s)%nat;
  cw_generation : 0 ≤ sc_generation s < 2 ^ 64;
  cw_revision : ∀ a e, sc_inner s !! a = Some e → 0 < ce_revision e ≤ sc_generation s;
  cw_distinct : ∀ a b e f, sc_inner s !! a = Some e → sc_inner s !! b = Some f → ce_revision e = ce_revision f → a = b;
}.

(** What a write does to the entry of an address: nothing that shows, or a new revision. *)
Definition same_level (o o' : option CachedEntry) : Prop :=
  match o, o' with
  | Some e, Some e' => ce_revision e' = ce_revision e ∧ pool_state_price_level_eq (ce_state e) (ce_state e') = true
  | None, None => True
  | _, _ => False
  end.

Lemma same_level_refl o : same_level o o.
Proof. destruct o; cbn; [|done]. split; [done|apply level_eq_refl]. Qed.

Lemma same_level_trans o p q : same_level o p → same_level p q → same_level o q.
Proof.
  destruct o, p, q; cbn; try done. intros [H1 H2] [H3 H4]. split; [congruence|by eapply level_eq_trans].
Qed.

Lemma tier_candidate_in best addr t (listed : list Address) : (∀ x, best = Some x → x.1 ∈ listed) → addr ∈ listed →
  ∀ x, eviction_tier_candidate best addr t = Some x → x.1 ∈ listed.
Proof.
  intros Hb Ha x. destruct best as [[b bt]|]; cbn; [|by intros [= <-]].
  destruct (t <? bt); [by intros [= <-]|]. destruct (_ && _)%bool; [by intros [= <-]|]. apply Hb.
Qed.

Definition tiers_in (listed : list Address) (t : Tiers) : Prop :=
  ∀ x, ti_expired t = Some x ∨ ti_invalid t = Some x ∨ ti_untradable t = Some x ∨ ti_tradable t = Some x → x.1 ∈ listed.

Lemma tier_step_in now ttl listed t x : tiers_in listed t → x.1 ∈ listed → tiers_in listed (tier_step now ttl t x).
Proof.
  intros Ht Hx. destruct x as [addr entry]. cbn in Hx. unfold tier_step.
  repeat case_match; intros y; cbn; intros [Hy|[Hy|[Hy|Hy]]];
    first [by eapply Ht; eauto | eapply tier_candidate_in; [|exact Hx|exact Hy]; intros z Hz; apply Ht; eauto].
Qed.

(** Some tier has a candidate once an entry was seen. *)
Definition tier_found (t : Tiers) : Prop :=
  is_Some (or_else (or_else (or_else (ti_expired t) (ti_invalid t)) (ti_untradable t)) (ti_tradable t)).

Lemma candidate_some best addr t : is_Some (eviction_tier_candidate best addr t).
Proof. destruct best as [[b bt]|]; cbn; [|by eexists]. repeat case_match; by eexists. Qed.

Lemma tier_step_found now ttl t x : tier_found (tier_step now ttl t x).
Proof.
  destruct x as [addr entry]. unfold tier_step, tier_found. repeat case_match; cbn.
  all: match goal with |- context [eviction_tier_candidate ?b ?a ?u] => destruct (candidate_some b a u) as [y ->] end.
  all: destruct (ti_expired t), (ti_invalid t), (ti_untradable t); cbn; by eexists.
Qed.

(** A map with an entry has a victim, one of its addresses. *)
Lemma victim_spec now ttl m : m ≠ ∅ → ∃ v, pick_eviction_victim now ttl (iter m) = Some v ∧ is_Some (m !! v).
Proof using Hiter.
  intros Hm. unfold pick_eviction_victim. set (l := take EVICTION_SAMPLE (iter m)). set (t0 := Build_Tiers _ _ _ _).
  assert (l ≠ []) as Hl.
  { destruct (iter m) as [|x r] eqn:E; [|done]. exfalso. apply Hm, map_to_list_empty_iff. apply Permutation_nil.
    rewrite <- (Hiter m), E. done. }
  assert (tiers_in l.*1 (fold_left (tier_step now ttl) l t0)) as Hin.
  { apply (fold_left_inv (tiers_in l.*1)); [by intros x; cbn; intros [|[|[|]]]|].
    intros t x Hx Ht. apply tier_step_in; [done|]. apply list_elem_of_fmap. by exists x. }
  assert (tier_found (fold_left (tier_step now ttl) l t0)) as Hf.
  { destruct l as [|x l _] using rev_ind; [done|]. rewrite fold_left_app. apply tier_step_found. }
  destruct Hf as [[v u] Hv]. rewrite Hv. exists v. split; [done|].
  assert (v ∈ l.*1) as Hvl.
  { apply (Hin (v, u)). revert Hv. destruct (ti_expired _), (ti_invalid _), (ti_untradable _); cbn; naive_solver. }
  apply list_elem_of_fmap in Hvl as ([v' e] & -> & Hve). unfold l in Hve.
  apply elem_of_take in Hve as (i & Hi & _). apply list_elem_of_lookup_2 in Hi. rewrite (Hiter m) in Hi.
  apply elem_of_map_to_list in Hi. by exists e.
Qed.
(** What a later cache remembers of an earlier one, with the addresses known to have changed. *)
Record tracks (s : StateCache) (k : gset Z) (s' : StateCache) (k' : gset Z) : Prop := {
  tr_max : sc_max_entries s' = sc_max_entries s;
  tr_generation : sc_generation s ≤ sc_generation s';
  tr_known : k ⊆ k';
  tr_clean : ∀ a, a ∉ k' → same_level (sc_inner s !! a) (sc_inner s' !! a);
  tr_new : ∀ a e, sc_inner s' !! a = Some e → sc_generation s < ce_revision e ∨ same_level (sc_inner s !! a) (Some e);
}.

Lemma tracks_trans s k s' k' s'' k'' : tracks s k s' k' → tracks s' k' s'' k'' → tracks s k s'' k''.
Proof.
  intros [M1 G1 D1 C1 N1] [M2 G2 D2 C2 N2]. split; [congruence|lia|by etrans| |].
  - intros a Ha. eapply same_level_trans; [apply C1; set_solver|by apply C2].
  - intros a e He. destruct (N2 a e He) as [|Hs]; [left; lia|]. destruct (sc_inner s' !! a) as [e'|] eqn:E; [|done].
    destruct (N1 a e' E) as [Hn|Hs']; [left; cbn in Hs; lia|right; by eapply same_level_trans].
Qed.

(** A step that leaves the entries as they are. *)
Lemma quiet_ok s k generation dirty k' : cache_wf s → sc_generation s ≤ generation < 2 ^ 64 → k ⊆ k' →
  let s' := set_cache s (sc_inner s) generation dirty in cache_wf s' ∧ tracks s k s' k'.
Proof.
  intros [W1 W2 W3 W4] Hg Hk. split; split; cbn; try done; try lia.
  - intros a e He. apply W3 in He. lia.
  - intros a _. apply same_level_refl.
  - intros a e ->. right. apply same_level_refl.
Qed.

Lemma same_ok s k k' : cache_wf s → k ⊆ k' → cache_wf s ∧ tracks s k s k'.
Proof.
  intros Hw Hk. split; [done|]. split; try done.
  - intros a _. apply same_level_refl.
  - intros a e ->. right. apply same_level_refl.
Qed.

(** An entry written again at its level. *)
Lemma touch_ok s k k' a e e' : cache_wf s → sc_inner s !! a = Some e → same_level (Some e) (Some e') → k ⊆ k' →
  let s' := set_cache s (<[a := e']> (sc_inner s)) (sc_generation s) (sc_dirty s) in cache_wf s' ∧ tracks s k s' k'.
Proof.
  intros [W1 W2 W3 W4] He Hs Hk s'. pose proof Hs as [Hr _].
  assert (∀ b f, sc_inner s' !! b = Some f → ∃ f0, sc_inner s !! b = Some f0 ∧ same_level (Some f0) (Some f)) as Hb.
  { intros b f Hf. cbn in Hf. apply lookup_insert_Some in Hf as [[<- <-]|[_ Hf]]; eexists; (split; [done|]); [done|apply same_level_refl]. }
  split; split; cbn; try done.
  - by rewrite map_size_insert_Some.
  - intros b f Hf. destruct (Hb b f Hf) as (f0 & Hf0 & -> & _). by eapply W3.
  - intros b c f h Hf Hh Hfh. destruct (Hb _ _ Hf) as (f0 & Hf0 & E1 & _), (Hb _ _ Hh) as (h0 & Hh0 & E2 & _).
    eapply W4; [done..|congruence].
  - intros b _. destruct (decide (a = b)) as [<-|Hne]; [by rewrite lookup_insert_eq, He|].
    rewrite lookup_insert_ne by done. apply same_level_refl.
  - intros b f Hf. right. destruct (Hb b f Hf) as (f0 & -> & H). done.
Qed.

(** An entry dropped. *)
Lemma drop_ok s k k' a : cache_wf s → k ⊆ k' → a ∈ k' →
  let s' := set_cache s (delete a (sc_inner s)) (sc_generation s) (sc_dirty s) in cache_wf s' ∧ tracks s k s' k'.
Proof.
  intros [W1 W2 W3 W4] Hk Ha. split; split; cbn; try done.
  - rewrite map_size_delete. case_match; cbn; lia.
  - intros b f [_ Hf]%lookup_delete_Some. by eapply W3.
  - intros b c f h [_ Hf]%lookup_delete_Some [_ Hh]%lookup_delete_Some. by eapply W4.
  - intros b Hb. rewrite lookup_delete_ne by set_solver. apply same_level_refl.
  - intros b f [_ Hf]%lookup_delete_Some. right. rewrite Hf. apply same_level_refl.
Qed.

(** An entry stored with a new revision. *)
Lemma store_ok s k k' a state now : cache_wf s → sc_generation s < 2 ^ 64 - 1 → k ⊆ k' → a ∈ k' →
  let entry := {| ce_state := state; ce_updated_at := now; ce_revision := next_revision (sc_generation s) |} in
  (size (<[a := entry]> (sc_inner s)) ≤ sc_max_entries s)%nat →
  let s' := set_cache s (<[a := entry]> (sc_inner s)) (next_counter (sc_generation s)) (sc_dirty s) in
  cache_wf s' ∧ tracks s k s' k'.
Proof.
  intros [W1 W2 W3 W4] Hg Hk Ha entry Hsize s'.
  assert (next_counter (sc_generation s) = sc_generation s + 1) as Hc by (unfold next_counter, wrap_u; apply Z.mod_small; lia).
  assert (ce_revision entry = sc_generation s + 1) as Hr by (cbn; unfold next_revision; lia).
  split; split; cbn; rewrite ?Hc; try done; try lia.
  - intros b f Hf. apply lookup_insert_Some in Hf as [[<- <-]|[_ Hf]]; [lia|]. apply W3 in Hf. lia.
  - intros b c f h Hf Hh E. apply lookup_insert_Some in Hf as [[<- <-]|[_ Hf]], Hh as [[<- <-]|[_ Hh]]; [done| | |].
    + apply W3 in Hh. lia.
    + apply W3 in Hf. lia.
    + eapply W4; eauto.
  - intros b Hb. rewrite lookup_insert_ne by set_solver. apply same_level_refl.
  - intros b f Hf. apply lookup_insert_Some in Hf as [[<- <-]|[_ Hf]]; [left; lia|right]. rewrite Hf. apply same_level_refl.
Qed.

Lemma insert_section_ok now s k k' a state : cache_wf s → sc_generation s < 2 ^ 64 - 1 →
  let r := insert_section iter now s a state in
  k ⊆ k' → list_to_set r.1 ⊆ k' → cache_wf r.2 ∧ tracks s k r.2 k'.
Proof using Hiter.
  intros Hw Hg. unfold insert_section.
  destruct (Nat.eqb_spec (sc_max_entries s) 0) as [|Hm]; cbn [fst snd]; [intros Hk _; by apply same_ok|].
  destruct (sc_inner s !! a) as [e|] eqn:He.
  - destruct (pool_state_price_level_eq _ _) eqn:El; cbn [fst snd]; intros Hk Hmarks.
    + eapply touch_ok; [done..| |done]. split; [done|]. cbn. by destruct (both_cl _ _); [apply level_eq_refl|].
    + apply store_ok; [done..|set_solver|]. rewrite map_size_insert_Some by done. apply Hw.
  - destruct (Nat.leb_spec (sc_max_entries s) (size (sc_inner s))) as [Hfull|Hroom].
    + destruct (victim_spec now (sc_ttl s) (sc_inner s)) as (v & -> & f & Hv).
      { intros E. rewrite E, map_size_empty in Hfull. lia. }
      cbn [fst snd app]. intros Hk Hmarks. destruct (drop_ok s k k' v Hw Hk) as [Hw1 Ht1]; [set_solver|].
      edestruct (store_ok _ k' k' a state now Hw1 Hg) as [Hw2 Ht2]; [done|set_solver| |split; [exact Hw2|by eapply tracks_trans]].
      cbn. rewrite map_size_insert_None by (rewrite lookup_delete_None; by right). rewrite map_size_delete, Hv.
      pose proof (cw_size s Hw). lia.
    + cbn [fst snd app]. intros Hk Hmarks. apply store_ok; [done..|set_solver|]. rewrite map_size_insert_None by done. lia.
Qed.

Lemma patch_section_ok now s k k' a f : cache_wf s → sc_generation s < 2 ^ 64 - 1 → (∀ x, (f x).2 = false → (f x).1 = x) →
  let r := patch_section now s a f in
  k ⊆ k' → list_to_set r.1.2 ⊆ k' → cache_wf r.2 ∧ tracks s k r.2 k'.
Proof.
  intros Hw Hg Hf. unfold patch_section.
  destruct (sc_inner s !! a) as [e|] eqn:He; cbn [fst snd]; [|intros Hk _; by apply same_ok].
  specialize (Hf (ce_state e)). destruct (f (ce_state e)) as [state []]; cbn [negb fst snd] in *; intros Hk Hmarks.
  - apply store_ok; [done..|set_solver|]. rewrite map_size_insert_Some by done. apply Hw.
  - rewrite Hf by done. eapply touch_ok; [done..| |done]. split; [done|apply level_eq_refl].
Qed.

Lemma remove_section_ok s k k' a : cache_wf s →
  let r := remove_section s a in k ⊆ k' → (r.1 = true → a ∈ k') → cache_wf r.2 ∧ tracks s k r.2 k'.
Proof.
  intros Hw. unfold remove_section. destruct (sc_inner s !! a) as [e|]; cbn [fst snd]; intros Hk Ha.
  - apply drop_ok; [done..|by apply Ha].
  - by apply same_ok.
Qed.

Lemma known_pending_app cache before after reported :
  known {| sh_cache := cache; sh_pending := before ++ after; sh_reported := reported |} =
  reported ∪ sc_dirty cache ∪ ⋃ (to_mark <$> before) ∪ ⋃ (to_mark <$> after).
Proof. unfold known. cbn. rewrite fmap_app, union_list_app_L. set_solver. Qed.

Lemma known_pending_cons cache p before after reported :
  known {| sh_cache := cache; sh_pending := before ++ p :: after; sh_reported := reported |} =
  reported ∪ sc_dirty cache ∪ ⋃ (to_mark <$> before) ∪ (to_mark p ∪ ⋃ (to_mark <$> after)).
Proof. rewrite known_pending_app. done. Qed.

(** A step of any thread. *)
Lemma step_ok sh sh' : cache_step iter sh sh' → cache_wf (sh_cache sh) →
  cache_wf (sh_cache sh') ∧ tracks (sh_cache sh) (known sh) (sh_cache sh') (known sh').
Proof using Hiter.
  intros H Hw. destruct H as [sh now a state Hg|sh now a f Hg Hf|sh a|sh a before after Hg E|sh a marks before after E|sh before after E|sh index].
  all: destruct sh as [s pending reported]; cbn in *; try subst pending; try subst r; unfold with_writers; cbn [with_writers sh_cache sh_pending sh_reported] in *.
  - assert (sc_dirty (insert_section iter now s a state).2 = sc_dirty s) as Hd by (unfold insert_section; by repeat case_match).
    apply insert_section_ok; [done..| |]; unfold known; cbn; rewrite Hd; set_solver.
  - assert (sc_dirty (patch_section now s a f).2 = sc_dirty s) as Hd by (unfold patch_section; by repeat case_match).
    apply patch_section_ok; [done..| |]; unfold known; cbn; rewrite Hd; set_solver.
  - assert (sc_dirty (remove_section s a).2 = sc_dirty s) as Hd by (unfold remove_section; by case_match).
    apply remove_section_ok; [done|..].
    + unfold known. cbn. rewrite Hd, fmap_app, union_list_app_L. set_solver.
    + intros ->. unfold known. cbn. set_solver.
  - assert (next_counter (sc_generation s) = sc_generation s + 1) as Hc.
    { unfold next_counter, wrap_u. apply Z.mod_small. pose proof (cw_generation s Hw). lia. }
    pose proof (cw_generation s Hw). apply quiet_ok; [done|lia|]. rewrite !known_pending_cons. cbn. set_solver.
  - pose proof (cw_generation s Hw). apply quiet_ok; [done|lia|]. rewrite !known_pending_cons. cbn. set_solver.
  - apply same_ok; [done|]. rewrite known_pending_cons, known_pending_app. cbn. set_solver.
  - pose proof (cw_generation s Hw). apply quiet_ok; [done|lia|]. unfold known. cbn. set_solver.
Qed.

Lemma steps_ok sh sh' : rtc (cache_step iter) sh sh' → cache_wf (sh_cache sh) →
  cache_wf (sh_cache sh') ∧ tracks (sh_cache sh) (known sh) (sh_cache sh') (known sh').
Proof using Hiter.
  induction 1 as [sh|sh sh1 sh2 H _ IH]; intros Hw; [by apply same_ok|].
  destruct (step_ok _ _ H Hw) as [Hw1 Ht]. destruct (IH Hw1) as [Hw2 Ht2]. split; [done|by eapply tracks_trans].
Qed.

(** C16: The cache never loses track of a change, however the steps of its writers and the drains of
    the dirty set interleave.  A write changes the map under the lock and marks the addresses
    only afterwards, so a drain or a read in between can see a change before its mark.  But from
    any moment on (what drains report is counted from there): whatever was in the dirty set or
    about to be marked then is still there, still about to be marked, or was reported by a drain
    since; an address whose price level or revision is not what it was is in the dirty set, was
    reported, or a writer under way is about to mark it, and with no writer under way it is in
    the dirty set or was reported; a drain hands out every dirty address that the arena knows;
    an entry that still has its old revision is at its old price level; and the cache stays
    within its capacity, with revisions of its own for every entry, none ahead of the
    generation, which never goes back.  This is while the 64-bit generation has not run out, and
    for patches that leave the state alone when they say they stored nothing. *)
Theorem cache_tracks_changes sh sh' :
  cache_wf (sh_cache sh) → sh_reported sh = ∅ → rtc (cache_step iter) sh sh' →
  let s := sh_cache sh in let s' := sh_cache sh' in
  let under_way sh a := ∃ p, p ∈ sh_pending sh ∧ a ∈ to_mark p in
  let traced a := a ∈ sh_reported sh' ∨ a ∈ sc_dirty s' in
  let changed a := ¬ same_level (sc_inner s !! a) (sc_inner s' !! a) in
  cache_wf s' ∧ sc_generation s ≤ sc_generation s' ∧
  (∀ a, a ∈ sc_dirty s ∨ under_way sh a → traced a ∨ under_way sh' a) ∧
  (∀ a, changed a → traced a ∨ under_way sh' a) ∧
  (sh_pending sh' = [] → ∀ a, changed a → traced a) ∧
  (∀ address_to_pool a pool, a ∈ sc_dirty s' → address_to_pool !! a = Some pool →
     pool ∈ (take_dirty_pool_indices address_to_pool s').1) ∧
  (∀ a e e', sc_inner s !! a = Some e → sc_inner s' !! a = Some e' → ce_revision e' = ce_revision e →
     pool_state_price_level_eq (ce_state e) (ce_state e') = true).
Proof using Hiter.
  intros Hw Hr Hs s s' under_way traced changed. destruct (steps_ok _ _ Hs Hw) as [Hw' [_ Hg Hk Hc Hn]].
  assert (∀ a, a ∈ known sh' → traced a ∨ under_way sh' a) as Hknown.
  { intros a. unfold known. rewrite elem_of_union, elem_of_union, elem_of_union_list. intros [[|]|(X & HX & Ha)]; [left; by left|left; by right|].
    apply list_elem_of_fmap in HX as (p & -> & Hp). right. by exists p. }
  assert (∀ a, changed a → traced a ∨ under_way sh' a) as Hch.
  { intros a Ha. apply Hknown. destruct (decide (a ∈ known sh')) as [|Hout]; [done|]. destruct Ha. by apply Hc. }
  split_and!; try done.
  - intros a Ha. apply Hknown, Hk. unfold known. rewrite Hr, !elem_of_union, elem_of_union_list.
    destruct Ha as [|(p & Hp & Ha)]; [left; by right|]. right. exists (to_mark p). split; [|done]. by apply list_elem_of_fmap_2.
  - intros E a Ha. destruct (Hch a Ha) as [|(p & Hp & _)]; [done|]. rewrite E in Hp. by apply not_elem_of_nil in Hp.
  - intros index a pool Ha Hp. unfold take_dirty_pool_indices. cbn. apply list_elem_of_omap. exists a. by rewrite elem_of_elements.
  - intros a e e' He He' Hrev. destruct (Hn a e' He') as [Hnew|Hsame].
    + pose proof (cw_revision _ Hw a e He). lia.
    + unfold s in He; rewrite He in Hsame. by destruct Hsame.
Qed.

(** The writers under way can always finish, and what they have to mark is then in the dirty set. *)
Lemma marks_finish cache before marks after reported : ∃ cache',
  rtc (cache_step iter) {| sh_cache := cache; sh_pending := before ++ ToMark marks :: after; sh_reported := reported |}
    {| sh_cache := cache'; sh_pending := before ++ after; sh_reported := reported |} ∧
  cache' = mark_all marks cache.
Proof.
  revert cache. induction marks as [|a marks IH]; intros cache.
  - exists cache. split; [|done]. apply rtc_once. by apply (step_done iter {| sh_cache := cache; sh_pending := _; sh_reported := _ |} before after).
  - destruct (IH (mark_dirty cache a)) as (cache' & Hs & ->). eexists. split; [|done]. eapply rtc_l; [|exact Hs].
    by apply (step_mark iter {| sh_cache := cache; sh_pending := _; sh_reported := _ |} a marks before after).
Qed.

Lemma mark_all_spec marks s : sc_inner (mark_all marks s) = sc_inner s ∧ sc_generation (mark_all marks s) = sc_generation s ∧
  sc_dirty (mark_all marks s) = list_to_set marks ∪ sc_dirty s.
Proof.
  revert s. induction marks as [|a marks IH]; intros s; cbn; [split_and!; [done..|set_solver]|].
  destruct (IH (mark_dirty s a)) as (H1 & H2 & H3). unfold mark_all in *. rewrite H1, H2, H3. cbn. split_and!; [done..|set_solver].
Qed.

Lemma writers_finish sh : 0 ≤ sc_generation (sh_cache sh) → sc_generation (sh_cache sh) + Z.of_nat (length (sh_pending sh)) < 2 ^ 64 →
  ∃ sh', rtc (cache_step iter) sh sh' ∧ sh_pending sh' = [] ∧ sc_inner (sh_cache sh') = sc_inner (sh_cache sh) ∧
    sc_dirty (sh_cache sh') = sc_dirty (sh_cache sh) ∪ ⋃ (to_mark <$> sh_pending sh) ∧ sh_reported sh' = sh_reported sh.
Proof.
  destruct sh as [s pending reported]. cbn. revert s. induction pending as [|p pending IH]; intros s H0 Hg.
  { eexists. split; [apply rtc_refl|]. cbn. split_and!; [done..|set_solver|done]. }
  cbn [length] in Hg.
  assert (∃ s1, rtc (cache_step iter) {| sh_cache := s; sh_pending := p :: pending; sh_reported := reported |}
     {| sh_cache := s1; sh_pending := pending; sh_reported := reported |} ∧ sc_inner s1 = sc_inner s ∧
     sc_dirty s1 = to_mark p ∪ sc_dirty s ∧ 0 ≤ sc_generation s1 ≤ sc_generation s + 1) as (s1 & Hs1 & Hi & Hd & Hg1).
  { destruct p as [a|marks].
    - destruct (marks_finish (bump_generation s) [] [a] pending reported) as (s1 & Hs & ->). eexists. split_and!.
      + eapply rtc_l; [|exact Hs].
        by apply (step_bump iter {| sh_cache := s; sh_pending := _; sh_reported := _ |} a [] pending); [cbn; lia|].
      + done.
      + cbn. set_solver.
      + cbn. unfold next_counter, wrap_u. rewrite Z.mod_small by lia. lia.
      + cbn. unfold next_counter, wrap_u. rewrite Z.mod_small by lia. lia.
    - destruct (marks_finish s [] marks pending reported) as (s1 & Hs & ->). destruct (mark_all_spec marks s) as (H1 & H2 & H3).
      eexists. rewrite H1, H2, H3. split_and!; [exact Hs|done|done|lia|lia]. }
  destruct (IH s1) as (sh' & Hs & Hp & Hi' & Hd' & Hr); [lia|lia|]. exists sh'. split_and!; try done.
  - by etrans.
  - by rewrite Hi', Hi.
  - rewrite Hd', Hd. cbn. set_solver.
Qed.
End invariant.

Lemma cache_new_wf n ttl : cache_wf (cache_new n ttl).
Proof. split; cbn; [rewrite map_size_empty; lia|lia|..]; intros *; by rewrite lookup_empty. Qed.

(** The price level leaves out what a quote also reads, here the fee of a DODO pool: a refresh that
    changes only that keeps the revision, and the pool is not marked, though its quote changed. *)
Lemma revision_hides_quote :
  let dodo fee := PDodo {| dd_base_reserve := 1100 * ONE; dd_quote_reserve := 900 * 10 ^ 6; dd_base_token := 1;
     dd_quote_token := 2; dd_base_target := 1000 * ONE; dd_quote_target := 1000 * 10 ^ 6; dd_r_state := BelowOne;
     dd_i := 10 ^ 6; dd_k := 10 ^ 17; dd_lp_fee_rate := fee; dd_mt_fee_rate := 10 ^ 14 |} in
  let quote s := match s with PDodo d => get_dodo_amount_out d (5 * 10 ^ 6) false | _ => 0 end in
  let s := (take_dirty_pool_indices ∅ (cache_insert map_to_list 0 (cache_new 4 100) 9 (dodo (10 ^ 15)))).2 in
  let s' := cache_insert map_to_list 1 s 9 (dodo (10 ^ 16)) in
  ce_revision <$> sc_inner s' !! 9 = ce_revision <$> sc_inner s !! 9 ∧ sc_dirty s' = ∅ ∧
  quote <$> (ce_state <$> sc_inner s' !! 9) ≠ quote <$> (ce_state <$> sc_inner s !! 9).
Proof. split_and!; vm_compute; [done|done|discriminate]. Qed.

(** A drain between the locked section of a write and its mark: the new state is there for every
    reader, and the drain hands out nothing; the next one, after the mark, does. *)
Lemma drain_before_mark :
  let '(marks, s) := insert_section map_to_list 0 (cache_new 4 100) 9 PInvalid in
  let index := {[9 := 3]} : gmap Z PoolIndex in
  let '(early, s1) := take_dirty_pool_indices index s in
  is_Some (sc_inner s !! 9) ∧ sc_generation s = 1 ∧ early = [] ∧
  (take_dirty_pool_indices index (mark_all marks s1)).1 = [3].
Proof. vm_compute. split_and!; [by eexists|done..]. Qed.

(** [remove] moves the generation after it has released the lock: two coherent reads with an equal
    generation and different states. *)
Lemma equal_generation_other_states :
  let s := cache_insert map_to_list 0 (cache_new 4 100) 9 PInvalid in
  let r1 := get_arcs_with_generation 0 s [9] in
  let r2 := get_arcs_with_generation 0 (remove_section s 9).2 [9] in
  r1.2 = r2.2 ∧ r1.1 ≠ r2.1.
Proof. vm_compute. split; [reflexivity|discriminate]. Qed.

Lemma demo_cache_wf : cache_wf (take_dirty_pool_indices ∅ (cache_insert map_to_list 0 (cache_new 1 100) 9 PInvalid)).2.
Proof.
  assert (∀ m : gmap Z CachedEntry, map_to_list m ≡ₚ map_to_list m) as Hiter by done.
  destruct (insert_section_ok map_to_list Hiter 0 (cache_new 1 100) ∅ {[9]} 9 PInvalid (cache_new_wf 1 100)) as [[W1 W2 W3 W4] _];
    [done|set_solver|set_solver|]. by split.
Qed.

Lemma cache_tracks_changes_witness :
  let s := (take_dirty_pool_indices ∅ (cache_insert map_to_list 0 (cache_new 1 100) 9 PInvalid)).2 in
  let start := {| sh_cache := s; sh_pending := []; sh_reported := ∅ |} in
  (* the write of 8 evicts 9; one drain comes before its marks, another between them *)
  let evicted := (insert_section map_to_list 1 s 8 PInvalid).2 in
  let drained := (take_dirty_pool_indices ∅ (mark_dirty (take_dirty_pool_indices ∅ evicted).2 9)).2 in
  let stop := {| sh_cache := mark_dirty drained 8; sh_pending := []; sh_reported := {[9]} |} in
  elements (sc_dirty (sh_cache stop)) = [8] ∧ sc_inner (sh_cache stop) !! 9 = None ∧
  (9 ∈ sh_reported stop ∨ 9 ∈ sc_dirty (sh_cache stop)).
Proof.
  intros s start evicted drained stop. split; [vm_compute; reflexivity|]. split; [vm_compute; reflexivity|].
  refine (proj1 (proj2 (proj2 (proj2 (proj2 (cache_tracks_changes map_to_list (λ m, reflexivity _) start stop _ eq_refl _))))) eq_refl 9 _).
  - apply demo_cache_wf.
  - refine (rtc_l _ _ _ _ (step_insert _ start 1 8 PInvalid _) _); [vm_compute; reflexivity|].
    refine (rtc_l _ _ _ _ (step_drain _ _ ∅) _).
    refine (rtc_l _ _ _ _ (step_mark _ _ 9 [8] [] [] _) _); [vm_compute; reflexivity|].
    refine (rtc_l _ _ _ _ (step_drain _ _ ∅) _).
    refine (rtc_l _ _ _ _ (step_mark _ _ 8 [] [] [] _) _); [reflexivity|].
    refine (rtc_l _ _ _ _ (step_done _ _ [] [] _) _); [reflexivity|].
    match goal with |- rtc _ ?x ?y => replace x with y by (vm_compute; reflexivity) end. apply rtc_refl.
  - vm_compute. intros H. exact H.
Defined.
