(* ===== verification/GraphCache.v ===== *)
(** * The cache of the graph and of its cycles

    [src/src/pipeline/graph_cache.rs]: what one pass leaves to the next, and the tests that say
    whether the graph is built again and the cycles are searched again.  The digest of the
    families of the first pools ([FxHasher]) is a parameter. *)
From stdpp Require Import gmap.
From Stdlib Require Import SpecFloat.
From S2P Require Import Prelude Word Types Arena Graph GraphOps.

Definition POOL_COUNT_REBUILD_DELTA : nat := 64.
Definition WARM_POOL_COUNT_REBUILD_DELTA : nat := 512.
Definition WARM_POOL_THRESHOLD : nat := Z.to_nat 3000.
Definition ELIGIBLE_POOL_REBUILD_DELTA : nat := 128.
Definition DEFAULT_CYCLE_REFIND_INTERVAL : Z := 8.

Definition default_cycle_refind_interval : Z := DEFAULT_CYCLE_REFIND_INTERVAL.

Record GraphCache := {
  gc_rebuild_interval : Z;
  gc_cycle_refind_interval : Z;
  gc_graph : option RoutingGraph;
  gc_cycles : option (list FoundCycle);
  gc_lf_pass_count : Z;
  gc_cached_pool_count : nat;
  gc_cached_eligible_pool_count : nat;
  gc_cached_layout_fingerprint : Z;
  gc_cached_family_prefix : Z;
  gc_cached_state_generation : Z;
  gc_attach_catchup_pending : bool;
}.

Definition with_intervals (rebuild_interval cycle_refind_interval : Z) : GraphCache :=
  {| gc_rebuild_interval := Z.max rebuild_interval 1; gc_cycle_refind_interval := Z.max cycle_refind_interval 1;
     gc_graph := None; gc_cycles := None; gc_lf_pass_count := 0; gc_cached_pool_count := 0;
     gc_cached_eligible_pool_count := 0; gc_cached_layout_fingerprint := 0; gc_cached_family_prefix := 0;
     gc_cached_state_generation := 0; gc_attach_catchup_pending := false |}.

Definition with_rebuild_interval (interval : Z) : GraphCache :=
  with_intervals interval default_cycle_refind_interval.

Definition advance_pass (self : GraphCache) : Z * GraphCache :=
  let count := wrap_u 64 (gc_lf_pass_count self + 1) in
  (count,
   {| gc_rebuild_interval := gc_rebuild_interval self; gc_cycle_refind_interval := gc_cycle_refind_interval self;
      gc_graph := gc_graph self; gc_cycles := gc_cycles self; gc_lf_pass_count := count;
      gc_cached_pool_count := gc_cached_pool_count self;
      gc_cached_eligible_pool_count := gc_cached_eligible_pool_count self;
      gc_cached_layout_fingerprint := gc_cached_layout_fingerprint self;
      gc_cached_family_prefix := gc_cached_family_prefix self;
      gc_cached_state_generation := gc_cached_state_generation self;
      gc_attach_catchup_pending := gc_attach_catchup_pending self |}).

(** [u64::is_multiple_of]: only zero is a multiple of zero. *)
Definition is_multiple_of (a b : Z) : bool := if b =? 0 then a =? 0 else a mod b =? 0.

Definition is_none {A} (o : option A) : bool := match o with None => true | Some _ => false end.

Definition pool_count_rebuild_due (self : GraphCache) (routable_pool_count : nat) : bool :=
  if is_none (gc_graph self) then true
  else if (routable_pool_count <? gc_cached_pool_count self)%nat then
    let lost := (gc_cached_pool_count self - routable_pool_count)%nat in
    let min_delta :=
      if (WARM_POOL_THRESHOLD <=? gc_cached_pool_count self)%nat then WARM_POOL_COUNT_REBUILD_DELTA
      else POOL_COUNT_REBUILD_DELTA in
    (Nat.max min_delta (gc_cached_pool_count self / 20) <=? lost)%nat
  else false.

Definition needs_connectivity_rebuild (self : GraphCache) (routable_pool_count : nat) (layout_fingerprint : Z) : bool :=
  if is_none (gc_graph self) then true
  else if is_multiple_of (gc_lf_pass_count self) (gc_rebuild_interval self) then true
  else if pool_count_rebuild_due self routable_pool_count then true
  else (negb (gc_cached_layout_fingerprint self =? layout_fingerprint)
        && (routable_pool_count <=? gc_cached_pool_count self)%nat)%bool.

(** [self.cycles.as_ref().is_none_or(|c| c.is_empty())] *)
Definition no_cycles (self : GraphCache) : bool :=
  match gc_cycles self with Some (_ :: _) => false | _ => true end.

Definition cycle_cache_still_valid (self : GraphCache) (routable_pool_count : nat)
    (layout_fingerprint family_prefix : Z) : bool :=
  if no_cycles self then false
  else if (routable_pool_count <? gc_cached_pool_count self)%nat then false
  else if negb (family_prefix =? gc_cached_family_prefix self) then false
  else negb (negb (gc_cached_layout_fingerprint self =? layout_fingerprint)
             && (routable_pool_count <=? gc_cached_pool_count self)%nat).

Definition needs_cycle_refind (self : GraphCache) (state_generation : Z) (dirty_pool_count arena_pool_count : nat) : bool :=
  if no_cycles self then true
  else if negb (state_generation =? gc_cached_state_generation self) then (arena_pool_count <? dirty_pool_count * 2)%nat
  else is_multiple_of (gc_lf_pass_count self) (gc_cycle_refind_interval self).

Definition store (self : GraphCache) (graph : RoutingGraph) (cycles : option (list FoundCycle)) (pool_count : nat)
    (layout_fingerprint state_generation : Z) (eligible_pool_count : nat) (family_prefix : Z) : GraphCache :=
  {| gc_rebuild_interval := gc_rebuild_interval self; gc_cycle_refind_interval := gc_cycle_refind_interval self;
     gc_graph := Some graph;
     gc_cycles := match cycles with Some (_ :: _) => cycles | _ => None end;
     gc_lf_pass_count := gc_lf_pass_count self;
     gc_cached_pool_count := pool_count; gc_cached_eligible_pool_count := eligible_pool_count;
     gc_cached_layout_fingerprint := layout_fingerprint; gc_cached_family_prefix := family_prefix;
     gc_cached_state_generation := state_generation;
     gc_attach_catchup_pending := gc_attach_catchup_pending self |}.

Definition store_graph_keep_cycles (self : GraphCache) (graph : RoutingGraph) (pool_count : nat)
    (layout_fingerprint state_generation : Z) (eligible_pool_count : nat) (family_prefix : Z) : GraphCache :=
  store self graph (gc_cycles self) pool_count layout_fingerprint state_generation eligible_pool_count family_prefix.

Definition connectivity_stale (self : GraphCache) (eligible_pool_count : nat) : bool :=
  if gc_attach_catchup_pending self then true
  else if (is_none (gc_graph self) || (eligible_pool_count <=? gc_cached_eligible_pool_count self)%nat)%bool then false
  else
    let delta := (eligible_pool_count - gc_cached_eligible_pool_count self)%nat in
    (Nat.max ELIGIBLE_POOL_REBUILD_DELTA (gc_cached_eligible_pool_count self / 20) <=? delta)%nat.

Definition set_attach_catchup_pending (self : GraphCache) (pending : bool) : GraphCache :=
  {| gc_rebuild_interval := gc_rebuild_interval self; gc_cycle_refind_interval := gc_cycle_refind_interval self;
     gc_graph := gc_graph self; gc_cycles := gc_cycles self; gc_lf_pass_count := gc_lf_pass_count self;
     gc_cached_pool_count := gc_cached_pool_count self;
     gc_cached_eligible_pool_count := gc_cached_eligible_pool_count self;
     gc_cached_layout_fingerprint := gc_cached_layout_fingerprint self;
     gc_cached_family_prefix := gc_cached_family_prefix self;
     gc_cached_state_generation := gc_cached_state_generation self; gc_attach_catchup_pending := pending |}.

(** The cache with another graph and other cycles, its metadata as they were. *)
Definition with_graph_and_cycles (self : GraphCache) (graph : option RoutingGraph) (cycles : option (list FoundCycle)) : GraphCache :=
  {| gc_rebuild_interval := gc_rebuild_interval self; gc_cycle_refind_interval := gc_cycle_refind_interval self;
     gc_graph := graph; gc_cycles := cycles; gc_lf_pass_count := gc_lf_pass_count self;
     gc_cached_pool_count := gc_cached_pool_count self;
     gc_cached_eligible_pool_count := gc_cached_eligible_pool_count self;
     gc_cached_layout_fingerprint := gc_cached_layout_fingerprint self;
     gc_cached_family_prefix := gc_cached_family_prefix self;
     gc_cached_state_generation := gc_cached_state_generation self;
     gc_attach_catchup_pending := gc_attach_catchup_pending self |}.

Definition invalidate_cycles (self : GraphCache) : GraphCache := with_graph_and_cycles self (gc_graph self) None.

(** Fingerprints of the arena. *)
Section fingerprints.
Context (prefix_hash : list Z → Z).

Definition routing_layout_fingerprint (arena : StateArena) : Z := ai_layout_fingerprint (sa_inner arena).

(** The family tags of the first [n] pools; the digest also reads how many they are. *)
Definition routing_family_prefix_fingerprint (arena : StateArena) (n : nat) : Z :=
  prefix_hash (pool_state_family_tag <$> take n (ai_pools (sa_inner arena))).

Definition rescore_dirty_and_update (ln_f64 : f64 → f64) (self : GraphCache) (arena : StateArena)
    (dirty_pools : list PoolIndex) (arena_pool_count : nat) (new_state_generation layout_fingerprint : Z)
    (routable_count eligible_count : nat) : outcome (option RoutingGraph * GraphCache) :=
  match gc_graph self with
  | None => Done (None, self)
  | Some g =>
      let! r := rescore_dirty_pools_or_full ln_f64 arena g dirty_pools arena_pool_count in
      let self := with_graph_and_cycles self (Some r.1) (gc_cycles self) in
      Done (Some r.1,
            store self r.1 (gc_cycles self) routable_count layout_fingerprint new_state_generation eligible_count
              (routing_family_prefix_fingerprint arena routable_count))
  end.
End fingerprints.
