(* ===== verification/LowFreq.v ===== *)
(** * The low-frequency pass

    [src/src/orchestrator/lf.rs]: the work of one pass on the processor, from the states the
    caches hold to the graph and the cycles that are published ([run_lf_cpu_work]), with the
    helpers it calls.  Arc-wrapped values are plain values: what is stored in the cache and
    what is returned are equal, and neither is changed through the other.  Three things of the
    world are parameters: what other threads do to the state cache between two reads of it
    ([others]), the wall clock at the stages that ask whether a flash quote is fresh ([wall]),
    and the clock of the searches.  Log lines, and what only they read, are left out. *)
From stdpp Require Import gmap.
From Stdlib Require Import SpecFloat.
From S2P Require Import Prelude Word Types Profit Arena Routes Realign LocalSim TokenRates FlashLiquidity CycleRank CycleFilter.
From S2P Require Import Graph GraphEdges GraphOps Coverage BellmanFord ActiveGraph CycleDfs CycleSearch StateCache GraphCache.

Definition CYCLE_ENUM_PATCH_BUDGET : Z := 300.

Record LfCpuWork := {
  lw_graph_cache : GraphCache;
  lw_cache : StateCache;
  lw_arena : StateArena;
  lw_pool_metas : list PoolMeta;
  lw_dirty_pools : list PoolIndex;
  lw_state_generation : Z;
  lw_lf_pass : Z;
  lw_max_paths : nat;
  lw_max_hops : Z;
  lw_cycle_finder : CycleFinderMode;
  lw_prior_rates : gmap Z Z;
  lw_token_decimals : gmap Z Z;
  lw_gas_price_wei : option Z;
  lw_flash_liquidity : FlashLiquidityCache;
  lw_force_cycle_refind : bool;
  lw_observed_pool_indices : list PoolIndex;
}.

Record LfCpuResult := {
  lr_graph : RoutingGraph;
  lr_cycles : list FoundCycle;
  lr_enumerated_cycles : nat;
  lr_attach_hit_cap : bool;
}.

(** A cycle with a hop in one of the pools. *)
Definition touches (pin : list PoolIndex) (cycle : FoundCycle) : bool :=
  existsb (λ edge, bool_decide (pool_index edge ∈ pin)) (fc_edges cycle).

(** [for cycle in more { if seen.insert(edges) { out.push(cycle); if out.len() >= max_cycles { break } } }],
    where what was seen is what [out] holds. *)
Fixpoint push_unseen (max_cycles : nat) (more out : list FoundCycle) : list FoundCycle :=
  match more with
  | [] => out
  | cycle :: more =>
      if bool_decide (fc_edges cycle ∈ fc_edges <$> out) then push_unseen max_cycles more out
      else
        let out := out ++ [cycle] in
        if (max_cycles <=? length out)%nat then out else push_unseen max_cycles more out
  end.

Section selection.
Context (cycle_key : list Edge → Z).

(** [crate::pipeline::spot_price::finalize_enumerated_cycles] *)
Definition finalize_enumerated_cycles (cycles : list FoundCycle) (max_cycles : nat) : list FoundCycle :=
  apply_protocol_diverse_selection cycle_key cycles max_cycles.

(** A ratio above one first, then the execution order. *)
Definition compare_pinned (a b : FoundCycle) : comparison :=
  then_with (compare_bool (ONE <? fc_cycle_ratio b) (ONE <? fc_cycle_ratio a)) (compare_cycle_execution a b).

Definition pin_cycles_touching_pools (cycles : list FoundCycle) (pin_pools : list PoolIndex) (max_cycles : nat)
    (pins_only : bool) : list FoundCycle :=
  if ((max_cycles =? 0)%nat || is_empty cycles || is_empty pin_pools)%bool
  then finalize_enumerated_cycles cycles max_cycles
  else
    let pinned := filter (λ c, touches pin_pools c = true) cycles in
    let rest := filter (λ c, touches pin_pools c = false) cycles in
    if is_empty pinned then if pins_only then [] else finalize_enumerated_cycles rest max_cycles
    else
      let pinned := take max_cycles (sort_by compare_pinned pinned) in
      if pins_only then pinned
      else push_unseen max_cycles (finalize_enumerated_cycles rest (max_cycles - length pinned)) pinned.
End selection.

(** ** Start tokens of the observed pools *)

(** The routing tokens of the funded legs of a pool, or the tokens of its meta when that
    adds none. *)
Definition push_pool_starts (arena : StateArena) (want : list PoolIndex) (out : list TokenIndex) (meta : PoolMeta)
    : list TokenIndex :=
  if bool_decide (pm_pool_index meta ∉ want) then out
  else
    let legs :=
      match pool_state arena (pm_pool_index meta) with
      | Some state => omap (λ leg, routing_token_at_leg arena state meta (Z.to_nat leg)) (funded_token_indices state meta)
      | None => []
      end in
    let funded := fold_left push_fresh legs out in
    if (length out <? length funded)%nat then funded else fold_left push_fresh (pm_tokens meta) out.

(** A live edge into one of the pools. *)
Definition opens_into (want : list PoolIndex) (ge : GraphEdge) : bool :=
  (bool_decide (pool_index (ge_edge ge) ∈ want) && is_live_graph_edge ge)%bool.

Definition observed_pool_start_tokens (arena : StateArena) (pool_metas : list PoolMeta) (pools : list PoolIndex)
    (graph : option RoutingGraph) : list TokenIndex :=
  if is_empty pools then []
  else
    let out := fold_left (push_pool_starts arena pools) pool_metas [] in
    match graph with
    | None => out
    | Some graph =>
        fold_left (λ out ti, if existsb (opens_into pools) (adj_at graph ti) then push_fresh out (Z.of_nat ti) else out)
          (seq 0 (Nat.min (token_slots graph) (length (rg_adjacency graph)))) out
    end.

(** A hub with a rate. *)
Definition priced_hub (arena : StateArena) (rates : gmap Z Z) (t : TokenIndex) : bool :=
  match token_address arena t with
  | Some addr => (is_polygon_hub_token addr && bool_decide (is_Some (rates !! t)))%bool
  | None => false
  end.

Definition extend_obs_starts_with_priced_hubs (starts : list TokenIndex) (arena : StateArena)
    (pool_metas : list PoolMeta) (pools : list PoolIndex) (rates : gmap Z Z) : list TokenIndex :=
  if (is_empty pools || bool_decide (rates = ∅))%bool then starts
  else
    fold_left (λ starts meta,
      if bool_decide (pm_pool_index meta ∉ pools) then starts
      else fold_left (λ starts t, if priced_hub arena rates t then push_fresh starts t else starts) (pm_tokens meta) starts)
      pool_metas starts.

(** ** Dust *)

Definition touches_dust (arena : StateArena) (cycle : FoundCycle) : bool :=
  match v2_any_hop_dust_reserves arena (fc_edges cycle) with Some _ => true | None => false end.

Definition prune_dust_v2_cycles (arena : StateArena) (cycles : list FoundCycle) : list FoundCycle :=
  filter (λ c, touches_dust arena c = false) cycles.

(** [cycles.iter().position(..)] *)
Fixpoint first_dust (arena : StateArena) (cycles : list FoundCycle) : option nat :=
  match cycles with
  | [] => None
  | c :: cycles => if touches_dust arena c then Some 0%nat else S <$> first_dust arena cycles
  end.

Definition prune_dust_v2_cycles_arc (arena : StateArena) (cycles : list FoundCycle) : list FoundCycle :=
  let_some i := first_dust arena cycles or cycles in
  take i cycles ++ filter (λ c, touches_dust arena c = false) (drop (S i) cycles).

(** ** What the pass is given *)

Definition cycle_search_passes (max_hops : Z) (max_paths : nat) : list CycleSearchPass :=
  let max_hops := Z.min (Z.max max_hops 2) HOP_CAP in
  if max_hops <=? 4 then [{| csp_max_hops := max_hops; csp_max_cycles := max_paths |}]
  else [{| csp_max_hops := 3; csp_max_cycles := max_paths / 2 |}; {| csp_max_hops := max_hops; csp_max_cycles := max_paths |}].

Definition merge_dirty_pool_indices (base extra : list PoolIndex) : list PoolIndex :=
  if is_empty extra then base else if is_empty base then extra else fold_left push_fresh extra base.

(** Steps enough for the spoke expansion: every address it can meet. *)
Definition spoke_fuel (resolvable : gset Z) (pool_metas : list PoolMeta) (arena : StateArena) : nat :=
  (size (list_to_set POLYGON_HUB_TOKENS ∪ resolvable) + size (pool_universe (pool_token_addrs arena <$> pool_metas)))%nat.

Definition spoke_connectivity_set (rates : gmap Z Z) (pool_metas : list PoolMeta) (arena : StateArena) : gset Z :=
  let resolvable := resolvable_token_set rates arena in
  default resolvable
    (expand_hub_spoke_resolvable elements (spoke_fuel resolvable pool_metas arena) resolvable pool_metas arena).

Definition lf_graph_build_gate (work : LfCpuWork) : GraphBuildGate :=
  {| gg_token_to_matic_rates := lw_prior_rates work;
     gg_flash := fc_inner (lw_flash_liquidity work); gg_flash_ttl := fc_ttl (lw_flash_liquidity work);
     gg_spoke_connectivity := Some (spoke_connectivity_set (lw_prior_rates work) (lw_pool_metas work) (lw_arena work)) |}.

Section pass.
Context (ln_f64 : f64 → f64) (prefix_hash : list Z → Z) (cycle_key : list Edge → Z).
Context (others : nat → StateCache → StateCache) (instant : nat → Z) (wall : nat → Z) (now : nat → Z) (tid : nat).

(** The fields of the work the overlay changes. *)
Definition with_overlay (work : LfCpuWork) (cache : StateCache) (arena : StateArena) (dirty : list PoolIndex) : LfCpuWork :=
  {| lw_graph_cache := lw_graph_cache work; lw_cache := cache; lw_arena := arena; lw_pool_metas := lw_pool_metas work;
     lw_dirty_pools := dirty; lw_state_generation := sc_generation cache; lw_lf_pass := lw_lf_pass work;
     lw_max_paths := lw_max_paths work; lw_max_hops := lw_max_hops work; lw_cycle_finder := lw_cycle_finder work;
     lw_prior_rates := lw_prior_rates work; lw_token_decimals := lw_token_decimals work;
     lw_gas_price_wei := lw_gas_price_wei work; lw_flash_liquidity := lw_flash_liquidity work;
     lw_force_cycle_refind := lw_force_cycle_refind work; lw_observed_pool_indices := lw_observed_pool_indices work |}.

(** Each access to the cache sees it as the other threads have left it by then. *)
Definition overlay_dirty_cache_states (work : LfCpuWork) : LfCpuWork :=
  let '(fresh_dirty, cache) :=
    take_dirty_pool_indices (ai_address_to_pool (sa_inner (lw_arena work))) (others 0 (lw_cache work)) in
  let dirty := merge_dirty_pool_indices (lw_dirty_pools work) fresh_dirty in
  if is_empty dirty then with_overlay work (others 2 (others 1 cache)) (lw_arena work) dirty
  else
    let addrs := omap (pool_address (lw_arena work)) dirty in
    let cache := others 1 cache in
    let arena :=
      if is_empty addrs then lw_arena work
      else apply_hot_cache (lw_arena work) (λ addrs, (get_arcs_with_generation (instant 0) cache addrs).1) addrs in
    with_overlay work (others 2 cache) arena dirty.

(** ** The graph *)

Section overlaid.
Context (work : LfCpuWork).

Abbreviation arena := (lw_arena work).
Abbreviation metas := (lw_pool_metas work).

Definition gate_ref : option GraphBuildGate :=
  let gate := lf_graph_build_gate work in if gate_active gate then Some gate else None.

Definition layout_fp : Z := routing_layout_fingerprint arena.

(** [gc.store] with the metadata of the pass. *)
Definition store_pass (gc : GraphCache) (g : RoutingGraph) (cycles : option (list FoundCycle)) (eligible : nat) : GraphCache :=
  store gc g cycles (length metas) layout_fp (lw_state_generation work) eligible
    (routing_family_prefix_fingerprint prefix_hash arena (length metas)).

(** What the pass reads of the cache before it touches it. *)
Record Plan := {
  pl_eligible : nat;
  pl_needs_rebuild : bool;
  pl_connectivity_stale : bool;
  pl_cycle_cache_valid : bool;
  pl_prior_cycles : option (list FoundCycle);
}.

Definition lf_plan (gc : GraphCache) : outcome Plan :=
  let! eligible := count_graph_eligible_pools_with_gate (wall 0) arena metas gate_ref in
  let prefix := routing_family_prefix_fingerprint prefix_hash arena (gc_cached_pool_count gc) in
  Done {| pl_eligible := eligible;
          pl_needs_rebuild := needs_connectivity_rebuild gc (length metas) layout_fp;
          pl_connectivity_stale := connectivity_stale gc eligible;
          pl_cycle_cache_valid := cycle_cache_still_valid gc (length metas) layout_fp prefix;
          pl_prior_cycles := gc_cycles gc |}.

(** The cycles a rebuild or an attach keeps. *)
Definition keep_cycles (plan : Plan) : option (list FoundCycle) :=
  if pl_cycle_cache_valid plan then pl_prior_cycles plan else None.

(** A graph built anew, and stored. *)
Definition build_and_store (plan : Plan) (cycles : option (list FoundCycle)) (gc : GraphCache)
    : outcome (RoutingGraph * GraphCache) :=
  let! g := build_graph_with_gate ln_f64 (wall 1) arena metas gate_ref in
  Done (g, store_pass gc g cycles (pl_eligible plan)).

(** The graph of the pass: built anew, or the cached one with its dirty pools priced again. *)
Definition lf_graph (plan : Plan) (gc : GraphCache) : outcome (RoutingGraph * GraphCache) :=
  if pl_needs_rebuild plan then build_and_store plan (keep_cycles plan) gc
  else
    let! gc :=
      (if is_none (gc_graph gc) then let! r := build_and_store plan None gc in Done r.2 else Done gc) in
    let! r :=
      (if negb (lw_state_generation work =? gc_cached_state_generation gc)
       then rescore_dirty_and_update prefix_hash ln_f64 gc arena (lw_dirty_pools work) (length metas) (lw_state_generation work)
              layout_fp (length metas) (pl_eligible plan)
       else Done (None, gc)) in
    let '(rescored, gc) := r in
    match or_else rescored (gc_graph gc) with
    | Some g => Done (g, gc)
    | None => build_and_store plan None gc
    end.

(** ** Pools without edges *)

(** The attach of the eligible pools the graph misses: the graph, the cache, how many were attached, and
    whether the cap was hit. *)
Definition lf_attach (plan : Plan) (g : RoutingGraph) (gc : GraphCache)
    : outcome (RoutingGraph * GraphCache * nat * bool) :=
  let catchup_due :=
    (pl_needs_rebuild plan || pl_connectivity_stale plan || (gc_cached_eligible_pool_count gc <? pl_eligible plan)%nat)%bool in
  let scan_missing := (catchup_due && negb (lw_force_cycle_refind work))%bool in
  let! gc :=
    (if (catchup_due && lw_force_cycle_refind work && gc_attach_catchup_pending gc)%bool then
       let! missing := has_missing_eligible_pools_with_gate (wall 2) arena metas g gate_ref in
       Done (if missing : bool then gc else set_attach_catchup_pending gc false)
     else Done gc) in
  let! missing :=
    (if scan_missing then has_missing_eligible_pools_with_gate (wall 3) arena metas g gate_ref else Done false) in
  if missing : bool then
    let! r := attach_missing_eligible_pools_with_gate ln_f64 (wall 4) arena g metas gate_ref in
    let '(g, report) := r in
    Done (g, set_attach_catchup_pending gc (ar_hit_cap report), ar_attached_pools report, ar_hit_cap report)
  else
    Done (g, if (scan_missing && gc_attach_catchup_pending gc)%bool then set_attach_catchup_pending gc false else gc,
          0%nat, false).

(** One meta of the forced attach. *)
Definition force_attach_step (need_force : list PoolIndex) (st : RoutingGraph * list PoolIndex) (meta : PoolMeta)
    : outcome (RoutingGraph * list PoolIndex) :=
  let '(g, attached) := st in
  if bool_decide (pm_pool_index meta ∉ need_force) then Done st
  else if pool_has_edges g (pm_pool_index meta) then Done (g, attached ++ [pm_pool_index meta])
  else
    let! r := attach_pool_to_graph (wall 5) g arena meta None in
    Done (r.1, if r.2 : bool then attached ++ [pm_pool_index meta] else attached).

(** The observed pools are attached whatever the gate says: the graph, and how many of them are live. *)
Definition lf_force_attach (g : RoutingGraph) : outcome (RoutingGraph * nat) :=
  if (lw_force_cycle_refind work && negb (is_empty (lw_observed_pool_indices work)))%bool then
    let need_force := filter (λ p, pool_has_live_edges g p = false) (lw_observed_pool_indices work) in
    if is_empty need_force then Done (g, 0%nat)
    else
      let! st := ofold (force_attach_step need_force) metas (g, []) in
      let '(g, attached) := st in
      let! g :=
        (if is_empty attached then Done g
         else let! r := rescore_pools_in_place ln_f64 arena g attached in Done (refresh_graph_cycle_coverage r.1)) in
      Done (g, length (filter (λ p, pool_has_live_edges g p = true) attached))
  else Done (g, 0%nat).

(** ** The cycles *)

(** What the stages above have left: the graph, the cache, the pools attached and the cap. *)
Record Patched := {
  pt_graph : RoutingGraph;
  pt_cache : GraphCache;
  pt_missing : nat;
  pt_forced : nat;
  pt_hit_cap : bool;
}.

Definition lf_patch (plan : Plan) (gc : GraphCache) : outcome Patched :=
  let! r := lf_graph plan gc in
  let '(g, gc) := r in
  let! r := lf_attach plan g gc in
  let '(g, gc, attached, hit_cap) := r in
  let! r := lf_force_attach g in
  let '(g, forced) := r in
  let missing := (attached + forced)%nat in
  Done {| pt_graph := g;
          pt_cache := if (0 <? missing)%nat then store_pass gc g (keep_cycles plan) (pl_eligible plan) else gc;
          pt_missing := missing; pt_forced := forced; pt_hit_cap := hit_cap |}.

Definition cached_cycles (plan : Plan) (pt : Patched) : option (list FoundCycle) :=
  or_else (gc_cycles (pt_cache pt)) (pl_prior_cycles plan).

Definition need_cycle_refind (plan : Plan) (pt : Patched) : bool :=
  ((pl_needs_rebuild plan && negb (pl_cycle_cache_valid plan))
   || ((0 <? pt_missing pt)%nat && (lw_force_cycle_refind work || (0 <? pt_forced pt)%nat || negb (pt_hit_cap pt)))
   || lw_force_cycle_refind work
   || is_none (gc_cycles (pt_cache pt))
   || is_none (cached_cycles plan pt)
   || needs_cycle_refind (pt_cache pt) (lw_state_generation work) (length (lw_dirty_pools work))
        (length (ai_pools (sa_inner arena))))%bool.

Definition incremental_refind (plan : Plan) (pt : Patched) : bool :=
  (negb (pl_needs_rebuild plan) && pl_cycle_cache_valid plan
   && match cached_cycles plan pt with Some (_ :: _) => true | _ => false end
   && (pt_missing pt =? 0)%nat && (lw_force_cycle_refind work || pl_connectivity_stale plan))%bool.

(** The graph before the search: a slot for every token, the observed pools priced. *)
Definition search_graph (g : RoutingGraph) : outcome RoutingGraph :=
  let g := if rg_token_count g <? arena_token_count arena then ensure_token_capacity g (arena_token_count arena) else g in
  if (lw_force_cycle_refind work && negb (is_empty (lw_observed_pool_indices work)))%bool then
    let! r := rescore_pools_in_place ln_f64 arena g (lw_observed_pool_indices work) in Done r.1
  else Done g.

(** The start tokens, and what the observed pools ask of the search. *)
Record SearchPlan := {
  sp_starts : list TokenIndex;
  sp_bridge_only : bool;
  sp_exclusive : bool;
}.

Definition search_plan (g : RoutingGraph) : SearchPlan :=
  let observed := lw_observed_pool_indices work in
  let starts :=
    extend_obs_starts_with_priced_hubs (observed_pool_start_tokens arena metas observed (Some g)) arena metas observed
      (lw_prior_rates work) in
  let pin_covered :=
    match rg_coverage g with
    | Some cov => length (filter (λ p, Z.to_nat p ∈ cc_pool_indices cov) observed)
    | None => 0%nat
    end in
  let bridge_only := (lw_force_cycle_refind work && negb (is_empty observed) && (pin_covered =? 0)%nat)%bool in
  {| sp_starts := starts; sp_bridge_only := bridge_only;
     sp_exclusive := (lw_force_cycle_refind work && negb (is_empty starts) && negb bridge_only)%bool |}.

Definition probe_context : ProbeContext :=
  {| pb_token_to_matic_rates := if lw_force_cycle_refind work then None else Some (lw_prior_rates work);
     pb_token_decimals := Some (lw_token_decimals work); pb_gas_price_wei := lw_gas_price_wei work |}.

Definition lf_passes : list CycleSearchPass := cycle_search_passes (lw_max_hops work) (lw_max_paths work).

(** The search from the hubs alone. *)
Definition hub_search (g : RoutingGraph) (th : SearchThread) : outcome (list FoundCycle * SearchThread) :=
  find_cycles_for_mode ln_f64 now tid cycle_key (lw_cycle_finder work) arena g metas lf_passes true (Some probe_context) th.

(** The search of the pass. *)
Definition lf_search (incremental : bool) (sp : SearchPlan) (g : RoutingGraph) (th : SearchThread)
    : outcome (list FoundCycle * SearchThread) :=
  let with_budget budget :=
    find_cycles_for_mode_with_budget ln_f64 now tid cycle_key arena g metas lf_passes (negb (sp_exclusive sp))
      (Some probe_context) budget (sp_starts sp) (sp_exclusive sp)
      (if sp_exclusive sp then lw_observed_pool_indices work else []) (sp_exclusive sp) (lw_cycle_finder work) th in
  if sp_bridge_only sp then Done ([], th)
  else if incremental then with_budget CYCLE_ENUM_PATCH_BUDGET
  else if is_empty (sp_starts sp) then hub_search g th
  else with_budget CYCLE_ENUM_TIME_BUDGET.

(** The cycles found, and those of the cache that are kept with them. *)
Definition merge_cached (incremental : bool) (sp : SearchPlan) (cached : option (list FoundCycle)) (found : list FoundCycle)
    : list FoundCycle :=
  if (incremental || lw_force_cycle_refind work || sp_bridge_only sp)%bool then
    match cached with
    | Some cached =>
        found ++ (if sp_exclusive sp then filter (λ c, touches (lw_observed_pool_indices work) c = true) cached else cached)
    | None => found
    end
  else found.

Definition MIN_EXCLUSIVE_SNAP : nat := 64.

(** What is published of the cycles collected. *)
Definition lf_publish (sp : SearchPlan) (cached : option (list FoundCycle)) (collected : list FoundCycle) (g : RoutingGraph)
    (th : SearchThread) : outcome (list FoundCycle * SearchThread) :=
  let max_paths := lw_max_paths work in
  let diversified :=
    if (is_empty (lw_observed_pool_indices work) || sp_bridge_only sp)%bool
    then finalize_enumerated_cycles cycle_key collected max_paths
    else pin_cycles_touching_pools cycle_key collected (lw_observed_pool_indices work) max_paths false in
  if ((sp_exclusive sp || sp_bridge_only sp) && is_empty diversified)%bool then
    match cached with
    | Some ((_ :: _) as prior) => Done (prune_dust_v2_cycles_arc arena prior, th)
    | _ =>
        let! r := hub_search g th in
        Done (prune_dust_v2_cycles arena (finalize_enumerated_cycles cycle_key r.1 max_paths), r.2)
    end
  else
    let prior := default [] cached in
    if (sp_exclusive sp && (length diversified <? MIN_EXCLUSIVE_SNAP)%nat && (length diversified <? length prior)%nat)%bool
    then Done (prune_dust_v2_cycles arena (push_unseen max_paths prior diversified), th)
    else Done (prune_dust_v2_cycles arena diversified, th).

(** The cycles are searched again: the graph they were searched in, the cycles, how many were collected. *)
Definition lf_refind (plan : Plan) (pt : Patched) (th : SearchThread)
    : outcome (RoutingGraph * list FoundCycle * nat * SearchThread) :=
  let incremental := incremental_refind plan pt in
  let! g := search_graph (pt_graph pt) in
  let sp := search_plan g in
  let! r := lf_search incremental sp g th in
  let '(found, th) := r in
  let collected := merge_cached incremental sp (cached_cycles plan pt) found in
  let! r := lf_publish sp (cached_cycles plan pt) collected g th in
  Done (g, r.1, length collected, r.2).

Definition lf_cycles (plan : Plan) (pt : Patched) (th : SearchThread)
    : outcome (RoutingGraph * list FoundCycle * nat * SearchThread) :=
  if need_cycle_refind plan pt then lf_refind plan pt th
  else
    let pruned := prune_dust_v2_cycles_arc arena (default [] (cached_cycles plan pt)) in
    Done (pt_graph pt, pruned, length pruned, th).
End overlaid.

(** The result, and the caches and the arrays of the thread afterwards. *)
Definition run_lf_cpu_work (work : LfCpuWork) (th : SearchThread)
    : outcome (LfCpuResult * GraphCache * StateCache * SearchThread) :=
  let work := overlay_dirty_cache_states work in
  let! plan := lf_plan work (lw_graph_cache work) in
  let! pt := lf_patch work plan (lw_graph_cache work) in
  let! r := lf_cycles work plan pt th in
  let '(g, cycles, enumerated, th) := r in
  Done ({| lr_graph := g; lr_cycles := cycles; lr_enumerated_cycles := enumerated; lr_attach_hit_cap := pt_hit_cap pt |},
        store_pass work (pt_cache pt) g (Some cycles) (pl_eligible plan), lw_cache work, th).
End pass.
