(* ===== verification/LowFreqClaims.v ===== *)
(** * What a low-frequency pass publishes

    The stages of [run_lf_cpu_work], each with what it promises to the next: the graph stays
    reachable, the cycles are sound or were cached, the search is repeated exactly when it
    should be, and what the next pass finds in the cache is what this one published. *)
From stdpp Require Import gmap sorting relations.
From Corelib Require Import SpecFloat.
From S2P Require Import Prelude Word Types Profit Arena Routes Realign LocalSim TokenRates FlashLiquidity CycleRank CycleFilter.
From S2P Require Import Graph GraphEdges GraphOps GraphInv GraphSteps GraphClaims Coverage BellmanFord ActiveGraph CycleDfs CycleDfsClaims CycleFilterClaims.
From S2P Require Import BellmanFordInv BellmanFordClaims CycleSearch CycleSearchClaims StateCache GraphCache LowFreq.

(** ** Lists of cycles *)

Lemma prune_arc_eq arena cycles : prune_dust_v2_cycles_arc arena cycles = prune_dust_v2_cycles arena cycles.
Proof.
  unfold prune_dust_v2_cycles_arc, prune_dust_v2_cycles. induction cycles as [|c cs IH]; [done|].
  rewrite filter_cons. cbn [first_dust]. destruct (touches_dust arena c) eqn:E; [done|]. rewrite decide_True by done.
  rewrite <- IH. by destruct (first_dust arena cs).
Qed.

Lemma elem_of_prune arena cycles c :
  c ∈ prune_dust_v2_cycles arena cycles ↔ touches_dust arena c = false ∧ c ∈ cycles.
Proof. unfold prune_dust_v2_cycles. by rewrite list_elem_of_filter. Qed.

Lemma length_prune arena cycles : (length (prune_dust_v2_cycles arena cycles) ≤ length cycles)%nat.
Proof. apply length_filter. Qed.

Lemma elem_of_push_unseen n more : ∀ out c, c ∈ push_unseen n more out → c ∈ more ∨ c ∈ out.
Proof.
  induction more as [|d more IH]; cbn; [by right|]. intros out c. rewrite elem_of_cons. case_bool_decide.
  - intros Hc%IH. naive_solver.
  - destruct (_ <=? _)%nat; [|intros Hc%IH; revert Hc]; rewrite elem_of_app, list_elem_of_singleton; naive_solver.
Qed.

Lemma length_push_unseen n more : ∀ out, (length out < n)%nat → (length (push_unseen n more out) ≤ n)%nat.
Proof.
  induction more as [|d more IH]; cbn; [lia|]. intros out Hl. case_bool_decide; [by apply IH|].
  destruct (Nat.leb_spec n (length (out ++ [d]))) as [Hn|Hn]; [rewrite length_app in *; cbn in *; lia|by apply IH].
Qed.

Section selection.
Context (cycle_key : list Edge → Z).

Lemma finalize_part cycles n :
  (length (finalize_enumerated_cycles cycle_key cycles n) ≤ n)%nat ∧
  ∀ c, c ∈ finalize_enumerated_cycles cycle_key cycles n → c ∈ cycles.
Proof.
  destruct (diverse_selection_keeps cycle_key cycles n) as (Hl & Hin & _). unfold finalize_enumerated_cycles. split; [lia|].
  intros c Hc. destruct (dedupe_spec cycle_key cycles) as (_ & _ & Hd & _). apply Hd. by eapply elem_of_submseteq.
Qed.

(** The selection around the observed pools is a part of the cycles, within the quota. *)
Lemma pin_part cycles pools n only :
  let out := pin_cycles_touching_pools cycle_key cycles pools n only in
  (length out ≤ n)%nat ∧ ∀ c, c ∈ out → c ∈ cycles.
Proof.
  intros out. unfold out, pin_cycles_touching_pools.
  destruct (Nat.eqb_spec n 0) as [->|Hn]; [apply finalize_part|]. cbn [orb].
  destruct (_ || _)%bool; [apply finalize_part|]. cbv zeta.
  set (pinned := filter _ cycles). set (rest := filter (λ c, touches pools c = false) cycles).
  assert (∀ c, c ∈ rest → c ∈ cycles) as Hrest by (by intros c [_ ?]%list_elem_of_filter).
  destruct (is_empty pinned); [destruct only; [split; [cbn; lia|by intros c ?%elem_of_nil]|]|].
  { destruct (finalize_part rest n) as [F1 F2]. split; [done|auto]. }
  set (kept := take n _).
  assert (∀ c, c ∈ kept → c ∈ cycles) as Hkept.
  { intros c Hc. eapply elem_of_submseteq in Hc; [|apply sublist_submseteq, sublist_take]. apply elem_of_sort_by, list_elem_of_filter in Hc. apply Hc. }
  assert (length kept ≤ n)%nat as Hl by (unfold kept; rewrite length_take; lia).
  destruct only; [done|]. destruct (finalize_part rest (n - length kept)) as [F1 F2]. split.
  - destruct (decide (length kept = n)) as [E|E]; [|apply length_push_unseen; lia].
    destruct (finalize_enumerated_cycles _ _ _); cbn in *; lia.
  - intros c [Hc|Hc]%elem_of_push_unseen; auto.
Qed.
End selection.

(** ** Tokens *)

Lemma push_all_nonneg l out : nonneg l → nonneg out → nonneg (fold_left push_fresh l out).
Proof.
  rewrite Forall_forall. intros Hl Ho. apply (fold_left_inv nonneg); [done|].
  intros o t Ht Hoo. apply push_fresh_nonneg; [done|by apply Hl].
Qed.

(** The overlay changes states, not indices. *)
Lemma apply_hot_cache_inner a read addrs : sa_inner (apply_hot_cache a read addrs) = sa_inner a.
Proof.
  unfold apply_hot_cache, apply_hot_cache_unique. cbv zeta. destruct (if (_ <? _)%nat then _ else addrs) as [|u us]; [done|].
  destruct (hot_cache_fold_frame (fresh_states (read (u :: us))) (u :: us) (ensure_hot_storage a)) as (-> & _).
  unfold ensure_hot_storage. by destruct (_ =? _)%nat.
Qed.

Lemma names_tokens_inner a b meta : sa_inner a = sa_inner b → names_tokens a meta → names_tokens b meta.
Proof. unfold names_tokens, tokens_below, arena_token_count. by intros ->. Qed.

Section starts.
Context (arena : StateArena) (metas : list PoolMeta) (Hnames : Forall (names_tokens arena) metas).

Lemma meta_tokens_nonneg meta : meta ∈ metas → Forall (λ t, 0 ≤ t) (pm_tokens meta).
Proof using Hnames.
  rewrite Forall_forall in Hnames. intros Hm. destruct (Hnames meta Hm) as (H & _). eapply Forall_impl; [exact H|]. cbn. lia.
Qed.

Lemma observed_starts_nonneg pools g : nonneg (observed_pool_start_tokens arena metas pools g).
Proof using Hnames.
  unfold observed_pool_start_tokens. destruct (is_empty pools); [constructor|].
  assert (nonneg (fold_left (push_pool_starts arena pools) metas [])) as H1.
  { apply (fold_left_inv nonneg); [constructor|]. intros out meta Hm Ho. unfold push_pool_starts. case_bool_decide; [done|].
    case_match; apply push_all_nonneg; [|done|by apply meta_tokens_nonneg|done].
    destruct (pool_state _ _) as [state|]; [|constructor]. apply Forall_forall. intros t (leg & _ & Ht)%list_elem_of_omap.
    rewrite Forall_forall in Hnames. eapply routing_token_below in Ht; [lia|by apply Hnames]. }
  destruct g as [g|]; [|done]. apply (fold_left_inv nonneg); [done|]. intros out ti _ Ho.
  destruct (existsb _ _); [|done]. apply push_fresh_nonneg; [done|lia].
Qed.

Lemma extended_starts_nonneg starts pools rates : nonneg starts →
  nonneg (extend_obs_starts_with_priced_hubs starts arena metas pools rates).
Proof using Hnames.
  intros Hs. unfold extend_obs_starts_with_priced_hubs. destruct (_ || _)%bool; [done|].
  apply (fold_left_inv nonneg); [done|]. intros out meta Hm Ho. case_bool_decide; [done|].
  apply (fold_left_inv nonneg); [done|]. intros o t Ht Hoo. destruct (priced_hub _ _ _); [|done].
  apply push_fresh_nonneg; [done|]. pose proof (meta_tokens_nonneg meta Hm) as Hmt.
  rewrite Forall_forall in Hmt. by apply Hmt.
Qed.

(** The expansion of the hubs has steps enough: the default is never taken. *)
Lemma spoke_set_reached rates :
  expand_hub_spoke_resolvable elements (spoke_fuel (resolvable_token_set rates arena) metas arena)
    (resolvable_token_set rates arena) metas arena = Some (spoke_connectivity_set rates metas arena).
Proof.
  unfold spoke_connectivity_set.
  destruct (expand_hub_spoke_reachable elements (λ X, Permutation_refl _) (resolvable_token_set rates arena) metas arena
    (spoke_fuel (resolvable_token_set rates arena) metas arena)) as (R & -> & _); [reflexivity|done].
Qed.
End starts.

Lemma search_passes_hops hops n : Forall (λ p, 0 ≤ csp_max_hops p) (cycle_search_passes hops n).
Proof. unfold cycle_search_passes. case_match; repeat constructor; cbn; unfold HOP_CAP; lia. Qed.

(** ** The stages *)

(** The clock of the passes is as it was. *)
Definition same_clock (gc gc' : GraphCache) : Prop :=
  gc_lf_pass_count gc' = gc_lf_pass_count gc ∧ gc_cycle_refind_interval gc' = gc_cycle_refind_interval gc.

(** What a stage may do to the cycles of the cache: keep them or drop them. *)
Definition cycles_from (gc gc' : GraphCache) : Prop := ∀ cs, gc_cycles gc' = Some cs → gc_cycles gc = Some cs ∧ cs ≠ [].

(** What the cache holds between passes: a reachable graph, and a list of cycles within the quota
    that is not empty. *)
Record cache_ok (ln_f64 : f64 → f64) (max_paths : nat) (gc : GraphCache) : Prop := {
  co_graph : ∀ g, gc_graph gc = Some g → reachable ln_f64 g;
  co_cycles : ∀ cs, gc_cycles gc = Some cs → cs ≠ [] ∧ (length cs ≤ max_paths)%nat;
}.

Lemma no_cycles_iff gc : no_cycles gc = false ↔ ∃ c cs, gc_cycles gc = Some (c :: cs).
Proof. unfold no_cycles. destruct (gc_cycles gc) as [[|c cs]|]; split; (done || naive_solver). Qed.

Section reach.
Context (ln_f64 : f64 → f64).

Lemma reachable_step g g' : graph_step ln_f64 g g' → reachable ln_f64 g → reachable ln_f64 g'.
Proof. intros Hs (tc & Htc & Hr). exists tc. split; [done|]. by eapply rtc_r. Qed.

Lemma build_reachable now arena metas gate g : Forall (names_tokens arena) metas →
  build_graph_with_gate ln_f64 now arena metas gate = Done g → reachable ln_f64 g.
Proof.
  intros Hn (g1 & Hg1 & Hg)%obind_Done. eapply reachable_step; [by eapply step_finalize|].
  eapply (ofold_inv (reachable ln_f64)); [| |exact Hg1].
  - intros g2 meta g3 Hm Hr ([g4 b] & Ha & [= <-])%obind_Done. eapply reachable_step; [|exact Hr].
    rewrite Forall_forall in Hn. by eapply step_attach; [apply Hn|].
  - exists (arena_token_count arena). split; [unfold arena_token_count; lia|apply rtc_refl].
Qed.
End reach.

Section stages.
Context (ln_f64 : f64 → f64) (prefix_hash : list Z → Z) (cycle_key : list Edge → Z).
Context (wall : nat → Z) (now : nat → Z) (tid : nat) (work : LfCpuWork).
Context (Hnames : Forall (names_tokens (lw_arena work)) (lw_pool_metas work)).

Abbreviation arena := (lw_arena work).
Abbreviation reachable := (reachable ln_f64).

(** A stage that leaves [g] as the graph of the cache, stamped with the generation of the pass. *)
Record stored (gc gc' : GraphCache) (g : RoutingGraph) : Prop := {
  sd_reachable : reachable g;
  sd_generation : gc_cached_state_generation gc' = lw_state_generation work;
  sd_cycles : cycles_from gc gc';
  sd_clock : same_clock gc gc';
}.

Lemma store_pass_stored gc gc' g cycles n : reachable g → (∀ cs, cycles = Some cs → gc_cycles gc = Some cs) → same_clock gc gc' →
  stored gc (store_pass prefix_hash work gc' g cycles n) g.
Proof.
  intros Hr Hc Hs. split; [done|done| |done]. intros cs. cbn. destruct cycles as [[|c l]|]; try done. intros [= <-].
  split; [by apply Hc|done].
Qed.

Lemma build_stored plan cycles gc g gc' : (∀ cs, cycles = Some cs → gc_cycles gc = Some cs) →
  build_and_store ln_f64 prefix_hash wall work plan cycles gc = Done (g, gc') → stored gc gc' g.
Proof using Hnames.
  intros Hc (g1 & Hg & [= <- <-])%obind_Done. apply store_pass_stored; [by eapply build_reachable|done|done].
Qed.

Lemma keep_from plan gc cs : pl_prior_cycles plan = gc_cycles gc → keep_cycles plan = Some cs → gc_cycles gc = Some cs.
Proof. unfold keep_cycles. destruct (pl_cycle_cache_valid plan); [congruence|done]. Qed.

Lemma lf_graph_stored plan gc g gc' : (∀ g, gc_graph gc = Some g → reachable g) → pl_prior_cycles plan = gc_cycles gc →
  (∀ cs, gc_cycles gc = Some cs → cs ≠ []) →
  lf_graph ln_f64 prefix_hash wall work plan gc = Done (g, gc') → stored gc gc' g.
Proof using Hnames.
  intros Hr Hp Hne. unfold lf_graph. destruct (pl_needs_rebuild plan).
  { apply build_stored. intros cs. by apply keep_from. }
  intros (gc1 & H1 & ([rescored gc2] & H2 & H3)%obind_Done)%obind_Done.
  assert ((∀ g, gc_graph gc1 = Some g → reachable g) ∧ cycles_from gc gc1 ∧ same_clock gc gc1 ∧ is_Some (gc_graph gc1)) as (R1 & C1 & S1 & [g1 G1]).
  { destruct (gc_graph gc) as [g0|] eqn:E; cbn in H1.
    - injection H1 as <-. split_and!; [by rewrite E|by intros cs Hcs; split; [|apply Hne]|done|done].
    - apply obind_Done in H1 as ([g0 gc0] & (g1 & Hg & [= <- <-])%obind_Done & [= <-]). cbn.
      split_and!; [|done|done|done]. intros ? [= <-]. by eapply build_reachable. }
  destruct (negb _) eqn:En.
  - unfold rescore_dirty_and_update in H2. rewrite G1 in H2. apply obind_Done in H2 as ([g2 report] & Hd & [= <- <-]).
    cbn in H3. injection H3 as <- <-. split; [|done| |done].
    + eapply reachable_step; [by eapply step_rescore_dirty|by apply R1].
    + intros cs. cbn. destruct (gc_cycles gc1) as [[|c l]|] eqn:Ec; try done. intros [= <-]. by apply C1.
  - injection H2 as <- <-. cbn in H3. rewrite G1 in H3. injection H3 as <- <-.
    apply negb_false_iff, Z.eqb_eq in En. split; [by apply R1|done|done|done].
Qed.

(** The latch is all an attach changes in the cache. *)
Definition same_but_latch (gc gc' : GraphCache) : Prop := ∃ b, gc' = set_attach_catchup_pending gc b.

Lemma same_latch_refl gc : same_but_latch gc gc.
Proof. exists (gc_attach_catchup_pending gc). by destruct gc. Qed.

Lemma lf_attach_reachable plan g gc g' gc' n b : reachable g →
  lf_attach ln_f64 wall work plan g gc = Done (g', gc', n, b) → reachable g' ∧ same_but_latch gc gc'.
Proof using Hnames.
  intros Hr (gc1 & H1 & (missing & H2 & H3)%obind_Done)%obind_Done.
  assert (same_but_latch gc gc1) as [b1 ->].
  { destruct (_ && _ && _)%bool; [|injection H1 as <-; apply same_latch_refl].
    apply obind_Done in H1 as (m & _ & [= <-]). destruct m; [apply same_latch_refl|by exists false]. }
  destruct missing.
  - apply obind_Done in H3 as ([g2 report] & Ha & [= <- <- _ _]). split; [|by eexists].
    eapply reachable_step; [by eapply step_attach_missing|done].
  - injection H3 as <- <- _ _. split; [done|]. destruct (_ && b1)%bool; [exists false|exists b1]; reflexivity.
Qed.

Lemma lf_force_reachable g g' n : reachable g → lf_force_attach ln_f64 wall work g = Done (g', n) → reachable g'.
Proof using Hnames.
  intros Hr. unfold lf_force_attach. destruct (_ && _)%bool; [|by intros [= <- _]]. destruct (is_empty _); [by intros [= <- _]|].
  intros ([g1 attached] & H1 & (g2 & H2 & [= <- _])%obind_Done)%obind_Done.
  assert (reachable g1) as Hr1.
  { refine (ofold_inv (λ st, reachable (fst st)) _ _ (g, []) (g1, attached) _ Hr H1). clear -Hnames. intros [g2 l] meta st Hm Hr. cbn [fst] in *.
    unfold force_attach_step. case_bool_decide; [by intros [= <-]|]. destruct (pool_has_edges _ _); [by intros [= <-]|].
    intros ([g3 b] & Ha & [= <-])%obind_Done. eapply reachable_step; [|exact Hr]. rewrite Forall_forall in Hnames.
    by eapply step_attach; [apply Hnames|]. }
  destruct (is_empty attached); [by injection H2 as <-|]. apply obind_Done in H2 as ([g3 m] & H3 & [= <-]).
  eapply reachable_step; [apply step_coverage|]. eapply reachable_step; [by eapply step_rescore_pools|done].
Qed.

Lemma lf_patch_stored plan gc pt : (∀ g, gc_graph gc = Some g → reachable g) → pl_prior_cycles plan = gc_cycles gc →
  (∀ cs, gc_cycles gc = Some cs → cs ≠ []) →
  lf_patch ln_f64 prefix_hash wall work plan gc = Done pt → stored gc (pt_cache pt) (pt_graph pt).
Proof using Hnames.
  intros Hr Hp Hne ([g1 gc1] & H1 & ([[[g2 gc2] n] cap] & H2 & ([g3 m] & H3 & [= <-])%obind_Done)%obind_Done)%obind_Done.
  apply lf_graph_stored in H1 as [S1 S2 S3 S4]; [|done..]. apply lf_attach_reachable in H2 as [R2 [b ->]]; [|done].
  apply lf_force_reachable in H3; [|done]. cbn [pt_cache pt_graph]. destruct (0 <? n + m)%nat; [|split; [done|exact S2|exact S3|exact S4]].
  apply store_pass_stored; [done| |done]. intros cs. by apply keep_from.
Qed.

Lemma cached_from plan gc pt cs : cycles_from gc (pt_cache pt) → pl_prior_cycles plan = gc_cycles gc →
  cached_cycles plan pt = Some cs → gc_cycles gc = Some cs.
Proof.
  intros Hc Hp. unfold cached_cycles. destruct (gc_cycles (pt_cache pt)) as [l|] eqn:E; cbn; [|congruence].
  intros [= <-]. by apply Hc.
Qed.
End stages.

(** ** The search and what is published *)

Section search.
Context (ln_f64 : f64 → f64) (cycle_key : list Edge → Z) (now : nat → Z) (tid : nat) (work : LfCpuWork).
Context (Hnames : Forall (names_tokens (lw_arena work)) (lw_pool_metas work)).

Abbreviation arena := (lw_arena work).
Abbreviation observed := (lw_observed_pool_indices work).

(** Sound in the graph; the observed pools are excused only when the pass is for them. *)
Definition pass_sound (g : RoutingGraph) (c : FoundCycle) : Prop :=
  ∃ exclusive, (exclusive = true → lw_force_cycle_refind work = true) ∧
    sound_cycle ln_f64 arena g exclusive (if exclusive then observed else []) c.

Lemma search_graph_reachable g g' : reachable ln_f64 g → search_graph ln_f64 work g = Done g' → reachable ln_f64 g'.
Proof.
  intros Hr. unfold search_graph. cbv zeta. set (g1 := if _ <? _ then _ else g).
  assert (reachable ln_f64 g1) as Hr1.
  { unfold g1. destruct (_ <? _); [|done]. by eapply reachable_step; [apply step_capacity|]. }
  destruct (_ && _)%bool; [|by intros [= <-]]. intros ([g2 n] & H2 & [= <-])%obind_Done.
  by eapply reachable_step; [eapply step_rescore_pools|].
Qed.

Lemma exclusive_forced g : sp_exclusive (search_plan work g) = true → lw_force_cycle_refind work = true.
Proof. cbn. rewrite !andb_true_iff. by intros [[? _] _]. Qed.

Lemma search_sound passes atomic ctx budget extra (exclusive : bool) pools uni mode g th out th' :
  reachable ln_f64 g → nonneg extra → Forall (λ p, 0 ≤ csp_max_hops p) passes → thread_clean th →
  pools = (if exclusive then observed else []) → (exclusive = true → lw_force_cycle_refind work = true) →
  find_cycles_for_mode_with_budget ln_f64 now tid cycle_key arena g (lw_pool_metas work) passes atomic ctx budget extra
    exclusive pools uni mode th = Done (out, th') →
  thread_clean th' ∧ Forall (pass_sound g) out.
Proof using Hnames.
  intros Hr He Hh Ht -> Hx E. eapply mode_search_found in E as (C & S & _); [|done..]. split; [done|].
  eapply Forall_impl; [exact S|]. intros c Hc. by exists exclusive.
Qed.

Lemma hub_search_sound g th out th' : reachable ln_f64 g → thread_clean th →
  hub_search ln_f64 cycle_key now tid work g th = Done (out, th') → thread_clean th' ∧ Forall (pass_sound g) out.
Proof using Hnames.
  intros Hr Ht. unfold hub_search, find_cycles_for_mode. apply search_sound; (done || apply search_passes_hops).
Qed.

Lemma lf_search_sound incremental g th out th' : reachable ln_f64 g → thread_clean th →
  lf_search ln_f64 cycle_key now tid work incremental (search_plan work g) g th = Done (out, th') →
  thread_clean th' ∧ Forall (pass_sound g) out.
Proof using Hnames.
  intros Hr Ht. unfold lf_search. cbv zeta. destruct (sp_bridge_only _); [intros [= <- <-]; split; [done|constructor]|].
  assert (nonneg (sp_starts (search_plan work g))) as Hs.
  { cbn. apply extended_starts_nonneg; [done|]. by apply observed_starts_nonneg. }
  destruct incremental; [|destruct (is_empty _); [by apply hub_search_sound|]];
    (apply search_sound; [done|done|apply search_passes_hops|done|done|apply exclusive_forced]).
Qed.

(** What is published comes from what was collected, from the cache or from a search, is within the
    quota and has no dust. *)
Lemma lf_publish_sound sp cached collected g th out th' : reachable ln_f64 g → thread_clean th →
  (length (default [] cached) ≤ lw_max_paths work)%nat →
  lf_publish ln_f64 cycle_key now tid work sp cached collected g th = Done (out, th') →
  thread_clean th' ∧ (length out ≤ lw_max_paths work)%nat ∧
  ∀ c, c ∈ out → touches_dust arena c = false ∧ (c ∈ collected ∨ c ∈ default [] cached ∨ pass_sound g c).
Proof using Hnames.
  intros Hr Ht Hl. unfold lf_publish. cbv zeta. set (div := if (_ || _)%bool then _ else _).
  assert ((length div ≤ lw_max_paths work)%nat ∧ ∀ c, c ∈ div → c ∈ collected) as [D1 D2].
  { unfold div. destruct (_ || _)%bool; [apply finalize_part|apply pin_part]. }
  destruct ((_ || _) && _)%bool.
  - destruct cached as [[|c0 cs]|].
    2: { intros [= <- <-]. rewrite prune_arc_eq. split_and!; [done|etrans; [apply length_prune|done]|].
         intros c [Hd Hc]%elem_of_prune. split; [done|by right; left]. }
    all: intros ([refill th1] & E & [= <- <-])%obind_Done; apply hub_search_sound in E as [E1 E2]; [|done..];
      destruct (finalize_part cycle_key refill (lw_max_paths work)) as [F1 F2];
      (split_and!; [done|etrans; [apply length_prune|done]|]); intros c [Hd Hc]%elem_of_prune; (split; [done|]);
      right; right; rewrite Forall_forall in E2; by apply E2, F2.
  - destruct (_ && _ && _)%bool eqn:Eb; intros [= <- <-]; (split_and!; [done|etrans; [apply length_prune|]|]).
    + apply andb_true_iff in Eb as [_ Eb%Nat.ltb_lt]. apply length_push_unseen. lia.
    + intros c [Hd Hc]%elem_of_prune. split; [done|]. apply elem_of_push_unseen in Hc as [?|?]; [by right; left|by left; apply D2].
    + done.
    + intros c [Hd Hc]%elem_of_prune. split; [done|]. by left; apply D2.
Qed.

Lemma merge_part incremental sp cached found c : c ∈ merge_cached work incremental sp cached found →
  c ∈ found ∨ c ∈ default [] cached.
Proof.
  unfold merge_cached. destruct (_ || _ || _)%bool; [|by left]. destruct cached as [cs|]; [|by left].
  intros [?|Hc]%elem_of_app; [by left|right]. destruct (sp_exclusive sp); [|done]. by apply list_elem_of_filter in Hc as [_ ?].
Qed.

Lemma lf_cycles_sound plan pt th g out n th' : reachable ln_f64 (pt_graph pt) → thread_clean th →
  (length (default [] (cached_cycles plan pt)) ≤ lw_max_paths work)%nat →
  lf_cycles ln_f64 cycle_key now tid work plan pt th = Done (g, out, n, th') →
  reachable ln_f64 g ∧ thread_clean th' ∧ (length out ≤ lw_max_paths work)%nat ∧
  ∀ c, c ∈ out → touches_dust arena c = false ∧ (c ∈ default [] (cached_cycles plan pt) ∨ pass_sound g c).
Proof using Hnames.
  intros Hr Ht Hl. unfold lf_cycles. destruct (need_cycle_refind _ _ _).
  - intros (g1 & H1 & ([found th1] & H2 & ([cycles th2] & H3 & [= <- <- _ <-])%obind_Done)%obind_Done)%obind_Done.
    apply search_graph_reachable in H1; [|done]. apply lf_search_sound in H2 as [S1 S2]; [|done..].
    apply lf_publish_sound in H3 as (P1 & P2 & P3); [|done..]. split_and!; [done..|].
    intros c Hc. destruct (P3 c Hc) as [Hd Hin]. split; [done|]. destruct Hin as [Hin|[?|?]]; [|by left|by right].
    rewrite Forall_forall in S2. apply merge_part in Hin as [?|?]; [right; by apply S2|by left].
  - intros [= <- <- _ <-]. rewrite prune_arc_eq. split_and!; [done|done|etrans; [apply length_prune|done]|].
    intros c [Hd Hc]%elem_of_prune. split; [done|by left].
Qed.
End search.

(** ** The pass *)

Section pass.
Context (ln_f64 : f64 → f64) (prefix_hash : list Z → Z) (cycle_key : list Edge → Z).
Context (others : nat → StateCache → StateCache) (instant wall now : nat → Z) (tid : nat).

Abbreviation overlaid := (overlay_dirty_cache_states others instant).

(** The overlay changes the states of the pools, the dirty pools and the generation. *)
Lemma overlay_frame work :
  sa_inner (lw_arena (overlaid work)) = sa_inner (lw_arena work) ∧
  lw_graph_cache (overlaid work) = lw_graph_cache work ∧ lw_pool_metas (overlaid work) = lw_pool_metas work ∧
  lw_max_paths (overlaid work) = lw_max_paths work ∧
  lw_force_cycle_refind (overlaid work) = lw_force_cycle_refind work ∧
  lw_observed_pool_indices (overlaid work) = lw_observed_pool_indices work.
Proof.
  unfold overlay_dirty_cache_states. destruct (take_dirty_pool_indices _ _) as [fresh cache]. destruct (is_empty _); [done|].
  split_and!; try done. cbn. destruct (is_empty _); [done|]. apply apply_hot_cache_inner.
Qed.

(** C12: A pass preserves what the cache promises, and publishes what it leaves there: a reachable graph,
    and cycles within the quota that touch no dust pool at the states of the pass, each of which
    was cached before or is sound in that graph; the observed pools are excused from the bar only when
    the pass was asked for them. *)
Theorem lf_pass_keeps_cache work th res gc' cache' th' :
  cache_ok ln_f64 (lw_max_paths work) (lw_graph_cache work) → Forall (names_tokens (lw_arena work)) (lw_pool_metas work) →
  thread_clean th →
  run_lf_cpu_work ln_f64 prefix_hash cycle_key others instant wall now tid work th = Done (res, gc', cache', th') →
  cache_ok ln_f64 (lw_max_paths work) gc' ∧ thread_clean th' ∧
  gc_graph gc' = Some (lr_graph res) ∧ default [] (gc_cycles gc') = lr_cycles res ∧
  ∀ c, c ∈ lr_cycles res →
    v2_any_hop_dust_reserves (lw_arena (overlaid work)) (fc_edges c) = None ∧
    (c ∈ default [] (gc_cycles (lw_graph_cache work)) ∨ pass_sound ln_f64 (overlaid work) (lr_graph res) c).
Proof.
  intros [K1 K2] Hn Ht. unfold run_lf_cpu_work. destruct (overlay_frame work) as (F1 & F2 & F3 & F4 & F5 & F6).
  set (w := overlaid work) in *. cbv zeta. rewrite F2. clearbody w.
  intros (plan & Hp & (pt & Hpt & ([[[g out] n] th1] & Hc & [= <- <- <- <-])%obind_Done)%obind_Done)%obind_Done.
  assert (Forall (names_tokens (lw_arena w)) (lw_pool_metas w)) as Hw.
  { rewrite F3. eapply Forall_impl; [exact Hn|]. intros meta. by apply names_tokens_inner. }
  assert (pl_prior_cycles plan = gc_cycles (lw_graph_cache work)) as Hprior.
  { by apply obind_Done in Hp as (? & _ & [= <-]). }
  apply (lf_patch_stored _ _ _ _ Hw) in Hpt as [S1 S2 S3 S4]; [|done|done|intros cs Hcs; by apply K2].
  assert (∀ cs, cached_cycles plan pt = Some cs → gc_cycles (lw_graph_cache work) = Some cs) as Hcached.
  { intros cs. by apply cached_from. }
  apply (lf_cycles_sound _ _ _ _ _ Hw) in Hc as (R & C & L & H); [|done|done|].
  2: { destruct (cached_cycles plan pt) as [cs|]; cbn; [rewrite F4; by apply K2, Hcached|lia]. }
  split_and!; [split|done|done|..]; cbn.
  - intros ? [= <-]. done.
  - rewrite F4 in L. destruct out as [|c cs]; [done|]. intros ? [= <-]. done.
  - by destruct out.
  - intros c Hc. destruct (H c Hc) as [Hd Hin]. split.
    + unfold touches_dust in Hd. by destruct (v2_any_hop_dust_reserves _ _).
    + destruct Hin as [Hin|]; [left|by right]. destruct (cached_cycles plan pt) as [cs|] eqn:E; [|by apply elem_of_nil in Hin].
      by rewrite (Hcached cs eq_refl).
Qed.

(** C13: When the cycles are searched again, exactly: a rebuild that lost the cached ones, pools attached
    short of the cap or by force, an observed pool, nothing cached, or the interval of the
    passes.  How many pools are dirty decides nothing, since every way to the decision
    has stamped the cache with the generation of the pass. *)
Theorem refind_decision_exact work plan pt :
  cache_ok ln_f64 (lw_max_paths work) (lw_graph_cache work) → Forall (names_tokens (lw_arena work)) (lw_pool_metas work) →
  lf_plan prefix_hash wall work (lw_graph_cache work) = Done plan →
  lf_patch ln_f64 prefix_hash wall work plan (lw_graph_cache work) = Done pt →
  need_cycle_refind work plan pt = true ↔
    (pl_needs_rebuild plan = true ∧ pl_cycle_cache_valid plan = false) ∨
    ((0 < pt_missing pt)%nat ∧ ((0 < pt_forced pt)%nat ∨ pt_hit_cap pt = false)) ∨
    lw_force_cycle_refind work = true ∨
    default [] (gc_cycles (pt_cache pt)) = [] ∨
    is_multiple_of (gc_lf_pass_count (lw_graph_cache work)) (gc_cycle_refind_interval (lw_graph_cache work)) = true.
Proof using Type.
  clear others instant now tid cycle_key.
  intros [K1 K2] Hn Hp Hpt.
  assert (pl_prior_cycles plan = gc_cycles (lw_graph_cache work)) as Hprior by (by apply obind_Done in Hp as (? & _ & [= <-])).
  apply (lf_patch_stored _ _ _ _ Hn) in Hpt as [S1 S2 S3 [S4 S5]]; [|done|done|intros cs Hcs; by apply K2].
  unfold need_cycle_refind, needs_cycle_refind, cached_cycles, no_cycles. rewrite S2, S4, S5, Z.eqb_refl. cbn [negb].
  rewrite !orb_true_iff, !andb_true_iff, !orb_true_iff, !negb_true_iff, !Nat.ltb_lt.
  destruct (gc_cycles (pt_cache pt)) as [[|c cs]|]; cbn; naive_solver.
Qed.

(** C14: A pass that is due no search, of an unchanged membership, hands on the cached cycles: it prices
    the dirty pools of the cached graph again and drops the cycles of dust pools, and it neither
    searches nor reads whether the cached cycles are still valid. *)
Theorem quiet_pass_reuses_cycles work th plan g c cs res gc' cache' th' :
  let w := overlaid work in
  gc_graph (lw_graph_cache work) = Some g → gc_cycles (lw_graph_cache work) = Some (c :: cs) →
  lf_plan prefix_hash wall w (lw_graph_cache work) = Done plan →
  pl_needs_rebuild plan = false → pl_connectivity_stale plan = false → lw_force_cycle_refind work = false →
  lw_state_generation w ≠ gc_cached_state_generation (lw_graph_cache work) →
  is_multiple_of (gc_lf_pass_count (lw_graph_cache work)) (gc_cycle_refind_interval (lw_graph_cache work)) = false →
  run_lf_cpu_work ln_f64 prefix_hash cycle_key others instant wall now tid work th = Done (res, gc', cache', th') →
  lr_cycles res = filter (λ d, v2_any_hop_dust_reserves (lw_arena w) (fc_edges d) = None) (c :: cs) ∧ th' = th ∧
  ∃ report, rescore_dirty_pools_or_full ln_f64 (lw_arena w) g (lw_dirty_pools w) (length (lw_pool_metas w)) =
    Done (lr_graph res, report).
Proof.
  intros w Hg Hcs Hp Hreb Hstale Hforce Hgen Hint. destruct (overlay_frame work) as (_ & F2 & _ & _ & F5 & _).
  unfold run_lf_cpu_work. fold w in F2, F5 |- *. cbv zeta. rewrite F2, Hp. clearbody w. cbn [obind].
  intros (pt & ([g1 gc1] & H1 & ([[[g2 gc2] n] cap] & H2 & ([g3 m] & H3 & [= <-])%obind_Done)%obind_Done)%obind_Done
          & ([[[g4 out] k] th1] & Hc & [= <- <- <- <-])%obind_Done)%obind_Done.
  unfold lf_graph in H1. rewrite Hreb, Hg in H1. cbn in H1. rewrite (proj2 (Z.eqb_neq _ _) Hgen) in H1. cbn [negb] in H1.
  unfold rescore_dirty_and_update in H1. rewrite Hg in H1.
  apply obind_Done in H1 as (r & ([g0 report] & Hd & [= <-])%obind_Done & [= <- <-]).
  unfold lf_attach in H2. rewrite Hreb, Hstale, F5, Hforce in H2. cbn [store gc_cached_eligible_pool_count] in H2. rewrite Nat.ltb_irrefl in H2.
  cbn in H2. injection H2 as <- <- <- _.
  unfold lf_force_attach in H3. rewrite F5, Hforce in H3. injection H3 as <- <-.
  unfold lf_cycles, need_cycle_refind, needs_cycle_refind, no_cycles, cached_cycles in Hc. cbn in Hc.
  rewrite Hreb, F5, Hforce, Hcs in Hc. cbn in Hc. rewrite Z.eqb_refl in Hc. cbn in Hc. rewrite Hint in Hc.
  injection Hc as <- <- _ <-. split_and!; [|done|by exists report]. cbn [lr_cycles]. rewrite prune_arc_eq.
  unfold prune_dust_v2_cycles. apply list_filter_iff. intros d. unfold touches_dust. by destruct (v2_any_hop_dust_reserves _ _).
Qed.

(** A pass whose generation is the cached one takes the cached graph as it is, whatever pools are dirty. *)
Lemma equal_generation_skips_rescore work plan gc g : gc_graph gc = Some g → pl_needs_rebuild plan = false →
  lw_state_generation work = gc_cached_state_generation gc →
  lf_graph ln_f64 prefix_hash wall work plan gc = Done (g, gc).
Proof.
  intros Hg Hreb Hgen. unfold lf_graph. rewrite Hreb, Hg. cbn. rewrite Hgen, Z.eqb_refl. cbn. by rewrite Hg.
Qed.
End pass.

(** Pools of another family below the cached count, while the membership grows: the cached cycles are
    not valid any more, and no rebuild is due. *)
Lemma flip_in_growth_invalid gc g c cs n fp prefix : gc_graph gc = Some g → gc_cycles gc = Some (c :: cs) →
  is_multiple_of (gc_lf_pass_count gc) (gc_rebuild_interval gc) = false → (gc_cached_pool_count gc < n)%nat →
  prefix ≠ gc_cached_family_prefix gc →
  cycle_cache_still_valid gc n fp prefix = false ∧ needs_connectivity_rebuild gc n fp = false.
Proof.
  intros Hg Hc Hi Hn Hp. unfold cycle_cache_still_valid, needs_connectivity_rebuild, pool_count_rebuild_due, no_cycles.
  rewrite Hg, Hc, Hi, (proj2 (Nat.ltb_ge n (gc_cached_pool_count gc))), (proj2 (Z.eqb_neq _ _) Hp) by lia. split; [done|].
  rewrite (proj2 (Nat.leb_gt n (gc_cached_pool_count gc))) by lia. by rewrite andb_false_r.
Qed.

(** ** Witnesses and findings: passes over the triangle *)

Definition demo_hash (l : list Z) : Z := Z.of_nat (length l).

Definition demo_work (gc : GraphCache) (cache : StateCache) (observed : list PoolIndex) : LfCpuWork :=
  {| lw_graph_cache := gc; lw_cache := cache; lw_arena := demo_triangle; lw_pool_metas := demo_dfs_metas;
     lw_dirty_pools := []; lw_state_generation := 0; lw_lf_pass := 1; lw_max_paths := 10; lw_max_hops := 4;
     lw_cycle_finder := ModeHybrid; lw_prior_rates := ∅; lw_token_decimals := ∅; lw_gas_price_wei := None;
     lw_flash_liquidity := FlashLiquidity.new; lw_force_cycle_refind := negb (is_empty observed);
     lw_observed_pool_indices := observed |}.

Abbreviation demo_pass work :=
  (run_lf_cpu_work (λ x, x) demo_hash (λ l, Z.of_nat (length l)) (λ _ s, s) (λ _, 0) (λ _, 0) (λ _, 0) 0 work demo_thread).

Abbreviation quiet_cache := (cache_new 4 100).

Definition demo_cache_start : GraphCache := (advance_pass (with_intervals 4 4)).2.

(** The cycles a pass publishes, and the cache of the next pass. *)
Definition pass_out (r : outcome (LfCpuResult * GraphCache * StateCache * SearchThread)) : list FoundCycle * GraphCache :=
  match r with Done (r, gc, _, _) => (lr_cycles r, (advance_pass gc).2) | Panic => ([], demo_cache_start) end.

Lemma lf_pass_keeps_cache_witness :
  length (pass_out (demo_pass (demo_work demo_cache_start quiet_cache []))).1 = 3%nat ∧
  ∀ res gc' cache' th', demo_pass (demo_work demo_cache_start quiet_cache []) = Done (res, gc', cache', th') →
    cache_ok (λ x, x) 10 gc' ∧ gc_graph gc' = Some (lr_graph res).
Proof.
  split; [vm_compute; reflexivity|]. intros res gc' cache' th' Hr.
  destruct (lf_pass_keeps_cache (λ x, x) demo_hash (λ l, Z.of_nat (length l)) (λ _ s, s) (λ _, 0) (λ _, 0) (λ _, 0) 0
    (demo_work demo_cache_start quiet_cache []) demo_thread res gc' cache' th') as (H1 & _ & H2 & _).
  - split; intros x Hx; discriminate Hx.
  - exact demo_dfs_names.
  - split; [exact no_marks_clear|exact no_scratch_clean].
  - exact Hr.
  - split; [exact H1|exact H2].
Defined.

(** A cache with the triangle and its cycle, from an earlier generation. *)
Definition demo_cache_held : GraphCache :=
  (advance_pass (store (with_intervals 4 4) demo_rescored_graph (Some [demo_ring3]) 3
     (layout_fp (demo_work demo_cache_start quiet_cache [])) 7 3 3)).2.

Definition demo_plan_held : Plan :=
  {| pl_eligible := 3; pl_needs_rebuild := false; pl_connectivity_stale := false; pl_cycle_cache_valid := true;
     pl_prior_cycles := Some [demo_ring3] |}.

Lemma demo_plan_eq observed : lf_plan demo_hash (λ _, 0) (demo_work demo_cache_held quiet_cache observed) demo_cache_held = Done demo_plan_held.
Proof. vm_compute. reflexivity. Qed.

Lemma stored_ok ln_f64 m gc g c cs n fp gen e p : reachable ln_f64 g → (length (c :: cs) ≤ m)%nat →
  cache_ok ln_f64 m (advance_pass (store gc g (Some (c :: cs)) n fp gen e p)).2.
Proof. intros Hr Hl. split; cbn; intros ? [= <-]; done. Qed.

Lemma demo_held_ok : cache_ok (λ x, x) 10 demo_cache_held.
Proof. apply stored_ok; [exact demo_reachable|]. cbn. lia. Qed.

Abbreviation demo_patch :=
  (lf_patch (λ x, x) demo_hash (λ _, 0) (demo_work demo_cache_held quiet_cache [0]) demo_plan_held demo_cache_held).

Lemma refind_decision_exact_witness :
  match demo_patch with Done pt => length (default [] (gc_cycles (pt_cache pt))) | Panic => 0%nat end = 1%nat ∧
  ∀ pt, demo_patch = Done pt → need_cycle_refind (demo_work demo_cache_held quiet_cache [0]) demo_plan_held pt = true.
Proof.
  split; [vm_compute; reflexivity|]. intros pt Hpt.
  apply (refind_decision_exact (λ x, x) demo_hash (λ _, 0) (demo_work demo_cache_held quiet_cache [0]) demo_plan_held pt
           demo_held_ok demo_dfs_names (demo_plan_eq [0]) Hpt).
  right; right; left. reflexivity.
Defined.

Lemma quiet_pass_reuses_cycles_witness :
  length (pass_out (demo_pass (demo_work demo_cache_held quiet_cache []))).1 = 1%nat ∧
  ∀ res gc' cache' th', demo_pass (demo_work demo_cache_held quiet_cache []) = Done (res, gc', cache', th') →
    th' = demo_thread.
Proof.
  split; [vm_compute; reflexivity|]. intros res gc' cache' th' Hr.
  refine (proj1 (proj2 (quiet_pass_reuses_cycles (λ x, x) demo_hash (λ l, Z.of_nat (length l)) (λ _ s, s) (λ _, 0) (λ _, 0) (λ _, 0) 0
    (demo_work demo_cache_held quiet_cache []) demo_thread demo_plan_held demo_rescored_graph demo_ring3 [] res gc' cache' th'
    eq_refl eq_refl (demo_plan_eq []) eq_refl eq_refl eq_refl _ eq_refl Hr))).
  vm_compute. discriminate.
Defined.

(** Each pass for an observed pool publishes the pinned cycles it finds beside the copies the cache
    already had: after two of them, seven cycles of four routes. *)
Lemma observed_passes_duplicate :
  let gc1 := (pass_out (demo_pass (demo_work demo_cache_start quiet_cache []))).2 in
  let gc2 := (pass_out (demo_pass (demo_work gc1 quiet_cache [0]))).2 in
  let out := (pass_out (demo_pass (demo_work gc2 quiet_cache [0]))).1 in
  length out = 7%nat ∧ length (remove_dups (fc_edges <$> out)) = 4%nat.
Proof. vm_compute. split; reflexivity. Qed.

(** A write that lands between the drain of the dirty set and the reading of the generation is
    counted in the generation of the pass but not in its states. *)
Lemma generation_outruns_overlay :
  let cache := cache_new 4 100 in
  let write (k : nat) s := if (k =? 2)%nat then cache_insert map_to_list 0 s 500 PInvalid else s in
  let w := overlay_dirty_cache_states write (λ _, 0) (demo_work demo_cache_start cache []) in
  lw_state_generation w = 1 ∧ lw_dirty_pools w = [] ∧
  (ce_state <$> sc_inner (lw_cache w) !! 500) = Some PInvalid ∧
  pool_state (lw_arena w) 0 = pool_state demo_triangle 0 ∧ pool_state demo_triangle 0 ≠ Some PInvalid.
Proof. vm_compute. split_and!; (reflexivity || discriminate). Qed.
