(* ===== verification/Snapshot.v ===== *)
(** * The cycles a pass selects for the snapshot

    The selection in [run_lf_tick] of [src/src/orchestrator/lf.rs], after the work on the processor:
    the published cycles are priced again on the states with their ticks, the dead ones
    go, and what is left is filled up so that one bad reading does not empty the snapshot.
    What follows in that function is not here: the rates of the tick, the pools attached
    for them, and the filter on priced starts ([CycleFilter] has that filter). *)
From stdpp Require Import gmap sorting.
From Corelib Require Import SpecFloat.
From S2P Require Import Prelude Word Types Profit Arena Routes TokenRates CycleRank SpotPrice Graph GraphClaims CycleFilterClaims CycleSearchClaims LowFreq LowFreqClaims.

Definition MIN_POST_RATIO_SNAP : nat := 128.

(** The pinned cycles kept beside others. *)
Definition LIVE_HELD_CAP : nat := 32.

(** [SpotTable::populate_from_graph] *)
Definition populate_from_graph (self : SpotTable) (graph : RoutingGraph) : SpotTable :=
  fold_left (λ table ge,
    if (bool_decide (ge_phase ge ≠ Direct) || is_zero (ge_ratio ge))%bool then table
    else set_ratio table (ge_edge ge) (ge_ratio ge)) (concat (rg_adjacency graph)) self.

(** [c.score >= DEAD_EDGE_LOG_WEIGHT] *)
Definition dead_score (c : FoundCycle) : bool := SFleb DEAD_EDGE_LOG_WEIGHT (fc_score c).

(** [if hard.len() < MIN_POST_RATIO_SNAP { .. }]: the best of [more] up to the floor. *)
Definition fill_up (hard more : list FoundCycle) : list FoundCycle :=
  if ((length hard <? MIN_POST_RATIO_SNAP)%nat && negb (is_empty more))%bool
  then hard ++ take (MIN_POST_RATIO_SNAP - length hard) (sort_by compare_cycle_execution more)
  else hard.

(** The cycles before the repricing whose route is not in [seen], each route once; one that is dead or
    without a ratio is seen and left out. *)
Fixpoint structural_of (seen : list (list Edge)) (pre : list FoundCycle) : list FoundCycle :=
  match pre with
  | [] => []
  | c :: pre =>
      if bool_decide (fc_edges c ∈ seen) then structural_of seen pre
      else if (SFltb (fc_score c) DEAD_EDGE_LOG_WEIGHT && negb (is_zero (fc_cycle_ratio c)))%bool
      then c :: structural_of (fc_edges c :: seen) pre
      else structural_of (fc_edges c :: seen) pre
  end.

(** What is kept of the repriced cycles; [pre] is what they were before. *)
Definition keep_repriced (pre repriced : list FoundCycle) : list FoundCycle :=
  let live := filter (λ c, dead_score c = false) repriced in
  let zeroed := filter (λ c, fc_cycle_ratio c = 0) live in
  let priced := filter (λ c, fc_cycle_ratio c ≠ 0) live in
  let clears c := min_profitable_cycle_ratio (edge_hops c) <=? fc_cycle_ratio c in
  let hard := filter (λ c, clears c = true) priced in
  let soft := filter (λ c, clears c = false) priced in
  let hard := fill_up (fill_up hard soft) zeroed in
  if ((length hard <? MIN_POST_RATIO_SNAP)%nat && (length hard <? length pre)%nat)%bool
  then hard ++ take (MIN_POST_RATIO_SNAP - length hard)
                 (sort_by compare_cycle_execution (structural_of (fc_edges <$> hard) pre))
  else hard.

Section snapshot.
Context (ln_f64 ln_1p : f64 → f64) (fees : FlashFees) (cycle_key : list Edge → Z).

Definition reprice (arena : StateArena) (table : SpotTable) (gas : option Z) (rates decimals : gmap Z Z) (cycles : list FoundCycle)
    : outcome (list FoundCycle) :=
  rescore_cycles_with_table_and_gas ln_f64 ln_1p fees arena table cycles gas (Some rates) (Some decimals) None.

(** The held cycles in front of the others. *)
Definition merge_held (max_paths : nat) (held capped : list FoundCycle) : list FoundCycle :=
  let held := sort_by compare_cycle_execution held in
  if is_empty capped then finalize_enumerated_cycles cycle_key held max_paths
  else push_unseen max_paths capped (take LIVE_HELD_CAP held).

(** [cached] is what the cache holds by then. *)
Definition post_cpu_cycles (arena : StateArena) (graph : RoutingGraph) (observed_pin : list PoolIndex) (gas : option Z)
    (rates decimals : gmap Z Z) (max_paths : nat) (cached : option (list FoundCycle)) (cycles : list FoundCycle)
    : outcome (list FoundCycle) :=
  let held := filter (λ c, touches observed_pin c = true) cycles in
  let capped := filter (λ c, touches observed_pin c = false) cycles in
  let table := populate_from_graph ∅ graph in
  let! repriced := reprice arena table gas rates decimals capped in
  let capped := finalize_enumerated_cycles cycle_key (keep_repriced capped repriced) (max_paths - length held) in
  let! capped :=
    (if is_empty held then Done capped
     else let! held := reprice arena table gas rates decimals held in Done (merge_held max_paths held capped)) in
  Done (match capped, cached with
        | [], Some ((_ :: _) as prior) => finalize_enumerated_cycles cycle_key prior max_paths
        | _, _ => capped
        end).
End snapshot.

(** ** Repricing keeps the routes *)

(** The same route, from the same start. *)
Definition same_route (c d : FoundCycle) : Prop := fc_edges d = fc_edges c ∧ fc_start_token d = fc_start_token c.

Lemma reprice_routes ln_f64 ln_1p fees arena table gas rates decimals cycles : ∀ out,
  reprice ln_f64 ln_1p fees arena table gas rates decimals cycles = Done out → Forall2 same_route cycles out.
Proof.
  unfold reprice. induction cycles as [|c cs IH]; intros out; cbn; [intros [= <-]; constructor|].
  intros (d & (r & _ & Hd)%obind_Done & (ds & Hds & [= <-])%obind_Done)%obind_Done.
  constructor; [|by apply IH]. destruct r as [[[w f] p] dead]. by injection Hd as <-.
Qed.

Lemma route_before cycles out d : Forall2 same_route cycles out → d ∈ out → ∃ c, c ∈ cycles ∧ same_route c d.
Proof.
  intros H (i & Hi)%list_elem_of_lookup_1. destruct (Forall2_lookup_r _ _ _ _ _ H Hi) as (c & Hc & Hs).
  exists c. split; [by eapply list_elem_of_lookup_2|done].
Qed.

Lemma fill_up_part hard more c : c ∈ fill_up hard more → c ∈ hard ∨ c ∈ more.
Proof.
  unfold fill_up. destruct (_ && _)%bool; [|by left]. intros [?|Hc]%elem_of_app; [by left|right].
  eapply elem_of_submseteq in Hc; [|apply sublist_submseteq, sublist_take]. by apply elem_of_sort_by in Hc.
Qed.

Lemma length_fill_up hard more : (length (fill_up hard more) ≤ length hard + length more)%nat.
Proof.
  unfold fill_up. destruct (_ && _)%bool; [|lia]. rewrite length_app, length_take.
  rewrite (Permutation_length (sort_by_perm _ more)). lia.
Qed.

(** Below the floor, nothing is left out. *)
Lemma fill_up_all hard more : (length hard + length more ≤ MIN_POST_RATIO_SNAP)%nat → fill_up hard more ≡ₚ hard ++ more.
Proof.
  intros Hl. unfold fill_up. destruct more as [|m more]; [by rewrite andb_false_r, app_nil_r|].
  rewrite (proj2 (Nat.ltb_lt _ _)) by (cbn [length] in Hl; lia). cbn [andb negb is_empty].
  rewrite take_ge by (rewrite (Permutation_length (sort_by_perm _ _)); lia). by rewrite sort_by_perm.
Qed.

Lemma structural_part seen pre c : c ∈ structural_of seen pre → c ∈ pre.
Proof.
  revert seen. induction pre as [|d pre IH]; intros seen; cbn; [done|]. rewrite elem_of_cons.
  case_bool_decide; [right; by eapply IH|]. destruct (_ && _)%bool; [intros [?|?]%elem_of_cons; [by left|]|]; right; by eapply IH.
Qed.

(** Every live route that was not seen is restored. *)
Lemma structural_covers seen pre c : c ∈ pre → SFltb (fc_score c) DEAD_EDGE_LOG_WEIGHT = true → fc_cycle_ratio c ≠ 0 →
  (∀ d, d ∈ pre → fc_edges d = fc_edges c → d = c) →
  fc_edges c ∈ seen ∨ c ∈ structural_of seen pre.
Proof.
  intros Hc Hs Hr. revert seen. induction pre as [|d pre IH]; intros seen Hu; [by apply elem_of_nil in Hc|].
  apply elem_of_cons in Hc. cbn [structural_of]. case_bool_decide as Hd.
  - destruct Hc as [->|Hc]; [by left|]. apply IH; [done|]. intros e He. apply Hu. by right.
  - destruct Hc as [E|Hc].
    + subst d. rewrite Hs. unfold is_zero. rewrite (proj2 (Z.eqb_neq _ _) Hr). right; left.
    + assert (∀ e, e ∈ pre → fc_edges e = fc_edges c → e = c) as Hu' by (intros e He; apply Hu; by right).
      destruct (IH Hc (fc_edges d :: seen) Hu') as [Hin|Hin].
      * apply elem_of_cons in Hin as [E|?]; [|by left]. pose proof (Hu d ltac:(left) (eq_sym E)); subst d. rewrite Hs. unfold is_zero.
        rewrite (proj2 (Z.eqb_neq _ _) Hr). right; left.
      * right. destruct (_ && _)%bool; [by right|done].
Qed.

Lemma structural_sublist seen pre : sublist (structural_of seen pre) pre.
Proof.
  revert seen. induction pre as [|c pre IH]; intros seen; cbn [structural_of]; [constructor|].
  case_bool_decide; [by apply sublist_cons|]. destruct (_ && _)%bool; by constructor.
Qed.

Lemma structural_unseen seen pre c : c ∈ structural_of seen pre → fc_edges c ∉ seen.
Proof.
  revert seen. induction pre as [|d pre IH]; intros seen; cbn [structural_of]; [by intros ?%elem_of_nil|].
  case_bool_decide as Hd; [apply IH|]. destruct (_ && _)%bool; rewrite ?elem_of_cons; [intros [->|Hc]; [done|]|intros Hc];
    apply IH in Hc; set_solver.
Qed.

Lemma keep_part pre repriced c : c ∈ keep_repriced pre repriced → c ∈ repriced ∨ c ∈ pre.
Proof.
  unfold keep_repriced. cbv zeta. set (hard := fill_up _ _).
  assert (c ∈ hard → c ∈ repriced) as Hh.
  { intros [[Hc|Hc]%fill_up_part|Hc]%fill_up_part; repeat (apply list_elem_of_filter in Hc as [_ Hc]); done. }
  destruct (_ && _)%bool; [|by left; apply Hh]. intros [?|Hc]%elem_of_app; [by left; apply Hh|right].
  eapply elem_of_submseteq in Hc; [|apply sublist_submseteq, sublist_take]. apply elem_of_sort_by in Hc. by eapply structural_part.
Qed.

Lemma filter_complement {A} (P Q : A → Prop) `{!∀ x, Decision (P x), !∀ x, Decision (Q x)} l : (∀ x, Q x ↔ ¬ P x) →
  filter P l ++ filter Q l ≡ₚ l.
Proof.
  intros Hpq. induction l as [|x l IH]; [done|]. rewrite !filter_cons.
  destruct (decide (P x)) as [HP|HP], (decide (Q x)) as [HQ|HQ]; [by apply Hpq in HQ| | |by destruct HQ; apply Hpq].
  - rewrite <- app_comm_cons. by rewrite IH.
  - rewrite <- Permutation_middle. by rewrite IH.
Qed.

Lemma same_routes pre repriced : Forall2 same_route pre repriced → fc_edges <$> repriced = fc_edges <$> pre.
Proof. induction 1 as [|c d l k [H _] _ IH]; cbn; congruence. Qed.

(** Of fewer cycles than the floor, every route that was live before the repricing is kept. *)
Lemma keep_covers pre repriced c : Forall2 same_route pre repriced → NoDup (fc_edges <$> pre) →
  (length pre < MIN_POST_RATIO_SNAP)%nat → c ∈ pre → SFltb (fc_score c) DEAD_EDGE_LOG_WEIGHT = true → fc_cycle_ratio c ≠ 0 →
  ∃ d, d ∈ keep_repriced pre repriced ∧ fc_edges d = fc_edges c.
Proof.
  intros H2 Hnd Hl Hc Hs Hr. pose proof (same_routes _ _ H2) as He. pose proof (Forall2_length _ _ _ H2) as Hlen.
  unfold keep_repriced. cbv zeta. set (live := filter (λ c, dead_score c = false) repriced).
  set (zeroed := filter (λ c, fc_cycle_ratio c = 0) live). set (priced := filter (λ c, fc_cycle_ratio c ≠ 0) live).
  set (hard := filter _ priced). set (soft := filter (λ c, (min_profitable_cycle_ratio (edge_hops c) <=? fc_cycle_ratio c) = false) priced).
  assert (length live ≤ length repriced)%nat as Hll by apply length_filter.
  assert (hard ++ soft ≡ₚ priced) as P1.
  { apply filter_complement. intros x. destruct (_ <=? _); naive_solver. }
  assert (priced ++ zeroed ≡ₚ live) as P2 by (apply filter_complement; intros x; lia).
  pose proof (Permutation_length P1) as L1. pose proof (Permutation_length P2) as L2. rewrite length_app in L1, L2.
  assert (fill_up (fill_up hard soft) zeroed ≡ₚ live) as Hk.
  { rewrite fill_up_all; [|rewrite fill_up_all, length_app by lia; lia]. rewrite fill_up_all by lia. by rewrite P1. }
  set (kept := fill_up _ zeroed) in *. rewrite (Permutation_length Hk).
  rewrite (proj2 (Nat.ltb_lt (length live) _)) by lia. cbn [andb].
  destruct (Nat.ltb_spec (length live) (length pre)) as [Hlt|Hge].
  - set (st := structural_of (fc_edges <$> kept) pre).
    destruct (structural_covers (fc_edges <$> kept) pre c Hc Hs Hr) as [Hin|Hin].
    { intros d Hd Hde. apply (list_elem_of_lookup_1) in Hc as [i Hi]. apply (list_elem_of_lookup_1) in Hd as [j Hj].
      assert (i = j) as ->; [|congruence]. eapply (NoDup_lookup _ i j (fc_edges c) Hnd); rewrite list_lookup_fmap; [by rewrite Hi|].
      rewrite Hj. cbn. by rewrite Hde. }
    + apply list_elem_of_fmap in Hin as (d & Hd & Hin). exists d. split; [apply elem_of_app; by left|done].
    + exists c. split; [|done]. apply elem_of_app. right.
      assert (length live + length st ≤ length pre)%nat as Hroom.
      { rewrite <- (Permutation_length Hk), <- length_app, <- (length_fmap fc_edges), <- (length_fmap fc_edges pre).
        apply submseteq_length, NoDup_submseteq.
        - rewrite fmap_app. apply NoDup_app. split_and!.
          + rewrite Hk. eapply submseteq_NoDup; [|by rewrite He]. apply sublist_submseteq, sublist_filter.
          + intros e Hek (d & -> & Hd)%list_elem_of_fmap. by apply structural_unseen in Hd.
          + eapply submseteq_NoDup; [|exact Hnd]. apply sublist_submseteq, structural_sublist.
        - intros e. rewrite fmap_app. intros [Hek|(d & -> & Hd)%list_elem_of_fmap]%elem_of_app.
          + rewrite Hk in Hek. rewrite <- He. apply list_elem_of_fmap in Hek as (d & -> & [_ Hd]%list_elem_of_filter).
            by apply list_elem_of_fmap_2.
          + apply list_elem_of_fmap_2. by eapply structural_part. }
      rewrite take_ge by (rewrite (Permutation_length (sort_by_perm _ _)); fold st; lia). by apply elem_of_sort_by.
  - apply list_elem_of_fmap_2 with (f := fc_edges) in Hc. rewrite <- He in Hc. apply list_elem_of_fmap in Hc as (d & Hd & Hin).
    exists d. split; [|done]. rewrite Hk. apply list_elem_of_filter. split; [|done].
    destruct (decide (dead_score d = false)) as [|Hn]; [done|].
    pose proof (length_filter_lt (λ c, dead_score c = false) _ _ Hin Hn) as Hx. change (length live < length repriced)%nat in Hx. lia.
Qed.

(** ** The snapshot *)

Section snapshot_spec.
Context (ln_f64 ln_1p : f64 → f64) (fees : FlashFees) (cycle_key : list Edge → Z).

(** The selection keeps every route when the quota allows: when the routes are among those of [base]. *)
Lemma finalize_covers base cycles n c : (∀ d, d ∈ cycles → fc_edges d ∈ fc_edges <$> base) → (length base ≤ n)%nat → c ∈ cycles →
  ∃ d, d ∈ finalize_enumerated_cycles cycle_key cycles n ∧ fc_edges d = fc_edges c.
Proof.
  intros Hb Hl Hc. destruct (diverse_selection_keeps cycle_key cycles n) as (Hlen & Hin & _).
  destruct (dedupe_spec cycle_key cycles) as (Dn & _ & Dp & Dc). destruct (Dc c Hc) as (d & Hd & Hde & _).
  assert (length (dedupe_cycles_by_edges cycle_key cycles) ≤ length base)%nat as Hpool.
  { rewrite <- (length_fmap fc_edges), <- (length_fmap fc_edges base). apply submseteq_length, NoDup_submseteq; [done|].
    intros e (x & -> & Hx)%list_elem_of_fmap. by apply Hb, Dp. }
  exists d. split; [|done]. unfold finalize_enumerated_cycles. rewrite (submseteq_length_Permutation _ _ Hin) by lia. done.
Qed.

Lemma finalize_NoDup cycles n : NoDup (fc_edges <$> finalize_enumerated_cycles cycle_key cycles n).
Proof.
  destruct (diverse_selection_keeps cycle_key cycles n) as (_ & Hin & _). eapply submseteq_NoDup; [exact Hin|]. apply dedupe_spec.
Qed.

Lemma finalize_nonempty cycles n : (0 < n)%nat → cycles ≠ [] → finalize_enumerated_cycles cycle_key cycles n ≠ [].
Proof.
  intros Hn Hc E. destruct (diverse_selection_keeps cycle_key cycles n) as (Hl & _). unfold finalize_enumerated_cycles in E.
  rewrite E in Hl. destruct cycles as [|c cs]; [done|]. destruct (dedupe_spec cycle_key (c :: cs)) as (_ & _ & _ & Dc).
  destruct (Dc c ltac:(left)) as (d & Hd & _). unfold dedupe_cycles_by_edges in Hl.
  destruct (dedupe_cycles_by_key _ _); [by apply elem_of_nil in Hd|]. cbn in Hl. lia.
Qed.

Lemma no_pin cycles : filter (λ c, touches [] c = true) cycles = [] ∧ filter (λ c, touches [] c = false) cycles = cycles.
Proof.
  assert (∀ c, touches [] c = false) as Ht.
  { intros c. unfold touches. induction (fc_edges c) as [|e es IH]; [done|]. cbn [existsb]. rewrite IH. by rewrite bool_decide_false by set_solver. }
  induction cycles as [|c cs [I1 I2]]; [done|]. rewrite !filter_cons, Ht. cbn. by rewrite I1, I2.
Qed.

Lemma merge_held_part max_paths held capped c : c ∈ merge_held cycle_key max_paths held capped → c ∈ held ∨ c ∈ capped.
Proof.
  unfold merge_held. cbv zeta. destruct (is_empty capped).
  - intros Hc%finalize_part. left. by apply elem_of_sort_by in Hc.
  - intros [?|Hc]%elem_of_push_unseen; [by right|left].
    eapply elem_of_submseteq in Hc; [|apply sublist_submseteq, sublist_take]. by apply elem_of_sort_by in Hc.
Qed.

(** C15: The snapshot is made of the cycles of the pass, priced again or as they were: every one has the
    route and the start of one of them, and a pass that published cycles yields some.  Without
    observed pools it is within the quota with each route once; and when the cycles are fewer
    than the floor of 128 and within the quota, no route that was live before the repricing is
    lost, whatever the repricing made of it. *)
Theorem snapshot_keeps_cycles arena graph observed gas rates decimals max_paths cached cycles snap :
  default [] cached = cycles →
  post_cpu_cycles ln_f64 ln_1p fees cycle_key arena graph observed gas rates decimals max_paths cached cycles = Done snap →
  (∀ d, d ∈ snap → ∃ c, c ∈ cycles ∧ same_route c d) ∧
  ((0 < max_paths)%nat → cycles ≠ [] → snap ≠ []) ∧
  (observed = [] →
    (length snap ≤ max_paths)%nat ∧ NoDup (fc_edges <$> snap) ∧
    (NoDup (fc_edges <$> cycles) → (length cycles < MIN_POST_RATIO_SNAP)%nat → (length cycles ≤ max_paths)%nat →
     ∀ c, c ∈ cycles → SFltb (fc_score c) DEAD_EDGE_LOG_WEIGHT = true → fc_cycle_ratio c ≠ 0 →
     ∃ d, d ∈ snap ∧ fc_edges d = fc_edges c)).
Proof.
  intros Hcached (repriced & H1 & (capped & H2 & [= Hs])%obind_Done)%obind_Done. apply reprice_routes in H1.
  set (rest := filter (λ c, touches observed c = false) cycles) in *.
  set (held := filter (λ c, touches observed c = true) cycles) in *.
  assert (∀ c, c ∈ held ∨ c ∈ rest → c ∈ cycles) as Hin by (by intros c [[_ ?]%list_elem_of_filter|[_ ?]%list_elem_of_filter]).
  assert (observed = [] → held = [] ∧ rest = cycles) as Hno by (intros E; unfold held, rest; rewrite E; apply no_pin).
  clearbody held rest.
  assert (∀ d, d ∈ keep_repriced rest repriced → ∃ c, c ∈ cycles ∧ same_route c d) as Hkeep.
  { intros d [Hd|Hd]%keep_part.
    - destruct (route_before _ _ _ H1 Hd) as (c & Hc & Hr). exists c. split; [auto|done].
    - exists d. split; [auto|done]. }
  assert (∀ d, d ∈ capped → ∃ c, c ∈ cycles ∧ same_route c d) as Hcap.
  { destruct (is_empty held); [injection H2 as <-; intros d Hd%finalize_part; by apply Hkeep|].
    apply obind_Done in H2 as (h2 & Hh%reprice_routes & [= <-]). intros d [Hd|Hd%finalize_part]%merge_held_part; [|by apply Hkeep].
    destruct (route_before _ _ _ Hh Hd) as (c & Hc & Hr). exists c. split; [auto|done]. }
  assert (snap = capped ∨ capped = [] ∧ snap = finalize_enumerated_cycles cycle_key cycles max_paths) as Hsnap.
  { subst snap cycles. destruct capped; [|by left]. destruct cached as [[|c cs]|]; [by left|by right|by left]. }
  split_and!.
  - intros d Hd. destruct Hsnap as [->|[_ ->]]; [by apply Hcap|]. apply finalize_part in Hd. by exists d.
  - intros Hm Hc. destruct Hsnap as [E|[_ ->]]; [|by apply finalize_nonempty]. subst snap cycles.
    destruct capped; [|done]. destruct cached as [[|c cs]|]; [done| |done]. by apply finalize_nonempty.
  - intros E0. destruct (Hno E0) as [-> ->]. cbn [is_empty length] in H2. rewrite Nat.sub_0_r in H2. injection H2 as <-. split_and!.
    + destruct Hsnap as [->|[_ ->]]; apply finalize_part.
    + destruct Hsnap as [->|[_ ->]]; apply finalize_NoDup.
    + intros Hnd Hl Hm c Hc Hlive Hr. destruct (keep_covers _ _ _ H1 Hnd Hl Hc Hlive Hr) as (d & Hd & Hde).
      destruct (finalize_covers cycles (keep_repriced cycles repriced) max_paths d) as (x & Hx & Hxe); [|done|done|].
      { intros y (z & Hz & [Hy _])%Hkeep. rewrite Hy. by apply list_elem_of_fmap_2. }
      exists x. split; [|congruence]. destruct Hsnap as [->|[E _]]; [done|]. rewrite E in Hx. by apply elem_of_nil in Hx.
Qed.
End snapshot_spec.

Lemma length_push_unseen_sum n more : ∀ out, (length (push_unseen n more out) ≤ length out + length more)%nat.
Proof.
  induction more as [|d more IH]; cbn; [lia|]. intros out. case_bool_decide; [etrans; [apply IH|lia]|].
  destruct (_ <=? _)%nat; [rewrite length_app; cbn; lia|]. etrans; [apply IH|]. rewrite length_app. cbn. lia.
Qed.

(** The quota of the others counts every held cycle, of which only 32 are kept: with as many held
    cycles as the quota but one, the snapshot has 33 at most. *)
Lemma held_squeezes_snapshot cycle_key max_paths held kept :
  finalize_enumerated_cycles cycle_key kept (max_paths - length held) ≠ [] →
  (length (merge_held cycle_key max_paths held (finalize_enumerated_cycles cycle_key kept (max_paths - length held)))
     ≤ LIVE_HELD_CAP + (max_paths - length held))%nat.
Proof.
  set (capped := finalize_enumerated_cycles _ _ _). intros Hc. unfold merge_held.
  destruct (finalize_part cycle_key kept (max_paths - length held)) as [Hl _]. fold capped in Hl. cbv zeta.
  destruct (is_empty capped) eqn:E; [by destruct capped|]. etrans; [apply length_push_unseen_sum|]. rewrite length_take. lia.
Qed.

(** ** Witness: the cycle of the triangle, after a pass *)

Abbreviation demo_snapshot :=
  (post_cpu_cycles (λ x, x) (λ x, x) demo_fees (λ l, Z.of_nat (length l)) demo_triangle demo_rescored_graph [] None ∅ ∅ 4
     (Some [demo_ring3]) [demo_ring3]).

Lemma snapshot_keeps_cycles_witness :
  match demo_snapshot with Done snap => length snap | Panic => 0%nat end = 1%nat ∧
  ∀ snap, demo_snapshot = Done snap → ∃ d, d ∈ snap ∧ fc_edges d = fc_edges demo_ring3.
Proof.
  split; [vm_compute; reflexivity|]. intros snap Hs.
  destruct (snapshot_keeps_cycles (λ x, x) (λ x, x) demo_fees (λ l, Z.of_nat (length l)) demo_triangle demo_rescored_graph [] None ∅ ∅ 4
    (Some [demo_ring3]) [demo_ring3] snap eq_refl Hs) as (_ & _ & H).
  destruct (H eq_refl) as (_ & _ & Hc). apply Hc; clear.
  - apply NoDup_singleton.
  - apply Nat.ltb_lt. vm_compute. reflexivity.
  - apply Nat.leb_le. vm_compute. reflexivity.
  - left.
  - vm_compute. reflexivity.
  - vm_compute. discriminate.
Defined.
